(* ===== verification/_CoqProject ===== *)
-Q . S2P
Prelude.v
Crc32.v
ProtectedStore.v
CriticalObject.v
OwnedStore.v
SchedulingPolicy.v
Layout.v
ProtectedRecord.v
Handover.v
HandoverReplica.v
TerminalInput.v
PathResolver.v
ArpCache.v
AtaJournal.v
AtaDisk.v
AtaRecovery.v
AtaAdmission.v
FileObjectGuard.v
FileObjectGuardSpec.v
FileObjectGuardBodies.v
FileObjectGuardProps.v
Heap.v
HeapSpec.v
HeapOps.v
HeapFree.v
HeapResize.v
HeapSafe.v
HeapClient.v
HeapProps.v
ComponentControl.v
ComponentControlSpec.v
ComponentControlProps.v
PieceDocument.v
PieceDocumentSpec.v
PieceDocumentProps.v
Ipc.v
IpcSpec.v
IpcPlain.v
IpcHelpers.v
IpcCaps.v
IpcQueue.v
IpcCalls.v
IpcControl.v
IpcRefine.v
IpcAuthority.v
IpcProps.v
IpcDelivery.v
RegisterStore.v
StorageRequestPool.v
StorageRequestPoolSpec.v
StorageRequestPoolLife.v
StorageRequestPoolInv.v
StorageRequestPoolBodies.v
StorageRequestPoolRuns.v
StorageRequestPoolTrace.v
StorageRequestPoolProps.v
SectorIo.v
Fat12Journal.v
Fat12Remap.v
Fat12Replica.v
Fat12Recovery.v
Fat12Volume.v
Fat12VolumeSpec.v
Fat12VolumeProps.v
Fat12Entries.v
Fat12RemapProps.v
WaitQueue.v
