(* ===== verification/Prelude.v ===== *)
(** Verification of core components of the REIST-OS kernel and user space.

    * The program

    REIST-OS (src/) is an operating system in C for i386 and x86-64 built
    around a small trusted core that expects memory upsets, crashes, power
    loss and hung services.  The development covers the parts that carry that
    promise, the ones whose state is data rather than hardware registers:

    - critical objects keep a value redundantly and repair it
      (src/kernel/init/critical_object.c);
    - their clients: the hand-over of the active role between two nodes
      (handover.c, handover_replica.c), the table of administered components
      (component_control.c), the reservations on file objects
      (file_object_guard.c), the supervised ARP cache
      (src/drivers/net/arp_binding_cache.c);
    - the undo journal that makes a group of sector writes atomic
      (src/drivers/block/ata_journal.c);
    - the sector layer of the FAT12 volume: its undo journal, the table of
      replaced sectors, the replicas of critical files, and mounting, reading,
      writing and the packed table in front of them (src/fs/fat12/fat12.c,
      fat12_journal.c, fat12_remap.c, fat12_replica.c, fat12_critical.c);
    - the scheduling policy (src/kernel/sched/scheduling_policy.c), the
      wait queues (src/kernel/sched/wait_queue.c), the terminal input queue
      and its foreground stack
      (src/kernel/proc/terminal_input.c), the path resolution of the shell
      (src/kernel/shell/path_resolver.c), and the heap of user programs
      (src/userspace/libc/lib/heap.c);
    - capability-checked message passing between processes
      (src/kernel/ipc/ipc.c);
    - the request pool between clients, the kernel and the storage service
      (src/kernel/init/storage_request_pool.c);
    - the piece table of the text editor
      (src/userspace/gui/lib/piece_document.c).

    * The files

    The model of a component is a Module named like its file; it holds the
    data with the names of the source, one definition per function, and the
    loops as Fixpoints beside it.  Everything is executable.

    - [Prelude]: machine integers (a value in its range, wrap-around written
      out), list lemmas, tactics, hints.
    - [Crc32]: the two CRC-32 algorithms of the tree and what they detect.
    - [ProtectedStore], [Layout], [ProtectedRecord]: the interface of a
      protected store, structs as bytes, and the load/store helpers the
      clients repeat.
    - [CriticalObject]: critical_object.c, and the instance of the interface.
    - [OwnedStore]: the same interface for owners that look at the lock word;
      [RegisterStore]: the reference store, on which witnesses evaluate.
    - [SchedulingPolicy], [WaitQueue], [TerminalInput], [PathResolver]: one
      file each, definitions and theorems.
    - [Handover], [HandoverReplica], [ArpCache]: clients of the interface.
    - [AtaJournal] (the code), [AtaDisk] (drives with volatile caches, as an
      interface and an implementation), [AtaRecovery] (crash atomicity),
      [AtaAdmission] (what an attach may write on an arbitrary volume).
    - [FileObjectGuard] (the code), [FileObjectGuardSpec] (meaning of a locked
      body, validity, moves), [FileObjectGuardBodies] (every body),
      [FileObjectGuardProps].
    - [Heap] (the code), [HeapSpec], [HeapOps], [HeapFree], [HeapResize] (the
      operations on an abstract heap), [HeapSafe] (arbitrary metadata),
      [HeapClient] (the abstract allocator), [HeapProps].
    - [ComponentControl] (the code), [ComponentControlSpec] (transitions),
      [ComponentControlProps].
    - [PieceDocument] (the code), [PieceDocumentSpec] (documents as lists of
      bytes), [PieceDocumentProps].
    - [Ipc] (the code; a locked region is a [prog] over the statics and the
      stores), [IpcSpec] (seals and the cost of a program), [IpcPlain] (the
      same programs without stores, and when both agree), [IpcHelpers],
      [IpcCaps], [IpcQueue], [IpcCalls], [IpcControl] (references of the helpers and
      calls), [IpcRefine] (sequences of calls), [IpcAuthority] (the
      capability system), [IpcProps], [IpcDelivery] (what became of messages).
    - [StorageRequestPool] (the code; a locked region is a [prog], a bulk call
      two of them with a copy between), [StorageRequestPoolSpec] (meaning of a
      region on the contents of the stores), [StorageRequestPoolLife] (the
      invariant and the moves of the protocol with the party entitled to
      each), [StorageRequestPoolInv] (moves keep the invariant),
      [StorageRequestPoolBodies] (regions consist of moves),
      [StorageRequestPoolRuns] (sequences of events), [StorageRequestPoolTrace]
      (what moves do to one request), [StorageRequestPoolProps].

    - [SectorIo] (a device that reads and writes sectors, as an interface with
      laws, and a floppy whose power fails), [Fat12Journal], [Fat12Remap],
      [Fat12Replica] (the code of the three files behind fat12.c),
      [Fat12Recovery] (what recovery makes of a medium), [Fat12Volume] (the code
      of fat12.c on one volume), [Fat12VolumeSpec] (mounts, transactions and
      calls), [Fat12VolumeProps] (requests), [Fat12Entries] (the packed table),
      [Fat12RemapProps] (the table of replacements).

    * How the parts interact

    handover.c, handover_replica.c, component_control.c, file_object_guard.c,
    arp_binding_cache.c, storage_request_pool.c and ipc.c call
    critical_object_init, _update and _read on objects they own.  Here they are functions of any [ProtectedStore], and
    their theorems use [ProtectedStoreLaws] only; [CriticalObject] proves the
    laws, so each theorem holds of the linked program, and the witnesses run
    over critical objects (those of the request pool mostly over
    [RegisterStore]).  All but ipc.c share [ProtectedRecord]:
    [load_record] and [store_record] are the read and write helpers each of
    those C files has for itself; [Ipc] has its own, because it also looks
    whether an object was ever initialised ([Ipc.BlankStore]).  The scheduler
    is a list of recorded calls there, and the process table may change
    between requests.  [CriticalObject] and [AtaJournal] seal with
    the functions of [Crc32].  [AtaJournal] takes the drive as a record of
    callbacks, as the C code does; [AtaDisk.DiskLaws] says what a drive
    promises and [PowerDisk] is a drive that keeps it.
    [Fat12Volume] calls the journal, the replacements and the replicas as
    fat12.c does, over any [SectorIo.SectorLaws] device.

    * The theorems

    - Critical objects: any single-bit upset of each word, or any damage to
      one copy, is repaired by the next read; an update is atomic at every
      prefix of its stores; a critical object refines a register.
    - Hand-over: in every interleaving of the locked parts, while the clock of the callers does not run
      backwards, a take-over needs the fence of the old epoch, an epoch has one active node, an expired
      lease can be handed over; a replica accepts a frame exactly when it is
      authentic and newer.
    - Component control: after any sequence of requests, ends of processes and
      polls no component is stuck in a transition; requests keep the set of
      ready components closed under dependencies; bringing one up fails
      closed.
    - File objects: over every sequence of calls the records stay valid, a
      granted reservation finds no conflicting pin active, exclusive ones
      included, and none becomes active while it lasts, and an uncertain effect
      fences its resource.
    - ARP: a revoked or expired binding is not resurrected, a commit binds the
      announced address.
    - ATA journal: for every point of power loss and every order in which a
      drive's cache drains, recovery leaves the disk before or after the
      transaction; reads inside a transaction see its writes; an attach writes
      nothing that a fully checked record does not plan.
    - FAT12: a request to sectors without a replacement takes effect as a whole
      or not at all, as seen by every later mount that succeeds; two limits of
      the code are theorems: a power failure between the two headers of a commit
      makes every later recovery refuse the volume, and a rollback does not
      reach the replacement of a sector.  Adding a replacement is atomic, and
      the packed table is an array of 12-bit entries.
    - Scheduling: the selection serves the highest ready class with budget,
      inheritance is the maximum over blocked chains, a cycle starves no task
      that every call's freshly built table offers in one class, budgets are
      accounted exactly or latched as a clock fault.
    - Wait queues: the pointers are the lists they stand for, and a queue that
      is filled by deadline is emptied by deadline.
    - Terminal input: the byte ring is a queue, foreground control refines a
      stack of live processes and a process reads only its own input.
    - Paths: normalisation refines a list of components inside the caller's
      buffers.
    - Heap: a finite map from addresses to bytes is refined by malloc, calloc,
      realloc and free; an arena whose objects have all been freed is whole
      again; on a started heap with arbitrary metadata every call stays inside
      its arrays and ends, and an altered block is detected by the next call
      that reads the heap.
    - Piece table: edits and reads are those of a list of bytes, within the
      stated room none is refused, and streaming writes the text.
    - IPC: from [ipc_init], any sequence of calls gives the answers of the IPC
      without critical objects; records and endpoints form a capability
      system in which authority is only created by [ipc_create], only passed
      on by [ipc_delegate] without amplification, and ends with [ipc_close],
      [ipc_release] or the process; a closed handle stays dead; messages of a
      sender arrive once and in order.
    - Request pool: every sequence of calls and copies consists of moves that
      their callers are entitled to, or poisons the pool; a possible effect of
      a mutation stays on record or fences its resource; a fenced resource or a
      poisoned pool gives no authority; a spent handle stays dead; claims,
      collections and bulk transfers deliver the bytes that were put in.

    A property is a theorem whose comment starts with C and a number; where it
    has hypotheses, a theorem of the same name with the suffix [_witness]
    applies it to a concrete state.

    * Bounds and fuel

    A loop of C with a constant bound is a Fixpoint on the list of its
    indices.  Loops without one carry fuel: the chain walks of the heap have
    [Heap.chain_fuel], more than the block array, and
    [HeapProps.heap_validation_ends] shows that it never runs out; the copy loops of the path
    resolver have the size of the buffer, and the theorems state that calls
    return.  A request of the IPC publishes at most [IpcRefine.request_cost]
    values.  Sequence numbers of critical objects are 32 bits and do not
    wrap: an exhausted object refuses; theorems about runs carry the room they
    need as a hypothesis or state the refusal.

    * What is not modelled

    Interrupt masking and spin locks have no state: a locked region is one
    step.  Where the code gives a lock up in the middle (the fence of the
    hand-over, the actions of component control, the copies of the request
    pool) the model is split there and
    other calls come in between.  Callbacks do not re-enter the component that
    calls them, which the headers demand.  Hardware access, the functions the
    test builds add, and every component the manifest lists as not modelled
    are outside: their effect on a modelled component is a parameter.

    Of the FAT12 code the directories and files above the sectors are left out;
    of the editor the index of wrapped lines.  Mutexes, processes and the
    scheduler around its policy block and switch tasks, and the network stack,
    the other file systems and the drivers work on hardware or on formats that
    no modelled part depends on. *)
From Stdlib Require Export ZArith Lia Btauto.
From stdpp Require Export base tactics decidable option list numbers.

#[export] Set Default Goal Selector "!".
Open Scope Z_scope.

(** ** Machine integers

    An unsigned C integer is a [Z] in its range; the [uN] functions are the
    conversions the C rules apply to results that leave the range. *)
Definition UINT8_MAX : Z := 255.
Definition UINT32_MAX : Z := 4294967295.
Definition INT32_MAX : Z := 2147483647.
Definition UINT64_MAX : Z := 18446744073709551615.

Definition u8 (x : Z) : Z := x mod 256.
Definition u16 (x : Z) : Z := x mod 65536.
Definition u32 (x : Z) : Z := x mod 4294967296.
Definition u64 (x : Z) : Z := x mod 18446744073709551616.

(** A 32-bit image read as a signed integer. *)
Definition s32 (x : Z) : Z := if x <? 2147483648 then x else x - 4294967296.

Definition is_u8 (x : Z) : Prop := 0 <= x < 256.
Definition is_u32 (x : Z) : Prop := 0 <= x < 4294967296.
Definition is_u64 (x : Z) : Prop := 0 <= x < 18446744073709551616.

(** [ulia] is [lia] after unfolding the integer types and their limits. *)
Ltac unfold_words :=
  unfold is_u8, is_u32, is_u64, u8, u16, u32, u64, UINT8_MAX, UINT32_MAX,
    INT32_MAX, UINT64_MAX in *.
Ltac ulia := unfold_words; Z.to_euclidean_division_equations; lia.

Create HintDb words.

Lemma u8_range x : is_u8 (u8 x).
Proof. ulia. Qed.
Lemma u32_range x : is_u32 (u32 x).
Proof. ulia. Qed.
Lemma u64_range x : is_u64 (u64 x).
Proof. ulia. Qed.
Lemma u8_small x : is_u8 x → u8 x = x.
Proof. ulia. Qed.
Lemma u32_small x : is_u32 x → u32 x = x.
Proof. ulia. Qed.
Lemma u64_small x : is_u64 x → u64 x = x.
Proof. ulia. Qed.

#[export] Hint Resolve u8_range u32_range u64_range : words.

(** ** Bits *)
Lemma testbit_high (n x i : Z) : 0 <= x < 2 ^ n → n <= i → Z.testbit x i = false.
Proof.
  intros Hx Hi. destruct (decide (n < 0)) as [Hn|Hn].
  - rewrite Z.pow_neg_r in Hx by lia. lia.
  - rewrite <- (Z.mod_small x (2 ^ n)) by lia.
    apply Z.mod_pow2_bits_high. lia.
Qed.

Lemma lt_pow2_of_bits (n x : Z) :
  0 <= n → 0 <= x → (∀ i, n <= i → Z.testbit x i = false) → x < 2 ^ n.
Proof.
  intros Hn Hx Hbits. destruct (decide (x = 0)) as [->|Hx0]; [lia|].
  apply Z.log2_lt_pow2; [lia|].
  destruct (decide (Z.log2 x < n)) as [|Hge]; [done|].
  pose proof (Z.bit_log2 x ltac:(lia)) as Hb.
  rewrite Hbits in Hb by lia. done.
Qed.

Lemma lxor_range (n x y : Z) :
  0 <= n → 0 <= x < 2 ^ n → 0 <= y < 2 ^ n → 0 <= Z.lxor x y < 2 ^ n.
Proof.
  intros Hn Hx Hy. assert (0 <= Z.lxor x y) by (apply Z.lxor_nonneg; lia).
  split; [done|]. apply lt_pow2_of_bits; [done..|].
  intros i Hi. rewrite Z.lxor_spec, (testbit_high n x), (testbit_high n y); done.
Qed.

Lemma land_ones_range (n x : Z) : 0 <= n → 0 <= Z.land x (Z.ones n) < 2 ^ n.
Proof. intros Hn. rewrite Z.land_ones by done. apply Z.mod_pos_bound. lia. Qed.

Lemma shiftr_range (n k x : Z) :
  0 <= k <= n → 0 <= x < 2 ^ n → 0 <= Z.shiftr x k < 2 ^ (n - k).
Proof.
  intros Hk Hx. rewrite Z.shiftr_div_pow2 by lia. split.
  - apply Z.div_pos; lia.
  - apply Z.div_lt_upper_bound; [lia|]. rewrite <- Z.pow_add_r by lia.
    replace (k + (n - k)) with n by lia. lia.
Qed.

Lemma lxor_u32 x y : is_u32 x → is_u32 y → is_u32 (Z.lxor x y).
Proof. intros. apply (lxor_range 32); [lia|done..]. Qed.
Lemma lxor_u8 x y : is_u8 x → is_u8 y → is_u8 (Z.lxor x y).
Proof. intros. apply (lxor_range 8); [lia|done..]. Qed.
Lemma lor_u32 x y : is_u32 x → is_u32 y → is_u32 (Z.lor x y).
Proof.
  intros Hx Hy. assert (0 <= Z.lor x y) by (apply Z.lor_nonneg; ulia). split; [done|].
  apply (lt_pow2_of_bits 32); [lia|done|]. intros i Hi. by rewrite Z.lor_spec, (testbit_high 32 x), (testbit_high 32 y).
Qed.
Lemma land_u32 x y : is_u32 x → is_u32 (Z.land x y).
Proof.
  intros Hx. assert (0 <= Z.land x y) by (apply Z.land_nonneg; ulia). split; [done|].
  apply (lt_pow2_of_bits 32); [lia|done|]. intros i Hi. by rewrite Z.land_spec, (testbit_high 32 x).
Qed.
Lemma pow2_u32 i : 0 <= i < 32 → is_u32 (2 ^ i).
Proof.
  intros Hi. split; [lia|]. change 4294967296 with (2 ^ 32).
  apply Z.pow_lt_mono_r; lia.
Qed.

#[export] Hint Resolve lxor_u32 lxor_u8 pow2_u32 : words.

Lemma lxor_cancel_r x y z : Z.lxor x z = Z.lxor y z → x = y.
Proof.
  intros H. apply (f_equal (λ v, Z.lxor v z)) in H.
  by rewrite !Z.lxor_assoc, Z.lxor_nilpotent, !Z.lxor_0_r in H.
Qed.

Lemma lxor_cancel_l x y z : Z.lxor z x = Z.lxor z y → x = y.
Proof. rewrite !(Z.lxor_comm z). apply lxor_cancel_r. Qed.

(** Two numbers are equal when their bits are: the entry point of every
    bit-level argument below. *)
Ltac bits_spec :=
  repeat first
    [ rewrite Z.lxor_spec | rewrite Z.land_spec | rewrite Z.lor_spec
    | rewrite Z.shiftr_spec by lia | rewrite Z.shiftl_spec by lia ].
Ltac bits_eq i := apply Z.bits_inj'; intros i ?; bits_spec.

(** A number in the low bits below a shifted one. *)
Lemma lor_shiftl_add k x y : 0 <= k → 0 <= x < 2 ^ k → Z.lor (Z.shiftl y k) x = y * 2 ^ k + x.
Proof.
  intros Hk Hx. rewrite Z.shiftl_mul_pow2 by done.
  rewrite <- Z.lxor_lor, <- Z.add_nocarry_lxor; [done| |]; bits_eq i; rewrite Z.bits_0, Z.mul_pow2_bits by done;
    (destruct (decide (i < k)); [by rewrite (Z.testbit_neg_r y) by lia|by rewrite (testbit_high k x), andb_false_r by lia]).
Qed.

Lemma land_pow2_zero x k :
  0 <= k → negb (Z.land x (2 ^ k) =? 0) = Z.testbit x k.
Proof.
  intros Hk.
  assert (Heq : Z.land x (2 ^ k) = if Z.testbit x k then 2 ^ k else 0).
  { bits_eq i. rewrite Z.pow2_bits_eqb by lia.
    destruct (Z.eqb_spec k i) as [->|].
    - destruct (Z.testbit x i) eqn:E; [by rewrite Z.pow2_bits_true by lia|].
      by rewrite Z.bits_0.
    - destruct (Z.testbit x k); [rewrite Z.pow2_bits_false by lia|rewrite Z.bits_0]; btauto. }
  rewrite Heq. destruct (Z.testbit x k); [|done].
  destruct (Z.eqb_spec (2 ^ k) 0); [lia|done].
Qed.

Lemma land_shiftr_one x k :
  0 <= k → negb (Z.land (Z.shiftr x k) 1 =? 0) = Z.testbit x k.
Proof.
  intros Hk. change 1 with (2 ^ 0). rewrite land_pow2_zero by lia.
  rewrite Z.shiftr_spec by lia. f_equal.
Qed.

(** A property of all numbers below a bound, decided by evaluation. *)
Definition forall_below (n : nat) (p : Z → bool) : bool :=
  forallb (λ i, p (Z.of_nat i)) (seq 0 n).

Lemma forall_below_spec n p x :
  forall_below n p = true → 0 <= x < Z.of_nat n → p x = true.
Proof.
  unfold forall_below. rewrite forallb_forall. intros H Hx.
  rewrite <- (Z2Nat.id x) by lia. apply H, in_seq. lia.
Qed.

(** ** Little-endian memory images

    The kernel is built for x86: a [w]-byte integer in memory is the list of
    its bytes, least significant first. *)
Fixpoint le_bytes (w : nat) (x : Z) : list Z :=
  match w with
  | O => []
  | S w => x mod 256 :: le_bytes w (x / 256)
  end.

Fixpoint le_value (bytes : list Z) : Z :=
  match bytes with
  | [] => 0
  | b :: bytes => b + 256 * le_value bytes
  end.

Lemma length_le_bytes w x : length (le_bytes w x) = w.
Proof. revert x. induction w; intros; simpl; auto. Qed.

Lemma le_bytes_range w x : Forall is_u8 (le_bytes w x).
Proof. revert x. induction w; simpl; constructor; [ulia|auto]. Qed.

Lemma le_value_bytes w x : 0 <= x < 256 ^ Z.of_nat w → le_value (le_bytes w x) = x.
Proof.
  revert x. induction w as [|w IH]; intros x Hx; simpl.
  - simpl in Hx. lia.
  - rewrite IH.
    + pose proof (Z.div_mod x 256). lia.
    + rewrite Nat2Z.inj_succ, Z.pow_succ_r in Hx by lia.
      split; [apply Z.div_pos; lia|]. apply Z.div_lt_upper_bound; lia.
Qed.

Lemma le_value_range bytes :
  Forall is_u8 bytes → 0 <= le_value bytes < 256 ^ Z.of_nat (length bytes).
Proof.
  induction 1 as [|b bytes Hb _ IH]; cbn [le_value length]; [simpl; lia|].
  rewrite Nat2Z.inj_succ, Z.pow_succ_r by lia. ulia.
Qed.

Lemma le_bytes_value bytes :
  Forall is_u8 bytes → le_bytes (length bytes) (le_value bytes) = bytes.
Proof.
  induction 1 as [|b bytes Hb _ IH]; cbn [le_bytes le_value length]; [done|].
  f_equal.
  - ulia.
  - etrans; [|exact IH]. f_equal. ulia.
Qed.

(** Byte strings given literally are checked by evaluation. *)
Definition is_bytes (bytes : list Z) : bool :=
  forallb (λ b, (0 <=? b) && (b <? 256)) bytes.

Lemma is_bytes_spec bytes : is_bytes bytes = true ↔ Forall is_u8 bytes.
Proof.
  unfold is_bytes. rewrite forallb_forall, List.Forall_forall.
  split; intros H b Hb; specialize (H b Hb); ulia.
Qed.

(** Field access in a byte image: [w] bytes from offset [off]. *)
Definition get_le (w off : nat) (image : list Z) : Z :=
  le_value (take w (drop off image)).

(** [memcpy] into the front of an image. *)
Definition bytes_copy (dst src : list Z) : list Z := src ++ drop (length src) dst.

Lemma length_bytes_copy dst src :
  (length src <= length dst)%nat → length (bytes_copy dst src) = length dst.
Proof. intros. unfold bytes_copy. rewrite length_app, length_drop. lia. Qed.

Lemma take_bytes_copy dst src : take (length src) (bytes_copy dst src) = src.
Proof. unfold bytes_copy. by rewrite take_app_length. Qed.
