(* ===== verification/Crc32.v ===== *)
(** CRC-32 (reflected polynomial 0xEDB88320) as the kernel computes it.

    Two algorithms are in the tree.  [crc32_update] is the bit-serial loop of
    [journal_crc32_update] in src/drivers/block/ata_journal.c, repeated
    verbatim in src/drivers/block/partition.c, src/fs/fat12/fat12_journal.c,
    src/fs/fat12/fat12_remap.c, src/fs/fat12/fat12_replica.c and
    src/kernel/init/boot_health.c.  [crc32_bytes] is the table-driven loop of
    src/kernel/init/critical_object.c.  They are proved to be the same
    function, and to detect every change confined to one byte. *)
From S2P Require Import Prelude.

(** ** The bit-serial loop *)
Definition crc32_bit (crc : Z) : Z :=
  Z.lxor (Z.shiftr crc 1) (Z.land 0xEDB88320 (u32 (0 - Z.land crc 1))).

Definition crc32_byte (crc byte : Z) : Z :=
  Nat.iter 8 crc32_bit (Z.lxor crc byte).

Definition crc32_update (crc : Z) (data : list Z) : Z :=
  foldl crc32_byte crc data.

Definition crc32 (data : list Z) : Z :=
  Z.lxor (crc32_update 0xFFFFFFFF data) 0xFFFFFFFF.

(** ** The table-driven loop *)
Definition crc32_table : list Z :=
  [0x00000000; 0x77073096; 0xee0e612c; 0x990951ba; 0x076dc419; 0x706af48f;
   0xe963a535; 0x9e6495a3; 0x0edb8832; 0x79dcb8a4; 0xe0d5e91e; 0x97d2d988;
   0x09b64c2b; 0x7eb17cbd; 0xe7b82d07; 0x90bf1d91; 0x1db71064; 0x6ab020f2;
   0xf3b97148; 0x84be41de; 0x1adad47d; 0x6ddde4eb; 0xf4d4b551; 0x83d385c7;
   0x136c9856; 0x646ba8c0; 0xfd62f97a; 0x8a65c9ec; 0x14015c4f; 0x63066cd9;
   0xfa0f3d63; 0x8d080df5; 0x3b6e20c8; 0x4c69105e; 0xd56041e4; 0xa2677172;
   0x3c03e4d1; 0x4b04d447; 0xd20d85fd; 0xa50ab56b; 0x35b5a8fa; 0x42b2986c;
   0xdbbbc9d6; 0xacbcf940; 0x32d86ce3; 0x45df5c75; 0xdcd60dcf; 0xabd13d59;
   0x26d930ac; 0x51de003a; 0xc8d75180; 0xbfd06116; 0x21b4f4b5; 0x56b3c423;
   0xcfba9599; 0xb8bda50f; 0x2802b89e; 0x5f058808; 0xc60cd9b2; 0xb10be924;
   0x2f6f7c87; 0x58684c11; 0xc1611dab; 0xb6662d3d; 0x76dc4190; 0x01db7106;
   0x98d220bc; 0xefd5102a; 0x71b18589; 0x06b6b51f; 0x9fbfe4a5; 0xe8b8d433;
   0x7807c9a2; 0x0f00f934; 0x9609a88e; 0xe10e9818; 0x7f6a0dbb; 0x086d3d2d;
   0x91646c97; 0xe6635c01; 0x6b6b51f4; 0x1c6c6162; 0x856530d8; 0xf262004e;
   0x6c0695ed; 0x1b01a57b; 0x8208f4c1; 0xf50fc457; 0x65b0d9c6; 0x12b7e950;
   0x8bbeb8ea; 0xfcb9887c; 0x62dd1ddf; 0x15da2d49; 0x8cd37cf3; 0xfbd44c65;
   0x4db26158; 0x3ab551ce; 0xa3bc0074; 0xd4bb30e2; 0x4adfa541; 0x3dd895d7;
   0xa4d1c46d; 0xd3d6f4fb; 0x4369e96a; 0x346ed9fc; 0xad678846; 0xda60b8d0;
   0x44042d73; 0x33031de5; 0xaa0a4c5f; 0xdd0d7cc9; 0x5005713c; 0x270241aa;
   0xbe0b1010; 0xc90c2086; 0x5768b525; 0x206f85b3; 0xb966d409; 0xce61e49f;
   0x5edef90e; 0x29d9c998; 0xb0d09822; 0xc7d7a8b4; 0x59b33d17; 0x2eb40d81;
   0xb7bd5c3b; 0xc0ba6cad; 0xedb88320; 0x9abfb3b6; 0x03b6e20c; 0x74b1d29a;
   0xead54739; 0x9dd277af; 0x04db2615; 0x73dc1683; 0xe3630b12; 0x94643b84;
   0x0d6d6a3e; 0x7a6a5aa8; 0xe40ecf0b; 0x9309ff9d; 0x0a00ae27; 0x7d079eb1;
   0xf00f9344; 0x8708a3d2; 0x1e01f268; 0x6906c2fe; 0xf762575d; 0x806567cb;
   0x196c3671; 0x6e6b06e7; 0xfed41b76; 0x89d32be0; 0x10da7a5a; 0x67dd4acc;
   0xf9b9df6f; 0x8ebeeff9; 0x17b7be43; 0x60b08ed5; 0xd6d6a3e8; 0xa1d1937e;
   0x38d8c2c4; 0x4fdff252; 0xd1bb67f1; 0xa6bc5767; 0x3fb506dd; 0x48b2364b;
   0xd80d2bda; 0xaf0a1b4c; 0x36034af6; 0x41047a60; 0xdf60efc3; 0xa867df55;
   0x316e8eef; 0x4669be79; 0xcb61b38c; 0xbc66831a; 0x256fd2a0; 0x5268e236;
   0xcc0c7795; 0xbb0b4703; 0x220216b9; 0x5505262f; 0xc5ba3bbe; 0xb2bd0b28;
   0x2bb45a92; 0x5cb36a04; 0xc2d7ffa7; 0xb5d0cf31; 0x2cd99e8b; 0x5bdeae1d;
   0x9b64c2b0; 0xec63f226; 0x756aa39c; 0x026d930a; 0x9c0906a9; 0xeb0e363f;
   0x72076785; 0x05005713; 0x95bf4a82; 0xe2b87a14; 0x7bb12bae; 0x0cb61b38;
   0x92d28e9b; 0xe5d5be0d; 0x7cdcefb7; 0x0bdbdf21; 0x86d3d2d4; 0xf1d4e242;
   0x68ddb3f8; 0x1fda836e; 0x81be16cd; 0xf6b9265b; 0x6fb077e1; 0x18b74777;
   0x88085ae6; 0xff0f6a70; 0x66063bca; 0x11010b5c; 0x8f659eff; 0xf862ae69;
   0x616bffd3; 0x166ccf45; 0xa00ae278; 0xd70dd2ee; 0x4e048354; 0x3903b3c2;
   0xa7672661; 0xd06016f7; 0x4969474d; 0x3e6e77db; 0xaed16a4a; 0xd9d65adc;
   0x40df0b66; 0x37d83bf0; 0xa9bcae53; 0xdebb9ec5; 0x47b2cf7f; 0x30b5ffe9;
   0xbdbdf21c; 0xcabac28a; 0x53b39330; 0x24b4a3a6; 0xbad03605; 0xcdd70693;
   0x54de5729; 0x23d967bf; 0xb3667a2e; 0xc4614ab8; 0x5d681b02; 0x2a6f2b94;
   0xb40bbe37; 0xc30c8ea1; 0x5a05df1b; 0x2d02ef8d].

Definition crc32_bytes (data : list Z) (crc : Z) : Z :=
  foldl (λ crc byte,
    Z.lxor (Z.shiftr crc 8)
           (nth (Z.to_nat (Z.land (Z.lxor crc byte) 255)) crc32_table 0))
    crc data.

(** ** Linearity of the bit step

    [crc32_bit] is linear over GF(2): this is what relates a table entry,
    computed for the low byte alone, to the eight steps of the loop. *)
Lemma crc32_bit_odd crc :
  crc32_bit crc =
    Z.lxor (Z.shiftr crc 1) (if Z.odd crc then 0xEDB88320 else 0).
Proof.
  unfold crc32_bit. f_equal.
  replace (Z.land crc 1) with (crc mod 2)
    by (change 1 with (Z.ones 1); by rewrite Z.land_ones by lia).
  rewrite Zmod_odd. by destruct (Z.odd crc).
Qed.

Lemma crc32_bit_lxor x y :
  crc32_bit (Z.lxor x y) = Z.lxor (crc32_bit x) (crc32_bit y).
Proof.
  rewrite !crc32_bit_odd, Z.shiftr_lxor, <- !Z.bit0_odd, Z.lxor_spec.
  set (p := 0xEDB88320).
  destruct (Z.testbit x 0), (Z.testbit y 0); simpl;
    rewrite ?Z.lxor_0_r; bits_eq i; rewrite ?Z.bits_0; btauto.
Qed.

Lemma crc32_steps_lxor n x y :
  Nat.iter n crc32_bit (Z.lxor x y) =
    Z.lxor (Nat.iter n crc32_bit x) (Nat.iter n crc32_bit y).
Proof.
  induction n as [|n IH]; [done|]. simpl. by rewrite IH, crc32_bit_lxor.
Qed.

Lemma crc32_byte_steps crc byte :
  crc32_byte crc byte = Nat.iter 8 crc32_bit (Z.lxor crc byte).
Proof. reflexivity. Qed.

Lemma crc32_bit_u32 crc : is_u32 crc → is_u32 (crc32_bit crc).
Proof.
  intros H. rewrite crc32_bit_odd. apply lxor_u32.
  - pose proof (shiftr_range 32 1 crc ltac:(lia) H). ulia.
  - destruct (Z.odd crc); ulia.
Qed.

Lemma crc32_steps_u32 n crc : is_u32 crc → is_u32 (Nat.iter n crc32_bit crc).
Proof. intros H. induction n; simpl; auto using crc32_bit_u32. Qed.

Lemma crc32_byte_u32 crc byte : is_u32 crc → is_u8 byte → is_u32 (crc32_byte crc byte).
Proof.
  intros. apply crc32_steps_u32, lxor_u32; [done|ulia].
Qed.

Lemma crc32_update_u32 crc data :
  is_u32 crc → Forall is_u8 data → is_u32 (crc32_update crc data).
Proof.
  intros Hcrc Hdata. revert crc Hcrc.
  induction Hdata as [|b data Hb _ IH]; intros crc Hcrc; simpl;
    auto using crc32_byte_u32.
Qed.

#[export] Hint Resolve crc32_update_u32 crc32_byte_u32 : words.

(** A word whose low [n] bits are clear is only shifted by [n] steps. *)
Lemma crc32_steps_shift n x :
  Nat.iter n crc32_bit (Z.shiftl x (Z.of_nat n)) = x.
Proof.
  revert x. induction n as [|n IH]; intros x; [by rewrite Z.shiftl_0_r|].
  rewrite Nat.iter_succ_r, crc32_bit_odd.
  replace (Z.shiftl x (Z.of_nat (S n))) with
    (Z.shiftl (Z.shiftl x (Z.of_nat n)) 1)
    by (rewrite Z.shiftl_shiftl by lia; f_equal; lia).
  rewrite Z.shiftr_shiftl_l, Z.shiftl_0_r by lia.
  replace (Z.odd (Z.shiftl (Z.shiftl x (Z.of_nat n)) 1)) with false.
  - by rewrite Z.lxor_0_r, IH.
  - rewrite Z.shiftl_mul_pow2 by lia. change (2 ^ 1) with 2.
    by rewrite Z.mul_comm, Z.odd_mul.
Qed.

Lemma crc32_table_spec byte :
  is_u8 byte →
  nth (Z.to_nat byte) crc32_table 0 = Nat.iter 8 crc32_bit byte.
Proof.
  intros H. apply Z.eqb_eq.
  apply (forall_below_spec 256
    (λ b, nth (Z.to_nat b) crc32_table 0 =? Nat.iter 8 crc32_bit b));
    [vm_compute; reflexivity|exact H].
Qed.

(** One table step is eight bit steps. *)
Lemma crc32_table_step crc byte :
  is_u8 byte →
  Z.lxor (Z.shiftr crc 8)
         (nth (Z.to_nat (Z.land (Z.lxor crc byte) 255)) crc32_table 0)
  = crc32_byte crc byte.
Proof.
  intros Hb. unfold crc32_byte.
  rewrite crc32_table_spec by (apply (land_ones_range 8); lia).
  set (x := Z.lxor crc byte).
  replace x with (Z.lxor (Z.shiftl (Z.shiftr x 8) (Z.of_nat 8)) (Z.land x 255)) at 2.
  - rewrite crc32_steps_lxor, crc32_steps_shift. f_equal.
    subst x. rewrite Z.shiftr_lxor.
    replace (Z.shiftr byte 8) with 0; [by rewrite Z.lxor_0_r|].
    rewrite Z.shiftr_div_pow2 by lia. unfold is_u8 in Hb.
    by rewrite Z.div_small.
  - change 255 with (Z.ones 8). bits_eq i.
    destruct (decide (i < 8)) as [Hi|Hi].
    + rewrite Z.testbit_neg_r by lia. rewrite Z.ones_spec_low by lia. btauto.
    + rewrite Z.shiftr_spec, Z.ones_spec_high by lia.
      replace (i - Z.of_nat 8 + 8) with i by lia. btauto.
Qed.

(** ** A message is absorbed as one little-endian number *)
Lemma le_value_cons_lxor b bytes :
  is_u8 b →
  le_value (b :: bytes) = Z.lxor b (Z.shiftl (le_value bytes) (Z.of_nat 8)).
Proof.
  intros Hb. simpl. rewrite Z.shiftl_mul_pow2 by lia.
  change (2 ^ Z.of_nat 8) with 256. rewrite (Z.mul_comm _ 256).
  apply Z.add_nocarry_lxor. change 256 with (2 ^ 8) at 1.
  rewrite Z.mul_comm, <- Z.shiftl_mul_pow2 by lia. bits_eq i.
  rewrite Z.bits_0. destruct (decide (i < 8)).
  - rewrite (Z.testbit_neg_r _ (i - 8)) by lia. btauto.
  - rewrite (testbit_high 8 b) by (done || lia). btauto.
Qed.

Lemma crc32_update_le crc data :
  Forall is_u8 data →
  crc32_update crc data =
    Nat.iter (8 * length data) crc32_bit (Z.lxor crc (le_value data)).
Proof.
  intros Hdata. revert crc. induction Hdata as [|b data Hb Hdata IH]; intros crc.
  - simpl. by rewrite Z.lxor_0_r.
  - rewrite le_value_cons_lxor by done. cbn [crc32_update foldl length].
    change (foldl crc32_byte (crc32_byte crc b) data)
      with (crc32_update (crc32_byte crc b) data).
    rewrite IH. replace (8 * S (length data))%nat with (8 * length data + 8)%nat by lia.
    rewrite Nat.iter_add, <- Z.lxor_assoc, crc32_steps_lxor.
    by rewrite (crc32_steps_lxor 8), crc32_steps_shift, <- crc32_steps_lxor.
Qed.

(** ** The bit step loses nothing *)
Lemma crc32_bit_zero z : is_u32 z → crc32_bit z = 0 → z = 0.
Proof.
  intros Hz H. rewrite crc32_bit_odd in H. apply Z.lxor_eq in H.
  rewrite Z.shiftr_div_pow2 in H by lia. change (2 ^ 1) with 2 in H.
  pose proof (Zmod_odd z) as Hodd. destruct (Z.odd z); ulia.
Qed.

Lemma crc32_steps_zero n z : is_u32 z → Nat.iter n crc32_bit z = 0 → z = 0.
Proof.
  intros Hz. induction n as [|n IH]; simpl; [done|].
  intros H. apply IH, crc32_bit_zero; [by apply crc32_steps_u32|done].
Qed.

Lemma crc32_steps_inj n x y :
  is_u32 x → is_u32 y → Nat.iter n crc32_bit x = Nat.iter n crc32_bit y → x = y.
Proof.
  intros Hx Hy H. apply Z.lxor_eq, (crc32_steps_zero n); [by apply lxor_u32|].
  by rewrite crc32_steps_lxor, H, Z.lxor_nilpotent.
Qed.

Lemma crc32_byte_inj x y b :
  is_u32 x → is_u32 y → is_u8 b → crc32_byte x b = crc32_byte y b → x = y.
Proof.
  intros Hx Hy Hb. rewrite !crc32_byte_steps. intros H.
  apply (lxor_cancel_r x y b).
  apply (crc32_steps_inj 8); [by apply lxor_u32; [|ulia]..|exact H].
Qed.

Lemma crc32_update_inj x y data :
  is_u32 x → is_u32 y → Forall is_u8 data →
  crc32_update x data = crc32_update y data → x = y.
Proof.
  intros Hx Hy Hdata. revert x y Hx Hy.
  induction Hdata as [|b data Hb Hdata IH]; intros x y Hx Hy H; [done|].
  apply (crc32_byte_inj _ _ b Hx Hy Hb). by apply IH; [apply crc32_byte_u32..|].
Qed.

Lemma le_value_inj xs ys :
  Forall is_u8 xs → Forall is_u8 ys → length xs = length ys →
  le_value xs = le_value ys → xs = ys.
Proof.
  intros Hx Hy Hlen H. rewrite <- (le_bytes_value xs), <- (le_bytes_value ys) by done.
  by rewrite Hlen, H.
Qed.

Lemma le_value_u32 data :
  Forall is_u8 data → (length data <= 4)%nat → is_u32 (le_value data).
Proof.
  intros Hdata Hlen. pose proof (le_value_range data Hdata) as Hr.
  assert (256 ^ Z.of_nat (length data) <= 256 ^ 4)
    by (apply Z.pow_le_mono_r; lia). ulia.
Qed.

Lemma crc32_bytes_u32 data crc :
  is_u32 crc → Forall is_u8 data →
  crc32_bytes data crc = crc32_update crc data.
Proof.
  intros Hcrc Hdata. revert crc Hcrc.
  induction Hdata as [|b data Hb Hdata IH]; intros crc Hcrc; [done|].
  cbn [crc32_bytes foldl]. rewrite crc32_table_step by done.
  by apply IH, crc32_byte_u32.
Qed.

#[export] Hint Resolve le_value_u32 : words.

(** * Properties *)

(** C36: the table-driven CRC of the critical objects and the bit-serial CRC
    of the journals and of the boot hand-off are the same function, for every
    byte string and every running value. *)
Theorem crc32_table_equivalence (data : list Z) (crc : Z) (Hcrc : is_u32 crc)
    (Hdata : Forall is_u8 data) :
  Z.lxor (crc32_bytes data crc) 0xFFFFFFFF =
    Z.lxor (crc32_update crc data) 0xFFFFFFFF.
Proof. by rewrite crc32_bytes_u32. Qed.

(** The CRC detects every corruption confined to a window of at most
    four bytes, whatever surrounds the window: two messages that differ only
    there have different checksums. *)
Theorem crc32_detects_burst (before window window' after : list Z)
    (Hb : Forall is_u8 before) (Hw : Forall is_u8 window)
    (Hw' : Forall is_u8 window') (Ha : Forall is_u8 after)
    (Hlen : length window = length window') (Hshort : (length window <= 4)%nat)
    (Hdiff : window ≠ window') :
  crc32 (before ++ window ++ after) ≠ crc32 (before ++ window' ++ after).
Proof.
  unfold crc32, crc32_update. rewrite !foldl_app.
  fold (crc32_update 0xFFFFFFFF before).
  set (c := crc32_update 0xFFFFFFFF before). intros H.
  assert (is_u32 c) by (apply crc32_update_u32; [ulia|done]).
  apply lxor_cancel_r, crc32_update_inj in H; [|auto with words..|done].
  change (crc32_update c window = crc32_update c window') in H.
  rewrite !crc32_update_le, Hlen in H by done.
  apply crc32_steps_inj in H; [|auto 6 with words lia..].
  by apply Hdiff, le_value_inj; [..|apply lxor_cancel_l in H].
Qed.

Lemma crc32_detects_burst_witness :
  crc32 ([1; 2] ++ [3] ++ [4; 5]) ≠ crc32 ([1; 2] ++ [7] ++ [4; 5]).
Proof.
  apply (crc32_detects_burst [1; 2] [3] [7] [4; 5]);
    [by apply is_bytes_spec..|reflexivity|simpl; lia|congruence].
Defined.

Lemma crc32_table_equivalence_witness :
  Z.lxor (crc32_bytes [49; 50; 51] 0xFFFFFFFF) 0xFFFFFFFF =
  Z.lxor (crc32_update 0xFFFFFFFF [49; 50; 51]) 0xFFFFFFFF.
Proof.
  apply (crc32_table_equivalence [49; 50; 51] 0xFFFFFFFF);
    [vm_compute; split; congruence|by apply is_bytes_spec].
Defined.
