(* ===== verification/ProtectedStore.v ===== *)
(** The contract of a protected store: what the critical objects of
    src/include/kernel/critical_object.h promise to the modules that keep
    their state in one (hand-over lease, hand-over replica, component states,
    ARP bindings).

    A client is proved against this class, whatever the store does inside;
    [CriticalObject] discharges it. *)
From S2P Require Import Prelude.

(** [critical_read_result_t] *)
Inductive critical_read_result_t :=
| CRITICAL_READ_OK
| CRITICAL_READ_CORRECTED
| CRITICAL_READ_RECOVERED
| CRITICAL_READ_UNCORRECTABLE
| CRITICAL_READ_INVALID_ARGUMENT.

(** The C value of a result, and the test [result >= 0] of the callers. *)
Definition critical_read_code (result : critical_read_result_t) : Z :=
  match result with
  | CRITICAL_READ_OK => 0
  | CRITICAL_READ_CORRECTED => 1
  | CRITICAL_READ_RECOVERED => 2
  | CRITICAL_READ_UNCORRECTABLE => -1
  | CRITICAL_READ_INVALID_ARGUMENT => -2
  end.

Definition critical_read_ok (result : critical_read_result_t) : bool :=
  0 <=? critical_read_code result.

(** A payload a store can hold. *)
Definition storable (payload : list Z) : Prop :=
  Forall is_u8 payload ∧ (0 < length payload <= 64)%nat.

(** The operations, and [ps_holds store version sequence payload]: the store
    is intact and its value is [payload]; [ps_typed store] only says that the
    memory of the store contains integers of the declared widths. *)
Class ProtectedStore (O : Type) := {
  ps_init : O → Z → option (list Z) → Z * O;
  ps_update : O → Z → option (list Z) → (list Z → bool) → Z * O;
  ps_read : O → Z → nat → (list Z → bool) → critical_read_result_t * O * list Z;
  ps_typed : O → Prop;
  ps_holds : O → Z → Z → list Z → Prop
}.

Class ProtectedStoreLaws (O : Type) `{!ProtectedStore O} := {
  ps_holds_typed store version sequence payload :
    ps_holds store version sequence payload → ps_typed store;

  (** Initialisation publishes the payload with sequence 1. *)
  ps_init_holds store version payload :
    is_u32 version → version ≠ 0 → storable payload →
    ∃ store', ps_init store version (Some payload) = (0, store') ∧
      ps_holds store' version 1 payload;

  (** A refused initialisation changes nothing. *)
  ps_init_refused store version payload status store' :
    ps_init store version payload = (status, store') → status ≠ 0 → store' = store;

  (** An intact store returns its value and stays intact. *)
  ps_read_holds store version sequence payload capacity validator :
    ps_holds store version sequence payload → version ≠ 0 →
    validator payload = true → (length payload <= capacity)%nat →
    ∃ store', ps_read store version capacity validator =
        (CRITICAL_READ_OK, store', payload) ∧
      ps_holds store' version sequence payload;

  (** Whatever happened to the memory, a read that succeeds returns a value the
      validator accepts, and leaves an intact store holding that value. *)
  ps_read_sound store version capacity validator result store' payload :
    ps_typed store → is_u32 version →
    ps_read store version capacity validator = (result, store', payload) →
    critical_read_ok result = true →
    validator payload = true ∧ (length payload <= capacity)%nat ∧
    ∃ sequence, ps_holds store' version sequence payload;

  (** A read that fails changes nothing. *)
  ps_read_refused store version capacity validator result store' payload :
    ps_read store version capacity validator = (result, store', payload) →
    critical_read_ok result = false → store' = store;

  (** An intact store accepts an update until its sequence is exhausted. *)
  ps_update_holds store version sequence payload payload' validator :
    ps_holds store version sequence payload → version ≠ 0 →
    validator payload = true → storable payload' →
    sequence < UINT32_MAX →
    ∃ store', ps_update store version (Some payload') validator = (0, store') ∧
      ps_holds store' version (sequence + 1) payload';

  (** Whatever happened to the memory, an update that succeeds published. *)
  ps_update_sound store version payload validator store' :
    ps_typed store → is_u32 version → Forall is_u8 payload →
    ps_update store version (Some payload) validator = (0, store') →
    ∃ sequence, ps_holds store' version sequence payload;

  (** An update that fails changes nothing. *)
  ps_update_refused store version payload validator status store' :
    ps_update store version payload validator = (status, store') →
    status ≠ 0 → store' = store
}.

(** ** A store is a register

    The abstract specification of a store is one value.  A program of reads
    and writes, run against any implementation of the interface, observes
    exactly what the register gives. *)
Inductive store_op := StoreRead | StoreWrite (payload : list Z).

Inductive store_answer := Value (payload : list Z) | Written | Refused.

Fixpoint register_run (value : list Z) (ops : list store_op) : list store_answer :=
  match ops with
  | [] => []
  | StoreRead :: ops => Value value :: register_run value ops
  | StoreWrite payload :: ops => Written :: register_run payload ops
  end.

Section client.
Context {O : Type} `{ProtectedStoreLaws O}.
Context (version : Z) (capacity : nat) (validator : list Z → bool).

Fixpoint store_run (store : O) (ops : list store_op) : list store_answer :=
  match ops with
  | [] => []
  | StoreRead :: ops =>
      let '(result, store, payload) := ps_read store version capacity validator in
      (if critical_read_ok result then Value payload else Refused) :: store_run store ops
  | StoreWrite payload :: ops =>
      let '(status, store) := ps_update store version (Some payload) validator in
      (if status =? 0 then Written else Refused) :: store_run store ops
  end.

(** Values a client may write: acceptable to its own reads. *)
Definition acceptable (payload : list Z) : Prop :=
  storable payload ∧ validator payload = true ∧ (length payload <= capacity)%nat.

Definition acceptable_op (op : store_op) : Prop :=
  match op with StoreRead => True | StoreWrite payload => acceptable payload end.

Lemma store_run_register store sequence value ops :
  version ≠ 0 → acceptable value → Forall acceptable_op ops →
  ps_holds store version sequence value →
  sequence + Z.of_nat (length ops) <= UINT32_MAX →
  store_run store ops = register_run value ops.
Proof.
  intros Hv Hval Hops. revert store sequence value Hval.
  induction Hops as [|[|payload] ops Hop _ IH]; intros store sequence value Hval Hh Hseq;
    [done|..]; cbn [store_run register_run length] in *.
  - destruct (ps_read_holds store version sequence value capacity validator)
      as (store' & -> & Hh'); [done|done|apply Hval..|].
    cbn. f_equal. apply (IH _ sequence); [done..|lia].
  - destruct (ps_update_holds store version sequence value payload validator)
      as (store' & -> & Hh'); [done|done|apply Hval|apply Hop|lia|].
    cbn. f_equal. apply (IH _ (sequence + 1)); [done..|lia].
Qed.
End client.
