(* ===== verification/CriticalObject.v ===== *)
(** Redundant critical objects: src/kernel/init/critical_object.c and
    src/include/kernel/critical_object.h.

    A critical object keeps two sealed copies of a payload of at most 64
    bytes.  A copy is twenty 32-bit words (version, sequence, length,
    integrity state, payload), one SECDED check byte per word and one CRC-32
    over words and check bytes.  [Module CriticalObject] holds the data and
    every operation of the C file in its order; the lemmas that follow it
    establish the error-correcting code, the sealing of a copy and the
    contract of [ProtectedStore], of which the last section is an instance.

    Interrupt masking ([irq_save]) has no state here; the publication lock is
    the object's own word.  The object pointer and the output pointers are
    references and never NULL; the payload pointer of the writers is an
    [option]. *)
From S2P Require Import Prelude Crc32.
From S2P Require Import ProtectedStore.

Module CriticalObject.

Definition WORD_VERSION : nat := 0.
Definition WORD_SEQUENCE : nat := 1.
Definition WORD_LENGTH : nat := 2.
Definition WORD_INTEGRITY : nat := 3.
Definition WORD_PAYLOAD : nat := 4.
Definition CRITICAL_OBJECT_MAX_PAYLOAD : nat := 64.
Definition CRITICAL_OBJECT_WORDS : nat := 20.
Definition CRITICAL_OBJECT_LOCK_RETRY_LIMIT : Z := Z.shiftl 1 20.

(** [critical_integrity_state_t] *)
Definition CRITICAL_INTEGRITY_HEALTHY : Z := 0.
Definition CRITICAL_INTEGRITY_CORRECTED : Z := 1.
Definition CRITICAL_INTEGRITY_RECOVERED : Z := 2.

Inductive copy_status_t := COPY_INVALID | COPY_VALID | COPY_CORRECTED.

Definition copy_status_ok (status : copy_status_t) : bool :=
  match status with COPY_INVALID => false | _ => true end.

Record critical_object_copy_t := Copy {
  c_words : list Z;
  c_ecc : list Z;
  c_crc32 : Z
}.

Record critical_object_t := Object {
  publication_lock : Z;
  primary : critical_object_copy_t;
  shadow : critical_object_copy_t
}.

(** ** Publication lock

    No other processor runs between two attempts of this sequential model, so
    an attempt that finds the word taken is followed by identical ones until
    the retry limit. *)
Fixpoint lock_attempts (retries : nat) (object : critical_object_t)
    : option critical_object_t :=
  match retries with
  | O => None
  | S retries =>
      if publication_lock object =? 0
      then Some (Object 1 (primary object) (shadow object))
      else lock_attempts retries object
  end.

Definition critical_object_lock (object : critical_object_t)
    : option critical_object_t :=
  lock_attempts (Z.to_nat CRITICAL_OBJECT_LOCK_RETRY_LIMIT) object.

Definition critical_object_unlock (object : critical_object_t) : critical_object_t :=
  Object 0 (primary object) (shadow object).

(** ** Single-error-correcting, double-error-detecting code *)
Definition parity32 (value : Z) : bool :=
  let value := Z.lxor value (Z.shiftr value 16) in
  let value := Z.lxor value (Z.shiftr value 8) in
  let value := Z.lxor value (Z.shiftr value 4) in
  let value := Z.land value 0xF in
  negb (Z.land (Z.shiftr 0x6996 value) 1 =? 0).

Definition parity8 (value : Z) : bool := parity32 value.

Definition parity_position (position : Z) : bool :=
  negb (position =? 0) && (Z.land position (u32 (position - 1)) =? 0).

Definition columns : list (list Z) :=
  [[0x00; 0x03; 0x05; 0x06; 0x06; 0x05; 0x03; 0x00; 0x07; 0x04; 0x02; 0x01;
   0x01; 0x02; 0x04; 0x07; 0x09; 0x0a; 0x0c; 0x0f; 0x0f; 0x0c; 0x0a; 0x09;
   0x0e; 0x0d; 0x0b; 0x08; 0x08; 0x0b; 0x0d; 0x0e; 0x0a; 0x09; 0x0f; 0x0c;
   0x0c; 0x0f; 0x09; 0x0a; 0x0d; 0x0e; 0x08; 0x0b; 0x0b; 0x08; 0x0e; 0x0d;
   0x03; 0x00; 0x06; 0x05; 0x05; 0x06; 0x00; 0x03; 0x04; 0x07; 0x01; 0x02;
   0x02; 0x01; 0x07; 0x04; 0x0b; 0x08; 0x0e; 0x0d; 0x0d; 0x0e; 0x08; 0x0b;
   0x0c; 0x0f; 0x09; 0x0a; 0x0a; 0x09; 0x0f; 0x0c; 0x02; 0x01; 0x07; 0x04;
   0x04; 0x07; 0x01; 0x02; 0x05; 0x06; 0x00; 0x03; 0x03; 0x00; 0x06; 0x05;
   0x01; 0x02; 0x04; 0x07; 0x07; 0x04; 0x02; 0x01; 0x06; 0x05; 0x03; 0x00;
   0x00; 0x03; 0x05; 0x06; 0x08; 0x0b; 0x0d; 0x0e; 0x0e; 0x0d; 0x0b; 0x08;
   0x0f; 0x0c; 0x0a; 0x09; 0x09; 0x0a; 0x0c; 0x0f; 0x0c; 0x0f; 0x09; 0x0a;
   0x0a; 0x09; 0x0f; 0x0c; 0x0b; 0x08; 0x0e; 0x0d; 0x0d; 0x0e; 0x08; 0x0b;
   0x05; 0x06; 0x00; 0x03; 0x03; 0x00; 0x06; 0x05; 0x02; 0x01; 0x07; 0x04;
   0x04; 0x07; 0x01; 0x02; 0x06; 0x05; 0x03; 0x00; 0x00; 0x03; 0x05; 0x06;
   0x01; 0x02; 0x04; 0x07; 0x07; 0x04; 0x02; 0x01; 0x0f; 0x0c; 0x0a; 0x09;
   0x09; 0x0a; 0x0c; 0x0f; 0x08; 0x0b; 0x0d; 0x0e; 0x0e; 0x0d; 0x0b; 0x08;
   0x07; 0x04; 0x02; 0x01; 0x01; 0x02; 0x04; 0x07; 0x00; 0x03; 0x05; 0x06;
   0x06; 0x05; 0x03; 0x00; 0x0e; 0x0d; 0x0b; 0x08; 0x08; 0x0b; 0x0d; 0x0e;
   0x09; 0x0a; 0x0c; 0x0f; 0x0f; 0x0c; 0x0a; 0x09; 0x0d; 0x0e; 0x08; 0x0b;
   0x0b; 0x08; 0x0e; 0x0d; 0x0a; 0x09; 0x0f; 0x0c; 0x0c; 0x0f; 0x09; 0x0a;
   0x04; 0x07; 0x01; 0x02; 0x02; 0x01; 0x07; 0x04; 0x03; 0x00; 0x06; 0x05;
   0x05; 0x06; 0x00; 0x03];
   [0x00; 0x0d; 0x0e; 0x03; 0x0f; 0x02; 0x01; 0x0c; 0x11; 0x1c; 0x1f; 0x12;
   0x1e; 0x13; 0x10; 0x1d; 0x12; 0x1f; 0x1c; 0x11; 0x1d; 0x10; 0x13; 0x1e;
   0x03; 0x0e; 0x0d; 0x00; 0x0c; 0x01; 0x02; 0x0f; 0x13; 0x1e; 0x1d; 0x10;
   0x1c; 0x11; 0x12; 0x1f; 0x02; 0x0f; 0x0c; 0x01; 0x0d; 0x00; 0x03; 0x0e;
   0x01; 0x0c; 0x0f; 0x02; 0x0e; 0x03; 0x00; 0x0d; 0x10; 0x1d; 0x1e; 0x13;
   0x1f; 0x12; 0x11; 0x1c; 0x14; 0x19; 0x1a; 0x17; 0x1b; 0x16; 0x15; 0x18;
   0x05; 0x08; 0x0b; 0x06; 0x0a; 0x07; 0x04; 0x09; 0x06; 0x0b; 0x08; 0x05;
   0x09; 0x04; 0x07; 0x0a; 0x17; 0x1a; 0x19; 0x14; 0x18; 0x15; 0x16; 0x1b;
   0x07; 0x0a; 0x09; 0x04; 0x08; 0x05; 0x06; 0x0b; 0x16; 0x1b; 0x18; 0x15;
   0x19; 0x14; 0x17; 0x1a; 0x15; 0x18; 0x1b; 0x16; 0x1a; 0x17; 0x14; 0x19;
   0x04; 0x09; 0x0a; 0x07; 0x0b; 0x06; 0x05; 0x08; 0x15; 0x18; 0x1b; 0x16;
   0x1a; 0x17; 0x14; 0x19; 0x04; 0x09; 0x0a; 0x07; 0x0b; 0x06; 0x05; 0x08;
   0x07; 0x0a; 0x09; 0x04; 0x08; 0x05; 0x06; 0x0b; 0x16; 0x1b; 0x18; 0x15;
   0x19; 0x14; 0x17; 0x1a; 0x06; 0x0b; 0x08; 0x05; 0x09; 0x04; 0x07; 0x0a;
   0x17; 0x1a; 0x19; 0x14; 0x18; 0x15; 0x16; 0x1b; 0x14; 0x19; 0x1a; 0x17;
   0x1b; 0x16; 0x15; 0x18; 0x05; 0x08; 0x0b; 0x06; 0x0a; 0x07; 0x04; 0x09;
   0x01; 0x0c; 0x0f; 0x02; 0x0e; 0x03; 0x00; 0x0d; 0x10; 0x1d; 0x1e; 0x13;
   0x1f; 0x12; 0x11; 0x1c; 0x13; 0x1e; 0x1d; 0x10; 0x1c; 0x11; 0x12; 0x1f;
   0x02; 0x0f; 0x0c; 0x01; 0x0d; 0x00; 0x03; 0x0e; 0x12; 0x1f; 0x1c; 0x11;
   0x1d; 0x10; 0x13; 0x1e; 0x03; 0x0e; 0x0d; 0x00; 0x0c; 0x01; 0x02; 0x0f;
   0x00; 0x0d; 0x0e; 0x03; 0x0f; 0x02; 0x01; 0x0c; 0x11; 0x1c; 0x1f; 0x12;
   0x1e; 0x13; 0x10; 0x1d];
   [0x00; 0x16; 0x17; 0x01; 0x18; 0x0e; 0x0f; 0x19; 0x19; 0x0f; 0x0e; 0x18;
   0x01; 0x17; 0x16; 0x00; 0x1a; 0x0c; 0x0d; 0x1b; 0x02; 0x14; 0x15; 0x03;
   0x03; 0x15; 0x14; 0x02; 0x1b; 0x0d; 0x0c; 0x1a; 0x1b; 0x0d; 0x0c; 0x1a;
   0x03; 0x15; 0x14; 0x02; 0x02; 0x14; 0x15; 0x03; 0x1a; 0x0c; 0x0d; 0x1b;
   0x01; 0x17; 0x16; 0x00; 0x19; 0x0f; 0x0e; 0x18; 0x18; 0x0e; 0x0f; 0x19;
   0x00; 0x16; 0x17; 0x01; 0x1c; 0x0a; 0x0b; 0x1d; 0x04; 0x12; 0x13; 0x05;
   0x05; 0x13; 0x12; 0x04; 0x1d; 0x0b; 0x0a; 0x1c; 0x06; 0x10; 0x11; 0x07;
   0x1e; 0x08; 0x09; 0x1f; 0x1f; 0x09; 0x08; 0x1e; 0x07; 0x11; 0x10; 0x06;
   0x07; 0x11; 0x10; 0x06; 0x1f; 0x09; 0x08; 0x1e; 0x1e; 0x08; 0x09; 0x1f;
   0x06; 0x10; 0x11; 0x07; 0x1d; 0x0b; 0x0a; 0x1c; 0x05; 0x13; 0x12; 0x04;
   0x04; 0x12; 0x13; 0x05; 0x1c; 0x0a; 0x0b; 0x1d; 0x1d; 0x0b; 0x0a; 0x1c;
   0x05; 0x13; 0x12; 0x04; 0x04; 0x12; 0x13; 0x05; 0x1c; 0x0a; 0x0b; 0x1d;
   0x07; 0x11; 0x10; 0x06; 0x1f; 0x09; 0x08; 0x1e; 0x1e; 0x08; 0x09; 0x1f;
   0x06; 0x10; 0x11; 0x07; 0x06; 0x10; 0x11; 0x07; 0x1e; 0x08; 0x09; 0x1f;
   0x1f; 0x09; 0x08; 0x1e; 0x07; 0x11; 0x10; 0x06; 0x1c; 0x0a; 0x0b; 0x1d;
   0x04; 0x12; 0x13; 0x05; 0x05; 0x13; 0x12; 0x04; 0x1d; 0x0b; 0x0a; 0x1c;
   0x01; 0x17; 0x16; 0x00; 0x19; 0x0f; 0x0e; 0x18; 0x18; 0x0e; 0x0f; 0x19;
   0x00; 0x16; 0x17; 0x01; 0x1b; 0x0d; 0x0c; 0x1a; 0x03; 0x15; 0x14; 0x02;
   0x02; 0x14; 0x15; 0x03; 0x1a; 0x0c; 0x0d; 0x1b; 0x1a; 0x0c; 0x0d; 0x1b;
   0x02; 0x14; 0x15; 0x03; 0x03; 0x15; 0x14; 0x02; 0x1b; 0x0d; 0x0c; 0x1a;
   0x00; 0x16; 0x17; 0x01; 0x18; 0x0e; 0x0f; 0x19; 0x19; 0x0f; 0x0e; 0x18;
   0x01; 0x17; 0x16; 0x00];
   [0x00; 0x1e; 0x1f; 0x01; 0x21; 0x3f; 0x3e; 0x20; 0x22; 0x3c; 0x3d; 0x23;
   0x03; 0x1d; 0x1c; 0x02; 0x23; 0x3d; 0x3c; 0x22; 0x02; 0x1c; 0x1d; 0x03;
   0x01; 0x1f; 0x1e; 0x00; 0x20; 0x3e; 0x3f; 0x21; 0x24; 0x3a; 0x3b; 0x25;
   0x05; 0x1b; 0x1a; 0x04; 0x06; 0x18; 0x19; 0x07; 0x27; 0x39; 0x38; 0x26;
   0x07; 0x19; 0x18; 0x06; 0x26; 0x38; 0x39; 0x27; 0x25; 0x3b; 0x3a; 0x24;
   0x04; 0x1a; 0x1b; 0x05; 0x25; 0x3b; 0x3a; 0x24; 0x04; 0x1a; 0x1b; 0x05;
   0x07; 0x19; 0x18; 0x06; 0x26; 0x38; 0x39; 0x27; 0x06; 0x18; 0x19; 0x07;
   0x27; 0x39; 0x38; 0x26; 0x24; 0x3a; 0x3b; 0x25; 0x05; 0x1b; 0x1a; 0x04;
   0x01; 0x1f; 0x1e; 0x00; 0x20; 0x3e; 0x3f; 0x21; 0x23; 0x3d; 0x3c; 0x22;
   0x02; 0x1c; 0x1d; 0x03; 0x22; 0x3c; 0x3d; 0x23; 0x03; 0x1d; 0x1c; 0x02;
   0x00; 0x1e; 0x1f; 0x01; 0x21; 0x3f; 0x3e; 0x20; 0x26; 0x38; 0x39; 0x27;
   0x07; 0x19; 0x18; 0x06; 0x04; 0x1a; 0x1b; 0x05; 0x25; 0x3b; 0x3a; 0x24;
   0x05; 0x1b; 0x1a; 0x04; 0x24; 0x3a; 0x3b; 0x25; 0x27; 0x39; 0x38; 0x26;
   0x06; 0x18; 0x19; 0x07; 0x02; 0x1c; 0x1d; 0x03; 0x23; 0x3d; 0x3c; 0x22;
   0x20; 0x3e; 0x3f; 0x21; 0x01; 0x1f; 0x1e; 0x00; 0x21; 0x3f; 0x3e; 0x20;
   0x00; 0x1e; 0x1f; 0x01; 0x03; 0x1d; 0x1c; 0x02; 0x22; 0x3c; 0x3d; 0x23;
   0x03; 0x1d; 0x1c; 0x02; 0x22; 0x3c; 0x3d; 0x23; 0x21; 0x3f; 0x3e; 0x20;
   0x00; 0x1e; 0x1f; 0x01; 0x20; 0x3e; 0x3f; 0x21; 0x01; 0x1f; 0x1e; 0x00;
   0x02; 0x1c; 0x1d; 0x03; 0x23; 0x3d; 0x3c; 0x22; 0x27; 0x39; 0x38; 0x26;
   0x06; 0x18; 0x19; 0x07; 0x05; 0x1b; 0x1a; 0x04; 0x24; 0x3a; 0x3b; 0x25;
   0x04; 0x1a; 0x1b; 0x05; 0x25; 0x3b; 0x3a; 0x24; 0x26; 0x38; 0x39; 0x27;
   0x07; 0x19; 0x18; 0x06]].

Definition column (c : nat) (byte : Z) : Z := nth (Z.to_nat byte) (nth c columns []) 0.

Definition secded_parity (data : Z) : Z :=
  Z.lxor (Z.lxor (column 0 (Z.land data 255))
                 (column 1 (Z.land (Z.shiftr data 8) 255)))
         (Z.lxor (column 2 (Z.land (Z.shiftr data 16) 255))
                 (column 3 (Z.shiftr data 24))).

Definition secded_encode (data : Z) : Z :=
  let code := secded_parity data in
  let overall := xorb (parity32 data) (parity8 code) in
  u8 (Z.lor code (Z.shiftl (Z.b2z overall) 6)).

(** The loop over code positions that turns a syndrome into a data bit. *)
Fixpoint secded_flip (steps : nat) (position index syndrome data : Z) : Z :=
  match steps with
  | O => data
  | S steps =>
      if parity_position position
      then secded_flip steps (position + 1) index syndrome data
      else if position =? syndrome then Z.lxor data (Z.shiftl 1 index)
      else secded_flip steps (position + 1) (index + 1) syndrome data
  end.

(** Returns the C status (-1, 0 or 1) and the data word after the call. *)
Definition secded_decode (data stored : Z) : Z * Z :=
  if negb (Z.land stored 0x80 =? 0) then (-1, data)
  else
    let syndrome := Z.lxor (Z.land stored 0x3F) (secded_parity data) in
    let overall_mismatch :=
      xorb (xorb (parity32 data) (parity8 (Z.land stored 0x3F)))
           (negb (Z.land (Z.shiftr stored 6) 1 =? 0)) in
    if (syndrome =? 0) && negb overall_mismatch then (0, data)
    else if negb (syndrome =? 0) && negb overall_mismatch then (-1, data)
    else if negb (syndrome =? 0) then
      if 38 <? syndrome then (-1, data)
      else if negb (parity_position syndrome)
      then (1, secded_flip 38 1 0 syndrome data)
      else (1, data)
    else (1, data).

(** ** Copies *)
Definition bytes_of_words (words : list Z) : list Z :=
  concat (map (le_bytes 4) words).

Fixpoint words_of_bytes (count : nat) (bytes : list Z) : list Z :=
  match count with
  | O => []
  | S count => get_le 4 0 bytes :: words_of_bytes count (drop 4 bytes)
  end.

Definition copy_crc (words ecc : list Z) : Z :=
  let crc := crc32_bytes (bytes_of_words words) 0xFFFFFFFF in
  Z.lxor (crc32_bytes ecc crc) 0xFFFFFFFF.

Definition copy_seal (words : list Z) : critical_object_copy_t :=
  let ecc := map secded_encode words in
  Copy words ecc (copy_crc words ecc).

Definition copy_word (copy : critical_object_copy_t) (index : nat) : Z :=
  nth index (c_words copy) 0.

(** [length] bytes from [&copy->words[WORD_PAYLOAD]]. *)
Definition copy_payload (copy : critical_object_copy_t) (length : Z) : list Z :=
  take (Z.to_nat length) (bytes_of_words (drop WORD_PAYLOAD (c_words copy))).

Definition copy_build (version sequence state : Z) (payload : list Z)
    : critical_object_copy_t :=
  let zero := replicate 64 0 in
  copy_seal ([version; sequence; u32 (Z.of_nat (length payload)); state] ++
             words_of_bytes 16 (bytes_copy zero payload)).

(** The correction loop of [copy_check]: [None] when a word is beyond repair,
    otherwise the repaired words and whether one was corrected. *)
Fixpoint copy_scrub (words ecc : list Z) : option (list Z * bool) :=
  match words, ecc with
  | word :: words, check :: ecc =>
      let '(status, word') := secded_decode word check in
      if status <? 0 then None
      else
        match copy_scrub words ecc with
        | None => None
        | Some (words', corrected) => Some (word' :: words', (0 <? status) || corrected)
        end
  | _, _ => Some ([], false)
  end.

(** The caller works on a local copy and never looks at an invalid one. *)
Definition copy_check (copy : critical_object_copy_t) (expected_version : Z)
    (validator : list Z → bool) : copy_status_t * critical_object_copy_t :=
  match copy_scrub (c_words copy) (c_ecc copy) with
  | None => (COPY_INVALID, copy)
  | Some (words, corrected) =>
      let copy := Copy words (map secded_encode words) (c_crc32 copy) in
      if negb (copy_crc (c_words copy) (c_ecc copy) =? c_crc32 copy) ||
         negb (copy_word copy WORD_VERSION =? expected_version) ||
         (Z.of_nat CRITICAL_OBJECT_MAX_PAYLOAD <? copy_word copy WORD_LENGTH) ||
         (CRITICAL_INTEGRITY_RECOVERED <? copy_word copy WORD_INTEGRITY)
      then (COPY_INVALID, copy)
      else if negb (validator (copy_payload copy (copy_word copy WORD_LENGTH)))
      then (COPY_INVALID, copy)
      else ((if corrected then COPY_CORRECTED else COPY_VALID), copy)
  end.

Definition copies_equal (left right : critical_object_copy_t) : bool :=
  if negb (copy_word left WORD_VERSION =? copy_word right WORD_VERSION) ||
     negb (copy_word left WORD_SEQUENCE =? copy_word right WORD_SEQUENCE) ||
     negb (copy_word left WORD_LENGTH =? copy_word right WORD_LENGTH)
  then false
  else
    let length := copy_word left WORD_LENGTH in
    bool_decide (copy_payload left length = copy_payload right length).

(** ** Operations *)
Definition critical_object_init (object : critical_object_t) (version : Z)
    (payload : option (list Z)) : Z * critical_object_t :=
  match payload with
  | None => (-1, object)
  | Some payload =>
      if (version =? 0) || (length payload =? 0)%nat ||
         (CRITICAL_OBJECT_MAX_PAYLOAD <? length payload)%nat
      then (-1, object)
      else
        let copy := copy_build version 1 CRITICAL_INTEGRITY_HEALTHY payload in
        (0, Object 0 copy copy)
  end.

(** The two publication stores of an update, shadow first. *)
Definition publish_shadow (candidate : critical_object_copy_t)
    (object : critical_object_t) : critical_object_t :=
  Object (publication_lock object) (primary object) candidate.
Definition publish_primary (candidate : critical_object_copy_t)
    (object : critical_object_t) : critical_object_t :=
  Object (publication_lock object) candidate (shadow object).

(** The sequence an update publishes with, or [None] when it must refuse. *)
Definition next_sequence (ps ss : copy_status_t) (primary shadow : critical_object_copy_t)
    : option Z :=
  if negb (copy_status_ok ps) && negb (copy_status_ok ss) then None
  else if copy_status_ok ps && copy_status_ok ss &&
          (copy_word primary WORD_SEQUENCE =? copy_word shadow WORD_SEQUENCE) &&
          negb (copies_equal primary shadow) then None
  else
    let current := if copy_status_ok ps then copy_word primary WORD_SEQUENCE
                   else copy_word shadow WORD_SEQUENCE in
    let current := if copy_status_ok ss && (current <? copy_word shadow WORD_SEQUENCE)
                   then copy_word shadow WORD_SEQUENCE else current in
    let sequence := u32 (current + 1) in
    if sequence =? 0 then None else Some sequence.

Definition critical_object_update (object : critical_object_t) (expected_version : Z)
    (payload : option (list Z)) (validator : list Z → bool) : Z * critical_object_t :=
  match payload with
  | None => (-1, object)
  | Some payload =>
      if (length payload =? 0)%nat ||
         (CRITICAL_OBJECT_MAX_PAYLOAD <? length payload)%nat ||
         (expected_version =? 0)
      then (-1, object)
      else
        match critical_object_lock object with
        | None => (-1, object)
        | Some object =>
            let '(primary_status, first) :=
              copy_check (primary object) expected_version validator in
            let '(shadow_status, second) :=
              copy_check (shadow object) expected_version validator in
            match next_sequence primary_status shadow_status first second with
            | None => (-1, critical_object_unlock object)
            | Some sequence =>
                let candidate := copy_build expected_version sequence
                                   CRITICAL_INTEGRITY_HEALTHY payload in
                let object := publish_shadow candidate object in
                let object := publish_primary candidate object in
                (0, critical_object_unlock object)
            end
        end
  end.

(** What a reader selects: the result and the chosen copy. *)
Definition select_copy (ps ss : copy_status_t) (primary shadow : critical_object_copy_t)
    : critical_read_result_t * critical_object_copy_t :=
  if negb (copy_status_ok ps) && negb (copy_status_ok ss)
  then (CRITICAL_READ_UNCORRECTABLE, primary)
  else if copy_status_ok ps && copy_status_ok ss then
    if (copy_word primary WORD_SEQUENCE =? copy_word shadow WORD_SEQUENCE) &&
       negb (copies_equal primary shadow)
    then (CRITICAL_READ_UNCORRECTABLE, primary)
    else
      ((match ps, ss with
        | COPY_CORRECTED, _ | _, COPY_CORRECTED => CRITICAL_READ_CORRECTED
        | _, _ => CRITICAL_READ_OK
        end),
       if copy_word shadow WORD_SEQUENCE <=? copy_word primary WORD_SEQUENCE
       then primary else shadow)
  else (CRITICAL_READ_RECOVERED, if copy_status_ok ps then primary else shadow).

Definition result_integrity (result : critical_read_result_t) : Z :=
  match result with
  | CRITICAL_READ_RECOVERED => CRITICAL_INTEGRITY_RECOVERED
  | CRITICAL_READ_CORRECTED => CRITICAL_INTEGRITY_CORRECTED
  | _ => CRITICAL_INTEGRITY_HEALTHY
  end.

Definition critical_object_read (object : critical_object_t) (expected_version : Z)
    (capacity : nat) (validator : list Z → bool)
    : critical_read_result_t * critical_object_t * list Z :=
  if expected_version =? 0 then (CRITICAL_READ_INVALID_ARGUMENT, object, [])
  else
    match critical_object_lock object with
    | None => (CRITICAL_READ_UNCORRECTABLE, object, [])
    | Some object =>
        let '(primary_status, first) :=
          copy_check (primary object) expected_version validator in
        let '(shadow_status, second) :=
          copy_check (shadow object) expected_version validator in
        let '(result, chosen) :=
          select_copy primary_status shadow_status first second in
        if critical_read_ok result then
          let length := copy_word chosen WORD_LENGTH in
          if Z.of_nat capacity <? length
          then (CRITICAL_READ_INVALID_ARGUMENT, critical_object_unlock object, [])
          else
            let state := result_integrity result in
            let copy := copy_build (copy_word chosen WORD_VERSION)
                          (copy_word chosen WORD_SEQUENCE) state
                          (copy_payload chosen length) in
            (result,
             critical_object_unlock (Object (publication_lock object) copy copy),
             copy_payload chosen length)
        else (result, critical_object_unlock object, [])
    end.

End CriticalObject.

Import CriticalObject.

(** * The error-correcting code

    The reference for the four byte columns is the walk over the data bits of
    the shortened Hamming code: bit [i] contributes its code position. *)
Definition data_positions : list Z :=
  [3; 5; 6; 7; 9; 10; 11; 12; 13; 14; 15; 17; 18; 19; 20; 21; 22; 23; 24; 25;
   26; 27; 28; 29; 30; 31; 33; 34; 35; 36; 37; 38].

Definition hamming (data : Z) : Z :=
  foldr Z.lxor 0
    (imap (λ i position, if Z.testbit data (Z.of_nat i) then position else 0)
          data_positions).

(** [n] selects the contribution of one position: a linear map of the bit. *)
Lemma select_lxor (b c : bool) (p : Z) :
  (if xorb b c then p else 0) = Z.lxor (if b then p else 0) (if c then p else 0).
Proof.
  destruct b, c; simpl; by rewrite ?Z.lxor_nilpotent, ?Z.lxor_0_r.
Qed.

Lemma hamming_lxor x y : hamming (Z.lxor x y) = Z.lxor (hamming x) (hamming y).
Proof.
  unfold hamming, data_positions. cbn [imap foldr compose].
  rewrite !Z.lxor_spec, !select_lxor. bits_eq i. rewrite !Z.bits_0. btauto.
Qed.

(** Column [c] of the table is the walk over the bits of byte [c]. *)
Lemma column_hamming c byte :
  (c < 4)%nat → is_u8 byte → column c byte = hamming (Z.shiftl byte (8 * Z.of_nat c)).
Proof.
  intros Hc Hb. apply Z.eqb_eq.
  set (p c b := column c b =? hamming (Z.shiftl b (8 * Z.of_nat c))).
  change (p c byte = true). apply (forall_below_spec 256 (p c)); [|exact Hb].
  do 4 (destruct c as [|c]; [vm_compute; reflexivity|]). lia.
Qed.

(** A word is the sum of its bytes in place. *)
Lemma word_of_bytes_lxor data :
  is_u32 data →
  data = Z.lxor (Z.lxor (Z.land data 255) (Z.shiftl (Z.land (Z.shiftr data 8) 255) 8))
           (Z.lxor (Z.shiftl (Z.land (Z.shiftr data 16) 255) 16)
                   (Z.shiftl (Z.shiftr data 24) 24)).
Proof.
  intros Hd. change 255 with (Z.ones 8). bits_eq i.
  assert (Hones : ∀ j, Z.testbit (Z.ones 8) j = (0 <=? j) && (j <? 8)).
  { intros j. destruct (decide (0 <= j)) as [Hj|Hj].
    - rewrite Z.testbit_ones_nonneg by lia. by rewrite (proj2 (Z.leb_le 0 j) Hj).
    - rewrite Z.testbit_neg_r by lia. by rewrite (proj2 (Z.leb_gt 0 j)) by lia. }
  assert (Hs : ∀ d k, i < k → Z.testbit (Z.shiftr d k) (i - k) = false)
    by (intros; apply Z.testbit_neg_r; lia).
  rewrite !Hones.
  repeat match goal with
  | |- context [Z.testbit (Z.shiftr ?d ?k) (i - ?k)] =>
      destruct (decide (i < k));
      [rewrite (Hs d k) by lia
      |rewrite (Z.shiftr_spec d k (i - k)) by lia;
       replace (i - k + k) with i by lia]
  end.
  all: repeat match goal with
  | |- context [?a <=? ?b] => destruct (Z.leb_spec a b); try lia
  | |- context [?a <? ?b] => destruct (Z.ltb_spec a b); try lia
  end; btauto.
Qed.

Lemma secded_parity_hamming data : is_u32 data → secded_parity data = hamming data.
Proof.
  intros Hd. rewrite (word_of_bytes_lxor data) at 2 by done. unfold secded_parity.
  assert (Hb : ∀ x, is_u8 (Z.land x 255)) by (intros; apply (land_ones_range 8); lia).
  rewrite !column_hamming by (auto || lia ||
    (pose proof (shiftr_range 32 24 data ltac:(lia) Hd); ulia)).
  rewrite !hamming_lxor. cbn [Z.of_nat Z.mul]. by rewrite Z.shiftl_0_r.
Qed.

Lemma secded_parity_lxor x y :
  is_u32 x → is_u32 y →
  secded_parity (Z.lxor x y) = Z.lxor (secded_parity x) (secded_parity y).
Proof.
  intros. rewrite !secded_parity_hamming by auto with words. apply hamming_lxor.
Qed.

Lemma hamming_range data : 0 <= hamming data < 64.
Proof.
  unfold hamming.
  assert (Forall (λ p, 0 <= p < 64)
    (imap (λ i position, if Z.testbit data (Z.of_nat i) then position else 0)
          data_positions)) as H.
  { unfold data_positions. cbn [imap compose].
    repeat constructor; case_match; lia. }
  induction H; cbn [foldr]; [lia|]. by apply (lxor_range 6).
Qed.

Lemma secded_parity_range data : is_u32 data → 0 <= secded_parity data < 64.
Proof. intros. rewrite secded_parity_hamming by done. apply hamming_range. Qed.

(** Overall parity is linear: three foldings and a sixteen-entry table. *)
Lemma nibble_parity_lxor x y :
  0 <= x < 16 → 0 <= y < 16 →
  negb (Z.land (Z.shiftr 0x6996 (Z.lxor x y)) 1 =? 0) =
  xorb (negb (Z.land (Z.shiftr 0x6996 x) 1 =? 0))
       (negb (Z.land (Z.shiftr 0x6996 y) 1 =? 0)).
Proof.
  intros Hx Hy. apply eqb_prop.
  set (q z := negb (Z.land (Z.shiftr 0x6996 z) 1 =? 0)).
  set (p a b := eqb (q (Z.lxor a b)) (xorb (q a) (q b))).
  change (p x y = true).
  refine (forall_below_spec 16 (p x) y _ Hy).
  apply (forall_below_spec 16 (λ a, forall_below 16 (p a))); [|exact Hx].
  vm_compute. reflexivity.
Qed.

Definition nibble_fold (value : Z) : Z :=
  let fold k v := Z.lxor v (Z.shiftr v k) in
  Z.land (fold 4 (fold 8 (fold 16 value))) 15.

Lemma nibble_fold_range value : 0 <= nibble_fold value < 16.
Proof. apply (land_ones_range 4). lia. Qed.

Lemma nibble_fold_lxor x y :
  nibble_fold (Z.lxor x y) = Z.lxor (nibble_fold x) (nibble_fold y).
Proof. unfold nibble_fold. bits_eq i. btauto. Qed.

Lemma parity32_lxor x y : parity32 (Z.lxor x y) = xorb (parity32 x) (parity32 y).
Proof.
  change (parity32 ?v) with
    (negb (Z.land (Z.shiftr 0x6996 (nibble_fold v)) 1 =? 0)).
  rewrite nibble_fold_lxor. apply nibble_parity_lxor; apply nibble_fold_range.
Qed.

(** ** What a check byte contains *)
Lemma secded_encode_bits data i :
  is_u32 data → 0 <= i →
  Z.testbit (secded_encode data) i =
    if decide (i < 6) then Z.testbit (secded_parity data) i
    else if decide (i = 6) then xorb (parity32 data) (parity8 (secded_parity data))
    else false.
Proof.
  intros Hd Hi. pose proof (secded_parity_range data Hd) as Hp.
  unfold secded_encode. set (code := secded_parity data) in *.
  set (overall := xorb _ _). unfold u8. change 256 with (2 ^ 8).
  destruct (decide (i < 8)).
  - rewrite Z.mod_pow2_bits_low by lia. bits_spec.
    destruct (decide (i < 6)).
    + rewrite (Z.testbit_neg_r _ (i - 6)) by lia. btauto.
    + rewrite (testbit_high 6 code) by (done || lia).
      destruct (decide (i = 6)) as [->|].
      * by destruct overall.
      * assert (i = 7) as -> by lia. by destruct overall.
  - rewrite Z.mod_pow2_bits_high by lia. by repeat case_decide; try lia.
Qed.

Lemma testbit_ones_b k i : 0 <= k → 0 <= i → Z.testbit (Z.ones k) i = bool_decide (i < k).
Proof.
  intros. rewrite Z.testbit_ones_nonneg by lia. case_bool_decide.
  - by apply Z.ltb_lt.
  - by apply Z.ltb_ge; lia.
Qed.

Lemma secded_encode_low data e :
  is_u32 data →
  Z.land (Z.lxor (secded_encode data) e) 0x3F =
    Z.lxor (secded_parity data) (Z.land e 0x3F).
Proof.
  intros Hd. pose proof (secded_parity_range data Hd).
  change 0x3F with (Z.ones 6). bits_eq i.
  rewrite secded_encode_bits, testbit_ones_b by (done || lia).
  case_decide; case_bool_decide; try lia; [btauto|].
  rewrite (testbit_high 6 (secded_parity data)) by (done || lia). btauto.
Qed.

(** ** Decoding depends on the error pattern alone

    [secded_decode] of a word with error pattern [de] and of its check byte
    with error pattern [ee] is, up to adding the word, the decoding of the
    pattern itself: the properties of the code are finite checks. *)
Lemma secded_flip_lxor steps position index syndrome x y :
  secded_flip steps position index syndrome (Z.lxor x y) =
    Z.lxor x (secded_flip steps position index syndrome y).
Proof.
  revert position index. induction steps as [|steps IH]; intros; simpl; [done|].
  repeat case_match; rewrite ?IH, ?Z.lxor_assoc; done.
Qed.

Lemma secded_decode_pattern data de ee :
  is_u32 data → is_u32 de → is_u8 ee →
  secded_decode (Z.lxor data de) (Z.lxor (secded_encode data) ee) =
    ((secded_decode de ee).1, Z.lxor data (secded_decode de ee).2).
Proof.
  intros Hd Hde Hee. unfold secded_decode, parity8.
  change 0x80 with (2 ^ 7). rewrite !land_pow2_zero, !land_shiftr_one by lia.
  rewrite secded_encode_low, !Z.lxor_spec, !secded_encode_bits by (done || lia).
  repeat case_decide; try lia.
  rewrite secded_parity_lxor, !parity32_lxor by done.
  set (pd := secded_parity data). set (pe := secded_parity de).
  set (el := Z.land ee 63).
  replace (Z.lxor (Z.lxor pd el) (Z.lxor pd pe)) with (Z.lxor el pe)
    by (bits_eq i; btauto).
  set (m := xorb (xorb (parity32 de) (parity32 el)) (Z.testbit ee 6)).
  replace (xorb (xorb (xorb _ _) _) _) with m.
  2:{ unfold m, parity8. clear. fold pd.
      generalize (parity32 data) (parity32 pd) (parity32 de) (parity32 el).
      by intros [] [] [] []; destruct (Z.testbit ee 6). }
  destruct (Z.testbit ee 7); [done|].
  destruct (_ && negb m); [by rewrite ?Z.lxor_0_r|].
  repeat case_match; simplify_eq; cbn [fst snd]; rewrite ?secded_flip_lxor; done.
Qed.

Lemma secded_decode_clean data :
  is_u32 data → secded_decode data (secded_encode data) = (0, data).
Proof.
  intros Hd. rewrite <- (Z.lxor_0_r data) at 1.
  rewrite <- (Z.lxor_0_r (secded_encode data)).
  rewrite secded_decode_pattern by (done || ulia).
  by rewrite Z.lxor_0_r.
Qed.

(** The 39 code bits a single upset can hit: 32 data bits, 7 check bits. *)
Definition single_upsets : list (Z * Z) :=
  map (λ i, (2 ^ Z.of_nat i, 0)) (seq 0 32) ++
  map (λ i, (0, 2 ^ Z.of_nat i)) (seq 0 7).

Definition correctable (upset : Z * Z) : bool :=
  let '(de, ee) := upset in
  bool_decide (0 <= de < 4294967296) && bool_decide (0 <= ee < 256) &&
  bool_decide (secded_decode de ee = (1, 0)).

Definition uncorrectable (upset : Z * Z) : bool :=
  let '(de, ee) := upset in
  bool_decide (0 <= de < 4294967296) && bool_decide (0 <= ee < 256) &&
  ((secded_decode de ee).1 <? 0).

Definition combine_upsets (u v : Z * Z) : Z * Z := (Z.lxor u.1 v.1, Z.lxor u.2 v.2).

Lemma single_upsets_correctable : forallb correctable single_upsets = true.
Proof. vm_compute. reflexivity. Qed.

Lemma double_upsets_uncorrectable :
  forallb (λ u, forallb (λ v, bool_decide (u = v) || uncorrectable (combine_upsets u v))
                  single_upsets) single_upsets = true.
Proof. vm_compute. reflexivity. Qed.

Lemma correctable_spec de ee data :
  correctable (de, ee) = true → is_u32 data →
  secded_decode (Z.lxor data de) (Z.lxor (secded_encode data) ee) = (1, data).
Proof.
  unfold correctable. rewrite !andb_true_iff, !bool_decide_eq_true.
  intros [[Hde Hee] Hdec] Hd. rewrite secded_decode_pattern by done.
  by rewrite Hdec, Z.lxor_0_r.
Qed.

Lemma uncorrectable_spec de ee data :
  uncorrectable (de, ee) = true → is_u32 data →
  (secded_decode (Z.lxor data de) (Z.lxor (secded_encode data) ee)).1 < 0.
Proof.
  unfold uncorrectable. rewrite !andb_true_iff, !bool_decide_eq_true, Z.ltb_lt.
  intros [[Hde Hee] Hdec] Hd. by rewrite secded_decode_pattern.
Qed.

(** * Copies *)
Lemma get_le_4_range off bytes : Forall is_u8 bytes → is_u32 (get_le 4 off bytes).
Proof.
  intros Hb. unfold get_le. apply le_value_u32.
  - by apply Forall_take, Forall_drop.
  - rewrite length_take. lia.
Qed.

Lemma length_words_of_bytes n bytes : length (words_of_bytes n bytes) = n.
Proof. revert bytes. induction n; intros; simpl; auto. Qed.

Lemma words_of_bytes_range n bytes :
  Forall is_u8 bytes → Forall is_u32 (words_of_bytes n bytes).
Proof.
  revert bytes. induction n as [|n IH]; intros bytes Hb; simpl; constructor.
  - by apply get_le_4_range.
  - by apply IH, Forall_drop.
Qed.

Lemma bytes_of_words_of_bytes n bytes :
  Forall is_u8 bytes → length bytes = (4 * n)%nat →
  bytes_of_words (words_of_bytes n bytes) = bytes.
Proof.
  revert bytes. induction n as [|n IH]; intros bytes Hb Hlen.
  - by destruct bytes.
  - cbn [words_of_bytes]. change (bytes_of_words (?w :: ?ws)) with
      (le_bytes 4 w ++ bytes_of_words ws).
    rewrite IH by (by apply Forall_drop || (rewrite length_drop; lia)).
    unfold get_le. rewrite drop_0.
    replace 4%nat with (length (take 4 bytes)) at 1 by (rewrite length_take; lia).
    rewrite le_bytes_value by (by apply Forall_take). apply take_drop.
Qed.

Lemma bytes_of_words_range words : Forall is_u8 (bytes_of_words words).
Proof.
  induction words as [|w words IH]; [constructor|].
  apply Forall_app. split; [apply le_bytes_range|exact IH].
Qed.

Lemma length_bytes_of_words words : length (bytes_of_words words) = (4 * length words)%nat.
Proof.
  induction words as [|w words IH]; [done|].
  change (bytes_of_words (w :: words)) with (le_bytes 4 w ++ bytes_of_words words).
  rewrite length_app, IH, length_le_bytes. simpl. lia.
Qed.

Lemma copy_payload_range copy n : Forall is_u8 (copy_payload copy n).
Proof. apply Forall_take, bytes_of_words_range. Qed.

Lemma secded_encode_u8 data : is_u8 (secded_encode data).
Proof. apply u8_range. Qed.

Lemma copy_crc_u32 words ecc : Forall is_u8 ecc → is_u32 (copy_crc words ecc).
Proof.
  intros He. unfold copy_crc. pose proof (bytes_of_words_range words).
  assert (is_u32 0xFFFFFFFF) by ulia.
  rewrite (crc32_bytes_u32 (bytes_of_words words)) by done.
  rewrite crc32_bytes_u32 by auto with words.
  apply lxor_u32; auto with words.
Qed.

(** The integers of a copy have the widths of its declaration. *)
Definition typed_copy (copy : critical_object_copy_t) : Prop :=
  length (c_words copy) = CRITICAL_OBJECT_WORDS ∧ Forall is_u32 (c_words copy) ∧
  length (c_ecc copy) = CRITICAL_OBJECT_WORDS ∧ Forall is_u8 (c_ecc copy) ∧
  is_u32 (c_crc32 copy).

Definition typed_object (object : critical_object_t) : Prop :=
  typed_copy (primary object) ∧ typed_copy (shadow object).

(** The fields [copy_build] is called with. *)
Record fields (version sequence state : Z) (payload : list Z) : Prop := {
  f_version : is_u32 version;
  f_sequence : is_u32 sequence;
  f_state : 0 <= state <= CRITICAL_INTEGRITY_RECOVERED;
  f_bytes : Forall is_u8 payload;
  f_length : (length payload <= CRITICAL_OBJECT_MAX_PAYLOAD)%nat
}.

Section build.
Context (version sequence state : Z) (payload : list Z).
Context (Hf : fields version sequence state payload).

Let image := bytes_copy (replicate 64 0) payload.

Lemma image_bytes : Forall is_u8 image.
Proof.
  apply Forall_app. split; [apply Hf|].
  apply Forall_drop, Forall_replicate. ulia.
Qed.

Lemma image_length : length image = 64%nat.
Proof.
  unfold image. rewrite length_bytes_copy, length_replicate; [done|].
  rewrite length_replicate. apply Hf.
Qed.

Lemma build_words :
  c_words (copy_build version sequence state payload) =
    [version; sequence; Z.of_nat (length payload); state] ++ words_of_bytes 16 image.
Proof.
  simpl. rewrite u32_small; [done|].
  pose proof (f_length _ _ _ _ Hf). unfold CRITICAL_OBJECT_MAX_PAYLOAD in *. ulia.
Qed.

Lemma build_typed : typed_copy (copy_build version sequence state payload).
Proof.
  assert (Hw : Forall is_u32 (c_words (copy_build version sequence state payload))).
  { rewrite build_words. pose proof (f_length _ _ _ _ Hf).
    pose proof (f_state _ _ _ _ Hf).
    unfold CRITICAL_INTEGRITY_RECOVERED, CRITICAL_OBJECT_MAX_PAYLOAD in *.
    apply Forall_cons_2; [apply Hf|]. apply Forall_cons_2; [apply Hf|].
    apply Forall_cons_2; [ulia|]. apply Forall_cons_2; [ulia|].
    apply words_of_bytes_range, image_bytes. }
  assert (He : Forall is_u8 (c_ecc (copy_build version sequence state payload))).
  { apply Forall_fmap, Forall_true. intros. apply secded_encode_u8. }
  split; [|split; [done|split; [|split; [done|apply copy_crc_u32, He]]]].
  - rewrite build_words, length_app, length_words_of_bytes. done.
  - unfold copy_build, copy_seal. cbn [c_ecc].
    rewrite length_map, length_app, length_words_of_bytes. done.
Qed.

Lemma build_payload :
  copy_payload (copy_build version sequence state payload)
    (Z.of_nat (length payload)) = payload.
Proof.
  unfold copy_payload. rewrite build_words, Nat2Z.id.
  change (drop WORD_PAYLOAD _) with (words_of_bytes 16 image).
  rewrite bytes_of_words_of_bytes; [|apply image_bytes|apply image_length].
  apply take_bytes_copy.
Qed.

Lemma build_version : copy_word (copy_build version sequence state payload) WORD_VERSION = version.
Proof. done. Qed.
Lemma build_sequence : copy_word (copy_build version sequence state payload) WORD_SEQUENCE = sequence.
Proof. done. Qed.
Lemma build_length :
  copy_word (copy_build version sequence state payload) WORD_LENGTH = Z.of_nat (length payload).
Proof. unfold copy_word. by rewrite build_words. Qed.
Lemma build_integrity : copy_word (copy_build version sequence state payload) WORD_INTEGRITY = state.
Proof. done. Qed.
End build.

(** ** Upsets

    An upset list gives, per word, the flipped data bits and check bits. *)
Definition upset_copy (upsets : list (Z * Z)) (copy : critical_object_copy_t)
    : critical_object_copy_t :=
  Copy (zip_with (λ w u, Z.lxor w u.1) (c_words copy) upsets)
       (zip_with (λ e u, Z.lxor e u.2) (c_ecc copy) upsets)
       (c_crc32 copy).

Definition no_upset (upset : Z * Z) : bool := bool_decide (upset = (0, 0)).

Definition repairable (upset : Z * Z) : bool := no_upset upset || correctable upset.

Definition repairable_upsets (upsets : list (Z * Z)) : Prop :=
  length upsets = CRITICAL_OBJECT_WORDS ∧ forallb repairable upsets = true.

Lemma repairable_decode upset data :
  repairable upset = true → is_u32 data →
  secded_decode (Z.lxor data upset.1) (Z.lxor (secded_encode data) upset.2) =
    (Z.b2z (negb (no_upset upset)), data).
Proof.
  destruct upset as [de ee]. unfold repairable, no_upset. intros H Hd.
  case_bool_decide as E; simplify_eq; cbn [fst snd].
  - by rewrite !Z.lxor_0_r, secded_decode_clean.
  - by apply correctable_spec.
Qed.

Lemma copy_scrub_upset words upsets :
  Forall is_u32 words → length upsets = length words →
  forallb repairable upsets = true →
  copy_scrub (zip_with (λ w u, Z.lxor w u.1) words upsets)
             (zip_with (λ e u, Z.lxor e u.2) (map secded_encode words) upsets)
    = Some (words, existsb (λ u, negb (no_upset u)) upsets).
Proof.
  intros Hw. revert upsets. induction Hw as [|w words Hw _ IH]; intros [|u upsets] Hlen Hrep;
    try done.
  cbn [forallb] in Hrep. apply andb_true_iff in Hrep as [Hu Hrep].
  cbn [map zip_with copy_scrub existsb]. rewrite repairable_decode by done.
  rewrite IH by (done || (simpl in Hlen; lia)).
  by destruct (no_upset u).
Qed.

Lemma zip_with_no_upset {A} (f : A → Z * Z → A) (l : list A) n :
  (∀ x, f x (0, 0) = x) → length l = n → zip_with f l (replicate n (0, 0)) = l.
Proof.
  intros Hf <-. induction l as [|x l IH]; [done|]. simpl. by rewrite Hf, IH.
Qed.

Lemma upset_none copy : typed_copy copy → upset_copy (replicate 20 (0, 0)) copy = copy.
Proof.
  intros (Hw & _ & He & _). unfold upset_copy. destruct copy as [w e c]; cbn [c_words c_ecc c_crc32] in *.
  rewrite !zip_with_no_upset; auto using Z.lxor_0_r.
Qed.

Lemma no_upsets_repairable : repairable_upsets (replicate 20 (0, 0)).
Proof. split; [done|]. vm_compute. reflexivity. Qed.

(** A sealed copy with repairable upsets is restored exactly. *)
Lemma copy_check_sealed words upsets version validator :
  let copy := copy_seal words in
  Forall is_u32 words → length words = CRITICAL_OBJECT_WORDS →
  repairable_upsets upsets →
  copy_word copy WORD_VERSION = version →
  copy_word copy WORD_LENGTH <= Z.of_nat CRITICAL_OBJECT_MAX_PAYLOAD →
  copy_word copy WORD_INTEGRITY <= CRITICAL_INTEGRITY_RECOVERED →
  validator (copy_payload copy (copy_word copy WORD_LENGTH)) = true →
  copy_check (upset_copy upsets copy) version validator =
    ((if existsb (λ u, negb (no_upset u)) upsets then COPY_CORRECTED else COPY_VALID),
     copy).
Proof.
  intros copy Hw Hlw [Hlen Hrep] Hver Hl Hi Hvalid.
  unfold copy_check, upset_copy, copy, copy_seal. cbn [c_words c_ecc c_crc32].
  rewrite copy_scrub_upset by (done || congruence). cbn [c_words c_ecc c_crc32].
  rewrite Z.eqb_refl. fold (copy_seal words). fold copy.
  rewrite Hver, Hvalid, Z.eqb_refl. cbn [negb orb].
  by rewrite (proj2 (Z.ltb_ge _ _) Hl), (proj2 (Z.ltb_ge _ _) Hi).
Qed.

Section check.
Context (version sequence state : Z) (payload : list Z) (validator : list Z → bool).
Context (Hf : fields version sequence state payload).
Context (Hvalid : validator payload = true).

Lemma copy_check_upset upsets :
  repairable_upsets upsets →
  copy_check (upset_copy upsets (copy_build version sequence state payload))
      version validator =
    ((if existsb (λ u, negb (no_upset u)) upsets then COPY_CORRECTED else COPY_VALID),
     copy_build version sequence state payload).
Proof.
  intros Hup. pose proof (build_typed _ _ _ _ Hf) as (Hlw & Hw & _).
  pose proof (f_length _ _ _ _ Hf). pose proof (f_state _ _ _ _ Hf).
  apply copy_check_sealed; [done..| | |].
  - change (copy_seal _) with (copy_build version sequence state payload).
    rewrite build_length by done. lia.
  - by apply H0.
  - change (copy_seal _) with (copy_build version sequence state payload).
    by rewrite build_length, build_payload.
Qed.

Lemma copy_check_clean :
  copy_check (copy_build version sequence state payload) version validator =
    (COPY_VALID, copy_build version sequence state payload).
Proof.
  rewrite <- (upset_none (copy_build _ _ _ _)) at 1 by apply build_typed, Hf.
  rewrite copy_check_upset by apply no_upsets_repairable. done.
Qed.
End check.

Lemma copies_equal_refl copy : copies_equal copy copy = true.
Proof.
  unfold copies_equal. rewrite !Z.eqb_refl. simpl. by apply bool_decide_eq_true.
Qed.

(** ** What a copy that passed its check contains *)
Lemma secded_flip_u32 syndrome data :
  0 <= syndrome < 64 → is_u32 data → is_u32 (secded_flip 38 1 0 syndrome data).
Proof.
  intros Hs Hd. rewrite <- (Z.lxor_0_r data), secded_flip_lxor.
  apply lxor_u32; [done|].
  set (p s := (0 <=? secded_flip 38 1 0 s 0) && (secded_flip 38 1 0 s 0 <? 4294967296)).
  assert (p syndrome = true) as H.
  { apply (forall_below_spec 64 p); [vm_compute; reflexivity|exact Hs]. }
  unfold p in H. ulia.
Qed.

Lemma secded_decode_u32 data stored :
  is_u32 data → is_u32 (secded_decode data stored).2.
Proof.
  intros Hd. unfold secded_decode. repeat case_match; cbn [snd]; try done.
  apply secded_flip_u32; [|done].
  apply (lxor_range 6); [lia|apply (land_ones_range 6); lia|].
  by apply secded_parity_range.
Qed.

Lemma secded_decode_status data stored : -1 <= (secded_decode data stored).1.
Proof. unfold secded_decode. repeat case_match; cbn [fst]; lia. Qed.

Lemma copy_scrub_u32 words ecc words' corrected :
  Forall is_u32 words → length ecc = length words →
  copy_scrub words ecc = Some (words', corrected) →
  Forall is_u32 words' ∧ length words' = length words.
Proof.
  intros Hw. revert ecc words' corrected.
  induction Hw as [|w words Hw _ IH]; intros [|e ecc] words' corrected Hlen H;
    simplify_eq/=; [done|].
  pose proof (secded_decode_u32 w e Hw) as Hd.
  destruct (secded_decode w e) as [status w']. cbn [snd] in Hd.
  destruct (status <? 0); [done|].
  destruct (copy_scrub words ecc) as [[ws c]|] eqn:E; [|done]. simplify_eq.
  destruct (IH ecc ws c) as [? ?]; [lia|done|]. split; [by constructor|simpl; lia].
Qed.

Lemma copy_check_sound copy version validator status checked :
  typed_copy copy →
  copy_check copy version validator = (status, checked) →
  copy_status_ok status = true →
  let length := copy_word checked WORD_LENGTH in
  copy_word checked WORD_VERSION = version ∧
  is_u32 (copy_word checked WORD_SEQUENCE) ∧
  0 <= length <= Z.of_nat CRITICAL_OBJECT_MAX_PAYLOAD ∧
  validator (copy_payload checked length) = true ∧
  List.length (copy_payload checked length) = Z.to_nat length.
Proof.
  intros (Hlw & Hw & Hle & _). unfold copy_check.
  destruct (copy_scrub _ _) as [[words corrected]|] eqn:Hscrub;
    [|intros; simplify_eq; done].
  apply copy_scrub_u32 in Hscrub as [Hw' Hl']; [|done|congruence].
  set (c := Copy words _ _).
  destruct (_ || _) eqn:Hg; [by intros [= <- _]|].
  destruct (validator _) eqn:Hv; [|by intros [= <- _]].
  cbn [negb]. intros [= _ <-] _. cbn zeta.
  rewrite !orb_false_iff, !negb_false_iff in Hg.
  destruct Hg as [[[Hcrc Hver] Hl] Hi]. assert (Hword : ∀ i, is_u32 (copy_word c i)).
  { intros i. unfold copy_word. subst c. cbn [c_words].
    destruct (nth_in_or_default i words 0) as [Hin|Hd]; [|rewrite Hd; ulia].
    by apply (proj1 (List.Forall_forall _ _) Hw'). }
  pose proof (Hword WORD_LENGTH) as Hlen.
  apply Z.eqb_eq in Hver. apply Z.ltb_ge in Hl. unfold CRITICAL_OBJECT_MAX_PAYLOAD in *.
  split; [done|]. split; [apply Hword|]. split; [ulia|]. split; [done|].
  unfold copy_payload. rewrite length_take, length_bytes_of_words, length_drop.
  subst c. cbn [c_words]. rewrite Hl', Hlw. unfold CRITICAL_OBJECT_WORDS, WORD_PAYLOAD. ulia.
Qed.

(** * Objects *)
Lemma critical_object_lock_spec object :
  critical_object_lock object =
    if publication_lock object =? 0
    then Some (Object 1 (primary object) (shadow object)) else None.
Proof.
  unfold critical_object_lock.
  replace (Z.to_nat CRITICAL_OBJECT_LOCK_RETRY_LIMIT) with
    (S (Z.to_nat (CRITICAL_OBJECT_LOCK_RETRY_LIMIT - 1))) by
    (unfold CRITICAL_OBJECT_LOCK_RETRY_LIMIT; rewrite Z.shiftl_1_l; lia).
  generalize (Z.to_nat (CRITICAL_OBJECT_LOCK_RETRY_LIMIT - 1)). intros n.
  simpl. destruct (publication_lock object =? 0) eqn:E; [done|].
  induction n as [|n IH]; simpl; [done|]. by rewrite E.
Qed.

(** Both copies are one sealed image of the value. *)
Definition critical_holds (object : critical_object_t) (version sequence : Z)
    (payload : list Z) : Prop :=
  publication_lock object = 0 ∧
  ∃ state, fields version sequence state payload ∧
    primary object = copy_build version sequence state payload ∧
    shadow object = primary object.

Lemma result_integrity_range result :
  0 <= result_integrity result <= CRITICAL_INTEGRITY_RECOVERED.
Proof. by destruct result. Qed.

Lemma fields_state version sequence state state' payload :
  fields version sequence state payload →
  0 <= state' <= CRITICAL_INTEGRITY_RECOVERED →
  fields version sequence state' payload.
Proof. intros []. by constructor. Qed.

Lemma holds_build version sequence state payload :
  fields version sequence state payload →
  critical_holds (Object 0 (copy_build version sequence state payload)
                           (copy_build version sequence state payload))
    version sequence payload.
Proof. intros Hf. split; [done|]. by exists state. Qed.

(** The tail of a successful read: publish and return the chosen value. *)
Lemma read_publishes object version capacity validator ps first ss second result
    sequence state payload :
  publication_lock object = 0 → version ≠ 0 →
  copy_check (primary object) version validator = (ps, first) →
  copy_check (shadow object) version validator = (ss, second) →
  fields version sequence state payload →
  select_copy ps ss first second =
    (result, copy_build version sequence state payload) →
  critical_read_ok result = true → (length payload <= capacity)%nat →
  ∃ object', critical_object_read object version capacity validator =
      (result, object', payload) ∧
    critical_holds object' version sequence payload.
Proof.
  intros Hlock Hv Hp Hs Hf Hsel Hok Hcap. unfold critical_object_read.
  rewrite (proj2 (Z.eqb_neq _ _) Hv), critical_object_lock_spec, Hlock. cbn [Z.eqb].
  cbn [primary shadow publication_lock]. rewrite Hp, Hs, Hsel, Hok.
  rewrite build_length, build_payload, build_version, build_sequence by done.
  rewrite (proj2 (Z.ltb_ge _ _)) by lia.
  eexists. split; [reflexivity|]. apply holds_build.
  by eapply fields_state, result_integrity_range.
Qed.

Lemma select_copy_same copy :
  select_copy COPY_VALID COPY_VALID copy copy = (CRITICAL_READ_OK, copy).
Proof.
  unfold select_copy. cbn [copy_status_ok negb andb].
  by rewrite copies_equal_refl, andb_false_r, Z.leb_refl.
Qed.

Lemma select_copy_newer first second :
  copy_word first WORD_SEQUENCE < copy_word second WORD_SEQUENCE →
  select_copy COPY_VALID COPY_VALID first second = (CRITICAL_READ_OK, second).
Proof.
  intros H. unfold select_copy. cbn [copy_status_ok negb andb].
  by rewrite (proj2 (Z.eqb_neq _ _)), (proj2 (Z.leb_gt _ _)) by lia.
Qed.

(** Every read that succeeds comes from a checked copy. *)
Lemma select_copy_ok ps ss first second result chosen :
  select_copy ps ss first second = (result, chosen) → critical_read_ok result = true →
  (copy_status_ok ps = true ∧ chosen = first) ∨
  (copy_status_ok ss = true ∧ chosen = second).
Proof.
  unfold select_copy. intros H Hok.
  destruct ps, ss; cbn in H; repeat case_match; simplify_eq; eauto.
Qed.

Lemma chosen_rebuild (copy : critical_object_copy_t) version result sequence length :
  copy_word copy WORD_VERSION = version → is_u32 version →
  copy_word copy WORD_SEQUENCE = sequence → is_u32 sequence →
  0 <= length <= Z.of_nat CRITICAL_OBJECT_MAX_PAYLOAD →
  List.length (copy_payload copy length) = Z.to_nat length →
  fields (copy_word copy WORD_VERSION) (copy_word copy WORD_SEQUENCE)
    (result_integrity result) (copy_payload copy length).
Proof.
  intros -> ? -> ? ? Hl. constructor; [done..| | |].
  - apply result_integrity_range.
  - apply copy_payload_range.
  - rewrite Hl. lia.
Qed.

Lemma read_sound object version capacity validator result object' payload :
  typed_object object → is_u32 version →
  critical_object_read object version capacity validator = (result, object', payload) →
  critical_read_ok result = true →
  validator payload = true ∧ (length payload <= capacity)%nat ∧
  ∃ sequence, critical_holds object' version sequence payload.
Proof.
  intros [Htp Hts] Hv. unfold critical_object_read.
  destruct (version =? 0); [by intros [= <- _ _]|].
  rewrite critical_object_lock_spec. destruct (_ =? 0); [|by intros [= <- _ _]].
  cbn [primary shadow publication_lock].
  destruct (copy_check (primary object) _ _) as [ps first] eqn:Hp.
  destruct (copy_check (shadow object) _ _) as [ss second] eqn:Hs.
  destruct (select_copy _ _ _ _) as [r chosen] eqn:Hsel.
  destruct (critical_read_ok r) eqn:Hok; [|intros [= <- _ _] ?; congruence].
  assert (Hc : copy_word chosen WORD_VERSION = version ∧
      is_u32 (copy_word chosen WORD_SEQUENCE) ∧
      0 <= copy_word chosen WORD_LENGTH <= Z.of_nat CRITICAL_OBJECT_MAX_PAYLOAD ∧
      validator (copy_payload chosen (copy_word chosen WORD_LENGTH)) = true ∧
      List.length (copy_payload chosen (copy_word chosen WORD_LENGTH)) =
        Z.to_nat (copy_word chosen WORD_LENGTH)).
  { apply select_copy_ok in Hsel as [[? ->]|[? ->]]; [| |done].
    - by apply (copy_check_sound (primary object) version validator ps).
    - by apply (copy_check_sound (shadow object) version validator ss). }
  destruct Hc as (Hver & Hseq & Hlen & Hval & Hpl).
  destruct (Z.of_nat capacity <? _) eqn:Hcap; [by intros [= <- _ _]|].
  apply Z.ltb_ge in Hcap. intros [= <- <- <-] _.
  split; [done|]. split; [lia|]. eexists. rewrite Hver. apply holds_build.
  rewrite <- Hver at 1. by eapply chosen_rebuild.
Qed.

Lemma read_refused object version capacity validator result object' payload :
  critical_object_read object version capacity validator = (result, object', payload) →
  critical_read_ok result = false → object' = object.
Proof.
  unfold critical_object_read. destruct (version =? 0); [by intros [= _ <- _]|].
  rewrite critical_object_lock_spec. destruct (Z.eqb_spec (publication_lock object) 0);
    [|by intros [= _ <- _]].
  assert (Hu : critical_object_unlock (Object 1 (primary object) (shadow object)) = object)
    by (unfold critical_object_unlock; destruct object; simpl in *; congruence).
  cbn [primary shadow]. destruct (copy_check _ _ _) as [ps first].
  destruct (copy_check _ _ _) as [ss second].
  destruct (select_copy _ _ _ _) as [r chosen]. rewrite Hu.
  destruct (critical_read_ok r) eqn:Hok; [|by intros [= _ <- _]].
  destruct (_ <? _); [by intros [= _ <- _]|]. intros [= <- _ _]. congruence.
Qed.

Lemma unlock_locked object :
  publication_lock object = 0 →
  critical_object_unlock (Object 1 (primary object) (shadow object)) = object.
Proof. destruct object. simpl. by intros ->. Qed.

Lemma update_refused object version payload validator status object' :
  critical_object_update object version payload validator = (status, object') →
  status ≠ 0 → object' = object.
Proof.
  unfold critical_object_update. destruct payload as [payload|]; [|by intros [= _ <-]].
  destruct (_ || _); [by intros [= _ <-]|]. rewrite critical_object_lock_spec.
  destruct (Z.eqb_spec (publication_lock object) 0); [|by intros [= _ <-]].
  cbn [primary shadow]. destruct (copy_check _ _ _), (copy_check _ _ _).
  destruct (next_sequence _ _ _ _); [by intros [= <- _]|].
  intros [= _ <-] _. by apply unlock_locked.
Qed.

Lemma next_sequence_u32 ps ss first second sequence :
  next_sequence ps ss first second = Some sequence → is_u32 sequence ∧ sequence ≠ 0.
Proof.
  unfold next_sequence. destruct (_ && _); [done|]. destruct (_ && _); [done|].
  destruct (Z.eqb_spec (u32 (
    (if copy_status_ok ss &&
       ((if copy_status_ok ps then copy_word first WORD_SEQUENCE
         else copy_word second WORD_SEQUENCE) <? copy_word second WORD_SEQUENCE)
     then copy_word second WORD_SEQUENCE
     else if copy_status_ok ps then copy_word first WORD_SEQUENCE
          else copy_word second WORD_SEQUENCE) + 1)) 0); [done|].
  intros [= <-]. split; [apply u32_range|done].
Qed.

(** A sealed copy built by an update. *)
Lemma update_fields version sequence payload :
  is_u32 version → is_u32 sequence → Forall is_u8 payload →
  (CRITICAL_OBJECT_MAX_PAYLOAD <? length payload)%nat = false →
  fields version sequence CRITICAL_INTEGRITY_HEALTHY payload.
Proof.
  intros ? ? ? Hl. constructor; [done|done| |done|].
  - unfold CRITICAL_INTEGRITY_HEALTHY, CRITICAL_INTEGRITY_RECOVERED. lia.
  - apply Nat.ltb_ge in Hl. lia.
Qed.

Lemma update_sound object version payload validator object' :
  is_u32 version → Forall is_u8 payload →
  critical_object_update object version (Some payload) validator = (0, object') →
  ∃ sequence, critical_holds object' version sequence payload.
Proof.
  intros Hv Hb. unfold critical_object_update.
  destruct (_ || _) eqn:Hg; [by intros [=]|]. rewrite critical_object_lock_spec.
  destruct (publication_lock object =? 0); [|by intros [=]]. cbn [primary shadow].
  destruct (copy_check _ _ _) as [ps first], (copy_check _ _ _) as [ss second].
  destruct (next_sequence _ _ _ _) as [sequence|] eqn:Hn; [|by intros [=]].
  intros [= <-]. exists sequence. apply holds_build.
  apply next_sequence_u32 in Hn as [? _].
  rewrite !orb_false_iff in Hg. destruct Hg as [[_ Hg] _]. by apply update_fields.
Qed.

Lemma storable_guard (payload : list Z) :
  storable payload →
  (length payload =? 0)%nat = false ∧
  (CRITICAL_OBJECT_MAX_PAYLOAD <? length payload)%nat = false.
Proof.
  intros [_ ?]. unfold CRITICAL_OBJECT_MAX_PAYLOAD.
  rewrite Nat.eqb_neq, Nat.ltb_ge. lia.
Qed.

Lemma holds_check object version sequence payload validator :
  critical_holds object version sequence payload → validator payload = true →
  ∃ state, fields version sequence state payload ∧
    copy_check (primary object) version validator =
      (COPY_VALID, copy_build version sequence state payload) ∧
    copy_check (shadow object) version validator =
      (COPY_VALID, copy_build version sequence state payload).
Proof.
  intros (_ & state & Hf & Hp & Hs) Hvalid. exists state. rewrite Hs, Hp.
  split; [done|]. by rewrite copy_check_clean.
Qed.

Lemma next_sequence_same state version sequence payload :
  is_u32 sequence → sequence < UINT32_MAX →
  let copy := copy_build version sequence state payload in
  next_sequence COPY_VALID COPY_VALID copy copy = Some (sequence + 1).
Proof.
  intros Hs Hmax copy. unfold next_sequence. cbn [copy_status_ok negb andb].
  rewrite copies_equal_refl, andb_false_r. unfold copy. rewrite build_sequence.
  rewrite Z.ltb_irrefl, u32_small by ulia.
  by rewrite (proj2 (Z.eqb_neq _ _)) by ulia.
Qed.

Lemma update_holds object version sequence payload payload' validator :
  critical_holds object version sequence payload → version ≠ 0 →
  validator payload = true → storable payload' → sequence < UINT32_MAX →
  ∃ object', critical_object_update object version (Some payload') validator = (0, object') ∧
    critical_holds object' version (sequence + 1) payload'.
Proof.
  intros Hh Hv Hvalid Hst Hmax. destruct (storable_guard _ Hst) as [Hg1 Hg2].
  destruct (holds_check _ _ _ _ _ Hh Hvalid) as (state & Hf & Hp & Hs).
  unfold critical_object_update. rewrite Hg1, Hg2, (proj2 (Z.eqb_neq _ _) Hv).
  cbn [orb]. rewrite critical_object_lock_spec. destruct Hh as [Hl _]. rewrite Hl.
  cbn [Z.eqb primary shadow]. rewrite Hp, Hs, next_sequence_same by (done || apply Hf).
  eexists. split; [reflexivity|]. apply holds_build, update_fields;
    [apply Hf| |apply Hst|done].
  pose proof (f_sequence _ _ _ _ Hf). ulia.
Qed.

Lemma init_holds object version payload :
  is_u32 version → version ≠ 0 → storable payload →
  ∃ object', critical_object_init object version (Some payload) = (0, object') ∧
    critical_holds object' version 1 payload.
Proof.
  intros Hu Hv Hst. destruct (storable_guard _ Hst) as [Hg1 Hg2].
  unfold critical_object_init. rewrite Hg1, Hg2, (proj2 (Z.eqb_neq _ _) Hv). cbn [orb].
  eexists. split; [reflexivity|].
  apply holds_build, update_fields; [done|ulia|apply Hst|done].
Qed.

Lemma init_refused object version payload status object' :
  critical_object_init object version payload = (status, object') →
  status ≠ 0 → object' = object.
Proof.
  unfold critical_object_init. destruct payload; [|by intros [= _ <-]].
  destruct (_ || _); [by intros [= _ <-]|]. by intros [= <- _].
Qed.

Lemma read_holds object version sequence payload capacity validator :
  critical_holds object version sequence payload → version ≠ 0 →
  validator payload = true → (length payload <= capacity)%nat →
  ∃ object', critical_object_read object version capacity validator =
      (CRITICAL_READ_OK, object', payload) ∧
    critical_holds object' version sequence payload.
Proof.
  intros Hh Hv Hvalid Hcap.
  destruct (holds_check _ _ _ _ _ Hh Hvalid) as (state & Hf & Hp & Hs).
  eapply read_publishes; [apply Hh|done|exact Hp|exact Hs|exact Hf|apply select_copy_same|done..].
Qed.

Lemma holds_typed object version sequence payload :
  critical_holds object version sequence payload → typed_object object.
Proof.
  intros (_ & state & Hf & Hp & Hs). split; rewrite ?Hs, Hp; by apply build_typed.
Qed.

(** The implementation discharges the interface. *)
#[export] Instance critical_object_store : ProtectedStore critical_object_t := {
  ps_init := critical_object_init;
  ps_update := critical_object_update;
  ps_read := critical_object_read;
  ps_typed := typed_object;
  ps_holds := critical_holds
}.

#[export] Instance critical_object_laws : ProtectedStoreLaws critical_object_t.
Proof.
  constructor.
  - apply holds_typed.
  - apply init_holds.
  - apply init_refused.
  - apply read_holds.
  - apply read_sound.
  - apply read_refused.
  - apply update_holds.
  - intros. by eapply update_sound.
  - apply update_refused.
Qed.

(** * Properties *)

(** The table of byte contributions computes the shortened-Hamming code of
    the bit-by-bit walk, on every 32-bit word. *)
Theorem secded_parity_equivalence (data : Z) (Hd : is_u32 data) :
  secded_parity data = hamming data.
Proof. by apply secded_parity_hamming. Qed.

Lemma secded_parity_equivalence_witness : secded_parity 0xDEADBEEF = hamming 0xDEADBEEF.
Proof. apply (secded_parity_equivalence 0xDEADBEEF). vm_compute. split; congruence. Defined.

(** The decoder repairs every single flipped bit, of the word or of its
    check byte, for every word, and reports the repair. *)
Theorem secded_corrects_single_upset (data de ee : Z) (Hd : is_u32 data)
    (Hup : In (de, ee) single_upsets) :
  secded_decode (Z.lxor data de) (Z.lxor (secded_encode data) ee) = (1, data).
Proof.
  apply correctable_spec; [|done].
  by apply (proj1 (forallb_forall _ _) single_upsets_correctable).
Qed.

Lemma secded_corrects_single_upset_witness :
  secded_decode (Z.lxor 0x12345678 (2 ^ 17)) (Z.lxor (secded_encode 0x12345678) 0)
    = (1, 0x12345678).
Proof.
  apply (secded_corrects_single_upset 0x12345678 (2 ^ 17) 0).
  - vm_compute. split; congruence.
  - vm_compute. tauto.
Defined.

(** Two flipped bits of a protected word are never miscorrected: the
    decoder refuses the word. *)
Theorem secded_detects_double_upset (data : Z) (u v : Z * Z) (Hd : is_u32 data)
    (Hu : In u single_upsets) (Hv : In v single_upsets) (Hne : u ≠ v) :
  let '(de, ee) := combine_upsets u v in
  (secded_decode (Z.lxor data de) (Z.lxor (secded_encode data) ee)).1 = -1.
Proof.
  destruct (combine_upsets u v) as [de ee] eqn:E.
  pose proof (proj1 (forallb_forall _ _) double_upsets_uncorrectable u Hu) as H.
  pose proof (proj1 (forallb_forall _ _) H v Hv) as Huv. cbn beta in Huv.
  rewrite E, orb_true_iff, bool_decide_eq_true in Huv. destruct Huv as [|Huv]; [done|].
  pose proof (uncorrectable_spec de ee data Huv Hd) as Hneg.
  pose proof (secded_decode_status (Z.lxor data de) (Z.lxor (secded_encode data) ee)).
  lia.
Qed.

Lemma secded_detects_double_upset_witness :
  (secded_decode (Z.lxor 5 (Z.lxor (2 ^ 3) 0)) (Z.lxor (secded_encode 5) (Z.lxor 0 (2 ^ 6)))).1 = -1.
Proof.
  apply (secded_detects_double_upset 5 (2 ^ 3, 0) (0, 2 ^ 6));
    [vm_compute; split; congruence|vm_compute; tauto..|vm_compute; congruence].
Defined.

Definition upset_object (up us : list (Z * Z)) (object : critical_object_t)
    : critical_object_t :=
  Object (publication_lock object) (upset_copy up (primary object))
         (upset_copy us (shadow object)).

(** One upset per protected word, in any number of words of both copies, is
    invisible to the reader: the read succeeds, returns the stored payload and
    leaves both copies intact again. *)
Theorem critical_object_read_repairs (object : critical_object_t)
    (version sequence : Z) (payload : list Z) (validator : list Z → bool)
    (capacity : nat) (up us : list (Z * Z))
    (Hh : critical_holds object version sequence payload) (Hv : version ≠ 0)
    (Hvalid : validator payload = true) (Hcap : (length payload <= capacity)%nat)
    (Hup : repairable_upsets up) (Hus : repairable_upsets us) :
  ∃ result object',
    critical_object_read (upset_object up us object) version capacity validator =
      (result, object', payload) ∧
    critical_read_ok result = true ∧
    (result = CRITICAL_READ_CORRECTED ↔
       existsb (λ u, negb (no_upset u)) (up ++ us) = true) ∧
    critical_holds object' version sequence payload.
Proof.
  destruct Hh as (Hl & state & Hf & Hp & Hs).
  set (copy := copy_build version sequence state payload) in *.
  pose proof (copy_check_upset _ _ _ _ validator Hf Hvalid up Hup) as Hcp.
  pose proof (copy_check_upset _ _ _ _ validator Hf Hvalid us Hus) as Hcs.
  fold copy in Hcp, Hcs. rewrite existsb_app.
  set (bp := existsb _ up) in *. set (bs := existsb _ us) in *.
  set (result := if bp || bs then CRITICAL_READ_CORRECTED else CRITICAL_READ_OK).
  destruct (read_publishes (upset_object up us object) version capacity validator
    (if bp then COPY_CORRECTED else COPY_VALID) copy
    (if bs then COPY_CORRECTED else COPY_VALID) copy result sequence state payload)
    as (object' & Hread & Hh'); try done.
  - unfold upset_object. cbn [primary]. by rewrite Hp.
  - unfold upset_object. cbn [shadow]. by rewrite Hs, Hp.
  - unfold select_copy, result. fold copy.
    destruct bp, bs; cbn [copy_status_ok negb andb orb];
      by rewrite copies_equal_refl, andb_false_r, Z.leb_refl.
  - by unfold result; destruct (bp || bs).
  - exists result, object'. split; [done|].
    by unfold result; destruct (bp || bs).
Qed.

(** A concrete object for the witnesses: the four bytes 1, 2, 3, 4. *)
Definition sample_payload : list Z := [1; 2; 3; 4].
Definition sample_object : critical_object_t :=
  (critical_object_init (Object 0 (Copy [] [] 0) (Copy [] [] 0)) 1 (Some sample_payload)).2.

Lemma sample_holds : critical_holds sample_object 1 1 sample_payload.
Proof.
  split; [reflexivity|]. exists CRITICAL_INTEGRITY_HEALTHY.
  split; [|by split].
  constructor; [ulia|ulia| |by apply is_bytes_spec|simpl; unfold CRITICAL_OBJECT_MAX_PAYLOAD; lia].
  unfold CRITICAL_INTEGRITY_HEALTHY, CRITICAL_INTEGRITY_RECOVERED. lia.
Qed.

Definition sample_upsets : list (Z * Z) :=
  (2 ^ 9, 0) :: (0, 2 ^ 3) :: replicate 18 (0, 0).

Lemma critical_object_read_repairs_witness :
  ∃ result object',
    critical_object_read (upset_object sample_upsets sample_upsets sample_object) 1 64
      (λ _, true) = (result, object', sample_payload) ∧
    critical_read_ok result = true ∧
    (result = CRITICAL_READ_CORRECTED ↔
       existsb (λ u, negb (no_upset u)) (sample_upsets ++ sample_upsets) = true) ∧
    critical_holds object' 1 1 sample_payload.
Proof.
  apply (critical_object_read_repairs sample_object 1 1 sample_payload (λ _, true) 64
           sample_upsets sample_upsets);
    [apply sample_holds|lia|reflexivity|simpl; lia|
     split; [reflexivity|vm_compute; reflexivity]..].
Defined.

(** C16: the loss of one copy is survived: when one copy is beyond repair,
    whatever it contains, the read returns the payload of the other, reports
    the recovery, and rebuilds both copies. *)
Theorem critical_object_read_recovers (object : critical_object_t)
    (version sequence : Z) (payload : list Z) (validator : list Z → bool)
    (capacity : nat) (lost : critical_object_copy_t) (upsets : list (Z * Z))
    (lose_primary : bool)
    (Hh : critical_holds object version sequence payload) (Hv : version ≠ 0)
    (Hvalid : validator payload = true) (Hcap : (length payload <= capacity)%nat)
    (Hup : repairable_upsets upsets)
    (Hlost : (copy_check lost version validator).1 = COPY_INVALID) :
  ∃ object',
    critical_object_read
      (if lose_primary
       then Object (publication_lock object) lost (upset_copy upsets (shadow object))
       else Object (publication_lock object) (upset_copy upsets (primary object)) lost)
      version capacity validator = (CRITICAL_READ_RECOVERED, object', payload) ∧
    critical_holds object' version sequence payload.
Proof.
  destruct Hh as (Hl & state & Hf & Hp & Hs). rewrite Hs, Hp.
  pose proof (copy_check_upset _ _ _ _ validator Hf Hvalid upsets Hup) as Hc.
  destruct (copy_check lost version validator) as [ls lc] eqn:Elost. cbn [fst] in Hlost.
  subst ls. set (bit := existsb _ upsets) in Hc.
  destruct lose_primary.
  - eapply read_publishes; [done|done|exact Elost|exact Hc|exact Hf| |done..].
    by destruct bit.
  - eapply read_publishes; [done|done|exact Hc|exact Elost|exact Hf| |done..].
    by destruct bit.
Qed.

Lemma critical_object_read_recovers_witness :
  ∃ object',
    critical_object_read (Object 0 (Copy [7] [255] 0) (upset_copy sample_upsets (shadow sample_object)))
      1 64 (λ _, true) = (CRITICAL_READ_RECOVERED, object', sample_payload) ∧
    critical_holds object' 1 1 sample_payload.
Proof.
  apply (critical_object_read_recovers sample_object 1 1 sample_payload (λ _, true) 64
           (Copy [7] [255] 0) sample_upsets true);
    [apply sample_holds|lia|reflexivity|simpl; lia|
     split; [reflexivity|vm_compute; reflexivity]|vm_compute; reflexivity].
Defined.

(** What memory can hold when a reset interrupts the publication of
    [candidate] over [object]: nothing stored yet, the shadow half written
    (any image that does not pass the check), the shadow complete, the primary
    half written, both complete.  The reset clears the publication lock. *)
Inductive interrupted (version : Z) (validator : list Z → bool)
    (candidate : critical_object_copy_t) (object : critical_object_t)
    : critical_object_t → Prop :=
| cut_before :
    interrupted version validator candidate object (critical_object_unlock object)
| cut_in_shadow torn :
    (copy_check torn version validator).1 = COPY_INVALID →
    interrupted version validator candidate object
      (critical_object_unlock (publish_shadow torn object))
| cut_between :
    interrupted version validator candidate object
      (critical_object_unlock (publish_shadow candidate object))
| cut_in_primary torn :
    (copy_check torn version validator).1 = COPY_INVALID →
    interrupted version validator candidate object
      (critical_object_unlock (publish_primary torn (publish_shadow candidate object)))
| cut_after :
    interrupted version validator candidate object
      (critical_object_unlock (publish_primary candidate (publish_shadow candidate object))).

(** An update is atomic under a reset: whatever the instant, the next read
    succeeds and returns either the complete old payload with its sequence or
    the complete new payload with the next one. *)
Theorem critical_object_update_atomic (object object' cut : critical_object_t)
    (version sequence : Z) (old new : list Z) (validator : list Z → bool)
    (capacity : nat)
    (Hh : critical_holds object version sequence old) (Hv : version ≠ 0)
    (Hold : validator old = true) (Hnew : validator new = true)
    (Hcapo : (length old <= capacity)%nat) (Hcapn : (length new <= capacity)%nat)
    (Hst : storable new) (Hmax : sequence < UINT32_MAX)
    (Hupdate : critical_object_update object version (Some new) validator = (0, object'))
    (Hcut : interrupted version validator (primary object') object cut) :
  ∃ result after payload,
    critical_object_read cut version capacity validator = (result, after, payload) ∧
    critical_read_ok result = true ∧
    (payload = old ∧ critical_holds after version sequence old ∨
     payload = new ∧ critical_holds after version (sequence + 1) new).
Proof.
  destruct (update_holds _ _ _ _ _ _ Hh Hv Hold Hst Hmax) as (u & Hu & Hh').
  assert (u = object') as -> by congruence. clear Hu.
  destruct (holds_check _ _ _ _ _ Hh Hold) as (so & Hfo & Hpo & Hso).
  destruct (holds_check _ _ _ _ _ Hh' Hnew) as (sn & Hfn & Hpn & Hsn).
  assert (Hread : ∀ o ps first ss second result seq state payload,
    publication_lock o = 0 →
    copy_check (primary o) version validator = (ps, first) →
    copy_check (shadow o) version validator = (ss, second) →
    fields version seq state payload →
    select_copy ps ss first second = (result, copy_build version seq state payload) →
    critical_read_ok result = true →
    payload = old ∧ seq = sequence ∨ payload = new ∧ seq = sequence + 1 →
    ∃ r after p, critical_object_read o version capacity validator = (r, after, p) ∧
      critical_read_ok r = true ∧
      (p = old ∧ critical_holds after version sequence old ∨
       p = new ∧ critical_holds after version (sequence + 1) new)).
  { intros o ps first ss second result seq state payload Hl Hp Hs Hf Hsel Hok Hcase.
    destruct (read_publishes o version capacity validator ps first ss second result
      seq state payload) as (after & Hr & Ha); try done.
    - by destruct Hcase as [[-> _]|[-> _]].
    - exists result, after, payload. split; [done|]. split; [done|].
      destruct Hcase as [[-> ->]|[-> ->]]; auto. }
  destruct Hcut as [|torn Ht| |torn Ht|];
    try (destruct (copy_check torn version validator) as [st ct] eqn:Et; simpl in Ht; subst st).
  - eapply Hread; [done|exact Hpo|exact Hso|exact Hfo|apply select_copy_same|done|by left].
  - by eapply Hread; [done|exact Hpo|exact Et|exact Hfo|reflexivity|done|left].
  - eapply (Hread _ _ _ _ _ CRITICAL_READ_OK); [done|exact Hpo|exact Hpn|exact Hfn| |done|by right].
    apply select_copy_newer. rewrite !build_sequence. lia.
  - by eapply Hread; [done|exact Et|exact Hpn|exact Hfn|reflexivity|done|right].
  - eapply Hread; [done|exact Hpn|exact Hpn|exact Hfn|apply select_copy_same|done|by right].
Qed.

Lemma critical_object_update_atomic_witness :
  ∃ result after payload,
    critical_object_read
      (critical_object_unlock (publish_shadow (Copy [1] [255] 0) sample_object)) 1 64
      (λ _, true) = (result, after, payload) ∧
    critical_read_ok result = true ∧
    (payload = sample_payload ∧ critical_holds after 1 1 sample_payload ∨
     payload = [9] ∧ critical_holds after 1 (1 + 1) [9]).
Proof.
  apply (critical_object_update_atomic sample_object
    (critical_object_update sample_object 1 (Some [9]) (λ _, true)).2
    (critical_object_unlock (publish_shadow (Copy [1] [255] 0) sample_object))
    1 1 sample_payload [9] (λ _, true) 64).
  - apply sample_holds.
  - lia.
  - reflexivity.
  - reflexivity.
  - simpl; lia.
  - simpl; lia.
  - split; [by apply is_bytes_spec|simpl; lia].
  - vm_compute. reflexivity.
  - vm_compute. reflexivity.
  - apply cut_in_shadow. vm_compute. reflexivity.
Defined.

(** The reader fails closed: two valid copies with the same sequence and
    different payloads are never arbitrated.  The read reports an
    uncorrectable object, delivers nothing and leaves the memory as it is, and
    so does an update. *)
Theorem critical_object_conflict_refused (version sequence sp ss : Z) (p q : list Z)
    (validator : list Z → bool) (capacity : nat) (payload : list Z)
    (Hp : fields version sequence sp p) (Hq : fields version sequence ss q)
    (Hvp : validator p = true) (Hvq : validator q = true) (Hv : version ≠ 0)
    (Hdiff : p ≠ q) :
  let object := Object 0 (copy_build version sequence sp p) (copy_build version sequence ss q) in
  critical_object_read object version capacity validator =
    (CRITICAL_READ_UNCORRECTABLE, object, []) ∧
  critical_object_update object version (Some payload) validator = (-1, object).
Proof.
  intros object.
  assert (Hne : copies_equal (primary object) (shadow object) = false).
  { unfold copies_equal, object. cbn [primary shadow].
    rewrite !build_version, !build_sequence, !build_length, !Z.eqb_refl by done.
    cbn [negb orb]. destruct (Z.eqb_spec (Z.of_nat (length p)) (Z.of_nat (length q)))
      as [E|]; [|done]. cbn [negb].
    apply bool_decide_eq_false. rewrite build_payload, E, build_payload by done. done. }
  pose proof (copy_check_clean _ _ _ _ _ Hp Hvp) as Hcp.
  pose proof (copy_check_clean _ _ _ _ _ Hq Hvq) as Hcq.
  assert (Hseq : (copy_word (primary object) WORD_SEQUENCE =?
                  copy_word (shadow object) WORD_SEQUENCE) = true).
  { unfold object. cbn [primary shadow]. rewrite !build_sequence. apply Z.eqb_refl. }
  change (copy_build version sequence sp p) with (primary object) in Hcp.
  change (copy_build version sequence ss q) with (shadow object) in Hcq.
  assert (Hl : critical_object_lock object = Some (Object 1 (primary object) (shadow object)))
    by (by rewrite critical_object_lock_spec).
  assert (Hu : critical_object_unlock (Object 1 (primary object) (shadow object)) = object)
    by done.
  clearbody object. split.
  - unfold critical_object_read. rewrite (proj2 (Z.eqb_neq _ _) Hv), Hl.
    cbn [primary shadow]. rewrite Hcp, Hcq. unfold select_copy.
    cbn [copy_status_ok negb andb]. rewrite Hseq, Hne. cbn [negb andb critical_read_ok].
    cbn [critical_read_code Z.leb Z.compare]. by rewrite Hu.
  - unfold critical_object_update. destruct (_ || _); [done|]. rewrite Hl.
    cbn [primary shadow]. rewrite Hcp, Hcq. unfold next_sequence.
    cbn [copy_status_ok negb andb]. rewrite Hseq, Hne. cbn [negb andb]. by rewrite Hu.
Qed.

Lemma critical_object_conflict_refused_witness :
  let object := Object 0 (copy_build 1 5 0 [1]) (copy_build 1 5 0 [2]) in
  critical_object_read object 1 64 (λ _, true) = (CRITICAL_READ_UNCORRECTABLE, object, []) ∧
  critical_object_update object 1 (Some [3]) (λ _, true) = (-1, object).
Proof.
  apply (critical_object_conflict_refused 1 5 0 0 [1] [2] (λ _, true) 64 [3]).
  1-2: constructor; [ulia|ulia|unfold CRITICAL_INTEGRITY_RECOVERED; lia|
                     by apply is_bytes_spec|simpl; unfold CRITICAL_OBJECT_MAX_PAYLOAD; lia].
  - reflexivity.
  - reflexivity.
  - lia.
  - congruence.
Defined.

(** C32: a critical object refines a register: after initialisation, every
    program of reads and of acceptable writes observes exactly the last value
    written, until the 32-bit sequence is exhausted. *)
Theorem critical_object_refines_register (object object' : critical_object_t)
    (version : Z) (payload : list Z) (capacity : nat) (validator : list Z → bool)
    (ops : list store_op)
    (Hv : is_u32 version) (Hv0 : version ≠ 0)
    (Hinit : critical_object_init object version (Some payload) = (0, object'))
    (Hpayload : acceptable capacity validator payload)
    (Hops : Forall (acceptable_op capacity validator) ops)
    (Hlen : 1 + Z.of_nat (length ops) <= UINT32_MAX) :
  store_run version capacity validator object' ops = register_run payload ops.
Proof.
  destruct (init_holds object version payload Hv Hv0) as (o & Ho & Hh); [apply Hpayload|].
  assert (o = object') as -> by congruence.
  by eapply (store_run_register version capacity validator object' 1).
Qed.

Lemma critical_object_refines_register_witness :
  store_run 1 64 (λ _, true) sample_object [StoreRead; StoreWrite [9]; StoreRead]
    = [Value sample_payload; Written; Value [9]].
Proof.
  assert (acceptable 64 (λ _, true) sample_payload)
    by (split; [split; [by apply is_bytes_spec|simpl; lia]|split; [done|simpl; lia]]).
  apply (critical_object_refines_register (Object 0 (Copy [] [] 0) (Copy [] [] 0)) sample_object
    1 sample_payload 64 (λ _, true) [StoreRead; StoreWrite [9]; StoreRead]).
  - ulia.
  - lia.
  - reflexivity.
  - assumption.
  - repeat apply Forall_cons_2; [exact I| |exact I|constructor].
    split; [split; [by apply is_bytes_spec|simpl; lia]|split; [done|simpl; lia]].
  - simpl. ulia.
Defined.
