(* ===== verification/OwnedStore.v ===== *)
(** Stores whose lock word the owner inspects. *)
From S2P Require Import Prelude ProtectedStore CriticalObject.

(** What the file object guard and the storage request pool use of a store
    besides [ProtectedStore]: the lock word they inspect, and the test for
    untouched memory. *)
Class OwnedStore (O : Type) `{!ProtectedStore O} := {
  os_lock : O → Z;
  os_pristine : O → bool;
  os_holds_unlocked store version sequence payload :
    ps_holds store version sequence payload → os_lock store = 0
}.

Definition zero_copy (copy : CriticalObject.critical_object_copy_t) : bool :=
  forallb (Z.eqb 0) (CriticalObject.c_words copy) && forallb (Z.eqb 0) (CriticalObject.c_ecc copy) && (CriticalObject.c_crc32 copy =? 0).

#[export] Instance critical_object_owned : OwnedStore CriticalObject.critical_object_t := {
  os_lock := CriticalObject.publication_lock;
  os_pristine object :=
    (CriticalObject.publication_lock object =? 0) && zero_copy (CriticalObject.primary object) &&
    zero_copy (CriticalObject.shadow object);
  os_holds_unlocked _ _ _ _ H := proj1 H
}.
