(* ===== verification/SchedulingPolicy.v ===== *)
(** Scheduling policy: src/kernel/sched/scheduling_policy.c and
    src/kernel/sched/scheduling_policy.h.

    [Module SchedulingPolicy] holds the per-class time windows (accounting,
    throttling, the latched clock fault), the transitive inheritance of
    classes along blocked-on edges, the budgeted selection and the cyclic
    selection.  The C arrays with their [count] are lists of that length;
    pointers are references and never NULL.  The self test compiled under
    [REIST_RUNTIME_DEGRADATION_FAULT_INJECTION] is not modelled. *)
From S2P Require Import Prelude.

Module SchedulingPolicy.

Definition SCHEDULER_CLASS_AMBIENT : Z := 0.
Definition SCHEDULER_CLASS_SERVICE : Z := 1.
Definition SCHEDULER_CLASS_SAFETY : Z := 2.
Definition SCHEDULER_CLASS_COUNT : Z := 3.
Definition SCHEDULER_POLICY_MAX_CANDIDATES : nat := 32.
Definition SCHEDULER_WINDOW_MS : Z := 100.
Definition SCHEDULER_WINDOW_FAULT_CLOCK_REGRESSION : Z := 1.

Record scheduler_candidate_t := Candidate {
  runnable : bool;
  scheduling_class : Z;
  budget_remaining : Z
}.

Record scheduler_window_t := Window {
  window_start_ms : Z;
  last_account_ms : Z;
  used_ms : list Z;
  overload_count : list Z;
  clock_anomaly_count : Z;
  fault_flags : Z;
  throttled_mask : Z;
  initialized : bool
}.

(** Array read at a class or task index. *)
Definition at_index (array : list Z) (index : Z) : Z := nth (Z.to_nat index) array 0.
Definition set_index (array : list Z) (index value : Z) : list Z :=
  <[Z.to_nat index := value]> array.

(** ** Class budgets *)
Definition scheduler_policy_window_limit (class : Z) : Z :=
  if class =? SCHEDULER_CLASS_AMBIENT then 15
  else if class =? SCHEDULER_CLASS_SERVICE then 25
  else if class =? SCHEDULER_CLASS_SAFETY then 60
  else 0.

Definition scheduler_policy_budget (class : Z) : Z :=
  if class =? SCHEDULER_CLASS_AMBIENT then 1
  else if class =? SCHEDULER_CLASS_SERVICE then 1
  else if class =? SCHEDULER_CLASS_SAFETY then 2
  else 0.

(** ** Time windows *)
Definition saturating_add_u32 (value amount : Z) : Z :=
  if (UINT32_MAX <=? amount) || (UINT32_MAX - u32 amount <? value)
  then UINT32_MAX
  else value + u32 amount.

Definition all_classes_mask : Z := Z.shiftl 1 SCHEDULER_CLASS_COUNT - 1.

Definition record_charge (window : scheduler_window_t) (class elapsed_ms : Z)
    : scheduler_window_t :=
  let limit := scheduler_policy_window_limit class in
  if (limit =? 0) || (elapsed_ms =? 0) then window
  else
    let bit := u8 (Z.shiftl 1 class) in
    let used := saturating_add_u32 (at_index (used_ms window) class) elapsed_ms in
    let used_list := set_index (used_ms window) class used in
    if limit <=? used then
      Window (window_start_ms window) (last_account_ms window) used_list
        (if Z.land (throttled_mask window) bit =? 0
         then set_index (overload_count window) class
                (saturating_add_u32 (at_index (overload_count window) class) 1)
         else overload_count window)
        (clock_anomaly_count window) (fault_flags window)
        (Z.lor (throttled_mask window) bit) (initialized window)
    else
      Window (window_start_ms window) (last_account_ms window) used_list
        (overload_count window) (clock_anomaly_count window) (fault_flags window)
        (throttled_mask window) (initialized window).

Definition scheduler_policy_window_init (now_ms : Z) : scheduler_window_t :=
  Window (now_ms - now_ms mod SCHEDULER_WINDOW_MS) now_ms [0; 0; 0] [0; 0; 0] 0 0 0 true.

Definition set_last_account (window : scheduler_window_t) (now_ms : Z)
    : scheduler_window_t :=
  Window (window_start_ms window) now_ms (used_ms window) (overload_count window)
    (clock_anomaly_count window) (fault_flags window) (throttled_mask window)
    (initialized window).

Definition set_overload (window : scheduler_window_t) (overload : list Z)
    : scheduler_window_t :=
  Window (window_start_ms window) (last_account_ms window) (used_ms window) overload
    (clock_anomaly_count window) (fault_flags window) (throttled_mask window)
    (initialized window).

(** The branch of a charge that crosses into another window. *)
Definition window_roll (window : scheduler_window_t) (class now_ms new_start : Z)
    : scheduler_window_t :=
  let old_end :=
    if window_start_ms window <=? UINT64_MAX - SCHEDULER_WINDOW_MS
    then window_start_ms window + SCHEDULER_WINDOW_MS else UINT64_MAX in
  let window :=
    if (last_account_ms window <? old_end) && (class <? SCHEDULER_CLASS_COUNT)
    then record_charge window class (old_end - last_account_ms window)
    else window in
  let skipped_windows :=
    if old_end <? new_start then (new_start - old_end) / SCHEDULER_WINDOW_MS else 0 in
  let window :=
    if (class <? SCHEDULER_CLASS_COUNT) && negb (skipped_windows =? 0)
    then set_overload window
           (set_index (overload_count window) class
             (saturating_add_u32 (at_index (overload_count window) class) skipped_windows))
    else window in
  let window :=
    Window new_start 0 [0; 0; 0] (overload_count window) (clock_anomaly_count window)
      (fault_flags window)
      (if fault_flags window =? 0 then 0 else all_classes_mask) true in
  if class <? SCHEDULER_CLASS_COUNT
  then record_charge window class (now_ms - new_start) else window.

Definition scheduler_policy_window_charge (window : scheduler_window_t)
    (class now_ms : Z) : bool * scheduler_window_t :=
  if negb (initialized window) then (false, scheduler_policy_window_init now_ms)
  else if now_ms <? last_account_ms window then
    (false,
     Window (window_start_ms window) (last_account_ms window) (used_ms window)
       (overload_count window) (saturating_add_u32 (clock_anomaly_count window) 1)
       (Z.lor (fault_flags window) SCHEDULER_WINDOW_FAULT_CLOCK_REGRESSION)
       all_classes_mask (initialized window))
  else
    let new_start := now_ms - now_ms mod SCHEDULER_WINDOW_MS in
    let rolled := negb (new_start =? window_start_ms window) in
    let window :=
      if rolled then window_roll window class now_ms new_start
      else if class <? SCHEDULER_CLASS_COUNT
      then record_charge window class (now_ms - last_account_ms window)
      else window in
    (rolled, set_last_account window now_ms).

Definition scheduler_policy_class_allowed (window : scheduler_window_t) (class : Z)
    : bool :=
  if negb (initialized window) || (SCHEDULER_CLASS_COUNT <=? class) then false
  else if negb (fault_flags window =? 0) then false
  else Z.land (throttled_mask window) (Z.shiftl 1 class) =? 0.

Definition scheduler_policy_background_allowed (window : scheduler_window_t)
    (class : Z) : bool :=
  (class <? SCHEDULER_CLASS_SAFETY) &&
  scheduler_policy_class_allowed window SCHEDULER_CLASS_SAFETY &&
  negb (scheduler_policy_class_allowed window class).

(** ** Class inheritance

    [blocked_owners] gives, per task, the task that holds what it waits for, or
    a value outside [0, count). *)
Definition has_owner (count : nat) (owners : list Z) (waiter : nat) : bool :=
  let owner := nth waiter owners 0 in
  negb ((owner <? 0) || (Z.of_nat count <=? owner) || (owner =? Z.of_nat waiter)).

Definition inherit_start (base_classes : list Z) : list Z :=
  map (λ class, if negb (scheduler_policy_budget class =? 0) then class
                else SCHEDULER_CLASS_AMBIENT) base_classes.

Definition inherit_edge (count : nat) (owners : list Z) (effective : list Z)
    (waiter : nat) : list Z :=
  if has_owner count owners waiter then
    let owner := Z.to_nat (nth waiter owners 0) in
    if nth owner effective 0 <? nth waiter effective 0
    then <[owner := nth waiter effective 0]> effective else effective
  else effective.

Definition inherit_pass (count : nat) (owners effective : list Z) : list Z :=
  foldl (inherit_edge count owners) effective (seq 0 count).

Definition scheduler_policy_inherit (effective_classes base_classes owners : list Z)
    : list Z :=
  let count := length base_classes in
  if (count =? 0)%nat || (SCHEDULER_POLICY_MAX_CANDIDATES <? count)%nat
  then effective_classes
  else
    let effective := inherit_start base_classes in
    if negb (existsb (has_owner count owners) (seq 0 count)) then effective
    else Nat.iter count (inherit_pass count owners) effective.

(** ** Selection by remaining budget *)
Definition candidate_at (candidates : list scheduler_candidate_t) (index : Z)
    : scheduler_candidate_t :=
  nth (Z.to_nat index) candidates (Candidate false 0 0).

Definition highest_runnable_class (candidates : list scheduler_candidate_t) : Z :=
  foldl (λ highest candidate,
    if negb (runnable candidate) || (budget_remaining candidate =? 0) ||
       (scheduler_policy_budget (scheduling_class candidate) =? 0)
    then highest
    else if highest <? scheduling_class candidate then scheduling_class candidate
    else highest) (-1) candidates.

Definition replenish (candidates : list scheduler_candidate_t)
    : list scheduler_candidate_t :=
  map (λ candidate, Candidate (runnable candidate) (scheduling_class candidate)
         (scheduler_policy_budget (scheduling_class candidate))) candidates.

(** Index examined at a step of a round-robin search after position [after]. *)
Definition rotation (count after step : Z) : Z :=
  if after <? 0 then step - 1 else (after + step) mod count.

Fixpoint rotate_find (steps : nat) (step : Z) (count after : Z) (accept : Z → bool)
    : option Z :=
  match steps with
  | O => None
  | S steps =>
      let index := rotation count after step in
      if accept index then Some index
      else rotate_find steps (step + 1) count after accept
  end.

Definition spend (candidates : list scheduler_candidate_t) (index : Z)
    : list scheduler_candidate_t :=
  let candidate := candidate_at candidates index in
  <[Z.to_nat index :=
      Candidate (runnable candidate) (scheduling_class candidate)
        (budget_remaining candidate - 1)]> candidates.

Definition scheduler_policy_select (candidates : list scheduler_candidate_t)
    (after : Z) : Z * list scheduler_candidate_t :=
  let count := Z.of_nat (length candidates) in
  if (count =? 0) || (Z.of_nat SCHEDULER_POLICY_MAX_CANDIDATES <? count) ||
     (after <? -1) || (count <=? after)
  then (-1, candidates)
  else
    let candidates :=
      if highest_runnable_class candidates <? 0 then replenish candidates
      else candidates in
    let highest := highest_runnable_class candidates in
    if highest <? 0 then (-1, candidates)
    else
      match rotate_find (length candidates) 1 count after
              (λ index, let candidate := candidate_at candidates index in
                 runnable candidate && negb (budget_remaining candidate =? 0) &&
                 (scheduling_class candidate =? highest)) with
      | Some index => (index, spend candidates index)
      | None => (-1, candidates)
      end.

(** ** Cyclic selection *)
Definition cycle : list Z :=
  [SCHEDULER_CLASS_SAFETY; SCHEDULER_CLASS_SAFETY; SCHEDULER_CLASS_SERVICE;
   SCHEDULER_CLASS_AMBIENT].

Fixpoint cycle_steps (steps : nat) (class_step : Z)
    (candidates : list scheduler_candidate_t) (cursors : list Z) (cycle_cursor : Z)
    : Z * list Z * Z :=
  match steps with
  | O => (-1, cursors, cycle_cursor)
  | S steps =>
      let count := Z.of_nat (length candidates) in
      let position := (cycle_cursor + class_step) mod 4 in
      let class := at_index cycle position in
      let after := at_index cursors class in
      let after := if (after <? -1) || (count <=? after) then -1 else after in
      match rotate_find (length candidates) 1 count after
              (λ index, let candidate := candidate_at candidates index in
                 runnable candidate && (scheduling_class candidate =? class)) with
      | Some index => (index, set_index cursors class index, (position + 1) mod 4)
      | None => cycle_steps steps (class_step + 1) candidates cursors cycle_cursor
      end
  end.

Definition scheduler_policy_select_cycle (candidates : list scheduler_candidate_t)
    (class_cursors : list Z) (cycle_cursor : Z) : Z * list Z * Z :=
  let count := Z.of_nat (length candidates) in
  if (count =? 0) || (Z.of_nat SCHEDULER_POLICY_MAX_CANDIDATES <? count)
  then (-1, class_cursors, cycle_cursor)
  else
    let cycle_cursor := if 4 <=? cycle_cursor then 0 else cycle_cursor in
    cycle_steps 4 0 candidates class_cursors cycle_cursor.

End SchedulingPolicy.

Import SchedulingPolicy.

(** * The rotating search *)
Section rotation.
Context (count after : Z) (Hcount : 0 < count) (Hafter : -1 <= after < count).

Lemma rotation_range step : 1 <= step <= count → 0 <= rotation count after step < count.
Proof.
intros Hs. unfold rotation. destruct (Z.ltb_spec after 0); [lia|].
apply Z.mod_pos_bound. lia.
Qed.

(** How many positions lie between the cursor and [target]. *)
Definition distance (target : Z) : Z :=
if after <? 0 then target else (target - after - 1) mod count.

Lemma distance_range target : 0 <= target < count → 0 <= distance target < count.
Proof.
intros. unfold distance. destruct (after <? 0); [lia|].
apply Z.mod_pos_bound. lia.
Qed.

Lemma rotation_distance target :
0 <= target < count → rotation count after (distance target + 1) = target.
Proof.
intros Ht. unfold rotation, distance. destruct (after <? 0); [lia|].
replace (after + ((target - after - 1) mod count + 1)) with
((after + 1) + (target - after - 1) mod count) by lia.
rewrite Zplus_mod_idemp_r. replace (after + 1 + (target - after - 1)) with target by lia.
by apply Z.mod_small.
Qed.

(** Moving the cursor to a position passed on the way shortens the way. *)
Lemma distance_advance target step :
0 <= target < count → 1 <= step <= distance target →
let index := rotation count after step in
0 <= index < count ∧
(if index <? 0 then target else (target - index - 1) mod count) = distance target - step.
Proof.
intros Ht Hs index. pose proof (distance_range target Ht) as Hd.
assert (0 <= index < count) by (apply rotation_range; lia).
split; [done|]. rewrite (proj2 (Z.ltb_ge index 0)) by lia.
subst index. unfold rotation, distance in *. destruct (after <? 0).
- rewrite Z.mod_small; lia.
- replace (target - (after + step) mod count - 1) with
  ((target - 1) - (after + step) mod count) by lia.
rewrite Zminus_mod_idemp_r.
replace (target - 1 - (after + step)) with ((target - after - 1) - step) by lia.
rewrite <- Zminus_mod_idemp_l. apply Z.mod_small. lia.
Qed.
End rotation.

Lemma rotate_find_some steps step count after accept index :
  rotate_find steps step count after accept = Some index →
  accept index = true ∧
  ∃ s, step <= s < step + Z.of_nat steps ∧ index = rotation count after s ∧
    ∀ s', step <= s' < s → accept (rotation count after s') = false.
Proof.
  revert step. induction steps as [|steps IH]; intros step; simpl; [done|].
  destruct (accept (rotation count after step)) eqn:E.
  - intros [= <-]. split; [done|]. exists step. split; [lia|]. split; [done|]. lia.
  - intros H. apply IH in H as (Ha & s & Hs & Hi & Hbefore).
    split; [done|]. exists s. split; [lia|]. split; [done|].
    intros s' Hs'. destruct (decide (s' = step)) as [->|]; [done|]. apply Hbefore. lia.
Qed.

Lemma rotate_find_none steps step count after accept :
  rotate_find steps step count after accept = None →
  ∀ s, step <= s < step + Z.of_nat steps → accept (rotation count after s) = false.
Proof.
  revert step. induction steps as [|steps IH]; intros step; simpl; [lia|].
  destruct (accept (rotation count after step)) eqn:E; [done|].
  intros H s Hs. destruct (decide (s = step)) as [->|]; [done|]. apply (IH _ H). lia.
Qed.

(** A search over all positions misses no candidate. *)
Lemma rotate_find_complete (count : nat) after accept target :
  -1 <= after < Z.of_nat count → 0 <= target < Z.of_nat count →
  accept target = true →
  ∃ index, rotate_find count 1 (Z.of_nat count) after accept = Some index.
Proof.
  intros Ha Ht Hacc. destruct (rotate_find _ _ _ _ _) eqn:E; [eauto|].
  pose proof (distance_range (Z.of_nat count) after ltac:(lia) target Ht).
  pose proof (rotate_find_none _ _ _ _ _ E
    (distance (Z.of_nat count) after target + 1) ltac:(lia)) as Hn.
  rewrite rotation_distance in Hn by lia. congruence.
Qed.

Lemma rotate_find_range (count : nat) after accept index :
  (0 < count)%nat → -1 <= after < Z.of_nat count →
  rotate_find count 1 (Z.of_nat count) after accept = Some index →
  0 <= index < Z.of_nat count ∧ accept index = true.
Proof.
  intros Hc Ha H. apply rotate_find_some in H as (Hacc & s & Hs & -> & _).
  split; [|done]. apply rotation_range; lia.
Qed.

(** The way to a position, measured in a table of [limit] entries. *)
Lemma distance_cases limit after target :
  -1 <= after < limit → 0 <= target < limit →
  distance limit after target =
    (if after <? target then target - after - 1 else limit + target - after - 1) ∧
  0 <= distance limit after target < limit.
Proof.
  intros Ha Ht. unfold distance.
  destruct (Z.ltb_spec after 0), (Z.ltb_spec after target); try lia.
  - rewrite Z.mod_small; lia.
  - replace (target - after - 1) with (limit + target - after - 1 + (-1) * limit) by lia.
    rewrite Z_mod_plus_full, Z.mod_small; lia.
Qed.

(** The found position is the target or lies on the way to it, also when the
    way is measured in a larger table. *)
Lemma rotate_find_progress (limit : Z) (count : nat) after accept index target :
  Z.of_nat count <= limit → -1 <= after < Z.of_nat count → 0 <= target < Z.of_nat count →
  accept target = true →
  rotate_find count 1 (Z.of_nat count) after accept = Some index →
  index = target ∨ distance limit index target < distance limit after target.
Proof.
  intros Hlimit Ha Ht Hacc H. set (n := Z.of_nat count) in *.
  apply rotate_find_some in H as (_ & s & Hs & -> & Hbefore).
  destruct (distance_cases n after target) as [En Hn]; [lia..|].
  assert (Hfirst : s <= distance n after target + 1).
  { destruct (decide (s <= distance n after target + 1)) as [|Hgt]; [done|].
    specialize (Hbefore (distance n after target + 1) ltac:(lia)).
    rewrite rotation_distance in Hbefore by lia. congruence. }
  pose proof (rotation_range n after ltac:(lia) s ltac:(lia)) as Hr.
  destruct (distance_cases limit after target) as [El _]; [lia..|].
  destruct (distance_cases limit (rotation n after s) target) as [Ei _]; [lia..|].
  assert (Er : rotation n after s = after + s ∨ rotation n after s = after + s - n).
  { unfold rotation. destruct (Z.ltb_spec after 0); [left; lia|].
    destruct (decide (after + s < n)) as [|Hge]; [left; apply Z.mod_small; lia|right].
    replace (after + s) with (after + s - n + 1 * n) at 1 by lia.
    rewrite Z_mod_plus_full. apply Z.mod_small. lia. }
  rewrite El, Ei. rewrite En in Hfirst.
  destruct (Z.ltb_spec after target), (Z.ltb_spec (rotation n after s) target); lia.
Qed.

(** * Cyclic selection is fair *)
Definition cursor_of (count : Z) (cursors : list Z) (class : Z) : Z :=
  let after := at_index cursors class in
  if (after <? -1) || (count <=? after) then -1 else after.

Lemma cursor_of_range count cursors class :
  0 < count → -1 <= cursor_of count cursors class < count.
Proof.
  intros. unfold cursor_of.
  destruct (Z.ltb_spec (at_index cursors class) (-1)), (Z.leb_spec count (at_index cursors class));
    simpl; lia.
Qed.

Definition accepts (candidates : list scheduler_candidate_t) (class index : Z) : bool :=
  let candidate := candidate_at candidates index in
  runnable candidate && (scheduling_class candidate =? class).

Definition class_search (candidates : list scheduler_candidate_t) (cursors : list Z)
    (class : Z) : option Z :=
  let count := Z.of_nat (length candidates) in
  rotate_find (length candidates) 1 count (cursor_of count cursors class)
    (accepts candidates class).

Definition class_at (cycle_cursor step : Z) : Z :=
  at_index cycle ((cycle_cursor + step) mod 4).

Lemma cycle_steps_spec steps k candidates cursors cyc :
  match cycle_steps steps k candidates cursors cyc with
  | (index, cursors', cyc') =>
      (index = -1 ∧ cursors' = cursors ∧ cyc' = cyc ∧
       ∀ s, k <= s < k + Z.of_nat steps →
         class_search candidates cursors (class_at cyc s) = None) ∨
      ∃ s, k <= s < k + Z.of_nat steps ∧
        class_search candidates cursors (class_at cyc s) = Some index ∧
        cursors' = set_index cursors (class_at cyc s) index ∧
        cyc' = ((cyc + s) mod 4 + 1) mod 4 ∧
        ∀ s', k <= s' < s → class_search candidates cursors (class_at cyc s') = None
  end.
Proof.
  revert k. induction steps as [|steps IH]; intros k; cbn [cycle_steps].
  - left. repeat split; intros; lia.
  - fold (class_at cyc k).
    fold (cursor_of (Z.of_nat (length candidates)) cursors (class_at cyc k)).
    change (rotate_find _ _ _ _ _) with (class_search candidates cursors (class_at cyc k)).
    destruct (class_search candidates cursors (class_at cyc k)) as [index|] eqn:E.
    + right. exists k. repeat split; try done; intros; lia.
    + specialize (IH (k + 1)). destruct (cycle_steps _ _ _ _ _) as [[index cursors'] cyc'].
      destruct IH as [(? & ? & ? & Hn)|(s & Hs & ? & ? & ? & Hb)]; [left|right].
      * repeat split; try done. intros s Hs. destruct (decide (s = k)) as [->|]; [done|].
        apply Hn. lia.
      * exists s. repeat split; try done; try lia. intros s' Hs'.
        destruct (decide (s' = k)) as [->|]; [done|]. apply Hb. lia.
Qed.

(** Steps until the cycle offers [class] again. *)
Definition cycle_distance (cycle_cursor class : Z) : Z :=
  if class_at cycle_cursor 0 =? class then 0
  else if class_at cycle_cursor 1 =? class then 1
  else if class_at cycle_cursor 2 =? class then 2
  else 3.

(** A finite check over the four cursor positions and the three classes. *)
Definition cycle_distance_ok (cyc class : Z) : bool :=
  let e := cycle_distance cyc class in
  (class_at cyc e =? class) && (e <? 4) && (0 <=? e) &&
  forall_below 4 (λ s,
    (e <=? s) ||
    (negb (class_at cyc s =? class) &&
     (cycle_distance (((cyc + s) mod 4 + 1) mod 4) class =? e - s - 1))).

Lemma cycle_distance_spec cyc class :
  0 <= cyc < 4 → 0 <= class < 3 →
  let e := cycle_distance cyc class in
  class_at cyc e = class ∧ 0 <= e < 4 ∧
  ∀ s, 0 <= s < e → class_at cyc s ≠ class ∧
    cycle_distance (((cyc + s) mod 4 + 1) mod 4) class = e - s - 1.
Proof.
  intros Hcyc Hclass e.
  assert (cycle_distance_ok cyc class = true) as H.
  { refine (forall_below_spec 3 (cycle_distance_ok cyc) class _ Hclass).
    refine (forall_below_spec 4 (λ cyc, forall_below 3 (cycle_distance_ok cyc)) cyc _ Hcyc).
    vm_compute. reflexivity. }
  unfold cycle_distance_ok in H. fold e in H.
  rewrite !andb_true_iff in H. destruct H as [[[H1 H2] H3] H4].
  split; [lia|]. split; [lia|]. intros s Hs.
  pose proof (forall_below_spec 4 _ s H4 ltac:(lia)) as Hb. cbn beta in Hb. lia.
Qed.

Lemma set_index_same array i v :
  0 <= i < Z.of_nat (length array) → at_index (set_index array i v) i = v.
Proof.
  intros. unfold at_index, set_index. apply nth_lookup_Some.
  apply list_lookup_insert_eq. lia.
Qed.

Lemma set_index_other array i j v :
  0 <= i → 0 <= j → i ≠ j → at_index (set_index array i v) j = at_index array j.
Proof.
  intros. unfold at_index, set_index. rewrite !nth_lookup.
  rewrite list_lookup_insert_ne by lia. done.
Qed.

Lemma length_set_index array i v : length (set_index array i v) = length array.
Proof. apply length_insert. Qed.

Lemma cycle_nonneg i : 0 <= at_index cycle i.
Proof.
  unfold at_index. generalize (Z.to_nat i). intros n.
  do 4 (destruct n as [|n]; [done|]). by destruct n.
Qed.

(** Consecutive calls: every call gets the candidate table its caller has just
    built, the cursors are threaded. *)
Fixpoint cycle_run (tables : list (list scheduler_candidate_t))
    (cursors : list Z) (cycle_cursor : Z) : list Z :=
  match tables with
  | [] => []
  | candidates :: tables =>
      let '(index, cursors, cycle_cursor) :=
        scheduler_policy_select_cycle candidates cursors cycle_cursor in
      index :: cycle_run tables cursors cycle_cursor
  end.

(** A table of at most [limit] entries that offers [target] in [class]; nothing
    is said of the other entries. *)
Definition offers (limit : nat) (target class : Z)
    (candidates : list scheduler_candidate_t) : Prop :=
  0 <= target < Z.of_nat (length candidates) ∧ (length candidates <= limit)%nat ∧
  runnable (candidate_at candidates target) = true ∧
  scheduling_class (candidate_at candidates target) = class.

Section fairness.
Context (limit : nat) (target class : Z).
Context (Hlimit : (limit <= 32)%nat) (Hclass : 0 <= class < 3).
Let top := Z.of_nat limit.

Definition waiting_time (cursors : list Z) (cycle_cursor : Z) : Z :=
  4 * distance top (cursor_of top cursors class) target +
  cycle_distance cycle_cursor class.

Lemma offers_accepted candidates :
  offers limit target class candidates → accepts candidates class target = true.
Proof.
  intros (_ & _ & Hrun & Hc). unfold accepts. rewrite Hrun. by apply Z.eqb_eq.
Qed.

(** A cursor that a shorter table resets is not farther from the target. *)
Lemma cursor_of_towards count cursors :
  0 <= target < count → count <= top →
  distance top (cursor_of count cursors class) target <=
  distance top (cursor_of top cursors class) target.
Proof using Type.
  clear Hlimit Hclass. intros Ht Hle.
  destruct (distance_cases top (cursor_of count cursors class) target) as [-> _];
    [pose proof (cursor_of_range count cursors class); lia|lia|].
  destruct (distance_cases top (cursor_of top cursors class) target) as [-> _];
    [apply cursor_of_range; lia|lia|].
  unfold cursor_of. set (after := at_index cursors class).
  destruct (Z.ltb_spec after (-1)), (Z.leb_spec count after), (Z.leb_spec top after);
    cbn [orb]; repeat case_match; lia.
Qed.

Lemma cycle_steps_progress candidates cursors cyc :
  offers limit target class candidates →
  length cursors = 3%nat → 0 <= cyc < 4 →
  match cycle_steps 4 0 candidates cursors cyc with
  | (index, cursors', cyc') =>
      length cursors' = 3%nat ∧ 0 <= cyc' < 4 ∧
      (index = target ∨ waiting_time cursors' cyc' < waiting_time cursors cyc)
  end.
Proof.
  intros Hoffer Hlen Hcyc. pose proof (offers_accepted _ Hoffer) as Hacc.
  destruct Hoffer as (Htarget & Hshort & _ & _).
  set (count := Z.of_nat (length candidates)) in *.
  pose proof (cycle_steps_spec 4 0 candidates cursors cyc) as H.
  destruct (cycle_steps 4 0 candidates cursors cyc) as [[index cursors'] cyc'].
  destruct (cycle_distance_spec cyc class Hcyc Hclass) as (He & Her & Hbefore).
  set (e := cycle_distance cyc class) in *.
  pose proof (cursor_of_range count cursors class ltac:(lia)) as Hcur.
  destruct (rotate_find_complete (length candidates) (cursor_of count cursors class)
    (accepts candidates class) target) as [found Hfound]; [done|done|done|].
  change (class_search candidates cursors class = Some found) in Hfound.
  destruct H as [(_ & _ & _ & Hn)|(s & Hs & Hi & -> & -> & Hb)].
  { specialize (Hn e ltac:(lia)). rewrite He in Hn. congruence. }
  split; [by rewrite length_set_index|].
  split; [apply Z.mod_pos_bound; lia|].
  destruct (decide (e < s)) as [|Hle].
  { specialize (Hb e ltac:(lia)). rewrite He in Hb. congruence. }
  unfold waiting_time. destruct (decide (s = e)) as [->|Hne].
  - rewrite He in Hi |- *.
    destruct (rotate_find_progress top (length candidates) _ _ index target ltac:(lia)
      Hcur Htarget Hacc Hi) as [->|Hd]; [by left|right].
    destruct (rotate_find_range (length candidates) _ _ index ltac:(lia) Hcur Hi) as [Hr _].
    replace (cursor_of top (set_index cursors class index) class) with index.
    2:{ unfold cursor_of. rewrite set_index_same by lia.
        rewrite (proj2 (Z.ltb_ge _ _)), (proj2 (Z.leb_gt _ _)) by lia. done. }
    pose proof (cursor_of_towards count cursors ltac:(lia) ltac:(lia)).
    destruct (cycle_distance_spec (((cyc + e) mod 4 + 1) mod 4) class) as (_ & ? & _);
      [apply Z.mod_pos_bound; lia|done|]. fold count in Hd. lia.
  - right. destruct (Hbefore s ltac:(lia)) as [Hc ->].
    replace (cursor_of top (set_index cursors (class_at cyc s) index) class)
      with (cursor_of top cursors class); [lia|].
    unfold cursor_of. rewrite set_index_other; [done| |lia|done].
    apply cycle_nonneg.
Qed.

Lemma waiting_time_bound cursors cyc :
  0 <= target < top → 0 <= cyc < 4 → 0 <= waiting_time cursors cyc < 4 * top.
Proof.
  intros Ht Hcyc. unfold waiting_time.
  destruct (distance_cases top (cursor_of top cursors class) target) as [_ ?];
    [apply cursor_of_range; lia|done|].
  destruct (cycle_distance_spec cyc class Hcyc Hclass) as (_ & ? & _). lia.
Qed.

Lemma select_cycle_steps candidates cursors cyc :
  offers limit target class candidates →
  scheduler_policy_select_cycle candidates cursors cyc =
    cycle_steps 4 0 candidates cursors (if 4 <=? cyc then 0 else cyc).
Proof.
  intros (? & ? & _). unfold scheduler_policy_select_cycle.
  rewrite (proj2 (Z.eqb_neq _ _)), (proj2 (Z.ltb_ge (Z.of_nat _) _)) by
    (unfold SCHEDULER_POLICY_MAX_CANDIDATES; lia). done.
Qed.

Lemma cycle_run_reaches tables cursors cyc :
  0 <= target < top → Forall (offers limit target class) tables →
  length cursors = 3%nat → 0 <= cyc →
  waiting_time cursors (if 4 <=? cyc then 0 else cyc) < Z.of_nat (length tables) →
  In target (cycle_run tables cursors cyc).
Proof.
  intros Ht Hall. revert cursors cyc.
  induction Hall as [|candidates tables Hoffer _ IH]; intros cursors cyc Hlen Hcyc Hw.
  - pose proof (waiting_time_bound cursors (if 4 <=? cyc then 0 else cyc) Ht) as Hb.
    cbn [length] in Hw. destruct (Z.leb_spec 4 cyc); lia.
  - cbn [cycle_run]. rewrite (select_cycle_steps _ _ _ Hoffer).
    set (start := if 4 <=? cyc then 0 else cyc) in *.
    assert (Hs : 0 <= start < 4) by (unfold start; destruct (Z.leb_spec 4 cyc); lia).
    pose proof (cycle_steps_progress candidates cursors start Hoffer Hlen Hs) as H.
    destruct (cycle_steps 4 0 candidates cursors start) as [[index cursors'] cyc'].
    destruct H as (Hl & Hc & [->|Hlt]); [by left|right].
    apply IH; [done|lia|]. rewrite (proj2 (Z.leb_gt 4 cyc')) by lia. cbn [length] in Hw. lia.
Qed.
End fairness.

(** * Budgeted selection *)
Definition eligible (candidate : scheduler_candidate_t) : bool :=
  runnable candidate && negb (budget_remaining candidate =? 0) &&
  negb (scheduler_policy_budget (scheduling_class candidate) =? 0).

Lemma budget_class class : scheduler_policy_budget class ≠ 0 → 0 <= class < 3.
Proof.
  unfold scheduler_policy_budget, SCHEDULER_CLASS_AMBIENT, SCHEDULER_CLASS_SERVICE,
    SCHEDULER_CLASS_SAFETY.
  destruct (Z.eqb_spec class 0), (Z.eqb_spec class 1), (Z.eqb_spec class 2); lia.
Qed.

Lemma eligible_spec c :
  eligible c = true ↔
  runnable c = true ∧ budget_remaining c ≠ 0 ∧
  scheduler_policy_budget (scheduling_class c) ≠ 0.
Proof.
  unfold eligible. rewrite !andb_true_iff, !negb_true_iff, !Z.eqb_neq. tauto.
Qed.

Lemma eligible_class c : eligible c = true → 0 <= scheduling_class c < 3.
Proof. rewrite eligible_spec. intros (_ & _ & ?). by apply budget_class. Qed.

Definition raise_highest (highest : Z) (candidate : scheduler_candidate_t) : Z :=
  if eligible candidate then Z.max highest (scheduling_class candidate) else highest.

Lemma highest_runnable_fold candidates :
  highest_runnable_class candidates = foldl raise_highest (-1) candidates.
Proof.
  unfold highest_runnable_class. generalize (-1).
  induction candidates as [|c l IH]; intros h; [done|]. cbn [foldl]. rewrite <- IH. f_equal.
  unfold raise_highest, eligible.
  destruct (runnable c), (budget_remaining c =? 0),
    (scheduler_policy_budget (scheduling_class c) =? 0); simpl; try done.
  destruct (Z.ltb_spec h (scheduling_class c)); lia.
Qed.

(** [highest_runnable_class] is the maximum over the eligible candidates. *)
Lemma highest_runnable_spec candidates :
  let highest := highest_runnable_class candidates in
  (highest = -1 ∧ ∀ c, In c candidates → eligible c = false) ∨
  (0 <= highest < 3 ∧
   (∃ c, In c candidates ∧ eligible c = true ∧ scheduling_class c = highest) ∧
   ∀ c, In c candidates → eligible c = true → scheduling_class c <= highest).
Proof.
  intros highest. subst highest. rewrite highest_runnable_fold.
  induction candidates as [|c l IH] using rev_ind.
  - left. split; [done|]. simpl. tauto.
  - rewrite foldl_app. cbn [foldl]. set (h := foldl raise_highest (-1) l) in *.
    clearbody h. unfold raise_highest.
    assert (Hin : ∀ c', In c' (l ++ [c]) ↔ In c' l ∨ c' = c)
      by (intros; rewrite in_app_iff; simpl; intuition congruence).
    destruct (eligible c) eqn:Ec.
    + assert (0 <= scheduling_class c < 3).
      { by apply eligible_class. }
      right. destruct IH as [[-> Hnone]|(Hr & (m & Hm & Em & <-) & Hmax)].
      * split; [lia|]. split.
        -- exists c. rewrite Hin. split; [by right|]. split; [done|]. lia.
        -- intros c' [Hc'| ->]%Hin E; [|lia]. rewrite Hnone in E by done. done.
      * split; [lia|]. split.
        -- destruct (Z.max_spec (scheduling_class m) (scheduling_class c)) as [[? ->]|[? ->]];
             [exists c|exists m]; rewrite Hin; auto.
        -- intros c' [Hc'| ->]%Hin E; [|lia]. specialize (Hmax c' Hc' E). lia.
    + destruct IH as [[-> Hnone]|(Hr & (m & Hm & Em & <-) & Hmax)]; [left|right].
      * split; [done|]. intros c' [Hc'| ->]%Hin; auto.
      * split; [done|]. split; [exists m; rewrite Hin; auto|].
        intros c' [Hc'| ->]%Hin E; [auto|congruence].
Qed.

Lemma candidate_at_in candidates index :
  0 <= index < Z.of_nat (length candidates) →
  In (candidate_at candidates index) candidates.
Proof. intros. apply nth_In. lia. Qed.

Lemma in_candidate_at candidates c :
  In c candidates → ∃ index, 0 <= index < Z.of_nat (length candidates) ∧
    candidate_at candidates index = c.
Proof.
  intros (n & Hn & <-)%(In_nth _ _ (Candidate false 0 0)).
  exists (Z.of_nat n). unfold candidate_at. rewrite Nat2Z.id. split; [lia|done].
Qed.

(** What one round sees: the candidates, replenished when nothing eligible is
    left among them. *)
Definition round_candidates (candidates : list scheduler_candidate_t)
    : list scheduler_candidate_t :=
  if highest_runnable_class candidates <? 0 then replenish candidates else candidates.

Lemma round_eligible candidates c :
  In c candidates → runnable c = true → 0 <= scheduling_class c < 3 →
  ∃ c', In c' (round_candidates candidates) ∧ eligible c' = true.
Proof.
  intros Hin Hrun Hc. unfold round_candidates.
  destruct (highest_runnable_spec candidates) as [[-> _]|(Hr & (m & Hm & Em & _) & _)].
  - exists (Candidate true (scheduling_class c) (scheduler_policy_budget (scheduling_class c))).
    split.
    + cbn [Z.ltb Z.compare]. unfold replenish. apply in_map_iff. exists c.
      by rewrite Hrun.
    + unfold eligible. cbn [runnable budget_remaining scheduling_class].
      assert (scheduling_class c = 0 ∨ scheduling_class c = 1 ∨ scheduling_class c = 2)
        as [->|[->| ->]] by lia; done.
  - rewrite (proj2 (Z.ltb_ge _ _)) by lia. eauto.
Qed.

Lemma length_round candidates : length (round_candidates candidates) = length candidates.
Proof. unfold round_candidates, replenish. case_match; [apply length_map|done]. Qed.

Lemma select_spec candidates after :
  (0 < length candidates <= 32)%nat → -1 <= after < Z.of_nat (length candidates) →
  let round := round_candidates candidates in
  match scheduler_policy_select candidates after with
  | (index, candidates') =>
      (index = -1 ∧ candidates' = round ∧ ∀ c, In c round → eligible c = false) ∨
      (0 <= index < Z.of_nat (length candidates) ∧
       eligible (candidate_at round index) = true ∧
       (∀ c, In c round → eligible c = true →
          scheduling_class c <= scheduling_class (candidate_at round index)) ∧
       candidates' = spend round index)
  end.
Proof.
  intros Hlen Hafter round. unfold scheduler_policy_select.
  rewrite (proj2 (Z.eqb_neq _ _)), (proj2 (Z.ltb_ge (Z.of_nat 32) _)),
    (proj2 (Z.ltb_ge _ (-1))), (proj2 (Z.leb_gt _ after)) by
    (unfold SCHEDULER_POLICY_MAX_CANDIDATES; lia). cbn [orb].
  fold (round_candidates candidates). fold round.
  assert (Hlr : length round = length candidates) by apply length_round.
  destruct (highest_runnable_spec round) as [[-> Hnone]|(Hr & (m & Hm & Em & Hmc) & Hmax)].
  { left. by cbn. }
  set (highest := highest_runnable_class round) in *.
  rewrite (proj2 (Z.ltb_ge _ _)) by lia.
  set (accept := λ index, _). rewrite <- Hlr in *.
  assert (Hacc : ∀ i, accept i = true ↔
      eligible (candidate_at round i) = true ∧ scheduling_class (candidate_at round i) = highest).
  { intros i. unfold accept, eligible. cbv zeta.
    destruct (Z.eqb_spec (scheduling_class (candidate_at round i)) highest) as [->|].
    - assert (scheduler_policy_budget highest ≠ 0).
      { rewrite <- Hmc. by apply eligible_spec in Em as (_ & _ & ?). }
      rewrite (proj2 (Z.eqb_neq (scheduler_policy_budget highest) 0)) by done.
      cbn [negb]. rewrite !andb_true_r. tauto.
    - rewrite andb_false_r. intuition congruence. }
  apply in_candidate_at in Hm as (im & Him & Hmat).
  destruct (rotate_find_complete (length round) after accept im) as [index Hfind];
    [done|done|apply Hacc; rewrite Hmat; done|].
  rewrite Hfind. right.
  destruct (rotate_find_range (length round) after accept index) as [Hi [Ei Ci]%Hacc];
    [lia|done|done|].
  split; [done|]. split; [done|]. split; [|done]. rewrite Ci. apply Hmax.
Qed.

(** * Class inheritance *)
Section inherit.
Context (count : nat) (owners : list Z).
Local Abbreviation value effective i := (nth i effective 0).

Definition owner_of (waiter : nat) : nat := Z.to_nat (nth waiter owners 0).

Definition blocked_on (waiter owner : nat) : Prop :=
(waiter < count)%nat ∧ has_owner count owners waiter = true ∧ owner = owner_of waiter.

(** [waiter] waits, directly or through others, for [owner], or is [owner]. *)
Inductive waits_for : nat → nat → Prop :=
| waits_self task : waits_for task task
| waits_step waiter owner task :
  blocked_on waiter owner → waits_for owner task → waits_for waiter task.

Lemma has_owner_range waiter :
has_owner count owners waiter = true → (owner_of waiter < count)%nat ∧ owner_of waiter ≠ waiter.
Proof.
unfold has_owner, owner_of. rewrite negb_true_iff, !orb_false_iff, Z.ltb_ge, Z.leb_gt, Z.eqb_neq.
lia.
Qed.

Lemma nth_insert (l : list Z) i j v :
(i < length l)%nat → nth j (<[i := v]> l) 0 = if decide (i = j) then v else nth j l 0.
Proof.
intros Hi. rewrite !nth_lookup. case_decide as E.
- subst. by rewrite list_lookup_insert_eq.
- by rewrite list_lookup_insert_ne.
Qed.

Lemma inherit_edge_value effective waiter i :
length effective = count →
value (inherit_edge count owners effective waiter) i =
  if has_owner count owners waiter && bool_decide (i = owner_of waiter)
  then Z.max (value effective i) (value effective waiter) else value effective i.
Proof.
intros Hlen. unfold inherit_edge. fold (owner_of waiter).
destruct (has_owner count owners waiter) eqn:E; [|done]. cbn [andb].
apply has_owner_range in E as [Hr _].
destruct (Z.ltb_spec (value effective (owner_of waiter)) (value effective waiter)).
- rewrite nth_insert by lia. case_decide; case_bool_decide; subst; try congruence; lia.
- case_bool_decide; subst; lia.
Qed.

Lemma length_inherit_edge effective waiter :
length (inherit_edge count owners effective waiter) = length effective.
Proof. unfold inherit_edge. by repeat case_match; rewrite ?length_insert. Qed.

Lemma length_inherit_fold waiters effective :
length (foldl (inherit_edge count owners) effective waiters) = length effective.
Proof.
revert effective. induction waiters as [|w ws IH]; intros; simpl; [done|].
by rewrite IH, length_inherit_edge.
Qed.

Lemma inherit_fold_mono waiters effective i :
length effective = count →
value effective i <= value (foldl (inherit_edge count owners) effective waiters) i.
Proof.
revert effective. induction waiters as [|w ws IH]; intros e Hlen; simpl; [lia|].
etrans; [|apply IH; by rewrite length_inherit_edge].
rewrite inherit_edge_value by done. case_match; lia.
Qed.

Lemma inherit_fold_edge waiters effective waiter :
length effective = count → In waiter waiters → has_owner count owners waiter = true →
value effective waiter <=
  value (foldl (inherit_edge count owners) effective waiters) (owner_of waiter).
Proof.
intros Hlen Hin Ho. revert effective Hlen.
induction waiters as [|w ws IH]; intros e Hlen; [done|]. simpl.
destruct Hin as [->|Hin].
- etrans; [|apply inherit_fold_mono; by rewrite length_inherit_edge].
  rewrite inherit_edge_value, Ho, bool_decide_eq_true_2 by done. simpl. lia.
- etrans; [|apply (IH Hin); by rewrite length_inherit_edge].
  rewrite inherit_edge_value by done. case_match; lia.
Qed.

(** Every value a fold produces was the start value of some waiting task. *)
Definition inherited (start effective : list Z) : Prop :=
∀ i, (i < count)%nat →
  ∃ w, (w < count)%nat ∧ waits_for w i ∧ value effective i = value start w.

Lemma waits_for_snoc waiter task owner :
waits_for waiter task → blocked_on task owner → waits_for waiter owner.
Proof. induction 1; eauto using waits_for. Qed.

Lemma inherit_fold_inherited start waiters effective :
length effective = count → Forall (λ w, w < count)%nat waiters →
inherited start effective →
inherited start (foldl (inherit_edge count owners) effective waiters).
Proof.
intros Hlen Hws. revert effective Hlen. induction Hws as [|w ws Hw _ IH];
  intros e Hlen Hinh; [done|]. simpl. apply IH; [by rewrite length_inherit_edge|].
intros i Hi. rewrite inherit_edge_value by done.
destruct (has_owner count owners w) eqn:Ho; [|by apply Hinh]. cbn [andb].
case_bool_decide as E; [|by apply Hinh].
destruct (Z.max_spec (value e i) (value e w)) as [[_ ->]|[_ ->]]; [|by apply Hinh].
destruct (Hinh w Hw) as (v & Hv & Hvw & ->). exists v. split; [done|]. split; [|done].
by apply (waits_for_snoc _ w).
Qed.

Lemma inherit_pass_iter_length k start :
length start = count → length (Nat.iter k (inherit_pass count owners) start) = count.
Proof.
intros. induction k as [|k IH]; simpl; [done|]. unfold inherit_pass at 1.
by rewrite length_inherit_fold.
Qed.

Lemma inherit_iter_inherited k start :
length start = count → inherited start (Nat.iter k (inherit_pass count owners) start).
Proof.
intros Hlen. induction k as [|k IH]; simpl.
- intros i Hi. exists i. split; [done|]. split; [constructor|done].
- apply inherit_fold_inherited; [by apply inherit_pass_iter_length| |done].
  apply List.Forall_forall. intros w Hw%in_seq. lia.
Qed.

(** Following the blocked-on edges for [k] steps. *)
Fixpoint walk (k : nat) (task : nat) : option nat :=
match k with
| O => Some task
| S k =>
    match walk k task with
    | Some t => if bool_decide (t < count)%nat && has_owner count owners t
                then Some (owner_of t) else None
    | None => None
    end
end.

Lemma walk_reached k waiter task start :
length start = count → walk k waiter = Some task →
value start waiter <= value (Nat.iter k (inherit_pass count owners) start) task.
Proof.
intros Hlen. revert task. induction k as [|k IH]; intros task; cbn [walk].
- intros [= ->]. simpl. lia.
- destruct (walk k waiter) as [t|]; [|done].
  destruct (bool_decide _ && _) eqn:E; [|done]. intros [= <-].
  apply andb_true_iff in E as [Ht%bool_decide_eq_true Ho].
  etrans; [by apply IH|]. simpl. unfold inherit_pass at 1.
  apply inherit_fold_edge; [by apply inherit_pass_iter_length| |done].
  apply in_seq. lia.
Qed.

Lemma inherit_iter_mono k m start i :
length start = count → (k <= m)%nat →
value (Nat.iter k (inherit_pass count owners) start) i <=
  value (Nat.iter m (inherit_pass count owners) start) i.
Proof.
intros Hlen Hkm. induction Hkm as [|m _ IH]; [lia|].
etrans; [exact IH|]. simpl. apply inherit_fold_mono. by apply inherit_pass_iter_length.
Qed.

Lemma walk_add a b task :
walk (b + a) task = walk a task ≫= walk b.
Proof.
induction b as [|b IH]; simpl; [by destruct (walk a task)|].
rewrite IH. by destruct (walk a task).
Qed.

Lemma walk_prefix a b task t :
walk (b + a) task = Some t → ∃ m, walk a task = Some m ∧ walk b m = Some t.
Proof. rewrite walk_add. destruct (walk a task); simpl; eauto. done. Qed.

Lemma waits_walk waiter task :
waits_for waiter task → ∃ k, walk k waiter = Some task.
Proof.
induction 1 as [task|w o t (Hw & Ho & ->) _ [k Hk]]; [by exists 0%nat|].
exists (k + 1)%nat. rewrite walk_add. cbn.
by rewrite bool_decide_eq_true_2, Ho by done.
Qed.

Lemma repeated (l : list nat) :
¬ NoDup l → ∃ i j x, (i < j)%nat ∧ l !! i = Some x ∧ l !! j = Some x.
Proof.
induction l as [|x l IH]; intros H; [destruct H; constructor|].
destruct (decide (x ∈ l)) as [[j Hj]%list_elem_of_lookup|Hx].
- exists 0%nat, (S j), x. split; [lia|done].
- destruct IH as (i & j & y & ? & ? & ?); [intros Hn; apply H; by constructor|].
  exists (S i), (S j), y. split; [lia|done].
Qed.

(** A task is reached within [count - 1] steps or not at all. *)
Lemma walk_short k waiter task :
(waiter < count)%nat → walk k waiter = Some task →
∃ k', (k' < count)%nat ∧ walk k' waiter = Some task.
Proof.
intros Hw. induction k as [k IH] using lt_wf_ind. intros Hk.
destruct (decide (k < count)%nat) as [|Hge]; [eauto|].
set (node j := default 0%nat (walk j waiter)).
assert (Hnode : ∀ j, (j <= k)%nat → walk j waiter = Some (node j) ∧ (node j < count)%nat).
{ intros j Hj. unfold node.
  destruct (walk_prefix j (k - j) waiter task) as (m & Hm & _);
    [by replace (k - j + j)%nat with k by lia|].
  rewrite Hm. split; [done|]. destruct j as [|j]; [by simplify_eq/=|].
  cbn [walk] in Hm. destruct (walk j waiter) as [t|]; [|done].
  destruct (bool_decide _ && _) eqn:E; [|done]. simplify_eq.
  apply andb_true_iff in E as [_ Ho].
  by destruct (has_owner_range _ Ho). }
destruct (repeated (map node (seq 0 (S count)))) as (a & b & x & Hab & Ha & Hb).
{ intros Hnd%NoDup_ListNoDup.
  assert (length (map node (seq 0 (S count))) <= length (seq 0 count))%nat; last first.
  { rewrite length_map, !length_seq in *. lia. }
  apply NoDup_incl_length; [done|]. intros y (j & <- & Hj%in_seq)%in_map_iff.
  apply in_seq. destruct (Hnode j); lia. }
assert (Hab' : node a = node b ∧ (b <= count)%nat).
{ change (map node ?l) with (node <$> l) in Ha, Hb.
  apply list_lookup_fmap_Some in Ha as (a' & Ha & [-> ?]%lookup_seq).
  apply list_lookup_fmap_Some in Hb as (b' & Hb & [-> ?]%lookup_seq).
  cbn [Nat.add] in *. split; [congruence|lia]. }
destruct Hab' as [Hab' Hbc].
apply (IH (k - b + a)%nat); [lia|].
rewrite walk_add. destruct (Hnode a) as [-> _]; [lia|]. rewrite Hab'. simpl.
destruct (walk_prefix b (k - b) waiter task) as (m & Hm & Ht);
  [by replace (k - b + b)%nat with k by lia|].
destruct (Hnode b) as [Hnb _]; [lia|]. congruence.
Qed.

Lemma inherit_converged start task :
length start = count → (task < count)%nat →
let result := Nat.iter count (inherit_pass count owners) start in
(∀ waiter, (waiter < count)%nat → waits_for waiter task →
   value start waiter <= value result task) ∧
∃ waiter, (waiter < count)%nat ∧ waits_for waiter task ∧
  value result task = value start waiter.
Proof.
intros Hlen Ht result. split; [|by apply inherit_iter_inherited].
intros waiter Hw [k Hk]%waits_walk.
destruct (walk_short k waiter task Hw Hk) as (k' & Hk' & Hwalk).
etrans; [by eapply walk_reached|]. apply inherit_iter_mono; [done|lia].
Qed.
End inherit.


(** * Time windows *)
Definition limit_reached (window : scheduler_window_t) (class : Z) : bool :=
  scheduler_policy_window_limit class <=? at_index (used_ms window) class.

Definition total_used (used : list Z) : Z := foldr Z.add 0 used.

(** What every charge maintains: the window is aligned and contains the last
    accounting instant; the classes together account for no more than the
    time elapsed in the window; the throttle mask says which limits are
    reached, or everything after a clock fault. *)
Record window_ok (window : scheduler_window_t) : Prop := {
  wo_initialized : initialized window = true;
  wo_length : length (used_ms window) = 3%nat;
  wo_used : Forall (λ used, 0 <= used) (used_ms window);
  wo_total : total_used (used_ms window) <=
    last_account_ms window - window_start_ms window;
  wo_window : 0 <= window_start_ms window <= last_account_ms window ∧
    last_account_ms window < window_start_ms window + SCHEDULER_WINDOW_MS ∧
    window_start_ms window mod SCHEDULER_WINDOW_MS = 0;
  wo_time : is_u64 (last_account_ms window);
  wo_mask : ∀ class, 0 <= class < 3 →
    Z.testbit (throttled_mask window) class =
      negb (fault_flags window =? 0) || limit_reached window class;
  wo_fault : 0 <= fault_flags window
}.

(** Class indices and three-element arrays by cases. *)
Ltac class_cases H :=
  lazymatch type of H with
  | 0 <= ?class < _ =>
      let E := fresh in
      assert (class = 0 ∨ class = 1 ∨ class = 2) as E by (clear -H; lia);
      destruct E as [->|[->| ->]]
  end.
Ltac arr := unfold at_index, set_index, total_used in *; simpl in *.

Lemma three (l : list Z) : length l = 3%nat → ∃ a b c, l = [a; b; c].
Proof. destruct l as [|a [|b [|c [|]]]]; intros; simplify_eq/=; eauto. Qed.

Lemma saturating_add_exact value amount :
  0 <= value → 0 <= amount → value + amount < UINT32_MAX →
  saturating_add_u32 value amount = value + amount.
Proof.
  intros. unfold saturating_add_u32.
  rewrite (u32_small amount) by ulia.
  rewrite (proj2 (Z.leb_gt _ _)), (proj2 (Z.ltb_ge _ _)) by ulia. done.
Qed.

(** A charge while the accounted total stays in range: the class is charged
    exactly, and its throttle bit records whether its limit is reached. *)
Lemma record_charge_spec window class elapsed :
  0 <= class < 3 → length (used_ms window) = 3%nat →
  Forall (λ used, 0 <= used) (used_ms window) → 0 <= elapsed →
  total_used (used_ms window) + elapsed < UINT32_MAX →
  ∃ overload,
    record_charge window class elapsed =
      Window (window_start_ms window) (last_account_ms window)
        (set_index (used_ms window) class (at_index (used_ms window) class + elapsed))
        overload (clock_anomaly_count window) (fault_flags window)
        (if (elapsed =? 0) ||
            negb (scheduler_policy_window_limit class <=?
                    at_index (used_ms window) class + elapsed)
         then throttled_mask window
         else Z.lor (throttled_mask window) (2 ^ class))
        (initialized window).
Proof.
  intros Hc [a [s [f Hu]]]%three Hnn He Htot. unfold record_charge. rewrite Hu in *.
  apply Forall_cons_1 in Hnn as [Ha Hnn]. apply Forall_cons_1 in Hnn as [Hs Hnn].
  apply Forall_cons_1 in Hnn as [Hf _].
  assert (Hl : (scheduler_policy_window_limit class =? 0) = false) by (class_cases Hc; done).
  assert (Hat : 0 <= at_index [a; s; f] class <= total_used [a; s; f])
    by (class_cases Hc; arr; lia).
  rewrite Hl. cbn [orb]. destruct (Z.eqb_spec elapsed 0) as [->|].
  - exists (overload_count window). rewrite Z.add_0_r. cbn [orb]. destruct window. simpl in *. subst.
    f_equal. class_cases Hc; done.
  - rewrite saturating_add_exact by lia. cbn [orb].
    replace (u8 (Z.shiftl 1 class)) with (2 ^ class) by (class_cases Hc; done).
    destruct (_ <=? _); eexists; done.
Qed.

Lemma limit_reached_ext used used' class :
  at_index used class = at_index used' class →
  (scheduler_policy_window_limit class <=? at_index used class) =
  (scheduler_policy_window_limit class <=? at_index used' class).
Proof. by intros ->. Qed.

(** The mask after a charge still says which limits are reached. *)
Lemma charged_mask used mask class elapsed other fault :
  0 <= class < 3 → 0 <= other < 3 → length used = 3%nat → 0 <= elapsed →
  (∀ c, 0 <= c < 3 → Z.testbit mask c =
     fault || (scheduler_policy_window_limit c <=? at_index used c)) →
  Z.testbit
    (if (elapsed =? 0) ||
        negb (scheduler_policy_window_limit class <=? at_index used class + elapsed)
     then mask else Z.lor mask (2 ^ class)) other =
  fault || (scheduler_policy_window_limit other <=?
    at_index (set_index used class (at_index used class + elapsed)) other).
Proof.
  intros Hc Ho Hlen He Hmask.
  destruct (decide (other = class)) as [->|Hne].
  - rewrite set_index_same by lia.
    destruct (Z.eqb_spec elapsed 0) as [->|]; cbn [orb].
    + by rewrite Z.add_0_r, Hmask.
    + destruct (Z.leb_spec (scheduler_policy_window_limit class) (at_index used class + elapsed));
        cbn [negb].
      * rewrite Z.lor_spec, Z.pow2_bits_true by lia. by rewrite !orb_true_r.
      * rewrite Hmask by done. f_equal. apply Z.leb_gt. lia.
  - rewrite set_index_other by lia.
    case_match; [by apply Hmask|].
    rewrite Z.lor_spec, Z.pow2_bits_false, orb_false_r by lia. by apply Hmask.
Qed.

Lemma total_used_set used class v :
  0 <= class < 3 → length used = 3%nat →
  total_used (set_index used class v) = total_used used - at_index used class + v.
Proof.
  intros Hc [a [s [f ->]]]%three. class_cases Hc; arr; lia.
Qed.

Lemma set_index_nonneg used class v :
  Forall (λ u, 0 <= u) used → 0 <= v → Forall (λ u, 0 <= u) (set_index used class v).
Proof. intros. by apply Forall_insert. Qed.

Lemma at_index_nonneg used class :
  Forall (λ u, 0 <= u) used → 0 <= at_index used class.
Proof.
  intros H. unfold at_index.
  destruct (nth_in_or_default (Z.to_nat class) used 0) as [Hin| ->]; [|lia].
  by apply (proj1 (List.Forall_forall _ _) H).
Qed.

(** Charging the time since the last instant, in the same window. *)
Lemma charge_in_window_ok window class now_ms :
  window_ok window → 0 <= class < 3 → is_u64 now_ms →
  last_account_ms window <= now_ms < window_start_ms window + SCHEDULER_WINDOW_MS →
  let window' := set_last_account
    (record_charge window class (now_ms - last_account_ms window)) now_ms in
  window_ok window' ∧
  used_ms window' = set_index (used_ms window) class
    (at_index (used_ms window) class + (now_ms - last_account_ms window)).
Proof.
  intros [Hi Hl Hu Ht (Hw1 & Hw2 & Hw3) Htime Hm Hf] Hc Hnow Hrange.
  unfold SCHEDULER_WINDOW_MS in *.
  destruct (record_charge_spec window class (now_ms - last_account_ms window))
    as [overload ->]; [done|done|done|lia|ulia|].
  cbn zeta. unfold set_last_account. cbn [used_ms]. split; [|done].
  constructor; cbn; try done.
  - by rewrite length_set_index.
  - apply set_index_nonneg; [done|]. pose proof (at_index_nonneg _ class Hu). lia.
  - rewrite total_used_set by done. lia.
  - unfold SCHEDULER_WINDOW_MS. lia.
  - intros c Hcr. by apply charged_mask; [..|lia|].
Qed.

Lemma fresh_window_ok now_ms overload anomalies fault :
  is_u64 now_ms → 0 <= fault →
  window_ok (Window (now_ms - now_ms mod SCHEDULER_WINDOW_MS)
    (now_ms - now_ms mod SCHEDULER_WINDOW_MS) [0; 0; 0] overload anomalies fault
    (if fault =? 0 then 0 else all_classes_mask) true).
Proof.
  intros Hnow Hf. unfold SCHEDULER_WINDOW_MS.
  constructor; cbn; unfold SCHEDULER_WINDOW_MS; try done.
  - repeat constructor; lia.
  - lia.
  - ulia.
  - ulia.
  - intros class Hc. unfold limit_reached. cbn [used_ms fault_flags].
    destruct (fault =? 0); class_cases Hc; done.
Qed.

Lemma window_init_ok now_ms : is_u64 now_ms → window_ok (scheduler_policy_window_init now_ms).
Proof.
  intros Hnow. unfold scheduler_policy_window_init, SCHEDULER_WINDOW_MS.
  constructor; cbn; unfold SCHEDULER_WINDOW_MS; try done.
  - repeat constructor; lia.
  - ulia.
  - ulia.
  - intros class Hc. unfold limit_reached. class_cases Hc; done.
Qed.

Lemma record_charge_set_last window now_ms class elapsed :
  record_charge (set_last_account window now_ms) class elapsed =
    set_last_account (record_charge window class elapsed) now_ms.
Proof.
  unfold record_charge, set_last_account.
  cbn [used_ms throttled_mask overload_count window_start_ms fault_flags
    clock_anomaly_count initialized].
  generalize (scheduler_policy_window_limit class). intros limit.
  destruct ((limit =? 0) || (elapsed =? 0)); [done|]. by destruct (limit <=? _).
Qed.

Lemma record_charge_frame window class elapsed :
  clock_anomaly_count (record_charge window class elapsed) = clock_anomaly_count window ∧
  fault_flags (record_charge window class elapsed) = fault_flags window.
Proof.
  unfold record_charge. destruct (_ || _); [done|]. by destruct (_ <=? _).
Qed.

(** What crossing into another window leaves of the old one. *)
Lemma window_roll_spec window class now_ms new_start :
  ∃ overload,
    let fresh := Window new_start new_start [0; 0; 0] overload (clock_anomaly_count window)
      (fault_flags window) (if fault_flags window =? 0 then 0 else all_classes_mask) true in
    set_last_account (window_roll window class now_ms new_start) now_ms =
      set_last_account
        (if class <? SCHEDULER_CLASS_COUNT
         then record_charge fresh class (now_ms - new_start) else fresh) now_ms.
Proof.
  unfold window_roll. set (old_end := if _ <=? _ then _ else _).
  set (w1 := if _ && _ then record_charge window _ _ else window).
  assert (H1 : clock_anomaly_count w1 = clock_anomaly_count window ∧
               fault_flags w1 = fault_flags window)
    by (unfold w1; case_match; [apply record_charge_frame|done]).
  set (skipped := if old_end <? _ then _ else 0).
  set (w2 := if _ && negb (skipped =? 0) then _ else w1).
  assert (H2 : clock_anomaly_count w2 = clock_anomaly_count window ∧
               fault_flags w2 = fault_flags window)
    by (unfold w2; case_match; exact H1).
  destruct H2 as [-> ->]. exists (overload_count w2).
  set (fresh := Window new_start new_start _ _ _ _ _ _).
  change (Window new_start 0 _ _ _ _ _ _) with (set_last_account fresh 0).
  rewrite record_charge_set_last. by case_match.
Qed.

Lemma window_idle_ok window now_ms :
  window_ok window → is_u64 now_ms →
  last_account_ms window <= now_ms < window_start_ms window + SCHEDULER_WINDOW_MS →
  window_ok (set_last_account window now_ms).
Proof.
  intros [Hi Hl Hu Ht (Hw1 & Hw2 & Hw3) Htime Hm Hf] Hnow Hr.
  unfold total_used in Ht. constructor; cbn; try assumption; [lia|].
  repeat split; (assumption || lia).
Qed.

(** A charge whose clock does not run backwards, on every branch. *)
Lemma charge_forward window class now_ms :
  window_ok window → 0 <= class → is_u64 now_ms → last_account_ms window <= now_ms →
  let new_start := now_ms - now_ms mod SCHEDULER_WINDOW_MS in
  let rolled := negb (new_start =? window_start_ms window) in
  let base := if rolled then [0; 0; 0] else used_ms window in
  let elapsed := now_ms - (if rolled then new_start else last_account_ms window) in
  let '(result, window') := scheduler_policy_window_charge window class now_ms in
  result = rolled ∧ window_ok window' ∧
  window_start_ms window' = new_start ∧ last_account_ms window' = now_ms ∧
  fault_flags window' = fault_flags window ∧
  used_ms window' =
    (if class <? SCHEDULER_CLASS_COUNT
     then set_index base class (at_index base class + elapsed) else base).
Proof.
  intros Hok Hc Hnow Hlast new_start rolled base elapsed.
  unfold scheduler_policy_window_charge. rewrite (wo_initialized _ Hok). cbn [negb].
  rewrite (proj2 (Z.ltb_ge _ _) Hlast). fold new_start. fold rolled.
  assert (Hns : 0 <= new_start <= now_ms ∧ now_ms < new_start + SCHEDULER_WINDOW_MS)
    by (subst new_start; unfold SCHEDULER_WINDOW_MS; ulia).
  unfold base, elapsed. destruct rolled eqn:Er.
  - destruct (window_roll_spec window class now_ms new_start) as [overload ->].
    set (fresh := Window new_start new_start _ _ _ _ _ _).
    assert (Hf : window_ok fresh) by (apply fresh_window_ok; [done|apply Hok]).
    destruct (Z.ltb_spec class SCHEDULER_CLASS_COUNT) as [Hlt|].
    + destruct (charge_in_window_ok fresh class now_ms Hf) as [Hok' Hu];
        [unfold SCHEDULER_CLASS_COUNT in Hlt; lia|done|cbn; lia|].
      cbn zeta in Hok', Hu. change (last_account_ms fresh) with new_start in *.
      split; [done|]. split; [done|]. rewrite Hu.
      destruct (record_charge_spec fresh class (now_ms - new_start)) as [o ->];
        [unfold SCHEDULER_CLASS_COUNT in Hlt; lia|done|apply Hf|lia| |done].
      unfold SCHEDULER_WINDOW_MS in Hns. cbn. ulia.
    + split; [done|]. split; [|done]. apply window_idle_ok; [done|done|cbn; lia].
  - apply negb_false_iff, Z.eqb_eq in Er. rewrite Er in Hns.
    destruct (Z.ltb_spec class SCHEDULER_CLASS_COUNT) as [Hlt|].
    + destruct (charge_in_window_ok window class now_ms Hok) as [Hok' Hu];
        [unfold SCHEDULER_CLASS_COUNT in Hlt; lia|done|lia|].
      split; [done|]. split; [done|]. rewrite Hu.
      destruct (record_charge_spec window class (now_ms - last_account_ms window)) as [o ->];
        [unfold SCHEDULER_CLASS_COUNT in Hlt; lia|apply Hok|apply Hok|lia| |done].
      pose proof (wo_total _ Hok). pose proof (wo_window _ Hok).
      unfold SCHEDULER_WINDOW_MS in *. ulia.
    + split; [done|]. split; [|done]. apply window_idle_ok; [done|done|lia].
Qed.

(** A charge whose clock runs backwards latches the fault. *)
Lemma charge_backward window class now_ms :
  window_ok window → now_ms < last_account_ms window →
  let '(result, window') := scheduler_policy_window_charge window class now_ms in
  result = false ∧ window_ok window' ∧ fault_flags window' ≠ 0.
Proof.
  intros Hok Hlast. unfold scheduler_policy_window_charge.
  rewrite (wo_initialized _ Hok), (proj2 (Z.ltb_lt _ _) Hlast). cbn [negb].
  pose proof (wo_fault _ Hok).
  assert (Hflag : Z.lor (fault_flags window) SCHEDULER_WINDOW_FAULT_CLOCK_REGRESSION ≠ 0)
    by (intros [_ E]%Z.lor_eq_0_iff; done).
  split; [done|]. split; [|done]. destruct Hok. constructor; cbn; try done.
  - intros c Hc. rewrite (proj2 (Z.eqb_neq _ _) Hflag). class_cases Hc; done.
  - by apply Z.lor_nonneg.
Qed.

(** The windows of the kernel: initialised, then charged at any instants, for
    any class value, whatever the clock does. *)
Inductive window_reachable : scheduler_window_t → Prop :=
| reachable_init now_ms :
    is_u64 now_ms → window_reachable (scheduler_policy_window_init now_ms)
| reachable_charge window class now_ms :
    window_reachable window → is_u8 class → is_u64 now_ms →
    window_reachable (scheduler_policy_window_charge window class now_ms).2.

Lemma charge_ok window class now_ms :
  window_ok window → 0 <= class → is_u64 now_ms →
  window_ok (scheduler_policy_window_charge window class now_ms).2 ∧
  (fault_flags window ≠ 0 →
   fault_flags (scheduler_policy_window_charge window class now_ms).2 ≠ 0).
Proof.
  intros Hok Hc Hnow. destruct (decide (last_account_ms window <= now_ms)).
  - pose proof (charge_forward window class now_ms Hok Hc Hnow) as H.
    destruct (scheduler_policy_window_charge _ _ _). cbn in *.
    destruct H as (_ & Hok' & _ & _ & -> & _); done.
  - pose proof (charge_backward window class now_ms Hok ltac:(lia)) as H.
    destruct (scheduler_policy_window_charge _ _ _). by destruct H as (_ & ? & ?).
Qed.

Lemma window_reachable_ok window : window_reachable window → window_ok window.
Proof.
  induction 1; [by apply window_init_ok|]. apply charge_ok; [done|ulia|done].
Qed.

Lemma class_allowed_spec window class :
  window_ok window → 0 <= class < 3 →
  scheduler_policy_class_allowed window class = true ↔
  fault_flags window = 0 ∧
  at_index (used_ms window) class < scheduler_policy_window_limit class.
Proof.
  intros Hok Hc. unfold scheduler_policy_class_allowed, SCHEDULER_CLASS_COUNT.
  rewrite (wo_initialized _ Hok), (proj2 (Z.leb_gt 3 class)) by lia. cbn [negb orb].
  pose proof (wo_mask _ Hok class Hc) as Hm.
  destruct (Z.eqb_spec (fault_flags window) 0) as [E|E]; cbn [negb orb] in *;
    [|split; [done|tauto]].
  rewrite Z.shiftl_1_l.
  assert (Hland : (Z.land (throttled_mask window) (2 ^ class) =? 0) =
      negb (Z.testbit (throttled_mask window) class)).
  { rewrite <- (negb_involutive (_ =? 0)). f_equal.
    rewrite <- (land_pow2_zero (throttled_mask window) class) by lia. done. }
  rewrite Hland, Hm. unfold limit_reached. rewrite negb_true_iff, Z.leb_gt. tauto.
Qed.

(** * Properties *)

(** C9: the cyclic selection starves nobody. Every call gets a freshly built
    candidate table of at most [limit] entries, in which the other tasks may have
    woken, blocked, changed class, come or gone since the call before. If every
    table offers [target], runnable and in one valid class, then among any
    [4 * limit] calls one selects it, whatever the cursors were. *)
Theorem select_cycle_no_starvation limit tables cursors cycle_cursor target class :
  (limit <= 32)%nat → 0 <= class < SCHEDULER_CLASS_COUNT →
  Forall (offers limit target class) tables → (0 < length tables)%nat →
  (4 * limit <= length tables)%nat →
  length cursors = 3%nat → 0 <= cycle_cursor →
  In target (cycle_run tables cursors cycle_cursor).
Proof.
  intros Hlimit Hclass Hall Hsome Hlen Hcur Hcyc. unfold SCHEDULER_CLASS_COUNT in Hclass.
  assert (Ht : 0 <= target < Z.of_nat limit).
  { destruct Hall as [|? ? (? & ? & _)]; cbn in Hsome; lia. }
  apply (cycle_run_reaches limit target class); [done..|].
  set (start := if 4 <=? cycle_cursor then 0 else cycle_cursor).
  assert (Hs : 0 <= start < 4)
    by (unfold start; destruct (Z.leb_spec 4 cycle_cursor); lia).
  pose proof (waiting_time_bound limit target class Hlimit Hclass cursors start Ht Hs). lia.
Qed.

(** Two safety tasks take turns: one wakes for the odd calls, the other has an
    entry only in the even ones. The ambient task 1 is selected all the same. *)
Definition busy_table (call : nat) : list scheduler_candidate_t :=
  let odd := Nat.odd call in
  Candidate odd 2 1 :: Candidate true 0 1 ::
  (if odd then [] else [Candidate true 2 1]).

Lemma select_cycle_no_starvation_witness :
  let calls := cycle_run (map busy_table (seq 0 12)) [-7; 9; 5] 200 in
  In 1 calls ∧ take 4 calls = [2; 0; 1; 0].
Proof.
  cbn zeta. split; [|reflexivity].
  apply (select_cycle_no_starvation 3 (map busy_table (seq 0 12)) [-7; 9; 5] 200 1 0);
    try (cbn; unfold SCHEDULER_CLASS_COUNT; (lia || done)).
  apply list.Forall_forall. intros t Hin. apply list_elem_of_fmap in Hin as (call & -> & _).
  unfold offers, busy_table. destruct (Nat.odd call); cbn; split_and!; (lia || done).
Defined.

Lemma candidate_at_replenish candidates index :
  0 <= index < Z.of_nat (length candidates) →
  runnable (candidate_at (round_candidates candidates) index) =
    runnable (candidate_at candidates index) ∧
  scheduling_class (candidate_at (round_candidates candidates) index) =
    scheduling_class (candidate_at candidates index).
Proof.
  intros Hi. unfold round_candidates, candidate_at. case_match; [|done].
  unfold replenish. erewrite nth_indep by (rewrite length_map; lia).
  by rewrite map_nth.
Qed.

(** The budgeted selection returns a runnable task with budget left whose
    class no eligible task exceeds, charges exactly that task one unit, starts
    a new round only when every runnable budget is spent, and fails exactly
    when no runnable task has a valid class. *)
Theorem select_serves_highest_class candidates after :
  (0 < length candidates <= 32)%nat → -1 <= after < Z.of_nat (length candidates) →
  let round := if existsb eligible candidates then candidates else replenish candidates in
  match scheduler_policy_select candidates after with
  | (index, candidates') =>
      (index = -1 ∧ ∀ c, In c candidates → runnable c = true →
         ¬ 0 <= scheduling_class c < SCHEDULER_CLASS_COUNT) ∨
      (0 <= index < Z.of_nat (length candidates) ∧
       runnable (candidate_at candidates index) = true ∧
       0 <= scheduling_class (candidate_at candidates index) < SCHEDULER_CLASS_COUNT ∧
       budget_remaining (candidate_at round index) ≠ 0 ∧
       (∀ c, In c round → eligible c = true →
          scheduling_class c <= scheduling_class (candidate_at candidates index)) ∧
       candidates' = spend round index)
  end.
Proof.
  intros Hlen Hafter round.
  assert (Hround : round = round_candidates candidates).
  { unfold round, round_candidates.
    destruct (highest_runnable_spec candidates) as [[-> Hn]|(Hr & (m & Hm & Em & _) & _)].
    - destruct (existsb eligible candidates) eqn:E; [|done].
      apply existsb_exists in E as (c & Hin & Ec). rewrite Hn in Ec; done.
    - rewrite (proj2 (existsb_exists _ _)) by eauto.
      by rewrite (proj2 (Z.ltb_ge _ _)) by lia. }
  rewrite Hround. clear round Hround. unfold SCHEDULER_CLASS_COUNT.
  pose proof (select_spec candidates after Hlen Hafter) as H.
  destruct (scheduler_policy_select candidates after) as [index candidates'].
  destruct H as [(-> & -> & Hn)|(Hi & He & Hmax & ->)]; [left|right].
  - split; [done|]. intros c Hin Hrun Hc.
    destruct (round_eligible candidates c Hin Hrun Hc) as (c' & Hin' & Ec').
    rewrite (Hn _ Hin') in Ec'. done.
  - destruct (candidate_at_replenish candidates index Hi) as [Er Ec].
    pose proof (eligible_class _ He) as Hc. apply eligible_spec in He as (Hrun & Hb & _).
    rewrite Ec in *. rewrite Er in Hrun. repeat (split; [done|]). done.
Qed.

Lemma select_serves_highest_class_witness :
  scheduler_policy_select [Candidate true 0 1; Candidate false 2 2; Candidate true 1 0] 0 =
    (0, [Candidate true 0 0; Candidate false 2 2; Candidate true 1 0]) ∧
  0 <= 0 < 3.
Proof.
  split; [reflexivity|].
  pose proof (select_serves_highest_class
    [Candidate true 0 1; Candidate false 2 2; Candidate true 1 0] 0
    ltac:(simpl; lia) ltac:(simpl; lia)) as H.
  cbn in H. destruct H as [[H _]|(H & _)]; [discriminate H|lia].
Defined.

Lemma inherit_base count owners task :
  (∀ waiter, has_owner count owners waiter = false ∨ (count <= waiter)%nat) →
  ∀ waiter, waits_for count owners waiter task → waiter = task.
Proof.
  intros Hno waiter Hw. induction Hw as [|waiter owner task [Hlt [Ho _]] Hw IH]; [done|].
  destruct (Hno waiter) as [E|]; [congruence|lia].
Qed.

(** Class inheritance is exact: every task gets the highest class among the
    tasks that wait for it directly or through others (itself included), an
    invalid class counting as ambient, and cycles of waiting do no harm. *)
Theorem inherit_is_transitive_maximum effective_classes base_classes owners :
  (0 < length base_classes <= 32)%nat →
  let count := length base_classes in
  let start := inherit_start base_classes in
  let result := scheduler_policy_inherit effective_classes base_classes owners in
  ∀ task, (task < count)%nat →
    (∀ waiter, (waiter < count)%nat → waits_for count owners waiter task →
       nth waiter start 0 <= nth task result 0) ∧
    ∃ waiter, (waiter < count)%nat ∧ waits_for count owners waiter task ∧
      nth task result 0 = nth waiter start 0.
Proof.
  intros Hlen count start result task Ht.
  assert (Hstart : length start = count) by apply length_map.
  unfold result, scheduler_policy_inherit.
  rewrite (proj2 (Nat.eqb_neq _ _)) by lia.
  rewrite (proj2 (Nat.ltb_ge SCHEDULER_POLICY_MAX_CANDIDATES _))
    by (unfold SCHEDULER_POLICY_MAX_CANDIDATES; lia). cbn [orb].
  fold count. fold start.
  destruct (existsb (has_owner count owners) (seq 0 count)) eqn:E; cbn [negb].
  - by apply (inherit_converged count owners start task).
  - assert (Hself : ∀ waiter, waits_for count owners waiter task → waiter = task).
    { apply inherit_base. intros waiter.
      destruct (decide (waiter < count)%nat) as [Hlt|]; [left|right; lia].
      destruct (has_owner count owners waiter) eqn:Ho; [|done].
      enough (existsb (has_owner count owners) (seq 0 count) = true) by congruence.
      apply existsb_exists. exists waiter. split; [|done]. apply in_seq. lia. }
    split.
    + intros waiter _ ->%Hself. lia.
    + exists task. repeat split; [done|constructor].
Qed.

Lemma inherit_is_transitive_maximum_witness :
  scheduler_policy_inherit [] [2; 0; 9; 1] [1; 2; 1; -1] = [2; 2; 2; 1] ∧
  2 <= nth 2 (scheduler_policy_inherit [] [2; 0; 9; 1] [1; 2; 1; -1]) 0.
Proof.
  split; [reflexivity|].
  apply (proj1 (inherit_is_transitive_maximum [] [2; 0; 9; 1] [1; 2; 1; -1]
    ltac:(simpl; lia) 2%nat ltac:(simpl; lia)) 0%nat); [simpl; lia|].
  apply (waits_step _ _ 0 1 2)%nat; [repeat split; simpl; lia|].
  apply (waits_step _ _ 1 2 2)%nat; [repeat split; simpl; lia|]. constructor.
Defined.

(** In every window the kernel can reach, whatever the clock did, a class is
    admitted exactly when no clock fault is latched and its accounted time is
    below its limit, all classes together are charged no more than the elapsed
    window, and background work is admitted exactly when its own share is spent
    and the safety share is not. *)
Theorem window_admission window class :
  window_reachable window → 0 <= class < SCHEDULER_CLASS_COUNT →
  (scheduler_policy_class_allowed window class = true ↔
     fault_flags window = 0 ∧
     at_index (used_ms window) class < scheduler_policy_window_limit class) ∧
  (scheduler_policy_background_allowed window class = true ↔
     class ≠ SCHEDULER_CLASS_SAFETY ∧ fault_flags window = 0 ∧
     at_index (used_ms window) SCHEDULER_CLASS_SAFETY < 60 ∧
     scheduler_policy_window_limit class <= at_index (used_ms window) class) ∧
  total_used (used_ms window) <= last_account_ms window - window_start_ms window <
    SCHEDULER_WINDOW_MS.
Proof.
  intros Hreach Hc. unfold SCHEDULER_CLASS_COUNT in Hc.
  pose proof (window_reachable_ok _ Hreach) as Hok.
  pose proof (class_allowed_spec window class Hok Hc) as Ha.
  pose proof (class_allowed_spec window SCHEDULER_CLASS_SAFETY Hok ltac:(easy)) as Hs.
  split; [done|]. split.
  - unfold scheduler_policy_background_allowed.
    rewrite !andb_true_iff, negb_true_iff, Z.ltb_lt, Hs.
    rewrite <- not_true_iff_false, Ha.
    change (scheduler_policy_window_limit SCHEDULER_CLASS_SAFETY) with 60.
    set (safe := at_index _ SCHEDULER_CLASS_SAFETY).
    unfold SCHEDULER_CLASS_SAFETY. lia.
  - pose proof (wo_total _ Hok). pose proof (wo_window _ Hok). lia.
Qed.

Lemma window_admission_witness :
  let window := (scheduler_policy_window_charge
    (scheduler_policy_window_charge (scheduler_policy_window_init 200) 1 225).2 0 230).2 in
  scheduler_policy_class_allowed window 1 = false ∧
  scheduler_policy_background_allowed window 1 = true.
Proof.
  intros window. assert (H : window_reachable window)
    by (repeat first [apply reachable_charge|apply reachable_init]; ulia).
  split; [reflexivity|]. apply (window_admission window 1 H ltac:(easy)).
  repeat split; try reflexivity; easy.
Defined.

(** A charge with a clock that does not run backwards bills the elapsed time
    of the current window, and only that, to the running class, starts from
    zero in a new window, keeps a latched fault, and reports whether the window
    changed; a clock that runs backwards latches a fault, after which no class is
    admitted however time goes on. *)
Theorem window_charge_accounts window class now_ms :
  window_reachable window → is_u8 class → is_u64 now_ms →
  let '(rolled, window') := scheduler_policy_window_charge window class now_ms in
  if last_account_ms window <=? now_ms then
    let new_start := now_ms - now_ms mod SCHEDULER_WINDOW_MS in
    let base := if rolled then [0; 0; 0] else used_ms window in
    let since := if rolled then new_start else last_account_ms window in
    (rolled = true ↔ new_start ≠ window_start_ms window) ∧
    window_start_ms window' = new_start ∧ last_account_ms window' = now_ms ∧
    fault_flags window' = fault_flags window ∧
    used_ms window' =
      (if class <? SCHEDULER_CLASS_COUNT
       then set_index base class (at_index base class + (now_ms - since)) else base)
  else
    rolled = false ∧ fault_flags window' ≠ 0 ∧
    ∀ other, scheduler_policy_class_allowed window' other = false.
Proof.
  intros Hreach Hc Hnow. pose proof (window_reachable_ok _ Hreach) as Hok.
  destruct (Z.leb_spec (last_account_ms window) now_ms) as [Hle|Hgt].
  - pose proof (charge_forward window class now_ms Hok ltac:(ulia) Hnow Hle) as H.
    cbv zeta in H. destruct (scheduler_policy_window_charge window class now_ms) as [rolled w'].
    destruct H as (-> & _ & ? & ? & ? & Hu). cbv zeta.
    split; [by rewrite negb_true_iff, Z.eqb_neq|]. done.
  - pose proof (charge_backward window class now_ms Hok Hgt) as H.
    destruct (scheduler_policy_window_charge window class now_ms) as [rolled w'].
    destruct H as (-> & _ & Hf). split; [done|]. split; [done|]. intros other.
    unfold scheduler_policy_class_allowed. destruct (_ || _); [done|].
    by rewrite (proj2 (Z.eqb_neq _ _) Hf).
Qed.

Lemma window_charge_accounts_witness :
  let window := scheduler_policy_window_init 250 in
  used_ms (scheduler_policy_window_charge window 2 280).2 = [0; 0; 30] ∧
  scheduler_policy_class_allowed (scheduler_policy_window_charge window 2 249).2 0 = false.
Proof.
  intros window. assert (H : window_reachable window) by (apply reachable_init; ulia).
  split.
  - apply (window_charge_accounts window 2 280 H); ulia.
  - apply (window_charge_accounts window 2 249 H); ulia.
Defined.
