(* ===== verification/Layout.v ===== *)
(** Byte images of C structs.

    A struct without padding is the concatenation of its little-endian
    fields.  [Layout] states the field widths of a record type and its two
    conversions; images and records are then in bijection, which is what the
    modules that keep a struct in a protected store rely on. *)
From S2P Require Import Prelude.

Fixpoint encode_fields (widths : list nat) (values : list Z) : list Z :=
  match widths, values with
  | w :: widths, v :: values => le_bytes w v ++ encode_fields widths values
  | _, _ => []
  end.

Fixpoint decode_fields (widths : list nat) (image : list Z) : list Z :=
  match widths with
  | [] => []
  | w :: widths => le_value (take w image) :: decode_fields widths (drop w image)
  end.

Fixpoint fields_ok (widths : list nat) (values : list Z) : Prop :=
  match widths, values with
  | [], [] => True
  | w :: widths, v :: values => 0 <= v < 256 ^ Z.of_nat w ∧ fields_ok widths values
  | _, _ => False
  end.

Definition image_size (widths : list nat) : nat := sum_list widths.

Lemma length_encode_fields widths values :
  length widths = length values → length (encode_fields widths values) = image_size widths.
Proof.
  unfold image_size. revert values. induction widths as [|w widths IH]; intros [|v values] Hl;
    simplify_eq/=; [done|]. rewrite length_app, length_le_bytes, IH; done.
Qed.

Lemma encode_fields_bytes widths values : Forall is_u8 (encode_fields widths values).
Proof.
  revert values. induction widths as [|w widths IH]; intros [|v values]; simpl; try done.
  apply Forall_app. split; [apply le_bytes_range|apply IH].
Qed.

Lemma decode_encode_fields widths values :
  fields_ok widths values → decode_fields widths (encode_fields widths values) = values.
Proof.
  revert values. induction widths as [|w widths IH]; intros [|v values]; try done.
  intros [Hv Hok]. cbn [encode_fields decode_fields]. rewrite take_app_length', drop_app_length' by (by rewrite length_le_bytes).
  by rewrite le_value_bytes, IH.
Qed.

Lemma decode_fields_ok widths image :
  Forall is_u8 image → length image = image_size widths →
  fields_ok widths (decode_fields widths image).
Proof.
  unfold image_size. revert image. induction widths as [|w widths IH]; intros image Hb Hl;
    cbn [decode_fields sum_list fields_ok] in *; [done|split].
  - pose proof (le_value_range (take w image) (Forall_take _ _ _ Hb)) as Hr.
    rewrite length_take in Hr. simpl in Hl. by replace (w `min` length image)%nat with w in Hr by lia.
  - apply IH; [by apply Forall_drop|]. rewrite length_drop. simpl in Hl. lia.
Qed.

Lemma encode_decode_fields widths image :
  Forall is_u8 image → length image = image_size widths →
  encode_fields widths (decode_fields widths image) = image.
Proof.
  unfold image_size. revert image. induction widths as [|w widths IH]; intros image Hb Hl;
    cbn [decode_fields encode_fields sum_list] in *.
  - symmetry. by apply nil_length_inv.
  - simpl in Hl. rewrite IH; [|by apply Forall_drop|rewrite length_drop; lia].
    pose proof (le_bytes_value (take w image) (Forall_take _ _ _ Hb)) as E.
    rewrite length_take in E. replace (w `min` length image)%nat with w in E by lia.
    rewrite E. apply take_drop.
Qed.

(** A record type with its struct layout. *)
Class Layout (A : Type) := {
  layout_widths : list nat;
  layout_values : A → list Z;
  layout_record : list Z → A
}.

Class LayoutLaws (A : Type) `{!Layout A} := {
  layout_length a : length layout_widths = length (layout_values a);
  layout_record_values a : layout_record (layout_values a) = a;
  layout_values_record values :
    length values = length layout_widths → layout_values (layout_record values) = values
}.

Section layout.
Context {A : Type} `{LayoutLaws A}.

Definition sizeof : nat := image_size layout_widths.
Definition encode (a : A) : list Z := encode_fields layout_widths (layout_values a).
Definition decode (image : list Z) : A := layout_record (decode_fields layout_widths image).

(** Every field fits its width. *)
Definition well_typed (a : A) : Prop := fields_ok layout_widths (layout_values a).

Lemma length_encode a : length (encode a) = sizeof.
Proof. apply length_encode_fields, layout_length. Qed.

Lemma encode_bytes a : Forall is_u8 (encode a).
Proof. apply encode_fields_bytes. Qed.

Lemma decode_encode a : well_typed a → decode (encode a) = a.
Proof. intros. unfold decode, encode. rewrite decode_encode_fields by done. apply layout_record_values. Qed.

Lemma length_decode_fields widths image : length (decode_fields widths image) = length widths.
Proof. revert image. induction widths; intros; simpl; auto. Qed.

Lemma decode_typed image :
Forall is_u8 image → length image = sizeof → well_typed (decode image).
Proof.
intros. unfold well_typed, decode. rewrite layout_values_record by apply length_decode_fields.
by apply decode_fields_ok.
Qed.

Lemma encode_decode image :
Forall is_u8 image → length image = sizeof → encode (decode image) = image.
Proof.
intros. unfold encode, decode. rewrite layout_values_record by apply length_decode_fields.
by apply encode_decode_fields.
Qed.

(** Reading a whole image into a struct variable. *)
Lemma decode_copy buffer a :
well_typed a → decode (bytes_copy (encode buffer) (encode a)) = a.
Proof.
intros. unfold bytes_copy. rewrite drop_ge by (rewrite !length_encode; done).
rewrite app_nil_r. by apply decode_encode.
Qed.
End layout.

#[global] Arguments sizeof A {_}.
