(* ===== verification/ProtectedRecord.v ===== *)
(** Structs kept in a protected store.

    The modules of the kernel that protect one struct load it into a local
    variable, change the variable and store it back; both calls fold every
    failure into one integrity error.  [load_record] and [store_record] are
    those two helpers, for any struct with a [Layout], any validator that
    checks the size and then the fields, and any [ProtectedStore]. *)
From S2P Require Import Prelude ProtectedStore.
From S2P Require Import Layout.

Section record.
Context {O : Type} `{ProtectedStoreLaws O} {A : Type} `{LayoutLaws A}.
Context (version : Z) (record_ok : A → bool) (integrity_error : Z).

(** The validator the store calls on a payload. *)
Definition record_valid (payload : list Z) : bool :=
(length payload =? sizeof A)%nat && record_ok (decode payload).

(** The third component is the caller's struct variable. *)
Definition load_record (store : O) (record : A) : Z * O * A :=
let '(result, store, payload) := ps_read store version (sizeof A) record_valid in
if negb (critical_read_ok result) then (integrity_error, store, record)
else
  let record := decode (bytes_copy (encode record) payload) in
  if negb (length payload =? sizeof A)%nat then (integrity_error, store, record)
  else (0, store, record).

Definition store_record (store : O) (record : A) : Z * O :=
let '(result, store) := ps_update store version (Some (encode record)) record_valid in
(if result =? 0 then 0 else integrity_error, store).

(** The store is intact, at its [n]-th publication, and holds an acceptable
  struct. *)
Definition record_holds (store : O) (n : Z) (record : A) : Prop :=
ps_holds store version n (encode record) ∧ well_typed record ∧ record_ok record = true.

Context (Hversion : is_u32 version) (Hversion0 : version ≠ 0).
Context (Hsize : (0 < sizeof A <= 64)%nat).

Lemma encode_storable (record : A) : storable (encode record).
Proof using All. split; [apply encode_bytes|]. by rewrite length_encode. Qed.

Lemma record_valid_encode (record : A) :
well_typed record → record_valid (encode record) = record_ok record.
Proof using All. intros Ht. unfold record_valid. by rewrite length_encode, Nat.eqb_refl, decode_encode. Qed.

Lemma load_record_spec store n record buffer :
record_holds store n record →
∃ store', load_record store buffer = (0, store', record) ∧ record_holds store' n record.
Proof using All.
intros (Hh & Ht & Hok). unfold load_record.
destruct (ps_read_holds store version n (encode record) (sizeof A) record_valid)
  as (store' & -> & Hh'); [done|done|by rewrite record_valid_encode|by rewrite length_encode|].
exists store'. cbn [critical_read_ok critical_read_code Z.leb Z.compare negb].
by rewrite length_encode, Nat.eqb_refl, decode_copy by done.
Qed.

Lemma store_record_spec store n record record' :
record_holds store n record → well_typed record' → record_ok record' = true →
let '(result, store') := store_record store record' in
(result = 0 ∧ ∃ n', record_holds store' n' record' ∧ (n < UINT32_MAX → n' = n + 1)) ∨
(result = integrity_error ∧ UINT32_MAX <= n ∧ record_holds store' n record).
Proof using All.
intros (Hh & Hs & Hs') Ht Hok. unfold store_record.
destruct (decide (n < UINT32_MAX)) as [Hn|Hn].
{ destruct (ps_update_holds store version n (encode record) (encode record') record_valid)
    as (store' & -> & Hh');
    [done|done|by rewrite record_valid_encode|apply encode_storable|done|].
  left. split; [done|]. by exists (n + 1). }
destruct (ps_update store _ _ _) as [result store'] eqn:E.
destruct (Z.eqb_spec result 0) as [->|Hne]; [left|right]; (split; [done|]).
- eapply ps_update_sound in E as [n' ?]; [|by eapply ps_holds_typed|easy|apply encode_bytes].
  exists n'. split; [done|lia].
- apply ps_update_refused in E as ->; [|done]. split; [lia|done].
Qed.

Lemma init_record_spec store record :
well_typed record → record_ok record = true →
∃ store', ps_init store version (Some (encode record)) = (0, store') ∧
  record_holds store' 1 record.
Proof using All.
intros Ht Hok.
destruct (ps_init_holds store version (encode record)) as (store' & -> & ?);
  [done|done|apply encode_storable|]. by exists store'.
Qed.

(** An intact store has one value. *)
Lemma record_holds_functional store n1 n2 record1 record2 :
record_holds store n1 record1 → record_holds store n2 record2 → record1 = record2.
Proof using All.
intros H1 H2. destruct (load_record_spec _ _ _ record1 H1) as (? & E1 & _).
destruct (load_record_spec _ _ _ record1 H2) as (? & E2 & _). congruence.
Qed.
End record.

(** How an operation on a protected struct ends: it refuses with its own
    answer, or the exhausted store refuses, and then nothing changes; or the
    new struct is stored. *)
Definition record_transition {A : Type} (integrity_error : Z) (holds_at : Z → A → Prop)
    (n : Z) (record record' : A) (answer result : Z) : Prop :=
  (answer ≠ 0 ∧ result = answer ∧ holds_at n record) ∨
  (answer = 0 ∧ result = integrity_error ∧ UINT32_MAX <= n ∧ holds_at n record) ∨
  (answer = 0 ∧ result = 0 ∧
   ∃ n', holds_at n' record' ∧ (n < UINT32_MAX → n' = n + 1)).

Lemma record_transition_0 {A : Type} integrity_error (holds_at : Z → A → Prop)
    n record record' answer result :
  record_transition integrity_error holds_at n record record' answer result →
  answer = 0 → n < UINT32_MAX → result = 0 ∧ holds_at (n + 1) record'.
Proof.
  intros [(? & _)|[(_ & _ & ? & _)|(_ & -> & n' & Hh & Hn)]] Ha Hlt; [done|lia|].
  split; [done|]. by rewrite <- (Hn Hlt).
Qed.
