(* ===== verification/Handover.v ===== *)
(** Hand-over of the active role: src/kernel/init/handover.c and
    src/include/kernel/handover.h.

    [Module Handover] holds the lease, fencing and take-over operations over
    any protected store [O] and any fence backend, whose external state is
    [W].  The pointers of the snapshot and of the backend are references; a
    missing backend function is [None].  [handover_confirm_fenced] releases
    its lock around the backend call, so it is the composition of two locked
    parts, and the step relation below interleaves those parts with every
    other operation.  The spin lock itself has no state here: a locked part is
    one step.  [handover_test_corrupt] (host tests only) is not modelled. *)
From S2P Require Import Prelude ProtectedStore.
From S2P Require Import Layout ProtectedRecord CriticalObject.

Module Handover.

Definition HANDOVER_PROTOCOL_VERSION : Z := 1.
Definition HANDOVER_MIN_LEASE_MS : Z := 10.
Definition HANDOVER_MAX_LEASE_MS : Z := 10000.
Definition HANDOVER_EINVAL : Z := -22.
Definition HANDOVER_EACCES : Z := -13.
Definition HANDOVER_EAGAIN : Z := -11.
Definition HANDOVER_EINTEGRITY : Z := -117.
Definition HANDOVER_EOVERFLOW : Z := -75.
Definition HANDOVER_ENODEV : Z := -19.

Record handover_status_t := Status {
  version : Z;
  struct_size : Z;
  active_node : Z;
  standby_node : Z;
  lease_ms : Z;
  reserved : Z;
  epoch : Z;
  lease_deadline_ms : Z;
  fenced_epoch : Z;
  transition_sequence : Z
}.

#[export] Instance status_layout : Layout handover_status_t := {
  layout_widths := [4; 4; 4; 4; 4; 4; 8; 8; 8; 8]%nat;
  layout_values s :=
    [version s; struct_size s; active_node s; standby_node s; lease_ms s; reserved s;
     epoch s; lease_deadline_ms s; fenced_epoch s; transition_sequence s];
  layout_record l :=
    match l with
    | [a; b; c; d; e; f; g; h; i; j] => Status a b c d e f g h i j
    | _ => Status 0 0 0 0 0 0 0 0 0 0
    end
}.

Definition zero_status : handover_status_t := Status 0 0 0 0 0 0 0 0 0 0.

Definition deadline_after (now_ms lease_ms : Z) : Z :=
  if UINT64_MAX - now_ms <? lease_ms then UINT64_MAX else now_ms + lease_ms.

Definition status_ok (status : handover_status_t) : bool :=
  (version status =? HANDOVER_PROTOCOL_VERSION) &&
  (struct_size status =? Z.of_nat (sizeof handover_status_t)) &&
  negb (active_node status =? 0) && negb (standby_node status =? 0) &&
  negb (active_node status =? standby_node status) &&
  (HANDOVER_MIN_LEASE_MS <=? lease_ms status) &&
  (lease_ms status <=? HANDOVER_MAX_LEASE_MS) &&
  (reserved status =? 0) && negb (epoch status =? 0) &&
  negb (lease_deadline_ms status =? 0) &&
  ((fenced_epoch status =? 0) || (fenced_epoch status =? epoch status)) &&
  negb (transition_sequence status =? 0).

Definition status_valid : list Z → bool := record_valid status_ok.

Section operations.
Context {O : Type} `{ProtectedStore O} {W : Type}.

(** [handover_fence_backend_t]; the context pointer stands for the state [W]
the two functions share. *)
Record handover_fence_backend_t := Backend {
request_fence : option (W → Z → Z → bool * W);
fence_confirmed : option (W → Z → Z → bool * W)
}.

Record handover_t := Handover {
protected_status : O;
initialized : bool;
backend_attached : bool;
fence_backend : handover_fence_backend_t
}.

Definition set_status (h : handover_t) (store : O) : handover_t :=
Handover store (initialized h) (backend_attached h) (fence_backend h).

(** A call of a backend function; a missing one is never called (see
[handover_attach_fence_backend]). *)
Definition backend_call (f : option (W → Z → Z → bool * W)) (world : W) (node epoch : Z)
: bool * W :=
match f with Some f => f world node epoch | None => (false, world) end.

Definition load_status : O → handover_status_t → Z * O * handover_status_t :=
load_record HANDOVER_PROTOCOL_VERSION status_ok HANDOVER_EINTEGRITY.

Definition store_status : O → handover_status_t → Z * O :=
store_record HANDOVER_PROTOCOL_VERSION status_ok HANDOVER_EINTEGRITY.

Definition handover_attach_fence_backend (h : handover_t)
(backend : option handover_fence_backend_t) : Z * handover_t :=
match backend with
| None => (HANDOVER_EINVAL, h)
| Some backend =>
  if backend_attached h || initialized h ||
     match request_fence backend with None => true | _ => false end ||
     match fence_confirmed backend with None => true | _ => false end
  then (HANDOVER_EINVAL, h)
  else (0, Handover (protected_status h) (initialized h) true backend)
end.

Definition handover_init_replica (h : handover_t)
(active_node standby_node lease_ms epoch transition_sequence now_ms : Z)
: Z * handover_t :=
if negb (backend_attached h) then (HANDOVER_ENODEV, h)
else if initialized h || (active_node =? 0) || (standby_node =? 0) ||
 (active_node =? standby_node) || (lease_ms <? HANDOVER_MIN_LEASE_MS) ||
 (HANDOVER_MAX_LEASE_MS <? lease_ms) || (epoch =? 0) ||
 (transition_sequence =? 0)
then (HANDOVER_EINVAL, h)
else
let status :=
  Status HANDOVER_PROTOCOL_VERSION (Z.of_nat (sizeof handover_status_t)) active_node
    standby_node lease_ms 0 epoch (deadline_after now_ms lease_ms) 0
    transition_sequence in
let '(result, store) :=
  ps_init (protected_status h) HANDOVER_PROTOCOL_VERSION (Some (encode status)) in
let result := if result =? 0 then 0 else HANDOVER_EINTEGRITY in
(result,
 Handover store (if result =? 0 then true else initialized h) (backend_attached h)
   (fence_backend h)).

Definition handover_init (h : handover_t) (active_node standby_node lease_ms now_ms : Z)
: Z * handover_t :=
handover_init_replica h active_node standby_node lease_ms 1 1 now_ms.

Definition handover_snapshot (h : handover_t) (status_out : handover_status_t)
: Z * handover_t * handover_status_t :=
if negb (initialized h) then (HANDOVER_EINVAL, h, status_out)
else
let '(result, store, status_out) := load_status (protected_status h) status_out in
(result, set_status h store, status_out).

Definition handover_renew (h : handover_t) (node expected_epoch now_ms : Z)
: Z * handover_t :=
if negb (initialized h) || (node =? 0) || (expected_epoch =? 0)
then (HANDOVER_EINVAL, h)
else
let '(result, store, status) := load_status (protected_status h) zero_status in
let result :=
  if (result =? 0) &&
     (negb (node =? active_node status) || negb (expected_epoch =? epoch status))
  then HANDOVER_EACCES else result in
let result :=
  if (result =? 0) && (lease_deadline_ms status <=? now_ms)
  then HANDOVER_EAGAIN else result in
let result :=
  if (result =? 0) && (transition_sequence status =? UINT64_MAX)
  then HANDOVER_EOVERFLOW else result in
if result =? 0 then
  let status :=
    Status (version status) (struct_size status) (active_node status)
      (standby_node status) (lease_ms status) (reserved status) (epoch status)
      (deadline_after now_ms (lease_ms status)) (fenced_epoch status)
      (transition_sequence status + 1) in
  let '(result, store) := store_status store status in
  (result, set_status h store)
else (result, set_status h store).

(** What a confirmation carries from its first locked part to the second: the
fencing target, the epoch, the sequence seen, and the caller's time. *)
Record ticket := Ticket {
t_active : Z;
t_epoch : Z;
t_sequence : Z;
t_now : Z
}.

Definition confirm_begin (h : handover_t) (expected_epoch now_ms : Z)
: (Z + ticket) * handover_t :=
if negb (initialized h) || negb (backend_attached h) || (expected_epoch =? 0)
then (inl HANDOVER_EINVAL, h)
else
let '(result, store, status) := load_status (protected_status h) zero_status in
let result :=
  if (result =? 0) && negb (expected_epoch =? epoch status)
  then HANDOVER_EACCES else result in
let result :=
  if (result =? 0) && (now_ms <? lease_deadline_ms status)
  then HANDOVER_EAGAIN else result in
(if negb (result =? 0) then inl result
 else inr (Ticket (active_node status) expected_epoch (transition_sequence status) now_ms),
 set_status h store).

Definition confirm_finish (h : handover_t) (t : ticket) : Z * handover_t :=
let '(result, store, status) := load_status (protected_status h) zero_status in
let result :=
if (result =? 0) &&
   (negb (epoch status =? t_epoch t) || negb (active_node status =? t_active t) ||
    negb (transition_sequence status =? t_sequence t) ||
    (t_now t <? lease_deadline_ms status))
then HANDOVER_EAGAIN else result in
if (result =? 0) && (fenced_epoch status =? epoch status) then (0, set_status h store)
else
let result :=
  if (result =? 0) && (transition_sequence status =? UINT64_MAX)
  then HANDOVER_EOVERFLOW else result in
if result =? 0 then
  let status :=
    Status (version status) (struct_size status) (active_node status)
      (standby_node status) (lease_ms status) (reserved status) (epoch status)
      (lease_deadline_ms status) (epoch status) (transition_sequence status + 1) in
  let '(result, store) := store_status store status in
  (result, set_status h store)
else (result, set_status h store).

Definition handover_confirm_fenced (h : handover_t) (world : W)
(expected_epoch now_ms : Z) : Z * handover_t * W :=
match confirm_begin h expected_epoch now_ms with
| (inl result, h) => (result, h, world)
| (inr t, h) =>
  let '(confirmed, world) :=
    backend_call (fence_confirmed (fence_backend h)) world (t_active t) expected_epoch in
  if negb confirmed then (HANDOVER_EAGAIN, h, world)
  else
    let '(result, h) := confirm_finish h t in
    (result, h, world)
end.

Definition handover_request_fence (h : handover_t) (world : W)
(expected_epoch now_ms : Z) : Z * handover_t * W :=
match confirm_begin h expected_epoch now_ms with
| (inl result, h) => (result, h, world)
| (inr t, h) =>
  let '(requested, world) :=
    backend_call (request_fence (fence_backend h)) world (t_active t) expected_epoch in
  (if requested then 0 else HANDOVER_EAGAIN, h, world)
end.

Definition handover_takeover (h : handover_t) (candidate_node expected_epoch now_ms : Z)
: Z * handover_t :=
if negb (initialized h) || (candidate_node =? 0) || (expected_epoch =? 0)
then (HANDOVER_EINVAL, h)
else
let '(result, store, status) := load_status (protected_status h) zero_status in
let result :=
  if (result =? 0) &&
     (negb (candidate_node =? standby_node status) ||
      negb (expected_epoch =? epoch status))
  then HANDOVER_EACCES else result in
let result :=
  if (result =? 0) &&
     ((now_ms <? lease_deadline_ms status) ||
      negb (fenced_epoch status =? epoch status))
  then HANDOVER_EAGAIN else result in
let result :=
  if (result =? 0) &&
     ((epoch status =? UINT64_MAX) || (transition_sequence status =? UINT64_MAX))
  then HANDOVER_EOVERFLOW else result in
if result =? 0 then
  let status :=
    Status (version status) (struct_size status) (standby_node status)
      (active_node status) (lease_ms status) (reserved status) (epoch status + 1)
      (deadline_after now_ms (lease_ms status)) 0 (transition_sequence status + 1) in
  let '(result, store) := store_status store status in
  (result, set_status h store)
else (result, set_status h store).
End operations.

#[global] Arguments handover_t : clear implicits.
#[global] Arguments handover_fence_backend_t : clear implicits.
End Handover.

Import Handover.

#[export] Instance status_layout_laws : LayoutLaws handover_status_t.
Proof.
  constructor.
  - done.
  - by intros [].
  - intros values Hl. do 10 (destruct values as [|? values]; [done|]).
    by destruct values.
Qed.

Lemma status_typed (s : handover_status_t) :
  well_typed s ↔
  is_u32 (version s) ∧ is_u32 (struct_size s) ∧ is_u32 (active_node s) ∧
  is_u32 (standby_node s) ∧ is_u32 (lease_ms s) ∧ is_u32 (reserved s) ∧
  is_u64 (epoch s) ∧ is_u64 (lease_deadline_ms s) ∧ is_u64 (fenced_epoch s) ∧
  is_u64 (transition_sequence s).
Proof.
  unfold well_typed. cbn [layout_widths layout_values status_layout fields_ok].
  change (256 ^ Z.of_nat 4) with 4294967296. change (256 ^ Z.of_nat 8) with 18446744073709551616.
  unfold_words. tauto.
Qed.

Lemma status_ok_spec s :
  status_ok s = true ↔
  version s = 1 ∧ struct_size s = 56 ∧ active_node s ≠ 0 ∧ standby_node s ≠ 0 ∧
  active_node s ≠ standby_node s ∧ 10 <= lease_ms s <= 10000 ∧ reserved s = 0 ∧
  epoch s ≠ 0 ∧ lease_deadline_ms s ≠ 0 ∧
  (fenced_epoch s = 0 ∨ fenced_epoch s = epoch s) ∧ transition_sequence s ≠ 0.
Proof.
  unfold status_ok.
  rewrite !andb_true_iff, orb_true_iff, !negb_true_iff, !Z.eqb_neq, !Z.eqb_eq, !Z.leb_le.
  change (Z.of_nat (sizeof handover_status_t)) with 56.
  unfold HANDOVER_PROTOCOL_VERSION, HANDOVER_MIN_LEASE_MS, HANDOVER_MAX_LEASE_MS. tauto.
Qed.

Lemma deadline_after_range now lease :
  is_u64 now → 10 <= lease → is_u64 (deadline_after now lease) ∧ now <= deadline_after now lease ∧
  deadline_after now lease ≠ 0.
Proof. unfold deadline_after, UINT64_MAX. intros. destruct (Z.ltb_spec (18446744073709551615 - now) lease); ulia. Qed.

Section handover.
Context {O : Type} `{ProtectedStoreLaws O} {W : Type}.
Implicit Types (h : handover_t O W).

Definition store_holds : O → Z → handover_status_t → Prop :=
record_holds HANDOVER_PROTOCOL_VERSION status_ok.

Lemma status_size : (0 < sizeof handover_status_t <= 64)%nat.
Proof. vm_compute. lia. Qed.

Lemma load_spec store n s buffer :
store_holds store n s →
∃ store', load_status store buffer = (0, store', s) ∧ store_holds store' n s.
Proof. apply load_record_spec; [easy|done|apply status_size]. Qed.

Lemma store_spec store n s s' :
store_holds store n s → well_typed s' → status_ok s' = true →
let '(result, store') := store_status store s' in
(result = 0 ∧ ∃ n', store_holds store' n' s' ∧ (n < UINT32_MAX → n' = n + 1)) ∨
(result = HANDOVER_EINTEGRITY ∧ UINT32_MAX <= n ∧ store_holds store' n s).
Proof. apply store_record_spec; [easy|done|apply status_size]. Qed.

(** ** The operations on an intact store *)
Definition holds_at h (n : Z) (s : handover_status_t) : Prop :=
initialized h = true ∧ store_holds (protected_status h) n s.

Definition holds h (s : handover_status_t) : Prop := ∃ n, holds_at h n s.

(** The fields an operation leaves alone. *)
Definition same_wiring h h' : Prop :=
initialized h' = initialized h ∧ backend_attached h' = backend_attached h ∧
fence_backend h' = fence_backend h.

Definition renewed (s : handover_status_t) (now_ms : Z) : handover_status_t :=
Status (version s) (struct_size s) (active_node s) (standby_node s) (lease_ms s)
  (reserved s) (epoch s) (deadline_after now_ms (lease_ms s)) (fenced_epoch s)
  (transition_sequence s + 1).

Definition fenced (s : handover_status_t) : handover_status_t :=
Status (version s) (struct_size s) (active_node s) (standby_node s) (lease_ms s)
  (reserved s) (epoch s) (lease_deadline_ms s) (epoch s) (transition_sequence s + 1).

Definition taken_over (s : handover_status_t) (now_ms : Z) : handover_status_t :=
Status (version s) (struct_size s) (standby_node s) (active_node s) (lease_ms s)
  (reserved s) (epoch s + 1) (deadline_after now_ms (lease_ms s)) 0
  (transition_sequence s + 1).

(** What each operation may answer, as a function of the status alone. *)
Definition renew_answer (s : handover_status_t) (node expected_epoch now_ms : Z) : Z :=
if (node =? 0) || (expected_epoch =? 0) then HANDOVER_EINVAL
else if negb (node =? active_node s) || negb (expected_epoch =? epoch s) then HANDOVER_EACCES
else if lease_deadline_ms s <=? now_ms then HANDOVER_EAGAIN
else if transition_sequence s =? UINT64_MAX then HANDOVER_EOVERFLOW
else 0.

Definition takeover_answer (s : handover_status_t) (candidate expected_epoch now_ms : Z) : Z :=
if (candidate =? 0) || (expected_epoch =? 0) then HANDOVER_EINVAL
else if negb (candidate =? standby_node s) || negb (expected_epoch =? epoch s)
then HANDOVER_EACCES
else if (now_ms <? lease_deadline_ms s) || negb (fenced_epoch s =? epoch s)
then HANDOVER_EAGAIN
else if (epoch s =? UINT64_MAX) || (transition_sequence s =? UINT64_MAX)
then HANDOVER_EOVERFLOW
else 0.

Definition transition h' : Z → handover_status_t → handover_status_t → Z → Z → Prop :=
record_transition HANDOVER_EINTEGRITY (holds_at h').

Lemma renewed_ok s now :
well_typed s → status_ok s = true → is_u64 now → transition_sequence s ≠ UINT64_MAX →
well_typed (renewed s now) ∧ status_ok (renewed s now) = true.
Proof.
rewrite !status_typed, !status_ok_spec. unfold UINT64_MAX. cbn. intros Ht Hok Hnow Hseq.
destruct (deadline_after_range now (lease_ms s) Hnow) as (? & ? & ?); [lia|].
destruct Ht as (?&?&?&?&?&?&?&?&?&?). destruct Hok as (?&?&?&?&?&?&?&?&?&?&?).
split; repeat (split; [done|]); try done; ulia.
Qed.

Lemma fenced_ok s :
well_typed s → status_ok s = true → transition_sequence s ≠ UINT64_MAX →
well_typed (fenced s) ∧ status_ok (fenced s) = true.
Proof.
rewrite !status_typed, !status_ok_spec. unfold UINT64_MAX. cbn. intros Ht Hok Hseq.
destruct Ht as (?&?&?&?&?&?&?&?&?&?). destruct Hok as (?&?&?&?&?&?&?&?&?&?&?).
split; repeat (split; [done || (by right)|]); try done; ulia.
Qed.

Lemma taken_over_ok s now :
well_typed s → status_ok s = true → is_u64 now → epoch s ≠ UINT64_MAX →
transition_sequence s ≠ UINT64_MAX →
well_typed (taken_over s now) ∧ status_ok (taken_over s now) = true.
Proof.
rewrite !status_typed, !status_ok_spec. unfold UINT64_MAX. cbn. intros Ht Hok Hnow He Hseq.
destruct (deadline_after_range now (lease_ms s) Hnow) as (? & ? & ?); [lia|].
destruct Ht as (?&?&?&?&?&?&?&?&?&?). destruct Hok as (?&?&?&?&?&?&?&?&?&?&?).
split; repeat (split; [done || ulia || (by left)|]); try done; ulia.
Qed.

(** A guard that fires decides the answer; otherwise the next one is reached. *)
Ltac answered := (split; [by left|done]).
Ltac next_guard := change (0 =? 0) with true; cbn [andb].

Lemma renew_spec h n s node expected_epoch now_ms :
holds_at h n s → is_u64 now_ms →
let '(result, h') := handover_renew h node expected_epoch now_ms in
transition h' n s (renewed s now_ms) (renew_answer s node expected_epoch now_ms) result ∧
same_wiring h h'.
Proof.
intros [Hi Hs] Hnow. unfold handover_renew, renew_answer. rewrite Hi. cbn [negb orb].
destruct ((node =? 0) || (expected_epoch =? 0)).
{ answered. }
destruct (load_spec _ n s zero_status Hs) as (store' & -> & Hs').
change (0 =? 0) with true. cbn [andb].
destruct (negb (node =? active_node s) || negb (expected_epoch =? epoch s)).
{ answered. }
next_guard.
destruct (lease_deadline_ms s <=? now_ms).
{ answered. }
next_guard.
destruct (Z.eqb_spec (transition_sequence s) UINT64_MAX) as [|Hseq].
{ answered. }
change (0 =? 0) with true. cbv iota.
fold (renewed s now_ms).
destruct (renewed_ok s now_ms) as [? ?]; [apply Hs|apply Hs|done|done|].
pose proof (store_spec store' n s (renewed s now_ms) Hs') as Hst.
destruct (store_status _ _) as [result store2].
split; [|by destruct Hst].
by destruct Hst as [(-> & n' & ? & ?)|(-> & ? & ?)]; [done|done|..]; right;
  [right; split_and!; [..|exists n']|left].
Qed.

Lemma takeover_spec h n s candidate expected_epoch now_ms :
holds_at h n s → is_u64 now_ms →
let '(result, h') := handover_takeover h candidate expected_epoch now_ms in
transition h' n s (taken_over s now_ms) (takeover_answer s candidate expected_epoch now_ms)
  result ∧
same_wiring h h'.
Proof.
intros [Hi Hs] Hnow. unfold handover_takeover, takeover_answer. rewrite Hi. cbn [negb orb].
destruct ((candidate =? 0) || (expected_epoch =? 0)).
{ answered. }
destruct (load_spec _ n s zero_status Hs) as (store' & -> & Hs').
change (0 =? 0) with true. cbn [andb].
destruct (negb (candidate =? standby_node s) || negb (expected_epoch =? epoch s)).
{ answered. }
next_guard.
destruct ((now_ms <? lease_deadline_ms s) || negb (fenced_epoch s =? epoch s)).
{ answered. }
next_guard.
destruct (Z.eqb_spec (epoch s) UINT64_MAX) as [|He].
{ answered. }
destruct (Z.eqb_spec (transition_sequence s) UINT64_MAX) as [|Hseq].
{ answered. }
change (0 =? 0) with true. cbv iota. cbn [orb].
fold (taken_over s now_ms).
destruct (taken_over_ok s now_ms) as [? ?]; [apply Hs|apply Hs|done|done|done|].
pose proof (store_spec store' n s (taken_over s now_ms) Hs') as Hst.
change (0 =? 0) with true. cbv iota.
destruct (store_status _ _) as [result store2].
split; [|by destruct Hst].
by destruct Hst as [(-> & n' & ? & ?)|(-> & ? & ?)]; [done|done|..]; right;
  [right; split_and!; [..|exists n']|left].
Qed.

(** *** The two parts of a confirmation *)
Definition begin_answer h (s : handover_status_t) (expected_epoch now_ms : Z) : Z :=
if negb (backend_attached h) || (expected_epoch =? 0) then HANDOVER_EINVAL
else if negb (expected_epoch =? epoch s) then HANDOVER_EACCES
else if now_ms <? lease_deadline_ms s then HANDOVER_EAGAIN
else 0.

Lemma begin_spec h n s expected_epoch now_ms :
holds_at h n s →
let '(answer, h') := confirm_begin h expected_epoch now_ms in
holds_at h' n s ∧ same_wiring h h' ∧
answer =
  (if begin_answer h s expected_epoch now_ms =? 0
   then inr (Ticket (active_node s) expected_epoch (transition_sequence s) now_ms)
   else inl (begin_answer h s expected_epoch now_ms)).
Proof.
intros [Hi Hs]. unfold confirm_begin, begin_answer. rewrite Hi. cbn [negb orb].
destruct (negb (backend_attached h) || (expected_epoch =? 0)); [done|].
destruct (load_spec _ n s zero_status Hs) as (store' & -> & Hs').
next_guard. destruct (negb (expected_epoch =? epoch s)); [done|].
next_guard. by destruct (now_ms <? lease_deadline_ms s).
Qed.

Lemma begin_answer_0 h s expected_epoch now_ms :
begin_answer h s expected_epoch now_ms = 0 →
expected_epoch = epoch s ∧ lease_deadline_ms s <= now_ms.
Proof.
unfold begin_answer. destruct (_ || _); [done|].
destruct (Z.eqb_spec expected_epoch (epoch s)); [|done]. cbn [negb].
destruct (Z.ltb_spec now_ms (lease_deadline_ms s)); [done|auto].
Qed.

(** The status has not moved since the first part. *)
Definition current (s : handover_status_t) (t : ticket) : bool :=
(epoch s =? t_epoch t) && (active_node s =? t_active t) &&
(transition_sequence s =? t_sequence t) && (lease_deadline_ms s <=? t_now t).

Definition finish_answer (s : handover_status_t) (t : ticket) : Z :=
if negb (current s t) then HANDOVER_EAGAIN
else if transition_sequence s =? UINT64_MAX then HANDOVER_EOVERFLOW
else 0.

Lemma finish_spec h n s t :
holds_at h n s →
let '(result, h') := confirm_finish h t in
same_wiring h h' ∧
(if current s t && (fenced_epoch s =? epoch s) then result = 0 ∧ holds_at h' n s
 else transition h' n s (fenced s) (finish_answer s t) result).
Proof.
intros [Hi Hs]. unfold confirm_finish, finish_answer.
destruct (load_spec _ n s zero_status Hs) as (store' & -> & Hs'). next_guard.
replace (_ || _ || _ || _) with (negb (current s t))
  by (unfold current; by rewrite !negb_andb, <- Z.ltb_antisym).
destruct (current s t); cbn [negb andb]; [|by split; [|left]].
next_guard. destruct (fenced_epoch s =? epoch s); [done|]. next_guard.
destruct (Z.eqb_spec (transition_sequence s) UINT64_MAX) as [|Hseq].
{ by split; [|left]. }
change (0 =? 0) with true. cbv iota. fold (fenced s).
destruct (fenced_ok s) as [? ?]; [apply Hs|apply Hs|done|].
pose proof (store_spec store' n s (fenced s) Hs') as Hst.
destruct (store_status _ _) as [result store2].
split; [done|].
by destruct Hst as [(-> & n' & ? & ?)|(-> & ? & ?)]; [done|done|..]; right;
  [right; split_and!; [..|exists n']|left].
Qed.

Lemma current_spec s t :
current s t = true ↔
epoch s = t_epoch t ∧ active_node s = t_active t ∧
transition_sequence s = t_sequence t ∧ lease_deadline_ms s <= t_now t.
Proof. unfold current. rewrite !andb_true_iff, !Z.eqb_eq, Z.leb_le. tauto. Qed.

(** An intact store has one value. *)
Lemma holds_functional h s1 s2 : holds h s1 → holds h s2 → s1 = s2.
Proof.
intros (n1 & _ & H1) (n2 & _ & H2).
destruct (load_spec _ _ s1 zero_status H1) as (? & E1 & _).
destruct (load_spec _ _ s2 zero_status H2) as (? & E2 & _). congruence.
Qed.

(** ** The running system

  Every locked part is one step; confirmations in flight are tickets, first
  [begun], then [confirmed] by the backend.  [fences] records what the
  backend confirmed, [clock] the latest time any caller used: time does not
  run backwards between locked parts. *)
Record system := System {
node_state : handover_t O W;
world : W;
begun : list ticket;
confirmed : list ticket;
fences : list (Z * Z);
clock : Z
}.

Definition ask_backend (sys : system) (t : ticket) : bool * W :=
backend_call (fence_confirmed (fence_backend (node_state sys))) (world sys)
  (t_active t) (t_epoch t).

Inductive step (sys : system) : system → Prop :=
| step_renew node expected_epoch now_ms :
  clock sys <= now_ms → is_u64 now_ms →
  step sys (System (handover_renew (node_state sys) node expected_epoch now_ms).2
              (world sys) (begun sys) (confirmed sys) (fences sys) now_ms)
| step_takeover candidate expected_epoch now_ms :
  clock sys <= now_ms → is_u64 now_ms →
  step sys (System (handover_takeover (node_state sys) candidate expected_epoch now_ms).2
              (world sys) (begun sys) (confirmed sys) (fences sys) now_ms)
| step_request expected_epoch now_ms :
  clock sys <= now_ms → is_u64 now_ms →
  step sys (System
    (handover_request_fence (node_state sys) (world sys) expected_epoch now_ms).1.2
    (handover_request_fence (node_state sys) (world sys) expected_epoch now_ms).2
    (begun sys) (confirmed sys) (fences sys) now_ms)
| step_snapshot status_out :
  step sys (System (handover_snapshot (node_state sys) status_out).1.2
              (world sys) (begun sys) (confirmed sys) (fences sys) (clock sys))
| step_begin expected_epoch now_ms t h' :
  clock sys <= now_ms → is_u64 now_ms →
  confirm_begin (node_state sys) expected_epoch now_ms = (inr t, h') →
  step sys (System h' (world sys) (t :: begun sys) (confirmed sys) (fences sys) now_ms)
| step_confirmed before t after :
  begun sys = before ++ t :: after → (ask_backend sys t).1 = true →
  step sys (System (node_state sys) (ask_backend sys t).2 (before ++ after)
              (t :: confirmed sys) ((t_active t, t_epoch t) :: fences sys) (clock sys))
| step_not_confirmed before t after :
  begun sys = before ++ t :: after → (ask_backend sys t).1 = false →
  step sys (System (node_state sys) (ask_backend sys t).2 (before ++ after)
              (confirmed sys) (fences sys) (clock sys))
| step_finish before t after :
  confirmed sys = before ++ t :: after →
  step sys (System (confirm_finish (node_state sys) t).2 (world sys) (begun sys)
              (before ++ after) (fences sys) (clock sys)).

Inductive reachable : system → Prop :=
| reachable_start h w backend active standby lease e seq now_ms h1 h2 :
  handover_attach_fence_backend h (Some backend) = (0, h1) →
  handover_init_replica h1 active standby lease e seq now_ms = (0, h2) →
  is_u32 active → is_u32 standby → is_u32 lease → is_u64 e → is_u64 seq → is_u64 now_ms →
  reachable (System h2 w [] [] [] now_ms)
| reachable_step sys sys' : reachable sys → step sys sys' → reachable sys'.

(** How the status moves: the epoch grows or the active node stays. *)
Definition advances (s s' : handover_status_t) : Prop :=
epoch s < epoch s' ∨ (epoch s = epoch s' ∧ active_node s = active_node s').

Lemma advances_refl s : advances s s.
Proof. by right. Qed.

Lemma advances_trans s1 s2 s3 : advances s1 s2 → advances s2 s3 → advances s1 s3.
Proof. unfold advances. intros [?|[??]] [?|[??]]; [left; lia..|right; split; congruence]. Qed.

(** What confirmations and fences mean in state [s]. *)
Definition fencing_ok (s : handover_status_t) (sys : system) : Prop :=
(fenced_epoch s = epoch s →
   In (active_node s, epoch s) (fences sys) ∧ lease_deadline_ms s <= clock sys) ∧
Forall (λ t, t_now t <= clock sys) (begun sys) ∧
Forall (λ t, In (t_active t, t_epoch t) (fences sys) ∧ t_now t <= clock sys)
  (confirmed sys).

Lemma tickets_later (P : ticket → Prop) ts c now :
c <= now → Forall (λ t, P t ∧ t_now t <= c) ts → Forall (λ t, P t ∧ t_now t <= now) ts.
Proof. intros Hle. apply Forall_impl. intros t [? ?]. split; [done|lia]. Qed.

(** A step that leaves the tickets alone keeps [fencing_ok], provided its new
  status is fenced only when it was. *)
Lemma fencing_later s s' sys h' w' now_ms :
fencing_ok s sys → clock sys <= now_ms →
(fenced_epoch s' = epoch s' → s' = s) →
fencing_ok s' (System h' w' (begun sys) (confirmed sys) (fences sys) now_ms).
Proof.
intros (Hf & Hb & Hc) Hle Hs. split; [|split]; cbn.
- intros He. pose proof (Hs He) as ->. destruct (Hf He). split; [done|lia].
- revert Hb. apply Forall_impl. lia.
- by eapply tickets_later.
Qed.

Lemma transition_later h' w' sys n s s' answer result now_ms :
fencing_ok s sys → clock sys <= now_ms →
(answer = 0 → fenced_epoch s' ≠ epoch s' ∧ advances s s') →
transition h' n s s' answer result →
∃ s'', holds h' s'' ∧ advances s s'' ∧
  fencing_ok s'' (System h' w' (begun sys) (confirmed sys) (fences sys) now_ms).
Proof.
intros Hok Hle Ha [(_ & _ & ?)|[(_ & _ & _ & ?)|(Heq & _ & n' & ? & _)]].
- exists s. split; [by exists n|]. eauto using fencing_later, advances_refl.
- exists s. split; [by exists n|]. eauto using fencing_later, advances_refl.
- destruct (Ha Heq). exists s'. split; [by exists n'|]. split; [done|].
  by eapply fencing_later.
Qed.

Lemma renew_answer_0 s node e now_ms :
renew_answer s node e now_ms = 0 → node = active_node s ∧ now_ms < lease_deadline_ms s.
Proof.
unfold renew_answer. destruct (_ || _); [done|].
destruct (Z.eqb_spec node (active_node s)); [|done].
destruct (negb (e =? epoch s)); [done|]. cbn [negb orb].
destruct (Z.leb_spec (lease_deadline_ms s) now_ms); done.
Qed.

Lemma takeover_answer_0 s candidate e now_ms :
takeover_answer s candidate e now_ms = 0 →
candidate = standby_node s ∧ e = epoch s ∧ lease_deadline_ms s <= now_ms ∧
fenced_epoch s = epoch s ∧ epoch s ≠ UINT64_MAX.
Proof.
unfold takeover_answer. destruct (_ || _); [done|].
destruct (Z.eqb_spec candidate (standby_node s)), (Z.eqb_spec e (epoch s)); try done.
destruct (Z.ltb_spec now_ms (lease_deadline_ms s)), (Z.eqb_spec (fenced_epoch s) (epoch s));
  try done. cbn [negb orb].
destruct (Z.eqb_spec (epoch s) UINT64_MAX); done.
Qed.

Lemma finish_answer_0 s t : finish_answer s t = 0 → current s t = true.
Proof. unfold finish_answer. by destruct (current s t). Qed.

Lemma request_spec h s w expected_epoch now_ms :
holds h s → holds (handover_request_fence h w expected_epoch now_ms).1.2 s.
Proof.
intros [n Hh]. exists n. unfold handover_request_fence.
pose proof (begin_spec h n s expected_epoch now_ms Hh) as Hb.
destruct (confirm_begin h expected_epoch now_ms) as [[r|t] h']; [apply Hb|].
destruct (backend_call _ _ _ _). apply Hb.
Qed.

Lemma snapshot_spec h s status_out :
holds h s →
∃ h', handover_snapshot h status_out = (0, h', s) ∧ holds h' s ∧ same_wiring h h'.
Proof.
intros (n & Hi & Hs). unfold handover_snapshot. rewrite Hi. cbn [negb].
destruct (load_spec _ n s status_out Hs) as (store' & -> & Hs').
eexists. split; [done|]. split; [by exists n|done].
Qed.

Lemma holds_status_ok h s : holds h s → status_ok s = true.
Proof. by intros (_ & _ & _ & _ & ?). Qed.

Lemma step_finish_ok sys s before t after :
holds (node_state sys) s → fencing_ok s sys → confirmed sys = before ++ t :: after →
∃ s', holds (confirm_finish (node_state sys) t).2 s' ∧ advances s s' ∧
  fencing_ok s' (System (confirm_finish (node_state sys) t).2 (world sys) (begun sys)
    (before ++ after) (fences sys) (clock sys)).
Proof.
intros [n Hh] (Hf & Hb & Hc) Heq. rewrite Heq in Hc.
apply Forall_app in Hc as [Hc1 Hc2]. apply Forall_cons_1 in Hc2 as [[Ht Htn] Hc2].
assert (Hrest : Forall (λ t, In (t_active t, t_epoch t) (fences sys) ∧ t_now t <= clock sys)
    (before ++ after)) by (by apply Forall_app).
pose proof (finish_spec _ n s t Hh) as Hfin.
destruct (confirm_finish (node_state sys) t) as [result h']. destruct Hfin as [_ Hfin].
destruct (current s t && (fenced_epoch s =? epoch s)).
{ exists s. split; [exists n; apply Hfin|]. split; [apply advances_refl|done]. }
destruct Hfin as [(_ & _ & ?)|[(_ & _ & _ & ?)|(Ha & _ & n' & ? & _)]];
  [exists s; (split; [by exists n|]); (split; [apply advances_refl|done])..|].
exists (fenced s). split; [by exists n'|]. split; [by right|].
apply finish_answer_0, current_spec in Ha as (He & Hact & _ & Hd).
split; [|done]. cbn. intros _. rewrite Hact, He. split; [done|lia].
Qed.

Lemma step_ok sys sys' s :
holds (node_state sys) s → fencing_ok s sys → step sys sys' →
∃ s', holds (node_state sys') s' ∧ advances s s' ∧ fencing_ok s' sys'.
Proof.
intros Hh Hok Hstep. pose proof (proj1 (status_ok_spec s) (holds_status_ok _ _ Hh)) as Hs.
destruct Hstep as [node e now_ms Hle Hnow|cand e now_ms Hle Hnow|e now_ms Hle Hnow|out
  |e now_ms t h' Hle Hnow Hb|before t after Heq Hans|before t after Heq Hans
  |before t after Heq]; cbn [node_state].
- destruct Hh as [n Hh]. pose proof (renew_spec _ n s node e now_ms Hh Hnow) as Ht.
  destruct (handover_renew _ _ _ _) as [result h']. destruct Ht as [Ht _].
  eapply transition_later; [done|done| |exact Ht].
  intros [_ Hlt]%renew_answer_0. split; [|by right]. cbn.
  intros He. destruct Hok as [Hf _]. destruct (Hf He). lia.
- destruct Hh as [n Hh]. pose proof (takeover_spec _ n s cand e now_ms Hh Hnow) as Ht.
  destruct (handover_takeover _ _ _ _) as [result h']. destruct Ht as [Ht _].
  eapply transition_later; [done|done| |exact Ht].
  intros _. destruct Hh as (_ & _ & Hty & _). apply status_typed in Hty.
  split; [cbn; ulia|left; cbn; lia].
- exists s. split; [by apply request_spec|]. split; [apply advances_refl|].
  by eapply fencing_later.
- exists s. destruct (snapshot_spec _ s out Hh) as (h' & -> & Hh' & _).
  split; [done|]. split; [apply advances_refl|]. eapply fencing_later; [done|lia|done].
- destruct Hh as [n Hh]. pose proof (begin_spec _ n s e now_ms Hh) as Hspec. rewrite Hb in Hspec.
  destruct Hspec as (Hh' & _ & Ht). exists s. split; [by exists n|]. split; [apply advances_refl|].
  assert (t_now t = now_ms) as Htn by (destruct (_ =? 0) in Ht; [by injection Ht as ->|done]).
  destruct (fencing_later s s sys h' (world sys) now_ms Hok Hle ltac:(done)) as (Hf & Hbg & Hc).
  split; [done|]. split; [|done]. constructor; [cbn; lia|done].
- exists s. split; [done|]. split; [apply advances_refl|].
  destruct Hok as (Hf & Hb & Hc). rewrite Heq in Hb.
  apply Forall_app in Hb as [Hb1 Hb2]. apply Forall_cons_1 in Hb2 as [Ht Hb2].
  split; [|split]; cbn.
  + intros He. destruct (Hf He). auto.
  + by apply Forall_app.
  + constructor; [auto|]. revert Hc. apply Forall_impl. tauto.
- exists s. split; [done|]. split; [apply advances_refl|].
  destruct Hok as (Hf & Hb & Hc). rewrite Heq in Hb.
  apply Forall_app in Hb as [Hb1 Hb2]. apply Forall_cons_1 in Hb2 as [Ht Hb2].
  split; [done|]. split; [|done]. by apply Forall_app.
- by apply step_finish_ok.
Qed.

Lemma init_spec h active standby lease e seq now_ms h' :
handover_init_replica h active standby lease e seq now_ms = (0, h') →
is_u32 active → is_u32 standby → is_u32 lease → is_u64 e → is_u64 seq → is_u64 now_ms →
∃ s, holds_at h' 1 s ∧ active_node s = active ∧ standby_node s = standby ∧ epoch s = e ∧
  fenced_epoch s = 0 ∧ lease_deadline_ms s = deadline_after now_ms lease ∧
  backend_attached h' = true ∧ fence_backend h' = fence_backend h ∧ epoch s ≠ 0.
Proof.
intros Hinit Ha Hst Hl He Hseq Hnow. unfold handover_init_replica in Hinit.
destruct (backend_attached h) eqn:Hb; [|done]. cbn [negb] in Hinit.
destruct (_ || _) eqn:Hg in Hinit; [done|].
rewrite !orb_false_iff, !Z.eqb_neq, !Z.ltb_ge in Hg.
destruct Hg as (((((((_ & ?) & ?) & ?) & ?) & ?) & ?) & ?).
set (s := Status _ _ _ _ _ _ _ _ _ _) in Hinit. exists s.
unfold HANDOVER_MIN_LEASE_MS, HANDOVER_MAX_LEASE_MS in *.
destruct (deadline_after_range now_ms lease Hnow) as (? & ? & ?); [lia|].
assert (Hty : well_typed s) by (apply status_typed; cbn; split_and!; try done; ulia).
assert (Hok : status_ok s = true)
  by (apply status_ok_spec; cbn; split_and!; try done; by left).
destruct (init_record_spec HANDOVER_PROTOCOL_VERSION status_ok HANDOVER_EINTEGRITY ltac:(easy) ltac:(done)
  status_size (protected_status h) s Hty Hok) as (store' & Hi & Hh).
rewrite Hi in Hinit. cbn [Z.eqb] in Hinit. injection Hinit as <-.
split; [by split|]. by split_and!.
Qed.

Lemma reachable_ok sys :
reachable sys → ∃ s, holds (node_state sys) s ∧ fencing_ok s sys.
Proof.
induction 1 as [h w backend active standby lease e seq now_ms h1 h2 _ Hinit
  |sys sys' _ (s & Hh & Hok) Hstep].
- destruct (init_spec _ _ _ _ _ _ _ _ Hinit) as (s & Hh & _ & _ & He & Hf & _ & _ & _ & ?); [done..|].
  exists s. split; [by exists 1|]. split; [|done]. congruence.
- destruct (step_ok sys sys' s Hh Hok Hstep) as (s' & ? & _ & ?). eauto.
Qed.

Inductive steps : system → system → Prop :=
| steps_refl sys : steps sys sys
| steps_step sys1 sys2 sys3 : step sys1 sys2 → steps sys2 sys3 → steps sys1 sys3.

Lemma steps_reachable sys sys' : reachable sys → steps sys sys' → reachable sys'.
Proof. intros Hr Hsteps. induction Hsteps; eauto using reachable_step. Qed.

Lemma steps_advance sys sys' s :
steps sys sys' → holds (node_state sys) s → fencing_ok s sys →
∃ s', holds (node_state sys') s' ∧ advances s s'.
Proof.
intros Hsteps. revert s. induction Hsteps as [|sys1 sys2 sys3 Hst _ IH]; intros s Hh Hok.
- eauto using advances_refl.
- destruct (step_ok _ _ _ Hh Hok Hst) as (s2 & Hh2 & Ha & Hok2).
  destruct (IH s2 Hh2 Hok2) as (s3 & ? & ?). eauto using advances_trans.
Qed.

(** * Properties *)

(** C33: no split brain: in every run of the node whose callers read a clock that
  does not run backwards from one locked part to the next, whatever the
  interleaving of renewals, fencing and take-overs, two states of the same
  epoch have the same active node, and the epoch never decreases. *)
Theorem handover_one_active_per_epoch sys sys' s s' :
reachable sys → steps sys sys' →
holds (node_state sys) s → holds (node_state sys') s' →
epoch s <= epoch s' ∧ (epoch s = epoch s' → active_node s = active_node s').
Proof.
intros Hr Hsteps Hh Hh'. destruct (reachable_ok sys Hr) as (s0 & Hh0 & Hok).
rewrite <- (holds_functional _ _ _ Hh Hh0) in Hok.
destruct (steps_advance _ _ _ Hsteps Hh Hok) as (s'' & Hh'' & Ha).
rewrite (holds_functional _ _ _ Hh' Hh''). unfold advances in Ha. destruct Ha as [?|[??]]; [lia|].
split; [lia|done].
Qed.

(** C10: a take-over that succeeds in any reachable state was asked for by the
  standby node in the current epoch, after the lease expired and after the
  external fence of exactly the active node in exactly this epoch was confirmed;
  it swaps the roles and starts the next epoch unfenced with a full lease.  A
  take-over that fails changes nothing. *)
Theorem handover_takeover_needs_fence sys s candidate expected_epoch now_ms :
reachable sys → holds (node_state sys) s → is_u64 now_ms →
let '(result, h') := handover_takeover (node_state sys) candidate expected_epoch now_ms in
if result =? 0 then
  candidate = standby_node s ∧ expected_epoch = epoch s ∧
  lease_deadline_ms s <= now_ms ∧
  In (active_node s, epoch s) (fences sys) ∧ holds h' (taken_over s now_ms)
else holds h' s.
Proof.
intros Hr Hh Hnow. destruct (reachable_ok sys Hr) as (s0 & Hh0 & Hf & _).
rewrite <- (holds_functional _ _ _ Hh Hh0) in Hf.
destruct Hh as [n Hh].
pose proof (takeover_spec _ n s candidate expected_epoch now_ms Hh Hnow) as Ht.
destruct (handover_takeover _ _ _ _) as [result h']. destruct Ht as [Ht _].
destruct Ht as [(Hne & -> & ?)|[(_ & -> & _ & ?)|(Ha & -> & n' & ? & _)]].
- rewrite (proj2 (Z.eqb_neq _ _) Hne). by exists n.
- by exists n.
- apply takeover_answer_0 in Ha as (? & ? & ? & He & _). cbn. destruct (Hf He).
  split_and!; [done..|by exists n'].
Qed.

(** Once the active node is fenced its lease is over for good: no renewal by
  any node succeeds while the clock does not run backwards, and the status
  stays as it is. *)
Theorem handover_fenced_cannot_renew sys s node expected_epoch now_ms :
reachable sys → holds (node_state sys) s → fenced_epoch s = epoch s →
clock sys <= now_ms → is_u64 now_ms →
let '(result, h') := handover_renew (node_state sys) node expected_epoch now_ms in
result ≠ 0 ∧ holds h' s.
Proof.
intros Hr Hh He Hle Hnow. destruct (reachable_ok sys Hr) as (s0 & Hh0 & Hf & _).
rewrite <- (holds_functional _ _ _ Hh Hh0) in Hf.
destruct Hh as [n Hh].
pose proof (renew_spec _ n s node expected_epoch now_ms Hh Hnow) as Ht.
destruct (handover_renew _ _ _ _) as [result h']. destruct Ht as [Ht _].
destruct (Hf He) as [_ Hd].
destruct Ht as [(Hne & -> & ?)|[(_ & -> & _ & ?)|(Ha & _ & _)]];
  [by split; [|exists n]..|].
apply renew_answer_0 in Ha. lia.
Qed.

(** Requesting and confirming a fence of an expired lease. *)
Lemma confirm_completes h w n s now_ms fc :
holds_at h n s → backend_attached h = true →
fence_confirmed (fence_backend h) = Some fc →
(fc w (active_node s) (epoch s)).1 = true →
lease_deadline_ms s <= now_ms → n < UINT32_MAX → transition_sequence s < UINT64_MAX →
∃ h' w' n' s', handover_confirm_fenced h w (epoch s) now_ms = (0, h', w') ∧
  same_wiring h h' ∧ holds_at h' n' s' ∧ n' <= n + 1 ∧
  (s' = s ∧ fenced_epoch s = epoch s ∨ s' = fenced s).
Proof.
intros Hh Hb Hf Hans Hd Hn Hseq. unfold handover_confirm_fenced.
pose proof (proj1 (status_ok_spec s) (holds_status_ok h s (ex_intro _ n Hh))) as Hs.
pose proof (begin_spec h n s (epoch s) now_ms Hh) as Hbegin.
destruct (confirm_begin h (epoch s) now_ms) as [answer h1].
destruct Hbegin as (Hh1 & Hw1 & ->).
assert (begin_answer h s (epoch s) now_ms = 0) as ->.
{ unfold begin_answer. rewrite Hb, (proj2 (Z.eqb_neq (epoch s) 0)), Z.eqb_refl by tauto.
  by rewrite (proj2 (Z.ltb_ge _ _)) by lia. }
change (0 =? 0) with true. cbv iota. cbn [t_active].
pose proof Hw1 as (_ & _ & Hf1). rewrite Hf1, Hf. cbn [backend_call].
destruct (fc w (active_node s) (epoch s)) as [confirmed w'] eqn:E. cbn in Hans. subst confirmed.
cbn [negb]. set (t := Ticket _ _ _ _).
assert (Hcur : current s t = true) by (by apply current_spec).
pose proof (finish_spec h1 n s t Hh1) as Hfin.
destruct (confirm_finish h1 t) as [result h2]. destruct Hfin as [Hw2 Hfin].
assert (same_wiring h h2).
{ destruct Hw2 as (? & ? & ?). unfold same_wiring in Hw1. destruct Hw1 as (?&?&?).
  split_and!; congruence. }
rewrite Hcur in Hfin. cbn [andb] in Hfin.
destruct (Z.eqb_spec (fenced_epoch s) (epoch s)) as [Hfe|Hfe].
- destruct Hfin as [-> Hh2]. exists h2, w', n, s. split_and!; try done; [lia|by left].
- apply record_transition_0 in Hfin as [-> Hh2]; [| |done].
  + exists h2, w', (n + 1), (fenced s). split_and!; try done; by right.
  + unfold finish_answer. rewrite Hcur. cbn [negb].
    by rewrite (proj2 (Z.eqb_neq _ _)) by (unfold UINT64_MAX in *; lia).
Qed.

(** C37: the hand-over can happen: when the lease has expired and the backend
  answers, requesting the fence, confirming it and taking over all succeed and
  the standby node is active in the next epoch, as long as no counter is
  exhausted. *)
Theorem handover_completes h w n s now_ms rf fc :
holds_at h n s → backend_attached h = true →
request_fence (fence_backend h) = Some rf →
fence_confirmed (fence_backend h) = Some fc →
(∀ w, (rf w (active_node s) (epoch s)).1 = true) →
(∀ w, (fc w (active_node s) (epoch s)).1 = true) →
lease_deadline_ms s <= now_ms → is_u64 now_ms →
n + 1 < UINT32_MAX → epoch s < UINT64_MAX → transition_sequence s + 1 < UINT64_MAX →
let '(requested, h1, w1) := handover_request_fence h w (epoch s) now_ms in
let '(confirmed, h2, w2) := handover_confirm_fenced h1 w1 (epoch s) now_ms in
let '(taken, h3) := handover_takeover h2 (standby_node s) (epoch s) now_ms in
requested = 0 ∧ confirmed = 0 ∧ taken = 0 ∧
∃ s', holds h3 s' ∧ active_node s' = standby_node s ∧ standby_node s' = active_node s ∧
  epoch s' = epoch s + 1.
Proof.
intros Hh Hb Hrf Hfc Hr Hc Hd Hnow Hn He Hseq. unfold handover_request_fence.
pose proof (proj1 (status_ok_spec s) (holds_status_ok h s (ex_intro _ n Hh))) as Hs.
pose proof (begin_spec h n s (epoch s) now_ms Hh) as Hbegin.
destruct (confirm_begin h (epoch s) now_ms) as [answer h1].
destruct Hbegin as (Hh1 & (Hi1 & Hb1 & Hf1) & ->).
assert (begin_answer h s (epoch s) now_ms = 0) as ->.
{ unfold begin_answer. rewrite Hb, (proj2 (Z.eqb_neq (epoch s) 0)), Z.eqb_refl by tauto.
  by rewrite (proj2 (Z.ltb_ge _ _)) by lia. }
change (0 =? 0) with true. cbv iota. cbn [t_active]. rewrite Hf1, Hrf. cbn [backend_call].
destruct (rf w (active_node s) (epoch s)) as [requested w1] eqn:E.
specialize (Hr w). rewrite E in Hr. cbn in Hr. subst requested.
destruct (confirm_completes h1 w1 n s now_ms fc) as (h2 & w2 & n' & s2 & -> & _ & Hh2 & Hn' & Hs2);
  [done|congruence|congruence|auto|done|lia|lia|].
assert (Hsame : active_node s2 = active_node s ∧ standby_node s2 = standby_node s ∧
  epoch s2 = epoch s ∧ fenced_epoch s2 = epoch s ∧
  lease_deadline_ms s2 = lease_deadline_ms s ∧
  transition_sequence s2 <= transition_sequence s + 1)
  by (destruct Hs2 as [[-> ?]| ->]; cbn; split_and!; (done || lia)).
destruct Hsame as (Ea & Est & Ee & Ef & Edl & Eseq).
pose proof (takeover_spec h2 n' s2 (standby_node s) (epoch s) now_ms Hh2 Hnow) as Ht.
destruct (handover_takeover _ _ _ _) as [taken h3]. destruct Ht as [Ht _].
apply record_transition_0 in Ht as [-> Hh3]; [| |lia].
- do 3 (split; [done|]). exists (taken_over s2 now_ms). split; [by exists (n' + 1)|].
  cbn. by rewrite Ea, Est, Ee.
- unfold takeover_answer. rewrite Est, Ee, Ef, Edl, !Z.eqb_refl.
  rewrite (proj2 (Z.eqb_neq (standby_node s) 0)), (proj2 (Z.eqb_neq (epoch s) 0)),
    (proj2 (Z.ltb_ge now_ms _)), (proj2 (Z.eqb_neq (epoch s) UINT64_MAX)),
    (proj2 (Z.eqb_neq (transition_sequence s2) UINT64_MAX))
    by (unfold UINT64_MAX in *; (lia || tauto)). done.
Qed.
End handover.

(** ** Witnesses: a node over the critical objects of the kernel, with a fence
    backend that counts its calls and always confirms. *)
Definition sample_backend : handover_fence_backend_t nat :=
  Backend (Some (λ calls _ _, (true, S calls))) (Some (λ calls _ _, (true, S calls))).

Definition sample_node : handover_t CriticalObject.critical_object_t nat :=
  Handover sample_object false false (Backend None None).

Definition attached_node : handover_t CriticalObject.critical_object_t nat :=
  (handover_attach_fence_backend sample_node (Some sample_backend)).2.

Definition running_node : handover_t CriticalObject.critical_object_t nat :=
  (handover_init_replica attached_node 1 2 10 7 1 1000).2.

Lemma running_reachable : reachable (System running_node 0%nat [] [] [] 1000).
Proof.
  apply (reachable_start sample_node 0%nat sample_backend 1 2 10 7 1 1000 attached_node);
    try easy; vm_compute; reflexivity.
Qed.

Lemma running_holds :
  ∃ s, holds_at running_node 1 s ∧ active_node s = 1 ∧ standby_node s = 2 ∧ epoch s = 7 ∧
    lease_deadline_ms s = 1010 ∧ transition_sequence s = 1.
Proof.
  destruct (init_spec attached_node 1 2 10 7 1 1000 running_node)
    as (s & Hh & ? & ? & ? & _ & ? & _); [vm_compute; reflexivity|easy..|].
  exists s. split_and!; try done.
  destruct (snapshot_spec running_node s zero_status) as (h' & E & _); [by exists 1|].
  apply (f_equal snd) in E. cbn [snd] in E. rewrite <- E. by vm_compute.
Qed.

(** The running node after a confirmed fence at time 2000. *)
Definition begun_node : handover_t CriticalObject.critical_object_t nat :=
  (confirm_begin running_node 7 2000).2.
Definition sample_ticket : ticket := Ticket 1 7 1 2000.
Definition fenced_node : handover_t CriticalObject.critical_object_t nat :=
  (confirm_finish begun_node sample_ticket).2.
Definition fenced_system : system :=
  System fenced_node 1%nat [] [] [(1, 7)] 2000.

Abbreviation running_system := (System running_node 0%nat [] [] [] 1000).

(** The run from the start: a confirmation begins, the backend answers, the
    confirmation ends. *)
Lemma fenced_steps : steps running_system fenced_system.
Proof.
  eapply steps_step.
  { apply (step_begin running_system 7 2000 sample_ticket begun_node); [easy..|].
    cbn [node_state]. vm_compute. reflexivity. }
  eapply steps_step.
  { refine (step_confirmed (System begun_node 0%nat [sample_ticket] [] [] 2000) [] sample_ticket [] eq_refl _).
    vm_compute. reflexivity. }
  eapply steps_step; [|apply steps_refl].
  exact (step_finish (System begun_node 1%nat [] [sample_ticket] [(1, 7)] 2000) [] sample_ticket [] eq_refl).
Qed.

Lemma fenced_reachable : reachable fenced_system.
Proof. exact (steps_reachable _ _ running_reachable fenced_steps). Qed.

Lemma fenced_holds :
  ∃ s, holds fenced_node s ∧ fenced_epoch s = epoch s ∧ active_node s = 1 ∧ epoch s = 7 ∧ standby_node s = 2.
Proof.
  destruct running_holds as (s & Hh & Ha & Hstand & He & Hd & Hs). exists (fenced s).
  pose proof (begin_spec running_node 1 s 7 2000 Hh) as Hb.
  unfold fenced_node, begun_node. destruct (confirm_begin running_node 7 2000) as [answer h].
  destruct Hb as (Hh1 & _). cbn [snd].
  pose proof (finish_spec h 1 s sample_ticket Hh1) as Hf.
  destruct (confirm_finish h sample_ticket) as [result h2]. destruct Hf as [_ Hf].
  assert (Hcur : current s sample_ticket = true)
    by (apply current_spec; cbn; rewrite Ha, He, Hd, Hs; split_and!; (done || lia)).
  destruct (current s sample_ticket && (fenced_epoch s =? epoch s)) eqn:E.
  - (* the status returned by the initialisation is not fenced *)
    exfalso. rewrite Hcur in E. cbn [andb] in E. apply Z.eqb_eq in E.
    destruct (snapshot_spec running_node s zero_status) as (h' & Hsnap & _); [by exists 1|].
    apply (f_equal (λ r, fenced_epoch r.2)) in Hsnap. cbn [snd] in Hsnap.
    rewrite E, He in Hsnap. by vm_compute in Hsnap.
  - apply record_transition_0 in Hf as [_ Hh2]; [| |done].
    + cbn [snd]. split; [exists (1 + 1); exact Hh2|]. split; [reflexivity|]. split; [exact Ha|]. split; [exact He|exact Hstand].
    + unfold finish_answer. rewrite Hcur, Hs. done.
Qed.

(** Node 2 takes over at time 5000. *)
Definition taken_node : handover_t CriticalObject.critical_object_t nat :=
  (handover_takeover fenced_node 2 7 5000).2.
Definition taken_system : system := System taken_node 1%nat [] [] [(1, 7)] 5000.

Lemma taken_steps : steps fenced_system taken_system.
Proof.
  eapply steps_step; [|apply steps_refl]. exact (step_takeover fenced_system 2 7 5000 ltac:(easy) ltac:(easy)).
Qed.

Lemma taken_holds s : holds fenced_node s → holds taken_node (taken_over s 5000).
Proof.
  intros [n Hh]. pose proof (takeover_spec fenced_node n s 2 7 5000 Hh ltac:(easy)) as Ht.
  assert (E : (handover_takeover fenced_node 2 7 5000).1 = 0) by (vm_compute; reflexivity).
  unfold taken_node. destruct (handover_takeover fenced_node 2 7 5000) as [result h']. cbn [fst snd] in *.
  destruct Ht as [[(Hne & -> & _)|[(_ & -> & _ & _)|(_ & _ & n' & Hn & _)]] _]; [done|done|by exists n'].
Qed.

Lemma handover_one_active_per_epoch_witness :
  ∃ s1 s2 s3, holds running_node s1 ∧ holds fenced_node s2 ∧ holds taken_node s3 ∧
    epoch s1 = 7 ∧ epoch s2 = 7 ∧ epoch s3 = 8 ∧ active_node s1 = 1 ∧ active_node s3 = 2 ∧
    active_node s1 = active_node s2 ∧ epoch s2 <= epoch s3.
Proof.
  destruct running_holds as (s1 & Hh1 & Ha1 & _ & He1 & _).
  destruct fenced_holds as (s2 & Hh2 & _ & Ha2 & He2 & Hs2).
  pose proof (taken_holds s2 Hh2) as Hh3. pose proof (ex_intro _ 1 Hh1 : holds running_node s1) as Hh1'.
  destruct (handover_one_active_per_epoch running_system fenced_system s1 s2
    running_reachable fenced_steps Hh1' Hh2) as [_ Hactive].
  destruct (handover_one_active_per_epoch fenced_system taken_system s2 (taken_over s2 5000)
    fenced_reachable taken_steps Hh2 Hh3) as [Hepoch _].
  exists s1, s2, (taken_over s2 5000). rewrite He1, He2 in *.
  split_and!; [exact Hh1'|exact Hh2|exact Hh3|done|done| |exact Ha1|exact Hs2|by apply Hactive|exact Hepoch].
  cbn. rewrite He2. reflexivity.
Defined.

Lemma handover_takeover_needs_fence_witness :
  ∃ s, let '(result, h') := handover_takeover fenced_node 2 7 5000 in
    result = 0 ∧ In (1, 7) (fences fenced_system) ∧ holds h' (taken_over s 5000).
Proof.
  destruct fenced_holds as (s & Hh & _ & Ha & He & _). exists s.
  pose proof (handover_takeover_needs_fence fenced_system s 2 7 5000
    fenced_reachable Hh ltac:(easy)) as H. cbn [node_state fenced_system] in H.
  assert (E : (handover_takeover fenced_node 2 7 5000).1 = 0) by (vm_compute; reflexivity).
  destruct (handover_takeover fenced_node 2 7 5000) as [result h']. cbn [fst] in E. subst result.
  cbn [Z.eqb] in H. destruct H as (_ & _ & _ & Hin & H). rewrite Ha, He in Hin. done.
Defined.

Lemma handover_fenced_cannot_renew_witness :
  ∃ s, fenced_epoch s = epoch s ∧
    let '(result, h') := handover_renew fenced_node 1 7 2001 in result ≠ 0 ∧ holds h' s.
Proof.
  destruct fenced_holds as (s & Hh & He & _). exists s. split; [done|].
  apply (handover_fenced_cannot_renew fenced_system s 1 7 2001); try easy.
  exact fenced_reachable.
Defined.

Lemma handover_completes_witness :
  ∃ s, let '(requested, h1, w1) := handover_request_fence running_node 0%nat (epoch s) 5000 in
  let '(confirmed, h2, w2) := handover_confirm_fenced h1 w1 (epoch s) 5000 in
  let '(taken, h3) := handover_takeover h2 (standby_node s) (epoch s) 5000 in
  requested = 0 ∧ confirmed = 0 ∧ taken = 0 ∧
  ∃ s', holds h3 s' ∧ active_node s' = standby_node s ∧ standby_node s' = active_node s ∧
    epoch s' = epoch s + 1.
Proof.
  destruct running_holds as (s & Hh & Ha & Hst & He & Hd & Hs). exists s.
  apply (handover_completes running_node 0%nat 1 s 5000
    (λ calls _ _, (true, S calls)) (λ calls _ _, (true, S calls)));
    [done|done|done|done|done|done|rewrite Hd; lia|easy|easy|rewrite He; easy|rewrite Hs; easy].
Defined.
