(* ===== verification/HandoverReplica.v ===== *)
(** Replicated hand-over state: src/kernel/init/handover_replica.c and
    src/include/kernel/handover_replica.h.

    [Module HandoverReplica] holds the operations on the replica frame a
    standby node keeps in a protected store [O].  Struct pointers of the
    callers are options; the output pointer of the snapshot is a reference.
    The spin lock has no state here.  [handover_replica_test_corrupt] (host
    tests only) is not modelled. *)
From Stdlib Require Import Sorting.Sorted.
From S2P Require Import Prelude ProtectedStore.
From S2P Require Import Layout ProtectedRecord CriticalObject.

Module HandoverReplica.

Definition HANDOVER_REPLICA_VERSION : Z := 1.
Definition REPLICA_EINVAL : Z := -22.
Definition REPLICA_ESTALE : Z := -116.
Definition REPLICA_EINTEGRITY : Z := -117.
Definition REPLICA_EOVERFLOW : Z := -75.

Record handover_replica_state_t := Frame {
  r_version : Z;
  r_struct_size : Z;
  source_node : Z;
  service_id : Z;
  r_epoch : Z;
  r_sequence : Z;
  r_value : Z;
  r_reserved : Z
}.

#[export] Instance frame_layout : Layout handover_replica_state_t := {
  layout_widths := [4; 4; 4; 4; 8; 8; 4; 4]%nat;
  layout_values s :=
    [r_version s; r_struct_size s; source_node s; service_id s; r_epoch s; r_sequence s;
     r_value s; r_reserved s];
  layout_record l :=
    match l with
    | [a; b; c; d; e; f; g; h] => Frame a b c d e f g h
    | _ => Frame 0 0 0 0 0 0 0 0
    end
}.

Definition zero_frame : handover_replica_state_t := Frame 0 0 0 0 0 0 0 0.

Definition frame_ok (state : handover_replica_state_t) : bool :=
  (r_version state =? HANDOVER_REPLICA_VERSION) &&
  (r_struct_size state =? Z.of_nat (sizeof handover_replica_state_t)) &&
  negb (source_node state =? 0) && negb (service_id state =? 0) &&
  negb (r_epoch state =? 0) && negb (r_sequence state =? 0) &&
  (r_reserved state =? 0).

Definition replica_valid : list Z → bool := record_valid frame_ok.

(** The validator called on a caller's struct pointer. *)
Definition frame_argument_valid (state : option handover_replica_state_t) : bool :=
  match state with None => false | Some state => replica_valid (encode state) end.

Section operations.
Context {O : Type} `{ProtectedStore O}.

Record replica_t := Replica {
protected_replica : O;
initialized : bool
}.

Definition read_state : O → handover_replica_state_t → Z * O * handover_replica_state_t :=
load_record HANDOVER_REPLICA_VERSION frame_ok REPLICA_EINTEGRITY.

Definition write_state : O → handover_replica_state_t → Z * O :=
store_record HANDOVER_REPLICA_VERSION frame_ok REPLICA_EINTEGRITY.

Definition handover_replica_init (r : replica_t) (initial : option handover_replica_state_t)
  : Z * replica_t :=
if initialized r || negb (frame_argument_valid initial) then (REPLICA_EINVAL, r)
else
  let '(result, store) :=
    ps_init (protected_replica r) HANDOVER_REPLICA_VERSION (option_map encode initial) in
  let result := if result =? 0 then 0 else REPLICA_EINTEGRITY in
  (result, Replica store (if result =? 0 then true else initialized r)).

Definition handover_replica_apply (r : replica_t) (next : option handover_replica_state_t)
  : Z * replica_t :=
match next with
| None => (REPLICA_EINVAL, r)
| Some next =>
    if negb (initialized r) || negb (frame_argument_valid (Some next))
    then (REPLICA_EINVAL, r)
    else
      let '(result, store, current) := read_state (protected_replica r) zero_frame in
      let result :=
        if (result =? 0) &&
           (negb (source_node next =? source_node current) ||
            negb (service_id next =? service_id current) ||
            negb (r_epoch next =? r_epoch current) ||
            (r_sequence current =? UINT64_MAX) ||
            negb (r_sequence next =? u64 (r_sequence current + 1)))
        then REPLICA_ESTALE else result in
      if result =? 0 then
        let '(result, store) := write_state store next in
        (result, Replica store (initialized r))
      else (result, Replica store (initialized r))
end.

Definition handover_replica_promote (r : replica_t) (new_source_node new_epoch value : Z)
  : Z * replica_t :=
if negb (initialized r) || (new_source_node =? 0) || (new_epoch =? 0)
then (REPLICA_EINVAL, r)
else
  let '(result, store, state) := read_state (protected_replica r) zero_frame in
  let result :=
    if (result =? 0) &&
       ((r_epoch state =? UINT64_MAX) || (r_sequence state =? UINT64_MAX))
    then REPLICA_EOVERFLOW else result in
  let result :=
    if (result =? 0) &&
       ((new_source_node =? source_node state) ||
        negb (new_epoch =? u64 (r_epoch state + 1)))
    then REPLICA_ESTALE else result in
  if result =? 0 then
    let state :=
      Frame (r_version state) (r_struct_size state) new_source_node (service_id state)
        new_epoch (r_sequence state + 1) value (r_reserved state) in
    let '(result, store) := write_state store state in
    (result, Replica store (initialized r))
  else (result, Replica store (initialized r)).

Definition handover_replica_snapshot (r : replica_t) (state_out : handover_replica_state_t)
  : Z * replica_t * handover_replica_state_t :=
if negb (initialized r) then (REPLICA_EINVAL, r, state_out)
else
  let '(result, store, state_out) := read_state (protected_replica r) state_out in
  (result, Replica store (initialized r), state_out).
End operations.

#[global] Arguments replica_t : clear implicits.
End HandoverReplica.

Import HandoverReplica.

#[export] Instance frame_layout_laws : LayoutLaws handover_replica_state_t.
Proof.
  constructor.
  - done.
  - by intros [].
  - intros values Hl. do 8 (destruct values as [|? values]; [done|]).
    by destruct values.
Qed.

Lemma frame_typed (s : handover_replica_state_t) :
  well_typed s ↔
  is_u32 (r_version s) ∧ is_u32 (r_struct_size s) ∧ is_u32 (source_node s) ∧
  is_u32 (service_id s) ∧ is_u64 (r_epoch s) ∧ is_u64 (r_sequence s) ∧
  is_u32 (r_value s) ∧ is_u32 (r_reserved s).
Proof.
  unfold well_typed. cbn [layout_widths layout_values frame_layout fields_ok].
  change (256 ^ Z.of_nat 4) with 4294967296. change (256 ^ Z.of_nat 8) with 18446744073709551616.
  unfold_words. tauto.
Qed.

Lemma frame_ok_spec s :
  frame_ok s = true ↔
  r_version s = 1 ∧ r_struct_size s = 40 ∧ source_node s ≠ 0 ∧ service_id s ≠ 0 ∧
  r_epoch s ≠ 0 ∧ r_sequence s ≠ 0 ∧ r_reserved s = 0.
Proof.
  unfold frame_ok. rewrite !andb_true_iff, !negb_true_iff, !Z.eqb_neq, !Z.eqb_eq.
  change (Z.of_nat (sizeof handover_replica_state_t)) with 40.
  unfold HANDOVER_REPLICA_VERSION. tauto.
Qed.

Lemma frame_size : (0 < sizeof handover_replica_state_t <= 64)%nat.
Proof. vm_compute. lia. Qed.

Lemma frame_argument_valid_spec s :
  well_typed s → frame_argument_valid (Some s) = frame_ok s.
Proof.
  intros. unfold frame_argument_valid, replica_valid, record_valid.
  by rewrite length_encode, Nat.eqb_refl, decode_encode.
Qed.

Section replica.
Context {O : Type} `{ProtectedStoreLaws O}.
Implicit Types (r : replica_t O) (s : handover_replica_state_t).

Definition replica_holds_at r (n : Z) s : Prop :=
initialized r = true ∧
record_holds HANDOVER_REPLICA_VERSION frame_ok (protected_replica r) n s.

Definition replica_holds r s : Prop := ∃ n, replica_holds_at r n s.

Definition replica_transition r' : Z → handover_replica_state_t → handover_replica_state_t →
  Z → Z → Prop :=
record_transition REPLICA_EINTEGRITY (replica_holds_at r').

Lemma replica_load r n s buffer :
replica_holds_at r n s →
∃ store', read_state (protected_replica r) buffer = (0, store', s) ∧
  record_holds HANDOVER_REPLICA_VERSION frame_ok store' n s.
Proof. intros [_ Hh]. by apply load_record_spec; [easy|done|apply frame_size|]. Qed.

Lemma replica_store store n s s' :
record_holds HANDOVER_REPLICA_VERSION frame_ok store n s →
well_typed s' → frame_ok s' = true →
let '(result, store') := write_state store s' in
replica_transition (Replica store' true) n s s' 0 result.
Proof.
intros Hh Ht Hok.
pose proof (store_record_spec HANDOVER_REPLICA_VERSION frame_ok REPLICA_EINTEGRITY
  ltac:(easy) ltac:(done) frame_size store n s s' Hh Ht Hok) as Hst.
unfold write_state. destruct (store_record _ _ _ _ _) as [result store'].
destruct Hst as [(-> & n' & ? & ?)|(-> & ? & ?)]; right; [right|left].
- split_and!; [done..|]. by exists n'.
- by split_and!.
Qed.

(** What [handover_replica_apply] answers, as a function of the frames. *)
Definition apply_answer s (next : option handover_replica_state_t) : Z :=
match next with
| None => REPLICA_EINVAL
| Some next =>
    if negb (frame_ok next) then REPLICA_EINVAL
    else if (source_node next =? source_node s) && (service_id next =? service_id s) &&
            (r_epoch next =? r_epoch s) && (r_sequence next =? r_sequence s + 1)
    then 0 else REPLICA_ESTALE
end.

Definition promote_answer s (new_source_node new_epoch : Z) : Z :=
if (new_source_node =? 0) || (new_epoch =? 0) then REPLICA_EINVAL
else if (r_epoch s =? UINT64_MAX) || (r_sequence s =? UINT64_MAX) then REPLICA_EOVERFLOW
else if (new_source_node =? source_node s) || negb (new_epoch =? r_epoch s + 1)
then REPLICA_ESTALE
else 0.

Definition promoted s (new_source_node new_epoch value : Z) : handover_replica_state_t :=
Frame (r_version s) (r_struct_size s) new_source_node (service_id s) new_epoch
  (r_sequence s + 1) value (r_reserved s).

Lemma next_sequence_guard current next :
is_u64 current → is_u64 next →
(current =? UINT64_MAX) || negb (next =? u64 (current + 1)) = negb (next =? current + 1).
Proof.
unfold UINT64_MAX. intros. destruct (Z.eqb_spec current 18446744073709551615) as [->|].
- symmetry. apply negb_true_iff, Z.eqb_neq. ulia.
- cbn [orb]. by rewrite u64_small by ulia.
Qed.

Lemma apply_spec r n s next :
replica_holds_at r n s → (∀ f, next = Some f → well_typed f) →
let '(result, r') := handover_replica_apply r next in
replica_transition r' n s (default s next) (apply_answer s next) result.
Proof.
intros Hh Hty. unfold handover_replica_apply, apply_answer.
destruct next as [next|]; [|by left]. specialize (Hty next eq_refl).
rewrite frame_argument_valid_spec by done. destruct (Hh) as [Hi Hst]. rewrite Hi. cbn [negb orb].
destruct (frame_ok next) eqn:Hok; cbn [negb]; [|by left].
destruct (replica_load r n s zero_frame Hh) as (store & -> & Hst'). cbn [Z.eqb andb].
destruct Hst as (_ & Hts & _). apply frame_typed in Hts.
rewrite <- (orb_assoc _ (r_sequence s =? UINT64_MAX)), next_sequence_guard
  by (try tauto; apply frame_typed in Hty; tauto).
rewrite <- !negb_andb.
destruct (_ && (r_sequence next =? r_sequence s + 1)); cbn [negb]; [|by left].
change (0 =? 0) with true. cbv iota.
pose proof (replica_store store n s next Hst' Hty Hok) as Hw.
by destruct (write_state store next).
Qed.

Lemma promoted_ok s source epoch value :
well_typed s → frame_ok s = true → is_u32 source → is_u64 epoch → is_u32 value →
source ≠ 0 → epoch ≠ 0 → r_sequence s ≠ UINT64_MAX →
well_typed (promoted s source epoch value) ∧ frame_ok (promoted s source epoch value) = true.
Proof.
rewrite !frame_typed, !frame_ok_spec. unfold UINT64_MAX. cbn.
intros (?&?&?&?&?&?&?&?) (?&?&?&?&?&?&?) ??????. split; split_and!; try done; ulia.
Qed.

Lemma promote_spec r n s source epoch value :
replica_holds_at r n s → is_u32 source → is_u64 epoch → is_u32 value →
let '(result, r') := handover_replica_promote r source epoch value in
replica_transition r' n s (promoted s source epoch value) (promote_answer s source epoch) result.
Proof.
intros Hh Hs He Hv. unfold handover_replica_promote, promote_answer.
destruct (Hh) as [Hi (_ & Hty & Hok)]. rewrite Hi. cbn [negb orb].
destruct (Z.eqb_spec source 0) as [|Hs0]; [by left|].
destruct (Z.eqb_spec epoch 0) as [|He0]; [by left|]. cbn [orb].
destruct (replica_load r n s zero_frame Hh) as (store & -> & Hst').
change (0 =? 0) with true. cbn [andb].
destruct (Z.eqb_spec (r_epoch s) UINT64_MAX) as [|Hemax]; [by left|].
destruct (Z.eqb_spec (r_sequence s) UINT64_MAX) as [|Hsmax]; [by left|]. cbn [orb].
change (0 =? 0) with true. cbn [andb].
assert (Hts := Hty). apply frame_typed in Hts.
rewrite u64_small by (unfold UINT64_MAX in *; ulia).
destruct (_ || _); [by left|]. change (0 =? 0) with true. cbv iota.
fold (promoted s source epoch value).
destruct (promoted_ok s source epoch value) as [Hpt Hpo]; [done..|].
pose proof (replica_store store n s _ Hst' Hpt Hpo) as Hw.
by destruct (write_state store (promoted s source epoch value)).
Qed.

Lemma apply_answer_0 s next :
apply_answer s next = 0 →
∃ f, next = Some f ∧ frame_ok f = true ∧ source_node f = source_node s ∧
  service_id f = service_id s ∧ r_epoch f = r_epoch s ∧ r_sequence f = r_sequence s + 1.
Proof.
unfold apply_answer. destruct next as [f|]; [|done].
destruct (frame_ok f) eqn:?; [|done]. cbn [negb].
destruct (_ && _) eqn:E; [|done]. rewrite !andb_true_iff, !Z.eqb_eq in E.
intros _. exists f. tauto.
Qed.

Lemma promote_answer_0 s source epoch :
promote_answer s source epoch = 0 →
source ≠ 0 ∧ source ≠ source_node s ∧ epoch = r_epoch s + 1.
Proof.
unfold promote_answer. destruct (Z.eqb_spec source 0), (Z.eqb_spec epoch 0); try done.
cbn [orb]. destruct (_ || _); [done|].
destruct (Z.eqb_spec source (source_node s)), (Z.eqb_spec epoch (r_epoch s + 1));
  cbn [orb negb]; intros Ha; try discriminate Ha; by split_and!.
Qed.

(** ** Runs of the standby node *)
Inductive replica_op :=
| Apply (next : option handover_replica_state_t)
| Promote (new_source_node new_epoch value : Z).

Definition op_typed (op : replica_op) : Prop :=
match op with
| Apply next => ∀ f, next = Some f → well_typed f
| Promote source epoch value => is_u32 source ∧ is_u64 epoch ∧ is_u32 value
end.

Definition replica_step r (op : replica_op) : Z * replica_t O :=
match op with
| Apply next => handover_replica_apply r next
| Promote source epoch value => handover_replica_promote r source epoch value
end.

Definition op_frame s (op : replica_op) : handover_replica_state_t :=
match op with
| Apply next => default s next
| Promote source epoch value => promoted s source epoch value
end.

Definition op_answer s (op : replica_op) : Z :=
match op with
| Apply next => apply_answer s next
| Promote source epoch _ => promote_answer s source epoch
end.

Lemma replica_step_spec r n s op :
replica_holds_at r n s → op_typed op →
let '(result, r') := replica_step r op in
replica_transition r' n s (op_frame s op) (op_answer s op) result.
Proof.
destruct op as [next|source epoch value]; cbn.
- apply apply_spec.
- intros ? (? & ? & ?). by apply promote_spec.
Qed.

Lemma op_answer_0 s op :
op_answer s op = 0 → r_sequence (op_frame s op) = r_sequence s + 1.
Proof.
destruct op as [next|source epoch value]; cbn; [|done].
intros (f & -> & _ & _ & _ & _ & ?)%apply_answer_0. done.
Qed.

(** The frames accepted along a run, in order. *)
Fixpoint accepted r (ops : list replica_op) : list handover_replica_state_t :=
match ops with
| [] => []
| op :: ops =>
    let '(result, r') := replica_step r op in
    let rest := accepted r' ops in
    match op with
    | Apply (Some f) => if result =? 0 then f :: rest else rest
    | _ => rest
    end
end.

Lemma accepted_later r s ops :
replica_holds r s → Forall op_typed ops →
Forall (λ f, r_sequence s < r_sequence f) (accepted r ops) ∧
StronglySorted (λ f g, r_sequence f < r_sequence g) (accepted r ops).
Proof.
intros Hh Hops. revert r s Hh. induction Hops as [|op ops Hop _ IH]; intros r s [n Hh];
  [split; constructor|]. cbn [accepted].
pose proof (replica_step_spec r n s op Hh Hop) as Hst.
destruct (replica_step r op) as [result r'].
assert (Hcase : (result ≠ 0 ∧ replica_holds r' s) ∨
  (result = 0 ∧ op_answer s op = 0 ∧ replica_holds r' (op_frame s op))).
{ destruct Hst as [(? & -> & ?)|[(_ & -> & _ & ?)|(? & -> & n' & ? & _)]].
  - left. split; [done|by exists n].
  - left. split; [done|by exists n].
  - right. do 2 (split; [done|]). by exists n'. }
destruct Hcase as [[Hr Hh']|(-> & Ha & Hh')].
- rewrite (proj2 (Z.eqb_neq _ _) Hr). destruct (IH r' s Hh'). by destruct op as [[]|].
- apply op_answer_0 in Ha. destruct (IH r' _ Hh') as [Hf Hs].
  assert (Hf' : Forall (λ f, r_sequence s < r_sequence f) (accepted r' ops))
    by (revert Hf; apply Forall_impl; lia).
  destruct op as [[f|]|]; cbn in *; try done. split; [|by constructor].
  constructor; [lia|done].
Qed.

(** * Properties *)

(** A replication frame is accepted exactly when it is well formed, comes from
  the same source, service and epoch, and carries the very next sequence; the
  accepted frame becomes the replicated state as a whole, and a refused frame,
  whatever the refusal, changes nothing. *)
Theorem replica_apply_exact r n s next :
replica_holds_at r n s → (∀ f, next = Some f → well_typed f) → n < UINT32_MAX →
let '(result, r') := handover_replica_apply r next in
(result = 0 ↔ ∃ f, next = Some f ∧ frame_ok f = true ∧ source_node f = source_node s ∧
   service_id f = service_id s ∧ r_epoch f = r_epoch s ∧
   r_sequence f = r_sequence s + 1) ∧
replica_holds r' (if result =? 0 then default s next else s).
Proof.
intros Hh Hty Hn. pose proof (apply_spec r n s next Hh Hty) as Ht.
destruct (handover_replica_apply r next) as [result r'].
destruct Ht as [(Hne & -> & ?)|[(_ & _ & ? & _)|(Ha & -> & n' & ? & _)]]; [|lia|].
- rewrite (proj2 (Z.eqb_neq _ _) Hne). split; [|by exists n]. split; [done|].
  intros (f & -> & Hok & E1 & E2 & E3 & E4). exfalso. apply Hne.
  unfold apply_answer. rewrite Hok, E1, E2, E3, E4, !Z.eqb_refl. done.
- apply apply_answer_0 in Ha. split; [done|]. by exists n'.
Qed.

(** C38: no frame is ever replayed: along every run of frames and promotions, from
  any intact state, the sequence numbers of the accepted frames strictly
  increase, above the sequence of the start, across promotions too. *)
Theorem replica_no_replay r s ops :
replica_holds r s → Forall op_typed ops →
Forall (λ f, r_sequence s < r_sequence f) (accepted r ops) ∧
StronglySorted (λ f g, r_sequence f < r_sequence g) (accepted r ops).
Proof. apply accepted_later. Qed.

(** A promotion installs a different source in the next epoch and keeps the
  service; afterwards the frames of the former source are refused. *)
Theorem replica_promote_fences_old_source r n s source epoch value next :
replica_holds_at r n s → is_u32 source → is_u64 epoch → is_u32 value →
well_typed next → source_node next = source_node s →
let '(result, r') := handover_replica_promote r source epoch value in
if result =? 0 then
  source ≠ source_node s ∧ epoch = r_epoch s + 1 ∧
  replica_holds r' (promoted s source epoch value) ∧
  (handover_replica_apply r' (Some next)).1 ≠ 0
else replica_holds r' s.
Proof.
intros Hh Hs He Hv Hty Hsrc. pose proof (promote_spec r n s source epoch value Hh Hs He Hv) as Ht.
destruct (handover_replica_promote r source epoch value) as [result r'].
destruct Ht as [(Hne & -> & ?)|[(_ & -> & _ & ?)|(Ha & -> & n' & Hh' & _)]].
- rewrite (proj2 (Z.eqb_neq _ _) Hne). by exists n.
- by exists n.
- apply promote_answer_0 in Ha as (_ & Hd & ->). cbn [Z.eqb].
  split; [done|]. split; [done|]. split; [by exists n'|].
  pose proof (apply_spec r' n' _ (Some next) Hh') as Hap.
  destruct (handover_replica_apply r' (Some next)) as [result r'']. cbn [fst].
  destruct Hap as [(? & -> & _)|[(_ & -> & _)|(Ha & _)]]; [by intros ? [= <-]|done|done|].
  apply apply_answer_0 in Ha as (f & [= <-] & _ & E & _). cbn in E. congruence.
Qed.
End replica.

(** ** Witnesses over the critical objects of the kernel *)
Definition sample_frame (source epoch sequence : Z) : handover_replica_state_t :=
  Frame 1 40 source 2 epoch sequence 55 0.

Definition started_replica : replica_t CriticalObject.critical_object_t :=
  (handover_replica_init (Replica sample_object false) (Some (sample_frame 1 3 7))).2.

Lemma sample_frame_typed source epoch sequence :
  is_u32 source → is_u64 epoch → is_u64 sequence → well_typed (sample_frame source epoch sequence).
Proof. intros. apply frame_typed. cbn. split_and!; try done; ulia. Qed.

Lemma started_holds : replica_holds_at started_replica 1 (sample_frame 1 3 7).
Proof.
  unfold started_replica, handover_replica_init.
  cbn [initialized orb]. rewrite frame_argument_valid_spec by (apply sample_frame_typed; easy).
  change (frame_ok (sample_frame 1 3 7)) with true. cbn [negb option_map protected_replica].
  destruct (init_record_spec HANDOVER_REPLICA_VERSION frame_ok REPLICA_EINTEGRITY
    ltac:(easy) ltac:(done) frame_size sample_object (sample_frame 1 3 7))
    as (store & -> & Hh); [apply sample_frame_typed; easy|done|]. by split.
Qed.

Lemma replica_apply_exact_witness :
  (handover_replica_apply started_replica (Some (sample_frame 1 3 8))).1 = 0 ∧
  (handover_replica_apply started_replica (Some (sample_frame 1 3 9))).1 ≠ 0.
Proof.
  pose proof (λ next Hty, replica_apply_exact started_replica 1 (sample_frame 1 3 7) next
    started_holds Hty ltac:(easy)) as H.
  split.
  - specialize (H (Some (sample_frame 1 3 8))
      ltac:(intros ? [= <-]; apply sample_frame_typed; easy)).
    destruct (handover_replica_apply _ _). apply H. by exists (sample_frame 1 3 8).
  - specialize (H (Some (sample_frame 1 3 9))
      ltac:(intros ? [= <-]; apply sample_frame_typed; easy)).
    destruct (handover_replica_apply _ _). cbn. intros ->. destruct H as [H _].
    destruct (proj1 H eq_refl) as (f & [= <-] & _ & _ & _ & _ & E). discriminate E.
Defined.

Lemma replica_no_replay_witness :
  accepted started_replica [Apply (Some (sample_frame 1 3 8)); Apply (Some (sample_frame 1 3 8));
    Promote 2 4 0; Apply (Some (sample_frame 1 3 9)); Apply (Some (sample_frame 2 4 10))] =
    [sample_frame 1 3 8; sample_frame 2 4 10] ∧
  StronglySorted (λ f g, r_sequence f < r_sequence g)
    (accepted started_replica [Apply (Some (sample_frame 1 3 8)); Promote 2 4 0;
       Apply (Some (sample_frame 2 4 10))]).
Proof.
  split; [vm_compute; reflexivity|].
  apply (replica_no_replay started_replica (sample_frame 1 3 7)); [exists 1; exact started_holds|].
  apply List.Forall_forall. intros op [<-|[<-|[<-|[]]]]; [|easy|];
    intros ? [= <-]; apply sample_frame_typed; easy.
Defined.

Lemma replica_promote_fences_old_source_witness :
  let '(result, r') := handover_replica_promote started_replica 2 4 0 in
  (handover_replica_apply r' (Some (sample_frame 1 4 9))).1 ≠ 0.
Proof.
  pose proof (replica_promote_fences_old_source started_replica 1 (sample_frame 1 3 7) 2 4 0
    (sample_frame 1 4 9) started_holds ltac:(easy) ltac:(easy) ltac:(easy)
    ltac:(apply sample_frame_typed; easy) eq_refl) as H.
  assert (E : (handover_replica_promote started_replica 2 4 0).1 = 0) by (vm_compute; reflexivity).
  destruct (handover_replica_promote started_replica 2 4 0) as [result r'].
  cbn [fst] in E. subst result. cbn [Z.eqb] in H. apply H.
Defined.
