(* ===== verification/TerminalInput.v ===== *)
(** Terminal input: src/kernel/proc/terminal_input.c with the input queue of
    src/drivers/char/kb.c, whose lock it shares.

    [Module TerminalInput] holds the circular byte queue, the stack of
    foreground processes and the operations on both.  A process is reduced to
    the fields these operations read.  Spin locks, interrupt masking and the
    kernel assertions have no state here; waking the blocked readers is
    counted in [wakes].  The blocking loop of [getchar] and the decoding of scan
    codes are not modelled: they reach this state through
    [input_queue_push_sequence] and [input_queue_pop] only. *)
From S2P Require Import Prelude.
From stdpp Require Import strings.
Local Open Scope Z_scope.

Module TerminalInput.

Definition INPUT_QUEUE_SIZE : Z := 256.
Definition TERMINAL_INPUT_DEPTH : Z := 8.
Definition REIST_TERMINAL_INPUT_VERSION : Z := 1.
Definition REIST_TERMINAL_ATTACH_CONSOLE : Z := 1.
Definition REIST_TERMINAL_TRANSFER : Z := 2.
Definition REIST_TERMINAL_RELEASE : Z := 3.
Definition REIST_TERMINAL_ACQUIRE_SERVICE : Z := 4.
Definition REIST_TERMINAL_CHECK : Z := 5.
Definition PROCESS_DOMAIN_COMPOSITOR : Z := 9.
Definition REQUEST_SIZE : Z := 24.

Record terminal_identity_t := Identity { pid : Z; generation : Z }.

#[export] Instance identity_eq_dec : EqDecision terminal_identity_t.
Proof. solve_decision. Defined.

(** The fields of [Process] read here. *)
Record Process := Proc {
  p_pid : Z;
  p_generation : Z;
  p_parent_pid : Z;
  p_parent_generation : Z;
  p_image_path : string;
  p_domain_kind : Z
}.

Record reist_terminal_input_request_t := Request {
  q_version : Z;
  q_struct_size : Z;
  q_operation : Z;
  q_reserved : Z;
  q_target_pid : Z;
  q_target_generation : Z
}.

Record terminal_t := Terminal {
  input_queue : list Z;
  input_queue_head : Z;
  input_queue_tail : Z;
  foreground : list terminal_identity_t;
  foreground_count : Z;
  console_attached : bool;
  wakes : Z
}.

Definition set_queue (t : terminal_t) (queue : list Z) (head tail : Z) : terminal_t :=
  Terminal queue head tail (foreground t) (foreground_count t) (console_attached t) (wakes t).

Definition set_foreground (t : terminal_t) (entries : list terminal_identity_t) (count : Z)
    (attached : bool) : terminal_t :=
  Terminal (input_queue t) (input_queue_head t) (input_queue_tail t) entries count attached
    (wakes t).

(** [kb_input_owner_wake], and the wake-up of the readers by a push. *)
Definition kb_input_owner_wake (t : terminal_t) : terminal_t :=
  Terminal (input_queue t) (input_queue_head t) (input_queue_tail t) (foreground t)
    (foreground_count t) (console_attached t) (wakes t + 1).

Definition kb_input_owner_changed_locked (t : terminal_t) : terminal_t :=
  set_queue t (input_queue t) 0 0.

(** ** Input queue *)
Fixpoint queue_room (steps : nat) (next_tail head : Z) : bool :=
  match steps with
  | O => true
  | S steps =>
      let next_tail := (next_tail + 1) mod INPUT_QUEUE_SIZE in
      if next_tail =? head then false else queue_room steps next_tail head
  end.

Fixpoint queue_write (sequence : list Z) (queue : list Z) (tail : Z) : list Z * Z :=
  match sequence with
  | [] => (queue, tail)
  | ch :: sequence =>
      queue_write sequence (<[Z.to_nat tail := ch]> queue) ((tail + 1) mod INPUT_QUEUE_SIZE)
  end.

Definition input_queue_push_sequence (t : terminal_t) (sequence : list Z)
    : bool * terminal_t :=
  let length := Z.of_nat (length sequence) in
  if (length =? 0) || (INPUT_QUEUE_SIZE <=? length) then (false, t)
  else if negb (queue_room (Z.to_nat length) (input_queue_tail t) (input_queue_head t))
  then (false, t)
  else
    let '(queue, tail) := queue_write sequence (input_queue t) (input_queue_tail t) in
    (true, kb_input_owner_wake (set_queue t queue (input_queue_head t) tail)).

Definition input_queue_push (t : terminal_t) (ch : Z) : bool * terminal_t :=
  input_queue_push_sequence t [ch].

Definition foreground_at (t : terminal_t) (index : Z) : terminal_identity_t :=
  nth (Z.to_nat index) (foreground t) (Identity 0 0).

Definition terminal_input_admitted_locked (t : terminal_t) (reader_pid reader_generation : Z)
    : bool :=
  if foreground_count t =? 0 then (reader_pid =? 0) && (reader_generation =? 0)
  else
    let owner := foreground_at t (foreground_count t - 1) in
    (reader_pid =? pid owner) && (reader_generation =? generation owner).

Definition input_queue_pop_locked (t : terminal_t) (reader_pid reader_generation : Z)
    : Z * terminal_t :=
  if negb (terminal_input_admitted_locked t reader_pid reader_generation) then (0, t)
  else if input_queue_head t =? input_queue_tail t then (0, t)
  else
    (nth (Z.to_nat (input_queue_head t)) (input_queue t) 0,
     set_queue t (input_queue t) ((input_queue_head t + 1) mod INPUT_QUEUE_SIZE)
       (input_queue_tail t)).

(** [reader] is the current process, if the scheduler runs one. *)
Definition input_queue_pop (t : terminal_t) (reader : option Process) : Z * terminal_t :=
  match reader with
  | Some reader => input_queue_pop_locked t (p_pid reader) (p_generation reader)
  | None => input_queue_pop_locked t 0 0
  end.

(** ** Foreground stack *)
Fixpoint index_from (i : Z) (entries : list terminal_identity_t) (p g : Z) : Z :=
  match entries with
  | [] => -1
  | e :: entries =>
      if (pid e =? p) && (generation e =? g) then i else index_from (i + 1) entries p g
  end.

Definition foreground_index (t : terminal_t) (p g : Z) : Z :=
  index_from 0 (take (Z.to_nat (foreground_count t)) (foreground t)) p g.

(** [foreground[foreground_count++] = ...] *)
Definition foreground_push (t : terminal_t) (p g : Z) : terminal_t :=
  set_foreground t (<[Z.to_nat (foreground_count t) := Identity p g]> (foreground t))
    (foreground_count t + 1) (console_attached t).

(** The switch of the control call: result, state and [changed]. *)
Definition control_switch (t : terminal_t) (caller : Process) (target : option Process)
    (operation : Z) : Z * terminal_t * bool :=
  let index := foreground_index t (p_pid caller) (p_generation caller) in
  let current := (0 <=? index) && (index + 1 =? foreground_count t) in
  if operation =? REIST_TERMINAL_ATTACH_CONSOLE then
    if console_attached t && (index =? 0) then (0, t, false)
    else if negb (p_parent_pid caller =? 0) ||
            negb (String.eqb (p_image_path caller) "/bin/shell.prg"%string)
    then (-13, t, false)
    else if negb (foreground_count t =? 0) then (-16, t, false)
    else
      (0, set_foreground t
            (<[0%nat := Identity (p_pid caller) (p_generation caller)]> (foreground t)) 1 true,
       true)
  else if operation =? REIST_TERMINAL_TRANSFER then
    match target with
    | None => (-13, t, false)
    | Some target =>
        let child := (p_parent_pid target =? p_pid caller) &&
                     (p_parent_generation target =? p_generation caller) in
        let service := console_attached t && (index =? 0) &&
                       (p_domain_kind target =? PROCESS_DOMAIN_COMPOSITOR) in
        if negb child && negb service then (-13, t, false)
        else
          let target_index := foreground_index t (p_pid target) (p_generation target) in
          if 0 <=? target_index then
            (if (target_index =? index + 1) && (target_index + 1 =? foreground_count t)
             then 0 else -16, t, false)
          else if negb current then (-13, t, false)
          else if foreground_count t =? TERMINAL_INPUT_DEPTH then (-28, t, false)
          else (0, foreground_push t (p_pid target) (p_generation target), true)
    end
  else if operation =? REIST_TERMINAL_RELEASE then
    if index <? 0 then (0, t, false)
    else if negb current || (console_attached t && (index =? 0)) then (-13, t, false)
    else
      (0, set_foreground t (foreground t) (foreground_count t - 1) (console_attached t), true)
  else if operation =? REIST_TERMINAL_ACQUIRE_SERVICE then
    if negb (p_domain_kind caller =? PROCESS_DOMAIN_COMPOSITOR) then (-13, t, false)
    else if current then (0, t, false)
    else if negb (console_attached t) || negb (foreground_count t =? 1) then (-16, t, false)
    else (0, foreground_push t (p_pid caller) (p_generation caller), true)
  else if operation =? REIST_TERMINAL_CHECK then
    (if current then 0 else -11, t, false)
  else (-13, t, false).

Definition terminal_input_control_locked (t : terminal_t) (caller target : option Process)
    (request : option reist_terminal_input_request_t) : Z * terminal_t :=
  match caller, request with
  | Some caller, Some request =>
      if negb (q_version request =? REIST_TERMINAL_INPUT_VERSION) ||
         negb (q_struct_size request =? REQUEST_SIZE) || negb (q_reserved request =? 0) ||
         (q_operation request <? REIST_TERMINAL_ATTACH_CONSOLE) ||
         (REIST_TERMINAL_CHECK <? q_operation request)
      then (-22, t)
      else
        let refused :=
          if q_operation request =? REIST_TERMINAL_TRANSFER then
            match target with
            | None => Some (-116)
            | Some target =>
                if negb (q_target_pid request =? p_pid target) ||
                   negb (q_target_generation request =? p_generation target)
                then Some (-116) else None
            end
          else if negb (q_target_pid request =? 0) || negb (q_target_generation request =? 0)
          then Some (-22) else None in
        match refused with
        | Some result => (result, t)
        | None =>
            let '(result, t, changed) := control_switch t caller target (q_operation request) in
            (result,
             if (changed : bool) then kb_input_owner_wake (kb_input_owner_changed_locked t) else t)
        end
  | _, _ => (-22, t)
  end.

Definition terminal_input_process_cleanup (t : terminal_t) (p g : Z) : terminal_t :=
  let index := foreground_index t p g in
  if 0 <=? index then
    kb_input_owner_wake (kb_input_owner_changed_locked
      (set_foreground t (foreground t) index
         (if index =? 0 then false else console_attached t)))
  else t.

End TerminalInput.

Import TerminalInput.

(** * The byte queue *)
Section ring.
Implicit Types (queue : list Z) (head tail : Z).

Definition ring_content (queue : list Z) (head tail : Z) : list Z :=
map (λ i, nth (Z.to_nat ((head + Z.of_nat i) mod INPUT_QUEUE_SIZE)) queue 0)
  (seq 0 (Z.to_nat ((tail - head) mod INPUT_QUEUE_SIZE))).

Definition ring_ok (queue : list Z) (head tail : Z) : Prop :=
length queue = 256%nat ∧ 0 <= head < 256 ∧ 0 <= tail < 256.

Lemma ring_length queue head tail :
Z.of_nat (length (ring_content queue head tail)) = (tail - head) mod 256.
Proof. unfold ring_content, INPUT_QUEUE_SIZE. rewrite length_map, length_seq. ulia. Qed.

(** Free slots: one stays empty. *)
Lemma queue_room_spec steps head tail :
0 <= head < 256 → 0 <= tail < 256 →
queue_room steps tail head =
  (Z.of_nat (length (ring_content [] head tail)) + Z.of_nat steps <=? 255).
Proof.
intros Hh. revert tail. induction steps as [|steps IH]; intros tail Ht; cbn [queue_room].
- rewrite ring_length. symmetry. apply Z.leb_le. ulia.
- destruct (Z.eqb_spec ((tail + 1) mod INPUT_QUEUE_SIZE) head) as [E|E];
    unfold INPUT_QUEUE_SIZE in *.
  + symmetry. rewrite ring_length. apply Z.leb_gt. ulia.
  + rewrite IH by ulia. rewrite !ring_length.
    assert (((tail + 1) mod 256 - head) mod 256 = (tail - head) mod 256 + 1) as -> by ulia.
    f_equal. lia.
Qed.

Lemma nth_insert_eq queue i v : (i < length queue)%nat → nth i (<[i := v]> queue) 0 = v.
Proof. intros. by rewrite nth_lookup, list_lookup_insert_eq. Qed.

Lemma nth_insert_ne queue i j v : i ≠ j → nth j (<[i := v]> queue) 0 = nth j queue 0.
Proof. intros. by rewrite !nth_lookup, list_lookup_insert_ne. Qed.

Lemma ring_write_one queue head tail ch :
ring_ok queue head tail → (tail - head) mod 256 < 255 →
ring_ok (<[Z.to_nat tail := ch]> queue) head ((tail + 1) mod 256) ∧
ring_content (<[Z.to_nat tail := ch]> queue) head ((tail + 1) mod 256) =
  ring_content queue head tail ++ [ch].
Proof.
intros (Hl & Hh & Ht) Hsize. split.
{ split; [by rewrite length_insert|]. ulia. }
unfold ring_content, INPUT_QUEUE_SIZE.
assert (E : Z.to_nat (((tail + 1) mod 256 - head) mod 256) =
  S (Z.to_nat ((tail - head) mod 256))) by ulia.
rewrite E, seq_S, map_app. cbn [map Nat.add]. f_equal.
- apply map_ext_in. intros i Hi%in_seq. apply nth_insert_ne. ulia.
- assert (Z.to_nat ((head + Z.of_nat (Z.to_nat ((tail - head) mod 256))) mod 256) =
    Z.to_nat tail) as -> by ulia.
  f_equal. apply nth_insert_eq. lia.
Qed.

Lemma queue_write_spec sequence queue head tail :
ring_ok queue head tail →
(tail - head) mod 256 + Z.of_nat (length sequence) <= 255 →
let '(queue', tail') := queue_write sequence queue tail in
ring_ok queue' head tail' ∧
ring_content queue' head tail' = ring_content queue head tail ++ sequence.
Proof.
revert queue tail. induction sequence as [|ch sequence IH]; intros queue tail Hok Hsize;
  cbn [queue_write length] in *.
- by rewrite app_nil_r.
- destruct (ring_write_one queue head tail ch Hok) as [Hok' Hc]; [lia|].
  unfold INPUT_QUEUE_SIZE. specialize (IH _ _ Hok').
  destruct (queue_write sequence _ _) as [queue' tail'].
  destruct IH as [? ->].
  { rewrite <- (ring_length (<[Z.to_nat tail:=ch]> queue)), Hc, length_app, Nat2Z.inj_add,
      ring_length. cbn [length]. lia. }
  split; [done|]. by rewrite Hc, <- app_assoc.
Qed.

Lemma ring_pop queue head tail :
ring_ok queue head tail →
match ring_content queue head tail with
| [] => head = tail
| ch :: rest =>
    head ≠ tail ∧ nth (Z.to_nat head) queue 0 = ch ∧
    ring_ok queue ((head + 1) mod 256) tail ∧
    ring_content queue ((head + 1) mod 256) tail = rest
end.
Proof.
intros (Hl & Hh & Ht). unfold ring_content, INPUT_QUEUE_SIZE.
destruct (Z.to_nat ((tail - head) mod 256)) as [|n] eqn:E; [simpl; ulia|].
cbn [seq map]. split; [ulia|]. split.
{ f_equal. ulia. }
split; [split; [done|ulia]|].
assert (Z.to_nat ((tail - (head + 1) mod 256) mod 256) = n) as -> by ulia.
rewrite <- seq_shift, map_map. apply map_ext_in. intros i Hi%in_seq. f_equal. ulia.
Qed.
End ring.

Definition content (t : terminal_t) : list Z :=
  ring_content (input_queue t) (input_queue_head t) (input_queue_tail t).

Definition queue_ok (t : terminal_t) : Prop :=
  ring_ok (input_queue t) (input_queue_head t) (input_queue_tail t).

(** The part of the state the queue operations leave alone. *)
Definition same_stack (t t' : terminal_t) : Prop :=
  foreground t' = foreground t ∧ foreground_count t' = foreground_count t ∧
  console_attached t' = console_attached t.

Lemma push_spec t sequence :
  queue_ok t →
  let '(pushed, t') := input_queue_push_sequence t sequence in
  queue_ok t' ∧ same_stack t t' ∧
  (if pushed then sequence ≠ [] ∧ content t' = content t ++ sequence ∧
     Z.of_nat (length (content t)) + Z.of_nat (length sequence) <= 255
   else t' = t ∧ (sequence = [] ∨
     255 < Z.of_nat (length (content t)) + Z.of_nat (length sequence))).
Proof.
  intros Hok. unfold input_queue_push_sequence, INPUT_QUEUE_SIZE.
  destruct (Z.eqb_spec (Z.of_nat (length sequence)) 0) as [E|Hne]; cbn [orb].
  { split; [done|]. split; [done|]. split; [done|]. left. apply nil_length_inv. lia. }
  destruct (Z.leb_spec 256 (Z.of_nat (length sequence))).
  { split; [done|]. split; [done|]. split; [done|]. right. lia. }
  destruct Hok as (Hl & Hh & Ht).
  rewrite queue_room_spec by done. rewrite Nat2Z.id, ring_length.
  unfold content. rewrite ring_length.
  destruct (Z.leb_spec ((input_queue_tail t - input_queue_head t) mod 256 +
    Z.of_nat (length sequence)) 255) as [Hroom|]; cbn [negb]; [|by split; [|split]; [..|auto]].
  pose proof (queue_write_spec sequence (input_queue t) (input_queue_head t)
    (input_queue_tail t)) as Hw.
  destruct (queue_write _ _ _) as [queue tail]. destruct Hw as [? ?]; [done|done|].
  split; [done|]. split; [done|]. split; [by intros ->|done].
Qed.

Lemma pop_spec t p g :
  queue_ok t →
  let '(ch, t') := input_queue_pop_locked t p g in
  queue_ok t' ∧ same_stack t t' ∧
  (if terminal_input_admitted_locked t p g then
     match content t with
     | [] => ch = 0 ∧ t' = t
     | c :: rest => ch = c ∧ content t' = rest
     end
   else ch = 0 ∧ t' = t).
Proof.
  intros Hok. unfold input_queue_pop_locked.
  destruct (terminal_input_admitted_locked t p g); cbn [negb]; [|done].
  pose proof (ring_pop _ _ _ Hok) as Hp. fold (content t) in Hp.
  destruct (content t) as [|c rest].
  - by rewrite (proj2 (Z.eqb_eq _ _)) by done.
  - destruct Hp as (Hne & <- & Hok' & Hc). by rewrite (proj2 (Z.eqb_neq _ _)) by done.
Qed.

(** * The foreground stack *)
Definition active (t : terminal_t) : list terminal_identity_t :=
  take (Z.to_nat (foreground_count t)) (foreground t).

(** The console is attached exactly while the stack is not empty: its bottom
    is the console shell. *)
Record stack_ok (t : terminal_t) : Prop := {
  so_length : length (foreground t) = 8%nat;
  so_count : 0 <= foreground_count t <= 8;
  so_distinct : NoDup (active t);
  so_console : console_attached t = negb (foreground_count t =? 0)
}.

Lemma active_length t : stack_ok t → Z.of_nat (length (active t)) = foreground_count t.
Proof. intros [Hl Hc _ _]. unfold active. rewrite length_take. lia. Qed.

Definition identity_of (p : Process) : terminal_identity_t :=
  Identity (p_pid p) (p_generation p).

Lemma index_from_spec i entries p g :
  (index_from i entries p g = -1 ∧ Identity p g ∉ entries) ∨
  (∃ n, index_from i entries p g = i + Z.of_nat n ∧ entries !! n = Some (Identity p g) ∧
     Identity p g ∉ take n entries).
Proof.
  revert i. induction entries as [|[p' g'] entries IH]; intros i; cbn [index_from].
  - left. split; [done|]. apply not_elem_of_nil.
  - cbn [pid generation]. destruct (Z.eqb_spec p' p) as [->|Hp]; cbn [andb].
    1: destruct (Z.eqb_spec g' g) as [->|Hg].
    + right. exists 0%nat. split; [lia|]. split; [done|]. apply not_elem_of_nil.
    + destruct (IH (i + 1)) as [[-> Hn]|(n & -> & Hn & Ht)]; [left|right].
      * split; [done|]. rewrite not_elem_of_cons. split; [congruence|done].
      * exists (S n). split; [lia|]. split; [done|]. cbn [take].
        rewrite not_elem_of_cons. split; [congruence|done].
    + destruct (IH (i + 1)) as [[-> Hn]|(n & -> & Hn & Ht)]; [left|right].
      * split; [done|]. rewrite not_elem_of_cons. split; [congruence|done].
      * exists (S n). split; [lia|]. split; [done|]. cbn [take].
        rewrite not_elem_of_cons. split; [congruence|done].
Qed.

(** What a foreground index says about the stack. *)
Lemma foreground_index_spec t c :
  stack_ok t →
  let index := foreground_index t (pid c) (generation c) in
  (index = -1 ∧ c ∉ active t) ∨
  (0 <= index < foreground_count t ∧ active t !! Z.to_nat index = Some c).
Proof.
  intros Hok index. destruct c as [p g]. unfold index, foreground_index. cbn [pid generation].
  fold (active t).
  destruct (index_from_spec 0 (active t) p g) as [[-> ?]|(n & -> & Hn & _)]; [by left|right].
  pose proof (lookup_lt_Some _ _ _ Hn). pose proof (active_length t Hok).
  split; [lia|]. by rewrite Z.add_0_l, Nat2Z.id.
Qed.

Lemma NoDup_index (l : list terminal_identity_t) i j x :
  NoDup l → l !! i = Some x → l !! j = Some x → i = j.
Proof. intros. by eapply NoDup_lookup. Qed.

Lemma last_index (l : list terminal_identity_t) i x :
  NoDup l → l !! i = Some x → last l = Some x ↔ S i = length l.
Proof.
  intros Hnd Hi. rewrite last_lookup. pose proof (lookup_lt_Some _ _ _ Hi). split.
  - intros Hl. pose proof (NoDup_index l _ _ x Hnd Hi Hl). lia.
  - intros <-. done.
Qed.

Lemma head_index (l : list terminal_identity_t) i x :
  NoDup l → l !! i = Some x → head l = Some x ↔ i = 0%nat.
Proof.
  intros Hnd Hi. rewrite head_lookup. split; [|by intros ->].
  intros Hh. by eapply NoDup_index.
Qed.

(** The three tests the control call makes on an index. *)
Lemma index_tests t c :
  stack_ok t →
  let index := foreground_index t (pid c) (generation c) in
  (0 <=? index) = bool_decide (c ∈ active t) ∧
  (index <? 0) = negb (bool_decide (c ∈ active t)) ∧
  ((0 <=? index) && (index + 1 =? foreground_count t)) = bool_decide (last (active t) = Some c) ∧
  (console_attached t && (index =? 0)) = bool_decide (head (active t) = Some c).
Proof.
  intros Hok index. pose proof (active_length t Hok) as Hlen.
  destruct (foreground_index_spec t c Hok) as [[Hi Hn]|[Hi Hl]]; fold index in Hi |- *.
  - rewrite (bool_decide_eq_false_2 _ Hn), Hi. cbn [negb andb Z.leb Z.compare Z.ltb Z.eqb].
    rewrite andb_false_r. rewrite !bool_decide_eq_false_2; try done.
    + intros Hh. apply Hn. by apply head_Some_elem_of.
    + intros Hh. apply Hn. by apply last_Some_elem_of.
  - fold index in Hl. assert (c ∈ active t) by (by eapply list_elem_of_lookup_2).
    rewrite (bool_decide_eq_true_2 (c ∈ active t)) by done. cbn [negb].
    rewrite (proj2 (Z.leb_le 0 index)), (proj2 (Z.ltb_ge index 0)) by lia.
    rewrite (so_console _ Hok), (proj2 (Z.eqb_neq (foreground_count t) 0)) by lia.
    cbn [negb andb]. split; [done|]. split; [done|]. split.
    + pose proof (last_index _ _ _ (so_distinct _ Hok) Hl) as Hlast.
      destruct (Z.eqb_spec (index + 1) (foreground_count t)); symmetry;
        [apply bool_decide_eq_true_2, Hlast; lia|apply bool_decide_eq_false_2].
      intros E%Hlast. lia.
    + pose proof (head_index _ _ _ (so_distinct _ Hok) Hl) as Hhead.
      destruct (Z.eqb_spec index 0); symmetry;
        [apply bool_decide_eq_true_2, Hhead; lia|apply bool_decide_eq_false_2].
      intros E%Hhead. lia.
Qed.

(** ** The abstract terminal

    A stack of distinct identities, bottom first. *)
Definition root_shell (caller : Process) : bool :=
  (p_parent_pid caller =? 0) && String.eqb (p_image_path caller) "/bin/shell.prg".

(** May [caller] hand the foreground to [target]? *)
Definition may_transfer (stack : list terminal_identity_t) (caller target : Process) : bool :=
  (p_parent_pid target =? p_pid caller) && (p_parent_generation target =? p_generation caller) ||
  bool_decide (head stack = Some (identity_of caller)) &&
  (p_domain_kind target =? PROCESS_DOMAIN_COMPOSITOR).

(** [target] is on top, just above [caller] (or alone, [caller] outside). *)
Definition handed_over (stack : list terminal_identity_t) (caller target : Process) : bool :=
  bool_decide (last stack = Some (identity_of target)) &&
  (if decide (identity_of caller ∈ stack)
   then bool_decide (last (removelast stack) = Some (identity_of caller))
   else (length stack =? 1)%nat).

Definition terminal_spec (stack : list terminal_identity_t) (caller : Process)
    (target : option Process) (operation : Z) : Z * list terminal_identity_t :=
  let c := identity_of caller in
  let on_top := bool_decide (last stack = Some c) in
  if operation =? REIST_TERMINAL_ATTACH_CONSOLE then
    if bool_decide (head stack = Some c) then (0, stack)
    else if negb (root_shell caller) then (-13, stack)
    else if decide (stack = []) then (0, [c]) else (-16, stack)
  else if operation =? REIST_TERMINAL_TRANSFER then
    match target with
    | None => (-13, stack)
    | Some target =>
        if negb (may_transfer stack caller target) then (-13, stack)
        else if decide (identity_of target ∈ stack) then
          (if handed_over stack caller target then 0 else -16, stack)
        else if negb on_top then (-13, stack)
        else if (length stack =? 8)%nat then (-28, stack)
        else (0, stack ++ [identity_of target])
    end
  else if operation =? REIST_TERMINAL_RELEASE then
    if decide (c ∈ stack) then
      if negb on_top || bool_decide (head stack = Some c) then (-13, stack)
      else (0, removelast stack)
    else (0, stack)
  else if operation =? REIST_TERMINAL_ACQUIRE_SERVICE then
    if negb (p_domain_kind caller =? PROCESS_DOMAIN_COMPOSITOR) then (-13, stack)
    else if on_top then (0, stack)
    else if (length stack =? 1)%nat then (0, stack ++ [c])
    else (-16, stack)
  else if operation =? REIST_TERMINAL_CHECK then (if on_top then 0 else -11, stack)
  else (-13, stack).

Lemma active_push t p g :
  stack_ok t → foreground_count t < 8 →
  active (foreground_push t p g) = active t ++ [Identity p g].
Proof.
  intros [Hl Hc _ _] Hlt. unfold active, foreground_push, set_foreground. cbn.
  replace (Z.to_nat (foreground_count t + 1)) with (S (Z.to_nat (foreground_count t))) by lia.
  erewrite take_S_r by (apply list_lookup_insert_eq; lia).
  by rewrite take_insert_ge by lia.
Qed.

Lemma push_stack_ok t p g :
  stack_ok t → 0 < foreground_count t < 8 → Identity p g ∉ active t →
  stack_ok (foreground_push t p g).
Proof.
  intros Hok Hc Hn. pose proof (active_push t p g Hok ltac:(lia)) as Ha. destruct Hok as [Hl Hc' Hnd Hcon].
  constructor.
  - cbn. by rewrite length_insert.
  - cbn. lia.
  - rewrite Ha. apply NoDup_app. split; [done|]. split; [|apply NoDup_singleton].
    intros x Hx ->%list_elem_of_singleton. done.
  - cbn. rewrite Hcon, !(proj2 (Z.eqb_neq _ _)) by lia. done.
Qed.

Lemma active_cut t n :
  0 <= n <= foreground_count t → 
  active (set_foreground t (foreground t) n (console_attached t)) = take (Z.to_nat n) (active t).
Proof. intros. unfold active. cbn. rewrite take_take. f_equal. lia. Qed.

Lemma removelast_take {A} (l : list A) : removelast l = take (length l - 1) l.
Proof. rewrite removelast_firstn_len. f_equal. lia. Qed.

Lemma cut_stack_ok t n attached :
  stack_ok t → 0 <= n <= foreground_count t → attached = negb (n =? 0) →
  stack_ok (set_foreground t (foreground t) n attached) ∧
  active (set_foreground t (foreground t) n attached) = take (Z.to_nat n) (active t).
Proof.
  intros Hok Hn ->. pose proof (active_cut t n Hn) as Ha. destruct Hok as [Hl Hc Hnd Hcon].
  split; [|exact Ha]. constructor; cbn; [done|lia| |done].
  assert (H : NoDup (take (Z.to_nat n) (active t))) by (eapply sublist_NoDup; [exact Hnd|apply sublist_take]).
  unfold active in H. rewrite take_take in H. unfold active. cbn.
  by replace (Z.to_nat n `min` Z.to_nat (foreground_count t))%nat with (Z.to_nat n) in H by lia.
Qed.

Definition same_queue (t t' : terminal_t) : Prop :=
  input_queue t' = input_queue t ∧ input_queue_head t' = input_queue_head t ∧
  input_queue_tail t' = input_queue_tail t ∧ wakes t' = wakes t.

(** One case of the switch against the abstract terminal. *)
Definition switch_ok (t : terminal_t) (out : Z * terminal_t * bool)
    (spec : Z * list terminal_identity_t) : Prop :=
  let '(result, t', changed) := out in
  spec = (result, active t') ∧ stack_ok t' ∧ same_queue t t' ∧
  (if (changed : bool) then active t' ≠ active t else t' = t).

Lemma switch_same t result : stack_ok t → switch_ok t (result, t, false) (result, active t).
Proof. by intros. Qed.

#[local] Hint Extern 0 (switch_ok _ _ _) => apply switch_same; assumption : core.

Lemma app_one_ne {A} (l : list A) x : l ++ [x] ≠ l.
Proof. intros E%(f_equal length). rewrite length_app in E. simpl in E. lia. Qed.

Lemma switch_push t p g :
  stack_ok t → 0 < foreground_count t < 8 → Identity p g ∉ active t →
  switch_ok t (0, foreground_push t p g, true) (0, active t ++ [Identity p g]).
Proof.
  intros Hok Hc Hn. split; [by rewrite active_push by (done || lia)|].
  split; [by apply push_stack_ok|]. split; [done|].
  rewrite active_push by (done || lia). apply app_one_ne.
Qed.

Lemma count_nil t : stack_ok t → (foreground_count t =? 0) = bool_decide (active t = []).
Proof.
  intros Hok. pose proof (active_length t Hok).
  destruct (Z.eqb_spec (foreground_count t) 0); symmetry.
  - apply bool_decide_eq_true_2, nil_length_inv. lia.
  - apply bool_decide_eq_false_2. intros E. rewrite E in *. simpl in *. lia.
Qed.

Lemma count_is t n :
  stack_ok t → (foreground_count t =? Z.of_nat n) = (length (active t) =? n)%nat.
Proof.
  intros Hok. pose proof (active_length t Hok).
  destruct (Z.eqb_spec (foreground_count t) (Z.of_nat n)), (Nat.eqb_spec (length (active t)) n);
    (done || lia).
Qed.

Lemma attach_ok t caller :
  stack_ok t → active t = [] →
  switch_ok t
    (0, set_foreground t (<[0%nat := identity_of caller]> (foreground t)) 1 true, true)
    (0, [identity_of caller]).
Proof.
  intros [Hl Hc Hnd Hcon] Hnil. destruct (foreground t) as [|e l] eqn:E; [simpl in Hl; lia|].
  split; [done|]. split; [|by rewrite Hnil].
  constructor; [done|cbn; lia|apply NoDup_singleton|done].
Qed.

Lemma release_ok t :
  stack_ok t → 1 < foreground_count t →
  switch_ok t
    (0, set_foreground t (foreground t) (foreground_count t - 1) (console_attached t), true)
    (0, removelast (active t)).
Proof.
  intros Hok Hc. pose proof (active_length t Hok) as Hlen.
  destruct (cut_stack_ok t (foreground_count t - 1) (console_attached t) Hok) as [Hok' Ha].
  { lia. }
  { rewrite (so_console _ Hok), !(proj2 (Z.eqb_neq _ _)) by lia. done. }
  assert (Hr : removelast (active t) = take (Z.to_nat (foreground_count t - 1)) (active t))
    by (rewrite removelast_take; f_equal; lia).
  split; [by rewrite Ha, Hr|]. split; [done|]. split; [done|].
  rewrite Ha. intros E%(f_equal length). rewrite length_take in E. lia.
Qed.

(** [handed_over] read off the two indices. *)
Lemma handed_over_spec t caller target :
  stack_ok t → identity_of target ∈ active t →
  let index := foreground_index t (p_pid caller) (p_generation caller) in
  let target_index := foreground_index t (p_pid target) (p_generation target) in
  (target_index =? index + 1) && (target_index + 1 =? foreground_count t) =
    handed_over (active t) caller target.
Proof.
  intros Hok Hin index target_index. pose proof (active_length t Hok) as Hlen.
  pose proof (so_distinct _ Hok) as Hnd.
  destruct (foreground_index_spec t (identity_of target) Hok) as [[_ Hn]|[Hti Htl]]; [done|].
  cbn [identity_of pid generation] in Hti, Htl. fold target_index in Hti, Htl.
  unfold handed_over. pose proof (last_index _ _ _ Hnd Htl) as Hlast.
  destruct (Z.eqb_spec (target_index + 1) (foreground_count t)) as [Ht|Ht].
  2:{ rewrite andb_false_r, bool_decide_eq_false_2; [done|]. intros E%Hlast. lia. }
  rewrite andb_true_r, (bool_decide_eq_true_2 (last _ = _)) by (apply Hlast; lia). cbn [andb].
  destruct (foreground_index_spec t (identity_of caller) Hok) as [[Hi Hn]|[Hi Hl]];
    cbn [identity_of pid generation] in Hi; fold index in Hi.
  - rewrite decide_False by done. rewrite Hi.
    destruct (Z.eqb_spec target_index (-1 + 1)), (Nat.eqb_spec (length (active t)) 1);
      (done || lia).
  - cbn [identity_of pid generation] in Hl. fold index in Hl.
    rewrite decide_True by (by eapply list_elem_of_lookup_2).
    rewrite removelast_take, last_lookup, length_take.
    replace (pred ((length (active t) - 1) `min` length (active t)))%nat
      with (length (active t) - 2)%nat by lia.
    destruct (Z.eqb_spec target_index (index + 1)) as [E|E]; symmetry.
    + apply bool_decide_eq_true_2. rewrite lookup_take_lt by lia.
      by replace (length (active t) - 2)%nat with (Z.to_nat index) by lia.
    + apply bool_decide_eq_false_2. intros Hx.
      destruct (decide (length (active t) = 1%nat)) as [E1|].
      { rewrite E1 in Hx. cbn [Nat.sub take] in Hx. done. }
      rewrite lookup_take_lt in Hx by lia.
      pose proof (NoDup_index _ _ _ _ Hnd Hl Hx). lia.
Qed.

Lemma switch_spec t caller target operation :
  stack_ok t →
  switch_ok t (control_switch t caller target operation)
    (terminal_spec (active t) caller target operation).
Proof.
  intros Hok. unfold control_switch, terminal_spec.
  destruct (index_tests t (identity_of caller) Hok) as (Hmem & Hlt & Hcur & Hbot).
  cbn [identity_of pid generation] in Hmem, Hlt, Hcur, Hbot.
  rewrite Hcur, !Hbot, Hlt. clear Hmem Hlt Hcur Hbot.
  pose proof (active_length t Hok) as Hlen.
  destruct (operation =? REIST_TERMINAL_ATTACH_CONSOLE).
  { case_bool_decide; [done|]. unfold root_shell. rewrite negb_andb.
    destruct (_ || _); [done|]. rewrite (count_nil t Hok).
    destruct (decide (active t = [])) as [Hnil|Hnil].
    - rewrite bool_decide_eq_true_2 by done. by apply attach_ok.
    - by rewrite bool_decide_eq_false_2 by done. }
  destruct (operation =? REIST_TERMINAL_TRANSFER).
  { destruct target as [target|]; [|done]. unfold may_transfer.
    rewrite negb_orb. destruct (negb _ && negb _); [done|].
    destruct (index_tests t (identity_of target) Hok) as (Htmem & _).
    cbn [identity_of pid generation] in Htmem. rewrite Htmem. clear Htmem.
    destruct (decide (identity_of target ∈ active t)) as [Hin|Hn].
    - rewrite (bool_decide_eq_true_2 (_ ∈ _)) by done. by rewrite handed_over_spec by done.
    - rewrite (bool_decide_eq_false_2 (_ ∈ _)) by done. case_bool_decide as Htop; cbn [negb]; [|done].
      unfold TERMINAL_INPUT_DEPTH. rewrite (count_is t 8 Hok : (foreground_count t =? 8) = _).
      destruct (Nat.eqb_spec (length (active t)) 8); [done|].
      apply switch_push; [done| |done]. pose proof (so_count _ Hok).
      destruct (active t); [done|]. simpl in *. lia. }
  destruct (operation =? REIST_TERMINAL_RELEASE).
  { destruct (decide (identity_of caller ∈ active t)) as [Hin|Hn].
    - rewrite (bool_decide_eq_true_2 (_ ∈ _)) by done. cbn [negb].
      case_bool_decide as Htop; cbn [negb orb]; [|done].
      case_bool_decide as Hhd; [done|]. apply release_ok; [done|].
      destruct (active t) as [|x [|y l]]; simpl in *; [done|congruence|lia].
    - by rewrite (bool_decide_eq_false_2 (_ ∈ _)) by done. }
  destruct (operation =? REIST_TERMINAL_ACQUIRE_SERVICE).
  { destruct (negb (p_domain_kind caller =? _)); [done|].
    case_bool_decide as Htop; [done|]. rewrite (so_console _ Hok), negb_involutive.
    rewrite (count_is t 1 Hok : (foreground_count t =? 1) = _).
    destruct (Nat.eqb_spec (length (active t)) 1) as [E1|]; cbn [negb orb].
    - rewrite (proj2 (Z.eqb_neq _ _)) by lia. cbn [negb orb].
      apply switch_push; [done|lia|]. intros Hin. apply Htop.
      destruct (active t) as [|x [|]]; try done.
      apply list_elem_of_singleton in Hin as Hx. by rewrite <- Hx.
    - by rewrite orb_true_r. }
  destruct (operation =? REIST_TERMINAL_CHECK); [|done].
  by case_bool_decide.
Qed.

(** * The whole terminal *)
Definition terminal_ok (t : terminal_t) : Prop := queue_ok t ∧ stack_ok t.

(** The static initial state of the two modules. *)
Definition initial_terminal : terminal_t :=
  Terminal (replicate 256 0) 0 0 (replicate 8 (Identity 0 0)) 0 false 0.

Lemma initial_ok : terminal_ok initial_terminal.
Proof.
  split; [split; [done|cbn; lia]|]. constructor; [done|cbn; lia|apply NoDup_nil_2|done].
Qed.

(** What validation leaves of a request. *)
Definition request_spec (stack : list terminal_identity_t) (caller target : option Process)
    (request : option reist_terminal_input_request_t) : Z * list terminal_identity_t :=
  match caller, request with
  | Some caller, Some q =>
      if negb ((q_version q =? 1) && (q_struct_size q =? 24) && (q_reserved q =? 0) &&
               (1 <=? q_operation q) && (q_operation q <=? 5))
      then (-22, stack)
      else if q_operation q =? REIST_TERMINAL_TRANSFER then
        if bool_decide (Some (Identity (q_target_pid q) (q_target_generation q)) =
                        identity_of <$> target)
        then terminal_spec stack caller target (q_operation q)
        else (-116, stack)
      else if (q_target_pid q =? 0) && (q_target_generation q =? 0)
      then terminal_spec stack caller target (q_operation q)
      else (-22, stack)
  | _, _ => (-22, stack)
  end.

(** Changing the owner discards the bytes typed for the former one. *)
Definition owner_change (t t' : terminal_t) : Prop :=
  t' = t ∨ (active t' ≠ active t ∧ content t' = [] ∧ wakes t' = wakes t + 1).

Lemma changed_ok t t' :
  queue_ok t → stack_ok t' → same_queue t t' →
  terminal_ok (kb_input_owner_wake (kb_input_owner_changed_locked t')) ∧
  active (kb_input_owner_wake (kb_input_owner_changed_locked t')) = active t' ∧
  content (kb_input_owner_wake (kb_input_owner_changed_locked t')) = [] ∧
  wakes (kb_input_owner_wake (kb_input_owner_changed_locked t')) = wakes t + 1.
Proof.
  intros (Hl & _ & _) [? ? ? ?] (Hq & _ & _ & Hw). split; [|split; [done|split; [done|cbn; lia]]].
  split; [|by constructor]. split; [cbn; by rewrite Hq|cbn; lia].
Qed.

Lemma switch_finish t out spec :
  terminal_ok t → switch_ok t out spec →
  let '(result, t', changed) := out in
  let t'' := if (changed : bool)
             then kb_input_owner_wake (kb_input_owner_changed_locked t') else t' in
  terminal_ok t'' ∧ spec = (result, active t'') ∧ owner_change t t''.
Proof.
  intros [Hq Hs] Hsw. destruct out as [[result t'] changed].
  destruct Hsw as (-> & Hs' & Hsame & Hch). destruct changed.
  - destruct (changed_ok t t' Hq Hs' Hsame) as (Hok & Ha & Hc & Hw).
    split; [done|]. rewrite Ha. split; [done|]. right. by rewrite Ha.
  - subst t'. split; [done|]. split; [done|]. by left.
Qed.

Lemma target_matches_spec (q : reist_terminal_input_request_t) (target : Process) :
  negb (q_target_pid q =? p_pid target) || negb (q_target_generation q =? p_generation target) =
  negb (bool_decide (Some (Identity (q_target_pid q) (q_target_generation q)) =
    identity_of <$> Some target)).
Proof.
  rewrite <- negb_andb. f_equal. unfold identity_of. cbn.
  destruct (Z.eqb_spec (q_target_pid q) (p_pid target)) as [->|],
    (Z.eqb_spec (q_target_generation q) (p_generation target)) as [->|];
    symmetry; first [apply bool_decide_eq_true_2|apply bool_decide_eq_false_2]; congruence.
Qed.

Lemma control_spec t caller target request :
  terminal_ok t →
  let '(result, t') := terminal_input_control_locked t caller target request in
  terminal_ok t' ∧ request_spec (active t) caller target request = (result, active t') ∧
  owner_change t t'.
Proof.
  intros Hok. unfold terminal_input_control_locked, request_spec.
  destruct caller as [caller|]; [|by split; [|split; [|left]]].
  destruct request as [q|]; [|by split; [|split; [|left]]].
  unfold REIST_TERMINAL_INPUT_VERSION, REQUEST_SIZE, REIST_TERMINAL_ATTACH_CONSOLE,
    REIST_TERMINAL_CHECK.
  rewrite !negb_andb, <- Z.ltb_antisym, <- Z.ltb_antisym.
  destruct (_ || _ || _ || _ || _); [by split; [|split; [|left]]|]. cbv zeta.
  destruct (q_operation q =? REIST_TERMINAL_TRANSFER).
  - destruct target as [target|].
    2:{ rewrite bool_decide_eq_false_2 by done. by split; [|split; [|left]]. }
    rewrite target_matches_spec. destruct (bool_decide _); cbn [negb];
      [|by split; [|split; [|left]]].
    pose proof (switch_finish t _ _ Hok (switch_spec t caller (Some target) (q_operation q) (proj2 Hok))) as Hf.
    by destruct (control_switch _ _ _ _) as [[result t'] changed].
  - rewrite <- negb_andb. destruct (_ && _); cbn [negb]; [|by split; [|split; [|left]]].
    pose proof (switch_finish t _ _ Hok (switch_spec t caller target (q_operation q) (proj2 Hok))) as Hf.
    by destruct (control_switch _ _ _ _) as [[result t'] changed].
Qed.

(** The stack below an identity: what is left when its process ends. *)
Fixpoint below (c : terminal_identity_t) (stack : list terminal_identity_t)
    : list terminal_identity_t :=
  match stack with
  | [] => []
  | e :: stack => if decide (e = c) then [] else e :: below c stack
  end.

Lemma below_lookup c (stack : list terminal_identity_t) i :
  NoDup stack → stack !! i = Some c → below c stack = take i stack.
Proof.
  intros Hnd. revert i. induction Hnd as [|e stack He _ IH]; intros i Hi; [done|].
  cbn [below]. destruct i as [|i]; simplify_eq/=.
  - by rewrite decide_True.
  - rewrite decide_False; [by rewrite (IH i)|].
    intros ->. apply He. by eapply list_elem_of_lookup_2.
Qed.

Lemma below_not_in c (stack : list terminal_identity_t) : c ∉ stack → below c stack = stack.
Proof.
  induction stack as [|e stack IH]; [done|]. rewrite not_elem_of_cons. intros [? ?].
  cbn [below]. rewrite decide_False by done. by rewrite IH.
Qed.

Lemma below_removes c (stack : list terminal_identity_t) : c ∉ below c stack.
Proof.
  induction stack as [|e stack IH]; cbn [below]; [apply not_elem_of_nil|].
  case_decide; [apply not_elem_of_nil|]. by rewrite not_elem_of_cons.
Qed.

Lemma cleanup_spec t c :
  terminal_ok t →
  terminal_ok (terminal_input_process_cleanup t (pid c) (generation c)) ∧
  active (terminal_input_process_cleanup t (pid c) (generation c)) = below c (active t) ∧
  owner_change t (terminal_input_process_cleanup t (pid c) (generation c)).
Proof.
  intros [Hq Hs]. unfold terminal_input_process_cleanup.
  set (index := foreground_index t (pid c) (generation c)).
  destruct (foreground_index_spec t c Hs) as [[Hi Hn]|[Hi Hl]]; fold index in Hi.
  - rewrite (proj2 (Z.leb_gt 0 index)) by lia. split; [done|].
    split; [by rewrite below_not_in|by left].
  - rewrite (proj2 (Z.leb_le 0 index)) by lia. fold index in Hl.
    set (attached := if index =? 0 then false else console_attached t).
    destruct (cut_stack_ok t index attached Hs ltac:(lia)) as [Hs' Ha].
    { unfold attached. rewrite (so_console _ Hs), (proj2 (Z.eqb_neq (foreground_count t) 0)) by lia.
      by destruct (index =? 0). }
    destruct (changed_ok t (set_foreground t (foreground t) index attached) Hq Hs')
      as (Hok & Ha' & Hc & Hw); [done|].
    split; [done|]. rewrite Ha', Ha, (below_lookup c _ (Z.to_nat index)) by (done || apply Hs).
    split; [done|]. right. rewrite Ha', Ha. split; [|done].
    pose proof (lookup_lt_Some _ _ _ Hl) as Hlt. pose proof (active_length t Hs).
    intros E%(f_equal length). rewrite length_take in E. lia.
Qed.

Lemma admitted_spec t p g :
  stack_ok t →
  terminal_input_admitted_locked t p g = true ↔
  last (active t) = Some (Identity p g) ∨ (active t = [] ∧ p = 0 ∧ g = 0).
Proof.
  intros Hok. unfold terminal_input_admitted_locked. rewrite count_nil by done.
  case_bool_decide as Hnil.
  - rewrite Hnil, andb_true_iff, !Z.eqb_eq. split; [tauto|]. by intros [|(_ & ? & ?)].
  - pose proof (active_length t Hok) as Hlen. destruct Hok as [Hl Hc _ _].
    assert (0 < foreground_count t) by (destruct (active t); simpl in *; [done|lia]).
    assert (Hlast : last (active t) = Some (foreground_at t (foreground_count t - 1))).
    { rewrite last_lookup. unfold active in *. rewrite lookup_take_lt by lia.
      unfold foreground_at. rewrite nth_lookup.
      replace (pred (length (take (Z.to_nat (foreground_count t)) (foreground t))))
        with (Z.to_nat (foreground_count t - 1)) by lia.
      destruct (lookup_lt_is_Some_2 (foreground t) (Z.to_nat (foreground_count t - 1)))
        as [x ->]; [lia|done]. }
    rewrite Hlast, andb_true_iff, !Z.eqb_eq. destruct (foreground_at _ _) as [p' g']. cbn.
    split; [intros [-> ->]; by left|]. intros [[= -> ->]|[? _]]; done.
Qed.

(** ** Runs, with the identity each byte was typed for *)
Inductive event :=
| EPush (sequence : list Z)
| EPop (reader_pid reader_generation : Z)
| EControl (caller target : option Process) (request : option reist_terminal_input_request_t)
| ECleanup (c : terminal_identity_t).

Definition event_step (t : terminal_t) (e : event) : terminal_t :=
  match e with
  | EPush sequence => (input_queue_push_sequence t sequence).2
  | EPop p g => (input_queue_pop_locked t p g).2
  | EControl caller target request =>
      (terminal_input_control_locked t caller target request).2
  | ECleanup c => terminal_input_process_cleanup t (pid c) (generation c)
  end.

(** [tags] gives for every queued byte the top of the stack when it arrived. *)
Definition event_tags (t : terminal_t) (tags : list (option terminal_identity_t)) (e : event)
    : list (option terminal_identity_t) :=
  let t' := event_step t e in
  match e with
  | EPush sequence =>
      tags ++ repeat (last (active t)) (length (content t') - length (content t))
  | EPop _ _ => drop (length (content t) - length (content t')) tags
  | _ => take (length (content t')) tags
  end.

Inductive run : terminal_t → list (option terminal_identity_t) → Prop :=
| run_start : run initial_terminal []
| run_step t tags e : run t tags → run (event_step t e) (event_tags t tags e).

Definition tagged_ok (t : terminal_t) (tags : list (option terminal_identity_t)) : Prop :=
  terminal_ok t ∧ length tags = length (content t) ∧ Forall (λ tag, tag = last (active t)) tags.

Lemma same_stack_active t t' : same_stack t t' → active t' = active t.
Proof. intros (E1 & E2 & _). unfold active. by rewrite E1, E2. Qed.

Lemma same_stack_ok t t' : same_stack t t' → stack_ok t → stack_ok t'.
Proof.
  intros Hs [Hl Hc Hnd Hcon]. pose proof (same_stack_active _ _ Hs) as Ha.
  destruct Hs as (E1 & E2 & E3). constructor; by rewrite ?Ha, ?E1, ?E2, ?E3.
Qed.

Lemma owner_change_tags t t' tags :
  tagged_ok t tags → terminal_ok t' → owner_change t t' →
  tagged_ok t' (take (length (content t')) tags).
Proof.
  intros (Hok & Hl & Hf) Hok' [->|(_ & Hc & _)].
  - rewrite <- Hl, firstn_all. done.
  - rewrite Hc. split; [done|]. by rewrite Hc.
Qed.

Lemma event_ok t tags e : tagged_ok t tags → tagged_ok (event_step t e) (event_tags t tags e).
Proof.
  intros Htag. pose proof Htag as ([Hq Hs] & Hl & Hf).
  destruct e as [sequence|p g|caller target request|c]; unfold event_tags; cbn [event_step].
  - pose proof (push_spec t sequence Hq) as Hp.
    destruct (input_queue_push_sequence t sequence) as [pushed t']. cbn [snd].
    destruct Hp as (Hq' & Hss & Hp).
    assert (Hlen : (length (content t) <= length (content t'))%nat).
    { destruct pushed; [destruct Hp as (_ & -> & _); rewrite length_app; lia|by destruct Hp as [-> _]]. }
    split; [by split; [|eapply same_stack_ok]|]. rewrite (same_stack_active _ _ Hss).
    split; [rewrite length_app, repeat_length; lia|].
    apply Forall_app. split; [done|]. apply List.Forall_forall.
    by intros x ?%repeat_spec.
  - pose proof (pop_spec t p g Hq) as Hp.
    destruct (input_queue_pop_locked t p g) as [ch t']. cbn [snd].
    destruct Hp as (Hq' & Hss & Hp).
    split; [by split; [|eapply same_stack_ok]|]. rewrite (same_stack_active _ _ Hss).
    split; [|by apply Forall_drop]. rewrite length_drop.
    assert (Hlen : (length (content t') <= length (content t))%nat); [|lia].
    destruct (terminal_input_admitted_locked t p g); [|by destruct Hp as [_ ->]].
    destruct (content t) eqn:E; [destruct Hp as [_ ->]; by rewrite E|].
    destruct Hp as [_ ->]. simpl. lia.
  - pose proof (control_spec t caller target request (conj Hq Hs)) as Hc.
    destruct (terminal_input_control_locked t caller target request) as [result t'].
    cbn [snd]. destruct Hc as (? & _ & ?). by apply (owner_change_tags t).
  - destruct (cleanup_spec t c (conj Hq Hs)) as (? & _ & ?). by apply (owner_change_tags t).
Qed.

Lemma run_ok t tags : run t tags → tagged_ok t tags.
Proof. induction 1; [by split; [apply initial_ok|]|by apply event_ok]. Qed.

(** * Properties *)

(** The keyboard input is isolated: in every run of key strokes, reads,
    foreground requests and process exits, a read that consumes a byte is made by
    the process in the foreground (the kernel when there is none), gets the oldest
    byte, and that byte was typed while the same process was in the foreground. *)
Theorem keyboard_input_isolated t tags p g :
  run t tags →
  let '(ch, t') := input_queue_pop_locked t p g in
  t' ≠ t →
  ∃ rest tag tags',
    content t = ch :: rest ∧ content t' = rest ∧ tags = tag :: tags' ∧
    tag = last (active t) ∧
    (tag = Some (Identity p g) ∨ (tag = None ∧ p = 0 ∧ g = 0)).
Proof.
  intros Hrun. destruct (run_ok t tags Hrun) as ([Hq Hs] & Hl & Hf).
  pose proof (pop_spec t p g Hq) as Hp.
  destruct (input_queue_pop_locked t p g) as [ch t']. destruct Hp as (_ & _ & Hp). intros Hne.
  destruct (terminal_input_admitted_locked t p g) eqn:Ha; [|by destruct Hp].
  destruct (content t) as [|c rest]; [by destruct Hp|]. destruct Hp as [-> Hc].
  destruct tags as [|tag tags]; [done|]. apply Forall_cons_1 in Hf as [Htag _].
  exists rest, tag, tags. split_and!; try done.
  apply (admitted_spec t p g Hs) in Ha as [Ha|(Ha & -> & ->)]; [left; congruence|right].
  rewrite Htag, Ha. done.
Qed.

(** C13: the foreground control refines the abstract terminal, a stack of at most
    eight distinct identities: on every request, valid or not, the answer and the
    new stack are the abstract ones, the state is untouched unless the stack
    changes, and when it changes the queue is emptied and the readers woken. *)
Theorem terminal_control_refines t tags caller target request :
  run t tags →
  let '(result, t') := terminal_input_control_locked t caller target request in
  request_spec (active t) caller target request = (result, active t') ∧
  NoDup (active t') ∧ (length (active t') <= 8)%nat ∧
  console_attached t' = negb (bool_decide (active t' = [])) ∧
  (t' = t ∨ (active t' ≠ active t ∧ content t' = [] ∧ wakes t' = wakes t + 1)).
Proof.
  intros Hrun. destruct (run_ok t tags Hrun) as (Hok & _).
  pose proof (control_spec t caller target request Hok) as Hc.
  destruct (terminal_input_control_locked t caller target request) as [result t'].
  destruct Hc as ([Hq Hs] & Hspec & Hch). split; [done|].
  pose proof (active_length t' Hs). pose proof (so_count _ Hs).
  split; [apply Hs|]. split; [lia|]. split; [|done].
  rewrite (so_console _ Hs). by rewrite count_nil.
Qed.

(** When a process ends, it and everything stacked above it loses the
    foreground, the processes below keep their order, and no later state admits
    the ended process before it is foregrounded again. *)
Theorem terminal_cleanup_revokes t tags c :
  run t tags →
  let t' := terminal_input_process_cleanup t (pid c) (generation c) in
  active t' = below c (active t) ∧ (c ∉ active t') ∧
  (c ≠ Identity 0 0 → terminal_input_admitted_locked t' (pid c) (generation c) = false) ∧
  (c ∈ active t → content t' = []).
Proof.
  intros Hrun t'. destruct (run_ok t tags Hrun) as (Hok & _).
  destruct (cleanup_spec t c Hok) as ([Hq Hs] & Ha & Hch). fold t' in Hs, Ha, Hch.
  assert (Hn : c ∉ active t') by (rewrite Ha; apply below_removes).
  split; [done|]. split; [done|]. split.
  - intros H0. apply not_true_iff_false. rewrite (admitted_spec t' _ _ Hs).
    destruct c as [p g]. cbn. intros [Hl%last_Some_elem_of|(_ & -> & ->)]; done.
  - intros Hin. destruct Hch as [E|(_ & ? & _)]; [|done]. rewrite E in Hn. done.
Qed.

(** The byte queue is a bounded first-in first-out queue: a push appends the
    whole sequence or, when fewer slots are free, changes nothing; an admitted read
    takes the oldest byte, any other read takes nothing. *)
Theorem input_queue_fifo t tags sequence p g :
  run t tags →
  (let '(pushed, t') := input_queue_push_sequence t sequence in
   pushed = bool_decide (sequence ≠ [] ∧ (length (content t) + length sequence <= 255)%nat) ∧
   content t' = (if pushed then content t ++ sequence else content t) ∧
   active t' = active t) ∧
  (let '(ch, t') := input_queue_pop_locked t p g in
   (ch, content t') =
     (if terminal_input_admitted_locked t p g
      then (hd 0 (content t), tail (content t)) else (0, content t)) ∧
   active t' = active t).
Proof.
  intros Hrun. destruct (run_ok t tags Hrun) as ([Hq Hs] & _). split.
  - pose proof (push_spec t sequence Hq) as Hp.
    destruct (input_queue_push_sequence t sequence) as [pushed t'].
    destruct Hp as (_ & Hss & Hp). rewrite (same_stack_active _ _ Hss).
    split; [|split; [|done]]; destruct pushed.
    + symmetry. apply bool_decide_eq_true_2. destruct Hp as (? & _ & ?). split; [done|lia].
    + symmetry. apply bool_decide_eq_false_2. intros [? ?]. destruct Hp as [_ [?|?]]; [done|lia].
    + apply Hp.
    + by destruct Hp as [-> _].
  - pose proof (pop_spec t p g Hq) as Hp.
    destruct (input_queue_pop_locked t p g) as [ch t']. destruct Hp as (_ & Hss & Hp).
    rewrite (same_stack_active _ _ Hss). split; [|done].
    destruct (terminal_input_admitted_locked t p g); [|by destruct Hp as [-> ->]].
    destruct (content t) eqn:E; destruct Hp as [-> Ht]; [subst t'; by rewrite E|by rewrite Ht].
Qed.

(** ** Witnesses: the console shell starts a program, which gets two bytes *)
Definition sample_shell : Process := Proc 4 1 0 0 "/bin/shell.prg" 1.
Definition sample_child : Process := Proc 9 3 4 1 "/bin/edit.prg" 1.

Definition sample_events : list event :=
  [EControl (Some sample_shell) None (Some (Request 1 24 1 0 0 0)); EPush [97];
   EControl (Some sample_shell) (Some sample_child) (Some (Request 1 24 2 0 9 3));
   EPush [98; 99]].

Definition sample_run : terminal_t * list (option terminal_identity_t) :=
  foldl (λ '(t, tags) e, (event_step t e, event_tags t tags e)) (initial_terminal, [])
    sample_events.

Lemma sample_runs : run sample_run.1 sample_run.2.
Proof.
  unfold sample_run, sample_events. cbn [foldl].
  repeat first [apply run_start|apply run_step].
Qed.

Lemma keyboard_input_isolated_witness :
  content sample_run.1 = [98; 99] ∧
  (input_queue_pop_locked sample_run.1 4 1).1 = 0 ∧
  ∃ rest tag tags', content sample_run.1 = 98 :: rest ∧
    content (input_queue_pop_locked sample_run.1 9 3).2 = rest ∧
    sample_run.2 = tag :: tags' ∧ tag = last (active sample_run.1) ∧
    (tag = Some (Identity 9 3) ∨ (tag = None ∧ 9 = 0 ∧ 3 = 0)).
Proof.
  split; [vm_compute; reflexivity|]. split; [vm_compute; reflexivity|].
  pose proof (keyboard_input_isolated sample_run.1 sample_run.2 9 3 sample_runs) as H.
  assert (E : input_queue_pop_locked sample_run.1 9 3 =
    (98, (input_queue_pop_locked sample_run.1 9 3).2)) by (vm_compute; reflexivity).
  rewrite E in H. apply H. intros Heq. apply (f_equal input_queue_head) in Heq.
  vm_compute in Heq. discriminate Heq.
Defined.

Lemma terminal_control_refines_witness :
  (terminal_input_control_locked sample_run.1 (Some sample_child) None
     (Some (Request 1 24 3 0 0 0))).1 = 0 ∧
  (let '(result, t') := terminal_input_control_locked sample_run.1 (Some sample_child) None
      (Some (Request 1 24 3 0 0 0)) in NoDup (active t')).
Proof.
  split; [vm_compute; reflexivity|].
  pose proof (terminal_control_refines sample_run.1 sample_run.2 (Some sample_child) None
    (Some (Request 1 24 3 0 0 0)) sample_runs) as H.
  destruct (terminal_input_control_locked _ _ _ _). apply H.
Defined.

Lemma terminal_cleanup_revokes_witness :
  active (terminal_input_process_cleanup sample_run.1 4 1) = [] ∧
  Identity 4 1 ∉ active (terminal_input_process_cleanup sample_run.1 4 1).
Proof.
  split; [vm_compute; reflexivity|].
  apply (terminal_cleanup_revokes sample_run.1 sample_run.2 (Identity 4 1) sample_runs).
Defined.

Lemma input_queue_fifo_witness :
  (let '(pushed, t') := input_queue_push_sequence sample_run.1 [100] in
   content t' = if pushed then [98; 99; 100] else [98; 99]) ∧
  hd 0 (content sample_run.1) = 98.
Proof.
  split; [|vm_compute; reflexivity].
  pose proof (input_queue_fifo sample_run.1 sample_run.2 [100] 9 3 sample_runs) as [H _].
  destruct (input_queue_push_sequence sample_run.1 [100]) as [pushed t'].
  destruct H as (_ & -> & _). by destruct pushed.
Defined.
