(* ===== verification/PathResolver.v ===== *)
(** Shell path resolution: src/kernel/shell/path_resolver.c and
    src/kernel/shell/path_resolver.h, with the character functions of
    src/lib/libc/string.c they call.

    [Module PathResolver] writes into caller buffers of fixed size; a write
    outside its buffer is [None], as is running out of the fuel of a loop, so
    the theorems that a call returns [Some] say that it terminates and stays
    inside its buffer.  A C string argument is the list of its bytes without
    the terminator; reading at or past the terminator gives 0.  Pointers are
    references and never NULL. *)
From S2P Require Import Prelude.

Module PathResolver.

Definition SHELL_PATH_MAX : Z := 256.
Definition SHELL_DRIVE_SELECTOR_MAX : Z := 8.
Definition SHELL_PATH_OK : Z := 0.
Definition SHELL_PATH_INVALID : Z := -1.
Definition SHELL_PATH_TOO_LONG : Z := -2.

Definition slash : Z := 47.
Definition backslash : Z := 92.
Definition dot : Z := 46.
Definition colon : Z := 58.

Definition tolower (ch : Z) : Z := if (65 <=? ch) && (ch <=? 90) then ch - 65 + 97 else ch.
Definition toupper (ch : Z) : Z := if (97 <=? ch) && (ch <=? 122) then ch - 97 + 65 else ch.
Definition isalpha (c : Z) : bool :=
  (65 <=? c) && (c <=? 90) || (97 <=? c) && (c <=? 122).

Definition char_at (s : list Z) (index : Z) : Z := nth (Z.to_nat index) s 0.
Definition strlen (s : list Z) : Z := Z.of_nat (length s).

(** Buffer accesses. *)
Definition load (buffer : list Z) (index : Z) : option Z :=
  if (0 <=? index) && (index <? strlen buffer) then Some (char_at buffer index) else None.
Definition store (buffer : list Z) (index value : Z) : option (list Z) :=
  if (0 <=? index) && (index <? strlen buffer)
  then Some (<[Z.to_nat index := value]> buffer) else None.

(** Copying bytes to consecutive positions; returns the position after them. *)
Fixpoint write_chars (buffer : list Z) (index : Z) (bytes : list Z) : option (list Z * Z) :=
  match bytes with
  | [] => Some (buffer, index)
  | c :: bytes =>
      match store buffer index c with
      | Some buffer => write_chars buffer (index + 1) bytes
      | None => None
      end
  end.

Definition strcpy (buffer : list Z) (index : Z) (src : list Z) : option (list Z) :=
  match write_chars buffer index src with
  | Some (buffer, index) => store buffer index 0
  | None => None
  end.

Definition shell_path_separator (value : Z) : bool :=
  (value =? slash) || (value =? backslash).

Definition shell_path_drive_kind (value : list Z) : bool :=
  if (char_at value 0 =? 0) || (char_at value 1 =? 0) || (char_at value 2 =? 0) ||
     (char_at value 3 =? 0)
  then false
  else
    ((tolower (char_at value 0) =? 104) && (tolower (char_at value 1) =? 100) &&
     (tolower (char_at value 2) =? 100) ||
     (tolower (char_at value 0) =? 102) && (tolower (char_at value 1) =? 100) &&
     (tolower (char_at value 2) =? 100)) &&
    (48 <=? char_at value 3) && (char_at value 3 <=? 57).

Definition shell_path_copy_drive (output input : list Z) (length : Z) : option (list Z) :=
  let copy_length :=
    if SHELL_DRIVE_SELECTOR_MAX <=? length then SHELL_DRIVE_SELECTOR_MAX - 1 else length in
  strcpy output 0 (map tolower (take (Z.to_nat copy_length) input)).

(** Result, selector buffer, remainder. *)
Definition shell_path_split_drive (input selector : list Z)
    : option (Z * list Z * list Z) :=
  match store selector 0 0 with
  | None => None
  | Some selector =>
      if isalpha (char_at input 0) && (char_at input 1 =? colon) then
        match store selector 0 (toupper (char_at input 0)) with
        | None => None
        | Some selector =>
            match store selector 1 0 with
            | None => None
            | Some selector => Some (SHELL_PATH_OK, selector, drop 2 input)
            end
        end
      else if (5 <=? strlen input) && shell_path_drive_kind input &&
              (char_at input 4 =? colon) then
        match shell_path_copy_drive selector input 4 with
        | None => None
        | Some selector => Some (SHELL_PATH_OK, selector, drop 5 input)
        end
      else if shell_path_separator (char_at input 0) && (5 <=? strlen input) &&
              shell_path_drive_kind (drop 1 input) &&
              ((char_at input 5 =? 0) || shell_path_separator (char_at input 5)) then
        match shell_path_copy_drive selector (drop 1 input) 4 with
        | None => None
        | Some selector =>
            Some (SHELL_PATH_OK, selector,
                  if char_at input 5 =? 0 then [slash] else drop 5 input)
        end
      else Some (SHELL_PATH_OK, selector, input)
  end.

(** ** Applying a path to the output buffer *)
Fixpoint skip_separators (cursor : list Z) : list Z :=
  match cursor with
  | c :: rest => if shell_path_separator c then skip_separators rest else cursor
  | [] => []
  end.

Fixpoint take_segment (cursor : list Z) : list Z * list Z :=
  match cursor with
  | c :: rest =>
      if shell_path_separator c then ([], cursor)
      else let '(segment, rest) := take_segment rest in (c :: segment, rest)
  | [] => ([], [])
  end.

(** The loop that moves back to the last separator. *)
Fixpoint pop_segment (fuel : nat) (output : list Z) (output_length : Z) : option Z :=
  match fuel with
  | O => None
  | S fuel =>
      if 1 <? output_length then
        match load output (output_length - 1) with
        | None => None
        | Some c =>
            if c =? slash then Some output_length
            else pop_segment fuel output (output_length - 1)
        end
      else Some output_length
  end.

(** Result, buffer and length; the length is the caller's variable. *)
Fixpoint apply_loop (fuel : nat) (output : list Z) (output_length : Z) (cursor : list Z)
    : option (Z * list Z * Z) :=
  match fuel with
  | O => None
  | S fuel =>
      match skip_separators cursor with
      | [] => Some (SHELL_PATH_OK, output, output_length)
      | c :: rest =>
          let '(segment, cursor) := take_segment (c :: rest) in
          let segment_length := strlen segment in
          if (segment_length =? 1) && (char_at segment 0 =? dot)
          then apply_loop fuel output output_length cursor
          else if (segment_length =? 2) && (char_at segment 0 =? dot) &&
                  (char_at segment 1 =? dot) then
            if 1 <? output_length then
              match pop_segment (Z.to_nat output_length) output output_length with
              | None => None
              | Some output_length =>
                  let output_length :=
                    if 1 <? output_length then output_length - 1 else output_length in
                  match store output output_length 0 with
                  | None => None
                  | Some output => apply_loop fuel output output_length cursor
                  end
              end
            else apply_loop fuel output output_length cursor
          else
            let separator_length := if 1 <? output_length then 1 else 0 in
            if SHELL_PATH_MAX - 1 - separator_length <? output_length
            then Some (SHELL_PATH_TOO_LONG, output, output_length)
            else
              let available := SHELL_PATH_MAX - 1 - output_length - separator_length in
              if available <? segment_length
              then Some (SHELL_PATH_TOO_LONG, output, output_length)
              else
                match (if negb (separator_length =? 0)
                       then write_chars output output_length [slash]
                       else Some (output, output_length)) with
                | None => None
                | Some (output, output_length) =>
                    match write_chars output output_length segment with
                    | None => None
                    | Some (output, output_length) =>
                        match store output output_length 0 with
                        | None => None
                        | Some output => apply_loop fuel output output_length cursor
                        end
                    end
                end
      end
  end.

Definition shell_path_apply (output : list Z) (output_length : Z) (path : list Z)
    (reset : bool) : option (Z * list Z * Z) :=
  if reset then
    match strcpy output 0 [slash] with
    | None => None
    | Some output => apply_loop (S (length path)) output 1 path
    end
  else apply_loop (S (length path)) output output_length path.

Definition shell_path_normalize (current_path input output : list Z)
    : option (Z * list Z) :=
  if negb (char_at current_path 0 =? slash) then Some (SHELL_PATH_INVALID, output)
  else
    match shell_path_apply output 0 current_path true with
    | None => None
    | Some (result, output, output_length) =>
        if negb (result =? SHELL_PATH_OK) then Some (result, output)
        else
          let absolute := shell_path_separator (char_at input 0) in
          match shell_path_apply output output_length input absolute with
          | None => None
          | Some (result, output, _) => Some (result, output)
          end
    end.

Definition shell_path_join_mount (mount_point drive_path output : list Z)
    : option (Z * list Z) :=
  if negb (char_at mount_point 0 =? slash) || negb (char_at drive_path 0 =? slash)
  then Some (SHELL_PATH_INVALID, output)
  else
    let mount_length := strlen mount_point in
    let path_length := strlen drive_path in
    if (mount_length =? 0) || (SHELL_PATH_MAX <=? mount_length) || (path_length =? 0) ||
       (SHELL_PATH_MAX <=? path_length) ||
       ((1 <? mount_length) && (char_at mount_point (mount_length - 1) =? slash))
    then Some (SHELL_PATH_INVALID, output)
    else if mount_length =? 1 then
      if SHELL_PATH_MAX <=? path_length then Some (SHELL_PATH_TOO_LONG, output)
      else option_map (λ output, (SHELL_PATH_OK, output)) (strcpy output 0 drive_path)
    else if path_length =? 1 then
      option_map (λ output, (SHELL_PATH_OK, output)) (strcpy output 0 mount_point)
    else if SHELL_PATH_MAX <=? mount_length + path_length
    then Some (SHELL_PATH_TOO_LONG, output)
    else
      match strcpy output 0 mount_point with
      | None => None
      | Some output =>
          option_map (λ output, (SHELL_PATH_OK, output)) (strcpy output mount_length drive_path)
      end.

Definition shell_path_to_dos (drive_path output : list Z) : option (Z * list Z) :=
  if negb (char_at drive_path 0 =? slash) then Some (SHELL_PATH_INVALID, output)
  else if SHELL_PATH_MAX <=? strlen drive_path then Some (SHELL_PATH_TOO_LONG, output)
  else
    option_map (λ output, (SHELL_PATH_OK, output))
      (strcpy output 0 (map (λ c, if c =? slash then backslash else c) drive_path)).

End PathResolver.

Import PathResolver.

(** * Buffers *)
Definition begins (buffer s : list Z) : Prop :=
  length buffer = 256%nat ∧ ∃ rest, buffer = s ++ rest.

(** The buffer contains the C string [s]. *)
Definition holds_string (buffer s : list Z) : Prop := begins buffer (s ++ [0]).

Lemma begins_app buffer s t : begins buffer (s ++ t) → begins buffer s.
Proof. intros [Hl [rest ->]]. split; [done|]. exists (t ++ rest). by rewrite <- app_assoc. Qed.

Lemma begins_nil buffer : length buffer = 256%nat → begins buffer [].
Proof. intros. split; [done|]. by exists buffer. Qed.

Lemma store_spec_path buffer s c :
  begins buffer s → strlen s < 256 →
  ∃ buffer', store buffer (strlen s) c = Some buffer' ∧ begins buffer' (s ++ [c]).
Proof.
  unfold store, strlen. intros [Hl [rest ->]] Hs. rewrite Hl.
  rewrite (proj2 (Z.leb_le 0 _)), (proj2 (Z.ltb_lt _ (Z.of_nat 256))) by lia. cbn [andb].
  eexists. split; [done|]. rewrite Nat2Z.id. rewrite length_app in Hl.
  destruct rest as [|r rest]; [simpl in Hl; lia|].
  rewrite insert_app_r_alt, Nat.sub_diag by lia. cbn.
  split; [rewrite !length_app in *; simpl in *; lia|]. exists rest. by rewrite <- app_assoc.
Qed.

Lemma write_chars_spec buffer s w :
  begins buffer s → strlen s + strlen w <= 256 →
  ∃ buffer', write_chars buffer (strlen s) w = Some (buffer', strlen s + strlen w) ∧
    begins buffer' (s ++ w).
Proof.
  unfold strlen. revert buffer s. induction w as [|c w IH]; intros buffer s Hb Hl;
    cbn [write_chars length] in *.
  - exists buffer. rewrite app_nil_r. split; [f_equal; f_equal; lia|done].
  - destruct (store_spec_path buffer s c Hb) as (b1 & E & Hb1); [unfold strlen; lia|].
    unfold strlen in E. rewrite E.
    destruct (IH b1 (s ++ [c]) Hb1) as (b2 & E2 & Hb2); [rewrite length_app; simpl; lia|].
    rewrite length_app in E2. cbn [length] in E2.
    replace (Z.of_nat (length s + 1)) with (Z.of_nat (length s) + 1) in E2 by lia.
    rewrite E2. exists b2. split; [f_equal; f_equal; lia|]. by rewrite <- app_assoc in Hb2.
Qed.

Lemma strcpy_spec buffer s w :
  begins buffer s → strlen s + strlen w < 256 →
  ∃ buffer', strcpy buffer (strlen s) w = Some buffer' ∧ holds_string buffer' (s ++ w).
Proof.
  intros Hb Hl. unfold strcpy.
  destruct (write_chars_spec buffer s w Hb) as (b1 & -> & Hb1); [lia|].
  destruct (store_spec_path b1 (s ++ w) 0 Hb1) as (b2 & E & Hb2);
    [unfold strlen in *; rewrite length_app; lia|].
  unfold strlen in *. rewrite length_app, Nat2Z.inj_add in E. rewrite E. by exists b2.
Qed.

(** * Paths as lists of segments *)
Definition separator_free (s : list Z) : Prop :=
  Forall (λ c, shell_path_separator c = false) s.

Fixpoint pieces (s : list Z) : list (list Z) :=
  match s with
  | [] => [[]]
  | c :: s =>
      if shell_path_separator c then [] :: pieces s
      else match pieces s with
           | [] => [[c]]
           | p :: ps => (c :: p) :: ps
           end
  end.

(** The segments of a path: its maximal separator-free parts. *)
Definition segments (s : list Z) : list (list Z) := filter (λ p, p ≠ []) (pieces s).

Definition render (segs : list (list Z)) : list Z :=
  match segs with
  | [] => [slash]
  | _ => concat (map (λ p, slash :: p) segs)
  end.

Definition is_dot (p : list Z) : bool := bool_decide (p = [dot]).
Definition is_dotdot (p : list Z) : bool := bool_decide (p = [dot; dot]).

(** The reference resolution: a fold over the segments, with a stack. *)
Fixpoint resolve (stack path : list (list Z)) : option (list (list Z)) :=
  match path with
  | [] => Some stack
  | p :: path =>
      if is_dot p then resolve stack path
      else if is_dotdot p then resolve (removelast stack) path
      else if strlen (render (stack ++ [p])) <=? 255 then resolve (stack ++ [p]) path
      else None
  end.

Definition segment_ok (p : list Z) : Prop :=
  p ≠ [] ∧ separator_free p ∧ p ≠ [dot] ∧ p ≠ [dot; dot].

(** ** Splitting *)
Lemma pieces_ne s : pieces s ≠ [].
Proof. destruct s as [|c s]; [done|]. cbn. case_match; [done|]. by case_match. Qed.

Lemma segments_separator c s :
  shell_path_separator c = true → segments (c :: s) = segments s.
Proof. intros E. unfold segments. cbn [pieces]. by rewrite E. Qed.

Lemma segments_skip s : segments s = segments (skip_separators s).
Proof.
  induction s as [|c s IH]; [done|]. cbn [skip_separators].
  destruct (shell_path_separator c) eqn:E; [|done]. by rewrite segments_separator.
Qed.

Lemma pieces_app p s :
  separator_free p → pieces (p ++ s) =
    match pieces s with [] => [p] | q :: qs => (p ++ q) :: qs end.
Proof.
  induction 1 as [|c p Hc _ IH]; cbn [app pieces].
  - pose proof (pieces_ne s). by destruct (pieces s).
  - rewrite Hc, IH. by destruct (pieces s).
Qed.

Lemma take_segment_spec s :
  let '(p, rest) := take_segment s in
  s = p ++ rest ∧ separator_free p ∧
  match rest with [] => True | c :: _ => shell_path_separator c = true end.
Proof.
  induction s as [|c s IH]; cbn [take_segment].
  - by repeat constructor.
  - destruct (shell_path_separator c) eqn:E; [by repeat constructor|].
    destruct (take_segment s) as [p rest]. destruct IH as (-> & Hp & Hrest).
    split; [done|]. split; [by constructor|done].
Qed.

Lemma segments_cons p rest :
  separator_free p → p ≠ [] →
  match rest with [] => True | c :: _ => shell_path_separator c = true end →
  segments (p ++ rest) = p :: segments rest.
Proof.
  intros Hp Hne Hrest. unfold segments. rewrite pieces_app by done.
  destruct rest as [|c rest]; cbn [pieces].
  - rewrite app_nil_r. by rewrite !filter_cons, decide_True, decide_False by naive_solver.
  - rewrite Hrest. rewrite app_nil_r. by rewrite !filter_cons, decide_True, (decide_False (P := [] ≠ [])) by naive_solver.
Qed.

Lemma skip_head s :
  match skip_separators s with
  | [] => True
  | c :: _ => shell_path_separator c = false
  end.
Proof.
  induction s as [|c s IH]; cbn; [done|]. by destruct (shell_path_separator c) eqn:E.
Qed.

Lemma skip_length s : (length (skip_separators s) <= length s)%nat.
Proof. induction s as [|c s IH]; cbn; [done|]. destruct (shell_path_separator c); simpl; lia. Qed.

(** One turn of the loop takes the first segment. *)
Lemma next_segment s :
  match skip_separators s with
  | [] => segments s = []
  | c :: rest =>
      let '(p, cursor) := take_segment (c :: rest) in
      segments s = p :: segments cursor ∧ separator_free p ∧ p ≠ [] ∧
      (length cursor < length s)%nat
  end.
Proof.
  rewrite segments_skip. pose proof (skip_head s) as Hh. pose proof (skip_length s) as Hl.
  destruct (skip_separators s) as [|c rest]; [done|].
  pose proof (take_segment_spec (c :: rest)) as Ht.
  assert (Hne : (take_segment (c :: rest)).1 ≠ []).
  { cbn [take_segment]. rewrite Hh. by destruct (take_segment rest). }
  destruct (take_segment (c :: rest)) as [p cursor]. destruct Ht as (E & Hp & Hrest).
  cbn [fst] in Hne. rewrite E in Hl |- *. split; [by apply segments_cons|].
  split; [done|]. split; [done|]. rewrite length_app in Hl. destruct p; simpl in *; [done|lia].
Qed.

(** ** Rendering *)
Lemma render_length segs : 1 <= strlen (render segs).
Proof. destruct segs; unfold strlen; simpl; lia. Qed.

Lemma render_concat segs : segs ≠ [] → render segs = concat (map (λ p, slash :: p) segs).
Proof. by destruct segs. Qed.

Lemma render_snoc segs p :
  render (segs ++ [p]) = (if decide (segs = []) then [] else render segs) ++ slash :: p.
Proof.
  rewrite render_concat by (by destruct segs). rewrite map_app, concat_app. cbn [map concat].
  rewrite app_nil_r. case_decide as E; [by subst|]. by rewrite render_concat.
Qed.

Lemma render_one segs :
  Forall segment_ok segs → (strlen (render segs) = 1 ↔ segs = []).
Proof.
  intros Hok. split; [|by intros ->].
  destruct Hok as [|p segs [Hp _] _]; [done|]. unfold strlen, render.
  cbn [map concat]. rewrite length_app. destruct p; [done|]. simpl. lia.
Qed.

Lemma segments_render segs : Forall segment_ok segs → segments (render segs) = segs.
Proof.
  intros Hok. destruct (decide (segs = [])) as [->|Hne]; [done|].
  rewrite render_concat by done.
  clear Hne. induction Hok as [|p segs (Hp & Hs & _) _ IH]; [done|].
  cbn [map concat]. rewrite <- app_comm_cons, segments_separator by done.
  rewrite segments_cons; [by rewrite IH|done|done|]. by destruct segs.
Qed.

Lemma render_mono segs p : strlen (render segs) <= strlen (render (segs ++ [p])).
Proof.
  rewrite render_snoc. case_decide as E; [subst; unfold strlen; simpl; lia|].
  unfold strlen. rewrite length_app. lia.
Qed.

Lemma resolve_self stack segs :
  Forall segment_ok segs → strlen (render (stack ++ segs)) <= 255 →
  resolve stack segs = Some (stack ++ segs).
Proof.
  intros Hok. revert stack. induction Hok as [|p segs (_ & _ & Hd & Hdd) Hok IH];
    intros stack Hl; cbn [resolve]; [by rewrite app_nil_r|].
  unfold is_dot, is_dotdot. rewrite !bool_decide_eq_false_2 by done.
  assert (Hle : strlen (render (stack ++ [p])) <= 255).
  { etrans; [|exact Hl]. clear. revert p. induction segs as [|q segs IH] using rev_ind; intros p; [done|].
    etrans; [apply IH|]. rewrite !app_comm_cons, !app_assoc. apply render_mono. }
  rewrite (proj2 (Z.leb_le _ _)) by done.
  assert (E : (stack ++ [p]) ++ segs = stack ++ p :: segs) by (by rewrite <- app_assoc).
  rewrite IH by (by rewrite E). by rewrite E.
Qed.

(** * The loop against the reference *)
Lemma strlen_app s t : strlen (s ++ t) = strlen s + strlen t.
Proof. unfold strlen. rewrite length_app. lia. Qed.

Lemma load_spec_path buffer s c :
  begins buffer (s ++ [c]) → load buffer (strlen s) = Some c.
Proof.
  intros [Hl [rest ->]]. unfold load, strlen, char_at. rewrite Hl.
  rewrite !length_app in Hl. simpl in Hl.
  rewrite (proj2 (Z.leb_le 0 _)), (proj2 (Z.ltb_lt _ _)) by lia. cbn [andb].
  rewrite Nat2Z.id, <- app_assoc. by rewrite app_nth2, Nat.sub_diag by lia.
Qed.

Lemma pop_segment_spec fuel output pre p :
  begins output (pre ++ slash :: p) → separator_free p → (length p < fuel)%nat →
  pop_segment fuel output (strlen pre + 1 + strlen p) = Some (strlen pre + 1).
Proof.
  revert fuel. induction p as [|c p IH] using rev_ind; intros fuel Hb Hp Hf;
    (destruct fuel as [|fuel]; [lia|]); cbn [pop_segment].
  - change (strlen []) with 0. rewrite Z.add_0_r, Z.add_simpl_r.
    destruct (1 <? strlen pre + 1); [|done]. by rewrite (load_spec_path output pre slash).
  - assert (E : strlen pre + 1 + strlen (p ++ [c]) = strlen (pre ++ slash :: p) + 1)
      by (unfold strlen; rewrite !length_app; simpl; lia).
    rewrite E, Z.add_simpl_r. rewrite (proj2 (Z.ltb_lt 1 _))
      by (unfold strlen; rewrite length_app; simpl; lia).
    rewrite (load_spec_path _ _ c) by (by rewrite <- app_assoc).
    apply Forall_app in Hp as [Hp Hc]. apply Forall_cons_1 in Hc as [Hc _].
    unfold shell_path_separator in Hc. apply orb_false_iff in Hc as [-> _].
    replace (strlen (pre ++ slash :: p)) with (strlen pre + 1 + strlen p)
      by (unfold strlen; rewrite length_app; simpl; lia).
    apply IH; [|done|rewrite length_app in Hf; simpl in Hf; lia].
    apply (begins_app _ _ [c]). by rewrite <- app_assoc.
Qed.

(** Removing the last segment in the buffer. *)
Lemma pop_last output segs :
  holds_string output (render segs) → Forall segment_ok segs → segs ≠ [] →
  strlen (render segs) <= 255 →
  ∃ output' n, pop_segment (Z.to_nat (strlen (render segs))) output (strlen (render segs)) = Some n ∧
    let n := if 1 <? n then n - 1 else n in
    store output n 0 = Some output' ∧ n = strlen (render (removelast segs)) ∧
    holds_string output' (render (removelast segs)).
Proof.
  intros Hb Hok Hne Hl. destruct (exists_last Hne) as (segs' & p & ->).
  rewrite removelast_last. apply Forall_app in Hok as [Hok' Hp]. apply Forall_cons_1 in Hp as [Hp _].
  set (pre := if decide (segs' = []) then [] else render segs') in *.
  assert (E : render (segs' ++ [p]) = pre ++ slash :: p) by apply render_snoc.
  rewrite E in *. apply begins_app in Hb.
  assert (Hn : strlen (pre ++ slash :: p) = strlen pre + 1 + strlen p)
    by (rewrite strlen_app; unfold strlen; simpl; lia).
  rewrite Hn. pose proof (pop_segment_spec (Z.to_nat (strlen pre + 1 + strlen p)) output pre p Hb)
    as Hpop. rewrite Hpop by (first [apply Hp|unfold strlen; lia]).
  unfold pre in *. clear pre. case_decide as Hnil.
  - subst segs'. change (strlen []) with 0 in *. cbn [Z.add Z.ltb Z.compare Pos.compare Pos.compare_cont].
    destruct (store_spec_path output [slash] 0) as (o & Eo & Hbo); [|done|].
    { apply (begins_app _ _ p). by cbn. }
    by exists o, 1.
  - pose proof (render_length segs').
    destruct (store_spec_path output (render segs') 0) as (o & Eo & Hbo);
      [by apply begins_app in Hb|rewrite strlen_app in Hl; unfold strlen in *; simpl in *; lia|].
    exists o, (strlen (render segs') + 1). split; [done|]. cbv zeta.
    rewrite (proj2 (Z.ltb_lt _ _)), Z.add_simpl_r by lia. done.
Qed.

(** Appending a segment in the buffer. *)
Lemma push_last output segs p :
  holds_string output (render segs) → Forall segment_ok segs →
  strlen (render (segs ++ [p])) <= 255 →
  ∃ o1 n1 o2 n2 o3,
    (if negb ((if 1 <? strlen (render segs) then 1 else 0) =? 0)
     then write_chars output (strlen (render segs)) [slash]
     else Some (output, strlen (render segs))) = Some (o1, n1) ∧
    write_chars o1 n1 p = Some (o2, n2) ∧ store o2 n2 0 = Some o3 ∧
    n2 = strlen (render (segs ++ [p])) ∧ holds_string o3 (render (segs ++ [p])).
Proof.
  intros Hb Hok Hl. apply begins_app in Hb. rewrite render_snoc in *.
  pose proof (render_length segs) as H1. pose proof (render_one segs Hok) as Hone.
  assert (Hstep : ∀ o n pre, begins o (pre ++ [slash]) → n = strlen pre + 1 →
    strlen (pre ++ slash :: p) <= 255 →
    ∃ o2 n2 o3, write_chars o n p = Some (o2, n2) ∧ store o2 n2 0 = Some o3 ∧
      n2 = strlen (pre ++ slash :: p) ∧ holds_string o3 (pre ++ slash :: p)).
  { intros o n pre Ho -> Hle.
    assert (Es : strlen pre + 1 = strlen (pre ++ [slash])) by (rewrite strlen_app; done).
    assert (Ea : (pre ++ [slash]) ++ p = pre ++ slash :: p) by (by rewrite <- app_assoc).
    rewrite Es, <- Ea in *. rewrite strlen_app in Hle.
    destruct (write_chars_spec o (pre ++ [slash]) p Ho) as (o2 & -> & Ho2); [lia|].
    destruct (store_spec_path o2 ((pre ++ [slash]) ++ p) 0 Ho2) as (o3 & E3 & Ho3);
      [rewrite strlen_app; lia|].
    rewrite (strlen_app _ p) in E3. exists o2, (strlen (pre ++ [slash]) + strlen p), o3.
    split_and!; [done|done|by rewrite (strlen_app _ p)|done]. }
  case_decide as Hnil.
  - subst segs. change (strlen (render [])) with 1. cbn [Z.ltb Z.compare Pos.compare Pos.compare_cont Z.eqb negb].
    destruct (Hstep output 1 []) as (o2 & n2 & o3 & ? & ? & ? & ?); [done..|].
    by exists output, 1, o2, n2, o3.
  - assert (1 < strlen (render segs)) by (destruct (decide (strlen (render segs) = 1)); [tauto|lia]).
    rewrite (proj2 (Z.ltb_lt _ _)) by done. cbn [Z.eqb negb].
    rewrite strlen_app in Hl. unfold strlen in Hl at 2. simpl in Hl.
    destruct (write_chars_spec output (render segs) [slash] Hb) as (o1 & -> & Ho1);
      [unfold strlen at 2; simpl; lia|].
    change (strlen [slash]) with 1.
    destruct (Hstep o1 (strlen (render segs) + 1) (render segs)) as (o2 & n2 & o3 & ? & ? & ? & ?);
      [done|done|rewrite strlen_app; unfold strlen at 2; simpl; lia|].
    by exists o1, (strlen (render segs) + 1), o2, n2, o3.
Qed.

Lemma dot_tests p :
  p ≠ [] →
  ((strlen p =? 1) && (char_at p 0 =? dot)) = is_dot p ∧
  ((strlen p =? 2) && (char_at p 0 =? dot) && (char_at p 1 =? dot)) = is_dotdot p.
Proof.
  intros Hne. unfold is_dot, is_dotdot, strlen, char_at.
  destruct p as [|a [|b [|c p]]]; [done|..]; cbn [length].
  - change (Z.of_nat 1 =? 1) with true. change (Z.of_nat 1 =? 2) with false. cbn [andb].
    change (nth (Z.to_nat 0) [a] 0) with a.
    rewrite (bool_decide_eq_false_2 ([a] = [dot; dot])) by done. split; [|done].
    destruct (Z.eqb_spec a dot) as [->|]; symmetry;
      [by apply bool_decide_eq_true_2|apply bool_decide_eq_false_2; congruence].
  - change (Z.of_nat 2 =? 1) with false. change (Z.of_nat 2 =? 2) with true. cbn [andb].
    rewrite (bool_decide_eq_false_2 ([a; b] = [dot])) by done. split; [done|].
    change (nth (Z.to_nat 1) [a; b] 0) with b. change (nth (Z.to_nat 0) [a; b] 0) with a.
    destruct (Z.eqb_spec a dot) as [->|]; [destruct (Z.eqb_spec b dot) as [->|]|]; symmetry;
      first [by apply bool_decide_eq_true_2|apply bool_decide_eq_false_2; congruence].
  - rewrite (proj2 (Z.eqb_neq (Z.of_nat _) 1)), (proj2 (Z.eqb_neq (Z.of_nat _) 2)) by lia.
    cbn [andb]. by rewrite !bool_decide_eq_false_2.
Qed.

Lemma resolve_ok stack path segs :
  Forall segment_ok stack → Forall (λ p, p ≠ [] ∧ separator_free p) path →
  strlen (render stack) <= 255 → resolve stack path = Some segs →
  Forall segment_ok segs ∧ strlen (render segs) <= 255.
Proof.
  intros Hs Hp. revert stack Hs. induction Hp as [|p path [Hne Hsf] Hp IH]; intros stack Hs Hl;
    cbn [resolve]; [by intros [= <-]|].
  unfold is_dot, is_dotdot. case_bool_decide as Hd; [by apply IH|].
  case_bool_decide as Hdd.
  - destruct (decide (stack = [])) as [->|Hn]; [by apply IH|].
    destruct (exists_last Hn) as (stack' & q & ->). rewrite removelast_last.
    apply Forall_app in Hs as [Hs _]. apply IH; [done|]. pose proof (render_mono stack' q). lia.
  - destruct (Z.leb_spec (strlen (render (stack ++ [p]))) 255); [|done]. apply IH; [|done].
    apply Forall_app. split; [done|]. by repeat constructor.
Qed.

Lemma apply_loop_spec fuel output segs path :
  holds_string output (render segs) → Forall segment_ok segs → strlen (render segs) <= 255 →
  (length path < fuel)%nat →
  match resolve segs (segments path) with
  | Some segs' => ∃ output',
      apply_loop fuel output (strlen (render segs)) path =
        Some (SHELL_PATH_OK, output', strlen (render segs')) ∧
      holds_string output' (render segs')
  | None => ∃ output' n,
      apply_loop fuel output (strlen (render segs)) path = Some (SHELL_PATH_TOO_LONG, output', n)
  end.
Proof.
  revert output segs path. induction fuel as [|fuel IH]; intros output segs path Hb Hok Hl Hf; [lia|].
  cbn [apply_loop]. pose proof (next_segment path) as Hnext.
  destruct (skip_separators path) as [|c rest].
  { rewrite Hnext. by exists output. }
  destruct (take_segment (c :: rest)) as [p cursor]. destruct Hnext as (-> & Hsf & Hne & Hlen).
  destruct (dot_tests p Hne) as [-> ->]. cbn [resolve].
  destruct (is_dot p) eqn:Hd; [apply IH; (done || lia)|].
  destruct (is_dotdot p) eqn:Hdd.
  - pose proof (render_one segs Hok) as Hone. pose proof (render_length segs).
    destruct (Z.ltb_spec 1 (strlen (render segs))) as [Hlt|Hge].
    + destruct (pop_last output segs Hb Hok) as (o & n & -> & -> & -> & Ho);
        [intros ->; done|done|].
      assert (Hr : Forall segment_ok (removelast segs) ∧ strlen (render (removelast segs)) <= 255).
      { apply (resolve_ok segs [[dot; dot]]); [done| |done|done]. repeat constructor; done. }
      apply IH; [done|apply Hr|apply Hr|lia].
    + assert (segs = []) as -> by (apply Hone; lia). apply IH; (done || lia).
  - assert (Hroom : strlen (render (segs ++ [p])) =
      strlen (render segs) + (if 1 <? strlen (render segs) then 1 else 0) + strlen p).
    { rewrite render_snoc, strlen_app. pose proof (render_one segs Hok) as Hone.
      pose proof (render_length segs). change (slash :: p) with ([slash] ++ p).
      rewrite strlen_app. change (strlen [slash]) with 1.
      case_decide as Hnil; [subst; done|].
      rewrite (proj2 (Z.ltb_lt _ _)); [lia|].
      destruct (decide (strlen (render segs) = 1)); [tauto|lia]. }
    set (sep := if 1 <? strlen (render segs) then 1 else 0) in *. unfold SHELL_PATH_MAX.
    assert (0 <= strlen p) by (unfold strlen; lia).
    destruct (Z.leb_spec (strlen (render (segs ++ [p]))) 255) as [Hfit|Hlong].
    + rewrite (proj2 (Z.ltb_ge (256 - 1 - sep) _)), (proj2 (Z.ltb_ge (256 - 1 - _ - sep) _)) by lia.
      destruct (push_last output segs p Hb Hok Hfit) as (o1 & n1 & o2 & n2 & o3 & E1 & E2 & E3 & -> & Ho).
      fold sep in E1. rewrite E1, E2, E3. apply IH; [done| |done|lia].
      apply Forall_app. split; [done|]. repeat constructor; try done.
      * by apply bool_decide_eq_false in Hd.
      * by apply bool_decide_eq_false in Hdd.
    + destruct (Z.ltb_spec (256 - 1 - sep) (strlen (render segs))); [by do 2 eexists|].
      rewrite (proj2 (Z.ltb_lt (256 - 1 - _ - sep) _)) by lia. by do 2 eexists.
Qed.

(** Canonical paths: absolute, segments without separators, no empty, [.] or
    [..] segment, short enough for the buffer. *)
Definition canonical (p : list Z) : Prop :=
  ∃ segs, p = render segs ∧ Forall segment_ok segs ∧ strlen p <= 255.

Lemma segments_separator_free s : Forall (λ p, p ≠ [] ∧ separator_free p) (segments s).
Proof.
  remember (length s) as n eqn:Hn. revert s Hn.
  induction (lt_wf n) as [n _ IH]. intros s ->.
  pose proof (next_segment s) as Hnext. destruct (skip_separators s); [by rewrite Hnext|].
  destruct (take_segment _) as [p cursor]. destruct Hnext as (-> & ? & ? & ?).
  constructor; [done|]. by eapply IH.
Qed.

(** What normalisation computes. *)
Definition normalize_spec (current_path input : list Z) : option (list (list Z)) :=
  match resolve [] (segments current_path) with
  | None => None
  | Some base =>
      resolve (if shell_path_separator (char_at input 0) then [] else base) (segments input)
  end.

Lemma apply_reset_spec output n path :
  length output = 256%nat →
  match resolve [] (segments path) with
  | Some segs => ∃ output',
      shell_path_apply output n path true = Some (SHELL_PATH_OK, output', strlen (render segs)) ∧
      holds_string output' (render segs)
  | None => ∃ output' n',
      shell_path_apply output n path true = Some (SHELL_PATH_TOO_LONG, output', n')
  end.
Proof.
  intros Hl. unfold shell_path_apply.
  destruct (strcpy_spec output [] [slash]) as (o & E & Ho); [by apply begins_nil|done|].
  change (strlen []) with 0 in E. rewrite E.
  apply (apply_loop_spec (S (length path)) o [] path); [done|constructor|done|lia].
Qed.

Lemma normalize_ok current_path input output :
  char_at current_path 0 = slash → length output = 256%nat →
  ∃ result output', shell_path_normalize current_path input output = Some (result, output') ∧
    match normalize_spec current_path input with
    | Some segs => result = SHELL_PATH_OK ∧ holds_string output' (render segs) ∧
        Forall segment_ok segs ∧ strlen (render segs) <= 255
    | None => result = SHELL_PATH_TOO_LONG
    end.
Proof.
  intros Hc Hl. unfold shell_path_normalize, normalize_spec. rewrite Hc, Z.eqb_refl. cbn [negb].
  pose proof (apply_reset_spec output 0 current_path Hl) as H1.
  destruct (resolve [] (segments current_path)) as [base|] eqn:E1.
  2:{ destruct H1 as (o & n & ->). by exists SHELL_PATH_TOO_LONG, o. }
  destruct H1 as (o & -> & Ho). cbn [Z.eqb SHELL_PATH_OK negb].
  destruct (resolve_ok [] (segments current_path) base) as [Hok Hlen];
    [constructor|apply segments_separator_free|done|done|].
  assert (Hol : length o = 256%nat) by apply Ho.
  destruct (shell_path_separator (char_at input 0)).
  - pose proof (apply_reset_spec o (strlen (render base)) input Hol) as H2.
    destruct (resolve [] (segments input)) as [segs|] eqn:E2.
    + destruct H2 as (o' & -> & Ho'). exists SHELL_PATH_OK, o'. split; [done|].
      split; [done|]. split; [done|].
      apply (resolve_ok [] (segments input)); [constructor|apply segments_separator_free|done|done].
    + destruct H2 as (o' & n & ->). by exists SHELL_PATH_TOO_LONG, o'.
  - pose proof (apply_loop_spec (S (length input)) o base input Ho Hok Hlen ltac:(lia)) as H2.
    unfold shell_path_apply. destruct (resolve base (segments input)) as [segs|] eqn:E2.
    + destruct H2 as (o' & -> & Ho'). exists SHELL_PATH_OK, o'. split; [done|].
      split; [done|]. split; [done|].
      apply (resolve_ok base (segments input)); [done|apply segments_separator_free|done|done].
    + destruct H2 as (o' & n & ->). by exists SHELL_PATH_TOO_LONG, o'.
Qed.

Lemma render_head segs : char_at (render segs) 0 = slash.
Proof. by destruct segs. Qed.

(** * Properties *)

(** C18: path normalisation terminates, never writes outside the caller's buffer,
    and computes the reference resolution: the segments of the current path and of
    the input folded over a stack, [.] skipped and [..] popping; it succeeds with
    the rendered stack, terminated, and fails exactly when a push does not fit. *)
Theorem path_normalize_refines current_path input output :
  char_at current_path 0 = slash → length output = 256%nat →
  ∃ result output', shell_path_normalize current_path input output = Some (result, output') ∧
    match normalize_spec current_path input with
    | Some segs => result = SHELL_PATH_OK ∧ holds_string output' (render segs) ∧
        canonical (render segs)
    | None => result = SHELL_PATH_TOO_LONG
    end.
Proof.
  intros Hc Hl. destruct (normalize_ok current_path input output Hc Hl) as (result & o & E & H).
  exists result, o. split; [done|]. destruct (normalize_spec current_path input) as [segs|]; [|done].
  destruct H as (-> & Ho & Hok & Hlen). split; [done|]. split; [done|]. by exists segs.
Qed.

Lemma path_normalize_refines_witness :
  (* /a/b with ../c//./d gives /a/c/d *)
  option_map fst (shell_path_normalize [47; 97; 47; 98] [46; 46; 47; 99; 47; 47; 46; 92; 100]
    (replicate 256 7)) = Some 0 ∧
  ∃ result output', shell_path_normalize [47; 97; 47; 98] [46; 46; 47; 99; 47; 47; 46; 92; 100]
    (replicate 256 7) = Some (result, output') ∧ result = SHELL_PATH_OK ∧
    holds_string output' [47; 97; 47; 99; 47; 100].
Proof.
  split; [vm_compute; reflexivity|].
  destruct (path_normalize_refines [47; 97; 47; 98] [46; 46; 47; 99; 47; 47; 46; 92; 100]
    (replicate 256 7) eq_refl eq_refl) as (result & o & E & H).
  exists result, o. split; [exact E|].
  change (normalize_spec _ _) with (Some [[97]; [99]; [100]]) in H.
  cbv beta iota in H. destruct H as (-> & Ho & _). split; [reflexivity|exact Ho].
Defined.

(** Normalisation is idempotent on its results: a canonical path, given as the
    input from any place that can be normalised, or as the current path with an
    empty input, is returned unchanged. *)
Theorem path_normalize_idempotent p current_path output base :
  canonical p → char_at current_path 0 = slash → length output = 256%nat →
  resolve [] (segments current_path) = Some base →
  ∃ o1 o2, shell_path_normalize current_path p output = Some (SHELL_PATH_OK, o1) ∧
    shell_path_normalize p [] output = Some (SHELL_PATH_OK, o2) ∧
    holds_string o1 p ∧ holds_string o2 p.
Proof.
  intros (segs & -> & Hok & Hlen) Hc Hl Hbase.
  assert (Hself : resolve [] (segments (render segs)) = Some segs)
    by (rewrite segments_render by done; by apply resolve_self).
  destruct (normalize_ok current_path (render segs) output Hc Hl) as (r1 & o1 & E1 & H1).
  destruct (normalize_ok (render segs) [] output (render_head segs) Hl) as (r2 & o2 & E2 & H2).
  unfold normalize_spec in H1, H2. rewrite Hbase, render_head in H1.
  change (shell_path_separator slash) with true in H1. cbv iota in H1.
  rewrite Hself in H1, H2. destruct H1 as (-> & ? & _). destruct H2 as (-> & ? & _).
  by exists o1, o2.
Qed.

Lemma path_normalize_idempotent_witness :
  ∃ o1 o2, shell_path_normalize [47; 120] [47; 97; 47; 98] (replicate 256 0) =
      Some (SHELL_PATH_OK, o1) ∧
    shell_path_normalize [47; 97; 47; 98] [] (replicate 256 0) = Some (SHELL_PATH_OK, o2) ∧
    holds_string o1 [47; 97; 47; 98] ∧ holds_string o2 [47; 97; 47; 98].
Proof.
  apply (path_normalize_idempotent [47; 97; 47; 98] [47; 120] (replicate 256 0) [[120]]);
    [|reflexivity..].
  exists [[97]; [98]]. split; [reflexivity|]. split; [|easy].
  repeat constructor; easy.
Defined.

(** ** Joining a mount point *)
Lemma render_app m d :
  m ≠ [] → d ≠ [] → render (m ++ d) = render m ++ render d.
Proof.
  intros Hm Hd. rewrite !render_concat; [by rewrite map_app, concat_app|done..|by destruct m].
Qed.

Lemma render_last m :
  Forall segment_ok m → m ≠ [] →
  char_at (render m) (strlen (render m) - 1) ≠ slash.
Proof.
  intros Hok Hne. destruct (exists_last Hne) as (m' & p & ->).
  apply Forall_app in Hok as [_ Hp]. apply Forall_cons_1 in Hp as [(Hp & Hs & _) _].
  rewrite render_snoc. destruct (exists_last Hp) as (p' & c & ->).
  apply Forall_app in Hs as [_ Hc]. apply Forall_cons_1 in Hc as [Hc _].
  unfold shell_path_separator in Hc. apply orb_false_iff in Hc as [Hc%Z.eqb_neq _].
  rewrite app_comm_cons, app_assoc. set (pre := _ ++ slash :: p').
  unfold char_at, strlen. rewrite length_app. cbn [length].
  replace (Z.to_nat (Z.of_nat (length pre + 1) - 1)) with (length pre) by lia.
  by rewrite app_nth2, Nat.sub_diag by lia.
Qed.

(** Joining a canonical mount point and a canonical drive path gives the
    canonical path whose segments are those of the mount point followed by those
    of the drive path, and fails exactly when it does not fit; no write leaves the
    caller's buffer. *)
Theorem path_join_mount_canonical m d output :
  Forall segment_ok m → Forall segment_ok d → length output = 256%nat →
  strlen (render m) <= 255 → strlen (render d) <= 255 →
  ∃ result output', shell_path_join_mount (render m) (render d) output = Some (result, output') ∧
    (if strlen (render (m ++ d)) <=? 255
     then result = SHELL_PATH_OK ∧ holds_string output' (render (m ++ d)) ∧
       canonical (render (m ++ d))
     else result = SHELL_PATH_TOO_LONG ∧ output' = output).
Proof.
  intros Hm Hd Hl Hml Hdl. unfold shell_path_join_mount, SHELL_PATH_MAX.
  rewrite !render_head, Z.eqb_refl. cbn [negb orb].
  pose proof (render_length m). pose proof (render_length d).
  pose proof (render_one m Hm) as Hm1. pose proof (render_one d Hd) as Hd1.
  rewrite (proj2 (Z.eqb_neq (strlen (render m)) 0)), (proj2 (Z.eqb_neq (strlen (render d)) 0)),
    (proj2 (Z.leb_gt 256 (strlen (render m)))), (proj2 (Z.leb_gt 256 (strlen (render d)))) by lia.
  cbn [orb].
  assert (Hlast : (1 <? strlen (render m)) &&
    (char_at (render m) (strlen (render m) - 1) =? slash) = false).
  { destruct (decide (m = [])) as [->|Hne]; [done|].
    rewrite (proj2 (Z.eqb_neq _ _) (render_last m Hm Hne)). apply andb_false_r. }
  rewrite Hlast.
  assert (Hcopy : ∀ w, strlen w <= 255 → canonical w →
    ∃ result output', option_map (λ output, (SHELL_PATH_OK, output)) (strcpy output 0 w) =
        Some (result, output') ∧ result = SHELL_PATH_OK ∧ holds_string output' w ∧ canonical w).
  { intros w Hw Hcan. destruct (strcpy_spec output [] w) as (o & E & Ho);
      [by apply begins_nil|change (strlen []) with 0; lia|].
    change (strlen []) with 0 in E. rewrite E. by exists SHELL_PATH_OK, o. }
  destruct (Z.eqb_spec (strlen (render m)) 1) as [Em|Em].
  { rewrite (proj1 Hm1 Em) in *. cbn [app]. rewrite (proj2 (Z.leb_le _ 255)) by done.
    apply Hcopy; [done|]. by exists d. }
  assert (Hmn : m ≠ []) by tauto.
  destruct (Z.eqb_spec (strlen (render d)) 1) as [Ed|Ed].
  { rewrite (proj1 Hd1 Ed) in *. rewrite app_nil_r, (proj2 (Z.leb_le _ 255)) by done.
    apply Hcopy; [done|]. by exists m. }
  rewrite render_app, strlen_app by tauto.
  destruct (Z.leb_spec 256 (strlen (render m) + strlen (render d))) as [Hlong|Hfit].
  { rewrite (proj2 (Z.leb_gt _ 255)) by lia. by exists SHELL_PATH_TOO_LONG, output. }
  rewrite (proj2 (Z.leb_le _ 255)) by lia.
  destruct (strcpy_spec output [] (render m)) as (o & E & Ho);
    [by apply begins_nil|change (strlen []) with 0; lia|].
  change (strlen []) with 0 in E. rewrite E. cbn [app] in Ho.
  destruct (strcpy_spec o (render m) (render d)) as (o2 & -> & Ho2);
    [by apply begins_app in Ho|lia|].
  exists SHELL_PATH_OK, o2. split; [done|]. split; [done|]. split; [done|].
  exists (m ++ d). split; [by rewrite render_app by tauto|].
  split; [by apply Forall_app|rewrite strlen_app; lia].
Qed.

Lemma path_join_mount_canonical_witness :
  ∃ result output', shell_path_join_mount [47; 109] [47; 97; 47; 98] (replicate 256 0) =
      Some (result, output') ∧ result = SHELL_PATH_OK ∧
    holds_string output' [47; 109; 47; 97; 47; 98].
Proof.
  destruct (path_join_mount_canonical [[109]] [[97]; [98]] (replicate 256 0))
    as (result & o & E & H); [repeat constructor; easy..| |easy|easy|]; [reflexivity|].
  exists result, o. split; [exact E|].
  change (strlen (render ([[109]] ++ [[97]; [98]])) <=? 255) with true in H. cbv iota in H.
  destruct H as (-> & Ho & _). split; [reflexivity|exact Ho].
Defined.

(** ** Drive prefixes *)
Lemma drive_kind_prefix a b c d rest :
  shell_path_drive_kind (a :: b :: c :: d :: rest) = shell_path_drive_kind [a; b; c; d].
Proof. done. Qed.

Lemma copy_drive_spec s0 s1 s2 s3 s4 tail a b c d rest :
  length (s0 :: s1 :: s2 :: s3 :: s4 :: tail) = 8%nat →
  shell_path_copy_drive (s0 :: s1 :: s2 :: s3 :: s4 :: tail) (a :: b :: c :: d :: rest) 4 =
    Some (map tolower [a; b; c; d] ++ 0 :: tail).
Proof.
  intros Hl. do 3 (destruct tail as [|? tail]; [done|]). by destruct tail.
Qed.

(** A path is split into an optional drive selector and a remainder: a drive
    letter with a colon, a drive name with a colon, a drive name as the first
    directory, or no drive at all.  The selector is upper or lower cased, always
    terminated inside its buffer, and nothing of the path is lost. *)
Theorem path_split_drive_forms input selector :
  length selector = 8%nat →
  ∃ selector' remainder sel tail,
    shell_path_split_drive input selector = Some (SHELL_PATH_OK, selector', remainder) ∧
    selector' = sel ++ 0 :: tail ∧ length selector' = 8%nat ∧
    ((sel = [] ∧ remainder = input) ∨
     (∃ c, input = c :: colon :: remainder ∧ isalpha c = true ∧ sel = [toupper c]) ∨
     (∃ name, length name = 4%nat ∧ shell_path_drive_kind name = true ∧
        sel = map tolower name ∧
        (input = name ++ colon :: remainder ∨
         ∃ s rest, shell_path_separator s = true ∧ input = s :: name ++ rest ∧
           ((char_at rest 0 = 0 ∧ remainder = [slash]) ∨
            (shell_path_separator (char_at rest 0) = true ∧ remainder = rest))))).
Proof.
  intros Hl. do 8 (destruct selector as [|? selector]; [done|]). destruct selector; [|done].
  unfold shell_path_split_drive. cbn [store strlen length char_at insert list_insert].
  match goal with |- context [store ?s 0 0] => change (store s 0 0) with (Some (<[0%nat := 0]> s)) end.
  cbn [insert list_insert].
  destruct (isalpha (char_at input 0) && (char_at input 1 =? colon)) eqn:E1.
  { apply andb_true_iff in E1 as [Ha Hc%Z.eqb_eq].
    destruct input as [|c [|x rest]]; [done..|]. change (char_at (c :: x :: rest) 0) with c in *.
    change (char_at (c :: x :: rest) 1) with x in *. subst x.
    do 4 eexists. split; [reflexivity|]. split; [by instantiate (2 := [toupper c])|].
    split; [done|]. right. left. by exists c. }
  destruct ((5 <=? strlen input) && shell_path_drive_kind input && (char_at input 4 =? colon)) eqn:E2.
  { rewrite !andb_true_iff in E2. destruct E2 as [[_ Hk] Hc%Z.eqb_eq].
    destruct input as [|a [|b [|c [|d [|x rest]]]]]; [done..|].
    change (char_at (a :: b :: c :: d :: x :: rest) 4) with x in Hc. subst x.
    rewrite copy_drive_spec by done. do 4 eexists. split; [reflexivity|]. split; [reflexivity|].
    split; [done|]. right. right. exists [a; b; c; d].
    rewrite drive_kind_prefix in Hk. split_and!; [done..|]. by left. }
  destruct (shell_path_separator (char_at input 0) && (5 <=? strlen input) &&
    shell_path_drive_kind (drop 1 input) &&
    ((char_at input 5 =? 0) || shell_path_separator (char_at input 5))) eqn:E3.
  - rewrite !andb_true_iff in E3. destruct E3 as [[[Hs Hlen] Hk] Hend].
    destruct input as [|s [|a [|b [|c [|d rest]]]]]; [done..|]. cbn [drop] in *.
    rewrite copy_drive_spec by done. rewrite drive_kind_prefix in Hk.
    change (char_at (s :: a :: b :: c :: d :: rest) 5) with (char_at rest 0) in *.
    change (char_at (s :: a :: b :: c :: d :: rest) 0) with s in *.
    do 4 eexists. split; [reflexivity|]. split; [reflexivity|]. split; [done|].
    right. right. exists [a; b; c; d]. split_and!; [done..|]. right. exists s, rest.
    split; [done|]. split; [done|].
    destruct (Z.eqb_spec (char_at rest 0) 0) as [E0|]; [by left|by right].
  - do 4 eexists. split; [reflexivity|]. split; [by instantiate (2 := [])|].
    split; [done|]. by left.
Qed.

Lemma path_split_drive_forms_witness :
  (* hDd1:/x *)
  shell_path_split_drive [104; 68; 100; 49; 58; 47; 120] (replicate 8 9) =
    Some (SHELL_PATH_OK, [104; 100; 100; 49; 0; 9; 9; 9], [47; 120]) ∧
  ∃ selector' remainder, shell_path_split_drive [104; 68; 100; 49; 58; 47; 120] (replicate 8 9) =
    Some (SHELL_PATH_OK, selector', remainder) ∧ length selector' = 8%nat.
Proof.
  split; [reflexivity|].
  destruct (path_split_drive_forms [104; 68; 100; 49; 58; 47; 120] (replicate 8 9) eq_refl)
    as (selector' & remainder & sel & tail & E & _ & Hl & _).
  by exists selector', remainder.
Defined.
