(* ===== verification/ArpCache.v ===== *)
(** Supervised ARP bindings: src/drivers/net/arp_binding_cache.c and
    src/include/kernel/arp_binding_cache.h.

    [Module ArpCache] holds the cache of protected bindings.  A MAC address in
    the protected struct is its six bytes as one little-endian number; signed
    fields are kept as their 32-bit images and read through [s32].  The struct
    has no padding on the i386 target of this driver.  Pointers of the callers
    are references; the MAC output is [None] while it is not written.  The spin
    lock has no state here, and the host-test corruption hook is not
    modelled. *)
From S2P Require Import Prelude ProtectedStore.
From S2P Require Import Layout ProtectedRecord CriticalObject.

Module ArpCache.

Definition SUPERVISED_ARP_CACHE_SIZE : nat := 32.
Definition SUPERVISED_ARP_OBJECT_VERSION : Z := 1.
Definition ARP_BINDING_EMPTY : Z := 0.
Definition ARP_BINDING_VALID : Z := 1.
Definition ARP_BINDING_EXPIRED : Z := 2.

Inductive supervised_arp_lookup_result_t :=
| SUPERVISED_ARP_MISS
| SUPERVISED_ARP_HIT
| SUPERVISED_ARP_BLOCKED
| SUPERVISED_ARP_INTEGRITY_FAILURE.

Record arp_binding_payload_t := Binding {
  b_state : Z;
  b_ip : Z;
  b_mac : Z;
  b_reserved : Z;
  b_epoch : Z;
  b_pid : Z;
  b_generation : Z;
  b_deadline_ms : Z
}.

#[export] Instance binding_layout : Layout arp_binding_payload_t := {
  layout_widths := [4; 4; 6; 2; 4; 4; 4; 8]%nat;
  layout_values b :=
    [b_state b; b_ip b; b_mac b; b_reserved b; b_epoch b; b_pid b; b_generation b;
     b_deadline_ms b];
  layout_record l :=
    match l with
    | [a; b; c; d; e; f; g; h] => Binding a b c d e f g h
    | _ => Binding 0 0 0 0 0 0 0 0
    end
}.

Definition empty_binding : arp_binding_payload_t := Binding 0 0 0 0 0 0 0 0.

Record supervised_arp_scrub_stats_t := Stats {
  scanned : Z;
  active : Z;
  expired : Z;
  newly_expired : Z;
  corrected : Z
}.

Definition mac_valid (mac : list Z) : bool :=
  if negb (Z.land (nth 0 mac 0) 1 =? 0) then false
  else negb (foldl Z.lor 0 mac =? 0).

Definition binding_ok (payload : arp_binding_payload_t) : bool :=
  if negb (Z.land (b_reserved payload) 255 =? 0) || negb (Z.shiftr (b_reserved payload) 8 =? 0)
  then false
  else if b_state payload =? ARP_BINDING_EMPTY then
    (b_ip payload =? 0) && (b_epoch payload =? 0) && (s32 (b_pid payload) =? 0) &&
    (b_generation payload =? 0) && (b_deadline_ms payload =? 0)
  else if negb (b_state payload =? ARP_BINDING_VALID) &&
          negb (b_state payload =? ARP_BINDING_EXPIRED) then false
  else
    negb (b_ip payload =? 0) && negb (b_epoch payload =? 0) && (0 <? s32 (b_pid payload)) &&
    negb (b_generation payload =? 0) && mac_valid (le_bytes 6 (b_mac payload)).

Definition payload_valid : list Z → bool := record_valid binding_ok.

Definition set_expired (b : arp_binding_payload_t) : arp_binding_payload_t :=
  Binding ARP_BINDING_EXPIRED (b_ip b) (b_mac b) (b_reserved b) (b_epoch b) (b_pid b)
    (b_generation b) (b_deadline_ms b).

Section operations.
Context {O : Type} `{ProtectedStore O}.

(** The entries of [supervised_arp_cache_t]. *)
Definition supervised_arp_cache_t : Type := list O.

Definition read_entry (object : O) (payload : arp_binding_payload_t)
  : Z * O * arp_binding_payload_t :=
let '(result, object, bytes) :=
  ps_read object SUPERVISED_ARP_OBJECT_VERSION (sizeof arp_binding_payload_t) payload_valid in
let payload :=
  if critical_read_ok result then decode (bytes_copy (encode payload) bytes) else payload in
(if (critical_read_code result <? 0) ||
    negb (length bytes =? sizeof arp_binding_payload_t)%nat
 then -1 else critical_read_code result, object, payload).

Definition update_entry (object : O) (payload : arp_binding_payload_t) : Z * O :=
ps_update object SUPERVISED_ARP_OBJECT_VERSION (Some (encode payload)) payload_valid.

Fixpoint init_entries (entries : supervised_arp_cache_t) : Z * supervised_arp_cache_t :=
match entries with
| [] => (0, [])
| object :: entries =>
    let '(status, object) :=
      ps_init object SUPERVISED_ARP_OBJECT_VERSION (Some (encode empty_binding)) in
    if negb (status =? 0) then (-1, object :: entries)
    else let '(status, entries) := init_entries entries in (status, object :: entries)
end.

Definition supervised_arp_cache_init (cache : supervised_arp_cache_t)
  : Z * supervised_arp_cache_t := init_entries cache.

(** The loop that reads every entry, with the result codes; [None] when an
  entry cannot be read. *)
Fixpoint read_entries (cache : supervised_arp_cache_t)
  : option (list (Z * arp_binding_payload_t)) * supervised_arp_cache_t :=
match cache with
| [] => (Some [], [])
| object :: cache =>
    let '(result, object, payload) := read_entry object empty_binding in
    if result <? 0 then (None, object :: cache)
    else
      let '(rest, cache) := read_entries cache in
      (option_map (cons (result, payload)) rest, object :: cache)
end.

(** [selected] and [empty] after the first loop of a commit. *)
Fixpoint select_slot (i : Z) (entries : list arp_binding_payload_t) (ip selected empty : Z)
  : Z * Z :=
match entries with
| [] => (selected, empty)
| b :: entries =>
    let selected :=
      if negb (b_state b =? ARP_BINDING_EMPTY) && (b_ip b =? ip) then i else selected in
    let empty :=
      if (b_state b =? ARP_BINDING_EMPTY) && (empty <? 0) then i else empty in
    select_slot (i + 1) entries ip selected empty
end.

Definition supervised_arp_cache_commit (cache : supervised_arp_cache_t) (ip : Z)
  (mac : list Z) (transaction_epoch source_pid source_generation now_ms lease_ms : Z)
  : Z * supervised_arp_cache_t :=
if (ip =? 0) || (transaction_epoch =? 0) || (source_pid <=? 0) ||
   (source_generation =? 0) || (lease_ms =? 0) || negb (mac_valid mac)
then (-1, cache)
else
  match read_entries cache with
  | (None, cache) => (-2, cache)
  | (Some entries, cache) =>
      let '(selected, empty) := select_slot 0 (map snd entries) ip (-1) (-1) in
      let selected := if selected <? 0 then empty else selected in
      if selected <? 0 then (-2, cache)
      else
        let value :=
          Binding ARP_BINDING_VALID ip (le_value mac) 0 transaction_epoch source_pid
            source_generation
            (if UINT64_MAX - now_ms <? lease_ms then UINT64_MAX else now_ms + lease_ms) in
        match cache !! Z.to_nat selected with
        | None => (-2, cache)
        | Some object =>
            let '(status, object) := update_entry object value in
            (if status =? 0 then 0 else -2, <[Z.to_nat selected := object]> cache)
        end
  end.

(** The loop of the two revocations; [None] when an update fails. *)
Fixpoint revoke_loop (matches : arp_binding_payload_t → bool) (cache : supervised_arp_cache_t)
  (entries : list arp_binding_payload_t) (revoked : Z)
  : option Z * supervised_arp_cache_t :=
match cache, entries with
| object :: cache, b :: entries =>
    if negb (b_state b =? ARP_BINDING_VALID) || negb (matches b) then
      let '(result, cache) := revoke_loop matches cache entries revoked in
      (result, object :: cache)
    else
      let '(status, object) := update_entry object (set_expired b) in
      if negb (status =? 0) then (None, object :: cache)
      else
        let '(result, cache) := revoke_loop matches cache entries (revoked + 1) in
        (result, object :: cache)
| _, _ => (Some revoked, cache)
end.

Definition revoke (matches : arp_binding_payload_t → bool) (cache : supervised_arp_cache_t)
  : Z * supervised_arp_cache_t :=
match read_entries cache with
| (None, cache) => (-2, cache)
| (Some entries, cache) =>
    match revoke_loop matches cache (map snd entries) 0 with
    | (None, cache) => (-2, cache)
    | (Some revoked, cache) => (revoked, cache)
    end
end.

Definition supervised_arp_cache_revoke_identity (cache : supervised_arp_cache_t)
  (source_pid source_generation : Z) : Z * supervised_arp_cache_t :=
if (source_pid <=? 0) || (source_generation =? 0) then (-1, cache)
else
  revoke (λ b, (s32 (b_pid b) =? source_pid) && (b_generation b =? source_generation)) cache.

Definition supervised_arp_cache_revoke_ip (cache : supervised_arp_cache_t) (ip : Z)
  : Z * supervised_arp_cache_t :=
if (ip =? 0) || (ip =? 4294967295) then (-1, cache)
else revoke (λ b, b_ip b =? ip) cache.

Fixpoint scrub_loop (now_ms : Z) (cache : supervised_arp_cache_t)
  (entries : list arp_binding_payload_t) (stats : supervised_arp_scrub_stats_t)
  : option supervised_arp_scrub_stats_t * supervised_arp_cache_t :=
match cache, entries with
| object :: cache, b :: entries =>
    let expire := (b_state b =? ARP_BINDING_VALID) && (b_deadline_ms b <=? now_ms) in
    let '(status, object) :=
      if expire then update_entry object (set_expired b) else (0, object) in
    if negb (status =? 0) then (None, object :: cache)
    else
      let b := if expire then set_expired b else b in
      let stats :=
        Stats (scanned stats)
          (if b_state b =? ARP_BINDING_VALID then active stats + 1 else active stats)
          (if b_state b =? ARP_BINDING_EXPIRED then expired stats + 1 else expired stats)
          (if expire then newly_expired stats + 1 else newly_expired stats)
          (corrected stats) in
      let '(result, cache) := scrub_loop now_ms cache entries stats in
      (result, object :: cache)
| _, _ => (Some stats, cache)
end.

(** The third component is [*stats_out], when it is written. *)
Definition supervised_arp_cache_scrub (cache : supervised_arp_cache_t) (now_ms : Z)
  : Z * supervised_arp_cache_t * option supervised_arp_scrub_stats_t :=
match read_entries cache with
| (None, cache) => (-2, cache, None)
| (Some entries, cache) =>
    let corrected :=
      Z.of_nat (length (filter (λ e, e.1 = 1 ∨ e.1 = 2) entries)) in
    let stats := Stats (Z.of_nat (length entries)) 0 0 0 corrected in
    match scrub_loop now_ms cache (map snd entries) stats with
    | (None, cache) => (-2, cache, None)
    | (Some stats, cache) => (0, cache, Some stats)
    end
end.

Fixpoint lookup_loop (cache : supervised_arp_cache_t) (ip now_ms : Z)
  : supervised_arp_lookup_result_t * supervised_arp_cache_t * option (list Z) :=
match cache with
| [] => (SUPERVISED_ARP_MISS, [], None)
| object :: cache =>
    let '(result, object, value) := read_entry object empty_binding in
    if result <? 0 then (SUPERVISED_ARP_INTEGRITY_FAILURE, object :: cache, None)
    else if (b_state value =? ARP_BINDING_EMPTY) || negb (b_ip value =? ip) then
      let '(result, cache, mac) := lookup_loop cache ip now_ms in
      (result, object :: cache, mac)
    else if b_state value =? ARP_BINDING_EXPIRED
    then (SUPERVISED_ARP_BLOCKED, object :: cache, None)
    else if b_deadline_ms value <=? now_ms then
      let '(status, object) := update_entry object (set_expired value) in
      (if negb (status =? 0) then SUPERVISED_ARP_INTEGRITY_FAILURE
       else SUPERVISED_ARP_BLOCKED, object :: cache, None)
    else (SUPERVISED_ARP_HIT, object :: cache, Some (le_bytes 6 (b_mac value)))
end.

Definition supervised_arp_cache_lookup (cache : supervised_arp_cache_t) (ip now_ms : Z)
  : supervised_arp_lookup_result_t * supervised_arp_cache_t * option (list Z) :=
if ip =? 0 then (SUPERVISED_ARP_INTEGRITY_FAILURE, cache, None)
else lookup_loop cache ip now_ms.
End operations.

#[global] Arguments supervised_arp_cache_t : clear implicits.
End ArpCache.

Import ArpCache.

#[export] Instance binding_layout_laws : LayoutLaws arp_binding_payload_t.
Proof.
  constructor.
  - done.
  - by intros [].
  - intros values Hl. do 8 (destruct values as [|? values]; [done|]).
    by destruct values.
Qed.

Lemma binding_typed (b : arp_binding_payload_t) :
  well_typed b ↔
  is_u32 (b_state b) ∧ is_u32 (b_ip b) ∧ 0 <= b_mac b < 2 ^ 48 ∧ 0 <= b_reserved b < 65536 ∧
  is_u32 (b_epoch b) ∧ is_u32 (b_pid b) ∧ is_u32 (b_generation b) ∧ is_u64 (b_deadline_ms b).
Proof.
  unfold well_typed. cbn [layout_widths layout_values binding_layout fields_ok].
  change (256 ^ Z.of_nat 4) with 4294967296. change (256 ^ Z.of_nat 8) with 18446744073709551616.
  change (256 ^ Z.of_nat 6) with (2 ^ 48). change (256 ^ Z.of_nat 2) with 65536.
  unfold_words. tauto.
Qed.

Lemma binding_size : (0 < sizeof arp_binding_payload_t <= 64)%nat.
Proof. vm_compute. lia. Qed.

(** The address a slot is bound to, unless it is empty. *)
Definition key (b : arp_binding_payload_t) : option Z :=
  if b_state b =? ARP_BINDING_EMPTY then None else Some (b_ip b).

Fixpoint find_ip (entries : list arp_binding_payload_t) (ip : Z)
    : option arp_binding_payload_t :=
  match entries with
  | [] => None
  | b :: entries => if decide (key b = Some ip) then Some b else find_ip entries ip
  end.

(** No address is bound twice. *)
Definition distinct (entries : list arp_binding_payload_t) : Prop :=
  ∀ i j a, map key entries !! i = Some (Some a) → map key entries !! j = Some (Some a) → i = j.

(** What an operation other than a commit may do to a slot. *)
Definition weaken (b b' : arp_binding_payload_t) : Prop :=
  b' = b ∨ (b_state b = ARP_BINDING_VALID ∧ b' = set_expired b).

Lemma weaken_key b b' : weaken b b' → key b' = key b.
Proof. intros [->|[E ->]]; [done|]. unfold key. by rewrite E. Qed.

Lemma weaken_keys entries entries' :
  Forall2 weaken entries entries' → map key entries' = map key entries.
Proof. induction 1 as [|b b' es es' Hb _ IH]; [done|]. cbn. by rewrite IH, (weaken_key b b'). Qed.

Lemma weaken_distinct entries entries' :
  Forall2 weaken entries entries' → distinct entries → distinct entries'.
Proof. intros H Hd. unfold distinct. by rewrite (weaken_keys _ _ H). Qed.

Lemma weaken_refl entries : Forall2 weaken entries entries.
Proof. induction entries; constructor; [by left|done]. Qed.

Lemma weaken_find entries entries' ip :
  Forall2 weaken entries entries' →
  match find_ip entries ip with
  | None => find_ip entries' ip = None
  | Some b => ∃ b', find_ip entries' ip = Some b' ∧ weaken b b'
  end.
Proof.
  induction 1 as [|b b' es es' Hb _ IH]; [done|]. cbn [find_ip].
  rewrite (weaken_key b b' Hb). case_decide; [by exists b'|done].
Qed.

Lemma find_ip_lookup entries ip i b :
  distinct entries → entries !! i = Some b → key b = Some ip → find_ip entries ip = Some b.
Proof.
  revert i. induction entries as [|c entries IH]; intros i Hd Hi Hk; [done|]. cbn [find_ip].
  case_decide as E.
  - assert (i = 0%nat) as ->; [|by simplify_eq/=].
    apply (Hd i 0%nat ip); [|by rewrite <- E].
    rewrite <- Hk. change (map key (c :: entries)) with (key <$> (c :: entries)).
    by rewrite list_lookup_fmap, Hi.
  - destruct i as [|i]; [simplify_eq/=; congruence|]. apply (IH i); [|done|done].
    intros i' j' a Hi' Hj'. specialize (Hd (S i') (S j') a Hi' Hj'). lia.
Qed.

Lemma find_ip_some entries ip b :
  find_ip entries ip = Some b → ∃ i, entries !! i = Some b ∧ key b = Some ip.
Proof.
  induction entries as [|c entries IH]; [done|]. cbn [find_ip]. case_decide.
  - intros [= ->]. by exists 0%nat.
  - intros Hf. destruct (IH Hf) as (i & ? & ?). by exists (S i).
Qed.

(** Writing a binding for [ip] into a slot that is free or already its own. *)
Lemma find_ip_insert entries i old b ip :
  distinct entries → entries !! i = Some old → key b = Some ip →
  key old = Some ip ∨ (key old = None ∧ find_ip entries ip = None) →
  distinct (<[i := b]> entries) ∧
  ∀ ip', find_ip (<[i := b]> entries) ip' = if ip' =? ip then Some b else find_ip entries ip'.
Proof.
  intros Hd Hi Hk Hold.
  assert (Hlt : (i < length entries)%nat) by (by eapply lookup_lt_Some).
  assert (Hother : ∀ j c, entries !! j = Some c → j ≠ i → key c ≠ Some ip).
  { intros j c Hj Hne Hc. pose proof (find_ip_lookup _ _ _ _ Hd Hj Hc) as Hf.
    destruct Hold as [Ho|[_ Hn]]; [|congruence].
    apply Hne, (Hd j i ip); change (map key entries) with (key <$> entries);
      rewrite list_lookup_fmap; [by rewrite Hj, <- Hc|by rewrite Hi, <- Ho]. }
  assert (Hd' : distinct (<[i := b]> entries)).
  { intros j k a. change (map key (<[i:=b]> entries)) with (key <$> <[i:=b]> entries).
    rewrite !list_lookup_fmap. intros Hj Hk'.
    destruct (decide (j = i)) as [->|Hji], (decide (k = i)) as [->|Hki]; [done|..].
    - rewrite list_lookup_insert_eq in Hj by done. rewrite list_lookup_insert_ne in Hk' by done.
      destruct (entries !! k) as [c|] eqn:Ek; [|done]. simplify_eq/=.
      exfalso. apply (Hother k c Ek Hki). congruence.
    - rewrite list_lookup_insert_eq in Hk' by done. rewrite list_lookup_insert_ne in Hj by done.
      destruct (entries !! j) as [c|] eqn:Ej; [|done]. simplify_eq/=.
      exfalso. apply (Hother j c Ej Hji). congruence.
    - rewrite list_lookup_insert_ne in Hj, Hk' by done.
      apply (Hd j k a); change (map key entries) with (key <$> entries);
        by rewrite list_lookup_fmap. }
  split; [done|]. intros ip'. destruct (Z.eqb_spec ip' ip) as [->|Hne].
  - apply (find_ip_lookup _ _ i); [done|by apply list_lookup_insert_eq|done].
  - destruct (find_ip entries ip') as [c|] eqn:Ef.
    + apply find_ip_some in Ef as (j & Hj & Hc).
      apply (find_ip_lookup _ _ j); [done| |done]. rewrite list_lookup_insert_ne; [done|].
      intros ->. rewrite Hi in Hj. simplify_eq. destruct Hold as [?|[? _]]; congruence.
    + destruct (find_ip (<[i:=b]> entries) ip') as [c|] eqn:Ef'; [|done].
      apply find_ip_some in Ef' as (j & Hj & Hc).
      destruct (decide (j = i)) as [->|Hji].
      * rewrite list_lookup_insert_eq in Hj by done. congruence.
      * rewrite list_lookup_insert_ne in Hj by done.
        by rewrite (find_ip_lookup _ _ _ _ Hd Hj Hc) in Ef.
Qed.

Lemma select_slot_spec k entries ip selected empty :
  0 <= k →
  let '(selected', empty') := select_slot k entries ip selected empty in
  (match find_ip entries ip with
   | None => selected' = selected
   | Some _ => ∃ i b, selected' = k + Z.of_nat i ∧ entries !! i = Some b ∧ key b = Some ip
   end) ∧
  (0 <= empty → empty' = empty) ∧
  (empty < 0 →
   (empty' = empty ∧ Forall (λ b, key b ≠ None) entries) ∨
   (∃ i b, empty' = k + Z.of_nat i ∧ entries !! i = Some b ∧ key b = None)).
Proof.
  revert k selected empty. induction entries as [|b entries IH]; intros k selected empty Hk;
    cbn [select_slot find_ip].
  { split; [done|]. split; [done|]. intros _. by left. }
  set (sel := if _ && _ then k else selected). set (emp := if _ && _ then k else empty).
  specialize (IH (k + 1) sel emp ltac:(lia)). destruct (select_slot _ _ _ _ _) as [s' e'].
  destruct IH as (Hs & He0 & He1).
  assert (Hshift : ∀ (P : nat → arp_binding_payload_t → Prop) x,
    (∃ i c, x = k + 1 + Z.of_nat i ∧ entries !! i = Some c ∧ P i c) →
    ∃ i c, x = k + Z.of_nat i ∧ (b :: entries) !! i = Some c ∧ P (pred i) c).
  { intros P x (i & c & -> & ? & ?). exists (S i), c. split; [lia|done]. }
  unfold sel, emp in *. clear sel emp. destruct (key b) as [a|] eqn:Ekey.
  - assert (Hb : b_state b ≠ ARP_BINDING_EMPTY ∧ b_ip b = a).
    { revert Ekey. unfold key. destruct (Z.eqb_spec (b_state b) ARP_BINDING_EMPTY); [done|].
      by intros [= ->]. }
    destruct Hb as [Hb <-]. rewrite (proj2 (Z.eqb_neq _ _) Hb) in *. cbn [negb andb] in *.
    split; [|split].
    + destruct (Z.eqb_spec (b_ip b) ip) as [Eip|Hne].
      * rewrite decide_True by congruence. destruct (find_ip entries ip).
        -- by apply (Hshift (λ _ c, key c = Some ip)).
        -- exists 0%nat, b. split_and!; [lia|done|congruence].
      * rewrite decide_False by congruence. destruct (find_ip entries ip); [|done].
        by apply (Hshift (λ _ c, key c = Some ip)).
    + done.
    + intros He. destruct (He1 He) as [[-> Hf]|Hex]; [left|right].
      * split; [done|]. constructor; [congruence|done].
      * by apply (Hshift (λ _ c, key c = None)).
  - assert (Hb : b_state b = ARP_BINDING_EMPTY).
    { revert Ekey. unfold key. by destruct (Z.eqb_spec (b_state b) ARP_BINDING_EMPTY). }
    rewrite Hb in *. cbn [Z.eqb ARP_BINDING_EMPTY negb andb] in *.
    rewrite decide_False by done. split; [|split].
    + destruct (find_ip entries ip); [|done]. by apply (Hshift (λ _ c, key c = Some ip)).
    + intros He. rewrite (proj2 (Z.ltb_ge _ _)) in He0 by done. by apply He0.
    + intros He. rewrite (proj2 (Z.ltb_lt _ _)) in He0 by done. right. exists 0%nat, b.
      split_and!; [rewrite He0 by done; lia|done|done].
Qed.

Lemma land_lor_zero x y : 0 <= x → 0 <= y → Z.lor x y = 0 ↔ x = 0 ∧ y = 0.
Proof. intros. apply Z.lor_eq_0_iff. Qed.

Lemma set_expired_ok b :
  well_typed b → binding_ok b = true → b_state b = ARP_BINDING_VALID →
  well_typed (set_expired b) ∧ binding_ok (set_expired b) = true.
Proof.
  intros Ht Hok Hs. split.
  - apply binding_typed in Ht. apply binding_typed. cbn. split; [easy|tauto].
  - revert Hok. unfold binding_ok. rewrite Hs. cbn [set_expired b_state b_ip b_mac b_reserved
      b_epoch b_pid b_generation]. done.
Qed.

Section cache.
Context {O : Type} `{ProtectedStoreLaws O}.
Implicit Types (c : supervised_arp_cache_t O).

Definition entry_holds (object : O) (b : arp_binding_payload_t) : Prop :=
∃ n, record_holds SUPERVISED_ARP_OBJECT_VERSION binding_ok object n b.

Definition cache_holds c (entries : list arp_binding_payload_t) : Prop :=
Forall2 entry_holds c entries.

Lemma entry_ok object b : entry_holds object b → well_typed b ∧ binding_ok b = true.
Proof. by intros (n & _ & ? & ?). Qed.

Lemma read_entry_spec object b :
entry_holds object b →
∃ object', read_entry object empty_binding = (0, object', b) ∧ entry_holds object' b.
Proof.
intros (n & Hh & Ht & Hok). unfold read_entry.
destruct (ps_read_holds object SUPERVISED_ARP_OBJECT_VERSION n (encode b)
  (sizeof arp_binding_payload_t) payload_valid)
  as (object' & -> & Hh'); [done|done| |by rewrite length_encode|].
{ unfold payload_valid, record_valid. by rewrite length_encode, Nat.eqb_refl, decode_encode. }
exists object'. cbn [critical_read_ok critical_read_code Z.leb Z.compare].
rewrite decode_copy, length_encode, Nat.eqb_refl by done. split; [done|]. by exists n.
Qed.

Lemma update_entry_spec object b b' :
entry_holds object b → well_typed b' → binding_ok b' = true →
let '(status, object') := update_entry object b' in
(status = 0 ∧ entry_holds object' b') ∨ (status ≠ 0 ∧ entry_holds object' b).
Proof.
intros [n Hh] Ht Hok.
pose proof (store_record_spec SUPERVISED_ARP_OBJECT_VERSION binding_ok (-1) ltac:(easy)
  ltac:(done) binding_size object n b b' Hh Ht Hok) as Hst.
unfold store_record in Hst. unfold update_entry, payload_valid.
destruct (ps_update _ _ _ _) as [status object']. destruct (Z.eqb_spec status 0) as [->|Hne].
- destruct Hst as [(_ & n' & ? & _)|(? & _)]; [left|done]. split; [done|by exists n'].
- destruct Hst as [(? & _)|(_ & _ & ?)]; [done|right]. split; [done|by exists n].
Qed.

Lemma read_entries_spec c entries :
cache_holds c entries →
∃ c', read_entries c = (Some (map (λ b, (0, b)) entries), c') ∧ cache_holds c' entries.
Proof.
induction 1 as [|object b c entries Hb _ (c' & E & Hc')].
{ exists []. split; [done|constructor]. }
cbn [read_entries]. destruct (read_entry_spec object b Hb) as (object' & -> & Hb').
change (0 <? 0) with false. cbv iota. rewrite E. exists (object' :: c'). split; [done|by constructor].
Qed.

Lemma map_snd_zero (entries : list arp_binding_payload_t) :
map snd (map (λ b, (0, b)) entries) = entries.
Proof. induction entries; [done|]. cbn. by f_equal. Qed.

Definition revoked_entry (matches : arp_binding_payload_t → bool) (b : arp_binding_payload_t)
  : arp_binding_payload_t :=
if (b_state b =? ARP_BINDING_VALID) && matches b then set_expired b else b.

Definition count_matching (matches : arp_binding_payload_t → bool)
  (entries : list arp_binding_payload_t) : Z :=
Z.of_nat (length (List.filter (λ b, (b_state b =? ARP_BINDING_VALID) && matches b) entries)).

Lemma weaken_self b : weaken b b.
Proof. by left. Qed.

Lemma revoke_loop_spec matches c entries k :
cache_holds c entries →
let '(result, c') := revoke_loop matches c entries k in
∃ entries', cache_holds c' entries' ∧ Forall2 weaken entries entries' ∧
  match result with
  | Some r => entries' = map (revoked_entry matches) entries ∧ r = k + count_matching matches entries
  | None => True
  end.
Proof.
intros Hc. revert k. induction Hc as [|object b c entries Hb Hc IH]; intros k;
  cbn [revoke_loop].
{ exists []. split; [constructor|]. split; [constructor|]. split; [done|].
  unfold count_matching. cbn. lia. }
rewrite <- negb_andb. unfold revoked_entry, count_matching. cbn [map List.filter].
destruct ((b_state b =? ARP_BINDING_VALID) && matches b) eqn:Em; cbn [negb].
- apply andb_true_iff in Em as [Ev%Z.eqb_eq _].
  destruct (entry_ok _ _ Hb) as [Ht Hok]. destruct (set_expired_ok b Ht Hok Ev) as [Ht' Hok'].
  pose proof (update_entry_spec object b (set_expired b) Hb Ht' Hok') as Hu.
  destruct (update_entry object (set_expired b)) as [status object'].
  destruct Hu as [[-> Hb']|[Hne Hb']].
  + cbn [Z.eqb negb]. specialize (IH (k + 1)).
    destruct (revoke_loop matches c entries (k + 1)) as [result c'].
    destruct IH as (entries' & Hc' & Hw & Hr). exists (set_expired b :: entries').
    split; [by constructor|]. split; [constructor; [by right|done]|].
    destruct result as [r|]; [|done]. destruct Hr as [-> ->]. split; [done|].
    unfold count_matching. cbn [length]. lia.
  + rewrite (proj2 (Z.eqb_neq _ _) Hne). cbn [negb]. exists (b :: entries).
    split; [by constructor|]. split; [apply weaken_refl|done].
- specialize (IH k). destruct (revoke_loop matches c entries k) as [result c'].
  destruct IH as (entries' & Hc' & Hw & Hr). exists (b :: entries').
  split; [by constructor|]. split; [constructor; [apply weaken_self|done]|].
  destruct result as [r|]; [|done]. destruct Hr as [-> ->]. done.
Qed.

Lemma revoke_spec matches c entries :
cache_holds c entries →
let '(result, c') := revoke matches c in
∃ entries', cache_holds c' entries' ∧ Forall2 weaken entries entries' ∧
  (result = -2 ∨
   (result = count_matching matches entries ∧ entries' = map (revoked_entry matches) entries)).
Proof.
intros Hc. unfold revoke. destruct (read_entries_spec c entries Hc) as (c1 & -> & Hc1).
rewrite map_snd_zero. pose proof (revoke_loop_spec matches c1 entries 0 Hc1) as Hr.
destruct (revoke_loop matches c1 entries 0) as [[r|] c2];
  destruct Hr as (entries' & ? & ? & Hr); exists entries'; split; auto.
destruct Hr as [-> ->]. auto.
Qed.

Lemma scrub_loop_spec now_ms c entries stats :
cache_holds c entries →
let '(result, c') := scrub_loop now_ms c entries stats in
∃ entries', cache_holds c' entries' ∧ Forall2 weaken entries entries' ∧
  match result with
  | Some _ => entries' = map (revoked_entry (λ b, b_deadline_ms b <=? now_ms)) entries
  | None => True
  end.
Proof.
intros Hc. revert stats. induction Hc as [|object b c entries Hb Hc IH]; intros stats;
  cbn [scrub_loop].
{ exists []. split; [constructor|]. split; [constructor|done]. }
unfold revoked_entry. cbn [map].
destruct ((b_state b =? ARP_BINDING_VALID) && (b_deadline_ms b <=? now_ms)) eqn:Em.
- apply andb_true_iff in Em as [Ev%Z.eqb_eq _].
  destruct (entry_ok _ _ Hb) as [Ht Hok]. destruct (set_expired_ok b Ht Hok Ev) as [Ht' Hok'].
  pose proof (update_entry_spec object b (set_expired b) Hb Ht' Hok') as Hu.
  destruct (update_entry object (set_expired b)) as [status object'].
  destruct Hu as [[-> Hb']|[Hne Hb']].
  + cbn [Z.eqb negb]. match goal with |- context [scrub_loop now_ms c entries ?s] => specialize (IH s) end.
    destruct (scrub_loop now_ms c entries _) as [result c'].
    destruct IH as (entries' & Hc' & Hw & Hr). exists (set_expired b :: entries').
    split; [by constructor|]. split; [constructor; [by right|done]|].
    destruct result as [r|]; [|done]. by rewrite Hr.
  + rewrite (proj2 (Z.eqb_neq _ _) Hne). cbn [negb]. exists (b :: entries).
    split; [by constructor|]. split; [apply weaken_refl|done].
- cbn [Z.eqb negb]. match goal with |- context [scrub_loop now_ms c entries ?s] => specialize (IH s) end.
  destruct (scrub_loop now_ms c entries _) as [result c'].
  destruct IH as (entries' & Hc' & Hw & Hr). exists (b :: entries').
  split; [by constructor|]. split; [constructor; [apply weaken_self|done]|].
  destruct result as [r|]; [|done]. by rewrite Hr.
Qed.

Lemma lookup_loop_spec c entries ip now_ms :
cache_holds c entries →
let '(result, c', mac) := lookup_loop c ip now_ms in
∃ entries', cache_holds c' entries' ∧ Forall2 weaken entries entries' ∧
  match find_ip entries ip with
  | None => result = SUPERVISED_ARP_MISS ∧ mac = None
  | Some b =>
      if (b_state b =? ARP_BINDING_VALID) && (now_ms <? b_deadline_ms b)
      then result = SUPERVISED_ARP_HIT ∧ mac = Some (le_bytes 6 (b_mac b)) ∧ entries' = entries
      else (result = SUPERVISED_ARP_BLOCKED ∧ find_ip entries' ip = Some (set_expired b) ∨
            result = SUPERVISED_ARP_INTEGRITY_FAILURE) ∧ mac = None
  end.
Proof.
intros Hc. induction Hc as [|object b c entries Hb Hc IH]; cbn [lookup_loop find_ip].
{ exists []. split; [constructor|]. split; [constructor|done]. }
destruct (read_entry_spec object b Hb) as (object1 & -> & Hb1).
change (0 <? 0) with false. cbv iota.
destruct (entry_ok _ _ Hb) as [Ht Hok].
destruct (Z.eqb_spec (b_state b) ARP_BINDING_EMPTY) as [Eempty|Eempty]; cbn [orb].
{ rewrite decide_False by (unfold key; by rewrite Eempty).
  destruct (lookup_loop c ip now_ms) as [[result c'] mac].
  destruct IH as (entries' & Hc' & Hw & Hr). exists (b :: entries').
  split; [by constructor|]. split; [constructor; [apply weaken_self|done]|].
  destruct (find_ip entries ip) as [b'|]; [|done].
  destruct (_ && _); [by destruct Hr as (-> & -> & ->)|].
  cbn [find_ip]. by rewrite decide_False by (unfold key; by rewrite Eempty). }
assert (Ekey : key b = Some (b_ip b)) by (unfold key; by rewrite (proj2 (Z.eqb_neq _ _) Eempty)).
destruct (Z.eqb_spec (b_ip b) ip) as [Eip|Eip]; cbn [negb].
2:{ rewrite decide_False by congruence.
  destruct (lookup_loop c ip now_ms) as [[result c'] mac].
  destruct IH as (entries' & Hc' & Hw & Hr). exists (b :: entries').
  split; [by constructor|]. split; [constructor; [apply weaken_self|done]|].
  destruct (find_ip entries ip) as [b'|]; [|done].
  destruct (_ && _); [by destruct Hr as (-> & -> & ->)|].
  cbn [find_ip]. by rewrite decide_False by congruence. }
rewrite decide_True by congruence.
assert (Hstate : b_state b = ARP_BINDING_VALID ∨ b_state b = ARP_BINDING_EXPIRED).
{ revert Hok. unfold binding_ok. destruct (_ || _); [done|].
  rewrite (proj2 (Z.eqb_neq _ _) Eempty).
  destruct (Z.eqb_spec (b_state b) ARP_BINDING_VALID), (Z.eqb_spec (b_state b) ARP_BINDING_EXPIRED);
    auto. done. }
destruct Hstate as [Ev|Ee].
- rewrite Ev. change (ARP_BINDING_VALID =? ARP_BINDING_EXPIRED) with false.
  change (ARP_BINDING_VALID =? ARP_BINDING_VALID) with true. cbv iota. cbn [andb].
  rewrite Z.ltb_antisym. destruct (Z.leb_spec (b_deadline_ms b) now_ms) as [Hle|Hgt]; cbn [negb].
  + destruct (set_expired_ok b Ht Hok Ev) as [Ht' Hok'].
    pose proof (update_entry_spec object1 b (set_expired b) Hb1 Ht' Hok') as Hu.
    destruct (update_entry object1 (set_expired b)) as [status object2].
    destruct Hu as [[-> Hb']|[Hne Hb']].
    * exists (set_expired b :: entries). split; [by constructor|].
      split; [constructor; [by right|apply weaken_refl]|]. cbn [Z.eqb negb].
      split; [left|done]. split; [done|]. cbn [find_ip]. by rewrite decide_True by (cbn; congruence).
    * exists (b :: entries). split; [by constructor|]. split; [apply weaken_refl|].
      rewrite (proj2 (Z.eqb_neq _ _) Hne). auto.
  + exists (b :: entries). split; [by constructor|]. split; [apply weaken_refl|done].
- rewrite Ee. change (ARP_BINDING_EXPIRED =? ARP_BINDING_EXPIRED) with true.
  change (ARP_BINDING_EXPIRED =? ARP_BINDING_VALID) with false. cbv iota. cbn [andb].
  exists (b :: entries). split; [by constructor|]. split; [apply weaken_refl|].
  split; [left|done]. split; [done|]. cbn [find_ip]. rewrite decide_True by congruence.
  f_equal. destruct b. cbn in Ee. by subst.
Qed.

(** ** Commit *)
Definition committed (ip : Z) (mac : list Z) (transaction_epoch source_pid source_generation
  now_ms lease_ms : Z) : arp_binding_payload_t :=
Binding ARP_BINDING_VALID ip (le_value mac) 0 transaction_epoch source_pid source_generation
  (if UINT64_MAX - now_ms <? lease_ms then UINT64_MAX else now_ms + lease_ms).

(** The arguments as the C types give them. *)
Definition commit_typed (ip : Z) (mac : list Z) (transaction_epoch source_pid source_generation
  now_ms lease_ms : Z) : Prop :=
is_u32 ip ∧ (Forall is_u8 mac ∧ length mac = 6%nat) ∧ is_u32 transaction_epoch ∧
-2147483648 <= source_pid < 2147483648 ∧ is_u32 source_generation ∧ is_u64 now_ms ∧
is_u32 lease_ms.

Lemma committed_ok ip mac te pid gen now_ms lease_ms :
commit_typed ip mac te pid gen now_ms lease_ms →
ip ≠ 0 → te ≠ 0 → 0 < pid → gen ≠ 0 → mac_valid mac = true →
well_typed (committed ip mac te pid gen now_ms lease_ms) ∧
binding_ok (committed ip mac te pid gen now_ms lease_ms) = true.
Proof.
intros (Hip & [Hmac Hlen] & Hte & Hpid & Hgen & Hnow & Hlease) ???? Hvalid. split.
- apply binding_typed. cbn. pose proof (le_value_range mac Hmac) as Hr. rewrite Hlen in Hr.
  change (256 ^ Z.of_nat 6) with 281474976710656 in Hr.
  change (2 ^ 48) with 281474976710656. unfold UINT64_MAX, ARP_BINDING_VALID.
  destruct (Z.ltb_spec (18446744073709551615 - now_ms) lease_ms); split_and!; ulia.
- unfold binding_ok, committed. cbn [b_state b_ip b_mac b_reserved b_epoch b_pid b_generation].
  change (negb (Z.land 0 255 =? 0) || negb (Z.shiftr 0 8 =? 0)) with false.
  change (ARP_BINDING_VALID =? ARP_BINDING_EMPTY) with false.
  change (negb (ARP_BINDING_VALID =? ARP_BINDING_VALID)) with false. cbv iota. cbn [andb].
  rewrite <- Hlen, le_bytes_value, Hvalid by done. unfold s32.
  rewrite (proj2 (Z.ltb_lt pid _)), (proj2 (Z.ltb_lt 0 pid)) by lia.
  by rewrite !(proj2 (Z.eqb_neq _ _)) by done.
Qed.

Lemma commit_spec c entries ip mac te pid gen now_ms lease_ms :
cache_holds c entries → distinct entries →
commit_typed ip mac te pid gen now_ms lease_ms →
let '(result, c') := supervised_arp_cache_commit c ip mac te pid gen now_ms lease_ms in
∃ entries', cache_holds c' entries' ∧ distinct entries' ∧
  ((result = 0 ∧ lease_ms ≠ 0 ∧ 
    ∀ ip', find_ip entries' ip' =
      if ip' =? ip then Some (committed ip mac te pid gen now_ms lease_ms)
      else find_ip entries ip') ∨
   ((result = -1 ∨ result = -2) ∧ entries' = entries)).
Proof.
intros Hc Hd Hty. unfold supervised_arp_cache_commit.
destruct (_ || _) eqn:Hg; [by exists entries; split_and!; [..|right; auto]|].
rewrite !orb_false_iff, !Z.eqb_neq, Z.leb_gt, negb_false_iff in Hg.
destruct Hg as (((((? & ?) & ?) & ?) & ?) & ?).
destruct (read_entries_spec c entries Hc) as (c1 & -> & Hc1). rewrite map_snd_zero.
pose proof (select_slot_spec 0 entries ip (-1) (-1) ltac:(lia)) as Hsel.
destruct (select_slot 0 entries ip (-1) (-1)) as [selected empty].
destruct Hsel as (Hs & _ & He). specialize (He ltac:(lia)).
assert (Hslot : (selected < 0 ∧ empty < 0) ∨
  ∃ i old, (if selected <? 0 then empty else selected) = Z.of_nat i ∧ entries !! i = Some old ∧
    (key old = Some ip ∨ (key old = None ∧ find_ip entries ip = None))).
{ destruct (find_ip entries ip) as [b|] eqn:Ef.
  - destruct Hs as (i & old & -> & ? & ?). right. exists i, old.
    rewrite (proj2 (Z.ltb_ge _ _)) by lia. split; [lia|]. auto.
  - subst selected. change (-1 <? 0) with true. cbv iota.
    destruct He as [[-> _]|(i & old & -> & ? & ?)]; [left; lia|right].
    exists i, old. split; [lia|]. auto. }
destruct Hslot as [[Hs' He']|(i & old & Ei & Hi & Hkey)].
{ rewrite (proj2 (Z.ltb_lt selected 0)), (proj2 (Z.ltb_lt empty 0)) by done.
  by exists entries; split_and!; [..|right; auto]. }
cbv zeta. rewrite Ei, (proj2 (Z.ltb_ge (Z.of_nat i) 0)), Nat2Z.id by lia.
destruct (Forall2_lookup_r _ _ _ _ _ Hc1 Hi) as (object & Hobj & Hold).
unfold supervised_arp_cache_t in *. rewrite Hobj.
fold (committed ip mac te pid gen now_ms lease_ms).
destruct (committed_ok ip mac te pid gen now_ms lease_ms) as [Ht Hok]; [done..|].
pose proof (update_entry_spec object old _ Hold Ht Hok) as Hu.
destruct (update_entry object _) as [status object'].
destruct Hu as [[-> Hb']|[Hne Hb']].
- destruct (find_ip_insert entries i old (committed ip mac te pid gen now_ms lease_ms) ip Hd Hi)
    as [Hd' Hf]; [done|done|].
  exists (<[i:=committed ip mac te pid gen now_ms lease_ms]> entries).
  split; [by apply Forall2_insert|]. split; [done|]. left. by split_and!.
- rewrite (proj2 (Z.eqb_neq _ _) Hne). exists entries. split; [|split; [done|right; auto]].
  rewrite <- (list_insert_id entries i old Hi). by apply Forall2_insert.
Qed.

Lemma init_entries_spec c :
∃ c', init_entries c = (0, c') ∧ cache_holds c' (replicate (length c) empty_binding).
Proof.
induction c as [|object c (c' & E & Hc')]; cbn [init_entries length replicate].
{ exists []. split; [done|constructor]. }
destruct (init_record_spec SUPERVISED_ARP_OBJECT_VERSION binding_ok (-1) ltac:(easy) ltac:(done)
  binding_size object empty_binding) as (object' & -> & Hb); [by apply binding_typed|done|].
cbn [Z.eqb negb]. rewrite E. exists (object' :: c'). split; [done|].
constructor; [by exists 1|done].
Qed.

(** ** What a client sees: the address a lookup returns, if any *)
Definition hit c (ip now_ms : Z) : option (list Z) :=
match supervised_arp_cache_lookup c ip now_ms with
| (SUPERVISED_ARP_HIT, _, mac) => mac
| _ => None
end.

Definition live (b : arp_binding_payload_t) (now_ms : Z) : option (list Z) :=
if (b_state b =? ARP_BINDING_VALID) && (now_ms <? b_deadline_ms b)
then Some (le_bytes 6 (b_mac b)) else None.

Lemma hit_spec c entries ip now_ms :
cache_holds c entries → ip ≠ 0 →
hit c ip now_ms = find_ip entries ip ≫= λ b, live b now_ms.
Proof.
intros Hc Hip. unfold hit, supervised_arp_cache_lookup. rewrite (proj2 (Z.eqb_neq _ _) Hip).
pose proof (lookup_loop_spec c entries ip now_ms Hc) as Hl.
destruct (lookup_loop c ip now_ms) as [[result c'] mac].
destruct Hl as (entries' & _ & _ & Hl). destruct (find_ip entries ip) as [b|]; cbn [mbind option_bind].
- unfold live. destruct (_ && _); [by destruct Hl as (-> & -> & _)|].
  by destruct Hl as [[[-> _]| ->] ->].
- by destruct Hl as [-> _].
Qed.

Lemma live_weaken b b' now_ms m : weaken b b' → live b' now_ms = Some m → live b now_ms = Some m.
Proof. intros [->|[_ ->]]; [done|]. done. Qed.

(** ** Operations as data *)
Inductive arp_op :=
| Commit (ip : Z) (mac : list Z) (te pid gen now_ms lease_ms : Z)
| RevokeIdentity (pid gen : Z)
| RevokeIp (ip : Z)
| Scrub (now_ms : Z)
| Lookup (ip now_ms : Z).

Definition arp_step c (op : arp_op) : supervised_arp_cache_t O :=
match op with
| Commit ip mac te pid gen now_ms lease_ms =>
    (supervised_arp_cache_commit c ip mac te pid gen now_ms lease_ms).2
| RevokeIdentity pid gen => (supervised_arp_cache_revoke_identity c pid gen).2
| RevokeIp ip => (supervised_arp_cache_revoke_ip c ip).2
| Scrub now_ms => (supervised_arp_cache_scrub c now_ms).1.2
| Lookup ip now_ms => (supervised_arp_cache_lookup c ip now_ms).1.2
end.

Definition op_typed (op : arp_op) : Prop :=
match op with
| Commit ip mac te pid gen now_ms lease_ms => commit_typed ip mac te pid gen now_ms lease_ms
| _ => True
end.

Inductive arp_reachable : supervised_arp_cache_t O → Prop :=
| arp_start c c' :
  length c = SUPERVISED_ARP_CACHE_SIZE → supervised_arp_cache_init c = (0, c') →
  arp_reachable c'
| arp_next c op : arp_reachable c → op_typed op → arp_reachable (arp_step c op).

Definition arp_ok c (entries : list arp_binding_payload_t) : Prop :=
cache_holds c entries ∧ distinct entries.

Lemma scrub_spec c entries now_ms :
cache_holds c entries →
let '(result, c', _) := supervised_arp_cache_scrub c now_ms in
∃ entries', cache_holds c' entries' ∧ Forall2 weaken entries entries'.
Proof.
intros Hc. unfold supervised_arp_cache_scrub.
destruct (read_entries_spec c entries Hc) as (c1 & -> & Hc1). rewrite map_snd_zero.
match goal with |- context [scrub_loop now_ms c1 entries ?s] =>
  pose proof (scrub_loop_spec now_ms c1 entries s Hc1) as Hs end.
destruct (scrub_loop now_ms c1 entries _) as [[s|] c2]; destruct Hs as (entries' & ? & ? & _);
  by exists entries'.
Qed.

(** Every operation but a commit only weakens. *)
Lemma step_weakens c entries op :
cache_holds c entries →
match op with Commit _ _ _ _ _ _ _ => True | _ =>
  ∃ entries', cache_holds (arp_step c op) entries' ∧ Forall2 weaken entries entries' end.
Proof.
intros Hc. destruct op as [|pid gen|ip|now_ms|ip now_ms]; [done|..]; cbn [arp_step].
- unfold supervised_arp_cache_revoke_identity.
  destruct (_ || _); [exists entries; by split; [|apply weaken_refl]|].
  match goal with |- context [revoke ?m c] => pose proof (revoke_spec m c entries Hc) as Hr end.
  destruct (revoke _ c). destruct Hr as (entries' & ? & ? & _). by exists entries'.
- unfold supervised_arp_cache_revoke_ip.
  destruct (_ || _); [exists entries; by split; [|apply weaken_refl]|].
  match goal with |- context [revoke ?m c] => pose proof (revoke_spec m c entries Hc) as Hr end.
  destruct (revoke _ c). destruct Hr as (entries' & ? & ? & _). by exists entries'.
- pose proof (scrub_spec c entries now_ms Hc) as Hs.
  by destruct (supervised_arp_cache_scrub c now_ms) as [[? ?] ?].
- unfold supervised_arp_cache_lookup.
  destruct (ip =? 0); [exists entries; by split; [|apply weaken_refl]|].
  pose proof (lookup_loop_spec c entries ip now_ms Hc) as Hl.
  destruct (lookup_loop c ip now_ms) as [[? ?] ?]. destruct Hl as (entries' & ? & ? & _).
  by exists entries'.
Qed.

Lemma arp_step_ok c entries op :
arp_ok c entries → op_typed op → ∃ entries', arp_ok (arp_step c op) entries'.
Proof.
intros [Hc Hd] Hop. pose proof (step_weakens c entries op Hc) as Hw.
destruct op as [ip mac te pid gen now_ms lease_ms|?|?|?|?];
  [|destruct Hw as (entries' & ? & ?); exists entries'; split; [done|by eapply weaken_distinct]..].
pose proof (commit_spec c entries ip mac te pid gen now_ms lease_ms Hc Hd Hop) as Hs.
cbn [arp_step]. destruct (supervised_arp_cache_commit _ _ _ _ _ _ _ _).
destruct Hs as (entries' & ? & ? & _). by exists entries'.
Qed.

Lemma distinct_empty n : distinct (replicate n empty_binding).
Proof.
intros i j a Hi. exfalso.
change (map key (replicate n empty_binding)) with (key <$> replicate n empty_binding) in Hi.
rewrite fmap_replicate in Hi. apply lookup_replicate in Hi as [Hi _]. done.
Qed.

Lemma arp_reachable_ok c : arp_reachable c → ∃ entries, arp_ok c entries.
Proof.
induction 1 as [c c' Hl Hi|c op _ (entries & Hok) Hop].
- destruct (init_entries_spec c) as (c1 & E & Hc1).
  unfold supervised_arp_cache_init in Hi. rewrite E in Hi. injection Hi as <-.
  eexists. split; [exact Hc1|apply distinct_empty].
- by eapply arp_step_ok.
Qed.

Definition commits_to (ip : Z) (op : arp_op) : bool :=
match op with Commit ip' _ _ _ _ _ _ => ip' =? ip | _ => false end.

Lemma step_hit c op ip now_ms m :
arp_reachable c → op_typed op → ip ≠ 0 → commits_to ip op = false →
hit (arp_step c op) ip now_ms = Some m → hit c ip now_ms = Some m.
Proof.
intros Hr Hop Hip Hcommit. destruct (arp_reachable_ok c Hr) as (entries & Hc & Hd).
rewrite (hit_spec c entries) by done. pose proof (step_weakens c entries op Hc) as Hw.
destruct op as [ip' mac te pid gen now' lease_ms|?|?|?|?].
2-5: destruct Hw as (entries' & Hc' & Hw); rewrite (hit_spec _ entries') by done;
  pose proof (weaken_find _ _ ip Hw) as Hf; destruct (find_ip entries ip) as [b|];
  [destruct Hf as (b' & -> & Hb); by apply live_weaken|by rewrite Hf].
cbn [commits_to] in Hcommit. cbn [arp_step].
pose proof (commit_spec c entries ip' mac te pid gen now' lease_ms Hc Hd Hop) as Hs.
destruct (supervised_arp_cache_commit _ _ _ _ _ _ _ _) as [result c'].
destruct Hs as (entries' & Hc' & _ & Hs). cbn [snd]. rewrite (hit_spec c' entries') by done.
destruct Hs as [(_ & _ & Hf)|[_ ->]]; [|done].
rewrite Hf, Z.eqb_sym, Hcommit. done.
Qed.

(** * Properties *)

(** A successful commit binds exactly its address: afterwards a lookup of the
  address returns the committed hardware address until the lease runs out (with
  the deadline saturating), and lookups of every other address are unaffected; a
  commit that fails affects no lookup. *)
Theorem arp_commit_binds c ip mac te pid gen now_ms lease_ms ip' t :
arp_reachable c → commit_typed ip mac te pid gen now_ms lease_ms → ip' ≠ 0 →
let '(result, c') := supervised_arp_cache_commit c ip mac te pid gen now_ms lease_ms in
hit c' ip' t =
  if (result =? 0) && (ip' =? ip)
  then (if t <? (if UINT64_MAX - now_ms <? lease_ms then UINT64_MAX else now_ms + lease_ms)
        then Some mac else None)
  else hit c ip' t.
Proof.
intros Hr Hty Hip'. destruct (arp_reachable_ok c Hr) as (entries & Hc & Hd).
pose proof (commit_spec c entries ip mac te pid gen now_ms lease_ms Hc Hd Hty) as Hs.
destruct (supervised_arp_cache_commit _ _ _ _ _ _ _ _) as [result c'].
destruct Hs as (entries' & Hc' & _ & Hs).
rewrite (hit_spec c' entries'), (hit_spec c entries) by done.
destruct Hs as [(-> & _ & Hf)|[Hr' ->]].
- rewrite Hf. change (0 =? 0) with true. cbn [andb]. destruct (Z.eqb_spec ip' ip); [|done].
  cbn [mbind option_bind]. unfold live, committed. cbn [b_state b_deadline_ms b_mac andb Z.eqb].
  destruct Hty as (_ & [Hm Hl] & _). rewrite <- Hl at 1. by rewrite le_bytes_value.
- destruct (Z.eqb_spec result 0); [lia|done].
Qed.

(** C27: nothing but a commit for an address makes a lookup of it succeed: along
  every run of commits for other addresses, lookups, revocations and scrubs, with
  whatever clock, an address that resolves at some time did so, to the same
  hardware address, before the run. *)
Theorem arp_no_resurrection c ops ip t m :
arp_reachable c → Forall op_typed ops → ip ≠ 0 →
Forall (λ op, commits_to ip op = false) ops →
hit (foldl arp_step c ops) ip t = Some m → hit c ip t = Some m.
Proof.
intros Hr Hops Hip Hno. revert c Hr. induction Hops as [|op ops Hop _ IH]; intros c Hr; [done|].
apply Forall_cons_1 in Hno as [Hop' Hno]. cbn [foldl]. intros Hh.
apply (step_hit c op); [done..|]. apply IH; [done|by apply arp_next|done].
Qed.

(** Revoking the identity of a service revokes all its bindings and no other:
  when it reports success it reports their number, no address bound by the
  identity resolves any more at any time, and every other address resolves as
  before. *)
Theorem arp_revoke_identity_exact c entries pid gen ip t :
arp_reachable c → cache_holds c entries → 0 < pid < 2147483648 → gen ≠ 0 → ip ≠ 0 →
let '(result, c') := supervised_arp_cache_revoke_identity c pid gen in
0 <= result →
result = count_matching (λ b, (s32 (b_pid b) =? pid) && (b_generation b =? gen)) entries ∧
hit c' ip t =
  match find_ip entries ip with
  | Some b => if (b_pid b =? pid) && (b_generation b =? gen) then None else hit c ip t
  | None => None
  end.
Proof.
intros Hr Hc Hpid Hgen Hip. unfold supervised_arp_cache_revoke_identity.
rewrite (proj2 (Z.leb_gt pid 0)), (proj2 (Z.eqb_neq gen 0)) by lia. cbn [orb].
set (matches := λ b, _). pose proof (revoke_spec matches c entries Hc) as Hrev.
destruct (revoke matches c) as [result c']. destruct Hrev as (entries' & Hc' & Hw & Hres).
intros Hge. destruct Hres as [->|[-> ->]]; [lia|]. split; [done|].
rewrite (hit_spec c' _ ip t Hc'), (hit_spec c entries) by done.
assert (Hfind : find_ip (map (revoked_entry matches) entries) ip =
  revoked_entry matches <$> find_ip entries ip).
{ clear. induction entries as [|b entries IH]; [done|]. cbn [map find_ip].
  assert (key (revoked_entry matches b) = key b) as ->.
  { unfold revoked_entry, key. destruct (Z.eqb_spec (b_state b) ARP_BINDING_VALID) as [E|]; [|done].
    cbn [andb]. destruct (matches b); [by rewrite E|done]. }
  case_decide; [done|]. exact IH. }
rewrite Hfind. destruct (find_ip entries ip) as [b|] eqn:Ef; [|done]. cbn [fmap option_fmap mbind
  option_bind].
assert (Hs32 : (s32 (b_pid b) =? pid) = (b_pid b =? pid)).
{ apply find_ip_some in Ef as (i & Hi & _).
  destruct (Forall2_lookup_r _ _ _ _ _ Hc Hi) as (object & _ & Hb).
  destruct (entry_ok _ _ Hb) as [Ht _]. apply binding_typed in Ht. unfold s32.
  destruct (Z.ltb_spec (b_pid b) 2147483648); [done|].
  rewrite !(proj2 (Z.eqb_neq _ _)); [done|ulia..]. }
unfold revoked_entry, matches. cbn [option_map mbind option_bind]. rewrite Hs32. unfold live at 1.
destruct ((b_pid b =? pid) && (b_generation b =? gen)).
- rewrite andb_true_r. destruct (Z.eqb_spec (b_state b) ARP_BINDING_VALID) as [E|E]; [done|].
  by rewrite (proj2 (Z.eqb_neq _ _) E).
- by rewrite andb_false_r.
Qed.
End cache.

(** ** Witnesses over the critical objects of the kernel *)
Definition sample_cache : supervised_arp_cache_t CriticalObject.critical_object_t :=
  (supervised_arp_cache_init (replicate 32 sample_object)).2.

Lemma sample_cache_reachable : arp_reachable sample_cache.
Proof.
  apply (arp_start (replicate 32 sample_object)); [done|].
  destruct (init_entries_spec (replicate 32 sample_object)) as (c' & E & _).
  unfold sample_cache, supervised_arp_cache_init. by rewrite E.
Qed.

Definition bound_cache : supervised_arp_cache_t CriticalObject.critical_object_t :=
  arp_step sample_cache (Commit 10 [2; 0; 0; 0; 0; 7] 1 5 1 1000 30).

Lemma bound_typed : commit_typed 10 [2; 0; 0; 0; 0; 7] 1 5 1 1000 30.
Proof. repeat split; try easy. apply is_bytes_spec. reflexivity. Qed.

Lemma bound_reachable : arp_reachable bound_cache.
Proof. apply arp_next; [exact sample_cache_reachable|exact bound_typed]. Qed.

Lemma arp_commit_binds_witness :
  (supervised_arp_cache_commit sample_cache 10 [2; 0; 0; 0; 0; 7] 1 5 1 1000 30).1 = 0 ∧
  hit bound_cache 10 1029 = Some [2; 0; 0; 0; 0; 7] ∧ hit bound_cache 10 1030 = None.
Proof.
  assert (Hne : 10 ≠ 0) by easy.
  assert (E : (supervised_arp_cache_commit sample_cache 10 [2; 0; 0; 0; 0; 7] 1 5 1 1000 30).1 = 0)
    by (vm_compute; reflexivity).
  split; [exact E|]. unfold bound_cache. cbn [arp_step].
  pose proof (λ t, arp_commit_binds sample_cache 10 [2; 0; 0; 0; 0; 7] 1 5 1 1000 30 10 t
    sample_cache_reachable bound_typed Hne) as H.
  destruct (supervised_arp_cache_commit _ _ _ _ _ _ _ _) as [result c']. cbn [fst] in E. subst result.
  cbn [snd]. rewrite (H 1029), (H 1030). split; reflexivity.
Defined.

Lemma arp_no_resurrection_witness :
  hit (foldl arp_step bound_cache [Lookup 10 1005; Scrub 1010]) 10 1029 = Some [2; 0; 0; 0; 0; 7] ∧
  hit bound_cache 10 1029 = Some [2; 0; 0; 0; 0; 7].
Proof.
  assert (Hne : 10 ≠ 0) by easy.
  assert (Hty : Forall op_typed [Lookup 10 1005; Scrub 1010]) by repeat constructor.
  assert (Hno : Forall (λ op, commits_to 10 op = false) [Lookup 10 1005; Scrub 1010])
    by repeat constructor.
  assert (E : hit (foldl arp_step bound_cache [Lookup 10 1005; Scrub 1010]) 10 1029 =
    Some [2; 0; 0; 0; 0; 7]) by (vm_compute; reflexivity).
  split; [exact E|].
  exact (arp_no_resurrection bound_cache [Lookup 10 1005; Scrub 1010] 10 1029 _
    bound_reachable Hty Hne Hno E).
Defined.

Lemma arp_revoke_identity_exact_witness :
  (supervised_arp_cache_revoke_identity bound_cache 5 1).1 = 1 ∧
  ∃ entries, cache_holds bound_cache entries ∧
    1 = count_matching (λ b, (s32 (b_pid b) =? 5) && (b_generation b =? 1)) entries.
Proof.
  assert (Hpid : 0 < 5 < 2147483648) by easy. assert (Hgen : 1 ≠ 0) by easy.
  assert (Hip : 10 ≠ 0) by easy. assert (Hone : 0 <= 1) by easy.
  assert (E : (supervised_arp_cache_revoke_identity bound_cache 5 1).1 = 1)
    by (vm_compute; reflexivity).
  split; [exact E|].
  destruct (arp_reachable_ok bound_cache bound_reachable) as (entries & Hc & _).
  exists entries. split; [exact Hc|].
  pose proof (arp_revoke_identity_exact bound_cache entries 5 1 10 1029 bound_reachable Hc
    Hpid Hgen Hip) as H.
  destruct (supervised_arp_cache_revoke_identity bound_cache 5 1) as [result c']. cbn [fst] in E.
  subst result. destruct (H Hone) as [H1 _]. exact H1.
Defined.
