(* ===== verification/AtaJournal.v ===== *)
(** ATA undo journal: src/drivers/block/ata_journal.c and
    src/drivers/block/ata_journal.h.

    [Module AtaJournal] holds every function of the C file over a transport,
    a record of optional callbacks whose shared context is a state [W].  A
    sector and a record on it are 512 bytes; the fields of a record are read
    from the bytes, as the C casts do.  The runtime scratch buffers of the
    journal are local values here: nothing reads them across calls.  The
    journal pointer is a reference and never NULL; output buffers are
    returned.  The number of entries is a [nat]: it never exceeds
    [ATA_JOURNAL_MAX_ENTRIES]. *)
From S2P Require Import Prelude Crc32.

Module AtaJournal.

Definition ATA_JOURNAL_SECTOR_SIZE : nat := 512.
Definition ATA_JOURNAL_MAGIC : Z := 0x4A545352.
Definition ATA_JOURNAL_VERSION : Z := 2.
Definition ATA_JOURNAL_CLEAN : Z := 0.
Definition ATA_JOURNAL_ACTIVE : Z := 1.
Definition ATA_JOURNAL_HEADER_OFFSET : Z := 8.
Definition ATA_JOURNAL_DATA_OFFSET : Z := 9.
Definition ATA_JOURNAL_MAX_ENTRIES : nat := 20.
Definition ATA_JOURNAL_MIRROR_OFFSET : Z := 31.

(** ** Records on a sector

    [ata_journal_record_t] and, for the first fields, [ata_journal_v1_record_t]. *)
Definition r_magic (record : list Z) : Z := get_le 4 0 record.
Definition r_version (record : list Z) : Z := get_le 4 4 record.
Definition r_state (record : list Z) : Z := get_le 4 8 record.
Definition r_sequence (record : list Z) : Z := get_le 4 12 record.
Definition r_entry_count (record : list Z) : Z := get_le 4 16 record.
Definition r_header_crc32 (record : list Z) : Z := get_le 4 20 record.
Definition r_target (record : list Z) (i : nat) : Z := get_le 4 (24 + 8 * i) record.
Definition r_data_crc (record : list Z) (i : nat) : Z := get_le 4 (28 + 8 * i) record.

Definition v1_target (record : list Z) : Z := get_le 4 12 record.
Definition v1_data_crc32 (record : list Z) : Z := get_le 4 16 record.
Definition v1_sequence (record : list Z) : Z := get_le 4 20 record.
Definition v1_header_crc32 (record : list Z) : Z := get_le 4 24 record.

Definition journal_crc32 (data : list Z) : Z := crc32 data.

Definition journal_record_crc32 (record : list Z) : Z :=
  let crc := crc32_update 0xFFFFFFFF (take 20 record) in
  let crc := crc32_update crc [0; 0; 0; 0] in
  let crc := crc32_update crc (drop 24 record) in
  Z.lxor crc 0xFFFFFFFF.

Definition record_valid (record : list Z) : bool :=
  (r_magic record =? ATA_JOURNAL_MAGIC) && (r_version record =? ATA_JOURNAL_VERSION) &&
  (r_state record <=? ATA_JOURNAL_ACTIVE) &&
  (r_entry_count record <=? Z.of_nat ATA_JOURNAL_MAX_ENTRIES) &&
  ((r_state record =? ATA_JOURNAL_ACTIVE) || (r_entry_count record =? 0)) &&
  (r_header_crc32 record =? journal_record_crc32 record).

Definition v1_record_valid (record : list Z) : bool :=
  (r_magic record =? ATA_JOURNAL_MAGIC) && (r_version record =? 1) &&
  (r_state record <=? ATA_JOURNAL_ACTIVE) &&
  (v1_header_crc32 record =? journal_crc32 (take 24 record)).

(** The record without its seal: the fields, the entries, zeros. *)
Definition unsealed_record (state sequence : Z) (entries : list (Z * Z)) : list Z :=
  le_bytes 4 ATA_JOURNAL_MAGIC ++ le_bytes 4 ATA_JOURNAL_VERSION ++ le_bytes 4 state ++
  le_bytes 4 sequence ++ le_bytes 4 (Z.of_nat (length entries)) ++ le_bytes 4 0 ++
  concat (map (λ e, le_bytes 4 e.1 ++ le_bytes 4 e.2) entries) ++
  repeat 0 (ATA_JOURNAL_SECTOR_SIZE - 24 - 8 * length entries).

Definition seal_record (record : list Z) : list Z :=
  let record := take 20 record ++ le_bytes 4 0 ++ drop 24 record in
  take 20 record ++ le_bytes 4 (journal_record_crc32 record) ++ drop 24 record.

Definition ata_undo_journal_make_clean (sequence : Z) : list Z :=
  seal_record (unsealed_record ATA_JOURNAL_CLEAN sequence []).

Section journal.
Context {W : Type}.

(** [base] and [is_master] name the drive; a read is given the buffer it
  overwrites. *)
Record ata_journal_transport_t := Transport {
read : option (W → Z → Z → list Z → bool → bool * list Z * W);
write : option (W → Z → Z → list Z → bool → bool * W);
commit_write : option (W → Z → Z → list Z → bool → bool * W);
write_deferred : option (W → Z → Z → list Z → bool → bool * W);
write_sectors_deferred : option (W → Z → Z → list (list Z) → bool → bool * W);
flush : option (W → Z → bool → bool * W);
commit_begin : option (W → Z → bool → bool * W);
commit_write_deferred : option (W → Z → Z → list Z → bool → bool * W);
commit_write_sectors_deferred : option (W → Z → Z → list (list Z) → bool → bool * W);
commit_end : option (W → Z → bool → bool → bool * W)
}.

Record geometry := Geometry {
base : Z;
is_master : bool;
header_lba : Z;
mirror_lba : Z;
data_lba : Z;
volume_start_lba : Z;
volume_end_lba : Z
}.

Record ata_undo_journal_t := Journal {
enabled : bool;
geo : geometry;
sequence : Z;
entry_count : nat;
transaction_depth : Z;
entries : list (Z * Z);
undo_data : list (list Z);
pending_data : list (list Z);
transport : option ata_journal_transport_t
}.

Definition set_enabled (j : ata_undo_journal_t) (b : bool) : ata_undo_journal_t :=
Journal b (geo j) (sequence j) (entry_count j) (transaction_depth j) (entries j)
  (undo_data j) (pending_data j) (transport j).
Definition set_count (j : ata_undo_journal_t) (n : nat) : ata_undo_journal_t :=
Journal (enabled j) (geo j) (sequence j) n (transaction_depth j) (entries j)
  (undo_data j) (pending_data j) (transport j).
Definition set_depth (j : ata_undo_journal_t) (depth : Z) : ata_undo_journal_t :=
Journal (enabled j) (geo j) (sequence j) (entry_count j) depth (entries j)
  (undo_data j) (pending_data j) (transport j).
Definition set_sequence (j : ata_undo_journal_t) (s : Z) : ata_undo_journal_t :=
Journal (enabled j) (geo j) s (entry_count j) (transaction_depth j) (entries j)
  (undo_data j) (pending_data j) (transport j).
Definition set_pending (j : ata_undo_journal_t) (i : nat) (data : list Z) : ata_undo_journal_t :=
Journal (enabled j) (geo j) (sequence j) (entry_count j) (transaction_depth j) (entries j)
  (undo_data j) (<[i := data]> (pending_data j)) (transport j).
Definition set_undo (j : ata_undo_journal_t) (i : nat) (data : list Z) : ata_undo_journal_t :=
Journal (enabled j) (geo j) (sequence j) (entry_count j) (transaction_depth j) (entries j)
  (<[i := data]> (undo_data j)) (pending_data j) (transport j).
Definition set_entry (j : ata_undo_journal_t) (i : nat) (e : Z * Z) : ata_undo_journal_t :=
Journal (enabled j) (geo j) (sequence j) (entry_count j) (transaction_depth j)
  (<[i := e]> (entries j)) (undo_data j) (pending_data j) (transport j).

Definition present {A} (f : option A) : bool := match f with Some _ => true | None => false end.

Definition transport_ready (j : ata_undo_journal_t) : bool :=
match transport j with Some t => present (read t) && present (write t) | None => false end.

Definition deferred_transport_ready (j : ata_undo_journal_t) : bool :=
transport_ready j &&
match transport j with
| Some t => present (write_deferred t) && present (flush t)
| None => false
end.

Definition deferred_commit_ready (j : ata_undo_journal_t) : bool :=
deferred_transport_ready j &&
match transport j with
| Some t => present (commit_begin t) && present (commit_write_deferred t) &&
            present (commit_end t)
| None => false
end.

(** Calls through a function pointer; a missing one fails. *)
Definition call_write (f : option (W → Z → Z → list Z → bool → bool * W)) (w : W)
  (b lba : Z) (buffer : list Z) (m : bool) : bool * W :=
match f with Some f => f w b lba buffer m | None => (false, w) end.
Definition call_write_sectors (f : option (W → Z → Z → list (list Z) → bool → bool * W)) (w : W)
  (b lba : Z) (buffers : list (list Z)) (m : bool) : bool * W :=
match f with Some f => f w b lba buffers m | None => (false, w) end.

Definition read_sector (j : ata_undo_journal_t) (w : W) (b lba : Z) (buffer : list Z) (m : bool)
  : bool * list Z * W :=
match transport j with
| Some t =>
    match read t with
    | Some f => if transport_ready j then f w b lba buffer m else (false, buffer, w)
    | None => (false, buffer, w)
    end
| None => (false, buffer, w)
end.

Definition write_sector (j : ata_undo_journal_t) (w : W) (b lba : Z) (buffer : list Z) (m : bool)
  : bool * W :=
match transport j with
| Some t => if transport_ready j then call_write (write t) w b lba buffer m else (false, w)
| None => (false, w)
end.

Definition write_sector_deferred (j : ata_undo_journal_t) (w : W) (b lba : Z) (buffer : list Z)
  (m : bool) : bool * W :=
match transport j with
| Some t =>
    if deferred_transport_ready j then call_write (write_deferred t) w b lba buffer m
    else (false, w)
| None => (false, w)
end.

Definition flush_deferred (j : ata_undo_journal_t) (w : W) : bool * W :=
match transport j with
| Some t =>
    match flush t with
    | Some f =>
        if deferred_transport_ready j then f w (base (geo j)) (is_master (geo j))
        else (false, w)
    | None => (false, w)
    end
| None => (false, w)
end.

Definition write_record (j : ata_undo_journal_t) (w : W) (record : list Z) (deferred : bool)
  : bool * W :=
match transport j with
| None => (false, w)
| Some t =>
    let writer := if deferred then write_deferred t else write t in
    let g := geo j in
    let '(ok, w) := call_write writer w (base g) (header_lba g) record (is_master g) in
    if negb ok then (false, w)
    else if mirror_lba g =? 0 then (true, w)
    else call_write writer w (base g) (mirror_lba g) record (is_master g)
end.

Definition clear_journal (j : ata_undo_journal_t) (w : W) (deferred : bool) : bool * W :=
write_record j w (ata_undo_journal_make_clean (sequence j)) deferred.

Definition write_active (j : ata_undo_journal_t) (w : W) (deferred : bool) : bool * W :=
write_record j w
  (seal_record (unsealed_record ATA_JOURNAL_ACTIVE (sequence j)
     (take (entry_count j) (entries j)))) deferred.

Definition ata_undo_journal_init (t : option ata_journal_transport_t) : ata_undo_journal_t :=
Journal false (Geometry 0 false 0 0 0 0 0) 0 0 0
  (repeat (0, 0) ATA_JOURNAL_MAX_ENTRIES)
  (repeat (repeat 0 ATA_JOURNAL_SECTOR_SIZE) ATA_JOURNAL_MAX_ENTRIES)
  (repeat (repeat 0 ATA_JOURNAL_SECTOR_SIZE) ATA_JOURNAL_MAX_ENTRIES) t.

Definition ata_undo_journal_transaction_begin (j : ata_undo_journal_t)
  : bool * ata_undo_journal_t :=
if transaction_depth j =? UINT32_MAX then (false, j)
else
  let j' := set_depth j (transaction_depth j + 1) in
  (true, if transaction_depth j =? 0 then set_count j' 0 else j').

(** A loop that writes a list of (sector, data) pairs one by one and stops at
  the first failure. *)
Fixpoint write_all (writer : W → Z → list Z → bool * W) (w : W) (writes : list (Z * list Z))
  : bool * W :=
match writes with
| [] => (true, w)
| (lba, data) :: writes =>
    let '(ok, w) := writer w lba data in
    if ok then write_all writer w writes else (false, w)
end.

(** The pairs of the undo area and of the targets. *)
Fixpoint number_from (lba : Z) (rows : list (list Z)) : list (Z * list Z) :=
match rows with
| [] => []
| row :: rows => (lba, row) :: number_from (lba + 1) rows
end.

Definition undo_writes (j : ata_undo_journal_t) : list (Z * list Z) :=
number_from (data_lba (geo j)) (take (entry_count j) (undo_data j)).

Definition target_writes (j : ata_undo_journal_t) : list (Z * list Z) :=
zip (map fst (take (entry_count j) (entries j))) (take (entry_count j) (pending_data j)).

(** How many of the next entries have adjacent sectors. *)
Fixpoint run_length (lba : Z) (rest : list (Z * list Z)) : nat :=
match rest with
| [] => 1
| (next, _) :: rest =>
    if negb (lba =? UINT32_MAX) && (next =? lba + 1) then S (run_length next rest) else 1
end.

Fixpoint commit_runs (fuel : nat) (writer : W → Z → list (list Z) → bool * W) (w : W)
  (rest : list (Z * list Z)) : bool * W :=
match rest, fuel with
| [], _ => (true, w)
| _, O => (false, w)
| (lba, data) :: more, S fuel =>
    let count := run_length lba more in
    let '(ok, w) := writer w lba (map snd (take count rest)) in
    if ok then commit_runs fuel writer w (drop count rest) else (false, w)
end.

Definition commit_targets_deferred (j : ata_undo_journal_t) (w : W) : bool * W :=
match transport j with
| None => (false, w)
| Some t =>
    if negb (deferred_commit_ready j) then (false, w)
    else
      let g := geo j in
      match commit_write_sectors_deferred t with
      | None =>
          write_all (λ w lba data,
            call_write (commit_write_deferred t) w (base g) lba data (is_master g))
            w (target_writes j)
      | Some f =>
          commit_runs (entry_count j) (λ w lba rows, f w (base g) lba rows (is_master g))
            w (target_writes j)
      end
end.

(** [result && deferred ? flush : result] *)
Definition barrier (j : ata_undo_journal_t) (deferred : bool) (r : bool * W) : bool * W :=
let '(result, w) := r in
if result && deferred then flush_deferred j w else (result, w).

(** The undo sectors. *)
Definition write_undo (j : ata_undo_journal_t) (w : W) (deferred : bool) : bool * W :=
let g := geo j in
match transport j with
| None => (false, w)
| Some t =>
    match write_sectors_deferred t with
    | Some f =>
        if deferred
        then f w (base g) (data_lba g) (take (entry_count j) (undo_data j)) (is_master g)
        else write_all (λ w lba data, write_sector j w (base g) lba data (is_master g)) w
               (undo_writes j)
    | None =>
        write_all (λ w lba data,
          if deferred then write_sector_deferred j w (base g) lba data (is_master g)
          else write_sector j w (base g) lba data (is_master g)) w (undo_writes j)
    end
end.

(** The target sectors. *)
Definition write_targets (j : ata_undo_journal_t) (w : W) (deferred use_commit_transport : bool)
  : bool * W :=
let g := geo j in
match transport j with
| None => (false, w)
| Some t =>
    if use_commit_transport && deferred_commit_ready j then
      match commit_begin t, commit_end t with
      | Some b, Some e =>
          let '(begun, w) := b w (base g) (is_master g) in
          if negb begun then (false, w)
          else
            let '(targets_written, w) := commit_targets_deferred j w in
            let '(ended, w) := e w (base g) (is_master g) targets_written in
            (targets_written && ended, w)
      | _, _ => (false, w)
      end
    else if negb use_commit_transport && deferred then
      barrier j true
        (write_all (λ w lba data, write_sector_deferred j w (base g) lba data (is_master g)) w
           (target_writes j))
    else
      write_all (λ w lba data,
        if use_commit_transport && present (commit_write t)
        then call_write (commit_write t) w (base g) lba data (is_master g)
        else write_sector j w (base g) lba data (is_master g)) w (target_writes j)
end.

(** The four barriers of a commit: undo, ACTIVE, targets, CLEAN. *)
Definition commit_transaction (j : ata_undo_journal_t) (w : W) (use_commit_transport : bool)
  : bool * W :=
let deferred := deferred_transport_ready j in
let '(result, w) := barrier j deferred (write_undo j w deferred) in
if negb result then (false, w)
else
  let '(result, w) := barrier j deferred (write_active j w deferred) in
  if negb result then (false, w)
  else
    let '(result, w) := write_targets j w deferred use_commit_transport in
    if negb result then (false, w)
    else barrier j deferred (clear_journal j w deferred).

Definition transaction_end (j : ata_undo_journal_t) (w : W) (commit use_commit_transport : bool)
  : bool * ata_undo_journal_t * W :=
if transaction_depth j =? 0 then (false, j, w)
else
  let j := set_depth j (transaction_depth j - 1) in
  if negb (transaction_depth j =? 0) then (true, j, w)
  else if negb (enabled j) then (true, set_count j 0, w)
  else if negb (entry_count j =? 0)%nat && commit then
    let '(result, w) := commit_transaction j w use_commit_transport in
    (result, set_count j 0, w)
  else (true, set_count j 0, w).

Definition ata_undo_journal_transaction_end (j : ata_undo_journal_t) (w : W) (commit : bool)
  : bool * ata_undo_journal_t * W :=
transaction_end j w commit true.

(** Index of the entry of a target in the current transaction. *)
Fixpoint find_entry (i : nat) (targets : list (Z * Z)) (lba : Z) : option nat :=
match targets with
| [] => None
| (target, _) :: targets => if target =? lba then Some i else find_entry (S i) targets lba
end.

Definition ata_undo_journal_read_sector (j : ata_undo_journal_t) (w : W) (b lba : Z)
  (buffer : list Z) (m : bool) : bool * list Z * W :=
if negb (transport_ready j) then (false, buffer, w)
else
  match (if enabled j && negb (transaction_depth j =? 0) && (b =? base (geo j)) &&
            Bool.eqb m (is_master (geo j))
         then find_entry 0 (take (entry_count j) (entries j)) lba else None) with
  | Some i => (true, nth i (pending_data j) [], w)
  | None => read_sector j w b lba buffer m
  end.

Definition ata_undo_journal_write_sector (j : ata_undo_journal_t) (w : W) (b lba : Z)
  (buffer : list Z) (m : bool) : bool * ata_undo_journal_t * W :=
let g := geo j in
if negb (transport_ready j) then (false, j, w)
else if negb (enabled j) || negb (b =? base g) || negb (Bool.eqb m (is_master g)) ||
        (lba <? volume_start_lba g) || (volume_end_lba g <=? lba)
then let '(ok, w) := write_sector j w b lba buffer m in (ok, j, w)
else if (header_lba g <=? lba) && (lba <? u32 (data_lba g + Z.of_nat ATA_JOURNAL_MAX_ENTRIES)) ||
        (lba =? mirror_lba g)
then (false, j, w)
else
  let automatic := transaction_depth j =? 0 in
  let '(begun, j) :=
    if automatic then ata_undo_journal_transaction_begin j else (true, j) in
  if negb begun then (false, j, w)
  else
    match find_entry 0 (take (entry_count j) (entries j)) lba with
    | Some i =>
        let j := set_pending j i buffer in
        if automatic then transaction_end j w true false else (true, j, w)
    | None =>
        if (ATA_JOURNAL_MAX_ENTRIES <=? entry_count j)%nat then
          if automatic
          then let '(_, j, w) := transaction_end j w false false in (false, j, w)
          else (false, j, w)
        else
          let slot := entry_count j in
          let '(result, data, w) := read_sector j w b lba (nth slot (undo_data j) []) m in
          let j := set_undo j slot data in
          let '(result, j) :=
            if result then
              let j := set_entry j slot (lba, journal_crc32 data) in
              let j := set_pending j slot buffer in
              let j := set_count j (S (entry_count j)) in
              if (slot =? 0)%nat then
                let j := set_sequence j (u32 (sequence j + 1)) in
                (negb (sequence j =? 0), j)
              else (true, j)
            else (false, j) in
          if automatic then
            let '(ended, j, w) := transaction_end j w result false in
            (ended && result, j, w)
          else (result, j, w)
    end.

Definition recovery_target_valid (j : ata_undo_journal_t) (target : Z) : bool :=
let g := geo j in
(volume_start_lba g <=? target) && (target <? volume_end_lba g) &&
negb ((header_lba g <=? target) &&
      (target <? u32 (data_lba g + Z.of_nat ATA_JOURNAL_MAX_ENTRIES))) &&
((mirror_lba g =? 0) || negb (target =? mirror_lba g)).

(** Reads and checks every undo sector before anything is restored. *)
Fixpoint admit_entries (steps index : nat) (j : ata_undo_journal_t) (w : W) (record : list Z)
  : bool * ata_undo_journal_t * W :=
match steps with
| O => (true, j, w)
| S steps =>
    let g := geo j in
    let target := r_target record index in
    if negb (recovery_target_valid j target) ||
       existsb (λ prior, r_target record prior =? target) (seq 0 index)
    then (false, j, w)
    else
      let '(ok, data, w) :=
        read_sector j w (base g) (data_lba g + Z.of_nat index) (nth index (undo_data j) [])
          (is_master g) in
      let j := set_undo j index data in
      if ok && (journal_crc32 data =? r_data_crc record index)
      then admit_entries steps (S index) j w record
      else (false, j, w)
end.

(** Restores the targets, the last entry first. *)
Fixpoint restore_entries (count : nat) (j : ata_undo_journal_t) (w : W) (record : list Z)
  : bool * W :=
match count with
| O => (true, w)
| S index =>
    let g := geo j in
    let '(ok, w) :=
      write_sector j w (base g) (r_target record index) (nth index (undo_data j) [])
        (is_master g) in
    if ok then restore_entries index j w record else (false, w)
end.

Definition recover_v1 (j : ata_undo_journal_t) (w : W) (record : list Z)
  : bool * ata_undo_journal_t * W :=
let g := geo j in
let j := set_sequence j (v1_sequence record) in
let '(result, w) :=
  if r_state record =? ATA_JOURNAL_ACTIVE then
    if negb (recovery_target_valid j (v1_target record)) then (false, w)
    else
      let '(ok, data, w) :=
        read_sector j w (base g) (data_lba g) (repeat 0 ATA_JOURNAL_SECTOR_SIZE)
          (is_master g) in
      if negb (ok && (journal_crc32 data =? v1_data_crc32 record)) then (false, w)
      else write_sector j w (base g) (v1_target record) data (is_master g)
  else (true, w) in
let '(result, w) := if result then clear_journal j w false else (false, w) in
(result, j, w).

Definition recover_v2 (j : ata_undo_journal_t) (w : W) (record : list Z) (repair_headers : bool)
  : bool * ata_undo_journal_t * W :=
let j := set_sequence j (r_sequence record) in
if negb (record_valid record) then (false, j, w)
else
  let count := Z.to_nat (r_entry_count record) in
  let '(result, j, w) := admit_entries count 0 j w record in
  if negb result then (false, j, w)
  else
    let '(result, w) := restore_entries count j w record in
    if negb result then (false, j, w)
    else if (r_state record =? ATA_JOURNAL_ACTIVE) || repair_headers
    then let '(result, w) := clear_journal j w false in (result, j, w)
    else (true, j, w).

(** Which of two read headers is followed, and whether both are rewritten. *)
Definition choose_header (primary mirror : list Z) (primary_valid mirror_valid : bool)
  (mirror_present : bool) : option (list Z * bool) :=
let repair := negb primary_valid || (mirror_present && negb mirror_valid) in
if negb primary_valid && negb mirror_valid then None
else if primary_valid && mirror_valid && (r_version primary =? ATA_JOURNAL_VERSION) then
  if r_sequence mirror <? r_sequence primary then Some (primary, true)
  else if r_sequence primary <? r_sequence mirror then Some (mirror, true)
  else if negb (r_state primary =? r_state mirror) then
    Some (if r_state primary =? ATA_JOURNAL_ACTIVE then primary else mirror, true)
  else if negb (bool_decide (primary = mirror)) then None
  else Some (primary, repair)
else if mirror_valid && (negb primary_valid || negb (r_version primary =? ATA_JOURNAL_VERSION))
then Some (mirror, true)
else Some (primary, mirror_present).

Definition ata_undo_journal_attach (j : ata_undo_journal_t) (w : W) (b : Z) (m : bool)
  (partition_lba volume_sectors reserved_sectors : Z) : bool * ata_undo_journal_t * W :=
if negb (transport_ready j) then (false, j, w)
else if negb (transaction_depth j =? 0) && negb (entry_count j =? 0)%nat then (false, j, w)
else
  let j := set_enabled j false in
  if (volume_sectors =? 0) || (volume_sectors <? reserved_sectors) ||
     (UINT32_MAX - partition_lba <? volume_sectors)
  then (false, j, w)
  else if reserved_sectors <=? ATA_JOURNAL_HEADER_OFFSET then (true, j, w)
  else
    let header := partition_lba + ATA_JOURNAL_HEADER_OFFSET in
    let data := partition_lba + ATA_JOURNAL_DATA_OFFSET in
    let mirror_sector :=
      if ATA_JOURNAL_MIRROR_OFFSET <? reserved_sectors
      then partition_lba + ATA_JOURNAL_MIRROR_OFFSET else 0 in
    let zeros := repeat 0 ATA_JOURNAL_SECTOR_SIZE in
    let '(primary_read, primary, w) := read_sector j w b header zeros m in
    let '(mirror_read, mirror, w) :=
      if negb (mirror_sector =? 0) then read_sector j w b mirror_sector zeros m
      else (false, zeros, w) in
    let primary_marked := primary_read && (r_magic primary =? ATA_JOURNAL_MAGIC) in
    let mirror_marked := mirror_read && (r_magic mirror =? ATA_JOURNAL_MAGIC) in
    if negb primary_marked && negb mirror_marked
    then (primary_read && ((mirror_sector =? 0) || mirror_read), j, w)
    else if reserved_sectors <? ATA_JOURNAL_DATA_OFFSET + Z.of_nat ATA_JOURNAL_MAX_ENTRIES
    then (false, j, w)
    else
      let j :=
        Journal (enabled j)
          (Geometry b m header mirror_sector data partition_lba
             (partition_lba + volume_sectors))
          (sequence j) 0 (transaction_depth j) (entries j) (undo_data j) (pending_data j)
          (transport j) in
      let primary_valid :=
        primary_marked &&
        (if r_version primary =? 1 then v1_record_valid primary else record_valid primary) in
      let mirror_valid :=
        mirror_marked && (r_version mirror =? ATA_JOURNAL_VERSION) && record_valid mirror in
      match choose_header primary mirror primary_valid mirror_valid
              (negb (mirror_sector =? 0)) with
      | None => (false, j, w)
      | Some (record, repair_headers) =>
          let '(result, j, w) :=
            if r_version record =? 1 then recover_v1 j w record
            else recover_v2 j w record repair_headers in
          (result, if result then set_enabled j true else j, w)
      end.

Definition ata_undo_journal_is_attached (j : ata_undo_journal_t) (b : Z) (m : bool)
  (partition_lba volume_sectors : Z) : bool :=
enabled j && negb (volume_sectors =? 0) &&
(partition_lba <=? UINT32_MAX - volume_sectors) && (base (geo j) =? b) &&
Bool.eqb (is_master (geo j)) m && (volume_start_lba (geo j) =? partition_lba) &&
(volume_end_lba (geo j) =? partition_lba + volume_sectors).
End journal.

#[global] Arguments ata_journal_transport_t : clear implicits.
#[global] Arguments ata_undo_journal_t : clear implicits.

(** ** Records written by the journal read back *)
Lemma get_le_app pre v post off :
is_u32 v → length pre = off → get_le 4 off (pre ++ le_bytes 4 v ++ post) = v.
Proof.
intros Hv <-. unfold get_le. rewrite drop_app_length.
rewrite take_app_length' by (by rewrite length_le_bytes). by apply le_value_bytes.
Qed.

Lemma length_entry_bytes (es : list (Z * Z)) :
length (concat (map (λ e, le_bytes 4 e.1 ++ le_bytes 4 e.2) es)) = (8 * length es)%nat.
Proof.
induction es as [|e es IH]; [done|]. cbn [map concat].
rewrite !length_app, !length_le_bytes, IH. simpl. lia.
Qed.

(** The first five words and the part after the seal. *)
Definition record_front (state sequence : Z) (es : list (Z * Z)) : list Z :=
le_bytes 4 ATA_JOURNAL_MAGIC ++ le_bytes 4 ATA_JOURNAL_VERSION ++ le_bytes 4 state ++
le_bytes 4 sequence ++ le_bytes 4 (Z.of_nat (length es)).
Definition record_back (es : list (Z * Z)) : list Z :=
concat (map (λ e, le_bytes 4 e.1 ++ le_bytes 4 e.2) es) ++
repeat 0 (ATA_JOURNAL_SECTOR_SIZE - 24 - 8 * length es).

Lemma length_record_front state s es : length (record_front state s es) = 20%nat.
Proof. unfold record_front. by rewrite !length_app, !length_le_bytes. Qed.

Lemma record_crc_mask front x back :
length front = 20%nat → length x = 4%nat →
journal_record_crc32 (front ++ x ++ back) =
  Z.lxor (crc32_update (crc32_update (crc32_update 0xFFFFFFFF front) [0; 0; 0; 0]) back) 0xFFFFFFFF.
Proof.
intros Hf Hx. unfold journal_record_crc32. rewrite take_app_length' by done.
rewrite (app_assoc front x back). rewrite drop_app_length' by (rewrite length_app; lia). done.
Qed.

Lemma sealed_record state s es :
let crc := journal_record_crc32 (record_front state s es ++ le_bytes 4 0 ++ record_back es) in
seal_record (unsealed_record state s es) =
  record_front state s es ++ le_bytes 4 crc ++ record_back es.
Proof.
intros crc. assert (unsealed_record state s es =
    record_front state s es ++ le_bytes 4 0 ++ record_back es) as ->.
{ unfold unsealed_record, record_front, record_back. by rewrite <- !app_assoc. }
pose proof (length_record_front state s es) as Hf. unfold seal_record.
assert (Hs : ∀ x, length x = 4%nat →
    take 20 (record_front state s es ++ x ++ record_back es) = record_front state s es ∧
    drop 24 (record_front state s es ++ x ++ record_back es) = record_back es).
{ intros x Hx. rewrite (app_assoc _ x). split.
  - rewrite <- app_assoc. by rewrite take_app_length'.
  - apply drop_app_length'. rewrite length_app. lia. }
destruct (Hs (le_bytes 4 0) (length_le_bytes 4 0)) as [-> ->]. cbv zeta.
destruct (Hs (le_bytes 4 0) (length_le_bytes 4 0)) as [-> ->]. done.
Qed.

Definition entry_ok (e : Z * Z) : Prop := is_u32 e.1 ∧ is_u32 e.2.

Lemma record_front_bytes state s es : Forall is_u8 (record_front state s es).
Proof. unfold record_front. rewrite !Forall_app. split_and!; apply le_bytes_range. Qed.
Lemma record_back_bytes es : Forall is_u8 (record_back es).
Proof.
unfold record_back. apply Forall_app. split.
- induction es as [|e es IH]; cbn [map concat]; [done|]. rewrite !Forall_app. split_and!; auto using le_bytes_range.
- apply List.Forall_forall. intros x Hx. apply repeat_spec in Hx as ->. ulia.
Qed.

Lemma journal_crc32_u32 data : Forall is_u8 data → is_u32 (journal_crc32 data).
Proof. intros. unfold journal_crc32, crc32. apply lxor_u32; [apply crc32_update_u32; [ulia|done]|ulia]. Qed.

Lemma record_crc_u32 front x back :
length front = 20%nat → length x = 4%nat → Forall is_u8 front → Forall is_u8 back →
is_u32 (journal_record_crc32 (front ++ x ++ back)).
Proof.
intros. rewrite record_crc_mask by done. apply lxor_u32; [|ulia].
assert (is_u32 0xFFFFFFFF) by ulia. assert (Forall is_u8 [0; 0; 0; 0]) by (repeat constructor; ulia).
by repeat apply crc32_update_u32.
Qed.

Section sealed.
Context (state s : Z) (es : list (Z * Z)).
Context (Hstate : is_u32 state) (Hs : is_u32 s) (Hes : (length es <= ATA_JOURNAL_MAX_ENTRIES)%nat)
(Hok : Forall entry_ok es).

Definition sealed : list Z := seal_record (unsealed_record state s es).

Lemma sealed_magic : r_magic sealed = ATA_JOURNAL_MAGIC.
Proof using. unfold sealed. rewrite sealed_record. unfold record_front. rewrite <- !app_assoc.
by apply (get_le_app []). Qed.
Lemma sealed_version : r_version sealed = ATA_JOURNAL_VERSION.
Proof using. unfold sealed. rewrite sealed_record. unfold record_front. rewrite <- !app_assoc.
by apply (get_le_app (le_bytes 4 ATA_JOURNAL_MAGIC)). Qed.
Lemma sealed_state : r_state sealed = state.
Proof using Hstate. unfold sealed. rewrite sealed_record. unfold record_front. rewrite <- !app_assoc.
rewrite (app_assoc (le_bytes 4 ATA_JOURNAL_MAGIC)). apply get_le_app; [done|].
by rewrite !length_app, !length_le_bytes. Qed.
Lemma sealed_sequence : r_sequence sealed = s.
Proof using Hs. unfold sealed. rewrite sealed_record. unfold record_front. rewrite <- !app_assoc.
rewrite 2!(app_assoc _ _ (le_bytes 4 s ++ _)). apply get_le_app; [done|].
by rewrite !length_app, !length_le_bytes. Qed.
Lemma sealed_count : r_entry_count sealed = Z.of_nat (length es).
Proof using Hes. unfold sealed. rewrite sealed_record. unfold record_front. rewrite <- !app_assoc.
rewrite 3!(app_assoc _ _ (le_bytes 4 (Z.of_nat (length es)) ++ _)). apply get_le_app.
- unfold ATA_JOURNAL_MAX_ENTRIES in Hes. unfold is_u32. lia.
- by rewrite !length_app, !length_le_bytes. Qed.

Lemma sealed_entry i e :
es !! i = Some e → r_target sealed i = e.1 ∧ r_data_crc sealed i = e.2.
Proof using Hes Hok.
intros Hi. pose proof (Forall_lookup_1 _ _ _ _ Hok Hi) as [H1 H2].
assert (∃ pre post, length pre = (24 + 8 * i)%nat ∧
  sealed = pre ++ le_bytes 4 e.1 ++ le_bytes 4 e.2 ++ post) as (pre & post & Hp & ->).
{ unfold sealed. rewrite sealed_record. set (crc := le_bytes 4 _).
assert (Hc : length crc = 4%nat) by apply length_le_bytes. clearbody crc.
exists (record_front state s es ++ crc ++
  concat (map (λ e, le_bytes 4 e.1 ++ le_bytes 4 e.2) (take i es))).
exists (concat (map (λ e, le_bytes 4 e.1 ++ le_bytes 4 e.2) (drop (S i) es)) ++
  repeat 0 (ATA_JOURNAL_SECTOR_SIZE - 24 - 8 * length es)).
split.
- rewrite !length_app, length_entry_bytes, length_take, length_record_front.
  pose proof (lookup_lt_Some _ _ _ Hi). lia.
- unfold record_back. rewrite <- (take_drop_middle es i e Hi) at 2.
  rewrite map_app, concat_app. cbn [map concat]. by rewrite <- !app_assoc. }
split; [by apply get_le_app|]. rewrite app_assoc. apply get_le_app; [done|].
rewrite length_app, length_le_bytes. lia.
Qed.

Lemma sealed_valid :
(state = ATA_JOURNAL_ACTIVE ∨ state = ATA_JOURNAL_CLEAN ∧ es = []) → record_valid sealed = true.
Proof using All.
intros Hst. unfold record_valid.
rewrite sealed_magic, sealed_version, sealed_state, sealed_count. rewrite !Z.eqb_refl.
assert ((r_header_crc32 sealed =? journal_record_crc32 sealed) = true) as ->.
{ unfold sealed. rewrite sealed_record, record_crc_mask; [|apply length_record_front|apply length_le_bytes].
rewrite <- (record_crc_mask (record_front state s es) (le_bytes 4 0) (record_back es))
  by auto using length_record_front, length_le_bytes.
unfold r_header_crc32. rewrite get_le_app; [apply Z.eqb_refl| |apply length_record_front].
apply record_crc_u32; auto using length_record_front, length_le_bytes, record_front_bytes, record_back_bytes. }
assert ((Z.of_nat (length es) <=? Z.of_nat ATA_JOURNAL_MAX_ENTRIES) = true) as -> by (apply Z.leb_le; lia).
destruct Hst as [->|[-> ->]]; reflexivity.
Qed.
End sealed.
End AtaJournal.
