(* ===== verification/AtaDisk.v ===== *)
(** Disks as the ATA undo journal sees them.

    The journal of [AtaJournal] talks to a transport.  [Disk] and [DiskLaws]
    state what it relies on: a state of the drive holds an image and a list of
    writes whose order of arrival on the medium is unknown until a flush; a
    failed command leaves, sector by sector, the old content or the content of
    a write in flight; a read error ends the session of the drive.  The
    phases of a commit are then proved against the interface, and
    [PowerDisk] implements it: a write-back drive whose power fails after a
    number of commands. *)
From S2P Require Import Prelude Crc32 AtaJournal.
Import AtaJournal.

Definition image : Type := Z → list Z.

Definition upd (img : image) (lba : Z) (data : list Z) : image :=
λ l, if l =? lba then data else img l.

Fixpoint apply_writes (img : image) (ws : list (Z * list Z)) : image :=
match ws with
| [] => img
| (lba, data) :: ws => apply_writes (upd img lba data) ws
end.

(** Each sector has its old content or that of one of the writes. *)
Definition mixed (img : image) (ws : list (Z * list Z)) (img' : image) : Prop :=
∀ l, img' l = img l ∨ (l, img' l) ∈ ws.

Lemma apply_writes_app img ws1 ws2 :
apply_writes img (ws1 ++ ws2) = apply_writes (apply_writes img ws1) ws2.
Proof. revert img. induction ws1 as [|[l d] ws1 IH]; intros img; simpl; auto. Qed.

Lemma apply_writes_other img ws l : l ∉ map fst ws → apply_writes img ws l = img l.
Proof.
revert img. induction ws as [|[l' d] ws IH]; intros img Hl; [done|].
cbn [map fst apply_writes] in *. apply not_elem_of_cons in Hl as [Hne Hl].
rewrite IH by done. unfold upd. by destruct (Z.eqb_spec l l').
Qed.

Lemma apply_writes_mixed img ws : mixed img ws (apply_writes img ws).
Proof.
revert img. induction ws as [|[l' d] ws IH]; intros img l; [by left|].
cbn [apply_writes]. destruct (IH (upd img l' d) l) as [->|H].
- unfold upd. destruct (Z.eqb_spec l l') as [->|]; [right; constructor|by left].
- right. by constructor.
Qed.

Lemma apply_writes_in img ws l d :
NoDup (map fst ws) → (l, d) ∈ ws → apply_writes img ws l = d.
Proof.
revert img. induction ws as [|[l' d'] ws IH]; intros img Hnd Hin; [by apply elem_of_nil in Hin|].
cbn [map fst apply_writes] in *. apply list.NoDup_cons in Hnd as [Hl Hnd].
apply elem_of_cons in Hin as [Heq|Hin]; [|by apply IH].
simplify_eq. rewrite apply_writes_other by done. unfold upd. by rewrite Z.eqb_refl.
Qed.

Lemma apply_writes_some img ws l : l ∈ map fst ws → (l, apply_writes img ws l) ∈ ws.
Proof.
revert img. induction ws as [|[l' d] ws IH]; intros img Hl; [by apply elem_of_nil in Hl|].
cbn [map fst apply_writes] in *. destruct (decide (l ∈ map fst ws)) as [Hin|Hn].
- right. by apply IH.
- apply elem_of_cons in Hl as [->|]; [|done]. rewrite apply_writes_other by done.
  unfold upd. rewrite Z.eqb_refl. by left.
Qed.

Lemma mixed_refl img ws : mixed img ws img.
Proof. by left. Qed.
Lemma mixed_mono img ws1 ws2 img' :
(∀ x, x ∈ ws1 → x ∈ ws2) → mixed img ws1 img' → mixed img ws2 img'.
Proof. intros Hs H l. destruct (H l); auto. Qed.
Lemma mixed_after img ws1 ws2 img' :
mixed (apply_writes img ws1) ws2 img' → mixed img (ws1 ++ ws2) img'.
Proof.
intros H l. rewrite elem_of_app. destruct (H l) as [E|]; [|by right; right].
destruct (apply_writes_mixed img ws1 l) as [E'|Hin].
- left. congruence.
- right. left. by rewrite E.
Qed.

Lemma number_from_elem lba datas l d :
(l, d) ∈ number_from lba datas ↔ ∃ k, datas !! k = Some d ∧ l = lba + Z.of_nat k.
Proof.
revert lba. induction datas as [|d' datas IH]; intros lba; cbn [number_from].
{ split; [by intros ?%elem_of_nil|by intros (k & ? & _)]. }
rewrite elem_of_cons, IH. split.
- intros [Heq|(k & Hk & ->)]; [simplify_eq; exists 0%nat|exists (S k)]; split; [done|lia|done|lia].
- intros ([|k] & Hk & ->); [left; injection Hk as ->; f_equal; lia|right].
  exists k. split; [done|lia].
Qed.

Lemma number_from_fst lba datas :
map fst (number_from lba datas) = map (λ k, lba + Z.of_nat k) (seq 0 (length datas)).
Proof.
revert lba. induction datas as [|d datas IH]; intros lba; [done|].
cbn [number_from map fst length seq]. f_equal; [lia|].
rewrite IH, <- seq_shift, map_map. apply map_ext. intros k. lia.
Qed.

Lemma number_from_NoDup lba datas : NoDup (map fst (number_from lba datas)).
Proof.
rewrite number_from_fst. apply NoDup_ListNoDup.
apply Finite.Injective_map_NoDup; [intros x y; lia|apply seq_NoDup].
Qed.

(** [crash_image]: what power-up may find.  [holding w img ws]: the medium
    holds [img], the writes [ws] are in flight.  [off]: the drive no longer
    answers. *)
Class Disk (W : Type) := {
  crash_image : W → image → Prop;
  holding : W → image → list (Z * list Z) → Prop;
  alive : W → Prop;
  off : W → Prop
}.

Section outcomes.
Context {W : Type} `{Disk W}.

Definition torn (w : W) (img : image) (ws : list (Z * list Z)) : Prop :=
∀ img', crash_image w img' → mixed img ws img'.

(** Outcomes of a command with writes [ws] on [img]: accepted, or stored. *)
Definition pushed (img : image) (ws : list (Z * list Z)) (r : bool * W) : Prop :=
if r.1 then holding r.2 img ws else torn r.2 img ws.
Definition stored (img : image) (ws : list (Z * list Z)) (r : bool * W) : Prop :=
if r.1 then holding r.2 (apply_writes img ws) [] else torn r.2 img ws.
Definition live (w : W) (r : bool * W) : Prop := alive w → r.1 = true ∧ alive r.2.

Lemma torn_mono w img ws1 ws2 : (∀ x, x ∈ ws1 → x ∈ ws2) → torn w img ws1 → torn w img ws2.
Proof using. intros Hs Ht img' Hc. eapply mixed_mono; eauto. Qed.
Lemma torn_after w img ws1 ws2 : torn w (apply_writes img ws1) ws2 → torn w img (ws1 ++ ws2).
Proof using. intros Ht img' Hc. by apply mixed_after, Ht. Qed.
End outcomes.

(** The transport contract, for one drive. *)
Class DiskLaws (W : Type) `{!Disk W} (t : ata_journal_transport_t W) (b : Z) (m : bool) := {
  holding_crash w img ws : holding w img ws → torn w img ws;
  read_law f w img ws lba buffer :
    read t = Some f → holding w img ws →
    let '(ok, data, w') := f w b lba buffer m in
    holding w' img ws ∧ (if ok then data = apply_writes img ws lba else off w') ∧
    (alive w → ok = true ∧ alive w');
  read_off f w lba buffer :
    read t = Some f → off w → (f w b lba buffer m).1.1 = false ∧ off (f w b lba buffer m).2;
  write_off f w img lba data :
    write t = Some f → off w → holding w img [] →
    (f w b lba data m).1 = false ∧ torn (f w b lba data m).2 img [];
  sync_law f w img lba data :
    write t = Some f ∨ commit_write t = Some f → holding w img [] →
    stored img [(lba, data)] (f w b lba data m) ∧ live w (f w b lba data m);
  deferred_law f w img ws lba data :
    write_deferred t = Some f ∨ commit_write_deferred t = Some f → holding w img ws →
    pushed img (ws ++ [(lba, data)]) (f w b lba data m) ∧ live w (f w b lba data m);
  sectors_law f w img ws lba rows :
    write_sectors_deferred t = Some f ∨ commit_write_sectors_deferred t = Some f →
    holding w img ws →
    pushed img (ws ++ number_from lba rows) (f w b lba rows m) ∧ live w (f w b lba rows m);
  flush_law f w img ws :
    flush t = Some f → holding w img ws → stored img ws (f w b m) ∧ live w (f w b m);
  begin_law f w img :
    commit_begin t = Some f → holding w img [] → pushed img [] (f w b m) ∧ live w (f w b m);
  end_law f w img ws :
    commit_end t = Some f → holding w img ws →
    stored img ws (f w b m true) ∧ live w (f w b m true);
  abort_law f w img ws :
    commit_end t = Some f → torn w img ws → torn (f w b m false).2 img ws
}.

(** ** The loops of the journal *)
Section loops.
Context {W : Type} `{Disk W}.

(** What a list of writes does, one command after the other. *)
Lemma write_all_stored (writer : W → Z → list Z → bool * W) :
(∀ w img lba d, holding w img [] →
 stored img [(lba, d)] (writer w lba d) ∧ live w (writer w lba d)) →
∀ ws w img, holding w img [] →
stored img ws (write_all writer w ws) ∧ live w (write_all writer w ws).
Proof using.
intros Hw. induction ws as [|[lba d] ws IH]; intros w img Hh; [split; [done|by intros ?]|].
cbn [write_all]. pose proof (Hw w img lba d Hh) as [Hs Hl].
destruct (writer w lba d) as [[] w'].
- destruct (IH w' _ Hs) as [Hs' Hl']. split; [|intros Ha; apply Hl'; by apply Hl].
destruct (write_all writer w' ws) as [[] w'']; [done|].
by apply (torn_after _ img [(lba, d)]).
- split; [|intros Ha; by destruct (Hl Ha)].
eapply torn_mono; [|exact Hs]. intros x Hx. apply list_elem_of_singleton in Hx as ->. constructor.
Qed.

Lemma write_all_pushed (writer : W → Z → list Z → bool * W) :
(∀ w img ws lba d, holding w img ws →
 pushed img (ws ++ [(lba, d)]) (writer w lba d) ∧ live w (writer w lba d)) →
∀ ws w img ws0, holding w img ws0 →
pushed img (ws0 ++ ws) (write_all writer w ws) ∧ live w (write_all writer w ws).
Proof using.
intros Hw. induction ws as [|[lba d] ws IH]; intros w img ws0 Hh.
{ rewrite app_nil_r. split; [done|by intros ?]. }
cbn [write_all]. pose proof (Hw w img ws0 lba d Hh) as [Hs Hl].
destruct (writer w lba d) as [[] w'].
- destruct (IH w' _ _ Hs) as [Hs' Hl']. rewrite <- app_assoc in Hs'.
split; [done|intros Ha; apply Hl'; by apply Hl].
- split; [|intros Ha; by destruct (Hl Ha)].
eapply torn_mono; [|exact Hs]. intros x. rewrite !elem_of_app, list_elem_of_singleton.
intros [?| ->]; [by left|right; constructor].
Qed.

(** The sectors of one combined command are consecutive. *)
Lemma run_length_rows lba d more :
number_from lba (map snd (take (run_length lba more) ((lba, d) :: more))) =
take (run_length lba more) ((lba, d) :: more).
Proof using.
revert lba d. induction more as [|[next d'] more IH]; intros lba d; [done|].
cbn [run_length]. destruct (negb (lba =? UINT32_MAX) && (next =? lba + 1)) eqn:E; [|done].
apply andb_prop in E as [_ E%Z.eqb_eq]. rewrite E in *.
cbn [take map snd number_from]. f_equal. apply IH.
Qed.

Lemma run_length_bound lba more : (1 <= run_length lba more)%nat.
Proof using. destruct more as [|[next d] more]; simpl; [lia|]. destruct (_ && _); lia. Qed.

Lemma commit_runs_pushed (writer : W → Z → list (list Z) → bool * W) :
(∀ w img ws lba rows, holding w img ws →
 pushed img (ws ++ number_from lba rows) (writer w lba rows) ∧ live w (writer w lba rows)) →
∀ fuel rest w img ws0, (length rest <= fuel)%nat → holding w img ws0 →
pushed img (ws0 ++ rest) (commit_runs fuel writer w rest) ∧
live w (commit_runs fuel writer w rest).
Proof using.
intros Hw. induction fuel as [|fuel IH]; intros [|[lba d] more] w img ws0 Hf Hh;
try (simpl in Hf; lia); try (cbn [commit_runs]; rewrite app_nil_r; split; [done|by intros ?]).
cbn [commit_runs]. cbv zeta. set (rest := (lba, d) :: more) in *.
pose proof (run_length_rows lba d more) as Hrows. fold rest in Hrows.
pose proof (run_length_bound lba more) as Hb. set (count := run_length lba more) in *.
destruct (Hw w img ws0 lba (map snd (take count rest)) Hh) as [Hs Hl].
rewrite Hrows in Hs. destruct (writer w lba _) as [[] w'].
- destruct (IH (drop count rest) w' img _ ltac:(rewrite length_drop; lia) Hs) as [Hs' Hl'].
rewrite <- app_assoc, take_drop in Hs'.
split; [done|intros Ha; apply Hl'; by apply Hl].
- split; [|intros Ha; by destruct (Hl Ha)].
eapply torn_mono; [|exact Hs]. intros x. rewrite !elem_of_app.
intros [?|Hx]; [by left|right]. rewrite <- (take_drop count rest). apply elem_of_app. by left.
Qed.
End loops.

(** ** The four phases of a commit *)
Definition header_lbas (g : geometry) : list Z :=
header_lba g :: (if mirror_lba g =? 0 then [] else [mirror_lba g]).
Definition record_writes (g : geometry) (record : list Z) : list (Z * list Z) :=
map (λ l, (l, record)) (header_lbas g).

Section phases.
Context {W : Type} `{!Disk W} (t : ata_journal_transport_t W) (b : Z) (m : bool).
Context `{!DiskLaws W t b m}.

(** A journal on this drive. *)
Definition on_drive (j : ata_undo_journal_t W) : Prop :=
transport j = Some t ∧ transport_ready j = true ∧ base (geo j) = b ∧ is_master (geo j) = m ∧
(entry_count j <= length (entries j))%nat ∧ (entry_count j <= length (undo_data j))%nat ∧
(entry_count j <= length (pending_data j))%nat.

Context (j : ata_undo_journal_t W) (Hj : on_drive j).

Lemma deferred_ready :
deferred_transport_ready j = true → present (write_deferred t) = true ∧ present (flush t) = true.
Proof using Hj.
destruct Hj as (Ht & Hr & _). unfold deferred_transport_ready. rewrite Hr, Ht. cbn [andb]. apply andb_prop.
Qed.

Lemma barrier_stored (deferred : bool) w img ws r :
(if deferred then deferred_transport_ready j = true ∧ pushed img ws r else stored img ws r) →
live w r → stored img ws (barrier j deferred r) ∧ live w (barrier j deferred r).
Proof using All.
destruct Hj as (Ht & Hr & Hb & Hm & _). intros Hp Hl.
destruct r as [ok w']. destruct deferred; [|by destruct ok].
destruct Hp as [Hd Hp]. pose proof (deferred_ready Hd) as [_ Hf].
destruct ok; cbn [barrier andb]; [|split; [done|intros Ha; by destruct (Hl Ha)]].
unfold flush_deferred. rewrite Hd, Ht, Hb, Hm.
destruct (flush t) as [f|] eqn:Ef; [|done].
destruct (flush_law f w' img ws Ef Hp) as [Hs Hl']. split; [done|].
intros Ha. apply Hl'. by apply Hl.
Qed.

(** One synchronous write, one deferred write. *)
Lemma write_sector_stored w img lba d :
holding w img [] →
stored img [(lba, d)] (write_sector j w b lba d m) ∧ live w (write_sector j w b lba d m).
Proof using All.
destruct Hj as (Ht & Hr & _). intros Hh. unfold write_sector. rewrite Hr, Ht.
unfold transport_ready in Hr. rewrite Ht in Hr. apply andb_prop in Hr as [_ Hw].
destruct (write t) as [f|] eqn:Ef; [|done]. apply (sync_law f); auto.
Qed.

Lemma call_deferred_pushed f w img ws lba d :
f = write_deferred t ∨ f = commit_write_deferred t → present f = true → holding w img ws →
pushed img (ws ++ [(lba, d)]) (call_write f w b lba d m) ∧ live w (call_write f w b lba d m).
Proof using All.
intros Hf Hp Hh. destruct f as [f|]; [|done]. apply (deferred_law f); [|done].
by destruct Hf as [->| ->]; [left|right].
Qed.

Lemma write_sector_deferred_pushed w img ws lba d :
deferred_transport_ready j = true → holding w img ws →
pushed img (ws ++ [(lba, d)]) (write_sector_deferred j w b lba d m) ∧
live w (write_sector_deferred j w b lba d m).
Proof using All.
intros Hd Hh. pose proof (deferred_ready Hd) as [Hw _]. destruct Hj as (Ht & _).
unfold write_sector_deferred. rewrite Ht, Hd. by apply call_deferred_pushed; [left| |].
Qed.

(** The undo sectors. *)
Lemma write_undo_stored w img :
holding w img [] →
let deferred := deferred_transport_ready j in
stored img (undo_writes j) (barrier j deferred (write_undo j w deferred)) ∧
live w (barrier j deferred (write_undo j w deferred)).
Proof using All.
intros Hh deferred. destruct Hj as (Ht & Hr & Hb & Hm & _).
assert ((if deferred then deferred_transport_ready j = true ∧
         pushed img (undo_writes j) (write_undo j w deferred)
       else stored img (undo_writes j) (write_undo j w deferred)) ∧
      live w (write_undo j w deferred)) as [Hs Hl]; [|by apply barrier_stored].
unfold write_undo. rewrite Ht, Hb, Hm. destruct deferred eqn:Ed; subst deferred.
- rewrite Ed. split_and!; [done| |].
+ destruct (write_sectors_deferred t) as [f|] eqn:Ef.
  * apply (sectors_law f w img []); auto.
  * apply (write_all_pushed _ (λ w img ws lba d, write_sector_deferred_pushed w img ws lba d Ed)
      (undo_writes j) w img [] Hh).
+ destruct (write_sectors_deferred t) as [f|] eqn:Ef.
  * apply (sectors_law f w img []); auto.
  * apply (write_all_pushed _ (λ w img ws lba d, write_sector_deferred_pushed w img ws lba d Ed)
      (undo_writes j) w img [] Hh).
- assert (∀ ws, stored img ws (write_all (λ w lba data, write_sector j w b lba data m) w ws) ∧
  live w (write_all (λ w lba data, write_sector j w b lba data m) w ws)) as Hall.
{ intros ws. apply write_all_stored; [|done]. intros. by apply write_sector_stored. }
destruct (write_sectors_deferred t); apply Hall.
Qed.

(** The two copies of the header. *)
Lemma write_record_stored w img record (deferred : bool) :
(deferred = true → deferred_transport_ready j = true) → holding w img [] →
stored img (record_writes (geo j) record) (barrier j deferred (write_record j w record deferred)) ∧
live w (barrier j deferred (write_record j w record deferred)).
Proof using All.
intros Hd Hh. destruct Hj as (Ht & Hr & Hb & Hm & _).
assert ((if deferred then deferred_transport_ready j = true ∧
         pushed img (record_writes (geo j) record) (write_record j w record deferred)
       else stored img (record_writes (geo j) record) (write_record j w record deferred)) ∧
      live w (write_record j w record deferred)) as [Hs Hl]; [|by apply barrier_stored].
assert (write_record j w record deferred =
  write_all (λ w lba data,
    call_write (if deferred then write_deferred t else write t) w b lba data m) w
    (record_writes (geo j) record)) as ->.
{ unfold write_record, record_writes, header_lbas. rewrite Ht, Hb, Hm. cbn [map write_all].
destruct (call_write _ w b _ record m) as [[] w']; cbn [negb]; [|done].
destruct (mirror_lba (geo j) =? 0); cbn [map write_all]; [done|].
by destruct (call_write _ w' b _ record m) as [[] ?]. }
destruct deferred.
- pose proof (deferred_ready (Hd eq_refl)) as [Hw _].
pose proof (write_all_pushed (λ w lba data, call_write (write_deferred t) w b lba data m)
  (λ w img ws lba d, call_deferred_pushed (write_deferred t) w img ws lba d (or_introl eq_refl) Hw)
  (record_writes (geo j) record) w img [] Hh) as [Hp Hl].
split; [|done]. split; [by apply Hd|done].
- apply write_all_stored; [|done]. intros w' img' lba d Hh'.
unfold transport_ready in Hr. rewrite Ht in Hr. apply andb_prop in Hr as [_ Hw].
destruct (write t) as [f|] eqn:Ef; [|done]. apply (sync_law f); auto.
Qed.

(** The targets, on each of the three paths. *)
Lemma length_target_writes : length (target_writes j) = entry_count j.
Proof using Hj.
destruct Hj as (_ & _ & _ & _ & H1 & _ & H2). unfold target_writes.
rewrite length_zip, length_map, !length_take. lia.
Qed.

Lemma commit_targets_pushed w img :
deferred_commit_ready j = true → holding w img [] →
pushed img (target_writes j) (commit_targets_deferred j w) ∧ live w (commit_targets_deferred j w).
Proof using All.
intros Hc Hh. pose proof length_target_writes as Hlen.
destruct Hj as (Ht & Hr & Hb & Hm & _).
unfold commit_targets_deferred. rewrite Hc, Ht, Hb, Hm. cbn [negb].
destruct (commit_write_sectors_deferred t) as [f|] eqn:Ef.
- apply (commit_runs_pushed (λ w lba rows, f w b lba rows m)) with (ws0 := []); [|lia|done].
intros. apply (sectors_law f); auto.
- assert (present (commit_write_deferred t) = true) as Hw.
{ unfold deferred_commit_ready in Hc. rewrite Ht in Hc.
  by repeat (apply andb_prop in Hc as [Hc ?]); repeat (apply andb_prop in H as [H ?]). }
apply (write_all_pushed (λ w lba data, call_write (commit_write_deferred t) w b lba data m))
  with (ws0 := []); [|done].
intros. by apply call_deferred_pushed; [right| |].
Qed.

Lemma sync_target_stored w img use lba d :
holding w img [] →
let r := if use && present (commit_write t) then call_write (commit_write t) w b lba d m
       else write_sector j w b lba d m in
stored img [(lba, d)] r ∧ live w r.
Proof using All.
intros Hh r. subst r. destruct (commit_write t) as [f|] eqn:Ef.
- destruct use; [|by apply write_sector_stored]. apply (sync_law f); auto.
- rewrite andb_false_r. by apply write_sector_stored.
Qed.

Lemma write_targets_stored w img use :
holding w img [] →
let r := write_targets j w (deferred_transport_ready j) use in
stored img (target_writes j) r ∧ live w r.
Proof using All.
intros Hh r. subst r. pose proof (λ w, commit_targets_pushed w img) as Hct.
destruct Hj as (Ht & Hr & Hb & Hm & _). unfold write_targets. rewrite Ht, Hb, Hm.
destruct (use && deferred_commit_ready j) eqn:Ec.
- apply andb_prop in Ec as [-> Ec]. specialize (λ w, Hct w Ec).
assert (present (commit_begin t) = true ∧ present (commit_end t) = true) as [Hb' He'].
{ unfold deferred_commit_ready in Ec. rewrite Ht in Ec.
  apply andb_prop in Ec as [_ Ec]. apply andb_prop in Ec as [Ec He].
  by apply andb_prop in Ec as [Eb _]. }
destruct (commit_begin t) as [cb|] eqn:Ecb; [|done].
destruct (commit_end t) as [ce|] eqn:Ece; [|done].
destruct (begin_law cb w img Ecb Hh) as [Hp Hl].
destruct (cb w b m) as [[] w1]; cbn [negb];
  [|split; [|intros Ha; by destruct (Hl Ha)]; eapply torn_mono; [|exact Hp]; intros x Hx;
    by apply elem_of_nil in Hx].
destruct (Hct w1 Hp) as [Hp2 Hl2].
destruct (commit_targets_deferred j w1) as [[] w2].
+ destruct (end_law ce w2 img _ Ece Hp2) as [Hp3 Hl3].
  destruct (ce w2 b m true) as [ok w3]. cbn [andb]. split; [done|].
  intros Ha. by apply Hl3, Hl2, Hl.
+ pose proof (abort_law ce w2 img _ Ece Hp2) as Ha3.
  destruct (ce w2 b m false) as [ok w3]. split; [exact Ha3|].
  intros Ha. by destruct (Hl2 (proj2 (Hl Ha))).
- destruct (negb use && deferred_transport_ready j) eqn:En.
+ apply andb_prop in En as [_ En].
  pose proof (write_all_pushed (λ w lba data, write_sector_deferred j w b lba data m)
    (λ w img ws lba d, write_sector_deferred_pushed w img ws lba d En)
    (target_writes j) w img [] Hh) as [Hp Hl].
  apply (barrier_stored true); [|done]. by split.
+ apply (write_all_stored (λ w lba data,
    if use && present (commit_write t) then call_write (commit_write t) w b lba data m
    else write_sector j w b lba data m)); [|done].
  intros. by apply sync_target_stored.
Qed.

(** The commit as a whole: the images between its barriers, and the writes
of the phase that a failure interrupts. *)
Definition active_record : list Z :=
seal_record (unsealed_record ATA_JOURNAL_ACTIVE (sequence j) (take (entry_count j) (entries j))).

Definition commit_phases : list (list (Z * list Z)) :=
[undo_writes j; record_writes (geo j) active_record; target_writes j;
 record_writes (geo j) (ata_undo_journal_make_clean (sequence j))].

Definition phases_outcome (img : image) (phases : list (list (Z * list Z))) (r : bool * W) : Prop :=
if r.1 then holding r.2 (apply_writes img (concat phases)) []
else ∃ before phase after, phases = before ++ phase :: after ∧
     torn r.2 (apply_writes img (concat before)) phase.

Lemma commit_outcome w img use :
holding w img [] →
phases_outcome img commit_phases (commit_transaction j w use) ∧
live w (commit_transaction j w use).
Proof using All.
intros Hh. unfold commit_transaction, commit_phases, write_active, clear_journal. cbv zeta.
fold active_record. set (d := deferred_transport_ready j).
destruct (write_undo_stored w img Hh) as [H1 L1]. fold d in H1, L1.
destruct (barrier j d (write_undo j w d)) as [[] w1]; cbn [negb];
[|split; [|intros Ha; by destruct (L1 Ha)]; by exists [], (undo_writes j); eexists].
destruct (write_record_stored w1 _ active_record d (λ e, e) H1) as [H2 L2].
destruct (barrier j d (write_record j w1 active_record d)) as [[] w2]; cbn [negb];
[|split; [|intros Ha; by destruct (L2 (proj2 (L1 Ha)))];
  exists [undo_writes j]; do 2 eexists; split; [done|]; cbn [concat]; by rewrite app_nil_r].
unfold stored in H2; cbn [fst snd] in H2. rewrite <- apply_writes_app in H2.
destruct (write_targets_stored w2 _ use H2) as [H3 L3]. fold d in H3, L3.
destruct (write_targets j w2 d use) as [[] w3]; cbn [negb];
[|split; [|intros Ha; by destruct (L3 (proj2 (L2 (proj2 (L1 Ha)))))];
  eexists [_; _]; do 2 eexists; split; [done|]; cbn [concat]; by rewrite app_nil_r].
unfold stored in H3; cbn [fst snd] in H3. rewrite <- apply_writes_app in H3.
destruct (write_record_stored w3 _ (ata_undo_journal_make_clean (sequence j)) d (λ e, e) H3)
as [H4 L4].
split; [|intros Ha; by apply L4, L3, L2, L1].
unfold phases_outcome, stored in *. destruct (barrier j d _) as [[] w4]; cbn [fst snd] in *.
- rewrite <- apply_writes_app in H4. cbn [concat]. by rewrite app_nil_r, !app_assoc.
- eexists [_; _; _]; do 2 eexists; split; [done|]. cbn [concat]. by rewrite app_nil_r, !app_assoc.
Qed.
End phases.

(** ** A drive with a write-back cache and a limited supply of power *)
Module PowerDisk.

(** [Battery n]: the command after the next [n] is cut off, and after it the
  drive is [Dead]. *)
Inductive supply := Mains | Battery (n : nat) | Dead.

Record power_disk := Power {
  medium : image;
  cache : list (Z * list Z);
  power : supply
}.

(** Spends one command: [None] when there is no power for it. *)
Definition spend (w : power_disk) : option power_disk :=
match power w with
| Mains => Some w
| Battery (S n) => Some (Power (medium w) (cache w) (Battery n))
| _ => None
end.

(** The writes of the command that is cut off may have reached the medium. *)
Definition cut (w : power_disk) (ws : list (Z * list Z)) : power_disk :=
match power w with
| Dead => w
| _ => Power (medium w) (cache w ++ ws) Dead
end.

Definition pd_read (w : power_disk) (b lba : Z) (buffer : list Z) (m : bool)
  : bool * list Z * power_disk :=
match spend w with
| Some w => (true, apply_writes (medium w) (cache w) lba, w)
| None => (false, buffer, cut w [])
end.

Definition pd_write (w : power_disk) (b lba : Z) (data : list Z) (m : bool) : bool * power_disk :=
match spend w with
| Some w => (true, Power (apply_writes (medium w) (cache w ++ [(lba, data)])) [] (power w))
| None => (false, cut w [(lba, data)])
end.
Definition pd_sectors_deferred (w : power_disk) (b lba : Z) (rows : list (list Z)) (m : bool)
  : bool * power_disk :=
match spend w with
| Some w => (true, Power (medium w) (cache w ++ number_from lba rows) (power w))
| None => (false, cut w (number_from lba rows))
end.
Definition pd_write_deferred (w : power_disk) (b lba : Z) (data : list Z) (m : bool)
  : bool * power_disk := pd_sectors_deferred w b lba [data] m.
Definition pd_flush (w : power_disk) (b : Z) (m : bool) : bool * power_disk :=
match spend w with
| Some w => (true, Power (apply_writes (medium w) (cache w)) [] (power w))
| None => (false, cut w [])
end.
Definition pd_begin (w : power_disk) (b : Z) (m : bool) : bool * power_disk :=
match spend w with Some w => (true, w) | None => (false, cut w []) end.
Definition pd_end (w : power_disk) (b : Z) (m commit : bool) : bool * power_disk :=
if commit then pd_flush w b m else (true, w).

(** Without the optional callbacks, or with all of them. *)
Definition power_transport (full : bool) : ata_journal_transport_t power_disk :=
if full then
  Transport (Some pd_read) (Some pd_write) (Some pd_write) (Some pd_write_deferred)
    (Some pd_sectors_deferred) (Some pd_flush) (Some pd_begin) (Some pd_write_deferred)
    (Some pd_sectors_deferred) (Some pd_end)
else Transport (Some pd_read) (Some pd_write) None None None None None None None None.

#[export] Instance power_disk_disk : Disk power_disk := {
  crash_image w := mixed (medium w) (cache w);
  holding w img ws := (∀ l, medium w l = img l) ∧ cache w = ws;
  alive w := power w = Mains;
  off w := power w = Dead
}.

Lemma apply_writes_ext img img' ws l :
(∀ l, img l = img' l) → apply_writes img ws l = apply_writes img' ws l.
Proof.
intros He. revert img img' He. induction ws as [|[l' d] ws IH]; intros img img' He; [apply He|].
apply IH. intros l''. unfold upd. by destruct (_ =? _).
Qed.

Lemma mixed_ext img img' ws x : (∀ l, img l = img' l) → mixed img ws x → mixed img' ws x.
Proof. intros He H l. rewrite <- He. apply H. Qed.

Lemma cut_holding w img ws ws' :
(∀ l, medium w l = img l) → cache w = ws → torn (cut w ws') img (ws ++ ws').
Proof.
intros He Hc. unfold cut, torn. cbn. destruct (power w); cbn; rewrite Hc; intros img' Hm;
  apply (mixed_ext _ img) in Hm; try done.
eapply mixed_mono; [|exact Hm]. intros x Hx. apply elem_of_app. by left.
Qed.

Lemma spend_cases w :
(power w ≠ Mains ∧ spend w = None ∧ power (cut w []) = Dead ∧ (power w = Dead → cut w [] = w)) ∨
∃ w', spend w = Some w' ∧ medium w' = medium w ∧ cache w' = cache w ∧
      (power w = Mains → power w' = Mains) ∧ power w ≠ Dead.
Proof.
destruct w as [md c [|[|n]|]]; [right|left|right|left]; try (eexists; split_and!; try reflexivity; done);
  by split_and!.
Qed.

(** Each command: the case of no power, the case of power. *)
Ltac spend_case w w' :=
let E := fresh "E" in let Em := fresh "Em" in let Ec := fresh "Ec" in let Ep := fresh "Ep" in
destruct (spend_cases w) as [(E & -> & Ec & Ep)|(w' & -> & Em & Ec & Ep & E)];
[|let md := fresh "md" in let c := fresh "c" in destruct w' as [md c ?];
  cbn [medium cache power] in Em, Ec, Ep; subst md c].

Lemma sectors_pushed w img ws lba rows b m :
holding w img ws →
pushed img (ws ++ number_from lba rows) (pd_sectors_deferred w b lba rows m) ∧
live w (pd_sectors_deferred w b lba rows m).
Proof.
intros [He Hc]. unfold pd_sectors_deferred, live, pushed. spend_case w w'.
- split; [by apply cut_holding|by intros Ha; destruct E].
- split; [|intros Ha; by split; [|apply Ep]]. cbn. split; [done|by rewrite Hc].
Qed.

Lemma flush_stored w img ws b m :
holding w img ws → stored img ws (pd_flush w b m) ∧ live w (pd_flush w b m).
Proof.
intros [He Hc]. unfold pd_flush, live, stored. spend_case w w'.
- split; [|by intros Ha; destruct E]. rewrite <- (app_nil_r ws). by apply cut_holding.
- split; [|intros Ha; by split; [|apply Ep]]. cbn. split; [|done].
  intros l. rewrite Hc. by apply apply_writes_ext.
Qed.

Lemma write_stored w img b lba data m :
holding w img [] →
stored img [(lba, data)] (pd_write w b lba data m) ∧ live w (pd_write w b lba data m).
Proof.
intros [He Hc]. unfold pd_write, live, stored. spend_case w w'.
- split; [|by intros Ha; destruct E]. by apply (cut_holding w img []).
- split; [|intros Ha; by split; [|apply Ep]]. cbn. split; [|done].
  intros l. rewrite Hc. by apply (apply_writes_ext _ _ [(lba, data)]).
Qed.

#[export] Instance power_disk_laws full b m : DiskLaws power_disk (power_transport full) b m.
Proof.
split.
- intros w img ws [He Hc] img'. cbn. rewrite Hc. by apply mixed_ext.
- intros f w img ws lba buffer Hf [He Hc].
  assert (f = pd_read) as -> by (destruct full; by injection Hf). unfold pd_read.
  spend_case w w'; cbn.
  + split_and!; [| | |by intros Ha; destruct E].
    * unfold cut. by destruct (power w).
    * unfold cut. destruct (power w); cbn; rewrite ?app_nil_r; done.
    * done.
  + split_and!; [done|done| |auto]. rewrite Hc. by apply apply_writes_ext.
- intros f w lba buffer Hf Ho.
  assert (f = pd_read) as -> by (destruct full; by injection Hf). unfold pd_read.
  cbn in Ho. spend_case w w'; [|done]. by split.
- intros f w img lba data Hf Ho [He Hc].
  assert (f = pd_write) as -> by (destruct full; by injection Hf). unfold pd_write.
  cbn in Ho. spend_case w w'; [|done]. split; [done|]. unfold cut. rewrite Ho.
  intros img'. cbn. rewrite Hc. by apply mixed_ext.
- intros f w img lba data Hf Hh.
  assert (f = pd_write) as -> by (destruct full, Hf as [Hf|Hf]; try done; by injection Hf).
  by apply write_stored.
- intros f w img ws lba data Hf Hh.
  assert (f = pd_write_deferred) as ->
    by (destruct full, Hf as [Hf|Hf]; try done; by injection Hf).
  by apply (sectors_pushed w img ws lba [data]).
- intros f w img ws lba rows Hf Hh.
  assert (f = pd_sectors_deferred) as ->
    by (destruct full, Hf as [Hf|Hf]; try done; by injection Hf).
  by apply sectors_pushed.
- intros f w img ws Hf Hh. destruct full; [|done]. injection Hf as <-. by apply flush_stored.
- intros f w img Hf [He Hc]. destruct full; [|done]. injection Hf as <-.
  unfold pd_begin, live, pushed. spend_case w w'.
  + split; [|by intros Ha; destruct E]. by apply (cut_holding w img []).
  + split; [done|intros Ha; by split; [|apply Ep]].
- intros f w img ws Hf Hh. destruct full; [|done]. injection Hf as <-. by apply flush_stored.
- intros f w img ws Hf Ht. destruct full; [|done]. by injection Hf as <-.
Qed.
End PowerDisk.
