(* ===== verification/AtaRecovery.v ===== *)
(** Crash atomicity of the ATA undo journal.

    Over the disk interface of [AtaDisk]: a [session] is an attached journal
    with the entries of the current transaction; [recovers] describes every
    image a commit or an interrupted recovery can leave behind; attaching
    again takes each of them to the content before the transaction or after
    it. *)
From S2P Require Import Prelude Crc32 AtaJournal AtaDisk.
Import AtaJournal.

Inductive header_kind := HOld | HActive | HNew.
#[export] Instance header_kind_eq : EqDecision header_kind.
Proof. solve_decision. Defined.

Section recovery.
Context {W : Type} `{!Disk W} (t : ata_journal_transport_t W) (b : Z) (m : bool).
Context `{!DiskLaws W t b m}.

(** The volume: its first sector, its size, its reserved sectors. *)
Context (part vol res : Z).

Definition volume_fits : Prop :=
0 <= part ∧ ATA_JOURNAL_DATA_OFFSET + Z.of_nat ATA_JOURNAL_MAX_ENTRIES <= res <= vol ∧
vol <= UINT32_MAX - part.

Definition mounted : geometry :=
Geometry b m (part + ATA_JOURNAL_HEADER_OFFSET)
(if ATA_JOURNAL_MIRROR_OFFSET <? res then part + ATA_JOURNAL_MIRROR_OFFSET else 0)
(part + ATA_JOURNAL_DATA_OFFSET) part (part + vol).

(** The sectors of the journal itself. *)
Definition journal_area (l : Z) : Prop :=
header_lba mounted <= l < data_lba mounted + Z.of_nat ATA_JOURNAL_MAX_ENTRIES ∨
mirror_lba mounted ≠ 0 ∧ l = mirror_lba mounted.

Definition target_ok (l : Z) : Prop := part <= l < part + vol ∧ ¬ journal_area l.

(** A journal of this drive, whatever it has been used for. *)
Definition ready (j : ata_undo_journal_t W) : Prop :=
transport j = Some t ∧ transport_ready j = true ∧
length (entries j) = ATA_JOURNAL_MAX_ENTRIES ∧ length (undo_data j) = ATA_JOURNAL_MAX_ENTRIES ∧
length (pending_data j) = ATA_JOURNAL_MAX_ENTRIES.

Definition clean_record (c : list Z) : Prop :=
record_valid c = true ∧ r_state c = ATA_JOURNAL_CLEAN ∧ is_u32 (r_sequence c).

Definition current (j : ata_undo_journal_t W) : list (Z * Z) := take (entry_count j) (entries j).

(** Attached, with the entries of the transaction in memory and nothing in
flight on the drive. *)
Record session (j : ata_undo_journal_t W) (w : W) (img : image) : Prop := {
session_ready : ready j;
session_enabled : enabled j = true;
session_geo : geo j = mounted;
session_count : (entry_count j <= ATA_JOURNAL_MAX_ENTRIES)%nat;
session_sequence : is_u32 (sequence j);
session_header : ∃ c, clean_record c ∧ (∀ l, l ∈ header_lbas mounted → img l = c) ∧
                    r_sequence c <= sequence j ∧
                    (entry_count j ≠ O → r_sequence c < sequence j);
session_holding : holding w img [];
session_distinct : NoDup (map fst (current j));
session_entry i target crc : current j !! i = Some (target, crc) →
target_ok target ∧ crc = journal_crc32 (img target) ∧ is_u32 crc ∧
undo_data j !! i = Some (img target)
}.

(** ** One transaction *)
Section transaction.
Context (Hfit : volume_fits).
Context (old new : image) (c0 : list Z) (s : Z) (es : list (Z * Z)).

Definition header_bytes (k : header_kind) : list Z :=
match k with
| HOld => c0
| HActive => seal_record (unsealed_record ATA_JOURNAL_ACTIVE s es)
| HNew => ata_undo_journal_make_clean s
end.

Record transaction_ok : Prop := {
ok_old : clean_record c0;
ok_after : r_sequence c0 < s;
ok_sequence : is_u32 s;
ok_length : (length es <= ATA_JOURNAL_MAX_ENTRIES)%nat;
ok_distinct : NoDup (map fst es);
ok_entry e : e ∈ es → target_ok e.1 ∧ e.2 = journal_crc32 (old e.1) ∧ is_u32 e.2
}.

Definition headers (i : image) (hk : Z → header_kind) : Prop :=
∀ l, l ∈ header_lbas mounted → i l = header_bytes (hk l).
Definition framed (i : image) : Prop :=
∀ l, ¬ journal_area l → l ∉ map fst es → i l = old l.
Definition undo_kept (i : image) : Prop :=
∀ k e, es !! k = Some e → i (data_lba mounted + Z.of_nat k) = old e.1.

(** What recovery makes of an image: the old content, or the new one. *)
Inductive recovers (kept : bool) (i : image) : Prop :=
| rolls_back hk :
  kept = false → headers i hk → framed i → undo_kept i →
  Exists (λ l, hk l = HActive) (header_lbas mounted) →
  (∀ e, e ∈ es → i e.1 = old e.1 ∨ i e.1 = new e.1) → recovers kept i
| settles hk :
  headers i hk → framed i →
  (∀ l, l ∈ header_lbas mounted → hk l = HNew ∨ hk l = HOld ∧ kept = false) →
  (∀ e, e ∈ es → i e.1 = (if kept then new else old) e.1) → recovers kept i.

Context (Hok : transaction_ok).

Lemma header_facts k :
record_valid (header_bytes k) = true ∧ r_magic (header_bytes k) = ATA_JOURNAL_MAGIC ∧
r_version (header_bytes k) = ATA_JOURNAL_VERSION ∧
r_state (header_bytes k) = (match k with HActive => ATA_JOURNAL_ACTIVE | _ => ATA_JOURNAL_CLEAN end) ∧
r_sequence (header_bytes k) = (match k with HOld => r_sequence c0 | _ => s end) ∧
r_entry_count (header_bytes k) =
(match k with HActive => Z.of_nat (length es) | _ => 0 end).
Proof using Hok Hfit.
destruct Hok as [[Hv [Hst _]] _ Hs Hlen _ Hes].
assert (Forall entry_ok es) as Hent.
{ apply list.Forall_forall. intros e He. destruct (Hes e He) as ([? _] & _ & ?).
split; [|done]. destruct Hfit as (? & ? & ?). ulia. }
destruct k; cbn [header_bytes].
- split_and!; try done; unfold record_valid in Hv; rewrite !andb_true_iff, orb_true_iff, !Z.eqb_eq in Hv;
  destruct Hv as [[[[[? ?] ?] ?] Hc] ?]; try done. rewrite Hst in Hc. by destruct Hc.
- assert (is_u32 ATA_JOURNAL_ACTIVE) by (unfold ATA_JOURNAL_ACTIVE; ulia).
split_and!; [apply sealed_valid|apply sealed_magic|apply sealed_version|apply sealed_state|
  apply sealed_sequence|apply sealed_count]; auto.
- assert (is_u32 ATA_JOURNAL_CLEAN) by (unfold ATA_JOURNAL_CLEAN; ulia).
assert (length (@nil (Z * Z)) <= ATA_JOURNAL_MAX_ENTRIES)%nat as Hn by (simpl; lia).
unfold ata_undo_journal_make_clean. fold (sealed ATA_JOURNAL_CLEAN s []).
split_and!.
+ apply sealed_valid; [done|done|done|constructor|by right].
+ apply sealed_magic.
+ apply sealed_version.
+ by apply sealed_state.
+ by apply sealed_sequence.
+ by rewrite sealed_count.
Qed.

Definition choose_kind (p q : header_kind) : header_kind * bool :=
match p, q with
| HActive, HActive => (HActive, false)
| HActive, _ | _, HActive => (HActive, true)
| HOld, HOld => (HOld, false)
| HNew, HNew => (HNew, false)
| _, _ => (HNew, true)
end.

Lemma choose_header_kind p q :
choose_header (header_bytes p) (header_bytes q) true true true =
Some (header_bytes (choose_kind p q).1, (choose_kind p q).2).
Proof using Hok Hfit.
pose proof (ok_after Hok) as Hlt. unfold choose_header.
destruct (header_facts p) as (_ & _ & -> & -> & -> & _).
destruct (header_facts q) as (_ & _ & _ & -> & -> & _).
assert ((r_sequence c0 <? s) = true) as E1 by (apply Z.ltb_lt; lia).
assert ((s <? r_sequence c0) = false) as E2 by (apply Z.ltb_ge; lia).
destruct p, q; cbn [negb andb orb]; rewrite ?Z.eqb_refl, ?Z.ltb_irrefl, ?E1, ?E2; try done;
cbn [negb]; by rewrite (bool_decide_eq_true_2 (_ = _)).
Qed.

#[local] Opaque seal_record.

(** ** Recovery of one transaction *)
Lemma read_sector_law j w img ws lba buffer :
ready j → holding w img ws →
let '(ok, data, w') := read_sector j w b lba buffer m in
holding w' img ws ∧ (if ok then data = apply_writes img ws lba else off w') ∧
(alive w → ok = true ∧ alive w').
Proof using DiskLaws0.
intros (Ht & Hr & _) Hh. unfold read_sector. rewrite Hr, Ht.
unfold transport_ready in Hr. rewrite Ht in Hr.
destruct (read t) as [f|] eqn:Ef; [|done]. by apply (read_law f).
Qed.

Lemma read_sector_off j w lba buffer :
ready j → off w →
(read_sector j w b lba buffer m).1.1 = false ∧ off (read_sector j w b lba buffer m).2.
Proof using DiskLaws0.
intros (Ht & Hr & _) Ho. unfold read_sector. rewrite Hr, Ht.
unfold transport_ready in Hr. rewrite Ht in Hr.
destruct (read t) as [f|] eqn:Ef; [|done]. by apply (read_off f).
Qed.

(** A journal whose buffers and drive are set up for this volume. *)
Definition placed (j : ata_undo_journal_t W) : Prop := ready j ∧ geo j = mounted ∧ entry_count j = O.

Definition with_undo (j : ata_undo_journal_t W) (u : list (list Z)) : ata_undo_journal_t W :=
Journal (enabled j) (geo j) (sequence j) (entry_count j) (transaction_depth j) (entries j)
u (pending_data j) (transport j).

Lemma placed_with_undo j u :
placed j → length u = ATA_JOURNAL_MAX_ENTRIES → placed (with_undo j u).
Proof using. intros ((?&?&?&?&?)&?&?) Hu. split; [|done]. by split_and!. Qed.

Lemma placed_on_drive j : placed j → on_drive t b m j.
Proof using. intros ((?&?&?&?&?)&Hg&Hc). unfold on_drive. rewrite Hg, Hc. split_and!; try done; lia. Qed.

Definition active_header : list Z := header_bytes HActive.

Lemma active_entry k e :
es !! k = Some e →
r_target active_header k = e.1 ∧ r_data_crc active_header k = e.2.
Proof using Hok Hfit.
intros Hk. destruct Hok as [_ _ _ Hlen _ Hes]. apply sealed_entry; [done| |done].
apply list.Forall_forall. intros e' He'. destruct (Hes e' He') as ([? _] & _ & ?).
split; [|done]. destruct Hfit as (? & ? & ?). ulia.
Qed.

Lemma area_end : u32 (data_lba mounted + Z.of_nat ATA_JOURNAL_MAX_ENTRIES) =
data_lba mounted + Z.of_nat ATA_JOURNAL_MAX_ENTRIES.
Proof using Hfit.
destruct Hfit as (? & [H1 H2] & ?). cbn [data_lba mounted]. apply u32_small.
unfold ATA_JOURNAL_MAX_ENTRIES, ATA_JOURNAL_DATA_OFFSET in *. ulia.
Qed.

Lemma header_below : header_lba mounted < data_lba mounted + Z.of_nat ATA_JOURNAL_MAX_ENTRIES.
Proof using.
cbn [header_lba data_lba mounted]. unfold ATA_JOURNAL_HEADER_OFFSET, ATA_JOURNAL_DATA_OFFSET. lia.
Qed.

Lemma header_in_area l : l ∈ header_lbas mounted → journal_area l.
Proof using.
unfold header_lbas, journal_area. pose proof header_below. rewrite elem_of_cons.
destruct (Z.eqb_spec (mirror_lba mounted) 0) as [E|E].
- rewrite elem_of_nil. intros [->|[]]. left. lia.
- rewrite list_elem_of_singleton. intros [->| ->]; [left; lia|by right].
Qed.

Lemma recovery_target_ok (j : ata_undo_journal_t W) l :
geo j = mounted → recovery_target_valid j l = true ↔ target_ok l.
Proof using Hfit.
intros Hg. unfold recovery_target_valid. rewrite Hg, area_end.
unfold target_ok, journal_area. rewrite !andb_true_iff, negb_true_iff, andb_false_iff,
Z.leb_le, Z.ltb_lt, Z.leb_gt, Z.ltb_ge. cbn [volume_start_lba volume_end_lba mounted].
rewrite orb_true_iff, negb_true_iff, Z.eqb_eq, Z.eqb_neq.
split.
- intros [[[? ?] [?|?]] [?|?]]; split; [lia| |lia| |lia| |lia|]; intros [?|[? ?]]; lia.
- intros [? Hn]. split_and!; [lia|lia| |].
+ destruct (decide (l < header_lba mounted)); [by left|right].
  destruct (decide (l < data_lba mounted + Z.of_nat ATA_JOURNAL_MAX_ENTRIES)); [|lia].
  destruct Hn. left. lia.
+ destruct (decide (mirror_lba mounted = 0)); [by left|right].
  intros ->. destruct Hn. by right.
Qed.

Lemma entry_distinct k1 k2 e1 e2 :
es !! k1 = Some e1 → es !! k2 = Some e2 → k1 ≠ k2 → e1.1 ≠ e2.1.
Proof using Hok.
intros H1 H2 Hne Heq. apply Hne. pose proof (ok_distinct Hok) as Hnd.
apply (NoDup_lookup (map fst es) k1 k2 e1.1 Hnd).
- by rewrite list_lookup_fmap, H1.
- rewrite list_lookup_fmap, H2. cbn. by rewrite Heq.
Qed.

(** Admission reads the undo sectors into memory and finds them intact. *)
Lemma admit_spec i steps : ∀ index j w,
placed j → holding w i [] → undo_kept i → (index + steps = length es)%nat →
let '(ok, j', w') := admit_entries steps index j w active_header in
holding w' i [] ∧ (alive w → ok = true ∧ alive w') ∧
(ok = true → ∃ u, j' = with_undo j u ∧ length u = ATA_JOURNAL_MAX_ENTRIES ∧
 (∀ k, (k < index)%nat → u !! k = undo_data j !! k) ∧
 ∀ k e, (index <= k)%nat → es !! k = Some e → u !! k = Some (old e.1)).
Proof using All.
induction steps as [|steps IH]; intros index j w Hp Hh Hu Hlen.
{ cbn [admit_entries]. split_and!; [done|done|]. intros _. exists (undo_data j).
destruct Hp as ((?&?&?&?&?)&?&?).
split_and!; [by destruct j|done|done|]. intros k e Hk He. apply lookup_lt_Some in He. lia. }
cbn [admit_entries]. cbv zeta. pose proof Hp as (Hrd & Hg & Hc).
destruct (lookup_lt_is_Some_2 es index ltac:(lia)) as [e He].
destruct (active_entry index e He) as [-> ->].
destruct (ok_entry Hok e (list_elem_of_lookup_2 _ _ _ He)) as (Htok & Hcrc & _).
rewrite (proj2 (recovery_target_ok j e.1 Hg) Htok).
assert (existsb (λ prior, r_target active_header prior =? e.1) (seq 0 index) = false) as ->.
{ apply not_true_iff_false. rewrite existsb_exists. intros (k & Hk & Heq).
apply in_seq in Hk. destruct (lookup_lt_is_Some_2 es k ltac:(lia)) as [e' He'].
destruct (active_entry k e' He') as [E _]. rewrite E in Heq. apply Z.eqb_eq in Heq.
revert Heq. apply (entry_distinct k index); [done..|lia]. }
cbn [negb orb]. rewrite Hg.
pose proof (read_sector_law j w i [] (data_lba mounted + Z.of_nat index)
(nth index (undo_data j) []) Hrd Hh) as Hread.
cbn [base is_master mounted] in *.
destruct (read_sector _ _ _ _ _ _) as [[ok data] w'] eqn:Er. destruct Hread as (Hh' & Hd & Hl).
destruct ok; cbn [andb].
2: { split_and!; [done| |done]. intros Ha. by destruct (Hl Ha). }
cbn [apply_writes] in Hd. rewrite (Hu index e He) in Hd. subst data.
rewrite Hcrc, Z.eqb_refl.
set (j1 := set_undo j index (old e.1)).
assert (placed j1) as Hp1.
{ apply (placed_with_undo j); [done|]. rewrite length_insert. by destruct Hrd as (_&_&_&?&_). }
specialize (IH (S index) j1 w' Hp1 Hh' Hu ltac:(lia)).
destruct (admit_entries steps (S index) j1 w' active_header) as [[ok j'] w''].
destruct IH as (Hh'' & Hl'' & Hres). split_and!; [done| |].
- intros Ha. by apply Hl'', Hl.
- intros Hk. destruct (Hres Hk) as (u & -> & Hul & Hbefore & Hafter).
exists u. split_and!; [done|done| |].
+ intros k Hlt. rewrite Hbefore by lia. apply list_lookup_insert_ne. lia.
+ intros k e' Hle He'. destruct (decide (k = index)) as [->|]; [|apply Hafter; [lia|done]].
  rewrite Hbefore by lia. cbn [undo_data j1 set_undo].
  rewrite list_lookup_insert_eq by (destruct Hrd as (_&_&_&->&_);
    pose proof (ok_length Hok); apply lookup_lt_Some in He; lia).
  congruence.
Qed.

(** Restoring the targets from the undo buffers. *)
Definition restore_writes (n : nat) : list (Z * list Z) :=
rev (map (λ e, (e.1, old e.1)) (take n es)).

Lemma restore_is_write_all n : ∀ j w,
placed j → (n <= length es)%nat →
(∀ k e, es !! k = Some e → undo_data j !! k = Some (old e.1)) →
restore_entries n j w active_header =
write_all (λ w lba data, write_sector j w b lba data m) w (restore_writes n).
Proof using Hok Hfit.
induction n as [|n IH]; intros j w Hp Hn Hu; [done|].
destruct (lookup_lt_is_Some_2 es n ltac:(lia)) as [e He].
unfold restore_writes. rewrite (take_S_r _ _ _ He), map_app, rev_app_distr.
cbn [map rev app restore_entries write_all]. cbv zeta.
destruct (active_entry n e He) as [-> _]. destruct Hp as (Hrd & Hg & Hc). rewrite Hg.
cbn [base is_master mounted]. rewrite (nth_lookup_Some _ _ _ _ (Hu n e He)).
destruct (write_sector j w b e.1 (old e.1) m) as [[] w']; [|done].
apply IH; [by split_and!|lia|done].
Qed.

Lemma restore_spec i j w :
placed j → holding w i [] →
(∀ k e, es !! k = Some e → undo_data j !! k = Some (old e.1)) →
stored i (restore_writes (length es)) (restore_entries (length es) j w active_header) ∧
live w (restore_entries (length es) j w active_header).
Proof using All.
intros Hp Hh Hu. rewrite restore_is_write_all by done.
apply write_all_stored; [|done]. intros.
by apply (write_sector_stored t b m j (placed_on_drive _ Hp)).
Qed.

Lemma restore_writes_elem l d :
(l, d) ∈ restore_writes (length es) → ∃ e, e ∈ es ∧ l = e.1 ∧ d = old e.1.
Proof using.
unfold restore_writes. rewrite take_ge by lia. rewrite list_elem_of_In, <- in_rev, in_map_iff.
intros (e & Heq & He). exists e. rewrite list_elem_of_In. by simplify_eq.
Qed.

(** ** Images around the journal *)
Lemma target_outside e : e ∈ es → ¬ journal_area e.1.
Proof using Hok. intros He. by destruct (ok_entry Hok e He) as ([] & _). Qed.

Lemma target_not_header e : e ∈ es → e.1 ∉ header_lbas mounted.
Proof using Hok. intros He Hl. by apply (target_outside e He), header_in_area. Qed.

Lemma area_not_target l : journal_area l → l ∉ map fst es.
Proof using Hok.
intros Hl Hin. apply list_elem_of_In, in_map_iff in Hin as (e & <- & He).
revert Hl. by apply target_outside, list_elem_of_In.
Qed.

Lemma undo_in_area k : (k < ATA_JOURNAL_MAX_ENTRIES)%nat → journal_area (data_lba mounted + Z.of_nat k).
Proof using.
intros Hk. left. cbn [header_lba data_lba mounted].
unfold ATA_JOURNAL_HEADER_OFFSET, ATA_JOURNAL_DATA_OFFSET. lia.
Qed.

Lemma undo_not_header k :
(k < ATA_JOURNAL_MAX_ENTRIES)%nat → data_lba mounted + Z.of_nat k ∉ header_lbas mounted.
Proof using Hfit.
intros Hk. destruct Hfit as (? & ? & ?). unfold header_lbas. rewrite elem_of_cons.
unfold ATA_JOURNAL_MAX_ENTRIES, ATA_JOURNAL_DATA_OFFSET in *.
cbn [header_lba data_lba mirror_lba mounted]. unfold ATA_JOURNAL_HEADER_OFFSET, ATA_JOURNAL_MIRROR_OFFSET,
ATA_JOURNAL_DATA_OFFSET.
destruct (31 <? res); [destruct (part + 31 =? 0)|destruct (0 =? 0)]; rewrite ?elem_of_nil, ?list_elem_of_singleton; lia.
Qed.

(** What does not touch the headers keeps the rest. *)
Lemma outside_headers i i' :
(∀ l, l ∉ header_lbas mounted → i' l = i l) →
(framed i → framed i') ∧ (undo_kept i → undo_kept i') ∧ (∀ e, e ∈ es → i' e.1 = i e.1).
Proof using All.
intros Hi. split_and!.
- intros Hf l Hl Hn. rewrite Hi; [by apply Hf|]. intros ?. by apply Hl, header_in_area.
- intros Hu k e He. rewrite Hi; [by apply (Hu k e)|]. apply undo_not_header.
apply lookup_lt_Some in He. pose proof (ok_length Hok). lia.
- intros e He. by apply Hi, target_not_header.
Qed.

Lemma record_writes_keys record : map fst (record_writes mounted record) = header_lbas mounted.
Proof using. unfold record_writes. rewrite map_map. apply map_id. Qed.

Lemma record_writes_elem record l d : (l, d) ∈ record_writes mounted record → l ∈ header_lbas mounted ∧ d = record.
Proof using.
unfold record_writes. rewrite !list_elem_of_In, in_map_iff. intros (x & ? & ?). by simplify_eq.
Qed.

Lemma headers_mixed i i' hk k :
headers i hk → mixed i (record_writes mounted (header_bytes k)) i' →
headers i' (λ l, if decide (i' l = i l) then hk l else k) ∧
(∀ l, l ∉ header_lbas mounted → i' l = i l).
Proof using.
intros Hh Hm. split.
- intros l Hl. destruct (decide (i' l = i l)) as [->|Hne]; [by apply Hh|].
destruct (Hm l) as [?|Hin]; [done|]. by apply record_writes_elem in Hin as [_ ->].
- intros l Hl. destruct (Hm l) as [?|Hin]; [done|]. by apply record_writes_elem in Hin as [? _].
Qed.

Lemma headers_written i k :
(∀ l, l ∈ header_lbas mounted →
apply_writes i (record_writes mounted (header_bytes k)) l = header_bytes k) ∧
(∀ l, l ∉ header_lbas mounted →
apply_writes i (record_writes mounted (header_bytes k)) l = i l).
Proof using.
split; intros l Hl.
- rewrite <- (record_writes_keys (header_bytes k)) in Hl.
apply (apply_writes_some i) in Hl. by apply record_writes_elem in Hl as [_ ->].
- apply apply_writes_other. by rewrite record_writes_keys.
Qed.

Lemma restored i :
(∀ l, l ∉ map fst es → apply_writes i (restore_writes (length es)) l = i l) ∧
(∀ e, e ∈ es → apply_writes i (restore_writes (length es)) e.1 = old e.1).
Proof using.
assert (Hkeys : ∀ l, l ∈ map fst (restore_writes (length es)) ↔ l ∈ map fst es).
{ intros l. unfold restore_writes. rewrite take_ge by lia.
rewrite map_rev, map_map, !list_elem_of_In, <- in_rev. done. }
split.
- intros l Hl. apply apply_writes_other. by rewrite Hkeys.
- intros e He. assert (e.1 ∈ map fst es) as Hin by (apply list_elem_of_In, in_map, list_elem_of_In, He).
rewrite <- Hkeys in Hin. apply (apply_writes_some i) in Hin.
apply restore_writes_elem in Hin as (e' & _ & -> & Hd). exact Hd.
Qed.

Lemma barrier_false j (r : bool * W) : barrier j false r = r.
Proof using. destruct r as [[] w]; reflexivity. Qed.

Lemma clear_stored i j w k :
placed j → holding w i [] → ata_undo_journal_make_clean (sequence j) = header_bytes k →
stored i (record_writes mounted (header_bytes k)) (clear_journal j w false) ∧
live w (clear_journal j w false).
Proof using DiskLaws0.
intros Hp Hh Hk. unfold clear_journal. rewrite Hk.
pose proof (write_record_stored t b m j (placed_on_drive _ Hp) w i (header_bytes k) false
ltac:(done) Hh) as H. destruct Hp as (_ & Hg & _). by rewrite barrier_false, Hg in H.
Qed.

(** Clearing after the targets have their old content. *)
Lemma clearing_recovers i i' hk :
headers i hk → framed i → undo_kept i → (∀ e, e ∈ es → i e.1 = old e.1) →
mixed i (record_writes mounted (header_bytes HNew)) i' → recovers false i'.
Proof using All.
intros Hh Hf Hu Ht Hm. destruct (headers_mixed i i' hk HNew Hh Hm) as [Hh' Hout].
destruct (outside_headers i i' Hout) as (Hf' & Hu' & Ht').
destruct (decide (Exists (λ l, (if decide (i' l = i l) then hk l else HNew) = HActive)
(header_lbas mounted))) as [Hex|Hex].
- eapply rolls_back; eauto. intros e He. left. rewrite Ht' by done. by apply Ht.
- eapply settles; eauto.
+ intros l Hl. rewrite list.Exists_exists in Hex.
  destruct (if decide (i' l = i l) then hk l else HNew) eqn:E; [by right| |by left].
  destruct Hex. by exists l.
+ intros e He. rewrite Ht' by done. by apply Ht.
Qed.

(** ** The outcome of an attach *)
Definition outcome (kept : bool) (w : W) (r : bool * ata_undo_journal_t W * W) : Prop :=
let '(ok, j', w') := r in
(alive w → ok = true ∧ alive w') ∧
(∀ i', crash_image w' i' → recovers kept i') ∧
(ok = true → ∃ final c,
 holding w' final [] ∧ clean_record c ∧ r_sequence c = sequence j' ∧
 (∀ l, l ∈ header_lbas mounted → final l = c) ∧ framed final ∧
 (∀ e, e ∈ es → final e.1 = (if kept then new else old) e.1) ∧ placed j').

Lemma recovers_ext kept i i' : (∀ l, i' l = i l) → recovers kept i → recovers kept i'.
Proof using.
intros He [hk Hk Hh Hf Hu Hx Ht|hk Hh Hf Hx Ht].
- apply (rolls_back _ _ hk); try done.
+ intros l Hl. rewrite He. by apply Hh.
+ intros l Hl Hn. rewrite He. by apply Hf.
+ intros k e Hke. rewrite He. by apply Hu.
+ intros e Hin. rewrite He. by apply Ht.
- apply (settles _ _ hk); try done.
+ intros l Hl. rewrite He. by apply Hh.
+ intros l Hl Hn. rewrite He. by apply Hf.
+ intros e Hin. rewrite He. by apply Ht.
Qed.

Lemma holding_recovers kept w i i' :
recovers kept i → holding w i [] → crash_image w i' → recovers kept i'.
Proof using DiskLaws0.
intros Hr Hh Hc. apply (recovers_ext kept i); [|done]. intros l.
destruct (holding_crash (t := t) (b := b) (m := m) w i [] Hh i' Hc l) as [?|Hin]; [done|].
by apply elem_of_nil in Hin.
Qed.

Lemma clean_header k : k ≠ HActive → clean_record (header_bytes k).
Proof using Hok Hfit.
intros Hk. destruct (header_facts k) as (Hv & _ & _ & Hst & Hs & _).
pose proof (ok_old Hok) as [_ [_ Hu0]]. split; [exact Hv|]. rewrite Hst, Hs.
destruct k; [exact (conj eq_refl Hu0)|destruct (Hk eq_refl)|exact (conj eq_refl (ok_sequence Hok))].
Qed.

Lemma placed_sequence j x : placed j → placed (set_sequence j x).
Proof using. by intros ((?&?&?&?&?)&?&?). Qed.

(** The state after the CLEAN record of this transaction is written. *)
Lemma cleared_outcome (kept : bool) i j w hk :
placed j → sequence j = s → holding w i [] → headers i hk → framed i → 
(∀ e, e ∈ es → i e.1 = (if kept then new else old) e.1) →
(∀ i', mixed i (record_writes mounted (header_bytes HNew)) i' → recovers kept i') →
outcome kept w (let '(result, w') := clear_journal j w false in (result, j, w')).
Proof using All.
intros Hp Hs Hh Hk Hf Ht Hm.
destruct (clear_stored i j w HNew Hp Hh ltac:(by rewrite Hs)) as [Hst Hl].
destruct (clear_journal j w false) as [ok w']. split_and!; [exact Hl| |].
- intros i' Hc. apply Hm. destruct ok; [|by apply Hst].
intros l. pose proof (holding_crash (t := t) (b := b) (m := m) w' _ [] Hst i' Hc l) as [->|Hin];
  [apply apply_writes_mixed|by apply elem_of_nil in Hin].
- intros ->. destruct (headers_written i HNew) as [Hw Hout].
destruct (outside_headers i _ Hout) as (Hf' & _ & Ht').
exists (apply_writes i (record_writes mounted (header_bytes HNew))), (header_bytes HNew).
split_and!; [done|by apply clean_header| |done|by apply Hf'| |done].
+ destruct (header_facts HNew) as (_ & _ & _ & _ & -> & _). by rewrite Hs.
+ intros e He. by rewrite Ht', Ht.
Qed.

Lemma recover_active_outcome i hk j w repair :
placed j → holding w i [] → headers i hk → framed i → undo_kept i →
Exists (λ l, hk l = HActive) (header_lbas mounted) →
(∀ e, e ∈ es → i e.1 = old e.1 ∨ i e.1 = new e.1) →
outcome false w (recover_v2 j w active_header repair).
Proof using All.
intros Hp Hh Hk Hf Hu Hx Ht.
assert (Hri : recovers false i) by by eapply rolls_back.
unfold recover_v2. cbv zeta.
destruct (header_facts HActive) as (Hv & _ & _ & Hst & Hs & Hn).
fold active_header in Hv, Hst, Hs, Hn. rewrite Hv, Hst, Hs, Hn, Nat2Z.id. cbn [negb orb Z.eqb].
pose proof (admit_spec i (length es) 0 _ w (placed_sequence j s Hp) Hh Hu eq_refl) as Ha.
destruct (admit_entries _ _ _ _ _) as [[ok1 j1] w1]. destruct Ha as (Hh1 & Hl1 & Hu1).
destruct ok1; cbn [negb].
2: { split_and!; [intros Ha; by destruct (Hl1 Ha)| |done]. intros i'. by apply (holding_recovers false w1 i). }
destruct (Hu1 eq_refl) as (u & -> & Hul & _ & Hafter).
assert (placed (with_undo (set_sequence j s) u)) as Hp1 by (apply placed_with_undo; [by apply placed_sequence|done]).
destruct (restore_spec i _ w1 Hp1 Hh1) as [Hst2 Hl2].
{ intros k e He. apply Hafter; [lia|done]. }
destruct (restored i) as [Hout Hin].
destruct (restore_entries _ _ _ _) as [[] w2]; cbn [negb].
2: { split_and!; [intros Ha; by destruct (Hl2 (proj2 (Hl1 Ha)))| |done].
intros i' Hc. apply (rolls_back _ _ hk); try done.
- intros l Hl. destruct (Hst2 i' Hc l) as [->|Hin']; [by apply Hk|].
  apply restore_writes_elem in Hin' as (e & He & -> & _). by apply target_not_header in He.
- intros l Hl Hn'. destruct (Hst2 i' Hc l) as [->|Hin']; [by apply Hf|].
  apply restore_writes_elem in Hin' as (e & He & -> & _). destruct Hn'.
  by apply list_elem_of_In, in_map, list_elem_of_In.
- intros k e He. destruct (Hst2 i' Hc (data_lba mounted + Z.of_nat k)) as [->|Hin'];
    [by apply Hu|]. apply restore_writes_elem in Hin' as (e' & He' & Heq & _).
  apply target_outside in He'. destruct He'. rewrite <- Heq. apply undo_in_area.
  apply lookup_lt_Some in He. pose proof (ok_length Hok). lia.
- intros e He. destruct (Hst2 i' Hc e.1) as [->|Hin']; [by apply Ht|].
  apply restore_writes_elem in Hin' as (e' & _ & -> & Hd). by left. }
set (i2 := apply_writes i (restore_writes (length es))) in *.
assert (Hk2 : headers i2 hk).
{ intros l Hl. unfold i2. rewrite Hout; [by apply Hk|]. by apply area_not_target, header_in_area. }
assert (Hf2 : framed i2) by (intros l Hl Hn'; unfold i2; rewrite Hout by done; by apply Hf).
assert (Hu2 : undo_kept i2).
{ intros k e He. unfold i2. rewrite Hout; [by apply Hu|]. apply area_not_target, undo_in_area.
apply lookup_lt_Some in He. pose proof (ok_length Hok). lia. }
pose proof (cleared_outcome false i2 (with_undo (set_sequence j s) u) w2 hk Hp1 eq_refl Hst2 Hk2 Hf2
Hin (λ i', clearing_recovers i2 i' hk Hk2 Hf2 Hu2 Hin)) as Hout2.
destruct (clear_journal _ _ _) as [ok3 w3]. destruct Hout2 as (Hl3 & ? & ?).
split_and!; [|done|done]. intros Ha. by apply Hl3, Hl2, Hl1.
Qed.

(** A drive that no longer answers changes nothing. *)
Lemma clear_off j w i :
placed j → off w → holding w i [] →
(clear_journal j w false).1 = false ∧ torn (clear_journal j w false).2 i [].
Proof using DiskLaws0.
intros ((Ht & Hr & _) & Hg & _) Ho Hh. unfold clear_journal, write_record. rewrite Ht, Hg. cbv zeta.
unfold transport_ready in Hr. rewrite Ht in Hr. apply andb_prop in Hr as [_ Hw].
destruct (write t) as [f|] eqn:Ef; [|done]. cbn [call_write].
destruct (write_off (b := b) (m := m) f w i (header_lba mounted)
(ata_undo_journal_make_clean (sequence j)) Ef Ho Hh) as [Hf Htorn].
cbn [base is_master mounted]. destruct (f _ _ _ _ _) as [ok w']. by cbn in Hf; subst ok.
Qed.

Lemma torn_recovers kept w i i' :
recovers kept i → torn w i [] → crash_image w i' → recovers kept i'.
Proof using.
intros Hr Ht Hc. apply (recovers_ext kept i); [|done]. intros l.
destruct (Ht i' Hc l) as [?|Hin]; [done|]. by apply elem_of_nil in Hin.
Qed.

Lemma recover_off kept i j w k repair :
placed j → off w → holding w i [] → recovers kept i → repair = true ∨ k = HActive →
let '(ok, j', w') := recover_v2 j w (header_bytes k) repair in
ok = false ∧ ∀ i', crash_image w' i' → recovers kept i'.
Proof using All.
intros Hp Ho Hh Hri Hk. unfold recover_v2. cbv zeta.
destruct (header_facts k) as (-> & _ & _ & -> & -> & ->). cbn [negb].
set (q := match k with HOld => r_sequence c0 | _ => s end).
pose proof (placed_sequence j q Hp) as Hp1.
assert (Hclear : let '(result, w') := clear_journal (set_sequence j q) w false in
result = false ∧ ∀ i', crash_image w' i' → recovers kept i').
{ destruct (clear_off _ w i Hp1 Ho Hh) as [Hf Ht].
destruct (clear_journal _ _ _) as [ok w']. cbn in Hf, Ht. split; [done|].
intros i'. by apply (torn_recovers kept w' i). }
destruct (Z.to_nat (match k with HActive => Z.of_nat (length es) | _ => 0 end)) as [|n] eqn:En.
- cbn [admit_entries negb restore_entries].
assert ((match k with HActive => ATA_JOURNAL_ACTIVE | _ => ATA_JOURNAL_CLEAN end =?
  ATA_JOURNAL_ACTIVE) || repair = true) as ->.
{ destruct Hk as [->| ->]; [by rewrite orb_true_r|done]. }
by destruct (clear_journal _ _ _).
- destruct k; try done. rewrite Nat2Z.id in En. cbn [admit_entries]. cbv zeta.
destruct (lookup_lt_is_Some_2 es 0 ltac:(lia)) as [e He].
destruct (active_entry 0 e He) as [E1 _]. unfold active_header in E1. rewrite E1.
destruct (ok_entry Hok e (list_elem_of_lookup_2 _ _ _ He)) as (Htok & _).
pose proof Hp1 as (Hrd & Hg & _). rewrite (proj2 (recovery_target_ok _ e.1 Hg) Htok).
cbn [negb orb existsb seq]. rewrite Hg. cbn [base is_master mounted].
match goal with |- context [read_sector ?j ?w ?b ?l ?buf ?m] =>
  pose proof (read_sector_law j w i [] l buf Hrd Hh) as Hread;
  pose proof (read_sector_off j w l buf Hrd Ho) as [Hf _];
  destruct (read_sector j w b l buf m) as [[ok d] w'] end.
cbn in Hf. subst ok. cbn [andb negb]. split; [done|]. intros i'.
destruct Hread as [Hh' _]. by apply (holding_recovers kept w' i).
Qed.

Lemma recover_clean_outcome (kept : bool) i hk j w k repair :
placed j → holding w i [] → headers i hk → framed i →
(∀ l, l ∈ header_lbas mounted → hk l = HNew ∨ hk l = HOld ∧ kept = false) →
(∀ e, e ∈ es → i e.1 = (if kept then new else old) e.1) →
k ≠ HActive → (repair = true → k = HNew) →
(repair = false → ∀ l, l ∈ header_lbas mounted → hk l = k) →
outcome kept w (recover_v2 j w (header_bytes k) repair).
Proof using All.
intros Hp Hh Hk Hf Hx Ht Hka Hrep Hnorep. unfold recover_v2. cbv zeta.
destruct (header_facts k) as (-> & _ & _ & Est & Eseq & Ecnt). rewrite Est, Eseq, Ecnt. cbn [negb].
set (q := match k with HOld => r_sequence c0 | _ => s end) in *.
assert (Z.to_nat (match k with HActive => Z.of_nat (length es) | _ => 0 end) = O) as -> by (by destruct k).
cbn [admit_entries negb restore_entries].
assert ((match k with HActive => ATA_JOURNAL_ACTIVE | _ => ATA_JOURNAL_CLEAN end =?
ATA_JOURNAL_ACTIVE) = false) as -> by (by destruct k).
cbn [orb]. destruct repair.
- assert (q = s) as Hq by (unfold q; by rewrite (Hrep eq_refl)).
apply (cleared_outcome kept i _ w hk); try done.
intros i' Hm. destruct (headers_mixed i i' hk HNew Hk Hm) as [Hk' Hout].
destruct (outside_headers i i' Hout) as (Hf' & _ & Ht').
apply (settles _ _ _ Hk' (Hf' Hf)).
+ intros l Hl. destruct (decide (i' l = i l)); [by apply Hx|by left].
+ intros e He. by rewrite Ht', Ht.
- split_and!; [done| |].
+ intros i' Hc. eapply holding_recovers; [|exact Hh|exact Hc]. by eapply settles.
+ intros _. exists i, (header_bytes k).
  split_and!; [done|by apply clean_header|by rewrite Eseq| |done|done|by apply placed_sequence].
  intros l Hl. by rewrite (Hk l Hl), (Hnorep eq_refl l Hl).
Qed.

(** The two header copies decide between the two branches of [recovers]. *)
Lemma recover_chosen_outcome kept i j w hk k repair :
placed j → holding w i [] → recovers kept i → headers i hk →
(∀ hk', headers i hk' → ∀ l, l ∈ header_lbas mounted → hk' l = hk l) →
(k = HActive ↔ Exists (λ l, hk l = HActive) (header_lbas mounted)) →
(k ≠ HActive → repair = true → k = HNew) →
(k ≠ HActive → repair = false → ∀ l, l ∈ header_lbas mounted → hk l = k) →
outcome kept w (recover_v2 j w (header_bytes k) repair).
Proof using All.
intros Hp Hh Hri Hk Huniq Hact H1 H2. destruct Hri as [hk' -> Hk' Hf Hu Hx Ht|hk' Hk' Hf Hx Ht].
- assert (Exists (λ l, hk l = HActive) (header_lbas mounted)) as Hx'.
{ rewrite list.Exists_exists in *. destruct Hx as (l & Hl & E). exists l.
  split; [done|]. by rewrite <- (Huniq hk' Hk' l Hl). }
apply Hact in Hx' as ->. by apply (recover_active_outcome i hk').
- assert (k ≠ HActive) as Hka.
{ intros ->. destruct Hact as [Hact _]. specialize (Hact eq_refl).
  apply list.Exists_exists in Hact as (l & Hl & E). rewrite <- (Huniq hk' Hk' l Hl) in E.
  destruct (Hx l Hl) as [E'|[E' _]]; congruence. }
apply (recover_clean_outcome kept i hk); try done; [|by apply H1|by apply H2].
intros l Hl. rewrite <- (Huniq hk' Hk' l Hl). by apply Hx.
Qed.

Lemma header_bytes_inj k k' : header_bytes k = header_bytes k' → k = k'.
Proof using Hok Hfit.
intros Heq. destruct (header_facts k) as (_ & _ & _ & Es & Eq & _).
destruct (header_facts k') as (_ & _ & _ & Es' & Eq' & _). rewrite Heq in Es, Eq.
rewrite Es' in Es. rewrite Eq' in Eq. pose proof (ok_after Hok) as Hlt.
clear - Es Eq Hlt. destruct k, k'; done || lia.
Qed.

Lemma headers_unique i hk hk' :
headers i hk → headers i hk' → ∀ l, l ∈ header_lbas mounted → hk' l = hk l.
Proof using Hok Hfit.
intros H1 H2 l Hl. apply header_bytes_inj. by rewrite <- H1, <- H2.
Qed.

Lemma recovers_headers kept i : recovers kept i → ∃ hk, headers i hk.
Proof using. intros []; by eexists. Qed.

Lemma header_zeros k zeros r :
choose_header (header_bytes k) zeros true false r = Some (header_bytes k, r).
Proof using. reflexivity. Qed.

Lemma header_marks k :
(r_magic (header_bytes k) =? ATA_JOURNAL_MAGIC) = true ∧ (r_version (header_bytes k) =? 1) = false ∧
(r_version (header_bytes k) =? ATA_JOURNAL_VERSION) = true ∧ record_valid (header_bytes k) = true.
Proof using Hok Hfit. by destruct (header_facts k) as (-> & -> & -> & _). Qed.

Lemma choose_kind_active p q : (choose_kind p q).1 = HActive ↔ p = HActive ∨ q = HActive.
Proof using. destruct p, q; cbn; intuition congruence. Qed.

(** The journal that has found its marks. *)
Definition attached_journal (j : ata_undo_journal_t W) : ata_undo_journal_t W :=
Journal false mounted (sequence j) 0 (transaction_depth j) (entries j) (undo_data j)
(pending_data j) (transport j).

Lemma attached_placed j : ready j → placed (attached_journal j).
Proof using. by intros (?&?&?&?&?). Qed.

(** What an attach does once the headers are read. *)
Definition attach_read (j : ata_undo_journal_t W) (primary_read : bool) (primary : list Z)
(mirror_read : bool) (mirror : list Z) (w : W) : bool * ata_undo_journal_t W * W :=
let mirrored := negb (mirror_lba mounted =? 0) in
let primary_marked := primary_read && (r_magic primary =? ATA_JOURNAL_MAGIC) in
let mirror_marked := mirror_read && (r_magic mirror =? ATA_JOURNAL_MAGIC) in
if negb primary_marked && negb mirror_marked
then (primary_read && (negb mirrored || mirror_read), j, w)
else
match choose_header primary mirror
  (primary_marked && (if r_version primary =? 1 then v1_record_valid primary else record_valid primary))
  (mirror_marked && (r_version mirror =? ATA_JOURNAL_VERSION) && record_valid mirror) mirrored with
| None => (false, attached_journal j, w)
| Some (record, repair) =>
    let '(result, j, w) :=
      if r_version record =? 1 then recover_v1 (attached_journal j) w record
      else recover_v2 (attached_journal j) w record repair in
    (result, if result then set_enabled j true else j, w)
end.

Lemma mirror_in_volume :
mirror_lba mounted ≠ 0 → header_lbas mounted = [header_lba mounted; mirror_lba mounted].
Proof using. intros H. unfold header_lbas. by rewrite (proj2 (Z.eqb_neq _ _) H). Qed.

Lemma attach_reads j w :
ready j → transaction_depth j = 0 →
ata_undo_journal_attach j w b m part vol res =
let j := set_enabled j false in
let zeros := repeat 0 ATA_JOURNAL_SECTOR_SIZE in
let '(primary_read, primary, w) := read_sector j w b (header_lba mounted) zeros m in
let '(mirror_read, mirror, w) :=
  if negb (mirror_lba mounted =? 0) then read_sector j w b (mirror_lba mounted) zeros m
  else (false, zeros, w) in
attach_read j primary_read primary mirror_read mirror w.
Proof using Hfit.
intros Hrd Hd. unfold ata_undo_journal_attach. rewrite (proj1 (proj2 Hrd)), Hd. cbn [negb andb Z.eqb].
destruct Hfit as (Hpart & [Hres Hvol] & Hmax).
unfold ATA_JOURNAL_DATA_OFFSET, ATA_JOURNAL_MAX_ENTRIES in Hres.
assert ((vol =? 0) || (vol <? res) || (UINT32_MAX - part <? vol) = false) as -> by
(rewrite !orb_false_iff, Z.eqb_neq, !Z.ltb_ge; lia).
assert ((res <=? ATA_JOURNAL_HEADER_OFFSET) = false) as -> by
(apply Z.leb_gt; unfold ATA_JOURNAL_HEADER_OFFSET; lia).
assert ((res <? ATA_JOURNAL_DATA_OFFSET + Z.of_nat ATA_JOURNAL_MAX_ENTRIES) = false) as ->.
{ apply Z.ltb_ge. unfold ATA_JOURNAL_DATA_OFFSET, ATA_JOURNAL_MAX_ENTRIES. lia. }
cbv zeta. cbn [header_lba mounted].
destruct (read_sector _ _ _ _ _ _) as [[ok1 primary] w1]. cbn [mirror_lba mounted].
set (mirror := if ATA_JOURNAL_MIRROR_OFFSET <? res then part + ATA_JOURNAL_MIRROR_OFFSET else 0).
destruct (if negb (mirror =? 0) then _ else _) as [[ok2 mirror2] w2].
unfold attach_read. cbn [mirror_lba mounted]. fold mirror. rewrite negb_involutive.
destruct (negb _ && negb _); [done|]. destruct (choose_header _ _ _ _ _) as [[record repair]|]; done.
Qed.

(** The recovery whose result an attach returns. *)
Definition attaches (kept : bool) (w : W) (result : bool * ata_undo_journal_t W * W) : Prop :=
∃ r, outcome kept w r ∧
result = (let '(ok, j', w') := r in (ok, (if ok then set_enabled j' true else j'), w')).

Lemma attaches_fail kept i w j' w' :
recovers kept i → holding w' i [] → ¬ alive w → attaches kept w (false, j', w').
Proof using DiskLaws0.
intros Hri Hh Ha. exists (false, j', w'). split; [|done].
split_and!; [done| |done]. intros i'. by apply (holding_recovers kept w' i).
Qed.

(** Both headers were read, or the only one. *)
Lemma attach_read_all kept i j hk w :
ready j → holding w i [] → recovers kept i → headers i hk →
let p := hk (header_lba mounted) in
let q := hk (mirror_lba mounted) in
attaches kept w (attach_read j true (header_bytes p) (negb (mirror_lba mounted =? 0))
(if negb (mirror_lba mounted =? 0) then header_bytes q else repeat 0 ATA_JOURNAL_SECTOR_SIZE) w).
Proof using All.
intros Hrd Hh Hri Hk p q. pose proof (λ hk', headers_unique i hk hk' Hk) as Huniq.
destruct (header_marks p) as (Mp & _ & _ & Vp). destruct (header_marks q) as (Mq & _ & Wq & Vq).
unfold attach_read. rewrite Mp, Vp. cbv zeta. cbn [andb negb].
destruct (header_marks p) as (_ & -> & _).
destruct (Z.eqb_spec (mirror_lba mounted) 0) as [Em|Em]; cbn [negb andb].
- rewrite header_zeros. destruct (header_marks p) as (_ & -> & _).
exists (recover_v2 (attached_journal j) w (header_bytes p) false). split; [|done].
assert (header_lbas mounted = [header_lba mounted]) as Hlbas.
{ unfold header_lbas. by rewrite Em. }
apply (recover_chosen_outcome kept i _ _ hk); try done.
+ rewrite Hlbas, Exists_cons, Exists_nil. fold p. intuition congruence.
+ rewrite Hlbas. intros _ _ l ->%list_elem_of_singleton. done.
- rewrite Mq, Wq, Vq. cbn [andb]. rewrite choose_header_kind.
destruct (header_marks (choose_kind p q).1) as (_ & -> & _).
exists (recover_v2 (attached_journal j) w (header_bytes (choose_kind p q).1) (choose_kind p q).2).
split; [|done]. apply (recover_chosen_outcome kept i _ _ hk); try done.
+ rewrite choose_kind_active, (mirror_in_volume Em), !Exists_cons, Exists_nil. fold p q.
  intuition congruence.
+ destruct p, q; cbn; intuition congruence.
+ rewrite (mirror_in_volume Em). intros Hna Hr l Hl.
  rewrite elem_of_cons, list_elem_of_singleton in Hl.
  destruct Hl as [->| ->]; fold p q; destruct p, q; cbn in *; done.
Qed.

(** The drive went off between the two reads. *)
Lemma attach_read_half kept i j k mirror w0 w :
ready j → off w → holding w i [] → recovers kept i → ¬ alive w0 → mirror_lba mounted ≠ 0 →
attaches kept w0 (attach_read j true (header_bytes k) false mirror w).
Proof using All.
intros Hrd Ho Hh Hri Ha Hm. destruct (header_marks k) as (Mk & _ & _ & Vk).
unfold attach_read. rewrite Mk, Vk. rewrite (proj2 (Z.eqb_neq _ _) Hm). cbv zeta. cbn [andb negb].
destruct (header_marks k) as (_ & -> & _). rewrite header_zeros.
destruct (header_marks k) as (_ & -> & _).
exists (recover_v2 (attached_journal j) w (header_bytes k) true). split; [|done].
pose proof (recover_off kept i _ w k true (attached_placed j Hrd) Ho Hh Hri (or_introl eq_refl)) as Hoff.
destruct (recover_v2 _ _ _ _) as [[ok j'] w']. destruct Hoff as [-> Hc]. by split_and!.
Qed.

(** Attaching to an image of this transaction. *)
Lemma attach_outcome kept i j w :
ready j → transaction_depth j = 0 → holding w i [] → recovers kept i →
attaches kept w (ata_undo_journal_attach j w b m part vol res).
Proof using All.
intros Hrd Hd Hh Hri. destruct (recovers_headers _ _ Hri) as [hk Hk].
rewrite attach_reads by done. cbv zeta.
assert (ready (set_enabled j false)) as Hrd1 by by destruct Hrd as (?&?&?&?&?).
set (j1 := set_enabled j false) in *. clearbody j1. set (zeros := repeat 0 ATA_JOURNAL_SECTOR_SIZE).
pose proof (read_sector_law j1 w i [] (header_lba mounted) zeros Hrd1 Hh) as Hread1.
destruct (read_sector j1 w b _ zeros m) as [[ok1 primary] w1]. destruct Hread1 as (Hh1 & Hp & Hl1).
pose proof (read_sector_law j1 w1 i [] (mirror_lba mounted) zeros Hrd1 Hh1) as Hread2.
pose proof (λ Ho, proj1 (read_sector_off j1 w1 (mirror_lba mounted) zeros Hrd1 Ho)) as Hoff2.
destruct ok1.
2: { assert (¬ alive w) as Hna by (intros Ha; by destruct (Hl1 Ha)).
destruct (negb (mirror_lba mounted =? 0)); [|by apply (attaches_fail kept i)].
destruct (read_sector j1 w1 b _ zeros m) as [[ok2 mirror] w2]. cbn [fst] in Hoff2.
rewrite (Hoff2 Hp). destruct Hread2 as (Hh2 & _). by apply (attaches_fail kept i). }
cbn [apply_writes] in Hp. rewrite Hp, (Hk (header_lba mounted)) by constructor.
assert (Hshift : ∀ w' r, (alive w → alive w') → attaches kept w' r → attaches kept w r).
{ intros w' r Ha ([[ok j'] w''] & (Hl & ? & ?) & ->). exists (ok, j', w''). split; [|done].
split_and!; [auto|done|done]. }
pose proof (attach_read_all kept i j1 hk) as Hall. cbv zeta in Hall.
destruct (Z.eqb_spec (mirror_lba mounted) 0) as [Em|Em]; cbn [negb] in *.
- apply (Hshift w1); [apply Hl1|by apply Hall].
- destruct (read_sector j1 w1 b _ zeros m) as [[ok2 mirror] w2]. destruct Hread2 as (Hh2 & Hm & Hl2).
destruct ok2.
+ cbn [apply_writes] in Hm. rewrite Hm, (Hk (mirror_lba mounted)) by
    (rewrite (mirror_in_volume Em); right; constructor).
  apply (Hshift w2); [intros Ha; by apply Hl2, Hl1|by apply Hall].
+ apply (attach_read_half kept i); try done.
  intros Ha. by destruct (Hl2 (proj2 (Hl1 Ha))).
Qed.

(** ** The images of a commit *)
Context (rows : list (list Z)) (Hrows : length rows = length es).
Context (Hnew : new = apply_writes old (zip (map fst es) rows)).
Context (Hold : ∀ l, l ∈ header_lbas mounted → old l = c0).

Definition undo_phase : list (Z * list Z) :=
number_from (data_lba mounted) (map (λ e, old e.1) es).
Definition target_phase : list (Z * list Z) := zip (map fst es) rows.

Lemma undo_phase_keys : NoDup (map fst undo_phase).
Proof using All.
apply number_from_NoDup.
Qed.

Lemma undo_phase_area l : l ∈ map fst undo_phase → journal_area l ∧ l ∉ header_lbas mounted.
Proof using All.
unfold undo_phase. rewrite number_from_fst, length_map, list_elem_of_In, in_map_iff.
intros (k & <- & Hk%in_seq). pose proof (ok_length Hok).
split; [apply undo_in_area|apply undo_not_header]; lia.
Qed.

Lemma target_phase_keys : map fst target_phase = map fst es.
Proof using All. unfold target_phase. apply fst_zip. rewrite length_map. lia. Qed.

(** After the undo sectors: the old content with the undo area filled. *)
Definition undone : image := apply_writes old undo_phase.

Lemma undone_outside l : l ∉ map fst undo_phase → undone l = old l.
Proof using All. apply apply_writes_other. Qed.

Lemma old_content i :
(∀ l, l ∉ map fst undo_phase → i l = old l) →
headers i (λ _, HOld) ∧ framed i ∧ (∀ e, e ∈ es → i e.1 = old e.1).
Proof using All.
intros Hi. split_and!.
- intros l Hl. rewrite Hi; [by apply Hold|]. intros Hin. by apply undo_phase_area in Hin as [_ ?].
- intros l Hl Hn. apply Hi. intros Hin. by apply undo_phase_area in Hin as [? _].
- intros e He. apply Hi. intros Hin. apply undo_phase_area in Hin as [? _].
by apply (target_outside e He).
Qed.

Lemma undone_kept : undo_kept undone.
Proof using All.
intros k e He. apply apply_writes_in; [apply undo_phase_keys|].
apply number_from_elem. exists k. by rewrite list_lookup_fmap, He.
Qed.

Lemma phase_undo i : mixed old undo_phase i → recovers false i.
Proof using All.
intros Hm. destruct (old_content i) as (Hk & Hf & Ht).
{ intros l Hl. destruct (Hm l) as [?|Hin]; [done|]. destruct Hl. apply list_elem_of_In.
rewrite list_elem_of_In in Hin. by apply (in_map fst) in Hin. }
apply (settles _ _ (λ _, HOld)); auto.
Qed.

Lemma phase_active i :
mixed undone (record_writes mounted (header_bytes HActive)) i → recovers false i.
Proof using All.
intros Hm. destruct (old_content undone undone_outside) as (Hk & Hf & Ht).
destruct (headers_mixed undone i _ HActive Hk Hm) as [Hk' Hout].
destruct (outside_headers undone i Hout) as (Hf' & Hu' & Ht').
destruct (decide (Exists (λ l, (if decide (i l = undone l) then HOld else HActive) = HActive)
(header_lbas mounted))) as [Hex|Hex].
- eapply rolls_back; eauto; [apply Hu', undone_kept|]. intros e He. left. by rewrite Ht', Ht.
- eapply settles; eauto.
+ intros l Hl. rewrite list.Exists_exists in Hex.
  destruct (decide (i l = undone l)) eqn:E; [by right|]. destruct Hex. exists l. by rewrite E.
+ intros e He. by rewrite Ht', Ht.
Qed.

(** The ACTIVE record is durable. *)
Definition activated : image := apply_writes undone (record_writes mounted (header_bytes HActive)).

Lemma activated_content :
headers activated (λ _, HActive) ∧ framed activated ∧ undo_kept activated ∧
(∀ l, ¬ journal_area l → activated l = old l).
Proof using All.
destruct (old_content undone undone_outside) as (Hk & Hf & Ht).
destruct (headers_written undone HActive) as [Hw Hout].
destruct (outside_headers undone activated Hout) as (Hf' & Hu' & Ht').
split_and!; [done|by apply Hf'|apply Hu', undone_kept|].
intros l Hl. unfold activated. rewrite Hout by (intros ?; by apply Hl, header_in_area).
apply undone_outside. intros Hin. by apply undo_phase_area in Hin as [? _].
Qed.

Lemma new_target e : e ∈ es → (e.1, new e.1) ∈ target_phase.
Proof using All.
intros He. rewrite Hnew. apply apply_writes_some. rewrite target_phase_keys.
apply list_elem_of_In, in_map, list_elem_of_In, He.
Qed.

Lemma target_phase_new l d : (l, d) ∈ target_phase → l ∈ map fst es ∧ d = new l.
Proof using All.
intros Hin. split.
- rewrite <- target_phase_keys. apply list_elem_of_In in Hin. apply list_elem_of_In. by apply (in_map fst) in Hin.
- rewrite Hnew. symmetry. apply apply_writes_in; [|done].
fold target_phase. rewrite target_phase_keys. apply (ok_distinct Hok).
Qed.

Lemma new_outside l : l ∉ map fst es → new l = old l.
Proof using All. intros Hl. rewrite Hnew. apply apply_writes_other. fold target_phase. by rewrite target_phase_keys. Qed.

(** A target is outside the journal, so the phase keeps the rest. *)
Lemma outside_targets i i' :
(∀ l, l ∉ map fst es → i' l = i l) →
(∀ hk, headers i hk → headers i' hk) ∧ (framed i → framed i') ∧ (undo_kept i → undo_kept i').
Proof using All.
intros Hi. split_and!.
- intros hk Hk l Hl. rewrite Hi; [by apply Hk|]. by apply area_not_target, header_in_area.
- intros Hf l Hl Hn. rewrite Hi by done. by apply Hf.
- intros Hu k e He. rewrite Hi; [by apply (Hu k e)|]. apply area_not_target, undo_in_area.
apply lookup_lt_Some in He. pose proof (ok_length Hok). lia.
Qed.

Lemma phase_targets i : mixed activated target_phase i → recovers false i.
Proof using All.
intros Hm. destruct activated_content as (Hk & Hf & Hu & Ho).
destruct (outside_targets activated i) as (Hk' & Hf' & Hu').
{ intros l Hl. destruct (Hm l) as [?|Hin]; [done|]. by apply target_phase_new in Hin as [? _]. }
apply (rolls_back _ _ (λ _, HActive)); auto.
- by constructor.
- intros e He. destruct (Hm e.1) as [->|Hin].
+ left. by apply Ho, target_outside.
+ right. by apply target_phase_new in Hin as [_ ->].
Qed.

(** The targets are durable. *)
Definition committed : image := apply_writes activated target_phase.

Lemma committed_content :
headers committed (λ _, HActive) ∧ framed committed ∧ undo_kept committed ∧
(∀ e, e ∈ es → committed e.1 = new e.1) ∧ (∀ l, ¬ journal_area l → committed l = new l).
Proof using All.
destruct activated_content as (Hk & Hf & Hu & Ho).
assert (Hout : ∀ l, l ∉ map fst es → committed l = activated l).
{ intros l Hl. apply apply_writes_other. by rewrite target_phase_keys. }
destruct (outside_targets activated committed Hout) as (Hk' & Hf' & Hu').
assert (Hin : ∀ e, e ∈ es → committed e.1 = new e.1).
{ intros e He. apply apply_writes_in; [rewrite target_phase_keys; apply (ok_distinct Hok)|].
by apply new_target. }
split_and!; auto. intros l Hl. destruct (decide (l ∈ map fst es)) as [Hl'|Hl'].
- apply list_elem_of_In, in_map_iff in Hl' as (e & <- & He). by apply Hin, list_elem_of_In.
- by rewrite Hout, Ho, new_outside.
Qed.

Lemma phase_clean i :
mixed committed (record_writes mounted (header_bytes HNew)) i →
recovers false i ∨ recovers true i.
Proof using All.
intros Hm. destruct committed_content as (Hk & Hf & Hu & Ht & _).
destruct (headers_mixed committed i _ HNew Hk Hm) as [Hk' Hout].
destruct (outside_headers committed i Hout) as (Hf' & Hu' & Ht').
destruct (decide (Exists (λ l, (if decide (i l = committed l) then HActive else HNew) = HActive)
(header_lbas mounted))) as [Hex|Hex].
- left. eapply rolls_back; eauto. intros e He. right. by rewrite Ht', Ht.
- right. eapply settles; eauto.
+ intros l Hl. rewrite list.Exists_exists in Hex. left.
  destruct (decide (i l = committed l)) eqn:E; [|done]. destruct Hex. exists l. by rewrite E.
+ intros e He. by rewrite Ht', Ht.
Qed.

Definition finished : image := apply_writes committed (record_writes mounted (header_bytes HNew)).

Lemma finished_content :
recovers true finished ∧ (∀ l, l ∈ header_lbas mounted → finished l = header_bytes HNew) ∧
(∀ l, ¬ journal_area l → finished l = new l).
Proof using All.
destruct committed_content as (Hk & Hf & Hu & Ht & Ho).
destruct (headers_written committed HNew) as [Hw Hout].
destruct (outside_headers committed finished Hout) as (Hf' & Hu' & Ht').
split_and!; [|done|].
- apply (settles _ _ (λ _, HNew)); auto. intros e He. by rewrite Ht', Ht.
- intros l Hl. unfold finished. rewrite Hout by (intros ?; by apply Hl, header_in_area). by apply Ho.
Qed.
End transaction.

(** ** A transaction of a session *)
Section commit.
Context (Hfit : volume_fits) (j : ata_undo_journal_t W) (w : W) (img : image).
Context (Hs : session j w img) (Hcount : entry_count j ≠ O).

Definition pending_rows : list (list Z) := take (entry_count j) (pending_data j).

Lemma length_current : length (current j) = entry_count j.
Proof using Hs Hcount.
destruct Hs as [(_ & _ & He & _) _ _ Hc _ _ _ _ _]. unfold current. rewrite length_take. lia.
Qed.

Lemma length_pending_rows : length pending_rows = length (current j).
Proof using Hs Hcount.
rewrite length_current. destruct Hs as [(_ & _ & _ & _ & Hp) _ _ Hc _ _ _ _ _].
unfold pending_rows. rewrite length_take. lia.
Qed.

Lemma session_on_drive : on_drive t b m j.
Proof using Hs Hcount.
destruct Hs as [(? & ? & He & Hu & Hp) _ Hg Hc _ _ _ _ _]. unfold on_drive. rewrite Hg.
split_and!; try done; lia.
Qed.

Lemma session_transaction :
∃ c, transaction_ok img c (sequence j) (current j) ∧ (∀ l, l ∈ header_lbas mounted → img l = c).
Proof using Hs Hcount.
pose proof length_current as Hlen.
destruct Hs as [Hrd _ _ Hc Hseq (c & Hclean & Hhead & _ & Hlt) _ Hnd Hent].
exists c. split; [|done]. split; [done|by apply Hlt|done|lia|done|].
intros e He. apply list_elem_of_lookup in He as [i Hi]. destruct e as [target crc].
destruct (Hent i target crc Hi) as (? & ? & ? & _). done.
Qed.

Lemma session_undo : undo_writes j = undo_phase img (current j).
Proof using Hs Hcount.
pose proof length_current as Hlen.
destruct Hs as [(_ & _ & _ & Hu & _) _ Hg Hc _ _ _ _ Hent].
unfold undo_writes, undo_phase. rewrite Hg. f_equal. apply list_eq. intros i.
rewrite list_lookup_fmap. destruct (decide (i < entry_count j)%nat) as [Hi|Hi].
- rewrite lookup_take_lt by done.
destruct (lookup_lt_is_Some_2 (current j) i ltac:(lia)) as [[target crc] He]. rewrite He. cbn.
by destruct (Hent i target crc He) as (_ & _ & _ & ->).
- rewrite lookup_take_ge by lia. rewrite (lookup_ge_None_2 (current j) i) by lia. done.
Qed.

Definition transaction_image : image := apply_writes img (target_writes j).

Lemma session_commit use :
∃ c, transaction_ok img c (sequence j) (current j) ∧
let r := commit_transaction j w use in
let recovered := recovers img transaction_image c (sequence j) (current j) in
live w r ∧
(∀ i, crash_image r.2 i → recovered true i ∨ r.1 = false ∧ recovered false i) ∧
(r.1 = true → ∃ final, holding r.2 final [] ∧
 (∀ l, l ∈ header_lbas mounted → final l = ata_undo_journal_make_clean (sequence j)) ∧
 (∀ l, ¬ journal_area l → final l = transaction_image l)).
Proof using All.
destruct session_transaction as (c & Hok & Hhead). exists c. split; [done|]. cbv zeta.
pose proof length_pending_rows as Hrows.
assert (transaction_image = apply_writes img (zip (map fst (current j)) pending_rows)) as Hnew by done.
destruct (commit_outcome t b m j session_on_drive w img use (session_holding _ _ _ Hs)) as [Hp Hl].
split; [exact Hl|]. unfold phases_outcome, commit_phases in Hp.
rewrite session_undo, (session_geo _ _ _ Hs) in Hp.
destruct (finished_content Hfit img transaction_image c (sequence j) (current j) Hok
pending_rows Hrows Hnew Hhead) as (Hfin & Hfh & Hfo).
destruct (commit_transaction j w use) as [[] w']; cbn [fst snd] in *.
- assert (concat [undo_phase img (current j); record_writes mounted (active_record j);
  target_writes j; record_writes mounted (ata_undo_journal_make_clean (sequence j))] =
  undo_phase img (current j) ++ record_writes mounted (active_record j) ++
  target_writes j ++ record_writes mounted (ata_undo_journal_make_clean (sequence j))) as E
  by (cbn [concat]; by rewrite app_nil_r).
rewrite E, !apply_writes_app in Hp. split.
+ intros i Hc. left. by eapply holding_recovers.
+ intros _. by eexists.
- split; [|done]. destruct Hp as (before & phase & after & Heq & Ht). intros i Hc. specialize (Ht i Hc).
destruct before as [|p1 [|p2 [|p3 [|p4 [|? before]]]]]; cbn [app] in Heq; simplify_eq;
  cbn [concat] in Ht; rewrite ?app_nil_r, ?apply_writes_app in Ht.
+ right. split; [done|]. by eapply phase_undo.
+ right. split; [done|]. by eapply phase_active.
+ right. split; [done|]. by eapply phase_targets.
+ eapply phase_clean in Ht; [|done..]. destruct Ht; [by right|by left].
Qed.
End commit.

(** Content after any number of power failures during recovery. *)
Inductive found (w : W) : image → Prop :=
| found_crash i : crash_image w i → found w i
| found_again i j2 w2 i' :
  found w i → ready j2 → transaction_depth j2 = 0 → holding w2 i [] →
  crash_image (ata_undo_journal_attach j2 w2 b m part vol res).2 i' → found w i'.

(** Interrupted recoveries keep the verdict of each image. *)
Lemma found_recovers old new c s es w i :
volume_fits → transaction_ok old c s es →
(∀ i, crash_image w i → recovers old new c s es true i ∨ recovers old new c s es false i) →
found w i → recovers old new c s es true i ∨ recovers old new c s es false i.
Proof using DiskLaws0.
intros Hfit Hok Hw. induction 1 as [i Hc|i j2 w2 i' _ IH Hrd Hd Hh Hc]; [by apply Hw|].
destruct IH as [Hr|Hr];
destruct (attach_outcome Hfit old new c s es Hok _ i j2 w2 Hrd Hd Hh Hr)
  as ([[ok j3] w3] & (_ & Hc' & _) & Heq); rewrite Heq in Hc; [left|right]; by apply Hc'.
Qed.

Lemma found_recovers_new old new c s es w i :
volume_fits → transaction_ok old c s es →
(∀ i, crash_image w i → recovers old new c s es true i) →
found w i → recovers old new c s es true i.
Proof using DiskLaws0.
intros Hfit Hok Hw. induction 1 as [i Hc|i j2 w2 i' _ IH Hrd Hd Hh Hc]; [by apply Hw|].
destruct (attach_outcome Hfit old new c s es Hok _ i j2 w2 Hrd Hd Hh IH)
as ([[ok j3] w3] & (_ & Hc' & _) & Heq). rewrite Heq in Hc. by apply Hc'.
Qed.

Lemma current_nil (j : ata_undo_journal_t W) : entry_count j = O → current j = [].
Proof using. intros Hc. unfold current. by rewrite Hc. Qed.

(** A journal without entries over clean headers is a session. *)
Lemma empty_session j w img c :
ready j → enabled j = true → geo j = mounted → entry_count j = O → holding w img [] →
clean_record c → r_sequence c = sequence j → (∀ l, l ∈ header_lbas mounted → img l = c) →
session j w img.
Proof using.
intros Hrd He Hg Hc Hh Hcl Hseq Hl. pose proof (current_nil j Hc) as Hnil.
split; rewrite ?Hnil; try done.
- rewrite Hc. lia.
- rewrite <- Hseq. by destruct Hcl as (_ & _ & ?).
- exists c. split_and!; [done|done|lia|by rewrite Hc].
- constructor.
Qed.

(** Attaching on a drive that answers. *)
Lemma attach_alive old new c s es (kept : bool) i j w :
volume_fits → transaction_ok old c s es → (∀ l, l ∉ map fst es → new l = old l) →
ready j → transaction_depth j = 0 → holding w i [] → alive w →
recovers old new c s es kept i →
let '(ok, j', w') := ata_undo_journal_attach j w b m part vol res in
ok = true ∧ ∃ final, session j' w' final ∧
∀ l, ¬ journal_area l → final l = (if kept then new else old) l.
Proof using DiskLaws0.
intros Hfit Hok Hout Hrd Hd Hh Ha Hr.
destruct (attach_outcome Hfit old new c s es Hok kept i j w Hrd Hd Hh Hr)
as ([[ok j'] w'] & (Hl & _ & Hfin) & ->).
destruct (Hl Ha) as [-> _]. split; [done|].
destruct (Hfin eq_refl) as (final & c' & Hh' & Hcl & Hseq & Hhead & Hf & Ht & (Hrd' & Hg & Hc)).
exists final. split.
- by apply (empty_session _ _ _ c').
- intros l Hl'. destruct (decide (l ∈ map fst es)) as [Hin|Hn].
+ apply list_elem_of_In, in_map_iff in Hin as (e & <- & He). apply Ht. by apply list_elem_of_In.
+ rewrite Hf by done. destruct kept; [by rewrite Hout|done].
Qed.

Lemma transaction_image_outside (j : ata_undo_journal_t W) img l :
l ∉ map fst (current j) → transaction_image j img l = img l.
Proof using.
intros Hl. apply apply_writes_other. unfold target_writes. intros Hin. apply Hl.
apply list_elem_of_In, in_map_iff in Hin as ([l' d] & <- & Hin).
apply list_elem_of_In. by apply (in_combine_l _ _ _ _ Hin).
Qed.

(** C1: a committed transaction is atomic.  Take any session with entries and
end its outermost transaction with a commit, over any disk that keeps the
contract, with or without the deferred and the batch callbacks.  On a disk
that answers, the commit succeeds and exactly the transaction is on the
volume.  Wherever a command failed, whatever the power failure left of the
writes in flight, and however often power failed again while an attach was
recovering, attaching on a disk that answers succeeds and the sectors
outside the journal are all those of the transaction, or, if the commit had
not reported success, all those before it. *)
Theorem ata_transaction_atomic (Hfit : volume_fits) j w img use
  (Hs : session j w img) (Hcount : entry_count j ≠ O) (Hdepth : transaction_depth j = 1) :
let new := transaction_image j img in
let '(ok, j', w') := transaction_end j w true use in
(alive w → ok = true ∧ alive w') ∧
(ok = true → ∃ final, session j' w' final ∧ ∀ l, ¬ journal_area l → final l = new l) ∧
(∀ i j2 w2, found w' i → ready j2 → transaction_depth j2 = 0 → holding w2 i [] → alive w2 →
 let '(ok2, j3, w3) := ata_undo_journal_attach j2 w2 b m part vol res in
 ok2 = true ∧ ∃ final, session j3 w3 final ∧
   ((∀ l, ¬ journal_area l → final l = new l) ∨
    ok = false ∧ ∀ l, ¬ journal_area l → final l = img l)).
Proof using DiskLaws0.
intros new. unfold transaction_end. rewrite Hdepth. change (1 =? 0) with false. cbv zeta.
change (1 - 1) with 0. set (j0 := set_depth j 0).
assert (Hs0 : session j0 w img) by (destruct Hs as [(?&?&?&?&?) ? ? ? ? ? ? ? ?]; by split; [split_and!|..]).
change (negb (transaction_depth j0 =? 0)) with false. rewrite (session_enabled _ _ _ Hs0).
change (entry_count j0) with (entry_count j).
rewrite (proj2 (Nat.eqb_neq _ _) Hcount). cbn [negb andb].
destruct (session_commit Hfit j0 w img Hs0 Hcount use) as (c & Hok & Hl & Hcr & Hfin).
pose proof (session_ready _ _ _ Hs0) as Hrd0. pose proof (session_geo _ _ _ Hs0) as Hg0.
destruct (commit_transaction j0 w use) as [ok w']. cbn [fst snd] in *. split_and!; [exact Hl| |].
- intros Ho. destruct (Hfin Ho) as (final & Hh & Hhead & Hout). exists final. split; [|exact Hout].
pose proof (clean_header Hfit img c (sequence j0) (current j0) Hok HNew ltac:(done)) as Hcl.
destruct (header_facts Hfit img c (sequence j0) (current j0) Hok HNew) as (_ & _ & _ & _ & Hseq & _).
apply (empty_session _ _ _ (ata_undo_journal_make_clean (sequence j0))); try done.
apply (session_enabled _ _ _ Hs0).
- intros i j2 w2 Hf Hrd Hd Hh Ha.
pose proof (transaction_image_outside j0 img) as Hsame.
destruct ok.
+ assert (recovers img (transaction_image j0 img) c (sequence j0) (current j0) true i) as Hr.
  { eapply found_recovers_new; [done|done| |exact Hf]. intros i' Hc'.
    destruct (Hcr i' Hc') as [?|[? _]]; done. }
  pose proof (attach_alive _ _ _ _ _ true i j2 w2 Hfit Hok Hsame Hrd Hd Hh Ha Hr) as Hat.
  destruct (ata_undo_journal_attach j2 w2 b m part vol res) as [[ok2 j3] w3].
  destruct Hat as (-> & final & Hses & Hout). split; [done|]. exists final. split; [done|by left].
+ assert (∃ kept, recovers img (transaction_image j0 img) c (sequence j0) (current j0) kept i) as [kept Hr].
  { apply (found_recovers img (transaction_image j0 img) c (sequence j0) (current j0)) in Hf as [?|?];
      [by exists true|by exists false|done|done|].
    intros i' Hc'. destruct (Hcr i' Hc') as [?|[_ ?]]; [by left|by right]. }
  pose proof (attach_alive _ _ _ _ _ kept i j2 w2 Hfit Hok Hsame Hrd Hd Hh Ha Hr) as Hat.
  destruct (ata_undo_journal_attach j2 w2 b m part vol res) as [[ok2 j3] w3].
  destruct Hat as (-> & final & Hses & Hout). split; [done|]. exists final. split; [done|].
  destruct kept; [by left|by right].
Qed.

(** ** Inside a transaction *)
Lemma find_entry_spec lba : ∀ (l : list (Z * Z)) k,
match find_entry k l lba with
| Some i => ∃ n crc, i = (k + n)%nat ∧ l !! n = Some (lba, crc)
| None => lba ∉ map fst l
end.
Proof using.
induction l as [|[target crc] l IH]; intros k; cbn [find_entry map fst]; [by apply not_elem_of_nil|].
destruct (Z.eqb_spec target lba) as [->|Hne].
- by exists 0%nat, crc; rewrite Nat.add_0_r.
- specialize (IH (S k)). destruct (find_entry (S k) l lba) as [i|].
+ destruct IH as (n & c & -> & Hn). exists (S n), c. split; [lia|done].
+ by apply not_elem_of_cons.
Qed.

Lemma image_of_entry j w img i target crc row :
session j w img → current j !! i = Some (target, crc) → pending_data j !! i = Some row →
transaction_image j img target = row.
Proof using.
intros [_ _ _ _ _ _ _ Hnd _] Hi Hrow. unfold transaction_image, target_writes.
fold (current j). set (rows := take (entry_count j) (pending_data j)).
assert (Hrow' : rows !! i = Some row).
{ unfold rows. rewrite lookup_take_lt; [done|]. apply lookup_lt_Some in Hi.
unfold current in Hi. rewrite length_take in Hi. lia. }
apply apply_writes_in.
- eapply (sublist_NoDup _ (map fst (current j))); [exact Hnd|].
clear. generalize (map fst (current j)) rows. induction l as [|x l IH]; intros [|r rs]; cbn; constructor; auto.
apply sublist_nil_l.
- apply list_elem_of_lookup. exists i. apply lookup_zip_with_Some. exists target, row.
rewrite list_lookup_fmap, Hi. done.
Qed.

(** The transaction's view is determined by its entries and pending rows. *)
Lemma session_image_unique j w img view :
session j w img →
(∀ l, l ∉ map fst (current j) → view l = img l) →
(∀ i target crc, current j !! i = Some (target, crc) → pending_data j !! i = Some (view target)) →
∀ l, transaction_image j img l = view l.
Proof using.
intros Hs Hout Hin l. destruct (decide (l ∈ map fst (current j))) as [Hl|Hl].
- apply list_elem_of_In, in_map_iff in Hl as ([target crc] & <- & He).
apply list_elem_of_In, list_elem_of_lookup in He as [i Hi].
by eapply image_of_entry; [exact Hs|exact Hi|eapply Hin].
- by rewrite transaction_image_outside, Hout.
Qed.

Lemma session_pending j w img i target crc :
session j w img → current j !! i = Some (target, crc) →
pending_data j !! i = Some (transaction_image j img target).
Proof using.
intros Hs Hi. destruct (lookup_lt_is_Some_2 (pending_data j) i) as [row Hrow].
{ destruct Hs as [(_ & _ & _ & _ & ->) _ _ Hc _ _ _ _ _]. apply lookup_lt_Some in Hi.
unfold current in Hi. rewrite length_take in Hi. lia. }
by rewrite Hrow, (image_of_entry j w img i target crc row Hs Hi Hrow).
Qed.

(** Overwriting a pending row. *)
Lemma overwrite_entry j w img i lba crc buffer :
session j w img → current j !! i = Some (lba, crc) →
session (set_pending j i buffer) w img ∧
∀ l, transaction_image (set_pending j i buffer) img l = upd (transaction_image j img) lba buffer l.
Proof using.
intros Hs Hi.
assert (session (set_pending j i buffer) w img) as Hs'.
{ destruct Hs as [(? & ? & ? & ? & Hp) ? ? ? ? ? ? ? ?]. split; try done.
split_and!; try done. cbn. by rewrite length_insert. }
split; [done|]. apply (session_image_unique _ w _ _ Hs'); unfold upd.
- intros l Hl. destruct (Z.eqb_spec l lba) as [->|]; [|by apply transaction_image_outside].
destruct Hl. apply list_elem_of_In, in_map_iff. exists (lba, crc). split; [done|].
apply list_elem_of_In. by eapply list_elem_of_lookup_2.
- intros k target crc' Hk. change (current (set_pending j i buffer)) with (current j) in Hk.
cbn [pending_data set_pending]. destruct (Z.eqb_spec target lba) as [->|Hne].
+ assert (k = i) as ->.
  { eapply (NoDup_lookup (map fst (current j))); [apply (session_distinct _ _ _ Hs)| |];
      rewrite list_lookup_fmap; [by rewrite Hk|by rewrite Hi]. }
  apply list_lookup_insert_eq. apply (lookup_lt_Some _ _ _ (session_pending _ _ _ _ _ _ Hs Hi)).
+ rewrite list_lookup_insert_ne; [by apply (session_pending j w img k target crc')|].
  intros ->. rewrite Hk in Hi. by injection Hi.
Qed.

(** Recording a new entry: the undo data, the entry, the pending row. *)
Definition record_entry (j : ata_undo_journal_t W) (lba : Z) (data buffer : list Z)
: ata_undo_journal_t W :=
let slot := entry_count j in
let j := set_undo j slot data in
let j := set_entry j slot (lba, journal_crc32 data) in
let j := set_pending j slot buffer in
let j := set_count j (S slot) in
if (slot =? 0)%nat then set_sequence j (u32 (sequence j + 1)) else j.

Lemma record_entry_current j lba data buffer :
(entry_count j < length (entries j))%nat →
current (record_entry j lba data buffer) = current j ++ [(lba, journal_crc32 data)].
Proof using.
intros Hlt.
assert (current (record_entry j lba data buffer) =
take (S (entry_count j)) (<[entry_count j := (lba, journal_crc32 data)]> (entries j))) as ->.
{ unfold record_entry. by destruct (entry_count j =? 0)%nat. }
rewrite (take_S_r _ _ (lba, journal_crc32 data)) by by apply list_lookup_insert_eq.
by rewrite take_insert_ge by lia.
Qed.

Lemma record_entry_fields j lba data buffer :
(entry_count j =? 0)%nat = false ∨ sequence j < UINT32_MAX → is_u32 (sequence j) →
let j' := record_entry j lba data buffer in
undo_data j' = <[entry_count j := data]> (undo_data j) ∧
pending_data j' = <[entry_count j := buffer]> (pending_data j) ∧
entry_count j' = S (entry_count j) ∧ enabled j' = enabled j ∧ geo j' = geo j ∧
transport j' = transport j ∧ length (entries j') = length (entries j) ∧
transaction_depth j' = transaction_depth j ∧
sequence j' = sequence j + (if (entry_count j =? 0)%nat then 1 else 0).
Proof using.
intros Hseq Hu. unfold record_entry. destruct (entry_count j =? 0)%nat eqn:E.
- split_and!; try done; [by cbn; rewrite length_insert|]. cbn. apply u32_small.
destruct Hseq; [done|ulia].
- split_and!; try done; [by cbn; rewrite length_insert|]. cbn. lia.
Qed.

Lemma record_entry_session j w img lba buffer :
session j w img → target_ok lba → lba ∉ map fst (current j) → Forall is_u8 (img lba) →
(entry_count j < ATA_JOURNAL_MAX_ENTRIES)%nat → sequence j < UINT32_MAX →
let j' := record_entry j lba (img lba) buffer in
session j' w img ∧
∀ l, transaction_image j' img l = upd (transaction_image j img) lba buffer l.
Proof using.
intros Hs Htok Hnew Hbytes Hlt Hseq j'.
pose proof (journal_crc32_u32 _ Hbytes) as Hcrc.
pose proof Hs as [(Ht & Hr & He & Hu & Hp) Hen Hg Hc Hsu (c & Hcl & Hhead & Hle & Hlt') Hh Hnd Hent].
destruct (record_entry_fields j lba (img lba) buffer (or_intror Hseq) Hsu)
as (Eu & Ep & Ec & Een & Eg & Et & El & _ & Es). fold j' in Eu, Ep, Ec, Een, Eg, Et, El, Es.
pose proof (record_entry_current j lba (img lba) buffer ltac:(lia)) as Ecur. fold j' in Ecur.
assert (Hcur : length (current j) = entry_count j) by (unfold current; rewrite length_take; lia).
assert (Hs' : session j' w img).
{ split; rewrite ?Een, ?Eg; try done.
- unfold transport_ready in *. unfold ready. unfold transport_ready. rewrite Et.
  split_and!; try done; [by rewrite El|by rewrite Eu, length_insert|by rewrite Ep, length_insert].
- lia.
- rewrite Es. destruct (entry_count j =? 0)%nat; ulia.
- exists c. split_and!; try done; [rewrite Es; destruct (_ =? _)%nat; lia|]. intros _. rewrite Es.
  destruct (entry_count j =? 0)%nat eqn:E0; [lia|]. apply Nat.eqb_neq in E0. specialize (Hlt' E0). lia.
- rewrite Ecur, map_app. apply list.NoDup_app. split_and!; [done| |apply NoDup_singleton].
  intros x Hx ->%list_elem_of_singleton. done.
- intros i target crc. rewrite Ecur. intros Hi. rewrite Eu.
  apply lookup_snoc_Some in Hi as [[Hi Hx]|[Hi Hx]].
  + destruct (Hent i target crc Hx) as (? & ? & ? & Hui). split_and!; try done.
    rewrite list_lookup_insert_ne; [done|lia].
  + simplify_eq. split_and!; try done. rewrite Hcur. apply list_lookup_insert_eq. lia. }
split; [done|]. apply (session_image_unique _ w _ _ Hs'); unfold upd.
- intros l. rewrite Ecur, map_app. cbn [fst map]. rewrite elem_of_app, list_elem_of_singleton. intros Hl.
destruct (Z.eqb_spec l lba) as [->|]; [destruct Hl; by right|].
apply transaction_image_outside. intros ?. apply Hl. by left.
- intros i target crc. rewrite Ecur, Ep. intros Hi. apply lookup_snoc_Some in Hi as [[Hi Hx]|[Hi Hx]].
+ destruct (Z.eqb_spec target lba) as [->|].
  { destruct Hnew. apply list_elem_of_In, in_map_iff. exists (lba, crc). split; [done|].
    apply list_elem_of_In. by eapply list_elem_of_lookup_2. }
  rewrite list_lookup_insert_ne by lia. by eapply session_pending.
+ simplify_eq. rewrite Z.eqb_refl, Hcur. apply list_lookup_insert_eq. lia.
Qed.

(** A read error leaves a stale undo row behind, after the entries. *)
Lemma stale_undo_session j w w' img data :
session j w img → holding w' img [] → session (set_undo j (entry_count j) data) w' img.
Proof using.
intros [(? & ? & He & Hu & ?) ? ? Hc ? ? ? ? Hent] Hh.
split; try done.
- split_and!; try done. cbn. by rewrite length_insert.
- intros i target crc Hi. change (current _) with (current j) in Hi.
destruct (Hent i target crc Hi) as (? & ? & ? & ?). split_and!; try done.
cbn [undo_data set_undo]. rewrite list_lookup_insert_ne; [done|].
apply lookup_lt_Some in Hi. unfold current in Hi. rewrite length_take in Hi. lia.
Qed.

Lemma session_move j w w' img : session j w img → holding w' img [] → session j w' img.
Proof using. by intros [? ? ? ? ? ? ? ? ?] Hh; split. Qed.

Lemma writable_sector lba :
volume_fits → target_ok lba → lba ≠ mirror_lba mounted →
(lba <? volume_start_lba mounted) || (volume_end_lba mounted <=? lba) = false ∧
(header_lba mounted <=? lba) &&
(lba <? u32 (data_lba mounted + Z.of_nat ATA_JOURNAL_MAX_ENTRIES)) || (lba =? mirror_lba mounted) = false.
Proof using.
intros Hfit [Hv Ha] Hm. rewrite (area_end Hfit). cbn [volume_start_lba volume_end_lba mounted] in *.
rewrite !orb_false_iff, andb_false_iff, Z.ltb_ge, !Z.leb_gt, Z.ltb_ge, Z.eqb_neq.
split; [lia|]. split; [|done].
destruct (decide (lba < header_lba mounted)) as [|Hge]; [by left|right].
destruct (decide (data_lba mounted + Z.of_nat ATA_JOURNAL_MAX_ENTRIES <= lba)) as [|Hlt]; [done|].
destruct Ha. left. lia.
Qed.

(** Reading through the journal inside a transaction. *)
Lemma session_read j' w' img l dest :
session j' w' img → transaction_depth j' ≠ 0 →
let '(found_it, data, w'') := ata_undo_journal_read_sector j' w' b l dest m in
session j' w'' img ∧ (alive w' → found_it = true) ∧
(found_it = true → data = transaction_image j' img l).
Proof using DiskLaws0.
intros Hs' Hd. pose proof Hs' as [(Ht & Hr & _) He Hg _ _ _ Hh _ _].
unfold ata_undo_journal_read_sector. rewrite Hr, He, Hg. apply Z.eqb_neq in Hd. rewrite Hd.
cbn [negb andb base is_master mounted]. rewrite Z.eqb_refl, eqb_reflx. cbn [andb].
fold (current j'). pose proof (find_entry_spec l (current j') 0) as Hf.
destruct (find_entry 0 (current j') l) as [i|].
- destruct Hf as (n & crc & -> & Hn). split_and!; [done|done|]. intros _. cbn [Nat.add].
by rewrite (nth_lookup_Some _ _ _ _ (session_pending _ _ _ _ _ _ Hs' Hn)).
- pose proof (read_sector_law j' w' img [] l dest (session_ready _ _ _ Hs') Hh) as Hlaw.
destruct (read_sector j' w' b l dest m) as [[ok data] w'']. destruct Hlaw as (Hh' & Hdata & Hl).
split_and!; [by eapply session_move|by apply Hl|]. intros ->. rewrite Hdata.
by rewrite transaction_image_outside.
Qed.

(** What a write inside a transaction does: the disk keeps its content, the
view changes at one sector or not at all, and reads give the view. *)
Definition write_view (j : ata_undo_journal_t W) (w : W) (img : image) (lba : Z) (buffer : list Z)
(r : bool * ata_undo_journal_t W * W) : Prop :=
let '(ok, j', w') := r in
session j' w' img ∧ transaction_depth j' = transaction_depth j ∧
(∀ l, transaction_image j' img l =
 if ok then upd (transaction_image j img) lba buffer l else transaction_image j img l) ∧
(alive w → ok = true ∧ alive w' ∨
 entry_count j = ATA_JOURNAL_MAX_ENTRIES ∧ lba ∉ map fst (current j)) ∧
∀ l dest, let '(found_it, data, w'') := ata_undo_journal_read_sector j' w' b l dest m in
session j' w'' img ∧ (alive w' → found_it = true) ∧
(found_it = true → data = transaction_image j' img l).

(** C28: inside a transaction a write of a sector of the volume only changes
what the transaction sees.  Nothing is sent to the disk but the read of the
old content; if the call succeeds, reading any sector through the journal
gives the new content at the written sector and elsewhere what it gave
before; a failed call changes nothing.  On a disk that answers it fails
only for the twenty-first sector.  (Sector 0 of a drive is excepted on
volumes without a mirror header: the code takes it for the mirror.) *)
Theorem ata_transaction_view (Hfit : volume_fits) j w img lba buffer
  (Hs : session j w img) (Hdepth : 0 < transaction_depth j) (Htarget : target_ok lba)
  (Hmirror : lba ≠ mirror_lba mounted) (Hbytes : Forall is_u8 (img lba))
  (Hseq : sequence j < UINT32_MAX) :
write_view j w img lba buffer (ata_undo_journal_write_sector j w b lba buffer m).
Proof using DiskLaws0.
assert (Hres : ∀ (ok : bool) j' w', session j' w' img → transaction_depth j' = transaction_depth j →
(∀ l, transaction_image j' img l =
   if ok then upd (transaction_image j img) lba buffer l else transaction_image j img l) →
(alive w → ok = true ∧ alive w' ∨
   entry_count j = ATA_JOURNAL_MAX_ENTRIES ∧ lba ∉ map fst (current j)) →
write_view j w img lba buffer (ok, j', w')).
{ intros ok j' w' Hs' Hd Hi Hl. split_and!; try done. intros l dest. apply session_read; [done|lia]. }
pose proof Hs as [(Ht & Hr & Hel & Hul & _) He Hg Hc Hsu _ Hh _ _].
unfold ata_undo_journal_write_sector. rewrite Hr, He, Hg.
destruct (writable_sector lba Hfit Htarget Hmirror) as [Hin Hout].
cbv zeta. rewrite Hout. cbn [base is_master mounted negb]. rewrite Z.eqb_refl, eqb_reflx.
cbn [negb orb]. cbn [volume_start_lba volume_end_lba mounted] in *. rewrite Hin.
rewrite (proj2 (Z.eqb_neq (transaction_depth j) 0)) by lia. cbn [negb].
fold (current j). pose proof (find_entry_spec lba (current j) 0) as Hf.
destruct (find_entry 0 (current j) lba) as [i|].
- destruct Hf as (n & crc & -> & Hn). cbn [Nat.add].
destruct (overwrite_entry j w img n lba crc buffer Hs Hn) as [Hs' Hi].
apply Hres; [done|done|done|]. intros Ha. by left.
- destruct (Nat.leb_spec ATA_JOURNAL_MAX_ENTRIES (entry_count j)) as [Hfull|Hroom].
{ apply Hres; [done|done|done|]. intros _. right. split; [lia|done]. }
pose proof (read_sector_law j w img [] lba (nth (entry_count j) (undo_data j) [])
  (session_ready _ _ _ Hs) Hh) as Hlaw.
destruct (read_sector j w b lba _ m) as [[ok data] w']. destruct Hlaw as (Hh' & Hdata & Hl).
destruct ok.
+ cbn [apply_writes] in Hdata. subst data.
  pose proof (session_move _ _ _ _ Hs Hh') as Hsw.
  destruct (record_entry_session j w' img lba buffer Hsw Htarget Hf Hbytes Hroom Hseq) as [Hs' Hi].
  destruct (record_entry_fields j lba (img lba) buffer (or_intror Hseq) Hsu)
    as (_ & _ & _ & _ & _ & _ & _ & Ed & Es).
  revert Hs' Hi Ed Es. unfold record_entry. cbn [entry_count set_undo set_entry set_pending].
  destruct (entry_count j =? 0)%nat eqn:E0; intros Hs' Hi Ed Es.
  * match goal with |- context [negb (?s =? 0)] => assert (negb (s =? 0) = true) as -> end.
    { change (negb (u32 (sequence j + 1) =? 0) = true).
      rewrite u32_small by ulia. apply negb_true_iff, Z.eqb_neq. ulia. }
    apply Hres; [done|done|done|]. intros Ha. left. by apply Hl.
  * apply Hres; [done|done|done|]. intros Ha. left. by apply Hl.
+ apply Hres; [by apply (stale_undo_session j w)|done|done|]. intros Ha. by destruct (Hl Ha).
Qed.
End recovery.

(** ** Witnesses: a formatted volume on [PowerDisk] *)
Section example.
Import PowerDisk.

Definition sample_image : image :=
λ l, if (l =? 71) || (l =? 94) then ata_undo_journal_make_clean 5 else repeat 7 512.
Definition sample_disk (p : supply) : power_disk := Power sample_image [] p.
Definition sample_journal : ata_undo_journal_t power_disk :=
Journal true (mounted 496 true 63 2000 32) 5 0 1
(repeat (0, 0) ATA_JOURNAL_MAX_ENTRIES)
(repeat (repeat 0 ATA_JOURNAL_SECTOR_SIZE) ATA_JOURNAL_MAX_ENTRIES)
(repeat (repeat 0 ATA_JOURNAL_SECTOR_SIZE) ATA_JOURNAL_MAX_ENTRIES) (Some (power_transport true)).
Definition sample_writing : ata_undo_journal_t power_disk :=
record_entry sample_journal 200 (sample_image 200) (repeat 9 512).

Lemma sample_fits : volume_fits 63 2000 32.
Proof. unfold volume_fits, UINT32_MAX, ATA_JOURNAL_DATA_OFFSET, ATA_JOURNAL_MAX_ENTRIES. lia. Qed.

Lemma sample_area l : journal_area 496 true 63 2000 32 l → 71 <= l < 92 ∨ l = 94.
Proof. intros [H|[_ H]]; [left|right]; exact H. Qed.

Lemma sample_target : target_ok 496 true 63 2000 32 200.
Proof. split; [lia|]. intros H%sample_area. lia. Qed.

Lemma sample_bytes l : 200 <= l → Forall is_u8 (sample_image l).
Proof.
intros Hl. unfold sample_image. rewrite !(proj2 (Z.eqb_neq l _)) by lia. apply is_bytes_spec. by vm_compute.
Qed.

Lemma sample_session p :
session (power_transport true) 496 true 63 2000 32 sample_journal (sample_disk p) sample_image.
Proof.
assert (clean_record (ata_undo_journal_make_clean 5)) as Hc
by (split; [|split; [|split]]; vm_compute; first [reflexivity|discriminate]).
apply (empty_session _ _ _ _ _ _ _ _ _ (ata_undo_journal_make_clean 5));
[by split_and!|done|done|done|by split|exact Hc|vm_compute; reflexivity|].
intros l Hl. change (l ∈ [71; 94]) in Hl.
rewrite elem_of_cons, list_elem_of_singleton in Hl. by destruct Hl as [->| ->].
Qed.

Lemma sample_writing_session p :
session (power_transport true) 496 true 63 2000 32 sample_writing (sample_disk p) sample_image.
Proof.
eapply record_entry_session; [apply sample_session|apply sample_target| |by apply sample_bytes| |].
- apply not_elem_of_nil.
- by apply Nat.ltb_lt.
- reflexivity.
Qed.

Lemma ata_transaction_view_witness :
write_view (power_transport true) 496 true 63 2000 32 sample_journal (sample_disk Mains)
sample_image 200 (repeat 9 512)
(ata_undo_journal_write_sector sample_journal (sample_disk Mains) 496 200 (repeat 9 512) true).
Proof.
apply (ata_transaction_view (power_transport true) 496 true 63 2000 32 sample_fits sample_journal
(sample_disk Mains) sample_image 200 (repeat 9 512) (sample_session Mains)).
- reflexivity.
- exact sample_target.
- vm_compute. discriminate.
- apply sample_bytes. discriminate.
- reflexivity.
Defined.

Lemma ata_transaction_atomic_witness :
(transaction_end sample_writing (sample_disk Mains) true true).1.1 = true ∧
(transaction_end sample_writing (sample_disk (Battery 7)) true true).1.1 = false ∧
∀ i j2 w2, let w' := (transaction_end sample_writing (sample_disk (Battery 7)) true true).2 in
found (power_transport true) 496 true 63 2000 32 w' i → ready (power_transport true) j2 → transaction_depth j2 = 0 →
holding w2 i [] → alive w2 →
(ata_undo_journal_attach j2 w2 496 true 63 2000 32).1.1 = true.
Proof.
split_and!.
- pose proof (ata_transaction_atomic (power_transport true) 496 true 63 2000 32 sample_fits
  sample_writing (sample_disk Mains) sample_image true (sample_writing_session Mains)
  ltac:(discriminate) eq_refl) as H.
cbv zeta in H. destruct (transaction_end _ _ _ _) as [[ok j'] w']. by destruct H as (H & _); apply H.
- by vm_compute.
- intros i j2 w2. cbv zeta.
pose proof (ata_transaction_atomic (power_transport true) 496 true 63 2000 32 sample_fits
  sample_writing (sample_disk (Battery 7)) sample_image true (sample_writing_session (Battery 7))
  ltac:(discriminate) eq_refl) as H.
cbv zeta in H. destruct (transaction_end _ _ _ _) as [[ok j'] w']. destruct H as (_ & _ & H).
cbn [snd]. intros Hf Hrd Hd Hh Ha. specialize (H i j2 w2 Hf Hrd Hd Hh Ha).
destruct (ata_undo_journal_attach _ _ _ _ _ _ _) as [[ok2 j3] w3]. by destruct H.
Defined.
End example.
