(* ===== verification/AtaAdmission.v ===== *)
(** Admission before effects in the recovery of the ATA undo journal.

    For a volume with arbitrary content: an attach writes only what an
    admitted record plans, and a record is admitted only after every target
    and every undo sector of it has been checked. *)
From S2P Require Import Prelude Crc32 AtaJournal AtaDisk AtaRecovery.
Import AtaJournal.

Section admission.
Context {W : Type} `{!Disk W} (t : ata_journal_transport_t W) (b : Z) (m : bool).
Context `{!DiskLaws W t b m}.
Context (part vol res : Z) (Hfit : volume_fits part vol res).
Context (i : image).

Abbreviation g := (mounted b m part vol res).
Abbreviation placed := (placed t b m part vol res).
Abbreviation target_ok := (target_ok b m part vol res).

Definition undo_sector (k : nat) : list Z := i (data_lba g + Z.of_nat k).

(** Entry [k] of a version-2 record is admissible. *)
Definition entry_admitted (record : list Z) (k : nat) : Prop :=
target_ok (r_target record k) ∧
(∀ prior, (prior < k)%nat → r_target record prior ≠ r_target record k) ∧
journal_crc32 (undo_sector k) = r_data_crc record k.

Definition record_count (record : list Z) : nat := Z.to_nat (r_entry_count record).

Definition admitted (record : list Z) : Prop :=
if r_version record =? 1
then v1_record_valid record = true ∧
   (r_state record = ATA_JOURNAL_ACTIVE →
    target_ok (v1_target record) ∧ journal_crc32 (undo_sector 0) = v1_data_crc32 record)
else record_valid record = true ∧ ∀ k, (k < record_count record)%nat → entry_admitted record k.

(** The writes of a recovery: the undo sectors, the last entry first. *)
Definition plan_pair (record : list Z) (k : nat) : Z * list Z := (r_target record k, undo_sector k).
Definition undo_plan (record : list Z) : list (Z * list Z) :=
if r_version record =? 1
then if r_state record =? ATA_JOURNAL_ACTIVE then [(v1_target record, undo_sector 0)] else []
else rev (map (plan_pair record) (seq 0 (record_count record))).

(** An image after a recovery by this record, finished or not. *)
Definition planned (record : list Z) (s : Z) (i' : image) : Prop :=
admitted record ∧
∀ l, i' l = i l ∨ (l, i' l) ∈ undo_plan record ∨
   l ∈ header_lbas g ∧ i' l = ata_undo_journal_make_clean s.

Lemma plan_prefix record n :
rev (map (plan_pair record) (seq 0 (S n))) =
plan_pair record n :: rev (map (plan_pair record) (seq 0 n)).
Proof using. by rewrite seq_S, map_app, rev_app_distr. Qed.

Lemma admit_any record steps : ∀ index j w,
placed j → holding w i [] → (index + steps <= ATA_JOURNAL_MAX_ENTRIES)%nat →
let '(ok, j', w') := admit_entries steps index j w record in
holding w' i [] ∧ placed j' ∧ sequence j' = sequence j ∧
(ok = true →
 (∀ k, (k < index)%nat → undo_data j' !! k = undo_data j !! k) ∧
 ∀ k, (index <= k < index + steps)%nat →
 entry_admitted record k ∧ undo_data j' !! k = Some (undo_sector k)).
Proof using All.
induction steps as [|steps IH]; intros index j w Hp Hh Hn.
{ cbn [admit_entries]. split_and!; try done. intros _. split; [done|]. intros k Hk. lia. }
cbn [admit_entries]. cbv zeta. pose proof Hp as (Hrd & Hg & Hc). rewrite Hg.
destruct (recovery_target_valid j (r_target record index)) eqn:Et; cbn [negb orb];
[|by split_and!].
apply (recovery_target_ok b m part vol res Hfit) in Et; [|done].
destruct (existsb _ _) eqn:Ex; [by split_and!|].
pose proof (read_sector_law t b m j w i [] (data_lba g + Z.of_nat index)
(nth index (undo_data j) []) Hrd Hh) as Hread.
cbn [base is_master mounted] in *.
destruct (read_sector _ _ _ _ _ _) as [[ok data] w']. destruct Hread as (Hh' & Hd & _).
set (j1 := set_undo j index data).
assert (placed j1) as Hp1.
{ apply (placed_with_undo t b m part vol res j); [done|]. rewrite length_insert. by destruct Hrd as (_&_&_&?&_). }
destruct ok; cbn [andb]; [|by split_and!].
cbn [apply_writes] in Hd. fold (undo_sector index) in Hd. subst data.
destruct (Z.eqb_spec (journal_crc32 (undo_sector index)) (r_data_crc record index)) as [Ecrc|];
[|by split_and!].
specialize (IH (S index) j1 w' Hp1 Hh' ltac:(lia)).
destruct (admit_entries steps (S index) j1 w' record) as [[ok j'] w''].
destruct IH as (Hh'' & Hp' & Hseq & Hres). split_and!; try done. intros Hk.
destruct (Hres Hk) as [Hbefore Hafter]. split.
- intros k Hlt. rewrite Hbefore by lia. apply list_lookup_insert_ne. lia.
- intros k Hlt. destruct (decide (k = index)) as [->|]; [|apply Hafter; lia]. split.
+ split_and!; try done. intros prior Hpr Heq. apply not_true_iff_false in Ex. apply Ex.
  apply existsb_exists. exists prior. split; [apply in_seq; lia|]. by apply Z.eqb_eq.
+ rewrite Hbefore by lia. apply list_lookup_insert_eq. destruct Hrd as (_&_&_&->&_). lia.
Qed.

Lemma restore_any record n : ∀ j w,
placed j → (∀ k, (k < n)%nat → undo_data j !! k = Some (undo_sector k)) →
restore_entries n j w record =
write_all (λ w lba data, write_sector j w b lba data m) w
  (rev (map (plan_pair record) (seq 0 n))).
Proof using.
induction n as [|n IH]; intros j w Hp Hu; [done|].
rewrite plan_prefix. cbn [restore_entries write_all plan_pair]. cbv zeta.
pose proof Hp as (Hrd & Hg & Hc). rewrite Hg. cbn [base is_master mounted].
rewrite (nth_lookup_Some _ _ _ _ (Hu n ltac:(lia))).
destruct (write_sector j w b _ _ m) as [[] w']; [|done]. apply IH; [done|]. intros k Hk. apply Hu. lia.
Qed.

(** Images between the plan and the CLEAN record. *)
Lemma planned_mixed record s i' :
admitted record → mixed i (undo_plan record) i' → planned record s i'.
Proof using. intros Ha Hm. split; [done|]. intros l. destruct (Hm l); auto. Qed.

Lemma planned_clean record s i' :
admitted record →
mixed (apply_writes i (undo_plan record)) (record_writes g (ata_undo_journal_make_clean s)) i' →
planned record s i'.
Proof using.
intros Ha Hm. split; [done|]. intros l. destruct (Hm l) as [->|Hin].
- destruct (apply_writes_mixed i (undo_plan record) l); auto.
- apply record_writes_elem in Hin. auto.
Qed.

(** After a call: the volume untouched, or a plan carried out. *)
Definition untouched_or_planned (r : bool * ata_undo_journal_t W * W) : Prop :=
∀ i', crash_image r.2 i' → (∀ l, i' l = i l) ∨
∃ record s, (record = i (header_lba g) ∨ record = i (mirror_lba g)) ∧ planned record s i'.

Lemma held w ws img i' : holding w img ws → crash_image w i' → mixed img ws i'.
Proof using DiskLaws0. intros Hh. by apply (holding_crash (t := t) (b := b) (m := m)). Qed.

Lemma held_untouched w i' : holding w i [] → crash_image w i' → ∀ l, i' l = i l.
Proof using DiskLaws0.
intros Hh Hc l. destruct (held w [] i i' Hh Hc l) as [?|Hin]; [done|by apply elem_of_nil in Hin].
Qed.

Lemma untouched w ok j : holding w i [] → untouched_or_planned (ok, j, w).
Proof using DiskLaws0. intros Hh i' Hc. left. by apply (held_untouched w). Qed.

Lemma stored_mixed ws img r i' : stored img ws r → crash_image r.2 i' → mixed img ws i'.
Proof using DiskLaws0.
unfold stored. destruct r as [[] w]; cbn [fst snd]; [|auto]. intros Hh Hc l.
destruct (held w [] _ i' Hh Hc l) as [->|Hin]; [apply apply_writes_mixed|by apply elem_of_nil in Hin].
Qed.

(** The last two steps of a recovery: the plan, then the CLEAN record. *)
Lemma carried_out record j r :
(record = i (header_lba g) ∨ record = i (mirror_lba g)) → admitted record → placed j →
stored i (undo_plan record) r →
untouched_or_planned
(let '(result, w) := if r.1 then clear_journal j r.2 false else (false, r.2) in (result, j, w)).
Proof using All.
intros Hrec Ha Hp Hst. destruct r as [[] w']; cbn [fst snd] in *.
- pose proof (write_record_stored t b m j (placed_on_drive t b m part vol res j Hp) w'
  _ (ata_undo_journal_make_clean (sequence j)) false ltac:(done) Hst) as [Hs _].
rewrite barrier_false in Hs. unfold clear_journal. destruct Hp as (_ & Hg & _).
intros i' Hc. right. exists record, (sequence j). split; [done|].
apply planned_clean; [done|]. rewrite Hg in Hs. apply (stored_mixed _ _ _ i' Hs).
by destruct (write_record j w' _ false).
- intros i' Hc. right. exists record, 0. split; [done|]. apply planned_mixed; [done|]. by apply Hst.
Qed.

Lemma recover_v1_planned record j w :
(record = i (header_lba g) ∨ record = i (mirror_lba g)) → placed j → holding w i [] →
r_version record = 1 → v1_record_valid record = true →
untouched_or_planned (recover_v1 j w record).
Proof using All.
intros Hrec Hp Hh Hv Hval. unfold recover_v1. cbv zeta.
pose proof (placed_sequence t b m part vol res j (v1_sequence record) Hp) as Hp1.
set (j1 := set_sequence j (v1_sequence record)) in *. pose proof Hp as (Hrd & Hg & _).
rewrite Hg. cbn [base is_master data_lba mounted].
assert (Hplan : undo_plan record =
if r_state record =? ATA_JOURNAL_ACTIVE then [(v1_target record, undo_sector 0)] else [])
by (unfold undo_plan; by rewrite Hv).
assert (Hadm : (r_state record = ATA_JOURNAL_ACTIVE →
target_ok (v1_target record) ∧ journal_crc32 (undo_sector 0) = v1_data_crc32 record) →
admitted record) by (intros ?; unfold admitted; rewrite Hv; by split).
destruct (Z.eqb_spec (r_state record) ATA_JOURNAL_ACTIVE) as [Ea|Ea].
- destruct (recovery_target_valid j1 (v1_target record)) eqn:Et; cbn [negb];
  [|by apply untouched].
apply (recovery_target_ok b m part vol res Hfit) in Et; [|by destruct Hp1 as (_ & ? & _)].
pose proof (read_sector_law t b m j1 w i [] (data_lba g) (repeat 0 ATA_JOURNAL_SECTOR_SIZE)
  (proj1 Hp1) Hh) as Hread. cbn [data_lba mounted] in Hread.
destruct (read_sector j1 w b _ _ m) as [[ok data] w']. destruct Hread as (Hh' & Hd & _).
destruct ok; cbn [andb negb]; [|by apply untouched].
assert (data = undo_sector 0) as ->.
{ rewrite Hd. unfold undo_sector. cbn [apply_writes data_lba mounted]. f_equal. lia. }
destruct (Z.eqb_spec (journal_crc32 (undo_sector 0)) (v1_data_crc32 record)) as [Ec|];
  cbn [negb]; [|by apply untouched].
destruct (write_sector_stored t b m j1 (placed_on_drive t b m part vol res j1 Hp1) w' i
  (v1_target record) (undo_sector 0) Hh') as [Hst _].
rewrite <- Hplan in Hst.
pose proof (carried_out record j1 _ Hrec (Hadm (λ _, conj Et Ec)) Hp1 Hst) as Hout.
by destruct (write_sector j1 w' b _ _ m) as [[] ?].
- apply (carried_out record j1 (true, w)); try done; [by apply Hadm|]. by rewrite Hplan.
Qed.

Lemma recover_v2_planned record j w repair :
(record = i (header_lba g) ∨ record = i (mirror_lba g)) → placed j → holding w i [] →
r_version record ≠ 1 → untouched_or_planned (recover_v2 j w record repair).
Proof using All.
intros Hrec Hp Hh Hv. unfold recover_v2. cbv zeta.
pose proof (placed_sequence t b m part vol res j (r_sequence record) Hp) as Hp1.
set (j1 := set_sequence j (r_sequence record)) in *.
destruct (record_valid record) eqn:Hval; cbn [negb]; [|by apply untouched].
fold (record_count record).
assert (record_count record <= ATA_JOURNAL_MAX_ENTRIES)%nat as Hmax.
{ unfold record_valid in Hval. rewrite !andb_true_iff, Z.leb_le in Hval.
destruct Hval as [[[[[? ?] ?] ?] ?] ?]. unfold record_count. lia. }
pose proof (admit_any record (record_count record) 0 j1 w Hp1 Hh ltac:(lia)) as Hadmit.
destruct (admit_entries _ _ _ _ _) as [[ok j2] w2]. destruct Hadmit as (Hh2 & Hp2 & Hseq & Hres).
destruct ok; cbn [negb]; [|by apply untouched].
destruct (Hres eq_refl) as [_ Hall].
assert (Ha : admitted record).
{ unfold admitted. rewrite (proj2 (Z.eqb_neq _ _) Hv). split; [done|]. intros k Hk. apply Hall. lia. }
assert (Hplan : undo_plan record = rev (map (plan_pair record) (seq 0 (record_count record)))).
{ unfold undo_plan. by rewrite (proj2 (Z.eqb_neq _ _) Hv). }
rewrite restore_any by (try done; intros k Hk; apply Hall; lia).
rewrite <- Hplan.
pose proof (write_all_stored (λ w lba data, write_sector j2 w b lba data m)
(λ w img lba d, write_sector_stored t b m j2 (placed_on_drive t b m part vol res j2 Hp2) w img lba d)
(undo_plan record) w2 i Hh2) as [Hst _].
pose proof (carried_out record j2 _ Hrec Ha Hp2 Hst) as Hout.
destruct (write_all _ _ _) as [[] w3]; cbn [negb fst snd] in *; [|done].
destruct ((r_state record =? ATA_JOURNAL_ACTIVE) || repair); [done|].
intros i' Hc. right. exists record, 0. split; [done|]. apply planned_mixed; [done|].
by apply (stored_mixed _ _ (true, w3)).
Qed.

(** The header that is followed was read and is valid. *)
Lemma choose_source primary mirror pv mv mp record repair :
choose_header primary mirror pv mv mp = Some (record, repair) →
(record = primary ∧ pv = true) ∨ (record = mirror ∧ mv = true).
Proof using.
unfold choose_header. destruct pv, mv; cbn [negb andb orb]; intros Heq.
- destruct (r_version primary =? ATA_JOURNAL_VERSION); cbn [negb] in Heq;
  [|injection Heq as <- _; by right].
destruct (r_sequence mirror <? r_sequence primary); [injection Heq as <- _; by left|].
destruct (r_sequence primary <? r_sequence mirror); [injection Heq as <- _; by right|].
destruct (negb (r_state primary =? r_state mirror)).
+ injection Heq as <- _. destruct (_ =? _); [by left|by right].
+ destruct (negb _); [done|]. injection Heq as <- _. by left.
- injection Heq as <- _. by left.
- injection Heq as <- _. by right.
- done.
Qed.

(** C34: an attach writes only what an admitted record plans.  On a drive of
any content, and wherever a command fails, afterwards either no sector has
changed, or one of the two header sectors holds a record that is valid and
all of whose entries are admissible (targets in the volume, outside the
journal and distinct, undo sectors with the recorded checksums), every
changed sector other than the headers is a target of this record and holds
its undo sector, and a changed header holds a CLEAN record. *)
Theorem ata_attach_admits j w
  (Hready : ready t j) (Hdepth : transaction_depth j = 0) (Hholding : holding w i []) :
∀ i', crash_image (ata_undo_journal_attach j w b m part vol res).2 i' →
(∀ l, i' l = i l) ∨
∃ record s, (record = i (header_lba g) ∨ record = i (mirror_lba g)) ∧ planned record s i'.
Proof using All.
fold (untouched_or_planned (ata_undo_journal_attach j w b m part vol res)).
rewrite (attach_reads t b m part vol res Hfit) by done. cbv zeta.
set (j1 := set_enabled j false).
assert (Hrd1 : ready t j1) by by destruct Hready as (?&?&?&?&?). clearbody j1.
set (zeros := repeat 0 ATA_JOURNAL_SECTOR_SIZE).
pose proof (read_sector_law t b m j1 w i [] (header_lba g) zeros Hrd1 Hholding) as Hread1.
destruct (read_sector j1 w b _ zeros m) as [[ok1 primary] w1]. destruct Hread1 as (Hh1 & Hp & _).
assert (∃ ok2 mirror w2, (if negb (mirror_lba g =? 0) then read_sector j1 w1 b (mirror_lba g) zeros m
  else (false, zeros, w1)) = (ok2, mirror, w2) ∧ holding w2 i [] ∧
  (ok2 = true → mirror = i (mirror_lba g))) as (ok2 & mirror & w2 & -> & Hh2 & Hm).
{ destruct (negb (mirror_lba g =? 0)); [|by do 3 eexists].
pose proof (read_sector_law t b m j1 w1 i [] (mirror_lba g) zeros Hrd1 Hh1) as Hread2.
destruct (read_sector j1 w1 b _ zeros m) as [[ok2 mirror] w2]. destruct Hread2 as (? & Hm & _).
do 3 eexists. split_and!; try done. by intros ->. }
unfold attach_read. cbv zeta. destruct (negb _ && negb _); [by apply untouched|].
destruct (choose_header _ _ _ _ _) as [[record repair]|] eqn:Ec; [|by apply untouched].
assert (Hrec : (record = i (header_lba g) ∨ record = i (mirror_lba g)) ∧
(r_version record = 1 → v1_record_valid record = true)).
{ apply choose_source in Ec as [[-> Hv]|[-> Hv]]; rewrite !andb_true_iff in Hv.
- destruct Hv as [[-> _] Hv]. split; [left; exact Hp|]. intros E. by rewrite E in Hv.
- destruct Hv as [[[Hok _] Hver] _]. split; [right; by apply Hm|]. intros E. by rewrite E in Hver. }
destruct Hrec as [Hrec Hv1]. pose proof (attached_placed t b m part vol res j1 Hrd1) as Hpl.
assert (Hout : untouched_or_planned (if r_version record =? 1
then recover_v1 (attached_journal b m part vol res j1) w2 record
else recover_v2 (attached_journal b m part vol res j1) w2 record repair)).
{ destruct (Z.eqb_spec (r_version record) 1) as [E|E].
- apply recover_v1_planned; auto.
- by apply recover_v2_planned. }
by destruct (if r_version record =? 1 then _ else _) as [[ok j'] w'].
Qed.
End admission.

Section example.
Import PowerDisk.

(** A volume whose two headers carry different records of one sequence. *)
Definition conflicting_image : image :=
λ l, if l =? 71 then seal_record (unsealed_record ATA_JOURNAL_ACTIVE 5 [(200, 1)])
   else if l =? 94 then seal_record (unsealed_record ATA_JOURNAL_ACTIVE 5 [(201, 1)])
   else repeat 7 512.

Lemma ata_attach_admits_witness :
(ata_undo_journal_attach (ata_undo_journal_init (Some (power_transport true)))
(Power conflicting_image [] Mains) 496 true 63 2000 32).1.1 = false ∧
∀ i', crash_image (ata_undo_journal_attach (ata_undo_journal_init (Some (power_transport true)))
(Power conflicting_image [] Mains) 496 true 63 2000 32).2 i' →
(∀ l, i' l = conflicting_image l) ∨
∃ record s, (record = conflicting_image 71 ∨ record = conflicting_image 94) ∧
  planned 496 true 63 2000 32 conflicting_image record s i'.
Proof.
split; [vm_compute; reflexivity|].
apply (ata_attach_admits (power_transport true) 496 true 63 2000 32 sample_fits conflicting_image).
- by split_and!.
- reflexivity.
- by split.
Defined.
End example.
