(* ===== verification/FileObjectGuard.v ===== *)
(** File object guard: src/kernel/init/file_object_guard.c,
    src/include/kernel/file_object_guard.h and the request structs of
    src/include/reist/abi/syscall.h.

    [Module FileObjectGuard] holds every function of the C file.  A locked
    body is a [prog]: the reads and writes of the protected records in program
    order, with [Fail] for the error that the C code carries to its exit
    and [Poison] for [guard_poison]; [run] executes it over any protected
    store.  Each entry point checks its arguments, takes the lock, runs its
    body and releases the lock.  Pointers are references; an output is
    delivered only by a successful call (the zeros some calls leave on refusal
    are not modelled).  Signed process ids and the twelve alias bytes are kept
    as the numbers of their memory images.  The structs have no padding on the
    i386 target. *)
From S2P Require Import Prelude ProtectedStore.
From S2P Require Import Layout ProtectedRecord CriticalObject OwnedStore.

Module FileObjectGuard.

Definition REIST_EIO : Z := -5.
Definition REIST_EAGAIN : Z := -11.
Definition REIST_EACCES : Z := -13.
Definition REIST_EBUSY : Z := -16.
Definition REIST_EINVAL : Z := -22.
Definition REIST_EMFILE : Z := -24.
Definition REIST_ENOSPC : Z := -28.
Definition REIST_EOVERFLOW : Z := -75.
Definition REIST_ESTALE : Z := -116.
Definition GUARD_ETIMEDOUT : Z := -110.

Definition FILE_OBJECT_GUARD_CAPACITY : Z := 16.
Definition FILE_OBJECT_GUARD_PER_CLIENT : Z := 4.
Definition FILE_OBJECT_GUARD_RESOURCES : Z := 32.
Definition FILE_OBJECT_GUARD_MAX_MS : Z := 5000.
Definition FILE_OBJECT_GUARD_GENERATION_MAX : Z := 0x00ffffff.
Definition FILE_OBJECT_GUARD_REPAIR_MODE : Z := 4.
Definition GUARD_INITIALIZED : Z := 0x4f424a47.
Definition FILE_OBJECT_JOURNAL_CHECK : Z := 0.
Definition FILE_OBJECT_JOURNAL_WRITE : Z := 1.
Definition FILE_OBJECT_JOURNAL_FLUSHED : Z := 2.

Definition REIST_FILE_OBJECT_VERSION : Z := 1.
Definition REIST_FILE_OBJECT_OWNED_VERSION : Z := 2.
Definition REIST_FILE_OBJECT_FAT12 : Z := 1.
Definition REIST_FILE_OBJECT_FAT32 : Z := 2.
Definition REIST_FILE_OBJECT_EXT2 : Z := 3.
Definition REIST_FILE_OBJECT_SNAPSHOT : Z := 1.
Definition REIST_FILE_OBJECT_PIN : Z := 2.
Definition REIST_FILE_OBJECT_RELEASE : Z := 3.
Definition REIST_FILE_OBJECT_MUTATION_BEGIN : Z := 4.
Definition REIST_FILE_OBJECT_MUTATION_END : Z := 5.
Definition REIST_FILE_OBJECT_VERIFY : Z := 6.
Definition REIST_FILE_OBJECT_EXCLUSIVE : Z := 1.
Definition REIST_FILE_OBJECT_EXTERNAL_JOURNAL : Z := 2.
Definition REIST_FILE_OBJECT_NO_EFFECT : Z := 1.
Definition REIST_FILE_OBJECT_DURABLE_COMMIT : Z := 2.
Definition REIST_FILE_OBJECT_UNKNOWN : Z := 3.
Definition REIST_STORAGE_JOURNAL_VERSION : Z := 1.
Definition REIST_STORAGE_JOURNAL_READ : Z := 1.
Definition REIST_STORAGE_JOURNAL_WRITE_DEFERRED : Z := 2.
Definition REIST_STORAGE_JOURNAL_FLUSH : Z := 3.
Definition REIST_STORAGE_JOURNAL_MAX_SECTORS : Z := 256.

(** ** Data *)
Record reist_file_object_key_t := Key {
  kind : Z;
  resource : Z;
  object_a : Z;
  object_b : Z;
  alias : Z;
  key_reserved : Z
}.

Record file_object_owner_t := Owner { pid : Z; generation : Z }.

Record guard_pin_t := Pin {
  p_key : reist_file_object_key_t;
  p_service : file_object_owner_t;
  p_client : file_object_owner_t;
  p_generation : Z;
  p_media_generation : Z;
  p_active : Z
}.

Record guard_control_t := Control {
  epoch : Z;
  deadline_ms : Z;
  owner : file_object_owner_t;
  c_generation : Z;
  c_resource : Z;
  active : Z;
  fenced : Z;
  mode : Z;
  attempted : Z;
  pending : Z;
  borrowed_pin : Z;
  request_handle : Z
}.

Record guard_media_t := Media { m_generation : Z }.

#[export] Instance key_eq : EqDecision reist_file_object_key_t.
Proof. solve_decision. Defined.
#[export] Instance owner_eq : EqDecision file_object_owner_t.
Proof. solve_decision. Defined.

Definition zero_key : reist_file_object_key_t := Key 0 0 0 0 0 0.
Definition zero_owner : file_object_owner_t := Owner 0 0.
Definition zero_pin : guard_pin_t := Pin zero_key zero_owner zero_owner 0 0 0.
Definition zero_control : guard_control_t := Control 0 0 zero_owner 0 0 0 0 0 0 0 0 0.

#[export] Instance pin_layout : Layout guard_pin_t := {
  layout_widths := [4; 4; 4; 4; 12; 4; 4; 4; 4; 4; 4; 4; 4]%nat;
  layout_values p :=
    [kind (p_key p); resource (p_key p); object_a (p_key p); object_b (p_key p);
     alias (p_key p); key_reserved (p_key p); pid (p_service p); generation (p_service p);
     pid (p_client p); generation (p_client p); p_generation p; p_media_generation p;
     p_active p];
  layout_record l :=
    match l with
    | [k; r; a; b; al; kr; sp; sg; cp; cg; g; mg; ac] =>
        Pin (Key k r a b al kr) (Owner sp sg) (Owner cp cg) g mg ac
    | _ => zero_pin
    end
}.

#[export] Instance control_layout : Layout guard_control_t := {
  layout_widths := [8; 8; 4; 4; 4; 4; 4; 4; 4; 4; 4; 4; 4]%nat;
  layout_values c :=
    [epoch c; deadline_ms c; pid (owner c); generation (owner c); c_generation c;
     c_resource c; active c; fenced c; mode c; attempted c; pending c; borrowed_pin c;
     request_handle c];
  layout_record l :=
    match l with
    | [e; d; op; og; g; r; a; f; m; at_; p; b; q] =>
        Control e d (Owner op og) g r a f m at_ p b q
    | _ => zero_control
    end
}.

#[export] Instance media_layout : Layout guard_media_t := {
  layout_widths := [4]%nat;
  layout_values m := [m_generation m];
  layout_record l := match l with [g] => Media g | _ => Media 0 end
}.

(** ** Validation *)
Definition guard_owner_valid (o : file_object_owner_t) : bool :=
  (0 <? s32 (pid o)) && negb (generation o =? 0).

Definition guard_same_owner (a b : file_object_owner_t) : bool :=
  (pid a =? pid b) && (generation a =? generation b).

Definition same_key (a b : reist_file_object_key_t) : bool := bool_decide (a = b).

Definition alias_bytes (key : reist_file_object_key_t) : list Z := le_bytes 12 (alias key).
Definition alias_at (key : reist_file_object_key_t) (i : nat) : Z := nth i (alias_bytes key) 0.

Definition file_object_guard_key_valid (key : reist_file_object_key_t) : bool :=
  if (FILE_OBJECT_GUARD_RESOURCES <=? resource key) || negb (key_reserved key =? 0) then false
  else
    let aliases := foldl Z.lor 0 (alias_bytes key) in
    if kind key =? REIST_FILE_OBJECT_FAT12 then
      negb (object_a key =? 0) && (object_b key <=? 480) &&
      (Z.land (object_b key) 31 =? 0) && (aliases =? 0)
    else if kind key =? REIST_FILE_OBJECT_FAT32 then
      if existsb (λ i, alias_at key i =? 0) (seq 0 11) then false
      else
        (2 <=? object_a key) && (object_a key <? 0x0ffffff0) && (object_b key =? 0) &&
        negb (alias_at key 0 =? 0) && negb (alias_at key 0 =? 0xe5) && (alias_at key 11 =? 0)
    else if kind key =? REIST_FILE_OBJECT_EXT2 then
      negb (object_a key =? 0) && (object_b key =? 0) && (aliases =? 0)
    else false.

Definition token_generation (token : Z) : Z := Z.shiftr token 8.
Definition token_slot (token : Z) : Z := Z.land token 255.
Definition make_token (gen : Z) (slot : nat) : Z := Z.lor (Z.shiftl gen 8) (Z.of_nat slot + 1).

Definition fence_bit (mask r : Z) : bool := negb (Z.land mask (Z.shiftl 1 r) =? 0).

Definition pin_ok (pin : guard_pin_t) : bool :=
  if (1 <? p_active pin) || (FILE_OBJECT_GUARD_GENERATION_MAX <? p_generation pin) then false
  else if negb (p_active pin =? 0) then
    negb (p_generation pin =? 0) && negb (p_media_generation pin =? 0) &&
    guard_owner_valid (p_service pin) && guard_owner_valid (p_client pin) &&
    file_object_guard_key_valid (p_key pin)
  else if negb (same_key (p_key pin) zero_key) || negb (p_media_generation pin =? 0) then false
  else if p_generation pin =? 0 then
    (pid (p_service pin) =? 0) && (generation (p_service pin) =? 0) &&
    (pid (p_client pin) =? 0) && (generation (p_client pin) =? 0)
  else guard_owner_valid (p_service pin) && guard_owner_valid (p_client pin).

Definition control_ok (c : guard_control_t) : bool :=
  if (epoch c =? 0) || (1 <? active c) || (1 <? attempted c) || (attempted c <? pending c) ||
     (negb (mode c =? 0) && negb (mode c =? REIST_FILE_OBJECT_EXTERNAL_JOURNAL) &&
      negb (mode c =? FILE_OBJECT_GUARD_REPAIR_MODE)) ||
     ((mode c =? FILE_OBJECT_GUARD_REPAIR_MODE) &&
      ((FILE_OBJECT_GUARD_RESOURCES <=? c_resource c) || negb (borrowed_pin c =? 0) ||
       negb (request_handle c =? 0) || negb (fence_bit (fenced c) (c_resource c)))) ||
     ((mode c =? 0) &&
      (negb (attempted c =? 0) || negb (pending c =? 0) || negb (borrowed_pin c =? 0))) ||
     negb (Bool.eqb (negb (borrowed_pin c =? 0)) (negb (request_handle c =? 0))) ||
     (negb (borrowed_pin c =? 0) &&
      ((token_generation (borrowed_pin c) =? 0) || (token_slot (borrowed_pin c) =? 0) ||
       (FILE_OBJECT_GUARD_CAPACITY <? token_slot (borrowed_pin c))))
  then false
  else if active c =? 0 then
    (deadline_ms c =? 0) && (pid (owner c) =? 0) && (generation (owner c) =? 0) &&
    (c_resource c =? 0) && (mode c =? 0) && (attempted c =? 0) && (pending c =? 0) &&
    (borrowed_pin c =? 0) && (request_handle c =? 0)
  else
    guard_owner_valid (owner c) && negb (c_generation c =? 0) && negb (deadline_ms c =? 0) &&
    (c_resource c <? FILE_OBJECT_GUARD_RESOURCES).

Definition media_ok (m : guard_media_t) : bool := negb (m_generation m =? 0).

(** ** Requests from user space *)
Record reist_file_object_guard_request_t := Request {
  q_version : Z;
  q_struct_size : Z;
  q_operation : Z;
  q_flags : Z;
  q_key0 : reist_file_object_key_t;
  q_key1 : reist_file_object_key_t;
  q_epoch : Z;
  q_deadline_ms : Z;
  q_token : Z;
  q_client_pid : Z;
  q_client_generation : Z;
  q_reserved : Z
}.

Record reist_file_object_owned_request_t := OwnedRequest {
  o_base : reist_file_object_guard_request_t;
  o_pin : Z;
  o_request : Z;
  o_reserved0 : Z;
  o_reserved1 : Z
}.

Record reist_storage_journal_request_t := JournalRequest {
  jr_version : Z;
  jr_struct_size : Z;
  jr_operation : Z;
  jr_token : Z;
  jr_resource : Z;
  jr_sector : Z;
  jr_count : Z;
  jr_reserved : Z
}.

Definition guard_request_size : Z := 112.
Definition owned_request_size : Z := 128.
Definition journal_request_size : Z := 32.

Definition file_object_guard_request_valid (request : reist_file_object_guard_request_t) : bool :=
  if negb (q_version request =? REIST_FILE_OBJECT_VERSION) ||
     negb (q_struct_size request =? guard_request_size) || negb (q_reserved request =? 0)
  then false
  else
    let first_empty := same_key (q_key0 request) zero_key in
    let second_empty := same_key (q_key1 request) zero_key in
    let client_empty := (q_client_pid request =? 0) && (q_client_generation request =? 0) in
    let client_valid := (0 <? s32 (q_client_pid request)) && negb (q_client_generation request =? 0) in
    let op := q_operation request in
    let flags := q_flags request in
    let flag bit := negb (Z.land flags bit =? 0) in
    if op =? REIST_FILE_OBJECT_SNAPSHOT then
      first_empty && second_empty && client_empty && (flags =? 0) && (q_epoch request =? 0) &&
      (q_deadline_ms request =? 0) && (q_token request =? 0)
    else if op =? REIST_FILE_OBJECT_PIN then
      file_object_guard_key_valid (q_key0 request) && second_empty && client_valid &&
      (flags =? 0) && negb (q_epoch request =? 0) && (q_deadline_ms request =? 0) &&
      (q_token request =? 0)
    else if (op =? REIST_FILE_OBJECT_RELEASE) || (op =? REIST_FILE_OBJECT_VERIFY) then
      first_empty && second_empty && client_valid && (flags =? 0) && (q_epoch request =? 0) &&
      (q_deadline_ms request =? 0) && negb (token_generation (q_token request) =? 0) &&
      (1 <=? token_slot (q_token request)) &&
      (token_slot (q_token request) <=? FILE_OBJECT_GUARD_CAPACITY)
    else if op =? REIST_FILE_OBJECT_MUTATION_BEGIN then
      file_object_guard_key_valid (q_key0 request) &&
      (second_empty ||
       (file_object_guard_key_valid (q_key1 request) &&
        (kind (q_key1 request) =? kind (q_key0 request)) &&
        (resource (q_key1 request) =? resource (q_key0 request)))) &&
      client_empty &&
      (Z.land flags (Z.lnot (Z.lor REIST_FILE_OBJECT_EXCLUSIVE REIST_FILE_OBJECT_EXTERNAL_JOURNAL)) =? 0) &&
      (negb (flag REIST_FILE_OBJECT_EXTERNAL_JOURNAL) ||
       (flag REIST_FILE_OBJECT_EXCLUSIVE && second_empty &&
        (kind (q_key0 request) =? REIST_FILE_OBJECT_FAT32))) &&
      negb (q_epoch request =? 0) && negb (q_deadline_ms request =? 0) && (q_token request =? 0)
    else if op =? REIST_FILE_OBJECT_MUTATION_END then
      first_empty && second_empty && client_empty && (REIST_FILE_OBJECT_NO_EFFECT <=? flags) &&
      (flags <=? REIST_FILE_OBJECT_UNKNOWN) && (q_epoch request =? 0) &&
      (q_deadline_ms request =? 0) && negb (q_token request =? 0)
    else false.

Definition file_object_guard_owned_valid (request : reist_file_object_owned_request_t) : bool :=
  let base := o_base request in
  if negb (q_version base =? REIST_FILE_OBJECT_OWNED_VERSION) ||
     negb (q_struct_size base =? owned_request_size) || negb (o_reserved0 request =? 0) ||
     negb (o_reserved1 request =? 0) || (s32 (q_client_pid base) <=? 0) ||
     (q_client_generation base =? 0) || (o_request request =? 0) ||
     (token_generation (o_pin request) =? 0) || (token_slot (o_pin request) =? 0) ||
     (FILE_OBJECT_GUARD_CAPACITY <? token_slot (o_pin request)) ||
     negb (q_operation base =? REIST_FILE_OBJECT_MUTATION_BEGIN) ||
     negb (q_flags base =? Z.lor REIST_FILE_OBJECT_EXCLUSIVE REIST_FILE_OBJECT_EXTERNAL_JOURNAL)
  then false
  else
    file_object_guard_request_valid
      (Request REIST_FILE_OBJECT_VERSION guard_request_size (q_operation base) (q_flags base)
         (q_key0 base) (q_key1 base) (q_epoch base) (q_deadline_ms base) (q_token base) 0 0
         (q_reserved base)).

Definition file_object_guard_journal_request_valid (request : reist_storage_journal_request_t)
    : bool :=
  if negb (jr_version request =? REIST_STORAGE_JOURNAL_VERSION) ||
     negb (jr_struct_size request =? journal_request_size) || (jr_token request =? 0) ||
     (FILE_OBJECT_GUARD_RESOURCES <=? jr_resource request) || negb (jr_reserved request =? 0)
  then false
  else if jr_operation request =? REIST_STORAGE_JOURNAL_FLUSH
  then (jr_sector request =? 0) && (jr_count request =? 0)
  else
    ((jr_operation request =? REIST_STORAGE_JOURNAL_READ) ||
     (jr_operation request =? REIST_STORAGE_JOURNAL_WRITE_DEFERRED)) &&
    negb (jr_count request =? 0) && (jr_count request <=? REIST_STORAGE_JOURNAL_MAX_SECTORS) &&
    (jr_sector request <=? UINT32_MAX - u32 (jr_count request - 1)).

(** ** Locked bodies *)
Inductive prog (X : Type) :=
| Ret (x : X)
| Fail (error : Z)
| Poison
| ReadControl (k : guard_control_t → prog X)
| WriteControl (c : guard_control_t) (k : prog X)
| ReadPin (i : nat) (k : guard_pin_t → prog X)
| WritePin (i : nat) (p : guard_pin_t) (k : prog X)
| ReadMedia (i : nat) (k : guard_media_t → prog X)
| WriteMedia (i : nat) (m : guard_media_t) (k : prog X).
#[global] Arguments Ret {X}.
#[global] Arguments Fail {X}.
#[global] Arguments Poison {X}.
#[global] Arguments ReadControl {X}.
#[global] Arguments WriteControl {X}.
#[global] Arguments ReadPin {X}.
#[global] Arguments WritePin {X}.
#[global] Arguments ReadMedia {X}.
#[global] Arguments WriteMedia {X}.

Fixpoint bind {X Y} (p : prog X) (f : X → prog Y) : prog Y :=
  match p with
  | Ret x => f x
  | Fail e => Fail e
  | Poison => Poison
  | ReadControl k => ReadControl (λ c, bind (k c) f)
  | WriteControl c k => WriteControl c (bind k f)
  | ReadPin i k => ReadPin i (λ p, bind (k p) f)
  | WritePin i p k => WritePin i p (bind k f)
  | ReadMedia i k => ReadMedia i (λ m, bind (k m) f)
  | WriteMedia i m k => WriteMedia i m (bind k f)
  end.

Declare Scope guard_scope.
Notation "x <- p ;; q" := (bind p (λ x, q)) (at level 100, p at next level, right associativity) : guard_scope.
Notation "p ;;; q" := (bind p (λ _, q)) (at level 100, right associativity) : guard_scope.
Local Open Scope guard_scope.

Definition control_read : prog guard_control_t := ReadControl Ret.
Definition control_write (c : guard_control_t) : prog unit := WriteControl c (Ret tt).
Definition pin_read (i : nat) : prog guard_pin_t := ReadPin i Ret.
Definition pin_write (i : nat) (p : guard_pin_t) : prog unit := WritePin i p (Ret tt).
Definition media_read (i : Z) : prog guard_media_t := ReadMedia (Z.to_nat i) Ret.
Definition media_write (i : Z) (m : guard_media_t) : prog unit := WriteMedia (Z.to_nat i) m (Ret tt).

(** [if (!result && cond) result = error;] *)
Definition fail_if (cond : bool) (error : Z) : prog unit := if cond then Fail error else Ret tt.
Definition poison_if (cond : bool) : prog unit := if cond then Poison else Ret tt.

(** A loop over the pin slots with an accumulator. *)
Fixpoint for_pins {Acc} (slots : list nat) (body : nat → guard_pin_t → Acc → prog Acc) (acc : Acc)
    : prog Acc :=
  match slots with
  | [] => Ret acc
  | i :: slots =>
      pin <- pin_read i;;
      acc <- body i pin acc;;
      for_pins slots body acc
  end.

Definition all_slots : list nat := seq 0 16.

(** ** Reservation control *)
Definition retired (c : guard_control_t) (uncertain : bool) : guard_control_t :=
  let mask := if uncertain then Z.lor (fenced c) (Z.shiftl 1 (c_resource c)) else fenced c in
  Control (epoch c) 0 zero_owner (c_generation c) 0 0 mask 0 0 0 0 0.

Definition with_epoch (c : guard_control_t) (e : Z) : guard_control_t :=
  Control e (deadline_ms c) (owner c) (c_generation c) (c_resource c) (active c) (fenced c)
    (mode c) (attempted c) (pending c) (borrowed_pin c) (request_handle c).
Definition with_fenced (c : guard_control_t) (mask : Z) : guard_control_t :=
  Control (epoch c) (deadline_ms c) (owner c) (c_generation c) (c_resource c) (active c) mask
    (mode c) (attempted c) (pending c) (borrowed_pin c) (request_handle c).
Definition with_effects (c : guard_control_t) (att pend : Z) : guard_control_t :=
  Control (epoch c) (deadline_ms c) (owner c) (c_generation c) (c_resource c) (active c)
    (fenced c) (mode c) att pend (borrowed_pin c) (request_handle c).

Definition guard_epoch_advance (c : guard_control_t) : prog guard_control_t :=
  if epoch c =? UINT64_MAX then Poison else Ret (with_epoch c (epoch c + 1)).

Definition guard_finish (c : guard_control_t) (uncertain : bool) : prog guard_control_t :=
  c <- guard_epoch_advance (retired c uncertain);;
  control_write c;;;
  Ret c.

Definition is_active (c : guard_control_t) : bool := negb (active c =? 0).
Definition pin_active (p : guard_pin_t) : bool := negb (p_active p =? 0).

Definition guard_expire (c : guard_control_t) (now_ms : Z) : prog guard_control_t :=
  if is_active c && (deadline_ms c <=? now_ms)
  then guard_finish c ((request_handle c =? 0) || negb (attempted c =? 0))
  else Ret c.

(** [guard_control_read] followed by [guard_expire]. *)
Definition control_current (now_ms : Z) : prog guard_control_t :=
  c <- control_read;; guard_expire c now_ms.

Definition guard_admit (r e now_ms : Z) : prog guard_control_t :=
  c <- control_current now_ms;;
  fail_if (fence_bit (fenced c) r) REIST_EIO;;;
  fail_if (is_active c) REIST_EBUSY;;;
  fail_if (negb (epoch c =? e)) REIST_EAGAIN;;;
  Ret c.

Definition guard_token_read (token : Z) (service client : file_object_owner_t)
    : prog (guard_pin_t * nat) :=
  let selected := token_slot token in
  if (selected =? 0) || (FILE_OBJECT_GUARD_CAPACITY <? selected) || (token_generation token =? 0)
  then Fail REIST_EINVAL
  else
    let slot := Z.to_nat (selected - 1) in
    pin <- pin_read slot;;
    fail_if (negb (p_generation pin =? token_generation token)) REIST_ESTALE;;;
    fail_if (negb (guard_same_owner (p_service pin) service) ||
             negb (guard_same_owner (p_client pin) client)) REIST_EACCES;;;
    Ret (pin, slot).

Definition guard_pin_clear (slot : nat) (pin : guard_pin_t) : prog unit :=
  pin_write slot (Pin zero_key (p_service pin) (p_client pin) (p_generation pin) 0 0).

Definition guard_owned_pin_live (c : guard_control_t) : prog unit :=
  if borrowed_pin c =? 0 then Ret tt
  else
    let slot := Z.to_nat (token_slot (borrowed_pin c) - 1) in
    pin <- pin_read slot;;
    poison_if (negb (pin_active pin) ||
               negb (p_generation pin =? token_generation (borrowed_pin c)) ||
               negb (guard_same_owner (p_service pin) (owner c)) ||
               negb (resource (p_key pin) =? c_resource c) ||
               negb (kind (p_key pin) =? REIST_FILE_OBJECT_FAT32));;;
    media <- media_read (c_resource c);;
    poison_if (negb (m_generation media =? p_media_generation pin)).

(** ** Bodies of the entry points *)
Definition snapshot_body (now_ms : Z) : prog Z :=
  c <- control_current now_ms;;
  fail_if (is_active c) REIST_EBUSY;;;
  Ret (epoch c).

(** The pins of the client, the first free slot and its pin. *)
Definition pin_scan (client : file_object_owner_t) : prog (Z * option (nat * guard_pin_t)) :=
  for_pins all_slots
    (λ i pin '(owned, free),
       let owned := if pin_active pin && guard_same_owner (p_client pin) client then owned + 1 else owned in
       let free :=
         match free with
         | None =>
             if negb (pin_active pin) && (p_generation pin <? FILE_OBJECT_GUARD_GENERATION_MAX)
             then Some (i, pin) else None
         | Some _ => free
         end in
       Ret (owned, free))
    (0, None).

Definition pin_body (key : reist_file_object_key_t) (service client : file_object_owner_t)
    (e now_ms : Z) : prog Z :=
  guard_admit (resource key) e now_ms;;;
  scan <- pin_scan client;;
  fail_if (FILE_OBJECT_GUARD_PER_CLIENT <=? scan.1) REIST_EMFILE;;;
  match scan.2 with
  | None => Fail REIST_ENOSPC
  | Some (slot, chosen) =>
      media <- media_read (resource key);;
      let gen := p_generation chosen + 1 in
      pin_write slot (Pin key service client gen (m_generation media) 1);;;
      Ret (make_token gen slot)
  end.

Definition lookup_body (token : Z) (service client : file_object_owner_t) (now_ms : Z)
    : prog reist_file_object_key_t :=
  c <- control_current now_ms;;
  found <- guard_token_read token service client;;
  let pin := found.1 in
  fail_if (negb (pin_active pin)) REIST_ESTALE;;;
  fail_if (fence_bit (fenced c) (resource (p_key pin))) REIST_EIO;;;
  media <- media_read (resource (p_key pin));;
  fail_if (negb (m_generation media =? p_media_generation pin)) REIST_ESTALE;;;
  Ret (p_key pin).

Definition legacy_enter_body (now_ms : Z) : prog unit :=
  c <- control_current now_ms;;
  fail_if (negb (fenced c =? 0)) REIST_EIO;;;
  fail_if (is_active c) REIST_EBUSY;;;
  c <- guard_epoch_advance c;;
  control_write c.

Definition can_open_body (r now_ms : Z) : prog unit :=
  c <- control_current now_ms;;
  fail_if (fence_bit (fenced c) r) REIST_EIO;;;
  fail_if (is_active c && (c_resource c =? r)) REIST_EBUSY.

Definition key_busy_body (key : reist_file_object_key_t) (now_ms : Z) : prog unit :=
  c <- control_current now_ms;;
  fail_if (fence_bit (fenced c) (resource key)) REIST_EIO;;;
  fail_if (is_active c) REIST_EBUSY;;;
  for_pins all_slots (λ _ pin _, fail_if (pin_active pin && same_key (p_key pin) key) REIST_EBUSY) tt.

Definition release_body (token : Z) (service client : file_object_owner_t) : prog unit :=
  c <- control_read;;
  found <- guard_token_read token service client;;
  (if is_active c && (borrowed_pin c =? token)
   then guard_finish c true;;; Ret tt else Ret tt);;;
  if pin_active found.1 then guard_pin_clear found.2 found.1 else Ret tt.

(** The pins that stand in the way of a mutation of the keys. *)
Definition conflict_scan (keys : list reist_file_object_key_t) (m r : Z) (own : option nat) : prog unit :=
  for_pins all_slots
    (λ i pin _,
       if negb (pin_active pin) || bool_decide (own = Some i) then Ret tt
       else
         fail_if ((negb (Z.land m REIST_FILE_OBJECT_EXCLUSIVE =? 0)) &&
                  (resource (p_key pin) =? r)) REIST_EBUSY;;;
         fail_if (existsb (same_key (p_key pin)) keys) REIST_EBUSY)
    tt.

Definition reserve (c : guard_control_t) (o : file_object_owner_t) (r deadline m borrowed handle : Z)
    : guard_control_t :=
  Control (epoch c) deadline o (c_generation c + 1) r 1 (fenced c) m (attempted c) (pending c)
    borrowed handle.

Definition begin_body (keys : list reist_file_object_key_t) (first : reist_file_object_key_t)
    (m : Z) (o : file_object_owner_t) (e now_ms deadline borrowed handle : Z)
    (client : file_object_owner_t) : prog Z :=
  c <- guard_admit (resource first) e now_ms;;
  own <- (if borrowed =? 0 then Ret None
          else
            found <- guard_token_read borrowed o client;;
            let pin := found.1 in
            fail_if (negb (pin_active pin)) REIST_ESTALE;;;
            fail_if (negb (same_key (p_key pin) first)) REIST_EACCES;;;
            media <- media_read (resource first);;
            fail_if (negb (p_media_generation pin =? m_generation media)) REIST_ESTALE;;;
            Ret (Some found.2));;
  conflict_scan keys m (resource first) own;;;
  fail_if (c_generation c =? UINT32_MAX) REIST_EOVERFLOW;;;
  c <- guard_epoch_advance c;;
  let c := reserve c o (resource first) deadline (Z.land m REIST_FILE_OBJECT_EXTERNAL_JOURNAL)
             borrowed handle in
  control_write c;;;
  Ret (c_generation c).

(** The checks a reservation's owner must pass. *)
Definition require_token (c : guard_control_t) (token : Z) : prog unit :=
  fail_if (negb (is_active c) || negb (c_generation c =? token)) REIST_ESTALE.

Definition owned_request_body (service : file_object_owner_t) (token r now_ms : Z) : prog (Z * Z) :=
  c <- control_current now_ms;;
  fail_if (fence_bit (fenced c) r) REIST_EIO;;;
  require_token c token;;;
  fail_if (negb (guard_same_owner (owner c) service) || negb (c_resource c =? r)) REIST_EACCES;;;
  guard_owned_pin_live c;;;
  Ret (request_handle c, deadline_ms c).

Record file_object_mutation_context_t := Context {
  x_deadline_ms : Z;
  x_request : Z;
  x_resource : Z;
  x_attempted : Z;
  x_repair : bool;
  x_pending : Z
}.

Definition context_of (c : guard_control_t) : file_object_mutation_context_t :=
  Context (deadline_ms c) (request_handle c) (c_resource c) (attempted c)
    (mode c =? FILE_OBJECT_GUARD_REPAIR_MODE) (pending c).

Definition context_body (o : file_object_owner_t) (token : Z) : prog file_object_mutation_context_t :=
  c <- control_read;;
  require_token c token;;;
  fail_if (negb (guard_same_owner (owner c) o)) REIST_EACCES;;;
  guard_owned_pin_live c;;;
  Ret (context_of c).

Definition end_body (token : Z) (o : file_object_owner_t) (outcome now_ms : Z) : prog unit :=
  c <- control_current now_ms;;
  require_token c token;;;
  fail_if (negb (guard_same_owner (owner c) o)) REIST_EACCES;;;
  guard_owned_pin_live c;;;
  fail_if (negb (mode c =? 0) &&
           ((outcome =? REIST_FILE_OBJECT_NO_EFFECT) && negb (attempted c =? 0) ||
            (outcome =? REIST_FILE_OBJECT_DURABLE_COMMIT) && negb (pending c =? 0))) REIST_EINVAL;;;
  guard_finish c (outcome =? REIST_FILE_OBJECT_UNKNOWN);;;
  Ret tt.

Definition mutation_authorized_body (o : file_object_owner_t) (r now_ms : Z) : prog unit :=
  c <- control_current now_ms;;
  fail_if (fence_bit (fenced c) r) REIST_EIO;;;
  fail_if (negb (is_active c)) REIST_EACCES;;;
  fail_if (negb (c_resource c =? r) || negb (guard_same_owner (owner c) o)) REIST_EBUSY;;;
  fail_if (negb (mode c =? 0)) REIST_EBUSY.

(** [probe]: the caller wants the context, see [guard_journal_io]. *)
Definition journal_io_body (o : file_object_owner_t) (token r event now_ms : Z) (probe : bool)
    : prog (bool * file_object_mutation_context_t) :=
  c <- control_read;;
  (if probe then
     require_token c token;;;
     fail_if (negb (guard_same_owner (owner c) o)) REIST_EACCES;;;
     guard_owned_pin_live c;;;
     fail_if (negb (request_handle c =? 0) && (deadline_ms c <=? now_ms)) GUARD_ETIMEDOUT
   else Ret tt);;;
  c <- guard_expire c now_ms;;
  fail_if (fence_bit (fenced c) r && negb (mode c =? FILE_OBJECT_GUARD_REPAIR_MODE)) REIST_EIO;;;
  require_token c token;;;
  fail_if (negb (guard_same_owner (owner c) o) || negb (c_resource c =? r) ||
           (negb (mode c =? REIST_FILE_OBJECT_EXTERNAL_JOURNAL) &&
            negb (mode c =? FILE_OBJECT_GUARD_REPAIR_MODE))) REIST_EACCES;;;
  (if probe then Ret tt else guard_owned_pin_live c);;;
  let was_pending := negb (pending c =? 0) in
  c <- (if event =? FILE_OBJECT_JOURNAL_CHECK then Ret c
        else
          let c' := if event =? FILE_OBJECT_JOURNAL_WRITE then with_effects c 1 1
                    else with_effects c (attempted c) 0 in
          if negb (attempted c' =? attempted c) || negb (pending c' =? pending c)
          then control_write c';;; Ret c' else Ret c');;
  Ret (was_pending, context_of c).

Definition cancel_body (token : Z) (service : file_object_owner_t) : prog unit :=
  c <- control_read;;
  require_token c token;;;
  fail_if (negb (guard_same_owner (owner c) service)) REIST_EACCES;;;
  fail_if (negb (attempted c =? 0)) REIST_EINVAL;;;
  guard_finish c false;;;
  Ret tt.

Definition cleanup_body (o : file_object_owner_t) : prog unit :=
  c <- control_read;;
  c <- (if is_active c && guard_same_owner (owner c) o then guard_finish c true else Ret c);;
  for_pins all_slots
    (λ i pin c,
       if pin_active pin && (guard_same_owner (p_service pin) o || guard_same_owner (p_client pin) o)
       then
         c <- (if is_active c && (borrowed_pin c =? make_token (p_generation pin) i)
               then guard_finish c true else Ret c);;
         guard_pin_clear i pin;;;
         Ret c
       else Ret c)
    c;;;
  Ret tt.

Definition owner_at_body (slot : Z) : prog (file_object_owner_t * file_object_owner_t) :=
  c <- control_read;;
  if slot =? FILE_OBJECT_GUARD_CAPACITY
  then Ret ((if is_active c then owner c else zero_owner), zero_owner)
  else
    pin <- pin_read (Z.to_nat slot);;
    Ret (if pin_active pin then (p_service pin, p_client pin) else (zero_owner, zero_owner)).

Definition clear_resource (r : Z) : prog unit :=
  for_pins all_slots
    (λ i pin _, if pin_active pin && (resource (p_key pin) =? r) then guard_pin_clear i pin else Ret tt) tt.

Definition revoke_media_body (r : Z) : prog unit :=
  c <- control_read;;
  c <- (if is_active c && (c_resource c =? r) then guard_finish c true else Ret c);;
  c <- guard_epoch_advance c;;
  control_write c;;;
  media <- media_read r;;
  poison_if (m_generation media =? UINT32_MAX);;;
  media_write r (Media (m_generation media + 1));;;
  clear_resource r.

Definition merge_fences_body (mask : Z) : prog unit :=
  c <- control_read;;
  if Z.land mask (Z.lnot (fenced c)) =? 0 then Ret tt
  else
    let c := with_fenced c (Z.lor (fenced c) mask) in
    if is_active c && fence_bit mask (c_resource c)
    then guard_finish c true;;; Ret tt
    else control_write c.

Definition repair_begin_body (r : Z) (o : file_object_owner_t) (e now_ms deadline : Z) : prog Z :=
  c <- control_current now_ms;;
  fail_if (negb (fence_bit (fenced c) r)) REIST_EACCES;;;
  fail_if (is_active c) REIST_EBUSY;;;
  fail_if (negb (epoch c =? e)) REIST_ESTALE;;;
  for_pins all_slots
    (λ _ pin _, fail_if (pin_active pin && (resource (p_key pin) =? r)) REIST_EBUSY) tt;;;
  fail_if (c_generation c =? UINT32_MAX) REIST_EOVERFLOW;;;
  c <- guard_epoch_advance c;;
  let c := reserve c o r deadline FILE_OBJECT_GUARD_REPAIR_MODE (borrowed_pin c) (request_handle c) in
  control_write c;;;
  Ret (c_generation c).

Definition repair_finish_body (token : Z) (o : file_object_owner_t) (verified : bool) (now_ms : Z)
    : prog unit :=
  c <- control_current now_ms;;
  require_token c token;;;
  fail_if (negb (guard_same_owner (owner c) o) || negb (mode c =? FILE_OBJECT_GUARD_REPAIR_MODE))
    REIST_EACCES;;;
  fail_if (verified && ((attempted c =? 0) || negb (pending c =? 0))) REIST_EINVAL;;;
  let c := if verified
           then with_fenced c (Z.land (fenced c) (Z.lnot (Z.shiftl 1 (c_resource c)))) else c in
  guard_finish c (negb verified);;;
  Ret tt.

Definition poll_body (now_ms : Z) : prog unit := control_current now_ms;;; Ret tt.

Definition fenced_body : prog Z := c <- control_read;; Ret (fenced c).

Definition count_body (r now_ms : Z) (detach : bool) : prog Z :=
  c <- control_current now_ms;;
  fail_if (negb detach && fence_bit (fenced c) r) REIST_EIO;;;
  fail_if (is_active c && (c_resource c =? r)) REIST_EBUSY;;;
  for_pins all_slots
    (λ _ pin found, Ret (if pin_active pin && (resource (p_key pin) =? r) then found + 1 else found)) 0.

(** ** The guard and its entry points *)
Section guard.
Context {O : Type} `{!ProtectedStore O} `{!OwnedStore O}.

Record file_object_guard_t := Guard {
lock : Z;
poisoned : Z;
initialized : Z;
control : O;
pins : list O;
media : list O
}.

Definition set_lock (g : file_object_guard_t) (l : Z) : file_object_guard_t :=
Guard l (poisoned g) (initialized g) (control g) (pins g) (media g).
Definition set_initialized (g : file_object_guard_t) (i : Z) : file_object_guard_t :=
Guard (lock g) (poisoned g) i (control g) (pins g) (media g).
Definition set_control (g : file_object_guard_t) (c : O) : file_object_guard_t :=
Guard (lock g) (poisoned g) (initialized g) c (pins g) (media g).
Definition set_pin (g : file_object_guard_t) (i : nat) (p : O) : file_object_guard_t :=
Guard (lock g) (poisoned g) (initialized g) (control g) (<[i := p]> (pins g)) (media g).
Definition set_media (g : file_object_guard_t) (i : nat) (m : O) : file_object_guard_t :=
Guard (lock g) (poisoned g) (initialized g) (control g) (pins g) (<[i := m]> (media g)).

Definition guard_poison (g : file_object_guard_t) : file_object_guard_t :=
Guard (lock g) UINT32_MAX (initialized g) (control g) (pins g) (media g).

(** [guard_read] and [guard_write] of one record: [None] is the poisoning
refusal; the store is handed back in either case. *)
Definition guard_read {A} `{Layout A} (ok : A → bool) (zero : A) (store : O) : option A * O :=
if negb (os_lock store =? 0) then (None, store)
else
let '(result, store, record) := load_record REIST_FILE_OBJECT_VERSION ok REIST_EIO store zero in
((if result =? 0 then Some record else None), store).

Definition guard_write {A} `{Layout A} (ok : A → bool) (store : O) (record : A) : bool * O :=
if negb (os_lock store =? 0) then (false, store)
else
let '(result, store) := store_record REIST_FILE_OBJECT_VERSION ok REIST_EIO store record in
(result =? 0, store).

Definition read_control : O → option guard_control_t * O := guard_read control_ok zero_control.
Definition read_pin : O → option guard_pin_t * O := guard_read pin_ok zero_pin.
Definition read_media : O → option guard_media_t * O := guard_read media_ok (Media 0).
Definition write_control : O → guard_control_t → bool * O := guard_write control_ok.
Definition write_pin : O → guard_pin_t → bool * O := guard_write pin_ok.
Definition write_media : O → guard_media_t → bool * O := guard_write media_ok.

(** Executes a body: an error [inl e] (nonzero), or its outputs. *)
Fixpoint run {X} (p : prog X) (g : file_object_guard_t) : (Z + X) * file_object_guard_t :=
match p with
| Ret x => (inr x, g)
| Fail e => (inl e, g)
| Poison => (inl REIST_EIO, guard_poison g)
| ReadControl k =>
  if negb (initialized g =? GUARD_INITIALIZED) || negb (poisoned g =? 0)
  then (inl REIST_EIO, guard_poison g)
  else
    let '(r, store) := read_control (control g) in
    let g := set_control g store in
    match r with Some c => run (k c) g | None => (inl REIST_EIO, guard_poison g) end
| WriteControl c k =>
  let '(ok, store) := write_control (control g) c in
  let g := set_control g store in
  if ok then run k g else (inl REIST_EIO, guard_poison g)
| ReadPin i k =>
  match pins g !! i with
  | None => (inl REIST_EIO, g)
  | Some store =>
      let '(r, store) := read_pin store in
      let g := set_pin g i store in
      match r with Some p => run (k p) g | None => (inl REIST_EIO, guard_poison g) end
  end
| WritePin i p k =>
  match pins g !! i with
  | None => (inl REIST_EIO, g)
  | Some store =>
      let '(ok, store) := write_pin store p in
      let g := set_pin g i store in
      if ok then run k g else (inl REIST_EIO, guard_poison g)
  end
| ReadMedia i k =>
  match media g !! i with
  | None => (inl REIST_EIO, g)
  | Some store =>
      let '(r, store) := read_media store in
      let g := set_media g i store in
      match r with Some m => run (k m) g | None => (inl REIST_EIO, guard_poison g) end
  end
| WriteMedia i m k =>
  match media g !! i with
  | None => (inl REIST_EIO, g)
  | Some store =>
      let '(ok, store) := write_media store m in
      let g := set_media g i store in
      if ok then run k g else (inl REIST_EIO, guard_poison g)
  end
end.

(** [guard_lock] is one attempt; a taken lock refuses. *)
Definition guard_lock (g : file_object_guard_t) : option file_object_guard_t :=
if lock g =? 0 then Some (set_lock g 1) else None.
Definition guard_unlock (g : file_object_guard_t) : file_object_guard_t := set_lock g 0.

Definition locked {X} (g : file_object_guard_t) (f : file_object_guard_t → (Z + X) * file_object_guard_t)
: (Z + X) * file_object_guard_t :=
match guard_lock g with
| None => (inl REIST_EBUSY, g)
| Some g => let '(r, g) := f g in (r, guard_unlock g)
end.

Definition entry {X} (invalid : bool) (body : prog X) (g : file_object_guard_t)
: (Z + X) * file_object_guard_t :=
if invalid then (inl REIST_EINVAL, g) else locked g (run body).

Fixpoint init_stores (stores : list O) (payload : list Z) : bool * list O :=
match stores with
| [] => (true, [])
| store :: stores =>
  let '(result, store) := ps_init store REIST_FILE_OBJECT_VERSION (Some payload) in
  if negb (result =? 0) then (false, store :: stores)
  else let '(ok, stores) := init_stores stores payload in (ok, store :: stores)
end.

Definition init_records (g : file_object_guard_t) : (Z + unit) * file_object_guard_t :=
let first := with_epoch zero_control 1 in
let '(result, c) := ps_init (control g) REIST_FILE_OBJECT_VERSION (Some (encode first)) in
let g := set_control g c in
if negb (result =? 0) then (inl REIST_EIO, guard_poison g)
else
let '(ok, stores) := init_stores (pins g) (encode zero_pin) in
let g := Guard (lock g) (poisoned g) (initialized g) (control g) stores (media g) in
if negb ok then (inl REIST_EIO, guard_poison g)
else
  let '(ok, stores) := init_stores (media g) (encode (Media 1)) in
  let g := Guard (lock g) (poisoned g) (initialized g) (control g) (pins g) stores in
  if negb ok then (inl REIST_EIO, guard_poison g)
  else (inr tt, set_initialized g GUARD_INITIALIZED).

Definition file_object_guard_init (g : file_object_guard_t) : (Z + unit) * file_object_guard_t :=
locked g (λ g,
if negb (poisoned g =? 0) then (inl REIST_EIO, g)
else if negb (initialized g =? 0) then run (control_read;;; Ret tt) g
else if negb (os_pristine (control g) && forallb os_pristine (pins g) && forallb os_pristine (media g))
then (inl REIST_EIO, guard_poison g)
else init_records g).

Definition bad_resource (r : Z) : bool := FILE_OBJECT_GUARD_RESOURCES <=? r.

Definition file_object_guard_snapshot (g : file_object_guard_t) (now_ms : Z) :=
entry false (snapshot_body now_ms) g.

Definition file_object_guard_pin (g : file_object_guard_t) (key : reist_file_object_key_t)
(service client : file_object_owner_t) (e now_ms : Z) :=
entry (negb (file_object_guard_key_valid key) || negb (guard_owner_valid service) ||
     negb (guard_owner_valid client) || (e =? 0))
(pin_body key service client e now_ms) g.

Definition file_object_guard_lookup (g : file_object_guard_t) (token : Z)
(service client : file_object_owner_t) (now_ms : Z) :=
entry false (lookup_body token service client now_ms) g.

Definition file_object_guard_verify (g : file_object_guard_t) (token : Z)
(service client : file_object_owner_t) (now_ms : Z) :=
file_object_guard_lookup g token service client now_ms.

Definition file_object_guard_legacy_enter (g : file_object_guard_t) (now_ms : Z) :=
entry false (legacy_enter_body now_ms) g.

Definition file_object_guard_can_open (g : file_object_guard_t) (r now_ms : Z) :=
entry (bad_resource r) (can_open_body r now_ms) g.

Definition file_object_guard_key_busy (g : file_object_guard_t) (key : reist_file_object_key_t)
(now_ms : Z) :=
entry (negb (file_object_guard_key_valid key)) (key_busy_body key now_ms) g.

Definition file_object_guard_release (g : file_object_guard_t) (token : Z)
(service client : file_object_owner_t) :=
entry false (release_body token service client) g.

Definition bad_deadline (now_ms deadline : Z) : bool :=
(deadline <=? now_ms) || (FILE_OBJECT_GUARD_MAX_MS <? deadline - now_ms).

Definition guard_begin (g : file_object_guard_t) (keys : list reist_file_object_key_t) (m : Z)
(o : file_object_owner_t) (e now_ms deadline borrowed handle : Z) (client : file_object_owner_t)
: (Z + Z) * file_object_guard_t :=
match keys with
| [] => (inl REIST_EINVAL, g)
| first :: _ =>
  let flag bit := negb (Z.land m bit =? 0) in
  entry
    ((2 <? Z.of_nat (length keys)) || negb (guard_owner_valid o) || (e =? 0) ||
     bad_deadline now_ms deadline ||
     (negb (Z.land m (Z.lnot (Z.lor REIST_FILE_OBJECT_EXCLUSIVE REIST_FILE_OBJECT_EXTERNAL_JOURNAL)) =? 0) ||
      (flag REIST_FILE_OBJECT_EXTERNAL_JOURNAL &&
       (negb (flag REIST_FILE_OBJECT_EXCLUSIVE) || negb (Z.of_nat (length keys) =? 1) ||
        negb (kind first =? REIST_FILE_OBJECT_FAT32)))) ||
     existsb (λ key, negb (file_object_guard_key_valid key) || negb (kind key =? kind first) ||
                     negb (resource key =? resource first)) keys)
    (begin_body keys first m o e now_ms deadline borrowed handle client) g
end.

Definition file_object_guard_begin_mode (g : file_object_guard_t)
(keys : list reist_file_object_key_t) (m : Z) (o : file_object_owner_t) (e now_ms deadline : Z) :=
guard_begin g keys m o e now_ms deadline 0 0 zero_owner.

Definition file_object_guard_begin (g : file_object_guard_t) (keys : list reist_file_object_key_t)
(exclusive : bool) (o : file_object_owner_t) (e now_ms deadline : Z) :=
file_object_guard_begin_mode g keys (if exclusive then REIST_FILE_OBJECT_EXCLUSIVE else 0) o e
now_ms deadline.

Definition file_object_guard_begin_owned (g : file_object_guard_t) (key : reist_file_object_key_t)
(pin request : Z) (service client : file_object_owner_t) (e now_ms deadline : Z)
: (Z + Z) * file_object_guard_t :=
if (pin =? 0) || (request =? 0) || negb (guard_owner_valid client) then (inl REIST_EINVAL, g)
else
guard_begin g [key] (Z.lor REIST_FILE_OBJECT_EXCLUSIVE REIST_FILE_OBJECT_EXTERNAL_JOURNAL)
  service e now_ms deadline pin request client.

Definition file_object_guard_owned_request (g : file_object_guard_t) (service : file_object_owner_t)
(token r now_ms : Z) :=
entry ((token =? 0) || negb (guard_owner_valid service) || bad_resource r)
(owned_request_body service token r now_ms) g.

Definition file_object_guard_context (g : file_object_guard_t) (o : file_object_owner_t) (token : Z) :=
entry ((token =? 0) || negb (guard_owner_valid o)) (context_body o token) g.

Definition file_object_guard_end (g : file_object_guard_t) (token : Z) (o : file_object_owner_t)
(outcome now_ms : Z) :=
entry ((token =? 0) || negb (guard_owner_valid o) || (outcome <? REIST_FILE_OBJECT_NO_EFFECT) ||
     (REIST_FILE_OBJECT_UNKNOWN <? outcome))
(end_body token o outcome now_ms) g.

Definition file_object_guard_mutation_authorized (g : file_object_guard_t) (o : file_object_owner_t)
(r now_ms : Z) :=
entry (negb (guard_owner_valid o) || bad_resource r) (mutation_authorized_body o r now_ms) g.

Definition guard_journal_io (g : file_object_guard_t) (o : file_object_owner_t)
(token r event now_ms : Z) (probe : bool) :=
entry (negb (guard_owner_valid o) || (token =? 0) || bad_resource r ||
     (FILE_OBJECT_JOURNAL_FLUSHED <? event))
(journal_io_body o token r event now_ms probe) g.

Definition file_object_guard_journal_probe (g : file_object_guard_t) (o : file_object_owner_t)
(token r now_ms : Z) :=
guard_journal_io g o token r FILE_OBJECT_JOURNAL_CHECK now_ms true.

Definition file_object_guard_journal_io_deadline (g : file_object_guard_t) (o : file_object_owner_t)
(token r event now_ms : Z) :=
guard_journal_io g o token r event now_ms false.

Definition file_object_guard_journal_io (g : file_object_guard_t) (o : file_object_owner_t)
(token r event now_ms : Z) :=
file_object_guard_journal_io_deadline g o token r event now_ms.

Definition file_object_guard_cancel_undelivered (g : file_object_guard_t) (operation token : Z)
(service client : file_object_owner_t) : (Z + unit) * file_object_guard_t :=
if operation =? REIST_FILE_OBJECT_PIN then file_object_guard_release g token service client
else
entry (negb (operation =? REIST_FILE_OBJECT_MUTATION_BEGIN) || (token =? 0) ||
       negb (guard_owner_valid service))
  (cancel_body token service) g.

Definition file_object_guard_cleanup (g : file_object_guard_t) (o : file_object_owner_t) :=
entry (negb (guard_owner_valid o)) (cleanup_body o) g.

Definition file_object_guard_owner_at (g : file_object_guard_t) (slot : Z) :=
entry (FILE_OBJECT_GUARD_CAPACITY <? slot) (owner_at_body slot) g.

Definition file_object_guard_revoke_media (g : file_object_guard_t) (r : Z) :=
entry (bad_resource r) (revoke_media_body r) g.

Definition file_object_guard_merge_fences (g : file_object_guard_t) (mask : Z)
: (Z + unit) * file_object_guard_t :=
if mask =? 0 then (inr tt, g) else entry false (merge_fences_body mask) g.

Definition file_object_guard_repair_begin (g : file_object_guard_t) (r : Z)
(o : file_object_owner_t) (e now_ms deadline : Z) :=
entry (bad_resource r || negb (guard_owner_valid o) || (e =? 0) || bad_deadline now_ms deadline)
(repair_begin_body r o e now_ms deadline) g.

Definition file_object_guard_repair_finish (g : file_object_guard_t) (token : Z)
(o : file_object_owner_t) (verified : bool) (now_ms : Z) :=
entry ((token =? 0) || negb (guard_owner_valid o)) (repair_finish_body token o verified now_ms) g.

Definition file_object_guard_poll (g : file_object_guard_t) (now_ms : Z) :=
entry false (poll_body now_ms) g.

(** The mask a caller reads: everything when the call fails under the lock. *)
Definition file_object_guard_fenced (g : file_object_guard_t)
: Z * option Z * file_object_guard_t :=
match guard_lock g with
| None => (REIST_EBUSY, None, g)
| Some g =>
  let '(r, g) := run fenced_body g in
  (match r with inl e => e | inr _ => 0 end,
   Some (match r with inl _ => UINT32_MAX | inr mask => mask end), guard_unlock g)
end.

Definition guard_count (g : file_object_guard_t) (r now_ms : Z) (detach : bool) :=
entry (bad_resource r) (count_body r now_ms detach) g.

Definition file_object_guard_count (g : file_object_guard_t) (r now_ms : Z) :=
guard_count g r now_ms false.

Definition file_object_guard_detach_ready (g : file_object_guard_t) (r now_ms : Z)
: Z * file_object_guard_t :=
let '(result, g) := guard_count g r now_ms true in
(match result with inl e => e | inr count => if negb (count =? 0) then REIST_EBUSY else 0 end, g).
End guard.

#[global] Arguments file_object_guard_t : clear implicits.
End FileObjectGuard.
