(* ===== verification/FileObjectGuardSpec.v ===== *)
(** What the file object guard guarantees.

    [astate] is the content of the protected records of a guard; [wp] gives
    the meaning of a locked body on it, and [run_wp] shows that [run] over any
    protected store does the same or ends in the sticky poisoned state.  Every
    body preserves [state_ok], the validity of the records and the isolation
    of a reservation, and moves the state forward only as [moves] allows.  The
    properties are read off at the entry points. *)
From S2P Require Import Prelude ProtectedStore.
From S2P Require Import Layout ProtectedRecord CriticalObject OwnedStore FileObjectGuard.
Import FileObjectGuard.
Local Open Scope guard_scope.

(** ** Layout laws of the records *)
#[export] Instance pin_laws : LayoutLaws guard_pin_t.
Proof.
  split; [done|by intros [[] [] [] ? ? ?]|].
  intros values Hl. do 14 (destruct values as [|? values]; [try done; simpl in Hl; lia|]). simpl in Hl. lia.
Qed.
#[export] Instance control_laws : LayoutLaws guard_control_t.
Proof.
  split; [done|by intros [? ? [] ? ? ? ? ? ? ? ? ?]|].
  intros values Hl. do 14 (destruct values as [|? values]; [try done; simpl in Hl; lia|]). simpl in Hl. lia.
Qed.
#[export] Instance media_laws : LayoutLaws guard_media_t.
Proof.
  split; [done|by intros []|].
  intros values Hl. do 2 (destruct values as [|? values]; [try done; simpl in Hl; lia|]). simpl in Hl. lia.
Qed.

Lemma pin_typed (p : guard_pin_t) :
  well_typed p ↔
  is_u32 (kind (p_key p)) ∧ is_u32 (resource (p_key p)) ∧ is_u32 (object_a (p_key p)) ∧
  is_u32 (object_b (p_key p)) ∧ 0 <= alias (p_key p) < 2 ^ 96 ∧ is_u32 (key_reserved (p_key p)) ∧
  is_u32 (pid (p_service p)) ∧ is_u32 (generation (p_service p)) ∧
  is_u32 (pid (p_client p)) ∧ is_u32 (generation (p_client p)) ∧
  is_u32 (p_generation p) ∧ is_u32 (p_media_generation p) ∧ is_u32 (p_active p).
Proof.
  unfold well_typed. cbn [layout_widths layout_values pin_layout fields_ok].
  change (256 ^ Z.of_nat 4) with 4294967296. change (256 ^ Z.of_nat 12) with (2 ^ 96).
  unfold_words. tauto.
Qed.

Lemma control_typed (c : guard_control_t) :
  well_typed c ↔
  is_u64 (epoch c) ∧ is_u64 (deadline_ms c) ∧ is_u32 (pid (owner c)) ∧
  is_u32 (generation (owner c)) ∧ is_u32 (c_generation c) ∧ is_u32 (c_resource c) ∧
  is_u32 (active c) ∧ is_u32 (fenced c) ∧ is_u32 (mode c) ∧ is_u32 (attempted c) ∧
  is_u32 (pending c) ∧ is_u32 (borrowed_pin c) ∧ is_u32 (request_handle c).
Proof.
  unfold well_typed. cbn [layout_widths layout_values control_layout fields_ok].
  change (256 ^ Z.of_nat 4) with 4294967296. change (256 ^ Z.of_nat 8) with 18446744073709551616.
  unfold_words. tauto.
Qed.

Lemma media_typed (m : guard_media_t) : well_typed m ↔ is_u32 (m_generation m).
Proof.
  unfold well_typed. cbn [layout_widths layout_values media_layout fields_ok].
  change (256 ^ Z.of_nat 4) with 4294967296. unfold_words. tauto.
Qed.

Lemma record_sizes :
  (0 < sizeof guard_control_t <= 64)%nat ∧ (0 < sizeof guard_pin_t <= 64)%nat ∧
  (0 < sizeof guard_media_t <= 64)%nat.
Proof. vm_compute. lia. Qed.

(** ** The abstract state *)
Record astate := State {
  a_control : guard_control_t;
  a_pins : list guard_pin_t;
  a_media : list guard_media_t
}.

Definition put_control (a : astate) (c : guard_control_t) : astate := State c (a_pins a) (a_media a).
Definition put_pin (a : astate) (i : nat) (p : guard_pin_t) : astate :=
  State (a_control a) (<[i := p]> (a_pins a)) (a_media a).
Definition put_media (a : astate) (i : nat) (m : guard_media_t) : astate :=
  State (a_control a) (a_pins a) (<[i := m]> (a_media a)).

(** A counter that must not wrap is at its end. *)
Definition exhausted (a : astate) : Prop :=
  epoch (a_control a) = UINT64_MAX ∨ ∃ i m, a_media a !! i = Some m ∧ m_generation m = UINT32_MAX.

Definition fine {A} `{Layout A} (ok : A → bool) (x : A) : Prop := well_typed x ∧ ok x = true.

(** Every postcondition of a body holds after its run on [a]. *)
Fixpoint wp {X} (p : prog X) (a : astate) (Q : Z + X → astate → Prop) : Prop :=
  match p with
  | Ret x => Q (inr x) a
  | Fail e => Q (inl e) a
  | Poison => exhausted a
  | ReadControl k => wp (k (a_control a)) a Q
  | WriteControl c k => fine control_ok c ∧ wp k (put_control a c) Q
  | ReadPin i k => match a_pins a !! i with Some p => wp (k p) a Q | None => False end
  | WritePin i p k => fine pin_ok p ∧ (i < length (a_pins a))%nat ∧ wp k (put_pin a i p) Q
  | ReadMedia i k => match a_media a !! i with Some m => wp (k m) a Q | None => False end
  | WriteMedia i m k => fine media_ok m ∧ (i < length (a_media a))%nat ∧ wp k (put_media a i m) Q
  end.

Lemma wp_mono {X} (p : prog X) a (Q Q' : Z + X → astate → Prop) :
  (∀ r a', Q r a' → Q' r a') → wp p a Q → wp p a Q'.
Proof.
  intros HQ. revert a. induction p; intros a; cbn [wp]; auto.
  - intros [? ?]. auto.
  - destruct (a_pins a !! i); auto.
  - intros (? & ? & ?). auto.
  - destruct (a_media a !! i); auto.
  - intros (? & ? & ?). auto.
Qed.

Lemma wp_bind {X Y} (p : prog X) (f : X → prog Y) a Q :
  wp p a (λ r a', match r with inl e => Q (inl e) a' | inr x => wp (f x) a' Q end) →
  wp (bind p f) a Q.
Proof.
  revert a. induction p; intros a; cbn [wp bind]; auto.
  - intros [? ?]. auto.
  - destruct (a_pins a !! i); auto.
  - intros (? & ? & ?). auto.
  - destruct (a_media a !! i); auto.
  - intros (? & ? & ?). auto.
Qed.

(** The loop over the slots: an invariant indexed by the next slot. *)
Lemma wp_for_pins {Acc} (body : nat → guard_pin_t → Acc → prog Acc)
    (I : nat → Acc → astate → Prop) (E : Z → astate → Prop) n :
  (∀ i acc a, (i < n)%nat → I i acc a → ∃ pin, a_pins a !! i = Some pin ∧
     wp (body i pin acc) a (λ r a', match r with inl e => E e a' | inr acc' => I (S i) acc' a' end)) →
  ∀ acc a, I O acc a →
  wp (for_pins (seq 0 n) body acc) a
    (λ r a', match r with inl e => E e a' | inr acc' => I n acc' a' end).
Proof.
  intros Hbody.
  enough (∀ m i acc a, (i + m = n)%nat → I i acc a →
    wp (for_pins (seq i m) body acc) a
      (λ r a', match r with inl e => E e a' | inr acc' => I n acc' a' end)) as Hall
    by (intros acc a; by apply Hall).
  induction m as [|m IH]; intros i acc a Hn HI; cbn [seq for_pins].
  { replace n with i by lia. done. }
  destruct (Hbody i acc a ltac:(lia) HI) as (pin & Hpin & Hwp).
  apply wp_bind. cbn [wp pin_read]. rewrite Hpin. apply wp_bind.
  eapply wp_mono; [|exact Hwp]. intros [e|acc'] a' H; [done|]. apply IH; [lia|done].
Qed.

(** ** Bodies on protected stores *)
Section stores.
Context {O : Type} `{PL : ProtectedStoreLaws O} {OS : OwnedStore O}.

(** A store is intact, at some publication, and holds the record. *)
Definition store_is {A} `{Layout A} (ok : A → bool) (store : O) (x : A) : Prop :=
∃ n, record_holds REIST_FILE_OBJECT_VERSION ok store n x.

(** A store that has reached the last publication it can make. *)
Definition store_worn {A} `{Layout A} (ok : A → bool) (store : O) : Prop :=
∃ n x, UINT32_MAX <= n ∧ record_holds REIST_FILE_OBJECT_VERSION ok store n x.

Record guard_holds (g : file_object_guard_t O) (a : astate) : Prop := {
holds_control : store_is control_ok (control g) (a_control a);
holds_pins : Forall2 (store_is pin_ok) (pins g) (a_pins a);
holds_media : Forall2 (store_is media_ok) (media g) (a_media a)
}.

Definition worn (g : file_object_guard_t O) (a : astate) : Prop :=
exhausted a ∨ store_worn control_ok (control g) ∨ Exists (store_worn pin_ok) (pins g) ∨
Exists (store_worn media_ok) (media g).

Lemma store_fine {A} `{LayoutLaws A} (ok : A → bool) store x : store_is ok store x → fine ok x.
Proof using. intros (n & _ & ? & ?). by split. Qed.

Lemma guard_read_spec {A} `{LayoutLaws A} (ok : A → bool) zero store x :
(0 < sizeof A <= 64)%nat → store_is ok store x →
∃ store', guard_read ok zero store = (Some x, store') ∧ store_is ok store' x.
Proof using PL.
intros Hsize (n & Hh). unfold guard_read. pose proof Hh as (Hps & _ & _).
rewrite (os_holds_unlocked _ _ _ _ Hps). cbn [Z.eqb negb].
assert (is_u32 REIST_FILE_OBJECT_VERSION) by (unfold REIST_FILE_OBJECT_VERSION; ulia).
destruct (load_record_spec REIST_FILE_OBJECT_VERSION ok REIST_EIO ltac:(done) ltac:(done) Hsize
store n x zero Hh) as (store' & -> & Hh'). exists store'. split; [done|by exists n].
Qed.

Lemma guard_write_spec {A} `{LayoutLaws A} (ok : A → bool) store x x' :
(0 < sizeof A <= 64)%nat → store_is ok store x → fine ok x' →
let '(done_, store') := guard_write ok store x' in
if done_ then store_is ok store' x' else store_worn ok store' ∧ store_is ok store' x.
Proof using PL.
intros Hsize (n & Hh) [Ht Hok]. unfold guard_write. pose proof Hh as (Hps & _ & _).
rewrite (os_holds_unlocked _ _ _ _ Hps). cbn [Z.eqb negb].
assert (is_u32 REIST_FILE_OBJECT_VERSION) by (unfold REIST_FILE_OBJECT_VERSION; ulia).
pose proof (store_record_spec REIST_FILE_OBJECT_VERSION ok REIST_EIO ltac:(done) ltac:(done) Hsize
store n x x' Hh Ht Hok) as Hs.
destruct (store_record _ _ _ _ _) as [result store'].
destruct Hs as [(-> & n' & Hh' & _)|(-> & Hn & Hh')]; cbn.
- by exists n'.
- split; [by exists n, x|by exists n].
Qed.

(** The flags outside the records. *)
Definition open (g : file_object_guard_t O) : Prop :=
initialized g = GUARD_INITIALIZED ∧ poisoned g = 0.
Definition same_flags (g g' : file_object_guard_t O) : Prop :=
lock g' = lock g ∧ initialized g' = initialized g.

(** How a run on the stores relates to the body on the abstract state. *)
Definition run_ends {X} (g : file_object_guard_t O) (Q : Z + X → astate → Prop)
(r : (Z + X) * file_object_guard_t O) : Prop :=
same_flags g r.2 ∧ ∃ a', guard_holds r.2 a' ∧
((poisoned r.2 = 0 ∧ Q r.1 a') ∨ (poisoned r.2 ≠ 0 ∧ r.1 = inl REIST_EIO ∧ worn r.2 a')).

Lemma run_ends_from {X} g g0 (Q : Z + X → astate → Prop) r :
same_flags g0 g → run_ends g Q r → run_ends g0 Q r.
Proof using. intros [E1 E2] ([E3 E4] & H). split; [|done]. split; congruence. Qed.

Lemma holds_set_pin g a i store p :
guard_holds g a → store_is pin_ok store p → guard_holds (set_pin g i store) (put_pin a i p).
Proof using. intros [? ? ?] ?. split; [done| |done]. by apply Forall2_insert. Qed.
Lemma holds_set_media g a i store m :
guard_holds g a → store_is media_ok store m → guard_holds (set_media g i store) (put_media a i m).
Proof using. intros [? ? ?] ?. split; [done|done|]. by apply Forall2_insert. Qed.
Lemma holds_set_control g a store c :
guard_holds g a → store_is control_ok store c → guard_holds (set_control g store) (put_control a c).
Proof using. by intros [? ? ?] ?. Qed.

Lemma poison_ends {X} g a (Q : Z + X → astate → Prop) :
guard_holds g a → worn g a → run_ends g Q (inl REIST_EIO, guard_poison g).
Proof using.
intros [? ? ?] Hw. split; [done|]. exists a. split; [by split|]. right. by split_and!.
Qed.

Lemma put_same_control a : put_control a (a_control a) = a.
Proof using. by destruct a. Qed.
Lemma put_same_pin a i p : a_pins a !! i = Some p → put_pin a i p = a.
Proof using. intros E. unfold put_pin. rewrite list_insert_id by done. by destruct a. Qed.
Lemma put_same_media a i m : a_media a !! i = Some m → put_media a i m = a.
Proof using. intros E. unfold put_media. rewrite list_insert_id by done. by destruct a. Qed.

Lemma lookup_holds {A B} (P : A → B → Prop) l k i y :
Forall2 P l k → k !! i = Some y → ∃ x, l !! i = Some x ∧ P x y.
Proof using. intros Hf Hk. by apply (Forall2_lookup_r _ _ _ _ _ Hf Hk). Qed.

(** The relation between the two meanings of a body. *)
Lemma run_wp {X} (p : prog X) : ∀ g a (Q : Z + X → astate → Prop),
open g → guard_holds g a → wp p a Q → run_ends g Q (run p g).
Proof using PL.
destruct record_sizes as (Sc & Sp & Sm).
induction p as [x|e| |k IH|c k IH|i k IH|i q k IH|i k IH|i q k IH]; intros g a Q Ho Hg Hwp;
pose proof Ho as [Hi Hz]; cbn [run wp] in *.
- split; [done|]. exists a. split; [done|]. by left.
- split; [done|]. exists a. split; [done|]. by left.
- apply (poison_ends g a); [done|by left].
- rewrite Hi, Hz. cbn [Z.eqb negb orb]. change (GUARD_INITIALIZED =? GUARD_INITIALIZED) with true.
cbn [negb orb].
destruct (guard_read_spec control_ok zero_control (control g) (a_control a) Sc
  (holds_control _ _ Hg)) as (store & Er & Hs).
unfold read_control. rewrite Er. cbv zeta.
apply (run_ends_from (set_control g store)); [done|].
apply (IH _ _ a); [by split| |done]. rewrite <- (put_same_control a). by apply holds_set_control.
- destruct Hwp as [Hf Hwp].
pose proof (guard_write_spec control_ok (control g) (a_control a) c Sc (holds_control _ _ Hg) Hf) as Hs.
unfold write_control. destruct (guard_write _ _ _) as [[] store]; cbv zeta.
+ apply (run_ends_from (set_control g store)); [done|].
  apply (IH _ (put_control a c)); [by split| |done]. by apply holds_set_control.
+ destruct Hs as [Hw Hs]. apply (run_ends_from (set_control g store)); [done|].
  apply (poison_ends _ a); [|right; left; exact Hw].
  rewrite <- (put_same_control a). by apply holds_set_control.
- destruct (a_pins a !! i) as [pin|] eqn:Epin; [|done].
destruct (lookup_holds _ _ _ _ _ (holds_pins _ _ Hg) Epin) as (old & -> & Hold).
destruct (guard_read_spec pin_ok zero_pin old pin Sp Hold) as (store & Er & Hs).
unfold read_pin. rewrite Er. cbv zeta.
apply (run_ends_from (set_pin g i store)); [done|].
apply (IH _ _ a); [by split| |done]. rewrite <- (put_same_pin a i pin) by done. by apply holds_set_pin.
- destruct Hwp as (Hf & Hlt & Hwp).
destruct (lookup_lt_is_Some_2 _ _ Hlt) as [pin Epin].
destruct (lookup_holds _ _ _ _ _ (holds_pins _ _ Hg) Epin) as (old & Eold & Hold). rewrite Eold.
pose proof (guard_write_spec pin_ok old pin q Sp Hold Hf) as Hs.
unfold write_pin. destruct (guard_write _ _ _) as [[] store]; cbv zeta.
+ apply (run_ends_from (set_pin g i store)); [done|].
  apply (IH _ (put_pin a i q)); [by split| |done]. by apply holds_set_pin.
+ destruct Hs as [Hw Hs]. apply (run_ends_from (set_pin g i store)); [done|].
  apply (poison_ends _ a).
  * rewrite <- (put_same_pin a i pin) by done. by apply holds_set_pin.
  * right. right. left. apply list.Exists_exists. exists store. split; [|done].
    apply (list_elem_of_lookup_2 _ i). cbn. apply list_lookup_insert_eq. by apply lookup_lt_Some in Eold.
- destruct (a_media a !! i) as [m|] eqn:Em; [|done].
destruct (lookup_holds _ _ _ _ _ (holds_media _ _ Hg) Em) as (old & -> & Hold).
destruct (guard_read_spec media_ok (Media 0) old m Sm Hold) as (store & Er & Hs).
unfold read_media. rewrite Er. cbv zeta.
apply (run_ends_from (set_media g i store)); [done|].
apply (IH _ _ a); [by split| |done]. rewrite <- (put_same_media a i m) by done. by apply holds_set_media.
- destruct Hwp as (Hf & Hlt & Hwp).
destruct (lookup_lt_is_Some_2 _ _ Hlt) as [m Em].
destruct (lookup_holds _ _ _ _ _ (holds_media _ _ Hg) Em) as (old & Eold & Hold). rewrite Eold.
pose proof (guard_write_spec media_ok old m q Sm Hold Hf) as Hs.
unfold write_media. destruct (guard_write _ _ _) as [[] store]; cbv zeta.
+ apply (run_ends_from (set_media g i store)); [done|].
  apply (IH _ (put_media a i q)); [by split| |done]. by apply holds_set_media.
+ destruct Hs as [Hw Hs]. apply (run_ends_from (set_media g i store)); [done|].
  apply (poison_ends _ a).
  * rewrite <- (put_same_media a i m) by done. by apply holds_set_media.
  * right. right. right. apply list.Exists_exists. exists store. split; [|done].
    apply (list_elem_of_lookup_2 _ i). cbn. apply list_lookup_insert_eq. by apply lookup_lt_Some in Eold.
Qed.
End stores.

(** ** The state invariant *)
Definition borrowed_slot (c : guard_control_t) : nat := Z.to_nat (token_slot (borrowed_pin c) - 1).

(** The media generation recorded in an active pin is the current one. *)
Definition pin_current (a : astate) (p : guard_pin_t) : Prop :=
∃ m, a_media a !! Z.to_nat (resource (p_key p)) = Some m ∧ m_generation m = p_media_generation p.

(** The pin a reservation has borrowed. *)
Definition borrows (c : guard_control_t) (p : guard_pin_t) : Prop :=
pin_active p = true ∧ p_generation p = token_generation (borrowed_pin c) ∧ p_service p = owner c ∧
resource (p_key p) = c_resource c ∧ kind (p_key p) = REIST_FILE_OBJECT_FAT32.

(** [core_ok] without the currency of the pins. *)
Record core_ok (a : astate) : Prop := {
ok_control : fine control_ok (a_control a);
ok_pins : Forall (fine pin_ok) (a_pins a);
ok_media : Forall (fine media_ok) (a_media a);
ok_slots : length (a_pins a) = 16%nat;
ok_resources : length (a_media a) = 32%nat;
ok_alone i p :
  is_active (a_control a) = true → mode (a_control a) ≠ 0 → a_pins a !! i = Some p →
  pin_active p = true → resource (p_key p) = c_resource (a_control a) →
  borrowed_pin (a_control a) ≠ 0 ∧ i = borrowed_slot (a_control a);
ok_borrowed :
  borrowed_pin (a_control a) ≠ 0 →
  ∃ p, a_pins a !! borrowed_slot (a_control a) = Some p ∧ borrows (a_control a) p
}.

Definition state_ok (a : astate) : Prop :=
core_ok a ∧ ∀ i p, a_pins a !! i = Some p → pin_active p = true → pin_current a p.

(** ** What a step may change *)
Definition same_reservation (c c' : guard_control_t) : Prop :=
is_active c' = true ∧ c_generation c' = c_generation c.

Record moves (lifted : Z → Prop) (settled : Prop) (a a' : astate) : Prop := {
moves_epoch : epoch (a_control a) <= epoch (a_control a');
moves_generation : c_generation (a_control a) <= c_generation (a_control a');
moves_pins i p p' : a_pins a !! i = Some p → a_pins a' !! i = Some p' →
  p_generation p <= p_generation p' ∧
  (p_generation p' = p_generation p → pin_active p' = true → p' = p);
moves_reservation :
  same_reservation (a_control a) (a_control a') →
  is_active (a_control a) = true ∧ owner (a_control a') = owner (a_control a) ∧
  c_resource (a_control a') = c_resource (a_control a) ∧
  (attempted (a_control a) ≠ 0 → attempted (a_control a') ≠ 0);
moves_fences r : 0 <= r < 32 → fence_bit (fenced (a_control a)) r = true →
  fence_bit (fenced (a_control a')) r = true ∨ lifted r;
moves_uncertain :
  is_active (a_control a) = true → attempted (a_control a) ≠ 0 → 0 <= c_resource (a_control a) < 32 →
  same_reservation (a_control a) (a_control a') ∨
  fence_bit (fenced (a_control a')) (c_resource (a_control a)) = true ∨
  settled ∨ lifted (c_resource (a_control a));
moves_slots : length (a_pins a') = length (a_pins a);
moves_quiet :
  same_reservation (a_control a) (a_control a') →
  ∀ i p, a_pins a' !! i = Some p → pin_active p = true → a_pins a !! i = Some p
}.

Lemma refused_unless (b x : bool) : (if b then false else x) = true ↔ b = false ∧ x = true.
Proof using. destruct b, x; intuition congruence. Qed.

Lemma and_iff_compat (A B C D : Prop) : (A ↔ B) → (C ↔ D) → (A ∧ C ↔ B ∧ D).
Proof using. tauto. Qed.

Ltac decide_tests :=
repeat match goal with
| |- context [?x =? ?y] => destruct (Z.eqb_spec x y)
| |- context [?x <? ?y] => destruct (Z.ltb_spec x y)
| |- context [?x <=? ?y] => destruct (Z.leb_spec x y)
end.

Lemma control_ok_spec c :
well_typed c → control_ok c = true ↔
epoch c ≠ 0 ∧ active c <= 1 ∧ attempted c <= 1 ∧ pending c <= attempted c ∧
(mode c = 0 ∨ mode c = 2 ∨ mode c = 4) ∧
(mode c = 4 → c_resource c < 32 ∧ borrowed_pin c = 0 ∧ request_handle c = 0 ∧
   fence_bit (fenced c) (c_resource c) = true) ∧
(mode c = 0 → attempted c = 0 ∧ pending c = 0 ∧ borrowed_pin c = 0) ∧
(borrowed_pin c = 0 ↔ request_handle c = 0) ∧
(borrowed_pin c ≠ 0 → token_generation (borrowed_pin c) ≠ 0 ∧ 1 <= token_slot (borrowed_pin c) <= 16) ∧
((active c = 0 → deadline_ms c = 0 ∧ owner c = zero_owner ∧ c_resource c = 0 ∧ mode c = 0 ∧
   attempted c = 0 ∧ pending c = 0 ∧ borrowed_pin c = 0 ∧ request_handle c = 0) ∧
 (active c ≠ 0 → guard_owner_valid (owner c) = true ∧ c_generation c ≠ 0 ∧ deadline_ms c ≠ 0 ∧
   c_resource c < 32)).
Proof using.
rewrite control_typed. intros Ht.
assert (Hslot : 0 <= token_slot (borrowed_pin c)) by (apply Z.land_nonneg; lia).
unfold control_ok, REIST_FILE_OBJECT_EXTERNAL_JOURNAL, FILE_OBJECT_GUARD_REPAIR_MODE,
  FILE_OBJECT_GUARD_RESOURCES, FILE_OBJECT_GUARD_CAPACITY, zero_owner.
destruct (owner c) as [op og]. cbn [pid generation] in *.
generalize (guard_owner_valid (Owner op og)) (fence_bit (fenced c) (c_resource c)).
intros v f. unfold_words. rewrite refused_unless, !orb_false_iff, !Logic.and_assoc.
repeat apply and_iff_compat.
- by rewrite Z.eqb_neq.
- rewrite Z.ltb_ge. lia.
- rewrite Z.ltb_ge. lia.
- rewrite Z.ltb_ge. lia.
- rewrite !andb_false_iff, !negb_false_iff, !Z.eqb_eq. tauto.
- decide_tests; destruct f; cbn; intuition (congruence || lia).
- decide_tests; cbn; intuition (congruence || lia).
- decide_tests; cbn; intuition (congruence || lia).
- decide_tests; cbn; intuition (congruence || lia).
- destruct (Z.eqb_spec (active c) 0) as [Ea|Ea].
  + rewrite !andb_true_iff, !Z.eqb_eq. split.
    * intros [[[[[[[[? ->] ->] ?] ?] ?] ?] ?] ?]. by split.
    * intros [Hz _]. destruct (Hz Ea) as (? & Eo & ?). injection Eo as -> ->. tauto.
  + rewrite !andb_true_iff, !negb_true_iff, !Z.eqb_neq, Z.ltb_lt. tauto.
Qed.

(** ** Fences as bits *)
Lemma fence_bit_testbit mask r : 0 <= r → fence_bit mask r = Z.testbit mask r.
Proof using. intros Hr. unfold fence_bit. rewrite Z.shiftl_1_l. by apply land_pow2_zero. Qed.

Lemma fence_bit_add mask s r :
0 <= r → 0 <= s → fence_bit (Z.lor mask (Z.shiftl 1 s)) r = fence_bit mask r || (s =? r).
Proof using.
intros Hr Hs. rewrite !fence_bit_testbit, Z.lor_spec, Z.shiftl_1_l by done.
by rewrite Z.pow2_bits_eqb.
Qed.

Lemma fence_bit_clear mask s r :
0 <= r → 0 <= s →
fence_bit (Z.land mask (Z.lnot (Z.shiftl 1 s))) r = fence_bit mask r && negb (s =? r).
Proof using.
intros Hr Hs. rewrite !fence_bit_testbit, Z.land_spec, Z.lnot_spec, Z.shiftl_1_l by done.
by rewrite Z.pow2_bits_eqb.
Qed.

Lemma fence_bit_lor m1 m2 r :
0 <= r → fence_bit (Z.lor m1 m2) r = fence_bit m1 r || fence_bit m2 r.
Proof using. intros Hr. by rewrite !fence_bit_testbit, Z.lor_spec. Qed.

Lemma shiftl_u32 r : 0 <= r < 32 → is_u32 (Z.shiftl 1 r).
Proof using. intros. rewrite Z.shiftl_1_l. by apply pow2_u32. Qed.

(** ** Moves compose *)
Lemma moves_refl l st a : moves l st a a.
Proof using.
split; try done; try lia; auto.
- intros i p p' Hp Hp'. simplify_eq. by split.
- intros [Ha _]. by split_and!.
- intros Ha _ _. left. by split.
Qed.

Lemma moves_trans l st a1 a2 a3 : moves l st a1 a2 → moves l st a2 a3 → moves l st a1 a3.
Proof using.
intros M1 M2. pose proof (moves_slots _ _ _ _ M1) as Hl.
assert (Hback : same_reservation (a_control a1) (a_control a3) →
  same_reservation (a_control a1) (a_control a2) ∧ same_reservation (a_control a2) (a_control a3)).
{ intros [Ha Hg]. pose proof (moves_generation _ _ _ _ M1). pose proof (moves_generation _ _ _ _ M2).
  assert (same_reservation (a_control a2) (a_control a3)) as H2 by (split; [done|lia]).
  destruct (moves_reservation _ _ _ _ M2 H2) as (? & _). by split; [split; [done|lia]|]. }
split.
- pose proof (moves_epoch _ _ _ _ M1). pose proof (moves_epoch _ _ _ _ M2). lia.
- pose proof (moves_generation _ _ _ _ M1). pose proof (moves_generation _ _ _ _ M2). lia.
- intros i p p3 Hp Hp3. destruct (lookup_lt_is_Some_2 (a_pins a2) i) as [p2 Hp2].
  { rewrite Hl. by apply lookup_lt_Some in Hp. }
  destruct (moves_pins _ _ _ _ M1 i p p2 Hp Hp2) as [L1 E1].
  destruct (moves_pins _ _ _ _ M2 i p2 p3 Hp2 Hp3) as [L2 E2].
  split; [lia|]. intros Hg Ha. assert (p3 = p2) as -> by (apply E2; [lia|done]).
  apply E1; [lia|done].
- intros Hs. destruct (Hback Hs) as [H12 H23].
  destruct (moves_reservation _ _ _ _ M1 H12) as (? & O1 & R1 & T1).
  destruct (moves_reservation _ _ _ _ M2 H23) as (? & O2 & R2 & T2).
  split_and!; [done|congruence|congruence|auto].
- intros r Hr Hf. destruct (moves_fences _ _ _ _ M1 r Hr Hf) as [H|]; [|by right].
  by apply (moves_fences _ _ _ _ M2).
- intros Ha Hat Hr. destruct (moves_uncertain _ _ _ _ M1 Ha Hat Hr) as [Hs|[Hf|?]]; [| |by auto].
  + destruct (moves_reservation _ _ _ _ M1 Hs) as (_ & _ & Er & Ht). destruct Hs as [Ha2 Hg2].
    rewrite <- Er in Hr |- *. destruct (moves_uncertain _ _ _ _ M2 Ha2 (Ht Hat) Hr) as [[? ?]|?]; [|by auto].
    left. split; [done|congruence].
  + destruct (moves_fences _ _ _ _ M2 _ Hr Hf); auto.
- rewrite (moves_slots _ _ _ _ M2). done.
- intros Hs i p Hp Hact. destruct (Hback Hs) as [H12 H23].
  apply (moves_quiet _ _ _ _ M1 H12); [|done]. by apply (moves_quiet _ _ _ _ M2 H23).
Qed.

(** ** Steps of the control record *)
Lemma control_fine a : core_ok a → well_typed (a_control a) ∧ control_ok (a_control a) = true.
Proof using. by intros [[? ?] _ _ _ _ _ _]. Qed.

Lemma is_active_spec c : is_active c = true ↔ active c ≠ 0.
Proof using. unfold is_active. by rewrite negb_true_iff, Z.eqb_neq. Qed.

Lemma active_resource a : core_ok a → is_active (a_control a) = true → 0 <= c_resource (a_control a) < 32.
Proof using.
intros Ha Hact. destruct (control_fine a Ha) as [Ht Hv]. pose proof Ht as Ht'.
apply (control_ok_spec _ Ht) in Hv as (_ & _ & _ & _ & _ & _ & _ & _ & _ & _ & Hv).
apply is_active_spec in Hact. destruct (Hv Hact) as (_ & _ & _ & ?).
apply control_typed in Ht' as (_ & _ & _ & _ & _ & [? ?] & _). lia.
Qed.

(** Steps that leave the pins and the media alone. *)
Lemma moves_control l st a c' :
epoch (a_control a) <= epoch c' → c_generation (a_control a) <= c_generation c' →
(same_reservation (a_control a) c' →
 is_active (a_control a) = true ∧ owner c' = owner (a_control a) ∧
 c_resource c' = c_resource (a_control a) ∧
 (attempted (a_control a) ≠ 0 → attempted c' ≠ 0)) →
(∀ r, 0 <= r < 32 → fence_bit (fenced (a_control a)) r = true → fence_bit (fenced c') r = true ∨ l r) →
(is_active (a_control a) = true → attempted (a_control a) ≠ 0 → 0 <= c_resource (a_control a) < 32 →
 same_reservation (a_control a) c' ∨ fence_bit (fenced c') (c_resource (a_control a)) = true ∨
 st ∨ l (c_resource (a_control a))) →
moves l st a (put_control a c').
Proof using.
intros ? ? ? ? ?. split; try done. intros i p p' Hp Hp'. cbn in Hp'. simplify_eq. by split.
Qed.

Definition finished (c : guard_control_t) (mask : Z) (uncertain : bool) : guard_control_t :=
with_epoch (retired (with_fenced c mask) uncertain) (epoch c + 1).

Lemma finished_fine c mask uncertain :
fine control_ok c → is_active c = true → is_u32 mask → epoch c ≠ UINT64_MAX →
fine control_ok (finished c mask uncertain).
Proof using.
intros [Ht Hv] Hact Hm He. pose proof Ht as Ht'. apply control_typed in Ht' as (? & _ & _ & _ & ? & [? ?] & _).
apply (control_ok_spec _ Ht) in Hv as (? & _ & _ & _ & _ & _ & _ & _ & _ & _ & Hv).
apply is_active_spec in Hact. destruct (Hv Hact) as (_ & _ & _ & ?).
assert (well_typed (finished c mask uncertain)) as Ht2.
{ apply control_typed. cbn. destruct uncertain; split_and!; try done; try ulia.
  apply lor_u32; [done|]. apply shiftl_u32. lia. }
split; [done|]. apply (control_ok_spec _ Ht2). cbn.
split_and!; try done; try lia; try (unfold_words; lia); by left.
Qed.

(** What a finish leaves. *)
Definition finish_post (l : Z → Prop) (st : Prop) (a : astate) (mask : Z) (uncertain : bool)
(r : Z + guard_control_t) (a' : astate) : Prop :=
let c' := finished (a_control a) mask uncertain in
r = inr c' ∧ a' = put_control a c' ∧ core_ok a' ∧ moves l st a a'.

Lemma wp_finish l st a c mask uncertain :
core_ok a → is_active (a_control a) = true → c = with_fenced (a_control a) mask → is_u32 mask →
(∀ r, 0 <= r < 32 → fence_bit (fenced (a_control a)) r = true → fence_bit mask r = true ∨ l r) →
(uncertain = true ∨ attempted (a_control a) = 0 ∨ st ∨ l (c_resource (a_control a))) →
wp (guard_finish c uncertain) a (finish_post l st a mask uncertain).
Proof using.
intros Hok Hact -> Hm Hf Hun. pose proof (active_resource a Hok Hact) as Hr.
unfold guard_finish. apply wp_bind. unfold guard_epoch_advance.
change (epoch (retired (with_fenced (a_control a) mask) uncertain)) with (epoch (a_control a)).
destruct (Z.eqb_spec (epoch (a_control a)) UINT64_MAX) as [E|E]; [by left|].
cbn [wp bind control_write]. set (c' := with_epoch _ _).
change c' with (finished (a_control a) mask uncertain). clear c'.
set (c' := finished (a_control a) mask uncertain).
pose proof (finished_fine (a_control a) mask uncertain (ok_control a Hok) Hact Hm E) as Hfine.
fold c' in Hfine. split; [done|]. split_and!; [done|done| |].
- destruct Hok as [? ? ? ? ? ? ?]. by split.
- apply moves_control.
  + cbn. lia.
  + cbn. lia.
  + intros [Ha _]. done.
  + intros r Hr' Hb. destruct (Hf r Hr' Hb) as [Hb'|?]; [left|by right].
    cbn. destruct uncertain; [|done]. rewrite fence_bit_add by lia. cbn. by rewrite Hb'.
  + intros _ Hat _. destruct Hun as [->|[?|[?|?]]]; [|done|by auto|by auto].
    right. left. cbn. rewrite fence_bit_add by lia. cbn. by rewrite Z.eqb_refl, orb_true_r.
Qed.

Lemma with_same_fenced c : with_fenced c (fenced c) = c.
Proof using. by destruct c. Qed.

(** The plain case: nothing is lifted. *)
Lemma wp_finish_plain l st a uncertain :
core_ok a → is_active (a_control a) = true →
(uncertain = true ∨ attempted (a_control a) = 0 ∨ st) →
wp (guard_finish (a_control a) uncertain) a (finish_post l st a (fenced (a_control a)) uncertain).
Proof using.
intros Hok Hact Hun. apply wp_finish; try done.
- by rewrite with_same_fenced.
- destruct (control_fine a Hok) as [Ht _]. by apply control_typed in Ht as (_&_&_&_&_&_&_&?&_).
- auto.
- tauto.
Qed.

Lemma state_put_control a c' : state_ok a → core_ok (put_control a c') → state_ok (put_control a c').
Proof using. intros [_ Hc] Hok. split; [done|]. intros i p Hp Ha. by apply (Hc i p). Qed.

(** After the expiry check: the reservation is as it was, or gone. *)
Definition expire_post (l : Z → Prop) (st : Prop) (a : astate) (r : Z + guard_control_t) (a' : astate)
: Prop :=
∃ c', r = inr c' ∧ a' = put_control a c' ∧ state_ok a' ∧ moves l st a a' ∧
  (c' = a_control a ∨ is_active c' = false).

Lemma wp_expire l st a now :
state_ok a → wp (guard_expire (a_control a) now) a (expire_post l st a).
Proof using.
intros Hok. unfold guard_expire. destruct (is_active (a_control a)) eqn:Ea; cbn [andb].
2: { exists (a_control a). rewrite put_same_control. split_and!; try done; [apply moves_refl|by left]. }
destruct (deadline_ms (a_control a) <=? now).
2: { exists (a_control a). rewrite put_same_control. split_and!; try done; [apply moves_refl|by left]. }
eapply wp_mono; [|apply (wp_finish_plain l st); [apply Hok|done|]].
- intros r a' (-> & -> & Hc & Hm). eexists. split_and!; try done; [by apply state_put_control|by right].
- destruct (Z.eqb_spec (attempted (a_control a)) 0); [by auto|]. rewrite orb_true_r. by left.
Qed.

Lemma wp_current l st a now : state_ok a → wp (control_current now) a (expire_post l st a).
Proof using. intros Hok. apply wp_bind. cbn [wp control_read]. by apply wp_expire. Qed.

(** ** Reading pins and tokens *)
Lemma same_owner_spec x y : guard_same_owner x y = true ↔ x = y.
Proof using.
unfold guard_same_owner. destruct x, y. cbn. rewrite andb_true_iff, !Z.eqb_eq.
split; [intros [-> ->]; done|by intros [= -> ->]].
Qed.

Lemma same_key_spec x y : same_key x y = true ↔ x = y.
Proof using. unfold same_key. by rewrite bool_decide_eq_true. Qed.

Lemma slot_lookup a i : core_ok a → (i < 16)%nat → ∃ p, a_pins a !! i = Some p.
Proof using. intros Ha Hi. apply lookup_lt_is_Some_2. rewrite (ok_slots _ Ha). done. Qed.

Lemma media_lookup a r : core_ok a → 0 <= r < 32 → ∃ m, a_media a !! Z.to_nat r = Some m.
Proof using. intros Ha Hr. apply lookup_lt_is_Some_2. rewrite (ok_resources _ Ha). lia. Qed.

Lemma pin_fine a i p : core_ok a → a_pins a !! i = Some p → well_typed p ∧ pin_ok p = true.
Proof using. intros Ha Hp. exact (Forall_lookup_1 _ _ _ _ (ok_pins _ Ha) Hp). Qed.

Lemma pin_active_spec p : pin_active p = true ↔ p_active p ≠ 0.
Proof using. unfold pin_active. by rewrite negb_true_iff, Z.eqb_neq. Qed.

Lemma key_resource key : file_object_guard_key_valid key = true → is_u32 (resource key) → 0 <= resource key < 32.
Proof using.
unfold file_object_guard_key_valid, FILE_OBJECT_GUARD_RESOURCES.
destruct (Z.leb_spec 32 (resource key)); [done|]. intros _ [? ?]. lia.
Qed.

Lemma pin_ok_spec p :
well_typed p → pin_ok p = true ↔
p_active p <= 1 ∧ p_generation p <= FILE_OBJECT_GUARD_GENERATION_MAX ∧
(p_active p ≠ 0 → p_generation p ≠ 0 ∧ p_media_generation p ≠ 0 ∧
   guard_owner_valid (p_service p) = true ∧ guard_owner_valid (p_client p) = true ∧
   file_object_guard_key_valid (p_key p) = true) ∧
(p_active p = 0 → p_key p = zero_key ∧ p_media_generation p = 0 ∧
   (p_generation p = 0 → p_service p = zero_owner ∧ p_client p = zero_owner) ∧
   (p_generation p ≠ 0 → guard_owner_valid (p_service p) = true ∧ guard_owner_valid (p_client p) = true)).
Proof using.
intros _. unfold pin_ok, zero_owner. rewrite refused_unless, orb_false_iff, !Z.ltb_ge, Logic.and_assoc.
repeat apply and_iff_compat; [done|done|].
destruct (p_service p) as [sp sg], (p_client p) as [cp cg]. cbn [pid generation].
destruct (Z.eqb_spec (p_active p) 0) as [Ea|Ea]; cbn [negb].
- rewrite refused_unless, orb_false_iff, !negb_false_iff, same_key_spec, Z.eqb_eq, Logic.and_assoc.
  destruct (Z.eqb_spec (p_generation p) 0) as [Eg|Eg].
  + rewrite !andb_true_iff, !Z.eqb_eq. split.
    * intros (-> & -> & [[-> ->] ->] & ->). by split.
    * intros [_ Hz]. destruct (Hz Ea) as (-> & -> & Hz' & _). destruct (Hz' Eg) as [[= -> ->] [= -> ->]].
      by split_and!.
  + rewrite andb_true_iff. split; [intros (-> & -> & ?)|intros [_ Hz]; destruct (Hz Ea) as (-> & -> & _ & ?)];
      [split; [done|intros _; split_and!; [done|done|done|done]]|split_and!; [done|done|tauto|tauto]].
- rewrite !andb_true_iff, !negb_true_iff, !Z.eqb_neq. tauto.
Qed.

Lemma active_pin_resource a i p :
core_ok a → a_pins a !! i = Some p → pin_active p = true → 0 <= resource (p_key p) < 32.
Proof using.
intros Ha Hp Hact. destruct (pin_fine a i p Ha Hp) as [Ht Hv].
apply (pin_ok_spec _ Ht) in Hv as (_ & _ & Hv & _). apply pin_active_spec in Hact.
apply key_resource; [by apply Hv|]. apply pin_typed in Ht. tauto.
Qed.

(** A token names a slot, whose pin has its generation and its owners. *)
Definition token_names (a : astate) (token : Z) (service client : file_object_owner_t)
(found : guard_pin_t * nat) : Prop :=
a_pins a !! found.2 = Some found.1 ∧ found.2 = Z.to_nat (token_slot token - 1) ∧
1 <= token_slot token <= 16 ∧ token_generation token ≠ 0 ∧
p_generation found.1 = token_generation token ∧ p_service found.1 = service ∧
p_client found.1 = client.

Lemma wp_token_read a token service client :
core_ok a →
wp (guard_token_read token service client) a
  (λ r a', a' = a ∧ match r with inl _ => True | inr found => token_names a token service client found end).
Proof using.
intros Ha. unfold guard_token_read, FILE_OBJECT_GUARD_CAPACITY.
assert (0 <= token_slot token) by (apply Z.land_nonneg; lia).
destruct (Z.eqb_spec (token_slot token) 0); cbn [orb]; [done|].
destruct (Z.ltb_spec 16 (token_slot token)); cbn [orb]; [done|].
destruct (Z.eqb_spec (token_generation token) 0); [done|]. cbv zeta.
destruct (slot_lookup a (Z.to_nat (token_slot token - 1)) Ha ltac:(lia)) as [p Hp].
cbn [bind pin_read wp]. rewrite Hp.
destruct (Z.eqb_spec (p_generation p) (token_generation token)); cbn [negb fail_if bind wp]; [|done].
destruct (guard_same_owner (p_service p) service) eqn:Es; cbn [negb orb fail_if bind wp]; [|done].
destruct (guard_same_owner (p_client p) client) eqn:Ec; cbn [negb fail_if bind wp]; [|done].
apply same_owner_spec in Es, Ec. split; [done|]. unfold token_names; cbn. split_and!; try done; lia.
Qed.

(** The broken relation that [guard_owned_pin_live] guards against never
  occurs: the pin of a reservation is retired with it. *)
Lemma wp_live a : state_ok a → wp (guard_owned_pin_live (a_control a)) a (λ r a', a' = a ∧ r = inr tt).
Proof using.
intros [Ha Hcur]. unfold guard_owned_pin_live.
destruct (Z.eqb_spec (borrowed_pin (a_control a)) 0) as [|Hb]; [done|]. cbv zeta.
destruct (ok_borrowed _ Ha Hb) as (p & Hp & (Hact & Hg & Hs & Hr & Hk)).
cbn [bind pin_read wp]. fold (borrowed_slot (a_control a)). rewrite Hp, Hact, Hg, Hs, Hr, Hk, !Z.eqb_refl.
rewrite (proj2 (same_owner_spec _ _) eq_refl). cbn [negb orb poison_if bind].
destruct (Hcur _ _ Hp Hact) as (m & Hm & Hmg). rewrite Hr in Hm.
cbn [media_read bind wp]. rewrite Hm, Hmg, Z.eqb_refl. done.
Qed.

(** Loops that only read. *)
Lemma wp_scan {Acc} (body : nat → guard_pin_t → Acc → prog Acc) (P : nat → Acc → Prop) a acc :
core_ok a → P O acc →
(∀ i acc p, a_pins a !! i = Some p → P i acc →
   wp (body i p acc) a (λ r a', a' = a ∧ match r with inl _ => True | inr acc' => P (S i) acc' end)) →
wp (for_pins all_slots body acc) a
  (λ r a', a' = a ∧ match r with inl _ => True | inr acc' => P 16%nat acc' end).
Proof using.
intros Ha H0 Hbody.
eapply wp_mono; [|apply (wp_for_pins body (λ i acc a', a' = a ∧ P i acc) (λ _ a', a' = a) 16)].
- by intros [e|acc'] a'; [|intros [? ?]].
- intros i acc' a' Hi [-> HP]. destruct (slot_lookup a i Ha Hi) as [p Hp]. exists p. split; [done|].
  eapply wp_mono; [|by apply Hbody]. by intros [e|acc''] a' [? ?].
- done.
Qed.
