(* ===== verification/FileObjectGuardBodies.v ===== *)
(** The bodies of the file object guard.

    For every locked body of [FileObjectGuard]: from a valid state it ends in
    a valid state, moves as [moves] allows, and on success leaves what it
    promises ([ends]).  The combinators come first, then the bodies that only
    read, then those that write. *)
From S2P Require Import Prelude ProtectedStore.
From S2P Require Import Layout ProtectedRecord OwnedStore FileObjectGuard FileObjectGuardSpec.
Import FileObjectGuard.
Local Open Scope guard_scope.

(** ** Triples of bodies *)
Definition ends {X} (l : Z → Prop) (st : Prop) (a : astate) (Q : X → astate → Prop)
(r : Z + X) (a' : astate) : Prop :=
state_ok a' ∧ moves l st a a' ∧ match r with inl _ => True | inr x => Q x a' end.

(** The state is only read. *)
Definition reads {X} (a : astate) (Q : X → Prop) (r : Z + X) (a' : astate) : Prop :=
a' = a ∧ match r with inl _ => True | inr x => Q x end.

Definition any {X} (_ : X) (_ : astate) : Prop := True.

Lemma wp_then {X Y} l st (p : prog X) (f : X → prog Y) a P Q :
wp p a (ends l st a P) →
(∀ x a', state_ok a' → P x a' → wp (f x) a' (ends l st a' Q)) →
wp (bind p f) a (ends l st a Q).
Proof using.
intros Hp Hf. apply wp_bind. eapply wp_mono; [|exact Hp]. intros [e|x] a' (Hok & Hm & HP).
- by split_and!.
- eapply wp_mono; [|by apply Hf]. intros r a'' (Hok' & Hm' & HQ).
  split_and!; [done|by eapply moves_trans|done].
Qed.

Lemma wp_reads {X Y} l st (p : prog X) (f : X → prog Y) a P Q :
state_ok a → wp p a (reads a P) → (∀ x, P x → wp (f x) a (ends l st a Q)) →
wp (bind p f) a (ends l st a Q).
Proof using.
intros Ha Hp Hf. apply wp_bind. eapply wp_mono; [|exact Hp]. intros [e|x] a' [-> HP].
- split_and!; [done|apply moves_refl|done].
- by apply Hf.
Qed.

Lemma wp_guarded {Y} l st b e (f : unit → prog Y) a Q :
state_ok a → (b = false → wp (f tt) a (ends l st a Q)) →
wp (bind (fail_if b e) f) a (ends l st a Q).
Proof using.
intros Ha Hf. destruct b; cbn; [|by apply Hf]. split_and!; [done|apply moves_refl|done].
Qed.

Lemma wp_ret {X} l st a (x : X) (Q : X → astate → Prop) : state_ok a → Q x a → wp (Ret x) a (ends l st a Q).
Proof using. intros. split_and!; [done|apply moves_refl|done]. Qed.
Lemma wp_fail {X} l st a e (Q : X → astate → Prop) : state_ok a → wp (Fail e) a (ends l st a Q).
Proof using. intros. split_and!; [done|apply moves_refl|done]. Qed.
Lemma wp_last_guard l st b e a (Q : unit → astate → Prop) :
state_ok a → (b = false → Q tt a) → wp (fail_if b e) a (ends l st a Q).
Proof using. intros Ha HQ. destruct b; [by apply wp_fail|]. apply wp_ret; auto. Qed.

Lemma ends_any {X} l st a (Q : X → astate → Prop) r a' : ends l st a Q r a' → ends l st a any r a'.
Proof using. intros (? & ? & ?). split_and!; try done. by destruct r. Qed.

(** The state after a control read with expiry; [c] is the record in it. *)
Definition settled_at (a : astate) (c : guard_control_t) (a' : astate) : Prop :=
c = a_control a' ∧ a_pins a' = a_pins a ∧ a_media a' = a_media a ∧
(c = a_control a ∨ is_active c = false).

Lemma wp_now l st a now : state_ok a → wp (control_current now) a (ends l st a (settled_at a)).
Proof using.
intros Ha. eapply wp_mono; [|by apply (wp_current l st)].
by intros r a' (c & -> & -> & Hok & Hm & Hc).
Qed.

Lemma inactive_spec c : is_active c = false ↔ active c = 0.
Proof using. unfold is_active. by rewrite negb_false_iff, Z.eqb_eq. Qed.

Lemma wp_admit l st a r e now :
state_ok a →
wp (guard_admit r e now) a
  (ends l st a (λ c a', settled_at a c a' ∧ is_active c = false ∧ epoch c = e ∧ fence_bit (fenced c) r = false)).
Proof using.
intros Ha. eapply wp_then; [by apply wp_now|]. intros c a1 Ha1 Hc.
apply wp_guarded; [done|intros Hf]. apply wp_guarded; [done|intros Hi].
apply wp_guarded; [done|intros He]. apply wp_ret; [done|].
apply negb_false_iff, Z.eqb_eq in He. done.
Qed.

Lemma wp_token l st {Y} a token service client (f : guard_pin_t * nat → prog Y) Q :
state_ok a →
(∀ found, token_names a token service client found → wp (f found) a (ends l st a Q)) →
wp (bind (guard_token_read token service client) f) a (ends l st a Q).
Proof using. intros Ha Hf. eapply wp_reads; [done|by apply wp_token_read, Ha|]. done. Qed.

Lemma wp_live_then l st {Y} a c (f : unit → prog Y) Q :
state_ok a → c = a_control a → wp (f tt) a (ends l st a Q) →
wp (bind (guard_owned_pin_live c) f) a (ends l st a Q).
Proof using.
intros Ha -> Hf. eapply (wp_reads _ _ _ _ _ (λ _, True)); [done| |intros []; done].
eapply wp_mono; [|by apply wp_live]. by intros r a' [-> ->].
Qed.

Lemma wp_require l st {Y} c token (f : unit → prog Y) a Q :
state_ok a → (is_active c = true → c_generation c = token → wp (f tt) a (ends l st a Q)) →
wp (bind (require_token c token) f) a (ends l st a Q).
Proof using.
intros Ha Hf. apply wp_guarded; [done|].
intros [Hact%negb_false_iff Hg%negb_false_iff%Z.eqb_eq]%orb_false_iff. auto.
Qed.

(** ** Bodies that leave the records alone, apart from an expiry *)
Ltac walk :=
repeat first
  [ apply wp_require; [done|intros ?Hact ?Hgen]
  | apply wp_guarded; [done|intros ?]
  | apply wp_live_then; [done|by try subst|]
  | apply wp_ret; [done|]
  | apply wp_fail; done
  | apply wp_last_guard; [done|intros ?]
  | (eapply wp_then; [by apply wp_now|intros ?c ?a1 ?Ha1 (-> & ?Hpins & ?Hmedia & ?Hc)]) ].

Lemma wp_snapshot l st a now :
state_ok a →
wp (snapshot_body now) a (ends l st a (λ e a', epoch (a_control a') = e ∧ is_active (a_control a') = false)).
Proof using. intros Ha. unfold snapshot_body. walk. done. Qed.

Lemma wp_poll l st a now : state_ok a → wp (poll_body now) a (ends l st a any).
Proof using. intros Ha. unfold poll_body. walk. done. Qed.

Lemma wp_can_open l st a r now :
state_ok a →
wp (can_open_body r now) a (ends l st a (λ _ a', fence_bit (fenced (a_control a')) r = false)).
Proof using. intros Ha. unfold can_open_body. walk. done. Qed.

Lemma wp_authorized l st a o r now :
state_ok a →
wp (mutation_authorized_body o r now) a
  (ends l st a (λ _ a', is_active (a_control a') = true ∧ owner (a_control a') = o ∧
     c_resource (a_control a') = r ∧ fence_bit (fenced (a_control a')) r = false)).
Proof using.
intros Ha. unfold mutation_authorized_body. walk.
rename H0 into Hact, H1 into Hown. apply negb_false_iff in Hact.
apply orb_false_iff in Hown as [Hr%negb_false_iff%Z.eqb_eq Ho%negb_false_iff%same_owner_spec]. done.
Qed.

Lemma wp_owned_request l st a service token r now :
state_ok a →
wp (owned_request_body service token r now) a
  (ends l st a (λ out a', out = (request_handle (a_control a'), deadline_ms (a_control a')) ∧
     c_generation (a_control a') = token ∧ owner (a_control a') = service)).
Proof using.
intros Ha. unfold owned_request_body. walk.
apply orb_false_iff in H0 as [Ho%negb_false_iff%same_owner_spec _]. done.
Qed.

Lemma wp_context l st a o token :
state_ok a →
wp (context_body o token) a
  (ends l st a (λ x a', x = context_of (a_control a) ∧ a' = a ∧ c_generation (a_control a) = token ∧
     owner (a_control a) = o)).
Proof using.
intros Ha. unfold context_body. cbn [bind control_read wp].
walk.
by apply negb_false_iff, same_owner_spec in H.
Qed.

Lemma wp_fenced l st a : state_ok a → wp fenced_body a (ends l st a (λ m a', m = fenced (a_control a) ∧ a' = a)).
Proof using. intros Ha. unfold fenced_body. cbn. by apply wp_ret. Qed.

Lemma wp_lookup l st a token service client now :
state_ok a →
wp (lookup_body token service client now) a
  (ends l st a (λ key a', ∃ pin slot, token_names a token service client (pin, slot) ∧
     pin_active pin = true ∧ key = p_key pin ∧ fence_bit (fenced (a_control a')) (resource key) = false)).
Proof using.
intros Ha. unfold lookup_body. walk. apply wp_token; [done|]. intros [pin slot] Hn. cbn [fst].
apply wp_guarded; [done|intros Hact%negb_false_iff]. apply wp_guarded; [done|intros Hf].
pose proof (proj1 Hn) as Hpin. cbn in Hpin.
pose proof (active_pin_resource _ _ _ (proj1 Ha1) Hpin Hact) as Hr.
destruct (media_lookup _ _ (proj1 Ha1) Hr) as [m Hm].
cbn [bind media_read wp]. rewrite Hm. apply wp_guarded; [done|intros _]. apply wp_ret; [done|].
exists pin, slot. split_and!; try done. destruct Hn as (H1 & H2 & ?). rewrite Hpins in H1. split; [done|].
by split.
Qed.

Lemma wp_key_busy l st a key now : state_ok a → wp (key_busy_body key now) a (ends l st a any).
Proof using.
intros Ha. unfold key_busy_body. walk.
eapply wp_mono; [|apply (wp_scan _ (λ _ _, True) a1 tt); [apply Ha1|done|]].
- intros r a' [-> _]. split_and!; [done|apply moves_refl|by destruct r].
- intros i [] p Hp _. by destruct (_ && _).
Qed.

Lemma wp_count l st a r now detach : state_ok a → wp (count_body r now detach) a (ends l st a any).
Proof using.
intros Ha. unfold count_body. walk.
eapply wp_mono; [|apply (wp_scan _ (λ _ _, True) a1 0); [apply Ha1|done|]].
- intros x a' [-> _]. split_and!; [done|apply moves_refl|by destruct x].
- intros i acc p Hp _. done.
Qed.

Lemma wp_owner_at l st a slot :
state_ok a → 0 <= slot <= 16 → wp (owner_at_body slot) a (ends l st a any).
Proof using.
intros Ha Hs. unfold owner_at_body, FILE_OBJECT_GUARD_CAPACITY. cbn [bind control_read wp].
destruct (Z.eqb_spec slot 16); [by apply wp_ret|].
destruct (slot_lookup a (Z.to_nat slot) (proj1 Ha) ltac:(lia)) as [p Hp].
cbn [bind pin_read wp]. rewrite Hp. by apply wp_ret.
Qed.

(** ** Bodies that write *)
Lemma inactive_fields a :
core_ok a → is_active (a_control a) = false →
let c := a_control a in
deadline_ms c = 0 ∧ owner c = zero_owner ∧ c_resource c = 0 ∧ mode c = 0 ∧ attempted c = 0 ∧
pending c = 0 ∧ borrowed_pin c = 0 ∧ request_handle c = 0.
Proof using.
intros Ha Hi. destruct (control_fine a Ha) as [Ht Hv]. apply inactive_spec in Hi.
by apply (control_ok_spec _ Ht) in Hv as (_&_&_&_&_&_&_&_&_&Hv&_); apply Hv.
Qed.

(** The control record of an inactive guard is replaced. *)
Lemma core_control a c' :
core_ok a → fine control_ok c' →
(∀ i p, is_active c' = true → mode c' ≠ 0 → a_pins a !! i = Some p → pin_active p = true →
   resource (p_key p) = c_resource c' → borrowed_pin c' ≠ 0 ∧ i = borrowed_slot c') →
(borrowed_pin c' ≠ 0 → ∃ p, a_pins a !! borrowed_slot c' = Some p ∧ borrows c' p) →
core_ok (put_control a c').
Proof using. intros [? ? ? ? ? ? ?] ? ? ?. by split. Qed.

Definition cleared (p : guard_pin_t) : guard_pin_t :=
Pin zero_key (p_service p) (p_client p) (p_generation p) 0 0.

Lemma cleared_fine p : fine pin_ok p → pin_active p = true → fine pin_ok (cleared p).
Proof using.
intros [Ht Hv] Hact%pin_active_spec. pose proof Ht as Ht'.
apply pin_typed in Ht' as (_&_&_&_&_&_&?&?&?&?&[? ?]&_&_).
apply (pin_ok_spec _ Ht) in Hv as (_ & ? & Hv & _). destruct (Hv Hact) as (? & _ & ? & ? & _).
assert (well_typed (cleared p)) as Ht2.
{ apply pin_typed. unfold cleared, zero_key. cbn. split_and!; try done; lia. }
split; [done|]. apply (pin_ok_spec _ Ht2). cbn. split_and!; try done; lia.
Qed.

(** Replacing one pin. *)
Lemma core_pin a i p p' :
core_ok a → a_pins a !! i = Some p → fine pin_ok p' →
(borrowed_pin (a_control a) ≠ 0 → i ≠ borrowed_slot (a_control a)) →
(is_active (a_control a) = true → mode (a_control a) ≠ 0 → pin_active p' = true →
   resource (p_key p') = c_resource (a_control a) → False) →
core_ok (put_pin a i p').
Proof using.
intros [Hc Hps Hm Hs Hr Halone Hb] Hp Hf Hnb Hno. split; cbn; try done.
- by apply Forall_insert.
- by rewrite length_insert.
- intros j q Hact Hmode Hq Hqa Hqr. apply list_lookup_insert_Some in Hq as [(-> & -> & _)|[? Hq]].
  + by destruct (Hno Hact Hmode Hqa Hqr).
  + by apply (Halone j q).
- intros Hbp. destruct (Hb Hbp) as (q & Hq & Hbor). exists q. split; [|done].
  rewrite list_lookup_insert_ne; [done|by apply Hnb].
Qed.

Lemma moves_pin l st a i p p' :
a_pins a !! i = Some p → p_generation p <= p_generation p' →
(p_generation p' = p_generation p → pin_active p' = true → p' = p) →
(is_active (a_control a) = true → pin_active p' = false) →
moves l st a (put_pin a i p').
Proof using.
intros Hp Hg He Hquiet. destruct (moves_refl l st a) as [? ? ? ? ? ? ? ?]. split; cbn; try done.
- intros j q q' Hq Hq'. apply list_lookup_insert_Some in Hq' as [(-> & -> & _)|[? Hq']]; simplify_eq; [done|].
  by split.
- by rewrite length_insert.
- intros [Hact _] j q Hj Hqa. apply list_lookup_insert_Some in Hj as [(-> & -> & _)|[? ?]]; [|done].
  by rewrite (Hquiet Hact) in Hqa.
Qed.

Lemma wp_clear l st a i p :
core_ok a → a_pins a !! i = Some p → pin_active p = true →
(borrowed_pin (a_control a) ≠ 0 → i ≠ borrowed_slot (a_control a)) →
wp (guard_pin_clear i p) a
  (λ r a', r = inr tt ∧ a' = put_pin a i (cleared p) ∧ core_ok a' ∧ moves l st a a').
Proof using.
intros Ha Hp Hact Hnb. unfold guard_pin_clear. cbn [pin_write wp].
assert (fine pin_ok (cleared p)) as Hf by (apply cleared_fine; [exact (pin_fine a i p Ha Hp)|done]).
split; [done|]. split; [by apply lookup_lt_Some in Hp|]. split_and!; [done|done| |].
- by apply (core_pin a i p).
- by apply (moves_pin _ _ a i p).
Qed.

(** The other pins stay current. *)
Lemma state_pin a i p' :
state_ok a → core_ok (put_pin a i p') → (pin_active p' = true → pin_current a p') →
state_ok (put_pin a i p').
Proof using.
intros [_ Hcur] Hok Hp'. split; [done|]. intros j q Hq Hqa.
apply list_lookup_insert_Some in Hq as [(-> & -> & _)|[? Hq]]; [by apply Hp'|by apply (Hcur j q)].
Qed.

Lemma wp_clear_state l st a i p :
state_ok a → a_pins a !! i = Some p → pin_active p = true →
(borrowed_pin (a_control a) ≠ 0 → i ≠ borrowed_slot (a_control a)) →
wp (guard_pin_clear i p) a (ends l st a (λ _ a', a' = put_pin a i (cleared p))).
Proof using.
intros Ha Hp Hact Hnb. eapply wp_mono; [|apply (wp_clear l st); [apply Ha|done|done|done]].
intros r a' (-> & -> & Hok & Hm). split_and!; [by apply state_pin|done|done].
Qed.

Lemma make_token_parts gen slot :
0 <= gen → (slot < 16)%nat →
token_generation (make_token gen slot) = gen ∧ token_slot (make_token gen slot) = Z.of_nat slot + 1 ∧
make_token gen slot = gen * 256 + (Z.of_nat slot + 1).
Proof using.
intros Hg Hs.
assert (make_token gen slot = gen * 256 + (Z.of_nat slot + 1)) as E.
{ unfold make_token. pose proof (Z.add_lor_land (Z.shiftl gen 8) (Z.of_nat slot + 1)) as E.
  rewrite Z.shiftl_mul_pow2 in * by lia.
  enough (Z.land (gen * 2 ^ 8) (Z.of_nat slot + 1) = 0) as E0 by lia.
  apply Z.bits_inj'. intros k Hk. rewrite Z.land_spec, Z.bits_0, <- Z.shiftl_mul_pow2, Z.shiftl_spec by lia.
  destruct (Z.ltb_spec k 8); [by rewrite Z.testbit_neg_r by lia|].
  rewrite (Z.bits_above_log2 (Z.of_nat slot + 1)); [apply andb_false_r|lia|].
  apply Z.log2_lt_pow2; [lia|]. apply Z.lt_le_trans with (2 ^ 8); [lia|]. apply Z.pow_le_mono_r; lia. }
unfold token_generation, token_slot. change 255 with (Z.ones 8).
rewrite Z.land_ones, Z.shiftr_div_pow2, E by lia. change (2 ^ 8) with 256.
split_and!; [|rewrite Z.add_comm, Z.mod_add, Z.mod_small; lia|done].
rewrite Z.add_comm, Z.div_add, Z.div_small by lia. lia.
Qed.

Lemma token_split token : token = token_generation token * 256 + token_slot token.
Proof using.
unfold token_generation, token_slot. change 255 with (Z.ones 8).
rewrite Z.land_ones, Z.shiftr_div_pow2 by lia. change (2 ^ 8) with 256.
rewrite Z.mul_comm. apply Z.div_mod. lia.
Qed.

Lemma token_inj t u :
token_generation t = token_generation u → token_slot t = token_slot u → t = u.
Proof using. intros Hg Hs. rewrite (token_split t), (token_split u), Hg, Hs. done. Qed.

(** The slot of a borrowed pin is named by no other token. *)
Lemma borrowed_other a i p token :
core_ok a → a_pins a !! i = Some p → i = Z.to_nat (token_slot token - 1) → 1 <= token_slot token →
p_generation p = token_generation token → borrowed_pin (a_control a) ≠ token →
borrowed_pin (a_control a) ≠ 0 → i ≠ borrowed_slot (a_control a).
Proof using.
intros Ha Hp -> Hs Hg Hne Hb E. destruct (ok_borrowed _ Ha Hb) as (q & Hq & _ & Hqg & _).
rewrite <- E in Hq. simplify_eq. apply Hne, token_inj; [congruence|].
destruct (control_fine a Ha) as [Ht Hv].
apply (control_ok_spec _ Ht) in Hv as (_&_&_&_&_&_&_&_&Hv&_). destruct (Hv Hb) as (_ & ? & _).
unfold borrowed_slot in E. lia.
Qed.

Lemma finished_inactive c m u : is_active (finished c m u) = false ∧ borrowed_pin (finished c m u) = 0.
Proof using. done. Qed.

(** A finish in the middle of a body, when nothing is lifted. *)
Lemma wp_finish_ends l st a uncertain :
state_ok a → is_active (a_control a) = true →
(uncertain = true ∨ attempted (a_control a) = 0 ∨ st) →
wp (guard_finish (a_control a) uncertain) a
  (ends l st a (λ c a', c = a_control a' ∧ a' = put_control a c ∧ is_active c = false)).
Proof using.
intros Ha Hact Hu. eapply wp_mono; [|apply (wp_finish_plain l st a uncertain); [apply Ha|done|done]].
intros r a' (-> & -> & Hok & Hm). split_and!; try done. by apply state_put_control.
Qed.

(** Finishing the reservation if a test says so. *)
Lemma wp_finish_if l st a (b : bool) :
state_ok a →
wp (if is_active (a_control a) && b then guard_finish (a_control a) true else Ret (a_control a)) a
  (ends l st a (λ c a', c = a_control a' ∧ a' = put_control a c ∧
     (is_active c = true → c = a_control a ∧ b = false))).
Proof using.
intros Ha. destruct (is_active (a_control a)) eqn:Hact; cbn [andb].
2: { apply wp_ret; [done|]. rewrite put_same_control. split_and!; [done|done|congruence]. }
destruct b; [|apply wp_ret; [done|]; by rewrite put_same_control].
eapply wp_mono; [|apply (wp_finish_ends l st); [done|done|by left]].
intros [e|c] a' (? & ? & HQ); (split; [done|split; [done|]]); [done|].
destruct HQ as (-> & E & Hi). split_and!; [done|done|congruence].
Qed.

Lemma wp_release l st a token service client :
state_ok a →
wp (release_body token service client) a
  (ends l st a (λ _ a', ∃ p slot, token_names a token service client (p, slot) ∧
     ∃ p', a_pins a' !! slot = Some p' ∧ pin_active p' = false ∧ p_generation p' = p_generation p)).
Proof using.
intros Ha. unfold release_body. cbn [bind control_read wp].
apply wp_token; [done|]. intros [p slot] Hn. cbn [fst snd].
pose proof Hn as [_ Hrest]. destruct Hn as (Hp & Hslot & Hs & Hg0 & Hg & Hsv & Hcl).
cbn [fst snd] in *.
eapply (wp_then _ _ _ _ _ (λ _ a', a_pins a' = a_pins a ∧ borrowed_pin (a_control a') ≠ token)).
- destruct (is_active (a_control a)) eqn:Hact; cbn [andb].
  + destruct (Z.eqb_spec (borrowed_pin (a_control a)) token) as [E|E]; [|by apply wp_ret].
    eapply wp_then; [apply wp_finish_ends; [done|done|by left]|].
    intros c a1 Ha1 (-> & E1 & Hi). apply wp_ret; [done|].
    rewrite E1. destruct (inactive_fields a1 (proj1 Ha1) Hi) as (_&_&_&_&_&_&E0&_).
    cbn. rewrite E0. split; [done|]. intros <-. done.
  + apply wp_ret; [done|]. destruct (inactive_fields a (proj1 Ha) Hact) as (_&_&_&_&_&_&E0&_).
    rewrite E0. split; [done|]. by intros <-.
- intros [] a1 Ha1 [Epins Hb]. rewrite <- Epins in Hp.
  assert (token_names a token service client (p, slot)) as Hn.
  { split; [by rewrite <- Epins|exact Hrest]. }
  destruct (pin_active p) eqn:Hact.
  + eapply wp_mono; [|apply wp_clear_state; [done|exact Hp|done|]].
    * intros [e|[]] a' (? & ? & HQ); (split; [done|split; [done|]]); [done|]. cbn in HQ. subst a'.
      exists p, slot. split; [done|]. exists (cleared p). split_and!; try done.
      cbn. rewrite list_lookup_insert_eq; [done|by apply lookup_lt_Some in Hp].
    * apply (borrowed_other a1 slot p token); try done; [apply Ha1|lia].
  + apply wp_ret; [done|]. exists p, slot. split; [done|]. by exists p.
Qed.

(** Arguments of the widths the C types give them. *)
Definition owner_typed (o : file_object_owner_t) : Prop := is_u32 (pid o) ∧ is_u32 (generation o).
Definition key_typed (k : reist_file_object_key_t) : Prop :=
is_u32 (kind k) ∧ is_u32 (resource k) ∧ is_u32 (object_a k) ∧ is_u32 (object_b k) ∧
0 <= alias k < 2 ^ 96 ∧ is_u32 (key_reserved k).

Lemma epoch_fine c : fine control_ok c → epoch c ≠ UINT64_MAX → fine control_ok (with_epoch c (epoch c + 1)).
Proof using.
intros [Ht Hv] He. pose proof Ht as Ht'. apply control_typed in Ht' as (? & Ht').
assert (well_typed (with_epoch c (epoch c + 1))) as Ht2 by (apply control_typed; split; [cbn; ulia|done]).
split; [done|]. apply (control_ok_spec _ Ht) in Hv as [_ Hv].
apply (control_ok_spec _ Ht2). split; [cbn; ulia|done].
Qed.

(** Advancing the epoch and writing the record back. *)
Lemma wp_advance l st a :
state_ok a →
wp (c <- guard_epoch_advance (a_control a);; control_write c) a
  (ends l st a (λ _ a', a' = put_control a (with_epoch (a_control a) (epoch (a_control a) + 1)))).
Proof using.
intros Ha. unfold guard_epoch_advance.
destruct (Z.eqb_spec (epoch (a_control a)) UINT64_MAX) as [E|E]; [by left|].
cbn [bind control_write wp]. split; [apply epoch_fine; [apply Ha|done]|].
split_and!; [|apply moves_control; cbn; try lia|done].
- apply state_put_control; [done|]. apply core_control; [apply Ha|apply epoch_fine; [apply Ha|done]|apply Ha|apply Ha].
- by intros [].
- auto.
- intros. by left.
Qed.

Lemma wp_legacy_enter l st a now : state_ok a → wp (legacy_enter_body now) a (ends l st a any).
Proof using.
intros Ha. unfold legacy_enter_body. walk. eapply wp_mono; [|by apply (wp_advance l st)].
intros r a'. apply ends_any.
Qed.

(** Taking the reservation of an idle guard. *)
Definition reserved_in (a : astate) (o : file_object_owner_t) (r deadline m borrowed handle : Z)
: guard_control_t :=
reserve (with_epoch (a_control a) (epoch (a_control a) + 1)) o r deadline m borrowed handle.

Lemma wp_reserve l st a o r deadline m borrowed handle :
state_ok a → is_active (a_control a) = false → c_generation (a_control a) ≠ UINT32_MAX →
guard_owner_valid o = true → owner_typed o → 0 <= r < 32 → is_u64 deadline → deadline ≠ 0 →
is_u32 borrowed → is_u32 handle →
(m = 0 ∨ m = 2 ∨ m = 4) → (m = 0 → borrowed = 0) →
(m = 4 → borrowed = 0 ∧ fence_bit (fenced (a_control a)) r = true) →
(borrowed = 0 ↔ handle = 0) →
(borrowed ≠ 0 → token_generation borrowed ≠ 0 ∧ 1 <= token_slot borrowed <= 16 ∧
   ∃ p, a_pins a !! Z.to_nat (token_slot borrowed - 1) = Some p ∧ pin_active p = true ∧
     p_generation p = token_generation borrowed ∧ p_service p = o ∧
     resource (p_key p) = r ∧ kind (p_key p) = REIST_FILE_OBJECT_FAT32) →
(m ≠ 0 → ∀ i p, a_pins a !! i = Some p → pin_active p = true → resource (p_key p) = r →
   borrowed ≠ 0 ∧ i = Z.to_nat (token_slot borrowed - 1)) →
wp (c <- guard_epoch_advance (a_control a);;
    let c := reserve c o r deadline m borrowed handle in control_write c;;; Ret (c_generation c)) a
  (ends l st a (λ token a', a' = put_control a (reserved_in a o r deadline m borrowed handle) ∧
     token = c_generation (a_control a) + 1)).
Proof using.
intros Ha Hi Hg Ho [? ?] Hr Hd Hd0 Hbu Hhu Hm Hm0 Hm4 Hbh Hb Halone.
destruct (inactive_fields a (proj1 Ha) Hi) as (_&_&_&_&Eat&Epe&_&_).
destruct (control_fine a (proj1 Ha)) as [Ht _].
apply control_typed in Ht as (? & _ & _ & _ & ? & _ & _ & ? & _).
unfold guard_epoch_advance. destruct (Z.eqb_spec (epoch (a_control a)) UINT64_MAX) as [E|E]; [by left|].
cbn [bind control_write wp]. fold (reserved_in a o r deadline m borrowed handle).
set (c' := reserved_in a o r deadline m borrowed handle).
assert (fine control_ok c') as Hf.
{ assert (well_typed c') as Ht.
  { apply control_typed. cbn. rewrite Eat, Epe. split_and!; try done; ulia. }
  split; [done|]. apply (control_ok_spec _ Ht). cbn [c' reserved_in reserve with_epoch epoch deadline_ms owner
    c_generation c_resource active fenced mode attempted pending borrowed_pin request_handle].
  rewrite Eat, Epe. split_and!; try done; try lia; try ulia.
  - intros Em. destruct (Hm4 Em) as [Eb Ef]. split_and!; [lia|done|by apply Hbh|done].
  - intros _. split_and!; [done|ulia|done|lia]. }
split; [done|]. split_and!; try done.
- apply state_put_control; [done|]. apply core_control; [apply Ha|done| |].
  + intros i p _ Hmode Hp Hpa Hpr. by apply (Halone Hmode i p).
  + intros Hb0. destruct (Hb Hb0) as (_ & _ & p & Hp & ? & ? & ? & ? & ?).
    exists p. split; [done|]. done.
- apply moves_control; cbn; [lia|lia|intros [_ Hge]; cbn in Hge; lia|auto|congruence].
Qed.

Lemma scan_slots (P : nat → guard_pin_t → Prop) a :
core_ok a → (∀ i p, (i < 16)%nat → a_pins a !! i = Some p → P i p) →
∀ i p, a_pins a !! i = Some p → P i p.
Proof using.
intros Ha HP i p Hp. apply HP; [|done]. apply lookup_lt_Some in Hp. by rewrite (ok_slots _ Ha) in Hp.
Qed.

(** A scan that refuses a kind of pin. *)
Lemma wp_refusing (body : nat → guard_pin_t → unit → prog unit) (P : nat → guard_pin_t → Prop) a :
core_ok a →
(∀ i p, a_pins a !! i = Some p → wp (body i p tt) a (reads a (λ _, P i p))) →
wp (for_pins all_slots body tt) a (reads a (λ _, ∀ i p, a_pins a !! i = Some p → P i p)).
Proof using.
intros Ha Hbody.
eapply wp_mono; [|apply (wp_scan body
  (λ n _, ∀ i p, (i < n)%nat → a_pins a !! i = Some p → P i p) a tt); [done|by intros; lia|]].
- intros [e|[]] a' [-> HP]; split; try done. by apply scan_slots.
- intros i [] p Hp HP. eapply wp_mono; [|by apply Hbody].
  intros [e|[]] a' [-> Hq]; split; try done. intros j q Hj Hjq.
  destruct (decide (j = i)) as [->|]; [by simplify_eq|]. apply HP; [lia|done].
Qed.

Lemma reads_fail_if a b e (Q : Prop) : (b = false → Q) → wp (fail_if b e) a (reads a (λ _, Q)).
Proof using. intros HQ. destruct b; cbn; split; auto. Qed.

Lemma wp_repair_begin l st a r o e now deadline :
state_ok a → 0 <= r < 32 → guard_owner_valid o = true → owner_typed o → is_u64 deadline →
deadline ≠ 0 →
wp (repair_begin_body r o e now deadline) a
  (ends l st a (λ token a', c_generation (a_control a') = token ∧ is_active (a_control a') = true ∧
     mode (a_control a') = FILE_OBJECT_GUARD_REPAIR_MODE ∧ c_resource (a_control a') = r)).
Proof using.
intros Ha Hr Ho Hot Hd Hd0. unfold repair_begin_body. walk.
apply negb_false_iff in H.
eapply (wp_reads _ _ _ _ a1 (λ _, ∀ i p, a_pins a1 !! i = Some p → pin_active p = true →
  resource (p_key p) = r → False)); [done| |].
- apply wp_refusing; [apply Ha1|]. intros i p Hp. apply reads_fail_if. intros E Hact Hpr.
  by rewrite Hact, Hpr, Z.eqb_refl in E.
- intros [] Hnone. apply wp_guarded; [done|intros Hg%Z.eqb_neq].
  destruct (inactive_fields a1 (proj1 Ha1) H0) as (_&_&_&_&_&_&Eb&Eh).
  unfold guard_epoch_advance. destruct (Z.eqb_spec (epoch (a_control a1)) UINT64_MAX) as [E|E]; [by left|].
  cbn [bind]. cbn [borrowed_pin request_handle with_epoch]. rewrite Eb, Eh.
  pose proof (wp_reserve l st a1 o r deadline FILE_OBJECT_GUARD_REPAIR_MODE 0 0 Ha1 H0 Hg Ho Hot Hr Hd Hd0) as Hw.
  unfold guard_epoch_advance in Hw. rewrite (proj2 (Z.eqb_neq _ _) E) in Hw. cbn [bind] in Hw.
  eapply wp_mono; [|apply Hw; try done; try (unfold_words; lia); [by right; right|]].
  + intros [er|t] a' (? & ? & HQ); (split; [done|split; [done|]]); [done|].
    destruct HQ as [-> ->]. done.
  + intros _ i p Hp Hact Hpr. by destruct (Hnone i p Hp Hact Hpr).
Qed.

Lemma key_zero_invalid key : file_object_guard_key_valid key = true → key ≠ zero_key.
Proof using. by intros H ->. Qed.

(** What a successful pin leaves: the token names an active pin of the key. *)
Definition pinned (a : astate) (key : reist_file_object_key_t) (service client : file_object_owner_t)
(token : Z) : Prop :=
∃ slot p, a_pins a !! slot = Some p ∧ (slot < 16)%nat ∧ token = make_token (p_generation p) slot ∧
  0 < p_generation p ∧ pin_active p = true ∧ p_key p = key ∧ p_service p = service ∧ p_client p = client.

Lemma wp_pin_scan a client :
core_ok a →
wp (pin_scan client) a
  (reads a (λ scan, ∀ slot p, scan.2 = Some (slot, p) →
     (slot < 16)%nat ∧ a_pins a !! slot = Some p ∧ pin_active p = false ∧
     p_generation p < FILE_OBJECT_GUARD_GENERATION_MAX)).
Proof using.
intros Ha. apply (wp_scan _ (λ _ scan, ∀ slot p, scan.2 = Some (slot, p) →
  (slot < 16)%nat ∧ a_pins a !! slot = Some p ∧ pin_active p = false ∧
  p_generation p < FILE_OBJECT_GUARD_GENERATION_MAX)); [done|done|]. intros i [owned free] p Hp IH.
split; [done|]. intros slot q. cbn [snd] in *. destruct free as [[s q']|].
- intros [= -> ->]. by apply IH.
- destruct (pin_active p) eqn:Hact; [done|].
  destruct (Z.ltb_spec (p_generation p) FILE_OBJECT_GUARD_GENERATION_MAX); [|done].
  intros [= <- <-]. split_and!; [|done..]. apply lookup_lt_Some in Hp. by rewrite (ok_slots _ Ha) in Hp.
Qed.

Lemma wp_pin l st a key service client e now :
state_ok a → file_object_guard_key_valid key = true → key_typed key →
guard_owner_valid service = true → owner_typed service →
guard_owner_valid client = true → owner_typed client →
wp (pin_body key service client e now) a
  (ends l st a (λ token a', pinned a' key service client token ∧ is_active (a_control a') = false ∧
     fence_bit (fenced (a_control a')) (resource key) = false)).
Proof using.
intros Ha Hk Hkt Hs [? ?] Hc [? ?]. unfold pin_body.
eapply wp_then; [by apply wp_admit|]. intros c a1 Ha1 ((Ec & _) & Hi & _ & Hf). subst c.
eapply wp_reads; [done|apply wp_pin_scan, Ha1|]. intros [owned free] Hscan.
apply wp_guarded; [done|intros _]. cbn [snd] in *. destruct free as [[slot chosen]|]; [|by apply wp_fail].
destruct (Hscan slot chosen eq_refl) as (Hslot & Hp & Hfree & Hg). unfold FILE_OBJECT_GUARD_GENERATION_MAX in Hg.
assert (0 <= resource key < 32) as Hr by (apply key_resource; [done|apply Hkt]).
destruct (media_lookup a1 _ (proj1 Ha1) Hr) as [m Hm].
destruct (proj1 (Forall_lookup _ _) (ok_media _ (proj1 Ha1)) _ _ Hm) as [Hmt Hmok].
apply media_typed in Hmt. unfold media_ok in Hmok. apply negb_true_iff, Z.eqb_neq in Hmok.
destruct (pin_fine _ _ _ (proj1 Ha1) Hp) as [Ht _]. apply pin_typed in Ht as (_&_&_&_&_&_&_&_&_&_&[? ?]&_&_).
cbn [bind media_read pin_write wp]. rewrite Hm. cbn [wp].
set (p' := Pin key service client (p_generation chosen + 1) (m_generation m) 1).
assert (fine pin_ok p') as Hfine.
{ assert (well_typed p') as Ht.
  { apply pin_typed. destruct Hkt as (?&?&?&?&?&?). cbn. split_and!; try done; try ulia. }
  split; [done|]. apply (pin_ok_spec _ Ht). cbn. unfold FILE_OBJECT_GUARD_GENERATION_MAX.
  split_and!; [lia|lia|intros _; split_and!; [lia|done..]|lia]. }
assert (core_ok (put_pin a1 slot p')) as Hcore.
{ apply (core_pin _ _ chosen); [apply Ha1|done|done| |congruence].
  destruct (inactive_fields a1 (proj1 Ha1) Hi) as (_&_&_&_&_&_&Eb&_). congruence. }
split; [done|]. split; [by rewrite (ok_slots _ (proj1 Ha1))|].
split_and!; [|apply (moves_pin _ _ _ _ chosen); cbn; [done|lia|lia|congruence]| |done|done].
- apply state_pin; [done|done|]. intros _. by exists m.
- exists slot, p'. split_and!; try done; [|cbn; lia].
  cbn. apply list_lookup_insert_eq. by rewrite (ok_slots _ (proj1 Ha1)).
Qed.

Lemma wp_conflict a keys m r own :
core_ok a →
wp (conflict_scan keys m r own) a
  (reads a (λ _, ∀ i p, a_pins a !! i = Some p → pin_active p = true → own ≠ Some i →
     (Z.land m REIST_FILE_OBJECT_EXCLUSIVE ≠ 0 → resource (p_key p) ≠ r) ∧ existsb (same_key (p_key p)) keys = false)).
Proof using.
intros Ha. unfold conflict_scan.
apply (wp_refusing _ (λ i p, pin_active p = true → own ≠ Some i → _)); [done|].
intros i p Hp. destruct (pin_active p); cbn [negb orb]; [|split; [done|congruence]].
destruct (bool_decide (own = Some i)) eqn:Eo; [apply bool_decide_eq_true in Eo; by split|].
destruct (Z.eqb_spec (Z.land m REIST_FILE_OBJECT_EXCLUSIVE) 0) as [E|E];
  destruct (Z.eqb_spec (resource (p_key p)) r); destruct (existsb _ _); cbn; split; try done.
Qed.

Lemma land_two m : Z.land m 2 = 0 ∨ Z.land m 2 = 2.
Proof using.
assert (Z.land m 2 = if Z.testbit m 1 then 2 else 0) as ->; [|destruct (Z.testbit m 1); auto].
apply Z.bits_inj'. intros k Hk. rewrite Z.land_spec. change 2 with (2 ^ 1) at 1.
rewrite Z.pow2_bits_eqb by lia. destruct (Z.eqb_spec 1 k) as [<-|Hne].
- rewrite andb_true_r. by destruct (Z.testbit m 1).
- rewrite andb_false_r. destruct (Z.testbit m 1); [|by rewrite Z.bits_0].
  change 2 with (2 ^ 1). by rewrite Z.pow2_bits_false by lia.
Qed.

(** No pin, apart from the borrowed one, stands in the way of a mutation of
the keys: none is on the resource if the mode is exclusive, none is on a key. *)
Definition unobstructed (a : astate) (keys : list reist_file_object_key_t) (m r borrowed : Z) : Prop :=
∀ i p, a_pins a !! i = Some p → pin_active p = true →
  (borrowed = 0 ∨ i ≠ Z.to_nat (token_slot borrowed - 1)) →
  (Z.land m REIST_FILE_OBJECT_EXCLUSIVE ≠ 0 → resource (p_key p) ≠ r) ∧ p_key p ∉ keys.

Lemma conflict_free key keys : existsb (same_key key) keys = false → key ∉ keys.
Proof using.
intros E Hin. apply not_true_iff_false in E. apply E, existsb_exists. exists key.
split; [by apply list_elem_of_In|by apply same_key_spec].
Qed.

Lemma wp_begin l st a keys first m o e now deadline borrowed handle client :
state_ok a → file_object_guard_key_valid first = true → is_u32 (resource first) →
guard_owner_valid o = true → owner_typed o → is_u64 deadline → deadline ≠ 0 →
is_u32 borrowed → is_u32 handle →
(Z.land m REIST_FILE_OBJECT_EXTERNAL_JOURNAL ≠ 0 →
   Z.land m REIST_FILE_OBJECT_EXCLUSIVE ≠ 0 ∧ kind first = REIST_FILE_OBJECT_FAT32) →
(borrowed ≠ 0 → Z.land m REIST_FILE_OBJECT_EXTERNAL_JOURNAL ≠ 0) → (borrowed = 0 ↔ handle = 0) →
wp (begin_body keys first m o e now deadline borrowed handle client) a
  (ends l st a (λ token a', c_generation (a_control a') = token ∧ is_active (a_control a') = true ∧
     owner (a_control a') = o ∧ c_resource (a_control a') = resource first ∧
     fence_bit (fenced (a_control a')) (resource first) = false ∧ unobstructed a' keys m (resource first) borrowed)).
Proof using.
intros Ha Hk Hkt Ho Hot Hd Hd0 Hb Hh Hext Hbext Hbh. unfold begin_body.
eapply wp_then; [by apply wp_admit|]. intros c a1 Ha1 ((Ec & _) & Hi & _ & Hf). subst c.
assert (0 <= resource first < 32) as Hr by by apply key_resource.
eapply (wp_reads _ _ _ _ a1 (λ own : option nat,
  if borrowed =? 0 then own = None
  else ∃ p slot, own = Some slot ∧ token_names a1 borrowed o client (p, slot) ∧
    pin_active p = true ∧ p_key p = first)); [done| |].
- destruct (Z.eqb_spec borrowed 0); [done|]. apply wp_bind.
  eapply wp_mono; [|apply wp_token_read, Ha1]. intros [er|[p slot]] a' [-> Hn]; [done|]. cbn [fst snd].
  destruct (pin_active p) eqn:Hact; cbn [negb fail_if bind wp]; [|done].
  destruct (same_key (p_key p) first) eqn:Hsk; cbn [negb fail_if bind wp]; [|done].
  destruct (media_lookup a1 _ (proj1 Ha1) Hr) as [md Hm].
  cbn [bind media_read wp]. rewrite Hm.
  destruct (Z.eqb_spec (p_media_generation p) (m_generation md)); cbn; [|done].
  split; [done|]. exists p, slot. apply same_key_spec in Hsk. done.
- intros own Hown. eapply wp_reads; [done|apply wp_conflict, Ha1|]. intros [] Hfree.
  apply wp_guarded; [done|intros Hg%Z.eqb_neq].
  eapply wp_mono; [|apply (wp_reserve l st); try done].
  + intros [er|t] a' (? & ? & HQ); (split; [done|split; [done|]]); [done|]. destruct HQ as [-> ->]. split_and!; try done.
    intros i p Hp Hact Hi'. destruct (Hfree i p Hp Hact) as [? Hkeys]; [|split; [done|by apply conflict_free]].
    intros ->. destruct (Z.eqb_spec borrowed 0); [done|].
    destruct Hown as (p' & slot & [= <-] & (_ & Hsl & _) & _). cbn in Hsl. by destruct Hi'.
  + unfold REIST_FILE_OBJECT_EXTERNAL_JOURNAL. destruct (land_two m) as [->| ->]; auto.
  + intros Em. destruct (decide (borrowed = 0)) as [|Hne]; [done|]. by destruct (Hbext Hne).
  + unfold REIST_FILE_OBJECT_EXTERNAL_JOURNAL. destruct (land_two m) as [->| ->]; lia.
  + intros Hne. rewrite (proj2 (Z.eqb_neq _ _) Hne) in Hown.
    destruct Hown as (p & slot & -> & (Hp & Hsl & ? & ? & ? & ? & ?) & Hact & Hkey). cbn [fst snd] in *. subst slot.
    destruct (Hext (Hbext Hne)) as [_ Hfat]. split_and!; try done; try lia. exists p. by rewrite Hkey.
  + intros Hm i p Hp Hact Hres. destruct (Hext Hm) as [Hex _].
    destruct (decide (own = Some i)) as [->|Hne].
    * destruct (Z.eqb_spec borrowed 0); [done|].
      destruct Hown as (p' & slot & [= ->] & (_ & Hsl & _) & _). by cbn in Hsl.
    * by destruct (proj1 (Hfree i p Hp Hact Hne) Hex).
Qed.

Lemma wp_end l st a token o outcome now :
state_ok a → 1 <= outcome <= 3 →
(outcome = REIST_FILE_OBJECT_DURABLE_COMMIT → c_generation (a_control a) = token →
   owner (a_control a) = o → pending (a_control a) = 0 → st) →
wp (end_body token o outcome now) a (ends l st a (λ _ a', is_active (a_control a') = false)).
Proof using.
intros Ha Hout Hst. unfold end_body. walk. subst token.
apply negb_false_iff, same_owner_spec in H.
destruct Hc as [E|]; [|congruence].
destruct (control_fine a1 (proj1 Ha1)) as [Ht Hv].
apply (control_ok_spec _ Ht) in Hv as (_&_&_&_&_&_&Hm0&_).
eapply wp_then; [apply (wp_finish_ends l st); [done|done|]|].
- unfold REIST_FILE_OBJECT_UNKNOWN, REIST_FILE_OBJECT_NO_EFFECT, REIST_FILE_OBJECT_DURABLE_COMMIT in *.
  rewrite <- E in Hst.
  destruct (Z.eqb_spec outcome 3) as [|H3]; [by left|right].
  destruct (Z.eqb_spec (mode (a_control a1)) 0) as [Em|Em]; [by left; apply Hm0|].
  cbn [negb andb] in H0. apply orb_false_iff in H0 as [H1 H2].
  destruct (Z.eqb_spec outcome 1) as [E1|E1].
  + left. by apply negb_false_iff, Z.eqb_eq in H1.
  + right. assert (outcome = 2) as E2 by lia. apply Hst; try done.
    rewrite E2 in H2. by apply negb_false_iff, Z.eqb_eq in H2.
- intros c a2 Ha2 (-> & _ & Hi). by apply wp_ret.
Qed.

Lemma wp_cancel l st a token o :
state_ok a → wp (cancel_body token o) a (ends l st a (λ _ a', is_active (a_control a') = false)).
Proof using.
intros Ha. unfold cancel_body. cbn [bind control_read wp]. walk. subst token.
apply negb_false_iff, Z.eqb_eq in H0.
eapply wp_then; [apply (wp_finish_ends l st); [done|done|by right; left]|].
intros c a2 Ha2 (-> & _ & Hi). by apply wp_ret.
Qed.

Lemma wp_repair_finish l st a token o verified now :
state_ok a →
(let c := a_control a in verified = true → mode c = FILE_OBJECT_GUARD_REPAIR_MODE → c_generation c = token →
   owner c = o → attempted c ≠ 0 → pending c = 0 → l (c_resource c)) →
wp (repair_finish_body token o verified now) a (ends l st a (λ _ a', is_active (a_control a') = false)).
Proof using.
intros Ha Hl. unfold repair_finish_body. walk.
apply orb_false_iff in H as [Ho%negb_false_iff%same_owner_spec Hm%negb_false_iff%Z.eqb_eq].
destruct Hc as [E|]; [|congruence]. rewrite <- E in Hl.
pose proof (active_resource _ (proj1 Ha1) Hact) as Hr.
assert (is_u32 (fenced (a_control a1))) as Hmu.
{ destruct (control_fine _ (proj1 Ha1)) as [Ht _]. by apply control_typed in Ht as (_&_&_&_&_&_&_&?&_). }
eapply (wp_then _ _ _ _ _ (λ c a', c = a_control a' ∧ is_active c = false)).
2: { intros c a2 Ha2 [-> Hi]. by apply wp_ret. }
destruct verified; cbn [negb].
- cbn [andb] in H0. apply orb_false_iff in H0 as [Hat%Z.eqb_neq Hpe%negb_false_iff%Z.eqb_eq].
  assert (l (c_resource (a_control a1))) as HL by by apply Hl.
  eapply wp_mono; [|eapply (wp_finish l st a1 _
    (Z.land (fenced (a_control a1)) (Z.lnot (Z.shiftl 1 (c_resource (a_control a1)))))); try done].
  + intros x a' (-> & -> & Hok & Hmv). split_and!; try done. by apply state_put_control.
  + apply Ha1.
  + by apply land_u32.
  + intros r Hr' Hb. rewrite fence_bit_clear, Hb by lia.
    destruct (Z.eqb_spec (c_resource (a_control a1)) r) as [<-|]; [by right|by left].
  + by do 3 right.
- eapply wp_mono; [|apply (wp_finish_ends l st); [done|done|by left]].
  intros [er|c] a' (? & ? & HQ); (split; [done|split; [done|]]); [done|]. by destruct HQ as (-> & _ & ?).
Qed.

(** The record after a journal event of the reservation. *)
Lemma effects_fine c att pend :
fine control_ok c → mode c ≠ 0 → 0 <= pend <= att → att <= 1 → fine control_ok (with_effects c att pend).
Proof using.
intros [Ht Hv] Hm ? ?. pose proof Ht as Ht'. apply control_typed in Ht' as (?&?&?&?&?&?&?&?&?&_&_&?&?).
assert (well_typed (with_effects c att pend)) as Ht2.
{ apply control_typed. cbn. split_and!; try done; ulia. }
split; [done|]. apply (control_ok_spec _ Ht) in Hv as (?&?&_&_&?&?&_&?&?&Hz&?).
apply (control_ok_spec _ Ht2). cbn. split_and!; try done; try lia; intros E; by destruct (Hz E) as (_&_&_&?&_).
Qed.

Lemma wp_effects l st a att pend :
state_ok a → is_active (a_control a) = true → mode (a_control a) ≠ 0 → 0 <= pend <= att → att <= 1 →
attempted (a_control a) <= att →
wp (control_write (with_effects (a_control a) att pend)) a
  (ends l st a (λ _ a', a' = put_control a (with_effects (a_control a) att pend))).
Proof using.
intros Ha Hact Hm Hp Hat Hge. cbn [control_write wp].
pose proof (effects_fine (a_control a) att pend (ok_control _ (proj1 Ha)) Hm Hp Hat) as Hf.
destruct (ok_control _ (proj1 Ha)) as [Ht _]. apply control_typed in Ht as (_&_&_&_&_&_&_&_&_&[? _]&_).
split; [done|]. split_and!; [|apply moves_control; cbn|done].
- apply state_put_control; [done|]. apply core_control; [apply Ha|done|apply Ha|apply Ha].
- lia.
- lia.
- intros _. split_and!; [done|done|done|lia].
- auto.
- intros _ _ _. left. done.
Qed.

Lemma wp_expire_now l st a now :
state_ok a → wp (guard_expire (a_control a) now) a (ends l st a (settled_at a)).
Proof using.
intros Ha. eapply wp_mono; [|by apply (wp_expire l st)].
by intros r a' (c & -> & -> & Hok & Hm & Hc).
Qed.

Lemma wp_journal_io l st a o token r event now probe :
state_ok a → 0 <= event <= 2 →
wp (journal_io_body o token r event now probe) a
  (ends l st a (λ out a', is_active (a_control a') = true ∧ c_generation (a_control a') = token ∧
     owner (a_control a') = o ∧ c_resource (a_control a') = r ∧
     (event = FILE_OBJECT_JOURNAL_WRITE → attempted (a_control a') ≠ 0 ∧ pending (a_control a') ≠ 0) ∧
     out.2 = context_of (a_control a'))).
Proof using.
intros Ha Hev. unfold journal_io_body. cbn [bind control_read wp].
eapply (wp_then _ _ _ _ _ (λ _ a', a' = a)).
{ destruct probe; [|by apply wp_ret]. walk. done. }
intros [] a0 _ ->. eapply wp_then; [by apply wp_expire_now|].
intros c a1 Ha1 (-> & _ & _ & _). walk.
apply orb_false_iff in H0 as [[Ho%negb_false_iff%same_owner_spec Hr%negb_false_iff%Z.eqb_eq]%orb_false_iff Hm].
assert (mode (a_control a1) ≠ 0) as Hmode.
{ intros E. by rewrite E in Hm. }
eapply (wp_reads _ _ _ _ _ (λ _, True)); [done| |].
{ destruct probe; [done|]. eapply wp_mono; [|by apply wp_live]. by intros x a' [-> ->]. }
intros [] _. destruct (control_fine _ (proj1 Ha1)) as [Ht Hv].
apply (control_ok_spec _ Ht) in Hv as (_&_&Hat&Hpe&_).
apply control_typed in Ht as (_&_&_&_&_&_&_&_&_&[? _]&[? _]&_).
unfold FILE_OBJECT_JOURNAL_CHECK, FILE_OBJECT_JOURNAL_WRITE.
eapply (wp_then _ _ _ _ _ (λ c a', c = a_control a' ∧ is_active c = true ∧ c_generation c = token ∧ owner c = o ∧
  c_resource c = r ∧ (event = 1 → attempted c ≠ 0 ∧ pending c ≠ 0))).
2: { intros c a2 Ha2 (-> & ? & ? & ? & ? & ?). by apply wp_ret. }
destruct (Z.eqb_spec event 0) as [->|He0]; [by apply wp_ret|].
set (att := if event =? 1 then 1 else attempted (a_control a1)).
set (pend := if event =? 1 then 1 else 0).
assert ((if event =? 1 then with_effects (a_control a1) 1 1 else with_effects (a_control a1) (attempted (a_control a1)) 0)
  = with_effects (a_control a1) att pend) as ->.
{ unfold att, pend. by destruct (event =? 1). }
assert (event = 1 → att = 1 ∧ pend = 1) as Hw by (unfold att, pend; by intros ->).
assert (0 <= pend <= att ∧ att <= 1 ∧ attempted (a_control a1) <= att) as (? & ? & ?).
{ unfold att, pend. destruct (event =? 1); lia. }
destruct (negb _ || negb _) eqn:Ec.
- eapply wp_then; [apply wp_effects; done|]. intros [] a2 Ha2 ->. apply wp_ret; [done|].
  split_and!; try done. intros E. destruct (Hw E) as [-> ->]. done.
- apply orb_false_iff in Ec as [Ea%negb_false_iff%Z.eqb_eq Ep%negb_false_iff%Z.eqb_eq]. cbn in Ea, Ep.
  assert (with_effects (a_control a1) att pend = a_control a1) as ->.
  { rewrite Ea, Ep. by destruct (a_control a1). }
  apply wp_ret; [done|]. split_and!; try done. intros E. destruct (Hw E). lia.
Qed.

(** Nothing of an owner is left: no active pin, no reservation. *)
Definition forgotten (a : astate) (o : file_object_owner_t) : Prop :=
(∀ i p, a_pins a !! i = Some p → pin_active p = true → p_service p ≠ o ∧ p_client p ≠ o) ∧
(is_active (a_control a) = true → owner (a_control a) ≠ o).

Definition cleanup_invariant (l : Z → Prop) (st : Prop) (a0 : astate) (o : file_object_owner_t)
(n : nat) (c : guard_control_t) (a : astate) : Prop :=
c = a_control a ∧ state_ok a ∧ moves l st a0 a ∧ (is_active c = true → owner c ≠ o) ∧
∀ i p, (i < n)%nat → a_pins a !! i = Some p → pin_active p = true → p_service p ≠ o ∧ p_client p ≠ o.

Lemma wp_cleanup_slot l st a0 o i p a :
(i < 16)%nat → a_pins a !! i = Some p → cleanup_invariant l st a0 o i (a_control a) a →
wp (if pin_active p && (guard_same_owner (p_service p) o || guard_same_owner (p_client p) o)
    then c <- (if is_active (a_control a) && (borrowed_pin (a_control a) =? make_token (p_generation p) i)
               then guard_finish (a_control a) true else Ret (a_control a));;
         guard_pin_clear i p;;; Ret c
    else Ret (a_control a)) a
  (λ r a', match r with inl _ => state_ok a' ∧ moves l st a0 a' | inr c => cleanup_invariant l st a0 o (S i) c a' end).
Proof using.
intros Hi Hp (_ & Ha & Hm & Hown & Hbefore).
destruct (pin_active p && _) eqn:Et.
2: { split_and!; try done. intros j q Hj Hq Hqa. destruct (decide (j = i)) as [->|]; [|apply (Hbefore j); [lia|done..]].
  simplify_eq. rewrite Hqa in Et. cbn in Et. apply orb_false_iff in Et as [E1 E2].
  split; intros E; rewrite (proj2 (same_owner_spec _ _) E) in *; done. }
apply andb_true_iff in Et as [Hact _].
apply wp_bind. eapply wp_mono; [|apply (wp_finish_if l st a (borrowed_pin (a_control a) =? make_token (p_generation p) i) Ha)].
intros [er|c] a1 (Ha1 & Hm1 & HQ); [by split; [done|by eapply moves_trans]|].
destruct HQ as (-> & E1 & Hst).
assert (a_pins a1 = a_pins a) as Epins by by rewrite E1. rewrite <- Epins in Hp.
apply wp_bind. eapply wp_mono; [|apply (wp_clear_state l st a1 i p); [done|done|done|]].
- intros [er|[]] a2 (Ha2 & Hm2 & HQ).
  { split; [done|]. eapply moves_trans; [|exact Hm2]. by eapply moves_trans. }
  cbn [wp]. subst a2. split_and!; [done|done| | |].
  + eapply moves_trans; [|exact Hm2]. by eapply moves_trans.
  + intros Hc. destruct (Hst Hc) as [E _]. rewrite E in *. by apply Hown.
  + intros j q Hj Hq Hqa. cbn in Hq.
    apply list_lookup_insert_Some in Hq as [(-> & <- & _)|[? Hq]]; [done|].
    rewrite Epins in Hq. apply (Hbefore j); [lia|done..].
- intros Hb Eslot. destruct (is_active (a_control a1)) eqn:Hc.
  2: { by destruct (inactive_fields a1 (proj1 Ha1) Hc) as (_&_&_&_&_&_&?&_). }
  destruct (Hst eq_refl) as [E Hne]. apply Z.eqb_neq in Hne. rewrite <- E in Hne.
  destruct (pin_fine _ _ _ (proj1 Ha1) Hp) as [Ht _]. apply pin_typed in Ht as (_&_&_&_&_&_&_&_&_&_&[? _]&_&_).
  destruct (make_token_parts (p_generation p) i ltac:(done) Hi) as (Hg & Hs & _).
  revert Eslot. apply (borrowed_other a1 i p (make_token (p_generation p) i)); [apply Ha1|done|lia|lia|done|done|done].
Qed.

Lemma wp_cleanup l st a o :
state_ok a → wp (cleanup_body o) a (ends l st a (λ _ a', forgotten a' o)).
Proof using.
intros Ha. unfold cleanup_body. cbn [bind control_read wp].
apply wp_bind. eapply wp_mono; [|apply (wp_finish_if l st a (guard_same_owner (owner (a_control a)) o) Ha)].
intros [er|c] a1 (Ha1 & Hm1 & HQ); [done|]. destruct HQ as (-> & E1 & Hst).
apply wp_bind. eapply wp_mono; [|apply (wp_for_pins _ (cleanup_invariant l st a o)
  (λ _ a', state_ok a' ∧ moves l st a a') 16)].
- intros [er|c] a2 HI; [split; [apply HI|split; [apply HI|done]]|].
  destruct HI as (-> & Ha2 & Hm2 & Hown & Hall). split_and!; [done|done|]. split; [|done].
  intros i p Hp. apply (Hall i p); [|done]. apply lookup_lt_Some in Hp. by rewrite (ok_slots _ (proj1 Ha2)) in Hp.
- intros i c a2 Hi HI. destruct (slot_lookup a2 i) as [p Hp]; [apply HI|done|].
  exists p. split; [done|]. destruct HI as (-> & HI). by apply wp_cleanup_slot.
- split_and!; try done; [|by intros; lia]. intros Hc Eo. destruct (Hst Hc) as [E Hne].
  rewrite <- E in Hne. by rewrite (proj2 (same_owner_spec _ _) Eo) in Hne.
Qed.

(** ** Fences from the storage layer *)
Lemma merge_fine c mask :
fine control_ok c → is_u32 mask → fine control_ok (with_fenced c (Z.lor (fenced c) mask)).
Proof using.
intros [Ht Hv] Hm. pose proof Ht as Ht'. apply control_typed in Ht' as (?&?&?&?&?&[? ?]&?&?&?).
assert (well_typed (with_fenced c (Z.lor (fenced c) mask))) as Ht2.
{ apply control_typed. cbn. split_and!; try done; try tauto. by apply lor_u32. }
split; [done|]. apply (control_ok_spec _ Ht) in Hv as (?&?&?&?&?&Hfour&Hv).
apply (control_ok_spec _ Ht2). do 5 (split; [done|]). split; [|exact Hv]. cbn. intros Em. destruct (Hfour Em) as (?&?&?&Hb).
split_and!; try done. rewrite fence_bit_lor by done. by rewrite Hb.
Qed.

Lemma wp_merge_fences l st a mask :
state_ok a → is_u32 mask →
wp (merge_fences_body mask) a
  (ends l st a (λ _ a', ∀ r, 0 <= r < 32 → fence_bit mask r = true → fence_bit (fenced (a_control a')) r = true)).
Proof using.
intros Ha Hm. unfold merge_fences_body. cbn [bind control_read wp].
assert (is_u32 (fenced (a_control a))) as Hmu.
{ destruct (control_fine _ (proj1 Ha)) as [Ht _]. by apply control_typed in Ht as (_&_&_&_&_&_&_&?&_). }
assert (∀ r, 0 <= r < 32 → fence_bit mask r = true → fence_bit (Z.lor (fenced (a_control a)) mask) r = true) as Hin.
{ intros r Hr Hb. rewrite fence_bit_lor, Hb by lia. apply orb_true_r. }
assert (∀ r, 0 <= r < 32 → fence_bit (fenced (a_control a)) r = true →
  fence_bit (Z.lor (fenced (a_control a)) mask) r = true) as Hkeep.
{ intros r Hr Hb. rewrite fence_bit_lor, Hb by lia. done. }
destruct (Z.eqb_spec (Z.land mask (Z.lnot (fenced (a_control a)))) 0) as [E|E].
- apply wp_ret; [done|]. intros r Hr Hb. rewrite fence_bit_testbit in * by lia.
  destruct (Z.testbit (fenced (a_control a)) r) eqn:Ef; [done|].
  assert (Z.testbit (Z.land mask (Z.lnot (fenced (a_control a)))) r = true) as Hx
    by (rewrite Z.land_spec, Z.lnot_spec, Hb, Ef by lia; done).
  by rewrite E, Z.bits_0 in Hx.
- cbn [is_active active with_fenced c_resource]. change (negb (active (a_control a) =? 0)) with (is_active (a_control a)).
  change (is_active (with_fenced (a_control a) (Z.lor (fenced (a_control a)) mask))) with (is_active (a_control a)).
  destruct (is_active (a_control a) && fence_bit mask (c_resource (a_control a))) eqn:Et.
  + apply andb_true_iff in Et as [Hact _]. apply wp_bind.
    eapply wp_mono; [|apply (wp_finish l st a _ (Z.lor (fenced (a_control a)) mask)); try done].
    * intros x a' (-> & -> & Hok & Hmv). split_and!; [by apply state_put_control|done|].
      intros r Hr Hb. cbn [a_control put_control finished with_epoch retired with_fenced fenced c_resource].
      pose proof (active_resource _ (proj1 Ha) Hact). rewrite fence_bit_add by lia. by rewrite (Hin r Hr Hb).
    * apply Ha.
    * by apply lor_u32.
    * intros r Hr Hb. left. by apply Hkeep.
    * by left.
  + cbn [control_write wp]. split; [by apply merge_fine; [apply Ha|]|].
    split_and!; [| |done].
    * apply state_put_control; [done|]. apply core_control; [apply Ha|by apply merge_fine; [apply Ha|]|apply Ha|apply Ha].
    * apply moves_control; cbn; [lia|lia|by intros []| |intros; by left].
      intros r Hr Hb. left. by apply Hkeep.
Qed.

(** ** Revoking a medium *)
(** Between the new media generation and the end of the loop the pins of the
slots from [n] on may be stale, those of the resource only. *)
Definition revoking (l : Z → Prop) (st : Prop) (a0 : astate) (r : Z) (n : nat) (a : astate) : Prop :=
core_ok a ∧ moves l st a0 a ∧
(is_active (a_control a) = true → c_resource (a_control a) ≠ r) ∧
∀ i p, a_pins a !! i = Some p → pin_active p = true →
  if decide (resource (p_key p) = r) then (n <= i)%nat else pin_current a p.

Lemma not_borrowed_elsewhere a i p r :
core_ok a → a_pins a !! i = Some p → resource (p_key p) = r →
(is_active (a_control a) = true → c_resource (a_control a) ≠ r) →
borrowed_pin (a_control a) ≠ 0 → i ≠ borrowed_slot (a_control a).
Proof using.
intros Ha Hp Hr Hne Hb ->. destruct (is_active (a_control a)) eqn:Hact.
2: { by destruct (inactive_fields a Ha Hact) as (_&_&_&_&_&_&?&_). }
destruct (ok_borrowed _ Ha Hb) as (q & Hq & _&_&_&Hqr&_). simplify_eq. by apply Hne.
Qed.

Lemma moves_media l st a i m : moves l st a (put_media a i m).
Proof using. destruct (moves_refl l st a) as [? ? ? ? ? ? ? ?]. by split. Qed.

Lemma core_media a i m : core_ok a → fine media_ok m → core_ok (put_media a i m).
Proof using. intros [? ? ? ? ? ? ?] Hf. split; cbn; try done; [by apply Forall_insert|by rewrite length_insert]. Qed.

Lemma wp_clear_resource l st a0 r a :
revoking l st a0 r 0 a →
wp (clear_resource r) a (λ x a', x = inr tt ∧ revoking l st a0 r 16 a').
Proof using.
intros HI. unfold clear_resource.
eapply wp_mono; [|apply (wp_for_pins _ (λ n _ a', revoking l st a0 r n a') (λ _ _, False) 16)]; [by intros [e|[]] a'| |done].
intros i [] a1 Hi (Ha1 & Hm1 & Hne & Hcur). destruct (slot_lookup a1 i Ha1 Hi) as [p Hp]. exists p. split; [done|].
destruct (pin_active p && (resource (p_key p) =? r)) eqn:Et.
- apply andb_true_iff in Et as [Hact Hr%Z.eqb_eq].
  eapply wp_mono; [|apply (wp_clear l st); [exact Ha1|exact Hp|done|]].
  + intros x a2 (-> & -> & Hok & Hm2). split_and!; [done|by eapply moves_trans|done|].
    intros j q Hq Hqa. apply list_lookup_insert_Some in Hq as [(-> & <- & _)|[Hji Hq]]; [done|].
    specialize (Hcur j q Hq Hqa). destruct (decide _); [lia|done].
  + by apply (not_borrowed_elsewhere a1 i p r).
- cbn [wp]. split_and!; try done. intros j q Hq Hqa. specialize (Hcur j q Hq Hqa).
  destruct (decide (resource (p_key q) = r)) as [Er|]; [|done].
  destruct (decide (j = i)) as [->|]; [|lia]. simplify_eq. rewrite Hqa, Z.eqb_refl in Et. done.
Qed.

Lemma wp_revoke_media l st a r :
state_ok a → 0 <= r < 32 →
wp (revoke_media_body r) a
  (ends l st a (λ _ a', (∀ i p, a_pins a' !! i = Some p → pin_active p = true → resource (p_key p) ≠ r) ∧
     (is_active (a_control a') = true → c_resource (a_control a') ≠ r))).
Proof using.
intros Ha Hr. unfold revoke_media_body. cbn [bind control_read wp].
eapply wp_then; [by apply wp_finish_if|]. intros c a1 Ha1 (-> & E1 & Hst).
unfold guard_epoch_advance. destruct (Z.eqb_spec (epoch (a_control a1)) UINT64_MAX) as [E|E]; [by left|].
pose proof (wp_advance l st a1 Ha1) as Hadv. unfold guard_epoch_advance in Hadv.
rewrite (proj2 (Z.eqb_neq _ _) E) in Hadv. cbn [bind] in Hadv |- *.
eapply wp_then; [exact Hadv|]. intros [] a2 Ha2 E2.
assert (is_active (a_control a2) = true → c_resource (a_control a2) ≠ r) as Hne.
{ rewrite E2. intros Hact. destruct (Hst Hact) as [Ec Hb%Z.eqb_neq]. cbn. by rewrite Ec. }
destruct (media_lookup a2 _ (proj1 Ha2) Hr) as [m Hm].
cbn [bind media_read wp]. rewrite Hm. cbn [wp].
destruct (Z.eqb_spec (m_generation m) UINT32_MAX) as [Emax|Emax]; cbn [poison_if bind wp].
{ right. by exists (Z.to_nat r), m. }
destruct (proj1 (Forall_lookup _ _) (ok_media _ (proj1 Ha2)) _ _ Hm) as [Hmt Hmok].
apply media_typed in Hmt.
assert (fine media_ok (Media (m_generation m + 1))) as Hf.
{ split; [apply media_typed; cbn; ulia|]. unfold media_ok. cbn. apply negb_true_iff, Z.eqb_neq. ulia. }
split; [done|]. split; [rewrite (ok_resources _ (proj1 Ha2)); lia|].
eapply wp_mono; [|apply (wp_clear_resource l st a2 r)].
- intros x a3 (-> & Hok & Hm3 & Hne3 & Hcur).
  assert (∀ i p, a_pins a3 !! i = Some p → pin_active p = true → resource (p_key p) ≠ r) as Hnone.
  { intros i p Hp Hpa. specialize (Hcur i p Hp Hpa). destruct (decide _); [|done].
    apply lookup_lt_Some in Hp. rewrite (ok_slots _ Hok) in Hp. lia. }
  split_and!; [|done|done|done].
  split; [done|]. intros i p Hp Hpa. specialize (Hcur i p Hp Hpa). specialize (Hnone i p Hp Hpa).
  by destruct (decide _).
- split; [apply core_media; [apply Ha2|done]|]. split; [apply moves_media|]. split; [done|].
  intros i p Hp Hpa. cbn in Hp. destruct (decide (resource (p_key p) = r)) as [|Hner]; [lia|].
  destruct Ha2 as [Hc2 Hcur2]. destruct (Hcur2 i p Hp Hpa) as (m' & Hm' & Hg'). exists m'. split; [|done].
  cbn. rewrite list_lookup_insert_ne; [done|].
  pose proof (active_pin_resource a2 i p Hc2 Hp Hpa). lia.
Qed.
