(* ===== verification/FileObjectGuardProps.v ===== *)
(** Properties of the file object guard.

    [guard_op] lists the entry points with their arguments and [exec] runs
    one; [guard_ready] is a usable guard with its abstract state.  The
    properties speak of arbitrary sequences of calls. *)
From S2P Require Import Prelude ProtectedStore.
From S2P Require Import Layout ProtectedRecord CriticalObject.
From S2P Require Import OwnedStore FileObjectGuard FileObjectGuardSpec FileObjectGuardBodies.
Import FileObjectGuard.
Local Open Scope guard_scope.

Inductive guard_op :=
| OInit
| OSnapshot (now_ms : Z)
| OPin (key : reist_file_object_key_t) (service client : file_object_owner_t) (e now_ms : Z)
| OLookup (token : Z) (service client : file_object_owner_t) (now_ms : Z)
| OLegacyEnter (now_ms : Z)
| OCanOpen (r now_ms : Z)
| OKeyBusy (key : reist_file_object_key_t) (now_ms : Z)
| ORelease (token : Z) (service client : file_object_owner_t)
| OBegin (keys : list reist_file_object_key_t) (m : Z) (o : file_object_owner_t) (e now_ms deadline : Z)
| OBeginOwned (key : reist_file_object_key_t) (pin request : Z) (service client : file_object_owner_t)
    (e now_ms deadline : Z)
| OOwnedRequest (service : file_object_owner_t) (token r now_ms : Z)
| OContext (o : file_object_owner_t) (token : Z)
| OEnd (token : Z) (o : file_object_owner_t) (outcome now_ms : Z)
| OAuthorized (o : file_object_owner_t) (r now_ms : Z)
| OJournalProbe (o : file_object_owner_t) (token r now_ms : Z)
| OJournalIo (o : file_object_owner_t) (token r event now_ms : Z)
| OCancel (operation token : Z) (service client : file_object_owner_t)
| OCleanup (o : file_object_owner_t)
| OOwnerAt (slot : Z)
| ORevokeMedia (r : Z)
| OMergeFences (merged : Z)
| ORepairBegin (r : Z) (o : file_object_owner_t) (e now_ms deadline : Z)
| ORepairFinish (token : Z) (o : file_object_owner_t) (verified : bool) (now_ms : Z)
| OPoll (now_ms : Z)
| OFenced
| OCount (r now_ms : Z)
| ODetachReady (r now_ms : Z).

(** Arguments of the C types. *)
Definition op_typed (op : guard_op) : Prop :=
  match op with
  | OPin key service client _ _ => key_typed key ∧ owner_typed service ∧ owner_typed client
  | OBegin keys _ o _ now_ms deadline =>
      Forall key_typed keys ∧ owner_typed o ∧ is_u64 now_ms ∧ is_u64 deadline
  | OBeginOwned key pin request service _ _ now_ms deadline =>
      key_typed key ∧ is_u32 pin ∧ is_u32 request ∧ owner_typed service ∧ is_u64 now_ms ∧ is_u64 deadline
  | OJournalIo _ _ _ event _ => is_u32 event
  | OOwnerAt slot => is_u32 slot
  | ORevokeMedia r => is_u32 r
  | OMergeFences merged => is_u32 merged
  | ORepairBegin r o _ now_ms deadline => is_u32 r ∧ owner_typed o ∧ is_u64 now_ms ∧ is_u64 deadline
  | _ => True
  end.

(** The calls that may end a fence or settle a journalled write, and when. *)
Definition lifts (op : guard_op) (a : astate) (r : Z) : Prop :=
  match op with
  | ORepairFinish token o verified _ =>
      let c := a_control a in
      verified = true ∧ mode c = FILE_OBJECT_GUARD_REPAIR_MODE ∧ c_generation c = token ∧
      owner c = o ∧ attempted c ≠ 0 ∧ pending c = 0 ∧ r = c_resource c
  | _ => False
  end.

Definition settles (op : guard_op) (a : astate) : Prop :=
  match op with
  | OEnd token o outcome _ =>
      let c := a_control a in
      outcome = REIST_FILE_OBJECT_DURABLE_COMMIT ∧ c_generation c = token ∧ owner c = o ∧ pending c = 0
  | _ => False
  end.

Definition code {X} (r : Z + X) : Z := match r with inl e => e | inr _ => 0 end.
Definition coded {X O} `{!ProtectedStore O} (r : (Z + X) * file_object_guard_t O) : Z * file_object_guard_t O :=
  (code r.1, r.2).

Section props.
Context {O : Type} `{PL : ProtectedStoreLaws O} {OS : OwnedStore O}.
#[local] Abbreviation guard := (file_object_guard_t O).

Definition exec (op : guard_op) (g : guard) : Z * guard :=
match op with
| OInit => coded (file_object_guard_init g)
| OSnapshot now => coded (file_object_guard_snapshot g now)
| OPin key service client e now => coded (file_object_guard_pin g key service client e now)
| OLookup token service client now => coded (file_object_guard_verify g token service client now)
| OLegacyEnter now => coded (file_object_guard_legacy_enter g now)
| OCanOpen r now => coded (file_object_guard_can_open g r now)
| OKeyBusy key now => coded (file_object_guard_key_busy g key now)
| ORelease token service client => coded (file_object_guard_release g token service client)
| OBegin keys m o e now deadline => coded (file_object_guard_begin_mode g keys m o e now deadline)
| OBeginOwned key pin request service client e now deadline =>
  coded (file_object_guard_begin_owned g key pin request service client e now deadline)
| OOwnedRequest service token r now => coded (file_object_guard_owned_request g service token r now)
| OContext o token => coded (file_object_guard_context g o token)
| OEnd token o outcome now => coded (file_object_guard_end g token o outcome now)
| OAuthorized o r now => coded (file_object_guard_mutation_authorized g o r now)
| OJournalProbe o token r now => coded (file_object_guard_journal_probe g o token r now)
| OJournalIo o token r event now => coded (file_object_guard_journal_io g o token r event now)
| OCancel operation token service client =>
  coded (file_object_guard_cancel_undelivered g operation token service client)
| OCleanup o => coded (file_object_guard_cleanup g o)
| OOwnerAt slot => coded (file_object_guard_owner_at g slot)
| ORevokeMedia r => coded (file_object_guard_revoke_media g r)
| OMergeFences merged => coded (file_object_guard_merge_fences g merged)
| ORepairBegin r o e now deadline => coded (file_object_guard_repair_begin g r o e now deadline)
| ORepairFinish token o verified now => coded (file_object_guard_repair_finish g token o verified now)
| OPoll now => coded (file_object_guard_poll g now)
| OFenced => let '(result, _, g) := file_object_guard_fenced g in (result, g)
| OCount r now => coded (file_object_guard_count g r now)
| ODetachReady r now => file_object_guard_detach_ready g r now
end.

Definition exec_all (ops : list guard_op) (g : guard) : guard := fold_left (λ g op, (exec op g).2) ops g.

Definition idle (g : guard) : Prop := lock g = 0 ∧ initialized g = GUARD_INITIALIZED.
Definition guard_ready (g : guard) (a : astate) : Prop :=
idle g ∧ poisoned g = 0 ∧ guard_holds g a ∧ state_ok a.

(** How a call ends: with the postcondition, or poisoned by a worn store. *)
Definition call_runs {X} (Q : Z + X → astate → Prop) (r : (Z + X) * guard) : Prop :=
idle r.2 ∧ ∃ a', guard_holds r.2 a' ∧
((poisoned r.2 = 0 ∧ Q r.1 a') ∨ (poisoned r.2 ≠ 0 ∧ r.1 = inl REIST_EIO ∧ worn r.2 a')).

Definition call_ends {X} (l : Z → Prop) (st : Prop) (a : astate) (Q : X → astate → Prop) :
(Z + X) * guard → Prop := call_runs (ends l st a Q).

Lemma unchanged_ends {X} g a l st e (Q : X → astate → Prop) :
guard_ready g a → call_ends l st a Q (inl e, g).
Proof using.
intros (Hi & Hp & Hh & Ha). split; [done|]. exists a. split; [done|]. left. split; [done|].
split_and!; [done|apply moves_refl|done].
Qed.

Lemma locked_ends {X} g a (body : prog X) Q :
guard_ready g a → wp body a Q → call_runs Q (locked g (run body)).
Proof using PL.
intros ([Hl Hi] & Hp & Hh & Ha) Hw. unfold locked, guard_lock. rewrite Hl, Z.eqb_refl.
assert (guard_holds (set_lock g 1) a) as Hh1 by by destruct Hh.
assert (open (set_lock g 1)) as Ho by by split.
destruct (run_wp body _ _ _ Ho Hh1 Hw) as ([_ Ei] & a' & Hh2 & Hend).
destruct (run body (set_lock g 1)) as [r g2]. cbn [fst snd] in *.
split; [split; [done|]; cbn in *; congruence|]. exists a'. split; [by destruct Hh2|]. exact Hend.
Qed.

Lemma entry_ends {X} g a l st invalid (body : prog X) Q :
guard_ready g a → (invalid = false → wp body a (ends l st a Q)) → call_ends l st a Q (entry invalid body g).
Proof using PL.
intros Hg Hw. unfold entry. destruct invalid; [by apply unchanged_ends|]. apply (locked_ends g a); [done|by apply Hw].
Qed.

(** What is left of a call when its result is forgotten. *)
Definition step_ends (l : Z → Prop) (st : Prop) (a : astate) (g : guard) : Prop :=
idle g ∧ ∃ a', guard_holds g a' ∧
((poisoned g = 0 ∧ state_ok a' ∧ moves l st a a') ∨ (poisoned g ≠ 0 ∧ worn g a')).

Lemma call_step {X} l st a (Q : X → astate → Prop) r : call_ends l st a Q r → step_ends l st a r.2.
Proof using.
intros (Hi & a' & Hh & H). split; [done|]. exists a'. split; [done|].
destruct H as [(? & ? & ? & _)|(? & _ & ?)]; [by left|by right].
Qed.


Lemma wp_any {X} l st (p : prog X) a Q : wp p a (ends l st a Q) → wp p a (ends l st a any).
Proof using. apply wp_mono. intros r a'. apply ends_any. Qed.

Lemma not_bad r : bad_resource r = false → r < 32.
Proof using. unfold bad_resource, FILE_OBJECT_GUARD_RESOURCES. rewrite Z.leb_gt. done. Qed.

Lemma not_bad_deadline now deadline : is_u64 now → bad_deadline now deadline = false → deadline ≠ 0.
Proof using.
intros [? _]. unfold bad_deadline. rewrite orb_false_iff, Z.leb_gt. intros [? _]. lia.
Qed.

(** The arguments [guard_begin] lets through. *)
Lemma begin_ends l st g a keys m o e now deadline borrowed handle client :
guard_ready g a → Forall key_typed keys → owner_typed o → is_u64 now → is_u64 deadline →
is_u32 borrowed → is_u32 handle → (borrowed = 0 ↔ handle = 0) →
(borrowed ≠ 0 → Z.land m REIST_FILE_OBJECT_EXTERNAL_JOURNAL ≠ 0) →
call_ends l st a
(λ token a', c_generation (a_control a') = token ∧ is_active (a_control a') = true ∧
   owner (a_control a') = o ∧ Some (c_resource (a_control a')) = resource <$> head keys ∧
   fence_bit (fenced (a_control a')) (c_resource (a_control a')) = false ∧
   unobstructed a' keys m (c_resource (a_control a')) borrowed)
(guard_begin g keys m o e now deadline borrowed handle client).
Proof using PL.
intros Hg Hk Ho Hn Hd Hb Hh Hbh Hbm. unfold guard_begin.
destruct keys as [|first keys]; [by apply unchanged_ends|].
apply entry_ends; [done|]. intros Hv. rewrite !orb_false_iff in Hv.
destruct Hv as [[[[[_ Hov%negb_false_iff] _] Hdl] [_ Hext]] Hkeys].
assert (file_object_guard_key_valid first = true) as Hfirst.
{ cbn [existsb] in Hkeys. apply orb_false_iff in Hkeys as [Hkeys _].
destruct (file_object_guard_key_valid first); [done|]. cbn in Hkeys. done. }
inversion_clear Hk as [|? ? Hkt _].
eapply wp_mono; [|apply (wp_begin l st); try done].
- intros [er|t] a' (? & ? & HQ); (split; [done|split; [done|]]); [done|].
destruct HQ as (?&?&?&->&?&?). done.
- apply Hg.
- apply Hkt.
- exact (not_bad_deadline now deadline Hn Hdl).
- intros Hm%Z.eqb_neq. cbv zeta in Hext. rewrite Hm in Hext. cbn [negb andb] in Hext.
apply orb_false_iff in Hext as [[Hx _]%orb_false_iff Hkind%negb_false_iff%Z.eqb_eq].
split; [|done]. rewrite negb_involutive in Hx. by apply Z.eqb_neq.
Qed.

Lemma owned_mode_flag :
Z.land (Z.lor REIST_FILE_OBJECT_EXCLUSIVE REIST_FILE_OBJECT_EXTERNAL_JOURNAL) REIST_FILE_OBJECT_EXTERNAL_JOURNAL ≠ 0.
Proof using. done. Qed.

Lemma begin_owned_ends l st g a key pin request service client e now deadline :
guard_ready g a → key_typed key → is_u32 pin → is_u32 request → owner_typed service →
is_u64 now → is_u64 deadline →
call_ends l st a
(λ token a', c_generation (a_control a') = token ∧ is_active (a_control a') = true ∧
   owner (a_control a') = service ∧ c_resource (a_control a') = resource key)
(file_object_guard_begin_owned g key pin request service client e now deadline).
Proof using PL.
intros Hg Hk Hp Hr Hs Hn Hd. unfold file_object_guard_begin_owned.
destruct (Z.eqb_spec pin 0); cbn [orb]; [by apply unchanged_ends|].
destruct (Z.eqb_spec request 0); cbn [orb]; [by apply unchanged_ends|].
destruct (guard_owner_valid client); cbn [negb]; [|by apply unchanged_ends].
pose proof (begin_ends l st g a [key] (Z.lor REIST_FILE_OBJECT_EXCLUSIVE REIST_FILE_OBJECT_EXTERNAL_JOURNAL)
service e now deadline pin request client Hg) as H.
destruct H as (Hi & a' & Hh & Hend); try done; [by apply list.Forall_singleton|].
split; [done|]. exists a'. split; [done|]. destruct Hend as [[? (?&?&Hq)]|?]; [left|by right].
split; [done|]. split; [done|split; [done|]].
destruct (guard_begin _ _ _ _ _ _ _ _ _ _) as [[er|t] g']; [done|]. cbn in Hq |- *.
destruct Hq as (?&?&?&[= ->]&_). done.
Qed.

Lemma init_ready_ends l st g a :
guard_ready g a → call_ends l st a any (file_object_guard_init g).
Proof using PL.
intros Hg. pose proof Hg as ([Hl Hi] & Hp & _ & Ha).
assert (file_object_guard_init g = locked g (run (control_read;;; Ret tt))) as ->.
{ unfold file_object_guard_init, locked, guard_lock. rewrite Hl. cbn [Z.eqb set_lock poisoned initialized].
by rewrite Hp, Hi. }
apply (locked_ends g a); [done|]. cbn. by apply wp_ret.
Qed.

Lemma fenced_step l st g a :
guard_ready g a → step_ends l st a (exec OFenced g).2.
Proof using PL.
intros Hg. pose proof Hg as ([Hl Hi] & Hp & _ & Ha).
pose proof (locked_ends g a fenced_body _ Hg (wp_fenced l st a Ha)) as H%call_step.
unfold exec, file_object_guard_fenced. unfold locked in H. destruct (guard_lock g); [|done].
by destruct (run fenced_body _).
Qed.

Ltac call := (eapply call_step, entry_ends; [done|intros Hv; repeat apply orb_false_iff in Hv as [Hv ?]]).

Lemma exec_ends op g a :
guard_ready g a → op_typed op → step_ends (lifts op a) (settles op a) a (exec op g).2.
Proof using PL.
intros Hg Ht. pose proof Hg as (_ & _ & _ & Ha).
assert (∀ e : Z, step_ends (lifts op a) (settles op a) a ((e, g) : Z * guard).2) as Hsame.
{ intros e. by apply (call_step _ _ _ (any (X := unit)) (inl e, g)), unchanged_ends. }
destruct op; cbn [exec coded snd op_typed] in *.
- eapply call_step. by apply init_ready_ends.
- call; by eapply wp_snapshot.
- destruct Ht as (?&?&?). call. apply wp_pin; try done; by apply negb_false_iff.
- call; by apply wp_lookup.
- call; by apply wp_legacy_enter.
- call; by apply wp_can_open.
- call; by apply wp_key_busy.
- call; by apply wp_release.
- destruct Ht as (?&?&?&?). eapply call_step, begin_ends; done.
- destruct Ht as (?&?&?&?&?&?). eapply call_step, begin_owned_ends; done.
- call; by apply wp_owned_request.
- call; by apply wp_context.
- call. apply wp_end; [done| |].
+ unfold REIST_FILE_OBJECT_NO_EFFECT, REIST_FILE_OBJECT_UNKNOWN in *. lia.
+ cbn. intros. done.
- call; by apply wp_authorized.
- call; by apply wp_journal_io.
- call; apply wp_journal_io; [done|]. destruct Ht. unfold FILE_OBJECT_JOURNAL_FLUSHED in *. lia.
- unfold file_object_guard_cancel_undelivered. destruct (operation =? REIST_FILE_OBJECT_PIN).
+ unfold coded. cbn [snd]. call; by apply wp_release.
+ unfold coded. cbn [snd]. call; by apply wp_cancel.
- call; by apply wp_cleanup.
- call; apply wp_owner_at; [done|]. destruct Ht. unfold FILE_OBJECT_GUARD_CAPACITY in *. lia.
- call; apply wp_revoke_media; [done|]. destruct Ht. apply not_bad in Hv. lia.
- unfold file_object_guard_merge_fences. destruct (_ =? 0); [apply (Hsame 0)|].
unfold coded. cbn [snd]. call; by apply wp_merge_fences.
- destruct Ht as ([? ?]&?&?&?). call. apply wp_repair_begin; try done.
+ apply not_bad in Hv. lia.
+ by apply negb_false_iff.
+ by apply (not_bad_deadline now_ms).
- call. apply wp_repair_finish; [done|]. cbn. intros. by split_and!.
- call; by apply wp_poll.
- by apply fenced_step.
- call; by apply wp_count.
- unfold file_object_guard_detach_ready.
destruct (guard_count g r now_ms true) as [x g'] eqn:E. cbn [snd].
change g' with ((x, g').2). rewrite <- E. call; by apply wp_count.
Qed.

(** ** A poisoned guard *)
(** The same records, still poisoned. *)
Definition still_poisoned (g g' : guard) : Prop :=
idle g' ∧ poisoned g' ≠ 0 ∧ control g' = control g ∧ pins g' = pins g ∧ media g' = media g.

(** Every body starts with the control record. *)
Lemma locked_poisoned {X} g (k : guard_control_t → prog X) :
idle g → poisoned g ≠ 0 →
∃ g', locked g (run (ReadControl k)) = (inl REIST_EIO, g') ∧ still_poisoned g g'.
Proof using.
intros [Hl Hi] Hp. unfold locked, guard_lock. rewrite Hl. cbn [Z.eqb run set_lock poisoned initialized].
apply Z.eqb_neq in Hp. rewrite Hp, orb_true_r. eexists. split; [done|]. by split.
Qed.

Lemma entry_poisoned {X} g invalid (body : prog X) k :
idle g → poisoned g ≠ 0 → body = ReadControl k →
code (entry invalid body g).1 ≠ 0 ∧ still_poisoned g (entry invalid body g).2.
Proof using.
intros Hi Hp ->. unfold entry. destruct invalid; [by split_and!|].
destruct (locked_poisoned g k Hi Hp) as (g' & -> & ?). done.
Qed.

Lemma exec_poisoned op g :
idle g → poisoned g ≠ 0 →
still_poisoned g (exec op g).2 ∧ (op ≠ OMergeFences 0 → (exec op g).1 ≠ 0).
Proof using.
intros Hi Hp. pose proof Hi as [Hl Hin].
assert (∀ (r : Z * guard), r.1 ≠ 0 ∧ still_poisoned g r.2 →
still_poisoned g r.2 ∧ (op ≠ OMergeFences 0 → r.1 ≠ 0)) as Hflip by tauto.
assert (∀ e : Z, e ≠ 0 → (e, g).1 ≠ 0 ∧ still_poisoned g (e, g).2) as Hrefused
by (intros e He; split; [done|by split]).
destruct op; cbn [exec];
try (apply Hflip; unfold coded; cbn [fst snd]; by eapply entry_poisoned).
- apply Hflip. unfold file_object_guard_init, locked, guard_lock, coded. rewrite Hl. cbn [Z.eqb set_lock poisoned].
rewrite (proj2 (Z.eqb_neq _ _) Hp). by split_and!.
- apply Hflip. unfold coded, file_object_guard_begin_mode, guard_begin. destruct keys; [by apply Hrefused|].
cbn [fst snd]. by eapply entry_poisoned.
- apply Hflip. unfold coded, file_object_guard_begin_owned, guard_begin.
destruct (_ || _); [by apply Hrefused|]. cbn [fst snd]. by eapply entry_poisoned.
- apply Hflip. unfold coded, file_object_guard_cancel_undelivered.
destruct (_ =? _); cbn [fst snd]; by eapply entry_poisoned.
- unfold coded, file_object_guard_merge_fences. destruct (Z.eqb_spec merged 0) as [->|]; [split; [by split|done]|].
apply Hflip. cbn [fst snd]. by eapply entry_poisoned.
- apply Hflip. unfold file_object_guard_fenced.
destruct (locked_poisoned g (λ c, Ret (fenced c)) Hi Hp) as (g' & E & Hs). unfold locked in E.
change fenced_body with (ReadControl (λ c, Ret (fenced c))).
destruct (guard_lock g) as [g1|]; [|done].
destruct (run _ g1) as [r g2]. injection E as -> <-. done.
- apply Hflip. unfold file_object_guard_detach_ready.
pose proof (entry_poisoned g (bad_resource r) (count_body r now_ms true) _ Hi Hp eq_refl) as H.
unfold guard_count. destruct (entry _ _ _) as [[e|n] g']; [done|]. by destruct H.
Qed.

(** ** Sequences of calls *)
Lemma moves_weaken (l l' : Z → Prop) (st st' : Prop) a a' :
(∀ r, l r → l' r) → (st → st') → moves l st a a' → moves l' st' a a'.
Proof using.
intros Hl Hst [? ? ? ? Hf Hu ? ?]. split; try done.
- intros r Hr Hb. destruct (Hf r Hr Hb); auto.
- intros Hact Hat Hr. destruct (Hu Hact Hat Hr) as [?|[?|[?|?]]]; auto.
Qed.

Lemma exec_all_ends (L : Z → Prop) (ST : Prop) ops : ∀ g a,
guard_ready g a → Forall op_typed ops →
Forall (λ op, (∀ a r, lifts op a r → L r) ∧ (∀ a, settles op a → ST)) ops →
step_ends L ST a (exec_all ops g).
Proof using PL.
enough (∀ g a, Forall op_typed ops →
Forall (λ op, (∀ a r, lifts op a r → L r) ∧ (∀ a, settles op a → ST)) ops →
step_ends L ST a g → step_ends L ST a (exec_all ops g)) as Hall.
{ intros g a Hg Ht Hq. apply Hall; [done|done|]. destruct Hg as (Hi & Hp & Hh & Ha).
split; [done|]. exists a. split; [done|]. left. split_and!; [done|done|apply moves_refl]. }
induction ops as [|op ops IH]; intros g a Ht Hq Hg; [done|].
apply list.Forall_cons in Ht as [Hto Ht]. apply list.Forall_cons in Hq as [[Hl Hst] Hq].
cbn. apply IH; [done|done|]. destruct Hg as (Hi & a1 & Hh & [(Hp & Ha1 & Hm)|(Hp & Hw)]).
- destruct (exec_ends op g a1) as (Hi2 & a2 & Hh2 & Hend); [done|done|].
split; [done|]. exists a2. split; [done|].
destruct Hend as [(? & ? & Hm2)|?]; [left|by right]. split_and!; [done|done|].
eapply moves_trans; [done|]. eapply moves_weaken; [apply Hl|apply Hst|done].
- destruct (exec_poisoned op g Hi Hp) as [(Hi2 & Hp2 & Ec & Ep & Em) _].
split; [done|]. exists a1. split; [destruct Hh; split; congruence|]. right. split; [done|].
unfold worn in *. by rewrite Ec, Ep, Em.
Qed.

(** Calls that neither lift a fence nor settle a journalled write. *)
Definition quiet (op : guard_op) : Prop :=
match op with
| ORepairFinish _ _ verified _ => verified = false
| OEnd _ _ outcome _ => outcome ≠ REIST_FILE_OBJECT_DURABLE_COMMIT
| _ => True
end.

Lemma quiet_ends ops g a :
guard_ready g a → Forall op_typed ops → Forall quiet ops →
step_ends (λ _, False) False a (exec_all ops g).
Proof using PL.
intros Hg Ht Hq. apply exec_all_ends; [done|done|]. eapply list.Forall_impl; [exact Hq|].
intros op Hop. split.
- intros a' r. destruct op; cbn in *; try done. intros (E & _). congruence.
- intros a'. destruct op; cbn in *; try done. by intros (E & _).
Qed.

Lemma any_ends ops g a :
guard_ready g a → Forall op_typed ops → step_ends (λ _, True) True a (exec_all ops g).
Proof using PL. intros Hg Ht. apply exec_all_ends; [done|done|]. by apply Forall_true. Qed.

(** ** A fresh guard *)
Lemma init_stores_holds {A} `{LayoutLaws A} (ok : A → bool) stores record :
(0 < sizeof A <= 64)%nat → well_typed record → ok record = true →
∃ stores', init_stores stores (encode record) = (true, stores') ∧ length stores' = length stores ∧
Forall2 (store_is ok) stores' (replicate (length stores) record).
Proof using PL.
intros Hs Ht Hok. assert (is_u32 REIST_FILE_OBJECT_VERSION) by (unfold REIST_FILE_OBJECT_VERSION; ulia).
induction stores as [|store stores (stores' & IH & Hl & Hf)]; [by exists []; repeat constructor|]. cbn [init_stores].
destruct (init_record_spec REIST_FILE_OBJECT_VERSION ok REIST_EIO ltac:(done) ltac:(done) Hs store record Ht Hok)
as (store' & -> & Hh). cbn [Z.eqb negb]. rewrite IH. exists (store' :: stores'). split; [done|].
split; [cbn; congruence|]. cbn. constructor; [by exists 1|done].
Qed.

Definition first_state : astate :=
State (with_epoch zero_control 1) (replicate 16 zero_pin) (replicate 32 (Media 1)).

Lemma first_state_ok : state_ok first_state.
Proof using.
split; [split|].
- split; [apply control_typed; vm_compute; intuition congruence|by vm_compute].
- apply Forall_replicate. split; [apply pin_typed; vm_compute; intuition congruence|by vm_compute].
- apply Forall_replicate. split; [apply media_typed; vm_compute; intuition congruence|by vm_compute].
- done.
- done.
- done.
- done.
- intros i p Hp. apply lookup_replicate in Hp as [-> _]. done.
Qed.

(** Memory nobody has written becomes a usable guard. *)
Definition pristine (g : guard) : Prop :=
lock g = 0 ∧ poisoned g = 0 ∧ initialized g = 0 ∧ os_pristine (control g) = true ∧
forallb os_pristine (pins g) = true ∧ forallb os_pristine (media g) = true ∧
length (pins g) = 16%nat ∧ length (media g) = 32%nat.

Lemma fresh_guard g :
pristine g →
(file_object_guard_init g).1 = inr tt ∧ guard_ready (file_object_guard_init g).2 first_state.
Proof using PL.
intros (Hl & Hp & Hi & Hc & Hps & Hm & Lp & Lm). destruct record_sizes as (Sc & Sp & Sm).
assert (is_u32 REIST_FILE_OBJECT_VERSION) by (unfold REIST_FILE_OBJECT_VERSION; ulia).
destruct (ok_control _ (proj1 first_state_ok)) as [Tc Oc].
destruct (init_record_spec REIST_FILE_OBJECT_VERSION control_ok REIST_EIO ltac:(done) ltac:(done) Sc (control g)
(with_epoch zero_control 1) Tc Oc) as (c' & Ec & Hhc).
destruct (proj1 (Forall_lookup _ _) (ok_pins _ (proj1 first_state_ok)) 0%nat zero_pin eq_refl) as [Tp Op].
destruct (init_stores_holds pin_ok (pins g) zero_pin Sp Tp Op) as (ps & Eps & Lps & Hhp).
destruct (proj1 (Forall_lookup _ _) (ok_media _ (proj1 first_state_ok)) 0%nat (Media 1) eq_refl) as [Tm Om].
destruct (init_stores_holds media_ok (media g) (Media 1) Sm Tm Om) as (ms & Ems & Lms & Hhm).
unfold file_object_guard_init, locked, guard_lock. rewrite Hl.
cbn [Z.eqb set_lock poisoned initialized control pins media]. rewrite Hp, Hi, Hc, Hps, Hm. cbn [Z.eqb negb andb].
unfold init_records. cbn [control set_lock]. rewrite Ec. cbn [Z.eqb negb pins set_control set_lock]. rewrite Eps.
cbn [negb media set_control set_lock]. rewrite Ems. cbn [negb fst snd].
split; [done|]. split; [done|]. split; [done|]. split; [|apply first_state_ok].
rewrite Lp in Hhp. rewrite Lm in Hhm. split; [by exists 1|done|done].
Qed.

Lemma call_result {X} l st a (Q : X → astate → Prop) r x :
call_ends l st a Q r → r.1 = inr x → ∃ a', guard_ready r.2 a' ∧ moves l st a a' ∧ Q x a'.
Proof using.
intros (Hi & a' & Hh & [(Hp & Ha & Hm & HQ)|(_ & E & _)]) Er; [|congruence].
rewrite Er in HQ. exists a'. done.
Qed.

(** After a run: usable, or poisoned by exhaustion. *)
Lemma ready_or_poisoned l st a g :
step_ends l st a g → (idle g ∧ poisoned g ≠ 0) ∨ ∃ a', guard_ready g a' ∧ moves l st a a'.
Proof using.
intros (Hi & a' & Hh & [(? & ? & ?)|(? & ?)]); [right|by left]. by exists a'.
Qed.

Lemma poisoned_refuses {X} g invalid (body : prog X) k x :
idle g → poisoned g ≠ 0 → body = ReadControl k → (entry invalid body g).1 ≠ inr x.
Proof using.
intros Hi Hp E Er. destruct (entry_poisoned g invalid body k Hi Hp E) as [Hc _]. by rewrite Er in Hc.
Qed.

(** The records of a guard determine its abstract state. *)
Lemma store_is_functional {A} `{LayoutLaws A} (ok : A → bool) store x y :
(0 < sizeof A <= 64)%nat → store_is ok store x → store_is ok store y → x = y.
Proof using PL.
intros Hs (n & Hx) (n' & Hy). assert (is_u32 REIST_FILE_OBJECT_VERSION) by (unfold REIST_FILE_OBJECT_VERSION; ulia).
by apply (record_holds_functional REIST_FILE_OBJECT_VERSION ok REIST_EIO ltac:(done) ltac:(done) Hs store n n').
Qed.

Lemma stores_functional {A} `{LayoutLaws A} (ok : A → bool) stores l l' :
(0 < sizeof A <= 64)%nat → Forall2 (store_is ok) stores l → Forall2 (store_is ok) stores l' → l = l'.
Proof using PL.
intros Hs Hl. revert l'. induction Hl as [|st x stores l Hx _ IH]; intros l' Hl'; inversion_clear Hl' as [|? y ? k Hy Hk]; [done|].
f_equal; [by eapply store_is_functional|by apply IH].
Qed.

Lemma guard_holds_functional g a a' : guard_holds g a → guard_holds g a' → a = a'.
Proof using PL.
destruct record_sizes as (Sc & Sp & Sm). destruct a, a'. intros [H1 H2 H3] [H1' H2' H3']. cbn in *.
f_equal; [by eapply store_is_functional|by eapply stores_functional..].
Qed.

Lemma unobstructed_moves l st a a' keys m r borrowed :
moves l st a a' → same_reservation (a_control a) (a_control a') →
unobstructed a keys m r borrowed → unobstructed a' keys m r borrowed.
Proof using.
intros Hm Hs Hu i p Hp Hact. apply (Hu i p); [|done]. by apply (moves_quiet _ _ _ _ Hm Hs).
Qed.

(** While the reservation that a call of [ops] obtained lasts, nothing
  obstructs it. *)
Definition reservations_hold (g : guard) (ops : list guard_op) (a' : astate) : Prop :=
∀ pre keys m o e now deadline post token,
ops = pre ++ OBegin keys m o e now deadline :: post →
(file_object_guard_begin_mode (exec_all pre g) keys m o e now deadline).1 = inr token →
is_active (a_control a') = true → c_generation (a_control a') = token →
unobstructed a' keys m (c_resource (a_control a')) 0 ∧ Some (c_resource (a_control a')) = resource <$> head keys.

Lemma reservation_lasts g a keys m o e now deadline post token a' :
guard_ready g a → op_typed (OBegin keys m o e now deadline) → Forall op_typed post →
(file_object_guard_begin_mode g keys m o e now deadline).1 = inr token →
let g' := exec_all (OBegin keys m o e now deadline :: post) g in
poisoned g' = 0 → guard_holds g' a' →
is_active (a_control a') = true → c_generation (a_control a') = token →
unobstructed a' keys m (c_resource (a_control a')) 0 ∧ Some (c_resource (a_control a')) = resource <$> head keys.
Proof using PL.
intros Hg (Hk & Ho & Hn & Hd) Hpost E g' Hp Hh Hact Htok. assert (is_u32 0) by (unfold_words; lia).
destruct (call_result _ _ _ _ _ _ (begin_ends (λ _, True) True g a keys m o e now deadline 0 0 zero_owner Hg Hk Ho Hn Hd
  ltac:(done) ltac:(done) ltac:(done) ltac:(done)) E) as (a1 & Hg1 & _ & Hc1 & _ & _ & Hr1 & _ & Hu).
destruct (ready_or_poisoned _ _ _ _ (any_ends post _ _ Hg1 Hpost)) as [[_ Hbad]|(a2 & Hg2 & Hm)].
{ destruct (Hbad Hp). }
change (guard_ready g' a2) in Hg2. assert (a2 = a') as -> by (apply (guard_holds_functional g'); [apply Hg2|done]).
assert (same_reservation (a_control a1) (a_control a')) as Hs by (split; [done|congruence]).
destruct (moves_reservation _ _ _ _ Hm Hs) as (_ & _ & Er & _). rewrite Er. split; [|done].
by apply (unobstructed_moves _ _ _ _ _ _ _ _ Hm Hs).
Qed.

(** C4: From a usable guard, any sequence of calls leaves valid records, in
  which every active pin belongs to the current medium.  A reservation
  for external journalling or for repair is alone on its resource with at
  most the pin it borrowed.  A reservation that [file_object_guard_begin_mode]
  granted finds no active pin on its keys, and in exclusive mode none on its
  resource, for as long as it lasts.  The guard stops being usable only when a
  counter or a record can advance no further. *)
Theorem guard_runs_valid g a ops :
guard_ready g a → Forall op_typed ops →
let g' := exec_all ops g in
idle g' ∧ ∃ a', guard_holds g' a' ∧
((poisoned g' = 0 ∧ state_ok a' ∧ reservations_hold g ops a') ∨ (poisoned g' ≠ 0 ∧ worn g' a')).
Proof using PL.
intros Hg Ht. destruct (any_ends ops g a Hg Ht) as (Hi & a' & Hh & Hend).
split; [done|]. exists a'. split; [done|]. destruct Hend as [(Hp & Hok & _)|?]; [left|by right].
split_and!; [done|done|]. intros pre keys m o e now deadline post token -> E Hact Htok.
apply list.Forall_app in Ht as [Hpre [Hop Hpost]%list.Forall_cons].
unfold exec_all in Hp, Hh. rewrite fold_left_app in Hp, Hh.
destruct (ready_or_poisoned _ _ _ _ (any_ends pre g a Hg Hpre)) as [[Hi1 Hbad]|(a1 & Hg1 & _)].
- destruct keys as [|first keys]; [done|]. by destruct (poisoned_refuses (exec_all pre g) _ (begin_body _ _ _ _ _ _ _ _ _ _) _ token Hi1 Hbad eq_refl E).
- by apply (reservation_lasts (exec_all pre g) a1 keys m o e now deadline post token).
Qed.

(** The fence of a resource is lifted by one call only: the verified end of
  a repair, by the owner of the repair reservation of that resource, after
  it wrote and flushed. *)
Theorem guard_fence_lifted g a op r :
guard_ready g a → op_typed op → 0 <= r < 32 → fence_bit (fenced (a_control a)) r = true →
let g' := (exec op g).2 in
poisoned g' ≠ 0 ∨ ∃ a', guard_ready g' a' ∧ (fence_bit (fenced (a_control a')) r = true ∨ lifts op a r).
Proof using PL.
intros Hg Ht Hr Hf. destruct (ready_or_poisoned _ _ _ _ (exec_ends op g a Hg Ht)) as [[_ ?]|(a' & Hg' & Hm)].
- by left.
- right. exists a'. split; [done|]. by apply (moves_fences _ _ _ _ Hm).
Qed.

Lemma pin_ends l st g a key service client e now :
guard_ready g a → key_typed key → owner_typed service → owner_typed client →
call_ends l st a
(λ token a', pinned a' key service client token ∧ is_active (a_control a') = false ∧
   fence_bit (fenced (a_control a')) (resource key) = false)
(file_object_guard_pin g key service client e now).
Proof using PL.
intros Hg ? ? ?. apply entry_ends; [done|]. intros Hv. repeat apply orb_false_iff in Hv as [Hv ?].
apply wp_pin; try done; [apply Hg|by apply negb_false_iff..].
Qed.

Lemma lookup_ends l st g a token service client now :
guard_ready g a →
call_ends l st a
(λ key a', ∃ pin slot, token_names a token service client (pin, slot) ∧
   pin_active pin = true ∧ key = p_key pin ∧ fence_bit (fenced (a_control a')) (resource key) = false)
(file_object_guard_lookup g token service client now).
Proof using PL. intros Hg. apply entry_ends; [done|]. intros _. apply wp_lookup, Hg. Qed.

Lemma can_open_ends l st g a r now :
guard_ready g a →
call_ends l st a (λ _ a', fence_bit (fenced (a_control a')) r = false) (file_object_guard_can_open g r now).
Proof using PL. intros Hg. apply entry_ends; [done|]. intros _. apply wp_can_open, Hg. Qed.

(** Once fenced, a resource stays closed through any calls without a
  verified repair or a durable end: no pin is granted on it, no token of it
  verifies, no mutation begins on it and it cannot be opened. *)
Theorem guard_fence_blocks g a r ops key service client e now deadline :
guard_ready g a → 0 <= r < 32 → fence_bit (fenced (a_control a)) r = true →
Forall op_typed ops → Forall quiet ops →
key_typed key → resource key = r → owner_typed service → owner_typed client →
is_u64 now → is_u64 deadline →
let g' := exec_all ops g in
(∀ token, (file_object_guard_pin g' key service client e now).1 ≠ inr token) ∧
(∀ token, (file_object_guard_lookup g' token service client now).1 ≠ inr key) ∧
(∀ exclusive token, (file_object_guard_begin g' [key] exclusive service e now deadline).1 ≠ inr token) ∧
(∀ x, (file_object_guard_can_open g' r now).1 ≠ inr x).
Proof using PL.
intros Hg Hr Hf Ht Hq Hk Ekey Hs Hc Hn Hd g'.
assert (∀ a1 a2, moves (λ _, False) False a a1 → moves (λ _, False) False a1 a2 →
fence_bit (fenced (a_control a2)) r = true) as Hkeep.
{ intros a1 a2 M1 M2. destruct (moves_fences _ _ _ _ M1 r Hr Hf) as [H1|[]].
by destruct (moves_fences _ _ _ _ M2 r Hr H1) as [|[]]. }
destruct (ready_or_poisoned _ _ _ _ (quiet_ends ops g a Hg Ht Hq)) as [[Hi Hp]|(a1 & Hg1 & Hm1)].
{ split_and!; intros; try (by eapply poisoned_refuses). }
fold g' in Hg1. pose proof Hg1 as (_ & _ & _ & Ha1). split_and!.
- intros token E.
destruct (call_result _ _ _ _ _ _ (pin_ends (λ _, False) False g' a1 key service client e now Hg1 Hk Hs Hc) E)
  as (a2 & _ & Hm2 & _ & _ & Hf2).
rewrite Ekey in Hf2. by rewrite (Hkeep a1 a2) in Hf2.
- intros token E.
destruct (call_result _ _ _ _ _ _ (lookup_ends (λ _, False) False g' a1 token service client now Hg1) E)
  as (a2 & _ & Hm2 & pin & slot & _ & _ & _ & Hf2).
rewrite Ekey in Hf2. by rewrite (Hkeep a1 a2) in Hf2.
- intros exclusive token E.
destruct (call_result _ _ _ _ _ _ (begin_ends (λ _, False) False g' a1 [key]
  (if exclusive then REIST_FILE_OBJECT_EXCLUSIVE else 0) service e now deadline 0 0 zero_owner Hg1
  ltac:(by apply list.Forall_singleton) Hs Hn Hd ltac:(done) ltac:(done) ltac:(done) ltac:(done)) E)
  as (a2 & _ & Hm2 & _ & _ & _ & [= Er] & Hf2 & _).
rewrite Er, Ekey in Hf2. by rewrite (Hkeep a1 a2) in Hf2.
- intros x E.
destruct (call_result _ _ _ _ _ _ (can_open_ends (λ _, False) False g' a1 r now Hg1) E) as (a2 & _ & Hm2 & Hf2).
by rewrite (Hkeep a1 a2) in Hf2.
Qed.

Lemma release_ends l st g a token service client :
guard_ready g a →
call_ends l st a
(λ _ a', ∃ p slot, token_names a token service client (p, slot) ∧
   ∃ p', a_pins a' !! slot = Some p' ∧ pin_active p' = false ∧ p_generation p' = p_generation p)
(file_object_guard_release g token service client).
Proof using PL. intros Hg. apply entry_ends; [done|]. intros _. apply wp_release, Hg. Qed.

(** A released token is dead: no later sequence of calls, new pins of the
  same slot included, makes it verify again, for any owners. *)
Theorem guard_released_token_dead g a token service client ops service' client' now :
guard_ready g a → (file_object_guard_release g token service client).1 = inr tt →
Forall op_typed ops →
let g' := exec_all ops (file_object_guard_release g token service client).2 in
∀ key, (file_object_guard_verify g' token service' client' now).1 ≠ inr key.
Proof using PL.
intros Hg Er Ht g' key Ek.
destruct (call_result _ _ _ _ _ _ (release_ends (λ _, True) True g a token service client Hg) Er)
as (a1 & Hg1 & _ & p & slot & Hn & p' & Hp' & Hdead & Hgen).
destruct Hn as (_ & Eslot & _ & _ & Hg0 & _). cbn [fst snd] in *.
destruct (ready_or_poisoned _ _ _ _ (any_ends ops _ a1 Hg1 Ht)) as [[Hi Hp]|(a2 & Hg2 & Hm)].
{ revert Ek. by eapply poisoned_refuses. }
destruct (call_result _ _ _ _ _ _ (lookup_ends (λ _, True) True g' a2 token service' client' now Hg2) Ek)
as (a3 & _ & _ & q & slot' & Hq & Hact & _).
destruct Hq as (Hq & Eslot' & _ & _ & Hgq & _). cbn [fst snd] in *. subst slot slot'.
destruct (moves_pins _ _ _ _ Hm _ _ _ Hp' Hq) as [_ Hsame].
rewrite (Hsame ltac:(congruence) Hact) in Hact. congruence.
Qed.

Lemma journal_ends l st g a o token r event now :
guard_ready g a → is_u32 event →
call_ends l st a
(λ out a', is_active (a_control a') = true ∧ c_generation (a_control a') = token ∧
   owner (a_control a') = o ∧ c_resource (a_control a') = r ∧
   (event = FILE_OBJECT_JOURNAL_WRITE → attempted (a_control a') ≠ 0 ∧ pending (a_control a') ≠ 0) ∧
   out.2 = context_of (a_control a'))
(file_object_guard_journal_io g o token r event now).
Proof using PL.
intros Hg [? _]. apply entry_ends; [done|]. intros Hv. repeat apply orb_false_iff in Hv as [Hv ?].
apply wp_journal_io; [apply Hg|]. unfold FILE_OBJECT_JOURNAL_FLUSHED in *. lia.
Qed.

(** C17: A journalled write is never forgotten.  After the guard has accepted a
  write of a reservation, and whatever calls follow short of a durable end
  or a verified repair, the reservation is still held by its owner on its
  resource with the write on record, or the resource is fenced. *)
Theorem guard_write_accounted g a o token r now out ops :
guard_ready g a →
(file_object_guard_journal_io g o token r FILE_OBJECT_JOURNAL_WRITE now).1 = inr out →
Forall op_typed ops → Forall quiet ops →
let g' := exec_all ops (file_object_guard_journal_io g o token r FILE_OBJECT_JOURNAL_WRITE now).2 in
(idle g' ∧ poisoned g' ≠ 0) ∨
∃ a', guard_ready g' a' ∧
let c := a_control a' in
(is_active c = true ∧ c_generation c = token ∧ owner c = o ∧ c_resource c = r ∧ attempted c ≠ 0) ∨
fence_bit (fenced c) r = true.
Proof using PL.
intros Hg Er Ht Hq g'.
assert (is_u32 FILE_OBJECT_JOURNAL_WRITE) as Hev by (unfold FILE_OBJECT_JOURNAL_WRITE; ulia).
destruct (call_result _ _ _ _ _ _ (journal_ends (λ _, False) False g a o token r _ now Hg Hev) Er)
as (a1 & Hg1 & _ & Hact & Hgen & Hown & Hres & Hw & _).
destruct (Hw eq_refl) as [Hat _].
destruct (ready_or_poisoned _ _ _ _ (quiet_ends ops _ a1 Hg1 Ht Hq)) as [?|(a2 & Hg2 & Hm)]; [by left|right].
exists a2. split; [done|]. destruct Hg1 as (_ & _ & _ & Ha1).
destruct (moves_uncertain _ _ _ _ Hm Hact Hat (active_resource _ (proj1 Ha1) Hact)) as [Hs|[Hf|[[]|[]]]].
- left. destruct (moves_reservation _ _ _ _ Hm Hs) as (_ & Eo & Err & Hat2). destruct Hs as [? ?].
cbn. split_and!; [done|congruence|congruence|congruence|by apply Hat2].
- right. cbn. by rewrite <- Hres.
Qed.

(** Forgetting an owner is complete: after a successful cleanup no active
  pin names the owner as service or client and no reservation is his. *)
Theorem guard_cleanup_forgets g a o :
guard_ready g a → (file_object_guard_cleanup g o).1 = inr tt →
∃ a', guard_ready (file_object_guard_cleanup g o).2 a' ∧ forgotten a' o.
Proof using PL.
intros Hg Er.
assert (call_ends (λ _, True) True a (λ _ a', forgotten a' o) (file_object_guard_cleanup g o)) as H.
{ apply entry_ends; [done|]. intros _. apply wp_cleanup, Hg. }
destruct (call_result _ _ _ _ _ _ H Er) as (a' & ? & _ & ?). by exists a'.
Qed.

(** A poisoned guard refuses everything for good: in any sequence of calls
  every call reports an error (merging no fences does nothing), and the
  records are not touched. *)
Theorem guard_poison_final g ops op :
idle g → poisoned g ≠ 0 → op ≠ OMergeFences 0 →
(exec op (exec_all ops g)).1 ≠ 0 ∧ still_poisoned g (exec_all (ops ++ [op]) g).
Proof using.
intros Hi Hp Hop.
assert (∀ ops, still_poisoned g (exec_all ops g)) as Hall.
{ intros ops'. unfold exec_all. induction ops' as [|op' ops' IH] using rev_ind; [by split_and!|].
rewrite fold_left_app. cbn. destruct IH as (Hi' & Hp' & Ec & Ep & Em).
destruct (exec_poisoned op' _ Hi' Hp') as [(? & ? & ? & ? & ?) _]. split_and!; try done; congruence. }
split; [|apply Hall]. destruct (Hall ops) as (Hi' & Hp' & _). by apply exec_poisoned.
Qed.

(** ** A pin and its token *)
Lemma wp_lookup_pinned a key service client token now :
state_ok a → pinned a key service client token → is_active (a_control a) = false →
fence_bit (fenced (a_control a)) (resource key) = false →
wp (lookup_body token service client now) a (λ r a', r = inr key ∧ a' = a).
Proof using.
intros Ha (slot & p & Hp & Hs & Et & Hg & Hact & Hk & Hsv & Hc) Hi Hf.
destruct (make_token_parts (p_generation p) slot ltac:(lia) Hs) as (Eg & Es & _). rewrite <- Et in *.
destruct (proj2 Ha slot p Hp Hact) as (m & Hm & Hmg).
unfold lookup_body, control_current, guard_expire. cbn [bind control_read wp]. rewrite Hi. cbn [andb bind].
unfold guard_token_read, FILE_OBJECT_GUARD_CAPACITY. rewrite Es, Eg.
destruct (Z.eqb_spec (Z.of_nat slot + 1) 0); [lia|]. destruct (Z.ltb_spec 16 (Z.of_nat slot + 1)); [lia|].
destruct (Z.eqb_spec (p_generation p) 0); [lia|]. cbn [orb].
replace (Z.to_nat (Z.of_nat slot + 1 - 1)) with slot by lia.
cbn [bind pin_read wp]. rewrite Hp, Z.eqb_refl, Hsv, Hc, !(proj2 (same_owner_spec _ _) eq_refl).
cbn [negb orb fail_if bind wp fst snd]. rewrite Hact. cbn [negb fail_if bind wp].
rewrite Hk, Hf. cbn [fail_if bind wp media_read]. rewrite Hk in Hm. rewrite Hm. cbn [wp].
by rewrite Hmg, Z.eqb_refl.
Qed.

(** The token a pin returns leads back to its key: until the guard changes,
  looking it up as the same service for the same client yields the pinned
  key, at any time. *)
Theorem guard_pin_lookup g a key service client e now token now' :
guard_ready g a → key_typed key → owner_typed service → owner_typed client →
(file_object_guard_pin g key service client e now).1 = inr token →
let g' := (file_object_guard_pin g key service client e now).2 in
let r := file_object_guard_lookup g' token service client now' in
r.1 = inr key ∨ (r.1 = inl REIST_EIO ∧ poisoned r.2 ≠ 0).
Proof using PL.
intros Hg Hk Hs Hc Er.
destruct (call_result _ _ _ _ _ _ (pin_ends (λ _, True) True g a key service client e now Hg Hk Hs Hc) Er)
as (a1 & Hg1 & _ & Hpin & Hi & Hf).
cbv zeta. set (g' := (file_object_guard_pin _ _ _ _ _ _).2) in *.
pose proof Hg1 as (_ & _ & _ & Ha1).
assert (call_runs (λ x a2, x = inr key ∧ a2 = a1) (file_object_guard_lookup g' token service client now')) as H.
{ apply (locked_ends g' a1); [done|]. by apply wp_lookup_pinned. }
destruct H as (_ & a2 & _ & [(_ & HQ & _)|(? & ? & _)]); [by left|by right].
Qed.

Lemma begin_mode_ready g a keys m o e now deadline token :
guard_ready g a → Forall key_typed keys → owner_typed o → is_u64 now → is_u64 deadline →
(file_object_guard_begin_mode g keys m o e now deadline).1 = inr token →
∃ a', guard_ready (file_object_guard_begin_mode g keys m o e now deadline).2 a'.
Proof using PL.
intros Hg ? ? ? ? E.
assert (is_u32 0) by (unfold_words; lia).
destruct (call_result _ _ _ _ _ _ (begin_ends (λ _, True) True g a keys m o e now deadline 0 0 zero_owner
Hg ltac:(done) ltac:(done) ltac:(done) ltac:(done) ltac:(done) ltac:(done) ltac:(done) ltac:(done)) E) as (a' & ? & _).
by exists a'.
Qed.
End props.

(** ** Witnesses: a guard over critical objects *)
Definition blank_object : CriticalObject.critical_object_t :=
  CriticalObject.Object 0 (CriticalObject.Copy (replicate 16 0) (replicate 16 0) 0)
    (CriticalObject.Copy (replicate 16 0) (replicate 16 0) 0).

Definition blank_guard : file_object_guard_t CriticalObject.critical_object_t :=
  Guard 0 0 0 blank_object (replicate 16 blank_object) (replicate 32 blank_object).

Definition sample_guard : file_object_guard_t CriticalObject.critical_object_t :=
  (file_object_guard_init blank_guard).2.

Definition sample_key : reist_file_object_key_t := Key 2 2 3 0 0x4141414141414141414141 0.
Definition sample_service : file_object_owner_t := Owner 7 1.
Definition sample_client : file_object_owner_t := Owner 9 4.

Lemma sample_ready : guard_ready sample_guard first_state.
Proof. apply fresh_guard. repeat split. Qed.

Lemma sample_typed : key_typed sample_key ∧ owner_typed sample_service ∧ owner_typed sample_client.
Proof. unfold key_typed, owner_typed. cbn. unfold_words. lia. Qed.

Ltac list_of_calls :=
  rewrite ?list.Forall_cons; cbn [op_typed quiet]; split_and?;
  first [apply list.Forall_nil_2 | done | (unfold key_typed, owner_typed, FILE_OBJECT_JOURNAL_WRITE,
    FILE_OBJECT_JOURNAL_FLUSHED; cbn; unfold_words; lia)].

(** The guard after a pin, its token, and after a fence of resource 2. *)
Definition sample_token : Z := 257.
Definition pinned_guard := (file_object_guard_pin sample_guard sample_key sample_service sample_client 1 10).2.
Definition fenced_guard := (file_object_guard_merge_fences sample_guard 4).2.

Lemma sample_pin : (file_object_guard_pin sample_guard sample_key sample_service sample_client 1 10).1 = inr sample_token.
Proof. vm_compute. reflexivity. Qed.

Lemma pinned_ready : ∃ a, guard_ready pinned_guard a.
Proof.
  destruct sample_typed as (? & ? & ?).
  destruct (call_result _ _ _ _ _ _ (pin_ends (λ _, True) True sample_guard first_state sample_key sample_service
    sample_client 1 10 sample_ready ltac:(done) ltac:(done) ltac:(done)) sample_pin) as (a & ? & _).
  by exists a.
Qed.

Lemma fenced_ready : ∃ a, guard_ready fenced_guard a ∧ fence_bit (fenced (a_control a)) 2 = true.
Proof.
  assert (call_ends (λ _, True) True first_state
    (λ _ a', ∀ r, 0 <= r < 32 → fence_bit 4 r = true → fence_bit (fenced (a_control a')) r = true)
    (file_object_guard_merge_fences sample_guard 4)) as H.
  { apply entry_ends; [apply sample_ready|]. intros _. apply wp_merge_fences; [apply sample_ready|].
    unfold_words. lia. }
  destruct (call_result _ _ _ _ _ tt H) as (a & ? & _ & Hf); [by vm_compute|].
  exists a. split; [done|]. by apply Hf.
Qed.

(** A plain exclusive reservation is granted before the pin, another after it. *)
Definition exclusive_calls : list guard_op :=
  [OMergeFences 8; OBegin [sample_key] REIST_FILE_OBJECT_EXCLUSIVE sample_service 1 10 100; OPoll 20].

Lemma guard_runs_valid_witness :
  let g' := exec_all exclusive_calls sample_guard in
  (file_object_guard_begin_mode (exec_all [OMergeFences 8] sample_guard) [sample_key] REIST_FILE_OBJECT_EXCLUSIVE
     sample_service 1 10 100).1 = inr 1 ∧
  (file_object_guard_begin_mode pinned_guard [sample_key] REIST_FILE_OBJECT_EXCLUSIVE sample_service 1 10 100).1 =
    inl REIST_EBUSY ∧
  poisoned g' = 0 ∧
  idle g' ∧ ∃ a', guard_holds g' a' ∧
    ((poisoned g' = 0 ∧ state_ok a' ∧ reservations_hold sample_guard exclusive_calls a') ∨
     (poisoned g' ≠ 0 ∧ worn g' a')).
Proof.
  split; [vm_compute; reflexivity|]. split; [vm_compute; reflexivity|]. split; [vm_compute; reflexivity|].
  refine (guard_runs_valid sample_guard first_state exclusive_calls sample_ready _).
  destruct sample_typed as (Hk & Hs & _). unfold exclusive_calls.
  repeat (apply list.Forall_cons; split); try apply list.Forall_nil_2; cbn [op_typed]; [unfold_words; lia| |done].
  split_and!; [by apply list.Forall_singleton|apply Hs|apply Hs|unfold_words; lia..].
Defined.

(** The repair of resource 2 up to its verified end. *)
Definition repair_calls : list guard_op :=
  [ORepairBegin 2 sample_service 1 20 100; OJournalIo sample_service 1 2 FILE_OBJECT_JOURNAL_WRITE 30;
   OJournalIo sample_service 1 2 FILE_OBJECT_JOURNAL_FLUSHED 40].
Definition repairing_guard := exec_all repair_calls fenced_guard.

Lemma repairing_ready : ∃ a, guard_ready repairing_guard a ∧ fence_bit (fenced (a_control a)) 2 = true.
Proof.
  destruct fenced_ready as (a & Hg & Hf).
  assert (Forall op_typed repair_calls) as Ht.
  { unfold repair_calls. list_of_calls. }
  assert (Forall quiet repair_calls) as Hq by (unfold repair_calls; list_of_calls).
  destruct (ready_or_poisoned _ _ _ _ (quiet_ends repair_calls fenced_guard a Hg Ht Hq)) as [[_ Hp]|(a' & Hg' & Hm)].
  { destruct Hp. vm_compute. reflexivity. }
  exists a'. split; [done|]. by destruct (moves_fences _ _ _ _ Hm 2 ltac:(lia) Hf).
Qed.

Lemma guard_fence_lifted_witness :
  ∃ a, let op := ORepairFinish 1 sample_service true 50 in
  let g' := (exec op repairing_guard).2 in
  poisoned g' ≠ 0 ∨ ∃ a', guard_ready g' a' ∧ (fence_bit (fenced (a_control a')) 2 = true ∨ lifts op a 2).
Proof.
  destruct repairing_ready as (a & Hg & Hf). exists a. cbv zeta.
  apply (guard_fence_lifted repairing_guard a _ 2 Hg); [exact I|lia|exact Hf].
Defined.

Lemma guard_fence_blocks_witness :
  let g' := exec_all [OPoll 5; OEnd 3 sample_service 1 6] fenced_guard in
  (∀ token, (file_object_guard_pin g' sample_key sample_service sample_client 1 10).1 ≠ inr token) ∧
  (∀ token, (file_object_guard_lookup g' token sample_service sample_client 10).1 ≠ inr sample_key) ∧
  (∀ exclusive token, (file_object_guard_begin g' [sample_key] exclusive sample_service 1 10 20).1 ≠ inr token) ∧
  (∀ x, (file_object_guard_can_open g' 2 10).1 ≠ inr x).
Proof.
  destruct fenced_ready as (a & Hg & Hf). destruct sample_typed as (Hk & Hs & Hc).
  refine (guard_fence_blocks fenced_guard a 2 _ sample_key sample_service sample_client 1 10 20 Hg _ Hf _ _ Hk _ Hs Hc _ _);
    [lia|list_of_calls|list_of_calls|done|unfold_words; lia|unfold_words; lia].
Defined.

(** The slot of the released pin is granted again before the token is tried. *)
Lemma guard_released_token_dead_witness :
  let r := file_object_guard_release pinned_guard sample_token sample_service sample_client in
  r.1 = inr tt ∧
  ∀ key, (file_object_guard_verify (exec_all [OPin sample_key sample_service sample_client 1 20] r.2)
            sample_token sample_service sample_client 30).1 ≠ inr key.
Proof.
  cbv zeta.
  assert ((file_object_guard_release pinned_guard sample_token sample_service sample_client).1 = inr tt) as E
    by (vm_compute; reflexivity).
  split; [exact E|]. destruct pinned_ready as (a & Hg). destruct sample_typed as (? & ? & ?).
  apply (guard_released_token_dead pinned_guard a sample_token sample_service sample_client _
    sample_service sample_client 30 Hg E). list_of_calls.
Defined.

(** A reservation that writes and then runs out of time. *)
Definition writing_guard := (file_object_guard_begin_mode sample_guard [sample_key] 3 sample_service 1 10 100).2.

Lemma writing_ready : ∃ a, guard_ready writing_guard a.
Proof.
  destruct sample_typed as (Hk & Hs & _).
  assert ((file_object_guard_begin_mode sample_guard [sample_key] 3 sample_service 1 10 100).1 = inr 1) as E
    by (vm_compute; reflexivity).
  apply (begin_mode_ready sample_guard first_state [sample_key] 3 sample_service 1 10 100 1 sample_ready);
    [by apply list.Forall_singleton|exact Hs|unfold_words; lia|unfold_words; lia|exact E].
Qed.

Lemma guard_write_accounted_witness :
  let r := file_object_guard_journal_io writing_guard sample_service 1 2 FILE_OBJECT_JOURNAL_WRITE 20 in
  let g' := exec_all [OPoll 200] r.2 in
  (idle g' ∧ poisoned g' ≠ 0) ∨
  ∃ a', guard_ready g' a' ∧
    let c := a_control a' in
    (is_active c = true ∧ c_generation c = 1 ∧ owner c = sample_service ∧ c_resource c = 2 ∧ attempted c ≠ 0) ∨
    fence_bit (fenced c) 2 = true.
Proof.
  assert ((file_object_guard_journal_io writing_guard sample_service 1 2 FILE_OBJECT_JOURNAL_WRITE 20).1 =
    inr (false, Context 100 0 2 1 false 1)) as E by (vm_compute; reflexivity).
  destruct writing_ready as (a & Hg).
  assert (Forall op_typed [OPoll 200]) as Ht by list_of_calls.
  assert (Forall quiet [OPoll 200]) as Hq by list_of_calls.
  exact (guard_write_accounted writing_guard a sample_service 1 2 20 _ [OPoll 200] Hg E Ht Hq).
Defined.

Lemma guard_cleanup_forgets_witness :
  ∃ a', guard_ready (file_object_guard_cleanup pinned_guard sample_client).2 a' ∧ forgotten a' sample_client.
Proof.
  destruct pinned_ready as (a & Hg).
  apply (guard_cleanup_forgets pinned_guard a sample_client Hg). vm_compute. reflexivity.
Defined.

Lemma guard_poison_final_witness :
  let g := guard_poison sample_guard in
  (exec (OSnapshot 5) (exec_all [OPoll 1; OMergeFences 0] g)).1 ≠ 0 ∧
  still_poisoned g (exec_all ([OPoll 1; OMergeFences 0] ++ [OSnapshot 5]) g).
Proof.
  apply (guard_poison_final (guard_poison sample_guard)); [|by vm_compute|discriminate].
  destruct sample_ready as ([? ?] & _). by split.
Defined.

Lemma guard_pin_lookup_witness :
  let r := file_object_guard_lookup pinned_guard sample_token sample_service sample_client 99 in
  r.1 = inr sample_key ∨ (r.1 = inl REIST_EIO ∧ poisoned r.2 ≠ 0).
Proof.
  destruct sample_typed as (Hk & Hs & Hc).
  exact (guard_pin_lookup sample_guard first_state sample_key sample_service sample_client 1 10 sample_token 99
    sample_ready Hk Hs Hc sample_pin).
Defined.
