(* ===== verification/Heap.v ===== *)
(** User-space heap: src/userspace/libc/lib/heap.c and
    src/userspace/libc/include/reist/libc.h.

    [Module Heap] holds every function of the C file as a program of the monad
    [M] over the static variables of the file, the memory it hands out and the
    world of the backing provider.  A program returns, calls
    [reist_libc_fail] ([Faults]), indexes an array outside its bounds
    ([Undefined]) or uses up the fuel of a chain walk ([Unfinished]); the
    last two are shown not to occur.  Addresses are numbers and 0 is the null
    pointer; the width of a pointer is that of the platform.  Provider
    callbacks are parameters that act on the world: they do not re-enter the
    heap (the contract of the header file) and leave live objects alone. *)
From S2P Require Import Prelude.

(** The two ABIs the library is built for. *)
Class Platform := {
  UINTPTR_MAX : Z;
  platform_width : UINTPTR_MAX = UINT32_MAX ∨ UINTPTR_MAX = UINT64_MAX
}.

(** The functions behind the callback pointers of a provider. *)
Class Provider (W : Type) := {
  call_acquire : Z → Z → Z → W → Z * W;
  call_release : Z → Z → Z → Z → W → W
}.

(** The contract of the header file: acquire gives private storage, aligned
    and inside the address space, or null; release takes back what it names
    and nothing else.  [lent w] are the regions given out in [w]. *)
Class ProviderLaws (W : Type) `{!Platform} `{!Provider W} := {
  lent : W → list (Z * Z);
  acquire_lends f context cap w storage w' :
    call_acquire f context cap w = (storage, w') →
    (storage = 0 ∨
     0 < storage ∧ storage mod 16 = 0 ∧ storage + cap <= UINTPTR_MAX ∧ (storage, cap) ∈ lent w' ∧
     ∀ b n, (b, n) ∈ lent w → b + n <= storage ∨ storage + cap <= b) ∧
    (∀ x, x ∈ lent w → x ∈ lent w');
  release_keeps f context storage cap w x :
    x ∈ lent w → x ≠ (storage, cap) → x ∈ lent (call_release f context storage cap w)
}.

Module Heap.

Definition REIST_LIBC_VERSION : Z := 1.
Definition REIST_LIBC_HEAP_LIMIT : Z := 4194304.
Definition REIST_LIBC_OBJECT_LIMIT : Z := 4096.
Definition REIST_LIBC_PROCESS_LIMIT : Z := 536870912.
Definition REIST_LIBC_BACKING_VERSION : Z := 1.
Definition REIST_LIBC_BACKING_REGIONS : Z := 120.
Definition HEAP_SLOTS : Z := REIST_LIBC_OBJECT_LIMIT * 2 + REIST_LIBC_BACKING_REGIONS.
Definition HEAP_END : Z := UINT32_MAX.
Definition HEAP_ALIGN : Z := 16.
Definition ENOMEM : Z := 12.
Definition EBUSY : Z := 16.
Definition EINVAL : Z := 22.

(** ** Data *)
Record heap_block_t := Block {
  offset : Z;
  span : Z;
  requested : Z;
  next : Z;
  check : Z
}.

Record heap_area_t := Area {
  base : Z;
  base_check : Z;
  capacity : Z;
  head : Z;
  area_check : Z
}.

Record reist_libc_backing_t := Backing {
  version : Z;
  struct_size : Z;
  budget : Z;
  quantum : Z;
  context : Z;
  acquire : Z;
  release : Z
}.

Record reist_libc_stats_t := Stats {
  stats_version : Z;
  stats_size : Z;
  stats_capacity : Z;
  live_objects : Z;
  live_bytes : Z;
  peak_bytes : Z
}.

Definition zero_block : heap_block_t := Block 0 0 0 0 0.
Definition zero_area : heap_area_t := Area 0 0 0 0 0.
Definition zero_backing : reist_libc_backing_t := Backing 0 0 0 0 0 0 0.
Definition stats_struct_size : Z := 24.

Definition backing_struct_size `{Platform} : Z := if UINTPTR_MAX =? UINT64_MAX then 40 else 28.

Section state.
Context {W : Type}.

Record heap_t := State {
heap_blocks : list heap_block_t;
heap_areas : list heap_area_t;
heap_provider : reist_libc_backing_t;
provider_check : Z;
heap_initialized : Z;
heap_capacity : Z;
heap_live : Z;
heap_bytes : Z;
heap_peak : Z;
heap_busy : Z;
heap_errno : Z;
memory : Z → Z;
world : W
}.

Definition set_blocks (h : heap_t) (l : list heap_block_t) : heap_t :=
State l (heap_areas h) (heap_provider h) (provider_check h) (heap_initialized h) (heap_capacity h)
  (heap_live h) (heap_bytes h) (heap_peak h) (heap_busy h) (heap_errno h) (memory h) (world h).
Definition set_areas (h : heap_t) (l : list heap_area_t) : heap_t :=
State (heap_blocks h) l (heap_provider h) (provider_check h) (heap_initialized h) (heap_capacity h)
  (heap_live h) (heap_bytes h) (heap_peak h) (heap_busy h) (heap_errno h) (memory h) (world h).
Definition set_provider (h : heap_t) (p : reist_libc_backing_t) (c : Z) : heap_t :=
State (heap_blocks h) (heap_areas h) p c (heap_initialized h) (heap_capacity h)
  (heap_live h) (heap_bytes h) (heap_peak h) (heap_busy h) (heap_errno h) (memory h) (world h).
Definition set_initialized (h : heap_t) (i : Z) : heap_t :=
State (heap_blocks h) (heap_areas h) (heap_provider h) (provider_check h) i (heap_capacity h)
  (heap_live h) (heap_bytes h) (heap_peak h) (heap_busy h) (heap_errno h) (memory h) (world h).
Definition set_counts (h : heap_t) (cap live bytes peak : Z) : heap_t :=
State (heap_blocks h) (heap_areas h) (heap_provider h) (provider_check h) (heap_initialized h) cap
  live bytes peak (heap_busy h) (heap_errno h) (memory h) (world h).
Definition set_errno (h : heap_t) (e : Z) : heap_t :=
State (heap_blocks h) (heap_areas h) (heap_provider h) (provider_check h) (heap_initialized h)
  (heap_capacity h) (heap_live h) (heap_bytes h) (heap_peak h) (heap_busy h) e (memory h) (world h).
Definition set_memory (h : heap_t) (m : Z → Z) : heap_t :=
State (heap_blocks h) (heap_areas h) (heap_provider h) (provider_check h) (heap_initialized h)
  (heap_capacity h) (heap_live h) (heap_bytes h) (heap_peak h) (heap_busy h) (heap_errno h) m (world h).
Definition set_busy (h : heap_t) (b : Z) : heap_t :=
State (heap_blocks h) (heap_areas h) (heap_provider h) (provider_check h) (heap_initialized h)
  (heap_capacity h) (heap_live h) (heap_bytes h) (heap_peak h) b (heap_errno h) (memory h) (world h).
Definition set_world (h : heap_t) (w : W) : heap_t :=
State (heap_blocks h) (heap_areas h) (heap_provider h) (provider_check h) (heap_initialized h)
  (heap_capacity h) (heap_live h) (heap_bytes h) (heap_peak h) (heap_busy h) (heap_errno h) (memory h) w.

(** ** Programs *)
Inductive outcome (A : Type) :=
| Returns (x : A) (h : heap_t)
| Faults
| Undefined
| Unfinished.

#[local] Arguments Returns {A}.
#[local] Arguments Faults {A}.
#[local] Arguments Undefined {A}.
#[local] Arguments Unfinished {A}.

Definition M (A : Type) : Type := heap_t → outcome A.

Definition ret {A} (x : A) : M A := λ h, Returns x h.
Definition bind {A B} (p : M A) (f : A → M B) : M B :=
λ h, match p h with
     | Returns x h => f x h
     | Faults => Faults
     | Undefined => Undefined
     | Unfinished => Unfinished
     end.
(** The static variables, and a change of them. *)
Definition get : M heap_t := λ h, Returns h h.
Definition modify (f : heap_t → heap_t) : M unit := λ h, Returns tt (f h).
Definition bad_heap {A} : M A := λ _, Faults.
Definition unfinished {A} : M A := λ _, Unfinished.

(** Array accesses. *)
Definition block_at (i : Z) : M heap_block_t :=
λ h, match heap_blocks h !! Z.to_nat i with Some b => Returns b h | None => Undefined end.
Definition set_block (i : Z) (b : heap_block_t) : M unit :=
λ h, if decide (Z.to_nat i < length (heap_blocks h))%nat
     then Returns tt (set_blocks h (<[Z.to_nat i := b]> (heap_blocks h))) else Undefined.
Definition area_at (i : Z) : M heap_area_t :=
λ h, match heap_areas h !! Z.to_nat i with Some a => Returns a h | None => Undefined end.
Definition set_area (i : Z) (a : heap_area_t) : M unit :=
λ h, if decide (Z.to_nat i < length (heap_areas h))%nat
     then Returns tt (set_areas h (<[Z.to_nat i := a]> (heap_areas h))) else Undefined.

(** [memset] and [memcpy]. *)
Definition fill (p v n : Z) : M unit :=
modify (λ h, set_memory h (λ a, if (p <=? a) && (a <? p + n) then v else memory h a)).
Definition copy (dst src n : Z) : M unit :=
modify (λ h, set_memory h (λ a, if (dst <=? a) && (a <? dst + n) then memory h (src + (a - dst)) else memory h a)).
End state.

#[global] Arguments heap_t : clear implicits.
#[global] Arguments outcome : clear implicits.
#[global] Arguments Returns {W A}.
#[global] Arguments Faults {W A}.
#[global] Arguments Undefined {W A}.
#[global] Arguments Unfinished {W A}.
#[global] Arguments M : clear implicits.

Declare Scope heap_scope.
Notation "x <- p ;; q" := (bind p (λ x, q)) (at level 100, p at next level, right associativity) : heap_scope.
Notation "p ;;; q" := (bind p (λ _, q)) (at level 100, right associativity) : heap_scope.
Local Open Scope heap_scope.

(** ** Seals *)
Definition lnot32 (x : Z) : Z := Z.lxor x UINT32_MAX.
Definition block_check (b : heap_block_t) : Z :=
  lnot32 (Z.lxor (Z.lxor (Z.lxor (Z.lxor (offset b) (span b)) (requested b)) (next b)) 0x52434831).
Definition sealed (b : heap_block_t) : heap_block_t :=
  Block (offset b) (span b) (requested b) (next b) (block_check b).

Section operations.
Context `{Platform} {W : Type} `{Provider W}.
#[local] Abbreviation P := (M W).

Definition lnot_ptr (x : Z) : Z := Z.lxor x UINTPTR_MAX.

Definition seal (i : Z) : P unit := b <- block_at i;; set_block i (sealed b).

Definition area_sum (a : heap_area_t) : Z := lnot32 (Z.lxor (Z.lxor (capacity a) (head a)) 0x52434131).
Definition sealed_area (a : heap_area_t) : heap_area_t :=
Area (base a) (lnot_ptr (base a)) (capacity a) (head a) (area_sum a).

Definition backing_check (p : reist_libc_backing_t) : Z :=
lnot_ptr (Z.lxor (Z.lxor (Z.lxor (Z.lxor (Z.lxor (Z.lxor (acquire p) (release p)) (context p)) (budget p))
  (quantum p)) (version p)) (struct_size p)).

(** ** Validation *)
Definition all_areas : list Z := Z.of_nat <$> seq 0 120.

(** The running totals of [validate]. *)
Record tally := Tally { t_capacity : Z; t_objects : Z; t_bytes : Z; t_visited : Z }.

Definition bad_block (b : heap_block_t) (covered cap : Z) : bool :=
negb (check b =? block_check b) || negb (offset b =? covered) || (span b =? 0) ||
negb (span b mod HEAP_ALIGN =? 0) || (cap - covered <? span b) || (span b <? requested b).

(** The chain of one area: the covered length and the totals. *)
Fixpoint validate_chain (fuel : nat) (at_ covered cap : Z) (t : tally) : P (Z * tally) :=
match fuel with
| O => unfinished
| S fuel =>
    if at_ =? HEAP_END then ret (covered, t)
    else if (HEAP_SLOTS <=? at_) || (HEAP_SLOTS <? t_visited t + 1) then bad_heap
    else
      b <- block_at at_;;
      if bad_block b covered cap then bad_heap
      else
        let used := negb (requested b =? 0) in
        validate_chain fuel (next b) (covered + span b) cap
          (Tally (t_capacity t) (if used then t_objects t + 1 else t_objects t)
             (if used then u32 (t_bytes t + requested b) else t_bytes t) (t_visited t + 1))
end.

(** More steps than [validate] lets a chain take. *)
Definition chain_fuel : nat := S (S (Z.to_nat HEAP_SLOTS)).

Definition bad_area (a : heap_area_t) (limit cap : Z) : bool :=
negb (base_check a =? lnot_ptr (base a)) || negb (area_check a =? area_sum a) ||
negb (base a mod HEAP_ALIGN =? 0) || (capacity a =? 0) || negb (capacity a mod HEAP_ALIGN =? 0) ||
(limit - cap <? capacity a) || (UINTPTR_MAX - capacity a <? base a).

Fixpoint validate_areas (areas : list Z) (limit : Z) (t : tally) : P tally :=
match areas with
| [] => ret t
| i :: areas =>
    a <- area_at i;;
    if base a =? 0 then
      if negb (base_check a =? 0) || negb (capacity a =? 0) || negb (head a =? 0) || negb (area_check a =? 0)
      then bad_heap else validate_areas areas limit t
    else if bad_area a limit (t_capacity t) then bad_heap
    else
      r <- validate_chain chain_fuel (head a) 0 (capacity a)
             (Tally (t_capacity t + capacity a) (t_objects t) (t_bytes t) (t_visited t));;
      if negb (r.1 =? capacity a) then bad_heap else validate_areas areas limit r.2
end.

Definition bad_provider (p : reist_libc_backing_t) (c : Z) : bool :=
negb (c =? backing_check p) || (release p =? 0) || negb (version p =? REIST_LIBC_BACKING_VERSION) ||
negb (struct_size p =? backing_struct_size) || (budget p =? 0) || (REIST_LIBC_PROCESS_LIMIT <? budget p) ||
(quantum p =? 0) || negb (quantum p mod HEAP_ALIGN =? 0).

Definition validate : P unit :=
h <- get;;
let p := heap_provider h in
if negb (heap_busy h =? 0) then bad_heap
else if heap_initialized h =? 0 then
  if negb (heap_capacity h =? 0) || negb (heap_live h =? 0) || negb (heap_bytes h =? 0) ||
     negb (heap_peak h =? 0) || negb (acquire p =? 0) || negb (provider_check h =? 0)
  then bad_heap else ret tt
else if negb (heap_initialized h =? 1) then bad_heap
else if negb (acquire p =? 0) && bad_provider p (provider_check h) then bad_heap
else if (acquire p =? 0) && negb (provider_check h =? 0) then bad_heap
else
  let limit := if acquire p =? 0 then REIST_LIBC_HEAP_LIMIT else budget p in
  t <- validate_areas all_areas limit (Tally 0 0 0 0);;
  if negb (t_capacity t =? heap_capacity h) || negb (t_objects t =? heap_live h) ||
     negb (t_bytes t =? heap_bytes h) || (REIST_LIBC_OBJECT_LIMIT <? t_objects t) ||
     (heap_peak h <? t_bytes t) || (limit <? heap_peak h)
  then bad_heap else ret tt.

(** ** Regions *)
(** [for (i...) if (!heap_blocks[i].span) return i;] *)
Definition vacant_in (blocks : list heap_block_t) : Z :=
match list_find (λ b, span b = 0) blocks with
| Some (i, _) => Z.of_nat i
| None => HEAP_END
end.
Definition vacant_block : P Z := h <- get;; ret (vacant_in (heap_blocks h)).

Definition add_area (area node storage cap : Z) : P unit :=
set_area area (sealed_area (Area storage 0 cap node 0));;;
set_block node (Block 0 cap 0 HEAP_END 0);;;
seal node;;;
modify (λ h, set_counts h (u32 (heap_capacity h + cap)) (heap_live h) (heap_bytes h) (heap_peak h)).

Definition reist_libc_init (storage cap : Z) : P Z :=
validate;;;
h <- get;;
if negb (heap_initialized h =? 0) then ret (- EBUSY)
else if (storage =? 0) || negb (storage mod HEAP_ALIGN =? 0) || (cap <? HEAP_ALIGN) ||
        (REIST_LIBC_HEAP_LIMIT <? cap) || negb (cap mod HEAP_ALIGN =? 0) || (UINTPTR_MAX - cap <? storage)
then ret (- EINVAL)
else
  modify (λ h, set_initialized h 1);;;
  add_area 0 0 storage cap;;;
  ret 0.

(** [None] is the null pointer. *)
Definition reist_libc_init_backing (backing : option reist_libc_backing_t) : P Z :=
validate;;;
h <- get;;
if negb (heap_initialized h =? 0) then ret (- EBUSY)
else
  match backing with
  | None => ret (- EINVAL)
  | Some p =>
      if negb (version p =? REIST_LIBC_BACKING_VERSION) || negb (struct_size p =? backing_struct_size) ||
         (acquire p =? 0) || (release p =? 0) || (budget p =? 0) || (REIST_LIBC_PROCESS_LIMIT <? budget p) ||
         negb (budget p mod HEAP_ALIGN =? 0) || (quantum p =? 0) || (4194304 <? quantum p) ||
         negb (quantum p mod HEAP_ALIGN =? 0)
      then ret (- EINVAL)
      else
        modify (λ h, set_initialized (set_provider h p (backing_check p)) 1);;;
        ret 0
  end.

Fixpoint reset_areas (areas : list Z) : P unit :=
match areas with
| [] => ret tt
| i :: areas =>
    a <- area_at i;;
    (if base a =? 0 then ret tt
     else
       h <- get;;
       if negb (acquire (heap_provider h) =? 0) then bad_heap else fill (base a) 0 (capacity a));;;
    reset_areas areas
end.

Definition reist_libc_reset : P Z :=
validate;;;
h <- get;;
if negb (heap_live h =? 0) then ret (- EBUSY)
else
  reset_areas all_areas;;;
  modify (λ h,
    set_initialized
      (set_counts
         (set_provider
            (set_areas (set_blocks h (replicate (Z.to_nat HEAP_SLOTS) zero_block)) (replicate 120 zero_area))
            zero_backing 0)
         0 0 0 0)
      0);;;
  ret 0.

(** The caller's version and size fields; the statistics on success. *)
Definition reist_libc_stats (wanted : option (Z * Z)) : P (Z + reist_libc_stats_t) :=
match wanted with
| None => ret (inl (- EINVAL))
| Some (v, size) =>
    if negb (v =? REIST_LIBC_VERSION) || negb (size =? stats_struct_size) then ret (inl (- EINVAL))
    else
      validate;;;
      h <- get;;
      ret (inr (Stats REIST_LIBC_VERSION stats_struct_size (heap_capacity h) (heap_live h) (heap_bytes h)
                  (heap_peak h)))
end.

(** [while (area<REIST_LIBC_BACKING_REGIONS && heap_areas[area].base) ++area;] *)
Definition vacant_area (areas : list heap_area_t) : Z :=
match list_find (λ a, base a = 0) areas with
| Some (i, _) => Z.of_nat i
| None => REIST_LIBC_BACKING_REGIONS
end.

(** The capacity asked of the provider: whole quanta, or what is left. *)
Definition area_capacity (p : reist_libc_backing_t) (used want : Z) : Z :=
let remainder := want mod quantum p in
if remainder =? 0 then want
else
  let remaining := budget p - used in
  if quantum p - remainder <=? remaining - want then want + quantum p - remainder else remaining.

Definition overlaps (a : heap_area_t) (storage cap : Z) : bool :=
negb (base a =? 0) && (storage <? base a + capacity a) && (base a <? storage + cap).

Definition acquire_area (want : Z) : P Z :=
h <- get;;
let p := heap_provider h in
if (acquire p =? 0) || (budget p - heap_capacity h <? want) then ret HEAP_END
else
  let area := vacant_area (heap_areas h) in
  let node := vacant_in (heap_blocks h) in
  if (area =? REIST_LIBC_BACKING_REGIONS) || (node =? HEAP_END) then ret HEAP_END
  else
    let cap := area_capacity p (heap_capacity h) want in
    modify (λ h, set_busy h 1);;;
    let '(storage, w) := call_acquire (acquire p) (context p) cap (world h) in
    modify (λ h, set_world h w);;;
    modify (λ h, set_busy h 0);;;
    if storage =? 0 then ret HEAP_END
    else if negb (storage mod HEAP_ALIGN =? 0) || (UINTPTR_MAX - cap <? storage) then bad_heap
    else if existsb (λ a, overlaps a storage cap) (heap_areas h) then bad_heap
    else
      add_area area node storage cap;;;
      ret area.

(** ** Objects *)
(** First fit in the chain of one area: the node, or [HEAP_END]. *)
Fixpoint fit_chain (fuel : nat) (at_ want : Z) : P Z :=
match fuel with
| O => unfinished
| S fuel =>
    if at_ =? HEAP_END then ret HEAP_END
    else
      b <- block_at at_;;
      if (requested b =? 0) && (want <=? span b) then ret at_ else fit_chain fuel (next b) want
end.

(** The first area with a fit, and its node. *)
Fixpoint fit_areas (areas : list Z) (want : Z) : P (Z * Z) :=
match areas with
| [] => ret (HEAP_END, HEAP_END)
| i :: areas =>
    a <- area_at i;;
    if base a =? 0 then fit_areas areas want
    else
      node <- fit_chain chain_fuel (head a) want;;
      if node =? HEAP_END then fit_areas areas want else ret (i, node)
end.

Definition fail_nomem : P Z := modify (λ h, set_errno h ENOMEM);;; ret 0.

(** Cuts the tail off a block that is longer than wanted. *)
Definition split_block (node want : Z) : P unit :=
b <- block_at node;;
if span b <=? want then ret tt
else
  spare <- vacant_block;;
  if spare =? HEAP_END then bad_heap
  else
    set_block spare (Block (offset b + want) (span b - want) 0 (next b) 0);;;
    seal spare;;;
    set_block node (Block (offset b) want (requested b) spare (check b)).

Definition span_of (size : Z) : Z := u32 (u32 size + HEAP_ALIGN - 1) / HEAP_ALIGN * HEAP_ALIGN.

(** Hands out the front of a free block. *)
Definition take_block (area node want size : Z) : P Z :=
split_block node want;;;
b <- block_at node;;
set_block node (Block (offset b) (span b) (u32 size) (next b) (check b));;;
seal node;;;
modify (λ h,
  let bytes := u32 (heap_bytes h + u32 size) in
  set_counts h (heap_capacity h) (u32 (heap_live h + 1)) bytes (Z.max (heap_peak h) bytes));;;
a <- area_at area;;
b <- block_at node;;
ret (base a + offset b).

Definition malloc (size : Z) : P Z :=
validate;;;
if size =? 0 then ret 0
else
  h <- get;;
  let limit := if acquire (heap_provider h) =? 0 then REIST_LIBC_HEAP_LIMIT else budget (heap_provider h) in
  if (heap_initialized h =? 0) || (limit <? size) || (REIST_LIBC_OBJECT_LIMIT <=? heap_live h)
  then fail_nomem
  else
    let want := span_of size in
    found <- fit_areas all_areas want;;
    found <- (if found.2 =? HEAP_END
              then
                selected <- acquire_area want;;
                if selected =? HEAP_END then ret (HEAP_END, HEAP_END)
                else a <- area_at selected;; ret (selected, head a)
              else ret found);;
    if found.2 =? HEAP_END then fail_nomem
    else
      take_block found.1 found.2 want size.

Definition calloc (count size : Z) : P Z :=
if negb (size =? 0) && (UINTPTR_MAX / size <? count) then fail_nomem
else
  p <- malloc (count * size);;
  (if p =? 0 then ret tt else fill p 0 (count * size));;;
  ret p.

(** The node of the object at [p] in the chain of one area, its predecessor;
  [None] when the chain ends. *)
Fixpoint locate_chain (fuel : nat) (p start at_ prev : Z) : P (option (Z * Z)) :=
match fuel with
| O => unfinished
| S fuel =>
    if at_ =? HEAP_END then ret None
    else
      b <- block_at at_;;
      if (p =? start + offset b) && negb (requested b =? 0) then ret (Some (at_, prev))
      else locate_chain fuel p start (next b) at_
end.

(** The node, its area and its predecessor. *)
Fixpoint locate_areas (areas : list Z) (p : Z) : P (Z * Z * Z) :=
match areas with
| [] => bad_heap
| i :: areas =>
    a <- area_at i;;
    if (base a =? 0) || (p <? base a) || (capacity a <=? p - base a) then locate_areas areas p
    else
      found <- locate_chain chain_fuel p (base a) (head a) HEAP_END;;
      match found with
      | Some (at_, prev) => ret (at_, i, prev)
      | None => locate_areas areas p
      end
end.

Definition locate (p : Z) : P (Z * Z * Z) := locate_areas all_areas p.

(** [free] joins the block with a free successor and a free predecessor. *)
Definition join_next (at_ : Z) : P unit :=
b <- block_at at_;;
if next b =? HEAP_END then ret tt
else
  n <- block_at (next b);;
  if negb (requested n =? 0) then ret tt
  else
    set_block at_ (Block (offset b) (u32 (span b + span n)) (requested b) (next n) (check b));;;
    set_block (next b) zero_block.

Definition join_previous (at_ prev : Z) : P unit :=
if prev =? HEAP_END then ret tt
else
  q <- block_at prev;;
  if negb (requested q =? 0) then ret tt
  else
    b <- block_at at_;;
    set_block prev (Block (offset q) (u32 (span q + span b)) (requested q) (next b) (check q));;;
    seal prev;;;
    set_block at_ zero_block.

(** An area of a provider goes back when it is one free block. *)
Definition return_area (area : Z) : P unit :=
a <- area_at area;;
b <- block_at (head a);;
h <- get;;
let p := heap_provider h in
if negb (acquire p =? 0) && (requested b =? 0) && (span b =? capacity a) && (next b =? HEAP_END)
then
  modify (λ h, set_counts h (u32 (heap_capacity h - capacity a)) (heap_live h) (heap_bytes h) (heap_peak h));;;
  set_block (head a) zero_block;;;
  set_area area zero_area;;;
  modify (λ h, set_busy h 1);;;
  modify (λ h, set_world h (call_release (release p) (context p) (base a) (capacity a) (world h)));;;
  modify (λ h, set_busy h 0)
else ret tt.

Definition free (p : Z) : P unit :=
if p =? 0 then ret tt
else
  validate;;;
  found <- locate p;;
  let '(at_, area, prev) := found in
  b <- block_at at_;;
  fill p 0 (requested b);;;
  modify (λ h, set_counts h (heap_capacity h) (u32 (heap_live h - 1)) (u32 (heap_bytes h - requested b)) (heap_peak h));;;
  set_block at_ (Block (offset b) (span b) 0 (next b) (check b));;;
  join_next at_;;;
  seal at_;;;
  join_previous at_ prev;;;
  return_area area.

Definition realloc (p size : Z) : P Z :=
if p =? 0 then malloc size
else if size =? 0 then free p;;; ret 0
else
  validate;;;
  found <- locate p;;
  let at_ := found.1.1 in
  b <- block_at at_;;
  let old := requested b in
  if size <=? span b then
    modify (λ h, set_counts h (heap_capacity h) (heap_live h) (u32 (u32 (heap_bytes h - old) + u32 size)) (heap_peak h));;;
    set_block at_ (Block (offset b) (span b) (u32 size) (next b) (check b));;;
    seal at_;;;
    modify (λ h, set_counts h (heap_capacity h) (heap_live h) (heap_bytes h) (Z.max (heap_peak h) (heap_bytes h)));;;
    ret p
  else
    replacement <- malloc size;;
    if replacement =? 0 then ret 0
    else
      copy replacement p old;;;
      free p;;;
      ret replacement.
End operations.
End Heap.
