(* ===== verification/HeapSpec.v ===== *)
(** The heap as a set of objects.

    [rep h A] relates the static variables of the heap to an abstract heap:
    a list of regions, each a list of segments in address order.  A linked
    list of blocks represents the segments of a region ([linked]); every
    unused block is zero.  On such states [validate] accepts and the walks of
    [malloc], [free] and [realloc] find what the abstract heap says. *)
From S2P Require Import Prelude Heap.
Import Heap.
Local Open Scope heap_scope.

(** ** Segments *)
Record seg := Seg { s_node : nat; s_span : Z; s_req : Z }.

Fixpoint total (l : list seg) : Z := match l with [] => 0 | s :: l => s_span s + total l end.
Definition used (s : seg) : bool := negb (s_req s =? 0).
Fixpoint live_of (l : list seg) : Z := match l with [] => 0 | s :: l => (if used s then 1 else 0) + live_of l end.
Fixpoint bytes_of (l : list seg) : Z := match l with [] => 0 | s :: l => s_req s + bytes_of l end.
Definition nodes (l : list seg) : list nat := s_node <$> l.

Definition seg_ok (s : seg) : Prop :=
  0 < s_span s ∧ s_span s mod HEAP_ALIGN = 0 ∧ 0 <= s_req s <= s_span s ∧ Z.of_nat (s_node s) < HEAP_SLOTS.

(** Neighbours are not both free. *)
Fixpoint merged (l : list seg) : Prop :=
  match l with
  | s :: (t :: _) as l => (used s = true ∨ used t = true) ∧ merged l
  | _ => True
  end.

(** The index that names the first segment, and the end of the list. *)
Definition first (l : list seg) (after : Z) : Z :=
  match l with [] => after | s :: _ => Z.of_nat (s_node s) end.

(** The blocks of a chain of segments that starts at [off] and is followed by
    [after]. *)
Fixpoint linked (blocks : list heap_block_t) (off : Z) (l : list seg) (after : Z) : Prop :=
  match l with
  | [] => True
  | s :: l =>
      blocks !! s_node s = Some (sealed (Block off (s_span s) (s_req s) (first l after) 0)) ∧
      linked blocks (off + s_span s) l after
  end.

Lemma total_app l1 l2 : total (l1 ++ l2) = total l1 + total l2.
Proof. induction l1 as [|s l1 IH]; cbn; lia. Qed.
Lemma live_app l1 l2 : live_of (l1 ++ l2) = live_of l1 + live_of l2.
Proof. induction l1 as [|s l1 IH]; cbn; lia. Qed.
Lemma bytes_app l1 l2 : bytes_of (l1 ++ l2) = bytes_of l1 + bytes_of l2.
Proof. induction l1 as [|s l1 IH]; cbn; lia. Qed.

Lemma first_app l1 l2 after : first (l1 ++ l2) after = first l1 (first l2 after).
Proof. by destruct l1. Qed.

Lemma linked_app blocks off l1 l2 after :
  linked blocks off (l1 ++ l2) after ↔
  linked blocks off l1 (first l2 after) ∧ linked blocks (off + total l1) l2 after.
Proof.
  revert off. induction l1 as [|s l1 IH]; intros off; cbn.
  - replace (off + 0) with off by lia. tauto.
  - rewrite IH, first_app. replace (off + s_span s + total l1) with (off + (s_span s + total l1)) by lia. tauto.
Qed.

Lemma linked_frame blocks blocks' off l after :
  (∀ i, i ∈ nodes l → blocks' !! i = blocks !! i) →
  linked blocks off l after → linked blocks' off l after.
Proof.
  revert off. induction l as [|s l IH]; intros off Hf; cbn; [done|]. intros [Hb Hl]. split.
  - rewrite Hf; [done|]. apply list_elem_of_here.
  - apply IH; [|done]. intros i Hi. apply Hf. by apply list_elem_of_further.
Qed.

Lemma linked_insert blocks off l after i b :
  i ∉ nodes l → linked blocks off l after → linked (<[i := b]> blocks) off l after.
Proof.
  intros Hi. apply linked_frame. intros j Hj. apply list_lookup_insert_ne. by intros ->.
Qed.

Lemma used_seg n sp size : 0 < size → used (Seg n sp size) = true.
Proof. intros Hs. unfold used. cbn. destruct (Z.eqb_spec size 0); [lia|done]. Qed.

Lemma seg_totals l :
  Forall seg_ok l → 0 <= total l ∧ 0 <= bytes_of l <= total l ∧ 0 <= live_of l <= Z.of_nat (length l) ∧
  total l mod HEAP_ALIGN = 0.
Proof.
  unfold HEAP_ALIGN. induction 1 as [|s l (Hs & Ha & Hr & _) _ IH]; cbn [total bytes_of live_of length]; [done|].
  destruct IH as (? & ? & ? & Hm). unfold HEAP_ALIGN in *.
  assert ((s_span s + total l) mod 16 = 0) by (Z.to_euclidean_division_equations; lia).
  destruct (used s); split_and!; lia.
Qed.

Lemma total_pos l : Forall seg_ok l → l ≠ [] → 0 < total l.
Proof.
  intros Hl Hne. destruct l as [|s l]; [done|]. inversion_clear Hl as [|? ? (? & _) Hl'].
  destruct (seg_totals l Hl'). cbn. lia.
Qed.

(** At most one free segment more than used ones. *)
Lemma merged_length l : merged l → Z.of_nat (length l) <= 2 * live_of l + (match l with s :: _ => if used s then 0 else 1 | [] => 0 end).
Proof.
  induction l as [|s [|t l] IH]; cbn [merged]; [done|by cbn; destruct (used s)|].
  intros [Hu Hm]. specialize (IH Hm). cbn [length live_of] in *.
  destruct (used s), (used t); try lia; by destruct Hu.
Qed.

Lemma merged_split l1 s l2 : merged (l1 ++ s :: l2) ↔ merged (l1 ++ [s]) ∧ merged (s :: l2).
Proof.
  induction l1 as [|x [|y l1] IH]; cbn [app merged].
  - destruct l2; cbn; tauto.
  - cbn [app] in IH. tauto.
  - cbn [app] in *. rewrite IH. tauto.
Qed.

(** ** Regions *)
Definition region : Type := Z * list seg.
Definition rnodes (A : list region) : list nat := mjoin ((λ r : region, nodes r.2) <$> A).
Fixpoint rsum (f : list seg → Z) (A : list region) : Z := match A with [] => 0 | r :: A => f r.2 + rsum f A end.

Lemma rnodes_app A B : rnodes (A ++ B) = rnodes A ++ rnodes B.
Proof. unfold rnodes. by rewrite fmap_app, join_app. Qed.
Lemma rnodes_cons r A : rnodes (r :: A) = nodes r.2 ++ rnodes A.
Proof. done. Qed.
Lemma rsum_app f A B : rsum f (A ++ B) = rsum f A + rsum f B.
Proof. induction A as [|r A IH]; cbn; lia. Qed.
Lemma nodes_app l1 l2 : nodes (l1 ++ l2) = nodes l1 ++ nodes l2.
Proof. apply fmap_app. Qed.

(** ** The representation *)
Section rep.
Context `{Platform} {W : Type}.
#[local] Abbreviation heap := (heap_t W).

Definition limit_of (p : reist_libc_backing_t) : Z :=
if acquire p =? 0 then REIST_LIBC_HEAP_LIMIT else budget p.

Definition provider_ok (p : reist_libc_backing_t) (c : Z) : Prop :=
(acquire p = 0 ∧ c = 0) ∨
(acquire p ≠ 0 ∧ c = backing_check p ∧ release p ≠ 0 ∧ version p = REIST_LIBC_BACKING_VERSION ∧
 struct_size p = backing_struct_size ∧ 0 < budget p <= REIST_LIBC_PROCESS_LIMIT ∧
 budget p mod HEAP_ALIGN = 0 ∧ 0 < quantum p <= 4194304 ∧ quantum p mod HEAP_ALIGN = 0).

(** A region entry. *)
Definition region_ok (a : heap_area_t) (r : region) : Prop :=
(r = (0, []) ∧ a = zero_area) ∨
(0 < r.1 ∧ r.1 mod HEAP_ALIGN = 0 ∧ r.1 + total r.2 <= UINTPTR_MAX ∧ r.2 ≠ [] ∧ Forall seg_ok r.2 ∧
 merged r.2 ∧ a = sealed_area (Area r.1 0 (total r.2) (first r.2 HEAP_END) 0)).

(** With a provider no region is empty of objects. *)
Definition tight (p : reist_libc_backing_t) (A : list region) : Prop :=
acquire p ≠ 0 → ∀ r, r ∈ A → r.2 ≠ [] → 0 < live_of r.2.

Definition apart (r q : region) : Prop :=
r.1 = 0 ∨ q.1 = 0 ∨ r.1 + total r.2 <= q.1 ∨ q.1 + total q.2 <= r.1.

Record rep (h : heap) (A : list region) : Prop := {
rep_blocks : length (heap_blocks h) = Z.to_nat HEAP_SLOTS;
rep_count : length A = 120%nat;
rep_regions : Forall2 region_ok (heap_areas h) A;
rep_linked r : r ∈ A → linked (heap_blocks h) 0 r.2 HEAP_END;
rep_nodup : NoDup (rnodes A);
rep_unused i b : heap_blocks h !! i = Some b → i ∉ rnodes A → b = zero_block;
rep_apart i j r q : A !! i = Some r → A !! j = Some q → i ≠ j → apart r q;
rep_capacity : heap_capacity h = rsum total A;
rep_live : heap_live h = rsum live_of A;
rep_bytes : heap_bytes h = rsum bytes_of A;
rep_limit : heap_capacity h <= limit_of (heap_provider h);
rep_objects : heap_live h <= REIST_LIBC_OBJECT_LIMIT;
rep_peak : heap_bytes h <= heap_peak h <= limit_of (heap_provider h);
rep_initialized : heap_initialized h = 1;
rep_busy : heap_busy h = 0;
rep_provider : provider_ok (heap_provider h) (provider_check h)
}.

Lemma region_segs a r : region_ok a r → Forall seg_ok r.2.
Proof using. by intros [[-> _]|(_ & _ & _ & _ & ? & _)]. Qed.

Lemma rep_segs h A : rep h A → Forall (λ r, Forall seg_ok r.2) A.
Proof using.
intros R. apply Forall_forall. intros r Hr. apply list_elem_of_In, list_elem_of_lookup in Hr as [i Hi].
destruct (Forall2_lookup_r _ _ _ _ _ (rep_regions _ _ R) Hi) as (a & _ & Hok). by eapply region_segs.
Qed.

Lemma rsum_bounds A :
Forall (λ r : region, Forall seg_ok r.2) A →
0 <= rsum total A ∧ 0 <= rsum bytes_of A <= rsum total A ∧ 0 <= rsum live_of A.
Proof using.
induction 1 as [|r A Hr _ IH]; cbn [rsum]; [lia|]. destruct (seg_totals r.2 Hr) as (? & ? & ? & _). lia.
Qed.

Lemma limit_bounds p c : provider_ok p c → 0 < limit_of p <= REIST_LIBC_PROCESS_LIMIT.
Proof using.
unfold limit_of, REIST_LIBC_PROCESS_LIMIT, REIST_LIBC_HEAP_LIMIT.
intros [[-> _]|(Hn & _ & _ & _ & _ & ? & _)]; [cbn; lia|].
rewrite (proj2 (Z.eqb_neq _ _) Hn). done.
Qed.

(** All nodes are distinct slots. *)
Lemma rep_slots h A : rep h A → Z.of_nat (length (rnodes A)) <= HEAP_SLOTS.
Proof using.
intros R. pose proof (rep_segs h A R) as Hs. pose proof (rep_nodup _ _ R) as Hnd.
assert (∀ i, i ∈ rnodes A → i ∈ seq 0 (Z.to_nat HEAP_SLOTS)) as Hsub.
{ intros i (l & Hi & Hl)%list_elem_of_join. apply list_elem_of_fmap in Hl as (r & -> & Hr).
apply list_elem_of_fmap in Hi as (s & -> & Hsin).
pose proof (proj1 (list.Forall_forall _ _) (proj1 (list.Forall_forall _ _) Hs r Hr) s Hsin) as (_ & _ & _ & ?).
apply elem_of_seq. change HEAP_SLOTS with 8312 in *. lia. }
apply (NoDup_submseteq _ _ Hnd), submseteq_length in Hsub. rewrite length_seq in Hsub. change HEAP_SLOTS with 8312 in *. lia.
Qed.

(** Programs run one after the other. *)
Lemma bind_returns {A B} (p : M W A) (f : A → M W B) h x h' : p h = Returns x h' → bind p f h = f x h'.
Proof using. intros E. unfold bind. by rewrite E. Qed.
Lemma bind_faults {A B} (p : M W A) (f : A → M W B) h : p h = Faults → bind p f h = Faults.
Proof using. intros E. unfold bind. by rewrite E. Qed.

(** ** Validation accepts *)
Lemma first_not_end l : Forall seg_ok l → l ≠ [] → first l HEAP_END ≠ HEAP_END ∧ 0 <= first l HEAP_END < HEAP_SLOTS.
Proof using.
intros Hl Hne. destruct l as [|s l]; [done|]. inversion_clear Hl as [|? ? (_ & _ & _ & ?) _]. cbn.
unfold HEAP_SLOTS, HEAP_END, REIST_LIBC_OBJECT_LIMIT, REIST_LIBC_BACKING_REGIONS in *. unfold_words. lia.
Qed.

Lemma block_at_some i b (h : heap) : heap_blocks h !! i = Some b → block_at (Z.of_nat i) h = Returns b h.
Proof using. intros E. unfold block_at. by rewrite Nat2Z.id, E. Qed.

Lemma set_block_eq i b (h : heap) :
(i < length (heap_blocks h))%nat → set_block (Z.of_nat i) b h = Returns tt (set_blocks h (<[i := b]> (heap_blocks h))).
Proof using. intros Hi. unfold set_block. by rewrite Nat2Z.id, decide_True. Qed.

Lemma seal_eq i b (h : heap) :
heap_blocks h !! i = Some b → seal (Z.of_nat i) h = Returns tt (set_blocks h (<[i := sealed b]> (heap_blocks h))).
Proof using.
intros E. unfold seal. rewrite (bind_returns _ _ _ _ _ (block_at_some _ _ _ E)).
apply set_block_eq. by eapply lookup_lt_Some.
Qed.

Lemma bind_modify {B} f (g : unit → M W B) h : bind (modify f) g h = g tt (f h).
Proof using. done. Qed.
Lemma bind_get {B} (g : heap → M W B) h : bind get g h = g h h.
Proof using. done. Qed.
Lemma bind_ret {A B} (x : A) (g : A → M W B) h : bind (ret x) g h = g x h.
Proof using. done. Qed.

Lemma good_block off s n cap :
seg_ok s → off + s_span s <= cap →
bad_block (sealed (Block off (s_span s) (s_req s) n 0)) off cap = false.
Proof using.
intros (? & Ha & ? & _) Hc. unfold bad_block. cbn [sealed check offset span requested].
rewrite Ha. change (block_check (sealed _)) with (block_check (Block off (s_span s) (s_req s) n 0)).
rewrite !Z.eqb_refl. cbn [negb orb].
destruct (Z.eqb_spec (s_span s) 0); [lia|]. destruct (Z.ltb_spec (cap - off) (s_span s)); [lia|].
destruct (Z.ltb_spec (s_span s) (s_req s)); [lia|done].
Qed.

Lemma validate_chain_linked (h : heap) cap l : ∀ fuel off t,
linked (heap_blocks h) off l HEAP_END → Forall seg_ok l → (length l < fuel)%nat → off + total l <= cap →
t_visited t + Z.of_nat (length l) <= HEAP_SLOTS →
0 <= t_bytes t → t_bytes t + bytes_of l < 4294967296 →
validate_chain fuel (first l HEAP_END) off cap t h =
Returns (off + total l, Tally (t_capacity t) (t_objects t + live_of l) (t_bytes t + bytes_of l)
(t_visited t + Z.of_nat (length l))) h.
Proof using.
induction l as [|s l IH]; intros fuel off t Hl Hs Hf Hc Hv Hb0 Hb; (destruct fuel as [|fuel]; [cbn in Hf; lia|]).
{ cbn. rewrite !Z.add_0_r. by destruct t. }
destruct Hl as [Es Hl]. inversion_clear Hs as [|? ? Hok Hs'].
destruct (first_not_end (s :: l)) as [Hne Hr]; [by constructor|done|].
cbn [validate_chain]. rewrite (proj2 (Z.eqb_neq _ _) Hne). cbn [first] in *.
cbn [total bytes_of live_of length] in *. destruct (seg_totals l Hs') as (? & ? & ? & _).
destruct (Z.leb_spec HEAP_SLOTS (Z.of_nat (s_node s))); [lia|].
destruct (Z.ltb_spec HEAP_SLOTS (t_visited t + 1)); [lia|]. cbn [orb].
unfold bind. rewrite (block_at_some _ _ _ Es).
rewrite good_block by (done || lia). cbn [sealed next requested span].
pose proof Hok as (? & _ & ? & _).
rewrite IH; cbn [t_capacity t_objects t_bytes t_visited]; try done; try lia.
- change (negb (s_req s =? 0)) with (used s). do 2 f_equal; [lia|].
f_equal; [destruct (used s); lia| |lia].
unfold used. destruct (Z.eqb_spec (s_req s) 0) as [->|]; cbn [negb]; [lia|]. rewrite u32_small by ulia. lia.
- destruct (negb _); [apply u32_range|lia].
- unfold used. destruct (Z.eqb_spec (s_req s) 0) as [E|E]; cbn [negb]; [lia|]. rewrite u32_small by ulia. lia.
Qed.

(** The [k]-th entry and its region. *)
Lemma rep_entry h A k :
rep h A → (k < 120)%nat →
∃ a r, heap_areas h !! k = Some a ∧ A !! k = Some r ∧ region_ok a r ∧
drop k A = r :: drop (S k) A ∧ r ∈ A.
Proof using.
intros R Hk. destruct (lookup_lt_is_Some_2 A k) as [r Hr]; [by rewrite (rep_count _ _ R)|].
destruct (Forall2_lookup_r _ _ _ _ _ (rep_regions _ _ R) Hr) as (a & Ha & Hok).
exists a, r. split_and!; try done; [by apply drop_S|by eapply list_elem_of_lookup_2].
Qed.

Lemma region_cases a r :
region_ok a r →
(base a = 0 ∧ r = (0, []) ∧ a = zero_area) ∨
(base a = r.1 ∧ 0 < r.1 ∧ r.1 mod HEAP_ALIGN = 0 ∧ r.1 + total r.2 <= UINTPTR_MAX ∧ r.2 ≠ [] ∧
 Forall seg_ok r.2 ∧ a = sealed_area (Area r.1 0 (total r.2) (first r.2 HEAP_END) 0)).
Proof using. intros [[-> ->]|(?&?&?&?&?&?&->)]; [by left|right]. by split_and!. Qed.

Lemma area_at_some i a (h : heap) : heap_areas h !! i = Some a → area_at (Z.of_nat i) h = Returns a h.
Proof using. intros E. unfold area_at. by rewrite Nat2Z.id, E. Qed.

Lemma region_length l : Forall seg_ok l → Z.of_nat (length (nodes l)) = Z.of_nat (length l).
Proof using. intros _. unfold nodes. by rewrite length_fmap. Qed.

Lemma chain_fuel_enough n : Z.of_nat n <= HEAP_SLOTS → (n < chain_fuel)%nat.
Proof using. unfold chain_fuel. lia. Qed.

Lemma validate_areas_rep h A : rep h A → ∀ n k t limit,
(k + n)%nat = 120%nat → limit <= REIST_LIBC_PROCESS_LIMIT → 0 <= t_capacity t →
t_capacity t + rsum total (drop k A) <= limit →
0 <= t_bytes t <= t_capacity t →
t_visited t + Z.of_nat (length (rnodes (drop k A))) <= HEAP_SLOTS → 0 <= t_visited t →
validate_areas (Z.of_nat <$> seq k n) limit t h =
Returns (Tally (t_capacity t + rsum total (drop k A)) (t_objects t + rsum live_of (drop k A))
(t_bytes t + rsum bytes_of (drop k A)) (t_visited t + Z.of_nat (length (rnodes (drop k A))))) h.
Proof using.
intros R. induction n as [|n IH]; intros k t limit Hk Hlim Hc0 Hc Hb Hv Hv0; cbn [seq fmap list_fmap validate_areas].
{ rewrite drop_ge by (rewrite (rep_count _ _ R); lia). cbn. rewrite !Z.add_0_r. by destruct t. }
destruct (rep_entry h A k R ltac:(lia)) as (a & r & Ea & Er & Hok & Ed & Hin). rewrite Ed in *.
unfold bind. rewrite (area_at_some _ _ _ Ea).
assert (Forall (λ r, Forall seg_ok r.2) (drop (S k) A)) as Hrest by (apply Forall_drop; by eapply rep_segs).
destruct (rsum_bounds _ Hrest) as (? & ? & ?).
destruct (region_cases _ _ Hok) as [(-> & -> & ->)|(Eb & Hpos & Hal & Hend & Hne & Hs & ->)].
{ cbn [Z.eqb base base_check capacity head area_check zero_area negb orb]. cbn [rsum snd total live_of bytes_of] in *.
rewrite rnodes_cons in *. cbn [nodes fmap list_fmap snd app] in *. rewrite IH by (done || lia). done. }
cbn [base sealed_area]. rewrite (proj2 (Z.eqb_neq r.1 0)) by lia.
rewrite rnodes_cons, length_app in *. cbn [rsum] in *.
pose proof (region_length r.2 Hs). destruct (seg_totals r.2 Hs) as (? & ? & ? & Hmod).
pose proof (total_pos r.2 Hs Hne).
assert (bad_area (sealed_area (Area r.1 0 (total r.2) (first r.2 HEAP_END) 0)) limit (t_capacity t) = false) as ->.
{ unfold bad_area. cbn [sealed_area base base_check capacity head area_check].
change (area_sum (sealed_area _)) with (area_sum (Area r.1 0 (total r.2) (first r.2 HEAP_END) 0)).
rewrite !Z.eqb_refl, Hal, Hmod. cbn [negb orb Z.eqb].
destruct (Z.eqb_spec (total r.2) 0); [lia|]. destruct (Z.ltb_spec (limit - t_capacity t) (total r.2)); [lia|].
destruct (Z.ltb_spec (UINTPTR_MAX - total r.2) r.1); [lia|done]. }
unfold REIST_LIBC_PROCESS_LIMIT in *.
cbn [sealed_area head capacity]. rewrite validate_chain_linked; cbn [t_capacity t_objects t_bytes t_visited];
[|by eapply rep_linked|done|apply chain_fuel_enough; lia|lia|lia|lia|lia].
cbn [fst snd]. rewrite Z.add_0_l, Z.eqb_refl. cbn [negb].
rewrite IH; cbn [t_capacity t_objects t_bytes t_visited]; try lia. do 2 f_equal; lia.
Qed.

Lemma validate_rep h A : rep h A → validate h = Returns tt h.
Proof using.
intros R. unfold validate, bind, get. rewrite (rep_busy _ _ R), (rep_initialized _ _ R). cbn [Z.eqb negb].
pose proof (limit_bounds _ _ (rep_provider _ _ R)) as Hlim. pose proof (rep_capacity _ _ R) as Ecap.
pose proof (rep_live _ _ R). pose proof (rep_bytes _ _ R). pose proof (rep_limit _ _ R). pose proof (rep_peak _ _ R).
pose proof (rep_objects _ _ R).
destruct (rsum_bounds A (rep_segs h A R)) as (? & ? & ?).
pose proof (rep_slots h A R).
assert (negb (acquire (heap_provider h) =? 0) && bad_provider (heap_provider h) (provider_check h) = false ∧
(acquire (heap_provider h) =? 0) && negb (provider_check h =? 0) = false) as [-> ->].
{ destruct (rep_provider _ _ R) as [[-> ->]|(Hn & -> & Hr & Ev & Es & Hb & _ & Hq & Hqa)]; [done|].
rewrite (proj2 (Z.eqb_neq _ _) Hn). cbn [negb andb]. split; [|done].
unfold bad_provider. rewrite Ev, Es, !Z.eqb_refl, Hqa. cbn [negb orb Z.eqb].
destruct (Z.eqb_spec (release (heap_provider h)) 0); [done|]. destruct (Z.eqb_spec (budget (heap_provider h)) 0); [lia|].
destruct (Z.ltb_spec REIST_LIBC_PROCESS_LIMIT (budget (heap_provider h))); [lia|].
destruct (Z.eqb_spec (quantum (heap_provider h)) 0); [lia|done]. }
fold (limit_of (heap_provider h)).
cbn [Pos.eqb negb]. cbv beta iota. unfold all_areas. rewrite (validate_areas_rep h A R 120 0 _ _ ltac:(lia)); cbn [t_capacity t_objects t_bytes t_visited];
rewrite ?drop_0; try lia.
rewrite !Z.add_0_l, Ecap, (rep_live _ _ R), (rep_bytes _ _ R), !Z.eqb_refl. cbn [negb orb].
destruct (Z.ltb_spec REIST_LIBC_OBJECT_LIMIT (rsum live_of A)); [lia|].
destruct (Z.ltb_spec (heap_peak h) (rsum bytes_of A)); [lia|].
destruct (Z.ltb_spec (limit_of (heap_provider h)) (heap_peak h)); [lia|done].
Qed.

(** ** Finding free space and objects *)
Definition fits (want : Z) (s : seg) : bool := negb (used s) && (want <=? s_span s).

Lemma first_end_eqb l : Forall seg_ok l → l ≠ [] → (first l HEAP_END =? HEAP_END) = false.
Proof using. intros Hl Hne. by apply Z.eqb_neq, first_not_end. Qed.

Lemma fit_chain_linked (h : heap) want l : ∀ fuel off,
linked (heap_blocks h) off l HEAP_END → Forall seg_ok l → (length l < fuel)%nat →
(Forall (λ s, fits want s = false) l ∧ fit_chain fuel (first l HEAP_END) want h = Returns HEAP_END h) ∨
(∃ l1 s l2, l = l1 ++ s :: l2 ∧ fits want s = true ∧
 fit_chain fuel (first l HEAP_END) want h = Returns (Z.of_nat (s_node s)) h).
Proof using.
induction l as [|s l IH]; intros fuel off Hl Hs Hf; (destruct fuel as [|fuel]; [cbn in Hf; lia|]); [by left|].
destruct Hl as [Es Hl]. cbn [fit_chain]. rewrite first_end_eqb by done. inversion_clear Hs as [|? ? Hok Hs'].
cbn [first]. rewrite (bind_returns _ _ _ _ _ (block_at_some _ _ _ Es)). cbn [sealed requested span next].
destruct (fits want s) eqn:Ef.
- right. exists [], s, l. split_and!; [done|done|]. unfold fits, used in Ef. rewrite negb_involutive in Ef. by rewrite Ef.
- assert ((s_req s =? 0) && (want <=? s_span s) = false) as ->.
{ unfold fits, used in Ef. by rewrite negb_involutive in Ef. }
destruct (IH fuel _ Hl Hs') as [[Hu E]|(l1 & t & l2 & -> & Ht & E)]; [cbn in Hf; lia| |].
+ left. split; [by constructor|done].
+ right. exists (s :: l1), t, l2. done.
Qed.

(** Segment [s] of region [i] with the segments before and after it. *)
Definition at_seg (A : list region) (i : nat) (b : Z) (l1 : list seg) (s : seg) (l2 : list seg) : Prop :=
A !! i = Some ((b, l1 ++ s :: l2) : region).

Lemma fit_areas_rep h A want : rep h A → ∀ n k,
(k + n)%nat = 120%nat →
(Forall (λ r, Forall (λ s, fits want s = false) r.2) (drop k A) ∧
 fit_areas (Z.of_nat <$> seq k n) want h = Returns (HEAP_END, HEAP_END) h) ∨
(∃ i b l1 s l2, at_seg A i b l1 s l2 ∧ fits want s = true ∧
 fit_areas (Z.of_nat <$> seq k n) want h = Returns (Z.of_nat i, Z.of_nat (s_node s)) h).
Proof using.
intros R. induction n as [|n IH]; intros k Hk; cbn [seq fmap list_fmap fit_areas].
{ left. rewrite drop_ge by (rewrite (rep_count _ _ R); lia). by split. }
destruct (rep_entry h A k R ltac:(lia)) as (a & r & Ea & Er & Hok & Ed & Hin). rewrite Ed.
rewrite (bind_returns _ _ _ _ _ (area_at_some _ _ _ Ea)).
destruct (region_cases _ _ Hok) as [(-> & -> & ->)|(Eb & Hpos & _ & _ & Hne & Hs & ->)].
{ cbn [base zero_area Z.eqb]. destruct (IH (S k) ltac:(lia)) as [[Hu E]|?]; [left|by right].
split; [by constructor|done]. }
cbn [base sealed_area head]. rewrite (proj2 (Z.eqb_neq r.1 0)) by lia.
assert (length r.2 < chain_fuel)%nat as Hfuel.
{ apply chain_fuel_enough. pose proof (rep_slots h A R). pose proof (region_length r.2 Hs).
apply list_elem_of_split in Hin as (A1 & A2 & ->). rewrite rnodes_app, rnodes_cons, !length_app in *. lia. }
destruct (fit_chain_linked h want r.2 chain_fuel 0 (rep_linked _ _ R r Hin) Hs Hfuel)
as [[Hu E]|(l1 & s & l2 & El & Hf & E)]; rewrite (bind_returns _ _ _ _ _ E).
- rewrite Z.eqb_refl. destruct (IH (S k) ltac:(lia)) as [[Hu' E']|?]; [left|by right].
split; [by constructor|done].
- right. exists k, r.1, l1, s, l2. split_and!; [unfold at_seg; rewrite Er, <- El; by destruct r|done|].
rewrite El in Hs. apply Forall_app in Hs as [_ Hs]. apply list.Forall_cons in Hs as [(_ & _ & _ & Hn) _].
destruct (Z.eqb_spec (Z.of_nat (s_node s)) HEAP_END) as [E0|]; [|done].
change HEAP_SLOTS with 8312 in Hn. unfold HEAP_END in E0. unfold_words. lia.
Qed.

(** The objects of a chain of segments that starts at [start]. *)
Fixpoint objs (start : Z) (l : list seg) : list (Z * Z) :=
match l with
| [] => []
| s :: l => (if used s then [(start, s_req s)] else []) ++ objs (start + s_span s) l
end.
Definition objects (A : list region) : list (Z * Z) := mjoin ((λ r : region, objs r.1 r.2) <$> A).

Lemma objs_app start l1 l2 : objs start (l1 ++ l2) = objs start l1 ++ objs (start + total l1) l2.
Proof using.
revert start. induction l1 as [|s l1 IH]; intros start; cbn [app objs total].
- by rewrite Z.add_0_r.
- rewrite IH, app_assoc. by replace (start + s_span s + total l1) with (start + (s_span s + total l1)) by lia.
Qed.

Lemma objs_elem start l p n :
(p, n) ∈ objs start l ↔ ∃ l1 s l2, l = l1 ++ s :: l2 ∧ used s = true ∧ p = start + total l1 ∧ n = s_req s.
Proof using.
split.
- revert start. induction l as [|s l IH]; intros start; cbn [objs]; [by intros ?%elem_of_nil|].
intros [Hs|Hl]%elem_of_app.
+ destruct (used s) eqn:Eu; [|by apply elem_of_nil in Hs]. apply list_elem_of_singleton in Hs as [= -> ->].
  exists [], s, l. split_and!; [done|done|cbn; lia|done].
+ destruct (IH _ Hl) as (l1 & t & l2 & -> & ? & -> & ->). exists (s :: l1), t, l2.
  split_and!; [done|done|cbn; lia|done].
- intros (l1 & s & l2 & -> & Hu & -> & ->). rewrite objs_app. apply elem_of_app. right. cbn. rewrite Hu.
apply list_elem_of_here.
Qed.

Lemma objects_elem A p n :
(p, n) ∈ objects A ↔ ∃ i b l1 s l2, at_seg A i b l1 s l2 ∧ used s = true ∧ p = b + total l1 ∧ n = s_req s.
Proof using.
unfold objects. rewrite list_elem_of_join. split.
- intros (l & Hp & Hl). apply list_elem_of_fmap in Hl as ([b l'] & -> & Hr).
apply list_elem_of_lookup in Hr as [i Hi]. apply objs_elem in Hp as (l1 & s & l2 & E & ? & ? & ?). cbn in E.
exists i, b, l1, s, l2. split; [unfold at_seg; by rewrite Hi, E|done].
- intros (i & b & l1 & s & l2 & Hi & Hu & -> & ->). exists (objs b (l1 ++ s :: l2)). split.
+ apply objs_elem. by exists l1, s, l2.
+ apply list_elem_of_fmap. exists (b, l1 ++ s :: l2). split; [done|by eapply list_elem_of_lookup_2].
Qed.

(** The node before a segment. *)
Definition before (l1 : list seg) : Z :=
match rev l1 with [] => HEAP_END | s :: _ => Z.of_nat (s_node s) end.

Lemma before_snoc l1 s : before (l1 ++ [s]) = Z.of_nat (s_node s).
Proof using. unfold before. by rewrite rev_unit. Qed.

Lemma locate_chain_linked (h : heap) p start l : ∀ fuel l0,
linked (heap_blocks h) (total l0) l HEAP_END → Forall seg_ok l → (length l < fuel)%nat →
((∀ n, (p, n) ∉ objs (start + total l0) l) ∧
 locate_chain fuel p start (first l HEAP_END) (before l0) h = Returns None h) ∨
(∃ l1 s l2, l = l1 ++ s :: l2 ∧ used s = true ∧ p = start + total (l0 ++ l1) ∧
 locate_chain fuel p start (first l HEAP_END) (before l0) h =
 Returns (Some (Z.of_nat (s_node s), before (l0 ++ l1))) h).
Proof using.
induction l as [|s l IH]; intros fuel l0 Hl Hs Hf; (destruct fuel as [|fuel]; [cbn in Hf; lia|]).
{ left. split; [intros n; apply not_elem_of_nil|done]. }
destruct Hl as [Es Hl]. cbn [locate_chain]. rewrite first_end_eqb by done. inversion_clear Hs as [|? ? Hok Hs'].
cbn [first]. rewrite (bind_returns _ _ _ _ _ (block_at_some _ _ _ Es)). cbn [sealed offset requested next].
change (negb (s_req s =? 0)) with (used s).
destruct ((p =? start + total l0) && used s) eqn:Et.
- apply andb_true_iff in Et as [->%Z.eqb_eq Hu]. right. exists [], s, l.
rewrite app_nil_r. by split_and!.
- rewrite <- (before_snoc l0).
replace (total l0 + s_span s) with (total (l0 ++ [s])) in Hl by (rewrite total_app; cbn; lia).
destruct (IH fuel (l0 ++ [s]) Hl Hs') as [[Hn E]|(l1 & t & l2 & -> & Hu & Ep & E)]; [cbn in Hf; lia| |].
+ left. split; [|done]. intros n. cbn [objs]. rewrite elem_of_app. intros [Hx|Hx].
  * destruct (used s); [|by apply elem_of_nil in Hx]. apply list_elem_of_singleton in Hx as [= -> _].
    by rewrite Z.eqb_refl in Et.
  * apply (Hn n). rewrite total_app. cbn [total].
    by replace (start + (total l0 + (s_span s + 0))) with (start + total l0 + s_span s) by lia.
+ right. exists (s :: l1), t, l2. rewrite <- app_assoc in *. done.
Qed.

Lemma total_split l1 s l2 : Forall seg_ok (l1 ++ s :: l2) → 0 <= total l1 ∧ total l1 + s_span s + total l2 = total (l1 ++ s :: l2) ∧ 0 <= total l2 ∧ 0 < s_span s.
Proof using.
intros [H1 H2]%Forall_app. apply list.Forall_cons in H2 as [(? & _) H2].
destruct (seg_totals l1 H1) as (? & _). destruct (seg_totals l2 H2) as (? & _).
rewrite total_app. cbn [total]. lia.
Qed.

Lemma locate_areas_rep h A p : rep h A → ∀ n k,
(k + n)%nat = 120%nat →
((∀ size, (p, size) ∉ objects (drop k A)) ∧ locate_areas (Z.of_nat <$> seq k n) p h = Faults) ∨
(∃ i b l1 s l2, at_seg A i b l1 s l2 ∧ used s = true ∧ p = b + total l1 ∧
 locate_areas (Z.of_nat <$> seq k n) p h = Returns (Z.of_nat (s_node s), Z.of_nat i, before l1) h).
Proof using.
intros R. induction n as [|n IH]; intros k Hk; cbn [seq fmap list_fmap locate_areas].
{ left. rewrite drop_ge by (rewrite (rep_count _ _ R); lia). split; [intros size; apply not_elem_of_nil|done]. }
destruct (rep_entry h A k R ltac:(lia)) as (a & r & Ea & Er & Hok & Ed & Hin). rewrite Ed.
assert (∀ size, (p, size) ∈ objects (r :: drop (S k) A) ↔ (p, size) ∈ objs r.1 r.2 ∨ (p, size) ∈ objects (drop (S k) A)) as Hcons.
{ intros size. change (objects (r :: drop (S k) A)) with (objs r.1 r.2 ++ objects (drop (S k) A)). apply elem_of_app. }
rewrite (bind_returns _ _ _ _ _ (area_at_some _ _ _ Ea)).
destruct (region_cases _ _ Hok) as [(-> & -> & ->)|(Eb & Hpos & _ & _ & Hne & Hs & ->)].
{ cbn [base zero_area Z.eqb orb]. destruct (IH (S k) ltac:(lia)) as [[Hu E]|?]; [left|by right].
split; [|done]. intros size. rewrite Hcons. cbn. intros [Hx%elem_of_nil|Hx]; [done|]. by apply (Hu size). }
cbn [base sealed_area head capacity]. rewrite (proj2 (Z.eqb_neq r.1 0)) by lia. cbn [orb].
assert (∀ size, (p, size) ∈ objs r.1 r.2 → r.1 <= p < r.1 + total r.2) as Hrange.
{ intros size (l1 & s & l2 & El & _ & -> & _)%objs_elem. rewrite El in Hs. destruct (total_split _ _ _ Hs) as (? & ? & ? & ?).
rewrite El. lia. }
destruct ((p <? r.1) || (total r.2 <=? p - r.1)) eqn:Eout.
{ destruct (IH (S k) ltac:(lia)) as [[Hu E]|?]; [left|by right]. split; [|done]. intros size. rewrite Hcons.
intros [Hx|Hx]; [|by apply (Hu size)]. specialize (Hrange size Hx).
apply orb_true_iff in Eout as [?%Z.ltb_lt|?%Z.leb_le]; lia. }
assert (length r.2 < chain_fuel)%nat as Hfuel.
{ apply chain_fuel_enough. pose proof (rep_slots h A R). pose proof (region_length r.2 Hs).
apply list_elem_of_split in Hin as (A1 & A2 & EA). rewrite EA, rnodes_app, rnodes_cons, !length_app in *. lia. }
destruct (locate_chain_linked h p r.1 r.2 chain_fuel [] (rep_linked _ _ R r Hin) Hs Hfuel)
as [[Hu E]|(l1 & s & l2 & El & Hu & Ep & E)]; cbn [total] in *;
change (before []) with HEAP_END in E; rewrite (bind_returns _ _ _ _ _ E).
- rewrite Z.add_0_r in Hu. destruct (IH (S k) ltac:(lia)) as [[Hu' E']|?]; [left|by right].
split; [|done]. intros size. rewrite Hcons. intros [Hx|Hx]; [by apply (Hu size)|by apply (Hu' size)].
- right. exists k, r.1, l1, s, l2. split_and!; [unfold at_seg; rewrite Er, <- El; by destruct r|done|done|done].
Qed.

Lemma locate_live h A p size :
rep h A → (p, size) ∈ objects A →
∃ i b l1 s l2, at_seg A i b l1 s l2 ∧ used s = true ∧ p = b + total l1 ∧
locate p h = Returns (Z.of_nat (s_node s), Z.of_nat i, before l1) h.
Proof using.
intros R Hp. destruct (locate_areas_rep h A p R 120 0 ltac:(lia)) as [[Hn _]|?]; [|done].
rewrite drop_0 in Hn. by destruct (Hn size).
Qed.

Lemma locate_dead h A p : rep h A → (∀ size, (p, size) ∉ objects A) → locate p h = Faults.
Proof using.
intros R Hn. destruct (locate_areas_rep h A p R 120 0 ltac:(lia)) as [[_ E]|(i & b & l1 & s & l2 & Hat & Hu & -> & _)]; [done|].
destruct (Hn (s_req s)). apply objects_elem. by exists i, b, l1, s, l2.
Qed.

(** An object has one place. *)
Lemma at_seg_segs h A i b l1 s l2 : rep h A → at_seg A i b l1 s l2 → Forall seg_ok (l1 ++ s :: l2).
Proof using.
intros R Hat. apply (proj1 (Forall_lookup _ _) (rep_segs h A R) i (b, l1 ++ s :: l2) Hat).
Qed.

Lemma at_seg_region h A i b l1 s l2 :
rep h A → at_seg A i b l1 s l2 →
∃ a, heap_areas h !! i = Some a ∧ a = sealed_area (Area b 0 (total (l1 ++ s :: l2)) (first (l1 ++ s :: l2) HEAP_END) 0) ∧
0 < b ∧ b mod HEAP_ALIGN = 0 ∧ b + total (l1 ++ s :: l2) <= UINTPTR_MAX ∧ merged (l1 ++ s :: l2) ∧ (i < 120)%nat.
Proof using.
intros R Hat. destruct (Forall2_lookup_r _ _ _ _ _ (rep_regions _ _ R) Hat) as (a & Ha & Hok).
exists a. split; [done|]. pose proof (lookup_lt_Some _ _ _ Hat) as Hi. rewrite (rep_count _ _ R) in Hi.
destruct Hok as [[E _]|(? & ? & ? & _ & _ & ? & ?)]; [by destruct l1|].
by split_and!.
Qed.

Lemma at_seg_block h A i b l1 s l2 :
rep h A → at_seg A i b l1 s l2 →
heap_blocks h !! s_node s = Some (sealed (Block (total l1) (s_span s) (s_req s) (first l2 HEAP_END) 0)).
Proof using.
intros R Hat. pose proof (rep_linked _ _ R _ (list_elem_of_lookup_2 _ _ _ Hat)) as Hl. cbn in Hl.
apply linked_app in Hl as [_ Hl]. by destruct Hl.
Qed.

(** ** Replacing segments of a region *)
Lemma at_index {X} (A : list X) i r :
A !! i = Some r → ∃ A1 A2, A = A1 ++ r :: A2 ∧ i = length A1 ∧ ∀ r', <[i := r']> A = A1 ++ r' :: A2.
Proof using.
intros (A1 & A2 & -> & ->)%list_elem_of_split_length. exists A1, A2. split_and!; [done|done|].
intros r'. rewrite <- (Nat.add_0_r (length A1)). by rewrite insert_app_r.
Qed.

Lemma nodup_replace (a m c m' : list nat) :
NoDup (a ++ m ++ c) → NoDup m' → (∀ j, j ∈ m' → j ∈ m ∨ j ∉ a ++ m ++ c) → NoDup (a ++ m' ++ c).
Proof using.
rewrite !list.NoDup_app. intros (Ha & Hac & Hm & Hmc & Hc) Hm' Hin.
assert (∀ j, j ∈ m' → j ∉ a) as Hma.
{ intros j Hj Hja. destruct (Hin j Hj) as [Hjm|Hn]; [|by apply Hn, elem_of_app; left].
apply (Hac j Hja), elem_of_app. by left. }
assert (∀ j, j ∈ m' → j ∉ c) as Hmc'.
{ intros j Hj Hjc. destruct (Hin j Hj) as [Hjm|Hn]; [by apply (Hmc j Hjm)|].
apply Hn, elem_of_app. right. apply elem_of_app. by right. }
split_and!; try done. intros j Hja [Hj|Hj]%elem_of_app; [by apply (Hma j)|].
apply (Hac j Hja), elem_of_app. by right.
Qed.

(** The same region with other segments in the middle. *)
Lemma rep_replace (h h' : heap) A1 A2 b l1 mid mid' l2 :
rep h (A1 ++ (b, l1 ++ mid ++ l2) :: A2) →
heap_areas h' = heap_areas h → heap_provider h' = heap_provider h → provider_check h' = provider_check h →
heap_initialized h' = 1 → heap_busy h' = 0 → heap_capacity h' = heap_capacity h →
length (heap_blocks h') = length (heap_blocks h) →
(∀ j, j ∉ nodes mid → j ∉ nodes mid' → heap_blocks h' !! j = heap_blocks h !! j) →
(∀ j, j ∈ nodes mid → j ∉ nodes mid' → heap_blocks h' !! j = Some zero_block) →
linked (heap_blocks h') (total l1) mid' (first l2 HEAP_END) →
NoDup (nodes mid') → (∀ j, j ∈ nodes mid' → j ∈ nodes mid ∨ j ∉ rnodes (A1 ++ (b, l1 ++ mid ++ l2) :: A2)) →
mid ≠ [] → mid' ≠ [] → first mid' HEAP_END = first mid HEAP_END → total mid' = total mid →
Forall seg_ok mid' → merged (l1 ++ mid' ++ l2) →
heap_live h' = heap_live h + (live_of mid' - live_of mid) → heap_live h' <= REIST_LIBC_OBJECT_LIMIT →
heap_bytes h' = heap_bytes h + (bytes_of mid' - bytes_of mid) →
heap_bytes h' <= heap_peak h' <= limit_of (heap_provider h) →
rep h' (A1 ++ (b, l1 ++ mid' ++ l2) :: A2).
Proof using.
intros R Ea Ep Ec Ei Eb Ecap Elen Hsame Hzero Hlink Hnd' Hfresh Hmid Hmid' Hfirst Htot Hsegs Hmerged Elive Hlive Ebytes Hpeak.
assert (∀ after, first mid' after = first mid after) as Hf.
{ intros after. destruct mid, mid'; try done. }
assert (total (l1 ++ mid' ++ l2) = total (l1 ++ mid ++ l2)) as Htotal by (rewrite !total_app; lia).
assert (∀ off, first (l1 ++ mid' ++ l2) off = first (l1 ++ mid ++ l2) off) as Hfirst' by (intros; by rewrite !first_app, Hf).
pose proof (rep_nodup _ _ R) as Hnd. rewrite rnodes_app, rnodes_cons in Hnd, Hfresh. cbn [snd] in Hnd, Hfresh.
rewrite !nodes_app, <- !app_assoc, app_assoc in Hnd.
assert (∀ j, j ∈ nodes mid' → j ∈ nodes mid ∨ j ∉ (rnodes A1 ++ nodes l1) ++ nodes mid ++ nodes l2 ++ rnodes A2) as Hfresh'.
{ intros j Hj. destruct (Hfresh j Hj) as [|Hn]; [by left|right]. by rewrite !nodes_app, <- !app_assoc in *. }
pose proof (nodup_replace _ _ _ _ Hnd Hnd' Hfresh') as Hndnew.
assert (∀ j, j ∈ rnodes A1 ∨ j ∈ nodes l1 ∨ j ∈ nodes l2 ∨ j ∈ rnodes A2 → (j ∉ nodes mid) ∧ (j ∉ nodes mid')) as Houter.
{ intros j Hj. apply list.NoDup_app in Hnd as (_ & Hd1 & (_ & Hd2 & _)%list.NoDup_app).
apply list.NoDup_app in Hndnew as (_ & Hd1' & (_ & Hd2' & _)%list.NoDup_app).
split; intros Hm.
- destruct Hj as [Hj|[Hj|[Hj|Hj]]];
    [apply (Hd1 j); apply elem_of_app; by left|apply (Hd1 j); apply elem_of_app; [by right|by left]
    |apply (Hd2 j Hm); apply elem_of_app; by left|apply (Hd2 j Hm); apply elem_of_app; by right].
- destruct Hj as [Hj|[Hj|[Hj|Hj]]];
    [apply (Hd1' j); apply elem_of_app; by left|apply (Hd1' j); apply elem_of_app; [by right|by left]
    |apply (Hd2' j Hm); apply elem_of_app; by left|apply (Hd2' j Hm); apply elem_of_app; by right]. }
destruct R as [Rb Rc Rr Rl _ Ru Ra Rcap Rlive Rbytes Rlim Robj Rpeak _ _ Rprov].
split; rewrite ?Ea, ?Ep, ?Ec, ?Ecap; try done.
- by rewrite Elen.
- rewrite !length_app in *. done.
- apply Forall2_app_inv_r in Rr as (as1 & as2 & R1 & R2 & ->). apply Forall2_cons_inv_r in R2 as (a & as2' & Ra' & R2 & ->).
apply Forall2_app; [done|]. constructor; [|done].
destruct Ra' as [[[= _ E] _]|(? & ? & Hend & Hne & Hs & _ & ->)].
{ destruct l1; [by destruct mid|done]. }
right. cbn [fst snd] in *. rewrite Htotal, Hfirst'. split_and!; try done.
+ destruct l1; [by destruct mid'|done].
+ apply Forall_app in Hs as [? Hs]. apply Forall_app in Hs as [_ ?]. rewrite !Forall_app. done.
- intros r Hr. assert (r ∈ A1 ∨ r ∈ A2 → linked (heap_blocks h') 0 r.2 HEAP_END) as Hother.
{ intros Ho. apply (linked_frame (heap_blocks h)).
  - intros j Hj. assert (j ∈ rnodes A1 ∨ j ∈ rnodes A2) as Hj'.
    { destruct Ho as [Ho|Ho]; [left|right]; apply list_elem_of_join; exists (nodes r.2); (split; [done|]);
        apply list_elem_of_fmap; by exists r. }
    destruct (Houter j) as [? ?]; [tauto|]. by apply Hsame.
  - apply Rl, elem_of_app. destruct Ho; [by left|right; by right]. }
apply elem_of_app in Hr as [Hr|[->|Hr]%elem_of_cons]; [by apply Hother; left| |by apply Hother; right].
cbn [snd]. specialize (Rl (b, l1 ++ mid ++ l2)). cbn [snd] in Rl.
assert (linked (heap_blocks h) 0 (l1 ++ mid ++ l2) HEAP_END) as Hold.
{ apply Rl, elem_of_app. right. apply list_elem_of_here. }
apply linked_app in Hold as [Hl1 Hold]. apply linked_app in Hold as [_ Hl2].
apply linked_app. split; [|apply linked_app; split].
+ rewrite first_app in *. rewrite Hf. eapply linked_frame; [|exact Hl1].
  intros j Hj. destruct (Houter j) as [? ?]; [tauto|]. by apply Hsame.
+ by rewrite Z.add_0_l.
+ rewrite Htot. eapply linked_frame; [|exact Hl2].
  intros j Hj. destruct (Houter j) as [? ?]; [tauto|]. by apply Hsame.
- rewrite rnodes_app, rnodes_cons. cbn [snd]. rewrite !nodes_app, <- !app_assoc, app_assoc. done.
- intros j blk Hj Hn. rewrite rnodes_app, rnodes_cons in Hn. cbn [snd] in Hn. rewrite !nodes_app, !elem_of_app in Hn.
destruct (decide (j ∈ nodes mid)) as [Hm|Hm].
+ rewrite Hzero in Hj by tauto. congruence.
+ rewrite Hsame in Hj by tauto. apply (Ru j); [done|]. rewrite rnodes_app, rnodes_cons. cbn [snd].
  rewrite !nodes_app, !elem_of_app. tauto.
- assert (∀ k q, (A1 ++ (b, l1 ++ mid' ++ l2) :: A2) !! k = Some q →
  ∃ q0, (A1 ++ (b, l1 ++ mid ++ l2) :: A2) !! k = Some q0 ∧ q0.1 = q.1 ∧ total q0.2 = total q.2) as Hold.
{ intros k q Hk. destruct (decide (k = length A1)) as [->|Hne].
  - rewrite list_lookup_middle in Hk by done. injection Hk as <-. exists (b, l1 ++ mid ++ l2).
    by rewrite list_lookup_middle.
  - exists q. split_and!; [|done|done]. rewrite <- Hk. rewrite !lookup_app.
    destruct (A1 !! k) eqn:E; [done|]. apply lookup_ge_None in E.
    destruct (k - length A1)%nat eqn:Ek; [lia|done]. }
intros i j r q Hi Hj Hij. destruct (Hold i r Hi) as (r0 & Hi0 & Er & Et), (Hold j q Hj) as (q0 & Hj0 & Eq & Eqt).
specialize (Ra i j r0 q0 Hi0 Hj0 Hij). unfold apart in *. lia.
- rewrite Rcap, !rsum_app. cbn [rsum snd]. lia.
- rewrite Elive, Rlive, !rsum_app. cbn [rsum snd]. rewrite !live_app. lia.
- rewrite Ebytes, Rbytes, !rsum_app. cbn [rsum snd]. rewrite !bytes_app. lia.
Qed.

(** What [rep] looks at. *)
Lemma rep_static (h h' : heap) A :
heap_blocks h' = heap_blocks h → heap_areas h' = heap_areas h → heap_provider h' = heap_provider h →
provider_check h' = provider_check h → heap_initialized h' = heap_initialized h →
heap_capacity h' = heap_capacity h → heap_live h' = heap_live h → heap_bytes h' = heap_bytes h →
heap_peak h' = heap_peak h → heap_busy h' = heap_busy h →
rep h A → rep h' A.
Proof using.
intros E1 E2 E3 E4 E5 E6 E7 E8 E9 E10 []. by split; rewrite ?E1, ?E2, ?E3, ?E4, ?E5, ?E6, ?E7, ?E8, ?E9, ?E10.
Qed.

(** The regions before and after a change of the region list. *)
Lemma apart_sym r q : apart r q → apart q r.
Proof using. unfold apart. tauto. Qed.

Lemma apart_middle A1 A2 (r r' : region) :
(∀ i j x y, (A1 ++ r :: A2) !! i = Some x → (A1 ++ r :: A2) !! j = Some y → i ≠ j → apart x y) →
(∀ x, x ∈ A1 ++ A2 → apart x r') →
∀ i j x y, (A1 ++ r' :: A2) !! i = Some x → (A1 ++ r' :: A2) !! j = Some y → i ≠ j → apart x y.
Proof using.
intros Hold Hnew.
assert (∀ k x, (A1 ++ r' :: A2) !! k = Some x → k ≠ length A1 → (A1 ++ r :: A2) !! k = Some x ∧ x ∈ A1 ++ A2) as Hsplit.
{ intros k x Hk Hne. rewrite lookup_app in *. destruct (A1 !! k) eqn:E.
- simplify_eq. split; [done|]. apply elem_of_app. left. by eapply list_elem_of_lookup_2.
- apply lookup_ge_None in E. destruct (k - length A1)%nat eqn:Ek; [lia|]. cbn in *. split; [done|].
  apply elem_of_app. right. by eapply list_elem_of_lookup_2. }
intros i j x y Hi Hj Hij.
destruct (decide (i = length A1)) as [->|Hi'], (decide (j = length A1)) as [->|Hj']; [done| | |].
- rewrite list_lookup_middle in Hi by done. injection Hi as <-. apply apart_sym, Hnew. by apply (Hsplit j).
- rewrite list_lookup_middle in Hj by done. injection Hj as <-. apply Hnew. by apply (Hsplit i).
- apply (Hold i j); [by apply (Hsplit i)|by apply (Hsplit j)|done].
Qed.

Lemma insert_middle {X} (l1 l2 : list X) x y : <[length l1 := y]> (l1 ++ x :: l2) = l1 ++ y :: l2.
Proof using. rewrite <- (Nat.add_0_r (length l1)). by rewrite insert_app_r. Qed.

(** A new region of one free segment. *)
Lemma rep_add (h h' : heap) A1 A2 storage cap node :
rep h (A1 ++ (0, []) :: A2) →
heap_areas h' = <[length A1 := sealed_area (Area storage 0 cap (Z.of_nat node) 0)]> (heap_areas h) →
heap_blocks h' = <[node := sealed (Block 0 cap 0 HEAP_END 0)]> (heap_blocks h) →
heap_provider h' = heap_provider h → provider_check h' = provider_check h → heap_initialized h' = 1 →
heap_busy h' = 0 → heap_live h' = heap_live h → heap_bytes h' = heap_bytes h → heap_peak h' = heap_peak h →
heap_capacity h' = heap_capacity h + cap → heap_capacity h' <= limit_of (heap_provider h) →
0 < storage → storage mod HEAP_ALIGN = 0 → 0 < cap → cap mod HEAP_ALIGN = 0 → storage + cap <= UINTPTR_MAX →
Z.of_nat node < HEAP_SLOTS → node ∉ rnodes (A1 ++ (0, []) :: A2) →
(∀ r, r ∈ A1 ++ A2 → apart r (storage, [Seg node cap 0])) →
rep h' (A1 ++ (storage, [Seg node cap 0]) :: A2).
Proof using.
intros R Ea Eb Ep Ec Ei Ebusy El Eby Epk Ecap Hcap Hs Hsa Hc Hca Hend Hn Hfree Hapart.
destruct R as [Rb Rc Rr Rl Rn Ru Ra Rcap Rlive Rbytes Rlim Robj Rpeak _ _ Rprov].
assert (rnodes (A1 ++ (0, []) :: A2) = rnodes A1 ++ rnodes A2) as Eold by by rewrite rnodes_app.
assert (rnodes (A1 ++ (storage, [Seg node cap 0]) :: A2) = rnodes A1 ++ node :: rnodes A2) as Enew by by rewrite rnodes_app.
split; rewrite ?Ea, ?Eb, ?Ep, ?Ec, ?El, ?Eby, ?Epk; try done.
- by rewrite length_insert.
- rewrite !length_app in *. done.
- apply Forall2_app_inv_r in Rr as (as1 & as2 & R1 & R2 & ->). apply Forall2_cons_inv_r in R2 as (a & as2' & _ & R2 & ->).
rewrite <- (list.Forall2_length _ _ _ R1), insert_middle. apply Forall2_app; [done|]. constructor; [|done]. right.
cbn [fst snd total first]. rewrite Z.add_0_r. split_and!; try done.
apply list.Forall_singleton. split_and!; cbn; [done|done|lia..|done].
- intros r Hr. assert (r ∈ A1 ∨ r ∈ A2 → linked (<[node := sealed (Block 0 cap 0 HEAP_END 0)]> (heap_blocks h)) 0 r.2 HEAP_END) as Hother.
{ intros Ho. apply linked_insert; [|apply Rl, elem_of_app; destruct Ho; [by left|right; by right]].
  intros Hj. apply Hfree. rewrite Eold. apply elem_of_app.
  destruct Ho as [Ho|Ho]; [left|right]; apply list_elem_of_join; exists (nodes r.2); (split; [done|]);
    apply list_elem_of_fmap; by exists r. }
apply elem_of_app in Hr as [Hr|[->|Hr]%elem_of_cons]; [by apply Hother; left| |by apply Hother; right].
cbn. rewrite list_lookup_insert_eq; [done|]. rewrite Rb. lia.
- rewrite Enew. rewrite Eold in Rn, Hfree. apply list.NoDup_app in Rn as (N1 & N12 & N2).
rewrite elem_of_app in Hfree. apply list.NoDup_app. split_and!; [done| |].
+ intros j Hj [->|Hj2]%elem_of_cons; [tauto|by apply (N12 j)].
+ apply list.NoDup_cons. split; [tauto|done].
- intros j blk Hj Hnin. rewrite Enew, elem_of_app, elem_of_cons in Hnin.
rewrite list_lookup_insert_ne in Hj by (intros ->; tauto). apply (Ru j); [done|]. rewrite Eold, elem_of_app. tauto.
- by eapply apart_middle.
- rewrite Ecap, Rcap, !rsum_app. cbn [rsum snd total s_span]. lia.
- rewrite Rlive, !rsum_app. done.
- rewrite Rbytes, !rsum_app. done.
Qed.

(** A region of one free segment goes. *)
Lemma rep_remove (h h' : heap) A1 A2 b s :
rep h (A1 ++ (b, [s]) :: A2) → used s = false →
heap_areas h' = <[length A1 := zero_area]> (heap_areas h) →
heap_blocks h' = <[s_node s := zero_block]> (heap_blocks h) →
heap_provider h' = heap_provider h → provider_check h' = provider_check h → heap_initialized h' = 1 →
heap_busy h' = 0 → heap_live h' = heap_live h → heap_bytes h' = heap_bytes h → heap_peak h' = heap_peak h →
heap_capacity h' = heap_capacity h - s_span s →
rep h' (A1 ++ (0, []) :: A2).
Proof using.
intros R Hu Ea Eb Ep Ec Ei Ebusy El Eby Epk Ecap.
pose proof (rep_segs _ _ R) as Hsegs. apply Forall_app in Hsegs as [_ Hsegs].
apply list.Forall_cons in Hsegs as [Hsegs _]. apply list.Forall_singleton in Hsegs as (Hspan & _ & Hreq & Hnode).
destruct R as [Rb Rc Rr Rl Rn Ru Ra Rcap Rlive Rbytes Rlim Robj Rpeak _ _ Rprov].
assert (rnodes (A1 ++ (b, [s]) :: A2) = rnodes A1 ++ s_node s :: rnodes A2) as Eold by by rewrite rnodes_app.
assert (rnodes (A1 ++ (0, []) :: A2) = rnodes A1 ++ rnodes A2) as Enew by by rewrite rnodes_app.
rewrite Eold in Rn. apply list.NoDup_app in Rn as (N1 & N12 & (N2 & N3)%list.NoDup_cons).
assert (s_req s = 0) as Hr0 by (by apply negb_false_iff, Z.eqb_eq in Hu).
split; rewrite ?Ea, ?Eb, ?Ep, ?Ec, ?El, ?Eby, ?Epk; try done.
- by rewrite length_insert.
- rewrite !length_app in *. done.
- apply Forall2_app_inv_r in Rr as (as1 & as2 & R1 & R2 & ->). apply Forall2_cons_inv_r in R2 as (a & as2' & _ & R2 & ->).
rewrite <- (list.Forall2_length _ _ _ R1), insert_middle. apply Forall2_app; [done|]. constructor; [by left|done].
- intros r Hr. apply elem_of_app in Hr as [Hr|[->|Hr]%elem_of_cons]; [|done|];
  (apply linked_insert; [|apply Rl, elem_of_app; by first [by left | right; by right]]); intros Hj;
  assert (s_node s ∈ rnodes A1 ∨ s_node s ∈ rnodes A2) as Hin by
    (first [left; apply list_elem_of_join; exists (nodes r.2); split; [done|apply list_elem_of_fmap; by exists r]
           |right; apply list_elem_of_join; exists (nodes r.2); split; [done|apply list_elem_of_fmap; by exists r]]);
  (destruct Hin as [Hin|Hin]; [by apply (N12 _ Hin), list_elem_of_here|done]).
- rewrite Enew. apply list.NoDup_app. split_and!; [done| |done].
intros j Hj Hj2. apply (N12 j Hj). by apply list_elem_of_further.
- intros j blk Hj Hnin. rewrite Enew, elem_of_app in Hnin.
destruct (decide (j = s_node s)) as [->|Hne].
+ apply list_lookup_insert_Some in Hj as [(_ & <- & _)|[? _]]; [done|done].
+ rewrite list_lookup_insert_ne in Hj by done. apply (Ru j); [done|]. rewrite Eold, elem_of_app, elem_of_cons. tauto.
- eapply apart_middle; [done|]. intros x _. right. by left.
- rewrite Ecap, Rcap, !rsum_app. cbn [rsum snd total]. lia.
- rewrite Rlive, !rsum_app. cbn [rsum snd live_of]. rewrite Hu. lia.
- rewrite Rbytes, !rsum_app. cbn [rsum snd bytes_of]. lia.
- lia.
Qed.
End rep.
