(* ===== verification/HeapOps.v ===== *)
(** The operations of the heap on represented states.

    Each operation, from a state that represents an abstract heap, returns
    (it neither fails nor leaves an array) and represents the new abstract
    heap; what happens to the set of objects and to their bytes is part of
    each lemma. *)
From stdpp Require Import sorting.
From S2P Require Import Prelude Heap HeapSpec.
Import Heap.
Local Open Scope heap_scope.

Section ops.
Context `{Platform} {W : Type} `{Provider W}.
#[local] Abbreviation heap := (heap_t W).

(** ** Vacant slots *)
Lemma rsum_length (h : heap) A :
rep h A → Z.of_nat (length (rnodes A)) <= 2 * rsum live_of A + Z.of_nat (length A).
Proof using.
intros R. assert (Forall2 region_ok (heap_areas h) A) as Hr by apply R. clear R.
induction Hr as [|a r as_ A Hok _ IH]; [done|]. rewrite rnodes_cons, length_app. cbn [rsum length].
enough (Z.of_nat (length (nodes r.2)) <= 2 * live_of r.2 + 1) by lia.
destruct Hok as [[-> _]|(_ & _ & _ & _ & Hs & Hm & _)]; [done|].
rewrite (region_length r.2 Hs). pose proof (merged_length r.2 Hm) as Hl.
destruct r.2 as [|s l]; [cbn; lia|]. destruct (used s); lia.
Qed.


Lemma vacant_found (h : heap) A :
rep h A → heap_live h < REIST_LIBC_OBJECT_LIMIT →
∃ k, vacant_in (heap_blocks h) = Z.of_nat k ∧ heap_blocks h !! k = Some zero_block ∧ (k ∉ rnodes A) ∧
Z.of_nat k < HEAP_SLOTS.
Proof using.
intros R Hlive. unfold vacant_in.
destruct (list_find (λ b, span b = 0) (heap_blocks h)) as [[k b]|] eqn:E.
- apply list_find_Some in E as (Hk & Hs & _). exists k.
pose proof (lookup_lt_Some _ _ _ Hk) as Hlt. rewrite (rep_blocks _ _ R) in Hlt.
assert (k ∉ rnodes A) as Hn.
{ intros (l & Hin & Hl)%list_elem_of_join. apply list_elem_of_fmap in Hl as (r & -> & Hr).
  apply list_elem_of_fmap in Hin as (s & -> & Hs'). apply list_elem_of_split in Hs' as (l1 & l2 & El).
  pose proof (rep_linked _ _ R r Hr) as Hlink. rewrite El in Hlink. apply linked_app in Hlink as [_ [Hb _]].
  pose proof (proj1 (list.Forall_forall _ _) (rep_segs _ _ R) r Hr) as Hok. cbn in Hok.
  rewrite El in Hok. apply Forall_app in Hok as [_ Hok]. apply list.Forall_cons in Hok as [(? & _) _].
  rewrite Hb in Hk. injection Hk as <-. cbn in Hs. lia. }
split_and!; [done| |done|change HEAP_SLOTS with 8312 in *; lia].
by rewrite <- (rep_unused _ _ R k b Hk Hn).
- apply list_find_None in E. exfalso.
assert (seq 0 (Z.to_nat HEAP_SLOTS) ⊆+ rnodes A) as Hsub.
{ apply NoDup_submseteq; [apply NoDup_seq|]. intros k Hk%elem_of_seq.
  destruct (decide (k ∈ rnodes A)) as [|Hn]; [done|]. exfalso.
  destruct (lookup_lt_is_Some_2 (heap_blocks h) k) as [b Hb]; [rewrite (rep_blocks _ _ R); lia|].
  pose proof (rep_unused _ _ R k b Hb Hn) as ->. by apply (proj1 (Forall_lookup _ _) E k zero_block Hb). }
apply submseteq_length in Hsub. rewrite length_seq in Hsub.
pose proof (rsum_length h A R). rewrite (rep_count _ _ R) in *. rewrite (rep_live _ _ R) in Hlive.
change HEAP_SLOTS with 8312 in *. change REIST_LIBC_OBJECT_LIMIT with 4096 in *. lia.
Qed.

(** ** Taking a free segment *)
(** The front segment that is handed out, and the free rest. *)
Definition taken (s : seg) (want size : Z) (rest : list seg) : list seg := Seg (s_node s) want size :: rest.

Definition is_rest (s : seg) (want : Z) (rest : list seg) : Prop :=
(want = s_span s ∧ rest = []) ∨ (∃ k, want < s_span s ∧ rest = [Seg k (s_span s - want) 0]).

Lemma split_block_rep (h : heap) A1 A2 b l1 s l2 want :
rep h (A1 ++ (b, l1 ++ [s] ++ l2) :: A2) → heap_live h < REIST_LIBC_OBJECT_LIMIT →
used s = false → 0 < want <= s_span s → want mod HEAP_ALIGN = 0 →
∃ blocks rest,
split_block (Z.of_nat (s_node s)) want h = Returns tt (set_blocks h blocks) ∧ is_rest s want rest ∧
length blocks = length (heap_blocks h) ∧
(∃ c, blocks !! s_node s = Some (Block (total l1) want 0 (first (rest ++ l2) HEAP_END) c)) ∧
linked blocks (total l1 + want) rest (first l2 HEAP_END) ∧
(∀ j, j ∉ nodes rest → j ≠ s_node s → blocks !! j = heap_blocks h !! j) ∧
(∀ j, j ∈ nodes rest → (j ∉ rnodes (A1 ++ (b, l1 ++ [s] ++ l2) :: A2))).
Proof using.
intros R Hlive Hu Hwant Hal. set (A := A1 ++ _) in *.
assert (at_seg A (length A1) b l1 s l2) as Hat by (unfold at_seg, A; by rewrite list_lookup_middle).
pose proof (at_seg_block h A _ b l1 s l2 R Hat) as Hb.
assert (s_req s = 0) as Hr0 by (by apply negb_false_iff, Z.eqb_eq in Hu).
unfold split_block. rewrite (bind_returns _ _ _ _ _ (block_at_some _ _ _ Hb)). cbn [sealed span offset next requested check].
destruct (Z.leb_spec (s_span s) want) as [Hle|Hlt].
- exists (heap_blocks h), []. split_and!; [by destruct h|left; split; [lia|done]|done| |done|done|].
+ eexists. rewrite Hb, Hr0. unfold sealed. cbn. by replace want with (s_span s) by lia.
+ intros j Hj. by apply elem_of_nil in Hj.
- destruct (vacant_found h A R Hlive) as (k & Ek & Hk0 & Hk & Hkn).
assert ((Z.of_nat k =? HEAP_END) = false) as Hke.
{ apply Z.eqb_neq. change HEAP_SLOTS with 8312 in Hkn. unfold HEAP_END. unfold_words. lia. }
assert (k ≠ s_node s) as Hne.
{ intros ->. rewrite Hb in Hk0. injection Hk0. intros. lia. }
pose proof (lookup_lt_Some _ _ _ Hk0) as Hkl. pose proof (lookup_lt_Some _ _ _ Hb) as Hsl.
unfold vacant_block, bind, get, ret. rewrite Ek, Hke. unfold set_block, seal, bind.
rewrite Nat2Z.id, decide_True by done.
set (nb := Block (total l1 + want) (s_span s - want) 0 (first l2 HEAP_END) 0).
unfold block_at, set_block. cbn [heap_blocks set_blocks]. rewrite Nat2Z.id, list_lookup_insert_eq by done.
cbn [heap_blocks set_blocks]. rewrite length_insert, !decide_True by (by rewrite ?length_insert, ?Nat2Z.id).
rewrite list_insert_insert_eq, Nat2Z.id.
cbn [heap_blocks set_blocks]. rewrite !decide_True by (by rewrite ?length_insert).
eexists _, [Seg k (s_span s - want) 0]. split_and!.
+ done.
+ right. by exists k.
+ by rewrite !length_insert.
+ eexists. rewrite list_lookup_insert_eq by (by rewrite length_insert). by rewrite Hr0.
+ cbn. split; [|done]. rewrite list_lookup_insert_ne by done. by rewrite list_lookup_insert_eq.
+ intros j Hj Hjs. cbn in Hj. rewrite list_lookup_insert_ne by done. rewrite list_lookup_insert_ne; [done|].
  intros ->. by apply Hj, list_elem_of_here.
+ intros j [->|Hj%elem_of_nil]%elem_of_cons; done.
Qed.

(** The rest of a division into spans keeps the segments well formed. *)
Lemma rest_ok s want size rest :
seg_ok s → is_rest s want rest → 0 < want <= s_span s → want mod HEAP_ALIGN = 0 → 0 < size <= want →
(∀ k, k ∈ nodes rest → Z.of_nat k < HEAP_SLOTS) →
Forall seg_ok (taken s want size rest) ∧ total (taken s want size rest) = s_span s ∧
live_of (taken s want size rest) = 1 ∧ bytes_of (taken s want size rest) = size ∧
(∀ start, objs start (taken s want size rest) = [(start, size)]).
Proof using.
intros (Hs & Ha & Hr & Hn) Hrest Hw Hwa Hsize Hslots.
assert (used (Seg (s_node s) want size) = true) as Hu by (apply used_seg; lia).
assert (seg_ok (Seg (s_node s) want size)) as Hok by (split_and!; cbn; (done || lia)).
destruct Hrest as [[-> ->]|(k & Hlt & ->)]; cbn [taken total live_of bytes_of objs s_span s_req]; rewrite Hu; cbv iota.
- split_and!; [by constructor|lia|lia|lia|intros; by rewrite app_nil_r].
- change (used (Seg k (s_span s - want) 0)) with false. cbn [total live_of bytes_of objs].
split_and!; [|lia|lia|lia|done]. constructor; [done|]. constructor; [|done].
split_and!; cbn [s_span s_req s_node]; [lia|unfold HEAP_ALIGN in *; Z.to_euclidean_division_equations; lia|lia|lia|].
apply Hslots, list_elem_of_here.
Qed.

Lemma merged_taken l1 s l2 want size rest :
merged (l1 ++ [s] ++ l2) → used s = false → is_rest s want rest → 0 < size →
merged (l1 ++ taken s want size rest ++ l2).
Proof using.
intros Hm Hu Hrest Hsize. cbn [app] in Hm. apply merged_split in Hm as [Hm1 Hm2].
assert (used (Seg (s_node s) want size) = true) as Hu1 by (apply used_seg; lia).
cbn [taken app]. apply merged_split. split.
- clear Hm2 Hrest. induction l1 as [|x [|y l1] IH]; cbn [app merged] in *; [done|tauto|tauto].
- assert (merged l2) as Hl2 by by (destruct l2; cbn in Hm2; [|tauto]).
assert (match l2 with t :: _ => used t = true | [] => True end) as Ht.
{ destruct l2 as [|t l2]; [done|]. cbn in Hm2. destruct Hm2 as [[?|?] _]; congruence. }
destruct Hrest as [[_ ->]|(k & _ & ->)]; cbn [app merged].
+ destruct l2; [done|]. tauto.
+ split; [by left|]. destruct l2; [done|]. tauto.
Qed.

(** Counters after an object of [size] bytes was added. *)
Definition counted (h : heap) (size : Z) : heap :=
set_counts h (heap_capacity h) (heap_live h + 1) (heap_bytes h + size) (Z.max (heap_peak h) (heap_bytes h + size)).

Lemma free_room A1 A2 b l1 s l2 :
Forall (λ r : region, Forall seg_ok r.2) (A1 ++ (b, l1 ++ [s] ++ l2) :: A2) → used s = false →
rsum bytes_of (A1 ++ (b, l1 ++ [s] ++ l2) :: A2) + s_span s <= rsum total (A1 ++ (b, l1 ++ [s] ++ l2) :: A2).
Proof using.
intros Hs Hu. apply Forall_app in Hs as [H1 Hs]. apply list.Forall_cons in Hs as [Hr H2]. cbn [snd] in Hr.
apply Forall_app in Hr as [Hl1 Hr]. apply Forall_app in Hr as [_ Hl2].
destruct (rsum_bounds A1 H1) as (? & ? & _). destruct (rsum_bounds A2 H2) as (? & ? & _).
destruct (seg_totals l1 Hl1) as (? & ? & _). destruct (seg_totals l2 Hl2) as (? & ? & _).
assert (s_req s = 0) as Hr0 by (by apply negb_false_iff, Z.eqb_eq in Hu).
rewrite !rsum_app. cbn [rsum snd]. rewrite !total_app, !bytes_app. cbn [total bytes_of]. lia.
Qed.

Lemma take_block_rep (h : heap) A1 A2 b l1 s l2 want size :
rep h (A1 ++ (b, l1 ++ [s] ++ l2) :: A2) → heap_live h < REIST_LIBC_OBJECT_LIMIT →
used s = false → 0 < want <= s_span s → want mod HEAP_ALIGN = 0 → 0 < size <= want →
∃ blocks rest,
take_block (Z.of_nat (length A1)) (Z.of_nat (s_node s)) want size h =
  Returns (b + total l1) (set_blocks (counted h size) blocks) ∧
is_rest s want rest ∧
rep (set_blocks (counted h size) blocks) (A1 ++ (b, l1 ++ taken s want size rest ++ l2) :: A2).
Proof using.
intros R Hlive Hu Hwant Hal Hsize.
destruct (split_block_rep h A1 A2 b l1 s l2 want R Hlive Hu Hwant Hal)
as (blocks & rest & Esplit & Hrest & Hlen & (c & Hb) & Hlink & Hsame & Hfresh).
set (A := A1 ++ (b, l1 ++ [s] ++ l2) :: A2) in *.
assert (at_seg A (length A1) b l1 s l2) as Hat by (unfold at_seg, A; by rewrite list_lookup_middle).
destruct (at_seg_region h A _ b l1 s l2 R Hat) as (a & Ha & -> & Hb0 & _ & Hend & Hmerged & _).
pose proof (at_seg_segs h A _ b l1 s l2 R Hat) as Hsegs. pose proof Hsegs as Hsegs'.
apply Forall_app in Hsegs' as [Hl1 Hsegs']. apply list.Forall_cons in Hsegs' as [Hsok Hl2].
destruct (rsum_bounds A (rep_segs h A R)) as (? & ? & ?).
pose proof (free_room A1 A2 b l1 s l2 (rep_segs h A R) Hu) as Hroom. fold A in Hroom.
pose proof (limit_bounds _ _ (rep_provider _ _ R)) as Hlim. pose proof (rep_limit _ _ R) as Hcap.
pose proof (rep_peak _ _ R) as Hpeak. rewrite (rep_capacity _ _ R) in Hcap.
change REIST_LIBC_PROCESS_LIMIT with 536870912 in *. change REIST_LIBC_OBJECT_LIMIT with 4096 in *.
assert (u32 size = size) as Eu by (rewrite u32_small; [done|ulia]).
pose proof (lookup_lt_Some _ _ _ Hb) as Hlt.
exists (<[s_node s := sealed (Block (total l1) want size (first (rest ++ l2) HEAP_END) 0)]> blocks), rest.
split; [|split; [done|]].
- unfold take_block. rewrite (bind_returns _ _ _ _ _ Esplit).
rewrite (bind_returns _ _ _ _ _ (block_at_some _ _ (set_blocks h blocks) Hb)). cbn [offset span next check].
rewrite (bind_returns _ _ _ _ _ (set_block_eq _ _ (set_blocks h blocks) Hlt)).
erewrite (bind_returns (seal _)) by (apply seal_eq; cbn [heap_blocks set_blocks]; by apply list_lookup_insert_eq).
rewrite bind_modify. erewrite (bind_returns (area_at _)) by (apply area_at_some; exact Ha).
erewrite (bind_returns (block_at _))
  by (apply block_at_some; cbn [heap_blocks set_blocks set_counts]; by rewrite list_insert_insert_eq, list_lookup_insert_eq).
unfold ret. cbn [base sealed_area offset sealed]. rewrite Eu. unfold counted.
cbn [set_blocks set_counts heap_areas heap_provider provider_check heap_initialized heap_capacity heap_live
  heap_bytes heap_peak heap_busy heap_errno memory world heap_blocks].
rewrite list_insert_insert_eq.
rewrite (rep_live _ _ R), (rep_bytes _ _ R) in *. rewrite !u32_small by ulia. done.
- assert (∀ k, k ∈ nodes rest → Z.of_nat k < HEAP_SLOTS) as Hslots.
{ intros k Hk. destruct Hrest as [[_ ->]|(j & _ & ->)]; [by apply elem_of_nil in Hk|].
  apply list_elem_of_singleton in Hk as ->. destruct Hlink as [Hl _]. cbn in Hl.
  apply lookup_lt_Some in Hl. rewrite Hlen, (rep_blocks _ _ R) in Hl. change HEAP_SLOTS with 8312 in *. cbn [s_node]. lia. }
destruct (rest_ok s want size rest Hsok Hrest Hwant Hal Hsize Hslots) as (Hok & Htot & Hlv & Hby & _).
assert (s_node s ∉ nodes rest) as Hns.
{ intros Hin. apply (Hfresh _ Hin). unfold A. rewrite rnodes_app, rnodes_cons. cbn [snd]. rewrite !nodes_app.
  rewrite !elem_of_app. right. left. right. left. apply list_elem_of_here. }
assert (s_req s = 0) as Hr0 by (by apply negb_false_iff, Z.eqb_eq in Hu).
eapply (rep_replace h _ A1 A2 b l1 [s] (taken s want size rest) l2 R); try done.
+ apply R.
+ apply R.
+ cbn. rewrite length_insert. done.
+ intros j Hj Hj'. cbn [heap_blocks set_blocks] . cbn in Hj, Hj'. rewrite elem_of_cons in Hj, Hj'.
  rewrite list_lookup_insert_ne by (intros <-; tauto). apply Hsame; [tauto|]. intros ->. tauto.
+ intros j Hj Hj'. cbn in Hj, Hj'. apply list_elem_of_singleton in Hj as ->. destruct Hj'. apply list_elem_of_here.
+ cbn [linked taken heap_blocks set_blocks]. split.
  * rewrite list_lookup_insert_eq by done. by rewrite first_app.
  * by apply linked_insert.
+ cbn. apply list.NoDup_cons. split; [done|].
  destruct Hrest as [[_ ->]|(k & _ & ->)]; [constructor|apply NoDup_singleton].
+ intros j Hj. cbn in Hj. apply elem_of_cons in Hj as [->|Hj]; [left; apply list_elem_of_here|right; by apply Hfresh].
+ cbn [total]. lia.
+ apply merged_taken; try done. lia.
+ cbn [heap_live set_blocks counted set_counts]. rewrite Hlv. cbn [live_of]. rewrite Hu. lia.
+ cbn [heap_live set_blocks counted set_counts]. change REIST_LIBC_OBJECT_LIMIT with 4096. lia.
+ cbn [heap_bytes set_blocks counted set_counts]. rewrite Hby. cbn [bytes_of]. lia.
+ cbn [heap_bytes heap_peak set_blocks counted set_counts]. rewrite (rep_bytes _ _ R) in *. lia.
Qed.

(** ** Asking the provider *)
Context `{!ProviderLaws W}.

(** Every region is lent by the provider of the heap, if it has one. *)
Definition backed (h : heap) (A : list region) : Prop :=
acquire (heap_provider h) ≠ 0 → ∀ r, r ∈ A → r.1 ≠ 0 → (r.1, total r.2) ∈ lent (world h).

Lemma rsum_total_mod A : Forall (λ r : region, Forall seg_ok r.2) A → rsum total A mod HEAP_ALIGN = 0.
Proof using.
induction 1 as [|r A Hr _ IH]; [done|]. cbn [rsum]. destruct (seg_totals r.2 Hr) as (_ & _ & _ & Hm).
unfold HEAP_ALIGN in *. Z.to_euclidean_division_equations; lia.
Qed.

Lemma area_capacity_bounds p c usedb want :
provider_ok p c → acquire p ≠ 0 → usedb mod HEAP_ALIGN = 0 → want mod HEAP_ALIGN = 0 → 0 < want <= budget p - usedb →
let cap := area_capacity p usedb want in
want <= cap <= budget p - usedb ∧ cap mod HEAP_ALIGN = 0.
Proof using.
intros [[? _]|(_ & _ & _ & _ & _ & _ & Hba & Hq & Hqa)] Hn Hu Hwa Hw; [done|].
unfold area_capacity, HEAP_ALIGN in *. cbv zeta.
assert (0 <= want mod quantum p < quantum p) by (apply Z.mod_pos_bound; lia).
assert ((want mod quantum p) mod 16 = 0) as Hr.
{ apply Z.mod_divide in Hwa as [m ->]; [|done]. apply Z.mod_divide in Hqa as [k Ek]; [|done]. rewrite Ek.
rewrite Z.mul_mod_distr_r by lia. apply Z.mod_mul. done. }
destruct (Z.eqb_spec (want mod quantum p) 0); [split; [lia|done]|].
destruct (Z.leb_spec (quantum p - want mod quantum p) (budget p - usedb - want)).
- split; [lia|]. generalize dependent (want mod quantum p). intros. Z.to_euclidean_division_equations; lia.
- split; [lia|]. Z.to_euclidean_division_equations; lia.
Qed.

Lemma vacant_area_rep (h : heap) A :
rep h A →
vacant_area (heap_areas h) = REIST_LIBC_BACKING_REGIONS ∨
∃ A1 A2, A = A1 ++ (0, []) :: A2 ∧ vacant_area (heap_areas h) = Z.of_nat (length A1) ∧ (length A1 < 120)%nat.
Proof using.
intros R. unfold vacant_area. destruct (list_find _ _) as [[i a]|] eqn:E; [right|by left].
apply list_find_Some in E as (Hi & Hb & _).
destruct (Forall2_lookup_l _ _ _ _ _ (rep_regions _ _ R) Hi) as (r & Hr & Hok).
pose proof (lookup_lt_Some _ _ _ Hr) as Hlt. rewrite (rep_count _ _ R) in Hlt.
apply list_elem_of_split_length in Hr as (A1 & A2 & E & ->).
exists A1, A2. split_and!; [|done|done]. rewrite E. f_equal. f_equal.
destruct (region_cases _ _ Hok) as [(_ & -> & _)|(Eb & Hpos & _)]; [done|]. lia.
Qed.

Lemma no_overlap (h : heap) A storage cap :
rep h A → (∀ r, r ∈ A → r.1 ≠ 0 → r.1 + total r.2 <= storage ∨ storage + cap <= r.1) →
existsb (λ a, overlaps a storage cap) (heap_areas h) = false.
Proof using.
intros R Hap. destruct (existsb _ _) eqn:E; [|done]. apply existsb_exists in E as (a & Ha & Ho).
apply list_elem_of_In, list_elem_of_lookup in Ha as [i Hi].
destruct (Forall2_lookup_l _ _ _ _ _ (rep_regions _ _ R) Hi) as (r & Hr & Hok).
pose proof (list_elem_of_lookup_2 _ _ _ Hr) as Hin.
unfold overlaps in Ho. apply andb_true_iff in Ho as [[Hb%negb_true_iff%Z.eqb_neq Ho1%Z.ltb_lt]%andb_true_iff Ho2%Z.ltb_lt].
destruct (region_cases _ _ Hok) as [(Eb & _)|(Eb & Hpos & _ & _ & _ & _ & ->)]; [done|].
cbn [base capacity sealed_area] in *. destruct (Hap r Hin); lia.
Qed.

(** [heap_busy] is set during a callback only. *)
Lemma busy_cycle (h : heap) w : heap_busy h = 0 → set_busy (set_world (set_busy h 1) w) 0 = set_world h w.
Proof using. intros E. unfold set_busy, set_world. cbn. by rewrite E. Qed.

(** How an attempt ends: nothing, or a new region that holds [want]. *)
Lemma acquire_area_rep (h : heap) A want :
rep h A → backed h A → heap_live h < REIST_LIBC_OBJECT_LIMIT → 0 < want → want mod HEAP_ALIGN = 0 →
(∃ w, acquire_area want h = Returns HEAP_END (set_world h w) ∧ backed (set_world h w) A) ∨
(∃ A1 A2 storage cap node h',
 A = A1 ++ (0, []) :: A2 ∧ acquire_area want h = Returns (Z.of_nat (length A1)) h' ∧ (length A1 < 120)%nat ∧
 want <= cap ∧ rep h' (A1 ++ (storage, [Seg node cap 0]) :: A2) ∧
 backed h' (A1 ++ (storage, [Seg node cap 0]) :: A2) ∧ memory h' = memory h ∧ heap_errno h' = heap_errno h ∧
 heap_live h' = heap_live h ∧ heap_provider h' = heap_provider h ∧ acquire (heap_provider h) ≠ 0).
Proof using All.
intros R B Hlive Hw Hwa. unfold acquire_area. rewrite bind_get.
assert (h = set_world h (world h)) as Eh by by destruct h.
destruct (Z.eqb_spec (acquire (heap_provider h)) 0) as [|Hacq]; cbn [orb].
{ left. exists (world h). rewrite <- Eh. done. }
destruct (Z.ltb_spec (budget (heap_provider h) - heap_capacity h) want) as [|Hroom].
{ left. exists (world h). rewrite <- Eh. done. }
destruct (vacant_area_rep h A R) as [->|(A1 & A2 & EA & Ev & HA1)]; [left; exists (world h); rewrite <- Eh; done|].
rewrite Ev. destruct (vacant_found h A R Hlive) as (k & Ek & Hk0 & Hk & Hkn). rewrite Ek.
change HEAP_SLOTS with 8312 in Hkn.
destruct (Z.eqb_spec (Z.of_nat (length A1)) REIST_LIBC_BACKING_REGIONS) as [E|_].
{ change REIST_LIBC_BACKING_REGIONS with 120 in E. lia. }
destruct (Z.eqb_spec (Z.of_nat k) HEAP_END) as [E|_]; [unfold HEAP_END in E; unfold_words; lia|]. cbn [orb].
set (cap := area_capacity (heap_provider h) (heap_capacity h) want).
assert (want <= cap <= budget (heap_provider h) - heap_capacity h ∧ cap mod HEAP_ALIGN = 0) as (Hcap & Hcapa).
{ apply (area_capacity_bounds _ (provider_check h)); try done; [apply R|]. rewrite (rep_capacity _ _ R).
apply rsum_total_mod, (rep_segs h A R). }
clearbody cap.
destruct (call_acquire (acquire (heap_provider h)) (context (heap_provider h)) cap (world h)) as [storage w] eqn:Ec.
destruct (acquire_lends _ _ _ _ _ _ Ec) as [Hlend Hkeep]. rewrite !bind_modify.
rewrite (busy_cycle h w) by apply R.
assert (backed (set_world h w) A) as B' by (intros Ha r Hr Hne; by apply Hkeep, B).
destruct Hlend as [->|(Hs0 & Hsa & Hend & Hin & Hap)]; [left; exists w; done|].
destruct (Z.eqb_spec storage 0); [lia|]. rewrite (proj2 (Z.eqb_eq _ _) Hsa : (storage mod HEAP_ALIGN =? 0) = true).
destruct (Z.ltb_spec (UINTPTR_MAX - cap) storage); [lia|]. cbn [negb orb heap_areas set_world].
assert (∀ r, r ∈ A → r.1 ≠ 0 → r.1 + total r.2 <= storage ∨ storage + cap <= r.1) as Hapart.
{ intros r Hr Hne. by apply Hap, B. }
rewrite (no_overlap h A storage cap R Hapart).
right. rewrite EA in *. unfold add_area.
rewrite (bind_returns (bind _ _) _ _ tt
(set_counts (set_blocks (set_areas (set_world h w) (<[length A1 := sealed_area (Area storage 0 cap (Z.of_nat k) 0)]> (heap_areas h)))
   (<[k := sealed (Block 0 cap 0 HEAP_END 0)]> (heap_blocks h)))
   (u32 (heap_capacity h + cap)) (heap_live h) (heap_bytes h) (heap_peak h))).
2: { unfold bind at 1. unfold set_area. rewrite Nat2Z.id, decide_True.
2: { cbn [heap_areas set_world]. rewrite (list.Forall2_length _ _ _ (rep_regions _ _ R)), (rep_count _ _ R). done. }
pose proof (lookup_lt_Some _ _ _ Hk0) as Hkl.
erewrite (bind_returns (set_block _ _)) by (apply set_block_eq; exact Hkl).
erewrite (bind_returns (seal _)) by (apply seal_eq; cbn [heap_blocks set_blocks set_areas set_world]; by apply list_lookup_insert_eq).
unfold modify. cbn [heap_blocks set_blocks set_areas set_world heap_areas]. by rewrite list_insert_insert_eq. }
pose proof (limit_bounds _ _ (rep_provider _ _ R)) as Hlim. unfold limit_of in Hlim.
rewrite (proj2 (Z.eqb_neq _ _) Hacq) in Hlim. change REIST_LIBC_PROCESS_LIMIT with 536870912 in Hlim.
assert (0 <= heap_capacity h) as Hc0.
{ rewrite (rep_capacity _ _ R). by destruct (rsum_bounds _ (rep_segs _ _ R)). }
assert (u32 (heap_capacity h + cap) = heap_capacity h + cap) as Eu.
{ rewrite u32_small; [done|]. unfold_words.  lia. }
eexists A1, A2, storage, cap, k, _. split_and!; try done; [lia| |].
- eapply (rep_add h _ A1 A2 storage cap k R); try done.
+ apply R.
+ apply R.
+ cbn [heap_capacity set_counts]. rewrite Eu. unfold limit_of. rewrite (proj2 (Z.eqb_neq _ _) Hacq). lia.
+ lia.
+ intros r Hr. assert (r ∈ A1 ++ (0, []) :: A2) as Hr'.
  { apply elem_of_app in Hr as [?|?]; apply elem_of_app; [by left|right; by right]. }
  unfold apart. cbn [fst snd total s_span]. destruct (decide (r.1 = 0)) as [|Hne]; [by left|]. destruct (Hapart r Hr' Hne); lia.
- intros _ r Hr Hne. apply elem_of_app in Hr as [Hr|[->|Hr]%elem_of_cons].
+ apply B'; [done| |done]. apply elem_of_app. by left.
+ cbn [fst snd total s_span world set_counts set_blocks set_areas set_world]. by rewrite Z.add_0_r.
+ apply B'; [done| |done]. apply elem_of_app. right. by right.
Qed.

(** ** Allocation *)
Lemma objects_middle A1 A2 b l1 m l2 :
objects (A1 ++ (b, l1 ++ m ++ l2) :: A2) =
objects A1 ++ objs b l1 ++ objs (b + total l1) m ++ objs (b + total l1 + total m) l2 ++ objects A2.
Proof using.
unfold objects. rewrite fmap_app, join_app, fmap_cons. cbn [mjoin list_join fst snd].
by rewrite !objs_app, <- !app_assoc.
Qed.

Lemma span_of_bounds size :
0 < size <= REIST_LIBC_PROCESS_LIMIT →
size <= span_of size < size + HEAP_ALIGN ∧ span_of size mod HEAP_ALIGN = 0.
Proof using.
unfold span_of, HEAP_ALIGN, REIST_LIBC_PROCESS_LIMIT. intros Hs.
rewrite (u32_small size), u32_small by (unfold_words; lia).
split; [Z.to_euclidean_division_equations; lia|apply Z.mod_mul; lia].
Qed.

(** The state of the heap between two calls. *)
Record good (h : heap) (A : list region) : Prop := {
good_rep : rep h A;
good_backed : backed h A;
good_tight : tight (heap_provider h) A
}.

Lemma tight_replace p A1 A2 r b m :
tight p (A1 ++ r :: A2) → 0 < live_of m → tight p (A1 ++ (b, m) :: A2).
Proof using.
intros T Hm Ha q Hr Hne. apply elem_of_app in Hr as [Hr|[->|Hr]%elem_of_cons]; [|done|];
apply (T Ha); try done; apply elem_of_app; [by left|right; by right].
Qed.

Lemma backed_replace (h h' : heap) A1 A2 b l m :
backed h (A1 ++ (b, l) :: A2) → heap_provider h' = heap_provider h → world h' = world h → total m = total l →
backed h' (A1 ++ (b, m) :: A2).
Proof using.
intros B Ep Ew Et Ha r Hr Hne. rewrite Ep in Ha. rewrite Ew.
apply elem_of_app in Hr as [Hr|[->|Hr]%elem_of_cons].
- apply B; [done| |done]. apply elem_of_app. by left.
- cbn [fst snd] in *. rewrite Et. apply (B Ha (b, l)); [|done]. apply elem_of_app. right. apply list_elem_of_here.
- apply B; [done| |done]. apply elem_of_app. right. by right.
Qed.

(** The provider stays, and without one so do the regions. *)
Definition shape (A : list region) : list (Z * Z) := (λ r : region, (r.1, total r.2)) <$> A.
Definition settled (h : heap) (A : list region) (h' : heap) (A' : list region) : Prop :=
heap_provider h' = heap_provider h ∧ (acquire (heap_provider h) = 0 → shape A' = shape A).

Lemma shape_middle A1 A2 b l m : total m = total l → shape (A1 ++ (b, m) :: A2) = shape (A1 ++ (b, l) :: A2).
Proof using. intros E. unfold shape. rewrite !fmap_app, !fmap_cons. cbn [fst snd]. by rewrite E. Qed.

Lemma settled_refl h h' A : heap_provider h' = heap_provider h → settled h A h' A.
Proof using. by split. Qed.
Lemma settled_trans h1 A1 h2 A2 h3 A3 : settled h1 A1 h2 A2 → settled h2 A2 h3 A3 → settled h1 A1 h3 A3.
Proof using.
intros [E1 S1] [E2 S2]. split; [congruence|]. intros Ha. rewrite S2 by congruence. by apply S1.
Qed.

(** What a granted allocation leaves. *)
Definition granted (h : heap) (A : list region) (p size : Z) (h' : heap) (A' : list region) : Prop :=
good h' A' ∧ memory h' = memory h ∧ p ≠ 0 ∧ p mod HEAP_ALIGN = 0 ∧
objects A' ≡ₚ (p, size) :: objects A ∧ heap_errno h' = heap_errno h ∧ settled h A h' A'.

Lemma take_granted (h : heap) A1 A2 b l1 s l2 size :
rep h (A1 ++ (b, l1 ++ [s] ++ l2) :: A2) → backed h (A1 ++ (b, l1 ++ [s] ++ l2) :: A2) →
(∀ m, 0 < live_of m → tight (heap_provider h) (A1 ++ (b, m) :: A2)) →
heap_live h < REIST_LIBC_OBJECT_LIMIT → used s = false → 0 < size <= REIST_LIBC_PROCESS_LIMIT →
span_of size <= s_span s →
∃ p h' A', take_block (Z.of_nat (length A1)) (Z.of_nat (s_node s)) (span_of size) size h = Returns p h' ∧
granted h (A1 ++ (b, l1 ++ [s] ++ l2) :: A2) p size h' A'.
Proof using.
intros R B T Hlive Hu Hsize Hspan. destruct (span_of_bounds size Hsize) as [Hw Hwa].
destruct (take_block_rep h A1 A2 b l1 s l2 (span_of size) size R Hlive Hu ltac:(lia) Hwa ltac:(lia))
as (blocks & rest & E & Hrest & R').
assert (at_seg (A1 ++ (b, l1 ++ [s] ++ l2) :: A2) (length A1) b l1 s l2) as Hat by (unfold at_seg; by rewrite list_lookup_middle).
destruct (at_seg_region _ _ _ _ _ _ _ R Hat) as (_ & _ & _ & Hb & Hba & _ & _ & _).
pose proof (at_seg_segs _ _ _ _ _ _ _ R Hat) as Hsegs. apply Forall_app in Hsegs as [Hl1 Hsegs].
apply list.Forall_cons in Hsegs as [Hsok Hl2]. destruct (seg_totals l1 Hl1) as (? & _ & ? & Hm1).
destruct (seg_totals l2 Hl2) as (_ & _ & ? & _).
assert (∀ k, k ∈ nodes rest → Z.of_nat k < HEAP_SLOTS) as Hslots.
{ intros k Hk. pose proof (rep_segs _ _ R') as Hs'. apply Forall_app in Hs' as [_ Hs'].
apply list.Forall_cons in Hs' as [Hs' _]. cbn [snd] in Hs'. apply Forall_app in Hs' as [_ Hs'].
cbn [taken app] in Hs'. apply list.Forall_cons in Hs' as [_ Hs']. apply Forall_app in Hs' as [Hs' _].
apply list_elem_of_fmap in Hk as (t & -> & Ht). by destruct (proj1 (list.Forall_forall _ _) Hs' t Ht) as (_ & _ & _ & ?). }
destruct (rest_ok s (span_of size) size rest Hsok Hrest ltac:(lia) Hwa ltac:(lia) Hslots) as (_ & Htot & Hlv & _ & Hobjs).
eexists _, _, _. split; [exact E|].
split; [split|split; [done|split; [|split; [|split; [|split; [done|split; [done|intros _]]]]]]]; try done.
- eapply backed_replace; [exact B|done|done|]. rewrite !total_app. cbn [total]. lia.
- apply T. rewrite !live_app. lia.
- lia.
- unfold HEAP_ALIGN in *. Z.to_euclidean_division_equations; lia.
- rewrite !objects_middle, Hobjs. cbn [objs total]. rewrite Hu, Htot, Z.add_0_r. cbn [app].
rewrite !app_assoc. by rewrite <- Permutation_middle, <- !app_assoc.
- apply shape_middle. rewrite !total_app. cbn [total]. lia.
Qed.

(** Why an allocation is refused: the size, the number of objects, or no free
    segment (and no new region) holds it. *)
Definition full (h : heap) (A : list region) (size : Z) : Prop :=
limit_of (heap_provider h) < size ∨ REIST_LIBC_OBJECT_LIMIT <= heap_live h ∨
Forall (λ r : region, Forall (λ s, fits (span_of size) s = false) r.2) A.

Definition refused (h : heap) (A : list region) (size : Z) (h' : heap) : Prop :=
good h' A ∧ memory h' = memory h ∧ heap_errno h' = ENOMEM ∧ full h A size ∧ settled h A h' A.

Lemma good_errno (h : heap) A w e :
rep h A → backed (set_world h w) A → tight (heap_provider h) A → good (set_errno (set_world h w) e) A.
Proof using. intros R B T. split; [by eapply rep_static; [..|exact R]|exact B|exact T]. Qed.

Lemma malloc_rep (h : heap) A size :
good h A → 0 <= size →
∃ p h', malloc size h = Returns p h' ∧
((size = 0 ∧ p = 0 ∧ h' = h) ∨ (0 < size ∧ p = 0 ∧ refused h A size h') ∨
 (0 < size ∧ ∃ A', granted h A p size h' A')).
Proof using All.
intros [R B T] Hsize. unfold malloc. rewrite (bind_returns _ _ _ _ _ (validate_rep h A R)).
destruct (Z.eqb_spec size 0) as [->|Hs0]; [by exists 0, h; split; [|left]|].
rewrite bind_get, (rep_initialized _ _ R). cbn [Z.eqb Pos.eqb orb]. fold (limit_of (heap_provider h)).
assert (∀ w, backed (set_world h w) A → full h A size →
∃ p h', fail_nomem (set_world h w) = Returns p h' ∧
((size = 0 ∧ p = 0 ∧ h' = h) ∨ (0 < size ∧ p = 0 ∧ refused h A size h') ∨
 (0 < size ∧ ∃ A', granted h A p size h' A'))) as Hfail.
{ intros w Bw Hfull. eexists 0, _. split; [done|]. right. left. split; [lia|]. split; [done|].
split; [by apply good_errno|]. split; [done|]. split; [done|]. split; [done|by apply settled_refl]. }
pose proof (limit_bounds _ _ (rep_provider _ _ R)) as Hlim.
destruct (Z.ltb_spec (limit_of (heap_provider h)) size) as [|Hle]; cbn [orb].
{ replace h with (set_world h (world h)) at 1 by by destruct h. apply Hfail; [done|by left]. }
destruct (Z.leb_spec REIST_LIBC_OBJECT_LIMIT (heap_live h)) as [|Hlive].
{ replace h with (set_world h (world h)) at 1 by by destruct h. apply Hfail; [done|right; by left]. }
assert (0 < size <= REIST_LIBC_PROCESS_LIMIT) as Hsz by lia.
destruct (span_of_bounds size Hsz) as [Hw Hwa].
destruct (fit_areas_rep h A (span_of size) R 120 0 ltac:(lia)) as [[Hnone E]|(i & b & l1 & s & l2 & Hat & Hf & E)];
fold all_areas in E; rewrite (bind_returns _ _ _ _ _ E); cbn [snd].
- rewrite Z.eqb_refl.
destruct (acquire_area_rep h A (span_of size) R B Hlive ltac:(lia) Hwa)
  as [(w & Ea & Bw)|(A1 & A2 & storage & cap & node & h1 & EA & Ea & HA1 & Hcap & R1 & B1 & Em & Ee & El & Ep & Hacq)].
+ rewrite (bind_returns _ _ h (HEAP_END, HEAP_END) (set_world h w)).
  2: { by rewrite (bind_returns _ _ _ _ _ Ea), Z.eqb_refl. }
  cbn [snd]. rewrite Z.eqb_refl. apply Hfail; [done|right; by right].
+ set (A' := A1 ++ (storage, [] ++ [Seg node cap 0] ++ []) :: A2).
  assert (at_seg A' (length A1) storage [] (Seg node cap 0) []) as Hat by (unfold at_seg, A'; by rewrite list_lookup_middle).
  destruct (at_seg_region h1 A' _ _ _ _ _ R1 Hat) as (a & Ha & Eh & _).
  assert (Z.of_nat node < HEAP_SLOTS) as Hnode.
  { pose proof (at_seg_segs h1 A' _ _ _ _ _ R1 Hat) as Hs1. apply (proj1 (list.Forall_singleton _ _)) in Hs1. apply Hs1. }
  rewrite (bind_returns _ _ h (Z.of_nat (length A1), Z.of_nat node) h1).
  2: { rewrite (bind_returns _ _ _ _ _ Ea). destruct (Z.eqb_spec (Z.of_nat (length A1)) HEAP_END) as [E0|_].
    { unfold HEAP_END in E0. unfold_words. lia. }
    by rewrite (bind_returns _ _ _ _ _ (area_at_some _ _ _ Ha)), Eh. }
  cbn [fst snd]. destruct (Z.eqb_spec (Z.of_nat node) HEAP_END) as [E0|_].
  { change HEAP_SLOTS with 8312 in Hnode. unfold HEAP_END in E0. unfold_words. lia. }
  rewrite EA, <- Ep in T.
  assert (∀ m, 0 < live_of m → tight (heap_provider h1) (A1 ++ (storage, m) :: A2)) as T'
    by (intros m Hm; by eapply tight_replace).
  destruct (take_granted h1 A1 A2 storage [] (Seg node cap 0) [] size R1 B1 T'
    ltac:(by rewrite El) ltac:(done) Hsz ltac:(cbn; lia)) as (p & h' & A'' & Et & Hg).
  exists p, h'. split; [exact Et|]. right. right. split; [lia|]. exists A''.
  destruct Hg as (G & M & Hp & Hpa & Ho & He & [Es _]).
  split; [done|]. split; [congruence|]. split; [done|]. split; [done|].
  split; [|split; [congruence|split; [congruence|done]]].
  rewrite Ho. rewrite EA. f_equiv. unfold objects. by rewrite !fmap_app, !join_app.
- pose proof Hat as Hat'. apply at_index in Hat' as (A1 & A2 & EA & Ei & _).
apply andb_true_iff in Hf as [Hu%negb_true_iff Hspan%Z.leb_le].
assert (Z.of_nat (s_node s) < HEAP_SLOTS) as Hnode.
{ pose proof (at_seg_segs h A _ _ _ _ _ R Hat) as Hs1. apply Forall_app in Hs1 as [_ Hs1].
  apply list.Forall_cons in Hs1 as [Hs1 _]. apply Hs1. }
assert ((Z.of_nat (s_node s) =? HEAP_END) = false) as Hne.
{ apply Z.eqb_neq. change HEAP_SLOTS with 8312 in Hnode. unfold HEAP_END. unfold_words. lia. }
rewrite Hne, bind_ret. cbn [fst snd]. rewrite Hne. subst i. rewrite EA in R, B, T |- *.
assert (∀ m, 0 < live_of m → tight (heap_provider h) (A1 ++ (b, m) :: A2)) as T'
  by (intros m Hm; by eapply tight_replace).
destruct (take_granted h A1 A2 b l1 s l2 size R B T' Hlive Hu Hsz Hspan)
  as (p & h' & A' & Et & Hg).
exists p, h'. split; [exact Et|]. right. right. split; [lia|]. by exists A'.
Qed.
End ops.
