(* ===== verification/HeapFree.v ===== *)
(** Freeing and resizing objects.

    [free] turns a used segment into a free one and joins it with its free
    neighbours; a region of a provider that becomes one free segment goes
    back.  [realloc] changes the size in place or moves the object. *)
From S2P Require Import Prelude Heap HeapSpec HeapOps.
Import Heap.
Local Open Scope heap_scope.

Section free.
Context `{Platform} {W : Type} `{Provider W}.
#[local] Abbreviation heap := (heap_t W).

(** ** Joining free neighbours *)
Definition used_head (l : list seg) : Prop := match l with s :: _ => used s = true | [] => True end.
Definition used_last (l : list seg) : Prop := match rev l with s :: _ => used s = true | [] => True end.
Definition one_free (l : list seg) : Prop := l = [] ∨ ∃ s, l = [s] ∧ used s = false.

Lemma split_head l : merged l → ∃ post rest, l = post ++ rest ∧ one_free post ∧ used_head rest.
Proof using.
intros Hm. destruct l as [|t l]; [by exists [], []; repeat split; left|].
destruct (used t) eqn:Eu; [by exists [], (t :: l); repeat split; [left|]|].
exists [t], l. split_and!; [done|right; by exists t|]. destruct l as [|u l]; [done|].
cbn in Hm. destruct Hm as [[?|?] _]; [congruence|done].
Qed.

Lemma merged_last l s : merged (l ++ [s]) → used s = false → used_last l.
Proof using.
unfold used_last. destruct l as [|x l] using rev_ind; [done|]. clear IHl.
rewrite rev_unit, <- app_assoc. cbn [app]. intros [_ Hm]%merged_split Hu. cbn in Hm.
destruct Hm as [[?|?] _]; [done|congruence].
Qed.

Lemma split_last l : merged l → ∃ front pre, l = front ++ pre ∧ one_free pre ∧ used_last front.
Proof using.
intros Hm. destruct l as [|q l _] using rev_ind; [by exists [], []; repeat split; left|].
destruct (used q) eqn:Eu.
- exists (l ++ [q]), []. rewrite app_nil_r. split_and!; [done|by left|]. unfold used_last. by rewrite rev_unit.
- exists l, [q]. split_and!; [done|right; by exists q|by eapply merged_last].
Qed.

Lemma merged_app_l l1 l2 : merged (l1 ++ l2) → merged l1.
Proof using.
induction l1 as [|x [|y l1] IH]; cbn [app merged]; [done|done|]. intros [? Hm]. split; [done|by apply IH].
Qed.
Lemma merged_app_r l1 l2 : merged (l1 ++ l2) → merged l2.
Proof using.
induction l1 as [|x l1 IH]; [done|]. intros Hm. apply IH. cbn [app] in Hm.
destruct (l1 ++ l2); [done|]. cbn [merged] in Hm. tauto.
Qed.

Lemma merged_join l1 x l2 : merged l1 → merged l2 → used_last l1 → used_head l2 → merged (l1 ++ [x] ++ l2).
Proof using.
intros H1 H2 Hl Hh. cbn [app]. apply merged_split. split.
- clear H2 Hh. unfold used_last in Hl. destruct l1 as [|y l1 _] using rev_ind; [done|].
rewrite rev_unit in Hl. rewrite <- app_assoc. cbn [app]. apply merged_split. split; [done|]. cbn. by split; [left|].
- destruct l2 as [|y l2]; [done|]. cbn in Hh. cbn [merged]. split; [by right|done].
Qed.

(** The block of a freed segment after it was joined with a free successor. *)
Lemma join_next_eq (h : heap) s off c post l2 :
heap_blocks h !! s_node s = Some (Block off (s_span s) 0 (first (post ++ l2) HEAP_END) c) →
linked (heap_blocks h) (off + s_span s) (post ++ l2) HEAP_END → s_node s ∉ nodes (post ++ l2) →
Forall seg_ok (post ++ l2) → one_free post → used_head l2 →
0 <= s_span s → s_span s + total post < 4294967296 →
∃ blocks,
bind (join_next (Z.of_nat (s_node s))) (λ _, seal (Z.of_nat (s_node s))) h = Returns tt (set_blocks h blocks) ∧
length blocks = length (heap_blocks h) ∧
blocks !! s_node s = Some (sealed (Block off (s_span s + total post) 0 (first l2 HEAP_END) 0)) ∧
(∀ j, j ∈ nodes post → blocks !! j = Some zero_block) ∧
(∀ j, j ∉ nodes post → j ≠ s_node s → blocks !! j = heap_blocks h !! j).
Proof using.
intros Hb Hlink Hns Hsegs Hpost Hhead Hs0 Hbound. pose proof (lookup_lt_Some _ _ _ Hb) as Hlt.
assert (∀ B c', join_next (Z.of_nat (s_node s)) h = Returns tt (set_blocks h B) →
B !! s_node s = Some (Block off (s_span s + total post) 0 (first l2 HEAP_END) c') →
bind (join_next (Z.of_nat (s_node s))) (λ _, seal (Z.of_nat (s_node s))) h =
  Returns tt (set_blocks h (<[s_node s := sealed (Block off (s_span s + total post) 0 (first l2 HEAP_END) 0)]> B))) as Hseal.
{ intros B c' Ej HB. rewrite (bind_returns _ _ _ _ _ Ej). by erewrite seal_eq by exact HB. }
assert (∃ B c', join_next (Z.of_nat (s_node s)) h = Returns tt (set_blocks h B) ∧ length B = length (heap_blocks h) ∧
B !! s_node s = Some (Block off (s_span s + total post) 0 (first l2 HEAP_END) c') ∧
(∀ j, j ∈ nodes post → B !! j = Some zero_block) ∧
(∀ j, j ∉ nodes post → j ≠ s_node s → B !! j = heap_blocks h !! j)) as (B & c' & Ej & HlB & HB & Hz & Hsame).
{ unfold join_next. rewrite (bind_returns _ _ _ _ _ (block_at_some _ _ _ Hb)). cbn [next offset span requested check].
destruct Hpost as [->|(t & -> & Hu)]; cbn [app total] in *.
- exists (heap_blocks h), c. rewrite Z.add_0_r in *. split_and!; try done; [|by intros j ?%elem_of_nil].
  assert (h = set_blocks h (heap_blocks h)) as Eh by by destruct h.
  destruct l2 as [|u l2]; [by rewrite Z.eqb_refl; cbn; rewrite <- Eh|].
  rewrite first_end_eqb by done. destruct Hlink as [Hbu _]. cbn [first].
  rewrite (bind_returns _ _ _ _ _ (block_at_some _ _ _ Hbu)). cbn [sealed requested].
  cbn in Hhead. change (negb (s_req u =? 0)) with (used u). rewrite Hhead. unfold ret. by rewrite <- Eh.
- rewrite first_end_eqb by done. destruct Hlink as [Hbt _]. cbn [first] in *.
  rewrite (bind_returns _ _ _ _ _ (block_at_some _ _ _ Hbt)). cbn [sealed requested span next].
  change (negb (s_req t =? 0)) with (used t). rewrite Hu.
  rewrite (bind_returns _ _ _ _ _ (set_block_eq _ _ h Hlt)).
  pose proof (lookup_lt_Some _ _ _ Hbt) as Hltt.
  rewrite set_block_eq by (cbn [heap_blocks set_blocks]; by rewrite length_insert).
  assert (s_node s ≠ s_node t) as Hne.
  { intros E. apply Hns. rewrite E. apply list_elem_of_here. }
  apply list.Forall_cons in Hsegs as [(? & _) _].
  eexists _, c. split_and!; [done|cbn [heap_blocks set_blocks]; by rewrite !length_insert| | |].
  + cbn [heap_blocks set_blocks]. rewrite list_lookup_insert_ne by done. rewrite list_lookup_insert_eq by done.
    rewrite u32_small by (unfold_words; lia). by rewrite Z.add_0_r.
  + intros j ->%list_elem_of_singleton. cbn [heap_blocks set_blocks]. apply list_lookup_insert_eq. by rewrite length_insert.
  + intros j Hj Hjs. cbn in Hj. rewrite list_elem_of_singleton in Hj.
    cbn [heap_blocks set_blocks]. by rewrite !list_lookup_insert_ne. }
exists (<[s_node s := sealed (Block off (s_span s + total post) 0 (first l2 HEAP_END) 0)]> B).
assert (s_node s ∉ nodes post) as Hnp by (intros Hin; apply Hns; rewrite nodes_app; apply elem_of_app; by left).
split_and!.
- by apply (Hseal B c').
- by rewrite length_insert.
- apply list_lookup_insert_eq. by rewrite HlB.
- intros j Hj. rewrite list_lookup_insert_ne by (by intros <-). by apply Hz.
- intros j Hj Hjs. rewrite list_lookup_insert_ne by done. by apply Hsame.
Qed.

(** Then with a free predecessor: the node that names the result. *)
Definition front_node (pre : list seg) (s : seg) : nat := match pre with q :: _ => s_node q | [] => s_node s end.

Lemma join_previous_eq (h : heap) s l1 pre sp nx :
heap_blocks h !! s_node s = Some (sealed (Block (total (l1 ++ pre)) sp 0 nx 0)) →
linked (heap_blocks h) 0 (l1 ++ pre) (Z.of_nat (s_node s)) → s_node s ∉ nodes (l1 ++ pre) → 
Forall seg_ok (l1 ++ pre) → one_free pre → used_last l1 → 0 <= sp → total pre + sp < 4294967296 →
∃ blocks,
join_previous (Z.of_nat (s_node s)) (before (l1 ++ pre)) h = Returns tt (set_blocks h blocks) ∧
length blocks = length (heap_blocks h) ∧
blocks !! front_node pre s = Some (sealed (Block (total l1) (total pre + sp) 0 nx 0)) ∧
(∀ j, j ∈ nodes (pre ++ [s]) → j ≠ front_node pre s → blocks !! j = Some zero_block) ∧
(∀ j, j ∉ nodes (pre ++ [s]) → blocks !! j = heap_blocks h !! j).
Proof using.
intros Hb Hlink Hns Hsegs Hpre Hlast Hsp Hbound. pose proof (lookup_lt_Some _ _ _ Hb) as Hlt.
unfold join_previous. assert (h = set_blocks h (heap_blocks h)) as Eh by by destruct h.
destruct Hpre as [->|(q & -> & Hu)]; cbn [front_node app total] in *.
- rewrite app_nil_r in *. exists (heap_blocks h). split_and!; try done.
+ unfold used_last in Hlast. destruct l1 as [|q l1 _] using rev_ind; [cbn; by rewrite <- Eh|].
  rewrite before_snoc. rewrite rev_unit in Hlast.
  apply linked_app in Hlink as [_ [Hq _]]. apply Forall_app in Hsegs as [_ Hsegs].
  pose proof (first_end_eqb [q] Hsegs ltac:(done)) as Hne. cbn [first] in Hne. rewrite Hne.
  rewrite (bind_returns _ _ _ _ _ (block_at_some _ _ _ Hq)). cbn [sealed requested].
  change (negb (s_req q =? 0)) with (used q). rewrite Hlast. unfold ret. by rewrite <- Eh.
+ intros j ->%list_elem_of_singleton Hj. done.
- rewrite before_snoc. apply linked_app in Hlink as [_ [Hq _]]. apply Forall_app in Hsegs as [_ Hsegs].
pose proof (first_end_eqb [q] Hsegs ltac:(done)) as Hne. cbn [first] in Hne. rewrite Hne.
rewrite (bind_returns _ _ _ _ _ (block_at_some _ _ _ Hq)). cbn [sealed requested offset span next check].
change (negb (s_req q =? 0)) with (used q). rewrite Hu.
rewrite (bind_returns _ _ _ _ _ (block_at_some _ _ _ Hb)). cbn [sealed span next].
pose proof (lookup_lt_Some _ _ _ Hq) as Hltq.
apply (proj1 (list.Forall_singleton _ _)) in Hsegs as (? & _).
assert (s_node s ≠ s_node q) as Hsq.
{ intros E. apply Hns. rewrite nodes_app, E. apply elem_of_app. right. apply list_elem_of_here. }
assert (s_req q = 0) as Hrq by (by apply negb_false_iff, Z.eqb_eq in Hu).
rewrite (bind_returns _ _ _ _ _ (set_block_eq _ _ h Hltq)).
erewrite (bind_returns (seal _)) by (apply seal_eq; cbn [heap_blocks set_blocks]; by apply list_lookup_insert_eq).
rewrite set_block_eq by (cbn [heap_blocks set_blocks]; by rewrite !length_insert).
eexists. split_and!; [done|cbn [heap_blocks set_blocks]; by rewrite !length_insert| | |]; cbn [heap_blocks set_blocks].
+ rewrite list_lookup_insert_ne by done. rewrite list_insert_insert_eq, list_lookup_insert_eq by done.
  unfold sealed. cbn [offset span requested next check]. rewrite u32_small, Hrq, Z.add_0_r by (unfold_words; lia). done.
+ intros j Hj Hjq. cbn in Hj. rewrite !elem_of_cons in Hj. destruct Hj as [->|[->|[]%elem_of_nil]]; [done|].
  apply list_lookup_insert_eq. by rewrite !length_insert.
+ intros j Hj. cbn in Hj. rewrite !elem_of_cons in Hj.
  rewrite !list_lookup_insert_ne by (intros <-; tauto). done.
Qed.

(** ** Objects are disjoint *)
Definition disjoint_objects (l : list (Z * Z)) : Prop :=
∀ i j x y, l !! i = Some x → l !! j = Some y → i ≠ j → x.1 + x.2 <= y.1 ∨ y.1 + y.2 <= x.1.

Lemma disjoint_objects_app l1 l2 :
disjoint_objects l1 → disjoint_objects l2 →
(∀ x y, x ∈ l1 → y ∈ l2 → x.1 + x.2 <= y.1 ∨ y.1 + y.2 <= x.1) → disjoint_objects (l1 ++ l2).
Proof using.
intros D1 D2 D12 i j x y Hi Hj Hij. rewrite lookup_app_Some in Hi, Hj.
destruct Hi as [Hi|[Hi Hi']], Hj as [Hj|[Hj Hj']].
- by apply (D1 i j).
- apply D12; by eapply list_elem_of_lookup_2.
- apply or_comm, D12; by eapply list_elem_of_lookup_2.
- apply (D2 (i - length l1)%nat (j - length l1)%nat); [done|done|lia].
Qed.

Lemma objs_bounds l : ∀ start p n,
Forall seg_ok l → (p, n) ∈ objs start l → start <= p ∧ 0 < n ∧ p + n <= start + total l.
Proof using.
intros start p n Hl (l1 & s & l2 & -> & Hu & -> & ->)%objs_elem.
destruct (total_split l1 s l2 Hl) as (? & Et & ? & ?). rewrite <- Et.
apply Forall_app in Hl as [_ Hl]. apply list.Forall_cons in Hl as [(_ & _ & ? & _) _].
unfold used in Hu. apply negb_true_iff, Z.eqb_neq in Hu. lia.
Qed.

Lemma objs_disjoint l : ∀ start, Forall seg_ok l → disjoint_objects (objs start l).
Proof using.
induction l as [|s l IH]; intros start Hl; [by intros [|i]|].
apply list.Forall_cons in Hl as [(? & _ & ? & _) Hl]. cbn [objs]. apply disjoint_objects_app; [|by apply IH|].
- intros i j x y Hi Hj Hij. destruct (used s); [|by rewrite lookup_nil in Hi].
apply list_lookup_singleton_Some in Hi as [-> _]. apply list_lookup_singleton_Some in Hj as [-> _]. done.
- intros x [q m] Hx Hy. apply objs_bounds in Hy as (? & _); [|done].
destruct (used s); [|by apply elem_of_nil in Hx]. apply list_elem_of_singleton in Hx as ->. cbn [fst snd]. lia.
Qed.

Lemma regions_disjoint A :
Forall (λ r : region, Forall seg_ok r.2 ∧ (r.1 = 0 → r.2 = [])) A →
(∀ i j r q, A !! i = Some r → A !! j = Some q → i ≠ j → apart r q) → disjoint_objects (objects A).
Proof using.
induction 1 as [|r A [Hr Hr0] HA IH]; intros Hap; [by intros [|i]|].
change (objects (r :: A)) with (objs r.1 r.2 ++ objects A).
apply disjoint_objects_app; [by apply objs_disjoint| |].
- apply IH. intros i j q q' Hi Hj Hij. apply (Hap (S i) (S j)); [done|done|lia].
- intros [p n] [p' n'] Hx Hy. cbn [fst snd].
apply list_elem_of_join in Hy as (l & Hy & Hl). apply list_elem_of_fmap in Hl as (q & -> & Hq).
pose proof (proj1 (list.Forall_forall _ _) HA q Hq) as [Hqs Hq0]. apply list_elem_of_lookup in Hq as [k Hk].
apply objs_bounds in Hx as (? & ? & ?); [|done].
destruct (Hap 0%nat (S k) r q) as [E|[E|?]]; try done.
+ rewrite (Hr0 E) in *. cbn [total] in *. lia.
+ apply objs_bounds in Hy as (? & ? & ?); [|done]. rewrite (Hq0 E) in *. cbn [total] in *. lia.
+ apply objs_bounds in Hy as (? & ? & ?); [|done]. lia.
Qed.

Lemma rep_disjoint (h : heap) A : rep h A → disjoint_objects (objects A).
Proof using.
intros R. apply regions_disjoint; [|apply R]. apply list.Forall_forall. intros r Hr.
split; [by apply (proj1 (list.Forall_forall _ _) (rep_segs h A R))|].
apply list_elem_of_lookup in Hr as [i Hi].
destruct (Forall2_lookup_r _ _ _ _ _ (rep_regions _ _ R) Hi) as (a & _ & [[-> _]|(? & _)]); [done|lia].
Qed.

(** The object at an address is unique, and has a place. *)
Lemma objects_positive (h : heap) A p n : rep h A → (p, n) ∈ objects A → 0 < n.
Proof using.
intros R (i & b & l1 & s & l2 & Hat & Hu & -> & ->)%objects_elem.
pose proof (at_seg_segs h A _ _ _ _ _ R Hat) as Hs. apply Forall_app in Hs as [_ Hs].
apply list.Forall_cons in Hs as [(_ & _ & ? & _) _]. unfold used in Hu. apply negb_true_iff, Z.eqb_neq in Hu. lia.
Qed.

Lemma objects_unique (h : heap) A p n m : rep h A → (p, n) ∈ objects A → (p, m) ∈ objects A → n = m.
Proof using.
intros R Hn Hm. pose proof (objects_positive h A p n R Hn). pose proof (objects_positive h A p m R Hm).
apply list_elem_of_lookup in Hn as [i Hi]. apply list_elem_of_lookup in Hm as [j Hj].
destruct (decide (i = j)) as [->|Hij]; [congruence|].
destruct (rep_disjoint h A R i j _ _ Hi Hj Hij); cbn [fst snd] in *; lia.
Qed.

Lemma locate_object (h : heap) A p size :
rep h A → (p, size) ∈ objects A →
∃ A1 A2 b l1 s l2,
A = A1 ++ (b, l1 ++ [s] ++ l2) :: A2 ∧ used s = true ∧ p = b + total l1 ∧ size = s_req s ∧
locate p h = Returns (Z.of_nat (s_node s), Z.of_nat (length A1), before l1) h.
Proof using.
intros R Hin. destruct (locate_live h A p size R Hin) as (i & b & l1 & s & l2 & Hat & Hu & Ep & El).
assert ((p, s_req s) ∈ objects A) as Hin' by (apply objects_elem; by exists i, b, l1, s, l2).
rewrite (objects_unique h A p size (s_req s) R Hin Hin').
apply at_index in Hat as (A1 & A2 & EA & -> & _). by exists A1, A2, b, l1, s, l2.
Qed.

(** ** Returning a region *)
Context `{!ProviderLaws W}.

Lemma live_nonneg l : 0 <= live_of l.
Proof using. induction l as [|s l IH]; cbn; [lia|]. destruct (used s); lia. Qed.

(** A chain without objects that is merged is one free segment. *)
Lemma merged_dead l : merged l → l ≠ [] → 0 < live_of l ∨ ∃ s, l = [s] ∧ used s = false.
Proof using.
intros Hm Hne. destruct l as [|s [|t l]]; [done| |].
- destruct (used s) eqn:Eu; [left; cbn; rewrite Eu; lia|right; by exists s].
- left. destruct Hm as [Hu _]. pose proof (live_nonneg l). cbn. destruct (used s), (used t); (lia || by destruct Hu).
Qed.

Lemma middle_other {X} (l1 l2 : list X) y x : x ∈ l1 ++ l2 → ∃ k, k ≠ length l1 ∧ (l1 ++ y :: l2) !! k = Some x.
Proof using.
intros [Hx|Hx]%elem_of_app; apply list_elem_of_lookup in Hx as [k Hk].
- exists k. split; [apply lookup_lt_Some in Hk; lia|by apply lookup_app_l_Some].
- exists (length l1 + S k)%nat. split; [lia|]. rewrite lookup_app_r by lia.
by replace (length l1 + S k - length l1)%nat with (S k) by lia.
Qed.

Lemma return_area_good (h : heap) A1 A2 b l :
rep h (A1 ++ (b, l) :: A2) → backed h (A1 ++ (b, l) :: A2) → l ≠ [] →
(∀ m, 0 < live_of m → tight (heap_provider h) (A1 ++ (b, m) :: A2)) →
∃ h' A', return_area (Z.of_nat (length A1)) h = Returns tt h' ∧ good h' A' ∧
objects A' = objects (A1 ++ (b, l) :: A2) ∧ memory h' = memory h ∧ heap_errno h' = heap_errno h ∧
settled h (A1 ++ (b, l) :: A2) h' A'.
Proof using All.
intros R B Hne T. destruct l as [|s l]; [done|].
assert (at_seg (A1 ++ (b, s :: l) :: A2) (length A1) b [] s l) as Hat by (unfold at_seg; by rewrite list_lookup_middle).
destruct (at_seg_region _ _ _ _ _ _ _ R Hat) as (a & Ha & -> & Hb & _ & _ & Hm & _). cbn [app] in *.
pose proof (at_seg_block _ _ _ _ _ _ _ R Hat) as Hblk. cbn [total] in Hblk.
unfold return_area. rewrite (bind_returns _ _ _ _ _ (area_at_some _ _ _ Ha)). cbn [sealed_area head first].
rewrite (bind_returns _ _ _ _ _ (block_at_some _ _ _ Hblk)), bind_get.
cbn [sealed requested span next capacity base].
destruct (_ && _) eqn:Ec.
- apply andb_true_iff in Ec as [Ec Hend%Z.eqb_eq]. apply andb_true_iff in Ec as [Ec Hcap%Z.eqb_eq].
apply andb_true_iff in Ec as [Hacq%negb_true_iff%Z.eqb_neq Hreq].
cbn [sealed_area capacity] in Hcap. assert (used s = false) as Hu by (unfold used; by rewrite Hreq).
assert (l = []) as ->.
{ destruct l as [|t l]; [done|]. pose proof (at_seg_segs _ _ _ _ _ _ _ R Hat) as Hs.
  apply list.Forall_cons in Hs as [_ Hs]. pose proof (total_pos _ Hs ltac:(done)). cbn [total] in *. lia. }
rewrite bind_modify.
pose proof (lookup_lt_Some _ _ _ Hblk) as Hlt. pose proof (lookup_lt_Some _ _ _ Ha) as Hla.
erewrite (bind_returns (set_block _ _)) by (apply set_block_eq; exact Hlt).
rewrite (bind_returns (set_area _ _) _ _ tt
  (set_areas (set_blocks (set_counts h (u32 (heap_capacity h - total [s])) (heap_live h) (heap_bytes h) (heap_peak h))
     (<[s_node s := zero_block]> (heap_blocks h))) (<[length A1 := zero_area]> (heap_areas h)))).
2: { unfold set_area. rewrite Nat2Z.id, decide_True by exact Hla. done. }
rewrite !bind_modify. eexists _, (A1 ++ (0, []) :: A2).
assert (u32 (heap_capacity h - total [s]) = heap_capacity h - s_span s) as Eu.
{ cbn [total]. rewrite Z.add_0_r. pose proof (rep_limit _ _ R) as Hl. pose proof (limit_bounds _ _ (rep_provider _ _ R)).
  pose proof (rep_segs _ _ R) as Hs. pose proof (rep_capacity _ _ R) as Hcp. rewrite rsum_app in Hcp. cbn [rsum snd total] in Hcp.
  apply Forall_app in Hs as [Hs1 Hs]. apply list.Forall_cons in Hs as [Hs0 Hs2].
  apply (proj1 (list.Forall_singleton _ _)) in Hs0 as (? & _).
  destruct (rsum_bounds _ Hs1) as (? & _). destruct (rsum_bounds _ Hs2) as (? & _).
  change REIST_LIBC_PROCESS_LIMIT with 536870912 in *. rewrite u32_small by (unfold_words; lia). done. }
split; [reflexivity|]. split; [split|split; [|split; [done|split; [done|split; [done|intros ?; done]]]]].
+ eapply (rep_remove h _ A1 A2 b s R Hu); try done; apply R.
+ intros _ r Hr Hr0. cbn. apply release_keeps.
  * apply B; [done| |done]. apply elem_of_app in Hr as [?|[->|?]%elem_of_cons]; [|done|];
      apply elem_of_app; [by left|right; by right].
  * intros [= E1 E2]. assert (r ∈ A1 ++ A2) as Hr'.
    { apply elem_of_app in Hr as [?|[->|?]%elem_of_cons]; [|done|]; apply elem_of_app; tauto. }
    pose proof (rep_segs _ _ R) as Hs. apply Forall_app in Hs as [_ Hs]. apply list.Forall_cons in Hs as [Hs0 _].
    apply (proj1 (list.Forall_singleton _ _)) in Hs0 as (? & _).
    assert (apart r (b, [s])) as Hap.
    { destruct (middle_other A1 A2 (b, [s]) r Hr') as (k & Hk & Er).
      apply (rep_apart _ _ R k (length A1)); [done|by apply list_lookup_middle|done]. }
    unfold apart in Hap. cbn [fst snd total] in *. lia.
+ intros Ha' r Hr Hr0. apply (T [Seg 0 1 1] ltac:(done) Ha'); [|done].
  apply elem_of_app in Hr as [?|[->|?]%elem_of_cons]; [|done|]; apply elem_of_app; [by left|right; by right].
+ unfold objects. rewrite !fmap_app, !join_app, !fmap_cons. cbn [mjoin list_join fst snd objs]. by rewrite Hu.
- exists h, (A1 ++ (b, s :: l) :: A2). split; [done|]. split; [split; [done|done|]|split; [done|split; [done|split; [done|by apply settled_refl]]]].
intros Hacq. apply T; [|done]. destruct (merged_dead (s :: l) Hm ltac:(done)) as [|(s' & [= -> ->] & Hu)]; [done|].
exfalso. unfold used in Hu. apply negb_false_iff in Hu. rewrite Hu in Ec.
cbn [total first] in Ec. rewrite Z.add_0_r, !Z.eqb_refl, (proj2 (Z.eqb_neq _ _) Hacq) in Ec. done.
Qed.

(** ** Freeing *)
Lemma bind_assoc {X Y Z} (p : M W X) (f : X → M W Y) (g : Y → M W Z) h :
bind (bind p f) g h = bind p (λ x, bind (f x) g) h.
Proof using. unfold bind. by destruct (p h). Qed.

Definition wiped (m : Z → Z) (p n : Z) : Z → Z := λ a, if (p <=? a) && (a <? p + n) then 0 else m a.

(** The heap after the counters and the block of a freed segment changed. *)
Definition released (h : heap) (p : Z) (s : seg) (off nx : Z) : heap :=
set_blocks
  (set_counts (set_memory h (wiped (memory h) p (s_req s))) (heap_capacity h) (u32 (heap_live h - 1))
     (u32 (heap_bytes h - s_req s)) (heap_peak h))
  (<[s_node s := Block off (s_span s) 0 nx (block_check (Block off (s_span s) (s_req s) nx 0))]> (heap_blocks h)).

Lemma one_free_sums l : one_free l → live_of l = 0 ∧ bytes_of l = 0.
Proof using.
intros [->|(s & -> & Hu)]; [done|]. cbn. rewrite Hu. apply negb_false_iff, Z.eqb_eq in Hu. lia.
Qed.

Lemma one_free_front pre s : one_free pre → ∀ after post, first (pre ++ s :: post) after = Z.of_nat (front_node pre s).
Proof using. by intros [->|(q & -> & _)]. Qed.
Lemma front_node_elem pre s post : front_node pre s ∈ nodes (pre ++ s :: post).
Proof using.
destruct pre as [|q pre]; apply list_elem_of_here.
Qed.

Lemma one_free_nodes pre s j : one_free pre → j ∈ nodes (pre ++ [s]) → j = front_node pre s ∨ (j = s_node s ∧ pre ≠ []).
Proof using.
intros [->|(q & -> & _)]; cbn; rewrite ?elem_of_cons, elem_of_nil; [intuition|]. intros [->|[->|[]]]; [by left|by right].
Qed.

Lemma at_seg_nodup (h : heap) A i b l1 s l2 :
rep h A → at_seg A i b l1 s l2 → NoDup (nodes l1 ++ s_node s :: nodes l2).
Proof using.
intros R Hat. apply at_index in Hat as (A1 & A2 & -> & _). pose proof (rep_nodup _ _ R) as Hn.
rewrite rnodes_app, rnodes_cons in Hn. apply list.NoDup_app in Hn as (_ & _ & Hn).
apply list.NoDup_app in Hn as (Hn & _). cbn [snd] in Hn. by rewrite nodes_app in Hn.
Qed.

(** The merged segment and the rest of its region. *)
Definition joined (pre : list seg) (s : seg) (post : list seg) : seg :=
Seg (front_node pre s) (total pre + (s_span s + total post)) 0.

Lemma seg_bound (h : heap) A i b l1 s l2 :
rep h A → at_seg A i b l1 s l2 → total (l1 ++ s :: l2) < 4294967296.
Proof using.
intros R Hat. apply at_index in Hat as (A1 & A2 & -> & _).
pose proof (rep_segs _ _ R) as Hs. apply Forall_app in Hs as [Hs1 Hs]. apply list.Forall_cons in Hs as [_ Hs2].
destruct (rsum_bounds _ Hs1) as (? & _). destruct (rsum_bounds _ Hs2) as (? & _).
pose proof (rep_capacity _ _ R) as Hc. rewrite rsum_app in Hc. cbn [rsum snd] in Hc.
pose proof (rep_limit _ _ R). pose proof (limit_bounds _ _ (rep_provider _ _ R)).
change REIST_LIBC_PROCESS_LIMIT with 536870912 in *. lia.
Qed.

(** The two joins leave one segment in the place of three. *)
Lemma joins_blocks (h : heap) A i b p l1 pre s post l2 :
rep h A → at_seg A i b (l1 ++ pre) s (post ++ l2) → one_free pre → one_free post → used_last l1 → used_head l2 →
let h1 := released h p s (total (l1 ++ pre)) (first (post ++ l2) HEAP_END) in
∃ blocks,
(∀ (k : M W unit),
   bind (join_next (Z.of_nat (s_node s))) (λ _,
   bind (seal (Z.of_nat (s_node s))) (λ _,
   bind (join_previous (Z.of_nat (s_node s)) (before (l1 ++ pre))) (λ _, k))) h1 = k (set_blocks h1 blocks)) ∧
length blocks = length (heap_blocks h) ∧
blocks !! front_node pre s = Some (sealed (Block (total l1) (s_span (joined pre s post)) 0 (first l2 HEAP_END) 0)) ∧
(∀ j, j ∈ nodes (pre ++ s :: post) → j ≠ front_node pre s → blocks !! j = Some zero_block) ∧
(∀ j, j ∉ nodes (pre ++ s :: post) → blocks !! j = heap_blocks h !! j).
Proof using.
intros R Hat Hpre Hpost Hlast Hhead h1.
pose proof (at_seg_block h A _ _ _ _ _ R Hat) as Hb. pose proof (at_seg_segs h A _ _ _ _ _ R Hat) as Hsegs.
pose proof (seg_bound h A _ _ _ _ _ R Hat) as Hbound. rewrite total_app in Hbound. cbn [total] in Hbound. rewrite !total_app in Hbound.
pose proof (at_seg_nodup h A _ _ _ _ _ R Hat) as Hnd.
apply Forall_app in Hsegs as [Hs1 Hsegs]. apply list.Forall_cons in Hsegs as [(Hsp & _) Hs2].
pose proof Hs1 as Hs1'. apply Forall_app in Hs1' as [Hl1 Hp1]. pose proof Hs2 as Hs2'. apply Forall_app in Hs2' as [Hp2 Hl2].
destruct (seg_totals _ Hl1) as (? & _). destruct (seg_totals _ Hp1) as (? & _).
destruct (seg_totals _ Hl2) as (? & _). destruct (seg_totals _ Hp2) as (? & _).
apply list.NoDup_app in Hnd as (_ & Hn12 & (Hn2 & _)%list.NoDup_cons).
assert (s_node s ∉ nodes (l1 ++ pre)) as Hn1 by (intros Hj; apply (Hn12 _ Hj), list_elem_of_here).
assert (linked (heap_blocks h) 0 ((l1 ++ pre) ++ s :: post ++ l2) HEAP_END) as Hlink.
{ apply (rep_linked _ _ R (b, (l1 ++ pre) ++ s :: post ++ l2)). by eapply list_elem_of_lookup_2. }
apply linked_app in Hlink as [Hlink1 [_ Hlink2]]. cbn [first] in Hlink1. rewrite Z.add_0_l in Hlink2.
pose proof (lookup_lt_Some _ _ _ Hb) as Hlt.
destruct (join_next_eq h1 s (total (l1 ++ pre)) (block_check (Block (total (l1 ++ pre)) (s_span s) (s_req s) (first (post ++ l2) HEAP_END) 0)) post l2) as (B1 & E1 & L1 & F1 & Z1 & S1); try done.
{ cbn. by apply list_lookup_insert_eq. }
{ cbn. by apply linked_insert. }
{ lia. } { lia. }
assert (∀ j, j ∈ nodes (l1 ++ pre) → (j ∉ nodes post) ∧ j ≠ s_node s) as Hout.
{ intros j Hj. split; [|by intros ->]. intros Hj2. apply (Hn12 j Hj). right. rewrite nodes_app. apply elem_of_app. by left. }
destruct (join_previous_eq (set_blocks h1 B1) s l1 pre (s_span s + total post) (first l2 HEAP_END))
  as (B2 & E2 & L2 & F2 & Z2 & S2); try done; [|lia|lia|].
{ cbn. eapply linked_frame; [|exact Hlink1]. intros j Hj. destruct (Hout j Hj). rewrite S1 by done.
  cbn. by apply list_lookup_insert_ne. }
exists B2. split; [|split; [|split; [|split]]].
- intros k. rewrite <- (bind_assoc (join_next _) (λ _, seal _)).
erewrite bind_returns by exact E1. erewrite bind_returns by exact E2. done.
- rewrite L2. cbn. rewrite L1. cbn. by rewrite length_insert.
- done.
- intros j Hj Hjf. rewrite cons_middle, app_assoc, nodes_app, elem_of_app in Hj.
destruct (decide (j ∈ nodes (pre ++ [s]))) as [Hj'|Hj']; [by apply Z2|]. destruct Hj as [|Hj]; [done|].
rewrite S2 by done. by apply Z1.
- intros j Hj. rewrite cons_middle, app_assoc, nodes_app, elem_of_app in Hj.
rewrite S2 by tauto. assert (j ≠ s_node s) as Hjs.
{ intros ->. apply Hj. left. rewrite nodes_app. apply elem_of_app. right. apply list_elem_of_here. }
cbn. rewrite S1 by tauto. cbn. by apply list_lookup_insert_ne.
Qed.

Lemma joined_rep (h : heap) A1 A2 b p l1 pre s post l2 blocks :
let A := A1 ++ (b, l1 ++ (pre ++ s :: post) ++ l2) :: A2 in
let h2 := set_blocks (released h p s (total (l1 ++ pre)) (first (post ++ l2) HEAP_END)) blocks in
rep h A → used s = true → one_free pre → one_free post → used_last l1 → used_head l2 →
length blocks = length (heap_blocks h) →
blocks !! front_node pre s = Some (sealed (Block (total l1) (s_span (joined pre s post)) 0 (first l2 HEAP_END) 0)) →
(∀ j, j ∈ nodes (pre ++ s :: post) → j ≠ front_node pre s → blocks !! j = Some zero_block) →
(∀ j, j ∉ nodes (pre ++ s :: post) → blocks !! j = heap_blocks h !! j) →
rep h2 (A1 ++ (b, l1 ++ [joined pre s post] ++ l2) :: A2).
Proof using.
intros A h2 R Hu Hpre Hpost Hlast Hhead Hlen Hfront Hzero Hsame.
assert (at_seg A (length A1) b (l1 ++ pre) s (post ++ l2)) as Hat.
{ unfold at_seg, A. rewrite list_lookup_middle by done. by rewrite <- !app_assoc. }
pose proof (at_seg_segs h A _ _ _ _ _ R Hat) as Hsegs.
destruct (at_seg_region h A _ _ _ _ _ R Hat) as (_ & _ & _ & _ & _ & _ & Hmerged & _).
apply Forall_app in Hsegs as [Hs1 Hsegs]. apply list.Forall_cons in Hsegs as [(Hsp & Hspa & Hreq & Hnode) Hs2].
apply Forall_app in Hs1 as [Hl1 Hp1]. apply Forall_app in Hs2 as [Hp2 Hl2].
destruct (seg_totals _ Hp1) as (? & _ & _ & Hma). destruct (seg_totals _ Hp2) as (? & _ & _ & Hmb).
destruct (one_free_sums _ Hpre) as [Hlv1 Hby1]. destruct (one_free_sums _ Hpost) as [Hlv2 Hby2].
assert (rsum live_of A = rsum live_of A1 + (live_of l1 + (1 + live_of l2)) + rsum live_of A2 ∧
  rsum bytes_of A = rsum bytes_of A1 + (bytes_of l1 + (s_req s + bytes_of l2)) + rsum bytes_of A2) as [Hlive Hbytes].
{ unfold A. rewrite !rsum_app. cbn [rsum snd]. rewrite !live_app, !bytes_app. cbn [live_of bytes_of]. rewrite Hu. lia. }
pose proof (rep_segs h A R) as HsA. apply Forall_app in HsA as [HsA1 HsA]. apply list.Forall_cons in HsA as [_ HsA2].
destruct (rsum_bounds _ HsA1) as (? & ? & ?). destruct (rsum_bounds _ HsA2) as (? & ? & ?).
destruct (seg_totals _ Hl1) as (? & ? & ? & _). destruct (seg_totals _ Hl2) as (? & ? & ? & _).
pose proof (rep_live _ _ R). pose proof (rep_bytes _ _ R). pose proof (rep_peak _ _ R). pose proof (rep_objects _ _ R).
pose proof (limit_bounds _ _ (rep_provider _ _ R)).
change REIST_LIBC_PROCESS_LIMIT with 536870912 in *. change REIST_LIBC_OBJECT_LIMIT with 4096 in *.
assert (heap_live h2 = heap_live h - 1) as Elive by (cbn; rewrite u32_small by ulia; lia).
assert (heap_bytes h2 = heap_bytes h - s_req s) as Ebytes by (cbn; rewrite u32_small by ulia; lia).
eapply (rep_replace h h2 A1 A2 b l1 (pre ++ s :: post) [joined pre s post] l2 R); try done.
- apply R.
- apply R.
- intros j Hj _. by apply Hsame.
- intros j Hj Hj'. apply Hzero; [done|]. intros ->. apply Hj', list_elem_of_here.
- apply NoDup_singleton.
- intros j Hj. apply list_elem_of_singleton in Hj as ->. left. apply front_node_elem.
- by destruct pre.
- by rewrite (one_free_front pre s Hpre).
- rewrite total_app. cbn [total joined s_span]. lia.
- apply list.Forall_singleton. split_and!; cbn [joined s_span s_req s_node]; [lia| |lia|lia|].
+ unfold HEAP_ALIGN in *. Z.to_euclidean_division_equations; lia.
+ destruct pre as [|q pre]; [done|]. by apply list.Forall_cons in Hp1 as [(_ & _ & _ & ?) _].
- rewrite <- app_assoc in Hmerged. apply merged_join; [by eapply merged_app_l| |done|done].
apply merged_app_r in Hmerged. apply merged_app_r in Hmerged.
by apply (merged_app_r (s :: post) l2).
- rewrite Elive, live_app. cbn [live_of joined used s_req]. rewrite Hu, Hlv1, Hlv2. cbn. lia.
- rewrite Elive. change REIST_LIBC_OBJECT_LIMIT with 4096. lia.
- rewrite Ebytes, bytes_app. cbn [bytes_of joined s_req]. lia.
- rewrite Ebytes. cbn [heap_peak h2 set_blocks released set_counts]. lia.
Qed.

(** What freeing an object leaves. *)
Definition freed (h : heap) (A : list region) (p size : Z) (h' : heap) (A' : list region) : Prop :=
good h' A' ∧ objects A ≡ₚ (p, size) :: objects A' ∧ memory h' = wiped (memory h) p size ∧
heap_errno h' = heap_errno h ∧ settled h A h' A'.

Lemma free_rep (h : heap) A p size :
good h A → (p, size) ∈ objects A → ∃ h' A', free p h = Returns tt h' ∧ freed h A p size h' A'.
Proof using All.
intros [R B T] Hin.
destruct (locate_object h A p size R Hin) as (A1 & A2 & b & l1 & s & l2 & EA & Hu & Ep & Es & Eloc).
assert (at_seg A (length A1) b l1 s l2) as Hat by (unfold at_seg; rewrite EA; by rewrite list_lookup_middle).
destruct (at_seg_region h A _ _ _ _ _ R Hat) as (_ & _ & _ & Hb0 & _ & _ & Hmerged & _).
pose proof (at_seg_segs h A _ _ _ _ _ R Hat) as Hsegs. apply Forall_app in Hsegs as [Hs1 _].
destruct (seg_totals _ Hs1) as (? & _).
unfold free. destruct (Z.eqb_spec p 0) as [|Hp]; [lia|].
rewrite (bind_returns _ _ _ _ _ (validate_rep h A R)), (bind_returns _ _ _ _ _ Eloc).
rewrite (bind_returns _ _ _ _ _ (block_at_some _ _ _ (at_seg_block h A _ _ _ _ _ R Hat))).
cbn [sealed requested span offset next check]. unfold fill. rewrite !bind_modify.
pose proof (lookup_lt_Some _ _ _ (at_seg_block h A _ _ _ _ _ R Hat)) as Hlt.
erewrite (bind_returns (set_block _ _)) by (apply set_block_eq; exact Hlt).
destruct (split_last l1) as (l1' & pre & -> & Hpre & Hlast); [by eapply merged_app_l|].
destruct (split_head l2) as (post & l2' & -> & Hpost & Hhead).
{ apply merged_app_r in Hmerged. by apply (merged_app_r [s]). }
destruct (joins_blocks h A (length A1) b p l1' pre s post l2' R Hat Hpre Hpost Hlast Hhead)
as (blocks & Erun & Hlen & Hfront & Hzero & Hsame).
assert (A = A1 ++ (b, l1' ++ (pre ++ s :: post) ++ l2') :: A2) as EA' by (rewrite EA; by rewrite <- !app_assoc).
rewrite EA' in R, B, T.
pose proof (joined_rep h A1 A2 b p l1' pre s post l2' blocks R Hu Hpre Hpost Hlast Hhead Hlen Hfront Hzero Hsame) as R2.
set (h2 := set_blocks _ blocks) in *.
destruct (return_area_good h2 A1 A2 b (l1' ++ [joined pre s post] ++ l2') R2)
as (h' & A' & Eret & Hgood & Hobj & Hmem & Herr & Hset).
- eapply backed_replace; [exact B|done|done|]. rewrite !total_app. cbn [total joined s_span]. lia.
- by destruct l1'.
- intros m Hm. by eapply tight_replace.
- exists h', A'. split; [|split; [done|split; [|split; [|split]]]].
+ rewrite <- Eret. exact (Erun (return_area (Z.of_nat (length A1)))).
+ rewrite Hobj, EA', !objects_middle. rewrite !objs_app. cbn [objs joined total s_span used s_req]. rewrite Hu.
assert (∀ l start, one_free l → objs start l = []) as Hof.
{ intros l start [->|(q & -> & Hq)]; [done|]. cbn. by rewrite Hq. }
rewrite (Hof pre), (Hof post) by done. cbn [app negb Z.eqb]. rewrite !app_nil_r. rewrite !total_app. cbn [total].
rewrite total_app in Ep. change (used (joined pre s post)) with false. cbv iota. cbn [app].
replace (b + total l1' + total pre) with p by lia. rewrite <- Es.
replace (total pre + (s_span s + total post) + 0) with (total pre + (s_span s + total post)) by lia.
rewrite !(app_assoc (objects A1)). by rewrite <- Permutation_middle.
+ rewrite Hmem. cbn. by rewrite Es.
+ rewrite Herr. done.
+ eapply settled_trans; [|exact Hset]. split; [done|]. intros _. rewrite EA'. apply shape_middle.
rewrite !total_app. cbn [total joined s_span]. lia.
Qed.

Lemma free_dead (h : heap) A p : good h A → p ≠ 0 → (∀ size, (p, size) ∉ objects A) → free p h = Faults.
Proof using.
intros [R _ _] Hp Hin. unfold free. rewrite (proj2 (Z.eqb_neq _ _) Hp).
rewrite (bind_returns _ _ _ _ _ (validate_rep h A R)). apply bind_faults. by eapply locate_dead.
Qed.
End free.
