(* ===== verification/HeapResize.v ===== *)
(** Resizing, clearing, starting and stopping.

    [realloc] changes the size in place or moves the object, [calloc] clears
    what [malloc] gives; [reist_libc_init] and [reist_libc_init_backing] lead
    from the cleared statics to a heap without objects, and
    [reist_libc_reset] leads back. *)
From S2P Require Import Prelude Heap HeapSpec HeapOps HeapFree.
Import Heap.
Local Open Scope heap_scope.

Section resize.
Context `{Platform} {W : Type} `{Provider W} `{!ProviderLaws W}.
#[local] Abbreviation heap := (heap_t W).

Definition copied (m : Z → Z) (dst src n : Z) : Z → Z :=
λ a, if (dst <=? a) && (a <? dst + n) then m (src + (a - dst)) else m a.

(** [calloc]: the state [malloc] leaves, with the bytes of the object zero. *)
Lemma calloc_rep (h : heap) A count size :
good h A → 0 <= count → 0 <= size →
∃ p h', calloc count size h = Returns p h' ∧
((p = 0 ∧ count * size = 0 ∧ h' = h) ∨ (p = 0 ∧ heap_errno h' = ENOMEM ∧ memory h' = memory h ∧ good h' A ∧ settled h A h' A ∧
  (UINTPTR_MAX < count * size ∨ full h A (count * size))) ∨
 (0 < count * size <= UINTPTR_MAX ∧ ∃ h0 A', granted h A p (count * size) h0 A' ∧
h' = set_memory h0 (wiped (memory h0) p (count * size)))).
Proof using All.
intros G Hc Hs. unfold calloc. destruct (negb (size =? 0) && _) eqn:Eo.
{ exists 0, (set_errno h ENOMEM). split; [done|]. right. left. split; [done|]. split; [done|]. split; [done|]. split.
2: { split; [by apply settled_refl|]. left. apply andb_true_iff in Eo as [Ez%negb_true_iff%Z.eqb_neq Eo%Z.ltb_lt].
pose proof (Z.mul_succ_div_gt UINTPTR_MAX size ltac:(lia)). nia. }
replace h with (set_world h (world h)) by by destruct h. apply good_errno; [apply G| |apply G].
replace (set_world h (world h)) with h by by destruct h. apply G. }
assert (count * size <= UINTPTR_MAX) as Hmax.
{ pose proof platform_width. apply andb_false_iff in Eo as [Eo|Eo].
- apply negb_false_iff, Z.eqb_eq in Eo as ->. unfold_words. lia.
- apply Z.ltb_ge in Eo. destruct (Z.eqb_spec size 0) as [->|]; [unfold_words; lia|].
pose proof (Z.mul_div_le UINTPTR_MAX size). nia. }
destruct (malloc_rep h A (count * size) G ltac:(nia)) as (p & h0 & Em & Hout).
rewrite (bind_returns _ _ _ _ _ Em).
destruct Hout as [(E0 & -> & ->)|[(? & -> & Hr)|(Hpos & A' & Hg)]]; [| destruct Hr as (? & ? & ? & ? & ?)|].
- exists 0, h. split; [done|]. by left.
- exists 0, h0. split; [done|]. right. left. repeat (split; [done|]). by right.
- destruct Hg as (G' & M & Hp & Hrest). rewrite (proj2 (Z.eqb_neq _ _) Hp).
exists p, (set_memory h0 (wiped (memory h0) p (count * size))). split; [done|]. right. right. split; [lia|].
exists h0, A'. by split.
Qed.

(** [realloc] of a live object. *)
Definition resized (h : heap) (A : list region) (p old q size : Z) (h' : heap) (A' : list region) : Prop :=
good h' A' ∧ q ≠ 0 ∧ q mod HEAP_ALIGN = 0 ∧ heap_errno h' = heap_errno h ∧ settled h A h' A' ∧
∃ rest, objects A ≡ₚ (p, old) :: rest ∧ objects A' ≡ₚ (q, size) :: rest ∧
((q = p ∧ memory h' = memory h) ∨
 (q + size <= p ∨ p + old <= q) ∧ old < size ∧ memory h' = wiped (copied (memory h) q p old) p old).

(** A new size for the block of an object. *)
Definition sized (h : heap) (s : seg) (size off nx : Z) : heap :=
set_blocks
(set_counts h (heap_capacity h) (heap_live h) (heap_bytes h - s_req s + size)
 (Z.max (heap_peak h) (heap_bytes h - s_req s + size)))
(<[s_node s := sealed (Block off (s_span s) size nx 0)]> (heap_blocks h)).

Lemma bytes_room (h : heap) A1 A2 b l1 s l2 :
rep h (A1 ++ (b, l1 ++ [s] ++ l2) :: A2) →
s_req s <= heap_bytes h ∧ heap_bytes h - s_req s + s_span s <= heap_capacity h.
Proof using.
intros R. rewrite (rep_bytes _ _ R), (rep_capacity _ _ R). pose proof (rep_segs _ _ R) as Hs.
apply Forall_app in Hs as [H1 Hs]. apply list.Forall_cons in Hs as [Hr H2]. cbn [snd] in Hr.
apply Forall_app in Hr as [Hl1 Hr]. apply Forall_app in Hr as [Hl Hl2].
destruct (rsum_bounds A1 H1) as (? & ? & _). destruct (rsum_bounds A2 H2) as (? & ? & _).
destruct (seg_totals l1 Hl1) as (? & ? & _). destruct (seg_totals l2 Hl2) as (? & ? & _).
rewrite !rsum_app. cbn [rsum snd]. rewrite !total_app, !bytes_app. cbn [total bytes_of]. lia.
Qed.

Lemma used_resize l1 s l2 size :
merged (l1 ++ [s] ++ l2) → 0 < size → merged (l1 ++ [Seg (s_node s) (s_span s) size] ++ l2).
Proof using.
intros Hm Hs. assert (used (Seg (s_node s) (s_span s) size) = true) as Hu by (apply used_seg; lia).
cbn [app] in *. apply merged_split in Hm as [Hm1 Hm2]. apply merged_split. split.
- destruct l1 as [|x l1 _] using rev_ind; [done|]. rewrite <- app_assoc in *. cbn [app] in *.
apply merged_split in Hm1 as [Hm1 _]. apply merged_split. split; [done|]. cbn. split; [by right|done].
- destruct l2 as [|t l2]; [done|]. cbn [merged] in *. split; [by left|tauto].
Qed.

Lemma sized_rep (h : heap) A1 A2 b l1 s l2 size :
rep h (A1 ++ (b, l1 ++ [s] ++ l2) :: A2) → used s = true → 0 < size <= s_span s →
rep (sized h s size (total l1) (first l2 HEAP_END)) (A1 ++ (b, l1 ++ [Seg (s_node s) (s_span s) size] ++ l2) :: A2).
Proof using.
intros R Hu Hsize. set (A := A1 ++ _ :: A2) in *.
assert (at_seg A (length A1) b l1 s l2) as Hat by (unfold at_seg, A; by rewrite list_lookup_middle).
destruct (at_seg_region h A _ _ _ _ _ R Hat) as (_ & _ & _ & _ & _ & _ & Hmerged & _).
pose proof (at_seg_segs h A _ _ _ _ _ R Hat) as Hsegs.
apply Forall_app in Hsegs as [Hl1 Hsegs]. apply list.Forall_cons in Hsegs as [(? & ? & ? & ?) Hl2].
pose proof (lookup_lt_Some _ _ _ (at_seg_block h A _ _ _ _ _ R Hat)) as Hlt.
pose proof (bytes_room h A1 A2 b l1 s l2 R). pose proof (rep_limit _ _ R). pose proof (rep_peak _ _ R).
assert (used (Seg (s_node s) (s_span s) size) = true) as Hu' by (apply used_seg; lia).
eapply (rep_replace h _ A1 A2 b l1 [s] [Seg (s_node s) (s_span s) size] l2 R); try done.
- apply R.
- apply R.
- cbn. by rewrite length_insert.
- intros j Hj _. cbn in Hj |- *. apply list_lookup_insert_ne. intros E. apply Hj. rewrite <- E. apply list_elem_of_here.
- cbn. split; [|done]. by apply list_lookup_insert_eq.
- apply NoDup_singleton.
- intros j Hj. by left.
- apply list.Forall_singleton. split_and!; cbn; (done || lia).
- apply used_resize; [done|lia].
- cbn [live_of]. rewrite Hu, Hu'. cbn. lia.
- cbn. apply R.
- cbn. lia.
- cbn [sized heap_bytes heap_peak set_blocks set_counts heap_provider]. lia.
Qed.

Lemma disjoint_perm l l' : disjoint_objects l → l ≡ₚ l' → disjoint_objects l'.
Proof using.
intros D Hp. symmetry in Hp. apply Permutation_inj in Hp as (_ & f & Hf & El).
intros i j x y Hi Hj Hij. apply (D (f i) (f j)); [by rewrite <- El|by rewrite <- El|]. intros E. by apply Hij, Hf.
Qed.

Lemma disjoint_cons x y l : disjoint_objects (x :: l) → y ∈ l → x.1 + x.2 <= y.1 ∨ y.1 + y.2 <= x.1.
Proof using. intros D [k Hk]%list_elem_of_lookup. by apply (D 0%nat (S k)). Qed.

Lemma good_memory (h : heap) A m : good h A → good (set_memory h m) A.
Proof using. intros [R B T]. split; [by eapply rep_static; [..|exact R]|exact B|exact T]. Qed.

Lemma object_address (h : heap) A p n : rep h A → (p, n) ∈ objects A → p ≠ 0 ∧ p mod HEAP_ALIGN = 0.
Proof using.
intros R (A1 & A2 & b & l1 & s & l2 & EA & _ & -> & _)%(locate_object h A p n R).
assert (at_seg A (length A1) b l1 s l2) as Hat by (unfold at_seg; rewrite EA; by rewrite list_lookup_middle).
destruct (at_seg_region h A _ _ _ _ _ R Hat) as (_ & _ & _ & Hb0 & Hb & _).
pose proof (at_seg_segs h A _ _ _ _ _ R Hat) as Hs. apply Forall_app in Hs as [Hs _].
destruct (seg_totals _ Hs) as (? & _ & _ & Hm). unfold HEAP_ALIGN in *. split; [lia|].
Z.to_euclidean_division_equations; lia.
Qed.

Lemma realloc_rep (h : heap) A p old size :
good h A → (p, old) ∈ objects A → 0 < size →
∃ q h', realloc p size h = Returns q h' ∧
((q = 0 ∧ refused h A size h') ∨ ∃ A', resized h A p old q size h' A').
Proof using All.
intros G Hin Hsize. pose proof G as [R B T]. destruct (object_address h A p old R Hin) as [Hp0 Hpa].
pose proof Hin as Hin'.
destruct (locate_object h A p old R Hin) as (A1 & A2 & b & l1 & s & l2 & EA & Hu & Ep & Es & Eloc).
assert (at_seg A (length A1) b l1 s l2) as Hat by (unfold at_seg; rewrite EA; by rewrite list_lookup_middle).
pose proof (at_seg_block h A _ _ _ _ _ R Hat) as Hblk. pose proof (lookup_lt_Some _ _ _ Hblk) as Hlt.
pose proof (at_seg_segs h A _ _ _ _ _ R Hat) as Hsegs. apply Forall_app in Hsegs as [_ Hsegs].
apply list.Forall_cons in Hsegs as [(Hsp & _ & Hreq & _) _].
unfold realloc. rewrite (proj2 (Z.eqb_neq _ _) Hp0). destruct (Z.eqb_spec size 0); [lia|].
rewrite (bind_returns _ _ _ _ _ (validate_rep h A R)), (bind_returns _ _ _ _ _ Eloc). cbn [fst].
rewrite (bind_returns _ _ _ _ _ (block_at_some _ _ _ Hblk)). cbn [sealed requested span offset next check].
destruct (Z.leb_spec size (s_span s)) as [Hle|Hgt].
- rewrite EA in R, B, T. pose proof (bytes_room h A1 A2 b l1 s l2 R) as [? ?].
pose proof (rep_limit _ _ R). pose proof (limit_bounds _ _ (rep_provider _ _ R)).
change REIST_LIBC_PROCESS_LIMIT with 536870912 in *.
pose proof (sized_rep h A1 A2 b l1 s l2 size R Hu ltac:(lia)) as R'.
exists p, (sized h s size (total l1) (first l2 HEAP_END)). split.
+ rewrite bind_modify. erewrite (bind_returns (set_block _ _)) by (apply set_block_eq; exact Hlt).
erewrite (bind_returns (seal _)) by (apply seal_eq; cbn [heap_blocks set_blocks]; by apply list_lookup_insert_eq).
rewrite bind_modify. unfold ret, sized. cbn. rewrite (u32_small size) by ulia. rewrite !u32_small by ulia.
by rewrite list_insert_insert_eq.
+ right. exists (A1 ++ (b, l1 ++ [Seg (s_node s) (s_span s) size] ++ l2) :: A2). split; [split|].
* done.
* eapply backed_replace; [exact B|done|done|]. by rewrite !total_app.
* eapply tight_replace; [exact T|]. rewrite !live_app. pose proof (live_nonneg l1). pose proof (live_nonneg l2).
cbn [live_of]. rewrite used_seg by done. lia.
* split; [done|]. split; [done|]. split; [done|]. split.
{ split; [done|]. intros _. rewrite EA. apply shape_middle. by rewrite !total_app. }
exists (objects A1 ++ objs b l1 ++ objs (b + total l1 + s_span s) l2 ++ objects A2). split; [|split; [|by left]].
{ rewrite EA, objects_middle. cbn [objs total]. rewrite Hu, <- Ep, <- Es, Z.add_0_r.
cbn [app]. rewrite !(app_assoc (objects A1)). by rewrite <- Permutation_middle. }
{ rewrite objects_middle. cbn [objs total s_req s_span]. rewrite used_seg by done.
rewrite <- Ep, Z.add_0_r. cbn [app]. rewrite !(app_assoc (objects A1)). by rewrite <- Permutation_middle. }
- destruct (malloc_rep h A size G ltac:(lia)) as (q & h0 & Em & Hout). rewrite (bind_returns _ _ _ _ _ Em).
destruct Hout as [(? & _)|[(_ & -> & Hr)|(_ & A0 & G0 & M0 & Hq & Hqa & Hobj & He & Hset0)]]; [lia|by exists 0, h0; split; [|left]|].
rewrite (proj2 (Z.eqb_neq _ _) Hq).
pose proof (good_memory h0 A0 (copied (memory h0) q p old) G0) as G1.
assert ((p, old) ∈ objects A0) as Hin0 by (rewrite Hobj; by right).
destruct (free_rep _ A0 p old G1 Hin0) as (h' & A' & Ef & G' & Hobj' & M' & He' & Hset').
exists q, h'. split; [rewrite <- Es; exact (bind_returns (free p) (λ _, ret q) _ _ _ Ef)|]. right. exists A'. split; [done|]. split; [done|]. split; [done|]. split.
{ rewrite He'. exact He. }
split; [exact (settled_trans _ _ _ _ _ _ Hset0 Hset')|].
assert (q + size <= p ∨ p + old <= q) as Hdis.
{ pose proof (disjoint_perm _ _ (rep_disjoint h0 A0 (good_rep _ _ G0)) Hobj) as D. by apply (disjoint_cons _ _ _ D) in Hin'. }
apply list_elem_of_split in Hin' as (o1 & o2 & Eo). exists (o1 ++ o2). split; [by rewrite Eo, Permutation_middle|]. split.
+ apply (Permutation_cons_inv (a := (p, old))). rewrite <- Hobj', Hobj, Eo, <- Permutation_middle. apply perm_swap.
+ right. split; [done|]. split; [lia|]. rewrite M'. cbn. by rewrite M0.
Qed.

(** ** Starting *)
Definition no_regions : list region := replicate 120 (0, []).

(** The statics of a program that has not started its heap. *)
Record cleared (h : heap) : Prop := {
cleared_blocks : heap_blocks h = replicate (Z.to_nat HEAP_SLOTS) zero_block;
cleared_areas : heap_areas h = replicate 120 zero_area;
cleared_provider : acquire (heap_provider h) = 0 ∧ provider_check h = 0;
cleared_counts : heap_initialized h = 0 ∧ heap_capacity h = 0 ∧ heap_live h = 0 ∧ heap_bytes h = 0 ∧ heap_peak h = 0;
cleared_busy : heap_busy h = 0
}.

Lemma no_regions_sums f n : f [] = 0 → rsum f (replicate n (0, [])) = 0.
Proof using. intros Hf. induction n as [|n IH]; cbn; lia. Qed.
Lemma no_regions_nodes n : rnodes (replicate n (0, [])) = [].
Proof using. by induction n. Qed.
Lemma no_regions_objects n : objects (replicate n (0, [])) = [].
Proof using. by induction n. Qed.

Lemma empty_rep (h : heap) p c :
cleared h → provider_ok p c → rep (set_initialized (set_provider h p c) 1) no_regions.
Proof using.
intros [Eb Ea _ (_ & Ec & El & Eby & Epk) Ebusy] Hp. pose proof (limit_bounds p c Hp).
assert (∀ r, r ∈ no_regions → r = (0, [])) as Hall by (intros r Hr; by apply elem_of_replicate in Hr as [-> _]).
split; cbn [heap_blocks heap_areas heap_provider provider_check heap_initialized heap_capacity heap_live heap_bytes
heap_peak heap_busy set_initialized set_provider]; rewrite ?Eb, ?Ea, ?Ec, ?El, ?Eby, ?Epk; try done.
- apply Forall2_replicate. by left.
- intros r Hr. by rewrite (Hall r Hr).
- unfold no_regions. rewrite no_regions_nodes. constructor.
- intros i b Hi _. by apply lookup_replicate_1 in Hi as [-> _].
- intros i j r q Hr _ _. apply list_elem_of_lookup_2, Hall in Hr as ->. by left.
- lia.
- lia.
Qed.

Lemma validate_cleared (h : heap) : cleared h → validate h = Returns tt h.
Proof using.
intros [_ _ [Ep Ec] (Ei & E1 & E2 & E3 & E4) Eb]. unfold validate. rewrite bind_get.
by rewrite Eb, Ei, E1, E2, E3, E4, Ep, Ec.
Qed.

(** The conditions on a caller's arena and on a caller's provider. *)
Definition arena_ok (storage cap : Z) : Prop :=
0 < storage ∧ storage mod HEAP_ALIGN = 0 ∧ HEAP_ALIGN <= cap <= REIST_LIBC_HEAP_LIMIT ∧ cap mod HEAP_ALIGN = 0 ∧
storage + cap <= UINTPTR_MAX.

Definition backing_ok (p : reist_libc_backing_t) : Prop :=
version p = REIST_LIBC_BACKING_VERSION ∧ struct_size p = backing_struct_size ∧ acquire p ≠ 0 ∧ release p ≠ 0 ∧
0 < budget p <= REIST_LIBC_PROCESS_LIMIT ∧ budget p mod HEAP_ALIGN = 0 ∧ 0 < quantum p <= 4194304 ∧
quantum p mod HEAP_ALIGN = 0.

(** The first state of a static arena. *)
Definition arena (storage cap : Z) : list region := (storage, [Seg 0 cap 0]) :: replicate 119 (0, []).

Lemma init_ok (h : heap) storage cap :
cleared h → arena_ok storage cap →
∃ h', reist_libc_init storage cap h = Returns 0 h' ∧ good h' (arena storage cap) ∧ memory h' = memory h ∧
heap_errno h' = heap_errno h ∧ heap_provider h' = heap_provider h.
Proof using.
intros C (Hs & Hsa & Hc & Hca & Hend). pose proof C as [Eb Ea [Ep Ec] (Ei & E1 & E2 & E3 & E4) Ebusy].
unfold reist_libc_init. rewrite (bind_returns _ _ _ _ _ (validate_cleared h C)), bind_get, Ei. cbn [Z.eqb negb].
change REIST_LIBC_HEAP_LIMIT with 4194304 in *. change HEAP_ALIGN with 16 in *.
rewrite (proj2 (Z.eqb_neq _ _)), Hsa, Hca by lia. destruct (Z.ltb_spec cap 16), (Z.ltb_spec 4194304 cap),
(Z.ltb_spec (UINTPTR_MAX - cap) storage); try lia. cbn [Z.eqb negb orb]. rewrite bind_modify. unfold add_area.
set (h1 := set_initialized h 1).
pose proof (empty_rep h (heap_provider h) (provider_check h) C ltac:(by left)) as R.
assert (set_initialized (set_provider h (heap_provider h) (provider_check h)) 1 = h1) as Eh by by destruct h.
rewrite Eh in R.
rewrite (bind_returns (bind (set_area _ _) _) _ _ tt
(set_counts (set_blocks (set_areas h1 (<[0%nat := sealed_area (Area storage 0 cap 0 0)]> (heap_areas h)))
(<[0%nat := sealed (Block 0 cap 0 HEAP_END 0)]> (heap_blocks h))) cap (heap_live h) (heap_bytes h) (heap_peak h))).
2: { erewrite (bind_returns (set_area _ _))
by (unfold set_area; cbn [heap_areas h1 set_initialized]; rewrite Ea, decide_True by (cbn; lia); reflexivity).
erewrite (bind_returns (set_block _ _)) by (apply (set_block_eq 0); cbn; rewrite Eb, length_replicate; change HEAP_SLOTS with 8312; lia).
erewrite (bind_returns (seal _)) by (apply (seal_eq 0); cbn [heap_blocks set_blocks]; apply list_lookup_insert_eq;
cbn; rewrite Eb, length_replicate; change HEAP_SLOTS with 8312; lia).
unfold modify. cbn [heap_blocks set_blocks heap_areas h1 set_areas set_initialized heap_capacity]. rewrite E1, Ea.
rewrite u32_small by ulia. by rewrite list_insert_insert_eq. }
eexists. split; [done|]. split; [split|done].
- eapply (rep_add h1 _ [] (replicate 119 (0, [])) storage cap 0 R); try done.
+ by cbn; rewrite E1.
+ cbn. unfold limit_of. rewrite Ep. cbn. unfold REIST_LIBC_HEAP_LIMIT. lia.
+ lia.
+ cbn [app]. change ((0, []) :: replicate 119 (0, [])) with (replicate 120 (0, []) : list region).
rewrite no_regions_nodes. by intros ?%elem_of_nil.
+ intros r Hr. cbn [app] in Hr. apply elem_of_replicate in Hr as [-> _]. by left.
- intros Hn. by destruct Hn.
- intros Hn. by destruct Hn.
Qed.

Lemma init_invalid (h : heap) storage cap :
cleared h → 0 <= storage → ¬ arena_ok storage cap → reist_libc_init storage cap h = Returns (- EINVAL) h.
Proof using.
intros C Hs0 Hn. pose proof C as [_ _ _ (Ei & _) _].
unfold reist_libc_init. rewrite (bind_returns _ _ _ _ _ (validate_cleared h C)), bind_get, Ei. cbn [Z.eqb negb].
destruct (_ || _) eqn:Eg; [done|]. exfalso. apply Hn. rewrite !orb_false_iff in Eg.
destruct Eg as (((((E1 & E2) & E3) & E4) & E5) & E6). apply negb_false_iff in E2, E5. unfold arena_ok. lia.
Qed.

Lemma started_busy (h : heap) A :
good h A → (∀ storage cap, reist_libc_init storage cap h = Returns (- EBUSY) h) ∧
(∀ p, reist_libc_init_backing p h = Returns (- EBUSY) h).
Proof using.
intros [R _ _]. split; intros; [unfold reist_libc_init|unfold reist_libc_init_backing];
by rewrite (bind_returns _ _ _ _ _ (validate_rep h A R)), bind_get, (rep_initialized _ _ R).
Qed.

Lemma init_backing_ok (h : heap) p :
cleared h → backing_ok p →
∃ h', reist_libc_init_backing (Some p) h = Returns 0 h' ∧ good h' no_regions ∧ memory h' = memory h ∧
heap_errno h' = heap_errno h ∧ heap_provider h' = p.
Proof using.
intros C (Hv & Hs & Ha & Hr & Hb & Hba & Hq & Hqa). pose proof C as [_ _ _ (Ei & _) _].
unfold reist_libc_init_backing. rewrite (bind_returns _ _ _ _ _ (validate_cleared h C)), bind_get, Ei. cbn [Z.eqb negb].
assert (provider_ok p (backing_check p)) as Hok by (right; tauto).
change REIST_LIBC_PROCESS_LIMIT with 536870912 in *. rewrite Hv, Hs, Hba, Hqa, !Z.eqb_refl.
rewrite !(proj2 (Z.eqb_neq _ 0)) by lia. destruct (Z.ltb_spec 536870912 (budget p)), (Z.ltb_spec 4194304 (quantum p)); try lia.
cbn [negb orb]. rewrite bind_modify. eexists. split; [done|].
assert (∀ r, r ∈ no_regions → r = (0, [])) as Hall by (intros r Hr'; by apply elem_of_replicate in Hr' as [-> _]).
split; [split; [by apply empty_rep| |]|done]; intros _ r Hr' Hr0; by rewrite (Hall r Hr') in *.
Qed.

Lemma init_backing_invalid (h : heap) p :
cleared h → 0 <= budget p → 0 <= quantum p → ¬ backing_ok p →
reist_libc_init_backing (Some p) h = Returns (- EINVAL) h ∧ reist_libc_init_backing None h = Returns (- EINVAL) h.
Proof using.
intros C Hb Hq Hn. pose proof C as [_ _ _ (Ei & _) _].
unfold reist_libc_init_backing. rewrite !(bind_returns _ _ _ _ _ (validate_cleared h C)), !bind_get, Ei. cbn [Z.eqb negb].
split; [|done]. destruct (_ || _) eqn:Eg; [done|]. exfalso. apply Hn. rewrite !orb_false_iff in Eg.
destruct Eg as (((((((((E1 & E2) & E3) & E4) & E5) & E6) & E7) & E8) & E9) & E10).
apply negb_false_iff in E1, E2, E7, E10. unfold backing_ok. lia.
Qed.

(** ** Counting *)
Lemma objs_sums l : ∀ start, live_of l = Z.of_nat (length (objs start l)) ∧ bytes_of l = foldr (λ o n, o.2 + n) 0 (objs start l).
Proof using.
induction l as [|s l IH]; intros start; [done|]. cbn [live_of bytes_of objs]. rewrite length_app, foldr_app.
destruct (IH (start + s_span s)) as [-> ->]. destruct (used s) eqn:Hu; cbn [length foldr snd]; [lia|].
apply negb_false_iff, Z.eqb_eq in Hu. lia.
Qed.

Lemma foldr_sum_app (l1 l2 : list (Z * Z)) :
foldr (λ o n, o.2 + n) 0 (l1 ++ l2) = foldr (λ o n, o.2 + n) 0 l1 + foldr (λ o n, o.2 + n) 0 l2.
Proof using. induction l1 as [|x l1 IH]; cbn; lia. Qed.

Lemma objects_sums A :
rsum live_of A = Z.of_nat (length (objects A)) ∧ rsum bytes_of A = foldr (λ o n, o.2 + n) 0 (objects A).
Proof using.
induction A as [|r A IH]; [done|]. cbn [rsum]. change (objects (r :: A)) with (objs r.1 r.2 ++ objects A).
rewrite length_app, foldr_sum_app. destruct (objs_sums r.2 r.1). lia.
Qed.

Lemma stats_rep (h : heap) A :
good h A →
reist_libc_stats (Some (REIST_LIBC_VERSION, stats_struct_size)) h =
Returns (inr (Stats REIST_LIBC_VERSION stats_struct_size (heap_capacity h) (Z.of_nat (length (objects A)))
(foldr (λ o n, o.2 + n) 0 (objects A)) (heap_peak h))) h.
Proof using.
intros [R _ _]. unfold reist_libc_stats. cbn [Z.eqb Pos.eqb negb orb REIST_LIBC_VERSION stats_struct_size].
rewrite (bind_returns _ _ _ _ _ (validate_rep h A R)), bind_get. destruct (objects_sums A) as [<- <-].
by rewrite (rep_live _ _ R), (rep_bytes _ _ R).
Qed.

(** ** Stopping *)
Definition inside (A : list region) (a : Z) : Prop := ∃ r, r ∈ A ∧ r.1 <= a < r.1 + total r.2.

Lemma inside_dec A a : inside A a ∨ ¬ inside A a.
Proof using.
induction A as [|r A [IH|IH]]; [right; intros (q & Hq & _); by apply elem_of_nil in Hq| |].
- left. destruct IH as (q & Hq & Hx). exists q. split; [by right|done].
- destruct (decide (r.1 <= a < r.1 + total r.2)) as [Hr|Hr]; [left; exists r; split; [apply list_elem_of_here|done]|].
right. intros (q & [->|Hq]%elem_of_cons & Hx); [done|]. apply IH. by exists q.
Qed.

Lemma reset_areas_static (h : heap) A : rep h A → acquire (heap_provider h) = 0 → ∀ n k m,
(k + n)%nat = 120%nat →
∃ m', reset_areas (Z.of_nat <$> seq k n) (set_memory h m) = Returns tt (set_memory h m') ∧
(∀ a, inside (drop k A) a → m' a = 0) ∧ (∀ a, ¬ inside (drop k A) a → m' a = m a).
Proof using.
intros R Hacq. induction n as [|n IH]; intros k m Hk.
{ exists m. split; [done|]. rewrite drop_ge by (rewrite (rep_count _ _ R); lia).
split; [intros a (r & Hr & _); by apply elem_of_nil in Hr|done]. }
destruct (rep_entry h A k R ltac:(lia)) as (a & r & Ea & Er & Hok & Ed & Hin).
cbn [seq fmap list_fmap reset_areas].
rewrite (bind_returns _ _ (set_memory h m) a (set_memory h m)) by (by apply area_at_some).
destruct (region_cases _ _ Hok) as [(-> & -> & _)|(Eb & Hpos & _ & _ & _ & _ & ->)].
- cbn [Z.eqb]. rewrite bind_ret. destruct (IH (S k) m ltac:(lia)) as (m' & E & Hz & Hs). exists m'. rewrite E, Ed.
split; [done|]. assert (∀ x, inside ((0, []) :: drop (S k) A) x ↔ inside (drop (S k) A) x) as Hi.
{ intros x. split; intros (q & Hq & Hx).
- apply elem_of_cons in Hq as [->|Hq]; [cbn in Hx; lia|by exists q].
- exists q. split; [by right|done]. }
split; intros x; rewrite Hi; auto.
- cbn [base sealed_area capacity]. rewrite (proj2 (Z.eqb_neq _ _)) by lia.
set (m1 := λ x, if (r.1 <=? x) && (x <? r.1 + total r.2) then 0 else m x).
rewrite (bind_returns _ _ (set_memory h m) tt (set_memory h m1)).
2: { rewrite bind_get. cbn [heap_provider set_memory]. by rewrite Hacq. }
destruct (IH (S k) m1 ltac:(lia)) as (m' & E & Hz & Hs). exists m'. split; [done|]. rewrite Ed. split.
+ intros x (q & Hq & Hx). destruct (inside_dec (drop (S k) A) x) as [Hin'|Hout]; [by apply Hz|].
rewrite Hs by done. apply elem_of_cons in Hq as [->|Hq]; [|exfalso; apply Hout; by exists q].
unfold m1. destruct (Z.leb_spec r.1 x), (Z.ltb_spec x (r.1 + total r.2)); (done || lia).
+ intros x Hout. rewrite Hs.
* unfold m1. destruct (Z.leb_spec r.1 x), (Z.ltb_spec x (r.1 + total r.2)); try done.
exfalso. apply Hout. exists r. split; [apply list_elem_of_here|lia].
* intros (q & Hq & Hx). apply Hout. exists q. split; [by right|done].
Qed.

Lemma reset_areas_empty (h : heap) A : rep h A → (∀ r, r ∈ A → r.2 = []) → ∀ n k,
(k + n)%nat = 120%nat → reset_areas (Z.of_nat <$> seq k n) h = Returns tt h.
Proof using.
intros R He. induction n as [|n IH]; intros k Hk; [done|].
destruct (rep_entry h A k R ltac:(lia)) as (a & r & Ea & Er & Hok & _ & Hin).
cbn [seq fmap list_fmap reset_areas]. rewrite (bind_returns _ _ _ _ _ (area_at_some _ _ _ Ea)).
destruct (region_cases _ _ Hok) as [(-> & _)|(_ & _ & _ & _ & Hne & _)]; [|by destruct (Hne (He r Hin))].
cbn [Z.eqb]. rewrite bind_ret. apply IH. lia.
Qed.

(** Without objects a region of a provider is gone and any other is one free
  segment. *)
Lemma dead_regions (h : heap) A :
good h A → objects A = [] →
∀ r, r ∈ A → r = (0, []) ∨ (acquire (heap_provider h) = 0 ∧ ∃ n, r.2 = [Seg n (total r.2) 0]).
Proof using.
intros [R _ T] Ho r Hr. pose proof Hr as Hr'. apply list_elem_of_lookup in Hr' as [i Hi].
destruct (Forall2_lookup_r _ _ _ _ _ (rep_regions _ _ R) Hi) as (a & _ & [[-> _]|(_ & _ & _ & Hne & _ & Hm & _)]); [by left|].
right. assert (live_of r.2 = 0) as Hl.
{ destruct (objs_sums r.2 r.1) as [-> _]. destruct (objs r.1 r.2) as [|o l] eqn:E; [done|]. exfalso.
assert (o ∈ objects A) as Hin; [|rewrite Ho in Hin; by apply elem_of_nil in Hin].
apply list_elem_of_join. exists (objs r.1 r.2). rewrite E. split; [apply list_elem_of_here|].
rewrite <- E. apply list_elem_of_fmap. by exists r. }
split.
- destruct (Z.eqb_spec (acquire (heap_provider h)) 0) as [|Ha]; [done|]. specialize (T Ha r Hr Hne). lia.
- destruct (merged_dead r.2 Hm Hne) as [|(s & -> & Hu)]; [lia|]. exists (s_node s).
apply negb_false_iff, Z.eqb_eq in Hu. destruct s as [k sp q]. cbn in *. subst q. by rewrite Z.add_0_r.
Qed.

Lemma reset_rep (h : heap) A :
good h A → objects A = [] →
∃ h', reist_libc_reset h = Returns 0 h' ∧ cleared h' ∧ heap_errno h' = heap_errno h ∧ world h' = world h ∧
(∀ a, inside A a → memory h' a = 0) ∧ (∀ a, ¬ inside A a → memory h' a = memory h a).
Proof using.
intros G Ho. pose proof G as [R _ T].
assert (∃ m', reset_areas all_areas h = Returns tt (set_memory h m') ∧
(∀ a, inside A a → m' a = 0) ∧ (∀ a, ¬ inside A a → m' a = memory h a)) as (m' & E & Hz & Hs).
{ assert (set_memory h (memory h) = h) as Eh by by destruct h.
destruct (Z.eqb_spec (acquire (heap_provider h)) 0) as [Ha|Ha].
- destruct (reset_areas_static h A R Ha 120 0 (memory h) ltac:(lia)) as (m' & E & Hi & Hn).
rewrite Eh in E. by exists m'.
- assert (∀ r, r ∈ A → r = (0, [])) as Hnil.
{ intros r Hr. by destruct (dead_regions h A G Ho r Hr) as [|[? _]]. }
exists (memory h). rewrite Eh. split; [|split; [|done]].
+ apply (reset_areas_empty h A R) with (n := 120%nat); [|lia]. intros r Hr. by rewrite (Hnil r Hr).
+ intros a (r & Hr & Hin). rewrite (Hnil r Hr) in Hin. cbn in Hin. lia. }
unfold reist_libc_reset. rewrite (bind_returns _ _ _ _ _ (validate_rep h A R)), bind_get.
assert (heap_live h = 0) as ->.
{ rewrite (rep_live _ _ R). destruct (objects_sums A) as [-> _]. by rewrite Ho. }
cbn [Z.eqb negb]. rewrite (bind_returns _ _ _ _ _ E), bind_modify.
eexists. split; [done|]. split; [|done]. split; try done. apply R.
Qed.

Lemma reset_busy (h : heap) A : good h A → objects A ≠ [] → reist_libc_reset h = Returns (- EBUSY) h.
Proof using.
intros [R _ _] Ho. unfold reist_libc_reset. rewrite (bind_returns _ _ _ _ _ (validate_rep h A R)), bind_get.
assert (heap_live h ≠ 0) as Hl%Z.eqb_neq.
{ rewrite (rep_live _ _ R). destruct (objects_sums A) as [-> _]. by destruct (objects A). }
by rewrite Hl.
Qed.
End resize.
