(* ===== verification/HeapSafe.v ===== *)
(** The heap on arbitrary metadata.

    Nothing is assumed of the metadata arrays but their lengths, as if stray
    writes had changed them between two calls.  [ends p Q h] says that the
    program [p] stays inside the arrays and ends, and that it satisfies [Q]
    when it returns.  Every call validates the chains first and then walks
    them; an altered block of a chain makes the call fail. *)
From S2P Require Import Prelude Heap HeapSpec.
Import Heap.
Local Open Scope heap_scope.

Section safe.
Context `{Platform} {W : Type} `{Provider W}.
#[local] Abbreviation heap := (heap_t W).

Definition ends {A} (p : M W A) (Q : A → heap → Prop) (h : heap) : Prop :=
match p h with Returns x h' => Q x h' | Faults => True | Undefined | Unfinished => False end.

Lemma ends_bind {A B} (p : M W A) (f : A → M W B) Q h : ends p (λ x, ends (f x) Q) h → ends (bind p f) Q h.
Proof using. unfold ends, bind. by destruct (p h). Qed.
Lemma ends_mono {A} (p : M W A) (Q R : A → heap → Prop) h : ends p Q h → (∀ x h', Q x h' → R x h') → ends p R h.
Proof using. unfold ends. destruct (p h); auto. Qed.
Lemma ends_seq {A B} (p : M W A) (f : A → M W B) Q R h :
ends p Q h → (∀ x h', Q x h' → ends (f x) R h') → ends (bind p f) R h.
Proof using. intros Hp Hf. apply ends_bind. by eapply ends_mono. Qed.

(** ** Array accesses *)
Definition block_index (h : heap) (i : Z) : Prop := (Z.to_nat i < length (heap_blocks h))%nat.
Definition area_index (h : heap) (i : Z) : Prop := (Z.to_nat i < length (heap_areas h))%nat.

(** What no access changes: the lengths, and that the heap has started. *)
Definition like (h h' : heap) : Prop :=
length (heap_blocks h') = length (heap_blocks h) ∧ length (heap_areas h') = length (heap_areas h) ∧
heap_initialized h' = heap_initialized h.

Lemma like_refl h : like h h.
Proof using. done. Qed.
Lemma like_trans h1 h2 h3 : like h1 h2 → like h2 h3 → like h1 h3.
Proof using. intros (?&?&?) (?&?&?). split_and!; congruence. Qed.
Lemma like_block h h' i : like h h' → block_index h i → block_index h' i.
Proof using. unfold block_index. by intros (-> & _ & _). Qed.
Lemma like_area h h' i : like h h' → area_index h i → area_index h' i.
Proof using. unfold area_index. by intros (_ & -> & _). Qed.

Lemma ends_block_at h i Q : block_index h i → (∀ b, heap_blocks h !! Z.to_nat i = Some b → Q b h) → ends (block_at i) Q h.
Proof using. intros [b Hb]%lookup_lt_is_Some_2 HQ. unfold ends, block_at. rewrite Hb. by apply HQ. Qed.
Lemma ends_area_at h i Q : area_index h i → (∀ a, heap_areas h !! Z.to_nat i = Some a → Q a h) → ends (area_at i) Q h.
Proof using. intros [a Ha]%lookup_lt_is_Some_2 HQ. unfold ends, area_at. rewrite Ha. by apply HQ. Qed.
Lemma ends_set_block h i b (Q : unit → heap → Prop) :
block_index h i → (∀ h', like h h' → heap_areas h' = heap_areas h → Q tt h') → ends (set_block i b) Q h.
Proof using.
intros Hi HQ. unfold ends, set_block. rewrite decide_True by done. apply HQ; [|done]. split_and!; [|done|done]. cbn. apply length_insert.
Qed.
Lemma ends_set_area h i a (Q : unit → heap → Prop) :
area_index h i → (∀ h', like h h' → heap_areas h' !! Z.to_nat i = Some a → Q tt h') → ends (set_area i a) Q h.
Proof using.
intros Hi HQ. unfold ends, set_area. rewrite decide_True by done. apply HQ; [|by apply list_lookup_insert_eq]. split_and!; [done| |done]. cbn. apply length_insert.
Qed.
Lemma ends_modify h f (Q : unit → heap → Prop) : Q tt (f h) → ends (modify f) Q h.
Proof using. done. Qed.
Lemma ends_get h (Q : heap → heap → Prop) : Q h h → ends get Q h.
Proof using. done. Qed.
Lemma ends_ret {A} (x : A) h (Q : A → heap → Prop) : Q x h → ends (ret x) Q h.
Proof using. done. Qed.
Lemma ends_bad {A} h (Q : A → heap → Prop) : ends bad_heap Q h.
Proof using. done. Qed.
Lemma ends_seal h i (Q : unit → heap → Prop) :
block_index h i → (∀ h', like h h' → heap_areas h' = heap_areas h → Q tt h') → ends (seal i) Q h.
Proof using. intros Hi HQ. unfold seal. apply ends_bind, ends_block_at; [done|]. intros b _. by apply ends_set_block. Qed.

(** ** Chains *)
(** The indices a walk from [at_] visits, each with a sealed block. *)
Fixpoint walk (blocks : list heap_block_t) (at_ : Z) (l : list Z) : Prop :=
match l with
| [] => at_ = HEAP_END
| x :: l =>
x = at_ ∧ at_ ≠ HEAP_END ∧
∃ b, blocks !! Z.to_nat at_ = Some b ∧ check b = block_check b ∧ walk blocks (next b) l
end.

Lemma bad_block_check b covered cap : bad_block b covered cap = false → check b = block_check b.
Proof using.
unfold bad_block. rewrite !orb_false_iff. intros (((((Hc & _) & _) & _) & _) & _). by apply negb_false_iff, Z.eqb_eq in Hc.
Qed.

Lemma ends_validate_chain h : length (heap_blocks h) = Z.to_nat HEAP_SLOTS → ∀ fuel at_ covered cap t,
0 <= t_visited t <= HEAP_SLOTS → HEAP_SLOTS - t_visited t + 1 < Z.of_nat fuel →
ends (validate_chain fuel at_ covered cap t)
(λ r h', h' = h ∧ t_visited t <= t_visited r.2 <= HEAP_SLOTS ∧ ∃ l, walk (heap_blocks h) at_ l ∧
 t_visited r.2 = t_visited t + Z.of_nat (length l) ∧ (l = [] → r.1 = covered)) h.
Proof using.
intros Hlen. induction fuel as [|fuel IH]; intros at_ covered cap t Hv Hf; [lia|]. cbn [validate_chain].
destruct (Z.eqb_spec at_ HEAP_END) as [->|Hne].
{ apply ends_ret. split; [done|]. split; [cbn; lia|]. exists []. split; [done|]. cbn. split; [lia|done]. }
destruct (Z.leb_spec HEAP_SLOTS at_); [apply ends_bad|]. destruct (Z.ltb_spec HEAP_SLOTS (t_visited t + 1)); [apply ends_bad|].
cbn [orb]. apply ends_bind, ends_block_at; [unfold block_index; rewrite Hlen; change HEAP_SLOTS with 8312 in *; lia|].
intros b Hb. destruct (bad_block b covered cap) eqn:Eb; [apply ends_bad|].
eapply ends_mono; [apply IH; cbn; lia|]. cbn [t_visited]. intros r h' (-> & Hr & l & Hw & El & _).
split; [done|]. split; [lia|]. exists (at_ :: l). split; [|split; [cbn [length]; lia|done]].
split; [done|]. split; [done|]. exists b. split; [done|]. split; [by eapply bad_block_check|done].
Qed.

(** What a walk of an accepted heap relies on. *)
Definition chained (h : heap) (a : heap_area_t) : Prop :=
base a = 0 ∨ (area_check a = area_sum a ∧ ∃ l, walk (heap_blocks h) (head a) l ∧ Z.of_nat (length l) <= HEAP_SLOTS ∧ l ≠ []).

Definition shaped (h : heap) : Prop :=
length (heap_blocks h) = Z.to_nat HEAP_SLOTS ∧ length (heap_areas h) = 120%nat ∧
(heap_initialized h = 0 → heap_areas h = replicate 120 zero_area).

Lemma ends_validate_areas h : shaped h → ∀ n k limit t,
(k + n)%nat = 120%nat → 0 <= t_visited t <= HEAP_SLOTS →
ends (validate_areas (Z.of_nat <$> seq k n) limit t)
(λ _ h', h' = h ∧ ∀ i a, (k <= i)%nat → heap_areas h !! i = Some a → chained h a) h.
Proof using.
intros (Hb & Ha & _). induction n as [|n IH]; intros k limit t Hk Hv; cbn [seq fmap list_fmap validate_areas].
{ apply ends_ret. split; [done|]. intros i a Hi Hai%lookup_lt_Some. lia. }
apply ends_bind, ends_area_at; [unfold area_index; rewrite Nat2Z.id; lia|]. rewrite Nat2Z.id. intros a Hak.
assert (∀ t', 0 <= t_visited t' <= HEAP_SLOTS → chained h a →
ends (validate_areas (Z.of_nat <$> seq (S k) n) limit t')
(λ _ h', h' = h ∧ ∀ i a, (k <= i)%nat → heap_areas h !! i = Some a → chained h a) h) as Hrest.
{ intros t' Hv' Hc. eapply ends_mono; [apply IH; [lia|done]|]. intros _ h' [-> Hall]. split; [done|].
intros i a' Hi Hai. destruct (decide (i = k)) as [->|]; [congruence|]. apply (Hall i); [lia|done]. }
destruct (Z.eqb_spec (base a) 0) as [E0|E0].
{ destruct (_ || _); [apply ends_bad|]. apply Hrest; [done|by left]. }
destruct (bad_area a limit (t_capacity t)) eqn:Eba; [apply ends_bad|].
unfold bad_area in Eba. rewrite !orb_false_iff in Eba. destruct Eba as ((((((_ & Ec) & _) & Ecap) & _) & _) & _).
apply negb_false_iff, Z.eqb_eq in Ec. apply Z.eqb_neq in Ecap.
eapply ends_seq; [apply ends_validate_chain; [done|done|]|].
{ unfold chain_fuel. cbn [t_visited]. change HEAP_SLOTS with 8312. lia. }
cbn [t_visited]. intros r h' (-> & Hr & l & Hw & El & Hnil). destruct (Z.eqb_spec r.1 (capacity a)) as [E|]; [|apply ends_bad].
apply Hrest; [lia|]. right. split; [done|]. exists l. split; [done|]. split; [lia|]. intros ->. rewrite Hnil in E by done. lia.
Qed.

Definition valid (h : heap) : Prop := shaped h ∧ ∀ i a, heap_areas h !! i = Some a → chained h a.

Lemma ends_validate h : shaped h → ends validate (λ _ h', h' = h ∧ valid h) h.
Proof using.
intros S. unfold validate. apply ends_bind, ends_get.
destruct (negb (heap_busy h =? 0)); [apply ends_bad|].
destruct (Z.eqb_spec (heap_initialized h) 0) as [E0|_].
{ destruct (_ || _); [apply ends_bad|]. apply ends_ret. split; [done|]. split; [done|]. intros i a Hi.
destruct S as (_ & _ & Hz). rewrite (Hz E0) in Hi. apply lookup_replicate_1 in Hi as [-> _]. by left. }
destruct (negb _); [apply ends_bad|]. destruct (_ && _); [apply ends_bad|]. destruct (_ && _); [apply ends_bad|].
eapply ends_seq; [apply (ends_validate_areas h S 120 0); [lia|cbn; change HEAP_SLOTS with 8312; lia]|].
intros t h' [-> Hall]. destruct (_ || _); [apply ends_bad|]. apply ends_ret. split; [done|]. split; [done|].
intros i a. apply Hall. lia.
Qed.

(** ** Walks after validation *)
Definition link (h : heap) (i : Z) : Prop := i = HEAP_END ∨ block_index h i.

Lemma walk_index blocks at_ l : walk blocks at_ l → at_ = HEAP_END ∨ (Z.to_nat at_ < length blocks)%nat.
Proof using.
destruct l as [|x l]; [by left|]. intros (_ & _ & b & Hb & _). right. by eapply lookup_lt_Some.
Qed.

Lemma ends_fit_chain h want l : ∀ fuel at_,
walk (heap_blocks h) at_ l → (length l < fuel)%nat → ends (fit_chain fuel at_ want) (λ n h', h' = h ∧ link h n) h.
Proof using.
induction l as [|x l IH]; intros fuel at_ Hw Hf; (destruct fuel as [|fuel]; [cbn in Hf; lia|]); cbn [fit_chain].
{ cbn in Hw. subst. rewrite Z.eqb_refl. apply ends_ret. by split; [|left]. }
destruct Hw as (_ & Hne & b & Hb & _ & Hw). rewrite (proj2 (Z.eqb_neq _ _) Hne).
pose proof (lookup_lt_Some _ _ _ Hb) as Hi. apply ends_bind, ends_block_at; [done|]. intros b' Hb'. simplify_eq.
destruct (_ && _); [apply ends_ret; by split; [|right]|]. apply IH; [done|]. cbn in Hf. lia.
Qed.

Lemma walk_fuel (l : list Z) : Z.of_nat (length l) <= HEAP_SLOTS → (length l < chain_fuel)%nat.
Proof using. unfold chain_fuel. lia. Qed.

Lemma ends_fit_areas h want : valid h → ∀ n k,
(k + n)%nat = 120%nat →
ends (fit_areas (Z.of_nat <$> seq k n) want)
(λ r h', h' = h ∧ (r.2 = HEAP_END ∨ block_index h r.2 ∧ area_index h r.1)) h.
Proof using.
intros [(_ & Ha & _) Hc]. induction n as [|n IH]; intros k Hk; cbn [seq fmap list_fmap fit_areas].
{ apply ends_ret. by split; [|left]. }
apply ends_bind, ends_area_at; [unfold area_index; rewrite Nat2Z.id; lia|]. rewrite Nat2Z.id. intros a Hak.
destruct (Z.eqb_spec (base a) 0) as [|E0]; [apply IH; lia|].
destruct (Hc k a Hak) as [|(_ & l & Hw & Hl & _)]; [done|].
eapply ends_seq; [apply (ends_fit_chain h want l); [done|by apply walk_fuel]|].
intros i h' [-> Hi]. destruct (Z.eqb_spec i HEAP_END) as [|Hne]; [apply IH; lia|].
apply ends_ret. split; [done|]. right. cbn. destruct Hi as [|Hi]; [done|]. split; [done|].
unfold area_index. rewrite Nat2Z.id. lia.
Qed.

Lemma ends_locate_chain h p start l : ∀ fuel at_ prev,
walk (heap_blocks h) at_ l → (length l < fuel)%nat → link h prev →
ends (locate_chain fuel p start at_ prev)
(λ r h', h' = h ∧ ∀ i q, r = Some (i, q) → block_index h i ∧ link h q ∧
 ∀ b, heap_blocks h !! Z.to_nat i = Some b → link h (next b)) h.
Proof using.
induction l as [|x l IH]; intros fuel at_ prev Hw Hf Hq; (destruct fuel as [|fuel]; [cbn in Hf; lia|]); cbn [locate_chain].
{ cbn in Hw. subst. rewrite Z.eqb_refl. apply ends_ret. done. }
destruct Hw as (_ & Hne & b & Hb & _ & Hw). rewrite (proj2 (Z.eqb_neq _ _) Hne).
pose proof (lookup_lt_Some _ _ _ Hb) as Hi. apply ends_bind, ends_block_at; [done|]. intros b' Hb'. simplify_eq.
destruct (_ && _).
- apply ends_ret. split; [done|]. intros i q [= <- <-]. split; [done|]. split; [done|]. intros b' Hb2. simplify_eq.
by apply (walk_index _ _ l).
- apply IH; [done|cbn in Hf; lia|by right].
Qed.

(** Where [free] and [realloc] find the object. *)
Definition located (h : heap) (r : Z * Z * Z) : Prop :=
let '(i, k, q) := r in
block_index h i ∧ area_index h k ∧ link h q ∧ heap_initialized h ≠ 0 ∧
(∀ b, heap_blocks h !! Z.to_nat i = Some b → link h (next b)) ∧
(∀ a, heap_areas h !! Z.to_nat k = Some a → block_index h (head a)).

Lemma ends_locate_areas h p : valid h → ∀ n k,
(k + n)%nat = 120%nat → ends (locate_areas (Z.of_nat <$> seq k n) p) (λ r h', h' = h ∧ located h r) h.
Proof using.
intros [(Hb & Ha & Hz) Hc]. induction n as [|n IH]; intros k Hk; cbn [seq fmap list_fmap locate_areas]; [apply ends_bad|].
apply ends_bind, ends_area_at; [unfold area_index; rewrite Nat2Z.id; lia|]. rewrite Nat2Z.id. intros a Hak.
destruct (Z.eqb_spec (base a) 0) as [|E0]; [apply IH; lia|]. cbn [orb].
destruct (_ || _); [apply IH; lia|].
destruct (Hc k a Hak) as [|(_ & l & Hw & Hl & Hne)]; [done|].
eapply ends_seq; [apply (ends_locate_chain h p (base a) l); [done|by apply walk_fuel|by left]|].
intros [[i q]|] h' [-> Hi]; [|apply IH; lia]. destruct (Hi i q) as (? & ? & ?); [done|].
apply ends_ret. split; [done|]. split_and!; try done.
- unfold area_index. rewrite Nat2Z.id. lia.
- intros E. rewrite (Hz E) in Hak. by apply lookup_replicate_1 in Hak as [-> _].
- rewrite Nat2Z.id. intros a' Ha'. simplify_eq. destruct l as [|x l]; [done|].
destruct Hw as (_ & _ & b & Hb' & _). by eapply lookup_lt_Some.
Qed.

(** ** Changes *)
Lemma vacant_index h : vacant_in (heap_blocks h) = HEAP_END ∨ block_index h (vacant_in (heap_blocks h)).
Proof using.
unfold vacant_in. destruct (list_find _ _) as [[i b]|] eqn:E; [right|by left].
apply list_find_Some in E as (Hi & _). unfold block_index. rewrite Nat2Z.id. by eapply lookup_lt_Some.
Qed.

Lemma ends_split_block h i want : block_index h i → ends (split_block i want) (λ _ h', like h h') h.
Proof using.
intros Hi. unfold split_block. apply ends_bind, ends_block_at; [done|]. intros b _.
destruct (span b <=? want); [apply ends_ret, like_refl|]. apply ends_bind. unfold vacant_block. apply ends_bind, ends_get, ends_ret.
destruct (vacant_index h) as [->|Hv]; [rewrite Z.eqb_refl; apply ends_bad|].
destruct (_ =? _); [apply ends_bad|]. apply ends_bind, ends_set_block; [done|]. intros h1 L1 _.
apply ends_bind, ends_seal; [by eapply like_block|]. intros h2 L2 _.
pose proof (like_trans _ _ _ L1 L2) as L. apply ends_set_block; [by eapply like_block|]. intros h3 L3 _. by eapply like_trans.
Qed.

Lemma ends_take_block h k i want size :
block_index h i → area_index h k → ends (take_block k i want size) (λ _ h', like h h') h.
Proof using.
intros Hi Hk. unfold take_block. eapply ends_seq; [by apply ends_split_block|]. intros ? h1 L1. cbv beta in L1.
apply ends_bind, ends_block_at; [by eapply like_block|]. intros b _.
apply ends_bind, ends_set_block; [by eapply like_block|]. intros h2 L2 _. pose proof (like_trans _ _ _ L1 L2) as L12.
apply ends_bind, ends_seal; [by eapply like_block|]. intros h3 L3 _. pose proof (like_trans _ _ _ L12 L3) as L13.
apply ends_bind, ends_modify. apply ends_bind, ends_area_at; [by eapply like_area in L13|]. intros a _.
apply ends_bind, ends_block_at; [by eapply like_block in L13|]. intros b' _. apply ends_ret. exact L13.
Qed.

Lemma ends_add_area h k i storage cap :
block_index h i → area_index h k →
ends (add_area k i storage cap)
(λ _ h', like h h' ∧ ∃ a, heap_areas h' !! Z.to_nat k = Some a ∧ head a = i) h.
Proof using.
intros Hi Hk. unfold add_area. apply ends_bind, ends_set_area; [done|]. intros h1 L1 E1.
apply ends_bind, ends_set_block; [by eapply like_block|]. intros h2 L2 E2. pose proof (like_trans _ _ _ L1 L2) as L12.
apply ends_bind, ends_seal; [by eapply like_block|]. intros h3 L3 E3. apply ends_modify.
split; [exact (like_trans _ _ _ L12 L3)|]. eexists. cbn [heap_areas set_counts]. rewrite E3, E2. by split.
Qed.

Lemma vacant_area_index h :
vacant_area (heap_areas h) = REIST_LIBC_BACKING_REGIONS ∨ area_index h (vacant_area (heap_areas h)).
Proof using.
unfold vacant_area. destruct (list_find _ _) as [[i b]|] eqn:E; [right|by left].
apply list_find_Some in E as (Hi & _). unfold area_index. rewrite Nat2Z.id. by eapply lookup_lt_Some.
Qed.

Lemma ends_acquire_area h want :
ends (acquire_area want)
(λ k h', like h h' ∧ (k = HEAP_END ∨
 area_index h k ∧ ∃ a, heap_areas h' !! Z.to_nat k = Some a ∧ block_index h (head a))) h.
Proof using.
assert (∀ w, ends (ret HEAP_END) (λ k h', like h h' ∧ (k = HEAP_END ∨
area_index h k ∧ ∃ a, heap_areas h' !! Z.to_nat k = Some a ∧ block_index h (head a)))
(set_busy (set_world (set_busy h 1) w) 0)) as Hnone by (intros w; apply ends_ret; by split; [|left]).
unfold acquire_area. apply ends_bind, ends_get. destruct (_ || _); [apply ends_ret; split; [apply like_refl|by left]|].
destruct (vacant_area_index h) as [E|Hk].
{ rewrite E, Z.eqb_refl. apply ends_ret. split; [apply like_refl|by left]. }
destruct (vacant_index h) as [E|Hi].
{ rewrite E, Z.eqb_refl, orb_true_r. apply ends_ret. split; [apply like_refl|by left]. }
destruct (_ || _); [apply ends_ret; split; [apply like_refl|by left]|].
apply ends_bind, ends_modify. destruct (call_acquire _ _ _ _) as [storage w]. apply ends_bind, ends_modify. apply ends_bind, ends_modify.
destruct (storage =? 0); [apply Hnone|]. destruct (_ || _); [apply ends_bad|]. destruct (existsb _ _); [apply ends_bad|].
eapply ends_seq; [by apply ends_add_area|]. intros _ h' (L & a & Ha & Eh). apply ends_ret. split; [exact L|].
right. split; [done|]. exists a. split; [done|]. by rewrite Eh.
Qed.

(** A change of blocks only. *)
Definition alike (h h' : heap) : Prop := like h h' ∧ heap_areas h' = heap_areas h.

Lemma alike_refl h : alike h h.
Proof using. by split. Qed.
Lemma alike_trans h1 h2 h3 : alike h1 h2 → alike h2 h3 → alike h1 h3.
Proof using. intros [L1 E1] [L2 E2]. split; [by eapply like_trans|congruence]. Qed.
Lemma alike_block h h' i : alike h h' → block_index h i → block_index h' i.
Proof using. intros [L _]. by apply like_block. Qed.

Lemma ends_join_next h i :
block_index h i → (∀ b, heap_blocks h !! Z.to_nat i = Some b → link h (next b)) → ends (join_next i) (λ _ h', alike h h') h.
Proof using.
intros Hi Hn. unfold join_next. apply ends_bind, ends_block_at; [done|]. intros b Hb.
destruct (Hn b Hb) as [->|Hnext]; [rewrite Z.eqb_refl; apply ends_ret, alike_refl|].
destruct (next b =? HEAP_END); [apply ends_ret, alike_refl|]. apply ends_bind, ends_block_at; [done|]. intros n _.
destruct (negb _); [apply ends_ret, alike_refl|]. apply ends_bind, ends_set_block; [done|]. intros h1 L1 E1.
apply ends_set_block; [by eapply like_block|]. intros h2 L2 E2. split; [by eapply like_trans|congruence].
Qed.

Lemma ends_join_previous h i q : block_index h i → link h q → ends (join_previous i q) (λ _ h', alike h h') h.
Proof using.
intros Hi Hq. unfold join_previous. destruct Hq as [->|Hq]; [rewrite Z.eqb_refl; apply ends_ret, alike_refl|].
destruct (q =? HEAP_END); [apply ends_ret, alike_refl|]. apply ends_bind, ends_block_at; [done|]. intros b _.
destruct (negb _); [apply ends_ret, alike_refl|]. apply ends_bind, ends_block_at; [done|]. intros b' _.
apply ends_bind, ends_set_block; [done|]. intros h1 L1 E1.
apply ends_bind, ends_seal; [by eapply like_block|]. intros h2 L2 E2. pose proof (like_trans _ _ _ L1 L2) as L12.
apply ends_set_block; [by eapply like_block|]. intros h3 L3 E3. split; [by eapply like_trans|congruence].
Qed.

Lemma ends_return_area h k :
area_index h k → (∀ a, heap_areas h !! Z.to_nat k = Some a → block_index h (head a)) →
ends (return_area k) (λ _ h', like h h') h.
Proof using.
intros Hk Hh. unfold return_area. apply ends_bind, ends_area_at; [done|]. intros a Ha.
apply ends_bind, ends_block_at; [by apply Hh|]. intros b _. apply ends_bind, ends_get.
destruct (_ && _); [|apply ends_ret, like_refl]. apply ends_bind, ends_modify.
apply ends_bind, ends_set_block; [by apply Hh|]. intros h1 L1 _.
apply ends_bind, ends_set_area; [by eapply like_area in L1|]. intros h2 L2 _.
apply ends_bind, ends_modify. apply ends_bind, ends_modify. apply ends_modify. exact (like_trans _ _ _ L1 L2).
Qed.

(** ** The calls *)
Definition safe {A} (p : M W A) : Prop := ∀ h, shaped h → ends p (λ _ h', shaped h') h.

Lemma like_shaped h h' : shaped h → like h h' → heap_initialized h ≠ 0 → shaped h'.
Proof using. intros (Hb & Ha & _) (Eb & Ea & Ei) Hi. split_and!; [congruence|congruence|]. rewrite Ei. done. Qed.

(** A call is a validation and a body that may rely on it. *)
Lemma safe_validated {A} (f : unit → M W A) :
(∀ h, valid h → ends (f tt) (λ _ h', shaped h') h) → safe (bind validate f).
Proof using. intros Hf h S. eapply ends_seq; [by apply ends_validate|]. intros [] h' [-> V]. by apply Hf. Qed.

Lemma safe_malloc size : safe (malloc size).
Proof using.
unfold malloc. apply safe_validated. intros h V. pose proof V as [S _].
destruct (size =? 0); [by apply ends_ret|]. apply ends_bind, ends_get.
destruct (Z.eqb_spec (heap_initialized h) 0) as [|Hi]; [by apply ends_ret|].
assert (∀ h', shaped h' → ends fail_nomem (λ _ h', shaped h') h') as Hfail by done.
destruct (_ || _); [by apply Hfail|].
eapply ends_seq; [by apply (ends_fit_areas h (span_of size) V 120 0)|]. intros r h' [-> Hr].
eapply (ends_seq _ _ (λ r h', like h h' ∧ (r.2 = HEAP_END ∨ block_index h r.2 ∧ area_index h r.1))).
- destruct (Z.eqb_spec r.2 HEAP_END) as [E|E]; [|apply ends_ret; split; [apply like_refl|done]].
eapply ends_seq; [apply ends_acquire_area|]. intros k h' [L Hk].
destruct (Z.eqb_spec k HEAP_END) as [|Hne]; [apply ends_ret; by split; [|left]|].
destruct Hk as [|(Hk & a & Ha & Hh)]; [done|].
apply ends_bind, ends_area_at; [by eapply like_area in L|]. intros a' Ha'. simplify_eq. apply ends_ret. split; [done|by right].
- intros r' h' [L Hr']. destruct (Z.eqb_spec r'.2 HEAP_END); [apply Hfail; by eapply like_shaped|].
destruct Hr' as [|[Hb Ha]]; [done|].
eapply ends_mono; [apply ends_take_block; [by eapply like_block|by eapply like_area in L]|].
intros ? h2 L2. cbv beta in L2. eapply like_shaped; [exact S|by eapply like_trans|done].
Qed.

Lemma safe_calloc count size : safe (calloc count size).
Proof using.
intros h S. unfold calloc. destruct (_ && _); [done|].
eapply ends_seq; [by apply safe_malloc|]. intros p h' S'. cbv beta in S'. apply ends_bind.
destruct (p =? 0); [by apply ends_ret|]. apply ends_modify. by apply ends_ret.
Qed.

Lemma safe_free p : safe (free p).
Proof using.
unfold free. destruct (p =? 0); [intros h S; by apply ends_ret|]. apply safe_validated. intros h V. pose proof V as [S _].
eapply ends_seq; [by apply (ends_locate_areas h p V 120 0)|]. intros [[i k] q] h' [-> Hl].
destruct Hl as (Hi & Hk & Hq & Hinit & Hnext & Hhead).
apply ends_bind, ends_block_at; [done|]. intros b Hb. apply ends_bind, ends_modify. apply ends_bind, ends_modify.
apply ends_bind. unfold set_block. unfold ends at 1. rewrite decide_True by done.
match goal with |- ends _ _ ?h1 => set (hs := h1) end.
assert (alike h hs) as A1.
{ split; [|done]. split_and!; [cbn; apply length_insert|done|done]. }
assert (heap_blocks hs !! Z.to_nat i = Some (Block (offset b) (span b) 0 (next b) (check b))) as Hbs.
{ cbn. by apply list_lookup_insert_eq. }
clearbody hs. pose proof (alike_block _ _ _ A1 Hi) as Hi1.
eapply ends_seq; [apply ends_join_next; [done|]|].
{ rewrite Hbs. intros b' [= <-]. destruct (Hnext b Hb) as [|Hn]; [by left|right; by eapply alike_block]. }
intros ? h1 A2. cbv beta in A2. apply ends_bind, ends_seal; [by eapply alike_block|]. intros h2 L2 E2.
assert (alike h h2) as A by (eapply alike_trans; [exact A1|eapply alike_trans; [exact A2|by split]]).
eapply ends_seq; [apply ends_join_previous; [by eapply alike_block|]|].
{ destruct Hq as [|Hq]; [by left|right; by eapply alike_block]. }
intros ? h3 A3. cbv beta in A3. pose proof (alike_trans _ _ _ A A3) as A4. pose proof A4 as [L4 E4].
eapply ends_mono; [apply ends_return_area; [by eapply like_area in L4|]|].
- rewrite E4. intros a Ha. eapply like_block; [done|]. by apply Hhead.
- intros ? h5 L5. cbv beta in L5. eapply like_shaped; [exact S|by eapply like_trans|done].
Qed.

Lemma safe_realloc p size : safe (realloc p size).
Proof using.
unfold realloc. destruct (p =? 0); [apply safe_malloc|]. destruct (size =? 0).
{ intros h S. eapply ends_seq; [by apply safe_free|]. intros ? h' S'. by apply ends_ret. }
apply safe_validated. intros h V. pose proof V as [S _].
eapply ends_seq; [by apply (ends_locate_areas h p V 120 0)|]. intros [[i k] q] h' [-> Hl].
destruct Hl as (Hi & Hk & Hq & Hinit & Hnext & Hhead). cbn [fst].
apply ends_bind, ends_block_at; [done|]. intros b Hb. destruct (size <=? span b).
- apply ends_bind, ends_modify. apply ends_bind, ends_set_block; [done|]. intros h1 L1 _.
apply ends_bind, ends_seal; [by eapply like_block in L1|]. intros h2 L2 _. apply ends_bind, ends_modify. apply ends_ret.
eapply like_shaped; [exact S|exact (like_trans _ _ _ L1 L2)|done].
- eapply ends_seq; [by apply safe_malloc|]. intros r h1 S1. cbv beta in S1. destruct (r =? 0); [by apply ends_ret|].
apply ends_bind, ends_modify. eapply ends_seq; [apply safe_free; exact S1|]. intros ? h2 S2. by apply ends_ret.
Qed.

Lemma safe_init storage cap : safe (reist_libc_init storage cap).
Proof using.
unfold reist_libc_init. apply safe_validated. intros h V. pose proof V as [S _]. apply ends_bind, ends_get.
destruct (negb _); [by apply ends_ret|]. destruct (_ || _); [by apply ends_ret|]. apply ends_bind, ends_modify.
assert (shaped (set_initialized h 1)) as S1 by (destruct S as (? & ? & _); by split_and!).
destruct S as (Hb & Ha & _).
eapply ends_seq; [apply ends_add_area; [unfold block_index; cbn; rewrite Hb; change HEAP_SLOTS with 8312; lia
|unfold area_index; cbn; rewrite Ha; lia]|].
intros ? h' [L _]. apply ends_ret. by eapply like_shaped.
Qed.

Lemma safe_init_backing p : safe (reist_libc_init_backing p).
Proof using.
unfold reist_libc_init_backing. apply safe_validated. intros h V. pose proof V as [S _]. apply ends_bind, ends_get.
destruct (negb _); [by apply ends_ret|]. destruct p as [p|]; [|by apply ends_ret]. destruct (_ || _); [by apply ends_ret|].
apply ends_bind, ends_modify, ends_ret. destruct S as (? & ? & _). by split_and!.
Qed.

Lemma ends_reset_areas n : ∀ k h, (k + n)%nat = 120%nat → length (heap_areas h) = 120%nat →
ends (reset_areas (Z.of_nat <$> seq k n)) (λ _ _, True) h.
Proof using.
induction n as [|n IH]; intros k h Hk Hl; cbn [seq fmap list_fmap reset_areas]; [done|].
apply ends_bind, ends_area_at; [unfold area_index; rewrite Nat2Z.id; lia|]. intros a _.
apply ends_bind. destruct (base a =? 0); [apply ends_ret, IH; [lia|done]|]. apply ends_bind, ends_get.
destruct (negb _); [apply ends_bad|]. apply ends_modify, IH; [lia|done].
Qed.

Lemma safe_reset : safe reist_libc_reset.
Proof using.
unfold reist_libc_reset. apply safe_validated. intros h V. pose proof V as [S _]. apply ends_bind, ends_get.
destruct (negb _); [by apply ends_ret|]. eapply ends_seq; [apply (ends_reset_areas 120 0 h); [done|apply S]|].
intros ? h' _. apply ends_bind, ends_modify, ends_ret. split; [apply length_replicate|]. by split.
Qed.

Lemma safe_stats s : safe (reist_libc_stats s).
Proof using.
intros h S. unfold reist_libc_stats. destruct s as [[v n]|]; [|by apply ends_ret]. destruct (_ || _); [by apply ends_ret|].
revert h S. apply safe_validated. intros h V. apply ends_bind, ends_get, ends_ret. apply V.
Qed.

(** ** Altered blocks *)
(** [b'] differs from [b] in one field. *)
Definition altered (b b' : heap_block_t) : Prop :=
(∃ x, x ≠ offset b ∧ b' = Block x (span b) (requested b) (next b) (check b)) ∨
(∃ x, x ≠ span b ∧ b' = Block (offset b) x (requested b) (next b) (check b)) ∨
(∃ x, x ≠ requested b ∧ b' = Block (offset b) (span b) x (next b) (check b)) ∨
(∃ x, x ≠ next b ∧ b' = Block (offset b) (span b) (requested b) x (check b)) ∨
(∃ x, x ≠ check b ∧ b' = Block (offset b) (span b) (requested b) (next b) x).

Lemma altered_check b b' : check b = block_check b → altered b b' → check b' ≠ block_check b'.
Proof using.
intros Hc Ha E. unfold block_check, lnot32 in *.
destruct Ha as [(x & Hx & ->)|[(x & Hx & ->)|[(x & Hx & ->)|[(x & Hx & ->)|(x & Hx & ->)]]]];
cbn [offset span requested next check] in *; [..|congruence]; rewrite Hc in E;
do 2 apply lxor_cancel_r in E; apply Hx; symmetry.
- by do 3 apply lxor_cancel_r in E.
- do 2 apply lxor_cancel_r in E. by apply lxor_cancel_l in E.
- apply lxor_cancel_r in E. by apply lxor_cancel_l in E.
- by apply lxor_cancel_l in E.
Qed.

(** A walk over a chain reaches a segment if the blocks before it are intact. *)
Lemma walk_reaches blocks blocks' l1 s l2 : ∀ off l,
linked blocks off (l1 ++ s :: l2) HEAP_END → Forall seg_ok (l1 ++ s :: l2) →
(∀ j, j ∈ nodes l1 → blocks' !! j = blocks !! j) → walk blocks' (first (l1 ++ s :: l2) HEAP_END) l →
∃ b, blocks' !! s_node s = Some b ∧ check b = block_check b.
Proof using.
induction l1 as [|x l1 IH]; intros off l Hl Hs Hsame Hw.
- destruct (first_not_end _ Hs ltac:(done)) as [Hne _]. destruct l as [|y l]; [done|].
destruct Hw as (_ & _ & b & Hb & Hc & _). cbn [app first] in Hb. rewrite Nat2Z.id in Hb. by exists b.
- destruct (first_not_end _ Hs ltac:(done)) as [Hne _]. destruct l as [|y l]; [done|].
destruct Hw as (_ & _ & b & Hb & _ & Hw). cbn [app first] in Hb. rewrite Nat2Z.id in Hb.
destruct Hl as [Hx Hl]. rewrite Hsame in Hb by (apply list_elem_of_here). rewrite Hx in Hb. injection Hb as <-.
cbn [sealed next] in Hw. apply list.Forall_cons in Hs as [_ Hs].
eapply IH; [exact Hl|exact Hs| |exact Hw]. intros j Hj. apply Hsame. by right.
Qed.

Lemma rnodes_at (h : heap) A i : i ∈ rnodes A → ∃ k b l1 s l2, at_seg A k b l1 s l2 ∧ s_node s = i.
Proof using.
intros (l & Hi & Hl)%list_elem_of_join. apply list_elem_of_fmap in Hl as ([b r] & -> & Hr).
apply list_elem_of_fmap in Hi as (s & -> & Hs). apply list_elem_of_split in Hs as (l1 & l2 & E).
apply list_elem_of_lookup in Hr as [k Hk]. exists k, b, l1, s, l2. split; [|done]. unfold at_seg. cbn [snd] in E. by rewrite <- E.
Qed.

Lemma at_seg_distinct (h : heap) A k b l1 s l2 : rep h A → at_seg A k b l1 s l2 → s_node s ∉ nodes l1.
Proof using.
intros R Hat Hin. apply at_index in Hat as (A1 & A2 & -> & _). pose proof (rep_nodup _ _ R) as Hn.
rewrite rnodes_app, rnodes_cons in Hn. apply list.NoDup_app in Hn as (_ & _ & Hn).
apply list.NoDup_app in Hn as (Hn & _). cbn [snd] in Hn. rewrite nodes_app in Hn.
apply list.NoDup_app in Hn as (_ & Hn & _). apply (Hn _ Hin), list_elem_of_here.
Qed.

Lemma altered_fails (h : heap) A i b b' :
rep h A → i ∈ rnodes A → heap_blocks h !! i = Some b → altered b b' →
validate (set_blocks h (<[i := b']> (heap_blocks h))) = Faults.
Proof using.
intros R Hi Hb Ha. set (h' := set_blocks h _).
destruct (rnodes_at h A i Hi) as (k & base & l1 & s & l2 & Hat & <-).
assert (shaped h') as S.
{ split; [cbn; rewrite length_insert; apply R|]. split.
- cbn. by rewrite (list.Forall2_length _ _ _ (rep_regions _ _ R)), (rep_count _ _ R).
- cbn. by rewrite (rep_initialized _ _ R). }
pose proof (ends_validate h' S) as He. unfold ends in He. destruct (validate h') as [[] h2| | |] eqn:E; try done.
destruct He as [-> [_ Hc]]. exfalso.
destruct (at_seg_region h A _ _ _ _ _ R Hat) as (a & Hak & -> & Hb0 & _).
destruct (Hc k _ Hak) as [E0|(_ & l & Hw & _)]; [cbn in E0; lia|].
pose proof (at_seg_block h A _ _ _ _ _ R Hat) as Hblk. rewrite Hblk in Hb. injection Hb as <-.
pose proof (lookup_lt_Some _ _ _ Hblk) as Hlt.
destruct (walk_reaches (heap_blocks h) (heap_blocks h') l1 s l2 0 l) as (b & Hb & Hcheck).
- apply (rep_linked _ _ R (base, l1 ++ s :: l2)). by eapply list_elem_of_lookup_2.
- by eapply at_seg_segs.
- intros j Hj. cbn. apply list_lookup_insert_ne. intros E'. apply (at_seg_distinct h A _ _ _ _ _ R Hat). by rewrite E'.
- exact Hw.
- cbn in Hb. rewrite list_lookup_insert_eq in Hb by done. injection Hb as <-. eapply altered_check; [|exact Ha|exact Hcheck]. reflexivity.
Qed.
End safe.
