(* ===== verification/HeapClient.v ===== *)
(** What a program sees of the heap.

    The abstract allocator is a finite map from the addresses of live objects
    to their bytes.  [alloc_step] says what each call may do to it; [legal]
    is what the C standard asks of the caller.  [holds] relates a heap to the
    abstract allocator, and every legal call on such a heap returns and is a
    step of the allocator. *)
From stdpp Require Import gmap.
From S2P Require Import Prelude Heap HeapSpec HeapOps HeapFree HeapResize.
Import Heap.
Local Open Scope heap_scope.

(** ** The abstract allocator *)
Inductive call :=
| Malloc (size : Z)
| Calloc (count size : Z)
| Free (p : Z)
| Realloc (p size : Z)
(** A store to a byte of an object. *)
| Store (a v : Z).

Abbreviation allocator := (gmap Z (list Z)).

Definition fresh (σ : allocator) (p n : Z) : Prop :=
  p ≠ 0 ∧ p mod HEAP_ALIGN = 0 ∧
  ∀ q l, σ !! q = Some l → p + n <= q ∨ q + Z.of_nat (length l) <= p.

Inductive alloc_step (σ : allocator) : call → Z → allocator → Prop :=
| malloc_grants n p l :
    0 < n → Z.of_nat (length l) = n → fresh σ p n → alloc_step σ (Malloc n) p (<[p := l]> σ)
| malloc_refuses n : alloc_step σ (Malloc n) 0 σ
| calloc_grants count size p :
    0 < count * size → fresh σ p (count * size) →
    alloc_step σ (Calloc count size) p (<[p := replicate (Z.to_nat (count * size)) 0]> σ)
| calloc_refuses count size : alloc_step σ (Calloc count size) 0 σ
| free_null : alloc_step σ (Free 0) 0 σ
| free_object p l : σ !! p = Some l → alloc_step σ (Free p) 0 (delete p σ)
| realloc_null n p σ' : alloc_step σ (Malloc n) p σ' → alloc_step σ (Realloc 0 n) p σ'
| realloc_zero p l : p ≠ 0 → σ !! p = Some l → alloc_step σ (Realloc p 0) 0 (delete p σ)
| realloc_refuses p l n : p ≠ 0 → σ !! p = Some l → 0 < n → alloc_step σ (Realloc p n) 0 σ
| realloc_grants p l n q l' :
    p ≠ 0 → σ !! p = Some l → 0 < n → Z.of_nat (length l') = n → fresh (delete p σ) q n →
    (∀ i, (i < length l)%nat → (i < length l')%nat → l' !! i = l !! i) →
    alloc_step σ (Realloc p n) q (<[q := l']> (delete p σ))
| store_byte p l i v :
    σ !! p = Some l → (i < length l)%nat → alloc_step σ (Store (p + Z.of_nat i) v) 0 (<[p := <[i := v]> l]> σ).

Definition legal (σ : allocator) (c : call) : Prop :=
  match c with
  | Malloc size => 0 <= size
  | Calloc count size => 0 <= count ∧ 0 <= size
  | Free p => p = 0 ∨ is_Some (σ !! p)
  | Realloc p size => 0 <= size ∧ (p = 0 ∨ is_Some (σ !! p))
  | Store a _ => ∃ p l i, σ !! p = Some l ∧ (i < length l)%nat ∧ a = p + Z.of_nat i
  end.

Section client.
Context `{Platform} {W : Type} `{Provider W} `{!ProviderLaws W}.
#[local] Abbreviation heap := (heap_t W).

Definition run_call (c : call) : M W Z :=
match c with
| Malloc size => malloc size
| Calloc count size => calloc count size
| Free p => free p;;; ret 0
| Realloc p size => realloc p size
| Store a v => fill a v 1;;; ret 0
end.

(** ** The bytes of objects *)
Definition bytes (m : Z → Z) (p n : Z) : list Z := (λ i, m (p + Z.of_nat i)) <$> seq 0 (Z.to_nat n).

Definition shows (os : list (Z * Z)) (m : Z → Z) (σ : allocator) : Prop :=
∀ p l, σ !! p = Some l ↔ ∃ n, (p, n) ∈ os ∧ l = bytes m p n.

(** The two ways to start a heap. *)
Inductive start :=
| Arena (storage cap : Z)
| Backed (p : reist_libc_backing_t).

Definition start_ok (s : start) : Prop :=
match s with Arena storage cap => arena_ok storage cap | Backed p => backing_ok p end.
Definition run_start (s : start) : M W Z :=
match s with Arena storage cap => reist_libc_init storage cap | Backed p => reist_libc_init_backing (Some p) end.

(** What stays as it was at the start. *)
Definition started (s : start) (h : heap) (A : list region) : Prop :=
match s with
| Arena storage cap => acquire (heap_provider h) = 0 ∧ shape A = shape (arena storage cap)
| Backed p => heap_provider h = p
end.

Lemma started_settled s h A h' A' : settled h A h' A' → started s h A → started s h' A'.
Proof using.
intros [Ep Es] Hs. destruct s; cbn in *; [|congruence]. destruct Hs as [Ha E]. rewrite Ep, Es by done. done.
Qed.

(** The heap was started by [s] and shows [σ]. *)
Definition holds (s : start) (h : heap) (σ : allocator) : Prop :=
∃ A, good h A ∧ shows (objects A) (memory h) σ ∧ started s h A.

Lemma bytes_length m p n : length (bytes m p n) = Z.to_nat n.
Proof using. unfold bytes. by rewrite length_fmap, length_seq. Qed.

Lemma bytes_lookup m p n i : (i < Z.to_nat n)%nat → bytes m p n !! i = Some (m (p + Z.of_nat i)).
Proof using. intros Hi. unfold bytes. rewrite list_lookup_fmap, lookup_seq_lt by done. done. Qed.

Lemma bytes_ext m m' p n : (∀ a, p <= a < p + n → m a = m' a) → bytes m p n = bytes m' p n.
Proof using.
intros E. apply list_eq. intros i. destruct (decide (i < Z.to_nat n)%nat) as [Hi|Hi].
- rewrite !bytes_lookup by done. f_equal. apply E. lia.
- rewrite !lookup_ge_None_2 by (rewrite bytes_length; lia). done.
Qed.

(** A permutation of the objects with the same bytes shows the same map. *)
Lemma shows_insert os os' m m' σ p n :
shows os m σ → os' ≡ₚ (p, n) :: os → (∀ k, (p, k) ∉ os) →
(∀ q k, (q, k) ∈ os → bytes m' q k = bytes m q k) → shows os' m' (<[p := bytes m' p n]> σ).
Proof using.
intros S Ho Hp Hm q l. destruct (decide (q = p)) as [->|Hne].
- rewrite lookup_insert_eq. split.
+ intros [= <-]. exists n. split; [rewrite Ho; apply list_elem_of_here|done].
+ intros (k & Hk & ->). rewrite Ho in Hk. apply elem_of_cons in Hk as [[= ->]|Hk]; [done|by destruct (Hp k)].
- rewrite lookup_insert_ne by done. rewrite (S q l). split; intros (k & Hk & ->); exists k.
+ split; [rewrite Ho; by right|]. by rewrite Hm.
+ rewrite Ho in Hk. apply elem_of_cons in Hk as [[= -> ->]|Hk]; [done|]. by rewrite Hm.
Qed.

Lemma shows_delete os os' m m' σ p n :
shows os m σ → os ≡ₚ (p, n) :: os' → (∀ k, (p, k) ∉ os') →
(∀ q k, (q, k) ∈ os' → bytes m' q k = bytes m q k) → shows os' m' (delete p σ).
Proof using.
intros S Ho Hp Hm q l. destruct (decide (q = p)) as [->|Hne].
- rewrite lookup_delete_eq. split; [done|]. intros (k & Hk & _). by destruct (Hp k).
- rewrite lookup_delete_ne by done. rewrite (S q l). split; intros (k & Hk & ->); exists k.
+ rewrite Ho in Hk. apply elem_of_cons in Hk as [[= -> ->]|Hk]; [done|]. by rewrite Hm.
+ split; [rewrite Ho; by right|]. by rewrite Hm.
Qed.

(** Facts on a list of objects given by a head and the others. *)
Lemma head_apart (h : heap) A p n rest :
rep h A → objects A ≡ₚ (p, n) :: rest →
0 < n ∧ (∀ k, (p, k) ∉ rest) ∧ ∀ q k, (q, k) ∈ rest → 0 < k ∧ (p + n <= q ∨ q + k <= p).
Proof using.
intros R Ho. pose proof (disjoint_perm _ _ (rep_disjoint h A R) Ho) as D.
assert (0 < n) as Hn by (apply (objects_positive h A p n R); rewrite Ho; apply list_elem_of_here).
assert (∀ q k, (q, k) ∈ rest → 0 < k) as Hpos.
{ intros q k Hq. apply (objects_positive h A q k R). rewrite Ho. by right. }
split; [done|]. split.
- intros k Hk. pose proof (disjoint_cons _ _ _ D Hk) as Hd. cbn in Hd. specialize (Hpos p k Hk). lia.
- intros q k Hq. split; [by eapply Hpos|]. by apply (disjoint_cons _ _ _ D) in Hq.
Qed.

Lemma wiped_bytes m p n q k : q + k <= p ∨ p + n <= q → bytes (wiped m p n) q k = bytes m q k.
Proof using.
intros Hd. apply bytes_ext. intros a Ha. unfold wiped.
destruct (Z.leb_spec p a), (Z.ltb_spec a (p + n)); try done. lia.
Qed.

Lemma bytes_wiped m p n : bytes (wiped m p n) p n = replicate (Z.to_nat n) 0.
Proof using.
apply list_eq. intros i. destruct (decide (i < Z.to_nat n)%nat) as [Hi|Hi].
- rewrite bytes_lookup, lookup_replicate_2 by done. f_equal. unfold wiped.
destruct (Z.leb_spec p (p + Z.of_nat i)), (Z.ltb_spec (p + Z.of_nat i) (p + n)); try done; lia.
- rewrite !lookup_ge_None_2; [done|rewrite length_replicate; lia|rewrite bytes_length; lia].
Qed.

Lemma shows_fresh (h : heap) A os m σ p n :
rep h A → objects A ≡ₚ (p, n) :: os → shows os m σ → p ≠ 0 → p mod HEAP_ALIGN = 0 → fresh σ p n.
Proof using.
intros R Ho S Hp Hpa. destruct (head_apart h A p n _ R Ho) as (_ & _ & Hd). split; [done|]. split; [done|].
intros q l (k & Hq & ->)%S. destruct (Hd q k Hq). rewrite bytes_length. lia.
Qed.

Lemma shows_object (h : heap) A m σ p :
rep h A → shows (objects A) m σ → is_Some (σ !! p) → ∃ n rest, objects A ≡ₚ (p, n) :: rest ∧ σ !! p = Some (bytes m p n).
Proof using.
intros R S [l Hl]. pose proof Hl as Hl'. apply S in Hl' as (n & Hin & ->).
apply list_elem_of_split in Hin as (o1 & o2 & E). exists n, (o1 ++ o2). split; [|done]. rewrite E. by rewrite Permutation_middle.
Qed.

(** ** Every legal call is a step *)
Definition simulated (s : start) (h : heap) (σ : allocator) (c : call) : Prop :=
∃ r h' σ', run_call c h = Returns r h' ∧ alloc_step σ c r σ' ∧ holds s h' σ'.

Lemma simulate_malloc s h σ size : holds s h σ → 0 <= size → simulated s h σ (Malloc size).
Proof using All.
intros (A & G & S & St) Hsize. destruct (malloc_rep h A size G Hsize) as (p & h' & E & Hout).
destruct Hout as [(-> & -> & ->)|[(_ & -> & Hr)|(Hpos & A' & Hg)]].
- exists 0, h, σ. split; [done|]. split; [constructor|exists A; by split_and!].
- destruct Hr as (G' & M & _ & _ & Hset). exists 0, h', σ. split; [done|]. split; [constructor|]. exists A.
rewrite M. split; [done|]. split; [done|by eapply started_settled].
- destruct Hg as (G' & M & Hp & Hpa & Ho & _ & Hset). exists p, h', (<[p := bytes (memory h') p size]> σ).
destruct (head_apart h' A' p size _ (good_rep _ _ G') Ho) as (_ & Hn & Hd).
split; [done|]. split.
+ constructor; [done|rewrite bytes_length; lia|by eapply shows_fresh; [apply G'|exact Ho|..]].
+ exists A'. split; [done|]. split; [|by eapply started_settled].
eapply shows_insert; [exact S|done|done|]. intros q k _. by rewrite M.
Qed.

Lemma simulate_calloc s h σ count size : holds s h σ → 0 <= count → 0 <= size → simulated s h σ (Calloc count size).
Proof using All.
intros (A & G & S & St) Hc Hs. destruct (calloc_rep h A count size G Hc Hs) as (p & h' & E & Hout).
destruct Hout as [(-> & _ & ->)|[(-> & _ & M & G' & Hset & _)|(Hpos & h0 & A' & Hg & Eh)]].
- exists 0, h, σ. split; [done|]. split; [constructor|exists A; by split_and!].
- exists 0, h', σ. split; [done|]. split; [constructor|]. exists A. rewrite M. split; [done|]. split; [done|by eapply started_settled].
- destruct Hg as (G' & M & Hp & Hpa & Ho & _ & Hset).
destruct (head_apart h0 A' p _ _ (good_rep _ _ G') Ho) as (_ & Hn & Hd).
exists p, h', (<[p := replicate (Z.to_nat (count * size)) 0]> σ). split; [done|]. split.
+ constructor; [lia|by eapply shows_fresh; [apply G'|exact Ho|..]].
+ exists A'. split; [rewrite Eh; by apply good_memory|].
split; [|eapply started_settled; [|exact St]; by rewrite Eh].
assert (memory h' = wiped (memory h0) p (count * size)) as Em by by rewrite Eh.
rewrite <- (bytes_wiped (memory h0) p), <- Em. eapply shows_insert; [exact S|done|done|].
intros q k Hq. rewrite Em, M. apply wiped_bytes. destruct (Hd q k Hq). lia.
Qed.

Lemma simulate_freed s h σ A p n rest h' A' :
good h A → shows (objects A) (memory h) σ → started s h A → objects A ≡ₚ (p, n) :: rest → freed h A p n h' A' →
holds s h' (delete p σ).
Proof using.
intros G S St Ho (G' & Ho' & M & _ & Hset). destruct (head_apart h A p n _ (good_rep _ _ G) Ho') as (_ & Hn & Hd).
exists A'. split; [done|]. split; [|by eapply started_settled]. eapply shows_delete; [exact S|exact Ho'|done|].
intros q k Hq. rewrite M. apply wiped_bytes. destruct (Hd q k Hq). lia.
Qed.

Lemma simulate_free_object s h σ p :
holds s h σ → is_Some (σ !! p) → ∃ h', free p h = Returns tt h' ∧ holds s h' (delete p σ).
Proof using All.
intros (A & G & S & St) Hp. destruct (shows_object h A _ σ p (good_rep _ _ G) S Hp) as (n & rest & Ho & _).
destruct (free_rep h A p n G) as (h' & A' & E & Hf); [rewrite Ho; apply list_elem_of_here|].
exists h'. split; [done|]. by eapply simulate_freed.
Qed.

Lemma object_nonzero h A σ p : good h A → shows (objects A) (memory h) σ → is_Some (σ !! p) → p ≠ 0.
Proof using.
intros G S Hp. destruct (shows_object h A _ σ p (good_rep _ _ G) S Hp) as (n & rest & Ho & _).
eapply object_address; [apply G|]. rewrite Ho. apply list_elem_of_here.
Qed.

Lemma simulate_free s h σ p : holds s h σ → p = 0 ∨ is_Some (σ !! p) → simulated s h σ (Free p).
Proof using All.
intros Hh [->|Hp].
- exists 0, h, σ. split; [done|]. split; [constructor|done].
- destruct (simulate_free_object s h σ p Hh Hp) as (h' & E & Hh'). destruct Hp as [l Hl].
exists 0, h', (delete p σ). split; [|split; [by econstructor|done]].
unfold run_call. by rewrite (bind_returns _ _ _ _ _ E).
Qed.

(** The bytes at the new address of a moved object. *)
Lemma copied_lookup m q p old n i :
q + n <= p ∨ p + old <= q → old <= n → (i < Z.to_nat old)%nat →
bytes (wiped (copied m q p old) p old) q n !! i = bytes m p old !! i.
Proof using.
intros Hd Hle Hi. rewrite !bytes_lookup by lia. f_equal. unfold wiped, copied.
destruct (Z.leb_spec p (q + Z.of_nat i)), (Z.ltb_spec (q + Z.of_nat i) (p + old)); cbn [andb]; try lia;
destruct (Z.leb_spec q (q + Z.of_nat i)), (Z.ltb_spec (q + Z.of_nat i) (q + old)); cbn [andb]; try lia; f_equal; lia.
Qed.

Lemma shows_rest os rest m σ p n :
shows os m σ → os ≡ₚ (p, n) :: rest → (∀ k, (p, k) ∉ rest) → shows rest m (delete p σ).
Proof using. intros S Ho Hn. by eapply shows_delete. Qed.

Lemma simulate_resized s h σ A p n q size rest h' A' :
good h A → shows (objects A) (memory h) σ → started s h A → objects A ≡ₚ (p, n) :: rest → p ≠ 0 → 0 < size →
resized h A p n q size h' A' → ∃ σ', alloc_step σ (Realloc p size) q σ' ∧ holds s h' σ'.
Proof using.
intros G S St Ho Hp Hsize (G' & Hq & Hqa & _ & Hset & rest' & Ho1 & Ho2 & Hcase).
assert (rest ≡ₚ rest') as Hr by (apply (Permutation_cons_inv (a := (p, n))); by rewrite <- Ho).
destruct (head_apart h A p n rest (good_rep _ _ G) Ho) as (Hn0 & Hnot & Hd).
pose proof (shows_rest _ _ _ _ _ _ S Ho Hnot) as Srest.
assert (objects A' ≡ₚ (q, size) :: rest) as Ho2' by (by rewrite Ho2, Hr).
destruct (head_apart h' A' q size rest (good_rep _ _ G') Ho2') as (_ & Hnot' & Hd').
assert (σ !! p = Some (bytes (memory h) p n)) as Hl.
{ apply S. exists n. split; [|done]. rewrite Ho. apply list_elem_of_here. }
exists (<[q := bytes (memory h') q size]> (delete p σ)). split.
- eapply realloc_grants; [done|exact Hl|done|rewrite bytes_length; lia|by eapply shows_fresh; [apply G'|exact Ho2'|..]|].
rewrite !bytes_length. intros i Hi Hi'. destruct Hcase as [[-> ->]|(Hdis & Hlt & ->)].
+ by rewrite !bytes_lookup.
+ apply copied_lookup; [done|lia|done].
- exists A'. split; [done|]. split; [|by eapply started_settled]. eapply shows_insert; [exact Srest|exact Ho2'|done|].
intros a k Ha. destruct Hcase as [[-> ->]|(_ & Hlt & ->)]; [done|].
destruct (Hd a k Ha). destruct (Hd' a k Ha). rewrite wiped_bytes by lia.
apply bytes_ext. intros x Hx. unfold copied. destruct (Z.leb_spec q x), (Z.ltb_spec x (q + n)); try done. lia.
Qed.

Lemma simulate_realloc s h σ p size :
holds s h σ → 0 <= size → p = 0 ∨ is_Some (σ !! p) → simulated s h σ (Realloc p size).
Proof using All.
intros Hh Hsize [->|Hp].
{ destruct (simulate_malloc s h σ size Hh Hsize) as (r & h' & σ' & E & Hs & Hh'). exists r, h', σ'.
split; [done|]. split; [by constructor|done]. }
pose proof Hh as (A & G & S & St). pose proof (object_nonzero h A σ p G S Hp) as Hp0.
destruct (Z.eqb_spec size 0) as [->|Hs0].
{ destruct (simulate_free_object s h σ p Hh Hp) as (h' & E & Hh'). destruct Hp as [l Hl].
exists 0, h', (delete p σ). split; [|split; [by econstructor|done]].
unfold run_call, realloc. rewrite (proj2 (Z.eqb_neq _ _) Hp0). cbn [Z.eqb]. by rewrite (bind_returns _ _ _ _ _ E). }
destruct (shows_object h A _ σ p (good_rep _ _ G) S Hp) as (n & rest & Ho & Hl).
destruct (realloc_rep h A p n size G) as (q & h' & E & [[-> Hr]|(A' & Hr)]);
[rewrite Ho; apply list_elem_of_here|lia| |].
- destruct Hr as (G' & M & _ & _ & Hset). exists 0, h', σ. split; [done|]. split; [econstructor; [done|done|lia]|].
exists A. rewrite M. split; [done|]. split; [done|by eapply started_settled].
- destruct (simulate_resized s h σ A p n q size rest h' A' G S St Ho Hp0 ltac:(lia) Hr) as (σ' & Hs & Hh').
by exists q, h', σ'.
Qed.

Lemma simulate_store s h σ a v :
holds s h σ → (∃ p l i, σ !! p = Some l ∧ (i < length l)%nat ∧ a = p + Z.of_nat i) → simulated s h σ (Store a v).
Proof using.
intros (A & G & S & St) (p & l & i & Hl & Hi & ->).
destruct (shows_object h A _ σ p (good_rep _ _ G) S ltac:(by exists l)) as (n & rest & Ho & Hl').
rewrite Hl in Hl'. injection Hl' as ->. destruct (head_apart h A p n rest (good_rep _ _ G) Ho) as (Hn0 & Hnot & Hd).
rewrite bytes_length in Hi.
set (m' := λ x, if (p + Z.of_nat i <=? x) && (x <? p + Z.of_nat i + 1) then v else memory h x).
exists 0, (set_memory h m'), (<[p := <[i := v]> (bytes (memory h) p n)]> σ).
split; [done|]. split; [constructor; [done|by rewrite bytes_length]|].
exists A. split; [by apply good_memory|]. split; [|exact St]. cbn [memory set_memory].
assert (<[i := v]> (bytes (memory h) p n) = bytes m' p n) as ->.
{ apply list_eq. intros j. destruct (decide (j < Z.to_nat n)%nat) as [Hj|Hj].
- rewrite (bytes_lookup m') by done. unfold m'. destruct (decide (j = i)) as [->|Hne].
+ rewrite list_lookup_insert_eq by (by rewrite bytes_length). f_equal.
  by rewrite Z.leb_refl, (proj2 (Z.ltb_lt _ _)) by lia.
+ rewrite list_lookup_insert_ne, bytes_lookup by done. f_equal.
  destruct (Z.leb_spec (p + Z.of_nat i) (p + Z.of_nat j)), (Z.ltb_spec (p + Z.of_nat j) (p + Z.of_nat i + 1)); try done. lia.
- rewrite !lookup_ge_None_2; [done|rewrite bytes_length; lia|rewrite length_insert, bytes_length; lia]. }
rewrite <- insert_delete_eq.
eapply shows_insert; [by eapply shows_rest|exact Ho|done|].
intros q k Hq. destruct (Hd q k Hq). apply bytes_ext. intros x Hx. unfold m'.
destruct (Z.leb_spec (p + Z.of_nat i) x), (Z.ltb_spec x (p + Z.of_nat i + 1)); try done. lia.
Qed.

Lemma simulate s h σ c : holds s h σ → legal σ c → simulated s h σ c.
Proof using All.
intros Hh. destruct c; cbn [legal].
- by apply simulate_malloc.
- intros [? ?]. by apply simulate_calloc.
- by apply simulate_free.
- intros [? ?]. by apply simulate_realloc.
- by apply simulate_store.
Qed.

(** ** Programs *)
(** A program picks its next call from the calls and results so far. *)
Abbreviation trace := (list (call * Z)).

Fixpoint run_client (client : trace → call) (n : nat) (t : trace) : M W trace :=
match n with
| O => ret t
| S n => r <- run_call (client t);; run_client client n (t ++ [(client t, r)])
end.

Inductive allocates : trace → allocator → Prop :=
| allocates_nothing : allocates [] ∅
| allocates_more t σ c r σ' : allocates t σ → alloc_step σ c r σ' → allocates (t ++ [(c, r)]) σ'.

(** The live objects, read off the calls and their results. *)
Definition granted_to (live : gset Z) (r : Z) : gset Z := if r =? 0 then live else {[r]} ∪ live.
Definition live_after (live : gset Z) (step : call * Z) : gset Z :=
match step with
| (Malloc _, r) | (Calloc _ _, r) => granted_to live r
| (Free p, _) => live ∖ {[p]}
| (Realloc p size, r) =>
    if p =? 0 then granted_to live r
    else if size =? 0 then live ∖ {[p]}
    else if r =? 0 then live
    else {[r]} ∪ live ∖ {[p]}
| (Store _ _, _) => live
end.
Definition live (t : trace) : gset Z := foldl live_after ∅ t.

Lemma granted_to_dom (σ : allocator) p l : p ≠ 0 → dom (<[p := l]> σ) = granted_to (dom σ) p.
Proof using. intros Hp. unfold granted_to. rewrite (proj2 (Z.eqb_neq _ _) Hp). apply dom_insert_L. Qed.

Lemma alloc_step_live σ c r σ' :
σ !! 0 = None → alloc_step σ c r σ' → σ' !! 0 = None ∧ dom σ' = live_after (dom σ) (c, r).
Proof using.
intros Hz Hs. induction Hs as [n p l ? ? [Hp _]|n|count size p ? [Hp _]|count size| |p l Hp|n p σ' Hs IH|p l ? Hp
  |p l n ? Hp ?|p l n q l' ? Hp ? ? [Hq _] ?|p l i v Hp Hi]; cbn [live_after].
- rewrite lookup_insert_ne by done. split; [done|by apply granted_to_dom].
- done.
- rewrite lookup_insert_ne by done. split; [done|by apply granted_to_dom].
- done.
- split; [done|]. apply not_elem_of_dom in Hz. set_solver.
- rewrite dom_delete_L. split; [|done]. apply lookup_delete_None. by right.
- cbn [Z.eqb]. by apply IH.
- rewrite (proj2 (Z.eqb_neq p 0)) by done. cbn [Z.eqb]. rewrite dom_delete_L. split; [|done]. apply lookup_delete_None. by right.
- rewrite (proj2 (Z.eqb_neq p 0)), (proj2 (Z.eqb_neq n 0)) by lia. done.
- rewrite (proj2 (Z.eqb_neq p 0)), (proj2 (Z.eqb_neq n 0)), (proj2 (Z.eqb_neq q 0)) by lia.
  rewrite lookup_insert_ne, dom_insert_L, dom_delete_L by done. split; [|done]. apply lookup_delete_None. by right.
- assert (p ≠ 0) as Hp0 by congruence. rewrite lookup_insert_ne by done. split; [done|].
  rewrite dom_insert_L. apply elem_of_dom_2 in Hp. set_solver.
Qed.

(** Every run of the abstract allocator with this trace ends in these objects. *)
Lemma allocates_live t σ : allocates t σ → σ !! 0 = None ∧ dom σ = live t.
Proof using.
induction 1 as [|t σ c r σ' _ [Hz Hd] Hs]; [done|].
unfold live. rewrite foldl_app. cbn [foldl]. fold (live t). rewrite <- Hd. by apply alloc_step_live.
Qed.

(** The program keeps to the rules, whatever the allocator answers. *)
Definition well_behaved (client : trace → call) : Prop := ∀ t σ, allocates t σ → legal σ (client t).

Lemma run_client_simulates s client n : ∀ h t σ,
well_behaved client → holds s h σ → allocates t σ →
∃ t' h' σ', run_client client n t h = Returns t' h' ∧ allocates t' σ' ∧ holds s h' σ'.
Proof using All.
induction n as [|n IH]; intros h t σ Hw Hh Ht; [by exists t, h, σ|]. cbn [run_client].
destruct (simulate s h σ (client t) Hh (Hw t σ Ht)) as (r & h1 & σ1 & E & Hs & Hh1).
rewrite (bind_returns _ _ _ _ _ E). by apply (IH _ _ σ1); [| |econstructor].
Qed.

Lemma start_holds s h : cleared h → start_ok s → ∃ h', run_start s h = Returns 0 h' ∧ holds s h' ∅.
Proof using.
intros C Hs. destruct s as [storage cap|p].
- destruct (init_ok h storage cap C Hs) as (h' & E & G & _ & _ & Ep). exists h'. split; [done|].
exists (arena storage cap). split; [done|]. split; [|split; [rewrite Ep; apply C|done]]. intros p l. rewrite lookup_empty. split; [done|].
intros (n & Hn & _). change (objects (arena storage cap)) with (objects (replicate 119 (0, []))) in Hn.
rewrite no_regions_objects in Hn. by apply elem_of_nil in Hn.
- destruct (init_backing_ok h p C Hs) as (h' & E & G & _ & _ & Ep). exists h'. split; [done|].
exists no_regions. split; [done|]. split; [|exact Ep]. intros q l. rewrite lookup_empty. split; [done|].
intros (n & Hn & _). unfold no_regions in Hn. rewrite no_regions_objects in Hn. by apply elem_of_nil in Hn.
Qed.
End client.
