(* ===== verification/HeapProps.v ===== *)
(** Properties of the user-space heap. *)
From stdpp Require Import gmap.
From S2P Require Import Prelude Heap HeapSpec HeapOps HeapFree HeapResize HeapSafe HeapClient.
Import Heap.
Local Open Scope heap_scope.

Section properties.
Context `{Platform} {W : Type} `{Provider W} `{!ProviderLaws W}.
#[local] Abbreviation heap := (heap_t W).

(** ** Room *)
Lemma malloc_room (h : heap) A size :
good h A → 0 < size → ¬ full h A size → ∃ p h' A', malloc size h = Returns p h' ∧ granted h A p size h' A'.
Proof using All.
intros G Hs Hn. destruct (malloc_rep h A size G ltac:(lia)) as (p & h' & E & [(? & _)|[(_ & _ & Hr)|(_ & A' & Hg)]]).
- lia.
- destruct Hr as (_ & _ & _ & Hf & _). by destruct Hn.
- by exists p, h', A'.
Qed.

Lemma realloc_dead (h : heap) A p size :
good h A → p ≠ 0 → (∀ n, (p, n) ∉ objects A) → realloc p size h = Faults.
Proof using.
intros G Hp Hn. pose proof G as [R _ _]. unfold realloc. rewrite (proj2 (Z.eqb_neq _ _) Hp).
destruct (size =? 0); [apply bind_faults; by eapply free_dead|].
rewrite (bind_returns _ _ _ _ _ (validate_rep h A R)). apply bind_faults. by eapply locate_dead.
Qed.

Lemma shows_empty (A : list region) m : shows (objects A) m ∅ → objects A = [].
Proof using.
intros S. destruct (objects A) as [|[p n] l]; [done|]. exfalso.
assert ((∅ : allocator) !! p = Some (bytes m p n)) as E; [|by rewrite lookup_empty in E].
apply S. exists n. split; [apply list_elem_of_here|done].
Qed.

(** The regions of an arena without objects. *)
Lemma arena_regions (h : heap) A storage cap :
good h A → objects A = [] → 0 < storage → shape A = shape (arena storage cap) →
∃ n rest, A = (storage, [Seg n cap 0]) :: rest ∧ (∀ r, r ∈ rest → r.1 = 0 ∧ total r.2 = 0).
Proof using.
intros G Ho Hs Hshape. destruct A as [|[b l] rest]; [done|].
injection Hshape as -> Ht Hrest. cbn [total s_span] in Ht.
change (shape rest = shape (replicate 119 (0, []))) in Hrest.
destruct (dead_regions h _ G Ho (storage, l)) as [E|[_ [n E]]]; [apply list_elem_of_here|injection E; lia|].
cbn [snd] in E. exists n, rest. split; [by rewrite E, Ht, Z.add_0_r|].
intros r Hr. assert ((r.1, total r.2) ∈ shape rest) as Hin by (apply list_elem_of_fmap; by exists r).
rewrite Hrest in Hin. apply list_elem_of_fmap in Hin as (q & Eq & Hq).
apply elem_of_replicate in Hq as [-> _]. by injection Eq.
Qed.

Lemma arena_object (A : list region) storage cap p :
shape A = shape (arena storage cap) → 0 < cap → Forall (λ r : region, Forall seg_ok r.2) A →
(p, cap) ∈ objects A → p = storage.
Proof using.
intros Hshape Hc Hs (i & b & l1 & s & l2 & Hat & Hu & -> & E)%objects_elem. unfold at_seg in Hat.
pose proof (list_elem_of_lookup_2 _ _ _ Hat) as Hin.
pose proof (proj1 (list.Forall_forall _ _) Hs _ Hin) as Hl. cbn [snd] in Hl.
destruct (total_split l1 s l2 Hl) as (? & Et & ? & ?). apply Forall_app in Hl as [_ Hl].
apply list.Forall_cons in Hl as [(_ & _ & ? & _) _].
assert ((b, total (l1 ++ s :: l2)) ∈ shape (arena storage cap)) as Hsh.
{ rewrite <- Hshape. apply list_elem_of_fmap. by exists (b, l1 ++ s :: l2). }
unfold shape, arena in Hsh. cbn [fmap list_fmap fst snd total s_span] in Hsh.
apply elem_of_cons in Hsh as [[= -> E2]|Hsh]; [lia|].
apply list_elem_of_fmap in Hsh as (q & Eq & Hq). apply elem_of_replicate in Hq as [-> _]. injection Eq. lia.
Qed.

Lemma arena_reset (h : heap) A storage cap :
good h A → objects A = [] → 0 < storage → shape A = shape (arena storage cap) →
∃ h', reist_libc_reset h = Returns 0 h' ∧ cleared h' ∧ ∀ a, storage <= a < storage + cap → memory h' a = 0.
Proof using.
intros G Ho Hs Hshape. destruct (reset_rep h A G Ho) as (h' & E & C & _ & _ & Hz & _).
exists h'. split; [done|]. split; [done|]. intros a Ha. apply Hz.
destruct (arena_regions h A storage cap G Ho Hs Hshape) as (n & rest & -> & _).
exists (storage, [Seg n cap 0]). split; [apply list_elem_of_here|]. cbn. lia.
Qed.

Lemma arena_whole (h : heap) A storage cap :
good h A → objects A = [] → arena_ok storage cap → shape A = shape (arena storage cap) → acquire (heap_provider h) = 0 →
∃ h', malloc cap h = Returns storage h'.
Proof using All.
intros G Ho (Hs & _ & Hc & Hca & _) Hshape Hacq.
change HEAP_ALIGN with 16 in *. change REIST_LIBC_HEAP_LIMIT with 4194304 in *.
destruct (arena_regions h A storage cap G Ho Hs Hshape) as (n & rest & EA & _).
destruct (malloc_room h A cap G ltac:(lia)) as (p & h' & A' & E & Hg).
- intros [Hl|[Hl|Hl]].
+ unfold limit_of in Hl. rewrite Hacq in Hl. change REIST_LIBC_HEAP_LIMIT with 4194304 in Hl. cbn in Hl. lia.
+ rewrite (rep_live _ _ (good_rep _ _ G)) in Hl. destruct (objects_sums A) as [E _]. rewrite E, Ho in Hl. done.
+ rewrite EA in Hl. apply list.Forall_cons in Hl as [Hl _]. apply (proj1 (list.Forall_singleton _ _)) in Hl.
unfold fits in Hl. cbn [used s_req s_span] in Hl. apply andb_false_iff in Hl as [Hl|Hl]; [done|].
apply Z.leb_gt in Hl. unfold span_of in Hl. change HEAP_ALIGN with 16 in Hl.
rewrite (u32_small cap), u32_small in Hl by ulia. Z.to_euclidean_division_equations; lia.
- exists h'. rewrite E. f_equal. destruct Hg as (G' & _ & _ & _ & Ho' & _ & _ & Hsh).
apply (arena_object A' storage cap); [by rewrite Hsh by done|lia|apply (rep_segs h' A' (good_rep _ _ G'))|].
rewrite Ho'. apply list_elem_of_here.
Qed.



(** ** The properties *)
(** C3: a program that keeps to the rules of the C standard (sizes are not
  negative, it frees and resizes only live objects, it stores only inside
  them) and starts the heap on an arena or on a provider never makes the
  allocator fail, and its calls and results are a run of the abstract
  allocator, whatever its calls are: every object it gets is non-null,
  aligned and apart from every other live object, and the memory holds the
  bytes of every live object exactly as the program left them, through all
  other allocations, frees and moves. *)
Theorem heap_refines_allocator s client n (h : heap) :
cleared h → start_ok s → well_behaved client →
∃ t h' σ, (r <- run_start s;; run_client client n []) h = Returns t h' ∧ allocates t σ ∧ holds s h' σ.
Proof using All.
intros C Hs Hw. destruct (start_holds s h C Hs) as (h1 & E & Hh).
rewrite (bind_returns _ _ _ _ _ E). by apply (run_client_simulates s client n h1 [] ∅); [| |constructor].
Qed.

(** C20: whatever stray writes have done to the metadata of a started heap (the
  two arrays, the counters and the provider), no call reads or writes
  outside the arrays and every chain walk of a call ends.  The state is
  [shaped]: the arrays have the lengths of their C declarations and, as long
  as [heap_initialized] is zero, the area array is still zero, as C
  initialises it; every call keeps it so. *)
Theorem heap_stays_in_bounds :
(∀ size, safe (W := W) (malloc size)) ∧ (∀ count size, safe (W := W) (calloc count size)) ∧
(∀ p, safe (W := W) (free p)) ∧ (∀ p size, safe (W := W) (realloc p size)) ∧
(∀ storage cap, safe (W := W) (reist_libc_init storage cap)) ∧ (∀ p, safe (W := W) (reist_libc_init_backing p)) ∧
safe (W := W) reist_libc_reset ∧ (∀ stats, safe (W := W) (reist_libc_stats stats)).
Proof using All.
split_and!; intros; auto using safe_malloc, safe_calloc, safe_free, safe_realloc, safe_init, safe_init_backing, safe_reset, safe_stats.
Qed.

(** C35: if one field of one block in use changes behind the allocator's back,
  to any other value, the next call of the library that reads the heap stops
  the program instead of using the block.  The calls that do not read it are
  left out: [free] of the null pointer, a [calloc] whose product overflows and
  a request for statistics with a wrong version or size. *)
Theorem heap_detects_alteration (h : heap) A i b b' :
good h A → i ∈ rnodes A → heap_blocks h !! i = Some b → altered b b' →
let h' := set_blocks h (<[i := b']> (heap_blocks h)) in
(∀ size, malloc size h' = Faults) ∧
(∀ count size, size = 0 ∨ count <= UINTPTR_MAX / size → calloc count size h' = Faults) ∧
(∀ p, p ≠ 0 → free p h' = Faults) ∧ (∀ p size, realloc p size h' = Faults) ∧
(∀ storage cap, reist_libc_init storage cap h' = Faults) ∧ (∀ p, reist_libc_init_backing p h' = Faults) ∧
reist_libc_stats (Some (REIST_LIBC_VERSION, stats_struct_size)) h' = Faults ∧ reist_libc_reset h' = Faults.
Proof using.
intros [R _ _] Hi Hb Ha h'. pose proof (altered_fails h A i b b' R Hi Hb Ha : validate h' = Faults) as E.
assert (∀ size, malloc size h' = Faults) as Hm by (intros; by apply bind_faults).
assert (∀ p, p ≠ 0 → free p h' = Faults) as Hf.
{ intros p Hp. unfold free. rewrite (proj2 (Z.eqb_neq _ _) Hp). by apply bind_faults. }
split_and!; [done| |done| |intros; by apply bind_faults..| |by apply bind_faults].
- intros count size Hs. unfold calloc. replace (negb (size =? 0) && _) with false by (destruct (Z.eqb_spec size 0), (Z.ltb_spec (UINTPTR_MAX / size) count); cbn; lia).
  by apply bind_faults.
- intros p size. unfold realloc. destruct (Z.eqb_spec p 0); [done|].
  destruct (size =? 0); [apply bind_faults; by apply Hf|by apply bind_faults].
- unfold reist_libc_stats. rewrite !Z.eqb_refl. by apply bind_faults.
Qed.

(** Freeing or resizing a pointer that is not the start of a live object
  (a second free, an interior pointer, a pointer of another allocator) stops
  the program. *)
Theorem heap_rejects_dead_pointer s (h : heap) σ p :
holds s h σ → p ≠ 0 → σ !! p = None → free p h = Faults ∧ ∀ size, realloc p size h = Faults.
Proof using.
intros (A & G & S & _) Hp Hn. assert (∀ n, (p, n) ∉ objects A) as Hd.
{ intros n Hin. assert (σ !! p = Some (bytes (memory h) p n)) as E by (apply S; by exists n). congruence. }
split; [by eapply free_dead|]. intros size. by eapply realloc_dead.
Qed.

(** An allocation is refused only when it has to be: for a positive size,
  [malloc] returns an object unless the size is over the limit, 4096 objects
  are live, or no free segment of any region is as long as the rounded
  size. *)
Theorem heap_malloc_finds_room (h : heap) A size :
good h A → 0 < size → ¬ full h A size →
∃ p h' A', malloc size h = Returns p h' ∧ p ≠ 0 ∧ good h' A' ∧ objects A' ≡ₚ (p, size) :: objects A.
Proof using All.
intros G Hs Hn. destruct (malloc_room h A size G Hs Hn) as (p & h' & A' & E & Hg).
exists p, h', A'. destruct Hg as (? & _ & ? & _ & ? & _). done.
Qed.

(** C29: no history of allocations fragments an arena for good.  Start the heap
  on an arena and let any program that keeps to the rules run for any number
  of calls.  If then every object it was given has been freed or resized to
  nothing, by the calls and results themselves, one object of the whole arena
  can be allocated, at its start, and a reset leads back to the state before
  the start with the arena erased. *)
Theorem heap_restores_arena storage cap client n (h : heap) :
cleared h → arena_ok storage cap → well_behaved client →
∃ t h', (r <- run_start (Arena storage cap);; run_client client n []) h = Returns t h' ∧
  (live t = ∅ →
   (∃ h2, malloc cap h' = Returns storage h2) ∧
   (∃ h2, reist_libc_reset h' = Returns 0 h2 ∧ cleared h2 ∧ ∀ a, storage <= a < storage + cap → memory h2 a = 0)).
Proof using All.
intros C Ha Hw. destruct (start_holds (Arena storage cap) h C Ha) as (h1 & E & Hh).
destruct (run_client_simulates (Arena storage cap) client n h1 [] ∅ Hw Hh ltac:(constructor)) as (t & h' & σ & Er & Ht & Hh').
exists t, h'. split; [by rewrite (bind_returns _ _ _ _ _ E)|]. intros Hl.
destruct (allocates_live t σ Ht) as [_ Hd]. rewrite Hl in Hd. apply dom_empty_inv_L in Hd as ->.
destruct Hh' as (A & G & S & Hacq & Hshape). pose proof (shows_empty A _ S) as Ho. split.
- by eapply arena_whole.
- eapply arena_reset; try done. by destruct Ha.
Qed.

End properties.

(** ** Examples

    A 32-bit program with an arena of one kilobyte, or with a provider that
    hands out regions upwards from an address and checks its own books. *)
#[local] Instance ring3 : Platform := {| UINTPTR_MAX := UINT32_MAX; platform_width := or_introl eq_refl |}.

Definition shop : Type := Z * list (Z * Z).

Definition shop_sane (w : shop) (cap : Z) : bool :=
  (0 <? w.1) && (w.1 mod 16 =? 0) && (w.1 + cap <=? UINT32_MAX) && forallb (λ r : Z * Z, r.1 + r.2 <=? w.1) w.2.

#[local] Instance shop_provider : Provider shop := {|
  call_acquire _ _ cap w := if shop_sane w cap then (w.1, (w.1 + cap, (w.1, cap) :: w.2)) else (0, w);
  call_release _ _ storage cap w := (w.1, filter (λ r, r ≠ (storage, cap)) w.2)
|}.

#[local] Instance shop_laws : ProviderLaws shop.
Proof.
  refine {| lent w := w.2 |}.
  - intros f context cap w storage w'. cbn. destruct (shop_sane w cap) eqn:E; intros [= <- <-]; [|by split; [left|]].
    unfold shop_sane in E. rewrite !andb_true_iff in E. destruct E as (((E1 & E2) & E3) & E4).
    split; [|intros x Hx; by right]. right. split; [lia|]. split; [lia|]. split; [cbn; lia|].
    split; [apply list_elem_of_here|]. intros b n Hin. left.
    apply list_elem_of_In in Hin. apply (proj1 (forallb_forall _ _) E4) in Hin. cbn in Hin. lia.
  - intros f context storage cap w x Hx Hne. cbn. by apply list_elem_of_filter.
Defined.

Definition unstarted : heap_t shop :=
  State (replicate (Z.to_nat HEAP_SLOTS) zero_block) (replicate 120 zero_area) zero_backing 0 0 0 0 0 0 0 0
    (λ _, 7) (65536, []).

Lemma unstarted_cleared : cleared unstarted.
Proof. by split. Qed.

Lemma small_arena : arena_ok 4096 1024.
Proof. by split_and!. Qed.

Definition shop_backing : reist_libc_backing_t := Backing 1 28 1048576 65536 0 1 2.

Lemma shop_backing_ok : backing_ok shop_backing.
Proof. by split_and!. Qed.

(** Allocates, writes to the object, allocates on. *)
Definition visitor (t : list (call * Z)) : call :=
  match t with
  | [] => Malloc 20
  | [(Malloc _, p)] => if p =? 0 then Malloc 0 else Store p 65
  | _ => Malloc 40
  end.

Lemma allocates_one c p σ : allocates [(c, p)] σ → alloc_step ∅ c p σ.
Proof.
  intros Ha. inversion Ha as [|t σ' c' r σ2 Ht Hs E]; subst. apply app_eq_unit in E as [[-> [= -> ->]]|[_ ?]]; [|done].
  inversion Ht as [|t2 σ3 c3 r3 σ4 _ _ E2]; subst; [done|]. by apply app_nil in E2 as [_ ?].
Qed.

Lemma visitor_behaves : well_behaved visitor.
Proof.
  intros t σ Ht. destruct t as [|[[] p] [|x t]]; try (cbn; lia). cbn [visitor].
  destruct (Z.eqb_spec p 0) as [|Hp]; [cbn; lia|]. apply allocates_one in Ht. inversion Ht; subst; [|done].
  cbn [legal]. exists p, l, 0%nat. rewrite lookup_insert_eq. split_and!; [done|lia|lia].
Qed.

Lemma heap_refines_allocator_witness :
  ∃ t h' σ, (r <- run_start (Backed shop_backing);; run_client visitor 5 []) unstarted = Returns t h' ∧
    allocates t σ ∧ holds (Backed shop_backing) h' σ.
Proof.
  exact (heap_refines_allocator (Backed shop_backing) visitor 5 unstarted unstarted_cleared shop_backing_ok visitor_behaves).
Defined.

(** The first block of a fresh arena, with a span that is one too long. *)
Lemma heap_detects_alteration_witness :
  ∃ (h : heap_t shop) b', altered (sealed (Block 0 1024 0 HEAP_END 0)) b' ∧
    let h' := set_blocks h (<[0%nat := b']> (heap_blocks h)) in
    malloc 20 h' = Faults ∧ calloc 3 5 h' = Faults ∧ free 4096 h' = Faults ∧ realloc 4096 0 h' = Faults ∧
    reist_libc_init 4096 1024 h' = Faults ∧ reist_libc_init_backing None h' = Faults ∧
    reist_libc_stats (Some (REIST_LIBC_VERSION, stats_struct_size)) h' = Faults ∧ reist_libc_reset h' = Faults.
Proof.
  destruct (init_ok unstarted 4096 1024 unstarted_cleared small_arena) as (h & _ & G & _).
  exists h, (Block 0 1040 0 HEAP_END (block_check (Block 0 1024 0 HEAP_END 0))).
  assert (altered (sealed (Block 0 1024 0 HEAP_END 0)) (Block 0 1040 0 HEAP_END (block_check (Block 0 1024 0 HEAP_END 0)))) as Ha
    by (right; left; by exists 1040).
  split; [done|].
  assert (at_seg (arena 4096 1024) 0 4096 [] (Seg 0 1024 0) []) as Hat by done.
  pose proof (heap_detects_alteration h (arena 4096 1024) 0 (sealed (Block 0 1024 0 HEAP_END 0)) _ G
    (list_elem_of_here _ _) (at_seg_block h _ _ _ _ _ _ (good_rep _ _ G) Hat) Ha) as H.
  destruct H as (Hm & Hc & Hf & Hr & Hi & Hb & Hs & Hz).
  split_and!; [apply Hm|apply Hc; by right|by apply Hf|apply Hr|apply Hi|apply Hb|exact Hs|exact Hz].
Defined.

Lemma heap_rejects_dead_pointer_witness : ∃ h : heap_t shop, free 5 h = Faults ∧ ∀ size, realloc 5 size h = Faults.
Proof.
  destruct (start_holds (Arena 4096 1024) unstarted unstarted_cleared small_arena) as (h & _ & Hh).
  exists h. by apply (heap_rejects_dead_pointer (Arena 4096 1024) h ∅ 5).
Defined.

Lemma heap_malloc_finds_room_witness :
  ∃ (h : heap_t shop) p h' A', malloc 1024 h = Returns p h' ∧ p ≠ 0 ∧ good h' A' ∧ objects A' ≡ₚ (p, 1024) :: objects (arena 4096 1024).
Proof.
  destruct (init_ok unstarted 4096 1024 unstarted_cleared small_arena) as (h & _ & G & _ & _ & Ep).
  exists h. apply (heap_malloc_finds_room h (arena 4096 1024) 1024 G); [lia|].
  intros [Hl|[Hl|Hl]].
  - unfold limit_of in Hl. rewrite Ep in Hl. cbn in Hl. unfold REIST_LIBC_HEAP_LIMIT in Hl. lia.
  - rewrite (rep_live _ _ (good_rep _ _ G)) in Hl. by vm_compute in Hl.
  - apply list.Forall_cons in Hl as [Hl _]. apply list.Forall_cons in Hl as [Hl _]. by vm_compute in Hl.
Defined.

(** Three objects, freed so that the second joins the free rest of the arena,
    the first joins the second and the third joins both sides. *)
Definition answer (t : list (call * Z)) (i : nat) : Z := default 0 (t.*2 !! i).
Definition return_object (t : list (call * Z)) (i : nat) : call :=
  if decide (answer t i ∈ live t) then Free (answer t i) else Malloc 0.
Definition tidy (t : list (call * Z)) : call :=
  match length t with
  | 0%nat => Malloc 20
  | 1%nat => Malloc 40
  | 2%nat => Malloc 30
  | 3%nat => return_object t 1
  | 4%nat => return_object t 0
  | 5%nat => return_object t 2
  | _ => Malloc 0
  end.

Lemma tidy_behaves : well_behaved tidy.
Proof.
  intros t σ Ht. apply allocates_live in Ht as [_ Hd].
  assert (∀ i, legal σ (return_object t i)) as Hr.
  { intros i. unfold return_object. case_decide as Hl; [|by cbn]. right. by rewrite <- Hd, elem_of_dom in Hl. }
  unfold tidy. destruct (length t) as [|[|[|[|[|[|n]]]]]]; first [apply Hr|cbn; lia].
Qed.

Abbreviation tidy_run := ((r <- run_start (Arena 4096 1024);; run_client tidy 6 []) unstarted).
Definition tidy_trace : list (call * Z) :=
  [(Malloc 20, 4096); (Malloc 40, 4128); (Malloc 30, 4176); (Free 4128, 0); (Free 4096, 0); (Free 4176, 0)].

Lemma tidy_runs : match tidy_run with Returns t _ => t = tidy_trace | _ => False end.
Proof. vm_compute. reflexivity. Qed.

Lemma tidy_frees : live tidy_trace = ∅.
Proof. vm_compute. reflexivity. Qed.

Lemma heap_restores_arena_witness :
  ∃ h' : heap_t shop, tidy_run = Returns tidy_trace h' ∧
    (∃ h2, malloc 1024 h' = Returns 4096 h2) ∧
    (∃ h2, reist_libc_reset h' = Returns 0 h2 ∧ cleared h2 ∧ ∀ a, 4096 <= a < 4096 + 1024 → memory h2 a = 0).
Proof.
  pose proof (heap_restores_arena 4096 1024 tidy 6 unstarted unstarted_cleared small_arena tidy_behaves) as H.
  destruct H as (t & h' & E & Hl). exists h'. pose proof tidy_runs as Ht. rewrite E in Ht. subst t.
  split; [exact E|]. exact (Hl tidy_frees).
Defined.

(** A started heap whose blocks and areas hold anything. *)
Definition scrambled : heap_t shop :=
  State (replicate (Z.to_nat HEAP_SLOTS) (Block 5 7 9 60000 3)) (replicate 120 (Area 4096 0 77 9999 1)) shop_backing 0
    1 1000000 5 0 0 0 0 (λ _, 7) (65536, []).

Lemma heap_stays_in_bounds_witness :
  shaped scrambled ∧ ends (malloc 20) (λ _ h', shaped h') scrambled ∧ ends (free 4096) (λ _ h', shaped h') scrambled ∧
  ends (malloc 20) (λ _ h', shaped h') unstarted.
Proof.
  assert (shaped scrambled) as S by (split; [exact (length_replicate _ _)|]; split; [exact (length_replicate _ _)|done]).
  assert (shaped unstarted) as U by (split; [exact (length_replicate _ _)|]; split; [exact (length_replicate _ _)|done]).
  destruct (heap_stays_in_bounds (W := shop)) as (Hm & _ & Hf & _).
  split; [exact S|]. split; [exact (Hm 20 _ S)|]. split; [exact (Hf 4096 _ S)|exact (Hm 20 _ U)].
Defined.

