(* ===== verification/ComponentControl.v ===== *)
(** Component control: src/kernel/init/component_control.c and
    src/include/kernel/component_control.h.

    [Module ComponentControl] holds the table of components, their protected
    states and every function of the C file.  The down, up and ready functions
    of the drivers and services and the monotonic clock are the class
    [Drivers]: they act on a world of their own.  A down or up function may
    take a while; the processes that end meanwhile call
    [component_control_process_cleanup], so such a function also gives the
    list of the processes that ended.  Signed fields of the protected struct
    are kept as their 32-bit images and read through [s32].  Masking
    interrupts has no state here. *)
From Stdlib Require Import String Ascii.
From S2P Require Import Prelude ProtectedStore Layout ProtectedRecord CriticalObject.

(** The functions behind the table of components. *)
Class Drivers (W : Type) := {
  netdev_component_down : Z → W → bool * list (Z * Z) * W;
  netdev_component_up : Z → W → bool * list (Z * Z) * W;
  netdev_component_ready : W → bool * W;
  storage_service_component_down : Z → W → bool * list (Z * Z) * W;
  storage_service_component_up : Z → W → bool * list (Z * Z) * W;
  storage_service_component_ready : W → bool * W;
  supervisor_probe_component_down : Z → W → bool * list (Z * Z) * W;
  supervisor_probe_component_up : Z → W → bool * list (Z * Z) * W;
  supervisor_probe_component_ready : W → bool * W;
  pit_monotonic_ms : W → Z
}.

Module ComponentControl.

Definition COMPONENT_STATE_VERSION : Z := 1.
Definition COMPONENT_CONTROL_ABI_VERSION : Z := 1.
Definition COMPONENT_CONTROL_MAX_COMPONENTS : Z := 7.
Definition COMPONENT_CONTROL_NAME_CAPACITY : nat := 24.
Definition COMPONENT_CONTROL_TIMEOUT_DEFAULT_MS : Z := 1000.
Definition COMPONENT_CONTROL_TIMEOUT_MAX_MS : Z := 5000.
Definition COMPONENT_EPROTECTED : Z := -1003.
Definition COMPONENT_EDEPENDENCY : Z := -1004.
Definition COMPONENT_ESTATE : Z := -1005.
Definition COMPONENT_ID_SCHEDULER : Z := 0.
Definition COMPONENT_ID_CLOCK : Z := 1.
Definition COMPONENT_ID_INTERRUPTS : Z := 2.
Definition COMPONENT_ID_ROOT_STORAGE : Z := 3.
Definition COMPONENT_ID_NETWORK_DRIVER : Z := 4.
Definition COMPONENT_ID_STORAGE_SERVICE : Z := 5.
Definition COMPONENT_ID_NETWORK_SERVICE : Z := 6.
Definition COMPONENT_COMMAND_STATUS : Z := 0.
Definition COMPONENT_COMMAND_DOWN : Z := 1.
Definition COMPONENT_COMMAND_UP : Z := 2.
Definition COMPONENT_COMMAND_RESTART : Z := 3.
Definition COMPONENT_STATE_READY : Z := 1.
Definition COMPONENT_STATE_QUIESCING : Z := 2.
Definition COMPONENT_STATE_DOWN : Z := 3.
Definition COMPONENT_STATE_STARTING : Z := 4.
Definition COMPONENT_STATE_FAILED : Z := 5.
Definition COMPONENT_FLAG_MANAGEABLE : Z := Z.shiftl 1 0.
Definition COMPONENT_FLAG_PROTECTED : Z := Z.shiftl 1 1.
Definition COMPONENT_FLAG_DRIVER : Z := Z.shiftl 1 2.
Definition COMPONENT_FLAG_SERVICE : Z := Z.shiftl 1 3.
Definition COMPONENT_FLAG_FENCED : Z := Z.shiftl 1 4.
Definition COMPONENT_DEP (id : Z) : Z := Z.shiftl 1 id.

(** ** Data *)
Record component_state_t := State {
  component : Z;
  state : Z;
  generation : Z;
  owner_pid : Z;
  owner_generation : Z;
  last_error : Z
}.

#[export] Instance component_state_layout : Layout component_state_t := {
  layout_widths := [4; 4; 4; 4; 4; 4]%nat;
  layout_values s := [component s; state s; generation s; owner_pid s; owner_generation s; last_error s];
  layout_record l :=
    match l with
    | [a; b; c; d; e; f] => State a b c d e f
    | _ => State 0 0 0 0 0 0
    end
}.

Definition no_state : component_state_t := State 0 0 0 0 0 0.

Record component_control_request_t := Request {
  r_version : Z;
  r_struct_size : Z;
  command : Z;
  r_component : Z;
  expected_generation : Z;
  timeout_ms : Z
}.
Definition request_size : Z := 24.

Record component_control_result_t := Result {
  p_version : Z;
  p_struct_size : Z;
  p_component : Z;
  p_state : Z;
  p_generation : Z;
  p_flags : Z;
  p_dependency_mask : Z;
  p_last_error : Z;
  p_name : list Z
}.
Definition result_size : Z := 56.

(** The fields of [state_valid]; the size is checked by the store client. *)
Definition state_ok (s : component_state_t) : bool :=
  if (COMPONENT_CONTROL_MAX_COMPONENTS <=? component s) || (generation s =? 0) ||
     (state s <? COMPONENT_STATE_READY) || (COMPONENT_STATE_FAILED <? state s) then false
  else
    let owned := (0 <? s32 (owner_pid s)) && negb (owner_generation s =? 0) in
    let unowned := (s32 (owner_pid s) =? 0) && (owner_generation s =? 0) in
    if negb owned && negb unowned then false
    else if ((state s =? COMPONENT_STATE_READY) || (state s =? COMPONENT_STATE_DOWN) ||
             (state s =? COMPONENT_STATE_FAILED)) && negb unowned then false
    else true.

Definition state_valid : list Z → bool := record_valid state_ok.

Definition deadline_after (now_ms timeout : Z) : Z :=
  if UINT64_MAX - now_ms <? timeout then UINT64_MAX else now_ms + timeout.

Definition finish_state (s : component_state_t) (final_state error : Z) : component_state_t :=
  State (component s) final_state (generation s) 0 0 (u32 error).

(** The fields [begin_transition] writes. *)
Definition begun_state (s : component_state_t) (transition pid g : Z) : component_state_t :=
  State (component s) transition (u32 (generation s + 1)) (u32 pid) g 0.

Section operations.
Context {O : Type} `{ProtectedStore O} {W : Type} `{Drivers W}.

Record component_descriptor_t := Descriptor {
d_name : string;
d_flags : Z;
dependency_mask : Z;
down : option (Z → W → bool * list (Z * Z) * W);
up : option (Z → W → bool * list (Z * Z) * W);
d_ready : option (W → bool * W)
}.

Definition components : list component_descriptor_t := [
Descriptor "scheduler" COMPONENT_FLAG_PROTECTED 0 None None None;
Descriptor "monotonic-clock" COMPONENT_FLAG_PROTECTED (COMPONENT_DEP COMPONENT_ID_SCHEDULER) None None None;
Descriptor "interrupt-core" COMPONENT_FLAG_PROTECTED (COMPONENT_DEP COMPONENT_ID_SCHEDULER) None None None;
Descriptor "root-storage" (Z.lor COMPONENT_FLAG_PROTECTED COMPONENT_FLAG_DRIVER)
(Z.lor (COMPONENT_DEP COMPONENT_ID_CLOCK) (COMPONENT_DEP COMPONENT_ID_INTERRUPTS)) None None None;
Descriptor "network-driver" (Z.lor COMPONENT_FLAG_MANAGEABLE COMPONENT_FLAG_DRIVER)
(Z.lor (COMPONENT_DEP COMPONENT_ID_CLOCK) (COMPONENT_DEP COMPONENT_ID_INTERRUPTS))
(Some netdev_component_down) (Some netdev_component_up) (Some netdev_component_ready);
Descriptor "storage-service" (Z.lor COMPONENT_FLAG_MANAGEABLE COMPONENT_FLAG_SERVICE)
(Z.lor (COMPONENT_DEP COMPONENT_ID_CLOCK) (COMPONENT_DEP COMPONENT_ID_ROOT_STORAGE))
(Some storage_service_component_down) (Some storage_service_component_up) (Some storage_service_component_ready);
Descriptor "network-service" (Z.lor COMPONENT_FLAG_MANAGEABLE COMPONENT_FLAG_SERVICE)
(Z.lor (COMPONENT_DEP COMPONENT_ID_CLOCK) (COMPONENT_DEP COMPONENT_ID_NETWORK_DRIVER))
(Some supervisor_probe_component_down) (Some supervisor_probe_component_up)
(Some supervisor_probe_component_ready)
].

Definition descriptor (i : Z) : component_descriptor_t :=
nth (Z.to_nat i) components (Descriptor "" 0 0 None None None).

Record component_control_t := Control {
protected_states : list O;
initialized : bool;
operation_busy : Z;
operation_owner_pid : Z;
operation_owner_generation : Z;
operation_cancel_requested : bool;
world : W
}.

Definition set_states (c : component_control_t) (l : list O) : component_control_t :=
Control l (initialized c) (operation_busy c) (operation_owner_pid c) (operation_owner_generation c)
(operation_cancel_requested c) (world c).
Definition set_world (c : component_control_t) (w : W) : component_control_t :=
Control (protected_states c) (initialized c) (operation_busy c) (operation_owner_pid c)
(operation_owner_generation c) (operation_cancel_requested c) w.
Definition set_operation (c : component_control_t) (busy pid g : Z) (cancel : bool) : component_control_t :=
Control (protected_states c) (initialized c) busy pid g cancel (world c).

(** ** Protected states *)
(** The second component is the caller's variable. *)
Definition state_read (i : Z) (s : component_state_t) (c : component_control_t)
: Z * component_state_t * component_control_t :=
if COMPONENT_CONTROL_MAX_COMPONENTS <=? i then (-22, s, c)
else
match protected_states c !! Z.to_nat i with
| None => (-22, s, c)
| Some store =>
    let '(result, store, s) := load_record COMPONENT_STATE_VERSION state_ok (-84) store s in
    (result, s, set_states c (<[Z.to_nat i := store]> (protected_states c)))
end.

Definition state_write (i : Z) (s : component_state_t) (c : component_control_t) : Z * component_control_t :=
if (COMPONENT_CONTROL_MAX_COMPONENTS <=? i) || negb (component s =? i) then (-22, c)
else
match protected_states c !! Z.to_nat i with
| None => (-22, c)
| Some store =>
    let '(result, store) := store_record COMPONENT_STATE_VERSION state_ok (-84) store s in
    (result, set_states c (<[Z.to_nat i := store]> (protected_states c)))
end.

Definition deadline_expired (deadline_ms : Z) (c : component_control_t) : bool :=
deadline_ms <=? pit_monotonic_ms (world c).

Definition all_components : list Z := [0; 1; 2; 3; 4; 5; 6].

Fixpoint dependencies_loop (dependencies : Z) (indices : list Z) (c : component_control_t)
: bool * component_control_t :=
match indices with
| [] => (true, c)
| index :: indices =>
  if Z.land dependencies (COMPONENT_DEP index) =? 0 then dependencies_loop dependencies indices c
  else
    let '(result, s, c) := state_read index no_state c in
    if negb (result =? 0) || negb (state s =? COMPONENT_STATE_READY) then (false, c)
    else dependencies_loop dependencies indices c
end.

Definition dependencies_ready (i : Z) (c : component_control_t) : bool * component_control_t :=
dependencies_loop (dependency_mask (descriptor i)) all_components c.

Fixpoint dependents_loop (dependency : Z) (indices : list Z) (c : component_control_t)
: bool * component_control_t :=
match indices with
| [] => (false, c)
| index :: indices =>
  if Z.land (dependency_mask (descriptor index)) dependency =? 0 then dependents_loop dependency indices c
  else
    let '(result, s, c) := state_read index no_state c in
    if negb (result =? 0) then (true, c)
    else if (state s =? COMPONENT_STATE_READY) || (state s =? COMPONENT_STATE_STARTING) ||
            (state s =? COMPONENT_STATE_QUIESCING) then (true, c)
    else dependents_loop dependency indices c
end.

Definition ready_dependent_exists (i : Z) (c : component_control_t) : bool * component_control_t :=
dependents_loop (COMPONENT_DEP i) all_components c.

Definition begin_transition (s : component_state_t) (transition pid g : Z) (c : component_control_t)
: Z * component_state_t * component_control_t :=
if generation s =? UINT32_MAX then (COMPONENT_ESTATE, s, c)
else
let s := begun_state s transition pid g in
let '(result, c) := state_write (component s) s c in
(result, s, c).

(** ** Transitions *)
Definition component_control_process_cleanup (pid g : Z) (c : component_control_t) : component_control_t :=
if negb (initialized c) || (pid <=? 0) || (g =? 0) then c
else if negb (operation_busy c =? 0) && (operation_owner_pid c =? pid) && (operation_owner_generation c =? g)
then set_operation c (operation_busy c) (operation_owner_pid c) (operation_owner_generation c) true
else c.

(** A call through a function pointer of the table that is not null. *)
Definition run_action (action : Z → W → bool * list (Z * Z) * W) (deadline_ms : Z) (c : component_control_t)
: bool * component_control_t :=
let '(ok, ended, w) := action deadline_ms (world c) in
(ok, foldl (λ c p, component_control_process_cleanup p.1 p.2 c) (set_world c w) ended).

Definition try_action (action : option (Z → W → bool * list (Z * Z) * W)) (deadline_ms : Z)
(c : component_control_t) : bool * component_control_t :=
match action with None => (false, c) | Some action => run_action action deadline_ms c end.

Definition try_ready (ready : option (W → bool * W)) (c : component_control_t) : bool * component_control_t :=
match ready with
| None => (false, c)
| Some ready => let '(ok, w) := ready (world c) in (ok, set_world c w)
end.

(** How the action went: a cancellation overrides it. *)
Definition action_result (ok : bool) (deadline_ms : Z) (c : component_control_t) : bool * Z :=
if operation_cancel_requested c then (false, -125)
else if ok then (true, 0)
else (false, if deadline_expired deadline_ms c then -110 else -5).

Definition perform_down (i pid g deadline_ms : Z) (c : component_control_t) : Z * component_control_t :=
let '(result, s, c) := state_read i no_state c in
if negb (result =? 0) then (result, c)
else if negb (Z.land (d_flags (descriptor i)) COMPONENT_FLAG_PROTECTED =? 0) then (COMPONENT_EPROTECTED, c)
else if state s =? COMPONENT_STATE_DOWN then (0, c)
else if (state s =? COMPONENT_STATE_QUIESCING) || (state s =? COMPONENT_STATE_STARTING) then (-16, c)
else
let '(dependent, c) := ready_dependent_exists i c in
if (dependent : bool) then (COMPONENT_EDEPENDENCY, c)
else
  let '(result, s, c) := begin_transition s COMPONENT_STATE_QUIESCING pid g c in
  if negb (result =? 0) then (result, c)
  else
    let '(stopped, c) := try_action (down (descriptor i)) deadline_ms c in
    let '(stopped, result) := action_result stopped deadline_ms c in
    let s := finish_state s (if (stopped : bool) then COMPONENT_STATE_DOWN else COMPONENT_STATE_FAILED) result in
    let '(write_result, c) := state_write i s c in
    (if negb (write_result =? 0) then write_result else result, c).

Definition perform_up (i pid g deadline_ms : Z) (c : component_control_t) : Z * component_control_t :=
let '(result, s, c) := state_read i no_state c in
if negb (result =? 0) then (result, c)
else if negb (Z.land (d_flags (descriptor i)) COMPONENT_FLAG_PROTECTED =? 0) then (COMPONENT_EPROTECTED, c)
else if state s =? COMPONENT_STATE_READY then (0, c)
else if (state s =? COMPONENT_STATE_QUIESCING) || (state s =? COMPONENT_STATE_STARTING) then (-16, c)
else
let '(dependencies, c) := dependencies_ready i c in
if negb dependencies then (COMPONENT_EDEPENDENCY, c)
else
  let '(result, s, c) := begin_transition s COMPONENT_STATE_STARTING pid g c in
  if negb (result =? 0) then (result, c)
  else
    let '(started, c) := try_action (up (descriptor i)) deadline_ms c in
    let '(started, c) := if (started : bool) then try_ready (d_ready (descriptor i)) c else (false, c) in
    let '(started, result) := action_result started deadline_ms c in
    let c := if (started : bool) then c else (try_action (down (descriptor i)) deadline_ms c).2 in
    let s := finish_state s (if (started : bool) then COMPONENT_STATE_READY else COMPONENT_STATE_FAILED) result in
    let '(write_result, c) := state_write i s c in
    (if negb (write_result =? 0) then write_result else result, c).

(** ** Entry points *)
Definition name_bytes (s : string) : list Z := (λ a, Z.of_nat (nat_of_ascii a)) <$> list_ascii_of_string s.

(** The name is cut to the field, and the rest of the field is zero. *)
Definition name_field (s : string) : list Z :=
let l := take (COMPONENT_CONTROL_NAME_CAPACITY - 1) (name_bytes s) in
l ++ replicate (COMPONENT_CONTROL_NAME_CAPACITY - length l) 0.

Definition publish_result (i : Z) (s : component_state_t) : component_control_result_t :=
Result COMPONENT_CONTROL_ABI_VERSION result_size i (state s) (generation s)
(if state s =? COMPONENT_STATE_READY then d_flags (descriptor i)
 else Z.lor (d_flags (descriptor i)) COMPONENT_FLAG_FENCED)
(dependency_mask (descriptor i)) (s32 (last_error s)) (name_field (d_name (descriptor i))).

Fixpoint init_loop (indices : list Z) (c : component_control_t) : bool * component_control_t :=
match indices with
| [] => (true, c)
| i :: indices =>
  let manageable := negb (Z.land (d_flags (descriptor i)) COMPONENT_FLAG_MANAGEABLE =? 0) in
  let '(is_ready, c) := if manageable then try_ready (d_ready (descriptor i)) c else (true, c) in
  let s := State i (if (is_ready : bool) then COMPONENT_STATE_READY else COMPONENT_STATE_DOWN) 1 0 0 0 in
  match protected_states c !! Z.to_nat i with
  | None => (false, c)
  | Some store =>
      let '(status, store) := ps_init store COMPONENT_STATE_VERSION (Some (encode s)) in
      let c := set_states c (<[Z.to_nat i := store]> (protected_states c)) in
      if negb (status =? 0) then (false, c) else init_loop indices c
  end
end.

Definition component_control_init (c : component_control_t) : bool * component_control_t :=
if initialized c then (true, c)
else
let '(ok, c) := init_loop all_components c in
if negb ok then (false, c)
else (true, Control (protected_states c) true 0 0 0 false (world c)).

Fixpoint poll_loop (indices : list Z) (c : component_control_t) : component_control_t :=
match indices with
| [] => c
| i :: indices =>
  if Z.land (d_flags (descriptor i)) COMPONENT_FLAG_MANAGEABLE =? 0 then poll_loop indices c
  else
    let '(is_ready, c) := try_ready (d_ready (descriptor i)) c in
    if negb is_ready then poll_loop indices c
    else
      let '(result, s, c) := state_read i no_state c in
      if negb (result =? 0) || negb (generation s =? 1) || negb (state s =? COMPONENT_STATE_DOWN)
      then poll_loop indices c
      else poll_loop indices (state_write i (finish_state s COMPONENT_STATE_READY 0) c).2
end.

Definition component_control_poll (c : component_control_t) : component_control_t :=
if negb (initialized c) || negb (operation_busy c =? 0) then c else poll_loop all_components c.

(** The command of a request that holds the operation. *)
Definition perform (r : component_control_request_t) (pid g deadline_ms : Z) (c : component_control_t)
: Z * component_control_t :=
if command r =? COMPONENT_COMMAND_DOWN then perform_down (r_component r) pid g deadline_ms c
else if command r =? COMPONENT_COMMAND_UP then perform_up (r_component r) pid g deadline_ms c
else
let '(status, c) := perform_down (r_component r) pid g deadline_ms c in
if (status =? 0) && negb (deadline_expired deadline_ms c)
then perform_up (r_component r) pid g deadline_ms c
else (if status =? 0 then -110 else status, c).

(** [None] is a null pointer; the second component is the caller's result. *)
Definition component_control_execute (pid g : Z) (request : option component_control_request_t)
(result : option component_control_result_t) (now_ms : Z) (c : component_control_t)
: Z * option component_control_result_t * component_control_t :=
match request, result with
| Some r, Some _ =>
  if negb (initialized c) || (pid <=? 0) || (g =? 0) ||
     negb (r_version r =? COMPONENT_CONTROL_ABI_VERSION) || negb (r_struct_size r =? request_size) ||
     (COMPONENT_CONTROL_MAX_COMPONENTS <=? r_component r) || (COMPONENT_COMMAND_RESTART <? command r) ||
     (COMPONENT_CONTROL_TIMEOUT_MAX_MS <? timeout_ms r)
  then (-22, result, c)
  else
    let '(status, s, c) := state_read (r_component r) no_state c in
    if negb (status =? 0) then (status, result, c)
    else if negb (expected_generation r =? 0) && negb (expected_generation r =? generation s)
    then (-116, result, c)
    else if command r =? COMPONENT_COMMAND_STATUS
    then (0, Some (publish_result (r_component r) s), c)
    else if negb (Z.land (d_flags (descriptor (r_component r))) COMPONENT_FLAG_PROTECTED =? 0)
    then (COMPONENT_EPROTECTED, result, c)
    else if negb (operation_busy c =? 0) then (-16, result, c)
    else
      let timeout := if timeout_ms r =? 0 then COMPONENT_CONTROL_TIMEOUT_DEFAULT_MS else timeout_ms r in
      let '(status, c) := perform r pid g (deadline_after now_ms timeout) (set_operation c 1 pid g false) in
      let c := set_operation c 0 0 0 false in
      let '(read_result, s, c) := state_read (r_component r) s c in
      if negb (read_result =? 0) then (read_result, result, c)
      else (status, Some (publish_result (r_component r) s), c)
| _, _ => (-22, result, c)
end.
End operations.

#[global] Arguments component_control_t : clear implicits.
#[global] Arguments component_descriptor_t : clear implicits.
End ComponentControl.
