(* ===== verification/ComponentControlSpec.v ===== *)
(** Component control on intact stores: transitions.

    [holds c k ss]: the seven stores hold the states [ss] and have room for
    [k] more publications each.  The transitions are described by what the
    actions do to the world; the properties follow for every sequence of
    calls. *)
From Stdlib Require Import String.
From S2P Require Import Prelude ProtectedStore Layout ProtectedRecord CriticalObject ComponentControl.
Import ComponentControl.

#[export] Instance component_state_layout_laws : LayoutLaws component_state_t.
Proof.
  constructor.
  - done.
  - by intros [].
  - intros values Hl. do 6 (destruct values as [|? values]; [done|]). by destruct values.
Qed.

Lemma component_state_typed (s : component_state_t) :
  well_typed s ↔
  is_u32 (component s) ∧ is_u32 (state s) ∧ is_u32 (generation s) ∧ is_u32 (owner_pid s) ∧
  is_u32 (owner_generation s) ∧ is_u32 (last_error s).
Proof.
  unfold well_typed. cbn [layout_widths layout_values component_state_layout fields_ok].
  change (256 ^ Z.of_nat 4) with 4294967296. unfold is_u32. tauto.
Qed.

Lemma component_state_size : (0 < sizeof component_state_t <= 64)%nat.
Proof. vm_compute. lia. Qed.

(** A component that no transition is working on. *)
Definition settled (s : component_state_t) : Prop :=
  state s = COMPONENT_STATE_READY ∨ state s = COMPONENT_STATE_DOWN ∨ state s = COMPONENT_STATE_FAILED.

Lemma finished_ok s st e :
  well_typed s → component s < 7 → generation s ≠ 0 → settled (finish_state s st e) →
  well_typed (finish_state s st e) ∧ state_ok (finish_state s st e) = true.
Proof.
  rewrite !component_state_typed. intros (? & ? & ? & ? & ? & ?) Hc Hg Hst. unfold settled in Hst.
  cbn [finish_state state] in Hst. split.
  - cbn. split_and!; try done; try (destruct Hst as [->|[->| ->]]; by unfold is_u32); try by unfold is_u32. apply u32_range.
  - unfold state_ok. cbn [finish_state component generation state owner_pid owner_generation].
    change COMPONENT_CONTROL_MAX_COMPONENTS with 7. destruct (Z.leb_spec 7 (component s)); [lia|].
    rewrite (proj2 (Z.eqb_neq _ _) Hg). by destruct Hst as [->|[->| ->]].
Qed.

Lemma begun_ok s st pid g :
  well_typed s → component s < 7 → generation s ≠ UINT32_MAX →
  st = COMPONENT_STATE_QUIESCING ∨ st = COMPONENT_STATE_STARTING → 0 < pid <= INT32_MAX → is_u32 g → g ≠ 0 →
  well_typed (begun_state s st pid g) ∧ state_ok (begun_state s st pid g) = true ∧
  generation (begun_state s st pid g) = generation s + 1.
Proof.
  rewrite !component_state_typed. intros (? & ? & Hgen & ? & ? & ?) Hc Hg Hst Hpid Hgt Hg0.
  assert (u32 (generation s + 1) = generation s + 1) as Eg by (rewrite u32_small; [done|ulia]).
  assert (u32 pid = pid) as Ep by (rewrite u32_small; [done|ulia]).
  cbn [begun_state component state generation owner_pid owner_generation last_error]. rewrite Eg, Ep. split; [|split; [|done]].
  - split_and!; try done; try (destruct Hst as [->| ->]; by unfold is_u32); ulia.
  - unfold state_ok. cbn [begun_state component generation state owner_pid owner_generation]. rewrite Eg, Ep.
    change COMPONENT_CONTROL_MAX_COMPONENTS with 7. destruct (Z.leb_spec 7 (component s)); [lia|].
    destruct (Z.eqb_spec (generation s + 1) 0); [ulia|].
    unfold s32. destruct (Z.ltb_spec pid 2147483648); [|ulia]. destruct (Z.ltb_spec 0 pid); [|lia].
    rewrite (proj2 (Z.eqb_neq _ _) Hg0). by destruct Hst as [->| ->].
Qed.

Section component.
Context {O : Type} `{ProtectedStoreLaws O} {W : Type} `{Drivers W}.
#[local] Abbreviation control := (component_control_t O W).

Definition store_holds (k : Z) (o : O) (s : component_state_t) : Prop :=
∃ n, n + k <= UINT32_MAX ∧ record_holds COMPONENT_STATE_VERSION state_ok o n s.

Record holds (c : control) (k : Z) (ss : list component_state_t) : Prop := {
holds_stores : Forall2 (store_holds k) (protected_states c) ss;
holds_count : length ss = 7%nat;
holds_index i s : ss !! i = Some s → component s = Z.of_nat i
}.

Lemma holds_less c k k' ss : holds c k ss → k' <= k → holds c k' ss.
Proof using.
intros [Hs Hl Hi] Hk. split; [|done|done]. eapply list.Forall2_impl; [exact Hs|]. intros o s (n & Hn & Hh). exists n. split; [lia|done].
Qed.

Lemma holds_stores_of c c' k ss : protected_states c' = protected_states c → holds c k ss → holds c' k ss.
Proof using. intros E [Hs Hl Hi]. split; [by rewrite E|done|done]. Qed.

Lemma holds_state c k ss i s : holds c k ss → ss !! i = Some s → well_typed s ∧ state_ok s = true ∧ (i < 7)%nat ∧ component s = Z.of_nat i.
Proof using.
intros [Hs Hl Hi] Es. destruct (Forall2_lookup_r _ _ _ _ _ Hs Es) as (o & _ & n & _ & _ & Ht & Hok).
split_and!; [done|done| |by apply Hi]. rewrite <- Hl. by eapply lookup_lt_Some.
Qed.

(** A read may repair a store: only the stores change. *)
Lemma state_read_holds c k ss i s buffer :
holds c k ss → ss !! i = Some s →
∃ stores, state_read (Z.of_nat i) buffer c = (0, s, set_states c stores) ∧ holds (set_states c stores) k ss.
Proof using All.
intros Hh Es. destruct (holds_state c k ss i s Hh Es) as (_ & _ & Hlt & _). destruct Hh as [Hs Hl Hi].
destruct (Forall2_lookup_r _ _ _ _ _ Hs Es) as (o & Eo & n & Hn & Ho).
unfold state_read. change COMPONENT_CONTROL_MAX_COMPONENTS with 7. destruct (Z.leb_spec 7 (Z.of_nat i)); [lia|].
rewrite Nat2Z.id, Eo.
destruct (load_record_spec COMPONENT_STATE_VERSION state_ok (-84) ltac:(easy) ltac:(done) component_state_size o n s buffer Ho)
as (o' & -> & Ho').
eexists. split; [done|]. split; [|done|done]. cbn [protected_states set_states].
rewrite <- (list_insert_id ss i s Es). apply Forall2_insert; [done|]. by exists n.
Qed.

Lemma state_write_holds c k ss i s s' :
holds c (k + 1) ss → ss !! i = Some s → component s' = Z.of_nat i → well_typed s' → state_ok s' = true → 0 <= k →
∃ stores, state_write (Z.of_nat i) s' c = (0, set_states c stores) ∧ holds (set_states c stores) k (<[i := s']> ss).
Proof using All.
intros Hh Es Ec Ht Hok Hk. destruct (holds_state c _ ss i s Hh Es) as (_ & _ & Hlt & _). destruct Hh as [Hs Hl Hi].
destruct (Forall2_lookup_r _ _ _ _ _ Hs Es) as (o & Eo & n & Hn & Ho).
unfold state_write. change COMPONENT_CONTROL_MAX_COMPONENTS with 7. destruct (Z.leb_spec 7 (Z.of_nat i)); [lia|].
rewrite Ec, Z.eqb_refl, Nat2Z.id, Eo. cbn [negb orb].
pose proof (store_record_spec COMPONENT_STATE_VERSION state_ok (-84) ltac:(easy) ltac:(done) component_state_size o n s s' Ho Ht Hok) as Hw.
destruct (store_record _ _ _ _ _) as [r o']. destruct Hw as [(-> & n' & Ho' & Hn')|(_ & ? & _)]; [|lia].
eexists. split; [done|]. split; cbn [protected_states set_states].
- apply Forall2_insert.
+ eapply list.Forall2_impl; [exact Hs|]. intros o1 s1 (m & Hm & ?). exists m. split; [lia|done].
+ exists n'. split; [rewrite Hn' by lia; lia|done].
- by rewrite length_insert.
- intros j t Hj. apply list_lookup_insert_Some in Hj as [(-> & -> & _)|[_ Hj]]; [done|by apply Hi].
Qed.

(** ** Dependencies *)
Definition depends (i j : nat) : bool :=
negb (Z.land (dependency_mask (descriptor (W := W) (Z.of_nat i))) (COMPONENT_DEP (Z.of_nat j)) =? 0).

Lemma set_states_same (c : control) : set_states c (protected_states c) = c.
Proof using. by destruct c. Qed.

Lemma dependencies_loop_holds k ss mask js : ∀ c,
holds c k ss → Forall (λ j, (j < 7)%nat) js →
∃ b stores, dependencies_loop mask (Z.of_nat <$> js) c = (b, set_states c stores) ∧ holds (set_states c stores) k ss ∧
(b = true ↔ ∀ j s, j ∈ js → Z.land mask (COMPONENT_DEP (Z.of_nat j)) ≠ 0 → ss !! j = Some s → state s = COMPONENT_STATE_READY).
Proof using All.
induction js as [|j js IH]; intros c Hh Hjs.
{ exists true, (protected_states c). rewrite set_states_same. split; [done|]. split; [done|]. split; [|done].
intros _ j s Hj. by apply elem_of_nil in Hj. }
apply list.Forall_cons in Hjs as [Hj Hjs]. cbn [fmap list_fmap dependencies_loop].
destruct (Z.eqb_spec (Z.land mask (COMPONENT_DEP (Z.of_nat j))) 0) as [E|E].
{ destruct (IH c Hh Hjs) as (b & stores & Er & Hr & Hb). exists b, stores. split; [done|]. split; [done|]. rewrite Hb.
split; intros Hall i s Hi; [|apply Hall; by right]. apply elem_of_cons in Hi as [->|Hi]; [done|by apply Hall]. }
destruct (lookup_lt_is_Some_2 ss j) as [s Es]; [rewrite (holds_count _ _ _ Hh); lia|].
destruct (state_read_holds c k ss j s no_state Hh Es) as (l & -> & Hl). cbn [Z.eqb negb orb].
destruct (Z.eqb_spec (state s) COMPONENT_STATE_READY) as [Er|Er]; cbn [negb].
- destruct (IH _ Hl Hjs) as (b & stores & -> & Hr & Hb). exists b, stores. split; [done|]. split; [done|]. rewrite Hb.
split; intros Hall i t Hi; [|apply Hall; by right]. apply elem_of_cons in Hi as [->|Hi]; [congruence|by apply Hall].
- exists false, l. split; [done|]. split; [done|]. split; [done|]. intros Hall. exfalso. apply Er.
apply (Hall j s); [apply list_elem_of_here|done|done].
Qed.

Definition active (s : component_state_t) : Prop :=
state s = COMPONENT_STATE_READY ∨ state s = COMPONENT_STATE_STARTING ∨ state s = COMPONENT_STATE_QUIESCING.

Lemma dependents_loop_holds k ss mask js : ∀ c,
holds c k ss → Forall (λ j, (j < 7)%nat) js →
∃ b stores, dependents_loop mask (Z.of_nat <$> js) c = (b, set_states c stores) ∧ holds (set_states c stores) k ss ∧
(b = false ↔ ∀ j s, j ∈ js → Z.land (dependency_mask (descriptor (W := W) (Z.of_nat j))) mask ≠ 0 → ss !! j = Some s → ¬ active s).
Proof using All.
induction js as [|j js IH]; intros c Hh Hjs.
{ exists false, (protected_states c). rewrite set_states_same. split; [done|]. split; [done|]. split; [|done].
intros _ j s Hj. by apply elem_of_nil in Hj. }
apply list.Forall_cons in Hjs as [Hj Hjs]. cbn [fmap list_fmap dependents_loop].
destruct (Z.eqb_spec (Z.land (dependency_mask (descriptor (Z.of_nat j))) mask) 0) as [E|E].
{ destruct (IH c Hh Hjs) as (b & stores & Er & Hr & Hb). exists b, stores. split; [done|]. split; [done|]. rewrite Hb.
split; intros Hall i s Hi; [|apply Hall; by right]. apply elem_of_cons in Hi as [->|Hi]; [done|by apply Hall]. }
destruct (lookup_lt_is_Some_2 ss j) as [s Es]; [rewrite (holds_count _ _ _ Hh); lia|].
destruct (state_read_holds c k ss j s no_state Hh Es) as (l & -> & Hl). cbn [Z.eqb negb].
destruct (_ || _) eqn:Ea.
- exists true, l. split; [done|]. split; [done|]. split; [done|]. intros Hall. exfalso.
apply (Hall j s); [apply list_elem_of_here|done|done|]. unfold active. lia.
- destruct (IH _ Hl Hjs) as (b & stores & -> & Hr & Hb). exists b, stores. split; [done|]. split; [done|]. rewrite Hb.
split; intros Hall i t Hi; [|apply Hall; by right]. apply elem_of_cons in Hi as [->|Hi]; [|by apply Hall].
intros _ Et Ha. rewrite Es in Et. injection Et as <-. unfold active in Ha. lia.
Qed.

Lemma seven_indices j : (j < 7)%nat ↔ j ∈ seq 0 7.
Proof using. rewrite elem_of_seq. lia. Qed.

Lemma dependencies_ready_holds c k ss i :
holds c k ss →
∃ b stores, dependencies_ready (Z.of_nat i) c = (b, set_states c stores) ∧ holds (set_states c stores) k ss ∧
(b = true ↔ ∀ j s, depends i j = true → ss !! j = Some s → state s = COMPONENT_STATE_READY).
Proof using All.
intros Hh. destruct (dependencies_loop_holds k ss (dependency_mask (descriptor (W := W) (Z.of_nat i))) (seq 0 7) c Hh) as (b & l & E & Hl & Hb).
{ apply list.Forall_forall. intros j. by rewrite seven_indices. }
exists b, l. split; [exact E|]. split; [done|]. rewrite Hb. unfold depends.
split; intros Hall j s.
- intros Hd%negb_true_iff%Z.eqb_neq Hs. apply (Hall j s); [|done|done]. apply seven_indices.
rewrite <- (holds_count _ _ _ Hh). by eapply lookup_lt_Some.
- intros _ Hd Hs. apply (Hall j s); [|done]. by apply negb_true_iff, Z.eqb_neq.
Qed.

Lemma ready_dependent_holds c k ss i :
holds c k ss →
∃ b stores, ready_dependent_exists (Z.of_nat i) c = (b, set_states c stores) ∧ holds (set_states c stores) k ss ∧
(b = false ↔ ∀ j s, depends j i = true → ss !! j = Some s → ¬ active s).
Proof using All.
intros Hh. destruct (dependents_loop_holds k ss (COMPONENT_DEP (Z.of_nat i)) (seq 0 7) c Hh) as (b & l & E & Hl & Hb).
{ apply list.Forall_forall. intros j. by rewrite seven_indices. }
exists b, l. split; [exact E|]. split; [done|]. rewrite Hb. unfold depends.
split; intros Hall j s.
- intros Hd%negb_true_iff%Z.eqb_neq Hs. apply (Hall j s); [|done|done]. apply seven_indices.
rewrite <- (holds_count _ _ _ Hh). by eapply lookup_lt_Some.
- intros _ Hd Hs. apply (Hall j s); [|done]. by apply negb_true_iff, Z.eqb_neq.
Qed.

(** ** Actions do not look at the stores *)
Lemma cleanup_states pid g (c : control) l :
component_control_process_cleanup pid g (set_states c l) = set_states (component_control_process_cleanup pid g c) l.
Proof using.
unfold component_control_process_cleanup. cbn. destruct (_ || _); [done|]. by destruct (_ && _).
Qed.

Lemma cleanups_states ended l : ∀ c : control,
foldl (λ c p, component_control_process_cleanup p.1 p.2 c) (set_states c l) ended =
set_states (foldl (λ c p, component_control_process_cleanup p.1 p.2 c) c ended) l.
Proof using. induction ended as [|p ended IH]; intros c; [done|]. cbn [foldl]. by rewrite cleanup_states, IH. Qed.

Lemma try_action_states f d (c : control) l :
try_action f d (set_states c l) = ((try_action f d c).1, set_states (try_action f d c).2 l).
Proof using.
destruct f as [f|]; [|done]. unfold try_action, run_action. cbn [world set_states].
destruct (f d (world c)) as [[ok ended] w].
change (set_world (set_states c l) w) with (set_states (set_world c w) l). by rewrite cleanups_states.
Qed.

Lemma try_ready_states f (c : control) l :
try_ready f (set_states c l) = ((try_ready f c).1, set_states (try_ready f c).2 l).
Proof using. destruct f as [f|]; [|done]. unfold try_ready. cbn [world set_states]. by destruct (f (world c)). Qed.

(** What the actions of a transition do, whatever the stores hold. *)
Definition down_run (i d : Z) (c : control) : bool * Z * control :=
let '(ok, c) := try_action (down (descriptor i)) d c in (action_result ok d c, c).

Definition up_run (i d : Z) (c : control) : bool * Z * control :=
let '(ok, c) := try_action (up (descriptor i)) d c in
let '(ok, c) := if (ok : bool) then try_ready (d_ready (descriptor i)) c else (false, c) in
let a := action_result ok d c in
(a, if a.1 then c else (try_action (down (descriptor i)) d c).2).

(** An action succeeds with answer 0, or fails with one of three answers. *)
Lemma action_result_cases ok d (c : control) :
action_result ok d c = (true, 0) ∨
∃ e, action_result ok d c = (false, e) ∧ (e = -125 ∨ e = -110 ∨ e = -5).
Proof using.
unfold action_result. destruct (operation_cancel_requested c); [right; exists (-125); tauto|].
destruct ok; [by left|right]. destruct (deadline_expired d c); eexists; split; [done|tauto|done|tauto].
Qed.

(** What a transition leaves alone. *)
Definition same_operation (c c' : control) : Prop :=
initialized c' = initialized c ∧ operation_busy c' = operation_busy c ∧
operation_owner_pid c' = operation_owner_pid c ∧ operation_owner_generation c' = operation_owner_generation c.

Lemma cleanup_same pid g (c : control) : same_operation c (component_control_process_cleanup pid g c).
Proof using. unfold component_control_process_cleanup. destruct (_ || _); [done|]. by destruct (_ && _). Qed.

Lemma cleanups_same ended : ∀ c : control,
same_operation c (foldl (λ c p, component_control_process_cleanup p.1 p.2 c) c ended).
Proof using.
induction ended as [|p ended IH]; intros c; [done|]. cbn [foldl].
destruct (IH (component_control_process_cleanup p.1 p.2 c)) as (? & ? & ? & ?).
destruct (cleanup_same p.1 p.2 c) as (? & ? & ? & ?). split_and!; congruence.
Qed.

Lemma try_action_same f d (c : control) : same_operation c (try_action f d c).2.
Proof using.
destruct f as [f|]; [|done]. unfold try_action, run_action. destruct (f d (world c)) as [[ok ended] w].
apply (cleanups_same ended (set_world c w)).
Qed.
Lemma try_ready_same f (c : control) : same_operation c (try_ready f c).2.
Proof using. destruct f as [f|]; [|done]. unfold try_ready. by destruct (f (world c)). Qed.

Lemma same_trans (c1 c2 c3 : control) : same_operation c1 c2 → same_operation c2 c3 → same_operation c1 c3.
Proof using. intros (?&?&?&?) (?&?&?&?). split_and!; congruence. Qed.

Lemma down_run_same i d (c : control) : same_operation c (down_run i d c).2.
Proof using.
unfold down_run. pose proof (try_action_same (down (descriptor i)) d c) as Hs. by destruct (try_action _ d c).
Qed.
Lemma up_run_same i d (c : control) : same_operation c (up_run i d c).2.
Proof using.
unfold up_run. pose proof (try_action_same (up (descriptor i)) d c) as Hs. destruct (try_action _ d c) as [ok c1].
cbn [snd] in Hs. assert (same_operation c (if ok then try_ready (d_ready (descriptor i)) c1 else (false, c1)).2) as Hs2.
{ destruct ok; [|done]. eapply same_trans; [exact Hs|apply try_ready_same]. }
destruct (if ok then _ else _) as [ok2 c2]. cbn [snd] in *. destruct (action_result ok2 d c2).1; [done|].
eapply same_trans; [exact Hs2|apply try_action_same].
Qed.

(** ** Transitions *)
Definition protected (i : nat) : Prop := Z.land (d_flags (descriptor (W := W) (Z.of_nat i))) COMPONENT_FLAG_PROTECTED ≠ 0.

Definition dependents_idle (ss : list component_state_t) (i : nat) : Prop :=
∀ j t, depends j i = true → ss !! j = Some t → ¬ active t.
Definition dependencies_up (ss : list component_state_t) (i : nat) : Prop :=
∀ j t, depends i j = true → ss !! j = Some t → state t = COMPONENT_STATE_READY.

(** The record a transition ends with. *)
Definition finished (s : component_state_t) (a : bool * Z) (reached : Z) : component_state_t :=
State (component s) (if a.1 then reached else COMPONENT_STATE_FAILED) (generation s + 1) 0 0 (u32 a.2).

(** Answers of a transition that does not start. *)
Definition down_refused (ss : list component_state_t) (i : nat) (s : component_state_t) (e : Z) : Prop :=
(e = COMPONENT_EPROTECTED ∧ protected i) ∨
(¬ protected i ∧ ((e = 0 ∧ state s = COMPONENT_STATE_DOWN) ∨ (e = COMPONENT_EDEPENDENCY ∧ ¬ dependents_idle ss i) ∨
 (e = COMPONENT_ESTATE ∧ generation s = UINT32_MAX))).
Definition up_refused (ss : list component_state_t) (i : nat) (s : component_state_t) (e : Z) : Prop :=
(e = COMPONENT_EPROTECTED ∧ protected i) ∨
(¬ protected i ∧ ((e = 0 ∧ state s = COMPONENT_STATE_READY) ∨ (e = COMPONENT_EDEPENDENCY ∧ ¬ dependencies_up ss i) ∨
 (e = COMPONENT_ESTATE ∧ generation s = UINT32_MAX))).

(** Publishing the end of a transition that began in [s]. *)
Lemma transition_end c k ss i s t pid g a reached :
holds c (k + 1) (<[i := begun_state s t pid g]> ss) → ss !! i = Some s → 0 <= k → component s = Z.of_nat i →
well_typed (begun_state s t pid g) → (i < 7)%nat → generation (begun_state s t pid g) = generation s + 1 → generation s + 1 ≠ 0 →
reached = COMPONENT_STATE_READY ∨ reached = COMPONENT_STATE_DOWN →
∃ l, state_write (Z.of_nat i)
(finish_state (begun_state s t pid g) (if (a.1 : bool) then reached else COMPONENT_STATE_FAILED) a.2) c = (0, set_states c l) ∧
holds (set_states c l) k (<[i := finished s a reached]> ss).
Proof using All.
intros Hh Es Hk Ec Ht Hi Hg Hg0 Hr.
set (r := finish_state _ _ _).
assert (r = finished s a reached) as Er by (unfold r, finish_state, finished; rewrite Hg; done).
assert (settled r) as Hset.
{ unfold settled, r. cbn. destruct a.1; [|tauto]. destruct Hr as [->| ->]; tauto. }
destruct (finished_ok (begun_state s t pid g) (if a.1 then reached else COMPONENT_STATE_FAILED) a.2) as [Hrt Hrok]; try done.
{ cbn. rewrite Ec. lia. } { by rewrite Hg. }
fold r in Hrt, Hrok.
destruct (state_write_holds c k (<[i := begun_state s t pid g]> ss) i (begun_state s t pid g) r Hh) as (l & E & Hl); try done.
{ apply list_lookup_insert_eq. by eapply lookup_lt_Some. }
exists l. split; [done|]. rewrite list_insert_insert_eq, Er in Hl. done.
Qed.

Lemma generation_next s : well_typed s → generation s + 1 ≠ 0.
Proof using. rewrite component_state_typed. unfold is_u32. lia. Qed.

Lemma perform_down_holds c k ss i s pid g d :
holds c (k + 2) ss → ss !! i = Some s → 0 <= k → settled s → 0 < pid <= INT32_MAX → is_u32 g → g ≠ 0 →
(∃ e l, perform_down (Z.of_nat i) pid g d c = (e, set_states c l) ∧ holds (set_states c l) (k + 2) ss ∧ down_refused ss i s e) ∨
(¬ protected i ∧ state s ≠ COMPONENT_STATE_DOWN ∧ dependents_idle ss i ∧ generation s ≠ UINT32_MAX ∧
 let r := down_run (Z.of_nat i) d c in
 ∃ l, perform_down (Z.of_nat i) pid g d c = (r.1.2, set_states r.2 l) ∧
 holds (set_states r.2 l) k (<[i := finished s r.1 COMPONENT_STATE_DOWN]> ss)).
Proof using All.
intros Hh Es Hk Hset Hpid Hg Hg0. destruct (holds_state c _ ss i s Hh Es) as (Ht & _ & Hi & Ec).
unfold perform_down. destruct (state_read_holds c (k + 2) ss i s no_state Hh Es) as (l1 & -> & H1). cbn [Z.eqb negb].
destruct (Z.eqb_spec (Z.land (d_flags (descriptor (W := W) (Z.of_nat i))) COMPONENT_FLAG_PROTECTED) 0) as [Ep|Ep]; cbn [negb].
2: { left. eexists _, l1. split; [done|]. split; [done|]. by left. }
assert (¬ protected i) as Hnp by (intros Hp; by apply Hp).
destruct (Z.eqb_spec (state s) COMPONENT_STATE_DOWN) as [Ed|Ed].
{ left. eexists _, l1. split; [done|]. split; [done|]. right. split; [done|by left]. }
destruct (_ || _) eqn:Eb; [exfalso; unfold settled, COMPONENT_STATE_READY, COMPONENT_STATE_DOWN, COMPONENT_STATE_FAILED,
COMPONENT_STATE_QUIESCING, COMPONENT_STATE_STARTING in *; lia|].
destruct (ready_dependent_holds _ (k + 2) ss i H1) as (b & l2 & -> & H2 & Hb). cbn [protected_states set_states] in *.
destruct b.
{ left. eexists _, l2. split; [done|]. split; [done|]. right. split; [done|]. right. left. split; [done|].
intros Hidle. by apply Hb in Hidle. }
assert (dependents_idle ss i) as Hidle by exact (proj1 Hb eq_refl).
unfold begin_transition. destruct (Z.eqb_spec (generation s) UINT32_MAX) as [Eg|Eg].
{ left. eexists _, l2. split; [done|]. split; [done|]. right. split; [done|]. right. by right. }
destruct (begun_ok s COMPONENT_STATE_QUIESCING pid g Ht ltac:(lia) Eg ltac:(by left) Hpid Hg Hg0) as (Hbt & Hbok & Hbg).
cbn [component begun_state]. rewrite Ec.
replace (k + 2) with (k + 1 + 1) in H2 by lia.
destruct (state_write_holds _ (k + 1) ss i s (begun_state s COMPONENT_STATE_QUIESCING pid g) H2 Es) as (l3 & -> & H3); [by cbn; rewrite Ec|done|done|lia|].
cbn [Z.eqb negb]. change (set_states (set_states (set_states c l1) l2) l3) with (set_states c l3) in *.
right. split; [done|]. split; [done|]. split; [done|]. split; [done|].
unfold down_run. rewrite try_action_states. destruct (try_action (down (descriptor (Z.of_nat i))) d c) as [ok c1]. cbn [fst snd].
change (action_result ok d (set_states c1 l3)) with (action_result ok d c1).
destruct (action_result ok d c1) as [stopped e] eqn:Ea.
assert (holds (set_states c1 l3) (k + 1) (<[i := begun_state s COMPONENT_STATE_QUIESCING pid g]> ss)) as H4
by (by eapply holds_stores_of; [|exact H3]).
destruct (transition_end _ k ss i s COMPONENT_STATE_QUIESCING pid g (stopped, e) COMPONENT_STATE_DOWN H4 Es Hk Ec Hbt Hi Hbg
(generation_next s Ht) ltac:(by right)) as (l4 & E4 & H5).
cbn [fst snd] in E4. rewrite E4. cbn [Z.eqb negb]. exists l4. done.
Qed.

Lemma perform_up_holds c k ss i s pid g d :
holds c (k + 2) ss → ss !! i = Some s → 0 <= k → settled s → 0 < pid <= INT32_MAX → is_u32 g → g ≠ 0 →
(∃ e l, perform_up (Z.of_nat i) pid g d c = (e, set_states c l) ∧ holds (set_states c l) (k + 2) ss ∧ up_refused ss i s e) ∨
(¬ protected i ∧ state s ≠ COMPONENT_STATE_READY ∧ dependencies_up ss i ∧ generation s ≠ UINT32_MAX ∧
 let r := up_run (Z.of_nat i) d c in
 ∃ l, perform_up (Z.of_nat i) pid g d c = (r.1.2, set_states r.2 l) ∧
 holds (set_states r.2 l) k (<[i := finished s r.1 COMPONENT_STATE_READY]> ss)).
Proof using All.
intros Hh Es Hk Hset Hpid Hg Hg0. destruct (holds_state c _ ss i s Hh Es) as (Ht & _ & Hi & Ec).
unfold perform_up. destruct (state_read_holds c (k + 2) ss i s no_state Hh Es) as (l1 & -> & H1). cbn [Z.eqb negb].
destruct (Z.eqb_spec (Z.land (d_flags (descriptor (W := W) (Z.of_nat i))) COMPONENT_FLAG_PROTECTED) 0) as [Ep|Ep]; cbn [negb].
2: { left. eexists _, l1. split; [done|]. split; [done|]. by left. }
assert (¬ protected i) as Hnp by (intros Hp; by apply Hp).
destruct (Z.eqb_spec (state s) COMPONENT_STATE_READY) as [Ed|Ed].
{ left. eexists _, l1. split; [done|]. split; [done|]. right. split; [done|by left]. }
destruct (_ || _) eqn:Eb; [exfalso; unfold settled, COMPONENT_STATE_READY, COMPONENT_STATE_DOWN, COMPONENT_STATE_FAILED,
COMPONENT_STATE_QUIESCING, COMPONENT_STATE_STARTING in *; lia|].
destruct (dependencies_ready_holds _ (k + 2) ss i H1) as (b & l2 & -> & H2 & Hb). cbn [protected_states set_states] in *.
destruct b; cbn [negb].
2: { left. eexists _, l2. split; [done|]. split; [done|]. right. split; [done|]. right. left. split; [done|].
intros Hup. by apply Hb in Hup. }
assert (dependencies_up ss i) as Hup by exact (proj1 Hb eq_refl).
unfold begin_transition. destruct (Z.eqb_spec (generation s) UINT32_MAX) as [Eg|Eg].
{ left. eexists _, l2. split; [done|]. split; [done|]. right. split; [done|]. right. by right. }
destruct (begun_ok s COMPONENT_STATE_STARTING pid g Ht ltac:(lia) Eg ltac:(by right) Hpid Hg Hg0) as (Hbt & Hbok & Hbg).
cbn [component begun_state]. rewrite Ec.
replace (k + 2) with (k + 1 + 1) in H2 by lia.
destruct (state_write_holds _ (k + 1) ss i s (begun_state s COMPONENT_STATE_STARTING pid g) H2 Es) as (l3 & -> & H3); [by cbn; rewrite Ec|done|done|lia|].
cbn [Z.eqb negb]. change (set_states (set_states (set_states c l1) l2) l3) with (set_states c l3) in *.
right. split; [done|]. split; [done|]. split; [done|]. split; [done|].
unfold up_run. rewrite try_action_states. destruct (try_action (up (descriptor (Z.of_nat i))) d c) as [ok c1]. cbn [fst snd].
assert ((if ok then try_ready (d_ready (descriptor (Z.of_nat i))) (set_states c1 l3) else (false, set_states c1 l3)) =
let p := if ok then try_ready (d_ready (descriptor (Z.of_nat i))) c1 else (false, c1) in (p.1, set_states p.2 l3)) as ->
by (destruct ok; [apply try_ready_states|done]).
destruct (if ok then try_ready (d_ready (descriptor (Z.of_nat i))) c1 else (false, c1)) as [ok2 c2]. cbn [fst snd].
change (action_result ok2 d (set_states c2 l3)) with (action_result ok2 d c2).
destruct (action_result ok2 d c2) as [started e] eqn:Ea. cbn [fst snd].
assert ((if started then set_states c2 l3 else (try_action (down (descriptor (Z.of_nat i))) d (set_states c2 l3)).2) =
set_states (if started then c2 else (try_action (down (descriptor (Z.of_nat i))) d c2).2) l3) as ->
by (destruct started; [done|by rewrite try_action_states]).
set (c3 := if started then c2 else _).
assert (holds (set_states c3 l3) (k + 1) (<[i := begun_state s COMPONENT_STATE_STARTING pid g]> ss)) as H4
by (by eapply holds_stores_of; [|exact H3]).
destruct (transition_end _ k ss i s COMPONENT_STATE_STARTING pid g (started, e) COMPONENT_STATE_READY H4 Es Hk Ec Hbt Hi Hbg
(generation_next s Ht) ltac:(by left)) as (l4 & E4 & H5).
cbn [fst snd] in E4. rewrite E4. cbn [Z.eqb negb]. exists l4. done.
Qed.

(** ** Steps of the component states *)
Definition answer_ok (a : bool * Z) : Prop :=
a = (true, 0) ∨ ∃ e, a = (false, e) ∧ (e = -125 ∨ e = -110 ∨ e = -5).

Lemma down_run_answer i d (c : control) : answer_ok (down_run i d c).1.
Proof using. unfold down_run. destruct (try_action _ d c) as [ok c1]. apply action_result_cases. Qed.
Lemma up_run_answer i d (c : control) : answer_ok (up_run i d c).1.
Proof using.
unfold up_run. destruct (try_action _ d c) as [ok c1]. destruct (if ok then _ else _) as [ok2 c2]. apply action_result_cases.
Qed.

Inductive component_step (ss : list component_state_t) (i : nat) : list component_state_t → Prop :=
| stays : component_step ss i ss
| goes_down s a :
  ss !! i = Some s → ¬ protected i → state s ≠ COMPONENT_STATE_DOWN → dependents_idle ss i → answer_ok a →
  component_step ss i (<[i := finished s a COMPONENT_STATE_DOWN]> ss)
| goes_up s a :
  ss !! i = Some s → ¬ protected i → state s ≠ COMPONENT_STATE_READY → dependencies_up ss i → answer_ok a →
  component_step ss i (<[i := finished s a COMPONENT_STATE_READY]> ss).

Definition all_settled (ss : list component_state_t) : Prop := ∀ i s, ss !! i = Some s → settled s.

(** No ready component depends on one that is not ready. *)
Definition closed (ss : list component_state_t) : Prop :=
∀ i s, ss !! i = Some s → state s = COMPONENT_STATE_READY → dependencies_up ss i.

Definition core_untouched (ss : list component_state_t) : Prop :=
∀ i s, protected i → ss !! i = Some s → s = State (Z.of_nat i) COMPONENT_STATE_READY 1 0 0 0.

Lemma finished_settled s a reached :
reached = COMPONENT_STATE_READY ∨ reached = COMPONENT_STATE_DOWN → settled (finished s a reached).
Proof using. unfold settled. cbn. destruct a.1; intros [->| ->]; tauto. Qed.

Lemma step_settled ss i ss' : component_step ss i ss' → all_settled ss → all_settled ss'.
Proof using.
intros Hs Ha j t Hj. destruct Hs as [|s a Es _ _ _ _|s a Es _ _ _ _]; [by eapply Ha| |];
apply list_lookup_insert_Some in Hj as [(_ & <- & _)|[_ Hj]]; try (by eapply Ha); apply finished_settled; tauto.
Qed.

Lemma step_core ss i ss' : component_step ss i ss' → core_untouched ss → core_untouched ss'.
Proof using.
intros Hs Hc j t Hp Hj. destruct Hs as [|s a Es Hn _ _ _|s a Es Hn _ _ _]; [by eapply Hc| |];
(apply list_lookup_insert_Some in Hj as [(<- & _ & _)|[_ Hj]]; [done|by eapply Hc]).
Qed.

Lemma depends_irreflexive i : (i < 7)%nat → depends i i = false.
Proof using. intros Hi. do 7 (destruct i as [|i]; [reflexivity|]). lia. Qed.

Lemma down_not_ready s a : answer_ok a → state (finished s a COMPONENT_STATE_DOWN) ≠ COMPONENT_STATE_READY.
Proof using. by intros [->|(e & -> & _)]. Qed.

Lemma step_closed ss i ss' : length ss = 7%nat → component_step ss i ss' → closed ss → closed ss'.
Proof using.
intros Hlen Hs Hc. destruct Hs as [|s a Es Hn Hst Hidle Ha|s a Es Hn Hst Hup Ha]; [done| |].
- intros j t Hj Hr q u Hd Hq.
apply list_lookup_insert_Some in Hj as [(-> & <- & _)|[Hij Hj]]; [by destruct (down_not_ready s a Ha)|].
apply list_lookup_insert_Some in Hq as [(-> & <- & _)|[_ Hq]]; [|by apply (Hc j t Hj Hr q u)].
destruct (Hidle j t Hd Hj). by left.
- intros j t Hj Hr q u Hd Hq.
assert (∀ t0, ss !! j = Some t0 → state t0 = COMPONENT_STATE_READY → i = q → False) as Hno.
{ intros t0 Ht0 Hr0 ->. by apply Hst, (Hc j t0 Ht0 Hr0 q s Hd). }
apply list_lookup_insert_Some in Hq as [(E & <- & _)|[Hiq Hq]].
+ apply list_lookup_insert_Some in Hj as [(-> & <- & _)|[_ Hj]]; [|by destruct (Hno t Hj Hr E)].
subst q. rewrite depends_irreflexive in Hd; [done|]. rewrite <- Hlen. by eapply lookup_lt_Some.
+ apply list_lookup_insert_Some in Hj as [(-> & <- & _)|[_ Hj]]; [by apply (Hup q u)|by apply (Hc j t Hj Hr q u)].
Qed.

(** ** Requests *)
Definition valid_caller (pid g : Z) : Prop := 0 < pid <= INT32_MAX ∧ is_u32 g ∧ g ≠ 0.

Lemma perform_down_step c k ss i pid g d :
holds c (k + 2) ss → all_settled ss → (i < 7)%nat → 0 <= k → valid_caller pid g →
∃ e c' ss', perform_down (Z.of_nat i) pid g d c = (e, c') ∧ holds c' k ss' ∧ component_step ss i ss' ∧ same_operation c c'.
Proof using All.
intros Hh Hset Hi Hk (Hpid & Hg & Hg0).
destruct (lookup_lt_is_Some_2 ss i) as [s Es]; [by rewrite (holds_count _ _ _ Hh)|].
destruct (perform_down_holds c k ss i s pid g d Hh Es Hk (Hset i s Es) Hpid Hg Hg0)
as [(e & l & E & Hl & _)|(Hnp & Hst & Hidle & Hgen & l & E & Hl)].
- exists e, (set_states c l), ss. split; [done|]. split; [eapply holds_less; [exact Hl|lia]|]. by split; [constructor|].
- eexists _, _, _. split; [exact E|]. split; [exact Hl|]. split; [|exact (down_run_same (Z.of_nat i) d c)].
constructor; try done. apply down_run_answer.
Qed.

Lemma perform_up_step c k ss i pid g d :
holds c (k + 2) ss → all_settled ss → (i < 7)%nat → 0 <= k → valid_caller pid g →
∃ e c' ss', perform_up (Z.of_nat i) pid g d c = (e, c') ∧ holds c' k ss' ∧ component_step ss i ss' ∧ same_operation c c'.
Proof using All.
intros Hh Hset Hi Hk (Hpid & Hg & Hg0).
destruct (lookup_lt_is_Some_2 ss i) as [s Es]; [by rewrite (holds_count _ _ _ Hh)|].
destruct (perform_up_holds c k ss i s pid g d Hh Es Hk (Hset i s Es) Hpid Hg Hg0)
as [(e & l & E & Hl & _)|(Hnp & Hst & Hup & Hgen & l & E & Hl)].
- exists e, (set_states c l), ss. split; [done|]. split; [eapply holds_less; [exact Hl|lia]|]. by split; [constructor|].
- eexists _, _, _. split; [exact E|]. split; [exact Hl|]. split; [|exact (up_run_same (Z.of_nat i) d c)].
constructor; try done. apply up_run_answer.
Qed.

(** Two steps of one component make a restart. *)
Definition component_steps (i : nat) (ss ss' : list component_state_t) : Prop :=
∃ mid, component_step ss i mid ∧ component_step mid i ss'.

Lemma perform_steps c k ss r i pid g d :
holds c (k + 4) ss → all_settled ss → (i < 7)%nat → r_component r = Z.of_nat i → 0 <= k → valid_caller pid g →
∃ e c' ss', perform r pid g d c = (e, c') ∧ holds c' k ss' ∧ component_steps i ss ss' ∧ same_operation c c'.
Proof using All.
intros Hh Hset Hi Er Hk Hcaller. unfold perform. rewrite Er. replace (k + 4) with (k + 2 + 2) in Hh by lia.
assert (∀ (e : Z) c' ss', holds c' (k + 2) ss' → component_step ss i ss' → same_operation c c' → 
∃ e0 c0 ss0, (e, c') = (e0, c0) ∧ holds c0 k ss0 ∧ component_steps i ss ss0 ∧ same_operation c c0) as Hone.
{ intros e c' ss' Hh' Hs Hsame. exists e, c', ss'. split; [done|]. split; [eapply holds_less; [exact Hh'|lia]|].
split; [|done]. exists ss'. by split; [|constructor]. }
destruct (perform_down_step c (k + 2) ss i pid g d Hh Hset Hi ltac:(lia) Hcaller) as (e & c' & ss' & Ed & Hd & Hs & Hsame).
destruct (perform_up_step c (k + 2) ss i pid g d Hh Hset Hi ltac:(lia) Hcaller) as (e2 & c2 & ss2 & Eu & Hu & Hs2 & Hsame2).
destruct (command r =? COMPONENT_COMMAND_DOWN); [rewrite Ed; exact (Hone _ _ _ Hd Hs Hsame)|].
destruct (command r =? COMPONENT_COMMAND_UP); [rewrite Eu; exact (Hone _ _ _ Hu Hs2 Hsame2)|].
rewrite Ed. destruct (_ && _).
- destruct (perform_up_step c' k ss' i pid g d Hd (step_settled _ _ _ Hs Hset) Hi Hk Hcaller) as (e3 & c3 & ss3 & E3 & H3 & Hs3 & Hsame3).
exists e3, c3, ss3. split; [done|]. split; [done|]. split; [by exists ss'|exact (same_trans _ _ _ Hsame Hsame3)].
- exact (Hone _ _ _ Hd Hs Hsame).
Qed.
End component.
