(* ===== verification/ComponentControlProps.v ===== *)
(** Component control: runs of calls, and the properties. *)
From Stdlib Require Import String.
From S2P Require Import Prelude ProtectedStore Layout ProtectedRecord CriticalObject ComponentControl ComponentControlSpec.
Import ComponentControl.

Section runs.
Context {O : Type} `{ProtectedStoreLaws O} {W : Type} `{Drivers W}.
#[local] Abbreviation control := (component_control_t O W).

(** No operation is running. *)
Definition quiet (c : control) : Prop := initialized c = true ∧ operation_busy c = 0.

Definition typed_call (pid g : Z) (r : component_control_request_t) : Prop :=
pid <= INT32_MAX ∧ is_u32 g ∧ is_u32 (r_component r).

(** A refused request, a status request or a transition. *)
Lemma execute_step c k ss pid g r result now :
holds c (k + 4) ss → all_settled ss → quiet c → 0 <= k → typed_call pid g r →
∃ e res c' ss' i, component_control_execute pid g (Some r) result now c = (e, res, c') ∧ holds c' k ss' ∧
component_steps (W := W) i ss ss' ∧ quiet c'.
Proof using All.
intros Hh Hset [Hini Hbusy] Hk (Hpid & Hg & Hr).
assert (∀ (e : Z) (res : option component_control_result_t) l, holds (set_states c l) (k + 4) ss →
∃ e0 res0 c' ss' i, (e, res, set_states c l) = (e0, res0, c') ∧ holds c' k ss' ∧ component_steps (W := W) i ss ss' ∧ quiet c') as Hstay.
{ intros e res l Hl. exists e, res, (set_states c l), ss, 0%nat. split; [done|]. split; [eapply holds_less; [exact Hl|lia]|].
split; [exists ss; split; constructor|done]. }
unfold component_control_execute. destruct result as [old|].
2: { pose proof (Hstay (-22) None (protected_states c)) as Hs. rewrite set_states_same in Hs. by apply Hs. }
destruct (_ || _) eqn:Eg.
{ pose proof (Hstay (-22) (Some old) (protected_states c)) as Hs. rewrite set_states_same in Hs. by apply Hs. }
rewrite !orb_false_iff in Eg. destruct Eg as (((((((_ & E1) & E2) & _) & _) & E3) & _) & _).
apply Z.leb_gt in E1, E3. apply Z.eqb_neq in E2. change COMPONENT_CONTROL_MAX_COMPONENTS with 7 in E3.
destruct (lookup_lt_is_Some_2 ss (Z.to_nat (r_component r))) as [s Es]; [rewrite (holds_count _ _ _ Hh); unfold is_u32 in Hr; lia|].
assert (r_component r = Z.of_nat (Z.to_nat (r_component r))) as Er by (unfold is_u32 in Hr; lia).
destruct (state_read_holds c (k + 4) ss _ s no_state Hh Es) as (l & E & Hl). rewrite <- Er in E. rewrite E. cbn [Z.eqb negb].
destruct (_ && _); [by apply Hstay|]. destruct (command r =? COMPONENT_COMMAND_STATUS); [by apply Hstay|].
destruct (negb (Z.land _ _ =? 0)); [by apply Hstay|]. cbn [operation_busy set_states]. rewrite Hbusy. cbn [Z.eqb negb].
set (timeout := if timeout_ms r =? 0 then _ else _).
set (c1 := set_operation (set_states c l) 1 pid g false).
assert (holds c1 (k + 4) ss) as H1 by by eapply holds_stores_of; [|exact Hl].
destruct (perform_steps c1 k ss r (Z.to_nat (r_component r)) pid g (deadline_after now timeout) H1 Hset) as (e & c2 & ss2 & E2' & H2 & Hs & Hsame);
[unfold is_u32 in Hr; lia|done|done|by split_and!|].
rewrite E2'. set (c3 := set_operation c2 0 0 0 false).
assert (holds c3 k ss2) as H3 by by eapply holds_stores_of; [|exact H2].
destruct (lookup_lt_is_Some_2 ss2 (Z.to_nat (r_component r))) as [s2 Es2]; [rewrite (holds_count _ _ _ H2); unfold is_u32 in Hr; lia|].
destruct (state_read_holds c3 k ss2 _ s2 s H3 Es2) as (l4 & E4 & H4). rewrite <- Er in E4. rewrite E4. cbn [Z.eqb negb].
eexists _, _, _, ss2, _. split; [done|]. split; [exact H4|]. split; [exact Hs|].
split; [|done]. cbn. by rewrite (proj1 Hsame).
Qed.

(** ** Starting *)
Definition initial_state (i : nat) (ready : bool) : component_state_t :=
State (Z.of_nat i) (if ready then COMPONENT_STATE_READY else COMPONENT_STATE_DOWN) 1 0 0 0.

Definition initial_ok (i : nat) (s : component_state_t) : Prop :=
∃ ready, s = initial_state i ready ∧ (protected (W := W) i → ready = true).

Lemma initial_valid i ready : (i < 7)%nat → well_typed (initial_state i ready) ∧ state_ok (initial_state i ready) = true.
Proof using. intros Hi. do 7 (destruct i as [|i]; [destruct ready; (split; [apply component_state_typed; repeat split; done|done])|]). lia. Qed.

(** Protected components are not manageable. *)
Lemma protected_unmanaged i : protected (W := W) i → Z.land (d_flags (descriptor (W := W) (Z.of_nat i))) COMPONENT_FLAG_MANAGEABLE = 0.
Proof using. unfold protected. do 7 (destruct i as [|i]; [by vm_compute|]). by intros []; rewrite Nat2Z.inj_succ; unfold descriptor; rewrite nth_overflow by (cbn; lia). Qed.

Lemma initial_loop_holds n : ∀ j (c : control) states,
(j + n = 7)%nat → length (protected_states c) = 7%nat → length states = j →
Forall2 (store_holds (UINT32_MAX - 1)) (take j (protected_states c)) states →
(∀ i s, states !! i = Some s → initial_ok i s) →
∃ c' ss, init_loop (Z.of_nat <$> seq j n) c = (true, c') ∧ Forall2 (store_holds (UINT32_MAX - 1)) (protected_states c') ss ∧
length ss = 7%nat ∧ ∀ i s, ss !! i = Some s → initial_ok i s.
Proof using All.
induction n as [|n IH]; intros j c states Hj Hc Hl Hs Hok.
{ exists c, states. split; [done|]. rewrite take_ge in Hs by lia. split; [done|]. split; [lia|done]. }
cbn [seq fmap list_fmap init_loop].
set (manageable := negb _). set (r := if manageable then _ else _).
assert (protected_states r.2 = protected_states c ∧ (protected (W := W) j → r.1 = true)) as [Er Hp].
{ unfold r. destruct manageable eqn:Em; [|done]. split; [unfold try_ready; destruct (d_ready _) as [q|]; [by destruct (q (world c))|done]|].
intros Hp%protected_unmanaged. unfold manageable in Em. by rewrite Hp in Em. }
destruct r as [ready c1]. cbn [fst snd] in *. rewrite Er, Nat2Z.id.
change (State (Z.of_nat j) _ 1 0 0 0) with (initial_state j ready).
destruct (lookup_lt_is_Some_2 (protected_states c) j) as [store Es]; [lia|]. rewrite Es.
destruct (initial_valid j ready) as [Ht Hv]; [lia|].
destruct (init_record_spec COMPONENT_STATE_VERSION state_ok (-84) ltac:(easy) ltac:(done) component_state_size store (initial_state j ready) Ht Hv)
as (store' & -> & Hh). cbn [Z.eqb negb].
apply (IH (S j) _ (states ++ [initial_state j ready])); cbn [protected_states set_states].
- lia.
- by rewrite length_insert.
- rewrite length_app, Hl. cbn. lia.
- rewrite (take_S_r _ _ store'); [|apply list_lookup_insert_eq; lia].
rewrite take_insert_ge by lia. apply Forall2_app; [done|]. constructor; [|done]. exists 1. split; [lia|done].
- intros i s Hi. apply lookup_app_Some in Hi as [Hi|[Hi1 Hi2]]; [by apply Hok|].
destruct (decide (i = j)) as [->|Hne].
+ rewrite Hl, Nat.sub_diag in Hi2. injection Hi2 as <-. by exists ready.
+ apply lookup_lt_Some in Hi2. cbn in Hi2. lia.
Qed.

Lemma control_init_holds (c : control) :
initialized c = false → length (protected_states c) = 7%nat →
∃ c' ss, component_control_init c = (true, c') ∧ holds c' (UINT32_MAX - 1) ss ∧ quiet c' ∧
(∀ i s, ss !! i = Some s → initial_ok i s).
Proof using All.
intros Hini Hlen. unfold component_control_init. rewrite Hini.
destruct (initial_loop_holds 7 0 c []) as (c' & ss & E & Hs & Hl & Hok); [done|done|done|constructor|done|].
change (init_loop all_components c) with (init_loop (Z.of_nat <$> seq 0 7) c). rewrite E. cbn [negb].
eexists _, ss. split; [done|]. split; [|split; [done|done]]. split; [done|done|].
intros i s Hi. destruct (Hok i s Hi) as (b & -> & _). done.
Qed.

Lemma initial_settled ss : (∀ i s, ss !! i = Some s → initial_ok i s) → all_settled ss ∧ core_untouched (W := W) ss.
Proof using.
intros Hok. split.
- intros i s Hi. destruct (Hok i s Hi) as (b & -> & _). unfold settled. cbn. destruct b; tauto.
- intros i s Hp Hi. destruct (Hok i s Hi) as (b & -> & Hb). by rewrite (Hb Hp).
Qed.

(** ** Polling *)
(** The states after a poll: components that were down since boot may have
  become ready. *)
Definition polled (ss ss' : list component_state_t) : Prop :=
∀ i s', ss' !! i = Some s' → ∃ s, ss !! i = Some s ∧
(s' = s ∨ (Z.land (d_flags (descriptor (W := W) (Z.of_nat i))) COMPONENT_FLAG_MANAGEABLE ≠ 0 ∧
 state s = COMPONENT_STATE_DOWN ∧ generation s = 1 ∧ s' = finish_state s COMPONENT_STATE_READY 0)).

Lemma polled_refl ss : polled ss ss.
Proof using. intros i s Hi. exists s. tauto. Qed.

Lemma polled_trans a b c : polled a b → polled b c → polled a c.
Proof using.
intros H1 H2 i u Hu. destruct (H2 i u Hu) as (t & Ht & Hcase). destruct (H1 i t Ht) as (s & Hs & Hcase1).
exists s. split; [done|]. destruct Hcase as [->|(Hm & Hd & Hg & ->)]; [done|].
destruct Hcase1 as [->|(_ & _ & _ & ->)]; [by right|]. by cbn in Hd.
Qed.

Lemma polled_insert ss i s :
ss !! i = Some s → Z.land (d_flags (descriptor (W := W) (Z.of_nat i))) COMPONENT_FLAG_MANAGEABLE ≠ 0 →
state s = COMPONENT_STATE_DOWN → generation s = 1 → polled ss (<[i := finish_state s COMPONENT_STATE_READY 0]> ss).
Proof using.
intros Hs Hm Hd Hg j t Hj. apply list_lookup_insert_Some in Hj as [(<- & <- & _)|[_ Hj]]; [|exists t; tauto].
exists s. split; [done|]. by right.
Qed.

Lemma poll_loop_holds js : ∀ (c : control) k ss,
Forall (λ j, (j < 7)%nat) js → 0 <= k → holds c (k + Z.of_nat (length js)) ss →
∃ ss', holds (poll_loop (Z.of_nat <$> js) c) k ss' ∧ polled ss ss' ∧ same_operation c (poll_loop (Z.of_nat <$> js) c).
Proof using All.
induction js as [|j js IH]; intros c k ss Hjs Hk Hh.
{ exists ss. rewrite Z.add_0_r in Hh. split; [exact Hh|]. split; [apply polled_refl|done]. }
apply list.Forall_cons in Hjs as [Hj Hjs]. cbn [length] in Hh. cbn [fmap list_fmap poll_loop].
assert (∀ c1 ss1, holds c1 (k + Z.of_nat (length js)) ss1 → polled ss ss1 → same_operation c c1 →
∃ ss', holds (poll_loop (Z.of_nat <$> js) c1) k ss' ∧ polled ss ss' ∧ same_operation c (poll_loop (Z.of_nat <$> js) c1)) as Hnext.
{ intros c1 ss1 H1 Hp Hs. destruct (IH c1 k ss1 Hjs Hk H1) as (ss' & H' & Hp' & Hs'). exists ss'. split; [done|].
split; [by eapply polled_trans|exact (same_trans _ _ _ Hs Hs')]. }
assert (holds c (k + Z.of_nat (length js)) ss) as Hless by (eapply holds_less; [exact Hh|lia]).
destruct (Z.eqb_spec (Z.land (d_flags (descriptor (W := W) (Z.of_nat j))) COMPONENT_FLAG_MANAGEABLE) 0) as [Em|Em].
{ apply (Hnext c ss); [done|apply polled_refl|done]. }
pose proof (try_ready_same (d_ready (descriptor (Z.of_nat j))) c) as Hsame.
assert (protected_states (try_ready (d_ready (descriptor (Z.of_nat j))) c).2 = protected_states c) as Hps
by (unfold try_ready; destruct (d_ready _) as [q|]; [by destruct (q (world c))|done]).
destruct (try_ready _ c) as [ready c1]. cbn [snd] in *. destruct ready; cbn [negb].
2: { apply (Hnext c1 ss); [by eapply holds_stores_of|apply polled_refl|done]. }
assert (holds c1 (k + Z.of_nat (S (length js))) ss) as H1 by by eapply holds_stores_of.
destruct (lookup_lt_is_Some_2 ss j) as [s Es]; [rewrite (holds_count _ _ _ Hh); lia|].
destruct (state_read_holds c1 _ ss j s no_state H1 Es) as (l & -> & Hl). cbn [Z.eqb negb orb].
destruct (_ || _) eqn:Eb.
{ apply (Hnext _ ss); [eapply holds_less; [exact Hl|lia]|apply polled_refl|exact Hsame]. }
rewrite orb_false_iff, !negb_false_iff, !Z.eqb_eq in Eb. destruct Eb as [Eg Ed].
destruct (holds_state c1 _ ss j s H1 Es) as (Ht & Hok & _ & Ec).
destruct (finished_ok s COMPONENT_STATE_READY 0 Ht ltac:(lia) ltac:(lia) ltac:(by left)) as [Hft Hfok].
destruct (state_write_holds (set_states c1 l) (k + Z.of_nat (length js)) ss j s (finish_state s COMPONENT_STATE_READY 0))
as (l2 & -> & H2); [eapply holds_less; [exact Hl|lia]|done|done|done|done|lia|]. cbn [snd].
apply (Hnext _ _ H2); [by apply polled_insert|exact Hsame].
Qed.

Lemma poll_holds (c : control) k ss :
holds c (k + 7) ss → quiet c → 0 <= k →
∃ ss', holds (component_control_poll c) k ss' ∧ polled ss ss' ∧ quiet (component_control_poll c).
Proof using All.
intros Hh [Hini Hbusy] Hk. unfold component_control_poll. rewrite Hini, Hbusy. cbn [negb Z.eqb orb].
destruct (poll_loop_holds (seq 0 7) c k ss) as (ss' & H' & Hp & Hs); [apply list.Forall_forall; intros j; by rewrite seven_indices|done|done|].
exists ss'. split; [exact H'|]. split; [done|]. destruct Hs as (Hi & Hb & _).
split; [by rewrite <- Hini|by rewrite <- Hbusy].
Qed.

Lemma polled_settled ss ss' : polled ss ss' → all_settled ss → all_settled ss'.
Proof using.
intros Hp Ha i s' Hi. destruct (Hp i s' Hi) as (s & Hs & [->|(_ & _ & _ & ->)]); [by eapply Ha|by left].
Qed.

Lemma polled_core ss ss' : polled ss ss' → core_untouched (W := W) ss → core_untouched (W := W) ss'.
Proof using.
intros Hp Hc i s' Hpi Hi. destruct (Hp i s' Hi) as (s & Hs & [->|(Hm & _)]); [by eapply Hc|].
by rewrite protected_unmanaged in Hm.
Qed.

(** ** Sequences of calls *)
Inductive event :=
| Execute (pid g : Z) (request : component_control_request_t) (result : option component_control_result_t) (now : Z)
| Ended (pid g : Z)
| Poll.

Definition handle (c : control) (e : event) : control :=
match e with
| Execute pid g request result now => (component_control_execute pid g (Some request) result now c).2
| Ended pid g => component_control_process_cleanup pid g c
| Poll => component_control_poll c
end.

Definition typed_event (e : event) : Prop :=
match e with Execute pid g request _ _ => typed_call pid g request | _ => True end.

Lemma ended_quiet pid g (c : control) : quiet c → component_control_process_cleanup pid g c = c.
Proof using. intros [Hi Hb]. unfold component_control_process_cleanup. rewrite Hb. cbn [Z.eqb negb andb]. by destruct (_ || _). Qed.

Lemma steps_settled i ss ss' : component_steps (W := W) i ss ss' → all_settled ss → all_settled ss'.
Proof using. intros (mid & H1 & H2) Ha. eapply step_settled, step_settled; [exact H2|exact H1|done]. Qed.
Lemma steps_core i ss ss' : component_steps (W := W) i ss ss' → core_untouched (W := W) ss → core_untouched (W := W) ss'.
Proof using. intros (mid & H1 & H2) Ha. eapply step_core; [exact H2|]. by eapply step_core. Qed.

Lemma step_length ss i ss' : component_step (W := W) ss i ss' → length ss' = length ss.
Proof using. intros []; by rewrite ?length_insert. Qed.
Lemma steps_closed i ss ss' : length ss = 7%nat → component_steps (W := W) i ss ss' → closed (W := W) ss → closed (W := W) ss'.
Proof using.
intros Hl (mid & H1 & H2) Hc. apply (step_closed mid i); [by rewrite (step_length _ _ _ H1)|done|]. by apply (step_closed ss i).
Qed.

(** One event, with room for seven publications. *)
Lemma handle_holds (c : control) k ss e :
holds c (k + 7) ss → all_settled ss → quiet c → 0 <= k → typed_event e →
∃ ss', holds (handle c e) k ss' ∧ all_settled ss' ∧ quiet (handle c e) ∧
(core_untouched (W := W) ss → core_untouched (W := W) ss') ∧ (e ≠ Poll → closed (W := W) ss → closed (W := W) ss').
Proof using All.
intros Hh Hset Hq Hk Ht. destruct e as [pid g r result now|pid g|]; cbn [handle].
- destruct (execute_step c k ss pid g r result now) as (e & res & c' & ss' & i & -> & H' & Hs & Hq'); [eapply holds_less; [exact Hh|lia]|done..|].
exists ss'. cbn [snd]. split; [done|]. split; [by eapply steps_settled|]. split; [done|].
split; [by eapply steps_core|]. intros _. eapply steps_closed; [by eapply holds_count|exact Hs].
- rewrite ended_quiet by done. exists ss. split; [eapply holds_less; [exact Hh|lia]|done].
- destruct (poll_holds c k ss Hh Hq Hk) as (ss' & H' & Hp & Hq').
exists ss'. split; [done|]. split; [by eapply polled_settled|]. split; [done|]. split; [by eapply polled_core|done].
Qed.

Lemma run_holds es : ∀ (c : control) k ss,
holds c (k + 7 * Z.of_nat (length es)) ss → all_settled ss → quiet c → 0 <= k → Forall typed_event es →
∃ ss', holds (foldl handle c es) k ss' ∧ all_settled ss' ∧ quiet (foldl handle c es) ∧
(core_untouched (W := W) ss → core_untouched (W := W) ss') ∧ (Poll ∉ es → closed (W := W) ss → closed (W := W) ss').
Proof using All.
induction es as [|e es IH]; intros c k ss Hh Hset Hq Hk Hes; cbn [foldl length] in *.
{ exists ss. rewrite Z.mul_0_r, Z.add_0_r in Hh. done. }
apply list.Forall_cons in Hes as [He Hes].
destruct (handle_holds c (k + 7 * Z.of_nat (length es)) ss e) as (s1 & H1 & Hset1 & Hq1 & Hc1 & Hd1); [eapply holds_less; [exact Hh|lia]|done|done|lia|done|].
destruct (IH (handle c e) k s1 H1 Hset1 Hq1 Hk Hes) as (s2 & H2 & Hset2 & Hq2 & Hc2 & Hd2).
exists s2. split; [done|]. split; [done|]. split; [done|]. split; [by intros; apply Hc2, Hc1|].
rewrite not_elem_of_cons. intros [Hne Hni] Hc. apply Hd2; [done|]. apply Hd1; [congruence|done].
Qed.

(** Whatever the drivers answer and however processes end meanwhile, after
    the initialisation and any sequence of requests, process ends and polls no
    component is left in a transition: each state is READY, DOWN or FAILED and
    without an owner, the operation is released, and the four protected
    components (scheduler, clock, interrupts, root storage) are READY in
    generation 1.  The bound is the room of the 32-bit store sequences. *)
Theorem component_states_settle (c : control) es :
initialized c = false → length (protected_states c) = 7%nat → Forall typed_event es →
7 * Z.of_nat (length es) < UINT32_MAX →
∃ ss, holds (foldl handle (component_control_init c).2 es) 0 ss ∧ quiet (foldl handle (component_control_init c).2 es) ∧
∀ i s, ss !! i = Some s → settled s ∧ owner_pid s = 0 ∧ owner_generation s = 0 ∧
((i < 4)%nat → state s = COMPONENT_STATE_READY ∧ generation s = 1).
Proof using All.
intros Hini Hlen Hes Hroom. destruct (control_init_holds c Hini Hlen) as (c1 & ss & -> & Hh & Hq & Hok). cbn [snd].
destruct (initial_settled ss Hok) as [Hset Hcore].
destruct (run_holds es c1 0 ss) as (ss' & H' & Hset' & Hq' & Hcore' & _); [eapply holds_less; [exact Hh|lia]|done..|].
exists ss'. split; [done|]. split; [done|]. intros i s Hi. pose proof (Hset' i s Hi) as Hs. split; [done|].
destruct (holds_state _ _ _ i s H' Hi) as (Ht & Hv & _).
assert (owner_pid s = 0 ∧ owner_generation s = 0) as [Ho1 Ho2].
{ apply component_state_typed in Ht as (_ & _ & _ & Hpid & _). unfold state_ok in Hv. destruct (_ || _) in Hv; [done|].
assert ((state s =? COMPONENT_STATE_READY) || (state s =? COMPONENT_STATE_DOWN) || (state s =? COMPONENT_STATE_FAILED) = true) as E
by (destruct Hs as [->|[->| ->]]; done). rewrite E in Hv.
destruct ((s32 (owner_pid s) =? 0) && (owner_generation s =? 0)) eqn:Eu; [|by destruct (negb _) in Hv].
apply andb_true_iff in Eu as [E1%Z.eqb_eq E2%Z.eqb_eq]. split; [|done].
unfold s32 in E1. unfold is_u32 in Hpid. destruct (_ <? _) in E1; lia. }
split; [done|]. split; [done|]. intros Hlt. assert (protected (W := W) i) as Hp by (do 4 (destruct i as [|i]; [done|]); lia).
by rewrite (Hcore' Hcore i s Hp Hi).
Qed.

(** C30: No component is READY while a component it depends on is not: if the
    states start that way, every sequence of requests and process ends keeps
    it (a down refuses while a dependent is active, an up while a dependency
    is not READY, a restart that fails half way leaves it).  A poll is not
    part of it: it publishes a late service without looking at what the
    service depends on. *)
Theorem component_dependencies_closed (c : control) ss es :
holds c (7 * Z.of_nat (length es)) ss → all_settled ss → quiet c → closed (W := W) ss →
Forall typed_event es → Poll ∉ es →
∃ ss', holds (foldl handle c es) 0 ss' ∧
∀ i j s t, ss' !! i = Some s → ss' !! j = Some t → depends (W := W) i j = true →
state s = COMPONENT_STATE_READY → state t = COMPONENT_STATE_READY.
Proof using All.
intros Hh Hset Hq Hc Hes Hpoll.
destruct (run_holds es c 0 ss Hh Hset Hq ltac:(done) Hes) as (ss' & H' & _ & _ & _ & Hc').
exists ss'. split; [done|]. intros i j s t Hi Hj Hd Hr. by apply (Hc' Hpoll Hc i s Hi Hr j t Hd).
Qed.

(** ** Bringing a component up *)
(** The process is among those that ended. *)
Definition owner_ended (pid g : Z) (ended : list (Z * Z)) : bool :=
existsb (λ p, (pid =? p.1) && (g =? p.2)) ended.

Lemma cleanups_cancel pid g ended : ∀ (c : control),
initialized c = true → operation_busy c = 1 → operation_owner_pid c = pid → operation_owner_generation c = g → 0 < pid → g ≠ 0 →
operation_cancel_requested (foldl (λ c p, component_control_process_cleanup p.1 p.2 c) c ended) =
operation_cancel_requested c || owner_ended pid g ended.
Proof using.
induction ended as [|p ended IH]; intros c Hi Hb Hp Hg Hp0 Hg0; cbn [foldl owner_ended existsb]; [by rewrite orb_false_r|].
destruct (cleanup_same p.1 p.2 c) as (E1 & E2 & E3 & E4). rewrite IH by congruence. unfold owner_ended. rewrite orb_assoc. f_equal.
unfold component_control_process_cleanup. rewrite Hi, Hb, Hp, Hg. cbn [negb orb Z.eqb andb].
destruct (Z.leb_spec p.1 0) as [Hl|Hl]; cbn [orb].
{ destruct (Z.eqb_spec pid p.1); [lia|]. by rewrite orb_false_r. }
destruct (Z.eqb_spec p.2 0) as [E|E]; cbn [orb].
{ destruct (Z.eqb_spec g p.2); [congruence|]. by rewrite andb_false_r, orb_false_r. }
destruct (_ && _); cbn; [by rewrite orb_true_r|by rewrite orb_false_r].
Qed.

Lemma cleanups_world ended : ∀ c : control,
world (foldl (λ c p, component_control_process_cleanup p.1 p.2 c) c ended) = world c.
Proof using.
induction ended as [|p ended IH]; intros c; [done|]. cbn [foldl]. rewrite IH.
unfold component_control_process_cleanup. destruct (_ || _); [done|]. by destruct (_ && _).
Qed.

(** The answer of an up whose function answered [ok] while the processes
  [ended] ended, and whose self-test then answered [ready] in [w]. *)
Definition up_answer (pid g d : Z) (ended : list (Z * Z)) (ready : bool) (w : W) : Z :=
if owner_ended pid g ended then -125 else if ready then 0 else if d <=? pit_monotonic_ms w then -110 else -5.

Lemma up_run_is i d (c : control) f q pid g ok ended w1 :
up (descriptor i) = Some f → d_ready (descriptor i) = Some q →
initialized c = true → operation_busy c = 1 → operation_owner_pid c = pid → operation_owner_generation c = g →
operation_cancel_requested c = false → 0 < pid → g ≠ 0 → f d (world c) = (ok, ended, w1) →
let p := if ok then q w1 else (false, w1) in
let e := up_answer pid g d ended p.1 p.2 in (up_run i d c).1 = (e =? 0, e).
Proof using.
intros Hup Hready Hi Hb Hp Hg Hc Hp0 Hg0 Hf. unfold up_run. rewrite Hup, Hready. unfold try_action, run_action. rewrite Hf.
set (c1 := foldl _ _ ended).
assert (world c1 = w1) as Ew by (unfold c1; rewrite cleanups_world; done).
assert (operation_cancel_requested c1 = owner_ended pid g ended) as Ec.
{ unfold c1. rewrite (cleanups_cancel pid g) by done. cbn. by rewrite Hc. }
assert ((if ok then try_ready (Some q) c1 else (false, c1)) =
((if ok then q w1 else (false, w1)).1, set_world c1 (if ok then q w1 else (false, w1)).2)) as ->.
{ destruct ok; cbn [fst snd]; [unfold try_ready; rewrite Ew; by destruct (q w1)|]. rewrite <- Ew. by destruct c1. }
destruct (if ok then q w1 else (false, w1)) as [ready w2]. cbn [fst snd].
unfold action_result, deadline_expired, up_answer. cbn [operation_cancel_requested set_world world]. rewrite Ec.
destruct (owner_ended _ _ _); [done|]. destruct ready; [done|]. by destruct (d <=? _).
Qed.

Lemma up_unprotected i f : up (descriptor (Z.of_nat i)) = Some f → ¬ protected (W := W) i.
Proof using. do 7 (destruct i as [|i]; [by intros E; vm_compute; intros Hp; (done || by apply Hp)|]).
rewrite !Nat2Z.inj_succ. unfold descriptor. by rewrite nth_overflow by (cbn; lia). Qed.

(** The state an answered up publishes. *)
Definition up_result (s : component_state_t) (e : Z) : component_state_t :=
State (component s) (if e =? 0 then COMPONENT_STATE_READY else COMPONENT_STATE_FAILED) (generation s + 1) 0 0 (u32 e).

Definition up_request (r : component_control_request_t) (i : nat) (s : component_state_t) : Prop :=
r_version r = COMPONENT_CONTROL_ABI_VERSION ∧ r_struct_size r = request_size ∧ command r = COMPONENT_COMMAND_UP ∧
r_component r = Z.of_nat i ∧ (expected_generation r = 0 ∨ expected_generation r = generation s) ∧
timeout_ms r <= COMPONENT_CONTROL_TIMEOUT_MAX_MS.

Definition request_deadline (r : component_control_request_t) (now : Z) : Z :=
deadline_after now (if timeout_ms r =? 0 then COMPONENT_CONTROL_TIMEOUT_DEFAULT_MS else timeout_ms r).

(** C31: Bringing a component up fails closed.  The request for a component
    that is DOWN or FAILED with all its dependencies READY answers 0 and
    publishes READY exactly when the up function succeeded, the self-test after
    it did, and the caller was still alive; if the caller ended meanwhile the
    answer is -125, otherwise -110 after the deadline and -5 before it, and
    then the component is FAILED, fenced in the published flags, and carries
    the answer.  The generation always advances by one and the operation is
    released. *)
Theorem component_up_fails_closed (c : control) k ss i s pid g r old now f q ok ended w1 :
holds c (k + 2) ss → quiet c → 0 <= k → ss !! i = Some s → state s = COMPONENT_STATE_DOWN ∨ state s = COMPONENT_STATE_FAILED →
dependencies_up (W := W) ss i → generation s ≠ UINT32_MAX → valid_caller pid g → up_request r i s →
up (descriptor (Z.of_nat i)) = Some f → d_ready (descriptor (Z.of_nat i)) = Some q →
f (request_deadline r now) (world c) = (ok, ended, w1) →
let p := if ok then q w1 else (false, w1) in
let e := up_answer pid g (request_deadline r now) ended p.1 p.2 in
∃ c', component_control_execute pid g (Some r) (Some old) now c =
(e, Some (publish_result (W := W) (Z.of_nat i) (up_result s e)), c') ∧
holds c' k (<[i := up_result s e]> ss) ∧ quiet c'.
Proof using All.
intros Hh [Hini Hbusy] Hk Es Hst Hdep Hgen Hcaller (Ev & Esz & Ecmd & Ecomp & Eexp & Etime) Hup Hready Hf p e.
destruct (holds_state _ _ _ _ _ Hh Es) as (_ & _ & Hi & _). pose proof (up_unprotected _ _ Hup) as Hnp.
destruct (Z.eqb_spec (Z.land (d_flags (descriptor (W := W) (Z.of_nat i))) COMPONENT_FLAG_PROTECTED) 0) as [Ep|]; [|done].
destruct Hcaller as (Hpid & Hg & Hg0). unfold component_control_execute. rewrite Hini, Ev, Esz, Ecmd, Ecomp, Ep, !Z.eqb_refl.
cbn [negb orb]. rewrite (proj2 (Z.leb_gt pid 0)) by lia. rewrite (proj2 (Z.eqb_neq _ _) Hg0).
change COMPONENT_CONTROL_MAX_COMPONENTS with 7. rewrite (proj2 (Z.leb_gt 7 (Z.of_nat i))), (proj2 (Z.ltb_ge _ _) Etime) by lia. cbn [orb].
destruct (state_read_holds c _ ss i s no_state Hh Es) as (l & -> & Hl). cbn [Z.eqb negb].
assert (negb (expected_generation r =? 0) && negb (expected_generation r =? generation s) = false) as ->
by (destruct Eexp as [->| ->]; rewrite ?Z.eqb_refl; cbn; by rewrite ?andb_false_r).
cbn [operation_busy set_states]. rewrite Hbusy. cbn [Z.eqb negb]. change (COMPONENT_COMMAND_UP =? COMPONENT_COMMAND_STATUS) with false. cbn iota.
set (c1 := set_operation (set_states c l) 1 pid g false).
assert (holds c1 (k + 2) ss) as H1 by by eapply holds_stores_of; [|exact Hl].
fold (request_deadline r now). unfold perform. rewrite Ecmd, Ecomp.
change (COMPONENT_COMMAND_UP =? COMPONENT_COMMAND_DOWN) with false. change (COMPONENT_COMMAND_UP =? COMPONENT_COMMAND_UP) with true. cbn iota.
destruct (perform_up_holds c1 k ss i s pid g (request_deadline r now) H1 Es Hk ltac:(unfold settled; tauto) Hpid Hg Hg0)
as [(e1 & l1 & _ & _ & Href)|(_ & _ & _ & _ & l1 & E1 & H2)].
{ exfalso. destruct Href as [[_ ?]|[_ [[_ Hr]|[[_ ?]|[_ ?]]]]]; try done. rewrite Hr in Hst. by destruct Hst. }
pose proof (up_run_is (Z.of_nat i) (request_deadline r now) c1 f q pid g ok ended w1 Hup Hready Hini eq_refl eq_refl eq_refl eq_refl
ltac:(lia) Hg0 Hf) as Er. cbv zeta in Er. fold p in Er. fold e in Er.
pose proof (up_run_same (Z.of_nat i) (request_deadline r now) c1) as Hsame.
destruct (up_run (Z.of_nat i) (request_deadline r now) c1) as [a c2]. cbn [fst snd] in *. subst a. cbn [fst snd] in *. rewrite E1.
change (finished s (e =? 0, e) COMPONENT_STATE_READY) with (up_result s e) in H2.
set (c3 := set_operation (set_states c2 l1) 0 0 0 false).
assert (holds c3 k (<[i := up_result s e]> ss)) as H3 by by eapply holds_stores_of; [|exact H2].
destruct (state_read_holds c3 k _ i (up_result s e) s H3) as (l4 & -> & H4); [apply list_lookup_insert_eq; by eapply lookup_lt_Some|].
cbn [Z.eqb negb]. eexists. split; [done|]. split; [exact H4|]. split; [|done]. cbn. by rewrite (proj1 Hsame).
Qed.
End runs.

(** ** Witnesses *)
(** A machine whose storage service needs ten milliseconds, and where process
    7 ends while it comes up; the world is the clock. *)
Definition sample_drivers : Drivers Z := {|
  netdev_component_down _ w := (true, [], w + 1);
  netdev_component_up _ w := (true, [], w + 1);
  netdev_component_ready w := (true, w);
  storage_service_component_down _ w := (true, [], w + 1);
  storage_service_component_up _ w := (true, [(7, 1)], w + 10);
  storage_service_component_ready w := (10 <=? w, w);
  supervisor_probe_component_down _ w := (true, [], w + 1);
  supervisor_probe_component_up _ w := (false, [], w + 2000);
  supervisor_probe_component_ready w := (true, w);
  pit_monotonic_ms w := w
|}.
#[local] Existing Instance sample_drivers.

Definition sample_control : component_control_t CriticalObject.critical_object_t Z :=
  Control (replicate 7 sample_object) false 0 0 0 false 0.
Definition booted : component_control_t CriticalObject.critical_object_t Z := (component_control_init sample_control).2.

Lemma booted_holds :
  ∃ ss, holds booted (UINT32_MAX - 1) ss ∧ quiet booted ∧ length ss = 7%nat ∧
    ∀ i s, ss !! i = Some s → s = initial_state i (negb (i =? 5)%nat).
Proof.
  destruct (control_init_holds sample_control) as (c & ss & E & Hh & Hq & _); [done|done|].
  assert (booted = c) as Eb by (unfold booted; by rewrite E).
  rewrite <- Eb in Hh, Hq. exists ss. split; [done|]. split; [done|]. split; [by eapply holds_count|].
  intros i s Hi. destruct (holds_state _ _ _ i s Hh Hi) as (_ & _ & Hlt & _).
  destruct (state_read_holds booted _ ss i s no_state Hh Hi) as (l & Er & _). clear - Er Hlt.
  apply (f_equal (λ r, r.1.2)) in Er. cbn [fst snd] in Er. rewrite <- Er.
  do 7 (destruct i as [|i]; [vm_compute; reflexivity|]). lia.
Qed.

Definition sample_request (cmd id : Z) : component_control_request_t := Request 1 24 cmd id 0 0.
Definition zero_result : component_control_result_t := Result 0 0 0 0 0 0 0 0 (replicate 24 0).

(** Down of the network service and its driver, an up of the service that is
    refused, and one of the driver. *)
Definition sample_events : list event := [
  Execute 9 1 (sample_request COMPONENT_COMMAND_DOWN 6) (Some zero_result) 0;
  Execute 9 1 (sample_request COMPONENT_COMMAND_DOWN 4) (Some zero_result) 1;
  Execute 9 1 (sample_request COMPONENT_COMMAND_UP 6) (Some zero_result) 2;
  Ended 9 1;
  Execute 10 3 (sample_request COMPONENT_COMMAND_RESTART 4) (Some zero_result) 5
].

Lemma sample_events_typed : Forall typed_event sample_events.
Proof. repeat constructor; vm_compute; done. Qed.

Lemma component_states_settle_witness :
  ∃ ss, holds (foldl handle booted (sample_events ++ [Poll])) 0 ss ∧ quiet (foldl handle booted (sample_events ++ [Poll])) ∧
    ∀ i s, ss !! i = Some s → settled s ∧ owner_pid s = 0 ∧ owner_generation s = 0 ∧
      ((i < 4)%nat → state s = COMPONENT_STATE_READY ∧ generation s = 1).
Proof.
  apply (component_states_settle sample_control (sample_events ++ [Poll])); [done|done| |done].
  apply Forall_app_2; [exact sample_events_typed|by repeat constructor].
Defined.

Lemma component_dependencies_closed_witness :
  ∃ ss, holds (foldl handle booted sample_events) 0 ss ∧
    ∀ i j s t, ss !! i = Some s → ss !! j = Some t → depends (W := Z) i j = true →
      state s = COMPONENT_STATE_READY → state t = COMPONENT_STATE_READY.
Proof.
  destruct booted_holds as (ss & Hh & Hq & Hl & Hs).
  apply (component_dependencies_closed booted ss sample_events).
  - eapply holds_less; [exact Hh|]. vm_compute. discriminate.
  - intros i s Hi. rewrite (Hs i s Hi). unfold settled. cbn. destruct (negb _); tauto.
  - exact Hq.
  - intros i s Hi Hr j t Hd Hj. rewrite (Hs j t Hj). rewrite (Hs i s Hi) in Hr. apply lookup_lt_Some in Hi, Hj. rewrite Hl in Hi, Hj.
    clear - Hd Hr Hi Hj. do 7 (destruct i as [|i]; [do 7 (destruct j as [|j]; [vm_compute in Hd, Hr |- *; congruence|]); lia|]). lia.
  - exact sample_events_typed.
  - unfold sample_events. intros Hp. repeat (apply elem_of_cons in Hp as [Hp|Hp]; [discriminate|]). by apply elem_of_nil in Hp.
Defined.

Lemma component_up_fails_closed_witness :
  ∃ c' ss, component_control_execute 9 1 (Some (sample_request COMPONENT_COMMAND_UP 5)) (Some zero_result) 0 booted =
      (0, Some (publish_result (W := Z) 5 (State 5 COMPONENT_STATE_READY 2 0 0 0)), c') ∧
    holds c' 0 ss ∧ quiet c' ∧ ss !! 5%nat = Some (State 5 COMPONENT_STATE_READY 2 0 0 0).
Proof.
  destruct booted_holds as (ss & Hh & Hq & Hl & Hs).
  destruct (lookup_lt_is_Some_2 ss 5) as [s Es]; [rewrite Hl; lia|]. pose proof (Hs 5%nat s Es) as ->.
  destruct (component_up_fails_closed booted 0 ss 5 (initial_state 5 false) 9 1
    (sample_request COMPONENT_COMMAND_UP 5) zero_result 0 (λ d w, (true, [(7, 1)], w + 10)) (λ w, (10 <=? w, w)) true [(7, 1)] 10)
    as (c' & E & H' & Hq').
  - eapply holds_less; [exact Hh|]. vm_compute. discriminate.
  - exact Hq.
  - done.
  - exact Es.
  - by left.
  - intros j t Hd Hj. rewrite (Hs j t Hj). apply lookup_lt_Some in Hj. rewrite Hl in Hj.
    clear - Hd Hj. do 7 (destruct j as [|j]; [vm_compute in Hd |- *; congruence|]). lia.
  - by vm_compute.
  - done.
  - split_and!; try done. by left.
  - reflexivity.
  - reflexivity.
  - reflexivity.
  - exists c', (<[5%nat := State 5 COMPONENT_STATE_READY 2 0 0 0]> ss). split; [exact E|]. split; [exact H'|]. split; [exact Hq'|].
    apply list_lookup_insert_eq. rewrite Hl. lia.
Defined.
