(* ===== verification/PieceDocument.v ===== *)
(** Piece table of the text editor: the document half of
    src/userspace/gui/lib/piece_document.c and
    src/userspace/gui/include/reist/gui/piece_document.h.

    [Module PieceDocument] holds the document and the functions that open,
    read, edit and stream it.  A document keeps its text as pieces of an
    original it reads through a callback and of a buffer of added bytes.  The
    callbacks act on a world [W]: a reader gives its status and the bytes it
    wrote into the buffer it was handed, a writer its status.  [None] as the
    outcome of a call is a call through a null function pointer.  Document
    pointers are references; data pointers are options. *)
From S2P Require Import Prelude.

Module PieceDocument.

Definition REIST_GUI_PIECE_DOCUMENT_API_VERSION : Z := 1.
Definition REIST_GUI_PIECE_CAPACITY : Z := 256.
Definition REIST_GUI_PIECE_ADDED_CAPACITY : Z := 65536.
Definition REIST_GUI_PIECE_IO_CAPACITY : Z := 4096.
Definition REIST_GUI_PIECE_ORIGINAL : Z := 1.
Definition REIST_GUI_PIECE_ADDED : Z := 2.
Definition REIST_GUI_PIECE_OK : Z := 0.
Definition REIST_GUI_PIECE_EINVAL : Z := -22.
Definition REIST_GUI_PIECE_EIO : Z := -5.
Definition REIST_GUI_PIECE_ECAPACITY : Z := -28.

Record reist_gui_piece_t := Piece {
  source : Z;
  offset : Z;
  piece_length : Z
}.

(** The pointer is not null. *)
Definition present {A} (pointer : option A) : bool := match pointer with None => false | Some _ => true end.

(** [size] bytes at [from], and [bytes_copy] to [to]. *)
Definition slice {A} (from size : Z) (l : list A) : list A := take (Z.to_nat size) (drop (Z.to_nat from) l).
Definition copy_to (to : Z) (bytes destination : list Z) : list Z :=
  take (Z.to_nat to) destination ++ bytes ++ drop (Z.to_nat to + length bytes) destination.

Section document.
Context {W : Type}.

Definition reist_gui_piece_read_fn : Type := Z → Z → W → Z * list Z * W.
Definition reist_gui_piece_write_fn : Type := list Z → W → Z * W.

Record reist_gui_piece_document_t := Document {
api_version : Z;
struct_size : Z;
size : Z;
original_size : Z;
piece_count : Z;
added_used : Z;
modified : Z;
read_original : option reist_gui_piece_read_fn;
pieces : list reist_gui_piece_t;
added : list Z
}.

(** Seven words, two pointers of the i386 target and the two arrays. *)
Definition document_bytes : Z := 7 * 4 + 2 * 4 + 256 * 12 + 65536.

Definition live (d : reist_gui_piece_document_t) : list reist_gui_piece_t := take (Z.to_nat (piece_count d)) (pieces d).

(** The loop of [valid]: the total length, if every piece is in its buffer. *)
Fixpoint valid_loop (d : reist_gui_piece_document_t) (ps : list reist_gui_piece_t) (total : Z) : option Z :=
match ps with
| [] => Some total
| piece :: ps =>
  let bound := if source piece =? REIST_GUI_PIECE_ORIGINAL then original_size d else added_used d in
  if (negb (source piece =? REIST_GUI_PIECE_ORIGINAL) && negb (source piece =? REIST_GUI_PIECE_ADDED)) ||
     (piece_length piece =? 0) || (bound <? offset piece) || (bound - offset piece <? piece_length piece) ||
     (UINT32_MAX - total <? piece_length piece) then None
  else valid_loop d ps (total + piece_length piece)
end.

Definition valid (d : reist_gui_piece_document_t) : bool :=
if negb (api_version d =? REIST_GUI_PIECE_DOCUMENT_API_VERSION) || negb (struct_size d =? document_bytes) ||
   (REIST_GUI_PIECE_CAPACITY <? piece_count d) || (REIST_GUI_PIECE_ADDED_CAPACITY <? added_used d) then false
else match valid_loop d (live d) 0 with None => false | Some total => total =? size d end.

Definition zero_piece : reist_gui_piece_t := Piece 0 0 0.

Definition reist_gui_piece_document_initialize : reist_gui_piece_document_t :=
Document REIST_GUI_PIECE_DOCUMENT_API_VERSION document_bytes 0 0 0 0 0 None
  (replicate (Z.to_nat REIST_GUI_PIECE_CAPACITY) zero_piece) (replicate (Z.to_nat REIST_GUI_PIECE_ADDED_CAPACITY) 0).

Definition reist_gui_piece_document_open (d : reist_gui_piece_document_t) (original : Z)
(reader : option reist_gui_piece_read_fn) : Z * reist_gui_piece_document_t :=
if negb (original =? 0) && negb (present reader) then (REIST_GUI_PIECE_EINVAL, d)
else
let d := reist_gui_piece_document_initialize in
let first := if negb (original =? 0) then [Piece REIST_GUI_PIECE_ORIGINAL 0 original] else [] in
(REIST_GUI_PIECE_OK,
 Document (api_version d) (struct_size d) original original (if negb (original =? 0) then 1 else piece_count d)
   (added_used d) (modified d) reader (first ++ drop (length first) (pieces d)) (added d)).

(** ** Reading *)
Fixpoint read_loop (d : reist_gui_piece_document_t) (ps : list reist_gui_piece_t)
(at_ logical completed amount_wanted : Z) (output : list Z) (w : W) : option (Z * list Z * W) :=
match ps with
| [] => Some (if completed =? amount_wanted then REIST_GUI_PIECE_OK else REIST_GUI_PIECE_EIO, output, w)
| piece :: ps =>
  if negb (completed <? amount_wanted)
  then Some (if completed =? amount_wanted then REIST_GUI_PIECE_OK else REIST_GUI_PIECE_EIO, output, w)
  else if u32 (logical + piece_length piece) <=? at_
  then read_loop d ps at_ (u32 (logical + piece_length piece)) completed amount_wanted output w
  else
    let within := if logical <? at_ then at_ - logical else 0 in
    let amount := piece_length piece - within in
    let amount := if amount_wanted - completed <? amount then amount_wanted - completed else amount in
    if source piece =? REIST_GUI_PIECE_ADDED
    then read_loop d ps (u32 (at_ + amount)) (u32 (logical + piece_length piece)) (u32 (completed + amount)) amount_wanted
           (copy_to completed (slice (offset piece + within) amount (added d)) output) w
    else
      match read_original d with
      | None => None
      | Some reader =>
        let '(status, bytes, w) := reader (u32 (offset piece + within)) amount w in
        let output := copy_to completed bytes output in
        if negb (status =? 0) then Some (REIST_GUI_PIECE_EIO, output, w)
        else read_loop d ps (u32 (at_ + amount)) (u32 (logical + piece_length piece)) (u32 (completed + amount))
               amount_wanted output w
      end
end.

(** [data] is the buffer of the caller, [None] a null pointer. *)
Definition reist_gui_piece_document_read (d : reist_gui_piece_document_t) (at_ : Z) (data : option (list Z))
(amount : Z) (w : W) : option (Z * option (list Z) * W) :=
if negb (valid d) || (negb (amount =? 0) && negb (present data)) || (size d <? at_) ||
   (size d - at_ <? amount) then Some (REIST_GUI_PIECE_EINVAL, data, w)
else
match read_loop d (live d) at_ 0 0 amount (default [] data) w with
| None => None
| Some (status, output, w) => Some (status, match data with None => None | Some _ => Some output end, w)
end.

(** ** Editing *)
(** The array and its count are a list; [None] is the answer -1. *)
Definition append (next : list reist_gui_piece_t) (src off len : Z) : option (list reist_gui_piece_t) :=
if len =? 0 then Some next
else
let push := if Z.of_nat (length next) =? REIST_GUI_PIECE_CAPACITY then None else Some (next ++ [Piece src off len]) in
match list.last next with
| Some l =>
  if (source l =? src) && (u32 (offset l + piece_length l) =? off) then
    if UINT32_MAX - piece_length l <? len then None
    else Some (removelast next ++ [Piece (source l) (offset l) (piece_length l + len)])
  else push
| None => push
end.

Fixpoint append_all (next ps : list reist_gui_piece_t) : option (list reist_gui_piece_t) :=
match ps with
| [] => Some next
| piece :: ps =>
  match append next (source piece) (offset piece) (piece_length piece) with
  | None => None
  | Some next => append_all next ps
  end
end.

Definition insert_here (d : reist_gui_piece_document_t) (piece : reist_gui_piece_t) (ps : list reist_gui_piece_t)
(left_ amount : Z) (next : list reist_gui_piece_t) : option (list reist_gui_piece_t) :=
match append next (source piece) (offset piece) left_ with
| None => None
| Some next =>
  match append next REIST_GUI_PIECE_ADDED (added_used d) amount with
  | None => None
  | Some next =>
    match append next (source piece) (u32 (offset piece + left_)) (piece_length piece - left_) with
    | None => None
    | Some next => append_all next ps
    end
  end
end.

Fixpoint insert_loop (d : reist_gui_piece_document_t) (ps : list reist_gui_piece_t) (at_ amount logical : Z)
(next : list reist_gui_piece_t) : option (list reist_gui_piece_t) :=
match ps with
| [] => if at_ =? size d then append next REIST_GUI_PIECE_ADDED (added_used d) amount else None
| piece :: ps =>
  if (logical <=? at_) && (at_ <=? u32 (logical + piece_length piece))
  then insert_here d piece ps (at_ - logical) amount next
  else
    match append next (source piece) (offset piece) (piece_length piece) with
    | None => None
    | Some next => insert_loop d ps at_ amount (u32 (logical + piece_length piece)) next
    end
end.

Definition reist_gui_piece_document_insert (d : reist_gui_piece_document_t) (at_ : Z) (data : option (list Z))
(amount : Z) : Z * reist_gui_piece_document_t :=
if negb (valid d) || (negb (amount =? 0) && negb (present data)) || (size d <? at_)
then (REIST_GUI_PIECE_EINVAL, d)
else if amount =? 0 then (0, d)
else if (REIST_GUI_PIECE_ADDED_CAPACITY - added_used d <? amount) || (UINT32_MAX - size d <? amount)
then (REIST_GUI_PIECE_ECAPACITY, d)
else
match insert_loop d (live d) at_ amount 0 [] with
| None => (REIST_GUI_PIECE_ECAPACITY, d)
| Some next =>
  (0, Document (api_version d) (struct_size d) (u32 (size d + amount)) (original_size d) (Z.of_nat (length next))
        (u32 (added_used d + amount)) 1 (read_original d) (next ++ drop (length next) (pieces d))
        (copy_to (added_used d) (take (Z.to_nat amount) (default [] data)) (added d)))
end.

(** The parts of one piece that stay: in front of the range, and behind it. *)
Definition erase_piece (piece : reist_gui_piece_t) (at_ end_ logical piece_end : Z) (next : list reist_gui_piece_t)
: option (list reist_gui_piece_t) :=
match (if logical <? at_
       then append next (source piece) (offset piece) (if at_ <? piece_end then at_ - logical else piece_length piece)
       else Some next) with
| None => None
| Some next =>
  if end_ <? piece_end
  then let skip := if logical <? end_ then end_ - logical else 0 in
       append next (source piece) (u32 (offset piece + skip)) (piece_length piece - skip)
  else Some next
end.

Fixpoint erase_loop (ps : list reist_gui_piece_t) (at_ end_ logical : Z) (next : list reist_gui_piece_t)
: option (list reist_gui_piece_t) :=
match ps with
| [] => Some next
| piece :: ps =>
  let piece_end := u32 (logical + piece_length piece) in
  match erase_piece piece at_ end_ logical piece_end next with
  | None => None
  | Some next => erase_loop ps at_ end_ piece_end next
  end
end.

Definition reist_gui_piece_document_erase (d : reist_gui_piece_document_t) (at_ amount : Z)
: Z * reist_gui_piece_document_t :=
if negb (valid d) || (size d <? at_) || (size d - at_ <? amount) then (REIST_GUI_PIECE_EINVAL, d)
else if amount =? 0 then (0, d)
else
match erase_loop (live d) at_ (u32 (at_ + amount)) 0 [] with
| None => (REIST_GUI_PIECE_ECAPACITY, d)
| Some next =>
  (0, Document (api_version d) (struct_size d) (size d - amount) (original_size d) (Z.of_nat (length next))
        (added_used d) 1 (read_original d) (next ++ drop (length next) (pieces d)) (added d))
end.

(** ** Streaming *)
(** [fuel] bounds the chunks of a piece; [None] also stands for running out
  of it. *)
Fixpoint chunk_loop (fuel : nat) (d : reist_gui_piece_document_t) (write_bytes : reist_gui_piece_write_fn)
(piece : reist_gui_piece_t) (done_ : Z) (buffer : list Z) (w : W) : option (Z * list Z * W) :=
if negb (done_ <? piece_length piece) then Some (0, buffer, w)
else
match fuel with
| O => None
| S fuel =>
  let amount := piece_length piece - done_ in
  let amount := if REIST_GUI_PIECE_IO_CAPACITY <? amount then REIST_GUI_PIECE_IO_CAPACITY else amount in
  if source piece =? REIST_GUI_PIECE_ORIGINAL then
    match read_original d with
    | None => None
    | Some reader =>
      let '(status, bytes, w) := reader (u32 (offset piece + done_)) amount w in
      let buffer := copy_to 0 bytes buffer in
      if negb (status =? 0) then Some (REIST_GUI_PIECE_EIO, buffer, w)
      else
        let '(status, w) := write_bytes (take (Z.to_nat amount) buffer) w in
        if negb (status =? 0) then Some (REIST_GUI_PIECE_EIO, buffer, w)
        else chunk_loop fuel d write_bytes piece (u32 (done_ + amount)) buffer w
    end
  else
    let '(status, w) := write_bytes (slice (offset piece + done_) amount (added d)) w in
    if negb (status =? 0) then Some (REIST_GUI_PIECE_EIO, buffer, w)
    else chunk_loop fuel d write_bytes piece (u32 (done_ + amount)) buffer w
end.

(** Chunks of a piece. *)
Definition chunk_fuel (piece : reist_gui_piece_t) : nat :=
S (Z.to_nat (piece_length piece / REIST_GUI_PIECE_IO_CAPACITY)).

Fixpoint stream_loop (d : reist_gui_piece_document_t) (write_bytes : reist_gui_piece_write_fn)
(ps : list reist_gui_piece_t) (buffer : list Z) (w : W) : option (Z * W) :=
match ps with
| [] => Some (REIST_GUI_PIECE_OK, w)
| piece :: ps =>
  match chunk_loop (chunk_fuel piece) d write_bytes piece 0 buffer w with
  | None => None
  | Some (status, buffer, w) =>
    if negb (status =? 0) then Some (status, w) else stream_loop d write_bytes ps buffer w
  end
end.

(** [buffer] is what the stack holds where the local buffer lies. *)
Definition reist_gui_piece_document_stream (d : reist_gui_piece_document_t)
(write_bytes : option reist_gui_piece_write_fn) (buffer : list Z) (w : W) : option (Z * W) :=
match write_bytes with
| None => Some (REIST_GUI_PIECE_EINVAL, w)
| Some write_bytes =>
  if negb (valid d) then Some (REIST_GUI_PIECE_EINVAL, w) else stream_loop d write_bytes (live d) buffer w
end.
End document.

#[global] Arguments reist_gui_piece_document_t : clear implicits.
#[global] Arguments reist_gui_piece_read_fn : clear implicits.
#[global] Arguments reist_gui_piece_write_fn : clear implicits.
End PieceDocument.
