(* ===== verification/PieceDocumentSpec.v ===== *)
(** What a piece table says.

    [text O A ps] is the text of the pieces [ps] over the original [O] and
    the added bytes [A].  [holds d O t]: the document [d] is valid, its reader
    serves [O] and its text is [t].  Each operation is then an operation on
    lists of bytes. *)
From S2P Require Import Prelude PieceDocument.
Import PieceDocument.

(** ** Slices *)
Lemma nonpos_nat n : n <= 0 → Z.to_nat n = 0%nat.
Proof. lia. Qed.

Lemma slice_app {A} o a b (l : list A) : 0 <= o → 0 <= a → 0 <= b → slice o a l ++ slice (o + a) b l = slice o (a + b) l.
Proof.
  intros. unfold slice. rewrite !Z2Nat.inj_add by done. rewrite <- drop_drop.
  generalize (drop (Z.to_nat o) l) as m. intros m. rewrite <- (take_drop (Z.to_nat a) (take (Z.to_nat a + Z.to_nat b) m)).
  rewrite take_take, Nat.min_l by lia. f_equal. rewrite <- take_drop_commute. done.
Qed.

Lemma slice_slice {A} o n o' n' (l : list A) : 0 <= o → 0 <= o' → o' + n' <= n → slice o' n' (slice o n l) = slice (o + o') n' l.
Proof.
  intros. unfold slice. rewrite Z2Nat.inj_add by done. rewrite <- drop_drop.
  generalize (drop (Z.to_nat o) l) as m. intros m.
  destruct (decide (n' < 0)); [by rewrite (nonpos_nat n') by lia|].
  rewrite skipn_firstn_comm, take_take. f_equal. lia.
Qed.

Lemma slice_zero {A} o (l : list A) : slice o 0 l = [].
Proof. by unfold slice. Qed.

Lemma length_slice {A} o n (l : list A) : 0 <= o → 0 <= n → o + n <= Z.of_nat (length l) → length (slice o n l) = Z.to_nat n.
Proof. intros. unfold slice. rewrite length_take, length_drop. lia. Qed.

Lemma slice_app_l {A} o n (l k : list A) : 0 <= o → o + n <= Z.of_nat (length l) → slice o n (l ++ k) = slice o n l.
Proof.
  intros. unfold slice. destruct (decide (n <= 0)); [by rewrite (nonpos_nat n) by lia|].
  rewrite drop_app_le by lia. rewrite take_app_le; [done|]. rewrite length_drop. lia.
Qed.

Lemma slice_app_r {A} o n (l k : list A) : Z.of_nat (length l) <= o → slice o n (l ++ k) = slice (o - Z.of_nat (length l)) n k.
Proof. intros. unfold slice. rewrite drop_app_ge by lia. do 2 f_equal. lia. Qed.

Lemma slice_all {A} (l : list A) : slice 0 (Z.of_nat (length l)) l = l.
Proof. unfold slice. rewrite Nat2Z.id. apply firstn_all. Qed.

Lemma take_is_slice {A} n (l : list A) : take (Z.to_nat n) l = slice 0 n l.
Proof. done. Qed.

Lemma length_copy_to to bytes l : 0 <= to → to + Z.of_nat (length bytes) <= Z.of_nat (length l) → length (copy_to to bytes l) = length l.
Proof. intros. unfold copy_to. rewrite !length_app, length_take, length_drop. lia. Qed.

Lemma copy_to_nil to l : copy_to to [] l = l.
Proof. unfold copy_to. cbn. by rewrite Nat.add_0_r, take_drop. Qed.

Lemma copy_to_app to x y l :
  0 <= to → to + Z.of_nat (length x) <= Z.of_nat (length l) →
  copy_to (to + Z.of_nat (length x)) y (copy_to to x l) = copy_to to (x ++ y) l.
Proof.
  intros. unfold copy_to. rewrite Z2Nat.inj_add, Nat2Z.id by lia.
  assert (length (take (Z.to_nat to) l ++ x) = (Z.to_nat to + length x)%nat) as El by (rewrite length_app, length_take; lia).
  rewrite <- (app_assoc x y), !(app_assoc (take _ l) x). generalize dependent (take (Z.to_nat to) l ++ x). intros pre El.
  rewrite <- El at 1. rewrite take_app_length, drop_app_ge by lia. rewrite El, drop_drop, length_app.
  replace (Z.to_nat to + length x + length y - (Z.to_nat to + length x))%nat with (length y) by lia.
  do 3 f_equal. lia.
Qed.

Lemma slice_copy_to to bytes l : 0 <= to → to <= Z.of_nat (length l) → slice to (Z.of_nat (length bytes)) (copy_to to bytes l) = bytes.
Proof.
  intros. unfold slice, copy_to. rewrite Nat2Z.id, drop_app_ge; rewrite length_take, Nat.min_l by lia; [|lia].
  rewrite Nat.sub_diag, drop_0. by rewrite take_app_length.
Qed.

Lemma slice_copy_before to bytes o n l : 0 <= o → o + n <= to → to <= Z.of_nat (length l) → slice o n (copy_to to bytes l) = slice o n l.
Proof.
  intros. unfold copy_to. rewrite slice_app_l by (rewrite ?length_take; lia).
  unfold slice. destruct (decide (n <= 0)); [by rewrite (nonpos_nat n) by lia|].
  rewrite skipn_firstn_comm, take_take. f_equal. lia.
Qed.

(** ** Pieces *)
Definition fragment (O A : list Z) (src off len : Z) : list Z :=
  slice off len (if src =? REIST_GUI_PIECE_ORIGINAL then O else A).
Definition piece_text (O A : list Z) (p : reist_gui_piece_t) : list Z := fragment O A (source p) (offset p) (piece_length p).
Definition text (O A : list Z) (ps : list reist_gui_piece_t) : list Z := concat (piece_text O A <$> ps).
Definition total (ps : list reist_gui_piece_t) : Z := foldr (λ p n, piece_length p + n) 0 ps.

(** A piece lies in its buffer: the original of [osize] bytes or the first
    [used] added bytes. *)
Definition piece_ok (osize used : Z) (p : reist_gui_piece_t) : Prop :=
  (source p = REIST_GUI_PIECE_ORIGINAL ∨ source p = REIST_GUI_PIECE_ADDED) ∧ 0 < piece_length p ∧ 0 <= offset p ∧
  offset p + piece_length p <= (if source p =? REIST_GUI_PIECE_ORIGINAL then osize else used).

Definition piece_typed (p : reist_gui_piece_t) : Prop := 0 <= offset p ∧ 0 <= piece_length p.

Lemma text_app O A ps qs : text O A (ps ++ qs) = text O A ps ++ text O A qs.
Proof. unfold text. by rewrite fmap_app, concat_app. Qed.
Lemma text_cons O A p ps : text O A (p :: ps) = piece_text O A p ++ text O A ps.
Proof. done. Qed.
Lemma pieces_total_app ps qs : total (ps ++ qs) = total ps + total qs.
Proof. induction ps as [|p ps IH]; cbn; [done|]. fold (total (ps ++ qs)) (total ps). lia. Qed.

Lemma piece_ok_mono osize used used' p : used <= used' → piece_ok osize used p → piece_ok osize used' p.
Proof. intros Hu (Hs & Hl & Ho & Hb). split; [done|]. split; [done|]. split; [done|]. destruct (_ =? _); lia. Qed.

Section pieces.
Context (O A : list Z) (osize used : Z).
Context (Hosize : osize <= Z.of_nat (length O)) (Hused : used <= Z.of_nat (length A)).
Context (Hosize32 : osize <= UINT32_MAX) (Hused32 : used <= UINT32_MAX).
#[local] Abbreviation ok := (piece_ok osize used).

Lemma length_piece_text p : ok p → Z.of_nat (length (piece_text O A p)) = piece_length p.
Proof using All.
intros (_ & Hl & Ho & Hb). unfold piece_text, fragment.
rewrite length_slice; [lia|lia|lia|]. destruct (_ =? _); lia.
Qed.

Lemma length_text ps : Forall ok ps → Z.of_nat (length (text O A ps)) = total ps.
Proof using All.
induction 1 as [|p ps Hp _ IH]; [done|]. rewrite text_cons, length_app, Nat2Z.inj_add, IH. cbn. by rewrite length_piece_text.
Qed.

Lemma total_nonneg ps : Forall ok ps → 0 <= total ps.
Proof using All. intros H. rewrite <- (length_text ps H). lia. Qed.

(** A part of a piece. *)
Lemma part_ok p a len : ok p → 0 <= a → 0 < len → a + len <= piece_length p → ok (Piece (source p) (offset p + a) len).
Proof using All. intros (Hs & Hl & Ho & Hb) Ha Hlen Hsum. unfold piece_ok. cbn. destruct (_ =? _); split_and!; (done || lia). Qed.

Lemma part_text p a len : ok p → 0 <= a → a + len <= piece_length p →
fragment O A (source p) (offset p + a) len = slice a len (piece_text O A p).
Proof using All. intros (_ & _ & Ho & _) Ha Hlen. unfold piece_text, fragment. by rewrite slice_slice by lia. Qed.

(** [append] adds the bytes of the new piece, as a piece of its own or as the
  end of the last one. *)
Lemma append_spec next src off len r :
append next src off len = Some r → Forall ok next → 0 <= len → (0 < len → ok (Piece src off len)) →
Forall ok r ∧ text O A r = text O A next ++ fragment O A src off len ∧ total r = total next + len ∧
(length r <= S (length next))%nat ∧ (Z.of_nat (length next) <= 256 → Z.of_nat (length r) <= 256).
Proof using All.
unfold append. destruct (Z.eqb_spec len 0) as [->|Hne].
{ intros [= ->] Hok _ _. split; [done|]. unfold fragment. rewrite slice_zero, app_nil_r, Z.add_0_r. split; [done|]. split; [done|]. split; [lia|done]. }
intros Ha Hok Hlen Hp. specialize (Hp ltac:(lia)).
assert (∀ r, (if Z.of_nat (length next) =? REIST_GUI_PIECE_CAPACITY then None else Some (next ++ [Piece src off len])) = Some r →
Forall ok r ∧ text O A r = text O A next ++ fragment O A src off len ∧ total r = total next + len ∧
(length r <= S (length next))%nat ∧ (Z.of_nat (length next) <= 256 → Z.of_nat (length r) <= 256)) as Hpush.
{ intros r0. change REIST_GUI_PIECE_CAPACITY with 256. destruct (Z.eqb_spec (Z.of_nat (length next)) 256); [done|]. intros [= <-].
rewrite text_app, pieces_total_app, length_app. cbn [length]. split; [by apply Forall_app_2; [|constructor]|].
split; [unfold text at 2; cbn; by rewrite app_nil_r|]. cbn. split; [lia|]. lia. }
destruct (list.last next) as [l|] eqn:El; [|by apply Hpush].
destruct (_ && _) eqn:Ec; [|by apply Hpush].
apply andb_true_iff in Ec as [Es%Z.eqb_eq Eo%Z.eqb_eq]. apply last_Some in El as (init & ->).
rewrite removelast_last in Ha.
destruct (_ <? len); [done|]. injection Ha as <-.
apply Forall_app in Hok as [Hinit Hl]. apply (proj1 (list.Forall_singleton _ _)) in Hl.
assert (offset l + piece_length l = off) as Eoff.
{ destruct Hl as (_ & ? & ? & Hb). rewrite <- Eo, u32_small; [done|]. destruct (_ =? _) in Hb; ulia. }
assert (ok (Piece (source l) (offset l) (piece_length l + len))) as Hm.
{ destruct Hl as (? & ? & ? & _), Hp as (_ & _ & _ & Hb2). cbn in Hb2. rewrite <- Es in Hb2. unfold piece_ok. cbn.
split_and!; try (done || lia); destruct (source l =? _); lia. }
split; [by apply Forall_app_2; [|constructor]|].
rewrite !text_app, !pieces_total_app, !length_app. cbn [length total foldr piece_length]. split; [|split; [lia|split; lia]].
unfold text at 2 4. cbn [fmap list_fmap concat]. rewrite !app_nil_r, <- app_assoc. f_equal.
destruct Hl as (_ & Hl1 & Hl2 & _). unfold piece_text, fragment. cbn [source offset piece_length]. rewrite <- Es, <- Eoff. symmetry. apply slice_app; lia.
Qed.

(** It refuses only when the array is full. *)
Lemma append_accepts next src off len :
Z.of_nat (length next) < 256 → Forall ok next → total next + len <= UINT32_MAX → is_Some (append next src off len).
Proof using All.
intros Hc Hok Ht. unfold append. destruct (len =? 0); [done|]. change REIST_GUI_PIECE_CAPACITY with 256.
destruct (Z.eqb_spec (Z.of_nat (length next)) 256); [lia|].
destruct (list.last next) as [l|] eqn:El; [|done]. destruct (_ && _); [|done].
destruct (Z.ltb_spec (UINT32_MAX - piece_length l) len); [|done]. exfalso.
apply last_Some in El as (init & ->). apply Forall_app in Hok as [Hi Hl].
rewrite pieces_total_app in Ht. cbn in Ht. pose proof (total_nonneg init Hi). lia.
Qed.

Lemma append_all_spec ps : ∀ next r,
append_all next ps = Some r → Forall ok next → Forall ok ps →
Forall ok r ∧ text O A r = text O A next ++ text O A ps ∧ total r = total next + total ps ∧
(length r <= length next + length ps)%nat ∧ (Z.of_nat (length next) <= 256 → Z.of_nat (length r) <= 256).
Proof using All.
induction ps as [|p ps IH]; intros next r; cbn [append_all].
{ intros [= ->] Hn _. rewrite app_nil_r. split_and!; try done; cbn; lia. }
intros Ha Hn [Hp Hps]%list.Forall_cons. destruct (append next _ _ _) as [next'|] eqn:E; [|done].
destruct (append_spec _ _ _ _ _ E Hn) as (Hn' & Et & En & El & Ec); [destruct Hp; lia|intros _; by destruct p|].
destruct (IH next' r Ha Hn' Hps) as (Hr & Et' & En' & El' & Ec'). split; [done|].
rewrite Et', Et, text_cons, <- app_assoc. split; [done|]. cbn [total foldr length] in *. fold (total ps). split; [lia|]. split; [lia|tauto].
Qed.

Lemma append_all_accepts ps : ∀ next,
Z.of_nat (length next + length ps) <= 256 → Forall ok next → Forall ok ps → total next + total ps <= UINT32_MAX →
is_Some (append_all next ps).
Proof using All.
induction ps as [|p ps IH]; intros next Hc Hn Hps Ht; cbn [append_all]; [done|].
apply list.Forall_cons in Hps as [Hp Hps]. cbn [total foldr length] in *. fold (total ps) in *. pose proof (total_nonneg ps Hps).
destruct (append_accepts next (source p) (offset p) (piece_length p)) as [next' E]; [lia|done|lia|]. rewrite E.
destruct (append_spec _ _ _ _ _ E Hn) as (Hn' & _ & En & El & _); [destruct Hp; lia|intros _; by destruct p|].
apply IH; [lia|done|done|lia].
Qed.

(** ** Editing loops *)
Definition insert_text (t : list Z) (at_ : Z) (x : list Z) : list Z := take (Z.to_nat at_) t ++ x ++ drop (Z.to_nat at_) t.
Definition erase_text (t : list Z) (at_ n : Z) : list Z := take (Z.to_nat at_) t ++ drop (Z.to_nat (at_ + n)) t.

(** [append] of a part of a piece. *)
Lemma append_part p next a len r :
append next (source p) (offset p + a) len = Some r → Forall ok next → ok p → 0 <= a → 0 <= len → a + len <= piece_length p →
Forall ok r ∧ text O A r = text O A next ++ slice a len (piece_text O A p) ∧ total r = total next + len ∧
(length r <= S (length next))%nat ∧ (Z.of_nat (length next) <= 256 → Z.of_nat (length r) <= 256).
Proof using All.
intros Ha Hn Hp H1 H2 H3. rewrite <- (part_text p a len) by done.
apply append_spec; [done|done|done|]. intros. by apply part_ok.
Qed.

Lemma piece_take p a : ok p → 0 <= a <= piece_length p → slice 0 a (piece_text O A p) = take (Z.to_nat a) (piece_text O A p).
Proof using. by intros. Qed.
Lemma piece_drop p a : ok p → 0 <= a <= piece_length p → slice a (piece_length p - a) (piece_text O A p) = drop (Z.to_nat a) (piece_text O A p).
Proof using All.
intros Hp Ha. unfold slice. rewrite take_ge; [done|]. rewrite length_drop. pose proof (length_piece_text p Hp). lia.
Qed.

Lemma offset_u32 p a : ok p → 0 <= a <= piece_length p → u32 (offset p + a) = offset p + a.
Proof using All. intros (_ & ? & ? & Hb) Ha. apply u32_small. destruct (_ =? _) in Hb; ulia. Qed.

Lemma insert_here_spec {W} (d : reist_gui_piece_document_t W) p ps left_ amount next r :
insert_here d p ps left_ amount next = Some r → ok (Piece REIST_GUI_PIECE_ADDED (added_used d) amount) →
Forall ok next → ok p → Forall ok ps → 0 <= left_ <= piece_length p →
Forall ok r ∧ text O A r = text O A next ++ insert_text (text O A (p :: ps)) left_ (fragment O A REIST_GUI_PIECE_ADDED (added_used d) amount) ∧
total r = total next + amount + total (p :: ps) ∧ (length r <= length next + length (p :: ps) + 2)%nat ∧
(Z.of_nat (length next) <= 256 → Z.of_nat (length r) <= 256).
Proof using All.
unfold insert_here. intros E Hx Hn Hp Hps Hl. rewrite offset_u32 in E by done.
destruct (append next _ _ _) as [n1|] eqn:E1; [|done]. rewrite <- (Z.add_0_r (offset p)) in E1.
destruct (append_part _ _ _ _ _ E1 Hn Hp) as (H1 & T1 & L1 & C1 & D1); [lia..|].
destruct (append n1 _ _ _) as [n2|] eqn:E2; [|done].
destruct (append_spec _ _ _ _ _ E2 H1) as (H2 & T2 & L2 & C2 & D2); [by destruct Hx as (_ & ? & _); cbn in *; lia|done|].
destruct (append n2 _ _ _) as [n3|] eqn:E3; [|done].
destruct (append_part _ _ _ _ _ E3 H2 Hp) as (H3 & T3 & L3 & C3 & D3); [lia..|].
destruct (append_all_spec ps n3 r E H3 Hps) as (H4 & T4 & L4 & C4 & D4).
split; [done|]. cbn [total foldr length]. fold (total ps). split; [|split; [lia|split; [lia|tauto]]].
rewrite T4, T3, T2, T1, piece_drop by done. rewrite (piece_take p left_) by done. rewrite <- !app_assoc. f_equal.
pose proof (length_piece_text p Hp). unfold insert_text.
rewrite text_cons, take_app_le, drop_app_le by lia. by rewrite ?app_assoc.
Qed.

Lemma insert_here_accepts {W} (d : reist_gui_piece_document_t W) p ps left_ amount next :
ok (Piece REIST_GUI_PIECE_ADDED (added_used d) amount) → Forall ok next → ok p → Forall ok ps → 0 <= left_ <= piece_length p →
Z.of_nat (length next + length (p :: ps) + 2) <= 256 → total next + amount + total (p :: ps) <= UINT32_MAX →
is_Some (insert_here d p ps left_ amount next).
Proof using All.
intros Hx Hn Hp Hps Hl Hc Ht. unfold insert_here. rewrite offset_u32 by done. cbn [total foldr length] in *. fold (total ps) in *.
pose proof (total_nonneg ps Hps). assert (0 < amount) by (by destruct Hx as (_ & ? & _)).
destruct (append_accepts next (source p) (offset p) left_) as [n1 E1]; [lia|done|lia|]. rewrite E1. rewrite <- (Z.add_0_r (offset p)) in E1.
destruct (append_part _ _ _ _ _ E1 Hn Hp) as (H1 & _ & L1 & C1 & _); [lia..|].
destruct (append_accepts n1 REIST_GUI_PIECE_ADDED (added_used d) amount) as [n2 E2]; [lia|done|lia|]. rewrite E2.
destruct (append_spec _ _ _ _ _ E2 H1) as (H2 & _ & L2 & C2 & _); [lia|done|].
destruct (append_accepts n2 (source p) (offset p + left_) (piece_length p - left_)) as [n3 E3]; [lia|done|lia|]. rewrite E3.
destruct (append_part _ _ _ _ _ E3 H2 Hp) as (H3 & _ & L3 & C3 & _); [lia..|].
apply append_all_accepts; [lia|done|done|lia].
Qed.

Lemma append_piece p next r :
append next (source p) (offset p) (piece_length p) = Some r → Forall ok next → ok p →
Forall ok r ∧ text O A r = text O A next ++ piece_text O A p ∧ total r = total next + piece_length p ∧
(length r <= S (length next))%nat ∧ (Z.of_nat (length next) <= 256 → Z.of_nat (length r) <= 256).
Proof using All. intros Ha Hn Hp. apply append_spec; [done|done|destruct Hp; lia|intros; by destruct p]. Qed.

Lemma insert_loop_spec {W} (d : reist_gui_piece_document_t W) at_ amount ps : ∀ next logical r,
insert_loop d ps at_ amount logical next = Some r → ok (Piece REIST_GUI_PIECE_ADDED (added_used d) amount) →
Forall ok next → Forall ok ps → 0 <= logical <= at_ → at_ <= size d → logical + total ps = size d → size d <= UINT32_MAX →
Forall ok r ∧
text O A r = text O A next ++ insert_text (text O A ps) (at_ - logical) (fragment O A REIST_GUI_PIECE_ADDED (added_used d) amount) ∧
total r = total next + amount + total ps ∧ (length r <= length next + length ps + 2)%nat ∧
(Z.of_nat (length next) <= 256 → Z.of_nat (length r) <= 256).
Proof using All.
induction ps as [|p ps IH]; intros next logical r; cbn [insert_loop]; intros E Hx Hn Hps Hl Hat Htot Hsize.
{ destruct (_ =? _); [|done].
destruct (append_spec _ _ _ _ _ E Hn) as (H1 & T1 & L1 & C1 & D1); [by destruct Hx as (_ & ? & _); cbn in *; lia|done|].
split; [done|]. rewrite T1. unfold insert_text. change (text O A []) with (@nil Z). rewrite take_nil, drop_nil, app_nil_r. cbn. split_and!; [done|lia|lia|tauto]. }
apply list.Forall_cons in Hps as [Hp Hps]. cbn [total foldr] in Htot. fold (total ps) in Htot. pose proof (total_nonneg ps Hps).
assert (u32 (logical + piece_length p) = logical + piece_length p) as Eu by (apply u32_small; destruct Hp; ulia). rewrite Eu in E.
destruct (Z.leb_spec logical at_) as [_|]; [|lia]. cbn [andb] in E. destruct (Z.leb_spec at_ (logical + piece_length p)) as [Hle|Hgt].
{ apply insert_here_spec in E; [exact E|done|done|done|done|lia]. }
destruct (append next _ _ _) as [n1|] eqn:E1; [|done].
destruct (append_piece _ _ _ E1 Hn Hp) as (H1 & T1 & L1 & C1 & D1).
destruct (IH n1 (logical + piece_length p) r E Hx H1 Hps) as (H2 & T2 & L2 & C2 & D2); [destruct Hp; lia|done|lia|done|].
split; [done|]. cbn [total foldr length]. fold (total ps). split; [|split_and!; [lia|lia|tauto]].
rewrite T2, T1. unfold insert_text. rewrite text_cons. pose proof (length_piece_text p Hp) as Elen.
rewrite take_app_ge, drop_app_ge by lia. rewrite <- !app_assoc.
replace (Z.to_nat (at_ - logical) - length (piece_text O A p))%nat with (Z.to_nat (at_ - (logical + piece_length p))) by lia. done.
Qed.

Lemma insert_loop_accepts {W} (d : reist_gui_piece_document_t W) at_ amount ps : ∀ next logical,
ok (Piece REIST_GUI_PIECE_ADDED (added_used d) amount) →
Forall ok next → Forall ok ps → 0 <= logical <= at_ → at_ <= size d → logical + total ps = size d → size d <= UINT32_MAX →
Z.of_nat (length next + length ps + 2) <= 256 → total next + amount + total ps <= UINT32_MAX →
is_Some (insert_loop d ps at_ amount logical next).
Proof using All.
induction ps as [|p ps IH]; intros next logical Hx Hn Hps Hl Hat Htot Hsize Hc Ht; cbn [insert_loop].
{ cbn in Htot, Ht, Hc. destruct (Z.eqb_spec at_ (size d)); [|lia]. apply append_accepts; [lia|done|lia]. }
apply list.Forall_cons in Hps as [Hp Hps]. cbn [total foldr length] in *. fold (total ps) in *. pose proof (total_nonneg ps Hps).
assert (u32 (logical + piece_length p) = logical + piece_length p) as Eu by (apply u32_small; destruct Hp; ulia). rewrite Eu.
destruct (Z.leb_spec logical at_) as [_|]; [|lia]. cbn [andb]. destruct (Z.leb_spec at_ (logical + piece_length p)) as [Hle|Hgt].
{ apply insert_here_accepts; try done; cbn [length total foldr]; fold (total ps); lia. }
assert (0 < amount) by (by destruct Hx as (_ & ? & _)).
destruct (append_accepts next (source p) (offset p) (piece_length p)) as [n1 E1]; [lia|done|lia|]. rewrite E1.
destruct (append_piece _ _ _ E1 Hn Hp) as (H1 & _ & L1 & C1 & _).
apply IH; try done; [destruct Hp; lia|lia|lia|lia].
Qed.

(** The two parts of a piece that an erase keeps, and what it keeps of the
  text in front of and behind the range. *)
Lemma erase_step p ps (a e : nat) : (a <= e)%nat → ok p →
take a (piece_text O A p) ++ drop e (piece_text O A p) ++
take (a - length (piece_text O A p)) (text O A ps) ++ drop (e - length (piece_text O A p)) (text O A ps) =
take a (text O A (p :: ps)) ++ drop e (text O A (p :: ps)).
Proof using.
intros Hae Hp. rewrite text_cons, firstn_app, skipn_app, <- !app_assoc. f_equal.
destruct (decide (e < length (piece_text O A p))%nat) as [Hlt|Hge].
- replace (a - length (piece_text O A p))%nat with 0%nat by lia. done.
- by rewrite (drop_ge (piece_text O A p)) by lia.
Qed.

Lemma erase_piece_spec p at_ end_ logical next r :
erase_piece p at_ end_ logical (logical + piece_length p) next = Some r → Forall ok next → ok p → 0 <= logical → 0 <= at_ <= end_ →
Forall ok r ∧
text O A r = text O A next ++ take (Z.to_nat (at_ - logical)) (piece_text O A p) ++ drop (Z.to_nat (end_ - logical)) (piece_text O A p) ∧
total r <= total next + piece_length p ∧
Z.of_nat (length r) + Z.b2z (logical + piece_length p <? at_) <= Z.of_nat (length next) + 1 + Z.b2z (logical <? at_) ∧
(Z.of_nat (length next) <= 256 → Z.of_nat (length r) <= 256).
Proof using All.
intros E Hn Hp Hl Hae. pose proof (length_piece_text p Hp) as Elen. assert (0 < piece_length p) by (by destruct Hp as (_ & ? & _)).
unfold erase_piece in E.
set (keep := if logical <? at_ then (if at_ <? logical + piece_length p then at_ - logical else piece_length p) else 0).
assert (0 <= keep <= piece_length p ∧ take (Z.to_nat (at_ - logical)) (piece_text O A p) = slice 0 keep (piece_text O A p)) as [Hk Ek].
{ unfold keep. destruct (Z.ltb_spec logical at_); [destruct (Z.ltb_spec at_ (logical + piece_length p))|]; (split; [lia|]).
- done.
- rewrite take_ge by lia. unfold slice. by rewrite drop_0, take_ge by lia.
- by rewrite nonpos_nat by lia. }
destruct (if logical <? at_ then append next (source p) (offset p) (if at_ <? logical + piece_length p then at_ - logical else piece_length p)
else Some next) as [n1|] eqn:E1; [|done].
assert (Forall ok n1 ∧ text O A n1 = text O A next ++ slice 0 keep (piece_text O A p) ∧ total n1 = total next + keep ∧
Z.of_nat (length n1) <= Z.of_nat (length next) + Z.b2z (logical <? at_) ∧ (Z.of_nat (length next) <= 256 → Z.of_nat (length n1) <= 256))
as (H1 & T1 & L1 & C1 & D1).
{ clear E. revert E1. unfold keep in *. destruct (Z.ltb_spec logical at_); intros E1.
- rewrite <- (Z.add_0_r (offset p)) in E1.
destruct (append_part _ _ _ _ _ E1 Hn Hp) as (?&?&?&?&?); [lia..|]. split_and!; try done. cbn [Z.b2z]. lia.
- injection E1 as <-. rewrite slice_zero, app_nil_r. cbn [Z.b2z]. split_and!; try done; lia. }
rewrite Ek.
destruct (Z.ltb_spec end_ (logical + piece_length p)) as [He|He].
- set (skip := if logical <? end_ then end_ - logical else 0) in E.
assert (0 <= skip < piece_length p ∧ Z.to_nat skip = Z.to_nat (end_ - logical) ∧ keep <= skip) as (Hs & Es & Hks).
{ unfold skip, keep. destruct (Z.ltb_spec logical end_), (Z.ltb_spec logical at_); try destruct (Z.ltb_spec at_ (logical + piece_length p)); lia. }
cbv zeta in E. rewrite offset_u32 in E by (done || lia).
destruct (append_part _ _ _ _ _ E H1 Hp) as (H2 & T2 & L2 & C2 & D2); [lia..|].
split; [done|]. rewrite T2, T1, piece_drop, Es, <- app_assoc by (done || lia). split; [done|].
split; [lia|]. split; [|tauto]. destruct (Z.ltb_spec (logical + piece_length p) at_); cbn [Z.b2z]; lia.
- injection E as <-. split; [done|]. rewrite (drop_ge (piece_text O A p)) by lia. rewrite app_nil_r. split; [done|].
split; [lia|]. split; [|tauto]. destruct (Z.ltb_spec (logical + piece_length p) at_), (Z.ltb_spec logical at_); cbn [Z.b2z] in *; lia.
Qed.

Lemma erase_piece_accepts p at_ end_ logical next :
Forall ok next → ok p → 0 <= logical → 0 <= at_ <= end_ → total next + piece_length p <= UINT32_MAX →
Z.of_nat (length next) + 1 + Z.b2z (logical <? at_) <= 256 →
is_Some (erase_piece p at_ end_ logical (logical + piece_length p) next).
Proof using All.
intros Hn Hp Hl Hae Ht Hc. assert (0 < piece_length p) by (by destruct Hp as (_ & ? & _)). unfold erase_piece.
destruct (Z.ltb_spec logical at_) as [Hla|Hla]; cbn [Z.b2z] in Hc.
- set (keep := if at_ <? _ then _ else _).
assert (0 < keep <= piece_length p) as Hk by (unfold keep; destruct (Z.ltb_spec at_ (logical + piece_length p)); lia).
destruct (append_accepts next (source p) (offset p) keep) as [n1 E1]; [lia|done|lia|]. rewrite E1.
rewrite <- (Z.add_0_r (offset p)) in E1. destruct (append_part _ _ _ _ _ E1 Hn Hp) as (H1 & _ & L1 & C1 & _); [lia..|].
destruct (Z.ltb_spec end_ (logical + piece_length p)) as [He|]; [|done]. cbv zeta.
apply append_accepts; [lia|done|]. unfold keep in L1. destruct (Z.ltb_spec logical end_), (Z.ltb_spec at_ (logical + piece_length p)); lia.
- destruct (Z.ltb_spec end_ (logical + piece_length p)) as [He|]; [|done]. cbv zeta.
apply append_accepts; [lia|done|]. destruct (Z.ltb_spec logical end_); lia.
Qed.

Lemma erase_loop_spec ps at_ end_ : ∀ next logical r,
erase_loop ps at_ end_ logical next = Some r → Forall ok next → Forall ok ps → 0 <= logical → 0 <= at_ <= end_ →
logical + total ps <= UINT32_MAX →
Forall ok r ∧
text O A r = text O A next ++ take (Z.to_nat (at_ - logical)) (text O A ps) ++ drop (Z.to_nat (end_ - logical)) (text O A ps) ∧
Z.of_nat (length r) <= Z.of_nat (length next) + Z.of_nat (length ps) + Z.b2z (logical <? at_) ∧
(Z.of_nat (length next) <= 256 → Z.of_nat (length r) <= 256).
Proof using All.
induction ps as [|p ps IH]; intros next logical r; cbn [erase_loop]; intros E Hn Hps Hl Hae Ht.
{ injection E as <-. change (text O A []) with (@nil Z). rewrite take_nil, drop_nil, !app_nil_r. cbn [length]. split_and!; try done. destruct (_ <? _); cbn; lia. }
apply list.Forall_cons in Hps as [Hp Hps]. cbn [total foldr] in Ht. fold (total ps) in Ht. pose proof (total_nonneg ps Hps).
assert (u32 (logical + piece_length p) = logical + piece_length p) as Eu by (apply u32_small; destruct Hp; ulia). rewrite Eu in E.
destruct (erase_piece _ _ _ _ _ _) as [n1|] eqn:E1; [|done].
destruct (erase_piece_spec _ _ _ _ _ _ E1 Hn Hp Hl Hae) as (H1 & T1 & _ & C1 & D1).
destruct (IH n1 _ r E H1 Hps) as (H2 & T2 & C2 & D2); [destruct Hp; lia|done|lia|].
split; [done|]. split; [|split; [cbn [length]; lia|tauto]]. rewrite <- (erase_step p ps) by (done || lia). rewrite T2, T1, <- !app_assoc.
pose proof (length_piece_text p Hp) as Elen.
replace (Z.to_nat (at_ - logical) - length (piece_text O A p))%nat with (Z.to_nat (at_ - (logical + piece_length p))) by lia.
replace (Z.to_nat (end_ - logical) - length (piece_text O A p))%nat with (Z.to_nat (end_ - (logical + piece_length p))) by lia.
done.
Qed.

Lemma erase_loop_accepts ps at_ end_ : ∀ next logical,
Forall ok next → Forall ok ps → 0 <= logical → 0 <= at_ <= end_ → logical + total ps <= UINT32_MAX →
total next + total ps <= UINT32_MAX → Z.of_nat (length next) + Z.of_nat (length ps) + Z.b2z (logical <? at_) <= 256 →
is_Some (erase_loop ps at_ end_ logical next).
Proof using All.
induction ps as [|p ps IH]; intros next logical Hn Hps Hl Hae Ht Hn2 Hc; cbn [erase_loop]; [done|].
apply list.Forall_cons in Hps as [Hp Hps]. cbn [total foldr length] in *. fold (total ps) in *. pose proof (total_nonneg ps Hps).
assert (u32 (logical + piece_length p) = logical + piece_length p) as Eu by (apply u32_small; destruct Hp; ulia). rewrite Eu.
destruct (erase_piece_accepts p at_ end_ logical next Hn Hp Hl Hae) as [n1 E1]; [lia|lia|]. rewrite E1.
destruct (erase_piece_spec _ _ _ _ _ _ E1 Hn Hp Hl Hae) as (H1 & _ & T1 & C1 & _).
apply IH; try done; [destruct Hp; lia|lia|lia|lia].
Qed.
End pieces.

(** ** Documents *)
Section document.
Context {W : Type} (I : W → Prop).
#[local] Abbreviation document := (reist_gui_piece_document_t W).

(** The reader serves the original, in any world of [I]. *)
Definition serves (reader : reist_gui_piece_read_fn W) (O : list Z) : Prop :=
∀ o n w, I w → 0 <= o → 0 <= n → o + n <= Z.of_nat (length O) → ∃ w', reader o n w = (0, slice o n O, w') ∧ I w'.

Record holds (d : document) (O t : list Z) : Prop := {
holds_version : api_version d = REIST_GUI_PIECE_DOCUMENT_API_VERSION;
holds_struct : struct_size d = document_bytes;
holds_original : original_size d = Z.of_nat (length O);
holds_original_u32 : original_size d <= UINT32_MAX;
holds_size : size d = Z.of_nat (length t);
holds_size_u32 : size d <= UINT32_MAX;
holds_used : 0 <= added_used d <= 65536;
holds_added : Z.of_nat (length (added d)) = 65536;
holds_count : 0 <= piece_count d <= 256;
holds_array : Z.of_nat (length (pieces d)) = 256;
holds_pieces : Forall (piece_ok (original_size d) (added_used d)) (live d);
holds_text : text O (added d) (live d) = t;
holds_reader : original_size d ≠ 0 → ∃ reader, read_original d = Some reader ∧ serves reader O
}.

Lemma length_live (d : document) : 0 <= piece_count d → piece_count d <= Z.of_nat (length (pieces d)) → Z.of_nat (length (live d)) = piece_count d.
Proof using. intros. unfold live. rewrite length_take. lia. Qed.

Lemma holds_total d O t : holds d O t → total (live d) = size d.
Proof using.
intros H. rewrite (holds_size _ _ _ H), <- (holds_text _ _ _ H). symmetry.
apply (length_text O (added d) (original_size d) (added_used d)); destruct H; unfold_words; (lia || done).
Qed.

Lemma valid_loop_ok (d : document) ps : ∀ t,
Forall (piece_ok (original_size d) (added_used d)) ps → 0 <= t → t + total ps <= UINT32_MAX → valid_loop d ps t = Some (t + total ps).
Proof using.
induction ps as [|p ps IH]; intros t Hps Ht Hsum; cbn [valid_loop]; [cbn; f_equal; lia|].
apply list.Forall_cons in Hps as [(Hs & Hl & Ho & Hb) Hps]. cbn [total foldr] in *. fold (total ps) in *.
assert (0 <= total ps) by (clear - Hps; induction Hps as [|p ps (?&?&?&?) _ IH]; cbn; [lia|fold (total ps); lia]).
assert (negb (source p =? REIST_GUI_PIECE_ORIGINAL) && negb (source p =? REIST_GUI_PIECE_ADDED) = false) as -> by (by destruct Hs as [->| ->]).
destruct (Z.eqb_spec (piece_length p) 0); [lia|]. cbn [orb].
set (bound := if _ =? _ then _ else _) in *.
destruct (Z.ltb_spec bound (offset p)); [lia|]. destruct (Z.ltb_spec (bound - offset p) (piece_length p)); [lia|].
destruct (Z.ltb_spec (UINT32_MAX - t) (piece_length p)); [lia|]. cbn [orb].
rewrite IH; [f_equal; lia|done|lia|lia].
Qed.

Lemma holds_valid d O t : holds d O t → valid d = true.
Proof using.
intros H. pose proof (holds_total _ _ _ H) as Ht. unfold valid. destruct H as [Hv Hst Ho Hou Hs Hsu Hu Ha Hc Har Hp Htx Hr].
rewrite Hv, Hst, !Z.eqb_refl. change REIST_GUI_PIECE_CAPACITY with 256. change REIST_GUI_PIECE_ADDED_CAPACITY with 65536.
rewrite (proj2 (Z.ltb_ge 256 (piece_count d))), (proj2 (Z.ltb_ge 65536 (added_used d))) by lia. cbn [negb orb].
rewrite valid_loop_ok; [rewrite Z.add_0_l, Ht; apply Z.eqb_refl|done|lia|lia].
Qed.

(** ** Opening *)
Lemma live_initial : live (reist_gui_piece_document_initialize (W := W)) = [].
Proof using. reflexivity. Qed.

Lemma open_holds d O reader :
Z.of_nat (length O) <= UINT32_MAX → (O ≠ [] → ∃ f, reader = Some f ∧ serves f O) →
∃ d', reist_gui_piece_document_open d (Z.of_nat (length O)) reader = (REIST_GUI_PIECE_OK, d') ∧ holds d' O O ∧
piece_count d' <= 1 ∧ added_used d' = 0.
Proof using.
intros Hlen Hr. unfold reist_gui_piece_document_open.
destruct (Z.eqb_spec (Z.of_nat (length O)) 0) as [E|E]; cbn [negb andb].
- destruct O; [|done]. eexists. split; [done|]. split; [|split; [by vm_compute|done]].
split; try done; try lia; cbn [piece_count]; try (by vm_compute); try constructor.
- destruct (Hr ltac:(intros ->; done)) as (f & -> & Hf). cbn [present negb].
lazymatch goal with |- context [(REIST_GUI_PIECE_OK, ?x)] => set (d' := x) end.
assert (live d' = [Piece REIST_GUI_PIECE_ORIGINAL 0 (Z.of_nat (length O))]) as El by reflexivity.
exists d'. split; [done|]. split; [|split; [by vm_compute|done]].
split; try rewrite El; try done; try (unfold d'; cbn [original_size size piece_count]; lia); try (by vm_compute).
+ constructor; [|constructor]. unfold piece_ok. cbn. split_and!; (lia || by left).
+ unfold text, piece_text, fragment. cbn [fmap list_fmap concat source offset piece_length]. cbn. by rewrite app_nil_r, slice_all.
+ intros _. by exists f.
Qed.

(** ** Editing *)
Lemma text_added O A used x ps osize :
Forall (piece_ok osize used) ps → 0 <= used <= Z.of_nat (length A) → text O (copy_to used x A) ps = text O A ps.
Proof using.
intros Hps Hu. unfold text. f_equal. induction Hps as [|p ps (Hs & Hl & Ho & Hb) _ IH]; [done|]. cbn. f_equal; [|done].
unfold piece_text, fragment. destruct (_ =? _); [done|]. apply slice_copy_before; lia.
Qed.

(** The document with the pieces [next]. *)
Definition rebuilt (d : document) (size' used' : Z) (next : list reist_gui_piece_t) (A' : list Z) : document :=
Document (api_version d) (struct_size d) size' (original_size d) (Z.of_nat (length next)) used' 1 (read_original d)
(next ++ drop (length next) (pieces d)) A'.

Lemma rebuilt_holds d O t size' used' next A' t' :
holds d O t → Forall (piece_ok (original_size d) used') next → text O A' next = t' → Z.of_nat (length next) <= 256 →
0 <= used' <= 65536 → Z.of_nat (length A') = 65536 → size' = Z.of_nat (length t') → size' <= UINT32_MAX →
holds (rebuilt d size' used' next A') O t'.
Proof using.
intros H Hn Ht Hc Hu Ha Hs Hs32.
assert (live (rebuilt d size' used' next A') = next) as El.
{ unfold live, rebuilt. cbn. by rewrite Nat2Z.id, take_app_length. }
destruct H as [Hv Hst Ho Hou _ _ _ _ _ Har _ _ Hr].
split; try rewrite El; try done; cbn [rebuilt piece_count pieces]; try lia. rewrite length_app, length_drop. lia.
Qed.

(** An insertion that is answered 0 inserts; a refused one changes nothing,
  and is refused only for want of room. *)
Lemma insert_holds d O t at_ data amount :
holds d O t → 0 <= at_ → 0 <= amount <= Z.of_nat (length data) →
let '(status, d') := reist_gui_piece_document_insert d at_ (Some data) amount in
(status = REIST_GUI_PIECE_EINVAL ∧ Z.of_nat (length t) < at_ ∧ d' = d) ∨
(status = REIST_GUI_PIECE_ECAPACITY ∧ at_ <= Z.of_nat (length t) ∧ d' = d ∧
 (65536 < added_used d + amount ∨ UINT32_MAX < size d + amount ∨ 256 < piece_count d + 2)) ∨
(status = REIST_GUI_PIECE_OK ∧ at_ <= Z.of_nat (length t) ∧ holds d' O (insert_text t at_ (take (Z.to_nat amount) data)) ∧
 added_used d' = added_used d + amount ∧ piece_count d' <= piece_count d + 2 ∧ read_original d' = read_original d).
Proof using.
intros H Hat Hdata. pose proof (holds_total _ _ _ H) as Htot. unfold reist_gui_piece_document_insert.
rewrite (holds_valid _ _ _ H). cbn [negb orb present]. rewrite andb_false_r. cbn [orb].
pose proof (holds_size _ _ _ H) as Hsize.
destruct (Z.ltb_spec (size d) at_) as [Hlt|Hge]; [left; split; [done|split; [lia|done]]|].
destruct (Z.eqb_spec amount 0) as [->|Hne].
{ right; right. split; [done|]. split; [lia|]. unfold insert_text. cbn [Z.to_nat take app]. rewrite app_nil_l, take_drop. split_and!; try done; lia. }
change REIST_GUI_PIECE_ADDED_CAPACITY with 65536. pose proof (holds_used _ _ _ H) as Hu.
destruct (Z.ltb_spec (65536 - added_used d) amount); cbn [orb]; [right; left; split; [done|split; [lia|split; [done|left; lia]]]|].
destruct (Z.ltb_spec (UINT32_MAX - size d) amount); cbn [orb]; [right; left; split; [done|split; [lia|split; [done|right; left; lia]]]|].
set (x := take (Z.to_nat amount) data). assert (Z.of_nat (length x) = amount) as Ex by (unfold x; rewrite length_take; lia).
set (A' := copy_to (added_used d) x (added d)). set (used' := added_used d + amount).
pose proof (holds_added _ _ _ H) as Hadded. pose proof (holds_original _ _ _ H) as Ho. pose proof (holds_original_u32 _ _ _ H).
assert (Z.of_nat (length A') = 65536) as HA' by (unfold A'; rewrite length_copy_to; lia).
assert (Forall (piece_ok (original_size d) used') (live d)) as Hlive.
{ apply (list.Forall_impl _ _ _ (holds_pieces _ _ _ H)). intros p. apply piece_ok_mono. unfold used'. lia. }
assert (text O A' (live d) = t) as Htext.
{ unfold A'. rewrite (text_added O (added d) (added_used d) x (live d) (original_size d)) by first [exact (holds_pieces _ _ _ H)|lia].
exact (holds_text _ _ _ H). }
assert (piece_ok (original_size d) used' (Piece REIST_GUI_PIECE_ADDED (added_used d) amount)) as Hx.
{ unfold piece_ok, used'. cbn. split; [by right|]. lia. }
assert (fragment O A' REIST_GUI_PIECE_ADDED (added_used d) amount = x) as Efrag.
{ unfold fragment, A'. cbn. rewrite <- Ex at 1. apply slice_copy_to; lia. }
pose proof (length_live d (proj1 (holds_count _ _ _ H))) as Hcount. rewrite (holds_array _ _ _ H) in Hcount.
specialize (Hcount (proj2 (holds_count _ _ _ H))).
destruct (insert_loop d (live d) at_ amount 0 []) as [next|] eqn:E.
2: { right; left. split; [done|]. split; [lia|]. split; [done|]. right. right.
destruct (decide (256 < piece_count d + 2)); [done|exfalso].
destruct (insert_loop_accepts O A' (original_size d) used' ltac:(lia) ltac:(unfold used'; lia) ltac:(done) ltac:(unfold_words; unfold used'; lia)
d at_ amount (live d) [] 0 Hx) as [? E2]; [first [done|lia|constructor|exact (holds_pieces _ _ _ H)|cbn; lia|cbn; destruct (0 <? at_); cbn; lia]..|by rewrite E in E2]. }
right; right. split; [done|]. split; [lia|].
destruct (insert_loop_spec O A' (original_size d) used' ltac:(lia) ltac:(unfold used'; lia) ltac:(done) ltac:(unfold_words; unfold used'; lia)
d at_ amount (live d) [] 0 next E Hx) as (Hn & Tn & Ln & Cn & Dn); [first [done|lia|constructor|exact (holds_pieces _ _ _ H)|cbn; lia|cbn; destruct (0 <? at_); cbn; lia]..|].
rewrite Htext, Efrag, Z.sub_0_r in Tn. cbn in Tn, Ln, Cn.
rewrite !u32_small by (unfold_words; pose proof (holds_size_u32 _ _ _ H); lia).
split; [|split; [done|split; [cbn; lia|done]]].
apply (rebuilt_holds d O t); first [done|apply Dn; cbn; lia|unfold used'; lia|lia
|unfold insert_text; rewrite !length_app, length_take, length_drop; lia].
Qed.

Lemma erase_holds d O t at_ amount :
holds d O t → 0 <= at_ → 0 <= amount →
let '(status, d') := reist_gui_piece_document_erase d at_ amount in
(status = REIST_GUI_PIECE_EINVAL ∧ Z.of_nat (length t) < at_ + amount ∧ d' = d) ∨
(status = REIST_GUI_PIECE_ECAPACITY ∧ at_ + amount <= Z.of_nat (length t) ∧ d' = d ∧ 256 < piece_count d + 1) ∨
(status = REIST_GUI_PIECE_OK ∧ at_ + amount <= Z.of_nat (length t) ∧ holds d' O (erase_text t at_ amount) ∧
 added_used d' = added_used d ∧ piece_count d' <= piece_count d + 1 ∧ read_original d' = read_original d).
Proof using.
intros H Hat Hamount. pose proof (holds_total _ _ _ H) as Htot. unfold reist_gui_piece_document_erase.
rewrite (holds_valid _ _ _ H). cbn [negb orb]. pose proof (holds_size _ _ _ H) as Hsize. pose proof (holds_size_u32 _ _ _ H) as Hs32.
destruct (Z.ltb_spec (size d) at_) as [Hlt|Hge]; [left; split; [done|split; [lia|done]]|]. cbn [orb].
destruct (Z.ltb_spec (size d - at_) amount) as [Hlt|Hge2]; [left; split; [done|split; [lia|done]]|].
destruct (Z.eqb_spec amount 0) as [->|Hne].
{ right; right. split; [done|]. split; [lia|]. unfold erase_text. rewrite Z.add_0_r, take_drop.
pose proof (holds_count _ _ _ H). split_and!; try done; lia. }
pose proof (holds_used _ _ _ H) as Hu. pose proof (holds_added _ _ _ H) as Hadded. pose proof (holds_original _ _ _ H) as Ho.
pose proof (holds_original_u32 _ _ _ H).
rewrite (u32_small (at_ + amount)) by (unfold_words; lia).
pose proof (length_live d (proj1 (holds_count _ _ _ H))) as Hcount. rewrite (holds_array _ _ _ H) in Hcount.
specialize (Hcount (proj2 (holds_count _ _ _ H))).
destruct (erase_loop (live d) at_ (at_ + amount) 0 []) as [next|] eqn:E.
2: { right; left. split; [done|]. split; [lia|]. split; [done|].
destruct (decide (256 < piece_count d + 1)); [done|exfalso].
destruct (erase_loop_accepts O (added d) (original_size d) (added_used d) ltac:(lia) ltac:(lia) ltac:(done) ltac:(unfold_words; lia)
(live d) at_ (at_ + amount) [] 0) as [? E2]; [first [done|lia|constructor|exact (holds_pieces _ _ _ H)|cbn; lia|cbn; destruct (0 <? at_); cbn; lia]..|by rewrite E in E2]. }
right; right. split; [done|]. split; [lia|].
destruct (erase_loop_spec O (added d) (original_size d) (added_used d) ltac:(lia) ltac:(lia) ltac:(done) ltac:(unfold_words; lia)
(live d) at_ (at_ + amount) [] 0 next E) as (Hn & Tn & Cn & Dn); [first [done|lia|constructor|exact (holds_pieces _ _ _ H)|cbn; lia|cbn; destruct (0 <? at_); cbn; lia]..|].
rewrite (holds_text _ _ _ H), !Z.sub_0_r in Tn. cbn in Tn.
specialize (Dn ltac:(done)). split; [|split; [done|split; [cbn in *; destruct (0 <? at_); cbn in *; lia|done]]].
apply (rebuilt_holds d O t); first [done|lia|unfold erase_text; rewrite !length_app, length_take, length_drop; lia].
Qed.
End document.
