(* ===== verification/PieceDocumentProps.v ===== *)
(** Reading and streaming a piece table, sequences of calls, and the
    properties. *)
From S2P Require Import Prelude PieceDocument PieceDocumentSpec.
Import PieceDocument.

Section props.
Context {W : Type} (I : W → Prop).
#[local] Abbreviation document := (reist_gui_piece_document_t W).
#[local] Abbreviation holds := (holds I).

(** ** Reading *)
(** What the pieces [ps] of a valid document promise, as [holds] gives it. *)
Record readable (d : document) (O : list Z) (ps : list reist_gui_piece_t) : Prop := {
readable_original : original_size d = Z.of_nat (length O);
readable_original_u32 : original_size d <= UINT32_MAX;
readable_used : added_used d <= Z.of_nat (length (added d)) <= 65536;
readable_pieces : Forall (piece_ok (original_size d) (added_used d)) ps;
readable_reader : original_size d ≠ 0 → ∃ reader, read_original d = Some reader ∧ serves I reader O
}.

Lemma holds_readable d O t : holds d O t → readable d O (live d).
Proof using. intros H. pose proof (holds_used _ _ _ _ H). pose proof (holds_added _ _ _ _ H). destruct H. split; (done || lia). Qed.

Lemma readable_tail d O p ps : readable d O (p :: ps) → readable d O ps ∧ piece_ok (original_size d) (added_used d) p.
Proof using. intros [? ? ? Hp ?]. apply list.Forall_cons in Hp as [? ?]. by split; [split|]. Qed.

Lemma readable_length d O p ps : readable d O (p :: ps) →
Z.of_nat (length (piece_text O (added d) p)) = piece_length p ∧ 0 < piece_length p ∧
offset p + piece_length p <= UINT32_MAX ∧ 0 <= offset p.
Proof using.
intros Hr. destruct (readable_tail _ _ _ _ Hr) as [_ Hp]. destruct Hr as [Ho Hou Hu _ _].
split; [apply (length_piece_text O (added d) (original_size d) (added_used d)); unfold_words; (lia || done)|].
destruct Hp as (_ & ? & ? & Hb). split; [done|]. split; [|done]. destruct (_ =? _) in Hb; unfold_words; lia.
Qed.

(** The part [a, a + n) of a piece comes out of the added bytes or out of the
  reader. *)
Lemma part_added d O p ps a n : readable d O (p :: ps) → source p = REIST_GUI_PIECE_ADDED → 0 <= a → a + n <= piece_length p →
slice (offset p + a) n (added d) = slice a n (piece_text O (added d) p).
Proof using.
intros Hr Hs Ha Hn. destruct (readable_length _ _ _ _ Hr) as (_ & _ & _ & ?). unfold piece_text, fragment. rewrite Hs. cbn.
rewrite slice_slice by lia. by rewrite Z.add_comm.
Qed.

Lemma part_original d O p ps a n w : readable d O (p :: ps) → source p ≠ REIST_GUI_PIECE_ADDED → 0 <= a → 0 <= n → a + n <= piece_length p → I w →
∃ reader w', read_original d = Some reader ∧ reader (u32 (offset p + a)) n w = (0, slice a n (piece_text O (added d) p), w') ∧ I w'.
Proof using.
intros Hr Hs Ha Hn Hsum Hw. destruct (readable_length _ _ _ _ Hr) as (_ & Hlen & Hb & Ho).
destruct (readable_tail _ _ _ _ Hr) as [_ (Hsrc & _ & _ & Hb2)]. destruct Hsrc as [Hsrc|]; [|done].
rewrite Hsrc in Hb2. cbn in Hb2. pose proof (readable_original _ _ _ Hr) as Eo.
destruct (readable_reader _ _ _ Hr) as (reader & E & Hserves); [lia|].
rewrite u32_small by (unfold_words; lia).
destruct (Hserves (offset p + a) n w Hw) as (w' & Er & Hw'); [lia|done|lia|].
exists reader, w'. split; [done|]. split; [|done]. rewrite Er. unfold piece_text, fragment. rewrite Hsrc. cbn.
rewrite slice_slice by lia. by rewrite Z.add_comm.
Qed.

Lemma read_loop_holds d O ps : ∀ at_ logical completed wanted output w,
readable d O ps → I w → 0 <= logical <= at_ → 0 <= completed <= wanted → wanted <= Z.of_nat (length output) → wanted <= UINT32_MAX →
at_ + (wanted - completed) <= logical + total ps → logical + total ps <= UINT32_MAX →
∃ w', read_loop d ps at_ logical completed wanted output w =
Some (REIST_GUI_PIECE_OK, copy_to completed (slice (at_ - logical) (wanted - completed) (text O (added d) ps)) output, w') ∧ I w'.
Proof using.
induction ps as [|p ps IH]; intros at_ logical completed wanted output w Hr Hw Hl Hc Ho Hwmax Hsum Hmax; cbn [read_loop].
{ cbn in Hsum. replace (wanted - completed) with 0 by lia. rewrite slice_zero, copy_to_nil.
destruct (Z.eqb_spec completed wanted); [|lia]. by exists w. }
destruct (Z.ltb_spec completed wanted) as [Hlt|Hge]; cbn [negb].
2: { replace (wanted - completed) with 0 by lia. rewrite slice_zero, copy_to_nil.
destruct (Z.eqb_spec completed wanted); [|lia]. by exists w. }
destruct (readable_tail _ _ _ _ Hr) as [Hr' _]. destruct (readable_length _ _ _ _ Hr) as (Elen & Hlen & Hb & Hoff).
cbn [total foldr] in Hsum, Hmax. fold (total ps) in Hsum, Hmax.
assert (0 <= total ps) as Htot.
{ apply (total_nonneg O (added d) (original_size d) (added_used d)); destruct Hr'; unfold_words; (lia || done). }
rewrite (u32_small (logical + piece_length p)) by (unfold_words; lia).
destruct (Z.leb_spec (logical + piece_length p) at_) as [Hskip|Hin].
{ destruct (IH at_ (logical + piece_length p) completed wanted output w) as (w' & -> & Hw'); [done|done|lia..|].
exists w'. split; [|done]. do 4 f_equal. rewrite text_cons, slice_app_r by lia. f_equal. lia. }
assert ((if logical <? at_ then at_ - logical else 0) = at_ - logical) as -> by (destruct (Z.ltb_spec logical at_); lia).
set (amount := if wanted - completed <? _ then _ else _).
assert (amount = Z.min (wanted - completed) (piece_length p - (at_ - logical))) as Eam
by (unfold amount; destruct (Z.ltb_spec (wanted - completed) (piece_length p - (at_ - logical))); lia).
clearbody amount. set (part := slice (at_ - logical) amount (piece_text O (added d) p)).
assert (Z.of_nat (length part) = amount) as Epart by (unfold part; rewrite length_slice; lia).
rewrite (u32_small (at_ + amount)), (u32_small (completed + amount)) by (unfold_words; lia).
assert (∀ w1, I w1 → ∃ w', read_loop d ps (at_ + amount) (logical + piece_length p) (completed + amount) wanted (copy_to completed part output) w1 =
Some (REIST_GUI_PIECE_OK, copy_to completed (slice (at_ - logical) (wanted - completed) (text O (added d) (p :: ps))) output, w') ∧ I w') as Hnext.
{ intros w1 Hw1. destruct (decide (completed + amount = wanted)) as [Edone|Hmore].
- exists w1. split; [|done].
assert (slice (at_ - logical) (wanted - completed) (text O (added d) (p :: ps)) = part) as ->.
{ unfold part. rewrite text_cons. replace (wanted - completed) with amount by lia. by rewrite slice_app_l by lia. }
destruct ps as [|p' ps']; cbn [read_loop]; [|rewrite (proj2 (Z.ltb_ge (completed + amount) wanted)) by lia; cbn [negb]];
by rewrite Edone, Z.eqb_refl.
- assert (at_ + amount = logical + piece_length p) as Eat by lia.
destruct (IH (at_ + amount) (logical + piece_length p) (completed + amount) wanted (copy_to completed part output) w1)
as (w' & -> & Hw'); [done|done|lia|lia|rewrite length_copy_to by lia; lia|lia..|].
exists w'. split; [|done]. rewrite <- Epart at 1. rewrite copy_to_app by lia. do 4 f_equal.
rewrite text_cons. unfold part. rewrite Eat, Z.sub_diag.
replace (wanted - completed) with (amount + (wanted - (completed + amount))) by lia.
rewrite <- slice_app by lia. f_equal; [by rewrite slice_app_l by lia|].
rewrite slice_app_r by lia. f_equal. lia. }
destruct (Z.eqb_spec (source p) REIST_GUI_PIECE_ADDED) as [Es|Es].
- rewrite (part_added d O p ps) by (done || lia). fold part. by apply Hnext.
- destruct (part_original d O p ps (at_ - logical) amount w Hr Es) as (reader & w1 & -> & -> & Hw1); [lia..|done|].
cbn [Z.eqb negb]. fold part. by apply Hnext.
Qed.

(** A read gives the bytes of the text. *)
Lemma document_read_holds d O t at_ output amount w :
holds d O t → I w → 0 <= at_ → 0 <= amount <= Z.of_nat (length output) →
∃ w', I w' ∧ reist_gui_piece_document_read d at_ (Some output) amount w =
Some (if Z.of_nat (length t) <? at_ + amount then (REIST_GUI_PIECE_EINVAL, Some output, w')
      else (REIST_GUI_PIECE_OK, Some (copy_to 0 (slice at_ amount t) output), w')).
Proof using.
intros H Hw Hat Ham. unfold reist_gui_piece_document_read. rewrite (holds_valid _ _ _ _ H). cbn [negb orb present]. rewrite andb_false_r. cbn [orb].
pose proof (holds_size _ _ _ _ H) as Hs. pose proof (holds_total _ _ _ _ H). pose proof (holds_size_u32 _ _ _ _ H).
destruct (Z.ltb_spec (Z.of_nat (length t)) (at_ + amount)) as [Hout|Hin].
- exists w. split; [done|]. assert ((size d <? at_) || (size d - at_ <? amount) = true) as -> by lia. done.
- assert ((size d <? at_) || (size d - at_ <? amount) = false) as -> by lia. change (default [] (Some output)) with output.
destruct (read_loop_holds d O (live d) at_ 0 0 amount output w (holds_readable _ _ _ H) Hw) as (w' & -> & Hw'); [lia..|].
exists w'. split; [done|]. by rewrite !Z.sub_0_r, (holds_text _ _ _ _ H).
Qed.
End props.

(** ** Streaming *)
Lemma take_copy_to bytes n buffer : Z.of_nat (length bytes) = n → take (Z.to_nat n) (copy_to 0 bytes buffer) = bytes.
Proof. intros <-. unfold copy_to. change (take (Z.to_nat 0) buffer) with (@nil Z). rewrite Nat2Z.id, app_nil_l. apply take_app_length. Qed.

Section streaming.
Context {W : Type} (J : list Z → W → Prop) (write_bytes : reist_gui_piece_write_fn W).
#[local] Abbreviation document := (reist_gui_piece_document_t W).

(** [J l w]: the bytes [l] have been written.  A writer takes the bytes or
  fails without taking any, as long as it is handed at most 4096. *)
Definition writes : Prop :=
∀ l bytes w, J l w → 0 < Z.of_nat (length bytes) <= REIST_GUI_PIECE_IO_CAPACITY →
let '(status, w') := write_bytes bytes w in (status = 0 ∧ J (l ++ bytes) w') ∨ (status ≠ 0 ∧ J l w').

Context (Hwrites : writes).

(** All of [t] was written, or the writer failed after a prefix. *)
Definition streamed (l t : list Z) (status : Z) (w : W) : Prop :=
(status = 0 ∧ J (l ++ t) w) ∨ (status = REIST_GUI_PIECE_EIO ∧ ∃ n, J (l ++ take n t) w).

Lemma streamed_cons l x y w : streamed l x REIST_GUI_PIECE_EIO w → streamed l (x ++ y) REIST_GUI_PIECE_EIO w.
Proof using. intros [[? _]|[_ (n & Hn)]]; [done|]. right. split; [done|]. exists (n `min` length x)%nat.
rewrite take_app_le by lia. by rewrite <- firstn_firstn, firstn_all. Qed.

Lemma streamed_app l x y status w : streamed (l ++ x) y status w → streamed l (x ++ y) status w.
Proof using.
unfold streamed. rewrite <- app_assoc. intros [?|[-> (n & Hn)]]; [by left|right]. split; [done|]. exists (length x + n)%nat.
by rewrite take_app_add, app_assoc.
Qed.

Lemma chunk_loop_holds (d : document) O p ps fuel : ∀ l done_ buffer w,
(∀ l, readable (J l) d O (p :: ps)) → J l w → 0 <= done_ <= piece_length p → piece_length p - done_ <= 4096 * Z.of_nat fuel →
∃ status buffer' w', chunk_loop fuel d write_bytes p done_ buffer w = Some (status, buffer', w') ∧
streamed l (slice done_ (piece_length p - done_) (piece_text O (added d) p)) status w'.
Proof using All.
induction fuel as [|fuel IH]; intros l done_ buffer w Hr Hw Hd Hfuel; cbn [chunk_loop].
{ destruct (Z.ltb_spec done_ (piece_length p)); [lia|]. cbn [negb]. exists 0, buffer, w. split; [done|]. left. split; [done|].
replace (piece_length p - done_) with 0 by lia. by rewrite slice_zero, app_nil_r. }
destruct (Z.ltb_spec done_ (piece_length p)) as [Hlt|Hge]; cbn [negb].
2: { exists 0, buffer, w. split; [done|]. left. split; [done|].
replace (piece_length p - done_) with 0 by lia. by rewrite slice_zero, app_nil_r. }
change REIST_GUI_PIECE_IO_CAPACITY with 4096. set (amount := if 4096 <? _ then _ else _).
assert (amount = Z.min 4096 (piece_length p - done_)) as Eam by (unfold amount; destruct (Z.ltb_spec 4096 (piece_length p - done_)); lia).
clearbody amount. set (part := slice done_ amount (piece_text O (added d) p)).
destruct (readable_length _ _ _ _ _ (Hr l)) as (Elen & Hlen & Hb & Hoff).
assert (Z.of_nat (length part) = amount) as Epart by (unfold part; rewrite length_slice; lia).
rewrite (u32_small (done_ + amount)) by (unfold_words; lia).
assert (∀ buffer1 w1, J l w1 → ∃ status buffer' w',
(let '(status, w) := write_bytes part w1 in
 if negb (status =? 0) then Some (REIST_GUI_PIECE_EIO, buffer1, w)
 else chunk_loop fuel d write_bytes p (done_ + amount) buffer1 w) = Some (status, buffer', w') ∧
streamed l (slice done_ (piece_length p - done_) (piece_text O (added d) p)) status w') as Hnext.
{ intros buffer1 w1 Hw1. pose proof (Hwrites l part w1 Hw1) as Hwr. rewrite Epart in Hwr.
specialize (Hwr ltac:(change REIST_GUI_PIECE_IO_CAPACITY with 4096; lia)).
replace (piece_length p - done_) with (amount + (piece_length p - (done_ + amount))) by lia.
rewrite <- slice_app by lia. fold part.
destruct (write_bytes part w1) as [st w2]. destruct Hwr as [[-> Hw2]|[Hst Hw2]].
- cbn [Z.eqb negb]. destruct (IH (l ++ part) (done_ + amount) buffer1 w2 Hr Hw2) as (status & b & w' & -> & Hs); [lia..|].
exists status, b, w'. split; [done|]. by apply streamed_app.
- destruct (Z.eqb_spec st 0); [done|]. cbn [negb]. eexists _, _, w2. split; [done|]. right. split; [done|].
exists 0%nat. by rewrite take_0, app_nil_r. }
destruct (Z.eqb_spec (source p) REIST_GUI_PIECE_ORIGINAL) as [Es|Es].
- destruct (part_original (J l) d O p ps done_ amount w (Hr l)) as (reader & w1 & -> & -> & Hw1); [by rewrite Es|lia..|done|].
cbn [Z.eqb negb]. fold part.
rewrite (take_copy_to part) by done.
by apply Hnext.
- destruct (readable_tail _ _ _ _ _ (Hr l)) as [_ (Hsrc & _)]. destruct Hsrc as [?|Hsrc]; [done|].
rewrite (part_added (J l) d O p ps) by (done || lia). fold part. by apply Hnext.
Qed.

Lemma chunk_fuel_enough p : 0 <= piece_length p → piece_length p - 0 <= 4096 * Z.of_nat (chunk_fuel p).
Proof using. unfold chunk_fuel. change REIST_GUI_PIECE_IO_CAPACITY with 4096. intros. pose proof (Z.div_mod (piece_length p) 4096).
pose proof (Z.mod_pos_bound (piece_length p) 4096). lia. Qed.

Lemma stream_loop_holds (d : document) O ps : ∀ l buffer w,
(∀ l, readable (J l) d O ps) → J l w →
∃ status w', stream_loop d write_bytes ps buffer w = Some (status, w') ∧ streamed l (text O (added d) ps) status w'.
Proof using All.
induction ps as [|p ps IH]; intros l buffer w Hr Hw; cbn [stream_loop].
{ exists 0, w. split; [done|]. left. split; [done|]. by rewrite app_nil_r. }
destruct (readable_length _ _ _ _ _ (Hr l)) as (Elen & Hlen & _).
destruct (chunk_loop_holds d O p ps (chunk_fuel p) l 0 buffer w Hr Hw) as (st & b & w1 & -> & Hs); [lia|apply chunk_fuel_enough; lia|].
rewrite Z.sub_0_r, <- Elen, slice_all in Hs. rewrite text_cons.
destruct Hs as [[-> Hw1]|[-> Hw1]].
- cbn [Z.eqb negb]. destruct (IH (l ++ piece_text O (added d) p) b w1) as (status & w' & -> & Hs); [by intros l'; destruct (readable_tail _ _ _ _ _ (Hr l'))|done|].
exists status, w'. split; [done|]. by apply streamed_app.
- eexists _, w1. split; [done|]. apply streamed_cons. by right.
Qed.

(** Streaming writes the text of the document, in chunks of at most 4096
    bytes: it ends, never calls a null pointer, and answers 0 with all of the
    text written or -5 with a prefix of it written. *)
Theorem piece_document_streams (d : document) O t buffer w :
(∀ l, holds (J l) d O t) → J [] w →
∃ status w', reist_gui_piece_document_stream d (Some write_bytes) buffer w = Some (status, w') ∧ streamed [] t status w'.
Proof using All.
intros H Hw. unfold reist_gui_piece_document_stream. rewrite (holds_valid _ _ _ _ (H [])). cbn [negb].
rewrite <- (holds_text _ _ _ _ (H [])). apply stream_loop_holds; [|done].
intros l. by eapply holds_readable.
Qed.
End streaming.

(** ** Sequences of calls *)
Inductive edit :=
| Insert (at_ : Z) (data : list Z)
| Erase (at_ amount : Z)
| Read (at_ amount : Z).

(** A status, and the bytes of a read that succeeded. *)
Definition answer : Type := Z * list Z.

Section runs.
Context {W : Type} (I : W → Prop).
#[local] Abbreviation document := (reist_gui_piece_document_t W).
#[local] Abbreviation holds := (holds I).

(** [None]: a call of a null pointer. *)
Definition perform (d : document) (w : W) (e : edit) : option (answer * document * W) :=
match e with
| Insert at_ data =>
  let '(status, d) := reist_gui_piece_document_insert d at_ (Some data) (Z.of_nat (length data)) in Some ((status, []), d, w)
| Erase at_ amount => let '(status, d) := reist_gui_piece_document_erase d at_ amount in Some ((status, []), d, w)
| Read at_ amount =>
  match reist_gui_piece_document_read d at_ (Some (replicate (Z.to_nat amount) 0)) amount w with
  | None => None
  | Some (status, data, w) =>
    Some ((status, if status =? REIST_GUI_PIECE_OK then default [] data else []), d, w)
  end
end.

Fixpoint perform_all (d : document) (w : W) (es : list edit) : option (list answer * document * W) :=
match es with
| [] => Some ([], d, w)
| e :: es =>
  match perform d w e with
  | None => None
  | Some (a, d, w) =>
    match perform_all d w es with
    | None => None
    | Some (l, d, w) => Some (a :: l, d, w)
    end
  end
end.

(** The same calls on a list of bytes that never runs out of room. *)
Definition text_perform (t : list Z) (e : edit) : answer * list Z :=
match e with
| Insert at_ data =>
  if Z.of_nat (length t) <? at_ then ((REIST_GUI_PIECE_EINVAL, []), t) else ((REIST_GUI_PIECE_OK, []), insert_text t at_ data)
| Erase at_ amount =>
  if Z.of_nat (length t) <? at_ + amount then ((REIST_GUI_PIECE_EINVAL, []), t) else ((REIST_GUI_PIECE_OK, []), erase_text t at_ amount)
| Read at_ amount =>
  if Z.of_nat (length t) <? at_ + amount then ((REIST_GUI_PIECE_EINVAL, []), t) else ((REIST_GUI_PIECE_OK, slice at_ amount t), t)
end.

Fixpoint text_perform_all (t : list Z) (es : list edit) : list answer * list Z :=
match es with
| [] => ([], t)
| e :: es => let '(a, t) := text_perform t e in let '(l, t) := text_perform_all t es in (a :: l, t)
end.

(** Every call is answered as the text answers, or refused for want of room
  without effect. *)
Inductive text_run (t : list Z) : list edit → list answer → list Z → Prop :=
| run_end : text_run t [] [] t
| run_answered e es l t' :
  text_run (text_perform t e).2 es l t' → text_run t (e :: es) ((text_perform t e).1 :: l) t'
| run_refused e es l t' :
  (∀ at_ amount, e ≠ Read at_ amount) → (text_perform t e).1 = (REIST_GUI_PIECE_OK, []) →
  text_run t es l t' → text_run t (e :: es) ((REIST_GUI_PIECE_ECAPACITY, []) :: l) t'.

Definition typed_edit (e : edit) : Prop :=
match e with Insert at_ _ => 0 <= at_ | Erase at_ amount | Read at_ amount => 0 <= at_ ∧ 0 <= amount end.

(** Pieces and added bytes an edit may need. *)
Definition pieces_needed (e : edit) : Z := match e with Insert _ _ => 2 | Erase _ _ => 1 | Read _ _ => 0 end.
Definition bytes_needed (e : edit) : Z := match e with Insert _ data => Z.of_nat (length data) | _ => 0 end.

Lemma copy_to_replicate bytes n : Z.of_nat (length bytes) = n → copy_to 0 bytes (replicate (Z.to_nat n) 0) = bytes.
Proof using.
intros <-. unfold copy_to. change (take (Z.to_nat 0) (replicate (Z.to_nat (Z.of_nat (length bytes))) 0)) with (@nil Z).
rewrite drop_ge; [|rewrite length_replicate; lia]. by rewrite app_nil_r.
Qed.

(** One call: answered, or refused for want of room. *)
Lemma perform_holds d O t w e :
holds d O t → I w → typed_edit e →
∃ a d' w', perform d w e = Some (a, d', w') ∧ I w' ∧
((a = (text_perform t e).1 ∧ holds d' O (text_perform t e).2 ∧ piece_count d' <= piece_count d + pieces_needed e ∧
  added_used d' <= added_used d + bytes_needed e) ∨
 (a = (REIST_GUI_PIECE_ECAPACITY, []) ∧ d' = d ∧ (∀ at_ amount, e ≠ Read at_ amount) ∧
  (text_perform t e).1 = (REIST_GUI_PIECE_OK, []) ∧
  (65536 < added_used d + bytes_needed e ∨ UINT32_MAX < Z.of_nat (length t) + bytes_needed e ∨ 256 < piece_count d + pieces_needed e))).
Proof using.
intros H Hw Hty. pose proof (holds_size _ _ _ _ H) as Hs. destruct e as [at_ data|at_ amount|at_ amount]; cbn [perform text_perform typed_edit pieces_needed bytes_needed] in *.
- pose proof (insert_holds I d O t at_ data (Z.of_nat (length data)) H Hty ltac:(lia)) as Hi.
destruct (reist_gui_piece_document_insert _ _ _ _) as [status d']. exists (status, []), d', w. split; [done|]. split; [done|].
rewrite Nat2Z.id, firstn_all in Hi. destruct (Z.ltb_spec (Z.of_nat (length t)) at_) as [Hlt|Hge].
+ destruct Hi as [(-> & _ & ->)|[(_ & ? & _)|(_ & ? & _)]]; [|lia|lia]. left. cbn. split_and!; (done || lia).
+ destruct Hi as [(_ & ? & _)|[(-> & _ & -> & Hr)|(-> & _ & Hd & Hu & Hc & _)]]; [lia|right|left; cbn; split_and!; (done || lia)].
cbn. split_and!; try done. rewrite <- Hs. exact Hr.
- pose proof (erase_holds I d O t at_ amount H (proj1 Hty) (proj2 Hty)) as He.
destruct (reist_gui_piece_document_erase _ _ _) as [status d']. exists (status, []), d', w. split; [done|]. split; [done|].
destruct (Z.ltb_spec (Z.of_nat (length t)) (at_ + amount)) as [Hlt|Hge].
+ destruct He as [(-> & _ & ->)|[(_ & ? & _)|(_ & ? & _)]]; [|lia|lia]. left. cbn. split_and!; (done || lia).
+ destruct He as [(_ & ? & _)|[(-> & _ & -> & Hr)|(-> & _ & Hd & Hu & Hc & _)]]; [lia|right|left; cbn; split_and!; (done || lia)].
cbn. split_and!; try done. by right; right.
- destruct (document_read_holds I d O t at_ (replicate (Z.to_nat amount) 0) amount w H Hw (proj1 Hty)) as (w' & Hw' & ->);
[rewrite length_replicate; lia|].
destruct (Z.ltb_spec (Z.of_nat (length t)) (at_ + amount)) as [Hlt|Hge]; cbn [Z.eqb].
+ eexists _, d, w'. split; [done|]. split; [done|]. left. cbn. split_and!; (done || lia).
+ eexists _, d, w'. split; [done|]. split; [done|]. left. cbn [fst snd default from_option id].
rewrite copy_to_replicate by (rewrite length_slice; lia). split_and!; (done || lia).
Qed.

Lemma perform_all_refines es : ∀ d O t w,
holds d O t → I w → Forall typed_edit es →
∃ l d' w' t', perform_all d w es = Some (l, d', w') ∧ I w' ∧ text_run t es l t' ∧ holds d' O t'.
Proof using.
induction es as [|e es IH]; intros d O t w H Hw Hes; cbn [perform_all].
{ exists [], d, w, t. split; [done|]. split; [done|]. split; [constructor|done]. }
apply list.Forall_cons in Hes as [He Hes].
destruct (perform_holds d O t w e H Hw He) as (a & d1 & w1 & -> & Hw1 & [(-> & H1 & _)|(-> & -> & Hnr & Hok & _)]).
- destruct (IH d1 O _ w1 H1 Hw1 Hes) as (l & d' & w' & t' & -> & Hw' & Hrun & H'). eexists _, d', w', t'.
split; [done|]. split; [done|]. split; [by constructor|done].
- destruct (IH d O t w1 H Hw1 Hes) as (l & d' & w' & t' & -> & Hw' & Hrun & H'). eexists _, d', w', t'.
split; [done|]. split; [done|]. split; [by apply run_refused|done].
Qed.

Definition needed (f : edit → Z) (es : list edit) : Z := foldr (λ e n, f e + n) 0 es.
Lemma needed_nonneg f es : (∀ e, 0 <= f e) → 0 <= needed f es.
Proof using. intros Hf. induction es as [|e es IH]; cbn; [lia|]. fold (needed f es). specialize (Hf e). lia. Qed.
Lemma bytes_nonneg e : 0 <= bytes_needed e.
Proof using. destruct e; cbn; lia. Qed.
Lemma pieces_nonneg e : 0 <= pieces_needed e.
Proof using. destruct e; cbn; lia. Qed.

Lemma text_perform_length t e : typed_edit e → Z.of_nat (length (text_perform t e).2) <= Z.of_nat (length t) + bytes_needed e.
Proof using.
destruct e as [at_ data|at_ amount|at_ amount]; cbn [typed_edit text_perform bytes_needed]; intros Hty; destruct (_ <? _); cbn [snd]; try lia.
- unfold insert_text. rewrite !length_app, length_take, length_drop. lia.
- unfold erase_text. rewrite !length_app, length_take, length_drop. lia.
Qed.

Lemma perform_all_exact es : ∀ d O t w,
holds d O t → I w → Forall typed_edit es →
piece_count d + needed pieces_needed es <= 256 → added_used d + needed bytes_needed es <= 65536 →
Z.of_nat (length t) + needed bytes_needed es <= UINT32_MAX →
∃ d' w', perform_all d w es = Some ((text_perform_all t es).1, d', w') ∧ I w' ∧ holds d' O (text_perform_all t es).2.
Proof using.
induction es as [|e es IH]; intros d O t w H Hw Hes Hp Hb Hl; cbn [perform_all text_perform_all].
{ by exists d, w. }
apply list.Forall_cons in Hes as [He Hes]. cbn [needed foldr] in Hp, Hb, Hl. fold (needed pieces_needed es) (needed bytes_needed es) in *.
pose proof (needed_nonneg pieces_needed es pieces_nonneg) as Hn1. pose proof (needed_nonneg bytes_needed es bytes_nonneg) as Hn2.
pose proof (text_perform_length t e He) as Hlen.
destruct (perform_holds d O t w e H Hw He) as (a & d1 & w1 & -> & Hw1 & [(-> & H1 & Hc1 & Hu1)|(_ & _ & _ & _ & Hroom)]); [|lia].
destruct (text_perform t e) as [a t1]. cbn [fst snd] in *.
destruct (IH d1 O t1 w1 H1 Hw1 Hes) as (d' & w' & -> & Hw' & H'); [lia..|].
destruct (text_perform_all t1 es) as [l t2]. cbn [fst snd] in *. by exists d', w'.
Qed.

(** C15: A piece table is a text.  Opened on an original and used by any
    sequence of insertions, erasures and reads, it gives the answers a list of
    bytes gives, edit by edit; only an insertion or erasure the text would
    accept may be refused instead, with -28, and then nothing changes.  No
    call goes through a null pointer. *)
Theorem piece_document_refines_text (d : document) O reader w es :
Z.of_nat (length O) <= UINT32_MAX → (O ≠ [] → ∃ f, reader = Some f ∧ serves I f O) → I w → Forall typed_edit es →
∃ d0 l d' w' t', reist_gui_piece_document_open d (Z.of_nat (length O)) reader = (REIST_GUI_PIECE_OK, d0) ∧
perform_all d0 w es = Some (l, d', w') ∧ text_run O es l t' ∧ holds d' O t'.
Proof using.
intros Hlen Hr Hw Hes. destruct (open_holds I d O reader Hlen Hr) as (d0 & E & H & _). exists d0.
destruct (perform_all_refines es d0 O O w H Hw Hes) as (l & d' & w' & t' & E2 & _ & Hrun & H'). by exists l, d', w', t'.
Qed.

(** The capacity is never reached by a session whose insertions (two
    pieces each) and erasures (one each) need at most 255 pieces and whose
    insertions add at most 65536 bytes: its answers are exactly those of the
    text, and so is what is left. *)
Theorem piece_document_has_room (d : document) O reader w es :
Z.of_nat (length O) + needed bytes_needed es <= UINT32_MAX → needed bytes_needed es <= 65536 → needed pieces_needed es <= 255 →
(O ≠ [] → ∃ f, reader = Some f ∧ serves I f O) → I w → Forall typed_edit es →
∃ d0 d' w', reist_gui_piece_document_open d (Z.of_nat (length O)) reader = (REIST_GUI_PIECE_OK, d0) ∧
perform_all d0 w es = Some ((text_perform_all O es).1, d', w') ∧ holds d' O (text_perform_all O es).2.
Proof using.
intros Hlen Hb Hp Hr Hw Hes. pose proof (needed_nonneg bytes_needed es bytes_nonneg) as Hn.
destruct (open_holds I d O reader ltac:(lia) Hr) as (d0 & E & H0 & Hc & Hu). exists d0.
destruct (perform_all_exact es d0 O O w H0 Hw Hes) as (d' & w' & E2 & _ & H'); [lia..|]. by exists d', w'.
Qed.
End runs.

(** ** Witnesses *)
(** A file of sixteen bytes; the world is the number of reads. *)
Definition sample_file : list Z := [97; 108; 112; 104; 97; 45; 98; 101; 116; 97; 45; 103; 97; 109; 109; 97].
Definition sample_reader : reist_gui_piece_read_fn Z := λ o n w, (0, slice o n sample_file, w + 1).
Definition sample_edits : list edit := [Read 6 4; Insert 6 [66; 73; 71; 45]; Erase 10 5; Insert 15 [33]; Read 0 16; Erase 9 9].

Lemma sample_serves (J : Z → Prop) : (∀ w, J w → J (w + 1)) → serves J sample_reader sample_file.
Proof. intros HJ o n w Hw _ _ _. exists (w + 1). split; [done|by apply HJ]. Qed.

Lemma piece_document_refines_text_witness :
  ∃ d0 l d' w' t', reist_gui_piece_document_open (W := Z) reist_gui_piece_document_initialize (Z.of_nat (length sample_file)) (Some sample_reader) =
      (REIST_GUI_PIECE_OK, d0) ∧
    perform_all d0 0 sample_edits = Some (l, d', w') ∧ text_run sample_file sample_edits l t' ∧ holds (λ _, True) d' sample_file t'.
Proof.
  apply (piece_document_refines_text (λ _, True) reist_gui_piece_document_initialize sample_file (Some sample_reader) 0 sample_edits).
  - by vm_compute.
  - intros _. exists sample_reader. split; [done|by apply sample_serves].
  - done.
  - repeat constructor; vm_compute; congruence.
Defined.

Lemma piece_document_has_room_witness :
  ∃ d0 d' w', reist_gui_piece_document_open (W := Z) reist_gui_piece_document_initialize (Z.of_nat (length sample_file)) (Some sample_reader) =
      (REIST_GUI_PIECE_OK, d0) ∧
    perform_all d0 0 sample_edits = Some ((text_perform_all sample_file sample_edits).1, d', w') ∧
    holds (λ _, True) d' sample_file (text_perform_all sample_file sample_edits).2.
Proof.
  apply (piece_document_has_room (λ _, True) reist_gui_piece_document_initialize sample_file (Some sample_reader) 0 sample_edits).
  - by vm_compute.
  - by vm_compute.
  - by vm_compute.
  - intros _. exists sample_reader. split; [done|by apply sample_serves].
  - done.
  - repeat constructor; vm_compute; congruence.
Defined.

(** A world that records what was written, and a disk with room for ten
    bytes. *)
Definition log_reader : reist_gui_piece_read_fn (list Z) := λ o n w, (0, slice o n sample_file, w).
Definition log_writer : reist_gui_piece_write_fn (list Z) := λ bytes w,
  if (length w + length bytes <=? 10)%nat then (0, w ++ bytes) else (-1, w).

Lemma piece_document_streams_witness :
  ∃ d status w', reist_gui_piece_document_open (W := list Z) reist_gui_piece_document_initialize (Z.of_nat (length sample_file)) (Some log_reader) =
      (REIST_GUI_PIECE_OK, d) ∧
    reist_gui_piece_document_stream d (Some log_writer) [] [] = Some (status, w') ∧ streamed (λ l w, w = l) [] sample_file status w'.
Proof.
  destruct (reist_gui_piece_document_open (W := list Z) reist_gui_piece_document_initialize (Z.of_nat (length sample_file)) (Some log_reader))
    as [status d] eqn:E.
  assert (∀ l, status = REIST_GUI_PIECE_OK ∧ holds (λ w, w = l) d sample_file sample_file) as H.
  { intros l. destruct (open_holds (λ w, w = l) (reist_gui_piece_document_initialize (W := list Z)) sample_file (Some log_reader)) as (d' & E' & H' & _).
    - by vm_compute.
    - intros _. exists log_reader. split; [done|]. intros o n w Hw _ _ _. by exists w.
    - rewrite E in E'. injection E' as -> ->. done. }
  destruct (piece_document_streams (λ l w, w = l) log_writer) with (d := d) (O := sample_file) (t := sample_file) (buffer := @nil Z) (w := @nil Z)
    as (st & w' & Es & Hs).
  - intros l bytes w -> _. unfold log_writer. destruct (_ <=? _)%nat; [by left|by right].
  - intros l. apply H.
  - done.
  - exists d, st, w'. split; [by rewrite (proj1 (H []))|]. done.
Defined.
