(* ===== verification/Ipc.v ===== *)
(** IPC endpoints: src/kernel/ipc/ipc.c and src/include/kernel/ipc.h.

    [Module Ipc] holds every function of the C file but the fault injection.
    The statics of the file are [mem]; the critical objects that seal them are
    protected stores.  A locked region is a [prog]: reads and writes of [mem]
    and the functions that load from or seal into a store, in program order;
    [run] executes it.  A pointer to a process is 0 or the index of its entry
    in the process table plus one, a pointer to an endpoint or record is its
    index.  Wait queues and the scheduler are other components: the calls that
    reach them are recorded in [scheduler_calls].  The blocking loops release
    the lock while they wait; [rounds] says, for each time around, what the
    clock shows, what other calls did meanwhile and how the wait ended.
    Signed fields are kept as their 32-bit images and read through [s32]; the
    structs have no padding on the i386 target.  The spin lock has no state
    here. *)
From S2P Require Import Prelude ProtectedStore.
From S2P Require Import Crc32 Layout ProtectedRecord.

(** The C code looks into an object to see whether it was ever initialised. *)
Class BlankStore (O : Type) := {
  ps_zero : O;
  ps_blank : O → bool
}.

Module Ipc.

(** The pointer is not null. *)
Definition present {A} (pointer : option A) : bool := match pointer with None => false | Some _ => true end.

Definition IPC_MAX_ENDPOINTS : Z := 16.
Definition IPC_MAX_CAPABILITIES_PER_PROCESS : nat := 8.
Definition IPC_QUEUE_DEPTH : Z := 4.
Definition IPC_MAX_MESSAGE_SIZE : Z := 128.
Definition IPC_MESSAGE_VERSION : Z := 1.
Definition IPC_BULK_MAX_MESSAGE_SIZE : Z := 2048.
Definition IPC_BULK_MESSAGE_VERSION : Z := 2.
Definition IPC_DEFAULT_TIMEOUT_MS : Z := 1000.
Definition IPC_RESOURCE_STATS_VERSION : Z := 1.
Definition IPC_RIGHT_SEND : Z := 1.
Definition IPC_RIGHT_RECEIVE : Z := 2.
Definition IPC_RIGHT_CONTROL : Z := 4.
Definition IPC_INVALID_HANDLE : Z := 0.
Definition IPC_MAX_CAPABILITY_RECORDS : Z := 64.
Definition IPC_HANDLE_SLOT_MASK : Z := 255.
Definition IPC_HANDLE_GENERATION_MAX : Z := 16777215.
Definition IPC_EBADF : Z := -9.
Definition IPC_EAGAIN : Z := -11.
Definition IPC_EACCES : Z := -13.
Definition IPC_EBUSY : Z := -16.
Definition IPC_EINVAL : Z := -22.
Definition IPC_ENOSPC : Z := -28.
Definition IPC_EPIPE : Z := -32.
Definition IPC_EINTEGRITY : Z := -84.
Definition IPC_EMSGSIZE : Z := -90.
Definition IPC_ETIMEDOUT : Z := -110.
Definition IPC_METADATA_VERSION : Z := 1.
Definition IPC_MESSAGE_CHUNKS : nat := 3.
Definition CRITICAL_OBJECT_MAX_PAYLOAD : nat := 64.

(** ** Data *)
Record ipc_message_t := Message {
  version : Z;
  struct_size : Z;
  msg_length : Z;
  payload : list Z
}.
Definition message_size : Z := 12 + 128.

Record ipc_bulk_message_t := Bulk {
  b_version : Z;
  b_struct_size : Z;
  b_length : Z;
  b_payload : list Z
}.
Definition bulk_message_size : Z := 12 + 2048.

Record ipc_capability_t := Capability {
  c_handle : Z;
  c_rights : Z;
  in_use : bool
}.

(** The fields of a process that this file reads. *)
Record Process := Proc {
  pid : Z;
  p_generation : Z;
  is_running : bool;
  ipc_capabilities : list ipc_capability_t
}.

Record ipc_endpoint_t := Endpoint {
  active : bool;
  retired : bool;
  peer_seen : bool;
  generation : Z;
  owner_pid : Z;
  owner_generation : Z;
  peer_capabilities : Z;
  head : Z;
  count : Z;
  messages : list ipc_message_t;
  sender_pid : list Z;
  sender_generation : list Z;
  bulk_active : bool;
  bulk_message : ipc_bulk_message_t;
  bulk_sender_pid : Z;
  bulk_sender_generation : Z
}.

Record ipc_capability_record_t := Record_ {
  r_active : bool;
  r_handle : Z;
  holder : Z;
  holder_pid : Z;
  holder_generation : Z;
  rights : Z;
  endpoint_slot : Z
}.

Record ipc_endpoint_metadata_t := EndpointMetadata {
  em_active : Z;
  em_retired : Z;
  em_peer_seen : Z;
  em_generation : Z;
  em_owner_pid : Z;
  em_owner_generation : Z;
  em_peer_capabilities : Z;
  em_head : Z;
  em_count : Z;
  em_bulk_active : Z
}.

Record ipc_capability_metadata_t := CapabilityMetadata {
  cm_active : Z;
  cm_handle : Z;
  cm_holder : Z;
  cm_holder_pid : Z;
  cm_holder_generation : Z;
  cm_rights : Z;
  cm_endpoint_slot : Z
}.

Record ipc_protected_message_t := ProtectedMessage {
  pm_message : ipc_message_t;
  pm_sender_pid : Z;
  pm_sender_generation : Z
}.

Record ipc_bulk_metadata_t := BulkMetadata {
  bm_active : Z;
  bm_endpoint_generation : Z;
  bm_version : Z;
  bm_struct_size : Z;
  bm_length : Z;
  bm_sender_pid : Z;
  bm_sender_generation : Z;
  bm_crc32 : Z
}.

Record ipc_resource_stats_t := Stats {
  s_version : Z;
  s_struct_size : Z;
  active_endpoints : Z;
  endpoint_high_water : Z;
  active_capabilities : Z;
  capability_high_water : Z;
  queued_messages : Z;
  message_high_water : Z;
  capacity_rejections : Z
}.
Definition stats_size : Z := 36.

#[export] Instance endpoint_metadata_layout : Layout ipc_endpoint_metadata_t := {
  layout_widths := [4; 4; 4; 4; 4; 4; 4; 4; 4; 4]%nat;
  layout_values m := [em_active m; em_retired m; em_peer_seen m; em_generation m; em_owner_pid m; em_owner_generation m;
    em_peer_capabilities m; em_head m; em_count m; em_bulk_active m];
  layout_record l :=
    match l with
    | [a; b; c; d; e; f; g; h; i; j] => EndpointMetadata a b c d e f g h i j
    | _ => EndpointMetadata 0 0 0 0 0 0 0 0 0 0
    end
}.

#[export] Instance capability_metadata_layout : Layout ipc_capability_metadata_t := {
  layout_widths := [4; 4; 4; 4; 4; 4; 4]%nat;
  layout_values m := [cm_active m; cm_handle m; cm_holder m; cm_holder_pid m; cm_holder_generation m; cm_rights m; cm_endpoint_slot m];
  layout_record l :=
    match l with
    | [a; b; c; d; e; f; g] => CapabilityMetadata a b c d e f g
    | _ => CapabilityMetadata 0 0 0 0 0 0 0
    end
}.

#[export] Instance bulk_metadata_layout : Layout ipc_bulk_metadata_t := {
  layout_widths := [4; 4; 4; 4; 4; 4; 4; 4]%nat;
  layout_values m := [bm_active m; bm_endpoint_generation m; bm_version m; bm_struct_size m; bm_length m; bm_sender_pid m;
    bm_sender_generation m; bm_crc32 m];
  layout_record l :=
    match l with
    | [a; b; c; d; e; f; g; h] => BulkMetadata a b c d e f g h
    | _ => BulkMetadata 0 0 0 0 0 0 0 0
    end
}.

(** Calls that leave the file. *)
Inductive scheduler_call :=
| Wake_one_send (slot : Z)
| Wake_one_receive (slot : Z)
| Wake_all_send (slot : Z)
| Wake_all_receive (slot : Z)
| Set_wait_owner (owner_pid owner_generation : Z)
| Block_send (slot deadline : Z)
| Block_receive (slot deadline : Z)
| Clear_wait_owner.

Definition zero_message : ipc_message_t := Message 0 0 0 (replicate 128 0).
Definition zero_bulk_message : ipc_bulk_message_t := Bulk 0 0 0 (replicate 2048 0).
Definition zero_capability : ipc_capability_t := Capability 0 0 false.
Definition zero_endpoint : ipc_endpoint_t :=
  Endpoint false false false 0 0 0 0 0 0 (replicate 4 zero_message) (replicate 4 0) (replicate 4 0) false zero_bulk_message 0 0.
Definition zero_record : ipc_capability_record_t := Record_ false 0 0 0 0 0 0.
Definition empty_endpoint : ipc_endpoint_metadata_t := EndpointMetadata 0 0 0 0 0 0 0 0 0 0.
Definition empty_capability : ipc_capability_metadata_t := CapabilityMetadata 0 0 0 0 0 0 0.
Definition empty_bulk : ipc_bulk_metadata_t := BulkMetadata 0 0 0 0 0 0 0 0.

(** The statics that are not critical objects, and the process table. *)
Record mem := Mem {
  ipc_endpoints : list ipc_endpoint_t;
  ipc_capability_records : list ipc_capability_record_t;
  processes : list Process;
  ipc_integrity_corrections : Z;
  ipc_capability_scan_corrupt : bool;
  ipc_stats : ipc_resource_stats_t;
  scheduler_calls : list scheduler_call
}.

Definition endpoint_at (m : mem) (slot : Z) : ipc_endpoint_t := nth (Z.to_nat slot) (ipc_endpoints m) zero_endpoint.
Definition record_at (m : mem) (slot : Z) : ipc_capability_record_t := nth (Z.to_nat slot) (ipc_capability_records m) zero_record.
Definition process_at (m : mem) (pointer : Z) : option Process :=
  if pointer <=? 0 then None else processes m !! Z.to_nat (pointer - 1).

Definition set_endpoints (m : mem) (l : list ipc_endpoint_t) : mem :=
  Mem l (ipc_capability_records m) (processes m) (ipc_integrity_corrections m) (ipc_capability_scan_corrupt m) (ipc_stats m) (scheduler_calls m).
Definition set_endpoint (m : mem) (slot : Z) (e : ipc_endpoint_t) : mem := set_endpoints m (<[Z.to_nat slot := e]> (ipc_endpoints m)).
Definition set_record (m : mem) (slot : Z) (r : ipc_capability_record_t) : mem :=
  Mem (ipc_endpoints m) (<[Z.to_nat slot := r]> (ipc_capability_records m)) (processes m) (ipc_integrity_corrections m)
    (ipc_capability_scan_corrupt m) (ipc_stats m) (scheduler_calls m).
Definition set_process (m : mem) (pointer : Z) (p : Process) : mem :=
  Mem (ipc_endpoints m) (ipc_capability_records m) (<[Z.to_nat (pointer - 1) := p]> (processes m)) (ipc_integrity_corrections m)
    (ipc_capability_scan_corrupt m) (ipc_stats m) (scheduler_calls m).
Definition set_corrections (m : mem) (n : Z) : mem :=
  Mem (ipc_endpoints m) (ipc_capability_records m) (processes m) n (ipc_capability_scan_corrupt m) (ipc_stats m) (scheduler_calls m).
Definition set_scan_corrupt (m : mem) (b : bool) : mem :=
  Mem (ipc_endpoints m) (ipc_capability_records m) (processes m) (ipc_integrity_corrections m) b (ipc_stats m) (scheduler_calls m).
Definition set_stats (m : mem) (s : ipc_resource_stats_t) : mem :=
  Mem (ipc_endpoints m) (ipc_capability_records m) (processes m) (ipc_integrity_corrections m) (ipc_capability_scan_corrupt m) s (scheduler_calls m).
Definition add_call (m : mem) (c : scheduler_call) : mem :=
  Mem (ipc_endpoints m) (ipc_capability_records m) (processes m) (ipc_integrity_corrections m) (ipc_capability_scan_corrupt m)
    (ipc_stats m) (c :: scheduler_calls m).

(** ** Accounting *)
Definition increment_saturating (value : Z) : Z := if negb (value =? UINT32_MAX) then value + 1 else value.

(** [resource_added] on a counter and its high-water mark. *)
Definition resource_added (active_ high_water : Z) : Z * Z :=
  let active_ := increment_saturating active_ in (active_, if high_water <? active_ then active_ else high_water).
Definition resource_removed (active_ : Z) : Z := if negb (active_ =? 0) then active_ - 1 else active_.

Definition set_counts (s : ipc_resource_stats_t) (e eh c ch q qh rejections : Z) : ipc_resource_stats_t :=
  Stats (s_version s) (s_struct_size s) e eh c ch q qh rejections.
Definition endpoint_added (m : mem) : mem :=
  let s := ipc_stats m in let '(e, eh) := resource_added (active_endpoints s) (endpoint_high_water s) in
  set_stats m (set_counts s e eh (active_capabilities s) (capability_high_water s) (queued_messages s) (message_high_water s) (capacity_rejections s)).
Definition endpoint_removed (m : mem) : mem :=
  let s := ipc_stats m in
  set_stats m (set_counts s (resource_removed (active_endpoints s)) (endpoint_high_water s) (active_capabilities s) (capability_high_water s)
    (queued_messages s) (message_high_water s) (capacity_rejections s)).
Definition capability_added (m : mem) : mem :=
  let s := ipc_stats m in let '(c, ch) := resource_added (active_capabilities s) (capability_high_water s) in
  set_stats m (set_counts s (active_endpoints s) (endpoint_high_water s) c ch (queued_messages s) (message_high_water s) (capacity_rejections s)).
Definition capability_removed (m : mem) : mem :=
  let s := ipc_stats m in
  set_stats m (set_counts s (active_endpoints s) (endpoint_high_water s) (resource_removed (active_capabilities s)) (capability_high_water s)
    (queued_messages s) (message_high_water s) (capacity_rejections s)).
Definition message_added (m : mem) : mem :=
  let s := ipc_stats m in let '(q, qh) := resource_added (queued_messages s) (message_high_water s) in
  set_stats m (set_counts s (active_endpoints s) (endpoint_high_water s) (active_capabilities s) (capability_high_water s) q qh (capacity_rejections s)).
Definition message_removed (m : mem) : mem :=
  let s := ipc_stats m in
  set_stats m (set_counts s (active_endpoints s) (endpoint_high_water s) (active_capabilities s) (capability_high_water s)
    (resource_removed (queued_messages s)) (message_high_water s) (capacity_rejections s)).
Definition messages_removed (m : mem) (n : Z) : mem :=
  let s := ipc_stats m in
  set_stats m (set_counts s (active_endpoints s) (endpoint_high_water s) (active_capabilities s) (capability_high_water s)
    (if n <=? queued_messages s then queued_messages s - n else 0) (message_high_water s) (capacity_rejections s)).
Definition capacity_rejected (m : mem) : mem :=
  let s := ipc_stats m in
  set_stats m (set_counts s (active_endpoints s) (endpoint_high_water s) (active_capabilities s) (capability_high_water s) (queued_messages s)
    (message_high_water s) (increment_saturating (capacity_rejections s))).

(** ** Validation *)
Definition b2u (b : bool) : Z := if b then 1 else 0.

Definition endpoint_metadata_ok (v : ipc_endpoint_metadata_t) : bool :=
  if (1 <? em_active v) || (1 <? em_retired v) || (1 <? em_peer_seen v) || (1 <? em_bulk_active v) ||
     (IPC_HANDLE_GENERATION_MAX <? em_generation v) || (IPC_MAX_CAPABILITY_RECORDS <? em_peer_capabilities v) ||
     (IPC_QUEUE_DEPTH <=? em_head v) || (IPC_QUEUE_DEPTH <? em_count v) then false
  else if em_active v =? 0 then em_bulk_active v =? 0
  else negb (em_generation v =? 0) && (0 <? s32 (em_owner_pid v)) && negb (em_owner_generation v =? 0).

Definition all_rights : Z := Z.lor (Z.lor IPC_RIGHT_SEND IPC_RIGHT_RECEIVE) IPC_RIGHT_CONTROL.
(** [rights & ~mask] *)
Definition outside (rights mask : Z) : Z := Z.land rights (u32 (Z.lnot mask)).

Definition capability_metadata_ok (v : ipc_capability_metadata_t) : bool :=
  if 1 <? cm_active v then false
  else (cm_active v =? 0) ||
    (negb (cm_handle v =? IPC_INVALID_HANDLE) && negb (cm_holder v =? 0) && (0 <? s32 (cm_holder_pid v)) &&
     negb (cm_holder_generation v =? 0) && negb (cm_rights v =? 0) && (outside (cm_rights v) all_rights =? 0) &&
     (cm_endpoint_slot v <? IPC_MAX_ENDPOINTS)).

Definition message_chunk_valid (chunk : list Z) : bool :=
  negb (length chunk =? 0)%nat && (length chunk <=? CRITICAL_OBJECT_MAX_PAYLOAD)%nat.

Definition bulk_metadata_ok (v : ipc_bulk_metadata_t) : bool :=
  if 1 <? bm_active v then false
  else if bm_active v =? 0 then
    (bm_endpoint_generation v =? 0) && (bm_version v =? 0) && (bm_struct_size v =? 0) && (bm_length v =? 0) &&
    (bm_sender_pid v =? 0) && (bm_sender_generation v =? 0) && (bm_crc32 v =? 0)
  else negb (bm_endpoint_generation v =? 0) && (bm_version v =? IPC_BULK_MESSAGE_VERSION) &&
    (bm_struct_size v =? bulk_message_size) && (bm_length v <=? IPC_BULK_MAX_MESSAGE_SIZE) &&
    (0 <? s32 (bm_sender_pid v)) && negb (bm_sender_generation v =? 0).

Definition message_valid (message : ipc_message_t) : bool :=
  (version message =? IPC_MESSAGE_VERSION) && (struct_size message =? message_size) && (msg_length message <=? IPC_MAX_MESSAGE_SIZE).
Definition bulk_message_valid (message : ipc_bulk_message_t) : bool :=
  (b_version message =? IPC_BULK_MESSAGE_VERSION) && (b_struct_size message =? bulk_message_size) &&
  (b_length message <=? IPC_BULK_MAX_MESSAGE_SIZE).

Definition bulk_crc32 (endpoint_generation : Z) (message : ipc_bulk_message_t) (pid_ generation_ : Z) : Z :=
  let header := concat (le_bytes 4 <$> [endpoint_generation; b_version message; b_struct_size message; b_length message; pid_; generation_]) in
  let crc := crc32_update UINT32_MAX header in
  Z.lxor (crc32_update crc (take (Z.to_nat (b_length message)) (b_payload message))) UINT32_MAX.

(** ** Handles *)
Definition make_handle (slot generation_ : Z) : Z := Z.lor (u32 (Z.shiftl generation_ 8)) (u32 (slot + 1)).

Definition decode_handle (handle : Z) : option (Z * Z) :=
  let encoded_slot := Z.land handle IPC_HANDLE_SLOT_MASK in
  let encoded_generation := Z.shiftr handle 8 in
  if (encoded_slot =? 0) || (IPC_MAX_ENDPOINTS <? encoded_slot) || (encoded_generation =? 0) then None
  else Some (encoded_slot - 1, encoded_generation).

Fixpoint capability_slot_loop (handle : Z) (l : list ipc_capability_t) (index : nat) : option nat :=
  match l with
  | [] => None
  | c :: l => if in_use c && (c_handle c =? handle) then Some index else capability_slot_loop handle l (S index)
  end.
Definition process_capability_slot (p : Process) (handle : Z) : option nat := capability_slot_loop handle (ipc_capabilities p) 0.

Fixpoint free_slot_loop (l : list ipc_capability_t) (index : nat) : option nat :=
  match l with
  | [] => None
  | c :: l => if negb (in_use c) then Some index else free_slot_loop l (S index)
  end.
Definition free_process_capability_slot (p : Process) : option nat := free_slot_loop (ipc_capabilities p) 0.

Definition set_capability (p : Process) (index : nat) (c : ipc_capability_t) : Process :=
  Proc (pid p) (p_generation p) (is_running p) (<[index := c]> (ipc_capabilities p)).

(** ** Images *)
Definition endpoint_metadata (e : ipc_endpoint_t) : ipc_endpoint_metadata_t :=
  EndpointMetadata (b2u (active e)) (b2u (retired e)) (b2u (peer_seen e)) (generation e) (owner_pid e) (owner_generation e)
    (peer_capabilities e) (head e) (count e) (b2u (bulk_active e)).
Definition endpoint_loaded (e : ipc_endpoint_t) (v : ipc_endpoint_metadata_t) : ipc_endpoint_t :=
  Endpoint (negb (em_active v =? 0)) (negb (em_retired v =? 0)) (negb (em_peer_seen v =? 0)) (em_generation v) (em_owner_pid v)
    (em_owner_generation v) (em_peer_capabilities v) (em_head v) (em_count v) (messages e) (sender_pid e) (sender_generation e)
    (negb (em_bulk_active v =? 0)) (bulk_message e) (bulk_sender_pid e) (bulk_sender_generation e).

Definition bulk_metadata (e : ipc_endpoint_t) : ipc_bulk_metadata_t :=
  if bulk_active e then
    BulkMetadata 1 (generation e) (b_version (bulk_message e)) (b_struct_size (bulk_message e)) (b_length (bulk_message e))
      (bulk_sender_pid e) (bulk_sender_generation e)
      (bulk_crc32 (generation e) (bulk_message e) (bulk_sender_pid e) (bulk_sender_generation e))
  else empty_bulk.
(** The comparison of [load_bulk]. *)
Definition bulk_matches (e : ipc_endpoint_t) (v : ipc_bulk_metadata_t) : bool :=
  if negb (Bool.eqb (bulk_active e) (negb (bm_active v =? 0))) then false
  else if bm_active v =? 0 then true
  else active e && (bm_endpoint_generation v =? generation e) && (b_version (bulk_message e) =? bm_version v) &&
    (b_struct_size (bulk_message e) =? bm_struct_size v) && (b_length (bulk_message e) =? bm_length v) &&
    (bulk_sender_pid e =? bm_sender_pid v) && (bulk_sender_generation e =? bm_sender_generation v) &&
    (bulk_crc32 (generation e) (bulk_message e) (bulk_sender_pid e) (bulk_sender_generation e) =? bm_crc32 v).

Definition capability_metadata (r : ipc_capability_record_t) : ipc_capability_metadata_t :=
  CapabilityMetadata (b2u (r_active r)) (r_handle r) (holder r) (holder_pid r) (holder_generation r) (rights r) (endpoint_slot r).
Definition capability_loaded (v : ipc_capability_metadata_t) : ipc_capability_record_t :=
  Record_ (negb (cm_active v =? 0)) (cm_handle v) (cm_holder v) (cm_holder_pid v) (cm_holder_generation v) (cm_rights v)
    (u8 (cm_endpoint_slot v)).

Definition message_bytes (v : ipc_protected_message_t) : list Z :=
  le_bytes 4 (version (pm_message v)) ++ le_bytes 4 (struct_size (pm_message v)) ++ le_bytes 4 (msg_length (pm_message v)) ++
  payload (pm_message v) ++ le_bytes 4 (pm_sender_pid v) ++ le_bytes 4 (pm_sender_generation v).
Definition protected_message_size : nat := 148.
Definition message_of_bytes (l : list Z) : ipc_protected_message_t :=
  ProtectedMessage (Message (get_le 4 0 l) (get_le 4 4 l) (get_le 4 8 l) (take 128 (drop 12 l))) (get_le 4 140 l) (get_le 4 144 l).

(** The check at the end of [load_message]. *)
Definition protected_message_ok (v : ipc_protected_message_t) : bool :=
  let kernel_sender := (pm_sender_pid v =? 0) && (pm_sender_generation v =? 0) in
  let process_sender := (0 <? s32 (pm_sender_pid v)) && negb (pm_sender_generation v =? 0) in
  message_valid (pm_message v) && (kernel_sender || process_sender).

(** ** Locked regions *)
(** The functions that touch a critical object. *)
Inductive access :=
| LoadEndpoint (slot : Z)
| SealEndpoint (slot : Z)
| LoadBulk (slot : Z)
| SealBulk (slot : Z)
| LoadCapability (slot : Z)
| SealCapability (slot : Z)
| SealMessage (slot queue_slot : Z) (value : ipc_protected_message_t).

Inductive prog (A : Type) :=
| Ret (a : A)
| Get (k : mem → prog A)
| Put (m : mem) (k : prog A)
| Access (a : access) (k : Z → prog A)
| LoadMessage (slot queue_slot : Z) (k : Z * ipc_protected_message_t → prog A).
#[global] Arguments Ret {A}.
#[global] Arguments Get {A}.
#[global] Arguments Put {A}.
#[global] Arguments Access {A}.
#[global] Arguments LoadMessage {A}.

Fixpoint bind {A B} (p : prog A) (f : A → prog B) : prog B :=
  match p with
  | Ret a => f a
  | Get k => Get (λ m, bind (k m) f)
  | Put m k => Put m (bind k f)
  | Access a k => Access a (λ z, bind (k z) f)
  | LoadMessage slot q k => LoadMessage slot q (λ v, bind (k v) f)
  end.

Declare Scope ipc_scope.
Notation "x <- p ;; q" := (bind p (λ x, q)) (at level 100, p at next level, right associativity) : ipc_scope.
Notation "p ;;; q" := (bind p (λ _, q)) (at level 100, right associativity) : ipc_scope.
Local Open Scope ipc_scope.

Definition get : prog mem := Get Ret.
Definition put (m : mem) : prog unit := Put m (Ret tt).
Definition modify (f : mem → mem) : prog unit := Get (λ m, Put (f m) (Ret tt)).
Definition endpoint (slot : Z) : prog ipc_endpoint_t := Get (λ m, Ret (endpoint_at m slot)).
Definition record (slot : Z) : prog ipc_capability_record_t := Get (λ m, Ret (record_at m slot)).
Definition process (pointer : Z) : prog (option Process) := Get (λ m, Ret (process_at m pointer)).
Definition change_endpoint (slot : Z) (f : ipc_endpoint_t → ipc_endpoint_t) : prog unit :=
  modify (λ m, set_endpoint m slot (f (endpoint_at m slot))).
Definition call (c : scheduler_call) : prog unit := modify (λ m, add_call m c).

Definition load_endpoint (slot : Z) : prog Z := Access (LoadEndpoint slot) Ret.
Definition seal_endpoint (slot : Z) : prog Z := Access (SealEndpoint slot) Ret.
Definition load_bulk (slot : Z) : prog Z := Access (LoadBulk slot) Ret.
Definition seal_bulk (slot : Z) : prog Z := Access (SealBulk slot) Ret.
Definition load_capability (slot : Z) : prog Z := Access (LoadCapability slot) Ret.
Definition seal_capability (slot : Z) : prog Z := Access (SealCapability slot) Ret.
Definition seal_message (slot queue_slot : Z) (value : ipc_protected_message_t) : prog Z := Access (SealMessage slot queue_slot value) Ret.
Definition load_message (slot queue_slot : Z) : prog (Z * ipc_protected_message_t) := LoadMessage slot queue_slot Ret.

(** Fields of an endpoint. *)
Definition with_active (b : bool) (e : ipc_endpoint_t) : ipc_endpoint_t :=
  Endpoint b (retired e) (peer_seen e) (generation e) (owner_pid e) (owner_generation e) (peer_capabilities e) (head e) (count e)
    (messages e) (sender_pid e) (sender_generation e) (bulk_active e) (bulk_message e) (bulk_sender_pid e) (bulk_sender_generation e).
Definition with_retired (e : ipc_endpoint_t) : ipc_endpoint_t :=
  Endpoint (active e) true (peer_seen e) (generation e) (owner_pid e) (owner_generation e) (peer_capabilities e) (head e) (count e)
    (messages e) (sender_pid e) (sender_generation e) (bulk_active e) (bulk_message e) (bulk_sender_pid e) (bulk_sender_generation e).
Definition with_peer (seen : bool) (n : Z) (e : ipc_endpoint_t) : ipc_endpoint_t :=
  Endpoint (active e) (retired e) seen (generation e) (owner_pid e) (owner_generation e) n (head e) (count e)
    (messages e) (sender_pid e) (sender_generation e) (bulk_active e) (bulk_message e) (bulk_sender_pid e) (bulk_sender_generation e).
Definition with_queue (h n : Z) (e : ipc_endpoint_t) : ipc_endpoint_t :=
  Endpoint (active e) (retired e) (peer_seen e) (generation e) (owner_pid e) (owner_generation e) (peer_capabilities e) h n
    (messages e) (sender_pid e) (sender_generation e) (bulk_active e) (bulk_message e) (bulk_sender_pid e) (bulk_sender_generation e).
Definition with_message (q : Z) (msg : ipc_message_t) (p g : Z) (e : ipc_endpoint_t) : ipc_endpoint_t :=
  Endpoint (active e) (retired e) (peer_seen e) (generation e) (owner_pid e) (owner_generation e) (peer_capabilities e) (head e) (count e)
    (<[Z.to_nat q := msg]> (messages e)) (<[Z.to_nat q := p]> (sender_pid e)) (<[Z.to_nat q := g]> (sender_generation e))
    (bulk_active e) (bulk_message e) (bulk_sender_pid e) (bulk_sender_generation e).
Definition with_bulk (b : bool) (msg : ipc_bulk_message_t) (p g : Z) (e : ipc_endpoint_t) : ipc_endpoint_t :=
  Endpoint (active e) (retired e) (peer_seen e) (generation e) (owner_pid e) (owner_generation e) (peer_capabilities e) (head e) (count e)
    (messages e) (sender_pid e) (sender_generation e) b msg p g.
(** A closed endpoint, before its bulk slot is reset. *)
Definition closed (e : ipc_endpoint_t) : ipc_endpoint_t := with_queue 0 0 (with_peer (peer_seen e) 0 (with_active false e)).

Definition reset_bulk_locked (slot : Z) : prog Z :=
  change_endpoint slot (with_bulk false zero_bulk_message 0 0);;; seal_bulk slot.

Definition endpoint_slots : list Z := Z.of_nat <$> seq 0 16.
Definition capability_slots : list Z := Z.of_nat <$> seq 0 64.

Fixpoint free_record_loop (slots : list Z) : prog Z :=
  match slots with
  | [] => Ret (-1)
  | index :: slots =>
    result <- load_capability index;;
    if negb (result =? 0) then Ret IPC_EINTEGRITY
    else r <- record index;; if negb (r_active r) then Ret index else free_record_loop slots
  end.
Definition free_capability_record : prog Z := free_record_loop capability_slots.

Fixpoint record_for_loop (p : Process) (handle : Z) (slots : list Z) : prog (option Z) :=
  match slots with
  | [] => Ret None
  | index :: slots =>
    result <- load_capability index;;
    if negb (result =? 0) then modify (λ m, set_scan_corrupt m true);;; Ret None
    else
      r <- record index;;
      if r_active r && (r_handle r =? handle) && (holder_pid r =? pid p) && (holder_generation r =? p_generation p)
      then Ret (Some index) else record_for_loop p handle slots
  end.
Definition capability_record_for (p : Process) (handle : Z) : prog (option Z) :=
  modify (λ m, set_scan_corrupt m false);;; record_for_loop p handle capability_slots.

(** [memset] of the entry of the process for a handle. *)
Definition forget_capability (pointer handle : Z) (m : mem) : mem :=
  match process_at m pointer with
  | None => m
  | Some p =>
    match process_capability_slot p handle with
    | None => m
    | Some index => set_process m pointer (set_capability p index zero_capability)
    end
  end.

Definition clear_capability_record_locked (index : Z) : prog unit :=
  r <- record index;;
  if negb (r_active r) then Ret tt
  else
    (if endpoint_slot r <? IPC_MAX_ENDPOINTS then
       e <- endpoint (endpoint_slot r);;
       if (Z.land (rights r) IPC_RIGHT_CONTROL =? 0) && active e && negb (peer_capabilities e =? 0) then
         change_endpoint (endpoint_slot r) (λ e, with_peer (peer_seen e) (peer_capabilities e - 1) e);;;
         seal_endpoint (endpoint_slot r);;; Ret tt
       else Ret tt
     else Ret tt);;;
    h <- process (holder r);;
    (match h with
     | None => Ret tt
     | Some h =>
       if (pid h =? holder_pid r) && (p_generation h =? holder_generation r)
       then modify (forget_capability (holder r) (r_handle r)) else Ret tt
     end);;;
    modify (λ m, set_record m index zero_record);;;
    seal_capability index;;;
    modify capability_removed.

(** The loop over the records of [quarantine_endpoint_locked] and
    [revoke_endpoint_locked]. *)
Fixpoint clear_loop (p : ipc_capability_record_t → bool) (slots : list Z) : prog unit :=
  match slots with
  | [] => Ret tt
  | index :: slots =>
    result <- load_capability index;;
    (if negb (result =? 0) then Ret tt
     else r <- record index;; if r_active r && p r then clear_capability_record_locked index else Ret tt);;;
    clear_loop p slots
  end.

Definition account_closed (slot : Z) (m : mem) : mem :=
  let e := endpoint_at m slot in
  if active e then messages_removed (endpoint_removed m) (u32 (count e + (if bulk_active e then 1 else 0))) else m.

Definition wake_all (slot : Z) : prog unit := call (Wake_all_send slot);;; call (Wake_all_receive slot).

Definition quarantine_endpoint_locked (slot : Z) : prog unit :=
  if IPC_MAX_ENDPOINTS <=? slot then Ret tt
  else
    modify (account_closed slot);;;
    change_endpoint slot closed;;;
    reset_bulk_locked slot;;;
    seal_endpoint slot;;;
    clear_loop (λ r, endpoint_slot r =? slot) capability_slots;;;
    wake_all slot.

Definition revoke_endpoint_locked (slot : Z) : prog unit :=
  modify (account_closed slot);;;
  change_endpoint slot closed;;;
  reset_bulk_locked slot;;;
  e <- endpoint slot;;
  clear_loop (λ r, (endpoint_slot r =? slot) && (r_handle r =? make_handle slot (generation e))) capability_slots;;;
  wake_all slot;;;
  seal_endpoint slot;;; Ret tt.

(** The slot of the endpoint, if the process may use it. *)
Definition resolve_capability (pointer handle required_rights : Z) : prog (Z + Z) :=
  p <- process pointer;;
  match p with
  | None => Ret (inl IPC_EBADF)
  | Some p =>
    if negb (is_running p) then Ret (inl IPC_EBADF)
    else
    match process_capability_slot p handle, decode_handle handle with
    | Some _, Some (slot, generation_) =>
      r <- capability_record_for p handle;;
      m <- get;;
      if ipc_capability_scan_corrupt m then quarantine_endpoint_locked slot;;; Ret (inl IPC_EINTEGRITY)
      else
      match r with
      | None => Ret (inl IPC_EBADF)
      | Some index =>
        r <- record index;;
        if negb (endpoint_slot r =? slot) || negb (holder_pid r =? pid p) then Ret (inl IPC_EBADF)
        else if negb (Z.land (rights r) required_rights =? required_rights) then Ret (inl IPC_EACCES)
        else
          result <- load_endpoint slot;;
          if negb (result =? 0) then quarantine_endpoint_locked slot;;; Ret (inl IPC_EINTEGRITY)
          else
            e <- endpoint slot;;
            if negb (active e) || negb (generation e =? generation_) then Ret (inl IPC_EBADF)
            else if (s32 (owner_pid e) <=? 0) || (owner_generation e =? 0) then Ret (inl IPC_EBADF)
            else Ret (inr slot)
      end
    | _, _ => Ret (inl IPC_EBADF)
    end
  end.

Definition install_capability_locked (pointer handle slot rights_ : Z) : prog Z :=
  p <- process pointer;;
  record_slot <- free_capability_record;;
  if record_slot =? IPC_EINTEGRITY then Ret IPC_EINTEGRITY
  else
  match p with
  | None => Ret IPC_ENOSPC
  | Some p =>
    match free_process_capability_slot p with
    | None => Ret IPC_ENOSPC
    | Some process_slot =>
      if record_slot <? 0 then Ret IPC_ENOSPC
      else
        modify (λ m, set_process m pointer (set_capability p process_slot (Capability handle rights_ true)));;;
        modify (λ m, set_record m record_slot (Record_ true handle pointer (pid p) (p_generation p) rights_ (u8 slot)));;;
        result <- seal_capability record_slot;;
        if negb (result =? 0) then
          modify (λ m, match process_at m pointer with None => m | Some p => set_process m pointer (set_capability p process_slot zero_capability) end);;;
          modify (λ m, set_record m record_slot zero_record);;;
          Ret IPC_EINTEGRITY
        else modify capability_added;;; Ret 0
    end
  end.

(** The answer, and the identity if it is 1. *)
Fixpoint counterpart_loop (slot : Z) (p : Process) (required_right : Z) (slots : list Z) (found : option (Z * Z)) : prog (Z * (Z * Z)) :=
  match slots with
  | [] => Ret (match found with Some counterpart => (1, counterpart) | None => (0, (0, 0)) end)
  | index :: slots =>
    result <- load_capability index;;
    if negb (result =? 0) then Ret (IPC_EINTEGRITY, (0, 0))
    else
      r <- record index;;
      if negb (r_active r) || negb (endpoint_slot r =? slot) || (Z.land (rights r) required_right =? 0) ||
         ((holder_pid r =? pid p) && (holder_generation r =? p_generation p))
      then counterpart_loop slot p required_right slots found
      else
        match found with
        | Some (pid_, generation_) =>
          if negb (pid_ =? holder_pid r) || negb (generation_ =? holder_generation r) then Ret (IPC_EINTEGRITY, (0, 0))
          else counterpart_loop slot p required_right slots (Some (holder_pid r, holder_generation r))
        | None => counterpart_loop slot p required_right slots (Some (holder_pid r, holder_generation r))
        end
  end.
Definition counterpart_identity_locked (slot : Z) (p : Process) (required_right : Z) : prog (Z * (Z * Z)) :=
  counterpart_loop slot p required_right capability_slots None.

(** ** Creating endpoints *)
Fixpoint create_loop (slots : list Z) : prog (option Z) :=
  match slots with
  | [] => Ret None
  | index :: slots =>
    result <- load_endpoint index;;
    if negb (result =? 0) then quarantine_endpoint_locked index;;; create_loop slots
    else
      result <- load_bulk index;;
      if negb (result =? 0) then quarantine_endpoint_locked index;;; create_loop slots
      else
        e <- endpoint index;;
        if active e || retired e then create_loop slots
        else if IPC_HANDLE_GENERATION_MAX <=? generation e then
          change_endpoint index with_retired;;; seal_endpoint index;;; create_loop slots
        else Ret (Some index)
  end.

Definition fresh_endpoint (p : Process) (generation_ : Z) : ipc_endpoint_t :=
  Endpoint true false false generation_ (pid p) (p_generation p) 0 0 0 (replicate 4 zero_message) (replicate 4 0) (replicate 4 0)
    false zero_bulk_message 0 0.

(** [handle] is the variable of the caller, [None] a null pointer. *)
Definition ipc_create (owner : Z) (handle : option Z) : prog (Z * option Z) :=
  p <- process owner;;
  match p, handle with
  | Some p, Some old =>
    if negb (is_running p) then Ret (IPC_EINVAL, handle)
    else
      available_record <- free_capability_record;;
      if available_record =? IPC_EINTEGRITY then Ret (IPC_EINTEGRITY, handle)
      else if negb (present (free_process_capability_slot p)) || (available_record <? 0) then
        modify capacity_rejected;;; Ret (IPC_ENOSPC, handle)
      else
        found <- create_loop endpoint_slots;;
        match found with
        | None => modify capacity_rejected;;; Ret (IPC_ENOSPC, handle)
        | Some slot =>
          e <- endpoint slot;;
          (let generation_ := u32 (generation e + 1) in
           change_endpoint slot (λ _, fresh_endpoint p generation_);;;
           bulk_result <- seal_bulk slot;;
           (** The second seal is not tried when the first fails. *)
           result <- (if negb (bulk_result =? 0) then Ret bulk_result else seal_endpoint slot);;
           if negb (result =? 0) then change_endpoint slot (with_active false);;; Ret (IPC_EINTEGRITY, handle)
           else
             let created := make_handle slot generation_ in
             result <- install_capability_locked owner created slot all_rights;;
             if negb (result =? 0) then
               change_endpoint slot (with_active false);;; seal_endpoint slot;;; Ret (result, handle)
             else modify endpoint_added;;; Ret (0, Some created))
        end
  | _, _ => Ret (IPC_EINVAL, handle)
  end.

(** ** Messages *)
Definition queue_index (e : ipc_endpoint_t) (offset : Z) : Z := u32 (head e + offset) mod IPC_QUEUE_DEPTH.

(** The message as the queue keeps it: the bytes behind its length are 0. *)
Definition queued_message (message : ipc_message_t) : ipc_message_t :=
  Message (version message) (struct_size message) (msg_length message)
    (bytes_copy (replicate 128 0) (take (Z.to_nat (msg_length message)) (payload message))).

Definition enqueue_message_locked (slot : Z) (message : ipc_message_t) (pid_ generation_ : Z) : prog Z :=
  e <- endpoint slot;;
  if IPC_QUEUE_DEPTH <=? count e then modify capacity_rejected;;; Ret IPC_EAGAIN
  else
    let tail_ := queue_index e (count e) in
    change_endpoint slot (with_message tail_ (queued_message message) pid_ generation_);;;
    result <- seal_message slot tail_ (ProtectedMessage (queued_message message) pid_ generation_);;
    if negb (result =? 0) then Ret IPC_EINTEGRITY
    else
      change_endpoint slot (λ e, with_queue (head e) (count e + 1) e);;;
      result <- seal_endpoint slot;;
      if negb (result =? 0) then change_endpoint slot (λ e, with_queue (head e) (count e - 1) e);;; Ret IPC_EINTEGRITY
      else modify message_added;;; call (Wake_one_receive slot);;; Ret 0.

Definition queued_bulk (message : ipc_bulk_message_t) : ipc_bulk_message_t :=
  Bulk (b_version message) (b_struct_size message) (b_length message)
    (bytes_copy (replicate 2048 0) (take (Z.to_nat (b_length message)) (b_payload message))).

Definition enqueue_bulk_locked (slot : Z) (message : ipc_bulk_message_t) (pid_ generation_ : Z) : prog Z :=
  result <- load_bulk slot;;
  if negb (result =? 0) then Ret IPC_EINTEGRITY
  else
    e <- endpoint slot;;
    if bulk_active e then modify capacity_rejected;;; Ret IPC_EAGAIN
    else
      change_endpoint slot (with_bulk true (queued_bulk message) pid_ generation_);;;
      bulk_result <- seal_bulk slot;;
      result <- (if negb (bulk_result =? 0) then Ret bulk_result else seal_endpoint slot);;
      if negb (result =? 0) then reset_bulk_locked slot;;; Ret IPC_EINTEGRITY
      else modify message_added;;; call (Wake_one_receive slot);;; Ret 0.

Fixpoint receivable_loop (slot : Z) (p : Process) (e : ipc_endpoint_t) (offsets : list nat) : prog Z :=
  match offsets with
  | [] => Ret (-1)
  | offset :: offsets =>
    v <- load_message slot (queue_index e (Z.of_nat offset));;
    let '(result, value) := (v : Z * ipc_protected_message_t) in
    if negb (result =? 0) then Ret IPC_EINTEGRITY
    else if negb (pm_sender_pid value =? pid p) || negb (pm_sender_generation value =? p_generation p)
    then Ret (Z.of_nat offset)
    else receivable_loop slot p e offsets
  end.
Definition receivable_offset (slot : Z) (p : Process) : prog Z :=
  e <- endpoint slot;; receivable_loop slot p e (seq 0 (Z.to_nat (count e))).

(** [fuel] is the distance to the last message. *)
Fixpoint shift_loop (fuel : nat) (slot index : Z) : prog Z :=
  match fuel with
  | O => Ret 0
  | S fuel =>
    let next := u32 (index + 1) mod IPC_QUEUE_DEPTH in
    v <- load_message slot next;;
    let '(result, shifted) := (v : Z * ipc_protected_message_t) in
    if negb (result =? 0) then Ret IPC_EINTEGRITY
    else
      change_endpoint slot (λ e, with_message index (nth (Z.to_nat next) (messages e) zero_message)
        (nth (Z.to_nat next) (sender_pid e) 0) (nth (Z.to_nat next) (sender_generation e) 0) e);;;
      result <- seal_message slot index shifted;;
      if negb (result =? 0) then Ret IPC_EINTEGRITY else shift_loop fuel slot next
  end.

(** The answer, and the message if one was read. *)
Definition remove_message_locked (slot offset : Z) : prog (Z * option ipc_message_t) :=
  e <- endpoint slot;;
  let index := queue_index e offset in
  v <- load_message slot index;;
  let '(result, value) := (v : Z * ipc_protected_message_t) in
  if negb (result =? 0) then Ret (IPC_EINTEGRITY, None)
  else
    result <- shift_loop (Z.to_nat (count e - (offset + 1))) slot index;;
    if negb (result =? 0) then Ret (IPC_EINTEGRITY, Some (pm_message value))
    else
      change_endpoint slot (λ e, with_queue (if count e - 1 =? 0 then 0 else head e) (count e - 1) e);;;
      modify message_removed;;;
      result <- seal_endpoint slot;;
      Ret (if result =? 0 then 0 else IPC_EINTEGRITY, Some (pm_message value)).

Definition remove_bulk_locked (slot : Z) : prog (Z * option ipc_bulk_message_t) :=
  result <- load_bulk slot;;
  e <- endpoint slot;;
  if negb (result =? 0) || negb (bulk_active e) then Ret (IPC_EINTEGRITY, None)
  else
    result <- reset_bulk_locked slot;;
    if negb (result =? 0) then Ret (IPC_EINTEGRITY, Some (bulk_message e))
    else
      modify message_removed;;;
      result <- seal_endpoint slot;;
      Ret (if result =? 0 then 0 else IPC_EINTEGRITY, Some (bulk_message e)).

(** ** Sending and receiving *)
(** The deadline saturates. *)
Definition deadline_of (now timeout_ms : Z) : Z :=
  let deadline := u64 (now + timeout_ms) in if deadline <? now then UINT64_MAX else deadline.

(** The end of a round that found no room or no message: give up, or wait.
    [None] is a process that blocks. *)
Definition wait_or_fail (slot : Z) (p : Process) (right timeout_ms deadline now : Z) (rejected : bool)
    (block : Z → Z → scheduler_call) : prog (option Z) :=
  if timeout_ms =? 0 then (if rejected then modify capacity_rejected else Ret tt);;; Ret (Some IPC_EAGAIN)
  else if deadline <=? now then Ret (Some IPC_ETIMEDOUT)
  else
    v <- counterpart_identity_locked slot p right;;
    let '(counterpart, (owner_pid_, owner_generation_)) := (v : Z * (Z * Z)) in
    if counterpart =? IPC_EINTEGRITY then quarantine_endpoint_locked slot;;; Ret (Some IPC_EINTEGRITY)
    else
      (if 0 <? counterpart then call (Set_wait_owner owner_pid_ owner_generation_) else Ret tt);;;
      call (block slot deadline);;; Ret None.

(** The process behind a pointer that [resolve_capability] accepted. *)
Definition no_process : Process := Proc 0 0 false [].
Definition the_process (pointer : Z) : prog Process := p <- process pointer;; Ret (default no_process p).

(** One time around the loop of [ipc_send_timeout]: a locked region. *)
Definition send_round (sender handle : Z) (message : ipc_message_t) (timeout_ms deadline now : Z) : prog (option Z) :=
  v <- resolve_capability sender handle IPC_RIGHT_SEND;;
  match v with
  | inl result => Ret (Some result)
  | inr slot =>
    e <- endpoint slot;; p <- the_process sender;;
    if peer_seen e && (peer_capabilities e =? 0) then Ret (Some IPC_EPIPE)
    else if count e <? IPC_QUEUE_DEPTH then
      result <- enqueue_message_locked slot message (pid p) (p_generation p);;
      (if result =? IPC_EINTEGRITY then quarantine_endpoint_locked slot else Ret tt);;;
      Ret (Some result)
    else wait_or_fail slot p IPC_RIGHT_RECEIVE timeout_ms deadline now true Block_send
  end.

Definition send_bulk_round (sender handle : Z) (message : ipc_bulk_message_t) (timeout_ms deadline now : Z) : prog (option Z) :=
  v <- resolve_capability sender handle IPC_RIGHT_SEND;;
  match v with
  | inl result => Ret (Some result)
  | inr slot =>
    result <- load_bulk slot;;
    if negb (result =? 0) then quarantine_endpoint_locked slot;;; Ret (Some IPC_EINTEGRITY)
    else
      e <- endpoint slot;; p <- the_process sender;;
      if peer_seen e && (peer_capabilities e =? 0) then Ret (Some IPC_EPIPE)
      else if negb (bulk_active e) then
        result <- enqueue_bulk_locked slot message (pid p) (p_generation p);;
        (if result =? IPC_EINTEGRITY then quarantine_endpoint_locked slot else Ret tt);;;
        Ret (Some result)
      else wait_or_fail slot p IPC_RIGHT_RECEIVE timeout_ms deadline now true Block_send
  end.

(** The second component is the message variable of the caller. *)
Definition receive_round (receiver handle : Z) (message : ipc_message_t) (timeout_ms deadline now : Z)
    : prog (option Z * ipc_message_t) :=
  v <- resolve_capability receiver handle IPC_RIGHT_RECEIVE;;
  match v with
  | inl result => Ret (Some result, message)
  | inr slot =>
    p <- the_process receiver;;
    offset <- receivable_offset slot p;;
    if offset =? IPC_EINTEGRITY then quarantine_endpoint_locked slot;;; Ret (Some IPC_EINTEGRITY, message)
    else if 0 <=? offset then
      v <- remove_message_locked slot offset;;
      let '(result, removed) := (v : Z * option ipc_message_t) in
      let message := default message removed in
      if negb (result =? 0) then quarantine_endpoint_locked slot;;; Ret (Some IPC_EINTEGRITY, message)
      else call (Wake_one_send slot);;; Ret (Some 0, message)
    else
      e <- endpoint slot;;
      if peer_seen e && (peer_capabilities e =? 0) then Ret (Some IPC_EPIPE, message)
      else
        result <- wait_or_fail slot p IPC_RIGHT_SEND timeout_ms deadline now false Block_receive;;
        Ret (result, message)
  end.

(** A queued message in the struct of a bulk message. *)
Definition small_as_bulk (small : ipc_message_t) : ipc_bulk_message_t :=
  Bulk (version small) (struct_size small) (msg_length small)
    (bytes_copy (replicate 2048 0) (take (Z.to_nat (msg_length small)) (payload small))).
Definition empty_small : ipc_message_t := Message IPC_MESSAGE_VERSION message_size 0 (replicate 128 0).

Definition receive_bulk_round (receiver handle : Z) (message : ipc_bulk_message_t) (timeout_ms deadline now : Z)
    : prog (option Z * ipc_bulk_message_t) :=
  v <- resolve_capability receiver handle IPC_RIGHT_RECEIVE;;
  match v with
  | inl result => Ret (Some result, message)
  | inr slot =>
    p <- the_process receiver;;
    offset <- receivable_offset slot p;;
    if offset =? IPC_EINTEGRITY then quarantine_endpoint_locked slot;;; Ret (Some IPC_EINTEGRITY, message)
    else if 0 <=? offset then
      v <- remove_message_locked slot offset;;
      let '(result, removed) := (v : Z * option ipc_message_t) in
      if negb (result =? 0) then quarantine_endpoint_locked slot;;; Ret (Some IPC_EINTEGRITY, message)
      else call (Wake_one_send slot);;; Ret (Some 0, small_as_bulk (default empty_small removed))
    else
      result <- load_bulk slot;;
      if negb (result =? 0) then quarantine_endpoint_locked slot;;; Ret (Some IPC_EINTEGRITY, message)
      else
        e <- endpoint slot;;
        if bulk_active e && (negb (bulk_sender_pid e =? pid p) || negb (bulk_sender_generation e =? p_generation p)) then
          v <- remove_bulk_locked slot;;
          let '(result, removed) := (v : Z * option ipc_bulk_message_t) in
          let message := default message removed in
          if negb (result =? 0) then quarantine_endpoint_locked slot;;; Ret (Some IPC_EINTEGRITY, message)
          else call (Wake_one_send slot);;; Ret (Some 0, message)
        else if peer_seen e && (peer_capabilities e =? 0) then Ret (Some IPC_EPIPE, message)
        else
          result <- wait_or_fail slot p IPC_RIGHT_SEND timeout_ms deadline now false Block_receive;;
          Ret (result, message)
  end.

(** ** Messages from inside the kernel *)
(** The records of a peer of an endpoint; [inl] ends the call. *)
Fixpoint peer_loop (slot : Z) (slots : list Z) (peer : option Z) : prog (Z + option Z) :=
  match slots with
  | [] => Ret (inr peer)
  | index :: slots =>
    result <- load_capability index;;
    if negb (result =? 0) then quarantine_endpoint_locked slot;;; Ret (inl IPC_EINTEGRITY)
    else
      r <- record index;;
      if r_active r && (endpoint_slot r =? slot) && (Z.land (rights r) IPC_RIGHT_CONTROL =? 0) then
        match peer with
        | Some _ => quarantine_endpoint_locked slot;;; Ret (inl IPC_EINTEGRITY)
        | None => peer_loop slot slots (Some index)
        end
      else peer_loop slot slots peer
  end.

Definition owned_by (e : ipc_endpoint_t) (generation_ pid_ pid_generation : Z) : bool :=
  active e && (generation e =? generation_) && (owner_pid e =? pid_) && (owner_generation e =? pid_generation).

(** Enqueue for a trusted caller, and quarantine when a seal fails. *)
Definition enqueue_trusted (slot : Z) (message : ipc_message_t) (pid_ generation_ : Z) : prog Z :=
  result <- enqueue_message_locked slot message pid_ generation_;;
  (if result =? IPC_EINTEGRITY then quarantine_endpoint_locked slot else Ret tt);;;
  Ret result.

Definition ipc_send_external_from_peer (owner_pid_ owner_generation_ handle : Z) (message : option ipc_message_t) : prog Z :=
  match message with
  | None => Ret IPC_EINVAL
  | Some message =>
    if (s32 owner_pid_ <=? 0) || (owner_generation_ =? 0) || negb (message_valid message) then Ret IPC_EINVAL
    else
    match decode_handle handle with
    | None => Ret IPC_EBADF
    | Some (slot, generation_) =>
      result <- load_endpoint slot;;
      if negb (result =? 0) then quarantine_endpoint_locked slot;;; Ret IPC_EINTEGRITY
      else
        e <- endpoint slot;;
        if negb (owned_by e generation_ owner_pid_ owner_generation_) then Ret IPC_EBADF
        else
          v <- peer_loop slot capability_slots None;;
          match v with
          | inl result => Ret result
          | inr None => Ret IPC_EPIPE
          | inr (Some index) =>
            r <- record index;;
            h <- process (holder r);;
            match h with
            | None => Ret IPC_EPIPE
            | Some h =>
              if negb (is_running h) || negb (pid h =? holder_pid r) || negb (p_generation h =? holder_generation r)
              then Ret IPC_EPIPE
              else enqueue_trusted slot message (holder_pid r) (holder_generation r)
            end
          end
    end
  end.

Definition ipc_send_kernel_to_owner (owner_pid_ owner_generation_ handle : Z) (message : option ipc_message_t) : prog Z :=
  match message with
  | None => Ret IPC_EINVAL
  | Some message =>
    if (s32 owner_pid_ <=? 0) || (owner_generation_ =? 0) || negb (message_valid message) then Ret IPC_EINVAL
    else
    match decode_handle handle with
    | None => Ret IPC_EBADF
    | Some (slot, generation_) =>
      result <- load_endpoint slot;;
      if negb (result =? 0) then quarantine_endpoint_locked slot;;; Ret IPC_EINTEGRITY
      else
        e <- endpoint slot;;
        if negb (owned_by e generation_ owner_pid_ owner_generation_) then Ret IPC_EBADF
        else enqueue_trusted slot message 0 0
    end
  end.

(** ** Validation for other subsystems *)
(** The holder of the record, or the answer that ends the call. *)
Fixpoint validate_loop (slot owner_pid_ owner_generation_ handle required_rights : Z) (slots : list Z) (found : Z) : prog (Z + Z) :=
  match slots with
  | [] => Ret (inr found)
  | index :: slots =>
    result <- load_capability index;;
    if negb (result =? 0) then quarantine_endpoint_locked slot;;; Ret (inl IPC_EINTEGRITY)
    else
      r <- record index;;
      if negb (r_active r) || negb (r_handle r =? handle) || negb (holder_pid r =? owner_pid_) || negb (holder_generation r =? owner_generation_)
      then validate_loop slot owner_pid_ owner_generation_ handle required_rights slots found
      else if negb (found =? 0) || (holder r =? 0) || negb (Z.land (rights r) required_rights =? required_rights)
      then Ret (inl (if negb (found =? 0) then IPC_EINTEGRITY else IPC_EACCES))
      else validate_loop slot owner_pid_ owner_generation_ handle required_rights slots (holder r)
  end.

Definition ipc_capability_validate_owner (owner_pid_ owner_generation_ handle required_rights : Z) : prog Z :=
  if (s32 owner_pid_ <=? 0) || (owner_generation_ =? 0) || (required_rights =? 0) || negb (outside required_rights all_rights =? 0)
  then Ret IPC_EINVAL
  else
  match decode_handle handle with
  | None => Ret IPC_EINVAL
  | Some (slot, _) =>
    v <- validate_loop slot owner_pid_ owner_generation_ handle required_rights capability_slots 0;;
    match v with
    | inl result => Ret result
    | inr found =>
      h <- process found;;
      match h with
      | None => Ret IPC_EBADF
      | Some h =>
        if negb (is_running h) || negb (pid h =? owner_pid_) || negb (p_generation h =? owner_generation_) then Ret IPC_EBADF
        else
          v <- resolve_capability found handle required_rights;;
          match v with
          | inl result => Ret result
          | inr slot =>
            e <- endpoint slot;;
            Ret (if negb (owner_pid e =? owner_pid_) || negb (owner_generation e =? owner_generation_) then IPC_EACCES else 0)
          end
      end
    end
  end.

Definition ipc_endpoint_validate_quiescent_owner (owner_pid_ owner_generation_ handle : Z) : prog Z :=
  if (s32 owner_pid_ <=? 0) || (owner_generation_ =? 0) then Ret IPC_EINVAL
  else
  match decode_handle handle with
  | None => Ret IPC_EINVAL
  | Some (slot, generation_) =>
    result <- load_endpoint slot;;
    if negb (result =? 0) then quarantine_endpoint_locked slot;;; Ret IPC_EINTEGRITY
    else
      result <- load_bulk slot;;
      if negb (result =? 0) then quarantine_endpoint_locked slot;;; Ret IPC_EINTEGRITY
      else
        e <- endpoint slot;;
        Ret (if negb (owned_by e generation_ owner_pid_ owner_generation_) then IPC_EBADF
             else if negb (peer_capabilities e =? 0) || negb (count e =? 0) || bulk_active e then IPC_EBUSY else 0)
  end.

(** ** Closing, delegating, releasing *)
Definition ipc_close (pointer handle : Z) : prog Z :=
  v <- resolve_capability pointer handle IPC_RIGHT_CONTROL;;
  match v with
  | inl result => Ret result
  | inr slot =>
    e <- endpoint slot;; p <- the_process pointer;;
    if negb (owner_pid e =? pid p) || negb (owner_generation e =? p_generation p) then Ret IPC_EACCES
    else
      let local_slot := process_capability_slot p handle in
      revoke_endpoint_locked slot;;;
      (match local_slot with
       | None => Ret tt
       | Some index => p <- the_process pointer;; modify (λ m, set_process m pointer (set_capability p index zero_capability))
       end);;;
      Ret 0
  end.

Definition delegable : Z := Z.lor IPC_RIGHT_SEND IPC_RIGHT_RECEIVE.

Definition ipc_delegate (source handle target rights_ : Z) : prog Z :=
  s <- process source;; t <- process target;;
  match s, t with
  | Some s, Some t =>
    if (source =? target) || negb (is_running s) || negb (is_running t) || (rights_ =? 0) || (p_generation s =? 0) ||
       (p_generation t =? 0) || negb (Z.land rights_ IPC_RIGHT_CONTROL =? 0) || negb (outside rights_ delegable =? 0)
    then Ret IPC_EINVAL
    else
      v <- resolve_capability source handle rights_;;
      match v with
      | inl result => Ret result
      | inr slot =>
        source_record <- capability_record_for s handle;;
        m <- get;;
        if ipc_capability_scan_corrupt m then quarantine_endpoint_locked slot;;; Ret IPC_EINTEGRITY
        else
        match source_record with
        | None => Ret IPC_EACCES
        | Some index =>
          r <- record index;;
          if negb (Z.land rights_ (rights r) =? rights_) then Ret IPC_EACCES
          else
            e <- endpoint slot;; t <- the_process target;;
            if negb (peer_capabilities e =? 0) || present (process_capability_slot t handle) then Ret IPC_EACCES
            else if negb (present (free_process_capability_slot t)) then modify capacity_rejected;;; Ret IPC_ENOSPC
            else
              record_slot <- free_capability_record;;
              if record_slot =? IPC_EINTEGRITY then quarantine_endpoint_locked slot;;; Ret IPC_EINTEGRITY
              else if record_slot <? 0 then modify capacity_rejected;;; Ret IPC_ENOSPC
              else
                result <- install_capability_locked target handle slot rights_;;
                if negb (result =? 0) then Ret result
                else
                  change_endpoint slot (with_peer true 1);;;
                  result <- seal_endpoint slot;;
                  if negb (result =? 0) then quarantine_endpoint_locked slot;;; Ret IPC_EINTEGRITY else Ret 0
        end
      end
  | _, _ => Ret IPC_EINVAL
  end.

Definition ipc_release (pointer handle : Z) : prog Z :=
  if (pointer =? 0) || (handle =? IPC_INVALID_HANDLE) then Ret IPC_EINVAL
  else
    v <- resolve_capability pointer handle 0;;
    match v with
    | inl result => Ret result
    | inr slot =>
      e <- endpoint slot;; p <- the_process pointer;;
      if (owner_pid e =? pid p) && (owner_generation e =? p_generation p) then Ret IPC_EACCES
      else
        r <- capability_record_for p handle;;
        m <- get;;
        match r with
        | Some index =>
          if ipc_capability_scan_corrupt m then quarantine_endpoint_locked slot;;; Ret IPC_EINTEGRITY
          else clear_capability_record_locked index;;; wake_all slot;;; Ret 0
        | None => quarantine_endpoint_locked slot;;; Ret (if ipc_capability_scan_corrupt m then IPC_EINTEGRITY else IPC_EBADF)
        end
    end.

Fixpoint cleanup_endpoints (pid_ generation_ : Z) (slots : list Z) : prog unit :=
  match slots with
  | [] => Ret tt
  | slot :: slots =>
    result <- load_endpoint slot;;
    (if negb (result =? 0) then quarantine_endpoint_locked slot
     else
       e <- endpoint slot;;
       if active e && (owner_pid e =? pid_) && (owner_generation e =? generation_) then revoke_endpoint_locked slot else Ret tt);;;
    cleanup_endpoints pid_ generation_ slots
  end.

Fixpoint cleanup_records (pid_ generation_ : Z) (slots : list Z) : prog unit :=
  match slots with
  | [] => Ret tt
  | index :: slots =>
    result <- load_capability index;;
    (if negb (result =? 0) then Ret tt
     else
       r <- record index;;
       if negb (r_active r) || negb (holder_pid r =? pid_) || negb (holder_generation r =? generation_) then Ret tt
       else
         clear_capability_record_locked index;;;
         (if endpoint_slot r <? IPC_MAX_ENDPOINTS then wake_all (endpoint_slot r) else Ret tt));;;
    cleanup_records pid_ generation_ slots
  end.

Definition ipc_process_cleanup (pid_ generation_ : Z) : prog unit :=
  if (s32 pid_ <=? 0) || (generation_ =? 0) then Ret tt
  else cleanup_endpoints pid_ generation_ endpoint_slots;;; cleanup_records pid_ generation_ capability_slots.

Definition ipc_integrity_correction_count : prog Z := Get (λ m, Ret (ipc_integrity_corrections m)).
(** [stats_out] is the variable of the caller. *)
Definition ipc_resource_stats (stats_out : option ipc_resource_stats_t) : prog (Z * option ipc_resource_stats_t) :=
  match stats_out with
  | None => Ret (IPC_EINVAL, None)
  | Some _ => Get (λ m, Ret (0, Some (ipc_stats m)))
  end.

(** ** The critical objects *)
Section stores.
Context {O : Type} `{ProtectedStore O} `{!BlankStore O}.

Record ipc_t := Ipc {
memory : mem;
ipc_endpoint_integrity : list O;
ipc_capability_integrity : list O;
ipc_message_integrity : list O;
ipc_bulk_integrity : list O
}.

Definition set_memory (s : ipc_t) (m : mem) : ipc_t :=
Ipc m (ipc_endpoint_integrity s) (ipc_capability_integrity s) (ipc_message_integrity s) (ipc_bulk_integrity s).

Definition note_integrity_result (result : critical_read_result_t) (m : mem) : mem :=
match result with
| CRITICAL_READ_CORRECTED | CRITICAL_READ_RECOVERED =>
  if negb (ipc_integrity_corrections m =? UINT32_MAX) then set_corrections m (ipc_integrity_corrections m + 1) else m
| _ => m
end.

(** Reading and sealing a struct. *)
Definition read_sealed {A} `{Layout A} (ok : A → bool) (store : O) : option (critical_read_result_t * A) * O :=
let '(result, store, image) := ps_read store IPC_METADATA_VERSION (sizeof A) (record_valid ok) in
if negb (critical_read_ok result) || negb (length image =? sizeof A)%nat then (None, store)
else (Some (result, decode image), store).

Definition seal_value {A} `{Layout A} (ok : A → bool) (store : O) (value : A) : Z * O :=
if negb (ok value) then (IPC_EINTEGRITY, store)
else ps_update store IPC_METADATA_VERSION (Some (encode value)) (record_valid ok).

Definition store_at (l : list O) (slot : Z) : O := nth (Z.to_nat slot) l ps_zero.

Definition load_endpoint_step (slot : Z) (s : ipc_t) : Z * ipc_t :=
let '(read, store) := read_sealed endpoint_metadata_ok (store_at (ipc_endpoint_integrity s) slot) in
let stores := <[Z.to_nat slot := store]> (ipc_endpoint_integrity s) in
match read with
| None => (IPC_EINTEGRITY, Ipc (memory s) stores (ipc_capability_integrity s) (ipc_message_integrity s) (ipc_bulk_integrity s))
| Some (result, value) =>
  let m := note_integrity_result result (memory s) in
  (0, Ipc (set_endpoint m slot (endpoint_loaded (endpoint_at m slot) value)) stores (ipc_capability_integrity s)
        (ipc_message_integrity s) (ipc_bulk_integrity s))
end.

Definition seal_endpoint_step (slot : Z) (s : ipc_t) : Z * ipc_t :=
let '(result, store) := seal_value endpoint_metadata_ok (store_at (ipc_endpoint_integrity s) slot)
  (endpoint_metadata (endpoint_at (memory s) slot)) in
(result, Ipc (memory s) (<[Z.to_nat slot := store]> (ipc_endpoint_integrity s)) (ipc_capability_integrity s)
   (ipc_message_integrity s) (ipc_bulk_integrity s)).

Definition load_bulk_step (slot : Z) (s : ipc_t) : Z * ipc_t :=
let '(read, store) := read_sealed bulk_metadata_ok (store_at (ipc_bulk_integrity s) slot) in
let stores := <[Z.to_nat slot := store]> (ipc_bulk_integrity s) in
match read with
| None => (IPC_EINTEGRITY, Ipc (memory s) (ipc_endpoint_integrity s) (ipc_capability_integrity s) (ipc_message_integrity s) stores)
| Some (result, value) =>
  let m := note_integrity_result result (memory s) in
  (if bulk_matches (endpoint_at m slot) value then 0 else IPC_EINTEGRITY,
   Ipc m (ipc_endpoint_integrity s) (ipc_capability_integrity s) (ipc_message_integrity s) stores)
end.

Definition seal_bulk_step (slot : Z) (s : ipc_t) : Z * ipc_t :=
let '(result, store) := seal_value bulk_metadata_ok (store_at (ipc_bulk_integrity s) slot) (bulk_metadata (endpoint_at (memory s) slot)) in
(result, Ipc (memory s) (ipc_endpoint_integrity s) (ipc_capability_integrity s) (ipc_message_integrity s)
   (<[Z.to_nat slot := store]> (ipc_bulk_integrity s))).

Definition load_capability_step (slot : Z) (s : ipc_t) : Z * ipc_t :=
let '(read, store) := read_sealed capability_metadata_ok (store_at (ipc_capability_integrity s) slot) in
let stores := <[Z.to_nat slot := store]> (ipc_capability_integrity s) in
match read with
| None => (IPC_EINTEGRITY, Ipc (memory s) (ipc_endpoint_integrity s) stores (ipc_message_integrity s) (ipc_bulk_integrity s))
| Some (result, value) =>
  (0, Ipc (set_record (note_integrity_result result (memory s)) slot (capability_loaded value)) (ipc_endpoint_integrity s) stores
        (ipc_message_integrity s) (ipc_bulk_integrity s))
end.

Definition seal_capability_step (slot : Z) (s : ipc_t) : Z * ipc_t :=
let '(result, store) := seal_value capability_metadata_ok (store_at (ipc_capability_integrity s) slot)
  (capability_metadata (record_at (memory s) slot)) in
(result, Ipc (memory s) (ipc_endpoint_integrity s) (<[Z.to_nat slot := store]> (ipc_capability_integrity s))
   (ipc_message_integrity s) (ipc_bulk_integrity s)).

(** The object of a chunk in the array of all of them. *)
Definition chunk_index (slot queue_slot : Z) (chunk : nat) : Z := (slot * IPC_QUEUE_DEPTH + queue_slot) * 3 + Z.of_nat chunk.

Fixpoint seal_chunks (slot queue_slot : Z) (chunks : list nat) (bytes : list Z) (stores : list O) : Z * list O :=
match chunks with
| [] => (if (length bytes =? 0)%nat then 0 else IPC_EINTEGRITY, stores)
| chunk :: chunks =>
  let index := chunk_index slot queue_slot chunk in
  let object := store_at stores index in
  let part := take CRITICAL_OBJECT_MAX_PAYLOAD bytes in
  let '(result, object) :=
    if ps_blank object then ps_init object IPC_METADATA_VERSION (Some part)
    else ps_update object IPC_METADATA_VERSION (Some part) message_chunk_valid in
  let stores := <[Z.to_nat index := object]> stores in
  if negb (result =? 0) then (IPC_EINTEGRITY, stores)
  else seal_chunks slot queue_slot chunks (drop CRITICAL_OBJECT_MAX_PAYLOAD bytes) stores
end.

Definition all_chunks : list nat := seq 0 IPC_MESSAGE_CHUNKS.

Definition seal_message_step (slot queue_slot : Z) (value : ipc_protected_message_t) (s : ipc_t) : Z * ipc_t :=
let '(result, stores) := seal_chunks slot queue_slot all_chunks (message_bytes value) (ipc_message_integrity s) in
(result, Ipc (memory s) (ipc_endpoint_integrity s) (ipc_capability_integrity s) stores (ipc_bulk_integrity s)).

(** [None]: a chunk cannot be read; otherwise the bytes of the chunks. *)
Fixpoint load_chunks (slot queue_slot : Z) (chunks : list nat) (remaining : nat) (m : mem) (stores : list O)
: option (list Z) * mem * list O :=
match chunks with
| [] => (if (remaining =? 0)%nat then Some [] else None, m, stores)
| chunk :: chunks =>
  let index := chunk_index slot queue_slot chunk in
  let expected := Nat.min remaining CRITICAL_OBJECT_MAX_PAYLOAD in
  let '(result, object, bytes) := ps_read (store_at stores index) IPC_METADATA_VERSION expected message_chunk_valid in
  let stores := <[Z.to_nat index := object]> stores in
  if negb (critical_read_ok result) || negb (length bytes =? expected)%nat then (None, m, stores)
  else
    let '(rest, m, stores) := load_chunks slot queue_slot chunks (remaining - expected) (note_integrity_result result m) stores in
    (match rest with None => None | Some rest => Some (bytes ++ rest) end, m, stores)
end.

(** What a failed load leaves in the variable of the caller is not modelled:
  no caller reads it. *)
Definition load_message_step (slot queue_slot : Z) (s : ipc_t) : (Z * ipc_protected_message_t) * ipc_t :=
let '(bytes, m, stores) := load_chunks slot queue_slot all_chunks protected_message_size (memory s) (ipc_message_integrity s) in
let s := Ipc m (ipc_endpoint_integrity s) (ipc_capability_integrity s) stores (ipc_bulk_integrity s) in
match bytes with
| None => ((IPC_EINTEGRITY, ProtectedMessage zero_message 0 0), s)
| Some bytes =>
  let value := message_of_bytes bytes in
  ((if protected_message_ok value then 0 else IPC_EINTEGRITY, value), s)
end.

Definition access_step (a : access) (s : ipc_t) : Z * ipc_t :=
match a with
| LoadEndpoint slot => load_endpoint_step slot s
| SealEndpoint slot => seal_endpoint_step slot s
| LoadBulk slot => load_bulk_step slot s
| SealBulk slot => seal_bulk_step slot s
| LoadCapability slot => load_capability_step slot s
| SealCapability slot => seal_capability_step slot s
| SealMessage slot queue_slot value => seal_message_step slot queue_slot value s
end.

Fixpoint run {A} (p : prog A) (s : ipc_t) : A * ipc_t :=
match p with
| Ret a => (a, s)
| Get k => run (k (memory s)) s
| Put m k => run k (set_memory s m)
| Access a k => let '(z, s) := access_step a s in run (k z) s
| LoadMessage slot queue_slot k => let '(v, s) := load_message_step slot queue_slot s in run (k v) s
end.

(** ** Initialisation *)
Definition init_object {A} `{Layout A} (value : A) : O := (ps_init ps_zero IPC_METADATA_VERSION (Some (encode value))).2.

(** The process table is not part of the statics of the file. *)
Definition ipc_init (s : ipc_t) : ipc_t :=
Ipc (Mem (replicate 16 zero_endpoint) (replicate 64 zero_record) (processes (memory s)) 0 false
       (Stats IPC_RESOURCE_STATS_VERSION stats_size 0 0 0 0 0 0 0) (scheduler_calls (memory s)))
  (replicate 16 (init_object empty_endpoint)) (replicate 64 (init_object empty_capability))
  (replicate (16 * 4 * 3) ps_zero) (replicate 16 (init_object empty_bulk)).

(** ** Blocking calls *)
(** One time around a loop: what the clock shows in the locked region, what
  the rest of the system does while the process waits, and the answer of the
  wait. *)
Record round := Round {
r_now : Z;
r_meanwhile : ipc_t → ipc_t;
r_wait : Z
}.

(** [None]: still waiting when the list of rounds ends. *)
Fixpoint rounds_loop {V} (step : V → Z → prog (option Z * V)) (value : V) (rounds : list round) (s : ipc_t) : option (Z * V * ipc_t) :=
match rounds with
| [] => None
| r :: rounds =>
  let '((result, value), s) := run (step value (r_now r)) s in
  match result with
  | Some result => Some (result, value, s)
  | None =>
    let s := r_meanwhile r s in
    let s := set_memory s (add_call (memory s) Clear_wait_owner) in
    if r_wait r =? IPC_ETIMEDOUT then Some (IPC_ETIMEDOUT, value, s)
    else if negb (r_wait r =? 0) then Some (IPC_EAGAIN, value, s)
    else rounds_loop step value rounds s
  end
end.

(** A round without an output variable. *)
Definition no_output (p : prog (option Z)) : prog (option Z * unit) := v <- p;; Ret (v, tt).

Definition ipc_send_timeout (sender handle : Z) (message : option ipc_message_t) (timeout_ms start : Z) (rounds : list round) (s : ipc_t)
: option (Z * unit * ipc_t) :=
match message with
| None => Some (IPC_EINVAL, tt, s)
| Some message =>
  if negb (message_valid message)
  then Some (if IPC_MAX_MESSAGE_SIZE <? msg_length message then IPC_EMSGSIZE else IPC_EINVAL, tt, s)
  else rounds_loop (λ _ now, no_output (send_round sender handle message timeout_ms (deadline_of start timeout_ms) now)) tt rounds s
end.

Definition ipc_send (sender handle : Z) (message : option ipc_message_t) : Z → list round → ipc_t → option (Z * unit * ipc_t) :=
ipc_send_timeout sender handle message IPC_DEFAULT_TIMEOUT_MS.

Definition ipc_send_bulk_timeout (sender handle : Z) (message : option ipc_bulk_message_t) (timeout_ms start : Z) (rounds : list round)
(s : ipc_t) : option (Z * unit * ipc_t) :=
match message with
| None => Some (IPC_EINVAL, tt, s)
| Some message =>
  if negb (bulk_message_valid message)
  then Some (if IPC_BULK_MAX_MESSAGE_SIZE <? b_length message then IPC_EMSGSIZE else IPC_EINVAL, tt, s)
  else rounds_loop (λ _ now, no_output (send_bulk_round sender handle message timeout_ms (deadline_of start timeout_ms) now)) tt rounds s
end.

Definition ipc_receive_timeout (receiver handle : Z) (message : option ipc_message_t) (timeout_ms start : Z) (rounds : list round) (s : ipc_t)
: option (Z * option ipc_message_t * ipc_t) :=
match message with
| None => Some (IPC_EINVAL, None, s)
| Some message =>
  if negb (message_valid message) then Some (IPC_EINVAL, Some message, s)
  else
  match rounds_loop (λ message now, receive_round receiver handle message timeout_ms (deadline_of start timeout_ms) now) message rounds s with
  | None => None
  | Some (result, message, s) => Some (result, Some message, s)
  end
end.

Definition ipc_receive (receiver handle : Z) (message : option ipc_message_t)
: Z → list round → ipc_t → option (Z * option ipc_message_t * ipc_t) :=
ipc_receive_timeout receiver handle message IPC_DEFAULT_TIMEOUT_MS.

Definition ipc_receive_bulk_timeout (receiver handle : Z) (message : option ipc_bulk_message_t) (timeout_ms start : Z) (rounds : list round)
(s : ipc_t) : option (Z * option ipc_bulk_message_t * ipc_t) :=
match message with
| None => Some (IPC_EINVAL, None, s)
| Some message =>
  if negb (bulk_message_valid message) then Some (IPC_EINVAL, Some message, s)
  else
  match rounds_loop (λ message now, receive_bulk_round receiver handle message timeout_ms (deadline_of start timeout_ms) now) message rounds s with
  | None => None
  | Some (result, message, s) => Some (result, Some message, s)
  end
end.
End stores.

#[global] Arguments ipc_t : clear implicits.
#[global] Arguments round : clear implicits.
End Ipc.
