(* ===== verification/IpcSpec.v ===== *)
(** IPC on intact stores.

    [regs] is the memory of the IPC together with the values its stores hold;
    [arun] gives a locked region its meaning on them.  [represents s a k]: the
    critical objects of [s] are intact, hold the values of [a] and have room
    for [k] more publications each.  On such states [run] does what [arun]
    says. *)
From S2P Require Import Prelude ProtectedStore Layout ProtectedRecord CriticalObject Ipc.
Import Ipc.
Local Open Scope ipc_scope.

(** ** Layouts *)
#[export] Instance endpoint_metadata_laws : LayoutLaws ipc_endpoint_metadata_t.
Proof.
  constructor; [done|by intros []|].
  intros values Hl. do 10 (destruct values as [|? values]; [done|]). by destruct values.
Qed.
#[export] Instance capability_metadata_laws : LayoutLaws ipc_capability_metadata_t.
Proof.
  constructor; [done|by intros []|].
  intros values Hl. do 7 (destruct values as [|? values]; [done|]). by destruct values.
Qed.
#[export] Instance bulk_metadata_laws : LayoutLaws ipc_bulk_metadata_t.
Proof.
  constructor; [done|by intros []|].
  intros values Hl. do 8 (destruct values as [|? values]; [done|]). by destruct values.
Qed.

(** All fields are words. *)
Definition word (x : Z) : bool := (0 <=? x) && (x <=? UINT32_MAX).
Lemma word_spec x : word x = true ↔ is_u32 x.
Proof. unfold word. rewrite andb_true_iff, Z.leb_le, Z.leb_le. ulia. Qed.

Definition typed_image {A} `{Layout A} (a : A) : bool := forallb word (layout_values a).

Lemma fields_words n values : length values = n → forallb word values = true → fields_ok (replicate n 4%nat) values.
Proof.
  revert values. induction n as [|n IH]; intros [|v values]; try done. cbn. intros [= Hl] [Hv Hw]%andb_true_iff.
  split; [|by apply IH]. apply word_spec in Hv. unfold is_u32 in Hv. exact Hv.
Qed.

Lemma endpoint_image_typed (v : ipc_endpoint_metadata_t) : typed_image v = true → well_typed v.
Proof. by apply (fields_words 10). Qed.
Lemma capability_image_typed (v : ipc_capability_metadata_t) : typed_image v = true → well_typed v.
Proof. by apply (fields_words 7). Qed.
Lemma bulk_image_typed (v : ipc_bulk_metadata_t) : typed_image v = true → well_typed v.
Proof. by apply (fields_words 8). Qed.

Lemma ipc_record_sizes :
  (0 < sizeof ipc_endpoint_metadata_t <= 64)%nat ∧ (0 < sizeof ipc_capability_metadata_t <= 64)%nat ∧
  (0 < sizeof ipc_bulk_metadata_t <= 64)%nat.
Proof. vm_compute. lia. Qed.

(** ** Messages as bytes *)
Definition message_typed (v : ipc_protected_message_t) : bool :=
  word (version (pm_message v)) && word (struct_size (pm_message v)) && word (msg_length (pm_message v)) &&
  (length (payload (pm_message v)) =? 128)%nat && is_bytes (payload (pm_message v)) &&
  word (pm_sender_pid v) && word (pm_sender_generation v).

Lemma length_message_bytes v : message_typed v = true → length (message_bytes v) = 148%nat.
Proof.
  unfold message_typed. rewrite !andb_true_iff. intros ((((((_ & _) & _) & Hl) & _) & _) & _). apply Nat.eqb_eq in Hl.
  unfold message_bytes. rewrite !length_app, !length_le_bytes, Hl. done.
Qed.

Lemma message_bytes_range v : message_typed v = true → Forall is_u8 (message_bytes v).
Proof.
  unfold message_typed. rewrite !andb_true_iff. intros ((((((_ & _) & _) & _) & Hb) & _) & _). apply is_bytes_spec in Hb.
  unfold message_bytes. repeat apply Forall_app_2; try apply le_bytes_range. done.
Qed.

Lemma get_le_app_front w (x : Z) rest : 0 <= x < 256 ^ Z.of_nat w → get_le w 0 (le_bytes w x ++ rest) = x.
Proof.
  intros Hx. unfold get_le. rewrite drop_0, take_app_length' by (by rewrite length_le_bytes). by apply le_value_bytes.
Qed.
Lemma get_le_app_back w off (front rest : list Z) : (length front <= off)%nat → get_le w off (front ++ rest) = get_le w (off - length front) rest.
Proof. intros. unfold get_le. by rewrite drop_app_ge. Qed.

Lemma message_of_message_bytes v : message_typed v = true → message_of_bytes (message_bytes v) = v.
Proof.
  intros Ht. pose proof Ht as Ht'. unfold message_typed in Ht'. rewrite !andb_true_iff in Ht'.
  destruct Ht' as ((((((Hv & Hs) & Hn) & Hl) & _) & Hp) & Hg). apply Nat.eqb_eq in Hl. apply word_spec in Hv, Hs, Hn, Hp, Hg.
  unfold is_u32 in *. destruct v as [[ver siz len pay] p g]. cbn [pm_message pm_sender_pid pm_sender_generation version struct_size msg_length payload] in *.
  unfold message_of_bytes, message_bytes. cbn [pm_message pm_sender_pid pm_sender_generation version struct_size msg_length payload].
  change (256 ^ Z.of_nat 4) with 4294967296 in *.
  f_equal; [f_equal|..].
  - by apply get_le_app_front.
  - rewrite get_le_app_back; rewrite length_le_bytes; [|done]. by apply get_le_app_front.
  - do 2 (rewrite get_le_app_back; rewrite length_le_bytes; [|cbn; lia]). by apply get_le_app_front.
  - do 3 (rewrite drop_app_ge; rewrite length_le_bytes; [|cbn; lia]). cbn. rewrite drop_0. by rewrite take_app_length'.
  - do 3 (rewrite get_le_app_back; rewrite length_le_bytes; [|cbn; lia]).
    rewrite get_le_app_back; rewrite Hl; [|cbn; lia]. by apply get_le_app_front.
  - do 3 (rewrite get_le_app_back; rewrite length_le_bytes; [|cbn; lia]).
    rewrite get_le_app_back; rewrite Hl; [|cbn; lia].
    rewrite get_le_app_back; rewrite length_le_bytes; [|cbn; lia]. cbn [Nat.sub].
    rewrite <- (app_nil_r (le_bytes 4 g)). by apply get_le_app_front.
Qed.

Definition chunk (c : nat) (bytes : list Z) : list Z := take 64 (drop (64 * c) bytes).

Lemma chunks_of_message v : message_typed v = true →
  length (chunk 0 (message_bytes v)) = 64%nat ∧ length (chunk 1 (message_bytes v)) = 64%nat ∧ length (chunk 2 (message_bytes v)) = 20%nat ∧
  chunk 0 (message_bytes v) ++ chunk 1 (message_bytes v) ++ chunk 2 (message_bytes v) = message_bytes v ∧
  (∀ c, Forall is_u8 (chunk c (message_bytes v))).
Proof.
  intros Ht. pose proof (length_message_bytes v Ht) as Hl. pose proof (message_bytes_range v Ht) as Hr.
  generalize dependent (message_bytes v). intros l Hl Hr. unfold chunk. rewrite !length_take, !length_drop, Hl. split_and!; try done.
  - cbn [Nat.mul Nat.add]. rewrite drop_0.
    rewrite <- (take_drop 64 l) at 4. f_equal. rewrite <- (take_drop 64 (drop 64 l)) at 2. rewrite drop_drop. f_equal.
    rewrite take_ge; [done|]. rewrite length_drop. cbn. lia.
  - intros c. by apply Forall_take, Forall_drop.
Qed.

(** ** Values of the stores *)
Record regs := Regs {
  r_mem : mem;
  r_endpoints : list ipc_endpoint_metadata_t;
  r_caps : list ipc_capability_metadata_t;
  r_msgs : list (option ipc_protected_message_t);
  r_bulk : list ipc_bulk_metadata_t
}.

Definition set_mem (a : regs) (m : mem) : regs := Regs m (r_endpoints a) (r_caps a) (r_msgs a) (r_bulk a).
Definition message_slot (slot queue_slot : Z) : nat := Z.to_nat (slot * 4 + queue_slot).

(** [None]: a value the store cannot take, or a message that was never
    sealed.  The last component counts publications. *)
Definition aseal {A} `{Layout A} (ok : A → bool) (value : A) (next : regs) (a : regs) : option (Z * regs * Z) :=
  if negb (ok value) then Some (IPC_EINTEGRITY, a, 0) else if typed_image value then Some (0, next, 1) else None.

Definition in_range (slot bound : Z) : bool := (0 <=? slot) && (slot <? bound).

Definition astep (x : access) (a : regs) : option (Z * regs * Z) :=
  let m := r_mem a in
  match x with
  | LoadEndpoint slot =>
    match (if in_range slot 16 then r_endpoints a !! Z.to_nat slot else None) with
    | None => None
    | Some v => Some (0, set_mem a (set_endpoint m slot (endpoint_loaded (endpoint_at m slot) v)), 0)
    end
  | SealEndpoint slot =>
    if negb (in_range slot 16) then None
    else
    let v := endpoint_metadata (endpoint_at m slot) in
    aseal endpoint_metadata_ok v (Regs m (<[Z.to_nat slot := v]> (r_endpoints a)) (r_caps a) (r_msgs a) (r_bulk a)) a
  | LoadBulk slot =>
    match (if in_range slot 16 then r_bulk a !! Z.to_nat slot else None) with
    | None => None
    | Some v => Some (if bulk_matches (endpoint_at m slot) v then 0 else IPC_EINTEGRITY, a, 0)
    end
  | SealBulk slot =>
    if negb (in_range slot 16) then None
    else
    let v := bulk_metadata (endpoint_at m slot) in
    aseal bulk_metadata_ok v (Regs m (r_endpoints a) (r_caps a) (r_msgs a) (<[Z.to_nat slot := v]> (r_bulk a))) a
  | LoadCapability slot =>
    match (if in_range slot 64 then r_caps a !! Z.to_nat slot else None) with
    | None => None
    | Some v => Some (0, set_mem a (set_record m slot (capability_loaded v)), 0)
    end
  | SealCapability slot =>
    if negb (in_range slot 64) then None
    else
    let v := capability_metadata (record_at m slot) in
    aseal capability_metadata_ok v (Regs m (r_endpoints a) (<[Z.to_nat slot := v]> (r_caps a)) (r_msgs a) (r_bulk a)) a
  | SealMessage slot q v =>
    if in_range slot 16 && in_range q 4 && message_typed v
    then Some (0, Regs m (r_endpoints a) (r_caps a) (<[message_slot slot q := Some v]> (r_msgs a)) (r_bulk a), 1)
    else None
  end.

Definition aload_message (slot q : Z) (a : regs) : option (Z * ipc_protected_message_t) :=
  match (if in_range slot 16 && in_range q 4 then r_msgs a !! message_slot slot q else None) with
  | Some (Some v) => Some (if protected_message_ok v then 0 else IPC_EINTEGRITY, v)
  | _ => None
  end.

Fixpoint arun {A} (p : prog A) (a : regs) : option (A * regs * Z) :=
  match p with
  | Ret x => Some (x, a, 0)
  | Get k => arun (k (r_mem a)) a
  | Put m k => arun k (set_mem a m)
  | Access x k =>
    match astep x a with
    | None => None
    | Some (z, a, n) => match arun (k z) a with None => None | Some (y, a, n') => Some (y, a, n + n') end
    end
  | LoadMessage slot q k =>
    match aload_message slot q a with
    | None => None
    | Some v => arun (k v) a
    end
  end.

(** ** Intact stores *)
Class BlankLaws (O : Type) `{!ProtectedStore O} `{!BlankStore O} := {
  ps_blank_zero : ps_blank ps_zero = true;
  ps_blank_holds store version sequence payload : ps_holds store version sequence payload → version ≠ 0 → ps_blank store = false
}.

Section represents.
Context {O : Type} `{ProtectedStoreLaws O} `{!BlankStore O} `{!BlankLaws O}.

Definition sealed_by {A} `{Layout A} (ok : A → bool) (k : Z) (store : O) (value : A) : Prop :=
∃ n, n + k <= UINT32_MAX ∧ record_holds IPC_METADATA_VERSION ok store n value.

Definition chunk_holds (k : Z) (store : O) (bytes : list Z) : Prop :=
∃ n, n + k <= UINT32_MAX ∧ ps_holds store IPC_METADATA_VERSION n bytes.

(** The three objects of a message. *)
Definition message_holds (k : Z) (stores : list O) (j : nat) (v : option ipc_protected_message_t) : Prop :=
match v with
| None => ∀ c, (c < 3)%nat → ∃ store, stores !! (j * 3 + c)%nat = Some store ∧ ps_blank store = true
| Some v => message_typed v = true ∧
  ∀ c, (c < 3)%nat → ∃ store, stores !! (j * 3 + c)%nat = Some store ∧ chunk_holds k store (chunk c (message_bytes v))
end.

Record represents (s : ipc_t O) (a : regs) (k : Z) : Prop := {
rep_memory : memory s = r_mem a;
rep_endpoints : Forall2 (sealed_by endpoint_metadata_ok k) (ipc_endpoint_integrity s) (r_endpoints a);
rep_caps : Forall2 (sealed_by capability_metadata_ok k) (ipc_capability_integrity s) (r_caps a);
rep_bulk : Forall2 (sealed_by bulk_metadata_ok k) (ipc_bulk_integrity s) (r_bulk a);
rep_msgs j v : r_msgs a !! j = Some v → message_holds k (ipc_message_integrity s) j v;
rep_room : 0 <= k < UINT32_MAX;
rep_lengths : length (r_endpoints a) = 16%nat ∧ length (r_caps a) = 64%nat ∧ length (r_bulk a) = 16%nat ∧
  length (r_msgs a) = 64%nat ∧ length (ipc_message_integrity s) = 192%nat
}.

Lemma sealed_less {A} `{Layout A} (ok : A → bool) k k' (store : O) v : k' <= k → sealed_by ok k store v → sealed_by ok k' store v.
Proof using. intros Hk (n & Hn & Hh). exists n. split; [lia|done]. Qed.

Lemma sealed_all_less {A} `{Layout A} (ok : A → bool) k k' (stores : list O) l :
k' <= k → Forall2 (sealed_by ok k) stores l → Forall2 (sealed_by ok k') stores l.
Proof using. intros Hk Hs. eapply list.Forall2_impl; [exact Hs|]. intros. by eapply sealed_less. Qed.

Lemma message_less k k' (stores : list O) j v : k' <= k → message_holds k stores j v → message_holds k' stores j v.
Proof using.
intros Hk. destruct v as [v|]; [|done]. intros [Ht Hc]. split; [done|]. intros c Hlt.
destruct (Hc c Hlt) as (store & E & n & Hn & Hh). exists store. split; [done|]. exists n. split; [lia|done].
Qed.

Lemma represents_less s a k k' : 0 <= k' <= k → represents s a k → represents s a k'.
Proof using.
intros Hk [Hm He Hc Hb Hg Hr Hl]. split; try done; [by eapply sealed_all_less; [|done]; lia..| |lia].
intros j v Hv. eapply message_less; [|by apply Hg]. lia.
Qed.

(** Reading an intact store gives its value. *)
Lemma read_sealed_spec {A} `{LayoutLaws A} (ok : A → bool) k (stores : list O) l slot v :
(0 < sizeof A <= 64)%nat → Forall2 (sealed_by ok k) stores l → l !! Z.to_nat slot = Some v →
∃ store, read_sealed ok (store_at stores slot) = (Some (CRITICAL_READ_OK, v), store) ∧
Forall2 (sealed_by ok k) (<[Z.to_nat slot := store]> stores) l.
Proof using All.
intros Hsize Hs Hv. destruct (Forall2_lookup_r _ _ _ _ _ Hs Hv) as (store & Es & n & Hn & Hh & Ht & Hok).
unfold store_at. rewrite (nth_lookup_Some _ _ _ _ Es). unfold read_sealed.
destruct (ps_read_holds store IPC_METADATA_VERSION n (encode v) (sizeof A) (record_valid ok)) as (store' & -> & Hh').
- done.
- done.
- unfold record_valid. rewrite length_encode, Nat.eqb_refl, decode_encode by done. done.
- by rewrite length_encode.
- exists store'. cbn [critical_read_ok critical_read_code Z.leb Z.compare negb orb]. rewrite length_encode, Nat.eqb_refl, decode_encode by done.
split; [done|]. rewrite <- (list_insert_id l _ _ Hv). apply Forall2_insert; [done|]. exists n. done.
Qed.

(** Sealing an acceptable value publishes it. *)
Lemma seal_value_spec {A} `{LayoutLaws A} (ok : A → bool) k (stores : list O) l slot v :
(0 < sizeof A <= 64)%nat → Forall2 (sealed_by ok (k + 1)) stores l → (Z.to_nat slot < length l)%nat → ok v = true → well_typed v → 0 <= k →
∃ store, seal_value ok (store_at stores slot) v = (0, store) ∧
Forall2 (sealed_by ok k) (<[Z.to_nat slot := store]> stores) (<[Z.to_nat slot := v]> l).
Proof using All.
intros Hsize Hs Hlt Hok Ht Hk. destruct (lookup_lt_is_Some_2 l (Z.to_nat slot) Hlt) as [old Hold].
destruct (Forall2_lookup_r _ _ _ _ _ Hs Hold) as (store & Es & n & Hn & Hh & Ht' & Hok').
unfold store_at. rewrite (nth_lookup_Some _ _ _ _ Es). unfold seal_value. rewrite Hok. cbn [negb].
destruct (ps_update_holds store IPC_METADATA_VERSION n (encode old) (encode v) (record_valid ok)) as (store' & -> & Hh').
- done.
- done.
- unfold record_valid. rewrite length_encode, Nat.eqb_refl, decode_encode by done. done.
- split; [apply encode_bytes|]. by rewrite length_encode.
- lia.
- exists store'. split; [done|]. apply Forall2_insert; [eapply sealed_all_less; [|exact Hs]; lia|].
exists (n + 1). split; [lia|]. done.
Qed.

(** ** The chunks of a message *)
(** Never used, or intact with an acceptable chunk. *)
Definition sealable (k : Z) (store : O) : Prop :=
ps_blank store = true ∨ ∃ bytes, chunk_holds k store bytes ∧ message_chunk_valid bytes = true.

Lemma message_chunk_valid_spec bytes : message_chunk_valid bytes = true ↔ (0 < length bytes <= 64)%nat.
Proof using.
unfold message_chunk_valid, CRITICAL_OBJECT_MAX_PAYLOAD. rewrite andb_true_iff, negb_true_iff, Nat.eqb_neq, Nat.leb_le. lia.
Qed.

Lemma message_chunks_storable v c : message_typed v = true → (c < 3)%nat → storable (chunk c (message_bytes v)).
Proof using.
intros Ht Hc. destruct (chunks_of_message v Ht) as (H0 & H1 & H2 & _ & Hb). split; [done|].
destruct c as [|[|[|c]]]; [rewrite H0|rewrite H1|rewrite H2|]; lia.
Qed.

Lemma message_sealable k stores j v c : message_holds k stores j v → (c < 3)%nat →
∃ store, stores !! (j * 3 + c)%nat = Some store ∧ sealable k store.
Proof using.
intros Hv Hc. destruct v as [v|].
- destruct Hv as [Ht Hv]. destruct (Hv c Hc) as (store & E & Hh). exists store. split; [done|]. right. eexists. split; [done|].
apply message_chunk_valid_spec. by apply message_chunks_storable.
- destruct (Hv c Hc) as (store & E & Hb). exists store. split; [done|]. by left.
Qed.

(** What [seal_chunks] does with one object. *)
Definition seal_chunk (store : O) (part : list Z) : Z * O :=
if ps_blank store then ps_init store IPC_METADATA_VERSION (Some part)
else ps_update store IPC_METADATA_VERSION (Some part) message_chunk_valid.

Lemma seal_chunk_spec k store part : sealable (k + 1) store → storable part → 0 <= k < UINT32_MAX →
∃ store', seal_chunk store part = (0, store') ∧ chunk_holds k store' part.
Proof using All.
intros Hs Hp Hk. unfold seal_chunk. destruct (ps_blank store) eqn:Hblank.
- destruct (ps_init_holds store IPC_METADATA_VERSION part) as (store' & -> & Hh); [done|done|done|].
exists store'. split; [done|]. exists 1. split; [lia|done].
- destruct Hs as [Hb|(bytes & (n & Hn & Hh) & Hv)]; [congruence|].
destruct (ps_update_holds store IPC_METADATA_VERSION n bytes part message_chunk_valid) as (store' & -> & Hh'); [done|done|done|done|lia|].
exists store'. split; [done|]. exists (n + 1). split; [lia|done].
Qed.

Lemma chunk_index_nat slot q c : 0 <= slot → 0 <= q → Z.to_nat (chunk_index slot q c) = (message_slot slot q * 3 + c)%nat.
Proof using. intros. unfold chunk_index, message_slot, IPC_QUEUE_DEPTH. lia. Qed.

Lemma seal_chunks_cons slot q c chunks bytes (stores : list O) :
seal_chunks slot q (c :: chunks) bytes stores =
let '(result, object) := seal_chunk (store_at stores (chunk_index slot q c)) (take 64 bytes) in
let stores := <[Z.to_nat (chunk_index slot q c) := object]> stores in
if negb (result =? 0) then (IPC_EINTEGRITY, stores) else seal_chunks slot q chunks (drop 64 bytes) stores.
Proof using. done. Qed.

Lemma store_at_lookup (stores : list O) slot store : stores !! Z.to_nat slot = Some store → store_at stores slot = store.
Proof using. intros E. unfold store_at. by apply nth_lookup_Some. Qed.

(** The objects of slot [j], replaced. *)
Definition put_chunks (j : nat) (o0 o1 o2 : O) (stores : list O) : list O :=
<[(j * 3 + 2)%nat := o2]> (<[(j * 3 + 1)%nat := o1]> (<[(j * 3 + 0)%nat := o0]> stores)).

Lemma put_chunks_same j o0 o1 o2 stores : (j * 3 + 2 < length stores)%nat →
put_chunks j o0 o1 o2 stores !! (j * 3 + 0)%nat = Some o0 ∧ put_chunks j o0 o1 o2 stores !! (j * 3 + 1)%nat = Some o1 ∧
put_chunks j o0 o1 o2 stores !! (j * 3 + 2)%nat = Some o2.
Proof using.
intros Hl. unfold put_chunks. split_and!; simplify_list_eq; rewrite ?list_lookup_insert_ne by lia;
rewrite ?list_lookup_insert_eq; rewrite ?length_insert; try lia; done.
Qed.
Lemma put_chunks_other j o0 o1 o2 stores i c : i ≠ j → (c < 3)%nat → put_chunks j o0 o1 o2 stores !! (i * 3 + c)%nat = stores !! (i * 3 + c)%nat.
Proof using. intros Hi Hc. unfold put_chunks. rewrite !list_lookup_insert_ne by lia. done. Qed.
Lemma length_put_chunks j o0 o1 o2 stores : length (put_chunks j o0 o1 o2 stores) = length stores.
Proof using. unfold put_chunks. by rewrite !length_insert. Qed.

Lemma message_holds_other k stores j o0 o1 o2 i v : i ≠ j →
message_holds k stores i v → message_holds k (put_chunks j o0 o1 o2 stores) i v.
Proof using.
intros Hi Hv. destruct v as [v|].
- destruct Hv as [Ht Hv]. split; [done|]. intros c Hc. rewrite put_chunks_other by done. by apply Hv.
- intros c Hc. rewrite put_chunks_other by done. by apply Hv.
Qed.

Lemma case_chunk (P : nat → Prop) : P 0%nat → P 1%nat → P 2%nat → ∀ c, (c < 3)%nat → P c.
Proof using. intros P0 P1 P2 c Hc. by destruct c as [|[|[|c]]]; [..|lia]. Qed.

Lemma seal_message_spec k (stores : list O) slot q old v :
0 <= slot → 0 <= q → (message_slot slot q * 3 + 2 < length stores)%nat → message_holds (k + 1) stores (message_slot slot q) old →
message_typed v = true → 0 <= k < UINT32_MAX →
∃ o0 o1 o2, seal_chunks slot q all_chunks (message_bytes v) stores = (0, put_chunks (message_slot slot q) o0 o1 o2 stores) ∧
message_holds k (put_chunks (message_slot slot q) o0 o1 o2 stores) (message_slot slot q) (Some v).
Proof using All.
intros Hs Hq Hl Hold Ht Hk. set (j := message_slot slot q) in *.
destruct (message_sealable _ _ _ _ 0 Hold) as (s0 & E0 & B0); [lia|].
destruct (message_sealable _ _ _ _ 1 Hold) as (s1 & E1 & B1); [lia|].
destruct (message_sealable _ _ _ _ 2 Hold) as (s2 & E2 & B2); [lia|].
destruct (seal_chunk_spec k s0 (chunk 0 (message_bytes v))) as (o0 & S0 & H0); [done|by apply message_chunks_storable; [|lia]|done|].
destruct (seal_chunk_spec k s1 (chunk 1 (message_bytes v))) as (o1 & S1 & H1); [done|by apply message_chunks_storable; [|lia]|done|].
destruct (seal_chunk_spec k s2 (chunk 2 (message_bytes v))) as (o2 & S2 & H2); [done|by apply message_chunks_storable; [|lia]|done|].
destruct (put_chunks_same j o0 o1 o2 stores Hl) as (L0 & L1 & L2).
exists o0, o1, o2. split.
- change all_chunks with [0%nat; 1%nat; 2%nat]. rewrite seal_chunks_cons. cbv zeta. rewrite !chunk_index_nat by done. fold j.
unfold chunk in S0, S1, S2. cbn [Nat.mul Nat.add] in S0, S1, S2. rewrite drop_0 in S0.
rewrite (store_at_lookup stores _ s0) by (rewrite chunk_index_nat by done; exact E0). rewrite S0. cbn [negb Z.eqb]. rewrite seal_chunks_cons. cbv zeta. rewrite !chunk_index_nat by done. fold j.
rewrite (store_at_lookup _ _ s1) by (rewrite chunk_index_nat by done; fold j; rewrite list_lookup_insert_ne by lia; exact E1).
rewrite S1. cbn [negb Z.eqb]. rewrite seal_chunks_cons. cbv zeta. rewrite !chunk_index_nat by done. fold j.
rewrite (store_at_lookup _ _ s2)
  by (rewrite chunk_index_nat by done; fold j; rewrite !list_lookup_insert_ne by lia; exact E2).
rewrite drop_drop. change (64 + 64)%nat with 128%nat. rewrite S2. cbn [negb Z.eqb]. unfold put_chunks. cbn [seal_chunks].
rewrite drop_drop, length_drop, length_message_bytes by done. done.
- split; [done|]. apply (case_chunk (λ c, ∃ store, _ !! (j * 3 + c)%nat = Some store ∧ chunk_holds k store (chunk c (message_bytes v))));
eauto.
Qed.

Lemma load_chunks_cons slot q c chunks remaining m (stores : list O) :
load_chunks slot q (c :: chunks) remaining m stores =
let index := chunk_index slot q c in
let expected := Nat.min remaining CRITICAL_OBJECT_MAX_PAYLOAD in
let '(result, object, bytes) := ps_read (store_at stores index) IPC_METADATA_VERSION expected message_chunk_valid in
let stores := <[Z.to_nat index := object]> stores in
if negb (critical_read_ok result) || negb (length bytes =? expected)%nat then (None, m, stores)
else
  let '(rest, m, stores) := load_chunks slot q chunks (remaining - expected) (note_integrity_result result m) stores in
  (match rest with None => None | Some rest => Some (bytes ++ rest) end, m, stores).
Proof using. done. Qed.

Lemma read_chunk k store bytes : chunk_holds k store bytes → (0 < length bytes <= 64)%nat →
∃ store', ps_read store IPC_METADATA_VERSION (length bytes) message_chunk_valid = (CRITICAL_READ_OK, store', bytes) ∧ chunk_holds k store' bytes.
Proof using All.
intros (n & Hn & Hh) Hl.
destruct (ps_read_holds store IPC_METADATA_VERSION n bytes (length bytes) message_chunk_valid) as (store' & -> & Hh'); [done|done| |done|].
- by apply message_chunk_valid_spec.
- exists store'. split; [done|]. by exists n.
Qed.

Lemma load_message_spec k (stores : list O) slot q v m :
0 <= slot → 0 <= q → (message_slot slot q * 3 + 2 < length stores)%nat → message_holds k stores (message_slot slot q) (Some v) →
∃ o0 o1 o2, load_chunks slot q all_chunks protected_message_size m stores =
  (Some (message_bytes v), m, put_chunks (message_slot slot q) o0 o1 o2 stores) ∧
message_holds k (put_chunks (message_slot slot q) o0 o1 o2 stores) (message_slot slot q) (Some v).
Proof using All.
intros Hs Hq Hl [Ht Hv]. set (j := message_slot slot q) in *.
destruct (Hv 0%nat) as (s0 & E0 & B0); [lia|]. destruct (Hv 1%nat) as (s1 & E1 & B1); [lia|].
destruct (Hv 2%nat) as (s2 & E2 & B2); [lia|].
destruct (chunks_of_message v Ht) as (N0 & N1 & N2 & Hcat & _).
destruct (read_chunk _ _ _ B0) as (o0 & S0 & H0); [lia|].
destruct (read_chunk _ _ _ B1) as (o1 & S1 & H1); [lia|].
destruct (read_chunk _ _ _ B2) as (o2 & S2 & H2); [lia|].
destruct (put_chunks_same j o0 o1 o2 stores Hl) as (L0 & L1 & L2).
exists o0, o1, o2. split.
- change all_chunks with [0%nat; 1%nat; 2%nat]. rewrite load_chunks_cons. cbv zeta. rewrite !chunk_index_nat by done. fold j.
change (Nat.min protected_message_size CRITICAL_OBJECT_MAX_PAYLOAD) with 64%nat. rewrite N0 in S0.
rewrite (store_at_lookup stores _ s0) by (rewrite chunk_index_nat by done; exact E0).
rewrite S0. rewrite N0. cbn [critical_read_ok critical_read_code Z.leb Z.compare negb orb Nat.eqb note_integrity_result].
rewrite load_chunks_cons. cbv zeta. rewrite !chunk_index_nat by done. fold j.
change (Nat.min (protected_message_size - 64) CRITICAL_OBJECT_MAX_PAYLOAD) with 64%nat. rewrite N1 in S1.
rewrite (store_at_lookup _ _ s1) by (rewrite chunk_index_nat by done; fold j; rewrite list_lookup_insert_ne by lia; exact E1).
rewrite S1, N1. cbn [critical_read_ok critical_read_code Z.leb Z.compare negb orb Nat.eqb note_integrity_result].
rewrite load_chunks_cons. cbv zeta. rewrite !chunk_index_nat by done. fold j.
change (Nat.min (protected_message_size - 64 - 64) CRITICAL_OBJECT_MAX_PAYLOAD) with 20%nat. rewrite N2 in S2.
rewrite (store_at_lookup _ _ s2)
  by (rewrite chunk_index_nat by done; fold j; rewrite !list_lookup_insert_ne by lia; exact E2).
rewrite S2, N2. cbn [critical_read_ok critical_read_code Z.leb Z.compare negb orb Nat.eqb note_integrity_result load_chunks].
change (protected_message_size - 64 - 64 - 20)%nat with 0%nat. cbn [Nat.eqb]. rewrite app_nil_r, Hcat. done.
- split; [done|]. apply (case_chunk (λ c, ∃ store, _ !! (j * 3 + c)%nat = Some store ∧ chunk_holds k store (chunk c (message_bytes v))));
eauto.
Qed.

(** ** Simulation *)
Lemma in_range_spec slot bound : in_range slot bound = true ↔ 0 <= slot < bound.
Proof using. unfold in_range. rewrite andb_true_iff, Z.leb_le, Z.ltb_lt. done. Qed.

Lemma aseal_inv {A} `{Layout A} (ok : A → bool) value next a z a' n : aseal ok value next a = Some (z, a', n) →
(ok value = false ∧ z = IPC_EINTEGRITY ∧ a' = a ∧ n = 0) ∨
(ok value = true ∧ typed_image value = true ∧ z = 0 ∧ a' = next ∧ n = 1).
Proof using.
unfold aseal. destruct (ok value); cbn [negb]; [|intros [= <- <- <-]; by left].
destruct (typed_image value); [|done]. intros [= <- <- <-]. by right.
Qed.

Lemma seal_refused {A} `{Layout A} (ok : A → bool) (stores : list O) slot v : ok v = false →
seal_value ok (store_at stores slot) v = (IPC_EINTEGRITY, store_at stores slot).
Proof using. intros Hv. unfold seal_value. by rewrite Hv. Qed.

Lemma store_at_id (stores : list O) slot : (Z.to_nat slot < length stores)%nat → <[Z.to_nat slot := store_at stores slot]> stores = stores.
Proof using.
intros Hl. apply list_insert_id. destruct (lookup_lt_is_Some_2 _ _ Hl) as [x E]. by rewrite (store_at_lookup _ _ _ E).
Qed.

Lemma represents_set_memory s a k m : represents s a k → represents (set_memory s m) (set_mem a m) k.
Proof using. intros [Hm He Hc Hb Hg Hr Hl]. by split. Qed.

Ltac in_bounds := repeat match goal with
  | E : in_range _ _ = true |- _ => apply in_range_spec in E
  | E : in_range _ _ && in_range _ _ = true |- _ => apply andb_true_iff in E as [? E]
  end.

(** A metadata store, loaded or sealed.  [rebuild] puts the array back. *)
Lemma load_endpoint_sim slot s a z a' n k : astep (LoadEndpoint slot) a = Some (z, a', n) → represents s a (k + n) →
∃ s', access_step (LoadEndpoint slot) s = (z, s') ∧ represents s' a' k.
Proof using All.
cbn [astep access_step]. intros E Hrep. destruct (in_range slot 16) eqn:Hin; [|done]. in_bounds.
destruct (r_endpoints a !! Z.to_nat slot) as [v|] eqn:Ev; [|done]. injection E as <- <- <-. rewrite Z.add_0_r in Hrep.
destruct Hrep as [Hm He Hc Hb Hg Hr Hl]. unfold load_endpoint_step.
destruct (read_sealed_spec _ _ _ _ _ _ (proj1 ipc_record_sizes) He Ev) as (store & -> & Hs').
eexists. split; [done|]. cbn [note_integrity_result]. rewrite Hm. by split.
Qed.

Lemma load_bulk_sim slot s a z a' n k : astep (LoadBulk slot) a = Some (z, a', n) → represents s a (k + n) →
∃ s', access_step (LoadBulk slot) s = (z, s') ∧ represents s' a' k.
Proof using All.
cbn [astep access_step]. intros E Hrep. destruct (in_range slot 16) eqn:Hin; [|done]. in_bounds.
destruct (r_bulk a !! Z.to_nat slot) as [v|] eqn:Ev; [|done]. injection E as <- <- <-. rewrite Z.add_0_r in Hrep.
destruct Hrep as [Hm He Hc Hb Hg Hr Hl]. unfold load_bulk_step.
destruct (read_sealed_spec _ _ _ _ _ _ (proj2 (proj2 ipc_record_sizes)) Hb Ev) as (store & -> & Hs').
cbn [note_integrity_result]. rewrite Hm. eexists. split; [done|]. by split.
Qed.

Lemma load_capability_sim slot s a z a' n k : astep (LoadCapability slot) a = Some (z, a', n) → represents s a (k + n) →
∃ s', access_step (LoadCapability slot) s = (z, s') ∧ represents s' a' k.
Proof using All.
cbn [astep access_step]. intros E Hrep. destruct (in_range slot 64) eqn:Hin; [|done]. in_bounds.
destruct (r_caps a !! Z.to_nat slot) as [v|] eqn:Ev; [|done]. injection E as <- <- <-. rewrite Z.add_0_r in Hrep.
destruct Hrep as [Hm He Hc Hb Hg Hr Hl]. unfold load_capability_step.
destruct (read_sealed_spec _ _ _ _ _ _ (proj1 (proj2 ipc_record_sizes)) Hc Ev) as (store & -> & Hs').
cbn [note_integrity_result]. rewrite Hm. eexists. split; [done|]. by split.
Qed.

Lemma seal_endpoint_sim slot s a z a' n k : 0 <= k → astep (SealEndpoint slot) a = Some (z, a', n) → represents s a (k + n) →
∃ s', access_step (SealEndpoint slot) s = (z, s') ∧ represents s' a' k.
Proof using All.
cbn [astep access_step]. intros Hk E Hrep. destruct (in_range slot 16) eqn:Hin; [|done]. cbn [negb] in E. in_bounds.
destruct Hrep as [Hm He Hc Hb Hg Hr Hl]. pose proof (Forall2_length He) as HlE. unfold seal_endpoint_step. rewrite Hm.
apply aseal_inv in E as [(Hok & -> & -> & ->)|(Hok & Ht & -> & -> & ->)].
- rewrite seal_refused by done. eexists. split; [done|]. rewrite store_at_id by lia. rewrite Z.add_0_r in *. by split.
- destruct (seal_value_spec _ k _ _ slot (endpoint_metadata (endpoint_at (r_mem a) slot)) (proj1 ipc_record_sizes) He) as (store & -> & Hs');
  [lia|done|by apply endpoint_image_typed|done|].
  eexists. split; [done|]. split; cbn; try done; [by eapply sealed_all_less; [|done]; lia..| |lia|by rewrite length_insert].
  intros j v Hv. eapply message_less; [|by apply Hg]. lia.
Qed.

Lemma seal_bulk_sim slot s a z a' n k : 0 <= k → astep (SealBulk slot) a = Some (z, a', n) → represents s a (k + n) →
∃ s', access_step (SealBulk slot) s = (z, s') ∧ represents s' a' k.
Proof using All.
cbn [astep access_step]. intros Hk E Hrep. destruct (in_range slot 16) eqn:Hin; [|done]. cbn [negb] in E. in_bounds.
destruct Hrep as [Hm He Hc Hb Hg Hr Hl]. pose proof (Forall2_length Hb) as HlE. unfold seal_bulk_step. rewrite Hm.
apply aseal_inv in E as [(Hok & -> & -> & ->)|(Hok & Ht & -> & -> & ->)].
- rewrite seal_refused by done. eexists. split; [done|]. rewrite store_at_id by lia. rewrite Z.add_0_r in *. by split.
- destruct (seal_value_spec _ k _ _ slot (bulk_metadata (endpoint_at (r_mem a) slot)) (proj2 (proj2 ipc_record_sizes)) Hb) as (store & -> & Hs');
  [lia|done|by apply bulk_image_typed|done|].
  eexists. split; [done|]. split; cbn; try done; [by eapply sealed_all_less; [|done]; lia..| |lia|by rewrite length_insert].
  intros j v Hv. eapply message_less; [|by apply Hg]. lia.
Qed.

Lemma seal_capability_sim slot s a z a' n k : 0 <= k → astep (SealCapability slot) a = Some (z, a', n) → represents s a (k + n) →
∃ s', access_step (SealCapability slot) s = (z, s') ∧ represents s' a' k.
Proof using All.
cbn [astep access_step]. intros Hk E Hrep. destruct (in_range slot 64) eqn:Hin; [|done]. cbn [negb] in E. in_bounds.
destruct Hrep as [Hm He Hc Hb Hg Hr Hl]. pose proof (Forall2_length Hc) as HlE. unfold seal_capability_step. rewrite Hm.
apply aseal_inv in E as [(Hok & -> & -> & ->)|(Hok & Ht & -> & -> & ->)].
- rewrite seal_refused by done. eexists. split; [done|]. rewrite store_at_id by lia. rewrite Z.add_0_r in *. by split.
- destruct (seal_value_spec _ k _ _ slot (capability_metadata (record_at (r_mem a) slot)) (proj1 (proj2 ipc_record_sizes)) Hc) as (store & -> & Hs');
  [lia|done|by apply capability_image_typed|done|].
  eexists. split; [done|]. split; cbn; try done; [by eapply sealed_all_less; [|done]; lia..| |lia|by rewrite length_insert].
  intros j v Hv. eapply message_less; [|by apply Hg]. lia.
Qed.

Lemma message_slot_bound slot q : 0 <= slot < 16 → 0 <= q < 4 → (message_slot slot q < 64)%nat.
Proof using. unfold message_slot. lia. Qed.

Lemma seal_message_sim slot q v s a z a' n k : 0 <= k → astep (SealMessage slot q v) a = Some (z, a', n) → represents s a (k + n) →
∃ s', access_step (SealMessage slot q v) s = (z, s') ∧ represents s' a' k.
Proof using All.
cbn [astep access_step]. intros Hk E Hrep. destruct (in_range slot 16 && in_range q 4 && message_typed v) eqn:Hin; [|done].
apply andb_true_iff in Hin as [Hin Ht]. in_bounds. injection E as <- <- <-.
destruct Hrep as [Hm He Hc Hb Hg Hr Hl]. pose proof (message_slot_bound slot q ltac:(lia) ltac:(lia)) as Hj.
destruct (lookup_lt_is_Some_2 (r_msgs a) (message_slot slot q)) as [old Hold]; [lia|].
destruct (seal_message_spec k (ipc_message_integrity s) slot q old v) as (o0 & o1 & o2 & Es & Hv);
  [lia|lia|lia|by apply Hg|done|lia|].
unfold seal_message_step. rewrite Es. eexists. split; [done|].
split; cbn; try done; [by eapply sealed_all_less; [|done]; lia..| |lia|by rewrite length_insert, length_put_chunks].
intros j w Hw. apply list_lookup_insert_Some in Hw as [(<- & <- & _)|[Hne Hw]]; [done|].
apply message_holds_other; [done|]. eapply message_less; [|by apply Hg]. lia.
Qed.

Lemma access_sim x s a z a' n k : 0 <= k → astep x a = Some (z, a', n) → represents s a (k + n) →
∃ s', access_step x s = (z, s') ∧ represents s' a' k.
Proof using All.
intros Hk E Hrep. destruct x; [eapply load_endpoint_sim|eapply seal_endpoint_sim|eapply load_bulk_sim|eapply seal_bulk_sim|
  eapply load_capability_sim|eapply seal_capability_sim|eapply seal_message_sim]; done.
Qed.

Lemma load_message_sim slot q s a v k : aload_message slot q a = Some v → represents s a k →
∃ s', load_message_step slot q s = (v, s') ∧ represents s' a k.
Proof using All.
unfold aload_message. intros E Hrep. destruct (in_range slot 16 && in_range q 4) eqn:Hin; [|done]. in_bounds.
destruct (r_msgs a !! message_slot slot q) as [[w|]|] eqn:Ew; [|done..]. injection E as <-.
destruct Hrep as [Hm He Hc Hb Hg Hr Hl]. pose proof (message_slot_bound slot q ltac:(lia) ltac:(lia)) as Hj.
pose proof (Hg _ _ Ew) as Hw. pose proof (proj1 Hw) as Ht.
destruct (load_message_spec k (ipc_message_integrity s) slot q w (memory s)) as (o0 & o1 & o2 & Es & Hv); [lia|lia|lia|done|].
unfold load_message_step. rewrite Es, message_of_message_bytes by done. eexists. split; [done|].
split; cbn; try done; [|by rewrite length_put_chunks].
intros j u Hu. destruct (decide (j = message_slot slot q)) as [->|Hne]; [congruence|]. by apply message_holds_other; [|apply Hg].
Qed.

Lemma astep_cost x a z a' n : astep x a = Some (z, a', n) → 0 <= n.
Proof using.
destruct x; cbn [astep].
- destruct (if in_range _ _ then _ else _); [|done]. by intros [= <- <- <-].
- destruct (negb _); [done|]. intros [(_ & _ & _ & ->)|(_ & _ & _ & _ & ->)]%aseal_inv; lia.
- destruct (if in_range _ _ then _ else _); [|done]. by intros [= <- <- <-].
- destruct (negb _); [done|]. intros [(_ & _ & _ & ->)|(_ & _ & _ & _ & ->)]%aseal_inv; lia.
- destruct (if in_range _ _ then _ else _); [|done]. by intros [= <- <- <-].
- destruct (negb _); [done|]. intros [(_ & _ & _ & ->)|(_ & _ & _ & _ & ->)]%aseal_inv; lia.
- destruct (_ && _); [|done]. intros [= <- <- <-]. lia.
Qed.

Lemma arun_cost {A} (p : prog A) a x a' n : arun p a = Some (x, a', n) → 0 <= n.
Proof using.
revert a n. induction p as [y|f IH|m p IH|acc f IH|slot q f IH]; cbn [arun]; intros a n.
- intros [= <- <- <-]. lia.
- apply IH.
- apply IH.
- destruct (astep acc a) as [[[z b] n1]|] eqn:E; [|done]. destruct (arun (f z) b) as [[[y b'] n2]|] eqn:E'; [|done].
  intros [= -> -> <-]. apply astep_cost in E. apply IH in E'. lia.
- destruct (aload_message slot q a); [|done]. apply IH.
Qed.

(** A locked region on intact stores does what [arun] says. *)
Lemma run_sim {A} (p : prog A) s a x a' n k : 0 <= k → arun p a = Some (x, a', n) → represents s a (k + n) →
∃ s', run p s = (x, s') ∧ represents s' a' k.
Proof using All.
revert s a n. induction p as [y|f IH|m p IH|acc f IH|slot q f IH]; cbn [arun run]; intros s a n Hk E Hrep.
- injection E as <- <- <-. rewrite Z.add_0_r in Hrep. eauto.
- rewrite (rep_memory _ _ _ Hrep). eauto.
- eapply IH; [done|done|]. by apply represents_set_memory.
- destruct (astep acc a) as [[[z b] n1]|] eqn:E1; [|done]. destruct (arun (f z) b) as [[[y b'] n2]|] eqn:E2; [|done].
  injection E as -> -> <-. pose proof (arun_cost _ _ _ _ _ E2) as Hn2. pose proof (astep_cost _ _ _ _ _ E1) as Hn1.
  destruct (access_sim acc s a z b n1 (k + n2)) as (s1 & -> & Hs1); [lia|done|by replace (k + n2 + n1) with (k + (n1 + n2)) by lia|].
  eapply IH; done.
- destruct (aload_message slot q a) as [v|] eqn:E1; [|done].
  destruct (load_message_sim _ _ _ _ _ _ E1 Hrep) as (s1 & -> & Hs1). eapply IH; done.
Qed.
End represents.

(** ** After [ipc_init] *)
Definition initial_mem (table : list Process) (calls : list scheduler_call) : mem :=
  Mem (replicate 16 zero_endpoint) (replicate 64 zero_record) table 0 false (Stats IPC_RESOURCE_STATS_VERSION stats_size 0 0 0 0 0 0 0) calls.

Definition initial_regs (table : list Process) (calls : list scheduler_call) : regs :=
  Regs (initial_mem table calls) (replicate 16 empty_endpoint) (replicate 64 empty_capability) (replicate 64 None) (replicate 16 empty_bulk).

Section initial.
Context {O : Type} `{ProtectedStoreLaws O} `{!BlankStore O} `{!BlankLaws O}.

Lemma init_object_sealed {A} `{LayoutLaws A} (ok : A → bool) (v : A) k :
(0 < sizeof A <= 64)%nat → ok v = true → well_typed v → k < UINT32_MAX → sealed_by ok k (init_object v : O) v.
Proof using All.
intros Hs Hok Ht Hk. unfold init_object.
destruct (ps_init_holds ps_zero IPC_METADATA_VERSION (encode v)) as (store' & -> & Hh); [done|done| |].
- split; [apply encode_bytes|]. by rewrite length_encode.
- exists 1. split; [cbn; lia|]. split; [done|]. by split.
Qed.

Lemma Forall2_replicate_both {A B} (P : A → B → Prop) n x y : P x y → Forall2 P (replicate n x) (replicate n y).
Proof using. intros Hp. induction n; simpl; by constructor. Qed.

Lemma ipc_init_represents (s : ipc_t O) k : 0 <= k < UINT32_MAX →
represents (ipc_init s) (initial_regs (processes (memory s)) (scheduler_calls (memory s))) k.
Proof using All.
intros Hk. split; try done.
- apply Forall2_replicate_both, init_object_sealed; [apply ipc_record_sizes|done|by apply endpoint_image_typed|lia].
- apply Forall2_replicate_both, init_object_sealed; [apply ipc_record_sizes|done|by apply capability_image_typed|lia].
- apply Forall2_replicate_both, init_object_sealed; [apply ipc_record_sizes|done|by apply bulk_image_typed|lia].
- intros j v Hj. cbn [r_msgs initial_regs] in Hj. apply lookup_replicate in Hj as [-> Hj]. intros c Hc.
  exists ps_zero. split; [|apply ps_blank_zero]. cbn [ipc_message_integrity ipc_init]. apply lookup_replicate. split; [done|lia].
Qed.
End initial.

(** ** Critical objects *)
Definition zero_copy : CriticalObject.critical_object_copy_t := CriticalObject.Copy (replicate CriticalObject.CRITICAL_OBJECT_WORDS 0) (replicate CriticalObject.CRITICAL_OBJECT_WORDS 0) 0.

#[export] Instance critical_blank : BlankStore CriticalObject.critical_object_t := {
  ps_zero := CriticalObject.Object 0 zero_copy zero_copy;
  ps_blank object := CriticalObject.copy_word (CriticalObject.primary object) CriticalObject.WORD_VERSION =? 0
}.

#[export] Instance critical_blank_laws : BlankLaws CriticalObject.critical_object_t.
Proof.
  split; [done|]. intros store version sequence payload (_ & state & _ & Hp & _) Hv. cbn. rewrite Hp, build_version.
  by apply Z.eqb_neq.
Qed.
