(* ===== verification/IpcPlain.v ===== *)
(** IPC without critical objects.

    [plain] is the reference meaning of a locked region: loads change nothing
    and succeed, seals succeed.  [agrees D c p m D'] says that on intact
    stores [p] does what [plain] says, in at most [c] publications; [D] and
    [D'] list the stores that are behind the memory before and after.
    [valid] is the invariant that keeps every seal acceptable. *)
From S2P Require Import Prelude ProtectedStore Layout ProtectedRecord Ipc IpcSpec.
Import Ipc.
Local Open Scope ipc_scope.

(** ** The reference *)
Definition stored (m : mem) (slot q : Z) : ipc_protected_message_t :=
  let e := endpoint_at m slot in
  ProtectedMessage (nth (Z.to_nat q) (messages e) zero_message) (nth (Z.to_nat q) (sender_pid e) 0)
    (nth (Z.to_nat q) (sender_generation e) 0).

Fixpoint plain {A} (p : prog A) (m : mem) : A * mem :=
  match p with
  | Ret a => (a, m)
  | Get k => plain (k m) m
  | Put m k => plain k m
  | Access a k => plain (k 0) m
  | LoadMessage slot q k => plain (k (0, stored m slot q)) m
  end.

Lemma plain_bind {A B} (p : prog A) (f : A → prog B) m : plain (bind p f) m = plain (f (plain p m).1) (plain p m).2.
Proof. revert m. induction p as [a|k IH|m' p IH|x k IH|slot q k IH]; intros m; cbn; auto. Qed.

Lemma arun_bind {A B} (p : prog A) (f : A → prog B) a :
  arun (bind p f) a =
  match arun p a with
  | None => None
  | Some (x, a, n) => match arun (f x) a with None => None | Some (y, a, n') => Some (y, a, n + n') end
  end.
Proof.
  revert a. induction p as [x|k IH|m' p IH|x k IH|slot q k IH]; intros a; cbn [bind arun].
  - destruct (arun (f x) a) as [[[y b] n]|]; done.
  - apply IH.
  - apply IH.
  - destruct (astep x a) as [[[z b] n]|]; [|done]. rewrite IH. destruct (arun (k z) b) as [[[y b'] n']|]; [|done].
    destruct (arun (f y) b') as [[[w b''] n'']|]; [|done]. by rewrite Z.add_assoc.
  - destruct (aload_message slot q a) as [v|]; [|done]. apply IH.
Qed.

(** ** Stores behind the memory *)
Inductive item := ItemE (slot : Z) | ItemB (slot : Z) | ItemC (index : Z) | ItemM (slot q : Z).
#[export] Instance item_eq_dec : EqDecision item.
Proof. solve_decision. Defined.

(** The queue index is in use. *)
Definition queued (e : ipc_endpoint_t) (q : Z) : Prop := ∃ offset, 0 <= offset < count e ∧ q = queue_index e offset.

Record shape (m : mem) : Prop := {
  sh_endpoints : length (ipc_endpoints m) = 16%nat;
  sh_records : length (ipc_capability_records m) = 64%nat;
  sh_slots i : is_u8 (endpoint_slot (record_at m i))
}.

Record synced (D : list item) (m : mem) (a : regs) : Prop := {
  sy_mem : r_mem a = m;
  sy_shape : shape m;
  sy_lengths : length (r_endpoints a) = 16%nat ∧ length (r_caps a) = 64%nat ∧ length (r_msgs a) = 64%nat ∧ length (r_bulk a) = 16%nat;
  sy_e i : 0 <= i < 16 → ItemE i ∉ D → r_endpoints a !! Z.to_nat i = Some (endpoint_metadata (endpoint_at m i));
  sy_b i : 0 <= i < 16 → ItemB i ∉ D → r_bulk a !! Z.to_nat i = Some (bulk_metadata (endpoint_at m i));
  sy_c i : 0 <= i < 64 → ItemC i ∉ D → r_caps a !! Z.to_nat i = Some (capability_metadata (record_at m i));
  sy_m slot q : 0 <= slot < 16 → 0 <= q < 4 → queued (endpoint_at m slot) q → ItemM slot q ∉ D →
    r_msgs a !! message_slot slot q = Some (Some (stored m slot q))
}.

(** [m'] differs from [m] in the items of [D] only. *)
Record changed (D : list item) (m m' : mem) : Prop := {
  ch_shape : shape m';
  ch_e i : 0 <= i < 16 → ItemE i ∉ D → endpoint_metadata (endpoint_at m' i) = endpoint_metadata (endpoint_at m i);
  ch_b i : 0 <= i < 16 → ItemB i ∉ D → bulk_metadata (endpoint_at m' i) = bulk_metadata (endpoint_at m i);
  ch_c i : 0 <= i < 64 → ItemC i ∉ D → record_at m' i = record_at m i;
  ch_m slot q : 0 <= slot < 16 → 0 <= q < 4 → queued (endpoint_at m' slot) q → ItemM slot q ∉ D →
    queued (endpoint_at m slot) q ∧ stored m' slot q = stored m slot q
}.

Lemma notin_subset (x : item) (D D' : list item) : D ⊆ D' → x ∉ D' → x ∉ D.
Proof. intros Hd Hx Hin. by apply Hx, Hd. Qed.
Lemma notin_sealed (x y : item) (D D' : list item) : D ⊆ y :: D' → x ∉ D' → x ≠ y → x ∉ D.
Proof. intros Hd Hx Hne Hin%Hd. rewrite elem_of_cons in Hin. by destruct Hin. Qed.
#[local] Hint Resolve notin_subset notin_sealed : core.

Lemma synced_less D D' m a : D ⊆ D' → synced D m a → synced D' m a.
Proof. intros Hd [? ? ? ? ? ? ?]. split; auto. Qed.

Lemma synced_changed D D' m m' a : synced D m a → changed D' m m' → D ⊆ D' → synced D' m' (set_mem a m').
Proof.
  intros [Hm Hs Hl He Hb Hc Hg] [Hs' He' Hb' Hc' Hg'] Hd. split; try done; cbn [r_mem r_endpoints r_bulk r_caps r_msgs set_mem].
  - intros i Hi Hn. rewrite He' by done. apply He; [done|]. eauto.
  - intros i Hi Hn. rewrite Hb' by done. apply Hb; [done|]. eauto.
  - intros i Hi Hn. rewrite Hc' by done. apply Hc; [done|]. eauto.
  - intros slot q H1 H2 H3 Hn. destruct (Hg' slot q H1 H2 H3 Hn) as [Hq ->]. apply Hg; try done. eauto.
Qed.

Definition agrees {A} (D : list item) (c : Z) (p : prog A) (m : mem) (D' : list item) : Prop :=
  ∀ a, synced D m a → ∃ a' n, arun p a = Some ((plain p m).1, a', n) ∧ n <= c ∧ synced D' (plain p m).2 a'.

Lemma agrees_more {A} D c c' (p : prog A) m D' : c <= c' → agrees D c p m D' → agrees D c' p m D'.
Proof. intros Hc Hp a Ha. destruct (Hp a Ha) as (a' & n & E & Hn & Ha'). exists a', n. split_and!; [done|lia|done]. Qed.

Lemma agrees_bind {A B} D D1 D2 c1 c2 (p : prog A) (f : A → prog B) m :
  agrees D c1 p m D1 → agrees D1 c2 (f (plain p m).1) (plain p m).2 D2 → agrees D (c1 + c2) (bind p f) m D2.
Proof.
  intros Hp Hf a Ha. destruct (Hp a Ha) as (a1 & n1 & E1 & Hn1 & Ha1). destruct (Hf a1 Ha1) as (a2 & n2 & E2 & Hn2 & Ha2).
  rewrite arun_bind, E1, E2, plain_bind. exists a2, (n1 + n2). split_and!; [done|lia|done].
Qed.

Lemma agrees_ret {A} D D' c (x : A) m : 0 <= c → D ⊆ D' → agrees D c (Ret x) m D'.
Proof. intros Hc Hd a Ha. exists a, 0. split_and!; [done|done|]. by eapply synced_less. Qed.

Lemma agrees_get {A} D c (k : mem → prog A) m D' : agrees D c (k m) m D' → agrees D c (Get k) m D'.
Proof. intros Hk a Ha. cbn [arun plain]. rewrite (sy_mem _ _ _ Ha). by apply Hk. Qed.

Lemma agrees_put {A} D D1 c m' (p : prog A) m D' :
  changed D1 m m' → D ⊆ D1 → agrees D1 c p m' D' → agrees D c (Put m' p) m D'.
Proof. intros Hc Hd Hp a Ha. cbn [arun plain]. apply Hp. by eapply synced_changed. Qed.

(** [shape] may be assumed. *)
Lemma agrees_shape {A} D c (p : prog A) m D' : (shape m → agrees D c p m D') → agrees D c p m D'.
Proof. intros Hp a Ha. apply Hp; [by apply Ha|done]. Qed.

Lemma endpoint_loaded_metadata e : endpoint_loaded e (endpoint_metadata e) = e.
Proof. destruct e as [[] [] [] ? ? ? ? ? ? ? ? ? [] ? ? ?]; done. Qed.
Lemma capability_loaded_metadata r : is_u8 (endpoint_slot r) → capability_loaded (capability_metadata r) = r.
Proof. intros Hr. destruct r as [[] ? ? ? ? ? ?]; unfold capability_loaded; cbn in *; by rewrite u8_small. Qed.
Lemma bulk_matches_metadata e : (bulk_active e = true → active e = true) → bulk_matches e (bulk_metadata e) = true.
Proof.
  intros Ha. unfold bulk_matches, bulk_metadata. destruct (bulk_active e) eqn:Eb; [|done]. cbn. rewrite Ha by done.
  rewrite !Z.eqb_refl. done.
Qed.

Lemma endpoint_lookup m slot : length (ipc_endpoints m) = 16%nat → 0 <= slot < 16 → ipc_endpoints m !! Z.to_nat slot = Some (endpoint_at m slot).
Proof.
  intros Hl Hs. destruct (lookup_lt_is_Some_2 (ipc_endpoints m) (Z.to_nat slot)) as [e He]; [lia|].
  unfold endpoint_at. by rewrite (nth_lookup_Some _ _ _ _ He).
Qed.
Lemma record_lookup m i : length (ipc_capability_records m) = 64%nat → 0 <= i < 64 →
  ipc_capability_records m !! Z.to_nat i = Some (record_at m i).
Proof.
  intros Hl Hs. destruct (lookup_lt_is_Some_2 (ipc_capability_records m) (Z.to_nat i)) as [e He]; [lia|].
  unfold record_at. by rewrite (nth_lookup_Some _ _ _ _ He).
Qed.
Lemma set_endpoint_id m slot : length (ipc_endpoints m) = 16%nat → 0 <= slot < 16 → set_endpoint m slot (endpoint_at m slot) = m.
Proof. intros. unfold set_endpoint. rewrite list_insert_id by (by apply endpoint_lookup). by destruct m. Qed.
Lemma set_record_id m i : length (ipc_capability_records m) = 64%nat → 0 <= i < 64 → set_record m i (record_at m i) = m.
Proof. intros. unfold set_record. rewrite list_insert_id by (by apply record_lookup). by destruct m. Qed.

(** ** Loads *)
Lemma agrees_load_endpoint {A} D c slot (k : Z → prog A) m D' :
  0 <= slot < 16 → ItemE slot ∉ D → agrees D c (k 0) m D' → agrees D c (Access (LoadEndpoint slot) k) m D'.
Proof.
  intros Hs Hn Hk a Ha. cbn [arun astep plain]. rewrite (proj2 (in_range_spec slot 16)) by done.
  rewrite (sy_e _ _ _ Ha), (sy_mem _ _ _ Ha) by done. rewrite endpoint_loaded_metadata, set_endpoint_id by (done || apply Ha).
  replace (set_mem a m) with a by (rewrite <- (sy_mem _ _ _ Ha); by destruct a).
  destruct (Hk a Ha) as (a' & n & -> & Hc & Ha'). exists a', n. done.
Qed.

Lemma agrees_load_bulk {A} D c slot (k : Z → prog A) m D' :
  0 <= slot < 16 → ItemB slot ∉ D → (bulk_active (endpoint_at m slot) = true → active (endpoint_at m slot) = true) →
  agrees D c (k 0) m D' → agrees D c (Access (LoadBulk slot) k) m D'.
Proof.
  intros Hs Hn Hb Hk a Ha. cbn [arun astep plain]. rewrite (proj2 (in_range_spec slot 16)) by done.
  rewrite (sy_b _ _ _ Ha), (sy_mem _ _ _ Ha) by done. rewrite bulk_matches_metadata by done.
  destruct (Hk a Ha) as (a' & n & -> & Hc & Ha'). exists a', n. done.
Qed.

Lemma agrees_load_capability {A} D c i (k : Z → prog A) m D' :
  0 <= i < 64 → ItemC i ∉ D → agrees D c (k 0) m D' → agrees D c (Access (LoadCapability i) k) m D'.
Proof.
  intros Hs Hn Hk a Ha. cbn [arun astep plain]. rewrite (proj2 (in_range_spec i 64)) by done. pose proof (sy_shape _ _ _ Ha) as Hsh.
  rewrite (sy_c _ _ _ Ha), (sy_mem _ _ _ Ha) by done. rewrite capability_loaded_metadata, set_record_id by (done || apply Hsh).
  replace (set_mem a m) with a by (rewrite <- (sy_mem _ _ _ Ha); by destruct a).
  destruct (Hk a Ha) as (a' & n & -> & Hc & Ha'). exists a', n. done.
Qed.

Lemma agrees_load_message {A} D c slot q (k : Z * ipc_protected_message_t → prog A) m D' :
  0 <= slot < 16 → 0 <= q < 4 → queued (endpoint_at m slot) q → ItemM slot q ∉ D → protected_message_ok (stored m slot q) = true →
  agrees D c (k (0, stored m slot q)) m D' → agrees D c (LoadMessage slot q k) m D'.
Proof.
  intros Hs Hq Hu Hn Hok Hk a Ha. cbn [arun plain]. unfold aload_message. rewrite !(proj2 (in_range_spec _ _)) by done. cbn [andb].
  rewrite (sy_m _ _ _ Ha), Hok by done. by apply Hk.
Qed.

(** ** Seals *)
Lemma lookup_insert_item {T} (l : list T) (n : nat) (bound : Z) (x : T) (f : Z → T) (slot : Z) (clean : Z → Prop) :
  length l = n → Z.of_nat n = bound → (∀ i, 0 <= i < bound → i ≠ slot → clean i → l !! Z.to_nat i = Some (f i)) →
  0 <= slot < bound → f slot = x → ∀ i, 0 <= i < bound → (i = slot ∨ clean i) → <[Z.to_nat slot := x]> l !! Z.to_nat i = Some (f i).
Proof.
  intros Hl Hb Hf Hs <- i Hi Hc. destruct (decide (i = slot)) as [->|Hne].
  - apply list_lookup_insert_eq. lia.
  - rewrite list_lookup_insert_ne by lia. apply Hf; [done|done|]. by destruct Hc.
Qed.

Lemma agrees_seal_endpoint {A} D D1 c slot (k : Z → prog A) m D' :
  0 <= slot < 16 → endpoint_metadata_ok (endpoint_metadata (endpoint_at m slot)) = true →
  typed_image (endpoint_metadata (endpoint_at m slot)) = true → D ⊆ ItemE slot :: D1 →
  agrees D1 c (k 0) m D' → agrees D (c + 1) (Access (SealEndpoint slot) k) m D'.
Proof.
  intros Hs Hok Ht Hd Hk a Ha. cbn [arun astep plain]. rewrite (proj2 (in_range_spec slot 16)), (sy_mem _ _ _ Ha) by done.
  unfold aseal. rewrite Hok, Ht. cbn [negb].
  destruct (Hk (Regs m (<[Z.to_nat slot:=endpoint_metadata (endpoint_at m slot)]> (r_endpoints a)) (r_caps a) (r_msgs a) (r_bulk a)))
    as (a' & n & -> & Hc & Ha').
  - destruct Ha as [Hm Hsh Hl He Hb Hc Hg]. split; try done; cbn; rewrite ?length_insert; try done; [|intros; eauto..].
    intros i Hi Hn. apply (lookup_insert_item (r_endpoints a) 16 16 _ (λ i, endpoint_metadata (endpoint_at m i)) slot (λ i, ItemE i ∉ D));
      try done; [by destruct Hl|auto|].
    destruct (decide (i = slot)); [by left|right]. eapply notin_sealed; [done..|congruence].
  - exists a', (1 + n). split_and!; [done|lia|done].
Qed.

Lemma agrees_seal_bulk {A} D D1 c slot (k : Z → prog A) m D' :
  0 <= slot < 16 → bulk_metadata_ok (bulk_metadata (endpoint_at m slot)) = true →
  typed_image (bulk_metadata (endpoint_at m slot)) = true → D ⊆ ItemB slot :: D1 →
  agrees D1 c (k 0) m D' → agrees D (c + 1) (Access (SealBulk slot) k) m D'.
Proof.
  intros Hs Hok Ht Hd Hk a Ha. cbn [arun astep plain]. rewrite (proj2 (in_range_spec slot 16)), (sy_mem _ _ _ Ha) by done.
  unfold aseal. rewrite Hok, Ht. cbn [negb].
  destruct (Hk (Regs m (r_endpoints a) (r_caps a) (r_msgs a) (<[Z.to_nat slot:=bulk_metadata (endpoint_at m slot)]> (r_bulk a))))
    as (a' & n & -> & Hc & Ha').
  - destruct Ha as [Hm Hsh Hl He Hb Hc Hg]. split; try done; cbn; rewrite ?length_insert; try done; [intros; eauto| |intros; eauto..].
    intros i Hi Hn. apply (lookup_insert_item (r_bulk a) 16 16 _ (λ i, bulk_metadata (endpoint_at m i)) slot (λ i, ItemB i ∉ D));
      try done; [by destruct Hl as (_ & _ & _ & ?)|auto|].
    destruct (decide (i = slot)); [by left|right]. eapply notin_sealed; [done..|congruence].
  - exists a', (1 + n). split_and!; [done|lia|done].
Qed.

Lemma agrees_seal_capability {A} D D1 c i (k : Z → prog A) m D' :
  0 <= i < 64 → capability_metadata_ok (capability_metadata (record_at m i)) = true →
  typed_image (capability_metadata (record_at m i)) = true → D ⊆ ItemC i :: D1 →
  agrees D1 c (k 0) m D' → agrees D (c + 1) (Access (SealCapability i) k) m D'.
Proof.
  intros Hs Hok Ht Hd Hk a Ha. cbn [arun astep plain]. rewrite (proj2 (in_range_spec i 64)), (sy_mem _ _ _ Ha) by done.
  unfold aseal. rewrite Hok, Ht. cbn [negb].
  destruct (Hk (Regs m (r_endpoints a) (<[Z.to_nat i:=capability_metadata (record_at m i)]> (r_caps a)) (r_msgs a) (r_bulk a)))
    as (a' & n & -> & Hc & Ha').
  - destruct Ha as [Hm Hsh Hl He Hb Hc Hg]. split; try done; cbn; rewrite ?length_insert; try done; [intros; eauto|intros; eauto| |intros; eauto].
    intros j Hj Hn. apply (lookup_insert_item (r_caps a) 64 64 _ (λ i, capability_metadata (record_at m i)) i (λ i, ItemC i ∉ D));
      try done; [by destruct Hl as (_ & ? & _)|auto|].
    destruct (decide (j = i)); [by left|right]. eapply notin_sealed; [done..|congruence].
  - exists a', (1 + n). split_and!; [done|lia|done].
Qed.

Lemma message_slot_inj slot q slot' q' : 0 <= slot → 0 <= slot' → 0 <= q < 4 → 0 <= q' < 4 →
  message_slot slot q = message_slot slot' q' → slot = slot' ∧ q = q'.
Proof. unfold message_slot. lia. Qed.

Lemma agrees_seal_message {A} D D1 c slot q v (k : Z → prog A) m D' :
  0 <= slot < 16 → 0 <= q < 4 → v = stored m slot q → message_typed v = true → D ⊆ ItemM slot q :: D1 →
  agrees D1 c (k 0) m D' → agrees D (c + 1) (Access (SealMessage slot q v) k) m D'.
Proof.
  intros Hs Hq -> Ht Hd Hk a Ha. cbn [arun astep plain]. rewrite !(proj2 (in_range_spec _ _)), Ht, (sy_mem _ _ _ Ha) by done. cbn [andb].
  destruct (Hk (Regs m (r_endpoints a) (r_caps a) (<[message_slot slot q := Some (stored m slot q)]> (r_msgs a)) (r_bulk a)))
    as (a' & n & -> & Hc & Ha').
  - destruct Ha as [Hm Hsh Hl He Hb Hc Hg]. split; try done; cbn; rewrite ?length_insert; try done; [intros; eauto..|].
    intros s' q' H1 H2 H3 Hn. pose proof (message_slot_bound slot q Hs Hq).
    destruct (decide (message_slot slot q = message_slot s' q')) as [E|Hne].
    + destruct (message_slot_inj slot q s' q' (proj1 Hs) (proj1 H1) Hq H2 E) as [-> ->]. rewrite list_lookup_insert_eq; [done|]. destruct Hl as (_ & _ & Hlm & _). rewrite Hlm. lia.
    + rewrite list_lookup_insert_ne by done. apply Hg; try done. intros Hin. apply Hd in Hin. rewrite elem_of_cons in Hin.
      destruct Hin as [[= -> ->]|Hin]; [by destruct Hne|]. by apply Hn.
  - exists a', (1 + n). split_and!; [done|lia|done].
Qed.
