(* ===== verification/IpcHelpers.v ===== *)
(** The helpers of the IPC, on the reference.

    The invariant [valid], the equations of the helper functions under
    [plain], and that they agree with their protected versions. *)
From S2P Require Import Prelude ProtectedStore Crc32 Layout ProtectedRecord Ipc IpcSpec IpcPlain.
Import Ipc.
Local Open Scope ipc_scope.

(** ** Validity *)
(** A process identity as the metadata checks demand it. *)
Record identity_ok (p g : Z) : Prop := {
  id_pid : is_u32 p;
  id_positive : 0 < s32 p;
  id_generation : is_u32 g;
  id_nonzero : g ≠ 0
}.

Definition slot_message (e : ipc_endpoint_t) (q : Z) : ipc_protected_message_t :=
  ProtectedMessage (nth (Z.to_nat q) (messages e) zero_message) (nth (Z.to_nat q) (sender_pid e) 0)
    (nth (Z.to_nat q) (sender_generation e) 0).

Definition message_ok (v : ipc_protected_message_t) : Prop := message_typed v = true ∧ protected_message_ok v = true.

Record bulk_ok (msg : ipc_bulk_message_t) : Prop := {
  bo_version : b_version msg = IPC_BULK_MESSAGE_VERSION;
  bo_size : b_struct_size msg = bulk_message_size;
  bo_length : 0 <= b_length msg <= IPC_BULK_MAX_MESSAGE_SIZE;
  bo_payload : Forall is_u8 (b_payload msg)
}.

Record valid_endpoint (e : ipc_endpoint_t) : Prop := {
  ve_generation : 0 <= generation e <= IPC_HANDLE_GENERATION_MAX;
  ve_owner : is_u32 (owner_pid e) ∧ is_u32 (owner_generation e);
  ve_peers : 0 <= peer_capabilities e <= 1;
  ve_queue : 0 <= head e < 4 ∧ 0 <= count e <= 4;
  ve_arrays : length (messages e) = 4%nat ∧ length (sender_pid e) = 4%nat ∧ length (sender_generation e) = 4%nat;
  ve_active : active e = true → generation e ≠ 0 ∧ identity_ok (owner_pid e) (owner_generation e);
  ve_inactive : active e = false → bulk_active e = false ∧ count e = 0 ∧ peer_capabilities e = 0;
  ve_messages q : 0 <= q < 4 → queued e q → message_ok (slot_message e q);
  ve_bulk : bulk_active e = true → bulk_ok (bulk_message e) ∧ identity_ok (bulk_sender_pid e) (bulk_sender_generation e)
}.

Record valid_record (r : ipc_capability_record_t) : Prop := {
  vr_inactive : r_active r = false → r = zero_record;
  vr_slot : 0 <= endpoint_slot r < 16;
  vr_active : r_active r = true → is_u32 (r_handle r) ∧ r_handle r ≠ 0 ∧ is_u32 (holder r) ∧ holder r ≠ 0 ∧
    identity_ok (holder_pid r) (holder_generation r) ∧ 0 < rights r < 8
}.

(** The process table belongs to another component; a running process has an
    identity and eight entries. *)
Record valid_process (p : Process) : Prop := {
  vp_running : is_running p = true → identity_ok (pid p) (p_generation p);
  vp_entries : length (ipc_capabilities p) = IPC_MAX_CAPABILITIES_PER_PROCESS
}.

Record valid (m : mem) : Prop := {
  v_endpoints : length (ipc_endpoints m) = 16%nat ∧ Forall valid_endpoint (ipc_endpoints m);
  v_records : length (ipc_capability_records m) = 64%nat ∧ Forall valid_record (ipc_capability_records m);
  v_table : Z.of_nat (length (processes m)) < UINT32_MAX ∧ Forall valid_process (processes m)
}.

Lemma queued_zero e q : count e = 0 → ¬ queued e q.
Proof. intros Hc (offset & Ho & _). lia. Qed.

Lemma valid_zero_endpoint : valid_endpoint zero_endpoint.
Proof. split; cbn; unfold IPC_HANDLE_GENERATION_MAX; try done; try lia; try ulia. intros q _ Hq. by apply queued_zero in Hq. Qed.
Lemma valid_zero_record : valid_record zero_record.
Proof. split; cbn; try done. Qed.
#[export] Hint Resolve valid_zero_endpoint valid_zero_record : core.

Lemma valid_at m i : valid m → valid_endpoint (endpoint_at m i).
Proof.
  intros [[_ He] _ _]. unfold endpoint_at. destruct (nth_in_or_default (Z.to_nat i) (ipc_endpoints m) zero_endpoint) as [Hin| ->]; [|done].
  rewrite list.Forall_forall in He. apply He. by apply list_elem_of_In.
Qed.
Lemma valid_record_at m i : valid m → valid_record (record_at m i).
Proof.
  intros [_ [_ Hr] _]. unfold record_at.
  destruct (nth_in_or_default (Z.to_nat i) (ipc_capability_records m) zero_record) as [Hin| ->]; [|done].
  rewrite list.Forall_forall in Hr. apply Hr. by apply list_elem_of_In.
Qed.

Lemma valid_shape m : valid m → shape m.
Proof.
  intros Hv. split; [apply Hv|apply Hv|]. intros i. pose proof (vr_slot _ (valid_record_at m i Hv)). unfold is_u8. lia.
Qed.
#[export] Hint Resolve valid_shape valid_at valid_record_at : core.

Lemma u32_word x : is_u32 x → word x = true.
Proof. apply word_spec. Qed.
Lemma b2u_word b : word (b2u b) = true.
Proof. by destruct b. Qed.

Lemma endpoint_seals e : valid_endpoint e →
  endpoint_metadata_ok (endpoint_metadata e) = true ∧ typed_image (endpoint_metadata e) = true.
Proof.
  intros [Hg [Ho Ho'] Hp [Hh Hc] _ Ha Hi _ _]. unfold IPC_HANDLE_GENERATION_MAX in *. split.
  - unfold endpoint_metadata_ok, endpoint_metadata. cbn.
    assert (E : ∀ b, (1 <? b2u b) = false) by (by intros []). rewrite !E.
    unfold IPC_HANDLE_GENERATION_MAX, IPC_MAX_CAPABILITY_RECORDS, IPC_QUEUE_DEPTH.
    rewrite (proj2 (Z.ltb_ge 16777215 _)), (proj2 (Z.ltb_ge 64 _)), (proj2 (Z.leb_gt 4 _)), (proj2 (Z.ltb_ge 4 _)) by lia. cbn [orb].
    destruct (active e); cbn [b2u Z.eqb].
    + destruct Ha as [Hg0 [? ? ? ?]]; [done|]. rewrite (proj2 (Z.eqb_neq _ _)), (proj2 (Z.ltb_lt _ _)), (proj2 (Z.eqb_neq _ _)) by done. done.
    + destruct Hi as (-> & _); done.
  - unfold typed_image. cbn. rewrite !b2u_word, !u32_word by (try done; ulia). done.
Qed.

Lemma record_seals r : valid_record r → capability_metadata_ok (capability_metadata r) = true ∧ typed_image (capability_metadata r) = true.
Proof.
  intros [Hi Hs Ha]. destruct (r_active r) eqn:E; [|by rewrite (Hi eq_refl)].
  destruct (Ha eq_refl) as (Hh & Hh0 & Hp & Hp0 & [? ? ? ?] & Hr). split.
  - unfold capability_metadata_ok, capability_metadata. rewrite E. cbn. unfold IPC_INVALID_HANDLE, IPC_MAX_ENDPOINTS.
    rewrite !(proj2 (Z.eqb_neq _ 0)), !(proj2 (Z.ltb_lt _ _)) by (done || lia). cbn [negb andb].
    assert (Hc : rights r = 1 ∨ rights r = 2 ∨ rights r = 3 ∨ rights r = 4 ∨ rights r = 5 ∨ rights r = 6 ∨ rights r = 7) by lia.
    by destruct Hc as [->|[->|[->|[->|[->|[->| ->]]]]]].
  - unfold typed_image. cbn. rewrite b2u_word, !u32_word by (try done; ulia). done.
Qed.

Lemma bulk_crc32_u32 g msg p h : Forall is_u8 (b_payload msg) → is_u32 (bulk_crc32 g msg p h).
Proof.
  intros Hb. unfold bulk_crc32. apply lxor_u32; [|done]. apply crc32_update_u32; [|by apply Forall_take].
  apply crc32_update_u32; [done|]. cbn [fmap list_fmap concat].
  repeat (apply Forall_app_2; [apply le_bytes_range|]). done.
Qed.

Lemma bulk_seals e : valid_endpoint e → bulk_metadata_ok (bulk_metadata e) = true ∧ typed_image (bulk_metadata e) = true.
Proof.
  intros [Hg _ _ _ _ Ha Hi _ Hb]. unfold bulk_metadata. destruct (bulk_active e) eqn:E; [|done].
  destruct (Hb eq_refl) as [[Hv Hs Hl Hp] [? ? ? ?]]. destruct (active e) eqn:Ea; [|by destruct (Hi eq_refl) as [? _]].
  destruct (Ha eq_refl) as [Hg0 _]. unfold IPC_HANDLE_GENERATION_MAX, IPC_BULK_MAX_MESSAGE_SIZE in *. split.
  - unfold bulk_metadata_ok. cbn. rewrite Hv, Hs. unfold IPC_BULK_MAX_MESSAGE_SIZE.
    rewrite !(proj2 (Z.eqb_neq _ 0)), (proj2 (Z.leb_le _ _)), (proj2 (Z.ltb_lt _ _)) by (done || lia). done.
  - unfold typed_image. cbn. pose proof (bulk_crc32_u32 (generation e) (bulk_message e) (bulk_sender_pid e) (bulk_sender_generation e) Hp).
    rewrite Hv, Hs. rewrite !u32_word by (try done; ulia). done.
Qed.

Lemma valid_bulk_active e : valid_endpoint e → bulk_active e = true → active e = true.
Proof. intros Hv Hb. destruct (active e) eqn:Ha; [done|]. destruct (ve_inactive _ Hv Ha) as [? _]. congruence. Qed.
#[export] Hint Resolve valid_bulk_active : core.

(** ** Lookups after writes *)
Lemma endpoint_at_set m slot e i : length (ipc_endpoints m) = 16%nat → 0 <= slot < 16 → 0 <= i →
  endpoint_at (set_endpoint m slot e) i = if i =? slot then e else endpoint_at m i.
Proof.
  intros Hl Hs Hi. unfold endpoint_at, set_endpoint. cbn [ipc_endpoints set_endpoints]. destruct (Z.eqb_spec i slot) as [->|Hne].
  - apply nth_lookup_Some, list_lookup_insert_eq. lia.
  - rewrite !nth_lookup, list_lookup_insert_ne by lia. done.
Qed.
Lemma record_at_set m slot r i : length (ipc_capability_records m) = 64%nat → 0 <= slot < 64 → 0 <= i →
  record_at (set_record m slot r) i = if i =? slot then r else record_at m i.
Proof.
  intros Hl Hs Hi. unfold record_at, set_record. cbn [ipc_capability_records]. destruct (Z.eqb_spec i slot) as [->|Hne].
  - apply nth_lookup_Some, list_lookup_insert_eq. lia.
  - rewrite !nth_lookup, list_lookup_insert_ne by lia. done.
Qed.
Lemma endpoint_at_same m slot e : length (ipc_endpoints m) = 16%nat → 0 <= slot < 16 → endpoint_at (set_endpoint m slot e) slot = e.
Proof. intros. rewrite endpoint_at_set, Z.eqb_refl by lia. done. Qed.

Lemma valid_set_endpoint m slot e : valid m → valid_endpoint e → valid (set_endpoint m slot e).
Proof. intros [[Hl He] Hr Ht] Hv. split; [|done..]. cbn. rewrite length_insert. split; [done|]. by apply Forall_insert. Qed.
Lemma valid_set_record m slot r : valid m → valid_record r → valid (set_record m slot r).
Proof. intros [He [Hl Hr] Ht] Hv. split; [done| |done]. cbn. rewrite length_insert. split; [done|]. by apply Forall_insert. Qed.
Lemma valid_set_process m pointer p : valid m → valid_process p → valid (set_process m pointer p).
Proof. intros [He Hr [Hl Ht]] Hv. split; [done..|]. cbn. rewrite length_insert. split; [done|]. by apply Forall_insert. Qed.
(** Statistics, flags and calls do not matter. *)
Lemma valid_other m m' : ipc_endpoints m' = ipc_endpoints m → ipc_capability_records m' = ipc_capability_records m → processes m' = processes m →
  valid m → valid m'.
Proof. intros E1 E2 E3 [? ? ?]. split; by rewrite ?E1, ?E2, ?E3. Qed.

Lemma process_at_valid m pointer p : valid m → process_at m pointer = Some p →
  valid_process p ∧ pointer ≠ 0 ∧ is_u32 pointer.
Proof.
  intros Hv Hp. unfold process_at in Hp. destruct (Z.leb_spec pointer 0) as [|Hp0]; [done|].
  pose proof (lookup_lt_Some _ _ _ Hp). pose proof (v_table _ Hv) as [Hl Ht]. split_and!; [|lia|ulia].
  rewrite list.Forall_lookup in Ht. by eapply Ht.
Qed.

(** ** What a write changes *)
Lemma changed_refl D m : shape m → changed D m m.
Proof. by intros. Qed.
Lemma changed_other m m' : ipc_endpoints m' = ipc_endpoints m → ipc_capability_records m' = ipc_capability_records m → shape m → changed [] m m'.
Proof.
  intros E1 E2 [H1 H2 H3]. assert (Ee : ∀ i, endpoint_at m' i = endpoint_at m i) by (intros; unfold endpoint_at; by rewrite E1).
  assert (Er : ∀ i, record_at m' i = record_at m i) by (intros; unfold record_at; by rewrite E2).
  split; [|intros; by rewrite ?Ee, ?Er..|].
  - split; [by rewrite E1|by rewrite E2|]. intros i. by rewrite Er.
  - intros slot q _ _ Hq _. rewrite Ee in Hq. split; [done|]. unfold stored. by rewrite Ee.
Qed.
Lemma changed_set_record D m i r : shape m → 0 <= i < 64 → ItemC i ∈ D → is_u8 (endpoint_slot r) → changed D m (set_record m i r).
Proof.
  intros [H1 H2 H3] Hi Hd Hr. split; try done.
  - split; [done|cbn; by rewrite length_insert|]. intros j. unfold record_at, set_record. cbn [ipc_capability_records].
    rewrite nth_lookup. destruct (<[_:=_]> _ !! _) as [x|] eqn:E; [|done]. cbn.
    apply list_lookup_insert_Some in E as [(_ & <- & _)|[_ E]]; [done|]. specialize (H3 j). unfold record_at in H3.
    by rewrite (nth_lookup_Some _ _ _ _ E) in H3.
  - intros j Hj Hn. rewrite record_at_set by (done || lia). destruct (Z.eqb_spec j i) as [->|]; [|done]. by destruct Hn.
Qed.
Lemma changed_set_endpoint D m slot e' : shape m → 0 <= slot < 16 →
  (ItemE slot ∈ D ∨ endpoint_metadata e' = endpoint_metadata (endpoint_at m slot)) →
  (ItemB slot ∈ D ∨ bulk_metadata e' = bulk_metadata (endpoint_at m slot)) →
  (∀ q, 0 <= q < 4 → queued e' q → ItemM slot q ∈ D ∨ (queued (endpoint_at m slot) q ∧ slot_message e' q = slot_message (endpoint_at m slot) q)) →
  changed D m (set_endpoint m slot e').
Proof.
  intros [H1 H2 H3] Hs He Hb Hm.
  assert (Ha : ∀ i, 0 <= i < 16 → endpoint_at (set_endpoint m slot e') i = if i =? slot then e' else endpoint_at m i)
    by (intros; apply endpoint_at_set; [done|done|lia]).
  split.
  - split; [cbn; by rewrite length_insert|done|done].
  - intros i Hi Hn. rewrite Ha by done. destruct (Z.eqb_spec i slot) as [->|]; [|done]. by destruct He.
  - intros i Hi Hn. rewrite Ha by done. destruct (Z.eqb_spec i slot) as [->|]; [|done]. by destruct Hb.
  - done.
  - intros s q Hss Hq Hu Hn. unfold stored. rewrite Ha in * by done. destruct (Z.eqb_spec s slot) as [->|]; [|done].
    destruct (Hm q Hq Hu) as [|[? ?]]; done.
Qed.
Lemma changed_trans D m m' m'' : changed D m m' → changed D m' m'' → changed D m m''.
Proof.
  intros [H1 H2 H3 H4 H5] [G1 G2 G3 G4 G5]. split; [done|..].
  - intros i Hi Hn. by rewrite G2, H2.
  - intros i Hi Hn. by rewrite G3, H3.
  - intros i Hi Hn. by rewrite G4, H4.
  - intros slot q Hs Hq Hu Hn. destruct (G5 slot q Hs Hq Hu Hn) as [Hu' ->]. by apply H5.
Qed.
Lemma changed_more D D' m m' : D ⊆ D' → changed D m m' → changed D' m m'.
Proof. intros Hd [? ? ? ? ?]. split; eauto using notin_subset. Qed.

(** Writes with no store in between. *)
Lemma agrees_put_get {A} D c m' (k : mem → prog A) m D' : agrees D c (Put m' (k m')) m D' → agrees D c (Put m' (Get k)) m D'.
Proof. done. Qed.
Lemma agrees_put_put {A} D c m1 m2 (p : prog A) m D' : agrees D c (Put m2 p) m D' → agrees D c (Put m1 (Put m2 p)) m D'.
Proof. done. Qed.

(** A write that touches no sealed part. *)
Lemma agrees_put_other {A} D c m' (p : prog A) m D' :
  ipc_endpoints m' = ipc_endpoints m → ipc_capability_records m' = ipc_capability_records m →
  agrees D c p m' D' → agrees D c (Put m' p) m D'.
Proof.
  intros H1 H2 Hp. apply agrees_shape. intros Hs. eapply agrees_put; [|reflexivity|exact Hp].
  eapply changed_more; [|by apply changed_other]. intros x Hx. by apply elem_of_nil in Hx.
Qed.

(** ** Looking for records *)
Definition unused (m : mem) (i : Z) : bool := negb (r_active (record_at m i)).
Definition held (m : mem) (p : Process) (handle i : Z) : bool :=
  let r := record_at m i in
  r_active r && (r_handle r =? handle) && (holder_pid r =? pid p) && (holder_generation r =? p_generation p).
Definition free_record (m : mem) : Z := default (-1) (List.find (unused m) capability_slots).
Definition record_of (m : mem) (p : Process) (handle : Z) : option Z := List.find (held m p handle) capability_slots.

Definition no_records (D : list item) : Prop := ∀ i, ItemC i ∉ D.
Lemma no_records_nil : no_records [].
Proof. intros i Hi. by apply elem_of_nil in Hi. Qed.
#[export] Hint Resolve no_records_nil : core.

Lemma capability_slots_range i : In i capability_slots → 0 <= i < 64.
Proof. unfold capability_slots. intros (j & <- & Hj)%in_map_iff. apply in_seq in Hj. lia. Qed.
Lemma endpoint_slots_range i : In i endpoint_slots → 0 <= i < 16.
Proof. unfold endpoint_slots. intros (j & <- & Hj)%in_map_iff. apply in_seq in Hj. lia. Qed.
Lemma capability_slots_all i : 0 <= i < 64 → In i capability_slots.
Proof. intros Hi. unfold capability_slots. apply in_map_iff. exists (Z.to_nat i). split; [lia|]. apply in_seq. lia. Qed.
Lemma endpoint_slots_all i : 0 <= i < 16 → In i endpoint_slots.
Proof. intros Hi. unfold endpoint_slots. apply in_map_iff. exists (Z.to_nat i). split; [lia|]. apply in_seq. lia. Qed.

Lemma length_slots : length capability_slots = 64%nat ∧ length endpoint_slots = 16%nat.
Proof. done. Qed.
(** Nothing depends on the lists themselves. *)
#[global] Opaque capability_slots endpoint_slots.

Lemma plain_free_record_loop slots m : plain (free_record_loop slots) m = (default (-1) (List.find (unused m) slots), m).
Proof.
  induction slots as [|i slots IH]; [done|]. cbn. change (record_at m i) with (record_at m i). unfold unused at 1.
  destruct (negb (r_active (record_at m i))); [done|apply IH].
Qed.
Lemma plain_free_record m : plain free_capability_record m = (free_record m, m).
Proof. apply plain_free_record_loop. Qed.
Lemma agrees_free_record D m : no_records D → agrees D 0 free_capability_record m D.
Proof.
  intros Hd. unfold free_capability_record. pose proof capability_slots_range as Hr. induction capability_slots as [|i slots IH].
  - by apply agrees_ret.
  - cbn [free_record_loop bind load_capability]. apply agrees_load_capability; [apply Hr; by left|apply Hd|]. cbn [negb Z.eqb bind record].
    apply agrees_get. destruct (negb _); [by apply agrees_ret|]. apply IH. intros j Hj. apply Hr. by right.
Qed.

Lemma plain_record_for_loop p handle slots m : plain (record_for_loop p handle slots) m = (List.find (held m p handle) slots, m).
Proof.
  induction slots as [|i slots IH]; [done|]. cbn. unfold held at 1.
  destruct (_ && _ && _ && _); [done|apply IH].
Qed.
Lemma plain_capability_record_for p handle m :
  plain (capability_record_for p handle) m = (record_of m p handle, set_scan_corrupt m false).
Proof. unfold capability_record_for. cbn [bind modify plain]. by rewrite plain_record_for_loop. Qed.
Lemma agrees_capability_record_for D p handle m : no_records D → agrees D 0 (capability_record_for p handle) m D.
Proof.
  intros Hd. unfold capability_record_for. cbn [bind modify]. apply agrees_get, agrees_put_other; [done|done|].
  generalize (set_scan_corrupt m false). clear m. intros m. pose proof capability_slots_range as Hr.
  induction capability_slots as [|i slots IH]; [by apply agrees_ret|].
  cbn [record_for_loop bind load_capability]. apply agrees_load_capability; [apply Hr; by left|apply Hd|]. cbn [negb Z.eqb bind record].
  apply agrees_get. destruct (_ && _ && _ && _); [by apply agrees_ret|]. apply IH. intros j Hj. apply Hr. by right.
Qed.

Lemma find_in_slots (f : Z → bool) i : List.find f capability_slots = Some i → 0 <= i < 64 ∧ f i = true.
Proof. intros [Hin Hf]%find_some. split; [by apply capability_slots_range|done]. Qed.

(** ** Clearing a record *)
Definition drop_peer (r : ipc_capability_record_t) (m : mem) : mem :=
  let e := endpoint_at m (endpoint_slot r) in
  if (endpoint_slot r <? IPC_MAX_ENDPOINTS) && ((Z.land (rights r) IPC_RIGHT_CONTROL =? 0) && active e && negb (peer_capabilities e =? 0))
  then set_endpoint m (endpoint_slot r) (with_peer (peer_seen e) (peer_capabilities e - 1) e) else m.

Definition forget_entry (r : ipc_capability_record_t) (m : mem) : mem :=
  match process_at m (holder r) with
  | None => m
  | Some h => if (pid h =? holder_pid r) && (p_generation h =? holder_generation r) then forget_capability (holder r) (r_handle r) m else m
  end.

Definition cleared (i : Z) (m : mem) : mem :=
  let r := record_at m i in
  if negb (r_active r) then m
  else capability_removed (set_record (forget_entry r (drop_peer r m)) i zero_record).

Lemma plain_clear i m : plain (clear_capability_record_locked i) m = (tt, cleared i m).
Proof.
  unfold clear_capability_record_locked, cleared. cbn [bind record plain]. destruct (negb (r_active (record_at m i))); [done|].
  set (r := record_at m i). rewrite plain_bind. cbn [plain bind].
  assert (E : (plain (if endpoint_slot r <? IPC_MAX_ENDPOINTS then
       e <- endpoint (endpoint_slot r);;
       if (Z.land (rights r) IPC_RIGHT_CONTROL =? 0) && active e && negb (peer_capabilities e =? 0) then
         change_endpoint (endpoint_slot r) (λ e, with_peer (peer_seen e) (peer_capabilities e - 1) e);;;
         seal_endpoint (endpoint_slot r);;; Ret tt
       else Ret tt
     else Ret tt) m).2 = drop_peer r m).
  { unfold drop_peer. destruct (_ <? _); [|done]. cbn [bind endpoint plain andb]. destruct (_ && _ && _); done. }
  rewrite E. cbn [process bind plain]. unfold forget_entry. destruct (process_at (drop_peer r m) (holder r)) as [h|]; [|done].
  destruct (_ && _); done.
Qed.

Lemma forget_capability_other pointer handle m :
  ipc_endpoints (forget_capability pointer handle m) = ipc_endpoints m ∧
  ipc_capability_records (forget_capability pointer handle m) = ipc_capability_records m.
Proof. unfold forget_capability. destruct (process_at m pointer) as [p|]; [|done]. by destruct (process_capability_slot p handle). Qed.
Lemma forget_entry_other r m :
  ipc_endpoints (forget_entry r m) = ipc_endpoints m ∧ ipc_capability_records (forget_entry r m) = ipc_capability_records m.
Proof.
  unfold forget_entry. destruct (process_at m (holder r)) as [h|]; [|done]. destruct (_ && _); [|done]. apply forget_capability_other.
Qed.

Lemma valid_set_capability p index c : valid_process p → valid_process (set_capability p index c).
Proof. intros [? ?]. split; [done|]. cbn. by rewrite length_insert. Qed.
Lemma valid_forget_capability pointer handle m : valid m → valid (forget_capability pointer handle m).
Proof.
  intros Hv. unfold forget_capability. destruct (process_at m pointer) as [p|] eqn:Ep; [|done].
  destruct (process_capability_slot p handle); [|done]. apply valid_set_process; [done|]. apply valid_set_capability.
  by eapply process_at_valid.
Qed.
Lemma valid_with_peer seen n e : valid_endpoint e → 0 <= n <= 1 → (active e = false → n = 0) → valid_endpoint (with_peer seen n e).
Proof.
  intros [? ? ? ? ? ? Hi ? ?] Hn Hz. split; cbn; try done. intros Ha. destruct (Hi Ha) as (? & ? & _). auto.
Qed.
Lemma valid_drop_peer r m : valid m → valid (drop_peer r m).
Proof.
  intros Hv. unfold drop_peer. destruct (_ && _) eqn:E; [|done]. rewrite !andb_true_iff, negb_true_iff, Z.eqb_neq in E.
  destruct E as (_ & (_ & Ha) & Hp). pose proof (ve_peers _ (valid_at m (endpoint_slot r) Hv)).
  apply valid_set_endpoint; [done|]. apply valid_with_peer; [auto|lia|congruence].
Qed.
Lemma valid_forget_entry r m : valid m → valid (forget_entry r m).
Proof.
  intros Hv. unfold forget_entry. destruct (process_at m (holder r)) as [h|]; [|done]. destruct (_ && _); [|done].
  by apply valid_forget_capability.
Qed.
Lemma valid_cleared i m : valid m → valid (cleared i m).
Proof.
  intros Hv. unfold cleared. destruct (negb _); [done|]. eapply (valid_other (set_record _ _ _)); [done|done|done|].
  apply valid_set_record; [|done]. by apply valid_forget_entry, valid_drop_peer.
Qed.

Lemma agrees_clear D i m : valid m → 0 <= i < 64 → agrees D 2 (clear_capability_record_locked i) m D.
Proof.
  intros Hv Hi. unfold clear_capability_record_locked. cbn [bind record]. apply agrees_get.
  destruct (negb (r_active (record_at m i))) eqn:Ea; [by apply agrees_ret|].
  set (r := record_at m i). change 2 with (1 + 1). eapply (agrees_bind D D).
  - destruct (endpoint_slot r <? IPC_MAX_ENDPOINTS) eqn:Es; [|by apply agrees_ret].
    cbn [bind endpoint]. apply agrees_get. destruct (_ && _ && _) eqn:E; [|by apply agrees_ret].
    cbn [bind change_endpoint modify seal_endpoint]. apply agrees_get.
    pose proof (valid_drop_peer r m Hv) as Hv'. unfold drop_peer in Hv'. rewrite Es, E in Hv'. cbn [andb] in Hv'.
    pose proof (vr_slot _ (valid_record_at m i Hv)) as Hs. fold r in Hs. pose proof (proj1 (v_endpoints _ Hv)) as Hl.
    apply (agrees_put D (ItemE (endpoint_slot r) :: D)).
    + apply changed_set_endpoint; [auto|done|left; by left|by right|]. intros q Hq Hu. by right.
    + by apply list_subseteq_skip || (intros x Hx; by right).
    + change 1 with (0 + 1). eapply (agrees_seal_endpoint _ D); [done|by apply endpoint_seals, valid_at..|done|by apply agrees_ret].
  - rewrite (surjective_pairing (plain _ m)). cbn [fst snd].
    match goal with |- agrees _ _ _ (plain ?p m).2 _ => assert (E : (plain p m).2 = drop_peer r m) end.
    { unfold drop_peer. destruct (_ <? _); [|done]. cbn [bind endpoint plain andb]. destruct (_ && _ && _); done. }
    rewrite E. clear E. pose proof (valid_drop_peer r m Hv) as Hv'. revert Hv'. generalize (drop_peer r m). clear Hv Ea. intros m' Hv.
    cbn [process bind]. apply agrees_get. change 1 with (0 + 1). eapply (agrees_bind D D).
    + destruct (process_at m' (holder r)) as [h|]; [|by apply agrees_ret]. destruct (_ && _); [|by apply agrees_ret].
      apply agrees_get, agrees_put_other; [by apply forget_capability_other..|]. by apply agrees_ret.
    + match goal with |- agrees _ _ _ (plain ?p m').2 _ => assert (E : (plain p m').2 = forget_entry r m') end.
      { unfold forget_entry. destruct (process_at m' (holder r)); [|done]. by destruct (_ && _). }
      rewrite E. clear E. pose proof (valid_forget_entry r m' Hv) as Hv'. revert Hv'. generalize (forget_entry r m'). clear Hv m'. intros m' Hv.
      cbn [bind modify seal_capability]. apply agrees_get.
      apply (agrees_put D (ItemC i :: D)); [apply changed_set_record; [auto|done|by left|done]|intros x Hx; by right|].
      pose proof (valid_set_record m' i zero_record Hv valid_zero_record) as Hv'.
      change 1 with (0 + 1). eapply (agrees_seal_capability _ D); [done|by apply record_seals, valid_record_at..|done|].
      apply agrees_get, agrees_put_other; [done..|]. by apply agrees_ret.
Qed.

(** The loop over all records. *)
Fixpoint clear_all (f : ipc_capability_record_t → bool) (slots : list Z) (m : mem) : mem :=
  match slots with
  | [] => m
  | i :: slots =>
    let r := record_at m i in
    clear_all f slots (if r_active r && f r then cleared i m else m)
  end.

Lemma plain_clear_loop f slots m : plain (clear_loop f slots) m = (tt, clear_all f slots m).
Proof.
  revert m. induction slots as [|i slots IH]; intros m; [done|]. cbn [clear_loop clear_all bind load_capability plain negb Z.eqb record].
  rewrite plain_bind. destruct (_ && _); [by rewrite plain_clear|cbn [plain fst snd]; apply IH].
Qed.
Lemma valid_clear_all f slots m : valid m → valid (clear_all f slots m).
Proof. revert m. induction slots as [|i slots IH]; intros m Hv; [done|]. cbn. apply IH. destruct (_ && _); [by apply valid_cleared|done]. Qed.
Lemma agrees_clear_loop D f slots m : valid m → no_records D → (∀ i, In i slots → 0 <= i < 64) →
  agrees D (2 * Z.of_nat (length slots)) (clear_loop f slots) m D.
Proof.
  intros Hv Hd. revert m Hv. induction slots as [|i slots IH]; intros m Hv Hr; [by apply agrees_ret|].
  cbn [clear_loop length]. replace (2 * Z.of_nat (S (length slots))) with (2 + 2 * Z.of_nat (length slots)) by lia.
  cbn [bind load_capability]. apply agrees_load_capability; [apply Hr; by left|apply Hd|]. cbn [negb Z.eqb bind record].
  apply agrees_get. eapply (agrees_bind D D).
  - destruct (_ && _); [|by apply agrees_ret]. apply agrees_clear; [done|apply Hr; by left].
  - assert (Hv' : valid (plain (if r_active (record_at m i) && f (record_at m i) then clear_capability_record_locked i else Ret tt) m).2).
    { destruct (_ && _); [rewrite plain_clear; by apply valid_cleared|done]. }
    apply IH; [done|]. intros j Hj. apply Hr. by right.
Qed.

Lemma agrees_clear_records D f m : valid m → no_records D → agrees D 128 (clear_loop f capability_slots) m D.
Proof.
  intros Hv Hd. apply (agrees_more _ (2 * Z.of_nat (length capability_slots))); [rewrite (proj1 length_slots); lia|].
  by apply agrees_clear_loop; [..|apply capability_slots_range].
Qed.

(** ** Closing an endpoint *)
Definition woken (slot : Z) (m : mem) : mem := add_call (add_call m (Wake_all_send slot)) (Wake_all_receive slot).
Definition shut (e : ipc_endpoint_t) : ipc_endpoint_t := with_bulk false zero_bulk_message 0 0 (closed e).
(** The endpoint is inactive and empty, its records are still there. *)
Definition shut_at (slot : Z) (m : mem) : mem := let m := account_closed slot m in set_endpoint m slot (shut (endpoint_at m slot)).

Definition quarantined (slot : Z) (m : mem) : mem := woken slot (clear_all (λ r, endpoint_slot r =? slot) capability_slots (shut_at slot m)).
Definition revoked (slot : Z) (m : mem) : mem :=
  let m := shut_at slot m in
  woken slot (clear_all (λ r, (endpoint_slot r =? slot) && (r_handle r =? make_handle slot (generation (endpoint_at m slot)))) capability_slots m).

Lemma set_endpoint_twice m slot e e' : set_endpoint (set_endpoint m slot e) slot e' = set_endpoint m slot e'.
Proof. unfold set_endpoint, set_endpoints. cbn. by rewrite list_insert_insert_eq. Qed.

Lemma account_closed_same slot m : ipc_endpoints (account_closed slot m) = ipc_endpoints m ∧
  ipc_capability_records (account_closed slot m) = ipc_capability_records m ∧ processes (account_closed slot m) = processes m.
Proof. unfold account_closed. destruct (active _); done. Qed.
Lemma account_closed_at slot m i : endpoint_at (account_closed slot m) i = endpoint_at m i.
Proof. unfold endpoint_at. by rewrite (proj1 (account_closed_same slot m)). Qed.

Lemma valid_account slot m : valid m → valid (account_closed slot m).
Proof. apply valid_other; apply account_closed_same. Qed.
Lemma valid_shut e : valid_endpoint e → valid_endpoint (shut e).
Proof.
  intros [? ? ? ? ? ? ? ? ?]. split; cbn; try done; try lia. intros q _ Hq. by apply queued_zero in Hq.
Qed.
Lemma valid_shut_at slot m : valid m → valid (shut_at slot m).
Proof. intros Hv. unfold shut_at. apply valid_set_endpoint; [by apply valid_account|]. by apply valid_shut, valid_at, valid_account. Qed.
Lemma valid_woken slot m : valid m → valid (woken slot m).
Proof. by apply valid_other. Qed.
Lemma valid_quarantined slot m : valid m → valid (quarantined slot m).
Proof. intros. by apply valid_woken, valid_clear_all, valid_shut_at. Qed.
Lemma valid_revoked slot m : valid m → valid (revoked slot m).
Proof. intros. by apply valid_woken, valid_clear_all, valid_shut_at. Qed.

(** The part both share: the memory is closed, the bulk slot sealed. *)
Lemma agrees_shut {A} c slot (k : Z → prog A) m D : valid m → 0 <= slot < 16 →
  agrees [ItemE slot] c (k 0) (shut_at slot m) D →
  agrees [] (c + 1) (modify (account_closed slot);;; change_endpoint slot closed;;; (z <- reset_bulk_locked slot;; k z)) m D.
Proof.
  intros Hv Hs Hk. cbn [bind modify change_endpoint reset_bulk_locked seal_bulk]. apply agrees_get.
  apply agrees_put_other; [by apply account_closed_same..|]. pose proof (valid_account slot m Hv) as Hv1. pose proof (valid_shape _ Hv1) as Hsh.
  set (m1 := account_closed slot m) in *. apply agrees_get. pose proof (sh_endpoints _ Hsh) as Hl.
  apply agrees_put_get, agrees_put_put. rewrite endpoint_at_same, set_endpoint_twice by done.
  assert (Hv2 : valid (set_endpoint m1 slot (shut (endpoint_at m1 slot)))) by (apply valid_set_endpoint; [done|by apply valid_shut, valid_at]).
  apply (agrees_put [] [ItemE slot; ItemB slot]).
  - apply changed_set_endpoint; [done|done|left; left|left; right; left|]. intros q _ Hu. by apply queued_zero in Hu.
  - intros x Hx. by apply elem_of_nil in Hx.
  - apply (agrees_seal_bulk _ [ItemE slot]); [done|by apply bulk_seals, valid_at..| |exact Hk].
    intros x Hx. rewrite !elem_of_cons in *. tauto.
Qed.

Lemma agrees_wake_all D slot m : agrees D 0 (wake_all slot) m D.
Proof. unfold wake_all, call. cbn [bind modify]. do 2 (apply agrees_get; apply agrees_put_other; [reflexivity|reflexivity|]). by apply agrees_ret. Qed.
Lemma plain_wake_all slot m : plain (wake_all slot) m = (tt, woken slot m).
Proof. done. Qed.

Lemma plain_shut {A} slot (k : Z → prog A) m : length (ipc_endpoints m) = 16%nat → 0 <= slot < 16 →
  plain (modify (account_closed slot);;; change_endpoint slot closed;;; (z <- reset_bulk_locked slot;; k z)) m = plain (k 0) (shut_at slot m).
Proof.
  intros Hl Hs. cbn [bind modify change_endpoint reset_bulk_locked seal_bulk plain]. unfold shut_at.
  rewrite endpoint_at_same, set_endpoint_twice; [done| |done]. by rewrite (proj1 (account_closed_same slot m)).
Qed.

Lemma plain_quarantine slot m : shape m → 0 <= slot < 16 → plain (quarantine_endpoint_locked slot) m = (tt, quarantined slot m).
Proof.
  intros Hsh Hs. unfold quarantine_endpoint_locked, IPC_MAX_ENDPOINTS. rewrite (proj2 (Z.leb_gt _ _)) by lia.
  rewrite plain_shut by (done || apply Hsh). cbn [bind seal_endpoint plain]. by rewrite plain_bind, plain_clear_loop.
Qed.
Lemma agrees_quarantine slot m : valid m → 0 <= slot < 16 → agrees [] 130 (quarantine_endpoint_locked slot) m [].
Proof.
  intros Hv Hs. unfold quarantine_endpoint_locked, IPC_MAX_ENDPOINTS. rewrite (proj2 (Z.leb_gt _ _)) by lia.
  pose proof (valid_shut_at slot m Hv) as Hv1. change 130 with (128 + 0 + 1 + 1). apply agrees_shut; [done|done|].
  revert Hv1. generalize (shut_at slot m). clear Hv m. intros m Hv1. cbn [bind seal_endpoint]. eapply (agrees_seal_endpoint _ []); [done|by apply endpoint_seals, valid_at|by apply endpoint_seals, valid_at|reflexivity|].
  eapply agrees_bind; [by apply agrees_clear_records|].
  apply agrees_wake_all.
Qed.

Lemma plain_revoke slot m : shape m → 0 <= slot < 16 → plain (revoke_endpoint_locked slot) m = (tt, revoked slot m).
Proof.
  intros Hsh Hs. unfold revoke_endpoint_locked. rewrite plain_shut by (done || apply Hsh).
  cbn [bind endpoint plain]. by rewrite plain_bind, plain_clear_loop.
Qed.
Lemma agrees_revoke slot m : valid m → 0 <= slot < 16 → agrees [] 130 (revoke_endpoint_locked slot) m [].
Proof.
  intros Hv Hs. unfold revoke_endpoint_locked. pose proof (valid_shut_at slot m Hv) as Hv1.
  change 130 with (128 + (0 + 1) + 1). apply agrees_shut; [done|done|].
  revert Hv1. generalize (shut_at slot m). clear Hv m. intros m Hv1. cbn [bind endpoint]. apply agrees_get.
  eapply agrees_bind.
  - apply agrees_clear_records; [done|]. intros i Hi%list_elem_of_singleton. done.
  - rewrite plain_clear_loop. cbn [fst snd]. match goal with |- agrees _ _ _ ?m _ => assert (Hv2 : valid m) by (by apply valid_clear_all); revert Hv2; generalize m end.
    clear Hv1 m. intros m Hv.
    cbn [bind wake_all call modify seal_endpoint]. do 2 (apply agrees_get; apply agrees_put_other; [reflexivity|reflexivity|]).
    pose proof (valid_woken slot m Hv) as Hv'.
    eapply (agrees_seal_endpoint _ []); [done|apply (proj1 (endpoint_seals _ (valid_at _ slot Hv')))|apply (proj2 (endpoint_seals _ (valid_at _ slot Hv')))|reflexivity|by apply agrees_ret].
Qed.
