(* ===== verification/IpcCaps.v ===== *)
(** Capabilities on the reference: resolving a handle, installing a record,
    and the waiting and trusted paths the calls share. *)
From S2P Require Import Prelude ProtectedStore Layout ProtectedRecord Ipc IpcSpec IpcPlain IpcHelpers.
Import Ipc.
Local Open Scope ipc_scope.

(** ** Resolving *)
(** The record a running process holds for a handle. *)
Definition holding (m : mem) (pointer handle : Z) : option (Process * Z * Z * ipc_capability_record_t) :=
  match process_at m pointer with
  | None => None
  | Some p =>
    if negb (is_running p) then None
    else
    match process_capability_slot p handle, decode_handle handle, record_of m p handle with
    | Some _, Some (slot, generation_), Some i => Some (p, slot, generation_, record_at m i)
    | _, _, _ => None
    end
  end.

Definition resolved (m : mem) (pointer handle required_rights : Z) : Z + Z :=
  match holding m pointer handle with
  | None => inl IPC_EBADF
  | Some (p, slot, generation_, r) =>
    let e := endpoint_at m slot in
    if negb (endpoint_slot r =? slot) || negb (holder_pid r =? pid p) then inl IPC_EBADF
    else if negb (Z.land (rights r) required_rights =? required_rights) then inl IPC_EACCES
    else if negb (active e) || negb (generation e =? generation_) then inl IPC_EBADF
    else if (s32 (owner_pid e) <=? 0) || (owner_generation e =? 0) then inl IPC_EBADF
    else inr slot
  end.

(** The flag after the scan. *)
Definition scan_flag (m : mem) (pointer handle : Z) : bool :=
  match process_at m pointer with
  | None => ipc_capability_scan_corrupt m
  | Some p =>
    if negb (is_running p) then ipc_capability_scan_corrupt m
    else
    match process_capability_slot p handle, decode_handle handle with
    | Some _, Some _ => false
    | _, _ => ipc_capability_scan_corrupt m
    end
  end.
Definition scanned (m : mem) (pointer handle : Z) : mem := set_scan_corrupt m (scan_flag m pointer handle).

Lemma set_scan_corrupt_id m : set_scan_corrupt m (ipc_capability_scan_corrupt m) = m.
Proof. by destruct m. Qed.

Lemma plain_resolve pointer handle required m :
  plain (resolve_capability pointer handle required) m = (resolved m pointer handle required, scanned m pointer handle).
Proof.
  unfold resolve_capability, resolved, holding, scanned, scan_flag. cbn [bind process plain].
  destruct (process_at m pointer) as [p|]; [|by rewrite set_scan_corrupt_id].
  destruct (is_running p); cbn [negb]; [|by rewrite set_scan_corrupt_id].
  destruct (process_capability_slot p handle); [|by rewrite set_scan_corrupt_id].
  destruct (decode_handle handle) as [[slot g]|]; [|by rewrite set_scan_corrupt_id].
  rewrite plain_bind, plain_capability_record_for. cbn [fst snd bind get plain]. cbn [ipc_capability_scan_corrupt set_scan_corrupt].
  destruct (record_of m p handle) as [i|]; [|done]. cbn [bind record plain].
  change (record_at (set_scan_corrupt m false) i) with (record_at m i).
  destruct (_ || _); [done|]. destruct (negb _); [done|]. cbn [bind load_endpoint plain negb Z.eqb endpoint].
  change (endpoint_at (set_scan_corrupt m false) slot) with (endpoint_at m slot).
  destruct (_ || _); [done|]. by destruct (_ || _).
Qed.

Lemma decode_handle_range handle slot g : decode_handle handle = Some (slot, g) → 0 <= slot < 16.
Proof.
  unfold decode_handle, IPC_HANDLE_SLOT_MASK, IPC_MAX_ENDPOINTS. change 255 with (Z.ones 8).
  pose proof (land_ones_range 8 handle ltac:(lia)) as Hr. cbv zeta. destruct (Z.eqb_spec (Z.land handle (Z.ones 8)) 0) as [|E]; [done|].
  destruct (Z.ltb_spec 16 (Z.land handle (Z.ones 8))) as [|E2]; [done|]. destruct (_ =? 0); [done|]. cbn [orb].
  intros E0. injection E0 as <- <-. lia.
Qed.

Lemma agrees_resolve D pointer handle required m : no_records D → (∀ i, ItemE i ∉ D) →
  agrees D 0 (resolve_capability pointer handle required) m D.
Proof.
  intros Hd He. unfold resolve_capability. cbn [bind process]. apply agrees_get.
  destruct (process_at m pointer) as [p|]; [|by apply agrees_ret].
  destruct (is_running p); cbn [negb]; [|by apply agrees_ret].
  destruct (process_capability_slot p handle); [|by apply agrees_ret].
  destruct (decode_handle handle) as [[slot g]|] eqn:Eh; [|by apply agrees_ret]. apply decode_handle_range in Eh.
  change 0 with (0 + 0). eapply (agrees_bind D D); [by apply agrees_capability_record_for|].
  rewrite plain_capability_record_for. cbn [fst snd bind get]. apply agrees_get. cbn [ipc_capability_scan_corrupt set_scan_corrupt].
  destruct (record_of m p handle) as [i|]; [|by apply agrees_ret]. cbn [bind record]. apply agrees_get.
  destruct (_ || _); [by apply agrees_ret|]. destruct (negb _); [by apply agrees_ret|].
  cbn [bind load_endpoint]. apply agrees_load_endpoint; [done|apply He|]. cbn [negb Z.eqb bind endpoint]. apply agrees_get.
  destruct (_ || _); [by apply agrees_ret|]. destruct (_ || _); by apply agrees_ret.
Qed.

(** What a resolved handle says. *)
Record authority (m : mem) (pointer handle required slot : Z) (p : Process) (i : Z) : Prop := {
  au_process : process_at m pointer = Some p;
  au_running : is_running p = true;
  au_entry : process_capability_slot p handle ≠ None;
  au_handle : decode_handle handle = Some (slot, generation (endpoint_at m slot));
  au_index : 0 <= i < 64;
  au_first : record_of m p handle = Some i;
  au_record : r_active (record_at m i) = true;
  au_record_handle : r_handle (record_at m i) = handle;
  au_holder : holder_pid (record_at m i) = pid p ∧ holder_generation (record_at m i) = p_generation p;
  au_slot : endpoint_slot (record_at m i) = slot;
  au_rights : Z.land (rights (record_at m i)) required = required;
  au_range : 0 <= slot < 16;
  au_active : active (endpoint_at m slot) = true
}.

Lemma resolved_authority m pointer handle required slot : resolved m pointer handle required = inr slot →
  ∃ p i, authority m pointer handle required slot p i.
Proof.
  unfold resolved, holding. destruct (process_at m pointer) as [p|] eqn:Ep; [|done].
  destruct (is_running p) eqn:Er; cbn [negb]; [|done]. destruct (process_capability_slot p handle) eqn:Es; [|done].
  destruct (decode_handle handle) as [[slot' g]|] eqn:Eh; [|done]. destruct (record_of m p handle) as [i|] eqn:Ei; [|done].
  pose proof Ei as Ei'. apply find_in_slots in Ei' as [Hi Hh]. unfold held in Hh. rewrite !andb_true_iff, !Z.eqb_eq in Hh.
  destruct Hh as [[[Ha Hha] Hhp] Hhg]. destruct (Z.eqb_spec (endpoint_slot (record_at m i)) slot') as [Hsl|]; [|done]. rewrite Hhp, Z.eqb_refl.
  cbn [negb orb]. destruct (Z.eqb_spec (Z.land (rights (record_at m i)) required) required) as [Hr|]; [|done]. cbn [negb].
  destruct (active (endpoint_at m slot')) eqn:Ea; [|done]. destruct (Z.eqb_spec (generation (endpoint_at m slot')) g) as [<-|]; [|done].
  cbn [negb orb]. destruct (_ || _); [done|]. intros [= <-]. exists p, i. split; try done; [by rewrite Es|by eapply decode_handle_range].
Qed.

(** [decode_handle] and [make_handle]. *)
Lemma make_handle_value slot g : 0 <= slot < 16 → 0 <= g < 16777216 → make_handle slot g = g * 256 + (slot + 1).
Proof.
  intros Hs Hg. unfold make_handle. rewrite !u32_small by (rewrite ?Z.shiftl_mul_pow2 by lia; ulia).
  by apply (lor_shiftl_add 8); lia.
Qed.
Lemma decode_make_handle slot g : 0 <= slot < 16 → 0 < g < 16777216 → decode_handle (make_handle slot g) = Some (slot, g).
Proof.
  intros Hs Hg. rewrite make_handle_value by lia. unfold decode_handle, IPC_HANDLE_SLOT_MASK, IPC_MAX_ENDPOINTS.
  change 255 with (Z.ones 8). rewrite Z.land_ones, Z.shiftr_div_pow2 by lia. change (2 ^ 8) with 256.
  replace ((g * 256 + (slot + 1)) mod 256) with (slot + 1) by ulia. replace ((g * 256 + (slot + 1)) / 256) with g by ulia.
  rewrite !(proj2 (Z.eqb_neq _ 0)), (proj2 (Z.ltb_ge _ _)) by lia. cbn. do 2 f_equal. lia.
Qed.
Lemma make_decode_handle handle slot g : is_u32 handle → decode_handle handle = Some (slot, g) → make_handle slot g = handle ∧ 0 < g < 16777216.
Proof.
  intros Hh. unfold decode_handle, IPC_HANDLE_SLOT_MASK, IPC_MAX_ENDPOINTS.
  change 255 with (Z.ones 8). rewrite Z.land_ones, Z.shiftr_div_pow2 by lia. change (2 ^ 8) with 256.
  destruct (Z.eqb_spec (handle mod 256) 0); [done|]. destruct (Z.ltb_spec 16 (handle mod 256)); [done|].
  destruct (Z.eqb_spec (handle / 256) 0); [done|]. cbn [orb]. intros E0. injection E0 as <- <-.
  assert (0 < handle / 256 < 16777216) by ulia. split; [|done]. rewrite make_handle_value by ulia. ulia.
Qed.

(** ** Installing *)
Definition installed (m : mem) (pointer : Z) (p : Process) (entry : nat) (i handle slot rights_ : Z) : mem :=
  capability_added (set_record (set_process m pointer (set_capability p entry (Capability handle rights_ true))) i
    (Record_ true handle pointer (pid p) (p_generation p) rights_ (u8 slot))).

Lemma free_record_range m : free_record m = -1 ∨ (0 <= free_record m < 64 ∧ r_active (record_at m (free_record m)) = false).
Proof.
  unfold free_record. destruct (List.find _ _) as [i|] eqn:E; [|by left]. apply find_in_slots in E as [Hi Hu]. right. split; [done|].
  cbn. unfold unused in Hu. by destruct (r_active _).
Qed.

Section install.
Context (m : mem) (pointer handle slot rights_ : Z) (p : Process) (entry : nat).
Context (Hp : process_at m pointer = Some p) (He : free_process_capability_slot p = Some entry) (Hf : 0 <= free_record m).

Lemma plain_install : plain (install_capability_locked pointer handle slot rights_) m =
  (0, installed m pointer p entry (free_record m) handle slot rights_).
Proof using All.
  unfold install_capability_locked. cbn [bind process plain]. rewrite plain_bind, plain_free_record. cbn [fst snd].
  rewrite (proj2 (Z.eqb_neq (free_record m) IPC_EINTEGRITY)) by (unfold IPC_EINTEGRITY; lia). rewrite Hp, He.
  rewrite (proj2 (Z.ltb_ge (free_record m) 0)) by done. done.
Qed.

Context (Hv : valid m) (Hr : is_running p = true) (Hh : is_u32 handle ∧ handle ≠ 0) (Hs : 0 <= slot < 16) (Hri : 0 < rights_ < 8).

Lemma valid_installed : valid (installed m pointer p entry (free_record m) handle slot rights_).
Proof using Hp Hv Hr Hh Hs Hri.
  destruct (process_at_valid m pointer p Hv Hp) as (Hvp & Hp0 & Hpu). unfold installed.
  apply (valid_other (set_record (set_process m pointer (set_capability p entry (Capability handle rights_ true))) (free_record m)
    (Record_ true handle pointer (pid p) (p_generation p) rights_ (u8 slot)))); [done..|].
  apply valid_set_record; [apply valid_set_process; [done|by apply valid_set_capability]|].
  rewrite u8_small by (unfold is_u8; lia). split; cbn; [done|done|]. intros _. destruct Hh. split_and!; try done; [|lia..]. by apply Hvp.
Qed.

Lemma agrees_install : agrees [] 1 (install_capability_locked pointer handle slot rights_) m [].
Proof using All.
  pose proof valid_installed as Hvi. unfold install_capability_locked. cbn [bind process]. apply agrees_get.
  change 1 with (0 + 1). eapply (agrees_bind [] []); [by apply agrees_free_record|]. rewrite plain_free_record. cbn [fst snd].
  rewrite (proj2 (Z.eqb_neq (free_record m) IPC_EINTEGRITY)) by (unfold IPC_EINTEGRITY; lia). rewrite Hp, He.
  rewrite (proj2 (Z.ltb_ge (free_record m) 0)) by done. cbn [bind modify seal_capability].
  destruct (free_record_range m) as [?|[Hi _]]; [lia|]. set (i := free_record m) in *. clearbody i.
  apply agrees_get, agrees_put_other; [done|done|]. apply agrees_get.
  set (m1 := set_process m pointer (set_capability p entry (Capability handle rights_ true))) in *.
  assert (Hs1 : shape m1) by (destruct (valid_shape m Hv); by split).
  apply (agrees_put [] [ItemC i]).
  - apply changed_set_record; [done|done|left|]. apply u8_range.
  - intros x Hx. by apply elem_of_nil in Hx.
  - change 1 with (0 + 1). pose proof (valid_record_at _ i Hvi) as Hvr.
    eapply (agrees_seal_capability _ []); [done|apply (proj1 (record_seals _ Hvr))|apply (proj2 (record_seals _ Hvr))|reflexivity|].
    cbn [negb Z.eqb]. apply agrees_get, agrees_put_other; [done|done|]. by apply agrees_ret.
Qed.
End install.

(** ** Waiting *)
Lemma plain_counterpart_mem slot p right slots found m : (plain (counterpart_loop slot p right slots found) m).2 = m.
Proof.
  revert found. induction slots as [|i slots IH]; intros found; [by destruct found|].
  cbn [counterpart_loop bind load_capability plain negb Z.eqb record]. destruct (_ || _); [done|].
  destruct found as [[p' g']|]; [|apply IH]. destruct (_ || _); [done|apply IH].
Qed.
Lemma agrees_counterpart slot p right m : agrees [] 0 (counterpart_identity_locked slot p right) m [].
Proof.
  unfold counterpart_identity_locked. generalize (@None (Z * Z)) as found. pose proof capability_slots_range as Hr.
  induction capability_slots as [|i slots IH]; intros found; [by apply agrees_ret|].
  cbn [counterpart_loop bind load_capability]. apply agrees_load_capability; [apply Hr; by left|apply no_records_nil|].
  assert (IH' := IH (λ j Hj, Hr j (or_intror Hj))).
  cbn [negb Z.eqb bind record]. apply agrees_get. destruct (_ || _); [done|].
  destruct found as [[p' g']|]; [|done]. destruct (_ || _); [by apply agrees_ret|done].
Qed.

Definition counterpart (m : mem) (slot : Z) (p : Process) (right : Z) : Z * (Z * Z) := (plain (counterpart_identity_locked slot p right) m).1.
Lemma plain_counterpart m slot p right : plain (counterpart_identity_locked slot p right) m = (counterpart m slot p right, m).
Proof.
  unfold counterpart, counterpart_identity_locked. pose proof (plain_counterpart_mem slot p right capability_slots None m) as E.
  destruct (plain _ m) as [found m']. cbn [fst snd] in *. by subst.
Qed.

(** The calls to the scheduler of a process that blocks. *)
Definition blocked (m : mem) (slot deadline : Z) (found : Z * (Z * Z)) (block : Z → Z → scheduler_call) : mem :=
  let '(z, (p, g)) := found in
  add_call (if 0 <? z then add_call m (Set_wait_owner p g) else m) (block slot deadline).

Definition waited (m : mem) (slot : Z) (p : Process) (right timeout_ms deadline now : Z) (rejected : bool) (block : Z → Z → scheduler_call)
    : option Z * mem :=
  if timeout_ms =? 0 then (Some IPC_EAGAIN, if rejected then capacity_rejected m else m)
  else if deadline <=? now then (Some IPC_ETIMEDOUT, m)
  else
    let found := counterpart m slot p right in
    if found.1 =? IPC_EINTEGRITY then (Some IPC_EINTEGRITY, quarantined slot m)
    else (None, blocked m slot deadline found block).

Lemma plain_wait m slot p right timeout_ms deadline now rejected block : shape m → 0 <= slot < 16 →
  plain (wait_or_fail slot p right timeout_ms deadline now rejected block) m = waited m slot p right timeout_ms deadline now rejected block.
Proof.
  intros Hsh Hs. unfold wait_or_fail, waited. destruct (timeout_ms =? 0); [by destruct rejected|].
  destruct (deadline <=? now); [done|]. rewrite plain_bind, plain_counterpart. cbn [fst snd].
  destruct (counterpart m slot p right) as [z [p' g']]. cbn [fst]. destruct (z =? IPC_EINTEGRITY); [by rewrite plain_bind, plain_quarantine|].
  unfold blocked. by destruct (0 <? z).
Qed.

Lemma valid_waited m slot p right timeout_ms deadline now rejected block : valid m → 
  valid (waited m slot p right timeout_ms deadline now rejected block).2.
Proof.
  intros Hv. unfold waited. destruct (_ =? 0); [destruct rejected; [by apply (valid_other m)|done]|]. destruct (_ <=? _); [done|].
  destruct (counterpart m slot p right) as [z [p' g']]. cbn [fst]. destruct (z =? _); [by apply valid_quarantined|]. cbn [snd blocked].
  destruct (0 <? z); by apply (valid_other m).
Qed.

Lemma agrees_wait m slot p right timeout_ms deadline now rejected block : valid m → 0 <= slot < 16 →
  agrees [] 130 (wait_or_fail slot p right timeout_ms deadline now rejected block) m [].
Proof.
  intros Hv Hs. unfold wait_or_fail. destruct (timeout_ms =? 0).
  { destruct rejected; cbn [bind modify]; [apply agrees_get, agrees_put_other; [done|done|]|]; by apply agrees_ret. }
  destruct (deadline <=? now); [by apply agrees_ret|]. change 130 with (0 + 130).
  eapply (agrees_bind [] []); [apply agrees_counterpart|]. rewrite plain_counterpart. cbn [fst snd].
  destruct (counterpart m slot p right) as [z [p' g']]. destruct (z =? IPC_EINTEGRITY).
  - change 130 with (130 + 0). eapply (agrees_bind [] []); [by apply agrees_quarantine|by apply agrees_ret].
  - destruct (0 <? z); cbn [bind call modify]; repeat (apply agrees_get; apply agrees_put_other; [done|done|]); by apply agrees_ret.
Qed.
