(* ===== verification/IpcQueue.v ===== *)
(** The message queue of an endpoint is a list.

    [queue e] are the messages in order.  Enqueueing appends, removing deletes
    one position and keeps the order of the rest; both agree with their
    protected versions. *)
From S2P Require Import Prelude ProtectedStore Layout ProtectedRecord Ipc IpcSpec IpcPlain IpcHelpers IpcCaps.
Import Ipc.
Local Open Scope ipc_scope.

(** The message [o] places behind the head. *)
Definition at_offset (e : ipc_endpoint_t) (o : Z) : ipc_protected_message_t := slot_message e (queue_index e o).
Definition queue (e : ipc_endpoint_t) : list ipc_protected_message_t :=
  (λ o, at_offset e (Z.of_nat o)) <$> seq 0 (Z.to_nat (count e)).

Lemma length_queue e : length (queue e) = Z.to_nat (count e).
Proof. unfold queue. by rewrite length_fmap, length_seq. Qed.
Lemma lookup_queue e o : 0 <= o < count e → queue e !! Z.to_nat o = Some (at_offset e o).
Proof.
  intros Ho. unfold queue. rewrite list_lookup_fmap, lookup_seq_lt by lia. cbn. do 2 f_equal. lia.
Qed.
Lemma lookup_queue_nat e n x : queue e !! n = Some x → Z.of_nat n < count e ∧ x = at_offset e (Z.of_nat n).
Proof.
  intros H. pose proof (lookup_lt_Some _ _ _ H) as Hl. rewrite length_queue in Hl.
  pose proof (lookup_queue e (Z.of_nat n) ltac:(lia)) as E. rewrite Nat2Z.id in E. split; [lia|congruence].
Qed.

Section index.
Context (e : ipc_endpoint_t) (He : valid_endpoint e).

Lemma queue_index_mod o : 0 <= o <= 4 → queue_index e o = (head e + o) mod 4.
Proof using He. intros Ho. pose proof (ve_queue _ He). unfold queue_index, IPC_QUEUE_DEPTH. rewrite u32_small by ulia. done. Qed.
Lemma queue_index_range o : 0 <= queue_index e o < 4.
Proof using He. unfold queue_index, IPC_QUEUE_DEPTH. pose proof (Z.mod_pos_bound (u32 (head e + o)) 4). lia. Qed.
Lemma queue_index_inj o o' : 0 <= o < 4 → 0 <= o' < 4 → queue_index e o = queue_index e o' → o = o'.
Proof using He. intros Ho Ho'. rewrite !queue_index_mod by lia. pose proof (ve_queue _ He). Z.to_euclidean_division_equations. lia. Qed.
Lemma queue_index_next o : 0 <= o < 4 → u32 (queue_index e o + 1) mod IPC_QUEUE_DEPTH = queue_index e (o + 1).
Proof using He.
  intros Ho. pose proof (queue_index_range o). unfold IPC_QUEUE_DEPTH. rewrite u32_small by ulia.
  rewrite !queue_index_mod by lia. by rewrite Zplus_mod_idemp_l, Z.add_assoc.
Qed.
Lemma queued_at o : 0 <= o < count e → queued e (queue_index e o).
Proof using He. by exists o. Qed.
Lemma at_offset_ok o : 0 <= o < count e → message_ok (at_offset e o).
Proof using He. intros Ho. apply (ve_messages _ He); [apply queue_index_range|by apply queued_at]. Qed.

Lemma slot_message_insert q q' msg p g : 0 <= q < 4 → 0 <= q' < 4 →
  slot_message (with_message q msg p g e) q' = if q' =? q then ProtectedMessage msg p g else slot_message e q'.
Proof using He.
  intros Hq Hq'. destruct (ve_arrays _ He) as (H1 & H2 & H3). unfold slot_message. cbn [messages sender_pid sender_generation with_message].
  rewrite !nth_lookup. destruct (Z.eqb_spec q' q) as [->|Hne].
  - by rewrite !list_lookup_insert_eq by lia.
  - by rewrite !list_lookup_insert_ne by lia.
Qed.
Lemma at_offset_insert o x msg p g : 0 <= o < 4 → 0 <= x < 4 →
  at_offset (with_message (queue_index e o) msg p g e) x = if x =? o then ProtectedMessage msg p g else at_offset e x.
Proof using He.
  intros Ho Hx. unfold at_offset. change (queue_index (with_message (queue_index e o) msg p g e) x) with (queue_index e x).
  rewrite slot_message_insert by apply queue_index_range. destruct (Z.eqb_spec x o) as [->|Hne]; [by rewrite Z.eqb_refl|].
  rewrite (proj2 (Z.eqb_neq _ _)); [done|]. intros E. by apply Hne, queue_index_inj.
Qed.
End index.

(** ** Enqueueing *)
Definition enqueued (e : ipc_endpoint_t) (msg : ipc_message_t) (p g : Z) : ipc_endpoint_t :=
  with_queue (head e) (count e + 1) (with_message (queue_index e (count e)) msg p g e).
Definition sent (m : mem) (slot : Z) (msg : ipc_message_t) (p g : Z) : mem :=
  add_call (message_added (set_endpoint m slot (enqueued (endpoint_at m slot) (queued_message msg) p g))) (Wake_one_receive slot).

(** A message of a caller, and who may send it: a process or the kernel. *)
Record message_in (msg : ipc_message_t) : Prop := {
  mi_valid : message_valid msg = true;
  mi_length : 0 <= msg_length msg;
  mi_payload : length (payload msg) = 128%nat ∧ Forall is_u8 (payload msg)
}.
Definition sender_ok (p g : Z) : Prop := (p = 0 ∧ g = 0) ∨ identity_ok p g.

Lemma queued_message_ok msg p g : message_in msg → sender_ok p g → message_ok (ProtectedMessage (queued_message msg) p g).
Proof.
  intros [Hv Hl [Hp Hb]] Hs. pose proof Hv as Hv'. unfold message_valid in Hv. rewrite !andb_true_iff, !Z.eqb_eq, Z.leb_le in Hv.
  destruct Hv as [[E1 E2] Hlen]. unfold IPC_MAX_MESSAGE_SIZE in Hlen.
  assert (Hlt : length (take (Z.to_nat (msg_length msg)) (payload msg)) = Z.to_nat (msg_length msg)) by (rewrite length_take; lia).
  assert (Hpay : length (payload (queued_message msg)) = 128%nat).
  { cbn [queued_message payload]. rewrite length_bytes_copy; rewrite ?Hlt, ?length_replicate; lia. }
  assert (Hby : Forall is_u8 (payload (queued_message msg))).
  { cbn [queued_message payload]. unfold bytes_copy. apply Forall_app_2; [by apply Forall_take|]. apply Forall_drop, Forall_replicate. ulia. }
  assert (Hid : is_u32 p ∧ is_u32 g) by (destruct Hs as [[-> ->]|[? ? ? ?]]; [|done]; split; ulia).
  split.
  - unfold message_typed. cbn [pm_message pm_sender_pid pm_sender_generation]. rewrite Hpay, (proj2 (is_bytes_spec _) Hby).
    cbn [version struct_size msg_length queued_message]. rewrite E1, E2. destruct Hid. rewrite !u32_word by (try done; ulia). done.
  - unfold protected_message_ok. cbn [pm_message pm_sender_pid pm_sender_generation].
    change (message_valid (queued_message msg)) with (message_valid msg). rewrite Hv'. cbn [andb].
    destruct Hs as [[-> ->]|[? ? ? ?]]; [done|]. rewrite (proj2 (Z.ltb_lt 0 _)), (proj2 (Z.eqb_neq g 0)) by done. apply orb_true_r.
Qed.

Section enqueue.
Context (e : ipc_endpoint_t) (msg : ipc_message_t) (p g : Z) (He : valid_endpoint e) (Hc : count e < 4).

Lemma queued_enqueued q : 0 <= q < 4 → queued (enqueued e msg p g) q → q = queue_index e (count e) ∨ (queued e q ∧ q ≠ queue_index e (count e)).
Proof using He Hc.
  intros Hq (o & Ho & E). cbn in Ho. change (queue_index (enqueued e msg p g) o) with (queue_index e o) in E.
  pose proof (ve_queue _ He). destruct (decide (o = count e)) as [->|Hne]; [by left|right]. split; [exists o; split; [lia|done]|].
  intros E'. rewrite E' in E. apply queue_index_inj in E; [lia|done|lia|lia].
Qed.
Lemma enqueued_message q : 0 <= q < 4 →
  slot_message (enqueued e msg p g) q = if q =? queue_index e (count e) then ProtectedMessage msg p g else slot_message e q.
Proof using He. intros Hq. by apply (slot_message_insert e He); [apply queue_index_range|]. Qed.

Lemma queue_enqueued : queue (enqueued e msg p g) = queue e ++ [ProtectedMessage msg p g].
Proof using He Hc.
  pose proof (ve_queue _ He). unfold queue. cbn [enqueued with_queue count].
  replace (Z.to_nat (count e + 1)) with (S (Z.to_nat (count e))) by lia. rewrite seq_S, fmap_app. f_equal.
  - apply list_fmap_ext. intros i o Ho%lookup_seq. destruct Ho as [-> Ho]. cbn [Nat.add].
    change (at_offset (enqueued e msg p g)) with (at_offset (with_message (queue_index e (count e)) msg p g e)).
    rewrite at_offset_insert by (done || lia). rewrite (proj2 (Z.eqb_neq _ _)) by lia. done.
  - cbn [fmap list_fmap Nat.add]. f_equal.
    change (at_offset (enqueued e msg p g)) with (at_offset (with_message (queue_index e (count e)) msg p g e)).
    rewrite at_offset_insert by (done || lia). rewrite (proj2 (Z.eqb_eq _ _)) by lia. done.
Qed.

Context (Ha : active e = true) (Hm : message_ok (ProtectedMessage msg p g)).
Lemma valid_enqueued : valid_endpoint (enqueued e msg p g).
Proof using All.
  pose proof (ve_queue _ He). destruct He as [Hg Ho Hp Hq [H1 [H2 H3]] Hac Hi Hms Hb]. split; cbn; try done.
  - lia.
  - by rewrite !length_insert.
  - by rewrite Ha.
  - intros q Hq' Hu. rewrite enqueued_message by done. destruct (queued_enqueued q Hq' Hu) as [->|[Hu' Hne]]; [by rewrite Z.eqb_refl|].
    rewrite (proj2 (Z.eqb_neq _ _)) by done. by apply Hms.
Qed.
End enqueue.

Lemma set_endpoint_at_twice m slot e f : length (ipc_endpoints m) = 16%nat → 0 <= slot < 16 →
  set_endpoint (set_endpoint m slot e) slot (f (endpoint_at (set_endpoint m slot e) slot)) = set_endpoint m slot (f e).
Proof. intros Hl Hs. by rewrite endpoint_at_same, set_endpoint_twice. Qed.

Lemma plain_enqueue m slot msg p g : shape m → 0 <= slot < 16 → count (endpoint_at m slot) < 4 →
  plain (enqueue_message_locked slot msg p g) m = (0, sent m slot msg p g).
Proof.
  intros Hsh Hs Hc. unfold enqueue_message_locked, IPC_QUEUE_DEPTH. cbn [bind endpoint plain]. rewrite (proj2 (Z.leb_gt 4 _)) by done.
  cbn [bind change_endpoint modify seal_message plain negb Z.eqb seal_endpoint call].
  rewrite (set_endpoint_at_twice _ _ _ (λ e, with_queue (head e) (count e + 1) e)); [done|by apply Hsh|done].
Qed.
Lemma plain_enqueue_full m slot msg p g : 4 <= count (endpoint_at m slot) →
  plain (enqueue_message_locked slot msg p g) m = (IPC_EAGAIN, capacity_rejected m).
Proof.
  intros Hc. unfold enqueue_message_locked, IPC_QUEUE_DEPTH. cbn [bind endpoint plain]. by rewrite (proj2 (Z.leb_le 4 _)).
Qed.
Lemma valid_sent m slot msg p g : valid m → message_in msg → sender_ok p g → active (endpoint_at m slot) = true →
  count (endpoint_at m slot) < 4 → valid (sent m slot msg p g).
Proof.
  intros Hv Hm Hs Ha Hc. apply (valid_other (set_endpoint m slot (enqueued (endpoint_at m slot) (queued_message msg) p g))); [done..|].
  apply valid_set_endpoint; [done|]. apply valid_enqueued; [by apply valid_at|done|done|by apply queued_message_ok].
Qed.

(** A message is sealed before the queue counts it. *)
Lemma agrees_store_message {A} D c m1 m2 slot q v (k : Z → prog A) (p : prog A) m D' :
  0 <= slot < 16 → 0 <= q < 4 → v = stored m2 slot q → message_typed v = true → changed (ItemM slot q :: D) m m2 →
  (∀ b, r_mem b = m1 → arun (k 0) b = arun p (set_mem b m2)) → plain (k 0) m1 = plain p m2 →
  agrees D c p m2 D' → agrees [] (c + 1) (Put m1 (Access (SealMessage slot q v) k)) m D'.
Proof.
  intros Hs Hq -> Ht Hch Hk Hk' Hp a Ha. cbn [arun astep plain]. rewrite !(proj2 (in_range_spec _ _)), Ht by done. cbn [andb].
  assert (Hsy : synced (ItemM slot q :: D) m2 (set_mem a m2)).
  { eapply synced_changed; [done|done|]. intros x Hx. by apply elem_of_nil in Hx. }
  rewrite Hk by done. rewrite Hk'. match goal with |- context [arun p ?b] => change b with
    (Regs m2 (r_endpoints a) (r_caps a) (<[message_slot slot q := Some (stored m2 slot q)]> (r_msgs a)) (r_bulk a)) end.
  destruct (Hp (Regs m2 (r_endpoints a) (r_caps a) (<[message_slot slot q := Some (stored m2 slot q)]> (r_msgs a)) (r_bulk a)))
    as (a' & n & -> & Hc & Ha').
  - destruct Hsy as [Hm Hsh Hl He Hb Hc Hg]. cbn in *. split; try done; cbn; rewrite ?length_insert; try done.
    + intros i Hi Hn. apply He; [done|]. by apply not_elem_of_cons.
    + intros i Hi Hn. apply Hb; [done|]. by apply not_elem_of_cons.
    + intros i Hi Hn. apply Hc; [done|]. by apply not_elem_of_cons.
    + intros s' q' H1 H2 H3 Hn. pose proof (message_slot_bound slot q Hs Hq).
      destruct (decide (message_slot slot q = message_slot s' q')) as [E|Hne].
      * destruct (message_slot_inj slot q s' q' (proj1 Hs) (proj1 H1) Hq H2 E) as [-> ->]. rewrite list_lookup_insert_eq; [done|lia].
      * rewrite list_lookup_insert_ne by done. apply Hg; try done. apply not_elem_of_cons. split; [|done]. congruence.
  - exists a', (1 + n). split_and!; [done|lia|done].
Qed.

Lemma agrees_enqueue m slot msg p g : valid m → 0 <= slot < 16 → message_in msg → sender_ok p g → active (endpoint_at m slot) = true →
  agrees [] 2 (enqueue_message_locked slot msg p g) m [].
Proof.
  intros Hv Hs Hm Hse Ha. pose proof (valid_at m slot Hv) as He. unfold enqueue_message_locked. cbn [bind endpoint]. apply agrees_get.
  unfold IPC_QUEUE_DEPTH. destruct (Z.leb_spec 4 (count (endpoint_at m slot))) as [|Hc].
  { cbn [bind modify]. apply agrees_get, agrees_put_other; [done|done|]. by apply agrees_ret. }
  pose proof (valid_sent m slot msg p g Hv Hm Hse Ha Hc) as Hv'. pose proof (valid_shape m Hv) as Hsh. pose proof (sh_endpoints _ Hsh) as Hl.
  cbn [bind change_endpoint modify seal_message]. apply agrees_get.
  set (e := endpoint_at m slot) in *. pose proof (queue_index_range e He (count e)) as Ht.
  change 2 with (0 + 1 + 1). eapply (agrees_store_message [ItemE slot] (0 + 1) _ (set_endpoint m slot (enqueued e (queued_message msg) p g)));
    [done|done| |by apply queued_message_ok| | | |].
  - unfold stored. rewrite endpoint_at_same by done. change (ProtectedMessage _ _ _) with
      (slot_message (enqueued e (queued_message msg) p g) (queue_index e (count e))) at 2.
    by rewrite enqueued_message, Z.eqb_refl.
  - apply changed_set_endpoint; [done|done|left; right; left|by right|]. intros q Hq Hu.
    destruct (queued_enqueued e _ _ _ He Hc q Hq Hu) as [->|[Hu' Hne]]; [left; left|right]. split; [done|].
    rewrite enqueued_message by done. by rewrite (proj2 (Z.eqb_neq _ _)).
  - intros b Hb. cbn [negb Z.eqb change_endpoint modify bind arun]. rewrite Hb.
    rewrite (set_endpoint_at_twice _ _ _ (λ e, with_queue (head e) (count e + 1) e)) by done. reflexivity.
  - cbn [negb Z.eqb change_endpoint modify bind plain].
    rewrite (set_endpoint_at_twice _ _ _ (λ e, with_queue (head e) (count e + 1) e)) by done. reflexivity.
  - cbn [bind seal_endpoint]. pose proof (valid_at _ slot Hv') as He'.
    eapply (agrees_seal_endpoint _ []); [done|apply (proj1 (endpoint_seals _ He'))|apply (proj2 (endpoint_seals _ He'))|reflexivity|].
    cbn [negb Z.eqb bind modify call]. do 2 (apply agrees_get; apply agrees_put_other; [done|done|]). by apply agrees_ret.
Qed.

(** ** Looking for a message *)
Definition foreign (p : Process) (v : ipc_protected_message_t) : bool :=
  negb (pm_sender_pid v =? pid p) || negb (pm_sender_generation v =? p_generation p).

(** The first message another process sent. *)
Definition receivable (p : Process) (e : ipc_endpoint_t) : Z :=
  match list_find (λ v, foreign p v = true) (queue e) with Some (o, _) => Z.of_nat o | None => -1 end.

Lemma plain_receivable_loop slot p e offsets m : endpoint_at m slot = e →
  plain (receivable_loop slot p e offsets) m =
  (match List.find (λ o, foreign p (at_offset e (Z.of_nat o))) offsets with Some o => Z.of_nat o | None => -1 end, m).
Proof.
  intros <-. induction offsets as [|o offsets IH]; [done|]. cbn [receivable_loop bind load_message plain negb Z.eqb List.find].
  change (stored m slot (queue_index (endpoint_at m slot) (Z.of_nat o))) with (at_offset (endpoint_at m slot) (Z.of_nat o)).
  unfold foreign at 1. destruct (_ || _); [done|apply IH].
Qed.

Lemma find_list_find (f : ipc_protected_message_t → bool) (g : nat → ipc_protected_message_t) n k :
  match List.find (λ o, f (g o)) (seq k n) with Some o => Z.of_nat o | None => -1 end =
  match list_find (λ v, f v = true) (g <$> seq k n) with Some (o, _) => Z.of_nat (k + o) | None => -1 end.
Proof.
  revert k. induction n as [|n IH]; intros k; [done|]. cbn [seq fmap list_fmap List.find list_find].
  destruct (f (g k)) eqn:E.
  - rewrite decide_True by done. by rewrite Nat.add_0_r.
  - rewrite decide_False by congruence. rewrite IH. change (list_fmap _ _ g (seq (S k) n)) with (g <$> seq (S k) n).
    destruct (list_find (λ v, f v = true) (g <$> seq (S k) n)) as [[o v]|]; cbn; [f_equal; lia|done].
Qed.

Lemma plain_receivable slot p m : plain (receivable_offset slot p) m = (receivable p (endpoint_at m slot), m).
Proof.
  unfold receivable_offset, receivable, queue. cbn [bind endpoint plain]. rewrite plain_receivable_loop by done. f_equal.
  apply (find_list_find (foreign p) (λ o, at_offset (endpoint_at m slot) (Z.of_nat o))).
Qed.

Lemma receivable_found p e o : receivable p e = o → 0 <= o →
  0 <= o < count e ∧ foreign p (at_offset e o) = true ∧ ∀ o', 0 <= o' < o → foreign p (at_offset e o') = false.
Proof.
  unfold receivable. destruct (list_find _ _) as [[n v]|] eqn:E; [|lia]. intros <- _.
  apply list_find_Some in E as (E & Hf & Hb). apply lookup_queue_nat in E as [Hn ->]. split_and!; [lia|done|done|].
  intros o' Ho'. destruct (foreign p (at_offset e o')) eqn:Ef; [|done]. exfalso.
  apply (Hb (Z.to_nat o') (at_offset e o')); [apply lookup_queue; lia|lia|done].
Qed.
Lemma receivable_none p e : receivable p e < 0 → Forall (λ v, foreign p v = false) (queue e).
Proof.
  unfold receivable. destruct (list_find _ _) as [[n v]|] eqn:E; [lia|]. intros _. apply list_find_None in E.
  eapply list.Forall_impl; [exact E|]. intros v Hv. destruct (foreign p v) eqn:Ef; [|done]. by destruct Hv.
Qed.

Lemma agrees_receivable slot p m : valid m → 0 <= slot < 16 → agrees [] 0 (receivable_offset slot p) m [].
Proof.
  intros Hv Hs. unfold receivable_offset. cbn [bind endpoint]. apply agrees_get. pose proof (valid_at m slot Hv) as He.
  set (e := endpoint_at m slot) in *. pose proof (ve_queue _ He) as [_ Hc].
  assert (Ho : ∀ o, In o (seq 0 (Z.to_nat (count e))) → 0 <= Z.of_nat o < count e) by (intros o Ho%in_seq; lia).
  induction (seq 0 (Z.to_nat (count e))) as [|o offsets IH]; [by apply agrees_ret|].
  pose proof (Ho o (or_introl eq_refl)) as Hlt. cbn [receivable_loop bind load_message].
  apply agrees_load_message; [done|by apply queue_index_range|by apply queued_at|by apply not_elem_of_nil|by apply (at_offset_ok e He)|].
  cbn [negb Z.eqb]. destruct (_ || _); [by apply agrees_ret|]. apply IH. intros o' Ho'. apply Ho. by right.
Qed.

(** ** Removing *)
Fixpoint shifted (fuel : nat) (o : Z) (e : ipc_endpoint_t) : ipc_endpoint_t :=
  match fuel with
  | O => e
  | S fuel =>
    let v := at_offset e (o + 1) in
    shifted fuel (o + 1) (with_message (queue_index e o) (pm_message v) (pm_sender_pid v) (pm_sender_generation v) e)
  end.

Lemma valid_copied e o : valid_endpoint e → 0 <= o → o + 1 < count e →
  let v := at_offset e (o + 1) in
  valid_endpoint (with_message (queue_index e o) (pm_message v) (pm_sender_pid v) (pm_sender_generation v) e).
Proof.
  intros He Ho Hc v. pose proof (ve_queue _ He) as Hq.
  assert (Hm : ∀ q, 0 <= q < 4 → queued e q → message_ok (slot_message
    (with_message (queue_index e o) (pm_message v) (pm_sender_pid v) (pm_sender_generation v) e) q)).
  { intros q Hq' Hu. rewrite slot_message_insert by (done || by apply queue_index_range).
    destruct (q =? queue_index e o); [|by apply (ve_messages _ He)].
    replace (ProtectedMessage _ _ _) with v by (by destruct v). apply at_offset_ok; [done|lia]. }
  destruct He as [Hg Hw Hp Hq2 [H1 [H2 H3]] Ha Hi Hms Hb]. split; cbn; try done. by rewrite !length_insert.
Qed.

Lemma plain_shift fuel slot o m : shape m → 0 <= slot < 16 → valid_endpoint (endpoint_at m slot) →
  0 <= o → o + Z.of_nat fuel < count (endpoint_at m slot) →
  plain (shift_loop fuel slot (queue_index (endpoint_at m slot) o)) m = (0, set_endpoint m slot (shifted fuel o (endpoint_at m slot))).
Proof.
  revert o m. induction fuel as [|fuel IH]; intros o m Hsh Hs He Ho Hc.
  { cbn. by rewrite set_endpoint_id by (done || apply Hsh). }
  pose proof (ve_queue _ He) as Hq. pose proof (sh_endpoints _ Hsh) as Hl. set (e := endpoint_at m slot) in *.
  cbn [shift_loop shifted bind load_message plain negb Z.eqb change_endpoint modify seal_message].
  rewrite queue_index_next by (done || lia). fold e.
  set (v := at_offset e (o + 1)). set (e' := with_message (queue_index e o) (pm_message v) (pm_sender_pid v) (pm_sender_generation v) e).
  change (with_message (queue_index e o) _ _ _ e) with e'.
  change (queue_index e (o + 1)) with (queue_index e' (o + 1)).
  pose proof (valid_copied e o He Ho ltac:(lia)) as He'. fold v in He'. fold e' in He'.
  pose proof (IH (o + 1) (set_endpoint m slot e')) as IH'. rewrite endpoint_at_same, set_endpoint_twice in IH' by done.
  apply IH'; [|done|done|lia|cbn; lia]. destruct Hsh. split; try done. cbn. by rewrite length_insert.
Qed.

Lemma agrees_shift fuel slot o m : valid m → 0 <= slot < 16 → 0 <= o → o + Z.of_nat fuel < count (endpoint_at m slot) →
  agrees [] (Z.of_nat fuel) (shift_loop fuel slot (queue_index (endpoint_at m slot) o)) m [].
Proof.
  revert o m. induction fuel as [|fuel IH]; intros o m Hv Hs Ho Hc; [by apply agrees_ret|].
  pose proof (valid_at m slot Hv) as He. pose proof (ve_queue _ He) as Hq. pose proof (valid_shape m Hv) as Hsh. pose proof (sh_endpoints _ Hsh) as Hl.
  set (e := endpoint_at m slot) in *. cbn [shift_loop bind load_message]. rewrite queue_index_next by (done || lia).
  pose proof (at_offset_ok e He (o + 1) ltac:(lia)) as [Ht Hok].
  apply agrees_load_message; [done|by apply queue_index_range|apply queued_at; [done|lia]|by apply not_elem_of_nil|done|].
  change (stored m slot (queue_index e (o + 1))) with (at_offset e (o + 1)). cbn [negb Z.eqb change_endpoint modify bind seal_message].
  apply agrees_get. fold e. set (v := at_offset e (o + 1)).
  set (e' := with_message (queue_index e o) (pm_message v) (pm_sender_pid v) (pm_sender_generation v) e).
  change (with_message (queue_index e o) _ _ _ e) with e'.
  pose proof (valid_copied e o He Ho ltac:(lia)) as He'. fold v in He'. fold e' in He'.
  replace (Z.of_nat (S fuel)) with (Z.of_nat fuel + 1) by lia.
  apply (agrees_put [] [ItemM slot (queue_index e o)]).
  - apply changed_set_endpoint; [done|done|by right|by right|]. intros q Hq' Hu. unfold e'. 
    rewrite slot_message_insert by (done || by apply queue_index_range).
    destruct (Z.eqb_spec q (queue_index e o)) as [->|]; [left; left|right; done].
  - intros x Hx. by apply elem_of_nil in Hx.
  - eapply (agrees_seal_message _ []); [done|by apply queue_index_range| |done|reflexivity|].
    + unfold stored. rewrite endpoint_at_same by done. change (v = slot_message e' (queue_index e o)).
      unfold e'. rewrite slot_message_insert, Z.eqb_refl by (done || by apply queue_index_range). by destruct v.
    + cbn [negb Z.eqb]. pose proof (IH (o + 1) (set_endpoint m slot e')) as IH'. rewrite endpoint_at_same in IH' by done.
      apply IH'; [by apply valid_set_endpoint|done|lia|cbn; lia].
Qed.

(** Only the arrays differ. *)
Definition with_arrays (a : list ipc_message_t) (b c : list Z) (e : ipc_endpoint_t) : ipc_endpoint_t :=
  Endpoint (active e) (retired e) (peer_seen e) (generation e) (owner_pid e) (owner_generation e) (peer_capabilities e) (head e) (count e)
    a b c (bulk_active e) (bulk_message e) (bulk_sender_pid e) (bulk_sender_generation e).

Lemma shifted_arrays fuel o e : ∃ a b c, shifted fuel o e = with_arrays a b c e.
Proof.
  revert o e. induction fuel as [|fuel IH]; intros o e; [exists (messages e), (sender_pid e), (sender_generation e); by destruct e|].
  cbn [shifted]. destruct (IH (o + 1) (with_message (queue_index e o) (pm_message (at_offset e (o + 1))) (pm_sender_pid (at_offset e (o + 1)))
    (pm_sender_generation (at_offset e (o + 1))) e)) as (a & b & c & ->). by exists a, b, c.
Qed.

Lemma valid_shifted fuel o e : valid_endpoint e → 0 <= o → o + Z.of_nat fuel < count e → valid_endpoint (shifted fuel o e).
Proof.
  revert o e. induction fuel as [|fuel IH]; intros o e He Ho Hc; [done|]. cbn [shifted]. apply IH; [|lia|cbn; lia].
  apply (valid_copied e o He Ho). lia.
Qed.

Lemma at_offset_shifted fuel o e x : valid_endpoint e → 0 <= o → o + Z.of_nat fuel < count e → 0 <= x < count e →
  at_offset (shifted fuel o e) x = at_offset e (if (o <=? x) && (x <? o + Z.of_nat fuel) then x + 1 else x).
Proof.
  revert o e. induction fuel as [|fuel IH]; intros o e He Ho Hc Hx.
  { cbn [shifted]. destruct (Z.leb_spec o x), (Z.ltb_spec x (o + Z.of_nat 0)); done || lia. }
  pose proof (ve_queue _ He) as Hq. cbn [shifted]. rewrite IH; [|apply (valid_copied e o He Ho); lia|lia|cbn; lia|done].
  destruct (Z.leb_spec (o + 1) x), (Z.ltb_spec x (o + 1 + Z.of_nat fuel)), (Z.leb_spec o x), (Z.ltb_spec x (o + Z.of_nat (S fuel)));
    cbn [andb]; try lia; rewrite at_offset_insert by (done || lia).
  all: repeat match goal with |- context [?a =? ?b] => destruct (Z.eqb_spec a b) end; try lia; try done.
  replace (o + 1) with (x + 1) by lia. by destruct (at_offset e (x + 1)).
Qed.

Definition removed (e : ipc_endpoint_t) (o : Z) : ipc_endpoint_t :=
  with_queue (if count e - 1 =? 0 then 0 else head e) (count e - 1) (shifted (Z.to_nat (count e - (o + 1))) o e).

Section remove.
Context (e : ipc_endpoint_t) (o : Z) (He : valid_endpoint e) (Ho : 0 <= o < count e).

Lemma at_offset_removed x : 0 <= x < count e - 1 → at_offset (removed e o) x = at_offset e (if o <=? x then x + 1 else x).
Proof using All.
  intros Hx. unfold removed. rewrite (proj2 (Z.eqb_neq _ _)) by lia.
  destruct (shifted_arrays (Z.to_nat (count e - (o + 1))) o e) as (a & b & c & E).
  transitivity (at_offset (shifted (Z.to_nat (count e - (o + 1))) o e) x); [by rewrite E|].
  rewrite at_offset_shifted by (done || lia). rewrite Z2Nat.id by lia.
  destruct (Z.leb_spec o x); [|done]. rewrite (proj2 (Z.ltb_lt x _)) by lia. done.
Qed.

(** Removing deletes one message; the others keep their order. *)
Lemma queue_removed : queue (removed e o) = delete (Z.to_nat o) (queue e).
Proof using All.
  apply list_eq. intros n.
  assert (Hcount : count (removed e o) = count e - 1) by done.
  destruct (decide (Z.of_nat n < count e - 1)) as [Hn|Hn].
  - pose proof (lookup_queue (removed e o) (Z.of_nat n) ltac:(lia)) as E. rewrite Nat2Z.id in E. rewrite E, at_offset_removed by lia.
    destruct (Z.leb_spec o (Z.of_nat n)).
    + rewrite list_lookup_delete_ge by lia. pose proof (lookup_queue e (Z.of_nat n + 1) ltac:(lia)) as E'.
      replace (Z.to_nat (Z.of_nat n + 1)) with (S n) in E' by lia. done.
    + rewrite list_lookup_delete_lt by lia. pose proof (lookup_queue e (Z.of_nat n) ltac:(lia)) as E'. by rewrite Nat2Z.id in E'.
  - rewrite !(proj2 (lookup_ge_None _ _)); [done| |rewrite length_queue; lia].
    rewrite length_delete by (apply lookup_lt_is_Some; rewrite length_queue; lia). rewrite length_queue. lia.
Qed.

Lemma valid_removed : valid_endpoint (removed e o).
Proof using All.
  pose proof (ve_queue _ He) as Hq. pose proof (valid_shifted (Z.to_nat (count e - (o + 1))) o e He ltac:(lia) ltac:(lia)) as Hs.
  assert (Hm : ∀ q, 0 <= q < 4 → queued (removed e o) q → message_ok (slot_message (removed e o) q)).
  { intros q _ (x & Hx & ->). cbn in Hx. change (message_ok (at_offset (removed e o) x)). rewrite at_offset_removed by done.
    apply at_offset_ok; [done|]. destruct (o <=? x); lia. }
  unfold removed in *. destruct (shifted_arrays (Z.to_nat (count e - (o + 1))) o e) as (a & b & c & E). rewrite E in *.
  destruct Hs as [Hg Hw Hp Hq2 Har Ha Hi _ Hb]. split; try done; cbn in *.
  - destruct (_ =? 0); lia.
  - intros Hin. destruct (Hi Hin) as (? & ? & ?). lia.
Qed.
End remove.

Definition taken (m : mem) (slot o : Z) : mem := message_removed (set_endpoint m slot (removed (endpoint_at m slot) o)).
Lemma valid_taken m slot o : valid m → 0 <= o < count (endpoint_at m slot) → valid (taken m slot o).
Proof.
  intros Hv Ho. apply (valid_other (set_endpoint m slot (removed (endpoint_at m slot) o))); [done..|].
  apply valid_set_endpoint; [done|]. by apply valid_removed; [apply valid_at|].
Qed.

Section remove_message.
Context (m : mem) (slot o : Z) (Hv : valid m) (Hs : 0 <= slot < 16) (Ho : 0 <= o < count (endpoint_at m slot)).

Lemma removed_fields : (λ e, with_queue (if count e - 1 =? 0 then 0 else head e) (count e - 1) e)
  (shifted (Z.to_nat (count (endpoint_at m slot) - (o + 1))) o (endpoint_at m slot)) = removed (endpoint_at m slot) o.
Proof using.
  unfold removed. destruct (shifted_arrays (Z.to_nat (count (endpoint_at m slot) - (o + 1))) o (endpoint_at m slot)) as (a & b & c & E). by rewrite E.
Qed.

Lemma plain_remove_message :
  plain (remove_message_locked slot o) m = ((0, Some (pm_message (at_offset (endpoint_at m slot) o))), taken m slot o).
Proof using All.
  pose proof (valid_at m slot Hv) as He. pose proof (valid_shape m Hv) as Hsh. pose proof (sh_endpoints _ Hsh) as Hl.
  unfold remove_message_locked. cbn [bind endpoint plain load_message negb Z.eqb]. rewrite plain_bind, plain_shift by (done || lia).
  cbn [fst snd negb Z.eqb bind change_endpoint modify plain seal_endpoint].
  rewrite (set_endpoint_at_twice _ _ _ (λ e, with_queue (if count e - 1 =? 0 then 0 else head e) (count e - 1) e)) by done.
  by rewrite removed_fields.
Qed.

Lemma agrees_remove_message : agrees [] 4 (remove_message_locked slot o) m [].
Proof using All.
  pose proof (valid_at m slot Hv) as He. pose proof (valid_shape m Hv) as Hsh. pose proof (sh_endpoints _ Hsh) as Hl.
  pose proof (ve_queue _ He) as Hq. unfold remove_message_locked. cbn [bind endpoint]. apply agrees_get.
  set (e := endpoint_at m slot) in *. pose proof (at_offset_ok e He o ltac:(lia)) as [Ht Hok].
  apply agrees_load_message; [done|by apply queue_index_range|by apply queued_at|by apply not_elem_of_nil|done|]. cbn [negb Z.eqb].
  apply (agrees_more _ (Z.of_nat (Z.to_nat (count e - (o + 1))) + 1)); [lia|].
  eapply (agrees_bind [] []); [apply agrees_shift; [done|done|lia|fold e; lia]|]. unfold e. rewrite plain_shift by (done || (fold e; lia)). fold e.
  cbn [fst snd negb Z.eqb bind change_endpoint modify]. apply agrees_get.
  rewrite (set_endpoint_at_twice _ _ _ (λ e, with_queue (if count e - 1 =? 0 then 0 else head e) (count e - 1) e)) by done.
  pose proof removed_fields as E. cbv beta in E. fold e in E. rewrite E. clear E.
  pose proof (valid_shifted (Z.to_nat (count e - (o + 1))) o e He ltac:(lia) ltac:(lia)) as Hsv.
  set (e1 := shifted (Z.to_nat (count e - (o + 1))) o e) in *.
  pose proof (valid_taken m slot o Hv Ho) as Hv'. fold e in Hv'.
  apply (agrees_put [] [ItemE slot]).
  - assert (Hsh1 : shape (set_endpoint m slot e1)) by (apply valid_shape, valid_set_endpoint; done).
    rewrite <- (set_endpoint_twice m slot e1 (removed e o)). apply changed_set_endpoint; [done|done|left; left|right|]; rewrite endpoint_at_same by done.
    + unfold removed. fold e1. done.
    + intros q Hq' (x & Hx & ->). right. cbn in Hx. unfold removed in *. fold e1 in Hx |- *.
      rewrite (proj2 (Z.eqb_neq _ _)) by lia. split; [|done]. exists x.
      unfold e1. destruct (shifted_arrays (Z.to_nat (count e - (o + 1))) o e) as (a & b & c & ->). split; [cbn; lia|done].
  - intros x Hx. by apply elem_of_nil in Hx.
  - apply agrees_get, agrees_put_other; [done|done|]. cbn [bind seal_endpoint]. change 1 with (0 + 1).
    pose proof (valid_at _ slot Hv') as He'. change (message_removed (set_endpoint m slot (removed e o))) with (taken m slot o).
    eapply (agrees_seal_endpoint _ []); [done|apply (proj1 (endpoint_seals _ He'))|apply (proj2 (endpoint_seals _ He'))|reflexivity|].
    by apply agrees_ret.
Qed.
End remove_message.

(** ** The bulk slot *)
Record bulk_in (msg : ipc_bulk_message_t) : Prop := {
  bi_valid : bulk_message_valid msg = true;
  bi_length : 0 <= b_length msg;
  bi_payload : Forall is_u8 (b_payload msg)
}.
Definition bulk_sent (m : mem) (slot : Z) (msg : ipc_bulk_message_t) (p g : Z) : mem :=
  add_call (message_added (set_endpoint m slot (with_bulk true (queued_bulk msg) p g (endpoint_at m slot)))) (Wake_one_receive slot).
Definition bulk_taken (m : mem) (slot : Z) : mem :=
  message_removed (set_endpoint m slot (with_bulk false zero_bulk_message 0 0 (endpoint_at m slot))).

Lemma queued_bulk_ok msg : bulk_in msg → bulk_ok (queued_bulk msg).
Proof.
  intros [Hv Hl Hb]. unfold bulk_message_valid in Hv. rewrite !andb_true_iff, !Z.eqb_eq, Z.leb_le in Hv. destruct Hv as [[E1 E2] E3].
  split; cbn [b_version b_struct_size b_length b_payload queued_bulk]; [done|done|lia|].
  unfold bytes_copy. apply Forall_app_2; [by apply Forall_take|]. apply Forall_drop, Forall_replicate. ulia.
Qed.

Lemma valid_with_bulk msg p g e : valid_endpoint e → active e = true → bulk_ok msg → identity_ok p g → valid_endpoint (with_bulk true msg p g e).
Proof. intros [Hg Hw Hp Hq Har Ha Hi Hm Hb] Hact Hok Hid. split; try done. cbn. by rewrite Hact. Qed.
Lemma valid_without_bulk e : valid_endpoint e → valid_endpoint (with_bulk false zero_bulk_message 0 0 e).
Proof. intros [Hg Hw Hp Hq Har Ha Hi Hm Hb]. split; try done. cbn. intros Hin. by destruct (Hi Hin) as (_ & ? & ?). Qed.

Lemma valid_bulk_sent m slot msg p g : valid m → bulk_in msg → identity_ok p g → active (endpoint_at m slot) = true → valid (bulk_sent m slot msg p g).
Proof.
  intros Hv Hm Hi Ha. apply (valid_other (set_endpoint m slot (with_bulk true (queued_bulk msg) p g (endpoint_at m slot)))); [done..|].
  apply valid_set_endpoint; [done|]. apply valid_with_bulk; [by apply valid_at|done|by apply queued_bulk_ok|done].
Qed.
Lemma valid_bulk_taken m slot : valid m → valid (bulk_taken m slot).
Proof.
  intros Hv. apply (valid_other (set_endpoint m slot (with_bulk false zero_bulk_message 0 0 (endpoint_at m slot)))); [done..|].
  apply valid_set_endpoint; [done|]. by apply valid_without_bulk, valid_at.
Qed.

(** Changing the bulk slot dirties both stores of the endpoint. *)
Lemma changed_bulk m slot b msg p g : shape m → 0 <= slot < 16 →
  changed [ItemE slot; ItemB slot] m (set_endpoint m slot (with_bulk b msg p g (endpoint_at m slot))).
Proof. intros Hsh Hs. apply changed_set_endpoint; [done|done|left; left|left; right; left|]. intros q Hq Hu. by right. Qed.

Lemma plain_enqueue_bulk m slot msg p g : shape m → bulk_active (endpoint_at m slot) = false →
  plain (enqueue_bulk_locked slot msg p g) m = (0, bulk_sent m slot msg p g).
Proof. intros Hsh Hb. unfold enqueue_bulk_locked. cbn [bind load_bulk plain negb Z.eqb endpoint]. by rewrite Hb. Qed.

Lemma agrees_enqueue_bulk m slot msg p g : valid m → 0 <= slot < 16 → bulk_in msg → identity_ok p g → active (endpoint_at m slot) = true →
  bulk_active (endpoint_at m slot) = false → agrees [] 2 (enqueue_bulk_locked slot msg p g) m [].
Proof.
  intros Hv Hs Hm Hi Ha Hb. pose proof (valid_shape m Hv) as Hsh. pose proof (valid_bulk_sent m slot msg p g Hv Hm Hi Ha) as Hv'.
  unfold enqueue_bulk_locked. cbn [bind load_bulk].
  apply agrees_load_bulk; [done|by apply not_elem_of_nil|done|]. cbn [negb Z.eqb bind endpoint]. apply agrees_get. rewrite Hb.
  cbn [bind change_endpoint modify seal_bulk]. apply agrees_get. pose proof (valid_at _ slot Hv') as He'.
  apply (agrees_put [] [ItemE slot; ItemB slot]); [by apply changed_bulk|intros x Hx; by apply elem_of_nil in Hx|].
  change 2 with (0 + 1 + 1). eapply (agrees_seal_bulk _ [ItemE slot]);
    [done|apply (proj1 (bulk_seals _ He'))|apply (proj2 (bulk_seals _ He'))|intros x Hx; rewrite !elem_of_cons in *; tauto|].
  cbn [negb Z.eqb bind seal_endpoint].
  eapply (agrees_seal_endpoint _ []); [done|apply (proj1 (endpoint_seals _ He'))|apply (proj2 (endpoint_seals _ He'))|reflexivity|].
  cbn [negb Z.eqb bind modify call]. do 2 (apply agrees_get; apply agrees_put_other; [done|done|]). by apply agrees_ret.
Qed.

Lemma plain_remove_bulk m slot : bulk_active (endpoint_at m slot) = true →
  plain (remove_bulk_locked slot) m = ((0, Some (bulk_message (endpoint_at m slot))), bulk_taken m slot).
Proof. intros Hb. unfold remove_bulk_locked. cbn [bind load_bulk plain negb Z.eqb endpoint]. by rewrite Hb. Qed.

Lemma agrees_remove_bulk m slot : valid m → 0 <= slot < 16 → agrees [] 2 (remove_bulk_locked slot) m [].
Proof.
  intros Hv Hs. pose proof (valid_shape m Hv) as Hsh. pose proof (valid_bulk_taken m slot Hv) as Hv'.
  unfold remove_bulk_locked. cbn [bind load_bulk].
  apply agrees_load_bulk; [done|by apply not_elem_of_nil|by apply valid_bulk_active, valid_at|]. cbn [negb Z.eqb bind endpoint orb]. apply agrees_get.
  destruct (bulk_active (endpoint_at m slot)); cbn [negb]; [|by apply agrees_ret].
  cbn [bind reset_bulk_locked change_endpoint modify seal_bulk]. apply agrees_get. pose proof (valid_at _ slot Hv') as He'.
  apply (agrees_put [] [ItemE slot; ItemB slot]); [by apply changed_bulk|intros x Hx; by apply elem_of_nil in Hx|].
  change 2 with (0 + 1 + 1). eapply (agrees_seal_bulk _ [ItemE slot]);
    [done|apply (proj1 (bulk_seals _ He'))|apply (proj2 (bulk_seals _ He'))|intros x Hx; rewrite !elem_of_cons in *; tauto|].
  cbn [negb Z.eqb bind modify seal_endpoint]. apply agrees_get, agrees_put_other; [done|done|].
  eapply (agrees_seal_endpoint _ []); [done|apply (proj1 (endpoint_seals _ He'))|apply (proj2 (endpoint_seals _ He'))|reflexivity|].
  by apply agrees_ret.
Qed.
