(* ===== verification/IpcCalls.v ===== *)
(** The calls of the IPC on the reference.

    For each call: the reference answer and memory, that [valid] is kept, and
    that the protected call agrees. *)
From S2P Require Import Prelude ProtectedStore Layout ProtectedRecord Ipc IpcSpec IpcPlain IpcHelpers IpcCaps IpcQueue.
Import Ipc.
Local Open Scope ipc_scope.

(** ** Creating *)
Fixpoint search (slots : list Z) (m : mem) : option Z * mem :=
  match slots with
  | [] => (None, m)
  | i :: slots =>
    let e := endpoint_at m i in
    if active e || retired e then search slots m
    else if IPC_HANDLE_GENERATION_MAX <=? generation e then search slots (set_endpoint m i (with_retired e))
    else (Some i, m)
  end.

Lemma plain_create_loop slots m : plain (create_loop slots) m = search slots m.
Proof.
  revert m. induction slots as [|i slots IH]; intros m; [done|].
  cbn [create_loop search bind load_endpoint load_bulk plain negb Z.eqb endpoint]. destruct (_ || _); [apply IH|].
  destruct (_ <=? _); [|done]. cbn [bind change_endpoint modify seal_endpoint plain]. apply IH.
Qed.

Lemma valid_with_retired e : valid_endpoint e → valid_endpoint (with_retired e).
Proof. by intros []. Qed.

Lemma search_spec slots m slot m' : valid m → (∀ i, In i slots → 0 <= i < 16) → search slots m = (slot, m') →
  valid m' ∧ ipc_capability_records m' = ipc_capability_records m ∧ processes m' = processes m ∧
  match slot with
  | None => True
  | Some slot => 0 <= slot < 16 ∧ active (endpoint_at m' slot) = false ∧ retired (endpoint_at m' slot) = false ∧
    generation (endpoint_at m' slot) < IPC_HANDLE_GENERATION_MAX
  end.
Proof.
  revert m. induction slots as [|i slots IH]; intros m Hv Hr; cbn [search]; [by intros [= <- <-]|].
  assert (Hr' : ∀ j, In j slots → 0 <= j < 16) by (intros j Hj; apply Hr; by right).
  destruct (active (endpoint_at m i)) eqn:Ha; [by apply IH|]. destruct (retired (endpoint_at m i)) eqn:Ht; [by apply IH|]. cbn [orb].
  destruct (Z.leb_spec IPC_HANDLE_GENERATION_MAX (generation (endpoint_at m i))).
  - intros E. pose proof (valid_set_endpoint m i _ Hv (valid_with_retired _ (valid_at m i Hv))) as Hv'.
    by destruct (IH _ Hv' Hr' E) as (? & ? & ? & ?).
  - intros [= <- <-]. split_and!; try done; apply Hr; by left.
Qed.

Lemma agrees_create_loop slots m : valid m → (∀ i, In i slots → 0 <= i < 16) → agrees [] (Z.of_nat (length slots)) (create_loop slots) m [].
Proof.
  revert m. induction slots as [|i slots IH]; intros m Hv Hr; [by apply agrees_ret|].
  assert (Hr' : ∀ j, In j slots → 0 <= j < 16) by (intros j Hj; apply Hr; by right). pose proof (Hr i (or_introl eq_refl)) as Hi.
  cbn [create_loop bind load_endpoint load_bulk]. apply agrees_load_endpoint; [done|by apply not_elem_of_nil|].
  cbn [negb Z.eqb]. apply agrees_load_bulk; [done|by apply not_elem_of_nil|by apply valid_bulk_active, valid_at|].
  cbn [negb Z.eqb bind endpoint]. apply agrees_get. cbn [length].
  destruct (_ || _); [apply (agrees_more _ (Z.of_nat (length slots))); [lia|by apply IH]|].
  destruct (_ <=? _); [|by apply agrees_ret]. cbn [bind change_endpoint modify seal_endpoint]. apply agrees_get.
  pose proof (valid_set_endpoint m i _ Hv (valid_with_retired _ (valid_at m i Hv))) as Hv'. pose proof (valid_shape m Hv) as Hsh.
  apply (agrees_put [] [ItemE i]).
  - apply changed_set_endpoint; [done|done|left; left|by right|]. intros q Hq Hu. by right.
  - intros x Hx. by apply elem_of_nil in Hx.
  - replace (Z.of_nat (S (length slots))) with (Z.of_nat (length slots) + 1) by lia.
    eapply (agrees_seal_endpoint _ []); [done|by apply endpoint_seals, valid_at..|reflexivity|]. by apply IH.
Qed.

Lemma agrees_search m : valid m → agrees [] 16 (create_loop endpoint_slots) m [].
Proof.
  intros Hv. apply (agrees_more _ (Z.of_nat (length endpoint_slots))); [by rewrite (proj2 length_slots)|].
  by apply agrees_create_loop, endpoint_slots_range.
Qed.

Definition new_generation (m : mem) (slot : Z) : Z := u32 (generation (endpoint_at m slot) + 1).
Definition opened (m : mem) (p : Process) (slot : Z) : mem := set_endpoint m slot (fresh_endpoint p (new_generation m slot)).

(** The reference of [ipc_create]. *)
Definition create (m : mem) (owner : Z) (handle : option Z) : Z * option Z * mem :=
  match process_at m owner, handle with
  | Some p, Some _ =>
    if negb (is_running p) then (IPC_EINVAL, handle, m)
    else
    match free_process_capability_slot p with
    | None => (IPC_ENOSPC, handle, capacity_rejected m)
    | Some entry =>
      if free_record m <? 0 then (IPC_ENOSPC, handle, capacity_rejected m)
      else
      match search endpoint_slots m with
      | (None, m) => (IPC_ENOSPC, handle, capacity_rejected m)
      | (Some slot, m) =>
        let created := make_handle slot (new_generation m slot) in
        (0, Some created, endpoint_added (installed (opened m p slot) owner p entry (free_record m) created slot all_rights))
      end
    end
  | _, _ => (IPC_EINVAL, handle, m)
  end.

Lemma valid_fresh p g : identity_ok (pid p) (p_generation p) → 0 < g <= IPC_HANDLE_GENERATION_MAX → valid_endpoint (fresh_endpoint p g).
Proof.
  intros Hid Hg. split; try done; cbn; try done; try lia; [by split; apply Hid|split; [lia|done]|].
  intros q _ Hq. by apply queued_zero in Hq.
Qed.

Section create.
Context (m : mem) (owner : Z) (p : Process) (entry : nat) (slot : Z) (m1 : mem).
Context (Hv : valid m) (Hp : process_at m owner = Some p) (Hr : is_running p = true) (He : free_process_capability_slot p = Some entry).
Context (Hf : 0 <= free_record m) (Hsearch : search endpoint_slots m = (Some slot, m1)).

Lemma opened_facts : valid (opened m1 p slot) ∧ process_at (opened m1 p slot) owner = Some p ∧
  free_record (opened m1 p slot) = free_record m ∧ free_record m1 = free_record m ∧ 0 <= slot < 16 ∧ 0 < new_generation m1 slot < 16777216 ∧
  is_u32 (make_handle slot (new_generation m1 slot)) ∧ make_handle slot (new_generation m1 slot) ≠ 0 ∧ valid m1.
Proof using All.
  destruct (search_spec _ _ _ _ Hv endpoint_slots_range Hsearch) as (Hv1 & Er & Ep & Hs & Ha & Ht & Hg).
  destruct (process_at_valid m owner p Hv Hp) as (Hvp & _). unfold IPC_HANDLE_GENERATION_MAX in Hg.
  pose proof (ve_generation _ (valid_at m1 slot Hv1)) as Hg'. unfold IPC_HANDLE_GENERATION_MAX in Hg'.
  assert (Hn : new_generation m1 slot = generation (endpoint_at m1 slot) + 1) by (unfold new_generation; apply u32_small; ulia).
  assert (Efr : free_record m1 = free_record m).
  { unfold free_record, unused, record_at. by rewrite Er. }
  split_and!; try lia; try done.
  - apply valid_set_endpoint; [done|]. apply valid_fresh; [by apply Hvp|unfold IPC_HANDLE_GENERATION_MAX; lia].
  - unfold process_at in *. cbn [opened set_endpoint set_endpoints processes]. by rewrite Ep.
  - rewrite make_handle_value by lia. ulia.
  - rewrite make_handle_value by lia. lia.
Qed.

Lemma plain_create_found handle : plain (ipc_create owner (Some handle)) m =
  let created := make_handle slot (new_generation m1 slot) in
  ((0, Some created), endpoint_added (installed (opened m1 p slot) owner p entry (free_record m1) created slot all_rights)).
Proof using All.
  destruct opened_facts as (Hv' & Hp' & Hf' & Hf1 & Hs & _ & _ & _ & Hv1).
  unfold ipc_create. cbn [bind process plain]. rewrite Hp, Hr. cbn [negb]. rewrite plain_bind, plain_free_record. cbn [fst snd].
  rewrite (proj2 (Z.eqb_neq (free_record m) IPC_EINTEGRITY)) by (unfold IPC_EINTEGRITY; lia). rewrite He.
  rewrite (proj2 (Z.ltb_ge (free_record m) 0)) by done. cbn [present negb orb]. rewrite plain_bind, plain_create_loop, Hsearch.
  cbn [fst snd bind endpoint plain change_endpoint modify seal_bulk seal_endpoint negb Z.eqb].
  rewrite plain_bind. change (set_endpoint m1 slot _) with (opened m1 p slot). change (u32 (generation (endpoint_at m1 slot) + 1)) with (new_generation m1 slot).
  rewrite (plain_install _ owner _ slot all_rights p entry Hp' He) by lia. cbn [fst snd negb Z.eqb bind modify plain].
  by rewrite Hf', Hf1.
Qed.

Lemma valid_created : valid (endpoint_added (installed (opened m1 p slot) owner p entry (free_record m1)
  (make_handle slot (new_generation m1 slot)) slot all_rights)).
Proof using All.
  destruct opened_facts as (Hv' & Hp' & Hf' & Hf1 & Hs & Hg & Hu & Hn & Hv1).
  apply (valid_other (installed (opened m1 p slot) owner p entry (free_record m1) (make_handle slot (new_generation m1 slot)) slot all_rights)); [done..|].
  rewrite Hf1, <- Hf'. by apply valid_installed.
Qed.

Lemma agrees_create_found handle : agrees [] 20 (ipc_create owner (Some handle)) m [].
Proof using All.
  destruct opened_facts as (Hv' & Hp' & Hf' & Hf1 & Hs & Hg & Hu & Hn & Hv1).
  unfold ipc_create. cbn [bind process]. apply agrees_get. rewrite Hp, Hr. cbn [negb]. change 20 with (0 + 20).
  eapply (agrees_bind [] []); [by apply agrees_free_record|]. rewrite plain_free_record. cbn [fst snd].
  rewrite (proj2 (Z.eqb_neq (free_record m) IPC_EINTEGRITY)) by (unfold IPC_EINTEGRITY; lia). rewrite He.
  rewrite (proj2 (Z.ltb_ge (free_record m) 0)) by done. cbn [present negb orb]. change 20 with (16 + 4).
  eapply (agrees_bind [] []); [by apply agrees_search|].
  rewrite plain_create_loop, Hsearch. cbn [fst snd bind endpoint]. apply agrees_get. cbn [change_endpoint modify bind seal_bulk]. apply agrees_get.
  change (set_endpoint m1 slot _) with (opened m1 p slot). change (u32 (generation (endpoint_at m1 slot) + 1)) with (new_generation m1 slot).
  pose proof (valid_at _ slot Hv') as Hve.
  apply (agrees_put [] [ItemE slot; ItemB slot]).
  - apply changed_set_endpoint; [by apply valid_shape|done|left; left|left; right; left|]. intros q _ Hq. by apply queued_zero in Hq.
  - intros x Hx. by apply elem_of_nil in Hx.
  - change 4 with (1 + 1 + 1 + 1). eapply (agrees_seal_bulk _ [ItemE slot]);
      [done|apply (proj1 (bulk_seals _ Hve))|apply (proj2 (bulk_seals _ Hve))|intros x Hx; rewrite !elem_of_cons in *; tauto|].
    cbn [negb Z.eqb bind seal_endpoint].
    eapply (agrees_seal_endpoint _ []); [done|apply (proj1 (endpoint_seals _ Hve))|apply (proj2 (endpoint_seals _ Hve))|reflexivity|].
    cbn [negb Z.eqb]. eapply (agrees_bind [] []).
    + apply (agrees_install _ owner _ slot all_rights p entry); try done. lia.
    + rewrite (plain_install _ owner _ slot all_rights p entry Hp' He) by lia. cbn [fst snd negb Z.eqb bind modify].
      apply agrees_get, agrees_put_other; [done|done|]. by apply agrees_ret.
Qed.
End create.

Lemma plain_create owner handle m : valid m → plain (ipc_create owner handle) m = create m owner handle.
Proof.
  intros Hv. unfold create. destruct (process_at m owner) as [p|] eqn:Hp.
  2: { unfold ipc_create. cbn [bind process plain]. by rewrite Hp. }
  destruct handle as [handle|]; [|unfold ipc_create; cbn [bind process plain]; by rewrite Hp].
  destruct (is_running p) eqn:Hr; cbn [negb]; [|unfold ipc_create; cbn [bind process plain]; by rewrite Hp, Hr].
  destruct (free_record_range m) as [Hf|[Hf _]].
  { unfold ipc_create. cbn [bind process plain]. rewrite Hp, Hr. cbn [negb]. rewrite plain_bind, plain_free_record, Hf. cbn [fst snd Z.eqb].
    change (-1 =? IPC_EINTEGRITY) with false. change (-1 <? 0) with true. rewrite orb_true_r. by destruct (free_process_capability_slot p). }
  destruct (free_process_capability_slot p) as [entry|] eqn:He.
  2: { unfold ipc_create. cbn [bind process plain]. rewrite Hp, Hr. cbn [negb]. rewrite plain_bind, plain_free_record. cbn [fst snd].
    rewrite (proj2 (Z.eqb_neq (free_record m) IPC_EINTEGRITY)) by (unfold IPC_EINTEGRITY; lia). by rewrite He. }
  rewrite (proj2 (Z.ltb_ge (free_record m) 0)) by lia. destruct (search endpoint_slots m) as [[slot|] m1] eqn:Hsearch.
  { rewrite (plain_create_found m owner p entry slot m1 Hv Hp Hr He) by (done || lia). done. }
  unfold ipc_create. cbn [bind process plain]. rewrite Hp, Hr. cbn [negb]. rewrite plain_bind, plain_free_record. cbn [fst snd].
  rewrite (proj2 (Z.eqb_neq (free_record m) IPC_EINTEGRITY)) by (unfold IPC_EINTEGRITY; lia). rewrite He.
  rewrite (proj2 (Z.ltb_ge (free_record m) 0)) by lia. cbn [present negb orb]. by rewrite plain_bind, plain_create_loop, Hsearch.
Qed.

(** Rejections are counted. *)
Lemma agrees_rejected {A} (x : A) m : agrees [] 0 (modify capacity_rejected;;; Ret x) m [].
Proof. cbn [bind modify]. apply agrees_get, agrees_put_other; [done|done|]. by apply agrees_ret. Qed.
Lemma valid_rejected m : valid m → valid (capacity_rejected m).
Proof. by apply valid_other. Qed.
#[export] Hint Resolve valid_rejected : core.

Lemma agrees_create owner handle m : valid m → agrees [] 20 (ipc_create owner handle) m [].
Proof.
  intros Hv. destruct (process_at m owner) as [p|] eqn:Hp.
  2: { unfold ipc_create. cbn [bind process]. apply agrees_get. rewrite Hp. by apply agrees_ret. }
  destruct handle as [handle|]; [|unfold ipc_create; cbn [bind process]; apply agrees_get; rewrite Hp; by apply agrees_ret].
  destruct (is_running p) eqn:Hr.
  2: { unfold ipc_create. cbn [bind process]. apply agrees_get. rewrite Hp, Hr. by apply agrees_ret. }
  assert (Hstart : ∀ k : Z → prog (Z * option Z), agrees [] 20 (k (free_record m)) m [] → agrees [] 20 (bind free_capability_record k) m []).
  { intros k Hk. change 20 with (0 + 20). eapply (agrees_bind [] []); [by apply agrees_free_record|]. rewrite plain_free_record. exact Hk. }
  destruct (free_process_capability_slot p) as [entry|] eqn:He.
  2: { unfold ipc_create. cbn [bind process]. apply agrees_get. rewrite Hp, Hr. cbn [negb]. apply Hstart. rewrite He. cbn [present negb orb].
    destruct (_ =? _); [by apply agrees_ret|]. eapply agrees_more; [|apply agrees_rejected]. lia. }
  destruct (free_record_range m) as [Hf|[Hf _]].
  { unfold ipc_create. cbn [bind process]. apply agrees_get. rewrite Hp, Hr. cbn [negb]. apply Hstart. rewrite Hf.
    change (-1 =? IPC_EINTEGRITY) with false. change (-1 <? 0) with true. rewrite orb_true_r.
    eapply agrees_more; [|apply agrees_rejected]. lia. }
  destruct (search endpoint_slots m) as [[slot|] m1] eqn:Hse; [apply (agrees_create_found m owner p entry slot m1); done || lia|].
  unfold ipc_create. cbn [bind process]. apply agrees_get. rewrite Hp, Hr. cbn [negb]. apply Hstart. rewrite He.
  rewrite (proj2 (Z.eqb_neq (free_record m) IPC_EINTEGRITY)) by (unfold IPC_EINTEGRITY; lia). rewrite (proj2 (Z.ltb_ge (free_record m) 0)) by lia.
  cbn [present negb orb]. change 20 with (16 + 4).
  eapply (agrees_bind [] []); [by apply agrees_search|].
  rewrite plain_create_loop, Hse. cbn [fst snd]. eapply agrees_more; [|apply agrees_rejected]. lia.
Qed.

Lemma valid_create owner handle m : valid m → valid (create m owner handle).2.
Proof.
  intros Hv. unfold create. destruct (process_at m owner) as [p|] eqn:Hp; [|done]. destruct handle as [handle|]; [|done].
  destruct (is_running p) eqn:Hr; cbn [negb]; [|done]. destruct (free_process_capability_slot p) as [entry|] eqn:He; [|by apply valid_rejected].
  destruct (Z.ltb_spec (free_record m) 0); [by apply valid_rejected|].
  destruct (search endpoint_slots m) as [[slot|] m1] eqn:Hse.
  - by apply (valid_created m owner p entry slot m1).
  - apply valid_rejected. by destruct (search_spec _ _ _ _ Hv endpoint_slots_range Hse).
Qed.

(** ** Sending *)
(** The reference of one round of [ipc_send_timeout]. *)
Definition send (m : mem) (sender handle : Z) (msg : ipc_message_t) (timeout_ms deadline now : Z) : option Z * mem :=
  let m1 := scanned m sender handle in
  match resolved m sender handle IPC_RIGHT_SEND with
  | inl result => (Some result, m1)
  | inr slot =>
    let e := endpoint_at m slot in let p := default no_process (process_at m sender) in
    if peer_seen e && (peer_capabilities e =? 0) then (Some IPC_EPIPE, m1)
    else if count e <? IPC_QUEUE_DEPTH then (Some 0, sent m1 slot msg (pid p) (p_generation p))
    else waited m1 slot p IPC_RIGHT_RECEIVE timeout_ms deadline now true Block_send
  end.

Lemma valid_scanned m pointer handle : valid m → valid (scanned m pointer handle).
Proof. by apply valid_other. Qed.
#[export] Hint Resolve valid_scanned : core.

(** The identity behind an authority. *)
Lemma authority_identity m pointer handle required slot p i : valid m → authority m pointer handle required slot p i →
  identity_ok (pid p) (p_generation p).
Proof. intros Hv [Hp Hr]. destruct (process_at_valid m pointer p Hv Hp) as (Hvp & _). by apply Hvp. Qed.

Ltac resolve_case Hv Hres :=
  match goal with |- context [resolved ?m ?pointer ?handle ?r] =>
    destruct (resolved m pointer handle r) as [result|slot] eqn:Hres end.

Lemma plain_send m sender handle msg timeout_ms deadline now : valid m →
  plain (send_round sender handle msg timeout_ms deadline now) m = send m sender handle msg timeout_ms deadline now.
Proof.
  intros Hv. unfold send_round, send. rewrite plain_bind, plain_resolve. cbn [fst snd]. resolve_case Hv Hres; [done|].
  destruct (resolved_authority _ _ _ _ _ Hres) as (p & i & Hau). pose proof (au_process _ _ _ _ _ _ _ Hau) as Hp.
  pose proof (au_range _ _ _ _ _ _ _ Hau) as Hs. pose proof (valid_scanned m sender handle Hv) as Hv1.
  cbn [bind endpoint the_process process plain]. change (process_at (scanned m sender handle) sender) with (process_at m sender).
  change (endpoint_at (scanned m sender handle) slot) with (endpoint_at m slot). rewrite Hp. cbn [default from_option id].
  destruct (_ && _); [done|]. unfold IPC_QUEUE_DEPTH. destruct (Z.ltb_spec (count (endpoint_at m slot)) 4).
  - rewrite plain_bind, plain_enqueue by (done || by apply valid_shape). done.
  - apply plain_wait; [by apply valid_shape|done].
Qed.

Lemma valid_send m sender handle msg timeout_ms deadline now : valid m → message_in msg → valid (send m sender handle msg timeout_ms deadline now).2.
Proof.
  intros Hv Hm. unfold send. resolve_case Hv Hres; [by apply valid_scanned|].
  destruct (resolved_authority _ _ _ _ _ Hres) as (p & i & Hau). pose proof (authority_identity _ _ _ _ _ _ _ Hv Hau) as Hid.
  destruct Hau as [Hproc Hrun Hent Hhan Hidx Hfirst Hrec Hrh Hhold Hsl Hrig Hs Hact]. rewrite Hproc. cbn [default from_option id]. destruct (_ && _); [by apply valid_scanned|]. unfold IPC_QUEUE_DEPTH.
  destruct (Z.ltb_spec (count (endpoint_at m slot)) 4); cbn [snd]; [|by apply valid_waited, valid_scanned].
  apply valid_sent; [by apply valid_scanned|done|by right|done|done].
Qed.

(** After enqueueing, the quarantine branch is dead. *)
Lemma agrees_then {A B} c1 c2 (p : prog A) (f : A → prog B) m x m' : plain p m = (x, m') → agrees [] c1 p m [] → agrees [] c2 (f x) m' [] →
  agrees [] (c1 + c2) (bind p f) m [].
Proof. intros E Hp Hf. eapply agrees_bind; [exact Hp|]. by rewrite E. Qed.

Lemma agrees_send m sender handle msg timeout_ms deadline now : valid m → message_in msg →
  agrees [] 140 (send_round sender handle msg timeout_ms deadline now) m [].
Proof.
  intros Hv Hm. unfold send_round. change 140 with (0 + 140).
  eapply agrees_then; [apply plain_resolve|apply agrees_resolve; [done|intros i; apply not_elem_of_nil]|].
  resolve_case Hv Hres; [by apply agrees_ret|]. destruct (resolved_authority _ _ _ _ _ Hres) as (p & i & Hau).
  pose proof (authority_identity _ _ _ _ _ _ _ Hv Hau) as Hid. destruct Hau as [Hproc Hrun Hent Hhan Hidx Hfirst Hrec Hrh Hhold Hsl Hrig Hs Hact]. pose proof (valid_scanned m sender handle Hv) as Hv1.
  cbn [bind endpoint the_process process]. apply agrees_get, agrees_get.
  change (process_at (scanned m sender handle) sender) with (process_at m sender).
  change (endpoint_at (scanned m sender handle) slot) with (endpoint_at m slot). rewrite Hproc. cbn [default from_option id].
  destruct (_ && _); [by apply agrees_ret|]. unfold IPC_QUEUE_DEPTH. destruct (Z.ltb_spec (count (endpoint_at m slot)) 4).
  - change 140 with (2 + 138). eapply agrees_then; [apply plain_enqueue; [by apply valid_shape|done|done]|apply agrees_enqueue; try done; by right|].
    by apply agrees_ret.
  - apply (agrees_more _ 130); [lia|]. by apply agrees_wait.
Qed.

(** The reference of one round of [ipc_send_bulk_timeout]. *)
Definition send_bulk (m : mem) (sender handle : Z) (msg : ipc_bulk_message_t) (timeout_ms deadline now : Z) : option Z * mem :=
  let m1 := scanned m sender handle in
  match resolved m sender handle IPC_RIGHT_SEND with
  | inl result => (Some result, m1)
  | inr slot =>
    let e := endpoint_at m slot in let p := default no_process (process_at m sender) in
    if peer_seen e && (peer_capabilities e =? 0) then (Some IPC_EPIPE, m1)
    else if negb (bulk_active e) then (Some 0, bulk_sent m1 slot msg (pid p) (p_generation p))
    else waited m1 slot p IPC_RIGHT_RECEIVE timeout_ms deadline now true Block_send
  end.

Lemma plain_send_bulk m sender handle msg timeout_ms deadline now : valid m →
  plain (send_bulk_round sender handle msg timeout_ms deadline now) m = send_bulk m sender handle msg timeout_ms deadline now.
Proof.
  intros Hv. unfold send_bulk_round, send_bulk. rewrite plain_bind, plain_resolve. cbn [fst snd]. resolve_case Hv Hres; [done|].
  destruct (resolved_authority _ _ _ _ _ Hres) as (p & i & Hau). pose proof (au_process _ _ _ _ _ _ _ Hau) as Hp.
  pose proof (au_range _ _ _ _ _ _ _ Hau) as Hs. pose proof (valid_scanned m sender handle Hv) as Hv1.
  cbn [bind load_bulk negb Z.eqb endpoint the_process process plain].
  change (process_at (scanned m sender handle) sender) with (process_at m sender).
  change (endpoint_at (scanned m sender handle) slot) with (endpoint_at m slot). rewrite Hp. cbn [default from_option id].
  destruct (_ && _); [done|]. destruct (bulk_active (endpoint_at m slot)) eqn:Hb; cbn [negb].
  - apply plain_wait; [by apply valid_shape|done].
  - rewrite plain_bind, plain_enqueue_bulk by (done || by apply valid_shape). done.
Qed.

Lemma valid_send_bulk m sender handle msg timeout_ms deadline now : valid m → bulk_in msg →
  valid (send_bulk m sender handle msg timeout_ms deadline now).2.
Proof.
  intros Hv Hm. unfold send_bulk. resolve_case Hv Hres; [by apply valid_scanned|].
  destruct (resolved_authority _ _ _ _ _ Hres) as (p & i & Hau). pose proof (authority_identity _ _ _ _ _ _ _ Hv Hau) as Hid.
  destruct Hau as [Hproc Hrun Hent Hhan Hidx Hfirst Hrec Hrh Hhold Hsl Hrig Hs Hact]. rewrite Hproc. cbn [default from_option id].
  destruct (_ && _); [by apply valid_scanned|]. destruct (bulk_active _); cbn [negb snd]; [by apply valid_waited, valid_scanned|].
  by apply valid_bulk_sent; [apply valid_scanned|..].
Qed.

Lemma agrees_send_bulk m sender handle msg timeout_ms deadline now : valid m → bulk_in msg →
  agrees [] 140 (send_bulk_round sender handle msg timeout_ms deadline now) m [].
Proof.
  intros Hv Hm. unfold send_bulk_round. change 140 with (0 + 140).
  eapply agrees_then; [apply plain_resolve|apply agrees_resolve; [done|intros i; apply not_elem_of_nil]|].
  resolve_case Hv Hres; [by apply agrees_ret|]. destruct (resolved_authority _ _ _ _ _ Hres) as (p & i & Hau).
  pose proof (authority_identity _ _ _ _ _ _ _ Hv Hau) as Hid. pose proof (valid_scanned m sender handle Hv) as Hv1.
  destruct Hau as [Hproc Hrun Hent Hhan Hidx Hfirst Hrec Hrh Hhold Hsl Hrig Hs Hact].
  cbn [bind load_bulk]. apply agrees_load_bulk; [done|by apply not_elem_of_nil|by apply valid_bulk_active, valid_at|].
  cbn [negb Z.eqb bind endpoint the_process process]. apply agrees_get, agrees_get.
  change (process_at (scanned m sender handle) sender) with (process_at m sender).
  change (endpoint_at (scanned m sender handle) slot) with (endpoint_at m slot). rewrite Hproc. cbn [default from_option id].
  destruct (_ && _); [by apply agrees_ret|]. destruct (bulk_active (endpoint_at m slot)) eqn:Hb; cbn [negb].
  - apply (agrees_more _ 130); [lia|]. by apply agrees_wait.
  - change 140 with (2 + 138). eapply agrees_then; [apply plain_enqueue_bulk; [by apply valid_shape|done]|by apply agrees_enqueue_bulk|].
    by apply agrees_ret.
Qed.

(** ** Receiving *)
(** The reference of one round of [ipc_receive_timeout]. *)
Definition receive (m : mem) (receiver handle : Z) (msg : ipc_message_t) (timeout_ms deadline now : Z) : option Z * ipc_message_t * mem :=
  let m1 := scanned m receiver handle in
  match resolved m receiver handle IPC_RIGHT_RECEIVE with
  | inl result => (Some result, msg, m1)
  | inr slot =>
    let e := endpoint_at m slot in let p := default no_process (process_at m receiver) in
    let o := receivable p e in
    if 0 <=? o then (Some 0, pm_message (at_offset e o), add_call (taken m1 slot o) (Wake_one_send slot))
    else if peer_seen e && (peer_capabilities e =? 0) then (Some IPC_EPIPE, msg, m1)
    else let '(result, m2) := waited m1 slot p IPC_RIGHT_SEND timeout_ms deadline now false Block_receive in (result, msg, m2)
  end.

Lemma receivable_code p e : (receivable p e =? IPC_EINTEGRITY) = false.
Proof.
  apply Z.eqb_neq. unfold receivable, IPC_EINTEGRITY. destruct (list_find _ _) as [[o v]|]; [|done]. lia.
Qed.

Lemma plain_receive m receiver handle msg timeout_ms deadline now : valid m →
  plain (receive_round receiver handle msg timeout_ms deadline now) m = receive m receiver handle msg timeout_ms deadline now.
Proof.
  intros Hv. unfold receive_round, receive. rewrite plain_bind, plain_resolve. cbn [fst snd]. resolve_case Hv Hres; [done|].
  destruct (resolved_authority _ _ _ _ _ Hres) as (p & i & Hau). pose proof (au_process _ _ _ _ _ _ _ Hau) as Hp.
  pose proof (au_range _ _ _ _ _ _ _ Hau) as Hs. pose proof (valid_scanned m receiver handle Hv) as Hv1.
  cbn [bind the_process process plain]. change (process_at (scanned m receiver handle) receiver) with (process_at m receiver). rewrite Hp.
  cbn [default from_option id]. rewrite plain_bind, plain_receivable. cbn [fst snd]. rewrite receivable_code.
  change (endpoint_at (scanned m receiver handle) slot) with (endpoint_at m slot). destruct (Z.leb_spec 0 (receivable p (endpoint_at m slot))) as [Ho|Ho].
  - destruct (receivable_found _ _ _ eq_refl Ho) as (Hr & _). rewrite plain_bind, plain_remove_message by done. done.
  - cbn [bind endpoint plain]. change (endpoint_at (scanned m receiver handle) slot) with (endpoint_at m slot).
    destruct (_ && _); [done|]. rewrite plain_bind, plain_wait by (done || by apply valid_shape).
    by destruct (waited _ _ _ _ _ _ _ _ _).
Qed.

Lemma valid_receive m receiver handle msg timeout_ms deadline now : valid m → valid (receive m receiver handle msg timeout_ms deadline now).2.
Proof.
  intros Hv. unfold receive. resolve_case Hv Hres; [by apply valid_scanned|]. pose proof (valid_scanned m receiver handle Hv) as Hv1.
  set (p := default no_process (process_at m receiver)). destruct (Z.leb_spec 0 (receivable p (endpoint_at m slot))) as [Ho|Ho].
  - destruct (receivable_found _ _ _ eq_refl Ho) as (Hr & _). apply (valid_other (taken (scanned m receiver handle) slot (receivable p (endpoint_at m slot)))); [done..|].
    by apply valid_taken.
  - destruct (_ && _); [done|].
    pose proof (valid_waited _ slot p IPC_RIGHT_SEND timeout_ms deadline now false Block_receive Hv1) as Hw. by destruct (waited _ _ _ _ _ _ _ _ _).
Qed.

Lemma agrees_receive m receiver handle msg timeout_ms deadline now : valid m →
  agrees [] 140 (receive_round receiver handle msg timeout_ms deadline now) m [].
Proof.
  intros Hv. unfold receive_round. change 140 with (0 + (0 + 140)).
  eapply agrees_then; [apply plain_resolve|apply agrees_resolve; [done|intros i; apply not_elem_of_nil]|].
  resolve_case Hv Hres; [by apply agrees_ret|]. destruct (resolved_authority _ _ _ _ _ Hres) as (p & i & Hau).
  pose proof (valid_scanned m receiver handle Hv) as Hv1. destruct Hau as [Hproc Hrun Hent Hhan Hidx Hfirst Hrec Hrh Hhold Hsl Hrig Hs Hact].
  cbn [bind the_process process]. apply agrees_get.
  change (process_at (scanned m receiver handle) receiver) with (process_at m receiver). rewrite Hproc. cbn [default from_option id].
  eapply agrees_then; [apply plain_receivable|by apply agrees_receivable|]. rewrite receivable_code.
  change (endpoint_at (scanned m receiver handle) slot) with (endpoint_at m slot). destruct (Z.leb_spec 0 (receivable p (endpoint_at m slot))) as [Ho|Ho].
  - destruct (receivable_found _ _ _ eq_refl Ho) as (Hr & _). change 140 with (4 + 136).
    eapply agrees_then; [by apply plain_remove_message|by apply agrees_remove_message|].
    cbn [negb Z.eqb bind call modify]. apply agrees_get, agrees_put_other; [done|done|]. by apply agrees_ret.
  - cbn [bind endpoint]. apply agrees_get. destruct (_ && _); [by apply agrees_ret|]. change 140 with (130 + 10).
    eapply (agrees_bind [] []); [by apply agrees_wait|by apply agrees_ret].
Qed.

(** The reference of one round of [ipc_receive_bulk_timeout]. *)
Definition receive_bulk (m : mem) (receiver handle : Z) (msg : ipc_bulk_message_t) (timeout_ms deadline now : Z)
    : option Z * ipc_bulk_message_t * mem :=
  let m1 := scanned m receiver handle in
  match resolved m receiver handle IPC_RIGHT_RECEIVE with
  | inl result => (Some result, msg, m1)
  | inr slot =>
    let e := endpoint_at m slot in let p := default no_process (process_at m receiver) in
    let o := receivable p e in
    if 0 <=? o then (Some 0, small_as_bulk (pm_message (at_offset e o)), add_call (taken m1 slot o) (Wake_one_send slot))
    else if bulk_active e && (negb (bulk_sender_pid e =? pid p) || negb (bulk_sender_generation e =? p_generation p))
    then (Some 0, bulk_message e, add_call (bulk_taken m1 slot) (Wake_one_send slot))
    else if peer_seen e && (peer_capabilities e =? 0) then (Some IPC_EPIPE, msg, m1)
    else let '(result, m2) := waited m1 slot p IPC_RIGHT_SEND timeout_ms deadline now false Block_receive in (result, msg, m2)
  end.

Lemma plain_receive_bulk m receiver handle msg timeout_ms deadline now : valid m →
  plain (receive_bulk_round receiver handle msg timeout_ms deadline now) m = receive_bulk m receiver handle msg timeout_ms deadline now.
Proof.
  intros Hv. unfold receive_bulk_round, receive_bulk. rewrite plain_bind, plain_resolve. cbn [fst snd]. resolve_case Hv Hres; [done|].
  destruct (resolved_authority _ _ _ _ _ Hres) as (p & i & Hau). pose proof (au_process _ _ _ _ _ _ _ Hau) as Hp.
  pose proof (au_range _ _ _ _ _ _ _ Hau) as Hs. pose proof (valid_scanned m receiver handle Hv) as Hv1.
  cbn [bind the_process process plain]. change (process_at (scanned m receiver handle) receiver) with (process_at m receiver). rewrite Hp.
  cbn [default from_option id]. rewrite plain_bind, plain_receivable. cbn [fst snd]. rewrite receivable_code.
  change (endpoint_at (scanned m receiver handle) slot) with (endpoint_at m slot). destruct (Z.leb_spec 0 (receivable p (endpoint_at m slot))) as [Ho|Ho].
  - destruct (receivable_found _ _ _ eq_refl Ho) as (Hr & _). rewrite plain_bind, plain_remove_message by done. done.
  - cbn [bind load_bulk negb Z.eqb endpoint plain]. change (endpoint_at (scanned m receiver handle) slot) with (endpoint_at m slot).
    destruct (bulk_active (endpoint_at m slot)) eqn:Hb; cbn [andb]; [destruct (_ || _)|].
    + rewrite plain_bind, plain_remove_bulk by done. done.
    + destruct (_ && _); [done|]. rewrite plain_bind, plain_wait by (done || by apply valid_shape). by destruct (waited _ _ _ _ _ _ _ _ _).
    + destruct (_ && _); [done|]. rewrite plain_bind, plain_wait by (done || by apply valid_shape). by destruct (waited _ _ _ _ _ _ _ _ _).
Qed.

Lemma valid_receive_bulk m receiver handle msg timeout_ms deadline now : valid m →
  valid (receive_bulk m receiver handle msg timeout_ms deadline now).2.
Proof.
  intros Hv. unfold receive_bulk. resolve_case Hv Hres; [by apply valid_scanned|]. pose proof (valid_scanned m receiver handle Hv) as Hv1.
  set (p := default no_process (process_at m receiver)). destruct (Z.leb_spec 0 (receivable p (endpoint_at m slot))) as [Ho|Ho].
  - destruct (receivable_found _ _ _ eq_refl Ho) as (Hr & _). apply (valid_other (taken (scanned m receiver handle) slot (receivable p (endpoint_at m slot)))); [done..|].
    by apply valid_taken.
  - destruct (_ && _).
    { apply (valid_other (bulk_taken (scanned m receiver handle) slot)); [done..|]. by apply valid_bulk_taken. }
    destruct (_ && _); [done|].
    pose proof (valid_waited _ slot p IPC_RIGHT_SEND timeout_ms deadline now false Block_receive Hv1) as Hw. by destruct (waited _ _ _ _ _ _ _ _ _).
Qed.

Lemma agrees_receive_bulk m receiver handle msg timeout_ms deadline now : valid m →
  agrees [] 140 (receive_bulk_round receiver handle msg timeout_ms deadline now) m [].
Proof.
  intros Hv. unfold receive_bulk_round. change 140 with (0 + (0 + 140)).
  eapply agrees_then; [apply plain_resolve|apply agrees_resolve; [done|intros i; apply not_elem_of_nil]|].
  resolve_case Hv Hres; [by apply agrees_ret|]. destruct (resolved_authority _ _ _ _ _ Hres) as (p & i & Hau).
  pose proof (valid_scanned m receiver handle Hv) as Hv1. destruct Hau as [Hproc Hrun Hent Hhan Hidx Hfirst Hrec Hrh Hhold Hsl Hrig Hs Hact].
  cbn [bind the_process process]. apply agrees_get.
  change (process_at (scanned m receiver handle) receiver) with (process_at m receiver). rewrite Hproc. cbn [default from_option id].
  eapply agrees_then; [apply plain_receivable|by apply agrees_receivable|]. rewrite receivable_code.
  change (endpoint_at (scanned m receiver handle) slot) with (endpoint_at m slot). destruct (Z.leb_spec 0 (receivable p (endpoint_at m slot))) as [Ho|Ho].
  - destruct (receivable_found _ _ _ eq_refl Ho) as (Hr & _). change 140 with (4 + 136).
    eapply agrees_then; [by apply plain_remove_message|by apply agrees_remove_message|].
    cbn [negb Z.eqb bind call modify]. apply agrees_get, agrees_put_other; [done|done|]. by apply agrees_ret.
  - cbn [bind load_bulk]. apply agrees_load_bulk; [done|by apply not_elem_of_nil|by apply valid_bulk_active, valid_at|].
    cbn [negb Z.eqb bind endpoint]. apply agrees_get. change (endpoint_at (scanned m receiver handle) slot) with (endpoint_at m slot).
    destruct (bulk_active (endpoint_at m slot) && _) eqn:Hb.
    { apply andb_true_iff in Hb as [Hb _]. change 140 with (2 + 138).
      eapply agrees_then; [by apply plain_remove_bulk|by apply agrees_remove_bulk|].
      cbn [negb Z.eqb bind call modify]. apply agrees_get, agrees_put_other; [done|done|]. by apply agrees_ret. }
    clear Hb. destruct (_ && _); [by apply agrees_ret|]. change 140 with (130 + 10).
    eapply (agrees_bind [] []); [by apply agrees_wait|by apply agrees_ret].
Qed.
