(* ===== verification/IpcControl.v ===== *)
(** The remaining calls of the IPC on the reference: messages from inside the
    kernel, validation, and the end of endpoints and records. *)
From S2P Require Import Prelude ProtectedStore Layout ProtectedRecord Ipc IpcSpec IpcPlain IpcHelpers IpcCaps IpcQueue IpcCalls.
Import Ipc.
Local Open Scope ipc_scope.

(** ** Messages from inside the kernel *)
Definition is_peer (m : mem) (slot i : Z) : bool :=
  let r := record_at m i in r_active r && (endpoint_slot r =? slot) && (Z.land (rights r) IPC_RIGHT_CONTROL =? 0).

(** [None]: a second peer. *)
Fixpoint find_peer (m : mem) (slot : Z) (slots : list Z) (peer : option Z) : option (option Z) :=
  match slots with
  | [] => Some peer
  | i :: slots =>
    if is_peer m slot i then match peer with Some _ => None | None => find_peer m slot slots (Some i) end
    else find_peer m slot slots peer
  end.

Lemma plain_peer_loop slot slots peer m : shape m → 0 <= slot < 16 →
  plain (peer_loop slot slots peer) m =
  match find_peer m slot slots peer with Some peer => (inr peer, m) | None => (inl IPC_EINTEGRITY, quarantined slot m) end.
Proof.
  intros Hsh Hs. revert peer. induction slots as [|i slots IH]; intros peer; [done|].
  cbn [peer_loop find_peer bind load_capability plain negb Z.eqb record]. unfold is_peer. destruct (_ && _ && _); [|apply IH].
  destruct peer; [by rewrite plain_bind, plain_quarantine|apply IH].
Qed.
Lemma agrees_peer_loop slot slots peer m : valid m → 0 <= slot < 16 → (∀ i, In i slots → 0 <= i < 64) →
  agrees [] 130 (peer_loop slot slots peer) m [].
Proof.
  intros Hv Hs Hr. revert peer. induction slots as [|i slots IH]; intros peer; [by apply agrees_ret|].
  assert (IH' := IH (λ j Hj, Hr j (or_intror Hj))). pose proof (Hr i (or_introl eq_refl)) as Hi.
  cbn [peer_loop bind load_capability]. apply agrees_load_capability; [done|by apply not_elem_of_nil|].
  cbn [negb Z.eqb bind record]. apply agrees_get. destruct (_ && _ && _); [|done]. destruct peer; [|done].
  change 130 with (130 + 0). eapply (agrees_bind [] []); [by apply agrees_quarantine|by apply agrees_ret].
Qed.
Lemma find_peer_range m slot slots peer i : (∀ j, In j slots → 0 <= j < 64) → find_peer m slot slots peer = Some (Some i) →
  peer = Some i ∨ (0 <= i < 64 ∧ is_peer m slot i = true).
Proof.
  revert peer. induction slots as [|j slots IH]; intros peer Hr; cbn [find_peer]; [intros [= ->]; by left|].
  assert (Hr' : ∀ k, In k slots → 0 <= k < 64) by (intros k Hk; apply Hr; by right). destruct (is_peer m slot j) eqn:Ep; [|by apply IH].
  destruct peer; [done|]. intros H. destruct (IH _ Hr' H) as [[= ->]|]; [|by right]. right. split; [apply Hr; by left|done].
Qed.

(** The reference of [enqueue_trusted]. *)
Definition enqueue (m : mem) (slot : Z) (msg : ipc_message_t) (p g : Z) : Z * mem :=
  if IPC_QUEUE_DEPTH <=? count (endpoint_at m slot) then (IPC_EAGAIN, capacity_rejected m) else (0, sent m slot msg p g).
Lemma plain_enqueue_trusted m slot msg p g : shape m → 0 <= slot < 16 → plain (enqueue_trusted slot msg p g) m = enqueue m slot msg p g.
Proof.
  intros Hsh Hs. unfold enqueue_trusted, enqueue, IPC_QUEUE_DEPTH. rewrite plain_bind.
  destruct (Z.leb_spec 4 (count (endpoint_at m slot))); [by rewrite plain_enqueue_full|by rewrite plain_enqueue].
Qed.
Lemma valid_enqueue m slot msg p g : valid m → message_in msg → sender_ok p g → active (endpoint_at m slot) = true → valid (enqueue m slot msg p g).2.
Proof.
  intros Hv Hm Hp Ha. unfold enqueue, IPC_QUEUE_DEPTH. destruct (Z.leb_spec 4 (count (endpoint_at m slot))); [by apply valid_rejected|].
  by apply valid_sent.
Qed.
Lemma agrees_enqueue_trusted m slot msg p g : valid m → 0 <= slot < 16 → message_in msg → sender_ok p g → active (endpoint_at m slot) = true →
  agrees [] 2 (enqueue_trusted slot msg p g) m [].
Proof.
  intros Hv Hs Hm Hp Ha. unfold enqueue_trusted. change 2 with (2 + 0).
  destruct (Z.leb_spec 4 (count (endpoint_at m slot))).
  - eapply agrees_then; [by apply plain_enqueue_full|by apply agrees_enqueue|by apply agrees_ret].
  - eapply agrees_then; [by apply plain_enqueue; [apply valid_shape|..]|by apply agrees_enqueue|by apply agrees_ret].
Qed.

(** The references of [ipc_send_external_from_peer] and [ipc_send_kernel_to_owner]. *)
Definition send_external (m : mem) (op og handle : Z) (message : option ipc_message_t) : Z * mem :=
  match message with
  | None => (IPC_EINVAL, m)
  | Some message =>
    if (s32 op <=? 0) || (og =? 0) || negb (message_valid message) then (IPC_EINVAL, m)
    else
    match decode_handle handle with
    | None => (IPC_EBADF, m)
    | Some (slot, generation_) =>
      if negb (owned_by (endpoint_at m slot) generation_ op og) then (IPC_EBADF, m)
      else
      match find_peer m slot capability_slots None with
      | None => (IPC_EINTEGRITY, quarantined slot m)
      | Some None => (IPC_EPIPE, m)
      | Some (Some i) =>
        let r := record_at m i in
        match process_at m (holder r) with
        | None => (IPC_EPIPE, m)
        | Some h =>
          if negb (is_running h) || negb (pid h =? holder_pid r) || negb (p_generation h =? holder_generation r) then (IPC_EPIPE, m)
          else enqueue m slot message (holder_pid r) (holder_generation r)
        end
      end
    end
  end.
Definition send_kernel (m : mem) (op og handle : Z) (message : option ipc_message_t) : Z * mem :=
  match message with
  | None => (IPC_EINVAL, m)
  | Some message =>
    if (s32 op <=? 0) || (og =? 0) || negb (message_valid message) then (IPC_EINVAL, m)
    else
    match decode_handle handle with
    | None => (IPC_EBADF, m)
    | Some (slot, generation_) =>
      if negb (owned_by (endpoint_at m slot) generation_ op og) then (IPC_EBADF, m) else enqueue m slot message 0 0
    end
  end.

Lemma plain_send_external m op og handle message : valid m →
  plain (ipc_send_external_from_peer op og handle message) m = send_external m op og handle message.
Proof.
  intros Hv. unfold ipc_send_external_from_peer, send_external. destruct message as [message|]; [|done]. destruct (_ || _); [done|].
  destruct (decode_handle handle) as [[slot g]|] eqn:Eh; [|done]. apply decode_handle_range in Eh. pose proof (valid_shape m Hv) as Hsh.
  cbn [bind load_endpoint plain negb Z.eqb endpoint]. destruct (negb _); [done|]. rewrite plain_bind, plain_peer_loop by done.
  destruct (find_peer m slot capability_slots None) as [[i|]|]; cbn [fst snd]; [|done|done]. cbn [bind record process plain].
  destruct (process_at m (holder (record_at m i))) as [h|]; [|done]. destruct (_ || _); [done|]. by apply plain_enqueue_trusted.
Qed.
Lemma plain_send_kernel m op og handle message : valid m →
  plain (ipc_send_kernel_to_owner op og handle message) m = send_kernel m op og handle message.
Proof.
  intros Hv. unfold ipc_send_kernel_to_owner, send_kernel. destruct message as [message|]; [|done]. destruct (_ || _); [done|].
  destruct (decode_handle handle) as [[slot g]|] eqn:Eh; [|done]. apply decode_handle_range in Eh. pose proof (valid_shape m Hv) as Hsh.
  cbn [bind load_endpoint plain negb Z.eqb endpoint]. destruct (negb _); [done|]. by apply plain_enqueue_trusted.
Qed.

Lemma owned_by_active e g op og : owned_by e g op og = true → active e = true.
Proof. unfold owned_by. rewrite !andb_true_iff. tauto. Qed.
Lemma peer_sender m slot i : valid m → is_peer m slot i = true → sender_ok (holder_pid (record_at m i)) (holder_generation (record_at m i)).
Proof.
  intros Hv Hp. unfold is_peer in Hp. rewrite !andb_true_iff in Hp. right. destruct Hp as [[Hp _] _]. by apply (vr_active _ (valid_record_at m i Hv)).
Qed.

(** A pointer to a message, possibly null or refused. *)
Definition message_opt (message : option ipc_message_t) : Prop :=
  match message with None => True | Some message => message_in message ∨ message_valid message = false end.
Lemma message_opt_in a b message : message_opt (Some message) → a || b || negb (message_valid message) = false → message_in message.
Proof. intros [|E]; [done|]. rewrite E. cbn [negb]. by rewrite orb_true_r. Qed.

Lemma valid_send_external m op og handle message : valid m → message_opt message → valid (send_external m op og handle message).2.
Proof.
  intros Hv Hm. unfold send_external. destruct message as [message|]; [|done]. destruct (_ || _) eqn:E0; [done|].
  pose proof (message_opt_in _ _ _ Hm E0) as Hm'. clear E0.
  destruct (decode_handle handle) as [[slot g]|] eqn:Eh; [|done]. destruct (owned_by _ _ _ _) eqn:Eo; cbn [negb]; [|done].
  destruct (find_peer m slot capability_slots None) as [[i|]|] eqn:Ef; [|done|by apply valid_quarantined].
  destruct (find_peer_range _ _ _ _ _ capability_slots_range Ef) as [|[Hi Hp]]; [done|].
  destruct (process_at m _) as [h|]; [|done]. destruct (_ || _); [done|].
  apply valid_enqueue; [done|done|by eapply peer_sender|by eapply owned_by_active].
Qed.
Lemma valid_send_kernel m op og handle message : valid m → message_opt message → valid (send_kernel m op og handle message).2.
Proof.
  intros Hv Hm. unfold send_kernel. destruct message as [message|]; [|done]. destruct (_ || _) eqn:E0; [done|].
  pose proof (message_opt_in _ _ _ Hm E0) as Hm'. clear E0.
  destruct (decode_handle handle) as [[slot g]|] eqn:Eh; [|done]. destruct (owned_by _ _ _ _) eqn:Eo; cbn [negb]; [|done].
  apply valid_enqueue; [done|done|by left|by eapply owned_by_active].
Qed.

Lemma agrees_send_external m op og handle message : valid m → message_opt message →
  agrees [] 140 (ipc_send_external_from_peer op og handle message) m [].
Proof.
  intros Hv Hm. unfold ipc_send_external_from_peer. destruct message as [message|]; [|by apply agrees_ret]. destruct (_ || _) eqn:E0; [by apply agrees_ret|].
  pose proof (message_opt_in _ _ _ Hm E0) as Hm'. clear E0.
  destruct (decode_handle handle) as [[slot g]|] eqn:Eh; [|by apply agrees_ret]. apply decode_handle_range in Eh.
  cbn [bind load_endpoint]. apply agrees_load_endpoint; [done|by apply not_elem_of_nil|]. cbn [negb Z.eqb bind endpoint]. apply agrees_get.
  destruct (owned_by _ _ _ _) eqn:Eo; cbn [negb]; [|by apply agrees_ret]. change 140 with (130 + 10).
  eapply (agrees_bind [] []); [by apply (agrees_peer_loop slot capability_slots); [..|apply capability_slots_range]|].
  rewrite plain_peer_loop by (done || by apply valid_shape).
  destruct (find_peer m slot capability_slots None) as [[i|]|] eqn:Ef; cbn [fst snd]; [|by apply agrees_ret..].
  destruct (find_peer_range _ _ _ _ _ capability_slots_range Ef) as [|[Hi Hp]]; [done|].
  cbn [bind record process]. apply agrees_get, agrees_get. destruct (process_at m _) as [h|]; [|by apply agrees_ret].
  destruct (_ || _); [by apply agrees_ret|]. apply (agrees_more _ 2); [lia|].
  apply agrees_enqueue_trusted; [done|done|done|by eapply peer_sender|by eapply owned_by_active].
Qed.
Lemma agrees_send_kernel m op og handle message : valid m → message_opt message →
  agrees [] 140 (ipc_send_kernel_to_owner op og handle message) m [].
Proof.
  intros Hv Hm. unfold ipc_send_kernel_to_owner. destruct message as [message|]; [|by apply agrees_ret]. destruct (_ || _) eqn:E0; [by apply agrees_ret|].
  pose proof (message_opt_in _ _ _ Hm E0) as Hm'. clear E0.
  destruct (decode_handle handle) as [[slot g]|] eqn:Eh; [|by apply agrees_ret]. apply decode_handle_range in Eh.
  cbn [bind load_endpoint]. apply agrees_load_endpoint; [done|by apply not_elem_of_nil|]. cbn [negb Z.eqb bind endpoint]. apply agrees_get.
  destruct (owned_by _ _ _ _) eqn:Eo; cbn [negb]; [|by apply agrees_ret]. apply (agrees_more _ 2); [lia|].
  apply agrees_enqueue_trusted; [done|done|done|by left|by eapply owned_by_active].
Qed.

(** ** Processes keep their identity *)
Definition same_process (p p' : Process) : Prop :=
  pid p' = pid p ∧ p_generation p' = p_generation p ∧ is_running p' = is_running p ∧
  length (ipc_capabilities p') = length (ipc_capabilities p).
Definition same_table (m m' : mem) : Prop := Forall2 same_process (processes m) (processes m').

#[export] Instance same_process_preorder : PreOrder same_process.
Proof.
  split; [done|]. intros p p' p'' (E1 & E2 & E3 & E4) (F1 & F2 & F3 & F4). split_and!; congruence.
Qed.
#[export] Instance same_table_preorder : PreOrder same_table.
Proof. unfold same_table. split; [by intros m|]. intros m m' m'' H1 H2. by etrans. Qed.
Lemma same_table_refl m : same_table m m.
Proof. done. Qed.
Lemma same_table_trans m m' m'' : same_table m m' → same_table m' m'' → same_table m m''.
Proof. by etrans. Qed.
Lemma same_table_other m m' : processes m' = processes m → same_table m m'.
Proof. intros E. unfold same_table. rewrite E. apply same_table_refl. Qed.
Lemma same_table_at m m' pointer p : same_table m m' → process_at m pointer = Some p →
  ∃ p', process_at m' pointer = Some p' ∧ same_process p p'.
Proof.
  unfold process_at. destruct (pointer <=? 0); [done|]. intros Ht Hp.
  destruct (Forall2_lookup_l _ _ _ _ _ Ht Hp) as (p' & E & Hs). by exists p'.
Qed.
Lemma same_table_set m pointer p p' : process_at m pointer = Some p → same_process p p' → same_table m (set_process m pointer p').
Proof.
  unfold process_at. destruct (Z.leb_spec pointer 0); [done|]. intros Hp Hs. unfold same_table. cbn.
  rewrite <- (list_insert_id (processes m) _ _ Hp) at 1. apply Forall2_insert; [apply (same_table_refl m)|done].
Qed.
Lemma same_set_capability p index c : same_process p (set_capability p index c).
Proof. split_and!; try done. cbn. by rewrite length_insert. Qed.

Lemma same_table_forget pointer handle m : same_table m (forget_capability pointer handle m).
Proof.
  unfold forget_capability. destruct (process_at m pointer) as [p|] eqn:Ep; [|apply same_table_refl].
  destruct (process_capability_slot p handle); [|apply same_table_refl]. eapply same_table_set; [done|apply same_set_capability].
Qed.
Lemma processes_drop_peer r m : processes (drop_peer r m) = processes m.
Proof. unfold drop_peer. by destruct (_ && _). Qed.
Lemma same_table_cleared i m : same_table m (cleared i m).
Proof.
  unfold cleared. destruct (negb _); [apply same_table_refl|]. set (r := record_at m i).
  apply (same_table_trans _ (drop_peer r m)); [apply same_table_other, processes_drop_peer|].
  apply (same_table_trans _ (forget_entry r (drop_peer r m))); [|by apply same_table_other].
  unfold forget_entry. destruct (process_at _ _); [|apply same_table_refl]. destruct (_ && _); [apply same_table_forget|apply same_table_refl].
Qed.
Lemma same_table_clear_all f slots m : same_table m (clear_all f slots m).
Proof.
  revert m. induction slots as [|i slots IH]; intros m; [apply same_table_refl|]. cbn [clear_all].
  eapply same_table_trans; [|apply IH]. destruct (_ && _); [apply same_table_cleared|apply same_table_refl].
Qed.
Lemma same_table_shut slot m : same_table m (shut_at slot m).
Proof. apply same_table_other. unfold shut_at. cbn. apply account_closed_same. Qed.
Lemma same_table_end f slots slot m : same_table m (woken slot (clear_all f slots (shut_at slot m))).
Proof.
  etrans; [apply (same_table_shut slot)|]. etrans; [apply (same_table_clear_all f slots)|]. by apply same_table_other.
Qed.
Lemma same_table_revoked slot m : same_table m (revoked slot m).
Proof. apply same_table_end. Qed.
Lemma same_table_quarantined slot m : same_table m (quarantined slot m).
Proof. apply same_table_end. Qed.

(** ** Closing *)
(** The reference of [ipc_close]. *)
Definition forget_at (pointer : Z) (entry : option nat) (m : mem) : mem :=
  match entry with
  | None => m
  | Some index => set_process m pointer (set_capability (default no_process (process_at m pointer)) index zero_capability)
  end.
Definition close (m : mem) (pointer handle : Z) : Z * mem :=
  let m1 := scanned m pointer handle in
  match resolved m pointer handle IPC_RIGHT_CONTROL with
  | inl result => (result, m1)
  | inr slot =>
    let e := endpoint_at m slot in let p := default no_process (process_at m pointer) in
    if negb (owner_pid e =? pid p) || negb (owner_generation e =? p_generation p) then (IPC_EACCES, m1)
    else (0, forget_at pointer (process_capability_slot p handle) (revoked slot m1))
  end.

Lemma plain_close m pointer handle : valid m → plain (ipc_close pointer handle) m = close m pointer handle.
Proof.
  intros Hv. unfold ipc_close, close. rewrite plain_bind, plain_resolve. cbn [fst snd]. resolve_case Hv Hres; [done|].
  destruct (resolved_authority _ _ _ _ _ Hres) as (p & i & Hau). pose proof (au_process _ _ _ _ _ _ _ Hau) as Hp.
  pose proof (au_range _ _ _ _ _ _ _ Hau) as Hs. pose proof (valid_scanned m pointer handle Hv) as Hv1.
  cbn [bind endpoint the_process process plain]. change (process_at (scanned m pointer handle) pointer) with (process_at m pointer).
  change (endpoint_at (scanned m pointer handle) slot) with (endpoint_at m slot). rewrite Hp. cbn [default from_option id].
  destruct (_ || _); [done|]. rewrite plain_bind, plain_revoke by (done || by apply valid_shape). cbn [fst snd].
  destruct (process_capability_slot p handle); [|done]. done.
Qed.
Lemma valid_forget_at pointer entry m : valid m → process_at m pointer ≠ None → valid (forget_at pointer entry m).
Proof.
  intros Hv Hp. unfold forget_at. destruct entry as [index|]; [|done]. destruct (process_at m pointer) as [p|] eqn:E; [|done].
  apply valid_set_process; [done|]. apply valid_set_capability. by eapply process_at_valid.
Qed.
Lemma process_revoked m slot pointer p : process_at m pointer = Some p → process_at (revoked slot m) pointer ≠ None.
Proof. intros Hp. destruct (same_table_at _ _ _ _ (same_table_revoked slot m) Hp) as (p' & -> & _). done. Qed.
Lemma valid_close m pointer handle : valid m → valid (close m pointer handle).2.
Proof.
  intros Hv. unfold close. resolve_case Hv Hres; [by apply valid_scanned|].
  destruct (resolved_authority _ _ _ _ _ Hres) as (p & i & Hau). pose proof (au_process _ _ _ _ _ _ _ Hau) as Hp. rewrite Hp.
  cbn [default from_option id]. destruct (_ || _); [by apply valid_scanned|]. cbn [snd].
  apply valid_forget_at; [by apply valid_revoked, valid_scanned|]. by eapply process_revoked.
Qed.
Lemma agrees_close m pointer handle : valid m → agrees [] 130 (ipc_close pointer handle) m [].
Proof.
  intros Hv. unfold ipc_close. change 130 with (0 + (130 + 0)).
  eapply agrees_then; [apply plain_resolve|apply agrees_resolve; [done|intros i; apply not_elem_of_nil]|].
  resolve_case Hv Hres; [by apply agrees_ret|]. destruct (resolved_authority _ _ _ _ _ Hres) as (p & i & Hau).
  pose proof (valid_scanned m pointer handle Hv) as Hv1. pose proof (au_range _ _ _ _ _ _ _ Hau) as Hs.
  pose proof (au_process _ _ _ _ _ _ _ Hau) as Hp.
  cbn [bind endpoint the_process process]. apply agrees_get, agrees_get.
  change (process_at (scanned m pointer handle) pointer) with (process_at m pointer).
  change (endpoint_at (scanned m pointer handle) slot) with (endpoint_at m slot). rewrite Hp. cbn [default from_option id].
  destruct (_ || _); [by apply agrees_ret|].
  eapply agrees_then; [by apply plain_revoke; [apply valid_shape|]|by apply agrees_revoke|].
  generalize (revoked slot (scanned m pointer handle)). intros m2.
  destruct (process_capability_slot p handle) as [index|]; [|by apply agrees_ret]. cbn [bind the_process process modify].
  apply agrees_get, agrees_get, agrees_put_other; [done|done|]. by apply agrees_ret.
Qed.

(** ** Releasing *)
(** The reference of [ipc_release]. *)
Definition release (m : mem) (pointer handle : Z) : Z * mem :=
  if (pointer =? 0) || (handle =? IPC_INVALID_HANDLE) then (IPC_EINVAL, m)
  else
    let m1 := scanned m pointer handle in
    match resolved m pointer handle 0 with
    | inl result => (result, m1)
    | inr slot =>
      let e := endpoint_at m slot in let p := default no_process (process_at m pointer) in
      if (owner_pid e =? pid p) && (owner_generation e =? p_generation p) then (IPC_EACCES, m1)
      else
      match record_of m p handle with
      | Some i => (0, woken slot (cleared i (set_scan_corrupt m1 false)))
      | None => (IPC_EBADF, quarantined slot (set_scan_corrupt m1 false))
      end
    end.

Lemma plain_release m pointer handle : valid m → plain (ipc_release pointer handle) m = release m pointer handle.
Proof.
  intros Hv. unfold ipc_release, release. destruct (_ || _); [done|]. rewrite plain_bind, plain_resolve. cbn [fst snd]. resolve_case Hv Hres; [done|].
  destruct (resolved_authority _ _ _ _ _ Hres) as (p & i & Hau). pose proof (au_process _ _ _ _ _ _ _ Hau) as Hp.
  pose proof (au_first _ _ _ _ _ _ _ Hau) as Hi.
  cbn [bind endpoint the_process process plain]. change (process_at (scanned m pointer handle) pointer) with (process_at m pointer).
  change (endpoint_at (scanned m pointer handle) slot) with (endpoint_at m slot). rewrite Hp. cbn [default from_option id].
  destruct (_ && _); [done|]. rewrite plain_bind, plain_capability_record_for. cbn [fst snd bind get plain].
  change (record_of (scanned m pointer handle) p handle) with (record_of m p handle). rewrite Hi.
  cbn [ipc_capability_scan_corrupt set_scan_corrupt]. by rewrite plain_bind, plain_clear.
Qed.
Lemma valid_release m pointer handle : valid m → valid (release m pointer handle).2.
Proof.
  intros Hv. unfold release. destruct (_ || _); [done|]. resolve_case Hv Hres; [by apply valid_scanned|].
  destruct (_ && _); [by apply valid_scanned|]. assert (Hv1 : valid (set_scan_corrupt (scanned m pointer handle) false)) by (by apply (valid_other m)).
  destruct (record_of _ _ _); cbn [snd]; [by apply valid_woken, valid_cleared|by apply valid_quarantined].
Qed.
Lemma agrees_release m pointer handle : valid m → agrees [] 10 (ipc_release pointer handle) m [].
Proof.
  intros Hv. unfold ipc_release. destruct (_ || _); [by apply agrees_ret|]. change 10 with (0 + (0 + (2 + 8))).
  eapply agrees_then; [apply plain_resolve|apply agrees_resolve; [done|intros i; apply not_elem_of_nil]|].
  resolve_case Hv Hres; [by apply agrees_ret|]. destruct (resolved_authority _ _ _ _ _ Hres) as (p & i & Hau).
  pose proof (au_index _ _ _ _ _ _ _ Hau) as Hidx. pose proof (au_first _ _ _ _ _ _ _ Hau) as Hi. pose proof (au_process _ _ _ _ _ _ _ Hau) as Hp.
  cbn [bind endpoint the_process process]. apply agrees_get, agrees_get.
  change (process_at (scanned m pointer handle) pointer) with (process_at m pointer).
  change (endpoint_at (scanned m pointer handle) slot) with (endpoint_at m slot). rewrite Hp. cbn [default from_option id].
  destruct (_ && _); [by apply agrees_ret|].
  eapply agrees_then; [apply plain_capability_record_for|by apply agrees_capability_record_for|].
  change (record_of (scanned m pointer handle) p handle) with (record_of m p handle). rewrite Hi. cbn [bind get]. apply agrees_get.
  cbn [ipc_capability_scan_corrupt set_scan_corrupt]. assert (Hv1 : valid (set_scan_corrupt (scanned m pointer handle) false)) by (by apply (valid_other m)).
  eapply agrees_then; [apply plain_clear|by apply agrees_clear|].
  apply (agrees_more _ (0 + 0)); [lia|]. eapply (agrees_bind [] []); [apply agrees_wake_all|by apply agrees_ret].
Qed.

(** ** Delegating *)
(** The reference of [ipc_delegate]. *)
Definition delegated (m : mem) (target : Z) (t : Process) (entry : nat) (handle slot rights_ : Z) : mem :=
  let m := installed m target t entry (free_record m) handle slot rights_ in
  set_endpoint m slot (with_peer true 1 (endpoint_at m slot)).
Definition delegation_refused (source target : Z) (s t : Process) (rights_ : Z) : bool :=
  (source =? target) || negb (is_running s) || negb (is_running t) || (rights_ =? 0) || (p_generation s =? 0) ||
  (p_generation t =? 0) || negb (Z.land rights_ IPC_RIGHT_CONTROL =? 0) || negb (outside rights_ delegable =? 0).
Definition delegate (m : mem) (source handle target rights_ : Z) : Z * mem :=
  match process_at m source, process_at m target with
  | Some s, Some t =>
    if delegation_refused source target s t rights_ then (IPC_EINVAL, m)
    else
    match resolved m source handle rights_ with
    | inl result => (result, scanned m source handle)
    | inr slot =>
      let m1 := set_scan_corrupt (scanned m source handle) false in
      match record_of m s handle with
      | None => (IPC_EACCES, m1)
      | Some i =>
        let e := endpoint_at m slot in
        if negb (Z.land rights_ (rights (record_at m i)) =? rights_) then (IPC_EACCES, m1)
        else if negb (peer_capabilities e =? 0) || present (process_capability_slot t handle) then (IPC_EACCES, m1)
        else
        match free_process_capability_slot t with
        | None => (IPC_ENOSPC, capacity_rejected m1)
        | Some entry =>
          if free_record m <? 0 then (IPC_ENOSPC, capacity_rejected m1)
          else (0, delegated m1 target t entry handle slot rights_)
        end
      end
    end
  | _, _ => (IPC_EINVAL, m)
  end.

Lemma delegable_rights rights_ : is_u32 rights_ → rights_ ≠ 0 → outside rights_ delegable = 0 → 0 < rights_ < 4.
Proof.
  intros Hr Hz Ho. split; [ulia|]. change 4 with (2 ^ 2). apply lt_pow2_of_bits; [lia|ulia|]. intros i Hi.
  destruct (decide (i < 32)).
  - assert (E : Z.testbit (outside rights_ delegable) i = false) by (rewrite Ho; apply Z.bits_0).
    unfold outside in E. rewrite Z.land_spec in E. apply andb_false_iff in E as [E|E]; [done|]. exfalso.
    change (u32 (Z.lnot delegable)) with (Z.ones 30 * 2 ^ 2) in E. rewrite Z.mul_pow2_bits, Z.ones_spec_low in E by lia. done.
  - apply (testbit_high 32); [exact Hr|lia].
Qed.

Lemma delegation_accepted source target s t rights_ : is_u32 rights_ → delegation_refused source target s t rights_ = false →
  source ≠ target ∧ is_running s = true ∧ is_running t = true ∧ 0 < rights_ < 4.
Proof.
  intros Hu. unfold delegation_refused. rewrite !orb_false_iff, !negb_false_iff, !Z.eqb_neq, !Z.eqb_eq. intros (((((((H1 & H2) & H3) & H4) & H5) & H6) & H7) & H8).
  split_and!; try done; by apply delegable_rights.
Qed.

Section delegate.
Context (m : mem) (source handle target rights_ slot : Z) (s t : Process) (i : Z) (entry : nat).
Context (Hv : valid m) (Hu : is_u32 rights_) (Hs : process_at m source = Some s) (Ht : process_at m target = Some t).
Context (Hok : delegation_refused source target s t rights_ = false) (Hau : authority m source handle rights_ slot s i).
Context (He : free_process_capability_slot t = Some entry) (Hf : 0 <= free_record m).

Let m1 := set_scan_corrupt (scanned m source handle) false.
Let m2 := installed m1 target t entry (free_record m1) handle slot rights_.

Lemma delegate_install : valid m2 ∧
  plain (install_capability_locked target handle slot rights_) m1 = (0, m2) ∧ agrees [] 1 (install_capability_locked target handle slot rights_) m1 [].
Proof using All.
  destruct (delegation_accepted _ _ _ _ _ Hu Hok) as (_ & Hrs & Hrt & Hri).
  assert (Hv1 : valid m1) by (by apply (valid_other m)).
  assert (Hh : is_u32 handle ∧ handle ≠ 0).
  { pose proof (vr_active _ (valid_record_at m i Hv) (au_record _ _ _ _ _ _ _ Hau)) as (Ha & Hb & _).
    rewrite (au_record_handle _ _ _ _ _ _ _ Hau) in Ha, Hb. done. }
  pose proof (au_range _ _ _ _ _ _ _ Hau) as Hr. split_and!.
  - apply valid_installed; try done; lia.
  - apply plain_install; [exact Ht|done|exact Hf].
  - apply (agrees_install m1 target handle slot rights_ t entry); try done; lia.
Qed.

Lemma installed_endpoint : endpoint_at m2 slot = endpoint_at m slot.
Proof using. done. Qed.

Lemma valid_delegated : valid (delegated m1 target t entry handle slot rights_).
Proof using All.
  destruct delegate_install as (Hv2 & _). unfold delegated. apply valid_set_endpoint; [exact Hv2|].
  apply valid_with_peer; [exact (valid_at _ slot Hv2)|lia|]. change (endpoint_at (installed _ _ _ _ _ _ _ _) slot) with (endpoint_at m slot).
  rewrite (au_active _ _ _ _ _ _ _ Hau). done.
Qed.

(** The end of the call. *)
Definition delegate_end : prog Z :=
  result <- install_capability_locked target handle slot rights_;;
  if negb (result =? 0) then Ret result
  else
    change_endpoint slot (with_peer true 1);;;
    result <- seal_endpoint slot;;
    if negb (result =? 0) then quarantine_endpoint_locked slot;;; Ret IPC_EINTEGRITY else Ret 0.

Lemma plain_delegate_end : plain delegate_end m1 = (0, delegated m1 target t entry handle slot rights_).
Proof using All. destruct delegate_install as (_ & E & _). unfold delegate_end. by rewrite plain_bind, E. Qed.

Lemma agrees_delegate_end : agrees [] 2 delegate_end m1 [].
Proof using All.
  destruct delegate_install as (Hv2 & E & Hag). pose proof valid_delegated as Hvd. unfold delegate_end. change 2 with (1 + 1).
  pose proof (au_range _ _ _ _ _ _ _ Hau) as Hr. eapply agrees_then; [exact E|exact Hag|]. cbn [negb Z.eqb bind change_endpoint modify]. apply agrees_get.
  apply (agrees_put [] [ItemE slot]).
  - apply changed_set_endpoint; [by apply valid_shape|done|left; left|by right|]. intros q Hq Hqu. by right.
  - intros x Hx. by apply elem_of_nil in Hx.
  - cbn [bind seal_endpoint]. change 1 with (0 + 1). pose proof (valid_at _ slot Hvd) as Hve.
    eapply (agrees_seal_endpoint _ []); [done|apply (proj1 (endpoint_seals _ Hve))|apply (proj2 (endpoint_seals _ Hve))|reflexivity|].
    by apply agrees_ret.
Qed.
End delegate.

Lemma plain_delegate m source handle target rights_ : valid m → is_u32 rights_ →
  plain (ipc_delegate source handle target rights_) m = delegate m source handle target rights_.
Proof.
  intros Hv Hu. unfold ipc_delegate, delegate. cbn [bind process plain].
  destruct (process_at m source) as [s|] eqn:Hs; [|done]. destruct (process_at m target) as [t|] eqn:Ht; [|done].
  change ((source =? target) || _ || _ || _ || _ || _ || _ || _) with (delegation_refused source target s t rights_).
  destruct (delegation_refused source target s t rights_) eqn:Hok; [done|].
  rewrite plain_bind, plain_resolve. cbn [fst snd]. resolve_case Hv Hres; [done|].
  destruct (resolved_authority _ _ _ _ _ Hres) as (s' & i & Hau). pose proof (au_process _ _ _ _ _ _ _ Hau) as Hs'. rewrite Hs in Hs'. injection Hs' as <-.
  pose proof (au_first _ _ _ _ _ _ _ Hau) as Hi. rewrite plain_bind, plain_capability_record_for. cbn [fst snd bind get plain].
  change (record_of (scanned m source handle) s handle) with (record_of m s handle). rewrite Hi.
  cbn [ipc_capability_scan_corrupt set_scan_corrupt bind record plain].
  set (m1 := set_scan_corrupt (scanned m source handle) false). change (record_at m1 i) with (record_at m i). destruct (negb _); [done|].
  cbn [bind endpoint the_process process plain]. change (process_at m1 target) with (process_at m target). rewrite Ht. cbn [default from_option id].
  change (endpoint_at m1 slot) with (endpoint_at m slot). destruct (negb _ || _); [done|].
  destruct (free_process_capability_slot t) as [entry|] eqn:He; [|done]. cbn [present negb].
  rewrite plain_bind, plain_free_record. cbn [fst snd]. change (free_record m1) with (free_record m).
  destruct (free_record_range m) as [Hf|[Hf _]]; [by rewrite Hf|].
  rewrite (proj2 (Z.eqb_neq (free_record m) IPC_EINTEGRITY)) by (unfold IPC_EINTEGRITY; lia). rewrite (proj2 (Z.ltb_ge (free_record m) 0)) by lia.
  apply (plain_delegate_end m source handle target rights_ slot s t i entry); try done. lia.
Qed.

Lemma valid_delegate m source handle target rights_ : valid m → is_u32 rights_ → valid (delegate m source handle target rights_).2.
Proof.
  intros Hv Hu. unfold delegate. destruct (process_at m source) as [s|] eqn:Hs; [|done]. destruct (process_at m target) as [t|] eqn:Ht; [|done].
  destruct (delegation_refused source target s t rights_) eqn:Hok; [done|]. resolve_case Hv Hres; [by apply valid_scanned|].
  destruct (resolved_authority _ _ _ _ _ Hres) as (s' & i & Hau). pose proof (au_process _ _ _ _ _ _ _ Hau) as Hs'. rewrite Hs in Hs'. injection Hs' as <-.
  rewrite (au_first _ _ _ _ _ _ _ Hau). assert (Hv1 : valid (set_scan_corrupt (scanned m source handle) false)) by (by apply (valid_other m)).
  destruct (negb _); [done|]. destruct (negb _ || _); [done|]. destruct (free_process_capability_slot t) as [entry|] eqn:He; [|by apply valid_rejected].
  destruct (Z.ltb_spec (free_record m) 0); [by apply valid_rejected|].
  by apply (valid_delegated m source handle target rights_ slot s t i entry).
Qed.

Lemma agrees_delegate m source handle target rights_ : valid m → is_u32 rights_ → agrees [] 10 (ipc_delegate source handle target rights_) m [].
Proof.
  intros Hv Hu. unfold ipc_delegate. cbn [bind process]. apply agrees_get, agrees_get.
  destruct (process_at m source) as [s|] eqn:Hs; [|by apply agrees_ret]. destruct (process_at m target) as [t|] eqn:Ht; [|by apply agrees_ret].
  change ((source =? target) || _ || _ || _ || _ || _ || _ || _) with (delegation_refused source target s t rights_).
  destruct (delegation_refused source target s t rights_) eqn:Hok; [by apply agrees_ret|]. change 10 with (0 + (0 + 10)).
  eapply agrees_then; [apply plain_resolve|apply agrees_resolve; [done|intros j; apply not_elem_of_nil]|]. resolve_case Hv Hres; [by apply agrees_ret|].
  destruct (resolved_authority _ _ _ _ _ Hres) as (s' & i & Hau). pose proof (au_process _ _ _ _ _ _ _ Hau) as Hs'. rewrite Hs in Hs'. injection Hs' as <-.
  pose proof (au_first _ _ _ _ _ _ _ Hau) as Hi.
  eapply agrees_then; [apply plain_capability_record_for|by apply agrees_capability_record_for|].
  change (record_of (scanned m source handle) s handle) with (record_of m s handle). rewrite Hi. cbn [bind get]. apply agrees_get.
  cbn [ipc_capability_scan_corrupt set_scan_corrupt bind record]. apply agrees_get.
  set (m1 := set_scan_corrupt (scanned m source handle) false). change (record_at m1 i) with (record_at m i). destruct (negb _); [by apply agrees_ret|].
  cbn [bind endpoint the_process process]. apply agrees_get, agrees_get.
  change (process_at m1 target) with (process_at m target). rewrite Ht. cbn [default from_option id].
  change (endpoint_at m1 slot) with (endpoint_at m slot). destruct (negb _ || _); [by apply agrees_ret|].
  destruct (free_process_capability_slot t) as [entry|] eqn:He; cbn [present negb]; [|eapply agrees_more; [|apply agrees_rejected]; lia].
  change 10 with (0 + 10). eapply agrees_then; [apply plain_free_record|by apply agrees_free_record|]. change (free_record m1) with (free_record m).
  destruct (free_record_range m) as [Hf|[Hf _]]; [rewrite Hf; eapply agrees_more; [|apply agrees_rejected]; lia|].
  rewrite (proj2 (Z.eqb_neq (free_record m) IPC_EINTEGRITY)) by (unfold IPC_EINTEGRITY; lia). rewrite (proj2 (Z.ltb_ge (free_record m) 0)) by lia.
  apply (agrees_more _ 2); [lia|]. apply (agrees_delegate_end m source handle target rights_ slot s t i entry); try done. lia.
Qed.

(** ** Validation *)
Fixpoint owner_holder (m : mem) (op og handle required_rights : Z) (slots : list Z) (found : Z) : Z + Z :=
  match slots with
  | [] => inr found
  | i :: slots =>
    let r := record_at m i in
    if negb (r_active r) || negb (r_handle r =? handle) || negb (holder_pid r =? op) || negb (holder_generation r =? og)
    then owner_holder m op og handle required_rights slots found
    else if negb (found =? 0) || (holder r =? 0) || negb (Z.land (rights r) required_rights =? required_rights)
    then inl (if negb (found =? 0) then IPC_EINTEGRITY else IPC_EACCES)
    else owner_holder m op og handle required_rights slots (holder r)
  end.
Lemma plain_validate_loop slot op og handle required slots found m :
  plain (validate_loop slot op og handle required slots found) m = (owner_holder m op og handle required slots found, m).
Proof.
  revert found. induction slots as [|i slots IH]; intros found; [done|].
  cbn [validate_loop owner_holder bind load_capability plain negb Z.eqb record]. destruct (negb (r_active _) || _ || _ || _); [apply IH|].
  destruct (_ || _ || _); [done|apply IH].
Qed.
Lemma agrees_validate_loop slot op og handle required slots found m : (∀ i, In i slots → 0 <= i < 64) →
  agrees [] 0 (validate_loop slot op og handle required slots found) m [].
Proof.
  intros Hr. revert found. induction slots as [|i slots IH]; intros found; [by apply agrees_ret|].
  assert (IH' := IH (λ j Hj, Hr j (or_intror Hj))). cbn [validate_loop bind load_capability].
  apply agrees_load_capability; [apply Hr; by left|by apply not_elem_of_nil|].
  cbn [negb Z.eqb bind record]. apply agrees_get. destruct (negb (r_active _) || _ || _ || _); [done|].
  destruct (_ || _ || _); [by apply agrees_ret|done].
Qed.

(** The references of [ipc_capability_validate_owner] and
    [ipc_endpoint_validate_quiescent_owner]. *)
Definition validate_owner (m : mem) (op og handle required_rights : Z) : Z * mem :=
  if (s32 op <=? 0) || (og =? 0) || (required_rights =? 0) || negb (outside required_rights all_rights =? 0) then (IPC_EINVAL, m)
  else
  match decode_handle handle with
  | None => (IPC_EINVAL, m)
  | Some _ =>
    match owner_holder m op og handle required_rights capability_slots 0 with
    | inl result => (result, m)
    | inr found =>
      match process_at m found with
      | None => (IPC_EBADF, m)
      | Some h =>
        if negb (is_running h) || negb (pid h =? op) || negb (p_generation h =? og) then (IPC_EBADF, m)
        else
          (match resolved m found handle required_rights with
           | inl result => result
           | inr slot =>
             let e := endpoint_at m slot in
             if negb (owner_pid e =? op) || negb (owner_generation e =? og) then IPC_EACCES else 0
           end, scanned m found handle)
      end
    end
  end.
Definition validate_quiescent (m : mem) (op og handle : Z) : Z :=
  if (s32 op <=? 0) || (og =? 0) then IPC_EINVAL
  else
  match decode_handle handle with
  | None => IPC_EINVAL
  | Some (slot, generation_) =>
    let e := endpoint_at m slot in
    if negb (owned_by e generation_ op og) then IPC_EBADF
    else if negb (peer_capabilities e =? 0) || negb (count e =? 0) || bulk_active e then IPC_EBUSY else 0
  end.

Lemma plain_validate_owner m op og handle required :
  plain (ipc_capability_validate_owner op og handle required) m = validate_owner m op og handle required.
Proof.
  unfold ipc_capability_validate_owner, validate_owner. destruct (_ || _ || _ || _); [done|].
  destruct (decode_handle handle) as [[slot g]|]; [|done]. rewrite plain_bind, plain_validate_loop. cbn [fst snd].
  destruct (owner_holder m op og handle required capability_slots 0) as [result|found]; [done|]. cbn [bind process plain].
  destruct (process_at m found) as [h|]; [|done]. destruct (_ || _ || _); [done|]. rewrite plain_bind, plain_resolve. cbn [fst snd].
  by destruct (resolved m found handle required).
Qed.
Lemma valid_validate_owner m op og handle required : valid m → valid (validate_owner m op og handle required).2.
Proof.
  intros Hv. unfold validate_owner. destruct (_ || _ || _ || _); [done|]. destruct (decode_handle handle); [|done].
  destruct (owner_holder _ _ _ _ _ _ _); [done|]. destruct (process_at _ _); [|done]. destruct (_ || _ || _); [done|]. by apply valid_scanned.
Qed.
Lemma agrees_validate_owner m op og handle required : agrees [] 0 (ipc_capability_validate_owner op og handle required) m [].
Proof.
  unfold ipc_capability_validate_owner. destruct (_ || _ || _ || _); [by apply agrees_ret|].
  destruct (decode_handle handle) as [[slot g]|]; [|by apply agrees_ret]. change 0 with (0 + (0 + 0)) at 1.
  eapply agrees_then; [apply plain_validate_loop|apply agrees_validate_loop, capability_slots_range|].
  destruct (owner_holder m op og handle required capability_slots 0) as [result|found]; [by apply agrees_ret|]. cbn [bind process].
  apply agrees_get. destruct (process_at m found) as [h|]; [|by apply agrees_ret]. destruct (_ || _ || _); [by apply agrees_ret|].
  eapply agrees_then; [apply plain_resolve|apply agrees_resolve; [done|intros j; apply not_elem_of_nil]|].
  destruct (resolved m found handle required); [by apply agrees_ret|]. cbn [bind endpoint]. apply agrees_get. by apply agrees_ret.
Qed.

Lemma plain_validate_quiescent m op og handle : plain (ipc_endpoint_validate_quiescent_owner op og handle) m = (validate_quiescent m op og handle, m).
Proof.
  unfold ipc_endpoint_validate_quiescent_owner, validate_quiescent. destruct (_ || _); [done|]. by destruct (decode_handle handle) as [[slot g]|].
Qed.
Lemma agrees_validate_quiescent m op og handle : valid m → agrees [] 0 (ipc_endpoint_validate_quiescent_owner op og handle) m [].
Proof.
  intros Hv. unfold ipc_endpoint_validate_quiescent_owner. destruct (_ || _); [by apply agrees_ret|].
  destruct (decode_handle handle) as [[slot g]|] eqn:Eh; [|by apply agrees_ret]. apply decode_handle_range in Eh.
  cbn [bind load_endpoint load_bulk]. apply agrees_load_endpoint; [done|by apply not_elem_of_nil|]. cbn [negb Z.eqb].
  apply agrees_load_bulk; [done|by apply not_elem_of_nil|by apply valid_bulk_active, valid_at|]. cbn [negb Z.eqb bind endpoint].
  apply agrees_get. by apply agrees_ret.
Qed.

(** ** The end of a process *)
Fixpoint revoke_owned (p g : Z) (slots : list Z) (m : mem) : mem :=
  match slots with
  | [] => m
  | slot :: slots =>
    let e := endpoint_at m slot in
    revoke_owned p g slots (if active e && (owner_pid e =? p) && (owner_generation e =? g) then revoked slot m else m)
  end.
Fixpoint clear_held (p g : Z) (slots : list Z) (m : mem) : mem :=
  match slots with
  | [] => m
  | i :: slots =>
    let r := record_at m i in
    clear_held p g slots
      (if r_active r && (holder_pid r =? p) && (holder_generation r =? g)
       then let m := cleared i m in if endpoint_slot r <? IPC_MAX_ENDPOINTS then woken (endpoint_slot r) m else m
       else m)
  end.
(** The reference of [ipc_process_cleanup]. *)
Definition cleanup (m : mem) (p g : Z) : mem :=
  if (s32 p <=? 0) || (g =? 0) then m else clear_held p g capability_slots (revoke_owned p g endpoint_slots m).

Lemma plain_cleanup_endpoints p g slots m : valid m → (∀ i, In i slots → 0 <= i < 16) →
  plain (cleanup_endpoints p g slots) m = (tt, revoke_owned p g slots m) ∧ valid (revoke_owned p g slots m) ∧
  agrees [] (130 * Z.of_nat (length slots)) (cleanup_endpoints p g slots) m [].
Proof.
  revert m. induction slots as [|slot slots IH]; intros m Hv Hr; [split_and!; [done|done|by apply agrees_ret]|].
  assert (Hr' : ∀ j, In j slots → 0 <= j < 16) by (intros j Hj; apply Hr; by right). pose proof (Hr slot (or_introl eq_refl)) as Hs.
  cbn [cleanup_endpoints revoke_owned length]. set (b := active (endpoint_at m slot) && _ && _).
  assert (Hv' : valid (if b then revoked slot m else m)) by (destruct b; [by apply valid_revoked|done]).
  destruct (IH _ Hv' Hr') as (E & Hv'' & Hag). split_and!; [|done|].
  - cbn [bind load_endpoint plain negb Z.eqb endpoint]. fold b. rewrite plain_bind.
    destruct b; [rewrite plain_revoke by (done || by apply valid_shape)|]; exact E.
  - cbn [bind load_endpoint]. apply agrees_load_endpoint; [done|by apply not_elem_of_nil|]. cbn [negb Z.eqb bind endpoint]. apply agrees_get. fold b.
    replace (130 * Z.of_nat (S (length slots))) with (130 + 130 * Z.of_nat (length slots)) by lia.
    eapply (agrees_bind [] []); [destruct b; [by apply agrees_revoke|by apply agrees_ret]|].
    destruct b; [rewrite plain_revoke by (done || by apply valid_shape)|]; exact Hag.
Qed.

Lemma plain_cleanup_records p g slots m : valid m → (∀ i, In i slots → 0 <= i < 64) →
  plain (cleanup_records p g slots) m = (tt, clear_held p g slots m) ∧ valid (clear_held p g slots m) ∧
  agrees [] (2 * Z.of_nat (length slots)) (cleanup_records p g slots) m [].
Proof.
  revert m. induction slots as [|i slots IH]; intros m Hv Hr; [split_and!; [done|done|by apply agrees_ret]|].
  assert (Hr' : ∀ j, In j slots → 0 <= j < 64) by (intros j Hj; apply Hr; by right). pose proof (Hr i (or_introl eq_refl)) as Hi.
  cbn [cleanup_records clear_held length]. set (r := record_at m i).
  assert (Eb : negb (r_active r) || negb (holder_pid r =? p) || negb (holder_generation r =? g) =
    negb (r_active r && (holder_pid r =? p) && (holder_generation r =? g))) by (by rewrite !negb_andb).
  set (b := r_active r && _ && _) in *. set (m' := if b then _ else m).
  assert (Hv' : valid m').
  { unfold m'. destruct b; [|done]. cbv zeta. destruct (_ <? _); [by apply valid_woken, valid_cleared|by apply valid_cleared]. }
  destruct (IH _ Hv' Hr') as (E & Hv'' & Hag). split_and!; [|done|].
  - cbn [bind load_capability plain negb Z.eqb record]. fold r. rewrite Eb, plain_bind. unfold m' in E. destruct b; cbn [negb]; [|exact E].
    rewrite plain_bind, plain_clear. cbn [fst snd]. destruct (_ <? _); exact E.
  - cbn [bind load_capability]. apply agrees_load_capability; [done|by apply not_elem_of_nil|]. cbn [negb Z.eqb bind record]. apply agrees_get. fold r.
    replace (2 * Z.of_nat (S (length slots))) with (2 + 0 + 2 * Z.of_nat (length slots)) by lia. rewrite Eb.
    eapply (agrees_bind [] []).
    + destruct b; cbn [negb]; [|by apply agrees_ret]. eapply agrees_then; [apply plain_clear|by apply agrees_clear|].
      destruct (_ <? _); [apply agrees_wake_all|by apply agrees_ret].
    + unfold m' in Hag. destruct b; cbn [negb]; [|exact Hag]. rewrite plain_bind, plain_clear. cbn [fst snd]. destruct (_ <? _); exact Hag.
Qed.

Lemma plain_cleanup m p g : valid m → plain (ipc_process_cleanup p g) m = (tt, cleanup m p g) ∧ valid (cleanup m p g) ∧
  agrees [] 2208 (ipc_process_cleanup p g) m [].
Proof.
  intros Hv. unfold ipc_process_cleanup, cleanup. destruct (_ || _); [split_and!; [done|done|by apply agrees_ret]|].
  destruct (plain_cleanup_endpoints p g endpoint_slots m Hv endpoint_slots_range) as (E1 & Hv1 & Ha1).
  destruct (plain_cleanup_records p g capability_slots _ Hv1 capability_slots_range) as (E2 & Hv2 & Ha2).
  split_and!; [by rewrite plain_bind, E1|done|]. rewrite (proj1 length_slots) in Ha2. rewrite (proj2 length_slots) in Ha1.
  change 2208 with (2080 + 128). eapply agrees_then; [exact E1|exact Ha1|exact Ha2].
Qed.
