(* ===== verification/IpcRefine.v ===== *)
(** IPC refines its reference.

    A request is one locked region.  [reference] gives its answer and the
    memory after it without critical objects.  Requests and changes of the
    process table, in any order and from [ipc_init], get the answers of the
    reference. *)
From S2P Require Import Prelude ProtectedStore Layout ProtectedRecord Ipc IpcSpec IpcPlain IpcHelpers IpcCaps IpcQueue IpcCalls IpcControl.
From S2P Require Import CriticalObject.
Import Ipc.
Local Open Scope ipc_scope.

(** ** Requests *)
Inductive request :=
| Create (owner : Z) (handle : option Z)
| Send (sender handle : Z) (message : ipc_message_t) (timeout_ms deadline now : Z)
| SendBulk (sender handle : Z) (message : ipc_bulk_message_t) (timeout_ms deadline now : Z)
| Receive (receiver handle : Z) (message : ipc_message_t) (timeout_ms deadline now : Z)
| ReceiveBulk (receiver handle : Z) (message : ipc_bulk_message_t) (timeout_ms deadline now : Z)
| SendExternal (op og handle : Z) (message : option ipc_message_t)
| SendKernel (op og handle : Z) (message : option ipc_message_t)
| ValidateOwner (op og handle required_rights : Z)
| ValidateQuiescent (op og handle : Z)
| Close (pointer handle : Z)
| Delegate (source handle target rights_ : Z)
| Release (pointer handle : Z)
| Cleanup (p g : Z).

(** [None] is a process that blocks. *)
Inductive answer :=
| Status (result : option Z)
| Handle (result : Z) (handle : option Z)
| Message_ (result : option Z) (message : ipc_message_t)
| BulkMessage (result : option Z) (message : ipc_bulk_message_t)
| Nothing.

Definition request_prog (r : request) : prog answer :=
  match r with
  | Create owner handle => v <- ipc_create owner handle;; Ret (Handle v.1 v.2)
  | Send sender handle message t d now => v <- send_round sender handle message t d now;; Ret (Status v)
  | SendBulk sender handle message t d now => v <- send_bulk_round sender handle message t d now;; Ret (Status v)
  | Receive receiver handle message t d now => v <- receive_round receiver handle message t d now;; Ret (Message_ v.1 v.2)
  | ReceiveBulk receiver handle message t d now => v <- receive_bulk_round receiver handle message t d now;; Ret (BulkMessage v.1 v.2)
  | SendExternal op og handle message => v <- ipc_send_external_from_peer op og handle message;; Ret (Status (Some v))
  | SendKernel op og handle message => v <- ipc_send_kernel_to_owner op og handle message;; Ret (Status (Some v))
  | ValidateOwner op og handle required => v <- ipc_capability_validate_owner op og handle required;; Ret (Status (Some v))
  | ValidateQuiescent op og handle => v <- ipc_endpoint_validate_quiescent_owner op og handle;; Ret (Status (Some v))
  | Close pointer handle => v <- ipc_close pointer handle;; Ret (Status (Some v))
  | Delegate source handle target rights_ => v <- ipc_delegate source handle target rights_;; Ret (Status (Some v))
  | Release pointer handle => v <- ipc_release pointer handle;; Ret (Status (Some v))
  | Cleanup p g => ipc_process_cleanup p g;;; Ret Nothing
  end.

(** The caller's data are of their C types. *)
Definition request_ok (r : request) : Prop :=
  match r with
  | Send _ _ message _ _ _ => message_in message
  | SendBulk _ _ message _ _ _ => bulk_in message
  | SendExternal _ _ _ message | SendKernel _ _ _ message => message_opt message
  | Delegate _ _ _ rights_ => is_u32 rights_
  | _ => True
  end.

Definition status (v : Z * mem) : answer * mem := (Status (Some v.1), v.2).
Definition reference (r : request) (m : mem) : answer * mem :=
  match r with
  | Create owner handle => let '(z, h, m) := create m owner handle in (Handle z h, m)
  | Send sender handle message t d now => let '(z, m) := send m sender handle message t d now in (Status z, m)
  | SendBulk sender handle message t d now => let '(z, m) := send_bulk m sender handle message t d now in (Status z, m)
  | Receive receiver handle message t d now => let '(z, v, m) := receive m receiver handle message t d now in (Message_ z v, m)
  | ReceiveBulk receiver handle message t d now => let '(z, v, m) := receive_bulk m receiver handle message t d now in (BulkMessage z v, m)
  | SendExternal op og handle message => status (send_external m op og handle message)
  | SendKernel op og handle message => status (send_kernel m op og handle message)
  | ValidateOwner op og handle required => status (validate_owner m op og handle required)
  | ValidateQuiescent op og handle => (Status (Some (validate_quiescent m op og handle)), m)
  | Close pointer handle => status (close m pointer handle)
  | Delegate source handle target rights_ => status (delegate m source handle target rights_)
  | Release pointer handle => status (release m pointer handle)
  | Cleanup p g => (Nothing, cleanup m p g)
  end.

(** Publications of one request, at most. *)
Definition request_cost : Z := 2208.

Lemma agrees_answer {A} (p : prog A) (f : A → answer) c m : c <= request_cost → agrees [] c p m [] →
  agrees [] request_cost (v <- p;; Ret (f v)) m [].
Proof.
  intros Hc Hp. apply (agrees_more _ (c + 0)); [lia|]. eapply (agrees_bind [] []); [exact Hp|by apply agrees_ret].
Qed.

Lemma ipc_request_spec r m : valid m → request_ok r →
  plain (request_prog r) m = reference r m ∧ valid (reference r m).2 ∧ agrees [] request_cost (request_prog r) m [].
Proof.
  intros Hv Hok. destruct r as [owner handle|sender handle message t d now|sender handle message t d now|receiver handle message t d now|
    receiver handle message t d now|op og handle message|op og handle message|op og handle required|op og handle|pointer handle|
    source handle target rights_|pointer handle|p g]; cbn [request_prog reference request_ok] in *; rewrite ?plain_bind.
  - pose proof (valid_create owner handle m Hv). rewrite plain_create by done. destruct (create m owner handle) as [[z h] m'] eqn:E. split_and!; [done|done|].
    eapply agrees_answer; [|by apply agrees_create]; done.
  - pose proof (valid_send m sender handle message t d now Hv Hok). rewrite plain_send by done. destruct (send _ _ _ _ _ _ _) as [z m'].
    split_and!; [done|done|]. eapply agrees_answer; [|by apply agrees_send]; done.
  - pose proof (valid_send_bulk m sender handle message t d now Hv Hok). rewrite plain_send_bulk by done. destruct (send_bulk _ _ _ _ _ _ _) as [z m'].
    split_and!; [done|done|]. eapply agrees_answer; [|by apply agrees_send_bulk]; done.
  - pose proof (valid_receive m receiver handle message t d now Hv). rewrite plain_receive by done. destruct (receive _ _ _ _ _ _ _) as [[z v] m'].
    split_and!; [done|done|]. eapply agrees_answer; [|by apply agrees_receive]; done.
  - pose proof (valid_receive_bulk m receiver handle message t d now Hv). rewrite plain_receive_bulk by done.
    destruct (receive_bulk _ _ _ _ _ _ _) as [[z v] m']. split_and!; [done|done|]. eapply agrees_answer; [|by apply agrees_receive_bulk]; done.
  - rewrite plain_send_external by done. split_and!; [done|by apply valid_send_external|]. eapply agrees_answer; [|by apply agrees_send_external]; done.
  - rewrite plain_send_kernel by done. split_and!; [done|by apply valid_send_kernel|]. eapply agrees_answer; [|by apply agrees_send_kernel]; done.
  - rewrite plain_validate_owner. split_and!; [done|by apply valid_validate_owner|]. eapply agrees_answer; [|by apply agrees_validate_owner]; done.
  - rewrite plain_validate_quiescent. split_and!; [done|done|]. eapply agrees_answer; [|by apply agrees_validate_quiescent]; done.
  - rewrite plain_close by done. split_and!; [done|by apply valid_close|]. eapply agrees_answer; [|by apply agrees_close]; done.
  - rewrite plain_delegate by done. split_and!; [done|by apply valid_delegate|]. eapply agrees_answer; [|by apply agrees_delegate]; done.
  - rewrite plain_release by done. split_and!; [done|by apply valid_release|]. eapply agrees_answer; [|by apply agrees_release]; done.
  - destruct (plain_cleanup m p g Hv) as (E & Hv' & Ha). rewrite E. split_and!; [done|done|]. by apply (agrees_answer _ (λ _, Nothing) 2208).
Qed.

(** ** Runs *)
(** The process table belongs to another component and changes between
    requests. *)
Inductive event := Request (r : request) | Table (table : list Process).

Definition set_table (m : mem) (table : list Process) : mem :=
  Mem (ipc_endpoints m) (ipc_capability_records m) table (ipc_integrity_corrections m) (ipc_capability_scan_corrupt m) (ipc_stats m) (scheduler_calls m).
Definition table_ok (table : list Process) : Prop := Z.of_nat (length table) < UINT32_MAX ∧ Forall valid_process table.
Definition event_ok (e : event) : Prop := match e with Request r => request_ok r | Table table => table_ok table end.

Definition event_reference (e : event) (m : mem) : option answer * mem :=
  match e with
  | Request r => let '(a, m) := reference r m in (Some a, m)
  | Table table => (None, set_table m table)
  end.
Fixpoint events_reference (events : list event) (m : mem) : list (option answer) * mem :=
  match events with
  | [] => ([], m)
  | e :: events => let '(a, m) := event_reference e m in let '(l, m) := events_reference events m in (a :: l, m)
  end.

Lemma valid_set_table m table : valid m → table_ok table → valid (set_table m table).
Proof. intros [? ? ?] ?. by split. Qed.
Lemma valid_event e m : valid m → event_ok e → valid (event_reference e m).2.
Proof.
  intros Hv He. destruct e as [r|table]; cbn [event_reference event_ok] in *; [|by apply valid_set_table].
  destruct (ipc_request_spec r m Hv He) as (_ & Hv' & _). by destruct (reference r m).
Qed.
Lemma valid_events events m : valid m → Forall event_ok events → valid (events_reference events m).2.
Proof.
  intros Hv He. revert m Hv. induction He as [|e events He _ IH]; intros m Hv; [done|]. cbn [events_reference].
  pose proof (valid_event e m Hv He) as Hv'. destruct (event_reference e m) as [a m']. cbn [snd] in Hv'. specialize (IH _ Hv'). by destruct (events_reference events m').
Qed.

Lemma valid_initial table calls : table_ok table → valid (initial_mem table calls).
Proof.
  intros Ht. split; [split; [done|]|split; [done|]|done]; apply Forall_replicate; [apply valid_zero_endpoint|apply valid_zero_record].
Qed.
Lemma synced_initial table calls : table_ok table → synced [] (initial_mem table calls) (initial_regs table calls).
Proof.
  intros Ht. assert (He : ∀ i, endpoint_at (initial_mem table calls) i = zero_endpoint).
  { intros i. unfold endpoint_at, initial_mem. cbn [ipc_endpoints]. rewrite nth_lookup. destruct (replicate _ _ !! _) eqn:E; [|done].
    apply lookup_replicate in E as [-> _]. done. }
  assert (Hr : ∀ i, record_at (initial_mem table calls) i = zero_record).
  { intros i. unfold record_at, initial_mem. cbn [ipc_capability_records]. rewrite nth_lookup. destruct (replicate _ _ !! _) eqn:E; [|done].
    apply lookup_replicate in E as [-> _]. done. }
  split; try done.
  - by apply valid_shape, valid_initial.
  - intros i Hi _. rewrite He. apply lookup_replicate. split; [done|lia].
  - intros i Hi _. rewrite He. apply lookup_replicate. split; [done|lia].
  - intros i Hi _. rewrite Hr. apply lookup_replicate. split; [done|lia].
  - intros slot q _ _ Hq. rewrite He in Hq. by apply queued_zero in Hq.
Qed.

Section refine.
Context {O : Type} `{ProtectedStoreLaws O} `{!BlankStore O} `{!BlankLaws O}.

Definition event_run (e : event) (s : ipc_t O) : option answer * ipc_t O :=
match e with
| Request r => let '(a, s) := run (request_prog r) s in (Some a, s)
| Table table => (None, set_memory s (set_table (memory s) table))
end.
Fixpoint events_run (events : list event) (s : ipc_t O) : list (option answer) * ipc_t O :=
match events with
| [] => ([], s)
| e :: events => let '(a, s) := event_run e s in let '(l, s) := events_run events s in (a :: l, s)
end.

(** Intact stores that hold the memory, with room for [n] more requests. *)
Definition intact (s : ipc_t O) (n : Z) : Prop :=
valid (memory s) ∧ ∃ a k, synced [] (memory s) a ∧ represents s a k ∧ n * request_cost <= k.

Lemma intact_request r s n : intact s (n + 1) → request_ok r → 0 <= n →
∃ s', run (request_prog r) s = ((reference r (memory s)).1, s') ∧ memory s' = (reference r (memory s)).2 ∧ intact s' n.
Proof using All.
intros (Hv & a & k & Hs & Hr & Hk) Hok Hn. destruct (ipc_request_spec r (memory s) Hv Hok) as (E & Hv' & Hag).
destruct (Hag a Hs) as (a' & c & Ha & Hc & Hs'). unfold request_cost in *.
destruct (run_sim (request_prog r) s a (plain (request_prog r) (memory s)).1 a' c (k - c)) as (s' & Hrun & Hr'); [lia|exact Ha|by replace (k - c + c) with k by lia|].
rewrite E in *. assert (Em : memory s' = (reference r (memory s)).2).
{ rewrite (rep_memory _ _ _ Hr'). exact (sy_mem _ _ _ Hs'). }
exists s'. split_and!; [done|done|]. split; [by rewrite Em|]. exists a', (k - c). rewrite Em. split_and!; [done|done|unfold request_cost; lia].
Qed.

Lemma intact_table table s n : intact s n → table_ok table → intact (set_memory s (set_table (memory s) table)) n.
Proof using All.
intros (Hv & a & k & Hs & Hr & Hk) Ht. split; [by apply valid_set_table|].
exists (set_mem a (set_table (memory s) table)), k. split_and!; [|by apply represents_set_memory|done].
eapply synced_changed; [exact Hs| |reflexivity]. apply changed_other; [done|done|by apply valid_shape].
Qed.

Lemma intact_less s n n' : n' <= n → intact s n → intact s n'.
Proof using. intros Hn (Hv & a & k & Hs & Hr & Hk). split; [done|]. exists a, k. unfold request_cost in *. split_and!; [done|done|lia]. Qed.

Lemma intact_event e s n : intact s (n + 1) → event_ok e → 0 <= n →
event_run e s = ((event_reference e (memory s)).1, (event_run e s).2) ∧
memory (event_run e s).2 = (event_reference e (memory s)).2 ∧ intact (event_run e s).2 n.
Proof using All.
intros Hi He Hn. destruct e as [r|table]; cbn [event_run event_reference event_ok] in *.
- destruct (intact_request r s n Hi He Hn) as (s' & -> & Em & Hi'). by destruct (reference r (memory s)).
- split_and!; [done|done|]. apply intact_table; [|done]. eapply intact_less; [|exact Hi]. lia.
Qed.

(** A run of events leaves room for [n] requests more. *)
Lemma intact_events_more events s n : intact s (n + Z.of_nat (length events)) → Forall event_ok events → 0 <= n →
(events_run events s).1 = (events_reference events (memory s)).1 ∧
memory (events_run events s).2 = (events_reference events (memory s)).2 ∧ intact (events_run events s).2 n.
Proof using All.
intros Hi He Hn. revert s Hi. induction He as [|e events He _ IH]; intros s Hi; [cbn [length] in Hi; by rewrite Z.add_0_r in Hi|].
cbn [length] in Hi. destruct (intact_event e s (n + Z.of_nat (length events))) as (E & Em & Hi'); [|done|lia|].
{ replace (n + Z.of_nat (length events) + 1) with (n + Z.of_nat (S (length events))) by lia. done. }
cbn [events_run events_reference]. rewrite E. destruct (IH _ Hi') as (E1 & E2 & E3). rewrite Em in *.
destruct (event_reference e (memory s)) as [a m]. cbn [fst snd] in *.
destruct (events_run events _) as [l s'']. destruct (events_reference events m) as [l' m'']. cbn [fst snd] in *. by subst.
Qed.
Lemma intact_events events s : intact s (Z.of_nat (length events)) → Forall event_ok events →
(events_run events s).1 = (events_reference events (memory s)).1 ∧
memory (events_run events s).2 = (events_reference events (memory s)).2 ∧ intact (events_run events s).2 0.
Proof using All. intros Hi He. by apply intact_events_more. Qed.

Lemma intact_init (s : ipc_t O) n : table_ok (processes (memory s)) → 0 <= n → n * request_cost < UINT32_MAX → intact (ipc_init s) n.
Proof using All.
intros Ht Hn Hk. split; [by apply valid_initial|].
exists (initial_regs (processes (memory s)) (scheduler_calls (memory s))), (n * request_cost).
split_and!; [by apply synced_initial|apply ipc_init_represents; unfold request_cost in *; lia|done].
Qed.
End refine.

(** C8: From [ipc_init], any sequence of requests and process table changes
    gets from the protected IPC the answers and the memory that the IPC
    without critical objects computes: no seal is refused, no integrity error
    is invented, and the memory stays valid, until the sequence numbers of
    the stores could run out. *)
Theorem ipc_refines_reference {O : Type} `{ProtectedStoreLaws O} `{!BlankStore O} `{!BlankLaws O} (s : ipc_t O) (events : list event)
    (Htable : table_ok (processes (memory s))) (Hevents : Forall event_ok events) (Hroom : Z.of_nat (length events) * request_cost < UINT32_MAX) :
  let m := initial_mem (processes (memory s)) (scheduler_calls (memory s)) in
  (events_run events (ipc_init s)).1 = (events_reference events m).1 ∧
  memory (events_run events (ipc_init s)).2 = (events_reference events m).2 ∧ valid (memory (events_run events (ipc_init s)).2).
Proof.
  destruct (intact_events events (ipc_init s)) as (E1 & E2 & Hi & _); [|done|].
  - apply intact_init; [done|lia|done].
  - done.
Qed.

(** A server (process 1 at index 0) and a client. *)
Definition sample_process (p : Z) : Process := Proc p 1 true (replicate 8 zero_capability).
Definition sample_table : list Process := [sample_process 1; sample_process 2].
Definition sample_message : ipc_message_t := Message 1 140 2 ([7; 8] ++ replicate 126 0).
Definition sample_buffer : ipc_message_t := Message 1 140 0 (replicate 128 0).
Definition sample_ipc : ipc_t CriticalObject.critical_object_t := Ipc (initial_mem sample_table []) [] [] [] [].
Definition sample_events : list event :=
  [Request (Create 1 (Some 0)); Request (Delegate 1 257 2 IPC_RIGHT_SEND); Request (Send 2 257 sample_message 0 0 0);
   Request (Receive 1 257 sample_buffer 0 0 0); Request (Receive 2 257 sample_buffer 0 0 0); Request (Cleanup 1 1);
   Request (Send 2 257 sample_message 0 0 0); Request (Create 2 (Some 0))].

Lemma sample_table_ok : table_ok sample_table.
Proof. split; [done|]. repeat constructor; done. Qed.
Lemma sample_message_in : message_in sample_message.
Proof. split; [done|done|]. split; [done|]. by apply is_bytes_spec. Qed.
Lemma sample_events_ok : Forall event_ok sample_events.
Proof. unfold sample_events. repeat (apply Forall_cons_2; [first [done|apply sample_message_in]|]). apply Forall_nil_2. Qed.

Lemma ipc_refines_reference_witness :
  table_ok sample_table ∧ Forall event_ok sample_events ∧
  (events_run sample_events (ipc_init sample_ipc)).1 =
    [Some (Handle 0 (Some 257)); Some (Status (Some 0)); Some (Status (Some 0)); Some (Message_ (Some 0) sample_message);
     Some (Message_ (Some IPC_EACCES) sample_buffer); Some Nothing; Some (Status (Some IPC_EBADF)); Some (Handle 0 (Some 513))].
Proof.
  split; [apply sample_table_ok|split; [apply sample_events_ok|]].
  destruct (ipc_refines_reference sample_ipc sample_events sample_table_ok sample_events_ok eq_refl) as (E & _).
  rewrite E. vm_compute. reflexivity.
Defined.
