(* ===== verification/IpcAuthority.v ===== *)
(** Who may use an endpoint.

    The records and the headers of the endpoints form a capability system:
    [grants] are the two ways to gain a record, [loses] the ways to lose one.
    Every request is a sequence of losses, followed by a grant when it is a
    successful creation or delegation.  [owned] is the invariant of the
    system: one control record for each active endpoint, held by its owner, at
    most one peer, and no record of an endpoint that is gone. *)
From stdpp Require Import relations.
From S2P Require Import Prelude ProtectedStore Layout ProtectedRecord Ipc IpcSpec IpcPlain IpcHelpers IpcCaps IpcQueue IpcCalls IpcControl IpcRefine.
Import Ipc.
Local Open Scope ipc_scope.

(** ** The system *)
Definition control (r : ipc_capability_record_t) : bool := negb (Z.land (rights r) IPC_RIGHT_CONTROL =? 0).
(** The record is in use for the endpoint [slot]. *)
Definition names (m : mem) (slot i : Z) : Prop := 0 <= i < 64 ∧ r_active (record_at m i) = true ∧ endpoint_slot (record_at m i) = slot.
Definition live_handle (m : mem) (slot : Z) : Z := make_handle slot (generation (endpoint_at m slot)).

Record owned_slot (m : mem) (slot : Z) : Prop := {
  ow_live i : names m slot i → active (endpoint_at m slot) = true ∧ r_handle (record_at m i) = live_handle m slot;
  ow_control i : names m slot i → control (record_at m i) = true →
    holder_pid (record_at m i) = owner_pid (endpoint_at m slot) ∧ holder_generation (record_at m i) = owner_generation (endpoint_at m slot) ∧
    rights (record_at m i) = all_rights;
  ow_one_control i j : names m slot i → names m slot j → control (record_at m i) = true → control (record_at m j) = true → i = j;
  ow_has_control : active (endpoint_at m slot) = true → ∃ i, names m slot i ∧ control (record_at m i) = true;
  ow_peer i : names m slot i → control (record_at m i) = false → peer_capabilities (endpoint_at m slot) = 1;
  ow_one_peer i j : names m slot i → names m slot j → control (record_at m i) = false → control (record_at m j) = false → i = j
}.
Definition owned (m : mem) : Prop := ∀ slot, 0 <= slot < 16 → owned_slot m slot.

(** What the system sees of an endpoint. *)
Definition header (e : ipc_endpoint_t) : bool * Z * Z * Z * Z :=
  (active e, generation e, owner_pid e, owner_generation e, peer_capabilities e).
Definition headers_but (P : Z → Prop) (m m' : mem) : Prop :=
  ∀ s, 0 <= s < 16 → ¬ P s → header (endpoint_at m' s) = header (endpoint_at m s).
Definition records_but (P : Z → Prop) (m m' : mem) : Prop := ∀ i, 0 <= i < 64 → ¬ P i → record_at m' i = record_at m i.

Inductive loses (m m' : mem) : Prop :=
| Keeps (Hh : headers_but (λ _, False) m m') (Hr : records_but (λ _, False) m m')
| Drops (slot i : Z) (Hn : names m slot i) (Hc : control (record_at m i) = false)
    (Hh : headers_but (eq slot) m m') (Hr : records_but (eq i) m m') (Hz : record_at m' i = zero_record)
    (He : header (endpoint_at m' slot) = header (with_peer true 0 (endpoint_at m slot)))
| Closes (slot : Z) (Hs : 0 <= slot < 16)
    (Hh : headers_but (eq slot) m m') (Hr : records_but (names m slot) m m')
    (Hz : ∀ i, names m slot i → record_at m' i = zero_record)
    (He : header (endpoint_at m' slot) = header (closed (endpoint_at m slot))).

Inductive grants (m m' : mem) : request → Prop :=
| Opens (owner : Z) (handle : option Z) (p : Process) (slot i : Z)
    (Hp : process_at m owner = Some p) (Hs : 0 <= slot < 16) (Hi : 0 <= i < 64) (Hf : r_active (record_at m i) = false)
    (Ha : active (endpoint_at m slot) = false) (Hg : generation (endpoint_at m slot) < IPC_HANDLE_GENERATION_MAX)
    (Hh : headers_but (eq slot) m m') (Hr : records_but (eq i) m m')
    (He : header (endpoint_at m' slot) = (true, generation (endpoint_at m slot) + 1, pid p, p_generation p, 0))
    (Hn : record_at m' i = Record_ true (live_handle m' slot) owner (pid p) (p_generation p) all_rights slot) :
    grants m m' (Create owner handle)
| Delegates (source handle target rights_ : Z) (t : Process) (slot i from : Z)
    (Ht : process_at m target = Some t) (Hs : names m slot from) (Hi : 0 <= i < 64) (Hf : r_active (record_at m i) = false)
    (Ha : ∃ s, authority m source handle rights_ slot s from) (Hsub : Z.land rights_ (rights (record_at m from)) = rights_)
    (Hrights : 0 < rights_ < 4) (Hpeer : peer_capabilities (endpoint_at m slot) = 0)
    (Hh : headers_but (eq slot) m m') (Hr : records_but (eq i) m m')
    (He : header (endpoint_at m' slot) = header (with_peer true 1 (endpoint_at m slot)))
    (Hn : record_at m' i = Record_ true handle target (pid t) (p_generation t) rights_ slot) :
    grants m m' (Delegate source handle target rights_).

Lemma names_slot m slot i : valid m → names m slot i → 0 <= slot < 16.
Proof. intros Hv (Hi & Ha & <-). apply (vr_slot _ (valid_record_at m i Hv)). Qed.

(** ** Preservation *)
Lemma header_fields e e' : header e' = header e → active e' = active e ∧ generation e' = generation e ∧ owner_pid e' = owner_pid e ∧
  owner_generation e' = owner_generation e ∧ peer_capabilities e' = peer_capabilities e.
Proof. unfold header. intros [= -> -> -> -> ->]. done. Qed.

(** A slot whose header and records stay. *)
Lemma owned_slot_frame m m' slot : header (endpoint_at m' slot) = header (endpoint_at m slot) →
  (∀ i, names m' slot i ↔ names m slot i) → (∀ i, names m slot i → record_at m' i = record_at m i) → owned_slot m slot → owned_slot m' slot.
Proof.
  intros Hh Hn Hr [H1 H2 H3 H4 H5 H6]. apply header_fields in Hh as (E1 & E2 & E3 & E4 & E5).
  split; unfold live_handle in *; rewrite ?E1, ?E2, ?E3, ?E4, ?E5.
  - intros i Hi%Hn. rewrite Hr by done. by apply H1.
  - intros i Hi%Hn. rewrite Hr by done. by apply H2.
  - intros i j Hi%Hn Hj%Hn. rewrite !Hr by done. by apply H3.
  - intros Ha. destruct (H4 Ha) as (i & Hi & Hc). exists i. rewrite Hr by done. split; [by apply Hn|done].
  - intros i Hi%Hn. rewrite Hr by done. by apply H5.
  - intros i j Hi%Hn Hj%Hn. rewrite !Hr by done. by apply H6.
Qed.

(** A record not touched names what it named. *)
Lemma names_same m m' slot i : (0 <= i < 64 → record_at m' i = record_at m i) → names m' slot i ↔ names m slot i.
Proof. intros E. unfold names. split; intros (Hi & H); [rewrite E in H by done|rewrite E by done]; done. Qed.
Lemma zero_names m slot i : record_at m i = zero_record → ¬ names m slot i.
Proof. intros E (_ & Ha & _). by rewrite E in Ha. Qed.
Lemma free_names m slot i : r_active (record_at m i) = false → ¬ names m slot i.
Proof. intros E (_ & Ha & _). congruence. Qed.

#[export] Instance names_dec m slot i : Decision (names m slot i).
Proof. unfold names. apply _. Defined.

(** Other slots do not notice a change of one slot and of records. *)
Lemma owned_slot_other (P : Z → Prop) `{∀ i, Decision (P i)} m m' slot :
  header (endpoint_at m' slot) = header (endpoint_at m slot) → records_but P m m' →
  (∀ i, P i → ¬ names m slot i) → (∀ i, P i → ¬ names m' slot i) → owned_slot m slot → owned_slot m' slot.
Proof.
  intros Hh Hr Hm Hm'. apply owned_slot_frame; [done| |].
  - intros i. destruct (decide (P i)) as [Hp|Hp]; [split; intros Hn; exfalso; [by eapply Hm'|by eapply Hm]|].
    apply names_same. intros Hi. by apply Hr.
  - intros i Hn. apply Hr; [apply Hn|]. intros Hp. by eapply Hm.
Qed.

Lemma drop_owned_slot m m' slot i : names m slot i → control (record_at m i) = false → records_but (eq i) m m' → record_at m' i = zero_record →
  header (endpoint_at m' slot) = header (with_peer true 0 (endpoint_at m slot)) → owned_slot m slot → owned_slot m' slot.
Proof.
  intros Hn Hc Hr Hz He [H1 H2 H3 H4 H5 H6]. apply header_fields in He as (E1 & E2 & E3 & E4 & E5). cbn in E1, E2, E3, E4, E5.
  assert (Hs' : ∀ j, names m' slot j → j ≠ i ∧ names m slot j ∧ record_at m' j = record_at m j).
  { intros j Hj. assert (j ≠ i) by (intros ->; by eapply zero_names). assert (E : record_at m' j = record_at m j) by (apply Hr; [apply Hj|done]).
    split_and!; [done| |done]. by apply (names_same m m' slot j). }
  split; unfold live_handle in *; rewrite ?E1, ?E2, ?E3, ?E4.
  - intros j Hj. destruct (Hs' j Hj) as (_ & Hj' & ->). by apply H1.
  - intros j Hj. destruct (Hs' j Hj) as (_ & Hj' & ->). by apply H2.
  - intros j k Hj Hk. destruct (Hs' j Hj) as (_ & Hj' & ->). destruct (Hs' k Hk) as (_ & Hk' & ->). by apply H3.
  - intros Ha. destruct (H4 Ha) as (j & Hj & Hcj). assert (j ≠ i) by congruence.
    assert (E : record_at m' j = record_at m j) by (apply Hr; [apply Hj|done]). exists j. rewrite E. split; [|done]. by apply (names_same m).
  - intros j Hj Hcj. exfalso. destruct (Hs' j Hj) as (Hne & Hj' & E). rewrite E in Hcj. apply Hne. by apply H6.
  - intros j k Hj Hk. destruct (Hs' j Hj) as (_ & Hj' & ->). destruct (Hs' k Hk) as (_ & Hk' & ->). by apply H6.
Qed.

Lemma loses_owned m m' : loses m m' → owned m → owned m'.
Proof.
  intros Hl Ho slot Hs. specialize (Ho slot Hs) as Hos. destruct Hl as [Hh Hr|slot' i Hn Hc Hh Hr Hz He|slot' Hs' Hh Hr Hz He].
  - apply (owned_slot_other (λ _, False) m); auto.
  - destruct (decide (slot = slot')) as [<-|Hne]; [by eapply drop_owned_slot|].
    apply (owned_slot_other (eq i) m); [apply Hh; [done|congruence]|done| |intros j <-; by apply zero_names|done].
    intros j <- (_ & _ & E). destruct Hn as (_ & _ & E'). congruence.
  - destruct (decide (slot = slot')) as [<-|Hne].
    + apply header_fields in He as (E1 & E2 & E3 & E4 & E5). cbn in E1.
      assert (Hno : ∀ j, ¬ names m' slot j).
      { intros j Hj. destruct (decide (names m slot j)) as [Hm|Hm]; [by eapply (zero_names m'), Hj; apply Hz|]. apply Hm.
        apply (names_same m m'); [intros; by apply Hr|done]. }
      split; try (intros; exfalso; by eapply Hno). intros Ha. congruence.
    + apply (owned_slot_other (names m slot') m); [apply Hh; [done|congruence]|done| |intros j Hj; by apply zero_names, Hz|done].
      intros j (_ & _ & E) (_ & _ & E'). congruence.
Qed.

Lemma control_all : control (Record_ true 0 0 0 0 all_rights 0) = true.
Proof. done. Qed.
Lemma control_small r : 0 < rights r < 4 → control r = false.
Proof. intros Hr. unfold control. assert (rights r = 1 ∨ rights r = 2 ∨ rights r = 3) as [->|[->| ->]] by lia; done. Qed.

Lemma live_positive m slot : valid m → active (endpoint_at m slot) = true → 0 < generation (endpoint_at m slot) < 16777216.
Proof.
  intros Hv Ha. pose proof (ve_generation _ (valid_at m slot Hv)). destruct (ve_active _ (valid_at m slot Hv) Ha) as [? _].
  unfold IPC_HANDLE_GENERATION_MAX in *. lia.
Qed.

Lemma grants_owned m m' r : valid m → grants m m' r → owned m → owned m'.
Proof.
  intros Hv Hg Ho slot Hs. specialize (Ho slot Hs) as Hos.
  destruct Hg as [owner handle p slot' i Hp Hs' Hi Hf Ha Hg Hh Hr He Hn|source handle target rights_ t slot' i from Ht Hfr Hi Hf (s & Hau) Hsub Hri Hpe Hh Hr He Hn].
  - destruct (decide (slot = slot')) as [<-|Hne].
    + unfold header in He. injection He as E1 E2 E3 E4 E5.
      assert (Hold : ∀ j, ¬ names m slot j) by (intros j Hj; destruct (ow_live _ _ Hos j Hj); congruence).
      assert (Honly : ∀ j, names m' slot j → j = i).
      { intros j Hj. destruct (decide (i = j)) as [<-|Hij]; [done|]. exfalso. apply (Hold j). apply (names_same m m'); [intros; by apply Hr|done]. }
      assert (Hin : names m' slot i) by (unfold names; by rewrite Hn).
      split.
      * intros j ->%Honly. by rewrite Hn.
      * intros j ->%Honly _. by rewrite Hn, E3, E4.
      * by intros j k ->%Honly ->%Honly.
      * intros _. exists i. by rewrite Hn.
      * intros j ->%Honly. by rewrite Hn.
      * by intros j k ->%Honly ->%Honly.
    + apply (owned_slot_other (eq i) m); [apply Hh; [done|congruence]|done|intros j <-; by apply free_names| |done].
      intros j <- (_ & _ & E). rewrite Hn in E. cbn in E. congruence.
  - destruct (decide (slot = slot')) as [<-|Hne].
    + apply header_fields in He as (E1 & E2 & E3 & E4 & E5). cbn in E1, E2, E3, E4, E5. destruct Hos as [H1 H2 H3 H4 H5 H6].
      assert (Hctl : control (record_at m' i) = false) by (rewrite Hn; by apply control_small).
      assert (Hold : ∀ j, names m' slot j → j = i ∨ (j ≠ i ∧ names m slot j ∧ record_at m' j = record_at m j ∧ control (record_at m j) = true)).
      { intros j Hj. destruct (decide (i = j)) as [<-|Hij]; [by left|right].
        assert (E : record_at m' j = record_at m j) by (apply Hr; [apply Hj|done]).
        assert (Hj' : names m slot j) by (by apply (names_same m m')). split_and!; [done|done|done|].
        destruct (control (record_at m j)) eqn:Ec; [done|]. pose proof (H5 j Hj' Ec). lia. }
      assert (Hlive : handle = live_handle m slot) by (rewrite <- (au_record_handle _ _ _ _ _ _ _ Hau); by apply H1).
      split; unfold live_handle in *; rewrite ?E1, ?E2, ?E3, ?E4, ?E5.
      * intros j Hj. destruct (Hold j Hj) as [->|(_ & Hj' & -> & _)]; [|by apply H1]. rewrite Hn. split; [by apply (H1 from)|done].
      * intros j Hj Hc. destruct (Hold j Hj) as [->|(_ & Hj' & E & _)]; [congruence|]. rewrite E in *. by apply H2.
      * intros j k Hj Hk Hc Hc'. destruct (Hold j Hj) as [->|(_ & Hj' & E & _)]; [congruence|]. destruct (Hold k Hk) as [->|(_ & Hk' & E' & _)]; [congruence|].
        rewrite E in Hc. rewrite E' in Hc'. by apply H3.
      * intros Ha. destruct (H4 Ha) as (j & Hj & Hc). exists j.
        assert (E : record_at m' j = record_at m j) by (apply Hr; [apply Hj|intros ->; by eapply free_names]). rewrite E. split; [|done].
        by apply (names_same m m').
      * done.
      * intros j k Hj Hk Hc Hc'. destruct (Hold j Hj) as [->|(_ & _ & E & Ec)]; [|congruence].
        destruct (Hold k Hk) as [->|(_ & _ & E' & Ec')]; [done|congruence].
    + apply (owned_slot_other (eq i) m); [apply Hh; [done|congruence]|done|intros j <-; by apply free_names| |done].
      intros j <- (_ & _ & E). rewrite Hn in E. cbn in E. congruence.
Qed.

(** ** Requests are moves *)
Definition steps : mem → mem → Prop := rtc loses.
Lemma steps_trans m m' m'' : steps m m' → steps m' m'' → steps m m''.
Proof. unfold steps. by etrans. Qed.
Lemma steps_one m m' : loses m m' → steps m m'.
Proof. apply rtc_once. Qed.
Lemma steps_owned m m' : steps m m' → owned m → owned m'.
Proof. induction 1; [done|]. eauto using loses_owned. Qed.

Lemma keeps_other m m' : ipc_endpoints m' = ipc_endpoints m → ipc_capability_records m' = ipc_capability_records m → steps m m'.
Proof.
  intros E1 E2. apply steps_one, Keeps.
  - intros slot _ _. unfold endpoint_at. by rewrite E1.
  - intros i _ _. unfold record_at. by rewrite E2.
Qed.
Lemma headers_set m slot e : length (ipc_endpoints m) = 16%nat → 0 <= slot < 16 → headers_but (eq slot) m (set_endpoint m slot e).
Proof. intros Hl Hs s Hs' Hne. rewrite endpoint_at_set by (done || lia). rewrite (proj2 (Z.eqb_neq s slot)) by congruence. done. Qed.
Lemma keeps_endpoint m slot e : valid m → 0 <= slot < 16 → header e = header (endpoint_at m slot) → steps m (set_endpoint m slot e).
Proof.
  intros Hv Hs He. pose proof (sh_endpoints _ (valid_shape m Hv)) as Hl. apply steps_one, Keeps; [|done].
  intros s Hs' _. rewrite endpoint_at_set by (done || lia). destruct (Z.eqb_spec s slot) as [->|]; done.
Qed.

(** The memory after a write and bookkeeping. *)
Lemma keeps_then m m' m'' : steps m m' → ipc_endpoints m'' = ipc_endpoints m' → ipc_capability_records m'' = ipc_capability_records m' → steps m m''.
Proof. intros. eapply steps_trans; [done|by apply keeps_other]. Qed.

Lemma keeps_sent m slot msg p g : valid m → 0 <= slot < 16 → steps m (sent m slot msg p g).
Proof. intros Hv Hs. apply (keeps_then _ (set_endpoint m slot (enqueued (endpoint_at m slot) (queued_message msg) p g))); [by apply keeps_endpoint|done|done]. Qed.
Lemma keeps_taken m slot o : valid m → 0 <= slot < 16 → steps m (taken m slot o).
Proof.
  intros Hv Hs. apply (keeps_then _ (set_endpoint m slot (removed (endpoint_at m slot) o))); [apply keeps_endpoint|done|done]; [done|done|].
  unfold removed. destruct (shifted_arrays (Z.to_nat (count (endpoint_at m slot) - (o + 1))) o (endpoint_at m slot)) as (a & b & c & ->). done.
Qed.
Lemma keeps_bulk_sent m slot msg p g : valid m → 0 <= slot < 16 → steps m (bulk_sent m slot msg p g).
Proof. intros Hv Hs. apply (keeps_then _ (set_endpoint m slot (with_bulk true (queued_bulk msg) p g (endpoint_at m slot)))); [by apply keeps_endpoint|done|done]. Qed.
Lemma keeps_bulk_taken m slot : valid m → 0 <= slot < 16 → steps m (bulk_taken m slot).
Proof.
  intros Hv Hs. apply (keeps_then _ (set_endpoint m slot (with_bulk false zero_bulk_message 0 0 (endpoint_at m slot)))); [by apply keeps_endpoint|done|done].
Qed.

(** ** Clearing records *)
Lemma forget_entry_at r m : (∀ i, endpoint_at (forget_entry r m) i = endpoint_at m i) ∧ (∀ i, record_at (forget_entry r m) i = record_at m i).
Proof. destruct (forget_entry_other r m) as [E1 E2]. unfold endpoint_at, record_at. by rewrite E1, E2. Qed.
Lemma drop_peer_record r m i : record_at (drop_peer r m) i = record_at m i.
Proof. unfold drop_peer. by destruct (_ && _). Qed.

Lemma cleared_record i m j : valid m → 0 <= i < 64 → 0 <= j < 64 → r_active (record_at m i) = true →
  record_at (cleared i m) j = if j =? i then zero_record else record_at m j.
Proof.
  intros Hv Hi Hj Ha. unfold cleared. rewrite Ha. cbn [negb]. set (r := record_at m i).
  pose proof (valid_forget_entry r _ (valid_drop_peer r m Hv)) as Hv'. pose proof (sh_records _ (valid_shape _ Hv')) as Hl.
  change (record_at (capability_removed ?m) j) with (record_at m j). rewrite record_at_set by (done || lia).
  destruct (j =? i); [done|]. by rewrite (proj2 (forget_entry_at _ _)), drop_peer_record.
Qed.
Lemma cleared_endpoint i m s : r_active (record_at m i) = true → endpoint_at (cleared i m) s = endpoint_at (drop_peer (record_at m i) m) s.
Proof. intros Ha. unfold cleared. rewrite Ha. cbn [negb]. apply (forget_entry_at (record_at m i)). Qed.

Lemma cleared_drops i m slot : valid m → owned m → names m slot i → control (record_at m i) = false → loses m (cleared i m).
Proof.
  intros Hv Ho Hn Hc. pose proof (names_slot _ _ _ Hv Hn) as Hs. destruct (Ho slot Hs) as [H1 H2 H3 H4 H5 H6].
  destruct (H1 i Hn) as [Ha _]. pose proof (H5 i Hn Hc) as Hp. destruct Hn as (Hi & Hact & Hsl). pose proof (sh_endpoints _ (valid_shape m Hv)) as Hl.
  assert (Ed : drop_peer (record_at m i) m = set_endpoint m slot (with_peer (peer_seen (endpoint_at m slot)) (peer_capabilities (endpoint_at m slot) - 1) (endpoint_at m slot))).
  { unfold drop_peer, IPC_MAX_ENDPOINTS. rewrite Hsl, Ha, Hp. rewrite (proj2 (Z.ltb_lt slot 16)) by lia.
    unfold control in Hc. apply negb_false_iff in Hc. by rewrite Hc. }
  apply (Drops _ _ slot i); [done|done| | | |].
  - intros s Hs' Hne. rewrite cleared_endpoint, Ed by done. by apply headers_set.
  - intros j Hj Hne. rewrite cleared_record by done. rewrite (proj2 (Z.eqb_neq j i)); [done|congruence].
  - rewrite cleared_record, Z.eqb_refl by done. done.
  - rewrite cleared_endpoint, Ed, endpoint_at_same by done. unfold header. cbn. by rewrite Hp.
Qed.

(** Records of endpoints that are already inactive. *)
Lemma clear_all_dead f slots m : valid m → (∀ i, In i slots → 0 <= i < 64) →
  (∀ i, In i slots → r_active (record_at m i) = true → f (record_at m i) = true → active (endpoint_at m (endpoint_slot (record_at m i))) = false) →
  (∀ s, endpoint_at (clear_all f slots m) s = endpoint_at m s) ∧
  (∀ j, 0 <= j < 64 → record_at (clear_all f slots m) j =
    if existsb (Z.eqb j) slots && (r_active (record_at m j) && f (record_at m j)) then zero_record else record_at m j).
Proof.
  revert m. induction slots as [|i slots IH]; intros m Hv Hr Hd; [done|]. cbn [clear_all existsb].
  pose proof (Hr i (or_introl eq_refl)) as Hi. assert (Hr' : ∀ j, In j slots → 0 <= j < 64) by (intros j Hj; apply Hr; by right).
  destruct (r_active (record_at m i) && f (record_at m i)) eqn:Eb.
  - apply andb_true_iff in Eb as [Ha Hf]. pose proof (Hd i (or_introl eq_refl) Ha Hf) as Hin.
    assert (Ee : ∀ s, endpoint_at (cleared i m) s = endpoint_at m s).
    { intros s. rewrite cleared_endpoint by done. unfold drop_peer. rewrite Hin, andb_false_r. cbn [andb]. by rewrite andb_false_r. }
    destruct (IH (cleared i m) (valid_cleared i m Hv) Hr') as [E1 E2].
    { intros j Hj. rewrite Ee. rewrite cleared_record by auto. destruct (Z.eqb_spec j i) as [->|]; [done|]. apply Hd. by right. }
    split; [intros s; by rewrite E1|]. intros j Hj. rewrite E2, cleared_record by done. destruct (Z.eqb_spec j i) as [->|Hne]; cbn [orb].
    + rewrite Ha, Hf. cbn [andb r_active zero_record]. by rewrite andb_false_r.
    + done.
  - destruct (IH m Hv Hr') as [E1 E2]; [intros j Hj; apply Hd; by right|]. split; [done|]. intros j Hj. rewrite E2 by done.
    destruct (Z.eqb_spec j i) as [->|Hne]; cbn [orb]; [|done]. rewrite Eb. by rewrite andb_false_r.
Qed.

Lemma existsb_slots j : 0 <= j < 64 → existsb (Z.eqb j) capability_slots = true.
Proof. intros Hj. apply existsb_exists. exists j. split; [by apply capability_slots_all|apply Z.eqb_refl]. Qed.

Lemma shut_endpoint slot m : valid m → 0 <= slot < 16 → endpoint_at (shut_at slot m) slot = shut (endpoint_at m slot).
Proof.
  intros Hv Hs. unfold shut_at. rewrite endpoint_at_same; [by rewrite account_closed_at| |done].
  rewrite (proj1 (account_closed_same slot m)). apply (valid_shape m Hv).
Qed.
Lemma shut_other slot m s : valid m → 0 <= slot < 16 → 0 <= s → s ≠ slot → endpoint_at (shut_at slot m) s = endpoint_at m s.
Proof.
  intros Hv Hs Hs' Hne. unfold shut_at. rewrite endpoint_at_set; [| |done|done].
  - rewrite (proj2 (Z.eqb_neq s slot)) by done. apply account_closed_at.
  - rewrite (proj1 (account_closed_same slot m)). apply (valid_shape m Hv).
Qed.
Lemma shut_record slot m i : record_at (shut_at slot m) i = record_at m i.
Proof. unfold shut_at, record_at. cbn. by rewrite (proj1 (proj2 (account_closed_same slot m))). Qed.

Lemma woken_endpoint slot m s : endpoint_at (woken slot m) s = endpoint_at m s.
Proof. done. Qed.
Lemma woken_record slot m i : record_at (woken slot m) i = record_at m i.
Proof. done. Qed.

(** Closing an endpoint with its records. *)
Section close_slot.
Context (f : ipc_capability_record_t → bool) (m : mem) (slot : Z).
Context (Hv : valid m) (Hs : 0 <= slot < 16) (Hf : ∀ r, f r = true → endpoint_slot r = slot).
Context (Hall : ∀ i, names m slot i → f (record_at m i) = true).
Let m' := woken slot (clear_all f capability_slots (shut_at slot m)).

Lemma close_slot_facts : (∀ s, endpoint_at m' s = endpoint_at (shut_at slot m) s) ∧
  (∀ j, 0 <= j < 64 → record_at m' j = if decide (names m slot j) then zero_record else record_at m j).
Proof using All.
  destruct (clear_all_dead f capability_slots (shut_at slot m) (valid_shut_at slot m Hv) capability_slots_range) as [E1 E2].
  { intros i Hi _ Hfi. rewrite (Hf _ Hfi), shut_endpoint by done. done. }
  split; [intros s; unfold m'; rewrite woken_endpoint; apply E1|]. intros j Hj. unfold m'. rewrite woken_record.
  rewrite E2, existsb_slots, shut_record by done. cbn [andb]. destruct (decide (names m slot j)) as [Hn|Hn].
  - rewrite (Hall j Hn). destruct Hn as (_ & -> & _). done.
  - destruct (r_active (record_at m j)) eqn:Ha, (f (record_at m j)) eqn:Hfj; try done. exfalso. apply Hn. split_and!; [lia|lia|done|by apply Hf].
Qed.

Lemma close_slot_closes : loses m m'.
Proof using All.
  destruct close_slot_facts as [E1 E2]. apply (Closes _ _ slot); [done|..].
  - intros s Hs' Hne. rewrite E1, shut_other by (done || lia || congruence). done.
  - intros j Hj Hn. rewrite E2 by done. by rewrite decide_False.
  - intros j Hn. rewrite E2 by apply Hn. by rewrite decide_True.
  - rewrite E1, shut_endpoint by done. done.
Qed.
End close_slot.

Lemma quarantined_closes m slot : valid m → 0 <= slot < 16 → steps m (quarantined slot m).
Proof.
  intros Hv Hs. apply steps_one. apply (close_slot_closes (λ r, endpoint_slot r =? slot)); [done|done|by intros r ?%Z.eqb_eq|].
  intros i (_ & _ & E). by apply Z.eqb_eq.
Qed.
Lemma revoked_closes m slot : valid m → owned m → 0 <= slot < 16 → steps m (revoked slot m).
Proof.
  intros Hv Ho Hs. apply steps_one. unfold revoked. rewrite shut_endpoint by done. apply close_slot_closes; [done|done| |].
  - intros r [E _]%andb_true_iff. by apply Z.eqb_eq.
  - intros i Hn. destruct (ow_live _ _ (Ho slot Hs) i Hn) as [_ E]. destruct Hn as (_ & _ & E'). rewrite E', E. unfold live_handle. by rewrite !Z.eqb_refl.
Qed.

(** Losses open nothing. *)
Lemma loses_live m m' s : loses m m' → 0 <= s < 16 → active (endpoint_at m' s) = true →
  active (endpoint_at m s) = true ∧ generation (endpoint_at m' s) = generation (endpoint_at m s) ∧
  owner_pid (endpoint_at m' s) = owner_pid (endpoint_at m s) ∧ owner_generation (endpoint_at m' s) = owner_generation (endpoint_at m s).
Proof.
  intros Hl Hs Ha. destruct Hl as [Hh _|slot i _ _ Hh _ _ He|slot _ Hh _ _ He].
  - destruct (header_fields _ _ (Hh s Hs (λ x, x))) as (E1 & E2 & E3 & E4 & _). rewrite <- E1. done.
  - destruct (decide (slot = s)) as [->|Hne].
    + destruct (header_fields _ _ He) as (E1 & E2 & E3 & E4 & _). cbn in E1, E2, E3, E4. rewrite <- E1. done.
    + destruct (header_fields _ _ (Hh s Hs Hne)) as (E1 & E2 & E3 & E4 & _). rewrite <- E1. done.
  - destruct (decide (slot = s)) as [->|Hne].
    + destruct (header_fields _ _ He) as (E1 & _). cbn in E1. congruence.
    + destruct (header_fields _ _ (Hh s Hs Hne)) as (E1 & E2 & E3 & E4 & _). rewrite <- E1. done.
Qed.
Lemma steps_live m m' s : steps m m' → 0 <= s < 16 → active (endpoint_at m' s) = true →
  active (endpoint_at m s) = true ∧ generation (endpoint_at m' s) = generation (endpoint_at m s) ∧
  owner_pid (endpoint_at m' s) = owner_pid (endpoint_at m s) ∧ owner_generation (endpoint_at m' s) = owner_generation (endpoint_at m s).
Proof.
  intros H Hs. induction H as [m|m m1 m' Hl _ IH]; intros Ha; [done|]. destruct (IH Ha) as (Ha1 & E1 & E2 & E3).
  destruct (loses_live _ _ _ Hl Hs Ha1) as (Ha0 & F1 & F2 & F3). split_and!; [done|congruence..].
Qed.
(** The generation of a slot never changes in a loss. *)
Lemma loses_generation m m' s : loses m m' → 0 <= s < 16 → generation (endpoint_at m' s) = generation (endpoint_at m s).
Proof.
  intros Hl Hs. destruct Hl as [Hh _|slot i _ _ Hh _ _ He|slot _ Hh _ _ He].
  - by destruct (header_fields _ _ (Hh s Hs (λ x, x))) as (_ & ? & _).
  - destruct (decide (slot = s)) as [->|Hne]; [by destruct (header_fields _ _ He) as (_ & ? & _)|by destruct (header_fields _ _ (Hh s Hs Hne)) as (_ & ? & _)].
  - destruct (decide (slot = s)) as [->|Hne]; [by destruct (header_fields _ _ He) as (_ & ? & _)|by destruct (header_fields _ _ (Hh s Hs Hne)) as (_ & ? & _)].
Qed.
Lemma steps_generation m m' s : steps m m' → 0 <= s < 16 → generation (endpoint_at m' s) = generation (endpoint_at m s).
Proof. intros H Hs. induction H as [m|m m1 m' Hl _ IH]; [done|]. rewrite IH. by apply loses_generation. Qed.
(** A record stays or is gone. *)
Lemma loses_record m m' i : loses m m' → 0 <= i < 64 → record_at m' i = record_at m i ∨ record_at m' i = zero_record.
Proof.
  intros Hl Hi. destruct Hl as [_ Hr|slot j _ _ _ Hr Hz _|slot _ _ Hr Hz _].
  - left. apply Hr; auto.
  - destruct (decide (j = i)) as [->|Hne]; [by right|left; by apply Hr].
  - destruct (decide (names m slot i)) as [Hn|Hn]; [right; by apply Hz|left; by apply Hr].
Qed.
Lemma steps_record m m' i : steps m m' → 0 <= i < 64 → record_at m' i = record_at m i ∨ record_at m' i = zero_record.
Proof.
  intros H Hi. induction H as [m|m m1 m' Hl _ IH]; [by left|]. destruct (loses_record _ _ _ Hl Hi) as [E|E], IH as [F|F]; rewrite ?E in F; auto.
Qed.

(** ** Cleaning up *)
Definition unowned (p g : Z) (m : mem) : Prop :=
  ∀ s, 0 <= s < 16 → active (endpoint_at m s) = true → owner_pid (endpoint_at m s) = p → owner_generation (endpoint_at m s) = g → False.
Lemma steps_unowned p g m m' : steps m m' → unowned p g m → unowned p g m'.
Proof.
  intros Hst Hu s Hs Ha Hp Hg. destruct (steps_live _ _ _ Hst Hs Ha) as (Ha' & _ & E2 & E3). apply (Hu s Hs Ha'); congruence.
Qed.

Lemma revoke_owned_steps p g slots m : valid m → owned m → (∀ s, In s slots → 0 <= s < 16) →
  steps m (revoke_owned p g slots m) ∧
  (∀ s, In s slots → active (endpoint_at (revoke_owned p g slots m) s) = true → owner_pid (endpoint_at (revoke_owned p g slots m) s) = p →
    owner_generation (endpoint_at (revoke_owned p g slots m) s) = g → False).
Proof.
  revert m. induction slots as [|slot slots IH]; intros m Hv Ho Hr; [done|]. cbn [revoke_owned].
  pose proof (Hr slot (or_introl eq_refl)) as Hs. assert (Hr' : ∀ s, In s slots → 0 <= s < 16) by (intros s Hin; apply Hr; by right).
  set (b := active (endpoint_at m slot) && _ && _). set (m1 := if b then revoked slot m else m).
  assert (H1 : steps m m1 ∧ valid m1 ∧ (active (endpoint_at m1 slot) = true → owner_pid (endpoint_at m1 slot) = p →
    owner_generation (endpoint_at m1 slot) = g → False)).
  { unfold m1. destruct b eqn:Eb; unfold b in Eb.
    - split_and!; [by apply revoked_closes|by apply valid_revoked|]. unfold revoked. rewrite shut_endpoint by done.
      destruct (close_slot_facts (λ r, (endpoint_slot r =? slot) && (r_handle r =? make_handle slot (generation (shut (endpoint_at m slot))))) m slot)
        as [E _]; [done|done|by intros r [?%Z.eqb_eq _]%andb_true_iff| |].
      + intros i Hn. destruct (ow_live _ _ (Ho slot Hs) i Hn) as [_ E]. destruct Hn as (_ & _ & E'). rewrite E', E. unfold live_handle. by rewrite !Z.eqb_refl.
      + rewrite E, shut_endpoint by done. done.
    - split_and!; [done|done|]. intros Ha Hp Hg. rewrite Ha, Hp, Hg, !Z.eqb_refl in Eb. done. }
  destruct H1 as (Hst & Hv1 & Hno). destruct (IH m1 Hv1 (steps_owned _ _ Hst Ho) Hr') as [Hst' Hno']. split; [by eapply steps_trans|].
  intros s [<-|Hin]; [|by apply Hno']. intros Ha Hp Hg. destruct (steps_live _ _ _ Hst' Hs Ha) as (Ha' & _ & E2 & E3). apply Hno; congruence.
Qed.

Lemma clear_held_steps p g slots m : valid m → owned m → unowned p g m → (∀ i, In i slots → 0 <= i < 64) →
  steps m (clear_held p g slots m) ∧
  (∀ i, In i slots → r_active (record_at (clear_held p g slots m) i) = true → holder_pid (record_at (clear_held p g slots m) i) = p →
    holder_generation (record_at (clear_held p g slots m) i) = g → False).
Proof.
  revert m. induction slots as [|i slots IH]; intros m Hv Ho Hu Hr; [done|]. cbn [clear_held].
  pose proof (Hr i (or_introl eq_refl)) as Hi. assert (Hr' : ∀ j, In j slots → 0 <= j < 64) by (intros j Hin; apply Hr; by right).
  set (b := r_active (record_at m i) && _ && _). set (m1 := if b then _ else m).
  assert (H1 : steps m m1 ∧ valid m1 ∧ (r_active (record_at m1 i) = true → holder_pid (record_at m1 i) = p → holder_generation (record_at m1 i) = g → False)).
  { unfold m1. destruct b eqn:Eb; unfold b in Eb.
    - rewrite !andb_true_iff, !Z.eqb_eq in Eb. destruct Eb as [[Ha Hp] Hg]. pose proof (vr_slot _ (valid_record_at m i Hv)) as Hs.
      set (slot := endpoint_slot (record_at m i)) in *. assert (Hn : names m slot i) by done. destruct (Ho slot Hs) as [O1 O2 O3 O4 O5 O6].
      assert (Hc : control (record_at m i) = false).
      { destruct (control (record_at m i)) eqn:Ec; [|done]. exfalso. destruct (O2 i Hn Ec) as (F1 & F2 & _). destruct (O1 i Hn) as [F3 _].
        apply (Hu slot Hs F3); congruence. }
      cbv zeta. unfold IPC_MAX_ENDPOINTS. rewrite (proj2 (Z.ltb_lt slot 16)) by lia. split_and!.
      + eapply keeps_then; [apply steps_one; by apply (cleared_drops i m slot)|done|done].
      + by apply valid_woken, valid_cleared.
      + rewrite woken_record, cleared_record, Z.eqb_refl by done. done.
    - split_and!; [done|done|]. intros Ha Hp Hg. rewrite Ha, Hp, Hg, !Z.eqb_refl in Eb. done. }
  destruct H1 as (Hst & Hv1 & Hno).
  destruct (IH m1 Hv1 (steps_owned _ _ Hst Ho) (steps_unowned _ _ _ _ Hst Hu) Hr') as [Hst' Hno']. split; [by eapply steps_trans|].
  intros j [<-|Hin]; [|by apply Hno']. intros Ha Hp Hg. destruct (steps_record _ _ i Hst' Hi) as [E|E]; rewrite E in Ha, Hp, Hg; [auto|done].
Qed.

Lemma cleanup_steps p g m : valid m → owned m → steps m (cleanup m p g) ∧
  (0 < s32 p → g ≠ 0 → unowned p g (cleanup m p g) ∧
    ∀ i, 0 <= i < 64 → r_active (record_at (cleanup m p g) i) = true → holder_pid (record_at (cleanup m p g) i) = p →
      holder_generation (record_at (cleanup m p g) i) = g → False).
Proof.
  intros Hv Ho. unfold cleanup. destruct (_ || _) eqn:E.
  { split; [done|]. intros Hp Hg. apply orb_true_iff in E as [E%Z.leb_le|E%Z.eqb_eq]; lia. }
  destruct (revoke_owned_steps p g endpoint_slots m Hv Ho endpoint_slots_range) as [Hst1 Hno1].
  destruct (plain_cleanup_endpoints p g endpoint_slots m Hv endpoint_slots_range) as (_ & Hv1 & _).
  assert (Hu1 : unowned p g (revoke_owned p g endpoint_slots m)).
  { intros s Hs. apply Hno1. by apply endpoint_slots_all. }
  destruct (clear_held_steps p g capability_slots _ Hv1 (steps_owned _ _ Hst1 Ho) Hu1 capability_slots_range) as [Hst2 Hno2].
  split; [by eapply steps_trans|]. intros _ _. split; [by eapply steps_unowned|]. intros i Hi. apply Hno2. by apply capability_slots_all.
Qed.

(** ** Every request *)
(** Creating may retire endpoints first; delegating does nothing else. *)
Definition moves (r : request) (m m' : mem) : Prop :=
  steps m m' ∨
  ∃ m1, steps m m1 ∧ valid m1 ∧ owned m1 ∧ processes m1 = processes m ∧
    (match r with Create _ _ => True | _ => m1 = m end) ∧ grants m1 m' r.

Lemma steps_scanned m pointer handle : steps m (scanned m pointer handle).
Proof. by apply keeps_other. Qed.
Lemma steps_waited m slot p right t d now rejected block : valid m → 0 <= slot < 16 →
  steps m (waited m slot p right t d now rejected block).2.
Proof.
  intros Hv Hs. unfold waited. destruct (_ =? 0); [destruct rejected; by apply keeps_other|]. destruct (_ <=? _); [done|].
  destruct (counterpart m slot p right) as [z [p' g']]. cbn [fst]. destruct (z =? _); [by apply quarantined_closes|]. cbn [snd blocked].
  destruct (0 <? z); by apply keeps_other.
Qed.

Lemma search_steps slots m : valid m → (∀ i, In i slots → 0 <= i < 16) → steps m (search slots m).2.
Proof.
  revert m. induction slots as [|i slots IH]; intros m Hv Hr; cbn [search]; [done|].
  assert (Hr' : ∀ j, In j slots → 0 <= j < 16) by (intros j Hj; apply Hr; by right). destruct (_ || _); [by apply IH|].
  destruct (_ <=? _); [|done]. eapply steps_trans; [|apply IH; [|done]].
  - apply keeps_endpoint; [done|apply Hr; by left|done].
  - apply valid_set_endpoint; [done|by apply valid_with_retired, valid_at].
Qed.

Lemma installed_record m pointer p entry i handle slot rights_ j : valid m → 0 <= i < 64 → 0 <= j < 64 → 0 <= slot < 16 →
  record_at (installed m pointer p entry i handle slot rights_) j =
  if j =? i then Record_ true handle pointer (pid p) (p_generation p) rights_ slot else record_at m j.
Proof.
  intros Hv Hi Hj Hs. unfold installed. change (record_at (capability_added ?m) j) with (record_at m j).
  rewrite record_at_set; [|apply (valid_shape m Hv)|done|lia]. rewrite u8_small by (unfold is_u8; lia). done.
Qed.
Lemma installed_endpoint_at m pointer p entry i handle slot rights_ s : endpoint_at (installed m pointer p entry i handle slot rights_) s = endpoint_at m s.
Proof. done. Qed.

Lemma create_moves m owner handle : valid m → owned m → moves (Create owner handle) m (create m owner handle).2.
Proof.
  intros Hv Ho. unfold create. destruct (process_at m owner) as [p|] eqn:Hp; [|by left]. destruct handle as [handle|]; [|by left].
  destruct (is_running p) eqn:Hr; cbn [negb]; [|by left]. destruct (free_process_capability_slot p) as [entry|] eqn:He; [|left; by apply keeps_other].
  destruct (free_record_range m) as [Hf|[Hf Hfree]]; [rewrite Hf; left; by apply keeps_other|].
  rewrite (proj2 (Z.ltb_ge (free_record m) 0)) by lia. pose proof (search_steps endpoint_slots m Hv endpoint_slots_range) as Hst.
  destruct (search endpoint_slots m) as [[slot|] m1] eqn:Hse; cbn [snd] in *; [|left; by eapply keeps_then]. right.
  destruct (opened_facts m owner p entry slot m1) as (Hv' & Hp' & Hf' & Hf1 & Hs & Hg & Hu & Hn & Hv1); try done; [lia|].
  destruct (search_spec _ _ _ _ Hv endpoint_slots_range Hse) as (_ & Er & Ep & _ & Ha & Ht & Hlt).
  exists m1. split_and!; [done|done|by eapply steps_owned|done|done|]. pose proof (sh_endpoints _ (valid_shape m1 Hv1)) as Hl. rewrite Hf1.
  set (m' := endpoint_added _). assert (Ee : ∀ s, endpoint_at m' s = endpoint_at (opened m1 p slot) s) by done.
  assert (Erec : ∀ j, 0 <= j < 64 → record_at m' j =
    if j =? free_record m then Record_ true (make_handle slot (new_generation m1 slot)) owner (pid p) (p_generation p) all_rights slot else record_at m1 j).
  { intros j Hj. unfold m'. change (record_at (endpoint_added ?m) j) with (record_at m j). by rewrite installed_record. }
  assert (Eng : new_generation m1 slot = generation (endpoint_at m1 slot) + 1).
  { unfold new_generation, IPC_HANDLE_GENERATION_MAX in *. apply u32_small. pose proof (ve_generation _ (valid_at m1 slot Hv1)). ulia. }
  apply (Opens _ _ _ _ p slot (free_record m)); try done.
  - unfold record_at in *. by rewrite Er.
  - intros s Hs' Hne. rewrite Ee. by apply headers_set.
  - intros j Hj Hne. rewrite Erec by done. rewrite (proj2 (Z.eqb_neq j _)); [done|congruence].
  - rewrite Ee. unfold opened. rewrite endpoint_at_same by done. unfold header. cbn. by rewrite Eng.
  - rewrite Erec, Z.eqb_refl by done. unfold live_handle. rewrite Ee. unfold opened. rewrite endpoint_at_same by done. done.
Qed.

Lemma delegate_moves m source handle target rights_ : valid m → owned m → is_u32 rights_ →
  moves (Delegate source handle target rights_) m (delegate m source handle target rights_).2.
Proof.
  intros Hv Ho Hu. unfold delegate. destruct (process_at m source) as [s|] eqn:Hs; [|by left]. destruct (process_at m target) as [t|] eqn:Ht; [|by left].
  destruct (delegation_refused source target s t rights_) eqn:Hok; [by left|]. destruct (resolved m source handle rights_) as [|slot] eqn:Hres; [left; apply steps_scanned|].
  destruct (resolved_authority _ _ _ _ _ Hres) as (s' & i & Hau). pose proof (au_process _ _ _ _ _ _ _ Hau) as Hs'. rewrite Hs in Hs'. injection Hs' as <-.
  rewrite (au_first _ _ _ _ _ _ _ Hau). assert (Hk : steps m (set_scan_corrupt (scanned m source handle) false)) by (by apply keeps_other).
  destruct (negb _) eqn:Hsub; [by left|]. apply negb_false_iff, Z.eqb_eq in Hsub. destruct (negb _ || _) eqn:Hpe; [by left|].
  apply orb_false_iff in Hpe as [Hpe _]. apply negb_false_iff, Z.eqb_eq in Hpe.
  destruct (free_process_capability_slot t) as [entry|] eqn:He; [|left; by apply keeps_other].
  destruct (free_record_range m) as [Hf|[Hf Hfree]]; [rewrite Hf; left; by apply keeps_other|]. rewrite (proj2 (Z.ltb_ge (free_record m) 0)) by lia. right.
  exists m. split_and!; [done|done|done|done|done|]. destruct (delegation_accepted _ _ _ _ _ Hu Hok) as (_ & Hrs & Hrt & Hri).
  pose proof (au_range _ _ _ _ _ _ _ Hau) as Hsl. set (m1 := set_scan_corrupt (scanned m source handle) false).
  assert (Hv1 : valid m1) by (by apply (valid_other m)). cbn [snd]. unfold delegated. change (free_record m1) with (free_record m).
  set (m2 := installed m1 target t entry (free_record m) handle slot rights_).
  assert (Er : ∀ j, 0 <= j < 64 → record_at m2 j = if j =? free_record m then Record_ true handle target (pid t) (p_generation t) rights_ slot else record_at m j).
  { intros j Hj. unfold m2. by rewrite installed_record. }
  assert (Hl : length (ipc_endpoints m2) = 16%nat) by apply (valid_shape m Hv).
  apply (Delegates _ _ _ _ _ _ t slot (free_record m) i); try done.
  - split_and!; [apply Hau..|]. exact (au_slot _ _ _ _ _ _ _ Hau).
  - by exists s.
  - intros j Hj Hne. change (endpoint_at m j) with (endpoint_at m2 j). by apply headers_set.
  - intros j Hj Hne. change (record_at (set_endpoint ?m slot ?e) j) with (record_at m j). rewrite Er by done.
    rewrite (proj2 (Z.eqb_neq j _)); [done|congruence].
  - rewrite endpoint_at_same by done. done.
  - change (record_at (set_endpoint ?m slot ?e) ?j) with (record_at m j). by rewrite Er, Z.eqb_refl by done.
Qed.

(** The requests that only lose. *)
Lemma send_steps m sender handle msg t d now : valid m → steps m (send m sender handle msg t d now).2.
Proof.
  intros Hv. unfold send. destruct (resolved _ _ _ _) as [|slot] eqn:Hres; [apply steps_scanned|].
  destruct (resolved_authority _ _ _ _ _ Hres) as (p & i & Hau). pose proof (au_range _ _ _ _ _ _ _ Hau) as Hs.
  pose proof (valid_scanned m sender handle Hv) as Hv1. destruct (_ && _); [apply steps_scanned|].
  eapply steps_trans; [apply (steps_scanned m sender handle)|]. destruct (_ <? _); [by apply keeps_sent|by apply steps_waited].
Qed.
Lemma send_bulk_steps m sender handle msg t d now : valid m → steps m (send_bulk m sender handle msg t d now).2.
Proof.
  intros Hv. unfold send_bulk. destruct (resolved _ _ _ _) as [|slot] eqn:Hres; [apply steps_scanned|].
  destruct (resolved_authority _ _ _ _ _ Hres) as (p & i & Hau). pose proof (au_range _ _ _ _ _ _ _ Hau) as Hs.
  pose proof (valid_scanned m sender handle Hv) as Hv1. destruct (_ && _); [apply steps_scanned|].
  eapply steps_trans; [apply (steps_scanned m sender handle)|]. destruct (negb _); [by apply keeps_bulk_sent|by apply steps_waited].
Qed.
Lemma receive_steps m receiver handle msg t d now : valid m → steps m (receive m receiver handle msg t d now).2.
Proof.
  intros Hv. unfold receive. destruct (resolved _ _ _ _) as [|slot] eqn:Hres; [apply steps_scanned|].
  destruct (resolved_authority _ _ _ _ _ Hres) as (p & i & Hau). pose proof (au_range _ _ _ _ _ _ _ Hau) as Hs.
  pose proof (valid_scanned m receiver handle Hv) as Hv1. eapply steps_trans; [apply (steps_scanned m receiver handle)|].
  destruct (0 <=? _); [eapply keeps_then; [by apply keeps_taken|done|done]|]. destruct (_ && _); [done|].
  match goal with |- context [waited ?a ?b ?c ?d ?e ?f ?g ?h ?i] => pose proof (steps_waited a b c d e f g h i Hv1 Hs) as Hw; by destruct (waited a b c d e f g h i) end.
Qed.
Lemma receive_bulk_steps m receiver handle msg t d now : valid m → steps m (receive_bulk m receiver handle msg t d now).2.
Proof.
  intros Hv. unfold receive_bulk. destruct (resolved _ _ _ _) as [|slot] eqn:Hres; [apply steps_scanned|].
  destruct (resolved_authority _ _ _ _ _ Hres) as (p & i & Hau). pose proof (au_range _ _ _ _ _ _ _ Hau) as Hs.
  pose proof (valid_scanned m receiver handle Hv) as Hv1. eapply steps_trans; [apply (steps_scanned m receiver handle)|].
  destruct (0 <=? _); [eapply keeps_then; [by apply keeps_taken|done|done]|].
  destruct (_ && _); [eapply keeps_then; [by apply keeps_bulk_taken|done|done]|]. destruct (_ && _); [done|].
  match goal with |- context [waited ?a ?b ?c ?d ?e ?f ?g ?h ?i] => pose proof (steps_waited a b c d e f g h i Hv1 Hs) as Hw; by destruct (waited a b c d e f g h i) end.
Qed.
Lemma enqueue_steps m slot msg p g : valid m → 0 <= slot < 16 → steps m (enqueue m slot msg p g).2.
Proof. intros Hv Hs. unfold enqueue. destruct (_ <=? _); [by apply keeps_other|by apply keeps_sent]. Qed.
Lemma send_external_steps m op og handle message : valid m → steps m (send_external m op og handle message).2.
Proof.
  intros Hv. unfold send_external. destruct message; [|done]. destruct (_ || _); [done|].
  destruct (decode_handle handle) as [[slot g]|] eqn:Eh; [|done]. apply decode_handle_range in Eh. destruct (negb _); [done|].
  destruct (find_peer _ _ _ _) as [[peer|]|]; [|done|by apply quarantined_closes]. destruct (process_at _ _); [|done]. destruct (_ || _); [done|].
  by apply enqueue_steps.
Qed.
Lemma send_kernel_steps m op og handle message : valid m → steps m (send_kernel m op og handle message).2.
Proof.
  intros Hv. unfold send_kernel. destruct message; [|done]. destruct (_ || _); [done|].
  destruct (decode_handle handle) as [[slot g]|] eqn:Eh; [|done]. apply decode_handle_range in Eh. destruct (negb _); [done|]. by apply enqueue_steps.
Qed.
Lemma validate_owner_steps m op og handle required : steps m (validate_owner m op og handle required).2.
Proof.
  unfold validate_owner. destruct (_ || _ || _ || _); [done|]. destruct (decode_handle _); [|done]. destruct (owner_holder _ _ _ _ _ _ _); [done|].
  destruct (process_at _ _); [|done]. destruct (_ || _ || _); [done|]. apply steps_scanned.
Qed.
Lemma close_steps m pointer handle : valid m → owned m → steps m (close m pointer handle).2.
Proof.
  intros Hv Ho. unfold close. destruct (resolved _ _ _ _) as [|slot] eqn:Hres; [apply steps_scanned|].
  destruct (resolved_authority _ _ _ _ _ Hres) as (p & i & Hau). pose proof (au_range _ _ _ _ _ _ _ Hau) as Hs.
  pose proof (valid_scanned m pointer handle Hv) as Hv1. destruct (_ || _); [apply steps_scanned|].
  eapply steps_trans; [apply (steps_scanned m pointer handle)|]. pose proof (steps_owned _ _ (steps_scanned m pointer handle) Ho) as Ho1.
  pose proof (revoked_closes _ _ Hv1 Ho1 Hs) as Hc. revert Hc. generalize (revoked slot (scanned m pointer handle)). intros m2 Hc.
  cbn [snd]. unfold forget_at. destruct (process_capability_slot _ _); [|done]. by eapply keeps_then.
Qed.
Lemma release_steps m pointer handle : valid m → owned m → steps m (release m pointer handle).2.
Proof.
  intros Hv Ho. unfold release. destruct (_ || _); [done|]. destruct (resolved _ _ _ _) as [|slot] eqn:Hres; [apply steps_scanned|].
  destruct (resolved_authority _ _ _ _ _ Hres) as (p & i & Hau). pose proof (au_range _ _ _ _ _ _ _ Hau) as Hs.
  rewrite (au_process _ _ _ _ _ _ _ Hau). cbn [default from_option id]. rewrite (au_first _ _ _ _ _ _ _ Hau). destruct (_ && _) eqn:Eo; [apply steps_scanned|].
  set (m1 := set_scan_corrupt (scanned m pointer handle) false). assert (Hk : steps m m1) by (by apply keeps_other).
  assert (Hv1 : valid m1) by (by apply (valid_other m)). eapply steps_trans; [exact Hk|]. cbn [snd].
  assert (Hn : names m1 slot i) by (split_and!; [apply Hau..|exact (au_slot _ _ _ _ _ _ _ Hau)]).
  pose proof (steps_owned _ _ Hk Ho) as Ho1. eapply keeps_then; [apply steps_one; apply (cleared_drops i m1 slot Hv1 Ho1 Hn)|done|done].
  destruct (control (record_at m1 i)) eqn:Ec; [|done]. exfalso. destruct (ow_control _ _ (Ho1 slot Hs) i Hn Ec) as (F1 & F2 & _).
  destruct (au_holder _ _ _ _ _ _ _ Hau) as [G1 G2]. change (record_at m1 i) with (record_at m i) in F1, F2.
  change (endpoint_at m1 slot) with (endpoint_at m slot) in F1, F2. rewrite G1 in F1. rewrite G2 in F2. rewrite F1, F2, !Z.eqb_refl in Eo. done.
Qed.

Lemma request_moves r m : valid m → owned m → request_ok r → moves r m (reference r m).2.
Proof.
  intros Hv Ho Hok. destruct r as [owner handle|sender handle message t d now|sender handle message t d now|receiver handle message t d now|
    receiver handle message t d now|op og handle message|op og handle message|op og handle required|op og handle|pointer handle|
    source handle target rights_|pointer handle|p g]; cbn [reference request_ok] in *.
  - pose proof (create_moves m owner handle Hv Ho) as H. by destruct (create m owner handle) as [[z h] m'].
  - left. pose proof (send_steps m sender handle message t d now Hv) as H. by destruct (send _ _ _ _ _ _ _).
  - left. pose proof (send_bulk_steps m sender handle message t d now Hv) as H. by destruct (send_bulk _ _ _ _ _ _ _).
  - left. pose proof (receive_steps m receiver handle message t d now Hv) as H. by destruct (receive _ _ _ _ _ _ _) as [[z v] m'].
  - left. pose proof (receive_bulk_steps m receiver handle message t d now Hv) as H. by destruct (receive_bulk _ _ _ _ _ _ _) as [[z v] m'].
  - left. by apply send_external_steps.
  - left. by apply send_kernel_steps.
  - left. apply validate_owner_steps.
  - left. done.
  - left. by apply close_steps.
  - by apply delegate_moves.
  - left. by apply release_steps.
  - left. by apply cleanup_steps.
Qed.
