(* ===== verification/IpcProps.v ===== *)
(** Capabilities, stale handles and the end of processes.

    The theorems are about the protected IPC, run from [ipc_init] by any
    sequence of requests and process table changes. *)
From stdpp Require Import relations.
From S2P Require Import Prelude ProtectedStore Layout ProtectedRecord Ipc IpcSpec IpcPlain IpcHelpers IpcCaps IpcQueue IpcCalls IpcControl IpcRefine IpcAuthority.
From S2P Require Import CriticalObject.
Import Ipc.
Local Open Scope ipc_scope.

(** ** Reachable memories *)
Lemma owned_initial table calls : owned (initial_mem table calls).
Proof.
  assert (Hr : ∀ i, record_at (initial_mem table calls) i = zero_record).
  { intros i. unfold record_at, initial_mem. cbn [ipc_capability_records]. rewrite nth_lookup. destruct (replicate _ _ !! _) eqn:E; [|done].
    apply lookup_replicate in E as [-> _]. done. }
  assert (He : ∀ i, endpoint_at (initial_mem table calls) i = zero_endpoint).
  { intros i. unfold endpoint_at, initial_mem. cbn [ipc_endpoints]. rewrite nth_lookup. destruct (replicate _ _ !! _) eqn:E; [|done].
    apply lookup_replicate in E as [-> _]. done. }
  intros slot Hs. assert (Hno : ∀ i, ¬ names (initial_mem table calls) slot i) by (intros i; by apply zero_names).
  split; try (intros; exfalso; by eapply Hno). rewrite He. done.
Qed.

Lemma owned_table m table : owned m → owned (set_table m table).
Proof. apply steps_owned. by apply keeps_other. Qed.
Lemma moves_owned r m m' : moves r m m' → owned m → owned m'.
Proof. intros [H|(m1 & H & Hv & Ho & _ & _ & Hg)] Hm; [by eapply steps_owned|by eapply grants_owned]. Qed.

Lemma reference_owned r m : valid m → owned m → request_ok r → owned (reference r m).2.
Proof. intros Hv Ho Hok. eapply moves_owned; [by apply request_moves|done]. Qed.

Lemma owned_event e m : valid m → owned m → event_ok e → owned (event_reference e m).2.
Proof.
  intros Hv Ho He. destruct e as [r|table]; cbn [event_reference event_ok] in *; [|by apply owned_table].
  pose proof (reference_owned r m Hv Ho He) as H. by destruct (reference r m).
Qed.
Lemma owned_events events m : valid m → owned m → Forall event_ok events → owned (events_reference events m).2.
Proof.
  intros Hv Ho He. revert m Hv Ho. induction He as [|e events He _ IH]; intros m Hv Ho; [done|]. cbn [events_reference].
  pose proof (valid_event e m Hv He) as Hv'. pose proof (owned_event e m Hv Ho He) as Ho'. destruct (event_reference e m) as [a m']. cbn [snd] in *.
  specialize (IH _ Hv' Ho'). by destruct (events_reference events m').
Qed.

Section reach.
Context {O : Type} `{ProtectedStoreLaws O} `{!BlankStore O} `{!BlankLaws O}.

(** The state after [events], and what a run of that length may assume. *)
Definition after (events : list event) (s : ipc_t O) : ipc_t O := (events_run events (ipc_init s)).2.
Definition history (events : list event) (s : ipc_t O) : Prop :=
table_ok (processes (memory s)) ∧ Forall event_ok events ∧ Z.of_nat (length events) * request_cost < UINT32_MAX.

Lemma after_facts events s : history events s →
valid (memory (after events s)) ∧ owned (memory (after events s)) ∧ intact (after events s) 0.
Proof using All.
intros (Ht & He & Hn). destruct (intact_events events (ipc_init s)) as (_ & E & Hi); [apply intact_init; [done|lia|done]|done|].
split_and!; [by apply Hi| |done]. unfold after. rewrite E. apply owned_events; [by apply valid_initial|apply owned_initial|done].
Qed.

Lemma events_run_app events1 events2 (s : ipc_t O) :
events_run (events1 ++ events2) s =
  ((events_run events1 s).1 ++ (events_run events2 (events_run events1 s).2).1, (events_run events2 (events_run events1 s).2).2).
Proof using.
revert s. induction events1 as [|e events1 IH]; intros s; cbn [events_run app fst snd]; [by destruct (events_run events2 s)|].
destruct (event_run e s) as [a s1]. rewrite IH. destruct (events_run events1 s1). done.
Qed.
Lemma after_app events1 events2 (s : ipc_t O) : after (events1 ++ events2) s = (events_run events2 (after events1 s)).2.
Proof using. unfold after. by rewrite events_run_app. Qed.

Lemma history_app events1 events2 (s : ipc_t O) : history (events1 ++ events2) s → history events1 s.
Proof using.
intros (Ht & [He _]%Forall_app & Hn). rewrite length_app in Hn. split_and!; [done|done|unfold request_cost in *; lia].
Qed.

Lemma after_reference events s : history events s →
memory (after events s) = (events_reference events (initial_mem (processes (memory s)) (scheduler_calls (memory s)))).2.
Proof using All.
intros (Ht & He & Hn). by destruct (intact_events events (ipc_init s)) as (_ & E & _); [apply intact_init; [done|lia|done]|done|].
Qed.

Lemma intact_after events s n : history events s → (n + Z.of_nat (length events)) * request_cost < UINT32_MAX → 0 <= n → intact (after events s) n.
Proof using All.
intros (Ht & He & _) Hn Hn0. apply (intact_events_more events (ipc_init s) n); [|done|lia]. apply intact_init; [done|lia|done].
Qed.
Lemma history_room events1 events2 s : history (events1 ++ events2) s → intact (after events1 s) (Z.of_nat (length events2)).
Proof using All.
intros Hh. pose proof (history_app _ _ _ Hh) as Hh1. destruct Hh as (_ & _ & Hn). rewrite length_app in Hn.
apply intact_after; [done|unfold request_cost in *; lia|lia].
Qed.

(** The answer of one more event. *)
Lemma event_answer events e s : history (events ++ [e]) s →
(event_run e (after events s)).1 = (event_reference e (memory (after events s))).1.
Proof using All.
intros Hh. destruct (intact_event e (after events s) 0) as (E & _); [by apply (history_room events [e])| |done|by rewrite E].
destruct Hh as (_ & He & _). apply Forall_app in He as [_ He]. by apply list.Forall_cons in He as [? _].
Qed.

(** One more request. *)
Lemma after_request events r s : history (events ++ [Request r]) s →
run (request_prog r) (after events s) = ((reference r (memory (after events s))).1, after (events ++ [Request r]) s) ∧
memory (after (events ++ [Request r]) s) = (reference r (memory (after events s))).2.
Proof using All.
intros Hh. assert (Hr : request_ok r) by (destruct Hh as (_ & [_ He]%Forall_app & _); by apply list.Forall_cons in He as [? _]).
destruct (intact_request r (after events s) 0) as (s' & E & Em & _); [by apply (history_room events [Request r])|done|done|].
rewrite after_app. cbn [events_run event_run]. rewrite E. done.
Qed.
End reach.

(** ** Handles *)
(** No endpoint has the handle, and none will. *)
Definition dead (m : mem) (slot g : Z) : Prop :=
  g <= generation (endpoint_at m slot) ∧ (active (endpoint_at m slot) = true → g < generation (endpoint_at m slot)).

Lemma grants_generation m m' r s : grants m m' r → 0 <= s < 16 →
  header (endpoint_at m' s) = header (endpoint_at m s) ∨
  generation (endpoint_at m' s) = generation (endpoint_at m s) + 1 ∨
  (active (endpoint_at m' s) = active (endpoint_at m s) ∧ generation (endpoint_at m' s) = generation (endpoint_at m s)).
Proof.
  intros Hg Hs. destruct Hg as [owner handle p slot i Hp Hs' Hi Hf Ha Hlt Hh Hr He Hn|source handle target rights_ t slot i from Ht Hfr Hi Hf Hau Hsub Hri Hpe Hh Hr He Hn].
  - destruct (decide (slot = s)) as [->|Hne]; [right; left|left; by apply Hh]. unfold header in He. by injection He.
  - destruct (decide (slot = s)) as [->|Hne]; [right; right|left; by apply Hh]. by destruct (header_fields _ _ He) as (? & ? & _).
Qed.

Lemma moves_dead r m m' slot g : moves r m m' → 0 <= slot < 16 → dead m slot g → dead m' slot g.
Proof.
  assert (Hst : ∀ m m', steps m m' → 0 <= slot < 16 → dead m slot g → dead m' slot g).
  { clear m m'. intros m m' Hst Hs [Hg Ha]. unfold dead. rewrite (steps_generation _ _ _ Hst Hs). split; [done|]. intros Ha'.
    apply Ha. by destruct (steps_live _ _ _ Hst Hs Ha'). }
  intros [H|(m1 & H & Hv & Ho & _ & _ & Hgr)] Hs Hd; [by eapply Hst|]. specialize (Hst _ _ H Hs Hd) as [Hg Ha].
  destruct (grants_generation _ _ _ _ Hgr Hs) as [E|[E|[E1 E2]]].
  - destruct (header_fields _ _ E) as (E1 & E2 & _). unfold dead. by rewrite E1, E2.
  - unfold dead. rewrite E. split; [lia|]. intros _. lia.
  - unfold dead. by rewrite E1, E2.
Qed.

Lemma dead_events events m slot g : valid m → owned m → Forall event_ok events → 0 <= slot < 16 → dead m slot g →
  dead (events_reference events m).2 slot g.
Proof.
  intros Hv Ho He Hs. revert m Hv Ho. induction He as [|e events He _ IH]; intros m Hv Ho Hd; [done|]. cbn [events_reference].
  pose proof (valid_event e m Hv He) as Hv'. pose proof (owned_event e m Hv Ho He) as Ho'.
  assert (Hd' : dead (event_reference e m).2 slot g).
  { destruct e as [r|table]; cbn [event_reference event_ok] in *; [|done]. pose proof (moves_dead _ _ _ _ _ (request_moves r m Hv Ho He) Hs Hd) as H.
    by destruct (reference r m). }
  destruct (event_reference e m) as [a m']. cbn [snd] in *. specialize (IH _ Hv' Ho' Hd'). by destruct (events_reference events m').
Qed.

Lemma dead_unresolved m pointer handle required slot g : decode_handle handle = Some (slot, g) → dead m slot g →
  ∃ error, resolved m pointer handle required = inl error.
Proof.
  intros Eh [_ Ha]. destruct (resolved m pointer handle required) as [error|slot'] eqn:E; [by exists error|]. exfalso.
  destruct (resolved_authority _ _ _ _ _ E) as (p & i & Hau). pose proof (au_handle _ _ _ _ _ _ _ Hau) as Eh'. rewrite Eh in Eh'.
  injection Eh' as -> Eg. pose proof (Ha (au_active _ _ _ _ _ _ _ Hau)). lia.
Qed.

Lemma revoked_inactive slot m : valid m → owned m → 0 <= slot < 16 →
  active (endpoint_at (revoked slot m) slot) = false ∧ generation (endpoint_at (revoked slot m) slot) = generation (endpoint_at m slot).
Proof.
  intros Hv Ho Hs. unfold revoked. rewrite shut_endpoint by done.
  destruct (close_slot_facts (λ r, (endpoint_slot r =? slot) && (r_handle r =? make_handle slot (generation (shut (endpoint_at m slot))))) m slot)
    as [E _]; [done|done|by intros r [?%Z.eqb_eq _]%andb_true_iff| |].
  - intros i Hn. destruct (ow_live _ _ (Ho slot Hs) i Hn) as [_ E]. destruct Hn as (_ & _ & E'). rewrite E', E. unfold live_handle. by rewrite !Z.eqb_refl.
  - by rewrite E, shut_endpoint by done.
Qed.

Lemma forget_at_endpoint pointer entry m s : endpoint_at (forget_at pointer entry m) s = endpoint_at m s.
Proof. unfold forget_at. by destruct entry. Qed.

Lemma resolved_error m pointer handle required : match resolved m pointer handle required with inl error => error ≠ 0 | inr _ => True end.
Proof. unfold resolved. repeat case_match; simplify_eq; done. Qed.

Lemma close_dead m pointer handle : valid m → owned m → (close m pointer handle).1 = 0 →
  ∃ slot g, decode_handle handle = Some (slot, g) ∧ 0 <= slot < 16 ∧ dead (close m pointer handle).2 slot g.
Proof.
  intros Hv Ho. unfold close. destruct (resolved m pointer handle IPC_RIGHT_CONTROL) as [error|slot] eqn:Hres.
  - cbn. intros ->. pose proof (resolved_error m pointer handle IPC_RIGHT_CONTROL) as Hne. by rewrite Hres in Hne.
  - destruct (resolved_authority _ _ _ _ _ Hres) as (p & i & Hau). pose proof (au_range _ _ _ _ _ _ _ Hau) as Hs.
    destruct (negb _ || _); [done|]. intros _. exists slot, (generation (endpoint_at m slot)).
    split_and!; [apply Hau|lia|lia|]. unfold dead. cbn [snd]. rewrite forget_at_endpoint.
    pose proof (valid_scanned m pointer handle Hv) as Hv1. pose proof (steps_owned _ _ (steps_scanned m pointer handle) Ho) as Ho1.
    destruct (revoked_inactive slot _ Hv1 Ho1 Hs) as [-> ->]. by split.
Qed.

(** Answers of [resolve_capability] on an intact state. *)
Lemma run_resolve {O : Type} `{ProtectedStoreLaws O} `{!BlankStore O} `{!BlankLaws O} (s : ipc_t O) pointer handle required : intact s 0 →
  (run (resolve_capability pointer handle required) s).1 = resolved (memory s) pointer handle required.
Proof.
  intros (Hv & a & k & Hs & Hr & Hk). destruct (agrees_resolve [] pointer handle required (memory s) no_records_nil (λ i, not_elem_of_nil _) a Hs)
    as (a' & n & Ha & Hn & _). pose proof (arun_cost _ _ _ _ _ Ha) as Hn0. assert (n = 0) as -> by lia.
  destruct (run_sim (resolve_capability pointer handle required) s a (plain (resolve_capability pointer handle required) (memory s)).1 a' 0 k)
    as (s' & E & _); [lia|exact Ha|by rewrite Z.add_0_r|]. rewrite E, plain_resolve. done.
Qed.

Lemma run_bind {O A B} `{ProtectedStore O} `{!BlankStore O} (p : prog A) (f : A → prog B) (s : ipc_t O) :
  run (bind p f) s = run (f (run p s).1) (run p s).2.
Proof.
  revert s. induction p as [a|k IH|m p IH|x k IH|slot q k IH]; intros s; cbn [bind run fst snd]; [done|apply IH|apply IH| |].
  - destruct (access_step x s) as [z s']. apply IH.
  - destruct (load_message_step slot q s) as [v s']. apply IH.
Qed.

Section theorems.
Context {O : Type} `{ProtectedStoreLaws O} `{!BlankStore O} `{!BlankLaws O}.

Lemma after_more events1 events2 (s : ipc_t O) : history (events1 ++ events2) s →
memory (after (events1 ++ events2) s) = (events_reference events2 (memory (after events1 s))).2.
Proof using All.
intros Hh. pose proof (history_room _ _ _ Hh) as Hi. destruct Hh as (_ & [_ He]%Forall_app & _). rewrite after_app.
by destruct (intact_events events2 (after events1 s) Hi He) as (_ & E & _).
Qed.
End theorems.

(** C21: Once [ipc_close] has succeeded on a handle, no sequence of requests
    and process table changes makes the handle usable again: it resolves for
    no process and no right. *)
Theorem ipc_closed_handle_dead {O : Type} `{ProtectedStoreLaws O} `{!BlankStore O} `{!BlankLaws O} (s : ipc_t O)
    (events1 events2 : list event) (pointer handle : Z) (any required : Z)
    (Hhistory : history (events1 ++ [Request (Close pointer handle)] ++ events2) s)
    (Hclosed : (event_run (Request (Close pointer handle)) (after events1 s)).1 = Some (Status (Some 0))) :
  ∃ error, (run (resolve_capability any handle required) (after (events1 ++ [Request (Close pointer handle)] ++ events2) s)).1 = inl error.
Proof.
  pose proof (history_app _ _ _ Hhistory) as Hh1. rewrite app_assoc in Hhistory. pose proof (history_app _ _ _ Hhistory) as Hh2.
  destruct (after_facts _ _ Hh1) as (Hv1 & Ho1 & _). destruct (after_facts _ _ Hh2) as (Hv2 & Ho2 & _).
  destruct (after_facts _ _ Hhistory) as (_ & _ & Hi). destruct (after_request _ _ _ Hh2) as [_ Em].
  rewrite (event_answer _ _ _ Hh2) in Hclosed. cbn [event_reference reference status fst snd] in Hclosed, Em. injection Hclosed as Hc.
  destruct (close_dead _ _ _ Hv1 Ho1 Hc) as (slot & g & Eh & Hs & Hd). rewrite <- Em in Hd.
  rewrite app_assoc. rewrite run_resolve by done. eapply dead_unresolved; [exact Eh|]. rewrite after_more by done.
  apply dead_events; [done|done| |done|done]. destruct Hhistory as (_ & He & _). by apply Forall_app in He as [_ He].
Qed.

(** C14: After any sequence of requests and process table changes, each active
    endpoint has exactly one control record, held by its owner with all
    rights, and at most one peer, whose rights are fewer and who is counted;
    a record in use names an active endpoint by its handle of today, and no
    record names an inactive endpoint. *)
Theorem ipc_capability_discipline {O : Type} `{ProtectedStoreLaws O} `{!BlankStore O} `{!BlankLaws O} (s : ipc_t O) (events : list event)
    (slot : Z) (Hhistory : history events s) (Hslot : 0 <= slot < 16) :
  let m := memory (after events s) in
  owned_slot m slot ∧ (active (endpoint_at m slot) = false → ∀ i, ¬ names m slot i).
Proof.
  destruct (after_facts _ _ Hhistory) as (_ & Ho & _). split; [by apply Ho|]. intros Ha i Hn. destruct (ow_live _ _ (Ho slot Hslot) i Hn). congruence.
Qed.

(** A request never makes a record but these: [ipc_create] one with all
    rights for its caller, on an endpoint whose generation is new, and
    [ipc_delegate] one for the target, for the source's endpoint, with rights
    the source's own record has, and never the control right. *)
Theorem ipc_authority_granted {O : Type} `{ProtectedStoreLaws O} `{!BlankStore O} `{!BlankLaws O} (s : ipc_t O) (events : list event)
    (r : request) (i : Z) (Hhistory : history (events ++ [Request r]) s) (Hi : 0 <= i < 64) :
  let m := memory (after events s) in let m' := memory (after (events ++ [Request r]) s) in
  r_active (record_at m' i) = true →
  record_at m' i = record_at m i ∨
  (∃ owner handle p slot, r = Create owner handle ∧ process_at m owner = Some p ∧
    generation (endpoint_at m' slot) = generation (endpoint_at m slot) + 1 ∧
    record_at m' i = Record_ true (live_handle m' slot) owner (pid p) (p_generation p) all_rights slot) ∨
  (∃ source handle target rights_ p t slot from, r = Delegate source handle target rights_ ∧ process_at m target = Some t ∧
    authority m source handle rights_ slot p from ∧ Z.land rights_ (rights (record_at m from)) = rights_ ∧ 0 < rights_ < 4 ∧
    record_at m' i = Record_ true handle target (pid t) (p_generation t) rights_ slot).
Proof.
  cbv zeta. pose proof (history_app _ _ _ Hhistory) as Hh. destruct (after_facts _ _ Hh) as (Hv & Ho & _).
  destruct (after_request _ _ _ Hhistory) as [_ ->]. assert (Hok : request_ok r).
  { destruct Hhistory as (_ & He & _). apply Forall_app in He as [_ He]. by apply list.Forall_cons in He as [? _]. }
  set (m := memory (after events s)) in *. intros Ha.
  pose proof (request_moves r m Hv Ho Hok) as Hmoves. clear Hhistory. revert Ha Hmoves. generalize (reference r m).2. intros m' Ha.
  intros [Hst|(m1 & Hst & Hv1 & Ho1 & Ep & Hm1 & Hg)].
  { destruct (steps_record _ _ _ Hst Hi) as [E|E]; [by left|]. by rewrite E in Ha. }
  destruct Hg as [owner handle p slot j Hp Hs Hj Hf Hin Hlt Hh' Hr He Hn|source handle target rights_ t slot j from Ht Hfr Hj Hf Hau Hsub Hri Hpe Hh' Hr He Hn].
  - destruct (decide (j = i)) as [->|Hne].
    + right. left. exists owner, handle, p, slot. split_and!; [done|by unfold process_at in *; rewrite Ep in Hp| |done].
      unfold header in He. injection He as _ -> _ _ _. by rewrite (steps_generation _ _ _ Hst Hs).
    + left. pose proof (Hr i Hi Hne) as Er. destruct (steps_record _ _ _ Hst Hi) as [E|E]; [congruence|]. rewrite Er, E in Ha. done.
  - subst m1. destruct (decide (j = i)) as [->|Hne].
    + right. right. destruct Hau as [p Hau]. by exists source, handle, target, rights_, p, t, slot, from.
    + left. by apply Hr.
Qed.

(** ** The end of a process *)
Lemma revoke_owned_frame p g slots m slot : valid m → owned m → (∀ s, In s slots → 0 <= s < 16) → 0 <= slot < 16 →
  (active (endpoint_at m slot) = true → owner_pid (endpoint_at m slot) = p → owner_generation (endpoint_at m slot) = g → False) →
  endpoint_at (revoke_owned p g slots m) slot = endpoint_at m slot ∧
  ∀ i, names m slot i → record_at (revoke_owned p g slots m) i = record_at m i.
Proof.
  revert m. induction slots as [|s slots IH]; intros m Hv Ho Hr Hs Hno; [done|]. cbn [revoke_owned].
  pose proof (Hr s (or_introl eq_refl)) as Hss. assert (Hr' : ∀ x, In x slots → 0 <= x < 16) by (intros x Hin; apply Hr; by right).
  destruct (active (endpoint_at m s) && _ && _) eqn:Eb; [|by apply IH].
  assert (Hne : s ≠ slot). { intros ->. rewrite !andb_true_iff, !Z.eqb_eq in Eb. destruct Eb as [[? ?] ?]. by apply Hno. }
  assert (Hf : endpoint_at (revoked s m) slot = endpoint_at m slot ∧ ∀ i, names m slot i → record_at (revoked s m) i = record_at m i).
  { unfold revoked. rewrite shut_endpoint by done.
    destruct (close_slot_facts (λ r, (endpoint_slot r =? s) && (r_handle r =? make_handle s (generation (shut (endpoint_at m s))))) m s)
      as [E1 E2]; [done|done|by intros r [?%Z.eqb_eq _]%andb_true_iff| |].
    - intros i Hn. destruct (ow_live _ _ (Ho s Hss) i Hn) as [_ E]. destruct Hn as (_ & _ & E'). rewrite E', E. unfold live_handle. by rewrite !Z.eqb_refl.
    - split; [rewrite E1; apply shut_other; (done || lia || congruence)|]. intros i Hn. rewrite E2 by apply Hn. rewrite decide_False; [done|].
      destruct Hn as (_ & _ & E). intros (_ & _ & E'). congruence. }
  destruct Hf as [F1 F2]. pose proof (revoked_closes m s Hv Ho Hss) as Hst.
  destruct (IH (revoked s m) (valid_revoked s m Hv) (steps_owned _ _ Hst Ho) Hr' Hs) as [G1 G2]; [by rewrite F1|]. split; [congruence|].
  intros i Hn. rewrite <- (F2 i Hn). apply G2. apply (names_same m); [intros _; exact (F2 i Hn)|exact Hn].
Qed.

Lemma cleared_frame i m slot : r_active (record_at m i) = true → valid m → 0 <= slot < 16 →
  ∃ seen n, endpoint_at (cleared i m) slot = with_peer seen n (endpoint_at m slot).
Proof.
  intros Ha Hv Hs. rewrite cleared_endpoint by done. unfold drop_peer.
  assert (Hid : endpoint_at m slot = with_peer (peer_seen (endpoint_at m slot)) (peer_capabilities (endpoint_at m slot)) (endpoint_at m slot)) by (by destruct (endpoint_at m slot)).
  destruct (_ && _); [|by eexists _, _]. pose proof (vr_slot _ (valid_record_at m i Hv)) as Hsl.
  rewrite endpoint_at_set; [|apply (valid_shape m Hv)|lia|lia]. destruct (Z.eqb_spec slot (endpoint_slot (record_at m i))) as [->|]; by eexists _, _.
Qed.

Lemma clear_held_frame p g slots m slot : valid m → (∀ i, In i slots → 0 <= i < 64) → 0 <= slot < 16 →
  (∃ seen n, endpoint_at (clear_held p g slots m) slot = with_peer seen n (endpoint_at m slot)) ∧
  ∀ i, 0 <= i < 64 → ¬ (holder_pid (record_at m i) = p ∧ holder_generation (record_at m i) = g) → record_at (clear_held p g slots m) i = record_at m i.
Proof.
  intros Hv Hr Hs. revert m Hv. induction slots as [|j slots IH]; intros m Hv.
  { split; [|done]. exists (peer_seen (endpoint_at m slot)), (peer_capabilities (endpoint_at m slot)). cbn. by destruct (endpoint_at m slot). }
  cbn [clear_held]. pose proof (Hr j (or_introl eq_refl)) as Hj. assert (Hr' : ∀ x, In x slots → 0 <= x < 64) by (intros x Hin; apply Hr; by right).
  destruct (r_active (record_at m j) && _ && _) eqn:Eb; [|by apply IH]. rewrite !andb_true_iff, !Z.eqb_eq in Eb. destruct Eb as [[Ha Hp] Hg].
  cbv zeta. unfold IPC_MAX_ENDPOINTS. rewrite (proj2 (Z.ltb_lt _ 16)) by apply (vr_slot _ (valid_record_at m j Hv)).
  destruct (IH Hr' _ (valid_woken (endpoint_slot (record_at m j)) _ (valid_cleared j m Hv))) as ((seen & n & E1) & E2).
  rewrite woken_endpoint in E1. destruct (cleared_frame j m slot Ha Hv Hs) as (seen' & n' & E3). rewrite E3 in E1. split; [by exists seen, n|].
  intros i Hi Hne. assert (E4 : record_at (cleared j m) i = record_at m i).
  { rewrite cleared_record by done. destruct (Z.eqb_spec i j) as [->|]; [|done]. by destruct Hne. }
  rewrite E2; [by rewrite woken_record|done|by rewrite woken_record, E4].
Qed.

(** When a process has been cleaned up, it owns no active endpoint and
    holds no record; the endpoints of others are as they were, with their
    queue and bulk slot, and the records of others for them are as they were. *)
Theorem ipc_cleanup_revokes {O : Type} `{ProtectedStoreLaws O} `{!BlankStore O} `{!BlankLaws O} (s : ipc_t O) (events : list event)
    (p g : Z) (Hhistory : history (events ++ [Request (Cleanup p g)]) s) (Hpid : 0 < s32 p) (Hgeneration : g ≠ 0) :
  let m := memory (after events s) in let m' := memory (after (events ++ [Request (Cleanup p g)]) s) in
  let owns m slot := active (endpoint_at m slot) = true ∧ owner_pid (endpoint_at m slot) = p ∧ owner_generation (endpoint_at m slot) = g in
  let holds m i := holder_pid (record_at m i) = p ∧ holder_generation (record_at m i) = g in
  (∀ slot, 0 <= slot < 16 → ¬ owns m' slot) ∧
  (∀ i, 0 <= i < 64 → r_active (record_at m' i) = true → ¬ holds m' i) ∧
  (∀ slot, 0 <= slot < 16 → ¬ owns m slot →
    (∃ seen n, endpoint_at m' slot = with_peer seen n (endpoint_at m slot)) ∧
    (∀ i, names m slot i → ¬ holds m i → record_at m' i = record_at m i)).
Proof.
  cbv zeta. pose proof (history_app _ _ _ Hhistory) as Hh. destruct (after_facts _ _ Hh) as (Hv & Ho & _).
  destruct (after_request _ _ _ Hhistory) as [_ ->]. set (m := memory (after events s)) in *. cbn [reference snd].
  destruct (cleanup_steps p g m Hv Ho) as [_ Hc]. destruct (Hc Hpid Hgeneration) as [Hu Hh']. split_and!.
  - intros slot Hs (Ha & Hp & Hg). by apply (Hu slot Hs).
  - intros i Hi Ha [Hp Hg]. by apply (Hh' i Hi).
  - intros slot Hs Hno. unfold cleanup. rewrite (proj2 (Z.leb_gt _ _)), (proj2 (Z.eqb_neq _ _)) by done. cbn [orb].
    destruct (revoke_owned_frame p g endpoint_slots m slot Hv Ho endpoint_slots_range Hs) as [E1 E2]; [intros; by apply Hno|].
    destruct (plain_cleanup_endpoints p g endpoint_slots m Hv endpoint_slots_range) as (_ & Hv1 & _).
    destruct (clear_held_frame p g capability_slots _ slot Hv1 capability_slots_range Hs) as (F1 & F2). rewrite E1 in F1.
    split; [done|]. intros i Hn Hnh. rewrite F2; [by apply E2|apply Hn|by rewrite E2].
Qed.

(** ** A server and a client *)
Definition sample_open : list event := [Request (Create 1 (Some 0)); Request (Delegate 1 257 2 IPC_RIGHT_SEND)].

Lemma sample_history events : Forall event_ok events → Z.of_nat (length events) * request_cost < UINT32_MAX → history events sample_ipc.
Proof. intros He Hn. split; [apply sample_table_ok|by split]. Defined.

(** The reference computes what the samples need. *)
Ltac sample_compute := rewrite ?event_answer, ?after_reference by (apply sample_history; [repeat constructor; done|reflexivity]); vm_compute; reflexivity.

Lemma ipc_closed_handle_dead_witness :
  (event_run (Request (Close 1 257)) (after sample_open sample_ipc)).1 = Some (Status (Some 0)) ∧
  ∃ error, (run (resolve_capability 2 257 IPC_RIGHT_SEND)
    (after (sample_open ++ [Request (Close 1 257)] ++ [Request (Create 1 (Some 0))]) sample_ipc)).1 = inl error.
Proof.
  assert (Hc : (event_run (Request (Close 1 257)) (after sample_open sample_ipc)).1 = Some (Status (Some 0))) by sample_compute.
  split; [exact Hc|]. apply (ipc_closed_handle_dead sample_ipc sample_open [Request (Create 1 (Some 0))] 1 257 2 IPC_RIGHT_SEND); [|exact Hc].
  apply sample_history; [repeat constructor; done|reflexivity].
Defined.

Lemma ipc_capability_discipline_witness :
  history sample_open sample_ipc ∧ owned_slot (memory (after sample_open sample_ipc)) 0.
Proof.
  assert (Hh : history sample_open sample_ipc) by (apply sample_history; [repeat constructor; done|reflexivity]).
  split; [exact Hh|]. apply (ipc_capability_discipline sample_ipc sample_open 0 Hh). lia.
Defined.

Lemma ipc_authority_granted_witness :
  let m' := memory (after ([Request (Create 1 (Some 0))] ++ [Request (Delegate 1 257 2 IPC_RIGHT_SEND)]) sample_ipc) in
  r_active (record_at m' 1) = true ∧ r_active (record_at (memory (after [Request (Create 1 (Some 0))] sample_ipc)) 1) = false ∧
  ∃ source handle target rights_, Delegate 1 257 2 IPC_RIGHT_SEND = Delegate source handle target rights_ ∧ 0 < rights_ < 4.
Proof.
  cbv zeta. assert (Hh : history ([Request (Create 1 (Some 0))] ++ [Request (Delegate 1 257 2 IPC_RIGHT_SEND)]) sample_ipc)
    by (apply sample_history; [repeat constructor; done|reflexivity]).
  assert (Ha : r_active (record_at (memory (after ([Request (Create 1 (Some 0))] ++ [Request (Delegate 1 257 2 IPC_RIGHT_SEND)]) sample_ipc)) 1) = true)
    by sample_compute.
  assert (Hb : r_active (record_at (memory (after [Request (Create 1 (Some 0))] sample_ipc)) 1) = false) by sample_compute.
  split; [exact Ha|split; [exact Hb|]].
  destruct (ipc_authority_granted sample_ipc [Request (Create 1 (Some 0))] (Delegate 1 257 2 IPC_RIGHT_SEND) 1 Hh ltac:(lia) Ha)
    as [E|[(owner & handle & p & slot & E & _)|(source & handle & target & rights_ & p & t & slot & from & E & _ & _ & _ & Hr & _)]].
  - rewrite E, Hb in Ha. discriminate Ha.
  - discriminate E.
  - exists source, handle, target, rights_. by split.
Defined.

Lemma ipc_cleanup_revokes_witness :
  active (endpoint_at (memory (after sample_open sample_ipc)) 0) = true ∧
  ∀ i, 0 <= i < 64 → r_active (record_at (memory (after (sample_open ++ [Request (Cleanup 1 1)]) sample_ipc)) i) = true →
    holder_pid (record_at (memory (after (sample_open ++ [Request (Cleanup 1 1)]) sample_ipc)) i) = 1 →
    holder_generation (record_at (memory (after (sample_open ++ [Request (Cleanup 1 1)]) sample_ipc)) i) = 1 → False.
Proof.
  split; [sample_compute|]. intros i Hi Ha Hp Hg.
  assert (Hh : history (sample_open ++ [Request (Cleanup 1 1)]) sample_ipc) by (apply sample_history; [repeat constructor; done|reflexivity]).
  apply (proj1 (proj2 (ipc_cleanup_revokes sample_ipc sample_open 1 1 Hh eq_refl ltac:(done))) i Hi Ha). exact (conj Hp Hg).
Defined.
