(* ===== verification/IpcDelivery.v ===== *)
(** Delivery of messages.

    [puts] and [takes] are the messages a request adds to the queue of an
    endpoint and removes from it.  As long as the endpoint is open, what a
    sender put is what was taken from it, in order, and what still waits. *)
From stdpp Require Import relations.
From S2P Require Import Prelude ProtectedStore Layout ProtectedRecord Ipc IpcSpec IpcPlain IpcHelpers IpcCaps IpcQueue IpcCalls IpcControl IpcRefine IpcAuthority IpcProps.
From S2P Require Import CriticalObject.
Import Ipc.
Local Open Scope ipc_scope.

(** ** What requests do to a queue *)
Definition handle_slot (handle : Z) : Z := match decode_handle handle with Some (slot, _) => slot | None => -1 end.
Definition process_of (m : mem) (pointer : Z) : Process := default no_process (process_at m pointer).
(** The record of the peer of an endpoint. *)
Definition peer_record (m : mem) (slot : Z) : ipc_capability_record_t :=
  match find_peer m slot capability_slots None with Some (Some i) => record_at m i | _ => zero_record end.

(** What the request put into the queue of [slot], by its answer. *)
Definition puts_of (slot : Z) (r : request) (a : answer) (m : mem) : list ipc_protected_message_t :=
  match r, a with
  | Send sender handle msg _ _ _, Status (Some 0) =>
    if handle_slot handle =? slot then [ProtectedMessage (queued_message msg) (pid (process_of m sender)) (p_generation (process_of m sender))] else []
  | SendExternal _ _ handle (Some msg), Status (Some 0) =>
    if handle_slot handle =? slot then [ProtectedMessage (queued_message msg) (holder_pid (peer_record m slot)) (holder_generation (peer_record m slot))] else []
  | SendKernel _ _ handle (Some msg), Status (Some 0) =>
    if handle_slot handle =? slot then [ProtectedMessage (queued_message msg) 0 0] else []
  | _, _ => []
  end.

(** The first message another process sent. *)
Definition oldest (m : mem) (slot receiver : Z) : list ipc_protected_message_t :=
  let e := endpoint_at m slot in let o := receivable (process_of m receiver) e in
  if 0 <=? o then [at_offset e o] else [].
(** What the request took from the queue of [slot]: the message it answered. *)
Definition takes_of (slot : Z) (r : request) (a : answer) (m : mem) : list ipc_protected_message_t :=
  match r, a with
  | Receive receiver handle _ _ _ _, Message_ (Some 0) v =>
    if handle_slot handle =? slot then (λ w, ProtectedMessage v (pm_sender_pid w) (pm_sender_generation w)) <$> oldest m slot receiver else []
  | ReceiveBulk receiver handle _ _ _ _, BulkMessage (Some 0) v => if handle_slot handle =? slot then oldest m slot receiver else []
  | _, _ => []
  end.
Definition puts (slot : Z) (r : request) (m : mem) : list ipc_protected_message_t := puts_of slot r (reference r m).1 m.
Definition takes (slot : Z) (r : request) (m : mem) : list ipc_protected_message_t := takes_of slot r (reference r m).1 m.

(** The process a message is from. *)
Definition identity (v : ipc_protected_message_t) : Z * Z := (pm_sender_pid v, pm_sender_generation v).

(** ** Queues that stay *)
Definition waiting (m : mem) (slot : Z) : list ipc_protected_message_t := queue (endpoint_at m slot).

(** If the endpoint survives, it keeps its queue. *)
Definition keeps_queue (m m' : mem) (slot : Z) : Prop :=
  active (endpoint_at m' slot) = true → generation (endpoint_at m' slot) = generation (endpoint_at m slot) → waiting m' slot = waiting m slot.

Lemma keeps_queue_same m m' slot : endpoint_at m' slot = endpoint_at m slot → keeps_queue m m' slot.
Proof. intros E _ _. unfold waiting. by rewrite E. Qed.
Lemma keeps_queue_other m m' slot : ipc_endpoints m' = ipc_endpoints m → keeps_queue m m' slot.
Proof. intros E. apply keeps_queue_same. unfold endpoint_at. by rewrite E. Qed.

(** The fields the queue consists of. *)
Definition queue_fields (e : ipc_endpoint_t) : list ipc_message_t * list Z * list Z * Z * Z :=
  (messages e, sender_pid e, sender_generation e, head e, count e).
Lemma queue_of_fields e e' : queue_fields e' = queue_fields e → queue e' = queue e.
Proof.
  unfold queue_fields. intros [= E1 E2 E3 E4 E5]. unfold queue, at_offset, slot_message, queue_index. by rewrite E1, E2, E3, E4, E5.
Qed.
Lemma keeps_queue_fields m m' slot : queue_fields (endpoint_at m' slot) = queue_fields (endpoint_at m slot) → keeps_queue m m' slot.
Proof. intros E _ _. by apply queue_of_fields. Qed.

Lemma keeps_queue_set m s e slot : valid m → 0 <= s < 16 → 0 <= slot < 16 → queue_fields e = queue_fields (endpoint_at m s) →
  keeps_queue m (set_endpoint m s e) slot.
Proof.
  intros Hv Hs Hslot E. apply keeps_queue_fields. rewrite endpoint_at_set; [|apply (valid_shape m Hv)|done|lia].
  by destruct (Z.eqb_spec slot s) as [->|].
Qed.

Lemma quarantined_endpoint m s : valid m → 0 <= s < 16 → ∀ slot, 0 <= slot < 16 →
  endpoint_at (quarantined s m) slot = if slot =? s then shut (endpoint_at m s) else endpoint_at m slot.
Proof.
  intros Hv Hs slot Hslot. destruct (close_slot_facts (λ r, endpoint_slot r =? s) m s) as [E _]; [done|done|by intros r ?%Z.eqb_eq| |].
  - intros i (_ & _ & E). by apply Z.eqb_eq.
  - unfold quarantined. rewrite E. destruct (Z.eqb_spec slot s) as [->|]; [by apply shut_endpoint|by apply shut_other; [| |lia|]].
Qed.
Lemma revoked_endpoint m s : valid m → owned m → 0 <= s < 16 → ∀ slot, 0 <= slot < 16 →
  endpoint_at (revoked s m) slot = if slot =? s then shut (endpoint_at m s) else endpoint_at m slot.
Proof.
  intros Hv Ho Hs slot Hslot. unfold revoked. rewrite shut_endpoint by done.
  destruct (close_slot_facts (λ r, (endpoint_slot r =? s) && (r_handle r =? make_handle s (generation (shut (endpoint_at m s))))) m s)
    as [E _]; [done|done|by intros r [?%Z.eqb_eq _]%andb_true_iff| |].
  - intros i Hn. destruct (ow_live _ _ (Ho s Hs) i Hn) as [_ E]. destruct Hn as (_ & _ & E'). rewrite E', E. unfold live_handle. by rewrite !Z.eqb_refl.
  - rewrite E. destruct (Z.eqb_spec slot s) as [->|]; [by apply shut_endpoint|by apply shut_other; [| |lia|]].
Qed.
Lemma keeps_queue_quarantined m s slot : valid m → 0 <= s < 16 → 0 <= slot < 16 → keeps_queue m (quarantined s m) slot.
Proof.
  intros Hv Hs Hslot. unfold keeps_queue, waiting. rewrite quarantined_endpoint by done. by destruct (Z.eqb_spec slot s) as [->|].
Qed.
Lemma keeps_queue_revoked m s slot : valid m → owned m → 0 <= s < 16 → 0 <= slot < 16 → keeps_queue m (revoked s m) slot.
Proof.
  intros Hv Ho Hs Hslot. unfold keeps_queue, waiting. rewrite revoked_endpoint by done. by destruct (Z.eqb_spec slot s) as [->|].
Qed.

Lemma keeps_queue_waited m s p right t d now rejected block slot : valid m → 0 <= s < 16 → 0 <= slot < 16 →
  keeps_queue m (waited m s p right t d now rejected block).2 slot.
Proof.
  intros Hv Hs Hslot. unfold waited. destruct (_ =? 0); [destruct rejected; by apply keeps_queue_other|]. destruct (_ <=? _); [done|].
  destruct (counterpart m s p right) as [z [p' g']]. cbn [fst]. destruct (z =? _); [by apply keeps_queue_quarantined|]. cbn [snd blocked].
  destruct (0 <? z); by apply keeps_queue_other.
Qed.
Lemma waited_result m s p right t d now rejected block : (waited m s p right t d now rejected block).1 ≠ Some 0.
Proof.
  unfold waited. destruct (_ =? 0); [done|]. destruct (_ <=? _); [done|]. destruct (_ =? IPC_EINTEGRITY); done.
Qed.

(** ** One request *)
(** The queue of an endpoint that survives. *)
Definition queue_step (slot : Z) (r : request) (m m' : mem) : Prop :=
  active (endpoint_at m' slot) = true → generation (endpoint_at m' slot) = generation (endpoint_at m slot) →
  ∃ before after_, waiting m slot ++ puts slot r m = before ++ takes slot r m ++ after_ ∧ waiting m' slot = before ++ after_ ∧
    ∀ v w, v ∈ takes slot r m → w ∈ before → identity w ≠ identity v.

Lemma queue_step_keeps slot r m m' : puts slot r m = [] → takes slot r m = [] → keeps_queue m m' slot → queue_step slot r m m'.
Proof.
  intros Hp Ht Hk Ha Hg. exists (waiting m slot), []. rewrite Hp, Ht, !app_nil_r. split_and!; [done|by apply Hk|].
  intros v w Hv. by apply elem_of_nil in Hv.
Qed.
Lemma queue_step_put slot r m m' : takes slot r m = [] → waiting m' slot = waiting m slot ++ puts slot r m → queue_step slot r m m'.
Proof.
  intros Ht Hk Ha Hg. exists (waiting m slot ++ puts slot r m), []. rewrite Ht, !app_nil_r. split_and!; [done|by rewrite Hk|].
  intros v w Hv. by apply elem_of_nil in Hv.
Qed.

(** ** Each request *)
Lemma authority_slot m pointer handle required slot p i : authority m pointer handle required slot p i →
  handle_slot handle = slot ∧ process_of m pointer = p ∧ 0 <= slot < 16.
Proof.
  intros Hau. unfold handle_slot, process_of. rewrite (au_handle _ _ _ _ _ _ _ Hau), (au_process _ _ _ _ _ _ _ Hau).
  split_and!; [done|done|apply Hau..].
Qed.

Lemma waiting_sent m s msg p g slot : valid m → 0 <= s < 16 → 0 <= slot < 16 → count (endpoint_at m s) < 4 →
  waiting (sent m s msg p g) slot = waiting m slot ++ (if s =? slot then [ProtectedMessage (queued_message msg) p g] else []).
Proof.
  intros Hv Hs Hslot Hc. unfold waiting, sent.
  change (endpoint_at (add_call (message_added ?m') ?c) slot) with (endpoint_at m' slot).
  rewrite endpoint_at_set; [|apply (valid_shape m Hv)|done|lia]. rewrite (Z.eqb_sym s slot).
  destruct (Z.eqb_spec slot s) as [->|]; [by rewrite queue_enqueued by (done || by apply valid_at)|by rewrite app_nil_r].
Qed.
Lemma waiting_taken m s o slot : valid m → 0 <= s < 16 → 0 <= slot < 16 → 0 <= o < count (endpoint_at m s) →
  waiting (taken m s o) slot = if s =? slot then delete (Z.to_nat o) (waiting m slot) else waiting m slot.
Proof.
  intros Hv Hs Hslot Ho. unfold waiting, taken. change (endpoint_at (message_removed ?m') slot) with (endpoint_at m' slot).
  rewrite endpoint_at_set; [|apply (valid_shape m Hv)|done|lia]. rewrite (Z.eqb_sym s slot).
  destruct (Z.eqb_spec slot s) as [->|]; [by rewrite queue_removed by (done || by apply valid_at)|done].
Qed.

(** Taking the oldest message of another process. *)
Lemma not_foreign p v : foreign p v = false → identity v = (pid p, p_generation p).
Proof. unfold foreign, identity. rewrite orb_false_iff, !negb_false_iff, !Z.eqb_eq. by intros [-> ->]. Qed.
Lemma foreign_ne p v : foreign p v = true → identity v ≠ (pid p, p_generation p).
Proof. unfold foreign, identity. rewrite orb_true_iff, !negb_true_iff, !Z.eqb_neq. intros H [= E1 E2]. tauto. Qed.

Lemma receivable_split m slot p : let o := receivable p (endpoint_at m slot) in 0 <= o →
  ∃ before after_, waiting m slot = before ++ at_offset (endpoint_at m slot) o :: after_ ∧
    delete (Z.to_nat o) (waiting m slot) = before ++ after_ ∧
    ∀ w, w ∈ before → identity w ≠ identity (at_offset (endpoint_at m slot) o).
Proof.
  intros o Ho. destruct (receivable_found p (endpoint_at m slot) o eq_refl Ho) as (Hr & Hf & Hb).
  pose proof (lookup_queue _ _ Hr) as El. fold (waiting m slot) in El.
  exists (take (Z.to_nat o) (waiting m slot)), (drop (S (Z.to_nat o)) (waiting m slot)). split_and!.
  - by rewrite take_drop_middle.
  - apply delete_take_drop.
  - intros w Hw E. apply list_elem_of_lookup_1 in Hw as [n Hn]. apply lookup_take_Some in Hn as [Hn Hlt].
    apply lookup_queue_nat in Hn as [Hn ->]. apply (foreign_ne _ _ Hf). rewrite <- E. apply not_foreign, Hb. lia.
Qed.

Lemma queue_step_take slot r m m' s p : valid m → 0 <= slot < 16 → 0 <= s < 16 → 0 <= receivable p (endpoint_at m s) →
  puts slot r m = [] → takes slot r m = (if s =? slot then [at_offset (endpoint_at m s) (receivable p (endpoint_at m s))] else []) →
  waiting m' slot = waiting (taken m s (receivable p (endpoint_at m s))) slot → queue_step slot r m m'.
Proof.
  intros Hv Hslot Hs Ho Hp Ht Hw _ _. destruct (receivable_found _ _ _ eq_refl Ho) as (Hr & _).
  rewrite waiting_taken in Hw by done. rewrite Hp, Ht, app_nil_r, Hw. destruct (Z.eqb_spec s slot) as [->|].
  - destruct (receivable_split m slot p Ho) as (before & after_ & E1 & E2 & Hne). exists before, after_. split_and!; [done|done|].
    intros v w ->%list_elem_of_singleton Hin. by apply Hne.
  - exists (waiting m slot), []. split_and!; [by rewrite !app_nil_r|by rewrite app_nil_r|]. intros v w Hin. by apply elem_of_nil in Hin.
Qed.

Lemma queue_step_send m sender handle msg t d now slot : valid m → 0 <= slot < 16 →
  queue_step slot (Send sender handle msg t d now) m (reference (Send sender handle msg t d now) m).2.
Proof.
  intros Hv Hslot. pose proof (valid_scanned m sender handle Hv) as Hv1. destruct (send m sender handle msg t d now) as [z m'] eqn:E.
  assert (Ep : puts slot (Send sender handle msg t d now) m = match z with Some 0 => if handle_slot handle =? slot then
    [ProtectedMessage (queued_message msg) (pid (process_of m sender)) (p_generation (process_of m sender))] else [] | _ => [] end).
  { unfold puts, puts_of. cbn [reference]. rewrite E. by destruct z as [[]|]. }
  cbn [reference]. rewrite E. cbn [snd]. unfold send in E. destruct (resolved m sender handle IPC_RIGHT_SEND) as [error|s] eqn:Hres.
  { injection E as <- <-. apply queue_step_keeps; [|done|by apply keeps_queue_other]. rewrite Ep.
    pose proof (resolved_error m sender handle IPC_RIGHT_SEND) as Hne. rewrite Hres in Hne. by destruct error. }
  destruct (resolved_authority _ _ _ _ _ Hres) as (p & i & Hau). destruct (authority_slot _ _ _ _ _ _ _ Hau) as (Eh & Epr & Hs).
  change (default no_process (process_at m sender)) with (process_of m sender) in E. destruct (_ && _).
  { injection E as <- <-. apply queue_step_keeps; [by rewrite Ep|done|by apply keeps_queue_other]. }
  unfold IPC_QUEUE_DEPTH in E. destruct (Z.ltb_spec (count (endpoint_at m s)) 4).
  - injection E as <- <-. apply queue_step_put; [done|]. rewrite Ep, Eh. by rewrite waiting_sent.
  - pose proof (keeps_queue_waited (scanned m sender handle) s (process_of m sender) IPC_RIGHT_RECEIVE t d now true Block_send slot Hv1 Hs Hslot) as Hk.
    pose proof (waited_result (scanned m sender handle) s (process_of m sender) IPC_RIGHT_RECEIVE t d now true Block_send) as Hz.
    rewrite E in Hk, Hz. apply queue_step_keeps; [|done|exact Hk]. rewrite Ep. by destruct z as [[]|].
Qed.

Lemma keeps_queue_scanned m pointer handle m' slot : keeps_queue (scanned m pointer handle) m' slot → keeps_queue m m' slot.
Proof. done. Qed.

Lemma queue_step_send_bulk m sender handle msg t d now slot : valid m → 0 <= slot < 16 →
  queue_step slot (SendBulk sender handle msg t d now) m (reference (SendBulk sender handle msg t d now) m).2.
Proof.
  intros Hv Hslot. pose proof (valid_scanned m sender handle Hv) as Hv1. apply queue_step_keeps; [done..|].
  cbn [reference]. destruct (send_bulk m sender handle msg t d now) as [z m'] eqn:E. cbn [snd].
  unfold send_bulk in E. destruct (resolved m sender handle IPC_RIGHT_SEND) as [error|s] eqn:Hres.
  { injection E as <- <-. by apply keeps_queue_other. }
  destruct (resolved_authority _ _ _ _ _ Hres) as (p & i & Hau). destruct (authority_slot _ _ _ _ _ _ _ Hau) as (Eh & Epr & Hs).
  destruct (_ && _); [injection E as <- <-; by apply keeps_queue_other|]. destruct (negb _).
  - injection E as <- <-. apply (keeps_queue_set m s (with_bulk true (queued_bulk msg) (pid _) (p_generation _) (endpoint_at m s)) slot); done.
  - apply (f_equal snd) in E. cbn [snd] in E. rewrite <- E. apply (keeps_queue_scanned m sender handle). by apply keeps_queue_waited.
Qed.

(** A message from inside the kernel. *)
Lemma enqueue_queue m s msg p g slot : valid m → 0 <= s < 16 → 0 <= slot < 16 →
  waiting (enqueue m s msg p g).2 slot = waiting m slot ++
    match (enqueue m s msg p g).1 with 0 => if s =? slot then [ProtectedMessage (queued_message msg) p g] else [] | _ => [] end.
Proof.
  intros Hv Hs Hslot. unfold enqueue, IPC_QUEUE_DEPTH. destruct (Z.leb_spec 4 (count (endpoint_at m s))); [by rewrite app_nil_r|].
  by apply waiting_sent.
Qed.
Lemma queue_step_send_kernel m op og handle message slot : valid m → 0 <= slot < 16 →
  queue_step slot (SendKernel op og handle message) m (reference (SendKernel op og handle message) m).2.
Proof.
  intros Hv Hslot. apply queue_step_put; [done|]. unfold puts, puts_of. cbn [reference status fst snd]. unfold send_kernel, handle_slot.
  destruct message as [message|]; [|by rewrite app_nil_r]. destruct (_ || _); [by rewrite app_nil_r|].
  destruct (decode_handle handle) as [[s g]|] eqn:Eh; [|by rewrite app_nil_r]. apply decode_handle_range in Eh.
  destruct (negb _); [by rewrite app_nil_r|]. by apply enqueue_queue.
Qed.
Lemma queue_step_send_external m op og handle message slot : valid m → 0 <= slot < 16 →
  queue_step slot (SendExternal op og handle message) m (reference (SendExternal op og handle message) m).2.
Proof.
  intros Hv Hslot. unfold queue_step, puts, puts_of, takes. cbn [takes_of reference status fst snd]. unfold send_external, handle_slot.
  assert (Hkeeps : ∀ m', keeps_queue m m' slot → active (endpoint_at m' slot) = true → generation (endpoint_at m' slot) = generation (endpoint_at m slot) →
    ∃ before after_ : list ipc_protected_message_t, waiting m slot ++ [] = before ++ [] ++ after_ ∧ waiting m' slot = before ++ after_ ∧
      ∀ v w, v ∈ ([] : list ipc_protected_message_t) → w ∈ before → identity w ≠ identity v).
  { intros m' Hk. by apply (queue_step_keeps slot (ValidateQuiescent 0 0 0)). }
  destruct message as [message|]; [|by apply Hkeeps]. destruct (_ || _); [by apply Hkeeps|].
  destruct (decode_handle handle) as [[s g]|] eqn:Eh; [|by apply Hkeeps]. apply decode_handle_range in Eh as Hs.
  destruct (negb _); [by apply Hkeeps|].
  destruct (find_peer m s capability_slots None) as [[i|]|] eqn:Ef; [|by apply Hkeeps|by apply Hkeeps, keeps_queue_quarantined].
  destruct (process_at m _) as [h|]; [|by apply Hkeeps]. destruct (_ || _); [by apply Hkeeps|]. intros _ _.
  pose proof (enqueue_queue m s message (holder_pid (record_at m i)) (holder_generation (record_at m i)) slot Hv Hs Hslot) as Hq.
  destruct (enqueue _ _ _ _ _) as [z m']. cbn [fst snd] in *.
  assert (E : match z with 0 => if s =? slot then [ProtectedMessage (queued_message message) (holder_pid (peer_record m slot))
    (holder_generation (peer_record m slot))] else [] | _ => [] end =
    match z with 0 => if s =? slot then [ProtectedMessage (queued_message message) (holder_pid (record_at m i))
    (holder_generation (record_at m i))] else [] | _ => [] end).
  { destruct z; [|done..]. destruct (Z.eqb_spec s slot) as [->|]; [|done]. unfold peer_record. by rewrite Ef. }
  eexists _, []. rewrite !app_nil_r. split_and!; [reflexivity|exact (eq_trans Hq (f_equal _ (eq_sym E)))|].
  intros v w Hin. by apply elem_of_nil in Hin.
Qed.

(** A receive that answers with success took the oldest message. *)
Lemma queue_step_receive m receiver handle msg t d now slot : valid m → 0 <= slot < 16 →
  queue_step slot (Receive receiver handle msg t d now) m (reference (Receive receiver handle msg t d now) m).2.
Proof.
  intros Hv Hslot. pose proof (valid_scanned m receiver handle Hv) as Hv1. destruct (receive m receiver handle msg t d now) as [[z v] m'] eqn:E.
  assert (Et : takes slot (Receive receiver handle msg t d now) m = match z with Some 0 => if handle_slot handle =? slot then
    (λ w, ProtectedMessage v (pm_sender_pid w) (pm_sender_generation w)) <$> oldest m slot receiver else [] | _ => [] end).
  { unfold takes, takes_of. cbn [reference]. rewrite E. by destruct z as [[]|]. }
  cbn [reference]. rewrite E. cbn [snd]. unfold receive in E. destruct (resolved m receiver handle IPC_RIGHT_RECEIVE) as [error|s] eqn:Hres.
  { injection E as <- <- <-. apply queue_step_keeps; [done| |by apply keeps_queue_other]. rewrite Et.
    pose proof (resolved_error m receiver handle IPC_RIGHT_RECEIVE) as Hne. rewrite Hres in Hne. cbn in Hne. destruct error; [by destruct Hne|done..]. }
  destruct (resolved_authority _ _ _ _ _ Hres) as (p & i & Hau). destruct (authority_slot _ _ _ _ _ _ _ Hau) as (Eh & Epr & Hs).
  change (default no_process (process_at m receiver)) with (process_of m receiver) in E.
  destruct (Z.leb_spec 0 (receivable (process_of m receiver) (endpoint_at m s))) as [Ho|Ho].
  { injection E as <- <- <-. apply (queue_step_take slot _ m _ s (process_of m receiver)); [done..| |done]. rewrite Et, Eh.
    destruct (Z.eqb_spec s slot) as [->|]; [|done]. unfold oldest. rewrite (proj2 (Z.leb_le _ _)) by done. reflexivity. }
  destruct (_ && _); [injection E as <- <- <-; apply queue_step_keeps; [done|by rewrite Et|by apply keeps_queue_other]|].
  pose proof (keeps_queue_waited (scanned m receiver handle) s (process_of m receiver) IPC_RIGHT_SEND t d now false Block_receive slot Hv1 Hs Hslot) as Hk.
  pose proof (waited_result (scanned m receiver handle) s (process_of m receiver) IPC_RIGHT_SEND t d now false Block_receive) as Hz.
  destruct (waited _ _ _ _ _ _ _ _ _) as [z' m'']. injection E as <- <- <-. apply queue_step_keeps; [done| |exact Hk].
  rewrite Et. by destruct z' as [[]|].
Qed.
Lemma queue_step_receive_bulk m receiver handle msg t d now slot : valid m → 0 <= slot < 16 →
  queue_step slot (ReceiveBulk receiver handle msg t d now) m (reference (ReceiveBulk receiver handle msg t d now) m).2.
Proof.
  intros Hv Hslot. pose proof (valid_scanned m receiver handle Hv) as Hv1. destruct (receive_bulk m receiver handle msg t d now) as [[z v] m'] eqn:E.
  assert (Et : takes slot (ReceiveBulk receiver handle msg t d now) m = match z with Some 0 => if handle_slot handle =? slot then
    oldest m slot receiver else [] | _ => [] end).
  { unfold takes, takes_of. cbn [reference]. rewrite E. by destruct z as [[]|]. }
  cbn [reference]. rewrite E. cbn [snd]. unfold receive_bulk in E. destruct (resolved m receiver handle IPC_RIGHT_RECEIVE) as [error|s] eqn:Hres.
  { injection E as <- <- <-. apply queue_step_keeps; [done| |by apply keeps_queue_other]. rewrite Et.
    pose proof (resolved_error m receiver handle IPC_RIGHT_RECEIVE) as Hne. rewrite Hres in Hne. cbn in Hne. destruct error; [by destruct Hne|done..]. }
  destruct (resolved_authority _ _ _ _ _ Hres) as (p & i & Hau). destruct (authority_slot _ _ _ _ _ _ _ Hau) as (Eh & Epr & Hs).
  change (default no_process (process_at m receiver)) with (process_of m receiver) in E.
  destruct (Z.leb_spec 0 (receivable (process_of m receiver) (endpoint_at m s))) as [Ho|Ho].
  { injection E as <- <- <-. apply (queue_step_take slot _ m _ s (process_of m receiver)); [done..| |done]. rewrite Et, Eh.
    destruct (Z.eqb_spec s slot) as [->|]; [|done]. unfold oldest. by rewrite (proj2 (Z.leb_le _ _)). }
  assert (Hnone : (if handle_slot handle =? slot then oldest m slot receiver else []) = []).
  { rewrite Eh. destruct (Z.eqb_spec s slot) as [->|]; [|done]. unfold oldest. by rewrite (proj2 (Z.leb_gt _ _)). }
  rewrite Hnone in Et. apply queue_step_keeps; [done|rewrite Et; by destruct z as [[]|]|]. destruct (bulk_active _ && _).
  { injection E as <- <- <-. by apply (keeps_queue_set m s (with_bulk false zero_bulk_message 0 0 (endpoint_at m s)) slot). }
  destruct (_ && _); [injection E as <- <- <-; by apply keeps_queue_other|].
  pose proof (keeps_queue_waited (scanned m receiver handle) s (process_of m receiver) IPC_RIGHT_SEND t d now false Block_receive slot Hv1 Hs Hslot) as Hk.
  destruct (waited _ _ _ _ _ _ _ _ _) as [z' m'']. injection E as <- <- <-. exact Hk.
Qed.

(** ** Requests without messages *)
(** Losses in a row. *)
Lemma keeps_queue_trans m m1 m' slot : 0 <= slot < 16 → steps m m1 → steps m1 m' → keeps_queue m m1 slot → keeps_queue m1 m' slot →
  keeps_queue m m' slot.
Proof.
  intros Hs H1 H2 K1 K2 Ha Hg. destruct (steps_live _ _ _ H2 Hs Ha) as (Ha1 & Eg & _). rewrite K2 by done. apply K1; [done|].
  by apply steps_generation.
Qed.
Lemma keeps_queue_search slots m slot : valid m → (∀ i, In i slots → 0 <= i < 16) → 0 <= slot < 16 →
  queue_fields (endpoint_at (search slots m).2 slot) = queue_fields (endpoint_at m slot) ∧ generation (endpoint_at (search slots m).2 slot) = generation (endpoint_at m slot).
Proof.
  revert m. induction slots as [|i slots IH]; intros m Hv Hr Hs; cbn [search]; [done|].
  assert (Hr' : ∀ j, In j slots → 0 <= j < 16) by (intros j Hj; apply Hr; by right). destruct (_ || _); [by apply IH|].
  destruct (_ <=? _); [|done]. pose proof (Hr i (or_introl eq_refl)) as Hi.
  destruct (IH (set_endpoint m i (with_retired (endpoint_at m i)))) as [E1 E2]; [|done|done|].
  - apply valid_set_endpoint; [done|by apply valid_with_retired, valid_at].
  - rewrite E1, E2. rewrite endpoint_at_set; [|apply (valid_shape m Hv)|done|lia]. by destruct (Z.eqb_spec slot i) as [->|].
Qed.
Lemma keeps_queue_create m owner handle slot : valid m → 0 <= slot < 16 → keeps_queue m (create m owner handle).2 slot.
Proof.
  intros Hv Hs. unfold create. destruct (process_at m owner) as [p|] eqn:Hp; [|done]. destruct handle as [handle|]; [|done].
  destruct (negb _); [done|]. destruct (free_process_capability_slot p) as [entry|]; [|by apply keeps_queue_other].
  destruct (_ <? 0); [by apply keeps_queue_other|].
  destruct (keeps_queue_search endpoint_slots m slot Hv endpoint_slots_range Hs) as [E1 E2].
  destruct (search endpoint_slots m) as [[s|] m1] eqn:Hse; cbn [snd] in *; [|by apply keeps_queue_fields].
  destruct (search_spec _ _ _ _ Hv endpoint_slots_range Hse) as (Hv1 & _ & _ & Hss & _ & _ & Hlt).
  unfold keeps_queue, waiting. change (endpoint_at (endpoint_added (installed ?m2 owner p entry ?a ?b ?c ?d)) slot) with (endpoint_at m2 slot).
  unfold opened. rewrite endpoint_at_set; [|apply (valid_shape m1 Hv1)|done|lia]. destruct (Z.eqb_spec slot s) as [->|Hne].
  - intros _ Hg. exfalso. cbn in Hg. unfold new_generation, IPC_HANDLE_GENERATION_MAX in *.
    pose proof (ve_generation _ (valid_at m1 s Hv1)). rewrite u32_small in Hg by ulia. lia.
  - intros _ _. by apply queue_of_fields.
Qed.
Lemma keeps_queue_delegate m source handle target rights_ slot : valid m → 0 <= slot < 16 →
  keeps_queue m (delegate m source handle target rights_).2 slot.
Proof.
  intros Hv Hslot. unfold delegate. destruct (process_at m source) as [s|] eqn:Hs; [|done]. destruct (process_at m target) as [t|] eqn:Ht; [|done].
  destruct (delegation_refused source target s t rights_) eqn:Hok; [done|].
  destruct (resolved m source handle rights_) as [|s'] eqn:Hres; [by apply keeps_queue_other|].
  destruct (resolved_authority _ _ _ _ _ Hres) as (p & i & Hau). pose proof (au_range _ _ _ _ _ _ _ Hau) as Hss.
  repeat case_match; try by apply keeps_queue_other. cbn [snd]. unfold delegated.
  apply (keeps_queue_set m s' (with_peer true 1 (endpoint_at m s')) slot); done.
Qed.
Lemma keeps_queue_close m pointer handle slot : valid m → owned m → 0 <= slot < 16 → keeps_queue m (close m pointer handle).2 slot.
Proof.
  intros Hv Ho Hslot. unfold close. destruct (resolved _ _ _ _) as [|s] eqn:Hres; [by apply keeps_queue_other|].
  destruct (resolved_authority _ _ _ _ _ Hres) as (p & i & Hau). pose proof (au_range _ _ _ _ _ _ _ Hau) as Hs.
  pose proof (valid_scanned m pointer handle Hv) as Hv1. destruct (_ || _); [by apply keeps_queue_other|].
  pose proof (keeps_queue_revoked (scanned m pointer handle) s slot Hv1 (steps_owned _ _ (steps_scanned m pointer handle) Ho) Hs Hslot) as Hk.
  revert Hk. generalize (revoked s (scanned m pointer handle)). intros m2 Hk. cbn [snd]. unfold keeps_queue, waiting in *. by rewrite !forget_at_endpoint.
Qed.
Lemma keeps_queue_cleared i m slot : valid m → 0 <= slot < 16 → r_active (record_at m i) = true → keeps_queue m (cleared i m) slot.
Proof.
  intros Hv Hs Ha. destruct (cleared_frame i m slot Ha Hv Hs) as (seen & n & E). apply keeps_queue_fields. by rewrite E.
Qed.
Lemma keeps_queue_woken m m' s slot : keeps_queue m m' slot → keeps_queue m (woken s m') slot.
Proof. unfold keeps_queue, waiting. by rewrite !woken_endpoint. Qed.
Lemma keeps_queue_release m pointer handle slot : valid m → 0 <= slot < 16 → keeps_queue m (release m pointer handle).2 slot.
Proof.
  intros Hv Hslot. unfold release. destruct (_ || _); [done|]. destruct (resolved _ _ _ _) as [|s] eqn:Hres; [by apply keeps_queue_other|].
  destruct (resolved_authority _ _ _ _ _ Hres) as (p & i & Hau). pose proof (au_range _ _ _ _ _ _ _ Hau) as Hs.
  rewrite (au_process _ _ _ _ _ _ _ Hau). cbn [default from_option id]. rewrite (au_first _ _ _ _ _ _ _ Hau).
  destruct (_ && _); [by apply keeps_queue_other|]. apply keeps_queue_woken.
  set (m1 := set_scan_corrupt (scanned m pointer handle) false). assert (Hv1 : valid m1) by (by apply (valid_other m)).
  exact (keeps_queue_cleared i m1 slot Hv1 Hslot (au_record _ _ _ _ _ _ _ Hau)).
Qed.

Lemma keeps_queue_revoke_owned p g slots m slot : valid m → owned m → (∀ s, In s slots → 0 <= s < 16) → 0 <= slot < 16 →
  keeps_queue m (revoke_owned p g slots m) slot.
Proof.
  revert m. induction slots as [|s slots IH]; intros m Hv Ho Hr Hs; [done|]. cbn [revoke_owned].
  pose proof (Hr s (or_introl eq_refl)) as Hss. assert (Hr' : ∀ x, In x slots → 0 <= x < 16) by (intros x Hx; apply Hr; by right).
  destruct (_ && _ && _); [|by apply IH]. pose proof (revoked_closes m s Hv Ho Hss) as Hst. pose proof (valid_revoked s m Hv) as Hv'.
  pose proof (steps_owned _ _ Hst Ho) as Ho'. pose proof (keeps_queue_revoked m s slot Hv Ho Hss Hs) as Hk.
  revert Hst Hv' Ho' Hk. generalize (revoked s m). intros m1 Hst Hv' Ho' Hk.
  apply (keeps_queue_trans m m1); [done|done| |done|by apply IH]. by apply revoke_owned_steps.
Qed.
Lemma keeps_queue_clear_held p g slots m slot : valid m → (∀ i, In i slots → 0 <= i < 64) → 0 <= slot < 16 →
  keeps_queue m (clear_held p g slots m) slot.
Proof.
  intros Hv Hr Hs. destruct (clear_held_frame p g slots m slot Hv Hr Hs) as ((seen & n & E) & _). apply keeps_queue_fields. by rewrite E.
Qed.
Lemma keeps_queue_cleanup p g m slot : valid m → owned m → 0 <= slot < 16 → keeps_queue m (cleanup m p g) slot.
Proof.
  intros Hv Ho Hs. unfold cleanup. destruct (_ || _); [done|].
  destruct (revoke_owned_steps p g endpoint_slots m Hv Ho endpoint_slots_range) as [Hst1 Hno1].
  destruct (plain_cleanup_endpoints p g endpoint_slots m Hv endpoint_slots_range) as (_ & Hv1 & _).
  assert (Hu1 : unowned p g (revoke_owned p g endpoint_slots m)) by (intros s Hss; apply Hno1; by apply endpoint_slots_all).
  pose proof (clear_held_steps p g capability_slots _ Hv1 (steps_owned _ _ Hst1 Ho) Hu1 capability_slots_range) as [Hst2 _].
  apply (keeps_queue_trans m (revoke_owned p g endpoint_slots m)); [done..| |].
  - by apply keeps_queue_revoke_owned; [..|apply endpoint_slots_range|].
  - by apply keeps_queue_clear_held; [|apply capability_slots_range|].
Qed.

(** What a request does to the queue of an endpoint that survives. *)
Lemma queue_step_request slot r m : valid m → owned m → 0 <= slot < 16 → queue_step slot r m (reference r m).2.
Proof.
  intros Hv Ho Hs. destruct r as [owner handle|sender handle message t d now|sender handle message t d now|receiver handle message t d now|
    receiver handle message t d now|op og handle message|op og handle message|op og handle required|op og handle|pointer handle|
    source handle target rights_|pointer handle|p g].
  - apply queue_step_keeps; [done..|]. cbn [reference]. pose proof (keeps_queue_create m owner handle slot Hv Hs) as H.
    by destruct (create m owner handle) as [[z h] m'].
  - by apply queue_step_send.
  - by apply queue_step_send_bulk.
  - by apply queue_step_receive.
  - by apply queue_step_receive_bulk.
  - by apply queue_step_send_external.
  - by apply queue_step_send_kernel.
  - apply queue_step_keeps; [done..|]. cbn [reference status snd]. unfold validate_owner. repeat case_match; done.
  - by apply queue_step_keeps.
  - apply queue_step_keeps; [done..|]. by apply keeps_queue_close.
  - apply queue_step_keeps; [done..|]. by apply keeps_queue_delegate.
  - apply queue_step_keeps; [done..|]. by apply keeps_queue_release.
  - apply queue_step_keeps; [done..|]. by apply keeps_queue_cleanup.
Qed.

(** ** While an endpoint is open *)
Definition opened_as (m : mem) (slot g : Z) : Prop := active (endpoint_at m slot) = true ∧ generation (endpoint_at m slot) = g.

Lemma moves_generation r m m' slot : moves r m m' → 0 <= slot < 16 → generation (endpoint_at m slot) <= generation (endpoint_at m' slot).
Proof.
  intros [H|(m1 & H & _ & _ & _ & _ & Hg)] Hs; [by rewrite (steps_generation _ _ _ H Hs)|]. rewrite <- (steps_generation _ _ _ H Hs).
  destruct (grants_generation _ _ _ _ Hg Hs) as [E|[->|[_ ->]]]; [|lia..]. by destruct (header_fields _ _ E) as (_ & -> & _).
Qed.
(** An endpoint that is open stays open or is dead. *)
Lemma open_event e m slot g : valid m → owned m → event_ok e → 0 <= slot < 16 → opened_as m slot g →
  opened_as (event_reference e m).2 slot g ∨ dead (event_reference e m).2 slot g.
Proof.
  intros Hv Ho He Hs [Ha Hg]. destruct e as [r|table]; cbn [event_reference event_ok] in *; [|by left].
  pose proof (moves_generation _ _ _ _ (request_moves r m Hv Ho He) Hs) as Hle. destruct (reference r m) as [a m']. cbn [snd] in *.
  unfold opened_as, dead. destruct (active (endpoint_at m' slot)); [|right; split; [lia|done]].
  destruct (decide (generation (endpoint_at m' slot) = g)); [by left|right; split; [lia|intros _; lia]].
Qed.
Lemma dead_not_open m slot g : dead m slot g → ¬ opened_as m slot g.
Proof. intros [_ Hd] [Ha Hg]. specialize (Hd Ha). lia. Qed.

(** What one sender put, and what was taken of it. *)
Definition from_sender (i : Z * Z) (l : list ipc_protected_message_t) : list ipc_protected_message_t := filter (λ v, identity v = i) l.

Lemma from_sender_app i l l' : from_sender i (l ++ l') = from_sender i l ++ from_sender i l'.
Proof. apply list.filter_app. Qed.
Lemma from_sender_nil i l : (∀ v, v ∈ l → identity v ≠ i) → from_sender i l = [].
Proof.
  intros Hl. unfold from_sender. destruct (filter (λ v, identity v = i) l) as [|v l'] eqn:E; [done|]. exfalso.
  assert (Hv : v ∈ filter (λ v, identity v = i) l) by (rewrite E; apply elem_of_cons; by left).
  apply list_elem_of_filter in Hv as [Hi Hv]. by apply (Hl v).
Qed.

Lemma from_sender_step slot r m m' i : queue_step slot r m m' → opened_as m' slot (generation (endpoint_at m slot)) →
  from_sender i (waiting m slot) ++ from_sender i (puts slot r m) = from_sender i (takes slot r m) ++ from_sender i (waiting m' slot).
Proof.
  intros Hq [Ha Hg]. destruct (Hq Ha Hg) as (before & after_ & E1 & E2 & Hne). rewrite <- from_sender_app, E1, E2, !from_sender_app.
  destruct (decide (Exists (λ v, identity v = i) (takes slot r m))) as [Hx|Hx].
  - apply list.Exists_exists in Hx as (v & Hv & <-). rewrite (from_sender_nil _ before); [done|]. intros w Hw. exact (Hne v w Hv Hw).
  - rewrite (from_sender_nil _ (takes slot r m)); [done|]. intros v Hv E. apply Hx, list.Exists_exists. by exists v.
Qed.

(** ** Runs *)
Section runs.
Context {O : Type} `{ProtectedStoreLaws O} `{!BlankStore O} `{!BlankLaws O}.

(** The messages the requests put into the queue of [slot] and took from it,
    by the answers the protected IPC gave. *)
Fixpoint messages_put (slot : Z) (events : list event) (s : ipc_t O) : list ipc_protected_message_t :=
match events with
| [] => []
| e :: events =>
  (match e with Request r => puts_of slot r (run (request_prog r) s).1 (memory s) | Table _ => [] end) ++
  messages_put slot events (event_run e s).2
end.
Fixpoint messages_taken (slot : Z) (events : list event) (s : ipc_t O) : list ipc_protected_message_t :=
match events with
| [] => []
| e :: events =>
  (match e with Request r => takes_of slot r (run (request_prog r) s).1 (memory s) | Table _ => [] end) ++
  messages_taken slot events (event_run e s).2
end.

Lemma event_delivers e (s : ipc_t O) slot g i : intact s 1 → owned (memory s) → event_ok e → 0 <= slot < 16 →
opened_as (memory s) slot g → opened_as (memory (event_run e s).2) slot g →
from_sender i (waiting (memory s) slot) ++ from_sender i (messages_put slot [e] s) =
from_sender i (messages_taken slot [e] s) ++ from_sender i (waiting (memory (event_run e s).2) slot).
Proof using All.
intros Hi Ho He Hs Hop Hop'. cbn [messages_put messages_taken]. rewrite !app_nil_r. destruct e as [r|table]; [|apply app_nil_r].
destruct (intact_request r s 0 Hi He) as (s' & E & Em & _); [done|]. cbn [event_run] in *. rewrite E in *. cbn [fst snd] in *. rewrite Em in *.
destruct Hop as [_ Hg]. apply (from_sender_step slot r (memory s)); [|by rewrite Hg].
by apply queue_step_request; [apply Hi|..].
Qed.

Lemma events_deliver events (s : ipc_t O) slot g i : intact s (Z.of_nat (length events)) → owned (memory s) → Forall event_ok events → 0 <= slot < 16 →
opened_as (memory s) slot g → opened_as (memory (events_run events s).2) slot g →
from_sender i (waiting (memory s) slot) ++ from_sender i (messages_put slot events s) =
from_sender i (messages_taken slot events s) ++ from_sender i (waiting (memory (events_run events s).2) slot).
Proof using All.
intros Hi Ho He Hs. revert s Hi Ho. induction He as [|e events He Hes IH]; intros s Hi Ho Hop Hend; [apply app_nil_r|].
cbn [length] in Hi. destruct (intact_event e s (Z.of_nat (length events))) as (_ & Em & Hi'); [|done|lia|].
{ replace (Z.of_nat (length events) + 1) with (Z.of_nat (S (length events))) by lia. done. }
pose proof (owned_event e (memory s) (proj1 Hi) Ho He) as Ho'. rewrite <- Em in Ho'.
assert (Hrun : (events_run (e :: events) s).2 = (events_run events (event_run e s).2).2).
{ cbn [events_run]. destruct (event_run e s) as [a s1]. cbn [snd]. by destruct (events_run events s1). }
rewrite Hrun in *. assert (Hop' : opened_as (memory (event_run e s).2) slot g).
{ destruct (open_event e (memory s) slot g (proj1 Hi) Ho He Hs Hop) as [Hd|Hd]; rewrite <- Em in Hd; [done|]. exfalso.
  apply (dead_events events) in Hd; [|apply Hi'|done|done|done]. destruct (intact_events events _ Hi' Hes) as (_ & E & _).
  rewrite <- E in Hd. by eapply dead_not_open. }
assert (Hi1 : intact s 1) by (eapply intact_less; [|exact Hi]; lia).
pose proof (event_delivers e s slot g i Hi1 Ho He Hs Hop Hop') as E1. pose proof (IH _ Hi' Ho' Hop' Hend) as E2.
cbn [messages_put messages_taken] in *. rewrite !app_nil_r in E1. rewrite !from_sender_app, app_assoc, E1, <- !app_assoc. by rewrite E2.
Qed.
End runs.

(** C7: As long as an endpoint stays open, what a sender's requests put into
    its queue is exactly what receives took of it, in the same order, followed
    by what still waits: no message of the sender is lost, made up, given
    twice or overtaken by another of the same sender. *)
Theorem ipc_delivers_in_order {O : Type} `{ProtectedStoreLaws O} `{!BlankStore O} `{!BlankLaws O} (s : ipc_t O) (events1 events2 : list event)
    (slot g : Z) (sender : Z * Z) (Hhistory : history (events1 ++ events2) s) (Hslot : 0 <= slot < 16)
    (Hopen : opened_as (memory (after events1 s)) slot g) (Hstill : opened_as (memory (after (events1 ++ events2) s)) slot g) :
  from_sender sender (waiting (memory (after events1 s)) slot) ++ from_sender sender (messages_put slot events2 (after events1 s)) =
  from_sender sender (messages_taken slot events2 (after events1 s)) ++ from_sender sender (waiting (memory (after (events1 ++ events2) s)) slot).
Proof.
  pose proof (history_room _ _ _ Hhistory) as Hi. destruct (after_facts _ _ (history_app _ _ _ Hhistory)) as (_ & Ho & _).
  rewrite after_app in *. apply (events_deliver events2 (after events1 s) slot g); try done.
  destruct Hhistory as (_ & He & _). by apply Forall_app in He as [_ He].
Qed.

Definition sample_traffic : list event :=
  [Request (Send 2 257 sample_message 0 0 0); Request (SendKernel 1 1 257 (Some sample_message)); Request (Receive 1 257 sample_buffer 0 0 0)].

Lemma ipc_delivers_in_order_witness :
  opened_as (memory (after sample_open sample_ipc)) 0 1 ∧ opened_as (memory (after (sample_open ++ sample_traffic) sample_ipc)) 0 1 ∧
  length (waiting (memory (after (sample_open ++ sample_traffic) sample_ipc)) 0) = 1%nat ∧
  from_sender (2, 1) (messages_put 0 sample_traffic (after sample_open sample_ipc)) =
  from_sender (2, 1) (messages_taken 0 sample_traffic (after sample_open sample_ipc)).
Proof.
  assert (He : Forall event_ok sample_traffic).
  { unfold sample_traffic. repeat (apply Forall_cons_2; [first [done|apply sample_message_in|left; apply sample_message_in]|]). apply Forall_nil_2. }
  assert (Hh1 : history sample_open sample_ipc) by (apply sample_history; [repeat constructor; done|reflexivity]).
  assert (Hh : history (sample_open ++ sample_traffic) sample_ipc).
  { apply sample_history; [|reflexivity]. apply Forall_app_2; [repeat constructor; done|exact He]. }
  assert (Ho : opened_as (memory (after sample_open sample_ipc)) 0 1) by (rewrite after_reference by done; split; vm_compute; reflexivity).
  assert (Ho' : opened_as (memory (after (sample_open ++ sample_traffic) sample_ipc)) 0 1)
    by (rewrite after_reference by done; split; vm_compute; reflexivity).
  pose proof (ipc_delivers_in_order sample_ipc sample_open sample_traffic 0 1 (2, 1) Hh ltac:(lia) Ho Ho') as E.
  assert (Hw : from_sender (2, 1) (waiting (memory (after sample_open sample_ipc)) 0) = []) by (rewrite after_reference by done; vm_compute; reflexivity).
  assert (Hw' : from_sender (2, 1) (waiting (memory (after (sample_open ++ sample_traffic) sample_ipc)) 0) = [])
    by (rewrite after_reference by done; vm_compute; reflexivity).
  split; [exact Ho|split; [exact Ho'|split; [rewrite after_reference by done; vm_compute; reflexivity|]]].
  rewrite Hw, Hw', app_nil_r in E. exact E.
Defined.

(** A message from inside the kernel is foreign to every process: a peer with
    the receive right takes it like the owner does. *)
Definition sample_kernel : list event :=
  [Request (Create 1 (Some 0)); Request (Delegate 1 257 2 IPC_RIGHT_RECEIVE); Request (SendKernel 1 1 257 (Some sample_message))].
Lemma ipc_kernel_message_reaches_peer :
  (event_run (Request (Receive 2 257 sample_buffer 0 0 0)) (after sample_kernel sample_ipc)).1 = Some (Message_ (Some 0) sample_message) ∧
  owner_pid (endpoint_at (memory (after sample_kernel sample_ipc)) 0) = 1.
Proof.
  assert (He : Forall event_ok (sample_kernel ++ [Request (Receive 2 257 sample_buffer 0 0 0)])).
  { unfold sample_kernel. cbn [app]. repeat (apply Forall_cons_2; [first [done|left; apply sample_message_in]|]). apply Forall_nil_2. }
  assert (Hh : history (sample_kernel ++ [Request (Receive 2 257 sample_buffer 0 0 0)]) sample_ipc) by (apply sample_history; [exact He|reflexivity]).
  pose proof (history_app _ _ _ Hh) as Hh1. rewrite event_answer, !after_reference by done. split; vm_compute; reflexivity.
Qed.
