(* ===== verification/RegisterStore.v ===== *)
(** The reference store: a version, a sequence number and the payload.

    It is the least a protected store can be; a client run on it shows what the
    client itself does, and it evaluates quickly. *)
From S2P Require Import Prelude ProtectedStore.
From S2P Require Import CriticalObject OwnedStore.

Record register_t := Register { g_version : Z; g_sequence : Z; g_payload : list Z }.

Definition register_empty : register_t := Register 0 0 [].

Definition register_usable (r : register_t) (version : Z) (validator : list Z → bool) : bool :=
  (g_version r =? version) && validator (g_payload r).

#[export] Instance register_store : ProtectedStore register_t := {
  ps_init r version payload := match payload with Some p => (0, Register version 1 p) | None => (-1, r) end;
  ps_update r version payload validator :=
    match payload with
    | Some p =>
      if register_usable r version validator && (g_sequence r <? UINT32_MAX) then (0, Register version (g_sequence r + 1) p) else (-1, r)
    | None => (-1, r)
    end;
  ps_read r version capacity validator :=
    if register_usable r version validator && (length (g_payload r) <=? capacity)%nat then (CRITICAL_READ_OK, r, g_payload r)
    else (CRITICAL_READ_UNCORRECTABLE, r, []);
  ps_typed r := True;
  ps_holds r version sequence payload := r = Register version sequence payload
}.

#[export] Instance register_laws : ProtectedStoreLaws register_t.
Proof.
  split; try done.
  - intros r version payload _ _ _. by exists (Register version 1 payload).
  - intros r version payload status r'. cbn. by destruct payload; intros [= <- <-].
  - intros r version sequence payload capacity validator -> _ Hv Hc. exists (Register version sequence payload). cbn.
    unfold register_usable. cbn. by rewrite Z.eqb_refl, Hv, (proj2 (Nat.leb_le _ _) Hc).
  - intros r version capacity validator result r' payload _ _. cbn. destruct (_ && _) eqn:E; intros [= <- <- <-]; [|done]. intros _.
    unfold register_usable in E. apply andb_true_iff in E as [[Hv ?]%andb_true_iff Hc%Nat.leb_le]. split; [done|]. split; [done|].
    exists (g_sequence r). apply Z.eqb_eq in Hv as <-. by destruct r.
  - intros r version capacity validator result r' payload. cbn. destruct (_ && _); by intros [= <- <- <-].
  - intros r version sequence payload payload' validator -> _ Hv _ Hs. exists (Register version (sequence + 1) payload'). cbn.
    unfold register_usable. cbn. by rewrite Z.eqb_refl, Hv, (proj2 (Z.ltb_lt _ _) Hs).
  - intros r version payload validator r' _ _ _. cbn. destruct (_ && _); intros [= <-]. by eexists.
  - intros r version payload validator status r'. cbn. destruct payload; [destruct (_ && _)|]; by intros [= <- <-].
Qed.

#[export] Instance register_owned : OwnedStore register_t := {
  os_lock _ := 0;
  os_pristine r := (g_version r =? 0) && (g_sequence r =? 0) && bool_decide (g_payload r = []);
  os_holds_unlocked _ _ _ _ _ := eq_refl
}.
