(* ===== verification/StorageRequestPool.v ===== *)
(** Storage request pool: src/kernel/init/storage_request_pool.c and
    src/include/kernel/storage_request_pool.h.

    [Module StorageRequestPool] holds every function of the C file but those
    for host tests.  A locked region is a [prog]: reads and writes of the
    critical objects and of the other statics ([mem]) in program order, with
    [Fail] for the error that ends it; [run] executes it.  The calls that copy
    a bulk payload give the lock up in the middle: they are a [_begin] region,
    the copy, and an [_end] region, so that other calls come in between.
    Pointers to slots are indices; an output is delivered only by a successful
    call (the zeros some calls leave on refusal are not modelled).  Signed
    process ids and results are kept as their 32-bit images.  The metadata has
    no padding on the i386 target. *)
From S2P Require Import Prelude ProtectedStore.
From S2P Require Import Crc32 Layout ProtectedRecord CriticalObject OwnedStore.

Module StorageRequestPool.

Definition STORAGE_POOL_METADATA_VERSION : Z := 1.
Definition STORAGE_HANDLE_SLOT_MASK : Z := 255.
Definition STORAGE_HANDLE_GENERATION_MAX : Z := 16777215.
Definition STORAGE_EAGAIN : Z := -11.
Definition STORAGE_EACCES : Z := -13.
Definition STORAGE_EINVAL : Z := -22.
Definition STORAGE_ENOSPC : Z := -28.
Definition STORAGE_EINTEGRITY : Z := -84.
Definition STORAGE_EMSGSIZE : Z := -90.
Definition STORAGE_ECANCELED : Z := -125.
(** The literals of the C code. *)
Definition deadline_passed : Z := -110.
Definition resource_fenced : Z := -5.
Definition resource_busy : Z := -16.

Definition STORAGE_SLOT_FREE : Z := 0.
Definition STORAGE_SLOT_QUEUED : Z := 1.
Definition STORAGE_SLOT_CLAIMED : Z := 2.
Definition STORAGE_SLOT_COMPLETE : Z := 3.
Definition STORAGE_SLOT_RETIRED : Z := 4.
Definition STORAGE_SLOT_CANCEL_PENDING : Z := 5.
Definition STORAGE_SLOT_INPUT_PENDING : Z := 6.
Definition STORAGE_SLOT_DELIVERING : Z := 7.
Definition STORAGE_SLOT_DELIVERY_CANCELLED : Z := 8.
Definition STORAGE_SLOT_DELIVERED : Z := 9.

Definition MUTATION_UNBOUND : Z := 0.
Definition MUTATION_BOUND : Z := 1.
Definition MUTATION_ATTEMPTED : Z := 2.
Definition MUTATION_FINISHED_NO_EFFECT : Z := 3.
Definition MUTATION_FINISHED_DURABLE : Z := 4.
Definition MUTATION_FINISHED_UNKNOWN : Z := 5.
Definition STORAGE_MUTATION_NO_EFFECT : Z := 1.
Definition STORAGE_MUTATION_DURABLE : Z := 2.
Definition STORAGE_MUTATION_UNKNOWN : Z := 3.

Definition STORAGE_BULK_FREE : Z := 0.
Definition STORAGE_BULK_RESERVED : Z := 1.
Definition STORAGE_BULK_WRITING : Z := 2.
Definition STORAGE_BULK_PUBLISHED : Z := 3.
Definition STORAGE_BULK_READING : Z := 4.
Definition STORAGE_BULK_REVOKED : Z := 5.
Definition STORAGE_BULK_CONSUMED : Z := 6.

Definition STORAGE_REQUEST_VERSION : Z := 1.
Definition STORAGE_REQUEST_DESCRIPTOR_V2_VERSION : Z := 2.
Definition STORAGE_REQUEST_DESCRIPTOR_V3_VERSION : Z := 3.
Definition STORAGE_REQUEST_POOL_CAPACITY : nat := 8.
Definition STORAGE_REQUEST_BLOCK_SIZE : Z := 512.
Definition STORAGE_REQUEST_MAX_PER_CLIENT : Z := 2.
Definition STORAGE_REQUEST_MAX_TIMEOUT_MS : Z := 60000.
Definition STORAGE_REQUEST_STATS_VERSION : Z := 1.
Definition STORAGE_REQUEST_BULK_CAPACITY : nat := 2.
Definition STORAGE_REQUEST_BULK_MAX_BYTES : Z := 128 * 1024.

Definition STORAGE_REQUEST_READ : Z := 1.
Definition STORAGE_REQUEST_BLOCK_READ : Z := 1.
Definition STORAGE_REQUEST_BLOCK_WRITE : Z := 2.
Definition STORAGE_REQUEST_BLOCK_FLUSH : Z := 3.
Definition STORAGE_REQUEST_VFS_READ : Z := 4.
Definition STORAGE_REQUEST_VFS_WRITE : Z := 5.
Definition STORAGE_REQUEST_VFS_SYNC : Z := 6.
Definition STORAGE_REQUEST_FORMAT_FAT12 : Z := 7.
Definition STORAGE_REQUEST_FORMAT_FAT32 : Z := 8.
Definition STORAGE_REQUEST_FORMAT_FAT32_SCAN : Z := 9.
Definition STORAGE_REQUEST_FORMAT_FAT32_PREPARE : Z := 10.
Definition STORAGE_REQUEST_CHECK_FAT12 : Z := 11.
Definition STORAGE_REQUEST_REPAIR_FAT12_MIRROR : Z := 12.
Definition STORAGE_REQUEST_REPAIR_FAT12_CHAINS : Z := 13.
Definition STORAGE_REQUEST_REPAIR_FAT12_SHORT_FILES : Z := 14.
Definition STORAGE_REQUEST_RECLAIM_FAT12_ORPHANS : Z := 15.
Definition STORAGE_REQUEST_REPAIR_FAT12_LOOPS : Z := 16.
Definition STORAGE_REQUEST_REPAIR_FAT12_DIRECTORY_LOOPS : Z := 17.
Definition STORAGE_REQUEST_REPAIR_FAT12_SHORT_LOOPS : Z := 18.
Definition STORAGE_REQUEST_REPAIR_FAT12_CROSSLINKS : Z := 19.
Definition STORAGE_REQUEST_REPAIR_FAT12_DIRECTORY_SIZE : Z := 20.
Definition STORAGE_REQUEST_REPAIR_FAT12_VOLUME_LABEL : Z := 21.
Definition STORAGE_REQUEST_REPAIR_FAT12_ZERO_FILES : Z := 22.
Definition STORAGE_REQUEST_REPAIR_FAT12_ZERO_START_FILES : Z := 23.
Definition STORAGE_REQUEST_REPAIR_FAT12_DOT_SIZE : Z := 24.
Definition STORAGE_REQUEST_REPAIR_FAT12_DOT_CLUSTER : Z := 25.
Definition STORAGE_REQUEST_REPAIR_FAT12_REQUIRED_CROSSLINKS : Z := 26.
Definition STORAGE_REQUEST_REPAIR_FAT12_DIRECTORY_CROSSLINKS : Z := 27.
Definition STORAGE_REQUEST_REPAIR_FAT12_DIRECTORY_TOPOLOGY : Z := 28.
Definition STORAGE_REQUEST_SALVAGE_FAT12_ORPHANS : Z := 29.
Definition STORAGE_REQUEST_RECORD_FAT12_BAD_SECTOR : Z := 30.
Definition STORAGE_REQUEST_VFS_SHADOW_STAT : Z := 31.
Definition STORAGE_REQUEST_VFS_BULK_READ : Z := 32.
Definition STORAGE_REQUEST_VFS_SYMLINK : Z := 33.
Definition STORAGE_REQUEST_VFS_NAMESPACE : Z := 34.
Definition STORAGE_REQUEST_VFS_OBJECT_MUTATE : Z := 35.

(** ** Data *)
Record storage_slot_metadata_t := Metadata {
  state : Z;
  generation : Z;
  operation : Z;
  client_pid : Z;
  client_generation : Z;
  service_pid : Z;
  service_generation : Z;
  resource : Z;
  offset : Z;
  length_ : Z;
  result : Z;
  deadline_ms : Z;
  mutation_resource_plus_one : Z;
  mutation_state : Z
}.

Record storage_service_identity_t := Identity { i_pid : Z; i_generation : Z }.
Record mutation_fences_t := Fences { fence_mask : Z }.

Record storage_data_copy_t := DataCopy { d_bytes : list Z; d_length : Z; d_crc32 : Z }.

Record storage_bulk_slot_t := Bulk {
  b_state : Z;
  request_handle : Z;
  b_length : Z;
  b_crc32 : Z;
  b_bytes : list Z
}.

Record storage_request_stats_t := Stats {
  s_version : Z;
  s_struct_size : Z;
  active_requests : Z;
  request_high_water : Z;
  client_capacity_rejections : Z;
  pool_capacity_rejections : Z
}.
Definition stats_size : Z := 24.

Record storage_request_submit_t := Submit {
  r_version : Z;
  r_struct_size : Z;
  r_operation : Z;
  r_resource : Z;
  r_offset : Z;
  r_length : Z;
  r_timeout_ms : Z
}.
Definition submit_size : Z := 28.

(** The three descriptors a claim can fill; the fields a version lacks are
    not there. *)
Inductive storage_request_descriptor :=
| Descriptor_v1 (handle operation resource offset length : Z)
| Descriptor_v2 (handle operation resource offset length client_pid client_generation service_generation : Z)
| Descriptor_v3 (handle operation resource offset length client_pid client_generation service_generation deadline_ms : Z).

#[export] Instance metadata_layout : Layout storage_slot_metadata_t := {
  layout_widths := [4; 4; 4; 4; 4; 4; 4; 4; 4; 4; 4; 8; 4; 4]%nat;
  layout_values m := [state m; generation m; operation m; client_pid m; client_generation m; service_pid m; service_generation m;
    resource m; offset m; length_ m; result m; deadline_ms m; mutation_resource_plus_one m; mutation_state m];
  layout_record l :=
    match l with
    | [a; b; c; d; e; f; g; h; i; j; k; m; n; o] => Metadata a b c d e f g h i j k m n o
    | _ => Metadata 0 0 0 0 0 0 0 0 0 0 0 0 0 0
    end
}.
#[export] Instance identity_layout : Layout storage_service_identity_t := {
  layout_widths := [4; 4]%nat;
  layout_values m := [i_pid m; i_generation m];
  layout_record l := match l with [a; b] => Identity a b | _ => Identity 0 0 end
}.
#[export] Instance fences_layout : Layout mutation_fences_t := {
  layout_widths := [4]%nat;
  layout_values m := [fence_mask m];
  layout_record l := match l with [a] => Fences a | _ => Fences 0 end
}.

(** The statics that are neither critical objects nor [mutation_poisoned]. *)
Record mem := Mem {
  primary : list storage_data_copy_t;
  shadow : list storage_data_copy_t;
  bulk_slots : list storage_bulk_slot_t;
  mutation_fences_initialized : bool;
  request_stats : storage_request_stats_t
}.

Definition zero_metadata : storage_slot_metadata_t := Metadata 0 0 0 0 0 0 0 0 0 0 0 0 0 0.
Definition zero_data : storage_data_copy_t := DataCopy (replicate 512 0) 0 0.
Definition zero_bulk : storage_bulk_slot_t := Bulk STORAGE_BULK_FREE 0 0 0 (replicate (Z.to_nat STORAGE_REQUEST_BULK_MAX_BYTES) 0).
Definition data_at (l : list storage_data_copy_t) (slot : nat) : storage_data_copy_t := nth slot l zero_data.
Definition bulk_at (m : mem) (index : nat) : storage_bulk_slot_t := nth index (bulk_slots m) zero_bulk.

Definition set_data (m : mem) (p s : list storage_data_copy_t) : mem :=
  Mem p s (bulk_slots m) (mutation_fences_initialized m) (request_stats m).
Definition set_bulk (m : mem) (index : nat) (b : storage_bulk_slot_t) : mem :=
  Mem (primary m) (shadow m) (<[index := b]> (bulk_slots m)) (mutation_fences_initialized m) (request_stats m).
Definition set_stats (m : mem) (s : storage_request_stats_t) : mem :=
  Mem (primary m) (shadow m) (bulk_slots m) (mutation_fences_initialized m) s.

Definition with_state (s : Z) (m : storage_slot_metadata_t) : storage_slot_metadata_t :=
  Metadata s (generation m) (operation m) (client_pid m) (client_generation m) (service_pid m) (service_generation m)
    (resource m) (offset m) (length_ m) (result m) (deadline_ms m) (mutation_resource_plus_one m) (mutation_state m).
Definition with_result (s r : Z) (m : storage_slot_metadata_t) : storage_slot_metadata_t :=
  Metadata s (generation m) (operation m) (client_pid m) (client_generation m) (service_pid m) (service_generation m)
    (resource m) (offset m) (length_ m) r (deadline_ms m) (mutation_resource_plus_one m) (mutation_state m).
Definition with_service (s p g : Z) (m : storage_slot_metadata_t) : storage_slot_metadata_t :=
  Metadata s (generation m) (operation m) (client_pid m) (client_generation m) p g
    (resource m) (offset m) (length_ m) (result m) (deadline_ms m) (mutation_resource_plus_one m) (mutation_state m).
Definition with_mutation (r s : Z) (m : storage_slot_metadata_t) : storage_slot_metadata_t :=
  Metadata (state m) (generation m) (operation m) (client_pid m) (client_generation m) (service_pid m) (service_generation m)
    (resource m) (offset m) (length_ m) (result m) (deadline_ms m) r s.
(** A metadata with only a state and a generation. *)
Definition blank (s g : Z) : storage_slot_metadata_t := Metadata s g 0 0 0 0 0 0 0 0 0 0 0 0.

(** ** Accounting *)
Definition increment_saturating (value : Z) : Z := if negb (value =? UINT32_MAX) then value + 1 else value.
Definition request_added (m : mem) : mem :=
  let s := request_stats m in
  let active := increment_saturating (active_requests s) in
  set_stats m (Stats (s_version s) (s_struct_size s) active (if request_high_water s <? active then active else request_high_water s)
    (client_capacity_rejections s) (pool_capacity_rejections s)).
Definition request_removed (m : mem) : mem :=
  let s := request_stats m in
  set_stats m (Stats (s_version s) (s_struct_size s)
    (if negb (active_requests s =? 0) then active_requests s - 1 else active_requests s) (request_high_water s)
    (client_capacity_rejections s) (pool_capacity_rejections s)).
Definition client_rejected (m : mem) : mem :=
  let s := request_stats m in
  set_stats m (Stats (s_version s) (s_struct_size s) (active_requests s) (request_high_water s)
    (increment_saturating (client_capacity_rejections s)) (pool_capacity_rejections s)).
Definition pool_rejected (m : mem) : mem :=
  let s := request_stats m in
  set_stats m (Stats (s_version s) (s_struct_size s) (active_requests s) (request_high_water s)
    (client_capacity_rejections s) (increment_saturating (pool_capacity_rejections s))).

(** ** Validation *)
(** The operations that both [metadata_valid] and [submit_locked] list: they
    carry no data. *)
Definition without_data : list Z :=
  [STORAGE_REQUEST_BLOCK_FLUSH; STORAGE_REQUEST_VFS_SYNC; STORAGE_REQUEST_FORMAT_FAT12; STORAGE_REQUEST_FORMAT_FAT32;
   STORAGE_REQUEST_FORMAT_FAT32_SCAN; STORAGE_REQUEST_FORMAT_FAT32_PREPARE; STORAGE_REQUEST_CHECK_FAT12;
   STORAGE_REQUEST_REPAIR_FAT12_MIRROR; STORAGE_REQUEST_REPAIR_FAT12_CHAINS; STORAGE_REQUEST_REPAIR_FAT12_SHORT_FILES;
   STORAGE_REQUEST_RECLAIM_FAT12_ORPHANS; STORAGE_REQUEST_REPAIR_FAT12_LOOPS; STORAGE_REQUEST_REPAIR_FAT12_DIRECTORY_LOOPS;
   STORAGE_REQUEST_REPAIR_FAT12_SHORT_LOOPS; STORAGE_REQUEST_REPAIR_FAT12_CROSSLINKS; STORAGE_REQUEST_REPAIR_FAT12_DIRECTORY_SIZE;
   STORAGE_REQUEST_REPAIR_FAT12_VOLUME_LABEL; STORAGE_REQUEST_REPAIR_FAT12_ZERO_FILES; STORAGE_REQUEST_REPAIR_FAT12_ZERO_START_FILES;
   STORAGE_REQUEST_REPAIR_FAT12_DOT_SIZE; STORAGE_REQUEST_REPAIR_FAT12_DOT_CLUSTER;
   STORAGE_REQUEST_REPAIR_FAT12_REQUIRED_CROSSLINKS; STORAGE_REQUEST_REPAIR_FAT12_DIRECTORY_CROSSLINKS;
   STORAGE_REQUEST_REPAIR_FAT12_DIRECTORY_TOPOLOGY; STORAGE_REQUEST_SALVAGE_FAT12_ORPHANS; STORAGE_REQUEST_RECORD_FAT12_BAD_SECTOR].
Definition is_without_data (operation : Z) : bool := existsb (Z.eqb operation) without_data.

Definition set_ (x : Z) : bool := negb (x =? 0).
Definition is_free (v : storage_slot_metadata_t) : bool := (state v =? STORAGE_SLOT_FREE) || (state v =? STORAGE_SLOT_RETIRED).

Definition metadata_ok (v : storage_slot_metadata_t) : bool :=
  if (STORAGE_SLOT_DELIVERED <? state v) || (STORAGE_HANDLE_GENERATION_MAX <? generation v) || (STORAGE_REQUEST_BLOCK_SIZE <? length_ v) then false
  else if (MUTATION_FINISHED_UNKNOWN <? mutation_state v) || (32 <? mutation_resource_plus_one v) ||
    negb (Bool.eqb (set_ (mutation_state v)) (set_ (mutation_resource_plus_one v))) then false
  else if set_ (mutation_state v) && (negb (operation v =? STORAGE_REQUEST_VFS_OBJECT_MUTATE) || (s32 (service_pid v) <=? 0) ||
    negb (set_ (service_generation v)) || (state v =? STORAGE_SLOT_QUEUED) || (state v =? STORAGE_SLOT_INPUT_PENDING)) then false
  else if (STORAGE_SLOT_DELIVERING <=? state v) && negb (operation v =? STORAGE_REQUEST_VFS_OBJECT_MUTATE) then false
  else if is_free v then
    (operation v =? 0) && (client_pid v =? 0) && (client_generation v =? 0) && (service_pid v =? 0) && (service_generation v =? 0) &&
    (resource v =? 0) && (offset v =? 0) && (length_ v =? 0) && (result v =? 0) && (deadline_ms v =? 0) && negb (set_ (mutation_state v))
  else if (generation v =? 0) || (s32 (client_pid v) <=? 0) || (client_generation v =? 0) || (deadline_ms v =? 0) ||
    (operation v <? STORAGE_REQUEST_READ) || (STORAGE_REQUEST_VFS_OBJECT_MUTATE <? operation v) then false
  else if ((state v =? STORAGE_SLOT_QUEUED) || (state v =? STORAGE_SLOT_INPUT_PENDING)) &&
    (set_ (service_pid v) || set_ (service_generation v)) then false
  else if (state v =? STORAGE_SLOT_INPUT_PENDING) &&
    (negb (operation v =? STORAGE_REQUEST_VFS_OBJECT_MUTATE) || negb (set_ (offset v))) then false
  else if (operation v =? STORAGE_REQUEST_VFS_OBJECT_MUTATE) &&
    (set_ (resource v) || negb (length_ v =? STORAGE_REQUEST_BLOCK_SIZE) || (STORAGE_REQUEST_BULK_MAX_BYTES <? offset v)) then false
  else if ((state v =? STORAGE_SLOT_CLAIMED) || (state v =? STORAGE_SLOT_CANCEL_PENDING)) &&
    ((s32 (service_pid v) <=? 0) || (service_generation v =? 0)) then false
  else if (state v =? STORAGE_SLOT_COMPLETE) &&
    negb (((service_pid v =? 0) && (service_generation v =? 0)) || ((0 <? s32 (service_pid v)) && set_ (service_generation v))) then false
  else if is_without_data (operation v) then length_ v =? 0
  else if (operation v =? STORAGE_REQUEST_BLOCK_READ) || (operation v =? STORAGE_REQUEST_BLOCK_WRITE) then length_ v =? STORAGE_REQUEST_BLOCK_SIZE
  else set_ (length_ v) && (length_ v <=? STORAGE_REQUEST_BLOCK_SIZE).

Definition identity_ok (v : storage_service_identity_t) : bool :=
  ((i_pid v =? 0) && (i_generation v =? 0)) || ((0 <? s32 (i_pid v)) && set_ (i_generation v)).
Definition fences_ok (v : mutation_fences_t) : bool := true.

Definition deadline_after (now_ms timeout_ms : Z) : Z := if UINT64_MAX - now_ms <? timeout_ms then UINT64_MAX else now_ms + timeout_ms.

Definition operation_has_input (operation : Z) : bool :=
  existsb (Z.eqb operation)
    [STORAGE_REQUEST_BLOCK_WRITE; STORAGE_REQUEST_VFS_WRITE; STORAGE_REQUEST_VFS_SHADOW_STAT; STORAGE_REQUEST_VFS_BULK_READ;
     STORAGE_REQUEST_VFS_SYMLINK; STORAGE_REQUEST_VFS_NAMESPACE; STORAGE_REQUEST_VFS_OBJECT_MUTATE].
Definition operation_has_output (operation : Z) : bool :=
  existsb (Z.eqb operation)
    [STORAGE_REQUEST_BLOCK_READ; STORAGE_REQUEST_VFS_READ; STORAGE_REQUEST_VFS_SHADOW_STAT; STORAGE_REQUEST_VFS_BULK_READ;
     STORAGE_REQUEST_VFS_SYMLINK; STORAGE_REQUEST_VFS_NAMESPACE; STORAGE_REQUEST_VFS_OBJECT_MUTATE].

(** ** Locked regions

    [Poisoned] tests [mutation_poisoned].  The accesses to a slot and to the
    fences set it to [UINT32_MAX] when they fail, as their callers in the C code
    do: [load_metadata], [store_metadata], [mutation_fences_read], and the two
    updates of the fences. *)
Inductive prog (A : Type) :=
| Ret (a : A)
| Fail (error : Z)
| Get (k : mem → prog A)
| Put (m : mem) (k : prog A)
| Poisoned (k : bool → prog A)
| ReadSlot (slot : nat) (k : option storage_slot_metadata_t → prog A)
| WriteSlot (slot : nat) (v : storage_slot_metadata_t) (k : bool → prog A)
| ReadService (k : option storage_service_identity_t → prog A)
| WriteService (v : storage_service_identity_t) (k : bool → prog A)
| ReadFences (k : option Z → prog A)
| WriteFences (mask : Z) (k : bool → prog A).
#[global] Arguments Ret {A}.
#[global] Arguments Fail {A}.
#[global] Arguments Get {A}.
#[global] Arguments Put {A}.
#[global] Arguments Poisoned {A}.
#[global] Arguments ReadSlot {A}.
#[global] Arguments WriteSlot {A}.
#[global] Arguments ReadService {A}.
#[global] Arguments WriteService {A}.
#[global] Arguments ReadFences {A}.
#[global] Arguments WriteFences {A}.

Fixpoint bind {A B} (p : prog A) (f : A → prog B) : prog B :=
  match p with
  | Ret a => f a
  | Fail e => Fail e
  | Get k => Get (λ m, bind (k m) f)
  | Put m k => Put m (bind k f)
  | Poisoned k => Poisoned (λ b, bind (k b) f)
  | ReadSlot i k => ReadSlot i (λ v, bind (k v) f)
  | WriteSlot i v k => WriteSlot i v (λ b, bind (k b) f)
  | ReadService k => ReadService (λ v, bind (k v) f)
  | WriteService v k => WriteService v (λ b, bind (k b) f)
  | ReadFences k => ReadFences (λ v, bind (k v) f)
  | WriteFences v k => WriteFences v (λ b, bind (k b) f)
  end.

(** The answer of a call whose error does not end the region. *)
Fixpoint attempt {A} (p : prog A) : prog (Z + A) :=
  match p with
  | Ret a => Ret (inr a)
  | Fail e => Ret (inl e)
  | Get k => Get (λ m, attempt (k m))
  | Put m k => Put m (attempt k)
  | Poisoned k => Poisoned (λ b, attempt (k b))
  | ReadSlot i k => ReadSlot i (λ v, attempt (k v))
  | WriteSlot i v k => WriteSlot i v (λ b, attempt (k b))
  | ReadService k => ReadService (λ v, attempt (k v))
  | WriteService v k => WriteService v (λ b, attempt (k b))
  | ReadFences k => ReadFences (λ v, attempt (k v))
  | WriteFences v k => WriteFences v (λ b, attempt (k b))
  end.

Declare Scope pool_scope.
Notation "x <- p ;; q" := (bind p (λ x, q)) (at level 100, p at next level, right associativity) : pool_scope.
Notation "p ;;; q" := (bind p (λ _, q)) (at level 100, right associativity) : pool_scope.
Local Open Scope pool_scope.

Definition get : prog mem := Get Ret.
Definition modify (f : mem → mem) : prog unit := Get (λ m, Put (f m) (Ret tt)).
Definition fail_if (condition : bool) (error : Z) : prog unit := if condition then Fail error else Ret tt.

Definition load_metadata (slot : nat) : prog storage_slot_metadata_t :=
  ReadSlot slot (λ v, match v with Some v => Ret v | None => Fail STORAGE_EINTEGRITY end).
Definition store_metadata (slot : nat) (v : storage_slot_metadata_t) : prog unit :=
  WriteSlot slot v (λ b, if b then Ret tt else Fail STORAGE_EINTEGRITY).

(** The answer and the mask. *)
Definition mutation_fences_read : prog (Z * Z) :=
  Poisoned (λ poisoned,
    if poisoned then Ret (STORAGE_EINTEGRITY, UINT32_MAX)
    else
      m <- get;;
      if negb (mutation_fences_initialized m) then Ret (0, 0)
      else ReadFences (λ mask, Ret (match mask with Some mask => (0, mask) | None => (STORAGE_EINTEGRITY, UINT32_MAX) end))).
(** The same in a chain of checks. *)
Definition fences : prog Z :=
  v <- mutation_fences_read;; if set_ v.1 then Fail v.1 else Ret v.2.

Definition may_have_effect (v : storage_slot_metadata_t) : bool :=
  (mutation_state v =? MUTATION_ATTEMPTED) || (mutation_state v =? MUTATION_FINISHED_DURABLE) || (mutation_state v =? MUTATION_FINISHED_UNKNOWN).

Definition mutation_fence_lost (v : storage_slot_metadata_t) : prog unit :=
  if negb (may_have_effect v) then Ret tt
  else
    mask <- fences;;
    let bit := Z.shiftl 1 (mutation_resource_plus_one v - 1) in
    if set_ (Z.land mask bit) then Ret tt
    else
      WriteFences (Z.lor mask bit) (λ b, if b then Ret tt else Fail STORAGE_EINTEGRITY).

Definition load_identity : prog storage_service_identity_t :=
  ReadService (λ v, match v with Some v => Ret v | None => Fail STORAGE_EINTEGRITY end).
Definition store_identity (v : storage_service_identity_t) : prog unit :=
  WriteService v (λ b, if b then Ret tt else Fail STORAGE_EINTEGRITY).

(** ** Data blocks *)
Definition data_crc (bytes : list Z) (length : Z) : Z := crc32 (take (Z.to_nat length) bytes).

Definition clear_data (slot : nat) (m : mem) : mem :=
  set_data m (<[slot := zero_data]> (primary m)) (<[slot := zero_data]> (shadow m)).
Definition data_copy (data : list Z) (length : Z) : storage_data_copy_t :=
  let bytes := bytes_copy (replicate 512 0) (take (Z.to_nat length) data) in DataCopy bytes length (data_crc bytes length).
Definition store_data (slot : nat) (data : list Z) (length : Z) (m : mem) : mem :=
  set_data m (<[slot := data_copy data length]> (primary m)) (<[slot := data_copy data length]> (shadow m)).

Definition copy_valid (copy : storage_data_copy_t) (expected : Z) : bool :=
  (d_length copy =? expected) && (d_crc32 copy =? data_crc (d_bytes copy) (d_length copy)).
(** The bytes that reach the caller. *)
Definition load_data (slot : nat) (expected : Z) : prog (list Z) :=
  m <- get;;
  let p := data_at (primary m) slot in let s := data_at (shadow m) slot in
  let primary_valid := copy_valid p expected in let shadow_valid := copy_valid s expected in
  if negb primary_valid && negb shadow_valid then Fail STORAGE_EINTEGRITY
  else
    let source := if primary_valid then p else s in
    modify (λ m, if negb primary_valid then set_data m (<[slot := s]> (primary m)) (shadow m) else m);;;
    modify (λ m, if negb shadow_valid then set_data m (primary m) (<[slot := data_at (primary m) slot]> (shadow m)) else m);;;
    Ret (take (Z.to_nat expected) (d_bytes source)).

(** ** Handles and slots *)
Definition make_handle (slot : nat) (generation_ : Z) : Z := Z.lor (u32 (Z.shiftl generation_ 8)) (u32 (Z.of_nat slot + 1)).

Definition pool_slots : list nat := seq 0 STORAGE_REQUEST_POOL_CAPACITY.
Definition all_bulk : list nat := seq 0 STORAGE_REQUEST_BULK_CAPACITY.

Definition bulk_named (m : mem) (handle : Z) (index : nat) : bool :=
  negb (b_state (bulk_at m index) =? STORAGE_BULK_FREE) && (request_handle (bulk_at m index) =? handle).
Definition bulk_find (handle : Z) (m : mem) : option nat := List.find (bulk_named m handle) all_bulk.

Definition with_bulk_state (s : Z) (b : storage_bulk_slot_t) : storage_bulk_slot_t := Bulk s (request_handle b) (b_length b) (b_crc32 b) (b_bytes b).
Definition bulk_reset (s handle : Z) (b : storage_bulk_slot_t) : storage_bulk_slot_t := Bulk s handle 0 0 (b_bytes b).
Definition bulk_is_free (m : mem) (index : nat) : bool := b_state (bulk_at m index) =? STORAGE_BULK_FREE.
Definition bulk_reserve (handle : Z) (m : mem) : option nat * mem :=
  match List.find (bulk_is_free m) all_bulk with
  | None => (None, m)
  | Some index => (Some index, set_bulk m index (bulk_reset STORAGE_BULK_RESERVED handle (bulk_at m index)))
  end.
Definition bulk_release (handle : Z) (m : mem) : mem :=
  match bulk_find handle m with
  | None => m
  | Some index =>
    let b := bulk_at m index in
    if (b_state b =? STORAGE_BULK_WRITING) || (b_state b =? STORAGE_BULK_READING) || (b_state b =? STORAGE_BULK_REVOKED)
    then set_bulk m index (with_bulk_state STORAGE_BULK_REVOKED b)
    else set_bulk m index (bulk_reset STORAGE_BULK_FREE 0 b)
  end.
Definition bulk_clear (index : nat) (m : mem) : mem := set_bulk m index (bulk_reset STORAGE_BULK_FREE 0 (bulk_at m index)).
Definition set_bulk_state (index : nat) (s : Z) (m : mem) : mem := set_bulk m index (with_bulk_state s (bulk_at m index)).

Definition resolve_handle (handle : Z) : prog (nat * storage_slot_metadata_t) :=
  let encoded_slot := Z.land handle STORAGE_HANDLE_SLOT_MASK in
  let generation_ := Z.shiftr handle 8 in
  if (encoded_slot =? 0) || (Z.of_nat STORAGE_REQUEST_POOL_CAPACITY <? encoded_slot) || (generation_ =? 0) then Fail STORAGE_EINVAL
  else
    let slot := Z.to_nat (encoded_slot - 1) in
    v <- load_metadata slot;;
    if negb (generation v =? generation_) || is_free v then Fail STORAGE_EINVAL else Ret (slot, v).

(** The metadata of a slot after its release. *)
Definition released (v : storage_slot_metadata_t) : storage_slot_metadata_t :=
  if generation v =? STORAGE_HANDLE_GENERATION_MAX then blank STORAGE_SLOT_RETIRED STORAGE_HANDLE_GENERATION_MAX
  else blank STORAGE_SLOT_FREE (u32 (generation v + 1)).

Definition release_slot (slot : nat) (v : storage_slot_metadata_t) : prog unit :=
  mutation_fence_lost v;;;
  modify (bulk_release (make_handle slot (generation v)));;;
  modify (clear_data slot);;;
  store_metadata slot (released v);;;
  modify request_removed.

(** ** Service identity *)
Definition storage_request_bind_service (pid generation_ : Z) : prog unit :=
  if (s32 pid <=? 0) || (generation_ =? 0) then Fail STORAGE_EINVAL
  else
    identity <- load_identity;;
    fail_if (set_ (i_pid identity) && (negb (i_pid identity =? pid) || negb (i_generation identity =? generation_))) STORAGE_EACCES;;;
    store_identity (Identity pid generation_).

(** What [cancel_process_locked] does to one slot; its failures stay there. *)
Definition cancel_slot (slot : nat) (pid generation_ : Z) : prog unit :=
  v <- load_metadata slot;;
  if (client_pid v =? pid) && (client_generation v =? generation_) || (service_pid v =? pid) && (service_generation v =? generation_) then
    if (state v =? STORAGE_SLOT_DELIVERING) || (state v =? STORAGE_SLOT_DELIVERY_CANCELLED) then
      mutation_fence_lost v;;; store_metadata slot (with_state STORAGE_SLOT_DELIVERY_CANCELLED v)
    else release_slot slot v
  else Ret tt.
Fixpoint cancel_loop (slots : list nat) (pid generation_ : Z) : prog unit :=
  match slots with
  | [] => Ret tt
  | slot :: slots => attempt (cancel_slot slot pid generation_);;; cancel_loop slots pid generation_
  end.
Definition storage_request_cancel_process (pid generation_ : Z) : prog unit :=
  if (s32 pid <=? 0) || (generation_ =? 0) then Ret tt else cancel_loop pool_slots pid generation_.

Definition storage_request_unbind_service (pid generation_ : Z) : prog unit :=
  identity <- attempt load_identity;;
  (match identity with
   | inr identity =>
     if (i_pid identity =? pid) && (i_generation identity =? generation_) then attempt (store_identity (Identity 0 0));;; Ret tt else Ret tt
   | inl _ => Ret tt
   end);;;
  storage_request_cancel_process pid generation_.

(** ** Submission *)
Definition client_has (v : storage_slot_metadata_t) (pid generation_ : Z) : bool :=
  negb (is_free v) && (client_pid v =? pid) && (client_generation v =? generation_).
Fixpoint count_loop (slots : list nat) (pid generation_ count : Z) : prog Z :=
  match slots with
  | [] => Ret count
  | slot :: slots =>
    v <- load_metadata slot;;
    count_loop slots pid generation_ (if client_has v pid generation_ then count + 1 else count)
  end.

Definition by_input (r : storage_request_submit_t) : bool :=
  (r_operation r =? STORAGE_REQUEST_VFS_OBJECT_MUTATE) && set_ (r_offset r).
Definition needs_bulk (r : storage_request_submit_t) : bool := (r_operation r =? STORAGE_REQUEST_VFS_BULK_READ) || by_input r.
Definition expected_length (r : storage_request_submit_t) : Z := if is_without_data (r_operation r) then 0 else r_length r.

Definition submitted (pid generation_ now_ms : Z) (r : storage_request_submit_t) (slot_generation : Z) : storage_slot_metadata_t :=
  Metadata (if by_input r then STORAGE_SLOT_INPUT_PENDING else STORAGE_SLOT_QUEUED) slot_generation (r_operation r) pid generation_ 0 0
    (r_resource r) (r_offset r) (expected_length r) 0 (deadline_after now_ms (r_timeout_ms r)) 0 0.

Definition is_frame (operation : Z) : bool :=
  existsb (Z.eqb operation)
    [STORAGE_REQUEST_VFS_SHADOW_STAT; STORAGE_REQUEST_VFS_BULK_READ; STORAGE_REQUEST_VFS_SYMLINK; STORAGE_REQUEST_VFS_NAMESPACE;
     STORAGE_REQUEST_VFS_OBJECT_MUTATE].

(** The checks before the first slot is read; 0 goes on. *)
Definition submit_checks (pid generation_ : Z) (r : storage_request_submit_t) (block_data : option (list Z)) (handle_out : bool) : Z :=
  if (s32 pid <=? 0) || (generation_ =? 0) || negb handle_out || negb (r_version r =? STORAGE_REQUEST_VERSION) ||
    (r_struct_size r <? submit_size) || (r_operation r <? STORAGE_REQUEST_READ) ||
    (STORAGE_REQUEST_VFS_OBJECT_MUTATE <? r_operation r) || (r_timeout_ms r =? 0) || (STORAGE_REQUEST_MAX_TIMEOUT_MS <? r_timeout_ms r)
  then STORAGE_EINVAL
  else if ((r_operation r =? STORAGE_REQUEST_BLOCK_READ) || (r_operation r =? STORAGE_REQUEST_BLOCK_WRITE)) &&
    negb (r_length r =? STORAGE_REQUEST_BLOCK_SIZE) then STORAGE_EMSGSIZE
  else if ((r_operation r =? STORAGE_REQUEST_VFS_READ) || (r_operation r =? STORAGE_REQUEST_VFS_WRITE)) &&
    ((r_length r =? 0) || (STORAGE_REQUEST_BLOCK_SIZE <? r_length r)) then STORAGE_EMSGSIZE
  else if is_frame (r_operation r) && negb (r_length r =? STORAGE_REQUEST_BLOCK_SIZE) then STORAGE_EMSGSIZE
  else if (r_operation r =? STORAGE_REQUEST_VFS_OBJECT_MUTATE) &&
    (negb (r_struct_size r =? submit_size) || set_ (r_resource r) || (STORAGE_REQUEST_BULK_MAX_BYTES <? r_offset r)) then STORAGE_EINVAL
  else if ((r_operation r =? STORAGE_REQUEST_VFS_SYMLINK) || (r_operation r =? STORAGE_REQUEST_VFS_NAMESPACE)) &&
    (set_ (r_resource r) || set_ (r_offset r)) then STORAGE_EINVAL
  else if negb (r_length r =? expected_length r) then STORAGE_EMSGSIZE
  else if operation_has_input (r_operation r) && negb (bool_decide (is_Some block_data)) then STORAGE_EINVAL
  else 0.

Definition submit_data (r : storage_request_submit_t) (block_data : option (list Z)) (slot : nat) (m : mem) : mem :=
  if operation_has_input (r_operation r) then store_data slot (default [] block_data) (expected_length r) m else store_data slot [] 0 m.

Fixpoint submit_loop (slots : list nat) (pid generation_ : Z) (r : storage_request_submit_t) (block_data : option (list Z))
    (now_ms : Z) : prog Z :=
  match slots with
  | [] => modify pool_rejected;;; Fail STORAGE_ENOSPC
  | slot :: slots =>
    v <- load_metadata slot;;
    if negb (state v =? STORAGE_SLOT_FREE) then submit_loop slots pid generation_ r block_data now_ms
    else if generation v =? STORAGE_HANDLE_GENERATION_MAX then
      store_metadata slot (blank STORAGE_SLOT_RETIRED STORAGE_HANDLE_GENERATION_MAX);;;
      submit_loop slots pid generation_ r block_data now_ms
    else
      let generation' := u32 (generation v + 1) in
      modify (submit_data r block_data slot);;;
      stored <- attempt (store_metadata slot (submitted pid generation_ now_ms r generation'));;
      match stored with
      | inl error => modify (clear_data slot);;; Fail error
      | inr _ =>
        let handle := make_handle slot generation' in
        m <- get;;
        reserved <- (if needs_bulk r then modify (λ m, (bulk_reserve handle m).2);;; Ret (bool_decide (is_Some (bulk_reserve handle m).1))
                     else Ret true);;
        if negb reserved then
          modify (clear_data slot);;;
          attempt (store_metadata slot (blank STORAGE_SLOT_FREE (u32 (generation' + 1))));;;
          modify pool_rejected;;; Fail STORAGE_ENOSPC
        else modify request_added;;; Ret handle
      end
  end.

(** [request] and [block_data] are [None] for NULL. *)
Definition storage_request_submit (pid generation_ : Z) (request : option storage_request_submit_t) (block_data : option (list Z))
    (now_ms : Z) (handle_out : bool) : prog Z :=
  match request with
  | None => Fail STORAGE_EINVAL
  | Some r =>
    let error := submit_checks pid generation_ r block_data handle_out in
    fail_if (set_ error) error;;;
    client_requests <- count_loop pool_slots pid generation_ 0;;
    if STORAGE_REQUEST_MAX_PER_CLIENT <=? client_requests then modify client_rejected;;; Fail STORAGE_ENOSPC
    else
      m <- get;;
      if needs_bulk r && negb (existsb (bulk_is_free m) all_bulk) then modify pool_rejected;;; Fail STORAGE_ENOSPC
      else submit_loop pool_slots pid generation_ r block_data now_ms
  end.

(** ** Claim and completion *)
Definition descriptor (v2 v3 : bool) (slot : nat) (v : storage_slot_metadata_t) : storage_request_descriptor :=
  let handle := make_handle slot (generation v) in
  if v3 then Descriptor_v3 handle (operation v) (resource v) (offset v) (length_ v) (client_pid v) (client_generation v)
    (service_generation v) (deadline_ms v)
  else if v2 then Descriptor_v2 handle (operation v) (resource v) (offset v) (length_ v) (client_pid v) (client_generation v) (service_generation v)
  else Descriptor_v1 handle (operation v) (resource v) (offset v) (length_ v).

(** The descriptor and the bytes left in the caller's block. *)
Fixpoint claim_loop (slots : list nat) (pid generation_ now_ms : Z) (v2 v3 : bool) : prog (storage_request_descriptor * list Z) :=
  match slots with
  | [] => Fail STORAGE_EAGAIN
  | slot :: slots =>
    v <- load_metadata slot;;
    if negb (state v =? STORAGE_SLOT_QUEUED) && negb (state v =? STORAGE_SLOT_INPUT_PENDING) then claim_loop slots pid generation_ now_ms v2 v3
    else if deadline_ms v <=? now_ms then
      store_metadata slot (with_result STORAGE_SLOT_COMPLETE (u32 deadline_passed) v);;;
      claim_loop slots pid generation_ now_ms v2 v3
    else if state v =? STORAGE_SLOT_INPUT_PENDING then claim_loop slots pid generation_ now_ms v2 v3
    else if (operation v =? STORAGE_REQUEST_VFS_OBJECT_MUTATE) && negb v3 then claim_loop slots pid generation_ now_ms v2 v3
    else
      data <- (if operation_has_input (operation v) then load_data slot (length_ v) else Ret []);;
      let v := with_service STORAGE_SLOT_CLAIMED pid generation_ v in
      store_metadata slot v;;;
      Ret (descriptor v2 v3 slot v, data)
  end.

(** [v1], [v2], [v3]: which of the three out pointers is not NULL. *)
Definition claim_locked (pid generation_ now_ms : Z) (v1 v2 v3 : bool) : prog (storage_request_descriptor * list Z) :=
  if negb (Z.b2z v1 + Z.b2z v2 + Z.b2z v3 =? 1) then Fail STORAGE_EINVAL
  else
    identity <- load_identity;;
    fail_if (negb (i_pid identity =? pid) || negb (i_generation identity =? generation_)) STORAGE_EACCES;;;
    claim_loop pool_slots pid generation_ now_ms v2 v3.
Definition storage_request_claim (pid generation_ now_ms : Z) (out : bool) := claim_locked pid generation_ now_ms out false false.
Definition storage_request_claim_v2 (pid generation_ now_ms : Z) (out : bool) := claim_locked pid generation_ now_ms false out false.
Definition storage_request_claim_v3 (pid generation_ now_ms : Z) (out : bool) := claim_locked pid generation_ now_ms false false out.

Definition is_mutation (v : storage_slot_metadata_t) : bool := operation v =? STORAGE_REQUEST_VFS_OBJECT_MUTATE.
Definition served_by (v : storage_slot_metadata_t) (pid generation_ : Z) : bool :=
  (service_pid v =? pid) && (service_generation v =? generation_).
Definition asked_by (v : storage_slot_metadata_t) (pid generation_ : Z) : bool := (client_pid v =? pid) && (client_generation v =? generation_).
Definition in_service (v : storage_slot_metadata_t) (pid generation_ : Z) : bool :=
  ((state v =? STORAGE_SLOT_CLAIMED) || (state v =? STORAGE_SLOT_CANCEL_PENDING)) && served_by v pid generation_.

Definition storage_request_complete (pid generation_ handle result_code : Z) (block_data : option (list Z)) : prog unit :=
  sv <- resolve_handle handle;;
  let '(slot, v) := sv in
  if negb (in_service v pid generation_) then Fail STORAGE_EACCES
  else if state v =? STORAGE_SLOT_CANCEL_PENDING then release_slot slot v
  else
    v <- (if is_mutation v && ((mutation_state v =? MUTATION_BOUND) || (mutation_state v =? MUTATION_ATTEMPTED)) then
            if result_code =? 0 then Fail STORAGE_EAGAIN
            else
              mutation_fence_lost v;;;
              Ret (with_mutation (mutation_resource_plus_one v)
                (if mutation_state v =? MUTATION_BOUND then MUTATION_FINISHED_NO_EFFECT else MUTATION_FINISHED_UNKNOWN) v)
          else Ret v);;
    (if is_mutation v && set_ result_code then mutation_fence_lost v else Ret tt);;;
    m <- get;;
    fail_if ((result_code =? 0) && (operation v =? STORAGE_REQUEST_VFS_BULK_READ) &&
      negb (match bulk_find handle m with Some index => b_state (bulk_at m index) =? STORAGE_BULK_PUBLISHED | None => false end)) STORAGE_EINVAL;;;
    (if set_ result_code && (operation v =? STORAGE_REQUEST_VFS_BULK_READ) then modify (bulk_release handle) else Ret tt);;;
    (if (result_code =? 0) && operation_has_output (operation v) then
       match block_data with
       | None => Fail STORAGE_EINVAL
       | Some data => modify (store_data slot data (length_ v))
       end
     else Ret tt);;;
    store_metadata slot (with_result STORAGE_SLOT_COMPLETE result_code v).

Definition storage_request_completion_context (pid generation_ handle : Z) (out : bool) : prog (Z * Z) :=
  if negb out then Fail STORAGE_EINVAL
  else
    sv <- resolve_handle handle;;
    let '(_, v) := sv in
    if negb (in_service v pid generation_) then Fail STORAGE_EACCES else Ret (operation v, resource v).

(** The result, the bytes, and how many; [out] and [data_out] say which
    pointers are not NULL. *)
Definition storage_request_collect_ex (pid generation_ handle : Z) (out data_out : bool) : prog (Z * list Z * Z) :=
  if negb out then Fail STORAGE_EINVAL
  else
    sv <- resolve_handle handle;;
    let '(slot, v) := sv in
    if negb (asked_by v pid generation_) then Fail STORAGE_EACCES
    else if is_mutation v then Fail STORAGE_EINVAL
    else if state v =? STORAGE_SLOT_CANCEL_PENDING then Fail STORAGE_ECANCELED
    else if negb (state v =? STORAGE_SLOT_COMPLETE) then Fail STORAGE_EAGAIN
    else if operation v =? STORAGE_REQUEST_VFS_BULK_READ then Fail STORAGE_EINVAL
    else
      data <- (if (result v =? 0) && operation_has_output (operation v) then
                 if negb data_out then Fail STORAGE_EINVAL else load_data slot (length_ v)
               else Ret []);;
      release_slot slot v;;;
      Ret (result v, data, if (result v =? 0) && operation_has_output (operation v) then length_ v else 0).
Definition storage_request_collect (pid generation_ handle : Z) (out data_out : bool) : prog (Z * list Z) :=
  r <- storage_request_collect_ex pid generation_ handle out data_out;; Ret r.1.

Definition storage_request_cancel (pid generation_ handle : Z) : prog unit :=
  if (s32 pid <=? 0) || (generation_ =? 0) then Fail STORAGE_EINVAL
  else
    sv <- resolve_handle handle;;
    let '(slot, v) := sv in
    if negb (asked_by v pid generation_) then Fail STORAGE_EACCES
    else
      mutation_fence_lost v;;;
      if state v =? STORAGE_SLOT_DELIVERY_CANCELLED then Ret tt
      else if state v =? STORAGE_SLOT_DELIVERING then store_metadata slot (with_state STORAGE_SLOT_DELIVERY_CANCELLED v)
      else if state v =? STORAGE_SLOT_CANCEL_PENDING then Ret tt
      else if (state v =? STORAGE_SLOT_QUEUED) || (state v =? STORAGE_SLOT_INPUT_PENDING) || (state v =? STORAGE_SLOT_COMPLETE) ||
        (state v =? STORAGE_SLOT_DELIVERED) then release_slot slot v
      else if negb (state v =? STORAGE_SLOT_CLAIMED) then Fail STORAGE_EINVAL
      else store_metadata slot (with_state STORAGE_SLOT_CANCEL_PENDING v).

(** ** Mutations *)
Definition mutation_claimed_locked (pid generation_ handle now_ms : Z) : prog (nat * storage_slot_metadata_t) :=
  identity <- load_identity;;
  fail_if ((s32 pid <=? 0) || (generation_ =? 0) || negb (i_pid identity =? pid) || negb (i_generation identity =? generation_)) STORAGE_EACCES;;;
  sv <- resolve_handle handle;;
  let '(slot, v) := sv in
  fail_if (negb (is_mutation v) || negb (served_by v pid generation_)) STORAGE_EACCES;;;
  fail_if (state v =? STORAGE_SLOT_CANCEL_PENDING) STORAGE_ECANCELED;;;
  fail_if (negb (state v =? STORAGE_SLOT_CLAIMED)) STORAGE_EACCES;;;
  fail_if (deadline_ms v <=? now_ms) deadline_passed;;;
  Ret (slot, v).

(** The bulk input of a request was taken in full. *)
Definition input_consumed (handle : Z) (v : storage_slot_metadata_t) (m : mem) : bool :=
  match bulk_find handle m with
  | Some index => (b_state (bulk_at m index) =? STORAGE_BULK_CONSUMED) && (b_length (bulk_at m index) =? offset v)
  | None => false
  end.
Definition input_required (handle : Z) (v : storage_slot_metadata_t) : prog unit :=
  m <- get;; fail_if (set_ (offset v) && negb (input_consumed handle v m)) STORAGE_EAGAIN.

Definition storage_request_mutation_context (pid generation_ handle now_ms : Z) (out : bool) : prog storage_request_descriptor :=
  if negb out then Fail STORAGE_EINVAL
  else
    sv <- mutation_claimed_locked pid generation_ handle now_ms;;
    let '(_, v) := sv in
    input_required handle v;;;
    Ret (Descriptor_v3 handle (operation v) (resource v) (offset v) (length_ v) (client_pid v) (client_generation v) (service_generation v)
      (deadline_ms v)).

Definition resource_bit (r : Z) : Z := Z.shiftl 1 r.
Definition not_fenced (r : Z) : prog unit := mask <- fences;; fail_if (set_ (Z.land mask (resource_bit r))) resource_fenced.

Definition storage_request_mutation_bind (pid generation_ handle r now_ms : Z) : prog unit :=
  if 32 <=? r then Fail STORAGE_EINVAL
  else
    sv <- mutation_claimed_locked pid generation_ handle now_ms;;
    let '(slot, v) := sv in
    not_fenced r;;;
    fail_if (negb (mutation_state v =? MUTATION_UNBOUND)) STORAGE_EACCES;;;
    input_required handle v;;;
    store_metadata slot (with_mutation (r + 1) MUTATION_BOUND v).

Definition open_on (v : storage_slot_metadata_t) (r : Z) : bool :=
  (mutation_resource_plus_one v =? r + 1) && ((mutation_state v =? MUTATION_BOUND) || (mutation_state v =? MUTATION_ATTEMPTED)).

Definition mutation_io (pid generation_ handle r now_ms : Z) (effect : bool) : prog unit :=
  if 32 <=? r then Fail STORAGE_EINVAL
  else
    sv <- mutation_claimed_locked pid generation_ handle now_ms;;
    let '(slot, v) := sv in
    not_fenced r;;;
    fail_if (negb (open_on v r)) STORAGE_EACCES;;;
    if effect && negb (mutation_state v =? MUTATION_ATTEMPTED) then
      store_metadata slot (with_mutation (mutation_resource_plus_one v) MUTATION_ATTEMPTED v)
    else Ret tt.
Definition storage_request_mutation_effect (pid generation_ handle r now_ms : Z) := mutation_io pid generation_ handle r now_ms true.
Definition storage_request_mutation_authorized (pid generation_ handle r now_ms : Z) := mutation_io pid generation_ handle r now_ms false.

Definition finished (outcome : Z) : Z :=
  if outcome =? STORAGE_MUTATION_NO_EFFECT then MUTATION_FINISHED_NO_EFFECT
  else if outcome =? STORAGE_MUTATION_DURABLE then MUTATION_FINISHED_DURABLE else MUTATION_FINISHED_UNKNOWN.
Definition storage_request_mutation_finish (pid generation_ handle r outcome now_ms : Z) : prog unit :=
  if (32 <=? r) || (outcome <? STORAGE_MUTATION_NO_EFFECT) || (STORAGE_MUTATION_UNKNOWN <? outcome) then Fail STORAGE_EINVAL
  else
    sv <- mutation_claimed_locked pid generation_ handle now_ms;;
    let '(slot, v) := sv in
    fail_if (negb (open_on v r) || ((outcome =? STORAGE_MUTATION_NO_EFFECT) && (mutation_state v =? MUTATION_ATTEMPTED))) STORAGE_EACCES;;;
    let v := with_mutation (mutation_resource_plus_one v) (finished outcome) v in
    (if outcome =? STORAGE_MUTATION_UNKNOWN then mutation_fence_lost v else Ret tt);;;
    store_metadata slot v.

(** One slot of the deadline sweep; [false] ends it. *)
Definition sweep_slot (slot : nat) (now_ms : Z) : prog unit :=
  v <- load_metadata slot;;
  if set_ (deadline_ms v) && (deadline_ms v <=? now_ms) then mutation_fence_lost v else Ret tt.
Fixpoint sweep_loop (slots : list nat) (now_ms : Z) : prog unit :=
  match slots with
  | [] => Ret tt
  | slot :: slots => sweep_slot slot now_ms;;; sweep_loop slots now_ms
  end.
(** The answer and the mask; the mask is all ones with an error. *)
Definition storage_request_mutation_fences (now_ms : Z) (out : bool) : prog (Z * Z) :=
  if negb out then Fail STORAGE_EINVAL
  else
    m <- get;;
    (if mutation_fences_initialized m && set_ now_ms then attempt (sweep_loop pool_slots now_ms);;; Ret tt else Ret tt);;;
    mutation_fences_read.

Fixpoint retained_loop (slots : list nat) (r : Z) : prog unit :=
  match slots with
  | [] => Ret tt
  | slot :: slots =>
    v <- load_metadata slot;;
    fail_if (mutation_resource_plus_one v =? r + 1) resource_busy;;;
    retained_loop slots r
  end.
Definition mutation_recovery (pid generation_ r : Z) (clear : bool) : prog unit :=
  if (32 <=? r) || (s32 pid <=? 0) || (generation_ =? 0) then Fail STORAGE_EINVAL
  else
    mask <- fences;;
    m <- get;;
    fail_if (negb (mutation_fences_initialized m)) STORAGE_EACCES;;;
    identity <- load_identity;;
    fail_if (negb (i_pid identity =? pid) || negb (i_generation identity =? generation_)) STORAGE_EACCES;;;
    retained_loop pool_slots r;;;
    if clear && set_ (Z.land mask (resource_bit r)) then
      WriteFences (Z.land mask (Z.lxor UINT32_MAX (resource_bit r)))
        (λ b, if b then Ret tt else Fail STORAGE_EINTEGRITY)
    else Ret tt.
Definition storage_request_recovery_ready (pid generation_ r : Z) := mutation_recovery pid generation_ r false.
Definition storage_request_recovery_clear (pid generation_ r : Z) := mutation_recovery pid generation_ r true.
Definition storage_request_recovery_refence (r : Z) : prog unit :=
  if 32 <=? r then Fail STORAGE_EINVAL else mutation_fence_lost (with_mutation (r + 1) MUTATION_FINISHED_UNKNOWN zero_metadata).

(** ** Replies of mutations *)
Definition mutation_client_locked (pid generation_ handle : Z) : prog (nat * storage_slot_metadata_t) :=
  sv <- resolve_handle handle;;
  fail_if (negb (asked_by sv.2 pid generation_)) STORAGE_EACCES;;;
  fail_if (negb (is_mutation sv.2)) STORAGE_EINVAL;;;
  Ret sv.

(** The result and the frame. *)
Definition storage_request_mutation_reply_begin (pid generation_ handle now_ms : Z) (out : bool) : prog (Z * list Z) :=
  if negb out then Fail STORAGE_EINVAL
  else
    sv <- mutation_client_locked pid generation_ handle;;
    let '(slot, v) := sv in
    fail_if (negb (state v =? STORAGE_SLOT_COMPLETE)) STORAGE_EAGAIN;;;
    (if deadline_ms v <=? now_ms then release_slot slot v;;; Fail deadline_passed else Ret tt);;;
    frame <- (if result v =? 0 then
                loaded <- attempt (load_data slot (length_ v));;
                match loaded with
                | inl error => attempt (mutation_fence_lost v);;; Fail error
                | inr data => Ret data
                end
              else Ret (replicate 512 0));;
    store_metadata slot (with_state STORAGE_SLOT_DELIVERING v);;;
    Ret (result v, frame).

Definition storage_request_mutation_reply_end (pid generation_ handle : Z) (copied : bool) (now_ms : Z) : prog unit :=
  sv <- mutation_client_locked pid generation_ handle;;
  let '(slot, v) := sv in
  fail_if (negb (state v =? STORAGE_SLOT_DELIVERING) && negb (state v =? STORAGE_SLOT_DELIVERY_CANCELLED)) STORAGE_EACCES;;;
  let cancelled := state v =? STORAGE_SLOT_DELIVERY_CANCELLED in
  let expired := deadline_ms v <=? now_ms in
  if negb copied || cancelled || expired then
    release_slot slot v;;;
    if cancelled then Fail STORAGE_ECANCELED else if expired then Fail deadline_passed else Ret tt
  else store_metadata slot (with_state STORAGE_SLOT_DELIVERED v).

Definition storage_request_mutation_reply_ack (pid generation_ handle now_ms : Z) : prog unit :=
  sv <- mutation_client_locked pid generation_ handle;;
  let '(slot, v) := sv in
  fail_if (negb (state v =? STORAGE_SLOT_DELIVERED)) STORAGE_EACCES;;;
  let expired := deadline_ms v <=? now_ms in
  release_slot slot (if negb expired then with_mutation 0 MUTATION_UNBOUND v else v);;;
  if expired then Fail deadline_passed else Ret tt.

Definition storage_request_stats (out : bool) : prog storage_request_stats_t :=
  if negb out then Fail STORAGE_EINVAL else m <- get;; Ret (request_stats m).

(** ** Bulk transfers

    A [ticket] is what a call that copies a payload remembers between its two
    locked regions: which call it is, the bulk slot it points to, and what the
    copy has produced. *)
Inductive bulk_call :=
| InputPublish (pid generation : Z)
| InputTake (pid generation now_ms : Z)
| BulkPublish
| BulkCollect (slot : nat) (metadata : storage_slot_metadata_t) (frame : list Z).

Record ticket := Ticket {
  t_call : bulk_call;
  t_handle : Z;
  t_index : nat;
  t_length : Z;
  t_crc : Z;
  t_data : list Z;
  t_copied : bool
}.

Definition bulk_in_state (m : mem) (index : option nat) (s : Z) : bool :=
  match index with Some index => b_state (bulk_at m index) =? s | None => false end.

(** The four first regions; [data] is [None] for NULL. *)
Definition input_publish_begin (pid generation_ handle : Z) (data : option (list Z)) (length now_ms : Z) : prog ticket :=
  if (s32 pid <=? 0) || (generation_ =? 0) || negb (bool_decide (is_Some data)) || (length =? 0) || (STORAGE_REQUEST_BULK_MAX_BYTES <? length)
  then Fail STORAGE_EINVAL
  else
    sv <- resolve_handle handle;;
    m <- get;;
    let bulk := bulk_find handle m in
    fail_if (negb (asked_by sv.2 pid generation_) || negb (is_mutation sv.2)) STORAGE_EACCES;;;
    fail_if (negb (offset sv.2 =? length)) STORAGE_EMSGSIZE;;;
    fail_if (deadline_ms sv.2 <=? now_ms) deadline_passed;;;
    fail_if (negb (state sv.2 =? STORAGE_SLOT_INPUT_PENDING) || negb (bulk_in_state m bulk STORAGE_BULK_RESERVED)) STORAGE_EINVAL;;;
    let index := default O bulk in
    modify (set_bulk_state index STORAGE_BULK_WRITING);;;
    Ret (Ticket (InputPublish pid generation_) handle index length 0 (default [] data) false).

Definition input_take_begin (pid generation_ handle capacity now_ms : Z) (out data_out : bool) : prog ticket :=
  if negb out || negb data_out || (capacity =? 0) || (STORAGE_REQUEST_BULK_MAX_BYTES <? capacity) then Fail STORAGE_EINVAL
  else
    sv <- mutation_claimed_locked pid generation_ handle now_ms;;
    m <- get;;
    let bulk := bulk_find handle m in
    let index := default O bulk in
    let b := bulk_at m index in
    fail_if (negb (bulk_in_state m bulk STORAGE_BULK_PUBLISHED)) STORAGE_EINVAL;;;
    fail_if ((b_length b =? 0) || negb (b_length b =? offset sv.2) || (STORAGE_REQUEST_BULK_MAX_BYTES <? b_length b)) STORAGE_EINTEGRITY;;;
    fail_if (capacity <? b_length b) STORAGE_EMSGSIZE;;;
    modify (set_bulk_state index STORAGE_BULK_READING);;;
    Ret (Ticket (InputTake pid generation_ now_ms) handle index (b_length b) (b_crc32 b) [] false).

Definition bulk_publish_begin (pid generation_ handle : Z) (data : option (list Z)) (length : Z) : prog ticket :=
  if (s32 pid <=? 0) || (generation_ =? 0) || (STORAGE_REQUEST_BULK_MAX_BYTES <? length) ||
    (set_ length && negb (bool_decide (is_Some data))) then Fail STORAGE_EINVAL
  else
    sv <- resolve_handle handle;;
    m <- get;;
    let bulk := bulk_find handle m in
    fail_if (negb (operation sv.2 =? STORAGE_REQUEST_VFS_BULK_READ) || negb (state sv.2 =? STORAGE_SLOT_CLAIMED) ||
      negb (served_by sv.2 pid generation_)) STORAGE_EACCES;;;
    fail_if (negb (bulk_in_state m bulk STORAGE_BULK_RESERVED)) STORAGE_EINVAL;;;
    let index := default O bulk in
    modify (set_bulk_state index STORAGE_BULK_WRITING);;;
    Ret (Ticket BulkPublish handle index length 0 (default [] data) false).

(** A request that ended with an error has no payload: it is collected at
    once, with its result. *)
Definition bulk_collect_begin (pid generation_ handle capacity : Z) (out data_out : bool) : prog (Z * list Z + ticket) :=
  if (s32 pid <=? 0) || (generation_ =? 0) || negb out || (STORAGE_REQUEST_BULK_MAX_BYTES <? capacity) || (set_ capacity && negb data_out)
  then Fail STORAGE_EINVAL
  else
    sv <- resolve_handle handle;;
    let '(slot, v) := sv in
    fail_if (negb (asked_by v pid generation_)) STORAGE_EACCES;;;
    fail_if (negb (state v =? STORAGE_SLOT_COMPLETE)) STORAGE_EAGAIN;;;
    fail_if (negb (operation v =? STORAGE_REQUEST_VFS_BULK_READ)) STORAGE_EINVAL;;;
    m <- get;;
    let bulk := bulk_find handle m in
    let index := default O bulk in
    let b := bulk_at m index in
    (if result v =? 0 then
       fail_if (negb (bulk_in_state m bulk STORAGE_BULK_PUBLISHED)) STORAGE_EINTEGRITY;;;
       fail_if (capacity <? b_length b) STORAGE_EMSGSIZE;;;
       modify (set_bulk_state index STORAGE_BULK_READING)
     else Ret tt);;;
    frame <- load_data slot STORAGE_REQUEST_BLOCK_SIZE;;
    if set_ (result v) then release_slot slot v;;; Ret (inl (result v, frame))
    else Ret (inr (Ticket (BulkCollect slot v frame) handle index (b_length b) (b_crc32 b) [] false)).

(** The copy, outside the lock: a publisher fills the bulk slot and computes
    the CRC there, a reader takes the bytes. *)
Definition bulk_fill (index : nat) (data : list Z) (length : Z) (m : mem) : mem :=
  let b := bulk_at m index in
  set_bulk m index (Bulk (b_state b) (request_handle b) (b_length b) (b_crc32 b) (bytes_copy (b_bytes b) (take (Z.to_nat length) data))).
Definition is_publisher (c : bulk_call) : bool := match c with InputPublish _ _ | BulkPublish => true | _ => false end.
Definition bulk_copy (t : ticket) (m : mem) : ticket * mem :=
  if is_publisher (t_call t) then
    let m := bulk_fill (t_index t) (t_data t) (t_length t) m in
    (Ticket (t_call t) (t_handle t) (t_index t) (t_length t) (data_crc (b_bytes (bulk_at m (t_index t))) (t_length t)) (t_data t) true, m)
  else
    let data := take (Z.to_nat (t_length t)) (b_bytes (bulk_at m (t_index t))) in
    (Ticket (t_call t) (t_handle t) (t_index t) (t_length t) (t_crc t) data true, m).
(** What a reader has copied is what was published. *)
Definition payload_valid (t : ticket) : bool := crc32 (t_data t) =? t_crc t.

Definition bulk_published (index : nat) (length crc : Z) (m : mem) : mem :=
  let b := bulk_at m index in set_bulk m index (Bulk STORAGE_BULK_PUBLISHED (request_handle b) length crc (b_bytes b)).
Definition clear_and_fail {A} (index : nat) (error : Z) : prog A := modify (bulk_clear index);;; Fail error.

(** The four second regions. *)
Definition input_publish_end (pid generation_ : Z) (t : ticket) : prog unit :=
  let index := t_index t in
  resolved <- attempt (resolve_handle (t_handle t));;
  m <- get;;
  let b := bulk_at m index in
  if negb (request_handle b =? t_handle t) then Fail STORAGE_EINTEGRITY
  else match resolved with
  | inl _ => clear_and_fail index STORAGE_ECANCELED
  | inr (slot, v) =>
    if b_state b =? STORAGE_BULK_REVOKED then clear_and_fail index STORAGE_ECANCELED
    else if negb (b_state b =? STORAGE_BULK_WRITING) || negb (state v =? STORAGE_SLOT_INPUT_PENDING) || negb (asked_by v pid generation_)
    then clear_and_fail index STORAGE_EINTEGRITY
    else
      modify (bulk_published index (t_length t) (t_crc t));;;
      stored <- attempt (store_metadata slot (with_state STORAGE_SLOT_QUEUED v));;
      match stored with inl error => clear_and_fail index error | inr _ => Ret tt end
  end.

(** The bytes taken. *)
Definition input_take_end (pid generation_ now_ms : Z) (t : ticket) : prog (list Z) :=
  let index := t_index t in
  claimed <- attempt (mutation_claimed_locked pid generation_ (t_handle t) now_ms);;
  m <- get;;
  let b := bulk_at m index in
  if negb (request_handle b =? t_handle t) then Fail STORAGE_EINTEGRITY
  else match claimed with
  | inl error => clear_and_fail index error
  | inr _ =>
    if b_state b =? STORAGE_BULK_REVOKED then clear_and_fail index STORAGE_ECANCELED
    else if negb (b_state b =? STORAGE_BULK_READING) || negb (payload_valid t) then clear_and_fail index STORAGE_EINTEGRITY
    else modify (set_bulk_state index STORAGE_BULK_CONSUMED);;; Ret (t_data t)
  end.

Definition bulk_publish_end (t : ticket) : prog unit :=
  let index := t_index t in
  m <- get;;
  let b := bulk_at m index in
  if negb (request_handle b =? t_handle t) || (b_state b =? STORAGE_BULK_REVOKED) then clear_and_fail index STORAGE_ECANCELED
  else if negb (b_state b =? STORAGE_BULK_WRITING) then clear_and_fail index STORAGE_EINTEGRITY
  else modify (bulk_published index (t_length t) (t_crc t)).

(** The result, the frame and the payload. *)
Definition bulk_collect_end (slot : nat) (v : storage_slot_metadata_t) (frame : list Z) (t : ticket) : prog (Z * list Z * list Z) :=
  let index := t_index t in
  m <- get;;
  let b := bulk_at m index in
  if negb (request_handle b =? t_handle t) || (b_state b =? STORAGE_BULK_REVOKED) then clear_and_fail index STORAGE_ECANCELED
  else if negb (b_state b =? STORAGE_BULK_READING) || negb (payload_valid t) then
    modify (bulk_clear index);;; attempt (release_slot slot v);;; Fail STORAGE_EINTEGRITY
  else
    modify (bulk_clear index);;;
    release_slot slot v;;;
    Ret (result v, frame, t_data t).

(** ** The calls *)
Inductive call :=
| CBind (pid generation : Z)
| CUnbind (pid generation : Z)
| CSubmit (pid generation : Z) (request : option storage_request_submit_t) (block_data : option (list Z)) (now_ms : Z) (out : bool)
| CClaim (pid generation now_ms : Z) (out : bool)
| CClaim_v2 (pid generation now_ms : Z) (out : bool)
| CClaim_v3 (pid generation now_ms : Z) (out : bool)
| CComplete (pid generation handle result : Z) (block_data : option (list Z))
| CContext (pid generation handle : Z) (out : bool)
| CCollect (pid generation handle : Z) (out data_out : bool)
| CCancel (pid generation handle : Z)
| CCancelProcess (pid generation : Z)
| CMutationContext (pid generation handle now_ms : Z) (out : bool)
| CMutationBind (pid generation handle resource now_ms : Z)
| CMutationEffect (pid generation handle resource now_ms : Z)
| CMutationAuthorized (pid generation handle resource now_ms : Z)
| CMutationFinish (pid generation handle resource outcome now_ms : Z)
| CMutationFences (now_ms : Z) (out : bool)
| CRecoveryReady (pid generation resource : Z)
| CRecoveryClear (pid generation resource : Z)
| CRecoveryRefence (resource : Z)
| CReplyBegin (pid generation handle now_ms : Z) (out : bool)
| CReplyEnd (pid generation handle : Z) (copied : bool) (now_ms : Z)
| CReplyAck (pid generation handle now_ms : Z)
| CInputPublish (pid generation handle : Z) (data : option (list Z)) (length now_ms : Z)
| CInputTake (pid generation handle capacity now_ms : Z) (out data_out : bool)
| CBulkPublish (pid generation handle : Z) (data : option (list Z)) (length : Z)
| CBulkCollect (pid generation handle capacity : Z) (out data_out : bool)
| CStats (out : bool).

(** What a region delivers. *)
Inductive reply :=
| RNone
| RHandle (handle : Z)
| RRequest (d : storage_request_descriptor) (data : list Z)
| RContext (operation resource : Z)
| RResult (result : Z) (data : list Z) (length : Z)
| RFences (answer mask : Z)
| RBulk (result : Z) (frame data : list Z)
| RStats (s : storage_request_stats_t)
| RTicket (t : ticket).

Definition call_prog (c : call) : prog reply :=
  match c with
  | CBind p g => storage_request_bind_service p g;;; Ret RNone
  | CUnbind p g => storage_request_unbind_service p g;;; Ret RNone
  | CSubmit p g r d now out => h <- storage_request_submit p g r d now out;; Ret (RHandle h)
  | CClaim p g now out => x <- storage_request_claim p g now out;; Ret (RRequest x.1 x.2)
  | CClaim_v2 p g now out => x <- storage_request_claim_v2 p g now out;; Ret (RRequest x.1 x.2)
  | CClaim_v3 p g now out => x <- storage_request_claim_v3 p g now out;; Ret (RRequest x.1 x.2)
  | CComplete p g h r d => storage_request_complete p g h r d;;; Ret RNone
  | CContext p g h out => x <- storage_request_completion_context p g h out;; Ret (RContext x.1 x.2)
  | CCollect p g h out data_out => x <- storage_request_collect_ex p g h out data_out;; Ret (RResult x.1.1 x.1.2 x.2)
  | CCancel p g h => storage_request_cancel p g h;;; Ret RNone
  | CCancelProcess p g => storage_request_cancel_process p g;;; Ret RNone
  | CMutationContext p g h now out => d <- storage_request_mutation_context p g h now out;; Ret (RRequest d [])
  | CMutationBind p g h r now => storage_request_mutation_bind p g h r now;;; Ret RNone
  | CMutationEffect p g h r now => storage_request_mutation_effect p g h r now;;; Ret RNone
  | CMutationAuthorized p g h r now => storage_request_mutation_authorized p g h r now;;; Ret RNone
  | CMutationFinish p g h r o now => storage_request_mutation_finish p g h r o now;;; Ret RNone
  | CMutationFences now out => x <- storage_request_mutation_fences now out;; Ret (RFences x.1 x.2)
  | CRecoveryReady p g r => storage_request_recovery_ready p g r;;; Ret RNone
  | CRecoveryClear p g r => storage_request_recovery_clear p g r;;; Ret RNone
  | CRecoveryRefence r => storage_request_recovery_refence r;;; Ret RNone
  | CReplyBegin p g h now out => x <- storage_request_mutation_reply_begin p g h now out;; Ret (RResult x.1 x.2 (Z.of_nat (List.length x.2)))
  | CReplyEnd p g h copied now => storage_request_mutation_reply_end p g h copied now;;; Ret RNone
  | CReplyAck p g h now => storage_request_mutation_reply_ack p g h now;;; Ret RNone
  | CInputPublish p g h d l now => t <- input_publish_begin p g h d l now;; Ret (RTicket t)
  | CInputTake p g h c now out data_out => t <- input_take_begin p g h c now out data_out;; Ret (RTicket t)
  | CBulkPublish p g h d l => t <- bulk_publish_begin p g h d l;; Ret (RTicket t)
  | CBulkCollect p g h c out data_out =>
    x <- bulk_collect_begin p g h c out data_out;;
    Ret (match x with inl x => RBulk x.1 x.2 [] | inr t => RTicket t end)
  | CStats out => s <- storage_request_stats out;; Ret (RStats s)
  end.

Definition ticket_end (t : ticket) : prog reply :=
  match t_call t with
  | InputPublish p g => input_publish_end p g t;;; Ret RNone
  | InputTake p g now => data <- input_take_end p g now t;; Ret (RResult 0 data (t_length t))
  | BulkPublish => bulk_publish_end t;;; Ret RNone
  | BulkCollect slot v frame => x <- bulk_collect_end slot v frame t;; Ret (RBulk x.1.1 x.1.2 x.2)
  end.

(** ** The pool on its stores *)
Section stores.
Context {O : Type} `{OwnedStore O}.

Record pool := Pool {
slot_stores : list O;
service_store : O;
fences_store : O;
mutation_poisoned : Z;
statics : mem
}.

Definition set_statics (g : pool) (m : mem) : pool := Pool (slot_stores g) (service_store g) (fences_store g) (mutation_poisoned g) m.
Definition set_slot (g : pool) (slot : nat) (store : O) : pool :=
  Pool (<[slot := store]> (slot_stores g)) (service_store g) (fences_store g) (mutation_poisoned g) (statics g).
Definition set_service (g : pool) (store : O) : pool :=
  Pool (slot_stores g) store (fences_store g) (mutation_poisoned g) (statics g).
Definition set_fences (g : pool) (store : O) : pool :=
  Pool (slot_stores g) (service_store g) store (mutation_poisoned g) (statics g).
(** [ok] is false where the C code poisons. *)
Definition poison_unless (ok : bool) (g : pool) : pool :=
  if ok then g else Pool (slot_stores g) (service_store g) (fences_store g) UINT32_MAX (statics g).

Definition read_in {A} `{Layout A} (ok : A → bool) (zero : A) (store : O) : option A * O :=
  let '(answer, store, v) := load_record STORAGE_POOL_METADATA_VERSION ok STORAGE_EINTEGRITY store zero in
  (if answer =? 0 then Some v else None, store).
Definition write_in {A} `{Layout A} (ok : A → bool) (store : O) (v : A) : bool * O :=
  let '(answer, store) := store_record STORAGE_POOL_METADATA_VERSION ok STORAGE_EINTEGRITY store v in
  (answer =? 0, store).

(** The index of a slot is below the capacity; a wider one would be outside
    the array. *)
Fixpoint run {A} (p : prog A) (g : pool) : (Z + A) * pool :=
  match p with
  | Ret a => (inr a, g)
  | Fail e => (inl e, g)
  | Get k => run (k (statics g)) g
  | Put m k => run k (set_statics g m)
  | Poisoned k => run (k (set_ (mutation_poisoned g))) g
  | ReadSlot slot k =>
    match slot_stores g !! slot with
    | Some store =>
      let '(v, store) := read_in metadata_ok zero_metadata store in
      run (k v) (poison_unless (bool_decide (is_Some v)) (set_slot g slot store))
    | None => (inl STORAGE_EINTEGRITY, g)
    end
  | WriteSlot slot v k =>
    match slot_stores g !! slot with
    | Some store => let '(b, store) := write_in metadata_ok store v in run (k b) (poison_unless b (set_slot g slot store))
    | None => (inl STORAGE_EINTEGRITY, g)
    end
  | ReadService k => let '(v, store) := read_in identity_ok (Identity 0 0) (service_store g) in run (k v) (set_service g store)
  | WriteService v k => let '(b, store) := write_in identity_ok (service_store g) v in run (k b) (set_service g store)
  | ReadFences k =>
    if set_ (os_lock (fences_store g)) then run (k None) (poison_unless false g)
    else
      let '(v, store) := read_in fences_ok (Fences 0) (fences_store g) in
      run (k (fence_mask <$> v)) (poison_unless (bool_decide (is_Some v)) (set_fences g store))
  | WriteFences mask k =>
    if negb (mutation_fences_initialized (statics g)) || set_ (os_lock (fences_store g)) then run (k false) (poison_unless false g)
    else
      let '(b, store) := write_in fences_ok (fences_store g) (Fences mask) in
      run (k b) (poison_unless b (set_fences g store))
  end.

(** [critical_object_init] of one record; the loop over the slots. *)
Definition init_in {A} `{Layout A} (store : O) (v : A) : bool * O :=
  let '(answer, store) := ps_init store STORAGE_POOL_METADATA_VERSION (Some (encode v)) in (answer =? 0, store).
Fixpoint init_loop (slots : list nat) (g : pool) : Z * pool :=
  match slots with
  | [] => (0, g)
  | slot :: slots =>
    match slot_stores g !! slot with
    | Some store =>
      let '(b, store) := init_in store zero_metadata in
      let g := set_slot g slot store in
      if negb b then (STORAGE_EINTEGRITY, g) else init_loop slots (set_statics g (clear_data slot (statics g)))
    | None => (STORAGE_EINTEGRITY, g)
    end
  end.

Definition storage_request_pool_init (g : pool) : Z * pool :=
  let m := statics g in
  let g := Pool (slot_stores g) (service_store g) (fences_store g) 0 (Mem (primary m) (shadow m) (bulk_slots m) false (Stats 0 0 0 0 0 0)) in
  let '(b, store) := init_in (fences_store g) (Fences 0) in
  let g := set_fences g store in
  if negb b then (STORAGE_EINTEGRITY, g)
  else
    let m := statics g in
    let g := set_statics g (Mem (primary m) (shadow m) (bulk_slots m) true (request_stats m)) in
    let '(b, store) := init_in (service_store g) (Identity 0 0) in
    let g := set_service g store in
    if negb b then (STORAGE_EINTEGRITY, g)
    else
      let '(answer, g) := init_loop pool_slots g in
      if set_ answer then (answer, g)
      else
        let m := statics g in
        (0, set_statics g (Mem (primary m) (shadow m) (replicate STORAGE_REQUEST_BULK_CAPACITY zero_bulk)
              (mutation_fences_initialized m) (Stats STORAGE_REQUEST_STATS_VERSION stats_size 0 0 0 0))).

(** The kernel while the pool is in use: calls, and the copies and ends of
    the bulk transfers under way, in any order. *)
Record system := System { sys_pool : pool; sys_tickets : list ticket }.

Inductive event :=
| Invoke (c : call)
| Copy (n : nat)
| Finish (n : nat).

Definition new_tickets (r : Z + reply) : list ticket := match r with inr (RTicket t) => [t] | _ => [] end.

(** The answer of a region; none for a copy, or for an event that names no
    transfer in that phase. *)
Definition step (s : system) (e : event) : option (Z + reply) * system :=
  match e with
  | Invoke c =>
    let '(r, g) := run (call_prog c) (sys_pool s) in (Some r, System g (sys_tickets s ++ new_tickets r))
  | Copy n =>
    match sys_tickets s !! n with
    | Some t =>
      if t_copied t then (None, s)
      else
        let '(t', m) := bulk_copy t (statics (sys_pool s)) in
        (None, System (set_statics (sys_pool s) m) (<[n := t']> (sys_tickets s)))
    | None => (None, s)
    end
  | Finish n =>
    match sys_tickets s !! n with
    | Some t =>
      if negb (t_copied t) then (None, s)
      else
        let '(r, g) := run (ticket_end t) (sys_pool s) in
        (Some r, System g (delete n (sys_tickets s)))
    | None => (None, s)
    end
  end.

Fixpoint steps (s : system) (es : list event) : list (option (Z + reply)) * system :=
  match es with
  | [] => ([], s)
  | e :: es =>
    let '(a, s) := step s e in
    let '(rest, s) := steps s es in
    (a :: rest, s)
  end.
End stores.
#[global] Arguments pool O : clear implicits.
#[global] Arguments system O : clear implicits.

End StorageRequestPool.
