(* ===== verification/StorageRequestPoolSpec.v ===== *)
(** What a locked region of the request pool does.

    [astate] is the content of the critical objects and statics of a pool that
    is not poisoned; [wp] gives the meaning of a region on it, and [pool_run_wp]
    shows that [run] over any protected store does the same or poisons the
    pool for good.  [metadata_ok] is read as the proposition [live_ok]. *)
From S2P Require Import Prelude ProtectedStore.
From S2P Require Import Crc32 Layout ProtectedRecord CriticalObject OwnedStore StorageRequestPool.
Import StorageRequestPool.
Local Open Scope pool_scope.

(** ** Layout laws of the records *)
#[export] Instance metadata_laws : LayoutLaws storage_slot_metadata_t.
Proof.
  split; [done|by intros []|].
  intros values Hl. do 15 (destruct values as [|? values]; [try done; simpl in Hl; lia|]). simpl in Hl. lia.
Qed.
#[export] Instance identity_laws : LayoutLaws storage_service_identity_t.
Proof.
  split; [done|by intros []|].
  intros values Hl. do 3 (destruct values as [|? values]; [try done; simpl in Hl; lia|]). simpl in Hl. lia.
Qed.
#[export] Instance fences_laws : LayoutLaws mutation_fences_t.
Proof.
  split; [done|by intros []|].
  intros values Hl. do 2 (destruct values as [|? values]; [try done; simpl in Hl; lia|]). simpl in Hl. lia.
Qed.

Lemma metadata_typed v :
  well_typed v ↔
  is_u32 (state v) ∧ is_u32 (generation v) ∧ is_u32 (operation v) ∧ is_u32 (client_pid v) ∧ is_u32 (client_generation v) ∧
  is_u32 (service_pid v) ∧ is_u32 (service_generation v) ∧ is_u32 (resource v) ∧ is_u32 (offset v) ∧ is_u32 (length_ v) ∧
  is_u32 (result v) ∧ is_u64 (deadline_ms v) ∧ is_u32 (mutation_resource_plus_one v) ∧ is_u32 (mutation_state v).
Proof.
  unfold well_typed. cbn [layout_widths layout_values metadata_layout fields_ok].
  change (256 ^ Z.of_nat 4) with 4294967296. change (256 ^ Z.of_nat 8) with 18446744073709551616.
  unfold_words. tauto.
Qed.
Lemma identity_typed v : well_typed v ↔ is_u32 (i_pid v) ∧ is_u32 (i_generation v).
Proof.
  unfold well_typed. cbn [layout_widths layout_values identity_layout fields_ok].
  change (256 ^ Z.of_nat 4) with 4294967296. unfold_words. tauto.
Qed.
Lemma fences_typed v : well_typed v ↔ is_u32 (fence_mask v).
Proof.
  unfold well_typed. cbn [layout_widths layout_values fences_layout fields_ok].
  change (256 ^ Z.of_nat 4) with 4294967296. unfold_words. tauto.
Qed.

Lemma pool_record_sizes :
  (0 < sizeof storage_slot_metadata_t <= 64)%nat ∧ (0 < sizeof storage_service_identity_t <= 64)%nat ∧
  (0 < sizeof mutation_fences_t <= 64)%nat.
Proof. vm_compute. lia. Qed.

(** ** Constants for arithmetic *)
Ltac unfold_states :=
  unfold STORAGE_SLOT_FREE, STORAGE_SLOT_QUEUED, STORAGE_SLOT_CLAIMED, STORAGE_SLOT_COMPLETE, STORAGE_SLOT_RETIRED,
    STORAGE_SLOT_CANCEL_PENDING, STORAGE_SLOT_INPUT_PENDING, STORAGE_SLOT_DELIVERING, STORAGE_SLOT_DELIVERY_CANCELLED,
    STORAGE_SLOT_DELIVERED, MUTATION_UNBOUND, MUTATION_BOUND, MUTATION_ATTEMPTED, MUTATION_FINISHED_NO_EFFECT,
    MUTATION_FINISHED_DURABLE, MUTATION_FINISHED_UNKNOWN, STORAGE_BULK_FREE, STORAGE_BULK_RESERVED, STORAGE_BULK_WRITING,
    STORAGE_BULK_PUBLISHED, STORAGE_BULK_READING, STORAGE_BULK_REVOKED, STORAGE_BULK_CONSUMED,
    STORAGE_HANDLE_GENERATION_MAX, STORAGE_REQUEST_BLOCK_SIZE, STORAGE_REQUEST_BULK_MAX_BYTES, STORAGE_REQUEST_READ,
    STORAGE_REQUEST_BLOCK_READ, STORAGE_REQUEST_BLOCK_WRITE, STORAGE_REQUEST_VFS_BULK_READ, STORAGE_REQUEST_VFS_OBJECT_MUTATE in *.
(** [lia] with the states, tests and operations of the pool unfolded. *)
Ltac plia := unfold_states; unfold is_free, set_, is_mutation, may_have_effect in *; unfold_states; lia.

(** ** Valid metadata of a live slot *)
Definition length_ok (v : storage_slot_metadata_t) : Prop :=
  length_ v <= STORAGE_REQUEST_BLOCK_SIZE ∧
  (if is_without_data (operation v) then length_ v = 0
   else length_ v ≠ 0 ∧
     ((operation v = STORAGE_REQUEST_BLOCK_READ ∨ operation v = STORAGE_REQUEST_BLOCK_WRITE) → length_ v = STORAGE_REQUEST_BLOCK_SIZE)).

(** The fields that stay as submitted. *)
Record request_ok (v : storage_slot_metadata_t) : Prop := {
  rq_generation : 0 < generation v <= STORAGE_HANDLE_GENERATION_MAX;
  rq_client : 0 < s32 (client_pid v) ∧ client_generation v ≠ 0;
  rq_deadline : deadline_ms v ≠ 0;
  rq_operation : STORAGE_REQUEST_READ <= operation v <= STORAGE_REQUEST_VFS_OBJECT_MUTATE;
  rq_length : length_ok v;
  rq_mutation : is_mutation v = true →
    resource v = 0 ∧ length_ v = STORAGE_REQUEST_BLOCK_SIZE ∧ offset v <= STORAGE_REQUEST_BULK_MAX_BYTES
}.
(** The fields that record its progress. *)
Record progress_ok (v : storage_slot_metadata_t) : Prop := {
  pg_state : state v <= STORAGE_SLOT_DELIVERED;
  pg_open : mutation_state v <= MUTATION_FINISHED_UNKNOWN ∧ mutation_resource_plus_one v <= 32 ∧
    (mutation_state v = 0 ↔ mutation_resource_plus_one v = 0);
  pg_bound : mutation_state v ≠ 0 → is_mutation v = true ∧ 0 < s32 (service_pid v) ∧ service_generation v ≠ 0 ∧
    state v ≠ STORAGE_SLOT_QUEUED ∧ state v ≠ STORAGE_SLOT_INPUT_PENDING;
  pg_reply : STORAGE_SLOT_DELIVERING <= state v → is_mutation v = true;
  pg_waiting : (state v = STORAGE_SLOT_QUEUED ∨ state v = STORAGE_SLOT_INPUT_PENDING) → service_pid v = 0 ∧ service_generation v = 0;
  pg_input : state v = STORAGE_SLOT_INPUT_PENDING → is_mutation v = true ∧ offset v ≠ 0;
  pg_served : (state v = STORAGE_SLOT_CLAIMED ∨ state v = STORAGE_SLOT_CANCEL_PENDING) →
    0 < s32 (service_pid v) ∧ service_generation v ≠ 0;
  pg_complete : state v = STORAGE_SLOT_COMPLETE →
    (service_pid v = 0 ∧ service_generation v = 0) ∨ (0 < s32 (service_pid v) ∧ service_generation v ≠ 0)
}.

Lemma metadata_ok_live v :
  is_free v = false → well_typed v → metadata_ok v = true ↔ request_ok v ∧ progress_ok v.
Proof.
  intros Hf Ht%metadata_typed. unfold metadata_ok. rewrite Hf. unfold is_free, set_ in *. unfold_states. unfold_words. split.
  - intros H. repeat (match type of H with (if ?c then _ else _) = _ => destruct c eqn:?; try done end);
      (split; split); unfold length_ok, is_mutation; unfold_states;
      repeat match goal with E : is_without_data _ = _ |- _ => rewrite E; clear E end; lia.
  - intros [[? ? ? ? [Hl1 Hl2] ?] [? ? ? ? ? ? ? ?]]. unfold is_mutation in *. unfold_states.
    repeat match goal with |- (if ?c then _ else _) = _ => destruct c eqn:?; try (exfalso; lia) end; lia.
Qed.

Definition fine {A} `{Layout A} (ok : A → bool) (x : A) : Prop := well_typed x ∧ ok x = true.

Lemma blank_fine s g :
  s = STORAGE_SLOT_FREE ∨ s = STORAGE_SLOT_RETIRED → 0 <= g <= STORAGE_HANDLE_GENERATION_MAX → fine metadata_ok (blank s g).
Proof.
  intros Hs Hg. split.
  - apply metadata_typed. cbn. unfold_states. unfold_words. lia.
  - unfold metadata_ok. destruct Hs as [-> | ->]; cbn -[Z.ltb]; by replace (STORAGE_HANDLE_GENERATION_MAX <? g) with false by plia.
Qed.

Lemma free_fine v : fine metadata_ok v → is_free v = true → v = blank (state v) (generation v) ∧ 0 <= generation v <= STORAGE_HANDLE_GENERATION_MAX.
Proof.
  intros [Ht Hok] Hf. apply metadata_typed in Ht. unfold metadata_ok in Hok. rewrite Hf in Hok. unfold_words.
  repeat (match type of Hok with (if ?c then _ else _) = _ => destruct c eqn:?; try done end).
  unfold set_ in *. rewrite !andb_true_iff, !Z.eqb_eq, !negb_true_iff, negb_false_iff, Z.eqb_eq in Hok.
  split; [|plia]. destruct v; unfold blank; cbn in *. plia || (destruct_and!; f_equal; plia).
Qed.

(** ** The abstract state *)
Record astate := State {
  a_slots : list storage_slot_metadata_t;
  a_service : storage_service_identity_t;
  a_mask : Z;
  a_mem : mem
}.

Definition put_slot (a : astate) (i : nat) (v : storage_slot_metadata_t) : astate :=
  State (<[i := v]> (a_slots a)) (a_service a) (a_mask a) (a_mem a).
Definition put_service (a : astate) (v : storage_service_identity_t) : astate := State (a_slots a) v (a_mask a) (a_mem a).
Definition put_mask (a : astate) (mask : Z) : astate := State (a_slots a) (a_service a) mask (a_mem a).
Definition put_mem (a : astate) (m : mem) : astate := State (a_slots a) (a_service a) (a_mask a) m.

(** Every end of a region run on [a] that does not poison satisfies [Q]; an
    update of the service identity can be refused. *)
Fixpoint wp {X} (p : prog X) (a : astate) (Q : Z + X → astate → Prop) : Prop :=
  match p with
  | Ret x => Q (inr x) a
  | Fail e => Q (inl e) a
  | Get k => wp (k (a_mem a)) a Q
  | Put m k => wp k (put_mem a m) Q
  | Poisoned k => wp (k false) a Q
  | ReadSlot i k => match a_slots a !! i with Some v => wp (k (Some v)) a Q | None => False end
  | WriteSlot i v k => fine metadata_ok v ∧ (i < length (a_slots a))%nat ∧ wp (k true) (put_slot a i v) Q
  | ReadService k => wp (k (Some (a_service a))) a Q
  | WriteService v k => fine identity_ok v ∧ wp (k true) (put_service a v) Q ∧ wp (k false) a Q
  | ReadFences k => wp (k (Some (a_mask a))) a Q
  | WriteFences mask k => is_u32 mask ∧ mutation_fences_initialized (a_mem a) = true ∧ wp (k true) (put_mask a mask) Q
  end.

Lemma pool_wp_mono {X} (p : prog X) a (Q Q' : Z + X → astate → Prop) :
  (∀ r a', Q r a' → Q' r a') → wp p a Q → wp p a Q'.
Proof.
  intros HQ. revert a. induction p as [x|e|k IH|m k IH|k IH|i k IH|i q k IH|k IH|q k IH|k IH|q k IH]; intros a; cbn [wp]; auto.
  - destruct (a_slots a !! i); auto.
  - intros (? & ? & ?). auto.
  - intros (? & ? & ?). auto.
  - intros (? & ? & ?). auto.
Qed.

Lemma pool_wp_bind {X Y} (p : prog X) (f : X → prog Y) a Q :
  wp p a (λ r a', match r with inl e => Q (inl e) a' | inr x => wp (f x) a' Q end) → wp (bind p f) a Q.
Proof.
  revert a. induction p as [x|e|k IH|m k IH|k IH|i k IH|i q k IH|k IH|q k IH|k IH|q k IH]; intros a; cbn [wp bind]; auto.
  - destruct (a_slots a !! i); auto.
  - intros (? & ? & ?). auto.
  - intros (? & ? & ?). auto.
  - intros (? & ? & ?). auto.
Qed.

Lemma wp_bind_inv {X Y} (p : prog X) (f : X → prog Y) a Q :
  wp (bind p f) a Q → wp p a (λ r a', match r with inl e => Q (inl e) a' | inr x => wp (f x) a' Q end).
Proof.
  revert a. induction p as [x|e|k IH|m k IH|k IH|i k IH|i q k IH|k IH|q k IH|k IH|q k IH]; intros a; cbn [wp bind]; auto.
  - destruct (a_slots a !! i); auto.
  - intros (? & ? & ?). auto.
  - intros (? & ? & ?). auto.
  - intros (? & ? & ?). auto.
Qed.

Lemma wp_attempt {X} (p : prog X) a (Q : Z + (Z + X) → astate → Prop) :
  wp p a (λ r a', Q (inr r) a') → wp (attempt p) a Q.
Proof.
  revert a. induction p as [x|e|k IH|m k IH|k IH|i k IH|i q k IH|k IH|q k IH|k IH|q k IH]; intros a; cbn [wp attempt]; auto.
  - destruct (a_slots a !! i); auto.
  - intros (? & ? & ?). auto.
  - intros (? & ? & ?). auto.
  - intros (? & ? & ?). auto.
Qed.

(** ** Regions on protected stores *)
Section stores.
Context {O : Type} `{PL : ProtectedStoreLaws O} {OS : OwnedStore O}.

(** A store is intact, at some publication, and holds the record. *)
Definition store_is {A} `{Layout A} (ok : A → bool) (store : O) (x : A) : Prop :=
∃ n, record_holds STORAGE_POOL_METADATA_VERSION ok store n x.

Record pool_holds (g : pool O) (a : astate) : Prop := {
holds_slots : Forall2 (store_is metadata_ok) (slot_stores g) (a_slots a);
holds_service : store_is identity_ok (service_store g) (a_service a);
holds_fences : store_is fences_ok (fences_store g) (Fences (a_mask a));
holds_statics : statics g = a_mem a
}.

Lemma version_ok : is_u32 STORAGE_POOL_METADATA_VERSION ∧ STORAGE_POOL_METADATA_VERSION ≠ 0.
Proof using. unfold STORAGE_POOL_METADATA_VERSION. split; [ulia|done]. Qed.

Lemma pool_store_fine {A} `{LayoutLaws A} (ok : A → bool) store x : store_is ok store x → fine ok x.
Proof using. intros (n & _ & ? & ?). by split. Qed.

Lemma store_unlocked {A} `{LayoutLaws A} (ok : A → bool) store x : store_is ok store x → os_lock store = 0.
Proof using. intros (n & Hps & _). by eapply os_holds_unlocked. Qed.

Lemma read_in_spec {A} `{LayoutLaws A} (ok : A → bool) zero store x :
(0 < sizeof A <= 64)%nat → store_is ok store x →
∃ store', read_in ok zero store = (Some x, store') ∧ store_is ok store' x.
Proof using PL.
intros Hsize (n & Hh). unfold read_in. destruct version_ok.
destruct (load_record_spec STORAGE_POOL_METADATA_VERSION ok STORAGE_EINTEGRITY ltac:(done) ltac:(done) Hsize
  store n x zero Hh) as (store' & -> & Hh'). exists store'. split; [done|by exists n].
Qed.

Lemma write_in_spec {A} `{LayoutLaws A} (ok : A → bool) store x x' :
(0 < sizeof A <= 64)%nat → store_is ok store x → fine ok x' →
let '(b, store') := write_in ok store x' in store_is ok store' (if b then x' else x).
Proof using PL.
intros Hsize (n & Hh) [Ht Hok]. unfold write_in. destruct version_ok.
pose proof (store_record_spec STORAGE_POOL_METADATA_VERSION ok STORAGE_EINTEGRITY ltac:(done) ltac:(done) Hsize
  store n x x' Hh Ht Hok) as Hs.
destruct (store_record _ _ _ _ _) as [answer store'].
destruct Hs as [(-> & n' & Hh' & _)|(-> & _ & Hh')]; cbn; by eexists.
Qed.

(** Nothing clears the poison. *)
Definition poisoned (g : pool O) : Prop := mutation_poisoned g ≠ 0.

Lemma poison_unless_keeps b (g : pool O) : poisoned g → poisoned (poison_unless b g).
Proof using. by destruct b. Qed.

Lemma run_poisoned {X} (p : prog X) : ∀ g : pool O, poisoned g → poisoned (run p g).2.
Proof using.
induction p as [x|e|k IH|m k IH|k IH|i k IH|i q k IH|k IH|q k IH|k IH|q k IH]; intros g Hp; cbn [run]; auto.
- destruct (slot_stores g !! i) as [store|]; [|done]. destruct (read_in _ _ _) as [v store']. apply IH.
  by apply poison_unless_keeps.
- destruct (slot_stores g !! i) as [store|]; [|done]. destruct (write_in _ _ _) as [b store']. apply IH.
  by apply poison_unless_keeps.
- destruct (read_in _ _ _) as [v store']. by apply IH.
- destruct (write_in _ _ _) as [v store']. by apply IH.
- destruct (set_ _); [by apply IH|]. destruct (read_in _ _ _) as [v store']. apply IH. by apply poison_unless_keeps.
- destruct (_ || _); [by apply IH|]. destruct (write_in _ _ _) as [b store']. apply IH. by apply poison_unless_keeps.
Qed.

(** How a run on the stores relates to the region on the abstract state. *)
Definition run_ends {X} (Q : Z + X → astate → Prop) (r : (Z + X) * pool O) : Prop :=
poisoned r.2 ∨ (mutation_poisoned r.2 = 0 ∧ ∃ a', pool_holds r.2 a' ∧ Q r.1 a').

Lemma holds_put_slot g a i store v :
pool_holds g a → store_is metadata_ok store v → pool_holds (set_slot g i store) (put_slot a i v).
Proof using. intros [? ? ? ?] ?. split; [|done..]. by apply Forall2_insert. Qed.
Lemma holds_same_slot g a i store v :
pool_holds g a → a_slots a !! i = Some v → store_is metadata_ok store v → pool_holds (set_slot g i store) a.
Proof using.
intros Hg Hv Hs. pose proof (holds_put_slot g a i store v Hg Hs) as H.
unfold put_slot in H. rewrite list_insert_id in H by done. by destruct a.
Qed.

Lemma pool_run_wp {X} (p : prog X) : ∀ g a (Q : Z + X → astate → Prop),
mutation_poisoned g = 0 → pool_holds g a → wp p a Q → run_ends Q (run p g).
Proof using PL.
destruct pool_record_sizes as (Sm & Si & Sf).
induction p as [x|e|k IH|m k IH|k IH|i k IH|i q k IH|k IH|q k IH|k IH|q k IH]; intros g a Q Hz Hg Hwp; cbn [run wp] in *.
- right. split; [done|]. by exists a.
- right. split; [done|]. by exists a.
- apply (IH _ _ a); [done|done|]. by rewrite (holds_statics _ _ Hg).
- apply (IH _ (put_mem a m)); [done| |done]. by destruct Hg.
- rewrite Hz. by apply (IH _ _ a).
- destruct (a_slots a !! i) as [v|] eqn:Ev; [|done].
  destruct (Forall2_lookup_r _ _ _ _ _ (holds_slots _ _ Hg) Ev) as (store & -> & Hs).
  destruct (read_in_spec metadata_ok zero_metadata store v Sm Hs) as (store' & -> & Hs').
  apply (IH _ _ a); [done| |done]. by apply (holds_same_slot _ _ _ _ v).
- destruct Hwp as (Hf & Hlt & Hwp). destruct (lookup_lt_is_Some_2 _ _ Hlt) as [v Ev].
  destruct (Forall2_lookup_r _ _ _ _ _ (holds_slots _ _ Hg) Ev) as (store & -> & Hs).
  pose proof (write_in_spec metadata_ok store v q Sm Hs Hf) as Hs'.
  destruct (write_in _ _ _) as [[] store'].
  + apply (IH _ _ (put_slot a i q)); [done| |done]. by apply holds_put_slot.
  + left. by apply run_poisoned.
- destruct (read_in_spec identity_ok (Identity 0 0) _ _ Si (holds_service _ _ Hg)) as (store' & -> & Hs').
  apply (IH _ _ a); [done| |done]. by destruct Hg.
- destruct Hwp as (Hf & Hw & Hw'). pose proof (write_in_spec identity_ok _ _ q Si (holds_service _ _ Hg) Hf) as Hs'.
  destruct (write_in _ _ _) as [[] store'].
  + apply (IH _ _ (put_service a q)); [done| |done]. by destruct Hg.
  + apply (IH _ _ a); [done| |done]. by destruct Hg.
- rewrite (store_unlocked _ _ _ (holds_fences _ _ Hg)). cbn [set_ Z.eqb negb].
  destruct (read_in_spec fences_ok (Fences 0) _ _ Sf (holds_fences _ _ Hg)) as (store' & -> & Hs').
  apply (IH _ _ a); [done| |done]. by destruct Hg.
- destruct Hwp as (Hq & Hi & Hwp). rewrite (store_unlocked _ _ _ (holds_fences _ _ Hg)), (holds_statics _ _ Hg), Hi.
  cbn [set_ Z.eqb negb orb].
  pose proof (write_in_spec fences_ok _ _ (Fences q) Sf (holds_fences _ _ Hg)) as Hs'.
  destruct (write_in _ _ _) as [[] store'].
  + apply (IH _ _ (put_mask a q)); [done| |done]. destruct Hg; split; try done. apply Hs'. split; [by apply fences_typed|done].
  + left. by apply run_poisoned.
Qed.
End stores.
