(* ===== verification/StorageRequestPoolLife.v ===== *)
(** The life of the requests.

    [inv] is what holds of a pool that is not poisoned, between two locked
    regions: valid slots, data blocks intact in both copies, bulk slots that
    belong to a live request or to a transfer under way, and exact counts.
    [act] lists the moves of the protocol with the party entitled to each; the
    regions are shown to consist of them, and here that they keep [inv]. *)
From S2P Require Import Prelude ProtectedStore.
From S2P Require Import Crc32 Layout ProtectedRecord CriticalObject OwnedStore StorageRequestPool StorageRequestPoolSpec.
Import StorageRequestPool.

(** ** Requests *)
Definition live (v : storage_slot_metadata_t) : bool := negb (is_free v).
Definition completed (v : storage_slot_metadata_t) : bool := (state v =? STORAGE_SLOT_COMPLETE) || (STORAGE_SLOT_DELIVERING <=? state v).
Definition uses_bulk (v : storage_slot_metadata_t) : bool :=
  (operation v =? STORAGE_REQUEST_VFS_BULK_READ) || (is_mutation v && set_ (offset v)).
(** How many bytes the data block of a live slot holds. *)
Definition stored_length (v : storage_slot_metadata_t) : Z :=
  if operation_has_input (operation v) || (completed v && (result v =? 0) && operation_has_output (operation v)) then length_ v else 0.
Definition handle_of (i : nat) (v : storage_slot_metadata_t) : Z := make_handle i (generation v).
Definition resource_of (v : storage_slot_metadata_t) : Z := mutation_resource_plus_one v - 1.

(** The fields that stay as submitted. *)
Definition request_of (v : storage_slot_metadata_t) : list Z :=
  [generation v; operation v; client_pid v; client_generation v; resource v; offset v; length_ v; deadline_ms v].

(** A possible effect is on record. *)
Definition fenced (mask : Z) (v : storage_slot_metadata_t) : Prop :=
  may_have_effect v = true → Z.testbit mask (resource_of v) = true.

(** ** The invariant *)
(** A bulk read carries a whole frame: the validator alone would accept less. *)
Definition frame_full (v : storage_slot_metadata_t) : Prop :=
  live v = true → operation v = STORAGE_REQUEST_VFS_BULK_READ → length_ v = STORAGE_REQUEST_BLOCK_SIZE.
Record base_ok (a : astate) : Prop := {
  base_slots : length (a_slots a) = 8%nat;
  base_fine : Forall (fine metadata_ok) (a_slots a);
  base_service : fine identity_ok (a_service a);
  base_mask : is_u32 (a_mask a);
  base_fences : mutation_fences_initialized (a_mem a) = true;
  base_frames : Forall frame_full (a_slots a)
}.

Definition block_ok (d : storage_data_copy_t) (n : Z) : Prop :=
  d_length d = n ∧ d_crc32 d = data_crc (d_bytes d) n ∧ length (d_bytes d) = 512%nat.
Record data_inv (slots : list storage_slot_metadata_t) (m : mem) : Prop := {
  data_length : length (primary m) = 8%nat;
  data_shadow : shadow m = primary m;
  data_blocks i v : slots !! i = Some v → block_ok (data_at (primary m) i) (if live v then stored_length v else 0)
}.

(** A bulk slot in use belongs to a request, live unless it is revoked. *)
Definition bulk_of (slots : list storage_slot_metadata_t) (b : storage_bulk_slot_t) : Prop :=
  ∃ i v g, slots !! i = Some v ∧ request_handle b = make_handle i g ∧ 0 < g <= generation v ∧
    (b_state b ≠ STORAGE_BULK_REVOKED → g = generation v ∧ live v = true ∧ uses_bulk v = true).
Definition has_payload (b : storage_bulk_slot_t) : Prop :=
  b_state b = STORAGE_BULK_PUBLISHED ∨ b_state b = STORAGE_BULK_READING ∨ b_state b = STORAGE_BULK_CONSUMED.
Definition bulk_ok (slots : list storage_slot_metadata_t) (b : storage_bulk_slot_t) : Prop :=
  length (b_bytes b) = Z.to_nat STORAGE_REQUEST_BULK_MAX_BYTES ∧
  (b_state b ≠ STORAGE_BULK_FREE → bulk_of slots b) ∧
  (has_payload b → 0 <= b_length b <= STORAGE_REQUEST_BULK_MAX_BYTES ∧ b_crc32 b = data_crc (b_bytes b) (b_length b)).

Definition transfer_state (t : ticket) : Z := if is_publisher (t_call t) then STORAGE_BULK_WRITING else STORAGE_BULK_READING.
(** What the transfer relies on as long as nobody revokes it. *)
Definition transfer_ok (slots : list storage_slot_metadata_t) (t : ticket) (b : storage_bulk_slot_t) : Prop :=
  match t_call t with
  | InputPublish _ _ | BulkPublish => True
  | InputTake _ _ _ => t_length t = b_length b ∧ t_crc t = b_crc32 b
  | BulkCollect slot v _ =>
    t_length t = b_length b ∧ t_crc t = b_crc32 b ∧ slots !! slot = Some v ∧ state v = STORAGE_SLOT_COMPLETE ∧
    operation v = STORAGE_REQUEST_VFS_BULK_READ ∧ result v = 0 ∧ t_handle t = handle_of slot v
  end.
Definition copied_ok (t : ticket) (b : storage_bulk_slot_t) : Prop :=
  t_copied t = true →
  if is_publisher (t_call t)
  then t_crc t = data_crc (b_bytes b) (t_length t) ∧ take (Z.to_nat (t_length t)) (b_bytes b) = take (Z.to_nat (t_length t)) (t_data t)
  else b_state b = STORAGE_BULK_READING → t_data t = take (Z.to_nat (t_length t)) (b_bytes b).
Definition ticket_ok (slots : list storage_slot_metadata_t) (bs : list storage_bulk_slot_t) (t : ticket) : Prop :=
  ∃ b, bs !! t_index t = Some b ∧ request_handle b = t_handle t ∧
    (b_state b = STORAGE_BULK_REVOKED ∨ b_state b = transfer_state t) ∧
    0 <= t_length t <= STORAGE_REQUEST_BULK_MAX_BYTES ∧
    (is_publisher (t_call t) = true → (Z.to_nat (t_length t) <= length (t_data t))%nat) ∧
    (b_state b ≠ STORAGE_BULK_REVOKED → transfer_ok slots t b) ∧ copied_ok t b.

Definition in_transfer (b : storage_bulk_slot_t) : Prop :=
  b_state b = STORAGE_BULK_WRITING ∨ b_state b = STORAGE_BULK_READING ∨ b_state b = STORAGE_BULK_REVOKED.
Record bulk_inv (slots : list storage_slot_metadata_t) (bs : list storage_bulk_slot_t) (ts : list ticket) : Prop := {
  bulk_length : length bs = 2%nat;
  bulk_slots_ok j b : bs !! j = Some b → bulk_ok slots b;
  bulk_distinct j k b c : bs !! j = Some b → bs !! k = Some c → b_state b ≠ STORAGE_BULK_FREE → b_state c ≠ STORAGE_BULK_FREE →
    request_handle b = request_handle c → j = k;
  bulk_tickets : Forall (ticket_ok slots bs) ts;
  bulk_owners : NoDup (t_index <$> ts);
  bulk_owned j b : bs !! j = Some b → in_transfer b → j ∈ t_index <$> ts
}.

Definition count {A} (f : A → bool) (l : list A) : Z := Z.of_nat (length (List.filter f l)).
Definition client_owns (pid generation_ : Z) (v : storage_slot_metadata_t) : bool := client_has v pid generation_.
Record count_inv (slots : list storage_slot_metadata_t) (s : storage_request_stats_t) : Prop := {
  count_active : active_requests s = count live slots;
  count_high : active_requests s <= request_high_water s <= 8;
  count_clients pid generation_ : count (client_owns pid generation_) slots <= STORAGE_REQUEST_MAX_PER_CLIENT
}.

Record inv (a : astate) (ts : list ticket) : Prop := {
  inv_base : base_ok a;
  inv_data : data_inv (a_slots a) (a_mem a);
  inv_bulk : bulk_inv (a_slots a) (bulk_slots (a_mem a)) ts;
  inv_count : count_inv (a_slots a) (request_stats (a_mem a))
}.


(** ** Handles *)
Lemma pool_handle_value i g :
  (i < 8)%nat → 0 <= g <= STORAGE_HANDLE_GENERATION_MAX → make_handle i g = g * 256 + (Z.of_nat i + 1).
Proof.
  intros Hi Hg. unfold make_handle. unfold_states. rewrite !u32_small by (rewrite ?Z.shiftl_mul_pow2 by lia; unfold_words; lia).
  apply (lor_shiftl_add 8); lia.
Qed.

Lemma make_handle_inj i j g h :
  (i < 8)%nat → (j < 8)%nat → 0 <= g <= STORAGE_HANDLE_GENERATION_MAX → 0 <= h <= STORAGE_HANDLE_GENERATION_MAX →
  make_handle i g = make_handle j h → i = j ∧ g = h.
Proof. intros ? ? ? ?. rewrite !pool_handle_value by done. lia. Qed.

(** ** Facts of a valid state *)
Section base.
Context (a : astate) (Hb : base_ok a).

Lemma base_lookup i v : a_slots a !! i = Some v → (i < 8)%nat ∧ fine metadata_ok v.
Proof using All.
  intros Hv. pose proof (lookup_lt_Some _ _ _ Hv) as Hlt. rewrite (base_slots _ Hb) in Hlt. split; [done|].
  by apply (Forall_lookup_1 _ _ _ _ (base_fine _ Hb) Hv).
Qed.

Lemma base_live i v : a_slots a !! i = Some v → live v = true → request_ok v ∧ progress_ok v.
Proof using All.
  intros Hv Hl. destruct (base_lookup _ _ Hv) as [_ [Ht Hok]]. apply metadata_ok_live; [|done|done].
  by apply negb_true_iff.
Qed.

Lemma base_generation i v : a_slots a !! i = Some v → 0 <= generation v <= STORAGE_HANDLE_GENERATION_MAX.
Proof using All.
  intros Hv. destruct (base_lookup _ _ Hv) as [_ Hf]. destruct (is_free v) eqn:Ef.
  - by apply (free_fine v Hf Ef).
  - destruct Hf as [Ht Hok]. apply metadata_ok_live in Hok as [Hr _]; [|done|done]. destruct Hr as [? _ _ _ _ _]. lia.
Qed.

Lemma base_slot i : (i < 8)%nat → ∃ v, a_slots a !! i = Some v.
Proof using All. intros Hi. apply lookup_lt_is_Some. by rewrite (base_slots _ Hb). Qed.
End base.

Lemma fine_live v : live v = true → well_typed v → request_ok v → progress_ok v → fine metadata_ok v.
Proof. intros Hl Ht Hr Hp. split; [done|]. apply metadata_ok_live; [by apply negb_true_iff|done|done]. Qed.

Lemma released_fine v : 0 <= generation v <= STORAGE_HANDLE_GENERATION_MAX → fine metadata_ok (released v).
Proof.
  intros Hg. unfold released. destruct (Z.eqb_spec (generation v) STORAGE_HANDLE_GENERATION_MAX) as [E|E].
  - apply blank_fine; [by right|plia].
  - apply blank_fine; [by left|]. unfold_states. rewrite u32_small by (unfold_words; lia). lia.
Qed.
Lemma released_free v : live (released v) = false.
Proof. unfold released. by destruct (_ =? _). Qed.
Lemma released_generation v :
  0 <= generation v <= STORAGE_HANDLE_GENERATION_MAX → generation v <= generation (released v).
Proof.
  intros Hg. unfold released. destruct (Z.eqb_spec (generation v) STORAGE_HANDLE_GENERATION_MAX); cbn; unfold_states; [lia|].
  rewrite u32_small by (unfold_words; lia). lia.
Qed.

(** ** Counts *)
Lemma count_insert {A} (f : A → bool) (l : list A) i x y :
  l !! i = Some x → count f (<[i := y]> l) = count f l - Z.b2z (f x) + Z.b2z (f y).
Proof.
  intros Hi. unfold count. rewrite insert_take_drop by (by apply lookup_lt_Some in Hi).
  pose proof (take_drop_middle l i x Hi) as E. rewrite <- E at 3. clear E.
  rewrite !List.filter_app, !length_app. cbn [List.filter]. destruct (f x), (f y); cbn [length Z.b2z]; lia.
Qed.
Lemma count_le {A} (f : A → bool) (l : list A) : 0 <= count f l <= Z.of_nat (length l).
Proof. unfold count. split; [lia|]. induction l as [|x l IH]; cbn; [lia|]. destruct (f x); cbn [length]; lia. Qed.
Lemma count_pos {A} (f : A → bool) (l : list A) i x : l !! i = Some x → f x = true → 0 < count f l.
Proof.
  intros Hi Hf. unfold count. rewrite <- (take_drop_middle l i x Hi). rewrite List.filter_app, length_app. cbn [List.filter]. rewrite Hf. cbn [length]. lia.
Qed.

(** ** The moves

    The parties of an event. *)
Definition claims (e : event) (pid generation_ now_ms : Z) : Prop :=
  ∃ out, e = Invoke (CClaim pid generation_ now_ms out) ∨ e = Invoke (CClaim_v2 pid generation_ now_ms out) ∨
    e = Invoke (CClaim_v3 pid generation_ now_ms out).
Definition exits (e : event) (pid generation_ : Z) : Prop :=
  e = Invoke (CCancelProcess pid generation_) ∨ e = Invoke (CUnbind pid generation_).
(** The service bound now holds the request, in time. *)
Definition entitled (a : astate) (v : storage_slot_metadata_t) (pid generation_ now_ms : Z) : Prop :=
  a_service a = Identity pid generation_ ∧ 0 < s32 pid ∧ generation_ ≠ 0 ∧ is_mutation v = true ∧ served_by v pid generation_ = true ∧
  state v = STORAGE_SLOT_CLAIMED ∧ now_ms < deadline_ms v.

(** The service side closes a mutation it ends with an error. *)
Definition mutation_open (v : storage_slot_metadata_t) : bool :=
  is_mutation v && ((mutation_state v =? MUTATION_BOUND) || (mutation_state v =? MUTATION_ATTEMPTED)).
Definition closed (v : storage_slot_metadata_t) : storage_slot_metadata_t :=
  if mutation_open v
  then with_mutation (mutation_resource_plus_one v)
    (if mutation_state v =? MUTATION_BOUND then MUTATION_FINISHED_NO_EFFECT else MUTATION_FINISHED_UNKNOWN) v
  else v.

Definition completion (result_ : Z) (v : storage_slot_metadata_t) : storage_slot_metadata_t :=
  with_result STORAGE_SLOT_COMPLETE result_ (closed v).

(** Moves of one slot that leave the data and the bulk slots alone. *)
Inductive edge (e : event) (a : astate) (i : nat) (v : storage_slot_metadata_t) : storage_slot_metadata_t → Prop :=
| E_expire pid generation_ now_ms :
    claims e pid generation_ now_ms → state v = STORAGE_SLOT_QUEUED ∨ state v = STORAGE_SLOT_INPUT_PENDING → deadline_ms v <= now_ms →
    edge e a i v (with_result STORAGE_SLOT_COMPLETE (u32 deadline_passed) v)
| E_claim pid generation_ now_ms :
    claims e pid generation_ now_ms → a_service a = Identity pid generation_ → 0 < s32 pid → generation_ ≠ 0 →
    state v = STORAGE_SLOT_QUEUED → now_ms < deadline_ms v →
    edge e a i v (with_service STORAGE_SLOT_CLAIMED pid generation_ v)
| E_cancel pid generation_ :
    e = Invoke (CCancel pid generation_ (handle_of i v)) → asked_by v pid generation_ = true → fenced (a_mask a) v →
    state v = STORAGE_SLOT_CLAIMED → edge e a i v (with_state STORAGE_SLOT_CANCEL_PENDING v)
| E_cancel_reply pid generation_ :
    e = Invoke (CCancel pid generation_ (handle_of i v)) ∧ asked_by v pid generation_ = true ∨
      exits e pid generation_ ∧ (asked_by v pid generation_ = true ∨ served_by v pid generation_ = true) →
    fenced (a_mask a) v → state v = STORAGE_SLOT_DELIVERING ∨ state v = STORAGE_SLOT_DELIVERY_CANCELLED →
    edge e a i v (with_state STORAGE_SLOT_DELIVERY_CANCELLED v)
| E_bind pid generation_ r now_ms :
    e = Invoke (CMutationBind pid generation_ (handle_of i v) r now_ms) → entitled a v pid generation_ now_ms → 0 <= r < 32 →
    Z.testbit (a_mask a) r = false → mutation_state v = MUTATION_UNBOUND → edge e a i v (with_mutation (r + 1) MUTATION_BOUND v)
| E_effect pid generation_ r now_ms :
    e = Invoke (CMutationEffect pid generation_ (handle_of i v) r now_ms) → entitled a v pid generation_ now_ms →
    mutation_resource_plus_one v = r + 1 → Z.testbit (a_mask a) r = false → mutation_state v = MUTATION_BOUND →
    edge e a i v (with_mutation (mutation_resource_plus_one v) MUTATION_ATTEMPTED v)
| E_finish pid generation_ r outcome now_ms :
    e = Invoke (CMutationFinish pid generation_ (handle_of i v) r outcome now_ms) → entitled a v pid generation_ now_ms →
    open_on v r = true → STORAGE_MUTATION_NO_EFFECT <= outcome <= STORAGE_MUTATION_UNKNOWN →
    (outcome = STORAGE_MUTATION_NO_EFFECT → mutation_state v = MUTATION_BOUND) →
    (outcome = STORAGE_MUTATION_UNKNOWN → Z.testbit (a_mask a) r = true) →
    edge e a i v (with_mutation (mutation_resource_plus_one v) (finished outcome) v)
| E_deliver pid generation_ now_ms out :
    e = Invoke (CReplyBegin pid generation_ (handle_of i v) now_ms out) → asked_by v pid generation_ = true → is_mutation v = true →
    state v = STORAGE_SLOT_COMPLETE → now_ms < deadline_ms v → edge e a i v (with_state STORAGE_SLOT_DELIVERING v)
| E_delivered pid generation_ now_ms :
    e = Invoke (CReplyEnd pid generation_ (handle_of i v) true now_ms) → asked_by v pid generation_ = true → is_mutation v = true →
    state v = STORAGE_SLOT_DELIVERING → now_ms < deadline_ms v → edge e a i v (with_state STORAGE_SLOT_DELIVERED v).

(** Who may end the request in slot [i], keeping a possible effect fenced. *)
Inductive releases (e : event) (i : nat) (v : storage_slot_metadata_t) : Prop :=
| R_cancelled pid generation_ result_ data :
    e = Invoke (CComplete pid generation_ (handle_of i v) result_ data) → served_by v pid generation_ = true →
    state v = STORAGE_SLOT_CANCEL_PENDING → releases e i v
| R_collect pid generation_ out data_out :
    e = Invoke (CCollect pid generation_ (handle_of i v) out data_out) → asked_by v pid generation_ = true → state v = STORAGE_SLOT_COMPLETE →
    releases e i v
| R_cancel pid generation_ :
    e = Invoke (CCancel pid generation_ (handle_of i v)) → asked_by v pid generation_ = true →
    state v ≠ STORAGE_SLOT_CLAIMED → state v ≠ STORAGE_SLOT_CANCEL_PENDING → state v ≠ STORAGE_SLOT_DELIVERING → releases e i v
| R_exit pid generation_ :
    exits e pid generation_ → asked_by v pid generation_ = true ∨ served_by v pid generation_ = true →
    state v ≠ STORAGE_SLOT_DELIVERING → state v ≠ STORAGE_SLOT_DELIVERY_CANCELLED → releases e i v
| R_expired pid generation_ now_ms out :
    e = Invoke (CReplyBegin pid generation_ (handle_of i v) now_ms out) → asked_by v pid generation_ = true →
    state v = STORAGE_SLOT_COMPLETE → deadline_ms v <= now_ms → releases e i v
| R_undelivered pid generation_ copied now_ms :
    e = Invoke (CReplyEnd pid generation_ (handle_of i v) copied now_ms) → asked_by v pid generation_ = true →
    state v = STORAGE_SLOT_DELIVERING ∨ state v = STORAGE_SLOT_DELIVERY_CANCELLED → releases e i v
| R_late pid generation_ now_ms :
    e = Invoke (CReplyAck pid generation_ (handle_of i v) now_ms) → asked_by v pid generation_ = true →
    state v = STORAGE_SLOT_DELIVERED → deadline_ms v <= now_ms → releases e i v
| R_bulk_failed pid generation_ capacity out data_out :
    e = Invoke (CBulkCollect pid generation_ (handle_of i v) capacity out data_out) → asked_by v pid generation_ = true →
    state v = STORAGE_SLOT_COMPLETE → result v ≠ 0 → releases e i v.

(** The end of a request. *)
Definition release_mem (i : nat) (v : storage_slot_metadata_t) (m : mem) : mem :=
  request_removed (clear_data i (bulk_release (handle_of i v) m)).
Definition release_state (a : astate) (i : nat) (v : storage_slot_metadata_t) : astate :=
  State (<[i := released v]> (a_slots a)) (a_service a) (a_mask a) (release_mem i v (a_mem a)).

Definition submit_mem (i : nat) (r : storage_request_submit_t) (handle : Z) (data : option (list Z)) (m : mem) : mem :=
  let m := submit_data r data i m in request_added (if needs_bulk r then (bulk_reserve handle m).2 else m).

Definition complete_mem (i : nat) (v : storage_slot_metadata_t) (result_ : Z) (data : option (list Z)) (m : mem) : mem :=
  if set_ result_ then if operation v =? STORAGE_REQUEST_VFS_BULK_READ then bulk_release (handle_of i v) m else m
  else if operation_has_output (operation v) then store_data i (default [] data) (length_ v) m else m.

(** The transfers a party may start. *)
Inductive writes (e : event) (i : nat) (v : storage_slot_metadata_t) : ticket → Prop :=
| W_input pid generation_ data now_ms index :
    e = Invoke (CInputPublish pid generation_ (handle_of i v) (Some data) (offset v) now_ms) → asked_by v pid generation_ = true →
    state v = STORAGE_SLOT_INPUT_PENDING → now_ms < deadline_ms v → 0 <= offset v <= STORAGE_REQUEST_BULK_MAX_BYTES →
    (Z.to_nat (offset v) <= length data)%nat →
    writes e i v (Ticket (InputPublish pid generation_) (handle_of i v) index (offset v) 0 data false)
| W_bulk pid generation_ data size index :
    e = Invoke (CBulkPublish pid generation_ (handle_of i v) data size) → served_by v pid generation_ = true →
    state v = STORAGE_SLOT_CLAIMED → operation v = STORAGE_REQUEST_VFS_BULK_READ → 0 <= size <= STORAGE_REQUEST_BULK_MAX_BYTES →
    (Z.to_nat size <= length (default [] data))%nat →
    writes e i v (Ticket BulkPublish (handle_of i v) index size 0 (default [] data) false).
Inductive reads (e : event) (i : nat) (v : storage_slot_metadata_t) : ticket → Prop :=
| W_take pid generation_ capacity now_ms out data_out index size crc :
    e = Invoke (CInputTake pid generation_ (handle_of i v) capacity now_ms out data_out) → served_by v pid generation_ = true →
    state v = STORAGE_SLOT_CLAIMED → is_mutation v = true →
    reads e i v (Ticket (InputTake pid generation_ now_ms) (handle_of i v) index size crc [] false)
| W_collect pid generation_ capacity out data_out index size crc frame :
    e = Invoke (CBulkCollect pid generation_ (handle_of i v) capacity out data_out) → asked_by v pid generation_ = true →
    state v = STORAGE_SLOT_COMPLETE → operation v = STORAGE_REQUEST_VFS_BULK_READ → result v = 0 →
    reads e i v (Ticket (BulkCollect i v frame) (handle_of i v) index size crc [] false).

Definition submit_typed (pid generation_ now_ms : Z) (r : storage_request_submit_t) : Prop :=
  is_u32 pid ∧ is_u32 generation_ ∧ is_u64 now_ms ∧ is_u32 (r_operation r) ∧ is_u32 (r_resource r) ∧ is_u32 (r_offset r) ∧
  is_u32 (r_length r) ∧ is_u32 (r_timeout_ms r).

Inductive act (e : event) : astate * list ticket → astate * list ticket → Prop :=
| A_bind pid generation_ a ts :
    e = Invoke (CBind pid generation_) → a_service a = Identity 0 0 ∨ a_service a = Identity pid generation_ →
    is_u32 pid → is_u32 generation_ → 0 < s32 pid → generation_ ≠ 0 → act e (a, ts) (put_service a (Identity pid generation_), ts)
| A_unbind pid generation_ a ts :
    e = Invoke (CUnbind pid generation_) → a_service a = Identity pid generation_ → act e (a, ts) (put_service a (Identity 0 0), ts)
| A_client_rejected a ts : act e (a, ts) (put_mem a (client_rejected (a_mem a)), ts)
| A_pool_rejected a ts : act e (a, ts) (put_mem a (pool_rejected (a_mem a)), ts)
| A_fence r a ts : 0 <= r < 32 → act e (a, ts) (put_mask a (Z.lor (a_mask a) (resource_bit r)), ts)
| A_unfence pid generation_ r a ts :
    e = Invoke (CRecoveryClear pid generation_ r) → 0 <= r < 32 → a_service a = Identity pid generation_ →
    (∀ i v, a_slots a !! i = Some v → mutation_resource_plus_one v ≠ r + 1) →
    act e (a, ts) (put_mask a (Z.land (a_mask a) (Z.lxor UINT32_MAX (resource_bit r))), ts)
| A_retire i a ts :
    a_slots a !! i = Some (blank STORAGE_SLOT_FREE STORAGE_HANDLE_GENERATION_MAX) →
    act e (a, ts) (put_slot a i (blank STORAGE_SLOT_RETIRED STORAGE_HANDLE_GENERATION_MAX), ts)
| A_submit pid generation_ r data now_ms i v a ts :
    e = Invoke (CSubmit pid generation_ (Some r) data now_ms true) → submit_checks pid generation_ r data true = 0 →
    submit_typed pid generation_ now_ms r → a_slots a !! i = Some v → state v = STORAGE_SLOT_FREE → generation v ≠ STORAGE_HANDLE_GENERATION_MAX →
    count (client_owns pid generation_) (a_slots a) < STORAGE_REQUEST_MAX_PER_CLIENT →
    (needs_bulk r = true → ∃ j b, bulk_slots (a_mem a) !! j = Some b ∧ b_state b = STORAGE_BULK_FREE) →
    act e (a, ts)
      (State (<[i := submitted pid generation_ now_ms r (generation v + 1)]> (a_slots a)) (a_service a) (a_mask a)
        (submit_mem i r (make_handle i (generation v + 1)) data (a_mem a)), ts)
| A_edge i v v' a ts : a_slots a !! i = Some v → edge e a i v v' → act e (a, ts) (put_slot a i v', ts)
| A_complete pid generation_ result_ data i v a ts :
    e = Invoke (CComplete pid generation_ (handle_of i v) result_ data) → is_u32 result_ → a_slots a !! i = Some v →
    state v = STORAGE_SLOT_CLAIMED → served_by v pid generation_ = true → (result_ = 0 → mutation_open v = false) → (result_ ≠ 0 → fenced (a_mask a) (closed v)) →
    (result_ = 0 → operation v = STORAGE_REQUEST_VFS_BULK_READ →
      ∃ j b, bulk_slots (a_mem a) !! j = Some b ∧ request_handle b = handle_of i v ∧ b_state b = STORAGE_BULK_PUBLISHED) →
    act e (a, ts)
      (State (<[i := completion result_ v]> (a_slots a)) (a_service a) (a_mask a)
        (complete_mem i v result_ data (a_mem a)), ts)
| A_release i v a ts :
    a_slots a !! i = Some v → live v = true → releases e i v → fenced (a_mask a) v → act e (a, ts) (release_state a i v, ts)
| A_ack pid generation_ now_ms i v a ts :
    e = Invoke (CReplyAck pid generation_ (handle_of i v) now_ms) → a_slots a !! i = Some v → asked_by v pid generation_ = true →
    is_mutation v = true → state v = STORAGE_SLOT_DELIVERED → now_ms < deadline_ms v → act e (a, ts) (release_state a i v, ts)
| A_write_begin t b i v a ts :
    bulk_slots (a_mem a) !! t_index t = Some b → request_handle b = t_handle t → b_state b = STORAGE_BULK_RESERVED →
    a_slots a !! i = Some v → live v = true → t_handle t = handle_of i v → writes e i v t → t_copied t = false →
    act e (a, ts) (put_mem a (set_bulk_state (t_index t) STORAGE_BULK_WRITING (a_mem a)), ts ++ [t])
| A_read_begin t b i v a ts :
    bulk_slots (a_mem a) !! t_index t = Some b → request_handle b = t_handle t → b_state b = STORAGE_BULK_PUBLISHED →
    a_slots a !! i = Some v → live v = true → t_handle t = handle_of i v → reads e i v t → t_length t = b_length b → t_crc t = b_crc32 b →
    t_copied t = false → act e (a, ts) (put_mem a (set_bulk_state (t_index t) STORAGE_BULK_READING (a_mem a)), ts ++ [t])
| A_copy n t a ts :
    e = Copy n → ts !! n = Some t → t_copied t = false →
    act e (a, ts) (put_mem a (bulk_copy t (a_mem a)).2, <[n := (bulk_copy t (a_mem a)).1]> ts)
| A_published n t b a ts :
    e = Finish n → ts !! n = Some t → t_call t = BulkPublish → t_copied t = true →
    bulk_slots (a_mem a) !! t_index t = Some b → b_state b = STORAGE_BULK_WRITING →
    act e (a, ts) (put_mem a (bulk_published (t_index t) (t_length t) (t_crc t) (a_mem a)), delete n ts)
| A_input_published n t b pid generation_ i v a ts :
    e = Finish n → ts !! n = Some t → t_call t = InputPublish pid generation_ → t_copied t = true →
    bulk_slots (a_mem a) !! t_index t = Some b → b_state b = STORAGE_BULK_WRITING →
    a_slots a !! i = Some v → t_handle t = handle_of i v → state v = STORAGE_SLOT_INPUT_PENDING → asked_by v pid generation_ = true →
    act e (a, ts)
      (put_slot (put_mem a (bulk_published (t_index t) (t_length t) (t_crc t) (a_mem a))) i (with_state STORAGE_SLOT_QUEUED v), delete n ts)
| A_consumed n t b pid generation_ now_ms i v a ts :
    e = Finish n → ts !! n = Some t → t_call t = InputTake pid generation_ now_ms → t_copied t = true →
    bulk_slots (a_mem a) !! t_index t = Some b → b_state b = STORAGE_BULK_READING →
    a_slots a !! i = Some v → t_handle t = handle_of i v → entitled a v pid generation_ now_ms →
    act e (a, ts) (put_mem a (set_bulk_state (t_index t) STORAGE_BULK_CONSUMED (a_mem a)), delete n ts)
| A_dropped n t a ts :
    e = Finish n → ts !! n = Some t → t_copied t = true → act e (a, ts) (put_mem a (bulk_clear (t_index t) (a_mem a)), delete n ts)
| A_collected n t b i v frame a ts :
    e = Finish n → ts !! n = Some t → t_call t = BulkCollect i v frame → t_copied t = true →
    bulk_slots (a_mem a) !! t_index t = Some b → b_state b = STORAGE_BULK_READING →
    act e (a, ts) (release_state (put_mem a (bulk_clear (t_index t) (a_mem a))) i v, delete n ts).
