(* ===== verification/StorageRequestPoolInv.v ===== *)
(** The moves of the request pool keep its invariant. *)
From S2P Require Import Prelude ProtectedStore.
From S2P Require Import Crc32 Layout ProtectedRecord CriticalObject OwnedStore StorageRequestPool StorageRequestPoolSpec StorageRequestPoolLife.
Import StorageRequestPool.

(** ** Bulk slots *)
Lemma bulk_at_lookup m j b : bulk_slots m !! j = Some b → bulk_at m j = b.
Proof. intros Hj. unfold bulk_at. by rewrite nth_lookup, Hj. Qed.

Lemma transfer_states t : transfer_state t = STORAGE_BULK_WRITING ∨ transfer_state t = STORAGE_BULK_READING.
Proof. unfold transfer_state. destruct (is_publisher _); auto. Qed.
Lemma transfer_in slots bs t b : ticket_ok slots bs t → bs !! t_index t = Some b → in_transfer b.
Proof.
  intros (c & Hc & _ & Hs & _) Hb. rewrite Hb in Hc. injection Hc as <-. unfold in_transfer.
  destruct Hs as [->| ->]; [by right; right|]. destruct (transfer_states t) as [-> | ->]; auto.
Qed.

(** A change of one bulk slot. *)
Lemma bulk_inv_set slots bs ts ts' j b b' :
  bulk_inv slots bs ts → bs !! j = Some b → bulk_ok slots b' →
  (b_state b' ≠ STORAGE_BULK_FREE →
   (b_state b ≠ STORAGE_BULK_FREE ∧ request_handle b' = request_handle b) ∨
   (∀ k c, bs !! k = Some c → b_state c ≠ STORAGE_BULK_FREE → request_handle c ≠ request_handle b')) →
  (∀ t, t ∈ ts' → t_index t = j → ticket_ok slots (<[j := b']> bs) t) → (∀ t, t ∈ ts' → t_index t ≠ j → t ∈ ts) →
  NoDup (t_index <$> ts') → (in_transfer b' → j ∈ t_index <$> ts') →
  (∀ k, k ≠ j → k ∈ t_index <$> ts → k ∈ t_index <$> ts') →
  bulk_inv slots (<[j := b']> bs) ts'.
Proof.
  intros [Hl Hok Hd Ht Hn Ho] Hj Hb' Hh Ht1 Ht2 Hn' Ho1 Ho2. pose proof (lookup_lt_Some _ _ _ Hj) as Hlt. split.
  - by rewrite length_insert.
  - intros k c Hk. destruct (decide (k = j)) as [->|Hne].
    + rewrite list_lookup_insert_eq in Hk by done. by injection Hk as <-.
    + rewrite list_lookup_insert_ne in Hk by done. by eapply Hok.
  - assert (∀ k c, bs !! k = Some c → k ≠ j → b_state c ≠ STORAGE_BULK_FREE → b_state b' ≠ STORAGE_BULK_FREE →
      request_handle c ≠ request_handle b') as Hx.
    { intros k c Hk Hne Hc Hb E. destruct (Hh Hb) as [[Hb0 Eb]|Hf]; [|by apply (Hf k c)].
      apply Hne. apply (Hd k j c b); try done. congruence. }
    intros k k' c c' Hk Hk' Hc Hc' E.
    destruct (decide (k = j)) as [->|Hkj], (decide (k' = j)) as [->|Hkj'].
    + reflexivity.
    + rewrite list_lookup_insert_eq in Hk by done. injection Hk as <-. rewrite list_lookup_insert_ne in Hk' by done.
      exfalso. by apply (Hx k' c').
    + rewrite list_lookup_insert_eq in Hk' by done. injection Hk' as <-. rewrite list_lookup_insert_ne in Hk by done.
      exfalso. by apply (Hx k c).
    + rewrite list_lookup_insert_ne in Hk, Hk' by done. by apply (Hd k k' c c').
  - apply list.Forall_forall. intros t Hin. destruct (decide (t_index t = j)) as [E|Hne]; [by apply Ht1|].
    destruct (proj1 (list.Forall_forall _ _) Ht t (Ht2 t Hin Hne)) as (c & Hc & Hrest). exists c.
    by rewrite list_lookup_insert_ne.
  - done.
  - intros k c Hk Hc. destruct (decide (k = j)) as [->|Hne].
    + rewrite list_lookup_insert_eq in Hk by done. injection Hk as <-. by apply Ho1.
    + rewrite list_lookup_insert_ne in Hk by done. apply Ho2; [done|]. by apply (Ho k c).
Qed.

Section tickets.
Context (slots : list storage_slot_metadata_t) (bs : list storage_bulk_slot_t) (ts : list ticket).
Context (Hinv : bulk_inv slots bs ts).

(** A state change that concerns no transfer. *)
Lemma bulk_inv_idle j b b' :
  bs !! j = Some b → ¬ in_transfer b → ¬ in_transfer b' → bulk_ok slots b' →
  (b_state b' ≠ STORAGE_BULK_FREE →
   (b_state b ≠ STORAGE_BULK_FREE ∧ request_handle b' = request_handle b) ∨
   (∀ k c, bs !! k = Some c → b_state c ≠ STORAGE_BULK_FREE → request_handle c ≠ request_handle b')) →
  bulk_inv slots (<[j := b']> bs) ts.
Proof using Hinv.
  intros Hj Hb Hb' Hok Hh. pose proof Hinv as [_ _ _ Ht Hn _]. apply (bulk_inv_set _ _ ts _ _ b); try done.
  intros t Hin Hi. exfalso. apply Hb. eapply transfer_in; [by apply (proj1 (list.Forall_forall _ _) Ht t)|]. by rewrite Hi.
Qed.

(** A transfer begins. *)
Lemma bulk_inv_begin t b b' :
  bs !! t_index t = Some b → ¬ in_transfer b → b_state b ≠ STORAGE_BULK_FREE → bulk_ok slots b' → request_handle b' = request_handle b →
  ticket_ok slots (<[t_index t := b']> bs) t → bulk_inv slots (<[t_index t := b']> bs) (ts ++ [t]).
Proof using Hinv.
  intros Hj Hb Hbf Hok Hh Ht'. pose proof Hinv as [_ _ _ Ht Hn Ho].
  assert (t_index t ∉ t_index <$> ts) as Hnew.
  { intros (t' & Ei & Hin)%list_elem_of_fmap. apply Hb. eapply transfer_in; [by apply (proj1 (list.Forall_forall _ _) Ht t')|].
    by rewrite <- Ei. }
  apply (bulk_inv_set _ _ ts _ _ b); try done.
  - intros _. by left.
  - intros t' [Hin|Hin]%elem_of_app Hi.
    + exfalso. apply Hnew. rewrite <- Hi. by apply list_elem_of_fmap_2.
    + by apply list_elem_of_singleton in Hin as ->.
  - intros t' [Hin|Hin]%elem_of_app Hi; [done|]. by apply list_elem_of_singleton in Hin as ->.
  - rewrite fmap_app. apply list.NoDup_app. split; [done|]. split; [|by apply list.NoDup_singleton].
    intros k Hk Hk'. apply list_elem_of_singleton in Hk' as ->. done.
  - intros _. rewrite fmap_app. apply elem_of_app. right. by apply list_elem_of_singleton.
  - intros k _ Hk. rewrite fmap_app. apply elem_of_app. by left.
Qed.

(** A transfer ends. *)
Lemma bulk_inv_end n t b b' :
  ts !! n = Some t → bs !! t_index t = Some b → bulk_ok slots b' → ¬ in_transfer b' →
  (b_state b' ≠ STORAGE_BULK_FREE → b_state b ≠ STORAGE_BULK_FREE ∧ request_handle b' = request_handle b) →
  bulk_inv slots (<[t_index t := b']> bs) (delete n ts).
Proof using Hinv.
  intros Hn Hj Hok Hb' Hh. pose proof Hinv as [_ _ _ Ht Hnd Ho].
  pose proof (delete_Permutation _ _ _ Hn) as Hp. pose proof (fmap_Permutation t_index _ _ Hp) as Hpi.
  rewrite Hpi in Hnd. cbn [fmap list_fmap] in Hnd. apply list.NoDup_cons in Hnd as [Hnew Hnd].
  apply (bulk_inv_set _ _ ts _ _ b); try done.
  - intros Hf. left. by apply Hh.
  - intros t' Hin Hi. exfalso. apply Hnew. rewrite <- Hi. by apply list_elem_of_fmap_2.
  - intros t' Hin Hi. rewrite Hp. by right.
  - intros k Hk Hin. rewrite Hpi in Hin. apply elem_of_cons in Hin as [->|]; done.
Qed.

(** A transfer has copied. *)
Lemma bulk_inv_copied n t t' b b' :
  ts !! n = Some t → t_index t' = t_index t → bs !! t_index t = Some b → bulk_ok slots b' →
  (b_state b ≠ STORAGE_BULK_FREE ∧ request_handle b' = request_handle b) → ticket_ok slots (<[t_index t := b']> bs) t' →
  bulk_inv slots (<[t_index t := b']> bs) (<[n := t']> ts).
Proof using Hinv.
  intros Hn Hi Hj Hok Hh Ht'. pose proof Hinv as [_ _ _ Ht Hnd Ho].
  assert (t_index <$> <[n := t']> ts = t_index <$> ts) as Ef.
  { rewrite list_fmap_insert, Hi. apply list_insert_id. rewrite list_lookup_fmap, Hn. done. }
  assert (∀ x, x ∈ <[n := t']> ts → x = t' ∨ (x ∈ ts ∧ t_index x ≠ t_index t)) as Hx.
  { intros x Hin. apply list_elem_of_lookup_1 in Hin as [k Hk]. destruct (decide (k = n)) as [->|Hne].
    - rewrite list_lookup_insert_eq in Hk by (by apply lookup_lt_Some in Hn). left. congruence.
    - rewrite list_lookup_insert_ne in Hk by done. right. split; [by eapply list_elem_of_lookup_2|]. intros E. apply Hne.
      eapply (NoDup_lookup (t_index <$> ts) _ _ (t_index t)); [exact Hnd| |]; rewrite list_lookup_fmap, ?Hk, ?Hn; cbn; congruence. }
  apply (bulk_inv_set _ _ ts _ _ b); try done.
  - intros _. by left.
  - intros x Hin Ei. apply Hx in Hin as [->|[_ ?]]; done.
  - intros x Hin Ei. apply Hx in Hin as [->|[? _]]; done.
  - by rewrite Ef.
  - intros _. rewrite Ef, <- Hi. rewrite Hi. apply list_elem_of_fmap_2. by eapply list_elem_of_lookup_2.
  - intros k _ Hk. by rewrite Ef.
Qed.
End tickets.

(** A change of one slot: the request a bulk slot serves goes on. *)
Definition goes_on (v v' : storage_slot_metadata_t) : Prop :=
  live v' = true ∧ generation v' = generation v ∧ uses_bulk v' = true ∧
  (state v = STORAGE_SLOT_COMPLETE → operation v = STORAGE_REQUEST_VFS_BULK_READ → v' = v).
Lemma bulk_inv_put slots bs ts i v v' :
  bulk_inv slots bs ts → slots !! i = Some v → generation v <= generation v' →
  (∀ j b, bs !! j = Some b → b_state b ≠ STORAGE_BULK_FREE → b_state b ≠ STORAGE_BULK_REVOKED → request_handle b = handle_of i v →
     live v = true → goes_on v v') →
  bulk_inv (<[i := v']> slots) bs ts.
Proof.
  intros [Hl Hok Hd Ht Hn Ho] Hi Hg Hgo. pose proof (lookup_lt_Some _ _ _ Hi) as Hlt.
  split; try done.
  - intros j b Hj. destruct (Hok j b Hj) as (Hby & Hbulk & Hpay). split; [done|]. split; [|done].
    intros Hf. destruct (Hbulk Hf) as (k & w & g & Hk & Hh & Hgw & Hlive).
    destruct (decide (k = i)) as [->|Hne].
    + rewrite Hi in Hk. injection Hk as <-. exists i, v', g. rewrite list_lookup_insert_eq by done.
      split; [done|]. split; [done|]. split; [lia|]. intros Hr. destruct (Hlive Hr) as (-> & Hlv & _).
      destruct (Hgo j b Hj Hf Hr Hh Hlv) as (? & ? & ? & _). done.
    + exists k, w, g. by rewrite list_lookup_insert_ne.
  - eapply list.Forall_impl; [exact Ht|]. intros t (b & Hb & Hh & Hs & Hlen & Hdat & Htr & Hc). exists b. do 5 (split; [done|]). split; [|done].
    intros Hr. specialize (Htr Hr). unfold transfer_ok in *. destruct (t_call t) as [| | |slot w frame]; try done.
    destruct Htr as (? & ? & Hw & Hsw & Hop & Hrw & Hhw). split_and!; try done.
    destruct (decide (slot = i)) as [->|Hne]; [|by rewrite list_lookup_insert_ne].
    rewrite Hi in Hw. injection Hw as <-. rewrite list_lookup_insert_eq by done.
    assert (b_state b ≠ STORAGE_BULK_FREE) as Hf.
    { destruct Hs as [Es|Es]; rewrite Es; [done|]. destruct (transfer_states t) as [-> | ->]; done. }
    assert (live v = true) as Hlv by (unfold live, is_free; rewrite Hsw; done).
    destruct (Hgo _ b Hb Hf Hr (eq_trans Hh Hhw) Hlv) as (_ & _ & _ & E). by rewrite E.
Qed.

(** ** Data and counts *)
Lemma data_inv_put slots m i v v' :
  data_inv slots m → slots !! i = Some v → (if live v' then stored_length v' else 0) = (if live v then stored_length v else 0) →
  data_inv (<[i := v']> slots) m.
Proof.
  intros [Hl Hs Hb] Hi E. split; [done|done|]. intros k w Hk. destruct (decide (k = i)) as [->|Hne].
  - rewrite list_lookup_insert_eq in Hk by (by apply lookup_lt_Some in Hi). injection Hk as <-. rewrite E. by apply Hb.
  - rewrite list_lookup_insert_ne in Hk by done. by apply Hb.
Qed.

Lemma data_inv_store slots m m' i v v' d n :
  data_inv slots m → slots !! i = Some v → (i < 8)%nat → primary m' = <[i := d]> (primary m) → shadow m' = <[i := d]> (shadow m) →
  block_ok d n → (if live v' then stored_length v' else 0) = n → data_inv (<[i := v']> slots) m'.
Proof.
  intros [Hl Hs Hb] Hi H8 Ep Es Hd En. split.
  - by rewrite Ep, length_insert.
  - by rewrite Ep, Es, Hs.
  - intros k w Hk. rewrite Ep. unfold data_at. rewrite nth_lookup. destruct (decide (k = i)) as [->|Hne].
    + rewrite list_lookup_insert_eq in Hk by (by apply lookup_lt_Some in Hi). injection Hk as <-.
      rewrite list_lookup_insert_eq by lia. by rewrite En.
    + rewrite list_lookup_insert_ne in Hk by done. rewrite list_lookup_insert_ne by done. rewrite <- nth_lookup. by apply Hb.
Qed.

Lemma data_copy_ok data n : 0 <= n <= STORAGE_REQUEST_BLOCK_SIZE → block_ok (data_copy data n) n.
Proof.
  intros Hn. split_and!; [done|done|]. unfold data_copy. cbn [d_bytes]. rewrite length_bytes_copy; rewrite length_replicate; [done|].
  rewrite length_take. unfold_states. lia.
Qed.
Lemma zero_data_ok : block_ok zero_data 0.
Proof. split_and!; [done|done|]. cbn [zero_data d_bytes]. apply length_replicate. Qed.

Lemma active_bound slots s : length slots = 8%nat → count_inv slots s → 0 <= active_requests s <= 8.
Proof. intros Hl [Ha _ _]. pose proof (count_le live slots). rewrite Ha. lia. Qed.

Lemma client_owns_live p g v : client_owns p g v = true → live v = true.
Proof. unfold client_owns, client_has, live. destruct (is_free v); done. Qed.

Lemma count_inv_same slots s i v v' :
  count_inv slots s → slots !! i = Some v → live v' = live v → (∀ p g, client_owns p g v' = client_owns p g v) →
  count_inv (<[i := v']> slots) s.
Proof.
  intros [Ha Hh Hc] Hi El Eo. split; [|done|].
  - rewrite Ha, (count_insert _ _ _ _ _ Hi), El. lia.
  - intros p g. rewrite (count_insert _ _ _ _ _ Hi), Eo. specialize (Hc p g). lia.
Qed.

Lemma count_inv_added slots m i v v' p g :
  count_inv slots (request_stats m) → length slots = 8%nat → slots !! i = Some v → live v = false → live v' = true →
  (∀ p' g', client_owns p' g' v' = true → p' = p ∧ g' = g) → count (client_owns p g) slots < STORAGE_REQUEST_MAX_PER_CLIENT →
  count_inv (<[i := v']> slots) (request_stats (request_added m)).
Proof.
  intros [Ha Hh Hc] Hl Hi El El' Ho Hq. pose proof (count_le live (<[i := v']> slots)) as Hb. rewrite length_insert, Hl in Hb.
  pose proof (count_le live slots) as Hb0. pose proof (count_insert live _ _ _ v' Hi) as Ec. rewrite El, El' in Ec. cbn [Z.b2z] in Ec.
  unfold request_added, set_stats, increment_saturating. cbn.
  rewrite (proj2 (Z.eqb_neq (active_requests (request_stats m)) UINT32_MAX)) by (unfold UINT32_MAX; lia). cbn.
  split; cbn; [lia| |].
  - destruct (Z.ltb_spec (request_high_water (request_stats m)) (active_requests (request_stats m) + 1)); lia.
  - intros p' g'. rewrite (count_insert _ _ _ _ _ Hi). specialize (Hc p' g').
    destruct (client_owns p' g' v) eqn:Ev; [by rewrite (client_owns_live _ _ _ Ev) in El|]. cbn [Z.b2z].
    destruct (client_owns p' g' v') eqn:Ev'; cbn [Z.b2z]; [|lia]. destruct (Ho _ _ Ev') as [-> ->]. lia.
Qed.

Lemma count_inv_removed slots m i v v' :
  count_inv slots (request_stats m) → slots !! i = Some v → live v = true → live v' = false →
  count_inv (<[i := v']> slots) (request_stats (request_removed m)).
Proof.
  intros [Ha Hh Hc] Hi El El'. pose proof (count_pos live _ _ _ Hi El) as Hp.
  pose proof (count_insert live _ _ _ v' Hi) as Ec. rewrite El, El' in Ec. cbn [Z.b2z] in Ec.
  unfold request_removed, set_stats. cbn.
  rewrite (proj2 (Z.eqb_neq (active_requests (request_stats m)) 0)) by lia. cbn. split; cbn; [lia|lia|].
  intros p g. rewrite (count_insert _ _ _ _ _ Hi). specialize (Hc p g).
  destruct (client_owns p g v') eqn:Ev'; [by rewrite (client_owns_live _ _ _ Ev') in El'|]. cbn [Z.b2z].
  destruct (client_owns p g v); cbn [Z.b2z]; lia.
Qed.

(** ** A change of one live slot *)
Record carries_on (v v' : storage_slot_metadata_t) : Prop := {
  on_live : live v = true ∧ live v' = true;
  on_fine : fine metadata_ok v';
  on_request : request_of v' = request_of v;
  on_stored : stored_length v' = stored_length v;
  on_bulk : state v = STORAGE_SLOT_COMPLETE → operation v ≠ STORAGE_REQUEST_VFS_BULK_READ
}.

Lemma same_request v v' : request_of v' = request_of v → live v' = live v →
  generation v' = generation v ∧ uses_bulk v' = uses_bulk v ∧ (∀ p g, client_owns p g v' = client_owns p g v).
Proof.
  intros [= Eg Eo Ec Ecg _ Eoff _ _] El. split_and!; [done| |].
  - unfold uses_bulk, is_mutation. by rewrite Eo, Eoff.
  - intros p g. unfold client_owns, client_has. unfold live in El. by rewrite El, Ec, Ecg.
Qed.

Lemma base_put a i v' : base_ok a → fine metadata_ok v' → frame_full v' → base_ok (put_slot a i v').
Proof.
  intros [? Hf ? ? ? Hff] Hv Hfv. split; try done; cbn.
  - by rewrite length_insert.
  - by apply Forall_insert.
  - by apply Forall_insert.
Qed.

Lemma frame_same v v' : request_of v' = request_of v → live v = true → frame_full v → frame_full v'.
Proof. intros [= _ Eo _ _ _ _ El _] Hl Hf _. rewrite Eo, El. by apply Hf. Qed.
Lemma frame_free v : live v = false → frame_full v.
Proof. intros Hl Hl'. congruence. Qed.
Lemma base_frame a i v : base_ok a → a_slots a !! i = Some v → frame_full v.
Proof. intros Hb Hi. by apply (Forall_lookup_1 _ _ _ _ (base_frames _ Hb) Hi). Qed.

Lemma bulk_inv_same a bs ts i v v' :
  base_ok a → bulk_inv (a_slots a) bs ts → a_slots a !! i = Some v → live v' = live v → request_of v' = request_of v →
  (state v = STORAGE_SLOT_COMPLETE → operation v ≠ STORAGE_REQUEST_VFS_BULK_READ) → bulk_inv (<[i := v']> (a_slots a)) bs ts.
Proof.
  intros Hb Hk Hi El Hr Hbulk. destruct (same_request _ _ Hr El) as (Eg & Eu & Eo).
  apply (bulk_inv_put _ _ _ _ v); [done|done|lia|]. intros j b Hj Hf1 Hf2 Hh _.
  destruct (bulk_slots_ok _ _ _ Hk _ _ Hj) as (_ & Hof & _). destruct (Hof Hf1) as (k & w & g & Hw & Hhw & Hgw & Hlive).
  destruct (Hlive Hf2) as (-> & Hlw & Huw). rewrite Hh in Hhw.
  destruct (base_lookup _ Hb _ _ Hi) as [Hi8 _], (base_lookup _ Hb _ _ Hw) as [Hw8 _].
  apply make_handle_inj in Hhw as [-> _]; [|done|done|by eapply base_generation..]. rewrite Hi in Hw. injection Hw as <-.
  split_and!; [congruence|done|congruence|]. intros Hc1 Hc2. by destruct (Hbulk Hc1).
Qed.

Lemma inv_put a ts i v v' : inv a ts → a_slots a !! i = Some v → carries_on v v' → inv (put_slot a i v') ts.
Proof.
  intros [Hb Hd Hk Hc] Hi [[Hl Hl'] Hf Hr Hs Hbulk].
  assert (live v' = live v) as El by congruence. destruct (same_request _ _ Hr El) as (Eg & Eu & Eo). split.
  - apply base_put; [done|done|]. eapply frame_same; [done|done|by eapply base_frame].
  - apply (data_inv_put _ _ _ v); [done|done|]. by rewrite El, Hl.
  - by apply (bulk_inv_same _ _ _ _ v).
  - by apply (count_inv_same _ _ _ v).
Qed.

(** What a changed slot must satisfy, field by field. *)
Lemma carries_intro v v' :
  well_typed v → request_ok v → live v = true → live v' = true → request_of v' = request_of v → progress_ok v' →
  is_u32 (state v') ∧ is_u32 (service_pid v') ∧ is_u32 (service_generation v') ∧ is_u32 (result v') ∧
    is_u32 (mutation_resource_plus_one v') ∧ is_u32 (mutation_state v') →
  completed v' && (result v' =? 0) = completed v && (result v =? 0) →
  (state v = STORAGE_SLOT_COMPLETE → operation v ≠ STORAGE_REQUEST_VFS_BULK_READ) → carries_on v v'.
Proof.
  intros Ht Hr Hl Hl' E Hp Hty Hs Hb. pose proof E as [= Eg Eo Ec Ecg Er Eoff Elen Ed]. split; try done.
  - apply fine_live; [done| | |done].
    + apply metadata_typed in Ht. apply metadata_typed. rewrite Eg, Eo, Ec, Ecg, Er, Eoff, Elen, Ed. clear - Ht Hty. tauto.
    + destruct Hr as [? ? ? ? ? ?]. unfold is_mutation, length_ok in *. split; unfold is_mutation, length_ok;
        rewrite ?Eg, ?Eo, ?Ec, ?Ecg, ?Er, ?Eoff, ?Elen, ?Ed; done.
  - unfold stored_length. by rewrite Eo, Elen, Hs.
Qed.

Ltac edge_fields := cbn [with_state with_result with_service with_mutation state generation operation client_pid client_generation service_pid
  service_generation resource offset length_ result deadline_ms mutation_resource_plus_one mutation_state] in *.

Lemma with_state_carries s v :
  well_typed v → request_ok v → progress_ok v → live v = true →
  s = STORAGE_SLOT_CANCEL_PENDING ∧ state v = STORAGE_SLOT_CLAIMED ∨
  is_mutation v = true ∧ STORAGE_SLOT_DELIVERING <= s <= STORAGE_SLOT_DELIVERED ∧ (state v = STORAGE_SLOT_COMPLETE ∨ STORAGE_SLOT_DELIVERING <= state v) ∨
  s = STORAGE_SLOT_QUEUED ∧ state v = STORAGE_SLOT_INPUT_PENDING →
  carries_on v (with_state s v).
Proof.
  intros Ht Hr Hp Hl Hs. pose proof Ht as Ht'%metadata_typed. unfold_words.
  pose proof (pg_open _ Hp) as Ho. pose proof (pg_bound _ Hp) as Hb.
  apply carries_intro; [done|done|done| |done| | | |]; unfold live, is_free, completed; edge_fields.
  - clear Hb. unfold_states. lia.
  - clear Ht' Hl. destruct Hs as [[-> Hs]|[(Hm & Hs1 & Hs2)|[-> Hs]]]; split; unfold is_mutation in *; edge_fields; try done;
      try (clear Hb Ho; unfold_states; lia).
    + intros Hne. destruct (Hb Hne) as (? & ? & ? & _). by split_and!.
    + intros _. destruct (pg_served _ Hp) as [? ?]; [by left|]. by split.
    + intros Hne. destruct (Hb Hne) as (? & ? & ? & _). split_and!; try done; clear - Hs1; unfold_states; lia.
    + intros Hne. exfalso. by destruct (Hb Hne) as (_ & _ & _ & _ & ?).
    + intros _. apply (pg_waiting _ Hp). by right.
  - clear Hb Ho. unfold_words. unfold_states. lia.
  - clear Hb Ho. unfold_states. lia.
  - clear Hb Ho. unfold is_mutation in *. unfold_states. lia.
Qed.

Lemma expire_carries r v :
  well_typed v → request_ok v → progress_ok v → state v = STORAGE_SLOT_QUEUED ∨ state v = STORAGE_SLOT_INPUT_PENDING →
  is_u32 r → r ≠ 0 → carries_on v (with_result STORAGE_SLOT_COMPLETE r v).
Proof.
  intros Ht Hr Hp Hs Hu Hn. pose proof Ht as Ht'%metadata_typed.
  destruct (pg_waiting _ Hp Hs) as [Hw Hw']. pose proof (pg_open _ Hp) as Ho.
  assert (mutation_state v = 0) as Hm.
  { destruct (decide (mutation_state v = 0)) as [|Hne]; [done|]. destruct (pg_bound _ Hp Hne) as (_ & _ & _ & ? & ?). by destruct Hs. }
  assert (live v = true) as Hl by (unfold live, is_free; unfold_states; clear - Hs; lia).
  apply carries_intro; [done|done|done|done|done| | | |]; unfold completed; edge_fields.
  - split; unfold is_mutation; edge_fields; try done; try (clear - Ht' Hm Hs; unfold_states; lia).
    intros _. left. by split.
  - clear Ho. unfold_words. unfold_states. lia.
  - clear Ho Ht'. unfold_states. lia.
  - clear - Hs. unfold_states. lia.
Qed.

Lemma claim_carries p g v :
  well_typed v → request_ok v → progress_ok v → state v = STORAGE_SLOT_QUEUED → is_u32 p → is_u32 g → 0 < s32 p → g ≠ 0 →
  carries_on v (with_service STORAGE_SLOT_CLAIMED p g v).
Proof.
  intros Ht Hr Hp Hs Hu Hu' Hn Hn'. pose proof Ht as Ht'%metadata_typed. pose proof (pg_open _ Hp) as Ho.
  assert (mutation_state v = 0) as Hm.
  { destruct (decide (mutation_state v = 0)) as [|Hne]; [done|]. by destruct (pg_bound _ Hp Hne) as (_ & _ & _ & ? & ?). }
  assert (live v = true) as Hl by (unfold live, is_free; unfold_states; clear - Hs; lia).
  apply carries_intro; [done|done|done|done|done| | | |]; unfold completed; edge_fields.
  - split; unfold is_mutation; edge_fields; try done; try (clear - Hm Hs; unfold_states; lia).
  - clear Ho. unfold_words. unfold_states. lia.
  - clear Ho Ht'. unfold_states. lia.
  - clear - Hs. unfold_states. lia.
Qed.

Lemma mutation_carries r s v :
  well_typed v → request_ok v → progress_ok v → is_mutation v = true → state v = STORAGE_SLOT_CLAIMED →
  0 < r <= 32 → 0 < s <= MUTATION_FINISHED_UNKNOWN → carries_on v (with_mutation r s v).
Proof.
  intros Ht Hr Hp Hm Hs Hr' Hs'. pose proof Ht as Ht'%metadata_typed. destruct (pg_served _ Hp) as [Hsp Hsg]; [by left|].
  assert (live v = true) as Hl by (unfold live, is_free; unfold_states; clear - Hs; lia).
  apply carries_intro; [done|done|done|done|done| | | |]; unfold completed; edge_fields.
  - split; unfold is_mutation in *; edge_fields; try done; try (clear - Hs Hs' Hr'; unfold_states; lia).
    intros _. split_and!; try done; clear - Hs; unfold_states; lia.
  - unfold_words. unfold_states. lia.
  - done.
  - clear - Hs. unfold_states. lia.
Qed.

Lemma edge_carries e a i v v' : base_ok a → a_slots a !! i = Some v → edge e a i v v' → carries_on v v'.
Proof.
  intros Hb Hi He.
  assert (live v = true → well_typed v ∧ request_ok v ∧ progress_ok v) as Hlive.
  { intros Hl. destruct (base_live _ Hb _ _ Hi Hl). destruct (base_lookup _ Hb _ _ Hi) as [_ [? _]]. done. }
  assert (∀ s, s ≠ STORAGE_SLOT_FREE → s ≠ STORAGE_SLOT_RETIRED → state v = s → live v = true) as Hl.
  { intros s H1 H2 Hs. unfold live, is_free. rewrite Hs. unfold_states. clear - H1 H2. lia. }
  destruct He.
  - destruct Hlive as (? & ? & ?); [destruct H0 as [E|E]; by eapply Hl, E|].
    apply expire_carries; try done; try (unfold deadline_passed; ulia).
  - destruct Hlive as (? & ? & ?); [by eapply Hl, H3|]. pose proof (base_service _ Hb) as [Hid _]. rewrite H0 in Hid.
    apply identity_typed in Hid as [? ?]. by apply claim_carries.
  - destruct Hlive as (? & ? & ?); [by eapply Hl, H2|]. apply with_state_carries; try done; [by eapply Hl, H2|]. left. by split.
  - destruct Hlive as (? & ? & Hp); [destruct H1 as [E|E]; by eapply Hl, E|].
    apply with_state_carries; try done; [destruct H1 as [E|E]; by eapply Hl, E|]. right. left.
    assert (STORAGE_SLOT_DELIVERING <= state v) by (clear - H1; unfold_states; lia).
    split; [by apply (pg_reply _ Hp)|]. split; [unfold_states; lia|by right].
  - destruct H0 as (_ & _ & _ & Hm & _ & Hs & _). destruct Hlive as (? & ? & ?); [by eapply Hl, Hs|].
    apply mutation_carries; try done; unfold_states; lia.
  - destruct H0 as (_ & _ & _ & Hm & _ & Hs & _). destruct Hlive as (? & ? & Hp); [by eapply Hl, Hs|].
    pose proof (pg_open _ Hp) as Ho. apply metadata_typed in H0 as Ht. apply mutation_carries; try done.
    clear - Ho H3 Ht. unfold_words. unfold_states. lia.
  - destruct H0 as (_ & _ & _ & Hm & _ & Hs & _). destruct Hlive as (? & ? & Hp); [by eapply Hl, Hs|].
    pose proof (pg_open _ Hp) as Ho. apply metadata_typed in H0 as Ht. apply mutation_carries; try done.
    + clear - Ho H1 Ht. unfold open_on in H1. unfold_words. unfold_states. lia.
    + unfold finished. destruct (outcome =? STORAGE_MUTATION_NO_EFFECT), (outcome =? STORAGE_MUTATION_DURABLE); unfold_states; lia.
  - destruct Hlive as (? & ? & ?); [by eapply Hl, H2|]. apply with_state_carries; try done; [by eapply Hl, H2|]. right. left.
    split; [done|]. split; [unfold_states; lia|by left].
  - destruct Hlive as (? & ? & ?); [by eapply Hl, H2|]. apply with_state_carries; try done; [by eapply Hl, H2|]. right. left.
    split; [done|]. split; [unfold_states; lia|]. right. by rewrite H2.
Qed.

(** ** Searching the bulk slots *)
Section search.
Context (m : mem) (Hlen : length (bulk_slots m) = 2%nat).

Lemma bulk_lookup_at j : (j < 2)%nat → bulk_slots m !! j = Some (bulk_at m j).
Proof using Hlen.
  intros Hj. destruct (lookup_lt_is_Some_2 (bulk_slots m) j) as [b Hb]; [by rewrite Hlen|].
  by rewrite Hb, (bulk_at_lookup _ _ _ Hb).
Qed.

Lemma find_bulk_some f j : List.find f all_bulk = Some j → ∃ b, bulk_slots m !! j = Some b ∧ bulk_at m j = b ∧ f j = true.
Proof using Hlen.
  intros [Hin Hf]%List.find_some. apply in_seq in Hin. exists (bulk_at m j). split_and!; try done.
  apply bulk_lookup_at. unfold STORAGE_REQUEST_BULK_CAPACITY in Hin. lia.
Qed.
Lemma find_bulk_none f j b : List.find f all_bulk = None → bulk_slots m !! j = Some b → f j = false.
Proof using Hlen.
  intros Hn Hj. apply (find_none _ _ Hn). apply in_seq. apply lookup_lt_Some in Hj. rewrite Hlen in Hj. unfold STORAGE_REQUEST_BULK_CAPACITY. lia.
Qed.

Lemma bulk_find_some h j : bulk_find h m = Some j →
  ∃ b, bulk_slots m !! j = Some b ∧ bulk_at m j = b ∧ b_state b ≠ STORAGE_BULK_FREE ∧ request_handle b = h.
Proof using Hlen.
  intros (b & Hb & Eb & Hf)%find_bulk_some. exists b. unfold bulk_named in Hf. rewrite Eb in Hf.
  apply andb_true_iff in Hf as [Hf ->%Z.eqb_eq]. apply negb_true_iff, Z.eqb_neq in Hf. by split_and!.
Qed.
Lemma bulk_find_none h j b : bulk_find h m = None → bulk_slots m !! j = Some b → b_state b ≠ STORAGE_BULK_FREE → request_handle b ≠ h.
Proof using Hlen.
  intros Hn Hb Hf E. pose proof (find_bulk_none _ _ _ Hn Hb) as H. unfold bulk_named in H.
  rewrite (bulk_at_lookup _ _ _ Hb), E, Z.eqb_refl, andb_true_r in H. apply negb_false_iff, Z.eqb_eq in H. done.
Qed.
Lemma bulk_find_unique slots ts h j b :
  bulk_inv slots (bulk_slots m) ts → bulk_slots m !! j = Some b → b_state b ≠ STORAGE_BULK_FREE → request_handle b = h →
  bulk_find h m = Some j.
Proof using Hlen.
  intros Hk Hj Hf Hh. destruct (bulk_find h m) as [k|] eqn:Ef.
  - apply bulk_find_some in Ef as (c & Hc & _ & Hcf & Hch). f_equal. apply (bulk_distinct _ _ _ Hk _ _ c b); try done. congruence.
  - exfalso. by apply (bulk_find_none _ _ _ Ef Hj Hf).
Qed.
End search.

Lemma bulk_ok_free slots b : bulk_ok slots b → bulk_ok slots (bulk_reset STORAGE_BULK_FREE 0 b).
Proof. intros (Hb & _ & _). split_and!; [done|done|]. intros [|[|]]; done. Qed.
Lemma free_idle b : b_state b = STORAGE_BULK_FREE → ¬ in_transfer b.
Proof. unfold in_transfer. intros ->. unfold_states. lia. Qed.

(** The end of the bulk slot of a request. *)
Lemma bulk_release_inv slots m ts h :
  bulk_inv slots (bulk_slots m) ts →
  bulk_inv slots (bulk_slots (bulk_release h m)) ts ∧
  (∀ j b, bulk_slots (bulk_release h m) !! j = Some b → b_state b ≠ STORAGE_BULK_FREE → b_state b ≠ STORAGE_BULK_REVOKED → request_handle b ≠ h).
Proof.
  intros Hk. pose proof (bulk_length _ _ _ Hk) as Hl. unfold bulk_release. destruct (bulk_find h m) as [j|] eqn:Ef.
  2: { split; [done|]. intros k c Hc Hcf _. by apply (bulk_find_none m Hl _ _ _ Ef Hc). }
  apply bulk_find_some in Ef as (b & Hb & -> & Hbf & Hh); [|done].
  assert (∀ b', b_state b' = STORAGE_BULK_FREE ∨ b_state b' = STORAGE_BULK_REVOKED →
    ∀ k c, <[j := b']> (bulk_slots m) !! k = Some c → b_state c ≠ STORAGE_BULK_FREE → b_state c ≠ STORAGE_BULK_REVOKED → request_handle c ≠ h) as Hno.
  { intros b' Hb' k c Hc Hcf Hcr E. destruct (decide (k = j)) as [->|Hne].
    - rewrite list_lookup_insert_eq in Hc by (by apply lookup_lt_Some in Hb). injection Hc as <-. destruct Hb'; congruence.
    - rewrite list_lookup_insert_ne in Hc by done. apply Hne. apply (bulk_distinct _ _ _ Hk _ _ c b); try done. congruence. }
  destruct (bulk_slots_ok _ _ _ Hk _ _ Hb) as (Hby & Hof & Hpay).
  destruct ((b_state b =? STORAGE_BULK_WRITING) || (b_state b =? STORAGE_BULK_READING) || (b_state b =? STORAGE_BULK_REVOKED)) eqn:Es.
  - split; [|apply Hno; by right]. cbn [set_bulk bulk_slots].
    assert (in_transfer b) as Hin by (unfold in_transfer; unfold_states; lia).
    apply (bulk_inv_set _ _ ts _ _ b); try done.
    + split_and!; [done| |].
      * intros _. destruct (Hof Hbf) as (i & v & g & ? & ? & ? & _). by exists i, v, g.
      * intros [|[|]]; done.
    + intros _. left. by split.
    + intros t Hin' Hi. destruct (proj1 (list.Forall_forall _ _) (bulk_tickets _ _ _ Hk) t Hin') as (c & Hc & Hhc & Hs & Hlen & Hd & Htr & Hcp).
      rewrite Hi, Hb in Hc. injection Hc as <-. eexists. rewrite Hi, list_lookup_insert_eq by (by apply lookup_lt_Some in Hb).
      split; [done|]. split; [done|]. split; [by left|]. split; [done|]. split; [done|]. split; [by intros []|].
      intros Hcp'. specialize (Hcp Hcp'). destruct (is_publisher (t_call t)); [done|]. by intros [=].
    + by apply (bulk_owners _ _ _ Hk).
    + intros _. by apply (bulk_owned _ _ _ Hk j b).
  - split; [|apply Hno; by left]. cbn [set_bulk bulk_slots]. apply (bulk_inv_idle _ _ _ Hk _ b).
    + done.
    + unfold in_transfer. unfold_states. lia.
    + by apply free_idle.
    + by apply bulk_ok_free.
    + by intros [].
Qed.

Lemma bulk_release_rest h m :
  primary (bulk_release h m) = primary m ∧ shadow (bulk_release h m) = shadow m ∧
  mutation_fences_initialized (bulk_release h m) = mutation_fences_initialized m ∧ request_stats (bulk_release h m) = request_stats m.
Proof. unfold bulk_release. destruct (bulk_find h m); [|done]. by destruct (_ || _ || _). Qed.

Lemma inv_release a ts i v : inv a ts → a_slots a !! i = Some v → live v = true → inv (release_state a i v) ts.
Proof.
  intros [Hb Hd Hk Hc] Hi Hl. destruct (bulk_release_rest (handle_of i v) (a_mem a)) as (Ep & Es & Ef & Est).
  destruct (bulk_release_inv _ _ _ (handle_of i v) Hk) as [Hk' Hno]. destruct (base_lookup _ Hb _ _ Hi) as [Hi8 Hf].
  pose proof (base_generation _ Hb _ _ Hi) as Hg. unfold release_state, release_mem. split.
  - destruct Hb as [? Hfs ? ? Hini Hff]. split; cbn; [by rewrite length_insert| |done|done|by rewrite Ef|].
    + apply Forall_insert; [done|by apply released_fine].
    + apply Forall_insert; [done|]. apply frame_free, released_free.
  - apply (data_inv_store _ (a_mem a) _ _ v _ zero_data 0); try done; cbn; rewrite ?Ep, ?Es; try done.
    by rewrite released_free.
  - apply (bulk_inv_put _ _ _ _ v); [done|done|by apply released_generation|]. intros j b Hj Hf1 Hf2 Hh _. exfalso. by apply (Hno j b).
  - apply (count_inv_removed _ _ _ v); [cbn; by rewrite Est|done|done|apply released_free].
Qed.

(** ** Submission *)
Lemma kinds_of_operations op :
  STORAGE_REQUEST_READ <= op <= STORAGE_REQUEST_VFS_OBJECT_MUTATE → is_without_data op = false →
  op = STORAGE_REQUEST_BLOCK_READ ∨ op = STORAGE_REQUEST_BLOCK_WRITE ∨ op = STORAGE_REQUEST_VFS_READ ∨ op = STORAGE_REQUEST_VFS_WRITE ∨
  is_frame op = true.
Proof.
  intros Hr Hw. unfold is_without_data, without_data, is_frame in *. cbn [existsb] in *.
  unfold STORAGE_REQUEST_BLOCK_FLUSH, STORAGE_REQUEST_VFS_SYNC, STORAGE_REQUEST_FORMAT_FAT12, STORAGE_REQUEST_FORMAT_FAT32,
    STORAGE_REQUEST_FORMAT_FAT32_SCAN, STORAGE_REQUEST_FORMAT_FAT32_PREPARE, STORAGE_REQUEST_CHECK_FAT12,
    STORAGE_REQUEST_REPAIR_FAT12_MIRROR, STORAGE_REQUEST_REPAIR_FAT12_CHAINS, STORAGE_REQUEST_REPAIR_FAT12_SHORT_FILES,
    STORAGE_REQUEST_RECLAIM_FAT12_ORPHANS, STORAGE_REQUEST_REPAIR_FAT12_LOOPS, STORAGE_REQUEST_REPAIR_FAT12_DIRECTORY_LOOPS,
    STORAGE_REQUEST_REPAIR_FAT12_SHORT_LOOPS, STORAGE_REQUEST_REPAIR_FAT12_CROSSLINKS, STORAGE_REQUEST_REPAIR_FAT12_DIRECTORY_SIZE,
    STORAGE_REQUEST_REPAIR_FAT12_VOLUME_LABEL, STORAGE_REQUEST_REPAIR_FAT12_ZERO_FILES, STORAGE_REQUEST_REPAIR_FAT12_ZERO_START_FILES,
    STORAGE_REQUEST_REPAIR_FAT12_DOT_SIZE, STORAGE_REQUEST_REPAIR_FAT12_DOT_CLUSTER, STORAGE_REQUEST_REPAIR_FAT12_REQUIRED_CROSSLINKS,
    STORAGE_REQUEST_REPAIR_FAT12_DIRECTORY_CROSSLINKS, STORAGE_REQUEST_REPAIR_FAT12_DIRECTORY_TOPOLOGY,
    STORAGE_REQUEST_SALVAGE_FAT12_ORPHANS, STORAGE_REQUEST_RECORD_FAT12_BAD_SECTOR, STORAGE_REQUEST_VFS_SHADOW_STAT,
    STORAGE_REQUEST_VFS_SYMLINK, STORAGE_REQUEST_VFS_NAMESPACE, STORAGE_REQUEST_VFS_READ, STORAGE_REQUEST_VFS_WRITE in *.
  unfold_states. lia.
Qed.

Lemma deadline_after_ok now t : is_u64 now → is_u32 t → 0 < t → is_u64 (deadline_after now t) ∧ deadline_after now t ≠ 0.
Proof. intros. unfold deadline_after. destruct (Z.ltb_spec (UINT64_MAX - now) t); ulia. Qed.

Section submission.
Context (p g now : Z) (r : storage_request_submit_t) (data : option (list Z)) (n : Z).
Context (Hchecks : submit_checks p g r data true = 0) (Htyped : submit_typed p g now r).
Context (Hn : 0 < n <= STORAGE_HANDLE_GENERATION_MAX).
Let v := submitted p g now r n.

Lemma submitted_live : live v = true.
Proof using. unfold live, is_free, v, submitted. cbn [state]. by destruct (by_input r). Qed.

Lemma submitted_request : request_ok v.
Proof using All.
  pose proof Htyped as (Hp & Hg & Hnow & Ho & Hr & Hoff & Hl & Ht). unfold submit_checks in Hchecks.
  repeat (match type of Hchecks with (if ?c then _ else _) = _ => destruct c eqn:?; try done end).
  clear Hchecks. unfold_words.
  split; unfold v, submitted; edge_fields.
  - done.
  - lia.
  - apply deadline_after_ok; [done|done|lia].
  - lia.
  - unfold length_ok. edge_fields. unfold expected_length in *. destruct (is_without_data (r_operation r)) eqn:Ew; [unfold_states; lia|].
    destruct (kinds_of_operations (r_operation r)) as [E|[E|[E|[E|E]]]]; [lia|done|..]; rewrite E in *; cbn [Z.eqb orb andb] in *; unfold_states; lia.
  - unfold is_mutation. edge_fields. intros E. apply Z.eqb_eq in E. unfold expected_length, set_ in *. rewrite E in *.
    cbn [Z.eqb is_frame existsb orb andb is_without_data] in *. unfold_states. cbn in *. lia.
Qed.

Lemma submitted_frame : frame_full v.
Proof using All.
  intros _ Hop. unfold v, submitted in *. edge_fields. unfold submit_checks in Hchecks. rewrite Hop in Hchecks.
  repeat (match type of Hchecks with (if ?c then _ else _) = _ => destruct c eqn:?; try done end).
  change (is_frame STORAGE_REQUEST_VFS_BULK_READ) with true in *. unfold expected_length in *. rewrite Hop in *.
  change (is_without_data STORAGE_REQUEST_VFS_BULK_READ) with false in *. cbn [andb] in *. lia.
Qed.

Lemma submitted_progress : progress_ok v.
Proof using All.
  unfold v, submitted, by_input. split; unfold is_mutation; edge_fields; destruct (r_operation r =? STORAGE_REQUEST_VFS_OBJECT_MUTATE) eqn:E;
    cbn [andb]; destruct (set_ (r_offset r)) eqn:E'; unfold set_ in *; unfold_states; lia.
Qed.

Lemma submitted_fine : fine metadata_ok v.
Proof using All.
  apply fine_live; [apply submitted_live| |apply submitted_request|apply submitted_progress].
  pose proof Htyped as (Hp & Hg & Hnow & Ho & Hr & Hoff & Hl & Ht).
  apply metadata_typed. unfold v, submitted. edge_fields.
  destruct (deadline_after_ok now (r_timeout_ms r) Hnow Ht) as [Hd _].
  { unfold submit_checks in Hchecks. destruct (_ || _) eqn:E in Hchecks; [done|]. unfold_words. lia. }
  assert (is_u32 (expected_length r)) by (unfold expected_length; destruct (is_without_data _); [ulia|done]).
  split_and!; try done; try ulia; unfold_states; unfold_words; [destruct (by_input r)|]; lia.
Qed.
End submission.

Lemma submit_data_rest r data i m :
  bulk_slots (submit_data r data i m) = bulk_slots m ∧ request_stats (submit_data r data i m) = request_stats m ∧
  mutation_fences_initialized (submit_data r data i m) = mutation_fences_initialized m.
Proof. unfold submit_data. by destruct (operation_has_input _). Qed.
Lemma bulk_reserve_rest h m :
  primary (bulk_reserve h m).2 = primary m ∧ shadow (bulk_reserve h m).2 = shadow m ∧
  request_stats (bulk_reserve h m).2 = request_stats m ∧
  mutation_fences_initialized (bulk_reserve h m).2 = mutation_fences_initialized m.
Proof. unfold bulk_reserve. by destruct (List.find _ _). Qed.

Lemma bulk_reserve_inv slots m ts i v :
  bulk_inv slots (bulk_slots m) ts → slots !! i = Some v → live v = true → uses_bulk v = true → 0 < generation v →
  (∀ k c, bulk_slots m !! k = Some c → b_state c ≠ STORAGE_BULK_FREE → request_handle c ≠ handle_of i v) →
  bulk_inv slots (bulk_slots (bulk_reserve (handle_of i v) m).2) ts.
Proof.
  intros Hk Hi Hl Hu Hg Hfresh. pose proof (bulk_length _ _ _ Hk) as Hlen. unfold bulk_reserve.
  destruct (List.find (bulk_is_free m) all_bulk) as [j|] eqn:Ef; [|done]. cbn [snd set_bulk bulk_slots].
  apply (find_bulk_some m Hlen) in Ef as (b & Hb & Eb & Hf). unfold bulk_is_free in Hf. rewrite Eb in *. apply Z.eqb_eq in Hf.
  destruct (bulk_slots_ok _ _ _ Hk _ _ Hb) as (Hby & _ & _).
  apply (bulk_inv_idle _ _ _ Hk _ b); [done|by apply free_idle| | |].
  - unfold in_transfer. cbn. unfold_states. lia.
  - split_and!; [done| |].
    + intros _. exists i, v, (generation v). by split_and!.
    + unfold has_payload. cbn. unfold_states. lia.
  - intros _. right. intros k c Hc Hcf. by apply (Hfresh k c).
Qed.

Lemma submit_stored p g now r n :
  (if live (submitted p g now r n) then stored_length (submitted p g now r n) else 0) =
  if operation_has_input (r_operation r) then expected_length r else 0.
Proof.
  rewrite submitted_live. unfold stored_length, submitted, completed. edge_fields. destruct (by_input r); cbn; by rewrite orb_false_r.
Qed.

Lemma inv_submit e pid generation_ r data now_ms i v a ts :
  inv a ts → e = Invoke (CSubmit pid generation_ (Some r) data now_ms true) → submit_checks pid generation_ r data true = 0 →
  submit_typed pid generation_ now_ms r → a_slots a !! i = Some v → state v = STORAGE_SLOT_FREE →
  generation v ≠ STORAGE_HANDLE_GENERATION_MAX →
  count (client_owns pid generation_) (a_slots a) < STORAGE_REQUEST_MAX_PER_CLIENT →
  inv (State (<[i := submitted pid generation_ now_ms r (generation v + 1)]> (a_slots a)) (a_service a) (a_mask a)
        (submit_mem i r (make_handle i (generation v + 1)) data (a_mem a))) ts.
Proof.
  intros [Hb Hd Hk Hc] _ Hch Hty Hi Hs Hg Hq. pose proof (base_generation _ Hb _ _ Hi) as Hgen.
  destruct (base_lookup _ Hb _ _ Hi) as [Hi8 Hf]. set (w := submitted pid generation_ now_ms r (generation v + 1)).
  assert (0 < generation v + 1 <= STORAGE_HANDLE_GENERATION_MAX) as Hn by lia.
  assert (live w = true) as Hlw by apply submitted_live.
  assert (live v = false) as Hlv by (unfold live, is_free; by rewrite Hs).
  destruct (submit_data_rest r data i (a_mem a)) as (Eb & Est & Ei).
  destruct (bulk_reserve_rest (make_handle i (generation v + 1)) (submit_data r data i (a_mem a))) as (Ep & Es & Est' & Ei').
  unfold submit_mem. split.
  - destruct Hb as [? Hfs ? ? Hini Hff]. split; cbn; [by rewrite length_insert| |done|done| |].
    + apply Forall_insert; [done|]. by eapply submitted_fine.
    + destruct (needs_bulk r); cbn; [by rewrite Ei', Ei|by rewrite Ei].
    + apply Forall_insert; [done|]. by eapply submitted_frame.
  - set (d := if operation_has_input (r_operation r) then data_copy (default [] data) (expected_length r) else data_copy [] 0).
    apply (data_inv_store _ (a_mem a) _ _ v _ d (if operation_has_input (r_operation r) then expected_length r else 0)); try done.
    + cbn. destruct (needs_bulk r); rewrite ?Ep; unfold submit_data, d; by destruct (operation_has_input _).
    + cbn. destruct (needs_bulk r); rewrite ?Es; unfold submit_data, d; by destruct (operation_has_input _).
    + unfold d. destruct (operation_has_input _); apply data_copy_ok; [|unfold_states; lia].
      pose proof (rq_length _ (submitted_request _ _ _ _ _ _ Hch Hty Hn)) as [Hl _]. destruct Hty as (_ & _ & _ & _ & _ & _ & Hu & _).
      cbn in Hl. unfold expected_length in *. destruct (is_without_data _); [unfold_states; lia|]. unfold_words. lia.
    + apply submit_stored.
  - cbn [a_slots a_mem request_added set_stats bulk_slots].
    assert (bulk_inv (<[i:=w]> (a_slots a)) (bulk_slots (submit_data r data i (a_mem a))) ts) as Hk'.
    { rewrite Eb. apply (bulk_inv_put _ _ _ _ v); [done|done|cbn; lia|]. intros j b _ _ _ _ Hx. congruence. }
    destruct (needs_bulk r) eqn:En; [|done]. apply (bulk_reserve_inv _ _ _ i w); try done.
    + apply list_lookup_insert_eq. by eapply lookup_lt_Some.
    + cbn. lia.
    + rewrite Eb. intros j c Hj Hcf Hh. destruct (bulk_slots_ok _ _ _ Hk _ _ Hj) as (_ & Hof & _).
      destruct (Hof Hcf) as (k & u & g & Hu & Hhu & Hgu & _). rewrite Hh in Hhu.
      destruct (base_lookup _ Hb _ _ Hu) as [Hu8 _]. pose proof (base_generation _ Hb _ _ Hu) as Hgu'.
      apply make_handle_inj in Hhu as [-> E]; [|done|done|cbn; lia|lia]. rewrite Hi in Hu. injection Hu as <-. cbn in E. lia.
  - cbn [a_slots a_mem].
    assert (request_stats (if needs_bulk r then (bulk_reserve (make_handle i (generation v + 1)) (submit_data r data i (a_mem a))).2
      else submit_data r data i (a_mem a)) = request_stats (a_mem a)) as E by (destruct (needs_bulk r); congruence).
    apply (count_inv_added _ _ _ v _ pid generation_); [by rewrite E|apply (base_slots _ Hb)|done|done|done| |done].
    intros p' g' Ho. unfold client_owns, client_has in Ho. cbn in Ho. rewrite !andb_true_iff, !Z.eqb_eq in Ho. by destruct Ho as [[_ ->] ->].
Qed.

(** ** Completion *)
Lemma closed_fields v :
  request_of (closed v) = request_of v ∧ state (closed v) = state v ∧ result (closed v) = result v ∧
  service_pid (closed v) = service_pid v ∧ service_generation (closed v) = service_generation v ∧
  mutation_resource_plus_one (closed v) = mutation_resource_plus_one v ∧
  (mutation_state (closed v) = mutation_state v ∨
   mutation_open v = true ∧ (mutation_state (closed v) = MUTATION_FINISHED_NO_EFFECT ∨ mutation_state (closed v) = MUTATION_FINISHED_UNKNOWN)).
Proof.
  unfold closed. destruct (mutation_open v) eqn:E; [|by split_and!; [..|left]]. split_and!; try done. right. split; [done|].
  cbn. destruct (mutation_state v =? MUTATION_BOUND); auto.
Qed.

Lemma completion_fine result_ v :
  well_typed v → request_ok v → progress_ok v → state v = STORAGE_SLOT_CLAIMED → is_u32 result_ →
  fine metadata_ok (completion result_ v) ∧ request_of (completion result_ v) = request_of v ∧ live (completion result_ v) = true.
Proof.
  intros Ht Hr Hp Hs Hu. destruct (closed_fields v) as (E & Es & Er & Esp & Esg & Emr & Em).
  assert (request_of (completion result_ v) = request_of v) as Erq by (by rewrite <- E).
  split_and!; [|done|done]. pose proof E as [= Eg Eo Ec Ecg Erc Eoff Elen Ed].
  pose proof Ht as Ht'%metadata_typed. destruct (pg_served _ Hp) as [Hsp Hsg]; [by left|]. pose proof (pg_open _ Hp) as Ho.
  assert (is_mutation (closed v) = is_mutation v) as Eim by (unfold is_mutation; by rewrite Eo).
  assert (mutation_state (closed v) ≠ 0 → is_mutation v = true) as Him.
  { destruct Em as [Em|[Em _]]; [rewrite Em; intros Hne; by apply (pg_bound _ Hp)|]. intros _. unfold mutation_open in Em. by apply andb_true_iff in Em as [? _]. }
  assert (mutation_open v = true → mutation_state v ≠ 0) as Hmo by (unfold mutation_open; unfold_states; lia).
  assert (mutation_state (closed v) <= MUTATION_FINISHED_UNKNOWN ∧ 0 <= mutation_state (closed v) ∧
    (mutation_state (closed v) = 0 ↔ mutation_resource_plus_one v = 0)) as Hms.
  { clear - Ho Em Ht' Hmo. unfold_words. destruct Em as [->|[Eo [->| ->]]]; unfold_states; [lia|specialize (Hmo Eo); lia..]. }
  apply fine_live; [done| | |].
  - apply metadata_typed. unfold completion. edge_fields. rewrite Eg, Eo, Ec, Ecg, Erc, Eoff, Elen, Ed, Esp, Esg, Emr.
    clear - Ht' Hms Hu. unfold_words. unfold_states. lia.
  - destruct Hr as [? ? ? ? ? ?]. unfold is_mutation, length_ok in *. split; unfold completion, is_mutation, length_ok; edge_fields;
      rewrite ?Eg, ?Eo, ?Ec, ?Ecg, ?Erc, ?Eoff, ?Elen, ?Ed; done.
  - clear Em. unfold completion. split; unfold is_mutation; edge_fields; rewrite ?Esp, ?Esg, ?Emr, ?Eo, ?Eoff; fold (is_mutation v);
      try (clear - Hms Ho; unfold_states; lia).
    + intros Hne. split_and!; [by apply Him|done|done|unfold_states; lia..].
    + intros _. by right.
Qed.

Lemma inv_complete i v result_ data a ts :
  inv a ts → a_slots a !! i = Some v → state v = STORAGE_SLOT_CLAIMED → is_u32 result_ →
  inv (State (<[i := completion result_ v]> (a_slots a)) (a_service a) (a_mask a) (complete_mem i v result_ data (a_mem a))) ts.
Proof.
  intros [Hb Hd Hk Hc] Hi Hs Hu. destruct (base_lookup _ Hb _ _ Hi) as [Hi8 [Ht _]].
  assert (live v = true) as Hl by (unfold live, is_free; rewrite Hs; done).
  destruct (base_live _ Hb _ _ Hi Hl) as [Hr Hp]. destruct (completion_fine result_ v Ht Hr Hp Hs Hu) as (Hf & Erq & Hlc).
  assert (live (completion result_ v) = live v) as El by congruence.
  destruct (same_request _ _ Erq El) as (Eg & Eu & Eo).
  pose proof (f_equal (λ l, nth 1 l 0) Erq : operation (completion result_ v) = operation v) as Eop.
  pose proof (f_equal (λ l, nth 6 l 0) Erq : length_ (completion result_ v) = length_ v) as Elen.
  destruct (bulk_release_rest (handle_of i v) (a_mem a)) as (Ep & Es & Ef & Est).
  assert (state v = STORAGE_SLOT_COMPLETE → operation v ≠ STORAGE_REQUEST_VFS_BULK_READ) as Hnb by (rewrite Hs; done).
  assert (stored_length (completion result_ v) =
    if operation_has_input (operation v) || ((result_ =? 0) && operation_has_output (operation v)) then length_ v else 0) as Est1.
  { unfold stored_length. by rewrite Eop, Elen. }
  assert (stored_length v = if operation_has_input (operation v) then length_ v else 0) as Est0.
  { unfold stored_length, completed. rewrite Hs. cbn. by rewrite orb_false_r. }
  assert (0 <= length_ v <= STORAGE_REQUEST_BLOCK_SIZE) as Hlen.
  { destruct (rq_length _ Hr) as [? _]. apply metadata_typed in Ht. split; [apply Ht|done]. }
  unfold complete_mem, set_. split.
  - destruct Hb as [? Hfs ? ? Hini Hff] eqn:Eb. split; cbn [a_slots a_service a_mask a_mem]; [by rewrite length_insert| |done|done| |].
    + by apply Forall_insert.
    + destruct (negb (result_ =? 0)), (operation v =? STORAGE_REQUEST_VFS_BULK_READ), (operation_has_output (operation v)); first [exact Hini|by rewrite Ef].
    + apply Forall_insert; [done|]. eapply frame_same; [done|done|by eapply base_frame].
  - cbn [a_slots a_mem]. destruct (result_ =? 0) eqn:E0; cbn [negb andb] in *.
    + destruct (operation_has_output (operation v)) eqn:Eout.
      * apply (data_inv_store _ (a_mem a) _ _ v _ (data_copy (default [] data) (length_ v)) (length_ v)); try done.
        -- by apply data_copy_ok.
        -- by rewrite Hlc, Est1, orb_true_r.
      * apply (data_inv_put _ _ _ v); [done|done|]. by rewrite Hlc, Hl, Est1, Est0, orb_false_r.
    + assert (data_inv (<[i:=completion result_ v]> (a_slots a)) (a_mem a)) as [Hd1 Hd2 Hd3].
      { apply (data_inv_put _ _ _ v); [done|done|]. by rewrite Hlc, Hl, Est1, Est0, orb_false_r. }
      destruct (operation v =? STORAGE_REQUEST_VFS_BULK_READ); [|done]. split; rewrite ?Ep, ?Es; done.
  - cbn [a_slots a_mem]. destruct (negb (result_ =? 0)) eqn:E0.
    + destruct (operation v =? STORAGE_REQUEST_VFS_BULK_READ); [|by apply (bulk_inv_same _ _ _ _ v)].
      destruct (bulk_release_inv _ _ _ (handle_of i v) Hk) as [Hk' _]. by apply (bulk_inv_same _ _ _ _ v).
    + destruct (operation_has_output (operation v)); by apply (bulk_inv_same _ _ _ _ v).
  - cbn [a_slots a_mem]. apply (count_inv_same _ _ _ v); [|done|done|done].
    destruct (negb (result_ =? 0)), (operation v =? STORAGE_REQUEST_VFS_BULK_READ), (operation_has_output (operation v)); first [exact Hc|by rewrite Est].
Qed.

(** ** Transfers *)
Lemma set_bulk_slots m j b : bulk_slots (set_bulk m j b) = <[j := b]> (bulk_slots m).
Proof. done. Qed.

Lemma inv_bulk_only a ts ts' j b' :
  inv a ts → bulk_inv (a_slots a) (<[j := b']> (bulk_slots (a_mem a))) ts' → inv (put_mem a (set_bulk (a_mem a) j b')) ts'.
Proof.
  intros [Hb Hd _ Hc] Hk. split; [|by destruct Hd|done|done]. by destruct Hb.
Qed.

Section transfers.
Context (a : astate) (ts : list ticket) (Hinv : inv a ts).

Lemma transfer_facts n t : ts !! n = Some t →
  ∃ b, bulk_slots (a_mem a) !! t_index t = Some b ∧ bulk_at (a_mem a) (t_index t) = b ∧ ticket_ok (a_slots a) (bulk_slots (a_mem a)) t ∧
    bulk_ok (a_slots a) b ∧ b_state b ≠ STORAGE_BULK_FREE ∧ request_handle b = t_handle t ∧
    (b_state b = STORAGE_BULK_REVOKED ∨ b_state b = transfer_state t) ∧ 0 <= t_length t <= STORAGE_REQUEST_BULK_MAX_BYTES ∧
    (is_publisher (t_call t) = true → (Z.to_nat (t_length t) <= length (t_data t))%nat) ∧
    (b_state b ≠ STORAGE_BULK_REVOKED → transfer_ok (a_slots a) t b) ∧ copied_ok t b.
Proof using Hinv.
  intros Hn. pose proof (inv_bulk _ _ Hinv) as Hk. pose proof (Forall_lookup_1 _ _ _ _ (bulk_tickets _ _ _ Hk) Hn) as Ht.
  pose proof Ht as (b & Hb & Hrest). exists b. split; [done|]. split; [by apply bulk_at_lookup|]. split; [done|].
  split; [by eapply bulk_slots_ok|]. split; [|done]. pose proof (transfer_in _ _ _ _ Ht Hb) as Hin. intros E. by apply free_idle in E.
Qed.

(** The bulk slot keeps its owner. *)
Lemma bulk_ok_owner b s n crc :
  bulk_ok (a_slots a) b → b_state b ≠ STORAGE_BULK_FREE → b_state b ≠ STORAGE_BULK_REVOKED →
  (s = STORAGE_BULK_PUBLISHED ∨ s = STORAGE_BULK_READING ∨ s = STORAGE_BULK_CONSUMED →
   0 <= n <= STORAGE_REQUEST_BULK_MAX_BYTES ∧ crc = data_crc (b_bytes b) n) →
  bulk_ok (a_slots a) (Bulk s (request_handle b) n crc (b_bytes b)).
Proof using.
  intros (Hby & Hof & _) Hf Hr Hpay. split_and!; [done| |done].
  intros _. destruct (Hof Hf) as (i & v & g & ? & ? & ? & Hl). exists i, v, g. do 3 (split; [done|]). intros _. by apply Hl.
Qed.

Lemma inv_write_begin e i v t b :
  bulk_slots (a_mem a) !! t_index t = Some b → request_handle b = t_handle t → b_state b = STORAGE_BULK_RESERVED →
  writes e i v t → inv (put_mem a (set_bulk_state (t_index t) STORAGE_BULK_WRITING (a_mem a))) (ts ++ [t]).
Proof using Hinv.
  intros Hb Hh Hs Hw. unfold set_bulk_state. rewrite (bulk_at_lookup _ _ _ Hb). apply (inv_bulk_only _ ts); [done|].
  pose proof (inv_bulk _ _ Hinv) as Hk. pose proof (bulk_slots_ok _ _ _ Hk _ _ Hb) as Hok.
  apply (bulk_inv_begin _ _ _ Hk _ b); [done| | | |done|].
  - unfold in_transfer. rewrite Hs. unfold_states. lia.
  - by rewrite Hs.
  - apply bulk_ok_owner; try (rewrite Hs; done); [done|]. unfold_states. lia.
  - eexists. rewrite list_lookup_insert_eq by (by eapply lookup_lt_Some). split; [done|]. split; [done|].
    destruct Hw; (split; [by right|split; [done|split; [done|split; [done|by intros [=]]]]]).
Qed.

Lemma inv_read_begin e i v t b :
  bulk_slots (a_mem a) !! t_index t = Some b → request_handle b = t_handle t → b_state b = STORAGE_BULK_PUBLISHED →
  a_slots a !! i = Some v → reads e i v t → t_length t = b_length b → t_crc t = b_crc32 b →
  inv (put_mem a (set_bulk_state (t_index t) STORAGE_BULK_READING (a_mem a))) (ts ++ [t]).
Proof using Hinv.
  intros Hb Hh Hs Hi Hw El Ec. unfold set_bulk_state. rewrite (bulk_at_lookup _ _ _ Hb). apply (inv_bulk_only _ ts); [done|].
  pose proof (inv_bulk _ _ Hinv) as Hk. pose proof (bulk_slots_ok _ _ _ Hk _ _ Hb) as Hok.
  destruct Hok as (Hby & Hof & Hpay). destruct (Hpay (or_introl Hs)) as [Hlen Hcrc].
  apply (bulk_inv_begin _ _ _ Hk _ b); [done| | | |done|].
  - unfold in_transfer. rewrite Hs. unfold_states. lia.
  - by rewrite Hs.
  - apply bulk_ok_owner; try (rewrite Hs; done); done.
  - eexists. rewrite list_lookup_insert_eq by (by eapply lookup_lt_Some). split; [done|]. split; [done|]. rewrite El in *.
    destruct Hw; cbn [t_length t_crc t_index t_handle] in *; (split; [by right|split; [done|split; [by intros [=]|split; [|by intros [=]]]]]); intros _.
    + by split.
    + by split_and!.
Qed.

(** The copy. *)
Lemma inv_copy n t :
  ts !! n = Some t → t_copied t = false → inv (put_mem a (bulk_copy t (a_mem a)).2) (<[n := (bulk_copy t (a_mem a)).1]> ts).
Proof using Hinv.
  intros Hn Hc. destruct (transfer_facts n t Hn) as (b & Hb & Eb & Ht & (Hby & Hof & Hpay) & Hf & Hh & Hs & Hlen & Hd & Htr & _).
  pose proof (inv_bulk _ _ Hinv) as Hk. unfold bulk_copy, transfer_state in *. destruct (is_publisher (t_call t)) eqn:Ep; cbn [fst snd].
  - set (data := take (Z.to_nat (t_length t)) (t_data t)). set (b' := Bulk (b_state b) (request_handle b) (b_length b) (b_crc32 b) (bytes_copy (b_bytes b) data)).
    assert (bulk_fill (t_index t) (t_data t) (t_length t) (a_mem a) = set_bulk (a_mem a) (t_index t) b') as Efill by (unfold bulk_fill; by rewrite Eb).
    assert (bulk_at (set_bulk (a_mem a) (t_index t) b') (t_index t) = b') as Eat.
    { apply bulk_at_lookup. rewrite set_bulk_slots. apply list_lookup_insert_eq. by eapply lookup_lt_Some. }
    assert (length data = Z.to_nat (t_length t)) as Edata by (unfold data; rewrite length_take; specialize (Hd eq_refl); lia).
    rewrite Efill, Eat. apply (inv_bulk_only _ ts); [done|]. apply (bulk_inv_copied _ _ _ Hk n t _ b); try done.
    + split_and!; [|done|].
      * unfold b'. cbn [b_bytes]. rewrite length_bytes_copy; [done|]. rewrite Edata, Hby. unfold_states. lia.
      * unfold has_payload. cbn. unfold_states. lia.
    + exists b'. cbn [t_index t_handle t_call t_length t_crc t_data]. rewrite list_lookup_insert_eq by (by eapply lookup_lt_Some).
      split; [done|]. split; [done|]. split; [unfold transfer_state; cbn [t_call]; by rewrite Ep|]. split; [done|]. split; [intros _; by apply Hd|]. split.
      * intros _. unfold transfer_ok. cbn. by destruct (t_call t).
      * unfold copied_ok. cbn [t_copied t_call t_crc t_length t_data]. rewrite Ep. intros _. split; [done|].
        unfold b'. cbn [b_bytes]. unfold bytes_copy. rewrite take_app_length' by done. done.
  - assert (<[t_index t := b]> (bulk_slots (a_mem a)) = bulk_slots (a_mem a)) as Eid by (by apply list_insert_id).
    destruct Hinv as [Hb0 Hd0 _ Hc0]. split; [by destruct Hb0|by destruct Hd0| |done]. cbn [put_mem a_slots a_mem]. rewrite <- Eid.
    apply (bulk_inv_copied _ _ _ Hk n t _ b); try done.
    exists b. cbn [t_index t_handle t_call t_length t_crc t_data]. rewrite list_lookup_insert_eq by (by eapply lookup_lt_Some).
    split; [done|]. split; [done|]. split; [unfold transfer_state; cbn [t_call]; by rewrite Ep|]. split; [done|]. split; [by rewrite Ep|]. split.
    + intros Hr. by apply Htr.
    + unfold copied_ok. cbn [t_copied t_call t_crc t_length t_data]. rewrite Ep, Eb. by intros _ _.
Qed.

(** The ends. *)
Lemma inv_published n t b :
  ts !! n = Some t → is_publisher (t_call t) = true → t_copied t = true → bulk_slots (a_mem a) !! t_index t = Some b →
  b_state b = STORAGE_BULK_WRITING → inv (put_mem a (bulk_published (t_index t) (t_length t) (t_crc t) (a_mem a))) (delete n ts).
Proof using Hinv.
  intros Hn Hp Hc Hb Hs. destruct (transfer_facts n t Hn) as (b' & Hb' & Eb & Ht & Hok & Hf & Hh & _ & Hlen & Hd & Htr & Hcp).
  rewrite Hb in Hb'. injection Hb' as <-. unfold bulk_published. rewrite Eb. apply (inv_bulk_only _ ts); [done|].
  apply (bulk_inv_end _ _ _ (inv_bulk _ _ Hinv) n t b); try done.
  - apply bulk_ok_owner; try (rewrite Hs; done); [done|]. intros _. split; [done|]. specialize (Hcp Hc). rewrite Hp in Hcp. apply Hcp.
  - unfold in_transfer. cbn. unfold_states. lia.
Qed.

Lemma inv_consumed n t b :
  ts !! n = Some t → bulk_slots (a_mem a) !! t_index t = Some b → b_state b = STORAGE_BULK_READING →
  inv (put_mem a (set_bulk_state (t_index t) STORAGE_BULK_CONSUMED (a_mem a))) (delete n ts).
Proof using Hinv.
  intros Hn Hb Hs. destruct (transfer_facts n t Hn) as (b' & Hb' & Eb & Ht & Hok & Hf & Hh & _ & Hlen & Hd & Htr & Hcp).
  rewrite Hb in Hb'. injection Hb' as <-. unfold set_bulk_state. rewrite Eb. apply (inv_bulk_only _ ts); [done|].
  apply (bulk_inv_end _ _ _ (inv_bulk _ _ Hinv) n t b); try done.
  - apply bulk_ok_owner; try (rewrite Hs; done); [done|]. intros _. destruct Hok as (_ & _ & Hpay). apply Hpay. right. by left.
  - unfold in_transfer. cbn. unfold_states. lia.
Qed.

Lemma inv_dropped n t :
  ts !! n = Some t → inv (put_mem a (bulk_clear (t_index t) (a_mem a))) (delete n ts).
Proof using Hinv.
  intros Hn. destruct (transfer_facts n t Hn) as (b & Hb & Eb & Ht & Hok & Hf & Hh & _ & Hlen & Hd & Htr & Hcp).
  unfold bulk_clear. rewrite Eb. apply (inv_bulk_only _ ts); [done|].
  apply (bulk_inv_end _ _ _ (inv_bulk _ _ Hinv) n t b); try done.
  - by apply bulk_ok_free.
  - by apply free_idle.
Qed.
End transfers.

(** ** Fences *)
Lemma resource_bit_u32 r : 0 <= r < 32 → is_u32 (resource_bit r).
Proof. intros. unfold resource_bit. rewrite Z.shiftl_1_l. by apply pow2_u32. Qed.

Lemma inv_mask a ts mask : inv a ts → is_u32 mask → inv (put_mask a mask) ts.
Proof. intros [[? ? ? ? ? ?] ? ? ?] Hm. by split. Qed.
Lemma inv_service a ts v : inv a ts → fine identity_ok v → inv (put_service a v) ts.
Proof. intros [[? ? ? ? ? ?] ? ? ?] Hm. by split. Qed.
Lemma inv_stats a ts s :
  inv a ts → active_requests s = active_requests (request_stats (a_mem a)) → request_high_water s = request_high_water (request_stats (a_mem a)) →
  inv (put_mem a (set_stats (a_mem a) s)) ts.
Proof.
  intros [Hb [? ? ?] ? [? ? ?]] E1 E2. split; [by destruct Hb|by split|done|]. split; cbn; rewrite ?E1, ?E2; done.
Qed.

(** Every move of the protocol keeps the invariant. *)
Lemma act_inv e a ts a' ts' : inv a ts → act e (a, ts) (a', ts') → inv a' ts'.
Proof.
  intros Hinv Hact. pose proof (inv_base _ _ Hinv) as Hb. pose proof (base_mask _ Hb) as Hm.
  inversion Hact; subst; clear Hact.
  - apply inv_service; [done|]. split; [by apply identity_typed|]. unfold identity_ok. cbn. unfold set_. lia.
  - apply inv_service; [done|]. split; [|done]. apply identity_typed. cbn. ulia.
  - by apply inv_stats.
  - by apply inv_stats.
  - apply inv_mask; [done|]. apply lor_u32; [done|]. by apply resource_bit_u32.
  - apply inv_mask; [done|]. by apply land_u32.
  - destruct Hinv as [_ Hd Hk Hc]. set (v := blank STORAGE_SLOT_FREE STORAGE_HANDLE_GENERATION_MAX) in *. split.
    + apply base_put; [done| |by apply frame_free]. apply blank_fine; [by right|unfold_states; lia].
    + by apply (data_inv_put _ _ _ v).
    + by apply (bulk_inv_put _ _ _ _ v).
    + by apply (count_inv_same _ _ _ v).
  - by eapply inv_submit.
  - eapply inv_put; [done|done|by eapply edge_carries].
  - by apply inv_complete.
  - by apply inv_release.
  - eapply inv_release; [done|done|]. unfold live, is_free.
    match goal with H : state v = STORAGE_SLOT_DELIVERED |- _ => by rewrite H end.
  - by eapply inv_write_begin.
  - by eapply inv_read_begin.
  - by apply inv_copy.
  - eapply inv_published; try done. match goal with H : t_call _ = _ |- _ => by rewrite H end.
  - assert (inv (put_mem a (bulk_published (t_index t) (t_length t) (t_crc t) (a_mem a))) (delete n ts)) as Hinv'.
    { eapply inv_published; try done. match goal with H : t_call _ = _ |- _ => by rewrite H end. }
    eapply inv_put; [done|done|]. assert (live v = true) as Hl.
    { unfold live, is_free. match goal with H : state v = STORAGE_SLOT_INPUT_PENDING |- _ => by rewrite H end. }
    destruct (base_live _ Hb i v) as [? ?]; [done|done|]. destruct (base_lookup _ Hb i v) as [_ [? _]]; [done|].
    apply with_state_carries; try done. right. right. by split.
  - by eapply inv_consumed.
  - by eapply inv_dropped.
  - assert (inv (put_mem a (bulk_clear (t_index t) (a_mem a))) (delete n ts)) as Hinv' by by apply inv_dropped.
    destruct (transfer_facts a ts Hinv n t) as (b' & Hb' & _ & _ & _ & _ & _ & _ & _ & _ & Htr & _); [done|].
    match goal with H : bulk_slots _ !! _ = Some b |- _ => rewrite H in Hb' end. injection Hb' as <-.
    match goal with H : t_call _ = _ |- _ => unfold transfer_ok in Htr; rewrite H in Htr end.
    destruct Htr as (_ & _ & Hv & Hs & _); [by match goal with H : b_state b = _ |- _ => rewrite H end|]. apply inv_release; [done|done|]. unfold live, is_free. by rewrite Hs.
Qed.
