(* ===== verification/StorageRequestPoolBodies.v ===== *)
(** The regions of the request pool consist of the moves of its protocol.

    [ends] is the triple of a region: it moves as [act] allows for its event,
    and its answer satisfies a postcondition.  The helpers come first, then
    the calls in the order of the code. *)
From S2P Require Import Prelude ProtectedStore.
From S2P Require Import Crc32 Layout ProtectedRecord CriticalObject OwnedStore StorageRequestPool StorageRequestPoolSpec StorageRequestPoolLife.
From S2P Require Import StorageRequestPoolInv.
From stdpp Require Import relations.
Import StorageRequestPool.
Local Open Scope pool_scope.
Local Open Scope Z_scope.

(** ** Sequences of moves *)
Definition acts (e : event) : astate * list ticket → astate * list ticket → Prop := rtc (act e).

Lemma acts_inv e s s' : acts e s s' → inv s.1 s.2 → inv s'.1 s'.2.
Proof. induction 1 as [|[a ts] [a' ts'] s'' Ha _ IH]; [done|]. intros Hi. apply IH. by eapply act_inv. Qed.

Definition ends {X} (e : event) (ts : list ticket) (a : astate) (Q : Z + X → astate → Prop) (r : Z + X) (a' : astate) : Prop :=
  acts e (a, ts) (a', ts) ∧ Q r a'.
(** Nothing is asked of the errors. *)
Definition on_success {X} (Q : X → astate → Prop) (r : Z + X) (a' : astate) : Prop := match r with inl _ => True | inr x => Q x a' end.
Definition any {X} (_ : Z + X) (_ : astate) : Prop := True.

Section triples.
Context (e : event) (ts : list ticket).

Lemma ends_now {X} a (Q : Z + X → astate → Prop) r : Q r a → ends e ts a Q r a.
Proof. intros. split; [apply rtc_refl|done]. Qed.

Lemma ends_fail {X} a (Q : X → astate → Prop) err : ends e ts a (on_success Q) (inl err) a.
Proof. by split; [apply rtc_refl|]. Qed.

Lemma ends_act {X} a a' (Q : Z + X → astate → Prop) r a'' :
  act e (a, ts) (a', ts) → ends e ts a' Q r a'' → ends e ts a Q r a''.
Proof. intros Ha [Hs HQ]. split; [by eapply rtc_l|done]. Qed.

Lemma ends_trans {X Y} a (P : Z + Y → astate → Prop) x a' (Q : Z + X → astate → Prop) r a'' :
  ends e ts a P x a' → ends e ts a' Q r a'' → ends e ts a Q r a''.
Proof. intros [H1 _] [H2 HQ]. split; [by etrans|done]. Qed.

Lemma pool_wp_then {X Y} (p : prog X) (f : X → prog Y) a (P : X → astate → Prop) Q :
  inv a ts → wp p a (ends e ts a (on_success P)) →
  (∀ err a', inv a' ts → Q (inl err) a') → (∀ x a', inv a' ts → P x a' → wp (f x) a' (ends e ts a' Q)) →
  wp (bind p f) a (ends e ts a Q).
Proof.
  intros Hi Hp He Hf. apply pool_wp_bind. eapply pool_wp_mono; [|exact Hp]. intros [err|x] a' [Hs HP]; pose proof (acts_inv _ _ _ Hs Hi) as Hi'.
  - split; [done|]. by apply He.
  - eapply pool_wp_mono; [|by apply Hf]. intros r a''. apply (ends_trans a any (inr x)). by split.
Qed.
End triples.

(** ** Reads *)
Section reads.
Context (a : astate) (Hb : base_ok a).

Lemma wp_load {X} i (f : storage_slot_metadata_t → prog X) Q :
  (i < 8)%nat → (∀ v, a_slots a !! i = Some v → wp (f v) a Q) → wp (bind (load_metadata i) f) a Q.
Proof using Hb.
  intros Hi Hf. destruct (base_slot _ Hb i Hi) as [v Hv]. cbn. rewrite Hv. by apply Hf.
Qed.

Lemma wp_resolve {X} h (f : nat * storage_slot_metadata_t → prog X) Q :
  is_u32 h → Q (inl STORAGE_EINVAL) a →
  (∀ i v, a_slots a !! i = Some v → live v = true → h = handle_of i v → wp (f (i, v)) a Q) → wp (bind (resolve_handle h) f) a Q.
Proof using Hb.
  intros Hh HQ Hf. unfold resolve_handle, STORAGE_HANDLE_SLOT_MASK. cbv zeta. change 255 with (Z.ones 8).
  rewrite Z.land_ones, Z.shiftr_div_pow2 by lia. change (2 ^ 8) with 256. change (Z.of_nat STORAGE_REQUEST_POOL_CAPACITY) with 8.
  destruct (_ || _) eqn:Ec; [done|]. set (i := Z.to_nat (h mod 256 - 1)).
  assert (0 < h mod 256 <= 8 ∧ h / 256 ≠ 0) as [Hr Hg] by (unfold_words; Z.to_euclidean_division_equations; lia).
  destruct (base_slot _ Hb i) as [v Hv]; [lia|]. cbn. rewrite Hv. cbn.
  destruct (negb (generation v =? h / 256) || is_free v) eqn:Eg; [done|]. cbn. apply orb_false_iff in Eg as [Eg Ef].
  apply negb_false_iff, Z.eqb_eq in Eg. apply Hf; [done|unfold live; by rewrite Ef|]. unfold handle_of.
  rewrite pool_handle_value; [|lia|by eapply base_generation]. rewrite Eg. unfold i. Z.to_euclidean_division_equations; lia.
Qed.
End reads.

(** A region that has returned. *)
Ltac wp_ret := cbv beta iota; match goal with |- wp (Ret ?x) ?s ?Q => change (Q (inr x) s) end; cbv beta iota.

Lemma wp_guard {X} b err (f : unit → prog X) a Q :
  (b = true → Q (inl err) a) → (b = false → wp (f tt) a Q) → wp (bind (fail_if b err) f) a Q.
Proof. destruct b; cbn; auto. Qed.

(** ** Fences *)
Definition fence (a : astate) (v : storage_slot_metadata_t) : astate :=
  if may_have_effect v then put_mask a (Z.lor (a_mask a) (resource_bit (resource_of v))) else a.

Lemma resource_bit_test mask r : 0 <= r → set_ (Z.land mask (resource_bit r)) = Z.testbit mask r.
Proof. intros. unfold set_, resource_bit. rewrite Z.shiftl_1_l. by apply land_pow2_zero. Qed.
Lemma resource_bit_or mask r k : 0 <= r → 0 <= k → Z.testbit (Z.lor mask (resource_bit r)) k = Z.testbit mask k || (r =? k).
Proof. intros. unfold resource_bit. by rewrite Z.lor_spec, Z.shiftl_1_l, Z.pow2_bits_eqb. Qed.
Lemma resource_bit_same mask r : 0 <= r → Z.testbit mask r = true → Z.lor mask (resource_bit r) = mask.
Proof.
  intros Hr Ht. apply Z.bits_inj'. intros k Hk. rewrite resource_bit_or by done.
  destruct (Z.eqb_spec r k) as [->|]; [by rewrite Ht|by rewrite orb_false_r].
Qed.

(** A possible effect names a resource. *)
Definition effect_ok (v : storage_slot_metadata_t) : Prop := may_have_effect v = true → 0 <= resource_of v < 32.
Lemma effect_ok_live a i v : base_ok a → a_slots a !! i = Some v → live v = true → effect_ok v.
Proof.
  intros Hb Hi Hl. destruct (base_live _ Hb _ _ Hi Hl) as [_ Hp]. destruct (pg_open _ Hp) as (H1 & H2 & H3).
  destruct (base_lookup _ Hb _ _ Hi) as [_ [Ht _]]. apply metadata_typed in Ht. unfold effect_ok, may_have_effect, resource_of.
  unfold_words. unfold_states. lia.
Qed.

Lemma wp_fences {X} a (f : Z → prog X) Q : base_ok a → wp (f (a_mask a)) a Q → wp (bind fences f) a Q.
Proof. intros Hb Hf. cbn. rewrite (base_fences _ Hb). by cbn. Qed.

Lemma wp_fence_lost a v : base_ok a → effect_ok v → wp (mutation_fence_lost v) a (λ r a', r = inr tt ∧ a' = fence a v).
Proof.
  intros Hb Hv. unfold mutation_fence_lost, fence. destruct (may_have_effect v) eqn:Em; [|done]. cbn [negb]. specialize (Hv Em).
  apply wp_fences; [done|]. cbv zeta. change (Z.shiftl 1 (mutation_resource_plus_one v - 1)) with (resource_bit (resource_of v)).
  rewrite resource_bit_test by lia. destruct (Z.testbit (a_mask a) (resource_of v)) eqn:Et.
  - split; [done|]. rewrite resource_bit_same by (done || lia). by destruct a.
  - cbn. split; [|by split; [apply (base_fences _ Hb)|]]. apply lor_u32; [apply (base_mask _ Hb)|by apply resource_bit_u32].
Qed.

Lemma fence_acts e a ts v : effect_ok v → acts e (a, ts) (fence a v, ts).
Proof.
  intros Hv. unfold fence. destruct (may_have_effect v) eqn:Em; [|apply rtc_refl]. apply rtc_once. apply A_fence. by apply Hv.
Qed.
Lemma fence_fenced a v : effect_ok v → fenced (a_mask (fence a v)) v.
Proof.
  intros Hv Hm. specialize (Hv Hm). unfold fence. rewrite Hm. cbn [a_mask put_mask]. rewrite resource_bit_or by lia.
  by rewrite Z.eqb_refl, orb_true_r.
Qed.
Lemma fence_fields a v : a_slots (fence a v) = a_slots a ∧ a_mem (fence a v) = a_mem a ∧ a_service (fence a v) = a_service a.
Proof. unfold fence. by destruct (may_have_effect v). Qed.
Lemma fence_inv a ts v : inv a ts → effect_ok v → inv (fence a v) ts.
Proof. intros Hi Hv. by apply (acts_inv (Copy 0) _ _ (fence_acts _ a ts v Hv)). Qed.

Lemma ends_fence {X} e ts a v (Q : Z + X → astate → Prop) r a' :
  effect_ok v → ends e ts (fence a v) Q r a' → ends e ts a Q r a'.
Proof. intros Hv [Hs HQ]. split; [|done]. etrans; [by apply (fence_acts e a ts v)|done]. Qed.

(** ** Releases and data *)
Lemma put_same_mem a : put_mem a (a_mem a) = a.
Proof. by destruct a. Qed.

Lemma wp_release_slot a i v :
  base_ok a → effect_ok v → (i < 8)%nat → 0 <= generation v <= STORAGE_HANDLE_GENERATION_MAX →
  wp (release_slot i v) a (λ r a', r = inr tt ∧ a' = release_state (fence a v) i v).
Proof.
  intros Hb Hv Hi Hg. unfold release_slot. apply pool_wp_bind. eapply pool_wp_mono; [|by apply wp_fence_lost]. intros r a' [-> ->].
  destruct (fence_fields a v) as (Es & Em & Ev). cbn. split; [by apply released_fine|]. rewrite Es, (base_slots _ Hb). done.
Qed.

Lemma pool_wp_release e ts a i v :
  inv a ts → a_slots a !! i = Some v → live v = true → releases e i v →
  wp (release_slot i v) a (ends e ts a (λ r a', r = inr tt ∧ a' = release_state (fence a v) i v)).
Proof.
  intros Hi Hv Hl Hr. pose proof (inv_base _ _ Hi) as Hb. pose proof (effect_ok_live _ _ _ Hb Hv Hl) as He.
  destruct (base_lookup _ Hb _ _ Hv) as [Hi8 _]. eapply pool_wp_mono; [|by apply wp_release_slot; [..|by eapply base_generation]].
  intros r a' [-> ->]. split; [|done]. etrans; [by apply (fence_acts e a ts v)|]. apply rtc_once.
  destruct (fence_fields a v) as (Es & _ & _). apply A_release; [by rewrite Es|done|done|by apply fence_fenced].
Qed.

(** The bytes a slot holds. *)
Definition held (a : astate) (i : nat) (n : Z) : list Z := take (Z.to_nat n) (d_bytes (data_at (primary (a_mem a)) i)).

Lemma wp_load_data a ts i v n :
  inv a ts → a_slots a !! i = Some v → live v = true → n = stored_length v →
  wp (load_data i n) a (λ r a', r = inr (held a i n) ∧ a' = a).
Proof.
  intros Hi Hv Hl ->. destruct (inv_data _ _ Hi) as [_ Hs Hblocks]. pose proof (Hblocks _ _ Hv) as (H1 & H2 & _). rewrite Hl in *.
  unfold load_data. cbn. rewrite Hs. assert (copy_valid (data_at (primary (a_mem a)) i) (stored_length v) = true) as Hc.
  { unfold copy_valid. rewrite H1, H2, !Z.eqb_refl. done. }
  rewrite Hc. cbn. split; [done|by destruct a].
Qed.

(** ** What a call promises *)
Definition submit_fields_ok (r : storage_request_submit_t) : Prop :=
  is_u32 (r_operation r) ∧ is_u32 (r_resource r) ∧ is_u32 (r_offset r) ∧ is_u32 (r_length r) ∧ is_u32 (r_timeout_ms r).
Definition identity_pair (pid generation_ : Z) : Prop := is_u32 pid ∧ is_u32 generation_.
(** Arguments of their C types; a buffer is as long as its length says, and
    only a process claims requests. *)
Definition call_ok (c : call) : Prop :=
  match c with
  | CBind p g | CUnbind p g | CCancelProcess p g => identity_pair p g
  | CRecoveryReady p g r | CRecoveryClear p g r => identity_pair p g ∧ is_u32 r
  | CSubmit p g r d now _ =>
    identity_pair p g ∧ is_u64 now ∧ (∀ x, r = Some x → submit_fields_ok x) ∧ (∀ x, d = Some x → length x = 512%nat)
  | CClaim p g now _ | CClaim_v2 p g now _ | CClaim_v3 p g now _ => identity_pair p g ∧ 0 < s32 p ∧ g ≠ 0
  | CComplete p g h r d => identity_pair p g ∧ is_u32 h ∧ is_u32 r ∧ (∀ x, d = Some x → length x = 512%nat)
  | CContext p g h _ | CCollect p g h _ _ | CCancel p g h | CMutationContext p g h _ _ | CReplyBegin p g h _ _ | CReplyEnd p g h _ _
  | CReplyAck p g h _ | CInputTake p g h _ _ _ _ | CBulkCollect p g h _ _ _ => identity_pair p g ∧ is_u32 h
  | CMutationBind p g h r _ | CMutationEffect p g h r _ | CMutationAuthorized p g h r _ | CMutationFinish p g h r _ _ =>
    identity_pair p g ∧ is_u32 h ∧ is_u32 r
  | CInputPublish p g h d l _ | CBulkPublish p g h d l =>
    identity_pair p g ∧ is_u32 h ∧ is_u32 l ∧ (∀ x, d = Some x → (Z.to_nat l <= length x)%nat)
  | CRecoveryRefence r => is_u32 r
  | CMutationFences _ _ | CStats _ => True
  end.

(** The request a call names. *)
Definition named (c : call) : option Z :=
  match c with
  | CComplete _ _ h _ _ | CContext _ _ h _ | CCollect _ _ h _ _ | CCancel _ _ h | CMutationContext _ _ h _ _ | CReplyBegin _ _ h _ _
  | CReplyEnd _ _ h _ _ | CReplyAck _ _ h _ | CInputTake _ _ h _ _ _ _ | CBulkCollect _ _ h _ _ _ | CMutationBind _ _ h _ _
  | CMutationEffect _ _ h _ _ | CMutationAuthorized _ _ h _ _ | CMutationFinish _ _ h _ _ _ | CInputPublish _ _ h _ _ _
  | CBulkPublish _ _ h _ _ => Some h
  | _ => None
  end.

(** Slot [i] holds [v], the live request of the handle. *)
Definition serves (a : astate) (h : Z) (i : nat) (v : storage_slot_metadata_t) : Prop :=
  a_slots a !! i = Some v ∧ live v = true ∧ h = handle_of i v.
(** The handle was released: no slot will serve it again. *)
Definition spent (h : Z) (a : astate) : Prop :=
  ∃ i v g, a_slots a !! i = Some v ∧ h = make_handle i g ∧ 0 < g <= generation v ∧ (g < generation v ∨ state v = STORAGE_SLOT_RETIRED).

Definition claimed_reply (v2 v3 : bool) (a : astate) (d : storage_request_descriptor) (data : list Z) (a' : astate) : Prop :=
  ∃ i v w, a_slots a !! i = Some v ∧ state v = STORAGE_SLOT_QUEUED ∧ a_slots a' !! i = Some w ∧ state w = STORAGE_SLOT_CLAIMED ∧
    request_of w = request_of v ∧ d = descriptor v2 v3 i w ∧
    data = (if operation_has_input (operation v) then held a i (length_ v) else []).

(** What a successful answer says; [a] is the state before, [a'] after. *)
Definition reply_says (c : call) (a : astate) (r : reply) (a' : astate) : Prop :=
  match c, r with
  | CSubmit p g (Some q) data now _, RHandle h =>
    ∃ i v, serves a' h i v ∧ v = submitted p g now q (generation v) ∧
      (operation_has_input (operation v) = true → held a' i (length_ v) = take (Z.to_nat (length_ v)) (default [] data))
  | CClaim _ _ _ _, RRequest d data => claimed_reply false false a d data a'
  | CClaim_v2 _ _ _ _, RRequest d data => claimed_reply true false a d data a'
  | CClaim_v3 _ _ _ _, RRequest d data => claimed_reply false true a d data a'
  | CComplete p g h result_ data, RNone =>
    ∃ i v, serves a h i v ∧ served_by v p g = true ∧
      (state v = STORAGE_SLOT_CANCEL_PENDING ∧ spent h a' ∨
       state v = STORAGE_SLOT_CLAIMED ∧ a_slots a' !! i = Some (completion result_ v) ∧
         (result_ = 0 → operation_has_output (operation v) = true → held a' i (length_ v) = take (Z.to_nat (length_ v)) (default [] data)))
  | CCollect p g h _ _, RResult result_ data n =>
    ∃ i v, serves a h i v ∧ asked_by v p g = true ∧ state v = STORAGE_SLOT_COMPLETE ∧ result_ = result v ∧ spent h a' ∧
      data = (if (result v =? 0) && operation_has_output (operation v) then held a i (length_ v) else [])
  | CReplyBegin p g h _ _, RResult result_ data _ =>
    ∃ i v, serves a h i v ∧ asked_by v p g = true ∧ state v = STORAGE_SLOT_COMPLETE ∧ result_ = result v ∧
      (result v = 0 → data = held a i (length_ v))
  | CReplyAck p g h _, RNone => ∃ i v, serves a h i v ∧ asked_by v p g = true ∧ state v = STORAGE_SLOT_DELIVERED ∧ spent h a'
  | CBulkCollect p g h _ _ _, RBulk _ _ _ => spent h a'
  | CMutationBind _ _ h r _, RNone => Z.testbit (a_mask a) r = false
  | CMutationAuthorized _ _ h r _, RNone => Z.testbit (a_mask a) r = false
  | CMutationEffect p g h r _, RNone =>
    Z.testbit (a_mask a) r = false ∧
    ∃ i v, serves a' h i v ∧ mutation_state v = MUTATION_ATTEMPTED ∧ resource_of v = r ∧ 0 <= r < 32
  | CMutationFences _ _, RFences answer mask => answer = 0 ∧ mask = a_mask a'
  | CStats _, RStats s => s = request_stats (a_mem a)
  | _, _ => True
  end.

Definition reply_ok (c : call) (a : astate) (r : Z + reply) (a' : astate) : Prop :=
  match r with
  | inl _ => True
  | inr r => (∀ h, named c = Some h → ∃ i v, serves a h i v) ∧ reply_says c a r a'
  end.

(** The triple of a call. *)
Definition call_ends (c : call) (ts : list ticket) (a : astate) (r : Z + reply) (a' : astate) : Prop :=
  acts (Invoke c) (a, ts) (a', ts ++ new_tickets r) ∧ reply_ok c a r a'.

(** A call without a ticket, from the triple of its region. *)
Lemma wp_call {X} c ts a (p : prog X) (k : X → reply) :
  (∀ x, new_tickets (inr (k x)) = []) → wp p a (ends (Invoke c) ts a (on_success (λ x, reply_ok c a (inr (k x))))) →
  wp (bind p (λ x, Ret (k x))) a (call_ends c ts a).
Proof.
  intros Hk Hp. apply pool_wp_bind. eapply pool_wp_mono; [|exact Hp]. intros [err|x] a' [Hs HQ]; unfold call_ends.
  - split; [by rewrite app_nil_r|done].
  - cbn [wp]. split; [by rewrite Hk, app_nil_r|exact HQ].
Qed.

Lemma spent_released a i v : base_ok a → a_slots a !! i = Some v → live v = true → spent (handle_of i v) (release_state (fence a v) i v).
Proof.
  intros Hb Hi Hl. destruct (base_live _ Hb _ _ Hi Hl) as [Hr _]. pose proof (rq_generation _ Hr) as Hg.
  exists i, (released v), (generation v). cbn [a_slots release_state]. destruct (fence_fields a v) as (-> & _ & _).
  rewrite list_lookup_insert_eq by (by eapply lookup_lt_Some). split; [done|]. split; [done|]. unfold released.
  destruct (Z.eqb_spec (generation v) STORAGE_HANDLE_GENERATION_MAX) as [E|E]; cbn; [split; [lia|by right]|].
  rewrite u32_small by (unfold_states; unfold_words; lia). split; [lia|left; lia].
Qed.

(** ** Service identity *)
Lemma pool_ends_any {X} e ts a (Q : Z + X → astate → Prop) r a' : ends e ts a Q r a' → ends e ts a any r a'.
Proof. intros [? _]. by split. Qed.

Lemma wp_bind_service p g ts a :
  inv a ts → identity_pair p g →
  wp (storage_request_bind_service p g) a (ends (Invoke (CBind p g)) ts a any).
Proof.
  intros Hi [Hp Hg]. unfold storage_request_bind_service. destruct (_ || _) eqn:E; [by apply ends_now|].
  cbn [bind load_identity wp]. apply wp_guard; [intros _; by apply ends_now|]. intros Hid. cbn.
  split; [split; [by apply identity_typed|unfold identity_ok; cbn [i_pid i_generation]; unfold set_; lia]|]. split; [|by apply ends_now].
  eapply ends_act; [|by apply ends_now]. apply A_bind; [done| |done|done|lia|lia].
  pose proof (base_service _ (inv_base _ _ Hi)) as [_ Hok]. unfold identity_ok, set_ in *. destruct (a_service a) as [p' g']. cbn [i_pid i_generation] in *.
  destruct (Z.eqb_spec p' 0) as [->|]; [left; change (s32 0) with 0 in Hok; f_equal; lia|right]. f_equal; lia.
Qed.

Lemma wp_cancel_slot e p g ts a i :
  inv a ts → (i < 8)%nat → exits e p g → 0 < s32 p → g ≠ 0 → wp (cancel_slot i p g) a (ends e ts a any).
Proof.
  intros Hi Hi8 He Hp Hg. pose proof (inv_base _ _ Hi) as Hb. unfold cancel_slot. apply wp_load; [done|done|]. intros v Hv.
  destruct (_ || _) eqn:Em; [|by apply ends_now].
  assert (asked_by v p g = true ∨ served_by v p g = true) as Hparty by (unfold asked_by, served_by; apply orb_true_iff in Em; tauto).
  assert (live v = true) as Hl.
  { destruct (live v) eqn:El; [done|]. exfalso. destruct (base_lookup _ Hb _ _ Hv) as [_ Hf]. unfold live in El. apply negb_false_iff in El.
    destruct (free_fine v Hf El) as [Ev _]. unfold asked_by, served_by in Hparty. rewrite Ev in Hparty. unfold blank in Hparty. edge_fields. lia. }
  destruct ((state v =? STORAGE_SLOT_DELIVERING) || (state v =? STORAGE_SLOT_DELIVERY_CANCELLED)) eqn:Es.
  - pose proof (effect_ok_live _ _ _ Hb Hv Hl) as Hok. apply pool_wp_bind. eapply pool_wp_mono; [|by apply wp_fence_lost]. intros r a' [-> ->].
    pose proof (fence_inv a ts v Hi Hok) as Hi'. destruct (fence_fields a v) as (Esl & _ & _).
    assert (act e (fence a v, ts) (put_slot (fence a v) i (with_state STORAGE_SLOT_DELIVERY_CANCELLED v), ts)) as Hact.
    { apply (A_edge e i v); [by rewrite Esl|]. apply (E_cancel_reply _ _ _ _ p g); [by right|by apply fence_fenced|].
      clear - Es. unfold_states. lia. }
    cbn. split; [|split].
    + eapply (Forall_lookup_1 (fine metadata_ok)); [apply (base_fine _ (inv_base _ _ (act_inv _ _ _ _ _ Hi' Hact)))|].
      cbn. apply list_lookup_insert_eq. rewrite Esl, (base_slots _ Hb). done.
    + by rewrite Esl, (base_slots _ Hb).
    + apply (ends_fence _ _ _ v); [done|]. eapply ends_act; [exact Hact|by apply ends_now].
  - eapply pool_wp_mono; [intros r a'; apply pool_ends_any|]. apply pool_wp_release; [done|done|done|]. apply (R_exit _ _ _ p g); [done|done|..]; clear - Es; unfold_states; lia.
Qed.

Lemma wp_cancel_loop e p g ts slots : ∀ a,
  inv a ts → (∀ i, i ∈ slots → (i < 8)%nat) → exits e p g → 0 < s32 p → g ≠ 0 → wp (cancel_loop slots p g) a (ends e ts a any).
Proof.
  induction slots as [|i slots IH]; intros a Hi H8 He Hp Hg; cbn [cancel_loop]; [by apply ends_now|].
  apply pool_wp_bind, wp_attempt. eapply pool_wp_mono; [|apply (wp_cancel_slot e p g ts a i); try done; apply H8; by left].
  intros r a' [Hs _]. pose proof (acts_inv _ _ _ Hs Hi) as Hi'. eapply pool_wp_mono; [|apply IH; try done; intros j Hj; apply H8; by right].
  intros r' a''. by eapply (ends_trans _ _ a (@any unit) r); split.
Qed.

Lemma pool_slots_range i : i ∈ pool_slots → (i < 8)%nat.
Proof. intros Hi. apply elem_of_seq in Hi. unfold STORAGE_REQUEST_POOL_CAPACITY in Hi. lia. Qed.

Lemma wp_cancel_process e p g ts a : inv a ts → exits e p g → wp (storage_request_cancel_process p g) a (ends e ts a any).
Proof.
  intros Hi He. unfold storage_request_cancel_process. destruct (_ || _) eqn:E; [by apply ends_now|].
  apply wp_cancel_loop; [done|by intros; apply pool_slots_range|done|lia|lia].
Qed.

Lemma wp_unbind_service p g ts a :
  inv a ts → identity_pair p g → wp (storage_request_unbind_service p g) a (ends (Invoke (CUnbind p g)) ts a any).
Proof.
  intros Hi [Hp Hg]. unfold storage_request_unbind_service. cbn [attempt bind load_identity wp].
  set (rest := storage_request_cancel_process p g).
  assert (∀ a', inv a' ts → wp rest a' (ends (Invoke (CUnbind p g)) ts a' any)) as Hrest by (intros; apply wp_cancel_process; [done|by right]).
  destruct (_ && _) eqn:E; [|by apply Hrest]. cbn. split; [split; [apply identity_typed; cbn; ulia|done]|]. split; [|by apply Hrest].
  assert (act (Invoke (CUnbind p g)) (a, ts) (put_service a (Identity 0 0), ts)) as Hact.
  { apply (A_unbind _ p g); [done|]. destruct (a_service a) as [p' g']. cbn in E. f_equal; lia. }
  eapply pool_wp_mono; [|apply Hrest, (act_inv _ _ _ _ _ Hi Hact)]. intros r a'. by eapply ends_act.
Qed.

(** ** Submission *)
Lemma wp_count_loop a p g n : ∀ i c, base_ok a → (i + n = 8)%nat →
  wp (count_loop (seq i n) p g c) a (λ r a', r = inr (c + count (client_owns p g) (drop i (a_slots a))) ∧ a' = a).
Proof.
  induction n as [|n IH]; intros i c Hb Hn; cbn [seq count_loop].
  - split; [|done]. rewrite drop_ge by (rewrite (base_slots _ Hb); lia). unfold count. cbn. f_equal. lia.
  - apply wp_load; [done|lia|]. intros v Hv. eapply pool_wp_mono; [|apply (IH (S i) _ Hb); lia]. intros r a' [-> ->]. split; [|done].
    f_equal. rewrite (drop_S _ _ _ Hv). unfold count. cbn [List.filter]. change (client_owns p g v) with (client_has v p g).
    destruct (client_has v p g); cbn [length]; lia.
Qed.

(** What the checks before the loop have established. *)
Record admitted (a : astate) (p g : Z) (r : storage_request_submit_t) : Prop := {
  ad_room : count (client_owns p g) (a_slots a) < STORAGE_REQUEST_MAX_PER_CLIENT;
  ad_bulk : needs_bulk r = true → ∃ j b, bulk_slots (a_mem a) !! j = Some b ∧ b_state b = STORAGE_BULK_FREE
}.

Lemma pool_wp_reserve {X} a ts h (r : storage_request_submit_t) (f : bool → prog X) m Q :
  bulk_inv (a_slots a) (bulk_slots m) ts → (needs_bulk r = true → ∃ j b, bulk_slots m !! j = Some b ∧ b_state b = STORAGE_BULK_FREE) →
  m = a_mem a → wp (f true) (put_mem a (if needs_bulk r then (bulk_reserve h m).2 else m)) Q →
  wp (bind (if needs_bulk r then modify (λ m, (bulk_reserve h m).2);;; Ret (bool_decide (is_Some (bulk_reserve h m).1)) else Ret true) f) a Q.
Proof.
  intros Hk Hf -> Hwp. destruct (needs_bulk r) eqn:En; [|by rewrite put_same_mem in Hwp]. cbn.
  destruct (Hf eq_refl) as (j & b & Hj & Hb). assert (is_Some (bulk_reserve h (a_mem a)).1) as Hs.
  { unfold bulk_reserve. destruct (List.find (bulk_is_free (a_mem a)) all_bulk) as [k|] eqn:Ef; [by eexists|]. exfalso.
    pose proof (find_bulk_none _ (bulk_length _ _ _ Hk) _ _ _ Ef Hj) as Hno. unfold bulk_is_free in Hno.
    rewrite (bulk_at_lookup _ _ _ Hj), Hb in Hno. done. }
  by rewrite bool_decide_true.
Qed.

Lemma copy_holds data n : length data = 512%nat → n <= STORAGE_REQUEST_BLOCK_SIZE →
  take (Z.to_nat n) (d_bytes (data_copy data n)) = take (Z.to_nat n) data.
Proof.
  intros Hd Hn. cbn [data_copy d_bytes]. unfold data_copy, bytes_copy. cbn [d_bytes]. apply take_app_length'.
  rewrite length_take, Hd. unfold_states. lia.
Qed.

Lemma submit_data_given p g r data :
  submit_checks p g r data true = 0 → operation_has_input (r_operation r) = true → ∃ x, data = Some x.
Proof.
  intros Hch Hin. unfold submit_checks in Hch.
  repeat (match type of Hch with (if ?c then _ else _) = _ => destruct c eqn:?; try done end).
  destruct data as [x|]; [by exists x|]. match goal with H : operation_has_input _ && _ = false |- _ => by rewrite Hin in H end.
Qed.

Lemma wp_submit_loop c p g r data now out ts n : ∀ a i,
  c = CSubmit p g (Some r) data now out → out = true → submit_checks p g r data true = 0 → submit_typed p g now r → (∀ x, data = Some x → length x = 512%nat) → inv a ts →
  admitted a p g r → (i + n = 8)%nat →
  wp (submit_loop (seq i n) p g r data now) a
    (ends (Invoke c) ts a (on_success (λ h a', ∃ j v, serves a' h j v ∧ v = submitted p g now r (generation v) ∧
      (operation_has_input (operation v) = true → held a' j (length_ v) = take (Z.to_nat (length_ v)) (default [] data))))).
Proof.
  induction n as [|n IH]; intros a i Hc Ho Hch Hty Hdata Hi [Hroom Hbulk] Hn; cbn [seq submit_loop].
  { cbn. eapply ends_act; [apply A_pool_rejected|apply ends_fail]. }
  pose proof (inv_base _ _ Hi) as Hb. apply wp_load; [done|lia|]. intros v Hv.
  destruct (Z.eqb_spec (state v) STORAGE_SLOT_FREE) as [Hs|Hs]; cbn [negb]; [|by apply IH; [..|lia]].
  assert (is_free v = true) as Hfree by (unfold is_free; by rewrite Hs).
  destruct (base_lookup _ Hb _ _ Hv) as [Hi8 Hf]. pose proof (base_generation _ Hb _ _ Hv) as Hg.
  destruct (Z.eqb_spec (generation v) STORAGE_HANDLE_GENERATION_MAX) as [Eg|Eg].
  - assert (v = blank STORAGE_SLOT_FREE STORAGE_HANDLE_GENERATION_MAX) as Ev.
    { destruct (free_fine v Hf Hfree) as [E _]. by rewrite Hs, Eg in E. }
    assert (act (Invoke c) (a, ts) (put_slot a i (blank STORAGE_SLOT_RETIRED STORAGE_HANDLE_GENERATION_MAX), ts)) as Hact.
    { apply A_retire. by rewrite <- Ev. }
    cbn. split; [apply blank_fine; [by right|unfold_states; lia]|]. split; [by rewrite (base_slots _ Hb)|].
    eapply pool_wp_mono; [|apply IH; [done|done|done|done|done|exact (act_inv _ _ _ _ _ Hi Hact)| |lia]].
    + intros x a'. by eapply ends_act.
    + split; [|done]. cbn. rewrite (count_insert _ _ _ _ _ Hv), Ev. cbn. lia.
  - set (w := submitted p g now r (generation v + 1)). assert (u32 (generation v + 1) = generation v + 1) as Eu.
    { apply u32_small. unfold_states. unfold_words. lia. }
    assert (0 < generation v + 1 <= STORAGE_HANDLE_GENERATION_MAX) as Hn1 by lia.
    rewrite Eu. cbn [bind modify get attempt store_metadata wp]. fold w.
    split; [by eapply submitted_fine|]. split; [cbn; by rewrite (base_slots _ Hb)|].
    destruct (submit_data_rest r data i (a_mem a)) as (Eb & _ & _).
    set (m := submit_data r data i (a_mem a)) in *. set (h := make_handle i (generation v + 1)).
    assert (act (Invoke c) (a, ts) (State (<[i := w]> (a_slots a)) (a_service a) (a_mask a) (submit_mem i r h data (a_mem a)), ts)) as Hact.
    { subst c out. by eapply A_submit. }
    apply (pool_wp_reserve _ ts h r _ m); [|by rewrite Eb|done|].
    + rewrite Eb. cbn. apply (bulk_inv_put _ _ _ _ v); [apply (inv_bulk _ _ Hi)|done|cbn; lia|]. intros j b _ _ _ _ Hl.
      unfold live in Hl. by rewrite Hfree in Hl.
    + cbn. eapply ends_act; [exact Hact|]. apply ends_now. exists i, w. split; [|split; [done|]].
      * split; [|split; [apply submitted_live|done]]. cbn. apply list_lookup_insert_eq. by rewrite (base_slots _ Hb).
      * change (operation w) with (r_operation r). change (length_ w) with (expected_length r). intros Hin.
        change (operation_has_input (r_operation r) = true) in Hin.
        assert (primary (submit_mem i r h data (a_mem a)) = <[i := data_copy (default [] data) (expected_length r)]> (primary (a_mem a))) as Ep.
        { destruct (bulk_reserve_rest h m) as (Ep & _). unfold submit_mem. fold m. cbn [request_added set_stats primary].
          destruct (needs_bulk r); rewrite ?Ep; unfold m, submit_data; by rewrite Hin. }
        change (held _ i (expected_length r)) with
          (take (Z.to_nat (expected_length r)) (d_bytes (data_at (primary (submit_mem i r h data (a_mem a))) i))).
        rewrite Ep. unfold data_at. rewrite nth_lookup, list_lookup_insert_eq by (rewrite (data_length _ _ (inv_data _ _ Hi)); lia).
        cbn [default from_option id]. destruct (submit_data_given _ _ _ _ Hch Hin) as [x Ex]. rewrite Ex in *. specialize (Hdata x eq_refl).
        apply copy_holds; [done|]. pose proof (rq_length _ (submitted_request _ _ _ _ _ _ Hch Hty Hn1)) as [Hl _]. exact Hl.
Qed.

Lemma submit_ends p g q data now out ts a :
  inv a ts → call_ok (CSubmit p g q data now out) →
  wp (call_prog (CSubmit p g q data now out)) a (call_ends (CSubmit p g q data now out) ts a).
Proof.
  intros Hi ([Hp Hg] & Hnow & Hq & Hdata). apply wp_call; [done|]. unfold storage_request_submit. destruct q as [r|]; [|apply ends_fail].
  apply wp_guard; [intros _; apply ends_fail|]. intros Hch. unfold set_ in Hch. apply negb_false_iff, Z.eqb_eq in Hch.
  assert (out = true) as ->.
  { destruct out; [done|]. unfold submit_checks in Hch. cbn [negb] in Hch. rewrite orb_true_r in Hch. cbn [orb] in Hch. done. }
  apply pool_wp_bind. eapply pool_wp_mono; [|by apply (wp_count_loop a p g 8 0 0 (inv_base _ _ Hi))]. intros x a' [-> ->]. rewrite drop_0, Z.add_0_l.
  destruct (Z.leb_spec STORAGE_REQUEST_MAX_PER_CLIENT (count (client_owns p g) (a_slots a))) as [Hc|Hc].
  { cbn. eapply ends_act; [apply A_client_rejected|apply ends_fail]. }
  cbn [bind get wp]. destruct (needs_bulk r && negb (existsb (bulk_is_free (a_mem a)) all_bulk)) eqn:Eb.
  { cbn. eapply ends_act; [apply A_pool_rejected|apply ends_fail]. }
  pose proof (bulk_length _ _ _ (inv_bulk _ _ Hi)) as Hlen.
  destruct (Hq r eq_refl) as (H1 & H2 & H3 & H4 & H5).
  eapply pool_wp_mono; [|apply (wp_submit_loop (CSubmit p g (Some r) data now true) p g r data now true ts 8 a 0); try done].
  - intros x a' [Hs Hx]. split; [done|]. destruct x as [|h]; [done|]. split; [intros h' [=]|]. exact Hx.
  - split; [done|]. intros Hn. rewrite Hn in Eb. cbn [andb] in Eb. apply negb_false_iff, existsb_exists in Eb as (j & Hj & Hf).
    exists j, (bulk_at (a_mem a) j). unfold bulk_is_free in Hf. apply Z.eqb_eq in Hf. split; [|done].
    apply in_seq in Hj. apply bulk_lookup_at; [done|]. unfold STORAGE_REQUEST_BULK_CAPACITY in Hj. lia.
Qed.

(** ** Claims *)
Lemma wp_put_slot {X} e ts a i v v' (k : bool → prog X) Q :
  inv a ts → act e (a, ts) (put_slot a i v', ts) → a_slots a !! i = Some v →
  (inv (put_slot a i v') ts → wp (k true) (put_slot a i v') (ends e ts (put_slot a i v') Q)) →
  wp (WriteSlot i v' k) a (ends e ts a Q).
Proof.
  intros Hi Hact Hv Hk. pose proof (act_inv _ _ _ _ _ Hi Hact) as Hi'. pose proof (lookup_lt_Some _ _ _ Hv) as Hlt. cbn. split; [|split].
  - eapply (Forall_lookup_1 (fine metadata_ok)); [apply (base_fine _ (inv_base _ _ Hi'))|]. cbn. by apply list_lookup_insert_eq.
  - done.
  - eapply pool_wp_mono; [|by apply Hk]. intros r a'. by apply ends_act.
Qed.

Lemma wp_claim_loop e p g now v2 v3 ts n : ∀ a i,
  inv a ts → claims e p g now → identity_pair p g → 0 < s32 p → g ≠ 0 → a_service a = Identity p g → (i + n = 8)%nat →
  wp (claim_loop (seq i n) p g now v2 v3) a
    (ends e ts a (on_success (λ x a', a_mem a' = a_mem a ∧ ∃ j v w, a_slots a !! j = Some v ∧ (i <= j)%nat ∧ state v = STORAGE_SLOT_QUEUED ∧
      a_slots a' !! j = Some w ∧ state w = STORAGE_SLOT_CLAIMED ∧ request_of w = request_of v ∧ x.1 = descriptor v2 v3 j w ∧
      x.2 = (if operation_has_input (operation v) then held a j (length_ v) else [])))).
Proof.
  induction n as [|n IH]; intros a i Hi He Hpg Hp Hg Hid Hn; cbn [seq claim_loop]; [apply ends_fail|].
  pose proof (inv_base _ _ Hi) as Hb. apply wp_load; [done|lia|]. intros v Hv.
  assert (∀ (P Q : Z + (storage_request_descriptor * list Z) → astate → Prop), (∀ r a', P r a' → Q r a') →
    ∀ a0 r a', ends e ts a0 P r a' → ends e ts a0 Q r a') as Hmono by (intros P Q HPQ a0 r a' [? ?]; split; auto).
  assert (wp (claim_loop (seq (S i) n) p g now v2 v3) a
    (ends e ts a (on_success (λ x a', a_mem a' = a_mem a ∧ ∃ j v w, a_slots a !! j = Some v ∧ (i <= j)%nat ∧ state v = STORAGE_SLOT_QUEUED ∧
      a_slots a' !! j = Some w ∧ state w = STORAGE_SLOT_CLAIMED ∧ request_of w = request_of v ∧ x.1 = descriptor v2 v3 j w ∧
      x.2 = (if operation_has_input (operation v) then held a j (length_ v) else []))))) as Hskip.
  { eapply pool_wp_mono; [|apply IH; try done; lia]. intros r a'. apply Hmono. intros [|x] a''; [done|].
    intros (Em & j & u & w & H1 & H2 & H3). split; [done|]. exists j, u, w. split; [done|]. split; [lia|done]. }
  destruct (negb (state v =? STORAGE_SLOT_QUEUED) && negb (state v =? STORAGE_SLOT_INPUT_PENDING)) eqn:Es; [exact Hskip|].
  destruct (Z.leb_spec (deadline_ms v) now) as [Hd|Hd].
  { cbn [bind store_metadata]. apply (wp_put_slot _ _ _ i v); [done| |done|].
    - apply (A_edge e i v); [done|]. apply (E_expire _ _ _ _ p g now); [done| |done]. clear - Es. unfold_states. lia.
    - intros Hi'. cbn [wp bind]. eapply pool_wp_mono; [|apply IH; try done; lia]. intros r a'. apply Hmono. intros [|x] a''; [done|].
      intros (Em & j & u & w & H1 & H2 & H3). split; [done|]. exists j, u, w. cbn in H1. rewrite list_lookup_insert_ne in H1 by lia.
      split; [done|]. split; [lia|done]. }
  destruct (Z.eqb_spec (state v) STORAGE_SLOT_INPUT_PENDING) as [Hin|Hin]; [exact Hskip|].
  destruct (_ && negb v3); [exact Hskip|]. clear Hskip IH Hmono.
  assert (state v = STORAGE_SLOT_QUEUED) as Hq by (clear - Es Hin; unfold_states; lia).
  assert (live v = true) as Hl by (unfold live, is_free; by rewrite Hq).
  assert (a_slots (put_slot a i (with_service STORAGE_SLOT_CLAIMED p g v)) !! i = Some (with_service STORAGE_SLOT_CLAIMED p g v)) as Hw.
  { cbn. apply list_lookup_insert_eq. by eapply lookup_lt_Some. }
  assert (∀ data, data = (if operation_has_input (operation v) then held a i (length_ v) else []) →
    wp (store_metadata i (with_service STORAGE_SLOT_CLAIMED p g v);;;
        Ret (descriptor v2 v3 i (with_service STORAGE_SLOT_CLAIMED p g v), data)) a
    (ends e ts a (on_success (λ x a', a_mem a' = a_mem a ∧ ∃ j v w, a_slots a !! j = Some v ∧ (i <= j)%nat ∧ state v = STORAGE_SLOT_QUEUED ∧
      a_slots a' !! j = Some w ∧ state w = STORAGE_SLOT_CLAIMED ∧ request_of w = request_of v ∧ x.1 = descriptor v2 v3 j w ∧
      x.2 = (if operation_has_input (operation v) then held a j (length_ v) else []))))) as Hstore.
  { intros data Ed. cbn [bind store_metadata]. apply (wp_put_slot _ _ _ i v); [done| |done|].
    - apply (A_edge e i v); [done|]. by apply (E_claim _ _ _ _ p g now).
    - intros _. cbn [wp bind]. apply ends_now. split; [done|]. exists i, v, (with_service STORAGE_SLOT_CLAIMED p g v). by split_and!. }
  destruct (operation_has_input (operation v)) eqn:Ei; [|by apply Hstore].
  apply pool_wp_bind. eapply pool_wp_mono; [|apply (wp_load_data a ts i v); [done|done|done|]].
  - intros r a' [-> ->]. by apply Hstore.
  - unfold stored_length. by rewrite Ei.
Qed.

Lemma claim_locked_ends c p g now b1 b2 b3 ts a :
  inv a ts → claims (Invoke c) p g now → identity_pair p g ∧ 0 < s32 p ∧ g ≠ 0 →
  wp (claim_locked p g now b1 b2 b3) a (ends (Invoke c) ts a (on_success (λ x a', Z.b2z b1 + Z.b2z b2 + Z.b2z b3 = 1 ∧ claimed_reply b2 b3 a x.1 x.2 a'))).
Proof.
  intros Hi He (Hpg & Hp & Hg). unfold claim_locked.
  destruct (Z.eqb_spec (Z.b2z b1 + Z.b2z b2 + Z.b2z b3) 1) as [Hb|Hb]; cbn [negb]; [|apply ends_fail]. cbn [bind load_identity wp].
  apply wp_guard; [intros _; apply ends_fail|]. intros Hid.
  eapply pool_wp_mono; [|apply (wp_claim_loop (Invoke c) p g now b2 b3 ts 8 a 0); try done].
  - intros x a' [Hs Hx]. split; [done|]. destruct x as [|x]; [done|]. destruct Hx as (_ & j & v & w & H1 & _ & H2). split; [done|by exists j, v, w].
  - destruct (a_service a) as [p' g']. cbn in Hid. f_equal; lia.
Qed.

Lemma claim_ends c ts a :
  inv a ts → call_ok c → match c with CClaim _ _ _ _ | CClaim_v2 _ _ _ _ | CClaim_v3 _ _ _ _ => True | _ => False end →
  wp (call_prog c) a (call_ends c ts a).
Proof.
  intros Hi Hok Hc. destruct c; try done; cbn [call_prog];
    (match goal with |- wp _ _ (call_ends ?k _ _) => apply wp_call; [done|];
       unfold storage_request_claim, storage_request_claim_v2, storage_request_claim_v3;
       eapply pool_wp_mono; [|eapply (claim_locked_ends k); [done| |exact Hok]] end).
  all: try (exists out; unfold claims; tauto).
  all: intros x a' [Hs Hx]; (split; [done|]); destruct x as [|x]; [exact I|]; destruct Hx as [Hone Hx], out; try done; (split; [intros h [=]|exact Hx]).
Qed.

(** ** Completion *)
Lemma claimed_live v : state v = STORAGE_SLOT_CLAIMED → live v = true.
Proof. intros Hs. unfold live, is_free. by rewrite Hs. Qed.

Lemma effect_ok_closed a i v : base_ok a → a_slots a !! i = Some v → live v = true → effect_ok (closed v).
Proof.
  intros Hb Hi Hl. destruct (base_live _ Hb _ _ Hi Hl) as [_ Hp]. destruct (pg_open _ Hp) as (H1 & H2 & H3).
  destruct (base_lookup _ Hb _ _ Hi) as [_ [Ht _]]. apply metadata_typed in Ht.
  destruct (closed_fields v) as (_ & _ & _ & _ & _ & Er & Em). unfold effect_ok, may_have_effect, resource_of, mutation_open in *. rewrite Er.
  unfold_words. unfold_states. intros He. assert (mutation_state v ≠ 0) as Hne by (destruct Em as [Em|[Em _]]; lia). lia.
Qed.

(** The part of a completion after the fences. *)
Definition completion_tail (handle result_code : Z) (block_data : option (list Z)) (slot : nat) (v : storage_slot_metadata_t) : prog unit :=
  m <- get;;
  fail_if ((result_code =? 0) && (operation v =? STORAGE_REQUEST_VFS_BULK_READ) &&
    negb (match bulk_find handle m with Some index => b_state (bulk_at m index) =? STORAGE_BULK_PUBLISHED | None => false end)) STORAGE_EINVAL;;;
  (if set_ result_code && (operation v =? STORAGE_REQUEST_VFS_BULK_READ) then modify (bulk_release handle) else Ret tt);;;
  (if (result_code =? 0) && operation_has_output (operation v) then
     match block_data with
     | None => Fail STORAGE_EINVAL
     | Some data => modify (store_data slot data (length_ v))
     end
   else Ret tt);;;
  store_metadata slot (with_result STORAGE_SLOT_COMPLETE result_code v).

Lemma wp_completion_tail p g rc data i v ts a :
  inv a ts → a_slots a !! i = Some v → state v = STORAGE_SLOT_CLAIMED → served_by v p g = true → is_u32 rc →
  (∀ x, data = Some x → length x = 512%nat) →
  (rc = 0 → mutation_open v = false) → (rc ≠ 0 → fenced (a_mask a) (closed v)) →
  wp (completion_tail (handle_of i v) rc data i (closed v)) a
    (ends (Invoke (CComplete p g (handle_of i v) rc data)) ts a (on_success (λ _ a', a_slots a' !! i = Some (completion rc v) ∧
       (rc = 0 → operation_has_output (operation v) = true → held a' i (length_ v) = take (Z.to_nat (length_ v)) (default [] data))))).
Proof.
  intros Hi Hv Hs Hsb Hrc Hdata Hopen Hfence. pose proof (inv_base _ _ Hi) as Hb. destruct (base_lookup _ Hb _ _ Hv) as [Hi8 _].
  pose proof (claimed_live v Hs) as Hl. destruct (base_live _ Hb _ _ Hv Hl) as [Hr _].
  destruct (closed_fields v) as (E & _). pose proof (f_equal (λ l, nth 1 l 0) E : operation (closed v) = operation v) as Eo.
  pose proof (f_equal (λ l, nth 6 l 0) E : length_ (closed v) = length_ v) as El. unfold completion_tail. cbn [bind get wp]. rewrite Eo, El.
  apply wp_guard; [intros _; apply ends_fail|]. intros Hpub. fold (completion rc v).
  assert (rc = 0 → operation v = STORAGE_REQUEST_VFS_BULK_READ →
    ∃ j b, bulk_slots (a_mem a) !! j = Some b ∧ request_handle b = handle_of i v ∧ b_state b = STORAGE_BULK_PUBLISHED) as Hpub'.
  { intros -> Hop. rewrite Hop in Hpub. cbn [Z.eqb andb] in Hpub. destruct (bulk_find (handle_of i v) (a_mem a)) as [j|] eqn:Ef; [|done].
    apply bulk_find_some in Ef as (b & Hbj & Eb & _ & Hh); [|apply (bulk_length _ _ _ (inv_bulk _ _ Hi))]. rewrite Eb in Hpub.
    exists j, b. split_and!; [done|done|]. change (negb (b_state b =? STORAGE_BULK_PUBLISHED) = false) in Hpub. lia. }
  set (final := State (<[i := completion rc v]> (a_slots a)) (a_service a) (a_mask a) (complete_mem i v rc data (a_mem a))).
  assert (act (Invoke (CComplete p g (handle_of i v) rc data)) (a, ts) (final, ts)) as Hact by (by eapply (A_complete _ p g rc data)).
  pose proof (act_inv _ _ _ _ _ Hi Hact) as Hi'.
  assert (a_slots final !! i = Some (completion rc v)) as Hfin by (cbn; apply list_lookup_insert_eq; by eapply lookup_lt_Some).
  assert (∀ m, complete_mem i v rc data (a_mem a) = m →
    (rc = 0 → operation_has_output (operation v) = true → held final i (length_ v) = take (Z.to_nat (length_ v)) (default [] data)) →
    wp (store_metadata i (completion rc v)) (put_mem a m)
      (ends (Invoke (CComplete p g (handle_of i v) rc data)) ts a (on_success (λ _ a', a_slots a' !! i = Some (completion rc v) ∧
       (rc = 0 → operation_has_output (operation v) = true → held a' i (length_ v) = take (Z.to_nat (length_ v)) (default [] data)))))) as Hlast.
  { intros m <- Hheld. cbn. split; [|split].
    - by apply (Forall_lookup_1 _ _ _ _ (base_fine _ (inv_base _ _ Hi')) Hfin).
    - rewrite (base_slots _ Hb). done.
    - eapply ends_act; [exact Hact|]. by apply ends_now. }
  clear Hact Hpub'. unfold set_ in *. unfold complete_mem, set_ in Hlast. destruct (Z.eqb_spec rc 0) as [->|Hne]; cbn [negb andb] in *.
  - destruct (operation_has_output (operation v)) eqn:Eout.
    + destruct data as [x|]; [|apply ends_fail]. cbn [bind modify wp]. apply Hlast; [done|]. intros _ _.
      change (held final i (length_ v)) with (take (Z.to_nat (length_ v)) (d_bytes (data_at (primary (complete_mem i v 0 (Some x) (a_mem a))) i))).
      unfold complete_mem. cbn [set_ Z.eqb negb]. rewrite Eout. unfold data_at. cbn [store_data set_data primary default from_option id].
      rewrite nth_lookup, list_lookup_insert_eq by (rewrite (data_length _ _ (inv_data _ _ Hi)); lia). cbn [default from_option id].
      apply copy_holds; [by apply Hdata|]. by destruct (rq_length _ Hr).
    + cbn [bind wp]. rewrite <- (put_same_mem a) at 1. by apply Hlast.
  - destruct (operation v =? STORAGE_REQUEST_VFS_BULK_READ); cbn [bind modify wp].
    + by apply Hlast.
    + rewrite <- (put_same_mem a) at 1. by apply Hlast.
Qed.

Lemma complete_ends p g h rc data ts a :
  inv a ts → call_ok (CComplete p g h rc data) →
  wp (call_prog (CComplete p g h rc data)) a (call_ends (CComplete p g h rc data) ts a).
Proof.
  intros Hi (Hpg & Hh & Hrc & Hdata). apply wp_call; [done|]. pose proof (inv_base _ _ Hi) as Hb. unfold storage_request_complete.
  apply wp_resolve; [done|done|apply ends_fail|]. intros i v Hv Hl ->.
  destruct (in_service v p g) eqn:Es; cbn [negb]; [|apply ends_fail]. unfold in_service in Es. apply andb_true_iff in Es as [Es Hsb].
  assert (serves a (handle_of i v) i v) as Hserves by done.
  assert (∀ h', Some (handle_of i v) = Some h' → ∃ j w, serves a h' j w) as Hnamed by (intros h' [= <-]; by exists i, v).
  destruct (Z.eqb_spec (state v) STORAGE_SLOT_CANCEL_PENDING) as [Hc|Hc].
  { eapply pool_wp_mono; [|by apply (pool_wp_release (Invoke (CComplete p g (handle_of i v) rc data)) ts a i v); [..|by eapply (R_cancelled _ _ _ p g)]].
    intros r a' [Hs [-> ->]]. split; [done|]. split; [done|]. exists i, v. split; [done|]. split; [done|]. left. split; [done|].
    by apply spent_released. }
  assert (state v = STORAGE_SLOT_CLAIMED) as Hs by (clear - Es Hc; unfold_states; lia).
  pose proof (effect_ok_live _ _ _ Hb Hv Hl) as He. pose proof (effect_ok_closed _ _ _ Hb Hv Hl) as Hec.
  (* the region from the state [a1] reached by fencing *)
  assert (∀ a1, acts (Invoke (CComplete p g (handle_of i v) rc data)) (a, ts) (a1, ts) → inv a1 ts → a_slots a1 = a_slots a →
    (rc = 0 → mutation_open v = false) → (rc ≠ 0 → fenced (a_mask a1) (closed v)) →
    wp (completion_tail (handle_of i v) rc data i (closed v)) a1 (ends (Invoke (CComplete p g (handle_of i v) rc data)) ts a
      (on_success (λ x, reply_ok (CComplete p g (handle_of i v) rc data) a (inr RNone))))) as Htail.
  { intros a1 H1 Hi1 Esl Hopen Hf. eapply pool_wp_mono; [|apply (wp_completion_tail p g rc data i v ts a1); try done; by rewrite Esl].
    intros r a' [Hs' Hr]. split; [by etrans|]. destruct r as [|[]]; [done|]. destruct Hr as [Hr1 Hr2]. split; [done|]. exists i, v.
    split; [done|]. split; [done|]. right. by split_and!. }
  change (is_mutation v && ((mutation_state v =? MUTATION_BOUND) || (mutation_state v =? MUTATION_ATTEMPTED))) with (mutation_open v).
  assert (∀ a1, acts (Invoke (CComplete p g (handle_of i v) rc data)) (a, ts) (a1, ts) → inv a1 ts → a_slots a1 = a_slots a →
    (rc = 0 → mutation_open v = false) →
    wp ((if is_mutation (closed v) && set_ rc then mutation_fence_lost (closed v) else Ret tt);;; completion_tail (handle_of i v) rc data i (closed v)) a1
      (ends (Invoke (CComplete p g (handle_of i v) rc data)) ts a
        (on_success (λ x, reply_ok (CComplete p g (handle_of i v) rc data) a (inr RNone))))) as Hfence.
  { intros a1 H1 Hi1 Esl Hopen. destruct (is_mutation (closed v) && set_ rc) eqn:Em.
    - apply pool_wp_bind. eapply pool_wp_mono; [|by apply wp_fence_lost; [apply (inv_base _ _ Hi1)|]]. intros r a' [-> ->].
      destruct (fence_fields a1 (closed v)) as (Ef & _ & _). apply Htail; [|by apply fence_inv|congruence|done|by intros _; apply fence_fenced].
      etrans; [exact H1|by apply fence_acts].
    - apply Htail; try done. intros Hne Hme. exfalso. destruct (base_live _ Hb _ _ Hv Hl) as [_ Hp].
      destruct (closed_fields v) as (E & _ & _ & _ & _ & _ & Emut). pose proof (f_equal (λ l, nth 1 l 0) E : operation (closed v) = operation v) as Eo.
      assert (is_mutation v = true) as Hm.
      { destruct Emut as [Emut|[Eop _]]; [|unfold mutation_open in Eop; by apply andb_true_iff in Eop as [? _]].
        apply (pg_bound _ Hp). unfold may_have_effect in Hme. rewrite Emut in Hme. clear - Hme. unfold_states. lia. }
      unfold is_mutation in *. rewrite Eo, Hm in Em. unfold set_ in Em. clear - Em Hne. lia. }
  destruct (mutation_open v) eqn:Eo.
  - destruct (decide (rc = 0)) as [->|Hne]; [apply ends_fail|]. rewrite (proj2 (Z.eqb_neq rc 0) Hne) at 1. apply pool_wp_bind, pool_wp_bind.
    eapply pool_wp_mono; [|by apply wp_fence_lost]. intros r a' [-> ->]. wp_ret.
    assert (closed v = with_mutation (mutation_resource_plus_one v)
      (if mutation_state v =? MUTATION_BOUND then MUTATION_FINISHED_NO_EFFECT else MUTATION_FINISHED_UNKNOWN) v) as <- by (unfold closed; by rewrite Eo).
    apply Hfence; [by apply fence_acts|by apply fence_inv|apply (fence_fields a v)|done].
  - assert (closed v = v) as Ecl by (unfold closed; by rewrite Eo). cbn [bind]. rewrite <- Ecl at 1 2.
    pose proof (Hfence a) as H. rewrite Ecl in *. apply H; [apply rtc_refl|done|done|done].
Qed.

(** ** Context, collection, cancellation *)
Lemma named_serves {c h a i v} : named c = Some h → serves a h i v → ∀ h', named c = Some h' → ∃ j w, serves a h' j w.
Proof. intros E Hs h' E'. rewrite E in E'. injection E' as <-. by exists i, v. Qed.

Lemma context_ends p g h out ts a :
  inv a ts → call_ok (CContext p g h out) → wp (call_prog (CContext p g h out)) a (call_ends (CContext p g h out) ts a).
Proof.
  intros Hi (Hpg & Hh). apply wp_call; [done|]. unfold storage_request_completion_context. destruct out; [|apply ends_fail]. cbn [negb].
  apply wp_resolve; [apply (inv_base _ _ Hi)|done|apply ends_fail|]. intros i v Hv Hl ->.
  destruct (negb _); [apply ends_fail|]. apply ends_now. split; [|done]. by eapply (named_serves (i := i) (v := v)).
Qed.

(** The release that ends a call. *)
Lemma wp_release_last {X} c ts a i v (x : X) (Q : X → astate → Prop) :
  inv a ts → a_slots a !! i = Some v → live v = true → releases (Invoke c) i v →
  (spent (handle_of i v) (release_state (fence a v) i v) → Q x (release_state (fence a v) i v)) →
  wp (bind (release_slot i v) (λ _, Ret x)) a (ends (Invoke c) ts a (on_success Q)).
Proof.
  intros Hi Hv Hl Hr HQ. apply pool_wp_bind. eapply pool_wp_mono; [|by apply (pool_wp_release (Invoke c) ts a i v)].
  intros r a' [Hs [-> ->]]. wp_ret. split; [done|]. apply HQ. by apply spent_released; [apply (inv_base _ _ Hi)|..].
Qed.

Lemma stored_output v :
  state v = STORAGE_SLOT_COMPLETE → (result v =? 0) && operation_has_output (operation v) = true → stored_length v = length_ v.
Proof.
  intros Hs Ho. unfold stored_length, completed. rewrite Hs. cbn [Z.eqb orb]. change (STORAGE_SLOT_COMPLETE =? STORAGE_SLOT_COMPLETE) with true.
  cbn [orb andb]. by rewrite Ho, orb_true_r.
Qed.

Lemma collect_ends p g h out data_out ts a :
  inv a ts → call_ok (CCollect p g h out data_out) →
  wp (call_prog (CCollect p g h out data_out)) a (call_ends (CCollect p g h out data_out) ts a).
Proof.
  intros Hi (Hpg & Hh). apply wp_call; [done|]. unfold storage_request_collect_ex. destruct out; [|apply ends_fail]. cbn [negb].
  apply wp_resolve; [apply (inv_base _ _ Hi)|done|apply ends_fail|]. intros i v Hv Hl ->.
  destruct (asked_by v p g) eqn:Ea; [|apply ends_fail]. cbn [negb].
  destruct (is_mutation v); [apply ends_fail|]. destruct (state v =? STORAGE_SLOT_CANCEL_PENDING); [apply ends_fail|].
  destruct (Z.eqb_spec (state v) STORAGE_SLOT_COMPLETE) as [Hs|]; [|apply ends_fail]. cbn [negb].
  destruct (operation v =? STORAGE_REQUEST_VFS_BULK_READ); [apply ends_fail|].
  set (c := CCollect p g (handle_of i v) true data_out).
  assert (∀ data n, data = (if (result v =? 0) && operation_has_output (operation v) then held a i (length_ v) else []) →
    wp (release_slot i v;;; Ret (result v, data, n)) a (ends (Invoke c) ts a (on_success (λ x, reply_ok c a (inr (RResult x.1.1 x.1.2 x.2)))))) as Hrel.
  { intros data n Ed. apply wp_release_last; [done|done|done|by eapply (R_collect _ _ _ p g)|]. intros Hsp.
    split; [by apply (named_serves (h := handle_of i v) (i := i) (v := v))|]. by exists i, v. }
  destruct ((result v =? 0) && operation_has_output (operation v)) eqn:Eo; [|by apply Hrel].
  destruct data_out; [|apply ends_fail]. cbn [negb].
  apply pool_wp_bind. eapply pool_wp_mono; [|apply (wp_load_data a ts i v); [done|done|done|symmetry; by apply stored_output]].
  intros r a' [-> ->]. by apply Hrel.
Qed.

Lemma cancel_ends p g h ts a :
  inv a ts → call_ok (CCancel p g h) → wp (call_prog (CCancel p g h)) a (call_ends (CCancel p g h) ts a).
Proof.
  intros Hi (Hpg & Hh). apply wp_call; [done|]. pose proof (inv_base _ _ Hi) as Hb. unfold storage_request_cancel.
  destruct (_ || _); [apply ends_fail|]. apply wp_resolve; [done|done|apply ends_fail|]. intros i v Hv Hl ->.
  destruct (asked_by v p g) eqn:Ea; [|apply ends_fail]. cbn [negb]. pose proof (effect_ok_live _ _ _ Hb Hv Hl) as He.
  set (c := CCancel p g (handle_of i v)). assert (∀ a', reply_ok c a (inr RNone) a') as Hr.
  { intros a'. split; [|done]. by apply (named_serves (h := handle_of i v) (i := i) (v := v)). }
  apply pool_wp_bind. eapply pool_wp_mono; [|by apply wp_fence_lost]. intros r a' [-> ->]. cbv beta iota.
  pose proof (fence_inv a ts v Hi He) as Hi'. destruct (fence_fields a v) as (Es & _ & _).
  assert (wp (if state v =? STORAGE_SLOT_DELIVERY_CANCELLED then Ret tt
      else if state v =? STORAGE_SLOT_DELIVERING then store_metadata i (with_state STORAGE_SLOT_DELIVERY_CANCELLED v)
      else if state v =? STORAGE_SLOT_CANCEL_PENDING then Ret tt
      else if (state v =? STORAGE_SLOT_QUEUED) || (state v =? STORAGE_SLOT_INPUT_PENDING) || (state v =? STORAGE_SLOT_COMPLETE) ||
        (state v =? STORAGE_SLOT_DELIVERED) then release_slot i v
      else if negb (state v =? STORAGE_SLOT_CLAIMED) then Fail STORAGE_EINVAL
      else store_metadata i (with_state STORAGE_SLOT_CANCEL_PENDING v)) (fence a v) (ends (Invoke c) ts (fence a v) (on_success (λ _, reply_ok c a (inr RNone))))) as H.
  2: { eapply pool_wp_mono; [|exact H]. intros r a'. by apply ends_fence. }
  destruct (state v =? STORAGE_SLOT_DELIVERY_CANCELLED) eqn:E1; [apply ends_now, Hr|].
  destruct (Z.eqb_spec (state v) STORAGE_SLOT_DELIVERING) as [E2|E2].
  { apply (wp_put_slot _ _ _ i v); [done| |by rewrite Es|intros _; apply ends_now, Hr]. apply (A_edge _ i v); [by rewrite Es|].
    apply (E_cancel_reply _ _ _ _ p g); [by left|by apply fence_fenced|by left]. }
  destruct (Z.eqb_spec (state v) STORAGE_SLOT_CANCEL_PENDING) as [E3|E3]; [apply ends_now, Hr|].
  destruct (_ || _) eqn:E4.
  { eapply pool_wp_mono; [|apply (pool_wp_release (Invoke c) ts (fence a v) i v); [done|by rewrite Es|done|]].
    - intros r a' [Hs [-> ->]]. split; [done|]. apply Hr.
    - apply (R_cancel _ _ _ p g); try done. clear - E4. unfold_states. lia. }
  destruct (Z.eqb_spec (state v) STORAGE_SLOT_CLAIMED) as [E5|E5]; [|apply ends_fail]. cbn [negb].
  apply (wp_put_slot _ _ _ i v); [done| |by rewrite Es|intros _; apply ends_now, Hr]. apply (A_edge _ i v); [by rewrite Es|].
  apply (E_cancel _ _ _ _ p g); [done|done|by apply fence_fenced|done].
Qed.

(** ** Mutations *)
Lemma wp_claimed {X} a ts p g h now (f : nat * storage_slot_metadata_t → prog X) (Q : Z + X → astate → Prop) :
  inv a ts → is_u32 h → (∀ err, Q (inl err) a) →
  (∀ i v, serves a h i v → entitled a v p g now → wp (f (i, v)) a Q) → wp (bind (mutation_claimed_locked p g h now) f) a Q.
Proof.
  intros Hi Hh HQ Hf. unfold mutation_claimed_locked. cbn [bind load_identity wp]. apply pool_wp_bind.
  apply wp_guard; [intros; apply HQ|]. intros Hid. apply wp_resolve; [apply (inv_base _ _ Hi)|done|apply HQ|]. intros i v Hv Hl ->.
  apply wp_guard; [intros; apply HQ|]. intros Hm. apply wp_guard; [intros; apply HQ|]. intros Hc.
  apply wp_guard; [intros; apply HQ|]. intros Hs. apply wp_guard; [intros; apply HQ|]. intros Hd. wp_ret. apply Hf; [done|].
  destruct (a_service a) as [p' g'] eqn:Ea. cbn [i_pid i_generation] in Hid. unfold entitled. rewrite Ea. unfold served_by in *.
  split; [f_equal; lia|]. split; [lia|]. split; [lia|]. split; [by destruct (is_mutation v)|]. split; [lia|]. split; lia.
Qed.

Lemma entitled_carries {a v p g now a'} : a_service a' = a_service a → entitled a v p g now → entitled a' v p g now.
Proof. unfold entitled. intros ->. done. Qed.

Lemma mutation_context_ends p g h now out ts a :
  inv a ts → call_ok (CMutationContext p g h now out) →
  wp (call_prog (CMutationContext p g h now out)) a (call_ends (CMutationContext p g h now out) ts a).
Proof.
  intros Hi (Hpg & Hh). apply wp_call; [done|]. unfold storage_request_mutation_context. destruct out; [|apply ends_fail]. cbn [negb].
  apply (wp_claimed a ts); [done|done|intros; apply ends_fail|]. intros i v Hv _. unfold input_required. cbn [bind get wp].
  apply wp_guard; [intros _; apply ends_fail|]. intros _. apply ends_now. split; [|done]. by apply (named_serves (h := h) (i := i) (v := v)).
Qed.

Lemma wp_not_fenced {X} a r (f : unit → prog X) (Q : Z + X → astate → Prop) :
  base_ok a → 0 <= r → (∀ err, Q (inl err) a) → (Z.testbit (a_mask a) r = false → wp (f tt) a Q) → wp (bind (not_fenced r) f) a Q.
Proof.
  intros Hb Hr HQ Hf. unfold not_fenced. apply pool_wp_bind. apply wp_fences; [done|]. rewrite resource_bit_test by done.
  destruct (Z.testbit (a_mask a) r); [apply HQ|]. by apply Hf.
Qed.

Lemma mutation_bind_ends p g h r now ts a :
  inv a ts → call_ok (CMutationBind p g h r now) → wp (call_prog (CMutationBind p g h r now)) a (call_ends (CMutationBind p g h r now) ts a).
Proof.
  intros Hi (Hpg & Hh & Hr). apply wp_call; [done|]. unfold storage_request_mutation_bind.
  destruct (Z.leb_spec 32 r) as [|Hr']; [apply ends_fail|]. apply (wp_claimed a ts); [done|done|intros; apply ends_fail|].
  intros i v Hv Hen. pose proof Hv as (Hi0 & Hl & ->). apply wp_not_fenced; [apply (inv_base _ _ Hi)|by destruct Hr|intros; apply ends_fail|].
  intros Hf. apply wp_guard; [intros _; apply ends_fail|]. intros Hm. unfold input_required. cbn [bind get wp].
  apply wp_guard; [intros _; apply ends_fail|]. intros _. apply (wp_put_slot _ _ _ i v); [done| |done|].
  - apply (A_edge _ i v); [done|]. apply (E_bind _ _ _ _ p g r now); try done; [destruct Hr; lia|].
    clear - Hm. lia.
  - intros _. apply ends_now. split; [|done]. by apply (named_serves (h := handle_of i v) (i := i) (v := v)).
Qed.

Lemma mutation_io_ends (effect : bool) c p g h r now ts a :
  inv a ts → call_ok c → c = (if effect then CMutationEffect p g h r now else CMutationAuthorized p g h r now) →
  wp (mutation_io p g h r now effect) a (ends (Invoke c) ts a (on_success (λ _, reply_ok c a (inr RNone)))).
Proof.
  intros Hi Hok Hc. assert (identity_pair p g ∧ is_u32 h ∧ is_u32 r) as (Hpg & Hh & Hr) by (subst c; by destruct effect). unfold mutation_io.
  destruct (Z.leb_spec 32 r) as [|Hr']; [apply ends_fail|]. apply (wp_claimed a ts); [done|done|intros; apply ends_fail|].
  intros i v Hv Hen. pose proof Hv as (Hi0 & Hl & ->). apply wp_not_fenced; [apply (inv_base _ _ Hi)|by destruct Hr|intros; apply ends_fail|].
  intros Hf. apply wp_guard; [intros _; apply ends_fail|]. intros Ho. apply negb_false_iff in Ho. unfold open_on in Ho.
  assert (∀ h', named c = Some h' → ∃ j w, serves a h' j w) as Hn.
  { subst c. destruct effect; by apply (named_serves (h := handle_of i v) (i := i) (v := v)). }
  assert (0 <= r < 32) as Hr32 by (destruct Hr; lia).
  destruct (effect && negb (mutation_state v =? MUTATION_ATTEMPTED)) eqn:Ee.
  - apply andb_true_iff in Ee as [-> Ea]. subst c. apply (wp_put_slot _ _ _ i v); [done| |done|].
    + apply (A_edge _ i v); [done|]. apply (E_effect _ _ _ _ p g r now); try done; clear - Ho Ea; lia.
    + intros _. apply ends_now. split; [done|]. split; [done|]. exists i, (with_mutation (mutation_resource_plus_one v) MUTATION_ATTEMPTED v).
      split; [|split; [done|split; [|done]]].
      * split; [|by split]. cbn. apply list_lookup_insert_eq. by eapply lookup_lt_Some.
      * unfold resource_of. cbn. clear - Ho. lia.
  - apply ends_now. split; [done|]. subst c. destruct effect; [|done]. split; [done|]. exists i, v. split; [done|]. unfold resource_of.
    cbn [andb] in Ee. split; [clear - Ee; lia|]. split; [clear - Ho; lia|done].
Qed.

Lemma mutation_finish_ends p g h r o now ts a :
  inv a ts → call_ok (CMutationFinish p g h r o now) →
  wp (call_prog (CMutationFinish p g h r o now)) a (call_ends (CMutationFinish p g h r o now) ts a).
Proof.
  intros Hi (Hpg & Hh & Hr). apply wp_call; [done|]. pose proof (inv_base _ _ Hi) as Hb. unfold storage_request_mutation_finish.
  destruct (_ || _ || _) eqn:Eg; [apply ends_fail|]. apply (wp_claimed a ts); [done|done|intros; apply ends_fail|].
  intros i v Hv Hen. pose proof Hv as (Hi0 & Hl & ->). apply wp_guard; [intros _; apply ends_fail|]. intros Hg.
  apply orb_false_iff in Hg as [Ho Hn]. apply negb_false_iff in Ho. cbv zeta. set (w := with_mutation (mutation_resource_plus_one v) (finished o) v).
  set (c := CMutationFinish p g (handle_of i v) r o now).
  assert (STORAGE_MUTATION_NO_EFFECT <= o <= STORAGE_MUTATION_UNKNOWN) as Hrange by (clear - Eg; lia).
  pose proof Ho as Ho'. unfold open_on in Ho'. assert (0 <= r < 32) as Hr32 by (destruct Hr as [Hr0 _]; clear - Eg Hr0; lia).
  assert (effect_ok w) as Hew by (intros _; unfold resource_of, w; edge_fields; clear - Ho' Hr32; lia).
  assert (∀ a1, inv a1 ts → a_slots a1 = a_slots a → a_service a1 = a_service a → (o = STORAGE_MUTATION_UNKNOWN → Z.testbit (a_mask a1) r = true) →
    wp (store_metadata i w) a1 (ends (Invoke c) ts a1 (on_success (λ _, reply_ok c a (inr RNone))))) as Hlast.
  { intros a1 Hi1 Es Ev Hf. apply (wp_put_slot _ _ _ i v); [done| |by rewrite Es|].
    - apply (A_edge _ i v); [by rewrite Es|]. apply (E_finish _ _ _ _ p g r o now); try done; [by eapply entitled_carries|].
      intros ->. rewrite Z.eqb_refl in Hn. cbn [andb] in Hn. clear - Ho' Hn. lia.
    - intros _. apply ends_now. split; [|done]. by apply (named_serves (h := handle_of i v) (i := i) (v := v)). }
  destruct (Z.eqb_spec o STORAGE_MUTATION_UNKNOWN) as [Eu|Eu]; [|by apply Hlast].
  apply pool_wp_bind. eapply pool_wp_mono; [|by apply wp_fence_lost]. intros x a' [-> ->]. cbv beta iota.
  destruct (fence_fields a w) as (Es & _ & Ev). eapply pool_wp_mono; [intros x a'; by apply ends_fence|].
  apply Hlast; [by apply fence_inv|done|done|]. intros _. assert (resource_of w = r) as <- by (unfold resource_of, w; edge_fields; clear - Ho'; lia).
  apply fence_fenced; [done|]. unfold may_have_effect, w. edge_fields. subst o. done.
Qed.

Lemma wp_sweep_loop e now ts slots : ∀ a, inv a ts → (∀ i, i ∈ slots → (i < 8)%nat) → wp (sweep_loop slots now) a (ends e ts a any).
Proof.
  induction slots as [|i slots IH]; intros a Hi H8; cbn [sweep_loop]; [by apply ends_now|]. pose proof (inv_base _ _ Hi) as Hb.
  assert (∀ a', inv a' ts → wp (sweep_loop slots now) a' (ends e ts a' any)) as Hrest by (intros; apply IH; [done|intros j Hj; apply H8; by right]).
  unfold sweep_slot. apply pool_wp_bind. apply wp_load; [done|apply H8; by left|]. intros v Hv.
  destruct (set_ (deadline_ms v) && (deadline_ms v <=? now)) eqn:E; [|by apply Hrest].
  assert (effect_ok v) as He.
  { eapply effect_ok_live; [done|done|]. destruct (live v) eqn:El; [done|]. exfalso. unfold live in El. apply negb_false_iff in El.
    destruct (base_lookup _ Hb _ _ Hv) as [_ Hf]. destruct (free_fine v Hf El) as [Ev _]. rewrite Ev in E. done. }
  eapply pool_wp_mono; [|by apply wp_fence_lost]. intros r a' [-> ->]. cbv beta iota. eapply pool_wp_mono; [intros x a''; by apply ends_fence|].
  by apply Hrest, fence_inv.
Qed.

Lemma mutation_fences_ends now out ts a :
  inv a ts → wp (call_prog (CMutationFences now out)) a (call_ends (CMutationFences now out) ts a).
Proof.
  intros Hi. apply wp_call; [done|]. unfold storage_request_mutation_fences. destruct out; [|apply ends_fail]. cbn [negb bind get wp].
  assert (∀ a', acts (Invoke (CMutationFences now true)) (a, ts) (a', ts) → inv a' ts → wp mutation_fences_read a' (ends (Invoke (CMutationFences now true)) ts a
    (on_success (λ x, reply_ok (CMutationFences now true) a (inr (RFences x.1 x.2)))))) as Hread.
  { intros a' Hs Hi'. cbn. rewrite (base_fences _ (inv_base _ _ Hi')). cbn. split; [done|]. by split; [intros h [=]|]. }
  destruct (_ && _); [|by apply Hread; [apply rtc_refl|]].
  apply pool_wp_bind, pool_wp_bind, wp_attempt. eapply pool_wp_mono; [|apply (wp_sweep_loop (Invoke (CMutationFences now true)) now ts pool_slots a Hi); by intros; apply pool_slots_range].
  intros r a' [Hs _]. wp_ret. apply Hread; [done|]. by apply (acts_inv _ _ _ Hs Hi).
Qed.

(** ** Recovery *)
Lemma wp_retained_loop {X} a r (f : unit → prog X) (Q : Z + X → astate → Prop) n : ∀ i,
  base_ok a → (i + n = 8)%nat → (∀ err, Q (inl err) a) →
  ((∀ j v, (i <= j)%nat → a_slots a !! j = Some v → mutation_resource_plus_one v ≠ r + 1) → wp (f tt) a Q) →
  wp (bind (retained_loop (seq i n) r) f) a Q.
Proof.
  induction n as [|n IH]; intros i Hb Hn HQ Hf; cbn [seq retained_loop].
  { apply Hf. intros j v Hj Hv. apply lookup_lt_Some in Hv. rewrite (base_slots _ Hb) in Hv. lia. }
  apply pool_wp_bind. apply wp_load; [done|lia|]. intros v Hv. apply wp_guard; [intros _; apply HQ|]. intros E. apply Z.eqb_neq in E.
  apply wp_bind_inv. apply IH; [done|lia|done|]. intros Hnot. apply Hf. intros j w Hj Hw. destruct (decide (j = i)) as [->|Hne]; [congruence|].
  apply (Hnot j w); [lia|done].
Qed.

Lemma recovery_ends (clear : bool) c p g r ts a :
  inv a ts → is_u32 r → c = (if clear then CRecoveryClear p g r else CRecoveryReady p g r) →
  wp (mutation_recovery p g r clear) a (ends (Invoke c) ts a (on_success (λ _, reply_ok c a (inr RNone)))).
Proof.
  intros Hi [Hr0 _] Hc. pose proof (inv_base _ _ Hi) as Hb. unfold mutation_recovery. destruct (_ || _ || _) eqn:Eg; [apply ends_fail|].
  apply wp_fences; [done|]. cbn [bind get wp]. apply wp_guard; [intros _; apply ends_fail|]. intros _. cbn [bind load_identity wp].
  apply wp_guard; [intros _; apply ends_fail|]. intros Hid. apply (wp_retained_loop _ _ _ _ 8 0); [done|done|intros; apply ends_fail|].
  intros Hnot. assert (∀ a', reply_ok c a (inr RNone) a') as Hr by (subst c; destruct clear; by split; [intros h [=]|]).
  assert (0 <= r < 32) as Hr32 by (clear - Eg Hr0; lia).
  destruct (clear && _) eqn:Ec; [|apply ends_now, Hr]. apply andb_true_iff in Ec as [-> Et]. cbn [wp]. split; [|split].
  - apply land_u32, (base_mask _ Hb).
  - apply (base_fences _ Hb).
  - eapply ends_act; [|apply ends_now, Hr]. apply (A_unfence _ p g); [by subst c|done| |].
    + destruct (a_service a) as [p' g']. cbn in Hid. f_equal; clear - Hid; lia.
    + intros i v Hv. apply (Hnot i v); [lia|done].
Qed.

Lemma refence_ends r ts a : inv a ts → call_ok (CRecoveryRefence r) → wp (call_prog (CRecoveryRefence r)) a (call_ends (CRecoveryRefence r) ts a).
Proof.
  intros Hi [Hr0 _]. apply wp_call; [done|]. unfold storage_request_recovery_refence. destruct (Z.leb_spec 32 r) as [|Hr]; [apply ends_fail|].
  set (v := with_mutation (r + 1) MUTATION_FINISHED_UNKNOWN zero_metadata).
  assert (effect_ok v) as He by (intros _; unfold resource_of, v; cbn; lia).
  eapply pool_wp_mono; [|by apply wp_fence_lost; [apply (inv_base _ _ Hi)|]]. intros x a' [-> ->]. split; [by apply fence_acts|].
  by split; [intros h [=]|].
Qed.

(** ** Replies *)
Lemma wp_client {X} a p g h (f : nat * storage_slot_metadata_t → prog X) (Q : Z + X → astate → Prop) :
  base_ok a → is_u32 h → (∀ err, Q (inl err) a) →
  (∀ i v, serves a h i v → asked_by v p g = true → is_mutation v = true → wp (f (i, v)) a Q) → wp (bind (mutation_client_locked p g h) f) a Q.
Proof.
  intros Hb Hh HQ Hf. unfold mutation_client_locked. apply pool_wp_bind. apply wp_resolve; [done|done|apply HQ|]. intros i v Hv Hl ->. cbn [snd].
  apply wp_guard; [intros; apply HQ|]. intros Ha. apply wp_guard; [intros; apply HQ|]. intros Hm. wp_ret.
  apply Hf; [done|by destruct (asked_by v p g)|by destruct (is_mutation v)].
Qed.

Lemma reply_begin_ends p g h now out ts a :
  inv a ts → call_ok (CReplyBegin p g h now out) → wp (call_prog (CReplyBegin p g h now out)) a (call_ends (CReplyBegin p g h now out) ts a).
Proof.
  intros Hi (Hpg & Hh). apply wp_call; [done|]. unfold storage_request_mutation_reply_begin. destruct out; [|apply ends_fail]. cbn [negb].
  apply wp_client; [apply (inv_base _ _ Hi)|done|intros; apply ends_fail|]. intros i v Hv Ha Hm. pose proof Hv as (Hi0 & Hl & ->).
  set (c := CReplyBegin p g (handle_of i v) now true). apply wp_guard; [intros _; apply ends_fail|]. intros Hs. apply negb_false_iff, Z.eqb_eq in Hs.
  destruct (Z.leb_spec (deadline_ms v) now) as [Hd|Hd].
  { apply pool_wp_bind, pool_wp_bind. eapply pool_wp_mono; [|apply (pool_wp_release (Invoke c) ts a i v); [done|done|done|by eapply (R_expired _ _ _ p g now true)]].
    intros r a' [Hs' [-> ->]]. cbn [wp]. by split. }
  cbn [bind].
  assert (∀ frame, (result v = 0 → frame = held a i (length_ v)) → wp (store_metadata i (with_state STORAGE_SLOT_DELIVERING v);;; Ret (result v, frame)) a
    (ends (Invoke c) ts a (on_success (λ x, reply_ok c a (inr (RResult x.1 x.2 (Z.of_nat (length x.2)))))))) as Hstore.
  { intros frame Hframe. cbn [bind store_metadata]. apply (wp_put_slot _ _ _ i v); [done| |done|].
    - apply (A_edge _ i v); [done|]. by apply (E_deliver _ _ _ _ p g now true).
    - intros _. apply ends_now. split; [by apply (named_serves (h := handle_of i v) (i := i) (v := v))|]. exists i, v. by split_and!. }
  destruct (Z.eqb_spec (result v) 0) as [E0|E0]; [|by apply Hstore].
  apply pool_wp_bind, pool_wp_bind, wp_attempt. eapply pool_wp_mono; [|apply (wp_load_data a ts i v); [done|done|done|]].
  - intros r a' [-> ->]. wp_ret. by apply Hstore.
  - symmetry. apply stored_output; [done|]. rewrite E0. unfold is_mutation in Hm. apply Z.eqb_eq in Hm. by rewrite Hm.
Qed.

Lemma reply_end_ends p g h copied now ts a :
  inv a ts → call_ok (CReplyEnd p g h copied now) → wp (call_prog (CReplyEnd p g h copied now)) a (call_ends (CReplyEnd p g h copied now) ts a).
Proof.
  intros Hi (Hpg & Hh). apply wp_call; [done|]. unfold storage_request_mutation_reply_end.
  apply wp_client; [apply (inv_base _ _ Hi)|done|intros; apply ends_fail|]. intros i v Hv Ha Hm. pose proof Hv as (Hi0 & Hl & ->).
  set (c := CReplyEnd p g (handle_of i v) copied now). apply wp_guard; [intros _; apply ends_fail|]. intros Hs. cbv zeta.
  assert (∀ a', reply_ok c a (inr RNone) a') as Hr by (split; [by apply (named_serves (h := handle_of i v) (i := i) (v := v))|done]).
  destruct (negb copied || (state v =? STORAGE_SLOT_DELIVERY_CANCELLED) || (deadline_ms v <=? now)) eqn:E.
  - apply pool_wp_bind. eapply pool_wp_mono; [|apply (pool_wp_release (Invoke c) ts a i v); [done|done|done|]].
    + intros r a' [Hs' [-> ->]]. destruct (state v =? STORAGE_SLOT_DELIVERY_CANCELLED); [by split|].
      destruct (deadline_ms v <=? now); [by split|]. split; [done|apply Hr].
    + eapply (R_undelivered _ _ _ p g copied now); [done|done|]. clear - Hs. lia.
  - apply (wp_put_slot _ _ _ i v); [done| |done|intros _; apply ends_now, Hr]. apply (A_edge _ i v); [done|].
    destruct copied; [|done]. apply (E_delivered _ _ _ _ p g now); [done|done|done|clear - Hs E; lia|clear - E; lia].
Qed.

Lemma reply_ack_ends p g h now ts a :
  inv a ts → call_ok (CReplyAck p g h now) → wp (call_prog (CReplyAck p g h now)) a (call_ends (CReplyAck p g h now) ts a).
Proof.
  intros Hi (Hpg & Hh). apply wp_call; [done|]. unfold storage_request_mutation_reply_ack. pose proof (inv_base _ _ Hi) as Hb.
  apply wp_client; [done|done|intros; apply ends_fail|]. intros i v Hv Ha Hm. pose proof Hv as (Hi0 & Hl & ->).
  set (c := CReplyAck p g (handle_of i v) now). apply wp_guard; [intros _; apply ends_fail|]. intros Hs. apply negb_false_iff, Z.eqb_eq in Hs. cbv zeta.
  destruct (Z.leb_spec (deadline_ms v) now) as [Hd|Hd]; cbn [negb].
  - apply pool_wp_bind. eapply pool_wp_mono; [|apply (pool_wp_release (Invoke c) ts a i v); [done|done|done|by eapply (R_late _ _ _ p g now)]].
    intros r a' [Hs' [-> ->]]. by split.
  - destruct (base_lookup _ Hb _ _ Hi0) as [Hi8 _]. apply pool_wp_bind.
    eapply pool_wp_mono; [|apply (wp_release_slot a i (with_mutation 0 MUTATION_UNBOUND v)); [done|by intros [=]|done|by apply (base_generation _ Hb _ _ Hi0)]].
    intros r a' [-> ->]. wp_ret.
    change (release_state (fence a (with_mutation 0 MUTATION_UNBOUND v)) i (with_mutation 0 MUTATION_UNBOUND v)) with (release_state a i v).
    split; [apply rtc_once; by apply (A_ack _ p g now)|]. split; [by apply (named_serves (h := handle_of i v) (i := i) (v := v))|].
    exists i, v. split; [done|]. split; [done|]. split; [done|]. pose proof (spent_released a i v Hb Hi0 Hl) as (j & w & n & Hw & Hrest).
    exists j, w, n. split; [|done]. cbn in *. destruct (fence_fields a v) as (<- & _ & _). exact Hw.
Qed.

(** ** Transfers *)
Lemma call_fails {X} c ts a (k : X → reply) err : call_ends c ts a (inl err) a.
Proof. split; [rewrite app_nil_r; apply rtc_refl|done]. Qed.

Lemma bulk_in_state_found m s h :
  length (bulk_slots m) = 2%nat → bulk_in_state m (bulk_find h m) s = true →
  ∃ j b, bulk_find h m = Some j ∧ bulk_slots m !! j = Some b ∧ bulk_at m j = b ∧ request_handle b = h ∧ b_state b = s.
Proof.
  intros Hl Hs. destruct (bulk_find h m) as [j|] eqn:Ef; [|done]. apply bulk_find_some in Ef as (b & Hb & Eb & _ & Hh); [|done].
  exists j, b. cbn in Hs. rewrite Eb in Hs. apply Z.eqb_eq in Hs. by split_and!.
Qed.

(** The regions of a call that may leave a ticket. *)
Lemma wp_call_ticket {X} c ts a (p : prog X) (k : X → reply) :
  wp p a (λ r a', match r with inl _ => acts (Invoke c) (a, ts) (a', ts) | inr x => call_ends c ts a (inr (k x)) a' end) →
  wp (bind p (λ x, Ret (k x))) a (call_ends c ts a).
Proof.
  intros Hp. apply pool_wp_bind. eapply pool_wp_mono; [|exact Hp]. intros [err|x] a' H; [|exact H]. split; [by rewrite app_nil_r|done].
Qed.

Lemma input_publish_begin_ends p g h d l now ts a :
  inv a ts → call_ok (CInputPublish p g h d l now) →
  wp (call_prog (CInputPublish p g h d l now)) a (call_ends (CInputPublish p g h d l now) ts a).
Proof.
  intros Hi (Hpg & Hh & Hl0 & Hlen). apply wp_call_ticket. unfold input_publish_begin. destruct (_ || _) eqn:Eg; [apply rtc_refl|].
  destruct d as [data|]; [|by rewrite !orb_true_r in Eg || (cbn in Eg; rewrite ?orb_true_r in Eg)].
  apply wp_resolve; [apply (inv_base _ _ Hi)|done|apply rtc_refl|]. intros i v Hv Hl ->. cbn [bind get wp snd].
  apply wp_guard; [intros; apply rtc_refl|]. intros Ha. apply orb_false_iff in Ha as [Ha Hm]. apply negb_false_iff in Ha.
  apply wp_guard; [intros; apply rtc_refl|]. intros Hoff. apply negb_false_iff, Z.eqb_eq in Hoff. apply wp_guard; [intros; apply rtc_refl|]. intros Hd.
  apply wp_guard; [intros; apply rtc_refl|]. intros Hb. apply orb_false_iff in Hb as [Hs Hb]. apply negb_false_iff, Z.eqb_eq in Hs.
  apply negb_false_iff in Hb. apply bulk_in_state_found in Hb as (j & b & Ej & Hj & _ & Hh' & Hbs); [|apply (bulk_length _ _ _ (inv_bulk _ _ Hi))].
  rewrite Ej. cbn. subst l. split; [|split; [by apply (named_serves (h := handle_of i v) (i := i) (v := v))|done]].
  apply rtc_once. apply (A_write_begin _ (Ticket (InputPublish p g) (handle_of i v) j (offset v) 0 data false) b i v); try done.
  apply W_input with now; try done; [clear - Hd; lia| |by apply Hlen]. destruct Hl0. clear - Eg H. lia.
Qed.

Lemma bulk_publish_begin_ends p g h d l ts a :
  inv a ts → call_ok (CBulkPublish p g h d l) →
  wp (call_prog (CBulkPublish p g h d l)) a (call_ends (CBulkPublish p g h d l) ts a).
Proof.
  intros Hi (Hpg & Hh & Hl0 & Hlen). apply wp_call_ticket. unfold bulk_publish_begin. destruct (_ || _) eqn:Eg; [apply rtc_refl|].
  apply wp_resolve; [apply (inv_base _ _ Hi)|done|apply rtc_refl|]. intros i v Hv Hl ->. cbn [bind get wp snd].
  apply wp_guard; [intros; apply rtc_refl|]. intros Hc. apply wp_guard; [intros; apply rtc_refl|]. intros Hb.
  apply negb_false_iff in Hb. apply bulk_in_state_found in Hb as (j & b & Ej & Hj & _ & Hh' & Hbs); [|apply (bulk_length _ _ _ (inv_bulk _ _ Hi))].
  rewrite Ej. cbn. split; [|split; [by apply (named_serves (h := handle_of i v) (i := i) (v := v))|done]].
  apply rtc_once. apply (A_write_begin _ (Ticket BulkPublish (handle_of i v) j l 0 (default [] d) false) b i v); try done.
  apply orb_false_iff in Hc as [Hc Hsv]. apply negb_false_iff in Hsv. apply orb_false_iff in Hc as [Hop Hs].
  apply negb_false_iff, Z.eqb_eq in Hop, Hs. apply orb_false_iff in Eg as [Eg Ed]. destruct Hl0 as [Hl1 _].
  apply W_bulk with p g; try done; [clear - Eg Hl1; lia|]. destruct d as [x|]; [by apply Hlen|].
  cbn. unfold set_ in Ed. cbn in Ed. rewrite andb_true_r in Ed. apply negb_false_iff, Z.eqb_eq in Ed. by subst l.
Qed.

Lemma input_take_begin_ends p g h cap now out data_out ts a :
  inv a ts → call_ok (CInputTake p g h cap now out data_out) →
  wp (call_prog (CInputTake p g h cap now out data_out)) a (call_ends (CInputTake p g h cap now out data_out) ts a).
Proof.
  intros Hi (Hpg & Hh). apply wp_call_ticket. unfold input_take_begin. destruct (_ || _) eqn:Eg; [apply rtc_refl|].
  apply (wp_claimed a ts); [done|done|intros; apply rtc_refl|]. intros i v Hv Hen. pose proof Hv as (Hi0 & Hl & ->). cbn [bind get wp snd].
  apply wp_guard; [intros; apply rtc_refl|]. intros Hb. apply negb_false_iff in Hb.
  apply bulk_in_state_found in Hb as (j & b & Ej & Hj & Eb & Hh' & Hbs); [|apply (bulk_length _ _ _ (inv_bulk _ _ Hi))].
  rewrite Ej. cbn [default from_option id]. rewrite Eb. apply wp_guard; [intros; apply rtc_refl|]. intros _. apply wp_guard; [intros; apply rtc_refl|]. intros _.
  cbn. split; [|split; [by apply (named_serves (h := handle_of i v) (i := i) (v := v))|done]].
  apply rtc_once. apply (A_read_begin _ (Ticket (InputTake p g now) (handle_of i v) j (b_length b) (b_crc32 b) [] false) b i v); try done.
  destruct Hen as (_ & _ & _ & Hm & Hsv & Hs & _). by apply W_take with cap out data_out.
Qed.

Lemma bulk_collect_begin_ends p g h cap out data_out ts a :
  inv a ts → call_ok (CBulkCollect p g h cap out data_out) →
  wp (call_prog (CBulkCollect p g h cap out data_out)) a (call_ends (CBulkCollect p g h cap out data_out) ts a).
Proof.
  intros Hi (Hpg & Hh). apply (wp_call_ticket _ _ _ _ (λ x, match x with inl x => RBulk x.1 x.2 [] | inr t => RTicket t end)).
  unfold bulk_collect_begin. destruct (_ || _) eqn:Eg; [apply rtc_refl|]. pose proof (inv_base _ _ Hi) as Hb0.
  apply wp_resolve; [done|done|apply rtc_refl|]. intros i v Hv Hl ->. assert (serves a (handle_of i v) i v) as Hserves by done.
  set (c := CBulkCollect p g (handle_of i v) cap out data_out).
  apply wp_guard; [intros; apply rtc_refl|]. intros Ha. apply negb_false_iff in Ha. apply wp_guard; [intros; apply rtc_refl|]. intros Hs.
  apply negb_false_iff, Z.eqb_eq in Hs. apply wp_guard; [intros; apply rtc_refl|]. intros Hop. apply negb_false_iff, Z.eqb_eq in Hop. cbn [bind get wp].
  assert (STORAGE_REQUEST_BLOCK_SIZE = stored_length v) as Elen.
  { unfold stored_length. rewrite Hop. change (operation_has_input STORAGE_REQUEST_VFS_BULK_READ) with true. cbn [orb].
    symmetry. by apply (base_frame a i v). }
  assert (∀ x, named c = Some x → ∃ j w, serves a x j w) as Hn by (by apply (named_serves (h := handle_of i v) (i := i) (v := v))).
  destruct (Z.eqb_spec (result v) 0) as [E0|E0].
  - apply pool_wp_bind. apply wp_guard; [intros; apply rtc_refl|]. intros Hb. apply negb_false_iff in Hb.
    apply bulk_in_state_found in Hb as (j & b & Ej & Hj & Eb & Hh' & Hbs); [|apply (bulk_length _ _ _ (inv_bulk _ _ Hi))].
    rewrite Ej. cbn [default from_option id]. rewrite Eb. apply wp_guard; [intros; apply rtc_refl|]. intros _. cbn [modify wp].
    set (t := Ticket (BulkCollect i v (held a i STORAGE_REQUEST_BLOCK_SIZE)) (handle_of i v) j (b_length b) (b_crc32 b) [] false).
    assert (act (Invoke c) (a, ts) (put_mem a (set_bulk_state j STORAGE_BULK_READING (a_mem a)), ts ++ [t])) as Hact.
    { apply (A_read_begin _ t b i v); try done. by apply (W_collect _ _ _ p g cap out data_out). }
    apply pool_wp_bind. eapply pool_wp_mono; [|apply (wp_load_data _ (ts ++ [t]) i v); [by eapply act_inv|done|done|done]].
    intros r a' [-> ->]. unfold set_. rewrite E0. cbn [Z.eqb negb wp]. split; [by apply rtc_once|]. by split.
  - cbn [bind]. apply pool_wp_bind. eapply pool_wp_mono; [|apply (wp_load_data a ts i v); done].
    intros r a' [-> ->]. unfold set_. rewrite (proj2 (Z.eqb_neq _ _) E0). cbn [negb]. apply pool_wp_bind.
    eapply pool_wp_mono; [|apply (pool_wp_release (Invoke c) ts a i v); [done|done|done|by eapply (R_bulk_failed _ _ _ p g cap out data_out)]].
    intros r a' [Hs' [-> ->]]. wp_ret. split; [by rewrite app_nil_r|]. split; [done|]. by apply spent_released.
Qed.

Lemma stats_ends out ts a : inv a ts → wp (call_prog (CStats out)) a (call_ends (CStats out) ts a).
Proof.
  intros Hi. apply wp_call; [done|]. unfold storage_request_stats. destruct out; [|apply ends_fail]. apply ends_now. by split; [intros h [=]|].
Qed.

(** Every call consists of moves, and its answer says what it should. *)
Lemma call_refines c ts a : inv a ts → call_ok c → wp (call_prog c) a (call_ends c ts a).
Proof.
  assert (∀ X (p : prog X) (k : X → reply), (∀ x, new_tickets (inr (k x)) = []) → (∀ x a', reply_ok c a (inr (k x)) a') →
    wp p a (ends (Invoke c) ts a any) → wp (bind p (λ x, Ret (k x))) a (call_ends c ts a)) as Hplain.
  { intros X p k Hk Hr Hp. apply wp_call; [done|]. eapply pool_wp_mono; [|exact Hp]. intros [err|x] a' [Hs _]; split; [done|done|done|apply Hr]. }
  intros Hi Hok. destruct c.
  - apply Hplain; [done|by split|by apply wp_bind_service].
  - apply Hplain; [done|by split|by apply wp_unbind_service].
  - by apply submit_ends.
  - by apply claim_ends.
  - by apply claim_ends.
  - by apply claim_ends.
  - by apply complete_ends.
  - by apply context_ends.
  - by apply collect_ends.
  - by apply cancel_ends.
  - apply Hplain; [done|by split|]. apply wp_cancel_process; [done|by left].
  - by apply mutation_context_ends.
  - by apply mutation_bind_ends.
  - apply wp_call; [done|]. by apply (mutation_io_ends true).
  - apply wp_call; [done|]. by apply (mutation_io_ends false).
  - by apply mutation_finish_ends.
  - by apply mutation_fences_ends.
  - apply wp_call; [done|]. apply (recovery_ends false); [done|apply Hok|done].
  - apply wp_call; [done|]. apply (recovery_ends true); [done|apply Hok|done].
  - by apply refence_ends.
  - by apply reply_begin_ends.
  - by apply reply_end_ends.
  - by apply reply_ack_ends.
  - by apply input_publish_begin_ends.
  - by apply input_take_begin_ends.
  - by apply bulk_publish_begin_ends.
  - by apply bulk_collect_begin_ends.
  - by apply stats_ends.
Qed.

(** ** The ends of transfers *)
(** What the end of a transfer delivers: the bytes copied, which are those of
    the bulk slot. *)
Definition finish_says (t : ticket) (a : astate) (r : reply) (a' : astate) : Prop :=
  match t_call t, r with
  | InputTake _ _ _, RResult _ data _ =>
    ∃ b, bulk_slots (a_mem a) !! t_index t = Some b ∧ b_state b = STORAGE_BULK_READING ∧ request_handle b = t_handle t ∧
      data = take (Z.to_nat (b_length b)) (b_bytes b)
  | BulkCollect i v frame, RBulk result_ frame' data =>
    ∃ b, bulk_slots (a_mem a) !! t_index t = Some b ∧ b_state b = STORAGE_BULK_READING ∧ request_handle b = t_handle t ∧
      data = take (Z.to_nat (b_length b)) (b_bytes b) ∧ result_ = 0 ∧ frame' = frame ∧ serves a (t_handle t) i v ∧ spent (t_handle t) a'
  | InputPublish _ _, RNone | BulkPublish, RNone =>
    ∃ b, bulk_slots (a_mem a') !! t_index t = Some b ∧ b_state b = STORAGE_BULK_PUBLISHED ∧ request_handle b = t_handle t ∧
      b_length b = t_length t ∧ take (Z.to_nat (t_length t)) (b_bytes b) = take (Z.to_nat (t_length t)) (t_data t)
  | _, _ => False
  end.
Definition finish_ends (n : nat) (t : ticket) (ts : list ticket) (a : astate) (r : Z + reply) (a' : astate) : Prop :=
  acts (Finish n) (a, ts) (a', delete n ts) ∧ match r with inl _ => True | inr r => finish_says t a r a' end.

Lemma wp_unbind_ret {X} (p : prog X) a Q : wp (bind p Ret) a Q → wp p a Q.
Proof. intros H. apply wp_bind_inv in H. eapply pool_wp_mono; [|exact H]. by intros [err|x] a'. Qed.

Section finish.
Context (a : astate) (ts : list ticket) (Hinv : inv a ts) (n : nat) (t : ticket).
Context (Hn : ts !! n = Some t) (Hcopied : t_copied t = true) (Hhandle : is_u32 (t_handle t)).

(** The bulk slot of the transfer, as the code reads it. *)
Lemma finish_bulk :
  ∃ b, bulk_slots (a_mem a) !! t_index t = Some b ∧ bulk_at (a_mem a) (t_index t) = b ∧ request_handle b = t_handle t ∧
    (b_state b = STORAGE_BULK_REVOKED ∨ b_state b = transfer_state t) ∧ (b_state b ≠ STORAGE_BULK_REVOKED → transfer_ok (a_slots a) t b) ∧
    copied_ok t b ∧ bulk_ok (a_slots a) b ∧ b_state b ≠ STORAGE_BULK_FREE.
Proof using Hinv Hn.
  destruct (transfer_facts a ts Hinv n t Hn) as (b & H1 & H2 & _ & H3 & H4 & H5 & H6 & _ & _ & H7 & H8). exists b. by split_and!.
Qed.

Lemma dropped_acts : acts (Finish n) (a, ts) (put_mem a (bulk_clear (t_index t) (a_mem a)), delete n ts).
Proof using Hn Hcopied. apply rtc_once. by apply (A_dropped _ n t). Qed.

(** A reader that was not revoked has copied what was published. *)
Lemma reader_valid b :
  bulk_slots (a_mem a) !! t_index t = Some b → is_publisher (t_call t) = false → b_state b = STORAGE_BULK_READING → bulk_ok (a_slots a) b →
  t_length t = b_length b → t_crc t = b_crc32 b → copied_ok t b →
  payload_valid t = true ∧ t_data t = take (Z.to_nat (b_length b)) (b_bytes b).
Proof using Hcopied.
  intros Hb Hp Hs (_ & _ & Hpay) El Ec Hc. destruct Hpay as [_ Hcrc]; [right; by left|]. specialize (Hc Hcopied). rewrite Hp in Hc.
  specialize (Hc Hs). split; [|by rewrite <- El]. unfold payload_valid. rewrite Hc, Ec, El, Hcrc. apply Z.eqb_refl.
Qed.

Lemma bulk_publish_ends : t_call t = BulkPublish → wp (ticket_end t) a (finish_ends n t ts a).
Proof using All.
  intros Et. unfold ticket_end. rewrite Et. destruct finish_bulk as (b & Hb & Eb & Hh & Hs & Htr & Hc & Hok & Hf).
  unfold bulk_publish_end. cbn [bind get wp]. rewrite Eb, Hh, Z.eqb_refl. cbn [negb orb].
  destruct (Z.eqb_spec (b_state b) STORAGE_BULK_REVOKED) as [Er|Er]; [by cbn; split; [apply dropped_acts|]|].
  destruct Hs as [Hs|Hs]; [done|]. unfold transfer_state in Hs. rewrite Et in Hs. cbn [is_publisher] in Hs. rewrite Hs, Z.eqb_refl. cbn.
  split; [apply rtc_once; by eapply A_published|]. unfold finish_says. rewrite Et. unfold bulk_published. rewrite Eb. cbn.
  eexists. rewrite list_lookup_insert_eq by (by eapply lookup_lt_Some). split; [done|]. cbn. specialize (Hc Hcopied). rewrite Et in Hc. cbn in Hc.
  by destruct Hc.
Qed.

Lemma input_publish_ends p g : t_call t = InputPublish p g → wp (ticket_end t) a (finish_ends n t ts a).
Proof using All.
  intros Et. unfold ticket_end. rewrite Et. destruct finish_bulk as (b & Hb & Eb & Hh & Hs & Htr & Hc & Hok & Hf). pose proof (inv_base _ _ Hinv) as Hb0.
  unfold input_publish_end. apply pool_wp_bind, pool_wp_bind, wp_attempt, wp_unbind_ret.
  apply wp_resolve; [done|done| |].
  { cbn. rewrite Eb, Hh, Z.eqb_refl. by cbn; split; [apply dropped_acts|]. }
  intros i v Hv Hl Hhv. wp_ret. cbn [bind get wp].
  rewrite Eb, Hh, Z.eqb_refl. cbn [negb].
  destruct (Z.eqb_spec (b_state b) STORAGE_BULK_REVOKED) as [Er|Er].
  { by cbn; split; [apply dropped_acts|]. }
  destruct Hs as [Hs|Hs]; [done|]. unfold transfer_state in Hs. rewrite Et in Hs. cbn [is_publisher] in Hs. rewrite Hs, Z.eqb_refl. cbn [negb orb].
  destruct (_ || _) eqn:Eg. { by cbn; split; [apply dropped_acts|]. }
  apply orb_false_iff in Eg as [Eg Ea]. apply negb_false_iff, Z.eqb_eq in Eg. apply negb_false_iff in Ea.
  set (final := put_slot (put_mem a (bulk_published (t_index t) (t_length t) (t_crc t) (a_mem a))) i (with_state STORAGE_SLOT_QUEUED v)).
  assert (act (Finish n) (a, ts) (final, delete n ts)) as Hact by by apply (A_input_published _ n t b p g i v).
  pose proof (act_inv _ _ _ _ _ Hinv Hact) as Hi'. cbn [bind modify attempt store_metadata wp]. split; [|split].
  - eapply (Forall_lookup_1 (fine metadata_ok)); [apply (base_fine _ (inv_base _ _ Hi'))|]. cbn. apply list_lookup_insert_eq. by eapply lookup_lt_Some.
  - cbn. by eapply lookup_lt_Some.
  - cbn. split; [by apply rtc_once|]. unfold finish_says. rewrite Et. unfold bulk_published. rewrite Eb. cbn.
    eexists. rewrite list_lookup_insert_eq by (by eapply lookup_lt_Some). split; [done|]. cbn. specialize (Hc Hcopied). rewrite Et in Hc. cbn in Hc.
    by destruct Hc.
Qed.

Lemma input_take_ends p g now : t_call t = InputTake p g now → wp (ticket_end t) a (finish_ends n t ts a).
Proof using All.
  intros Et. unfold ticket_end. rewrite Et. destruct finish_bulk as (b & Hb & Eb & Hh & Hs & Htr & Hc & Hok & Hf).
  unfold input_take_end. apply pool_wp_bind, pool_wp_bind, wp_attempt, wp_unbind_ret.
  apply (wp_claimed a ts); [done|done| |].
  { intros err. cbn. rewrite Eb, Hh, Z.eqb_refl. by cbn; split; [apply dropped_acts|]. }
  intros i v (Hi0 & Hl & Hhv) Hen. wp_ret. cbn [bind get wp]. rewrite Eb, Hh, Z.eqb_refl. cbn [negb].
  destruct (Z.eqb_spec (b_state b) STORAGE_BULK_REVOKED) as [Er|Er]; [by cbn; split; [apply dropped_acts|]|].
  destruct Hs as [Hs|Hs]; [done|]. unfold transfer_state in Hs. rewrite Et in Hs. cbn [is_publisher] in Hs.
  specialize (Htr Er). unfold transfer_ok in Htr. rewrite Et in Htr. destruct Htr as [El Ec].
  destruct (reader_valid b) as [Hvalid Hdata]; try done; [by rewrite Et|]. rewrite Hs, Z.eqb_refl, Hvalid. cbn.
  split; [apply rtc_once; by apply (A_consumed _ n t b p g now i v)|]. unfold finish_says. rewrite Et. by exists b.
Qed.

Lemma bulk_collect_ends i v frame : t_call t = BulkCollect i v frame → wp (ticket_end t) a (finish_ends n t ts a).
Proof using All.
  intros Et. unfold ticket_end. rewrite Et. destruct finish_bulk as (b & Hb & Eb & Hh & Hs & Htr & Hc & Hok & Hf). pose proof (inv_base _ _ Hinv) as Hb0.
  unfold bulk_collect_end. cbn [bind get wp]. rewrite Eb, Hh, Z.eqb_refl. cbn [negb orb].
  destruct (Z.eqb_spec (b_state b) STORAGE_BULK_REVOKED) as [Er|Er]; [by cbn; split; [apply dropped_acts|]|].
  destruct Hs as [Hs|Hs]; [done|]. unfold transfer_state in Hs. rewrite Et in Hs. cbn [is_publisher] in Hs.
  specialize (Htr Er). unfold transfer_ok in Htr. rewrite Et in Htr. destruct Htr as (El & Ec & Hv & Hsv & Hop & Hres & Hhv).
  destruct (reader_valid b) as [Hvalid Hdata]; try done; [by rewrite Et|]. rewrite Hs, Z.eqb_refl, Hvalid. cbn [negb orb].
  assert (live v = true) as Hl by (unfold live, is_free; by rewrite Hsv).
  set (a1 := put_mem a (bulk_clear (t_index t) (a_mem a))). pose proof (inv_dropped a ts Hinv n t Hn) as Hi1. fold a1 in Hi1.
  pose proof (effect_ok_live _ _ _ Hb0 Hv Hl) as He.
  assert (may_have_effect v = false) as Hne.
  { destruct (may_have_effect v) eqn:Em; [|done]. exfalso. destruct (base_live _ Hb0 _ _ Hv Hl) as [_ Hp].
    destruct (pg_bound _ Hp) as [Hm _]; [unfold may_have_effect in Em; clear - Em; unfold_states; lia|].
    unfold is_mutation in Hm. rewrite Hop in Hm. done. }
  assert (fence a1 v = a1) as Efence by (unfold fence; by rewrite Hne).
  cbn [bind modify wp]. apply pool_wp_bind, pool_wp_bind.
  eapply pool_wp_mono; [|apply (wp_release_slot a1 i v); [apply (inv_base _ _ Hi1)|done|by destruct (base_lookup _ Hb0 _ _ Hv)|by eapply base_generation]].
  intros r a' [-> ->]. rewrite Efence. cbn [wp]. split; [apply rtc_once; by apply (A_collected _ n t b i v frame)|].
  unfold finish_says. rewrite Et. exists b. do 5 (split; [done|]). split; [done|]. split; [done|].
  rewrite Hhv, <- Efence. apply spent_released; [apply (inv_base _ _ Hi1)|done|done].
Qed.

Lemma finish_refines : wp (ticket_end t) a (finish_ends n t ts a).
Proof using All.
  destruct (t_call t) eqn:Et; [by eapply input_publish_ends|by eapply input_take_ends|by apply bulk_publish_ends|by eapply bulk_collect_ends].
Qed.
End finish.
