(* ===== verification/StorageRequestPoolRuns.v ===== *)
(** Runs of the request pool.

    [system_holds] ties the stores and the transfers under way to an abstract
    state; [step_refines] and [steps_refines] turn the triples of the regions
    into statements on every sequence of events: the pool is poisoned for
    good, or each event made moves of the protocol and its answer says what
    happened. *)
From S2P Require Import Prelude ProtectedStore.
From S2P Require Import Crc32 Layout ProtectedRecord CriticalObject OwnedStore StorageRequestPool StorageRequestPoolSpec StorageRequestPoolLife.
From S2P Require Import StorageRequestPoolInv StorageRequestPoolBodies.
From stdpp Require Import relations.
Import StorageRequestPool.
Local Open Scope Z_scope.

Definition event_ok (e : event) : Prop := match e with Invoke c => call_ok c | _ => True end.

(** What the answer of an event says. *)
Definition answer_ok (e : event) (a : astate) (ts : list ticket) (r : option (Z + reply)) (a' : astate) : Prop :=
  match e, r with
  | Invoke c, Some r => reply_ok c a r a'
  | Finish n, Some (inr r) => ∃ t, ts !! n = Some t ∧ finish_says t a r a'
  | _, _ => True
  end.

(** A run of the protocol, with its answers. *)
Fixpoint runs (es : list event) (rs : list (option (Z + reply))) (s s' : astate * list ticket) : Prop :=
  match es, rs with
  | [], [] => s' = s
  | e :: es, r :: rs => ∃ s1, acts e s s1 ∧ answer_ok e s.1 s.2 r s1.1 ∧ runs es rs s1 s'
  | _, _ => False
  end.

Lemma runs_inv es : ∀ rs s s', runs es rs s s' → inv s.1 s.2 → inv s'.1 s'.2.
Proof.
  induction es as [|e es IH]; intros [|r rs] s s'; cbn [runs]; try done; [by intros ->|].
  intros (s1 & Ha & _ & Hr) Hi. by eapply IH, acts_inv.
Qed.

(** What every move keeps, every run keeps; [ok] limits the events. *)
Lemma runs_keep (P : astate → list ticket → Prop) (ok : event → Prop) es :
  (∀ e a ts a' ts', ok e → inv a ts → act e (a, ts) (a', ts') → P a ts → P a' ts') →
  ∀ rs s s', Forall ok es → runs es rs s s' → inv s.1 s.2 → P s.1 s.2 → P s'.1 s'.2.
Proof.
  intros HP. assert (∀ e s s', ok e → acts e s s' → inv s.1 s.2 → P s.1 s.2 → P s'.1 s'.2) as Hacts.
  { intros e s s' He Ha. induction Ha as [|[a ts] [a' ts'] s'' Hm _ IH]; [done|]. intros Hi Hs. apply IH.
    - by eapply act_inv.
    - by eapply HP. }
  induction es as [|e es IH]; intros [|r rs] s s' Hok; cbn [runs]; try done; [by intros ->|].
  apply list.Forall_cons in Hok as [He Hok]. intros (s1 & Ha & _ & Hr) Hi Hs. eapply IH; [done|done| |by eapply Hacts]. by eapply acts_inv.
Qed.

Lemma ticket_handle a ts n t : inv a ts → ts !! n = Some t → is_u32 (t_handle t).
Proof.
  intros Hi Hn. destruct (transfer_facts a ts Hi n t Hn) as (b & Hb & _ & _ & Hok & Hf & Hh & _).
  destruct Hok as (_ & Hof & _). destruct (Hof Hf) as (i & v & g & Hv & Hm & Hg & _).
  pose proof (base_generation _ (inv_base _ _ Hi) _ _ Hv). pose proof (base_lookup _ (inv_base _ _ Hi) _ _ Hv) as [Hi8 _].
  rewrite <- Hh, Hm, pool_handle_value by lia. unfold_states. unfold_words. lia.
Qed.

Section stores.
Context {O : Type} `{PL : ProtectedStoreLaws O} {OS : OwnedStore O}.

Record system_holds (s : system O) (a : astate) : Prop := {
sh_clean : mutation_poisoned (sys_pool s) = 0;
sh_pool : pool_holds (sys_pool s) a;
sh_inv : inv a (sys_tickets s)
}.

Lemma step_poisoned (s : system O) e : poisoned (sys_pool s) → poisoned (sys_pool (step s e).2).
Proof using.
intros Hp. destruct e as [c|n|n]; cbn [step].
- pose proof (run_poisoned (call_prog c) (sys_pool s) Hp) as H. by destruct (run _ _) as [r g].
- destruct (sys_tickets s !! n) as [t|]; [|done]. destruct (t_copied t); [done|]. by destruct (bulk_copy _ _).
- destruct (sys_tickets s !! n) as [t|]; [|done]. destruct (negb _); [done|].
  pose proof (run_poisoned (ticket_end t) (sys_pool s) Hp) as H. by destruct (run _ _) as [r g].
Qed.

Lemma steps_poisoned es : ∀ s : system O, poisoned (sys_pool s) → poisoned (sys_pool (steps s es).2).
Proof using.
induction es as [|e es IH]; intros s Hp; [done|]. cbn [steps]. pose proof (step_poisoned s e Hp) as H.
destruct (step s e) as [r s1]. specialize (IH s1 H). by destruct (steps s1 es).
Qed.

Lemma step_refines s a e :
system_holds s a → event_ok e →
poisoned (sys_pool (step s e).2) ∨
∃ a', system_holds (step s e).2 a' ∧ acts e (a, sys_tickets s) (a', sys_tickets (step s e).2) ∧
  answer_ok e a (sys_tickets s) (step s e).1 a'.
Proof using PL.
intros [Hz Hp Hi] He. destruct s as [g ts]. cbn [sys_pool sys_tickets] in *.
assert (∀ e a' ts', acts e (a, ts) (a', ts') → inv a' ts') as Hk by (intros e' a' ts' Ha; by apply (acts_inv _ _ _ Ha)).
destruct e as [c|n|n]; cbn [step sys_pool sys_tickets].
- pose proof (pool_run_wp (call_prog c) g a _ Hz Hp (call_refines c ts a Hi He)) as Hr. destruct (run _ _) as [r g'].
  destruct Hr as [Hr|(Hz' & a' & Hp' & Ha & Hq)]; [by left|]. right. exists a'. split; [split; [done|done|by eapply Hk]|]. by split.
- destruct (ts !! n) as [t|] eqn:En; [|right; exists a; split_and!; [by split|apply rtc_refl|done]].
  destruct (t_copied t) eqn:Ec; [right; exists a; split_and!; [by split|apply rtc_refl|done]|].
  pose proof (A_copy (Copy n) n t a ts eq_refl En Ec) as Ha. rewrite (holds_statics _ _ Hp).
  destruct (bulk_copy t (a_mem a)) as [t' m']. cbn [fst snd] in Ha. right. exists (put_mem a m').
  apply rtc_once in Ha. split_and!; [|done|done]. split; [done| |by eapply Hk]. by destruct Hp.
- destruct (ts !! n) as [t|] eqn:En; [|right; exists a; split_and!; [by split|apply rtc_refl|done]].
  destruct (t_copied t) eqn:Ec; cbn [negb]; [|right; exists a; split_and!; [by split|apply rtc_refl|done]].
  pose proof (pool_run_wp (ticket_end t) g a _ Hz Hp (finish_refines a ts Hi n t En Ec (ticket_handle _ _ _ _ Hi En))) as Hr.
  destruct (run _ _) as [r g']. destruct Hr as [Hr|(Hz' & a' & Hp' & Ha & Hq)]; [by left|]. right. exists a'.
  split; [split; [done|done|by eapply Hk]|]. split; [done|]. destruct r as [|r]; [done|]. by exists t.
Qed.

Lemma steps_refines es : ∀ s a,
system_holds s a → Forall event_ok es →
poisoned (sys_pool (steps s es).2) ∨
∃ a', system_holds (steps s es).2 a' ∧ runs es (steps s es).1 (a, sys_tickets s) (a', sys_tickets (steps s es).2).
Proof using PL.
induction es as [|e es IH]; intros s a Hs Hok; [right; by exists a|].
apply list.Forall_cons in Hok as [He Hok]. cbn [steps]. pose proof (step_refines s a e Hs He) as Hr.
pose proof (step_poisoned s e) as Hpp. destruct (step s e) as [r s1]. cbn [fst snd] in *. destruct Hr as [Hr|(a1 & Hs1 & Ha & Hq)].
- left. pose proof (steps_poisoned es s1 Hr) as H. by destruct (steps s1 es).
- destruct (IH s1 a1 Hs1 Hok) as [H|(a' & Hs' & Hr')]; destruct (steps s1 es) as [rs s']; [by left|]. right. exists a'.
  split; [done|]. exists (a1, sys_tickets s1). by split_and!.
Qed.

(** ** Start *)
Definition first_mem : mem :=
Mem (replicate 8 zero_data) (replicate 8 zero_data) (replicate 2 zero_bulk) true (Stats STORAGE_REQUEST_STATS_VERSION stats_size 0 0 0 0).
Definition first_state : astate := State (replicate 8 zero_metadata) (Identity 0 0) 0 first_mem.

(** Arrays of the lengths declared in C. *)
Record pool_shape (g : pool O) : Prop := {
shape_slots : length (slot_stores g) = 8%nat;
shape_primary : length (primary (statics g)) = 8%nat;
shape_shadow : length (shadow (statics g)) = 8%nat
}.

Lemma init_in_spec {A} `{LayoutLaws A} (ok : A → bool) store x :
(0 < sizeof A <= 64)%nat → fine ok x → ∃ store', init_in store x = (true, store') ∧ store_is ok store' x.
Proof using PL.
intros Hsize [Ht Hok]. unfold init_in. destruct version_ok.
destruct (init_record_spec STORAGE_POOL_METADATA_VERSION ok STORAGE_EINTEGRITY ltac:(done) ltac:(done) Hsize store x Ht Hok) as (store' & -> & Hh).
exists store'. split; [done|by exists 1].
Qed.

Definition init_done (k : nat) (g : pool O) : Prop :=
pool_shape g ∧ (∀ i store, (i < k)%nat → slot_stores g !! i = Some store → store_is metadata_ok store zero_metadata) ∧
(∀ i, (i < k)%nat → primary (statics g) !! i = Some zero_data ∧ shadow (statics g) !! i = Some zero_data).

Lemma init_loop_spec n : ∀ k g, (k + n = 8)%nat → init_done k g →
∃ g', init_loop (seq k n) g = (0, g') ∧ init_done 8 g' ∧ service_store g' = service_store g ∧ fences_store g' = fences_store g ∧
  mutation_poisoned g' = mutation_poisoned g ∧ mutation_fences_initialized (statics g') = mutation_fences_initialized (statics g).
Proof using PL.
destruct pool_record_sizes as (Sm & _ & _).
induction n as [|n IH]; intros k g Hk Hd; cbn [seq init_loop]; [exists g; by replace 8%nat with k by lia|].
destruct Hd as ([Hl Hp Hs] & Hst & Hda). destruct (lookup_lt_is_Some_2 (slot_stores g) k) as [store Ek]; [lia|]. rewrite Ek.
destruct (init_in_spec metadata_ok store zero_metadata Sm) as (store' & -> & Hh); [apply (blank_fine STORAGE_SLOT_FREE 0); [by left|unfold_states; lia]|].
cbn [negb]. destruct (IH (S k) (set_statics (set_slot g k store') (clear_data k (statics (set_slot g k store'))))) as (g' & -> & Hd' & ? & ? & ? & ?);
  [lia| |by exists g'; split_and!].
split; [split|split]; cbn; rewrite ?length_insert; [done..| |].
- intros i st Hi. destruct (decide (i = k)) as [->|Hne].
  + rewrite list_lookup_insert_eq by lia. by intros [= <-].
  + rewrite list_lookup_insert_ne by done. apply Hst. lia.
- intros i Hi. destruct (decide (i = k)) as [->|Hne].
  + by rewrite !list_lookup_insert_eq by lia.
  + rewrite !list_lookup_insert_ne by done. apply Hda. lia.
Qed.

Lemma first_inv : inv first_state [].
Proof using.
assert (∀ i v, replicate 8 zero_metadata !! i = Some v → v = zero_metadata) as Hv by (intros i v [? _]%lookup_replicate; done).
assert (∀ f, f zero_metadata = false → count f (replicate 8 zero_metadata) = 0) as Hc.
{ intros f Hf. unfold count. cbn [replicate List.filter]. rewrite Hf. done. }
split.
- split; cbn [a_slots a_service a_mask a_mem first_state].
  + apply length_replicate.
  + apply Forall_replicate. apply (blank_fine STORAGE_SLOT_FREE 0); [by left|unfold_states; lia].
  + split; [apply identity_typed; cbn; unfold_words; lia|done].
  + unfold_words. lia.
  + done.
  + apply Forall_replicate. done.
- split; cbn [a_slots a_mem first_state first_mem primary shadow]; [apply length_replicate|done|].
  intros i v Hi. rewrite (Hv _ _ Hi). apply lookup_replicate in Hi as [_ Hi]. unfold data_at.
  rewrite nth_lookup, lookup_replicate_2 by done. apply zero_data_ok.
- assert (∀ j b, replicate 2 zero_bulk !! j = Some b → b = zero_bulk) as Hb by (intros j b [? _]%lookup_replicate; done).
  split; cbn [a_slots a_mem first_state first_mem bulk_slots].
  + apply length_replicate.
  + intros j b ->%Hb. split_and!; [apply length_replicate|done|]. by intros [?|[?|?]].
  + intros j k b c ->%Hb. done.
  + apply list.Forall_nil_2.
  + apply NoDup_nil_2.
  + intros j b ->%Hb. by intros [?|[?|?]].
- split; cbn [a_slots a_mem first_state first_mem request_stats active_requests request_high_water].
  + by rewrite Hc.
  + lia.
  + intros p q. rewrite Hc; [|done]. by cbv.
Qed.

Lemma pool_init_holds (g : pool O) :
pool_shape g →
(storage_request_pool_init g).1 = 0 ∧ system_holds (System (storage_request_pool_init g).2 []) first_state.
Proof using PL.
intros Hg. destruct pool_record_sizes as (Sm & Si & Sf). unfold storage_request_pool_init. cbv zeta.
destruct (init_in_spec fences_ok (fences_store g) (Fences 0) Sf) as (fstore & Ef & Hf);
  [split; [apply fences_typed; cbn; unfold_words; lia|done]|].
cbn [fences_store]. rewrite Ef. cbn [negb]. cbn [service_store set_fences set_statics].
destruct (init_in_spec identity_ok (service_store g) (Identity 0 0) Si) as (istore & Ei & Hs);
  [split; [apply identity_typed; cbn; unfold_words; lia|done]|].
rewrite Ei. cbn [negb]. change pool_slots with (seq 0 8).
match goal with |- context [init_loop (seq 0 8) ?g0] =>
  destruct (init_loop_spec 8 0 g0) as (g' & -> & ([Hl Hp Hq] & Hst & Hda) & E1 & E2 & E3 & E4) end; [done| |].
{ split; [by destruct Hg|]. split; intros; lia. }
cbn [set_ Z.eqb negb fst snd]. split; [done|]. split; cbn [sys_pool sys_tickets mutation_poisoned set_statics]; [by rewrite E3| |apply first_inv].
assert (∀ l, length l = 8%nat → (∀ i, (i < 8)%nat → l !! i = Some zero_data) → l = replicate 8 zero_data) as Hrep.
{ intros l Hlen Hall. apply list_eq_same_length with 8%nat; [by rewrite length_replicate|done|].
  intros i x y Hi Hx Hy. rewrite Hall in Hx by done. apply lookup_replicate in Hy as [-> _]. congruence. }
split; cbn [slot_stores service_store fences_store statics set_statics a_slots a_service a_mask a_mem first_state].
- apply Forall2_same_length_lookup. split; [by rewrite length_replicate|]. intros i st v Hi [-> Hlt]%lookup_replicate. by eapply Hst.
- by rewrite E1.
- by rewrite E2.
- unfold first_mem. rewrite E4. cbn [mutation_fences_initialized]. f_equal; apply Hrep; try done; intros i Hi; by apply Hda.
Qed.

(** ** Refinement *)

(** C6: After initialisation, whatever calls and copies the processes make in
    whatever order, either the pool is poisoned, or its stores hold a state
    that satisfies the invariant of the protocol (valid slots, intact data,
    bulk slots owned by a live request or a transfer, exact counts), reached
    by moves that each party was entitled to, and every answer says what
    happened. *)
Theorem storage_pool_refines_protocol (g : pool O) es :
pool_shape g → Forall event_ok es →
(storage_request_pool_init g).1 = 0 ∧
let '(answers, s) := steps (System (storage_request_pool_init g).2 []) es in
poisoned (sys_pool s) ∨
∃ a, pool_holds (sys_pool s) a ∧ inv a (sys_tickets s) ∧ runs es answers (first_state, []) (a, sys_tickets s).
Proof using PL.
intros Hg Hok. destruct (pool_init_holds g Hg) as [E Hs]. split; [done|].
destruct (steps_refines es _ _ Hs Hok) as [H|(a & [_ H1 H2] & H)]; destruct (steps _ _) as [rs s]; [by left|right; by exists a].
Qed.
End stores.
