(* ===== verification/StorageRequestPoolTrace.v ===== *)
(** What the moves of the request pool do to one request.

    [slot_step] sums up the moves of the protocol as seen by one slot and its
    data block; the facts that every run keeps (a handle that is spent, a
    possible effect on record, the content of a request, a published payload)
    follow by cases on it. *)
From S2P Require Import Prelude ProtectedStore.
From S2P Require Import Crc32 Layout ProtectedRecord CriticalObject OwnedStore StorageRequestPool StorageRequestPoolSpec StorageRequestPoolLife.
From S2P Require Import StorageRequestPoolInv StorageRequestPoolBodies StorageRequestPoolRuns.
From stdpp Require Import relations.
Import StorageRequestPool.
Local Open Scope Z_scope.

Definition block (a : astate) (i : nat) : storage_data_copy_t := data_at (primary (a_mem a)) i.

(** One slot and its data block under a move. *)
Inductive slot_step (e : event) (a : astate) (i : nat) (v : storage_slot_metadata_t) (d : storage_data_copy_t) :
  storage_slot_metadata_t → storage_data_copy_t → Prop :=
| S_same : slot_step e a i v d v d
| S_edge v' : edge e a i v v' → slot_step e a i v d v' d
| S_input : state v = STORAGE_SLOT_INPUT_PENDING → slot_step e a i v d (with_state STORAGE_SLOT_QUEUED v) d
| S_complete pid generation_ result_ data :
    e = Invoke (CComplete pid generation_ (handle_of i v) result_ data) → state v = STORAGE_SLOT_CLAIMED →
    slot_step e a i v d (completion result_ v)
      (if negb (set_ result_) && operation_has_output (operation v) then data_copy (default [] data) (length_ v) else d)
| S_release d' :
    live v = true → fenced (a_mask a) v ∨ (∃ p g now, e = Invoke (CReplyAck p g (handle_of i v) now)) → slot_step e a i v d (released v) d'
| S_retire :
    v = blank STORAGE_SLOT_FREE STORAGE_HANDLE_GENERATION_MAX → slot_step e a i v d (blank STORAGE_SLOT_RETIRED STORAGE_HANDLE_GENERATION_MAX) d
| S_submit pid generation_ now_ms r d' :
    state v = STORAGE_SLOT_FREE → slot_step e a i v d (submitted pid generation_ now_ms r (generation v + 1)) d'.

Lemma data_at_ne l i j d : i ≠ j → data_at (<[i := d]> l) j = data_at l j.
Proof. intros Hne. unfold data_at. by rewrite !nth_lookup, list_lookup_insert_ne. Qed.
Lemma data_at_eq l i d : (i < length l)%nat → data_at (<[i := d]> l) i = d.
Proof. intros Hi. unfold data_at. by rewrite nth_lookup, list_lookup_insert_eq. Qed.

Lemma bulk_copy_primary t m : primary (bulk_copy t m).2 = primary m.
Proof. unfold bulk_copy. by destruct (is_publisher _). Qed.
Lemma submit_mem_block i j r h data m : i ≠ j → data_at (primary (submit_mem i r h data m)) j = data_at (primary m) j.
Proof.
  intros Hne. unfold submit_mem. cbv zeta. destruct (needs_bulk r); cbn [request_added set_stats primary];
    [destruct (bulk_reserve_rest h (submit_data r data i m)) as (-> & _)|]; unfold submit_data; destruct (operation_has_input _); by apply data_at_ne.
Qed.
Lemma release_mem_block i j v m : i ≠ j → data_at (primary (release_mem i v m)) j = data_at (primary m) j.
Proof.
  intros Hne. unfold release_mem. cbn [request_removed set_stats clear_data set_data primary].
  destruct (bulk_release_rest (handle_of i v) m) as (-> & _). by apply data_at_ne.
Qed.
Lemma complete_mem_block i j v r data m :
  data_at (primary (complete_mem i v r data m)) j =
  if bool_decide (i = j) && negb (set_ r) && operation_has_output (operation v) && (bool_decide (i < length (primary m))%nat)
  then data_copy (default [] data) (length_ v) else data_at (primary m) j.
Proof.
  unfold complete_mem. destruct (set_ r); cbn [negb].
  - rewrite andb_false_r. destruct (operation v =? _); [|done]. by destruct (bulk_release_rest (handle_of i v) m) as (-> & _).
  - rewrite andb_true_r. destruct (operation_has_output (operation v)); [|by rewrite andb_false_r].
    rewrite andb_true_r. cbn [store_data set_data primary]. case_bool_decide as Hij; cbn [andb]; [subst j|by apply data_at_ne].
    case_bool_decide; [by apply data_at_eq|]. by rewrite list_insert_ge by lia.
Qed.

(** Every slot under every move. *)
Lemma act_slot e a ts a' ts' i v :
  inv a ts → act e (a, ts) (a', ts') → a_slots a !! i = Some v →
  ∃ v', a_slots a' !! i = Some v' ∧ slot_step e a i v (block a i) v' (block a' i).
Proof.
  intros Hinv Hact Hv. pose proof (lookup_lt_Some _ _ _ Hv) as Hlt.
  assert (∀ k w, k ≠ i → <[k := w]> (a_slots a) !! i = Some v) as Hne by (intros k w Hk; by rewrite list_lookup_insert_ne).
  assert (∀ w, <[i := w]> (a_slots a) !! i = Some w) as Heq by (intros w; by apply list_lookup_insert_eq).
  unfold block. inversion Hact; subst; clear Hact; cbn [a_slots a_mem put_slot put_mem put_mask put_service release_state];
    try (exists v; split; [done|]; cbn; rewrite ?bulk_copy_primary; apply S_same).
  - destruct (decide (i0 = i)) as [->|Hk]; [|exists v; split; [by apply Hne|apply S_same]].
    eexists. split; [apply Heq|]. apply S_retire. congruence.
  - destruct (decide (i0 = i)) as [->|Hk]; [|exists v; split; [by apply Hne|]; rewrite submit_mem_block by done; apply S_same].
    eexists. split; [apply Heq|]. simplify_eq. by apply S_submit.
  - destruct (decide (i0 = i)) as [->|Hk]; [|exists v; split; [by apply Hne|apply S_same]].
    eexists. split; [apply Heq|]. simplify_eq. by apply S_edge.
  - destruct (decide (i0 = i)) as [->|Hk].
    + eexists. split; [apply Heq|]. simplify_eq. rewrite complete_mem_block. rewrite !bool_decide_eq_true_2, andb_true_r; [|by rewrite (data_length _ _ (inv_data _ _ Hinv)), <- (base_slots _ (inv_base _ _ Hinv))|done].
      by eapply S_complete.
    + exists v. split; [by apply Hne|]. rewrite complete_mem_block, bool_decide_eq_false_2 by done. apply S_same.
  - destruct (decide (i0 = i)) as [->|Hk]; [|exists v; split; [by apply Hne|]; rewrite release_mem_block by done; apply S_same].
    eexists. split; [apply Heq|]. simplify_eq. apply S_release; [done|by left].
  - destruct (decide (i0 = i)) as [->|Hk]; [|exists v; split; [by apply Hne|]; rewrite release_mem_block by done; apply S_same].
    eexists. split; [apply Heq|]. simplify_eq. apply S_release; [|right; by eauto].
    unfold live, is_free. match goal with H : state v = _ |- _ => by rewrite H end.
  - destruct (decide (i0 = i)) as [->|Hk]; [|exists v; split; [by apply Hne|apply S_same]].
    eexists. split; [apply Heq|]. simplify_eq. by apply S_input.
  - destruct (decide (i0 = i)) as [->|Hk]; [|exists v; split; [by apply Hne|]; rewrite release_mem_block by done; apply S_same].
    destruct (transfer_facts a ts Hinv n t) as (b' & Hb' & _ & _ & _ & _ & _ & _ & _ & _ & Htr & _); [done|]. simplify_eq.
    match goal with H : t_call _ = _ |- _ => unfold transfer_ok in Htr; rewrite H in Htr end.
    destruct Htr as (_ & _ & Hv' & Hs & Hop & _); [by match goal with H : b_state _ = STORAGE_BULK_READING |- _ => rewrite H end|]. simplify_eq.
    assert (live v = true) as Hl by (unfold live, is_free; by rewrite Hs).
    eexists. split; [apply Heq|]. apply S_release; [done|]. left. intros Hm. exfalso.
    destruct (base_live _ (inv_base _ _ Hinv) _ _ Hv Hl) as [_ Hp]. destruct (pg_bound _ Hp) as [Hmut _]; [unfold may_have_effect in Hm; clear - Hm; unfold_states; lia|].
    unfold is_mutation in Hmut. by rewrite Hop in Hmut.
Qed.

(** ** Fences *)
Definition clears (e : event) (r : Z) : Prop := ∃ p g, e = Invoke (CRecoveryClear p g r).
Definition acknowledges (e : event) (h : Z) : Prop := ∃ p g now, e = Invoke (CReplyAck p g h now).

Lemma max_testbit r : 0 <= r < 32 → Z.testbit UINT32_MAX r = true.
Proof. intros Hr. change UINT32_MAX with (Z.ones 32). apply Z.ones_spec_low. lia. Qed.

(** Only a recovery of the resource takes its fence away. *)
Lemma act_mask e a ts a' ts' r :
  act e (a, ts) (a', ts') → 0 <= r < 32 → ¬ clears e r → Z.testbit (a_mask a) r = true → Z.testbit (a_mask a') r = true.
Proof.
  intros Hact Hr Hc Ht. inversion Hact; subst; clear Hact; cbn [a_mask put_slot put_mem put_mask put_service release_state]; try done.
  - rewrite resource_bit_or by lia. by rewrite Ht.
  - assert (r0 ≠ r) as Hne by (intros ->; apply Hc; by eexists _, _).
    rewrite Z.land_spec, Z.lxor_spec, max_testbit, Ht by done. unfold resource_bit. rewrite Z.shiftl_1_l, Z.pow2_bits_eqb by lia.
    by destruct (Z.eqb_spec r0 r).
Qed.

(** ** One slot *)
Lemma edge_state e a i v v' : edge e a i v v' → live v = true ∧ state v ≠ STORAGE_SLOT_RETIRED.
Proof.
  intros He. unfold live, is_free. inversion He; subst;
    repeat match goal with H : entitled _ _ _ _ _ |- _ => destruct H as (_ & _ & _ & _ & _ & H & _) | H : _ ∨ _ |- _ => destruct H end;
    try match goal with H : state v = _ |- _ => by rewrite H end; plia.
Qed.

Lemma edge_effect e a i v w r :
  edge e a i v w → may_have_effect v = true → resource_of v = r → may_have_effect w = true ∧ resource_of w = r.
Proof.
  intros He Hm Hr. inversion He; subst; try done; split; try done; unfold may_have_effect in *; edge_fields; try plia.
  unfold finished, STORAGE_MUTATION_NO_EFFECT, STORAGE_MUTATION_DURABLE in *. destruct (Z.eqb_spec outcome 1); [|by destruct (outcome =? 2)]. plia.
Qed.

Section slot.
Context (e : event) (a : astate) (ts : list ticket) (i : nat) (v v' : storage_slot_metadata_t) (d d' : storage_data_copy_t).
Context (Hinv : inv a ts) (Hv : a_slots a !! i = Some v) (Hstep : slot_step e a i v d v' d').

Lemma edge_keeps w : edge e a i v w → generation w = generation v ∧ request_of w = request_of v ∧ live w = true.
Proof using Hinv Hv.
  intros He. destruct (edge_carries _ _ _ _ _ (inv_base _ _ Hinv) Hv He) as [[_ Hl] _ Er _ _].
  pose proof (f_equal (λ l, nth 0 l 0) Er) as Eg. by split_and!.
Qed.

Lemma step_generation : generation v <= generation v'.
Proof using All.
  pose proof (base_generation _ (inv_base _ _ Hinv) _ _ Hv) as Hg. inversion Hstep; subst; try done.
  - by destruct (edge_keeps v') as [-> _].
  - unfold completion. destruct (closed_fields v) as (Er & _). cbn. by pose proof (f_equal (λ l, nth 0 l 0) Er) as [= ->].
  - by apply released_generation.
  - cbn. lia.
Qed.

(** The request itself never changes while it is there. *)
Lemma step_request : generation v' = generation v → live v' = true → live v = true ∧ request_of v' = request_of v.
Proof using All.
  intros Hg Hl. inversion Hstep; subst; try done.
  - split; [by eapply edge_state|by destruct (edge_keeps v') as (_ & -> & _)].
  - split; [|done]. unfold live, is_free. by match goal with H : state v = _ |- _ => rewrite H end.
  - split; [by apply claimed_live|]. destruct (closed_fields v) as (Er & _). exact Er.
  - by rewrite released_free in Hl.
  - cbn in Hg. lia.
Qed.

(** A spent handle stays spent. *)
Lemma step_retired : state v = STORAGE_SLOT_RETIRED → v' = v.
Proof using All.
  intros Hs. inversion Hstep; subst; try done; try (rewrite Hs in *; done).
  - exfalso. by eapply edge_state.
  - match goal with H : live v = true |- _ => unfold live, is_free in H; by rewrite Hs in H end.
Qed.

(** A possible effect stays with its request, or its resource is fenced. *)
Lemma step_effect r :
  live v = true → may_have_effect v = true → resource_of v = r → ¬ acknowledges e (handle_of i v) →
  (live v' = true ∧ generation v' = generation v ∧ may_have_effect v' = true ∧ resource_of v' = r) ∨ Z.testbit (a_mask a) r = true.
Proof using All.
  intros Hl Hm Hr Hack. inversion Hstep; subst.
  - by left.
  - left. destruct (edge_keeps v') as (Eg & _ & El); [done|]. destruct (edge_effect e a i v v' (resource_of v)) as [? ?]; [done..|]. by split_and!.
  - by left.
  - left. split; [done|]. destruct (closed_fields v) as (Er & _ & _ & _ & _ & Eres & _). unfold completion, resource_of. edge_fields. rewrite Eres.
    split; [by pose proof (f_equal (λ l, nth 0 l 0) Er)|]. split; [|done]. unfold closed. destruct (mutation_open v); [|done].
    unfold may_have_effect in *. edge_fields. destruct (mutation_state v =? MUTATION_BOUND) eqn:Eb; [|done]. exfalso. plia.
  - right. match goal with H : _ ∨ _ |- _ => destruct H as [H|(p & g & now & ->)] end; [by match goal with H : fenced _ _ |- _ => apply H end|].
    exfalso. apply Hack. by eexists _, _, _.
  - done.
  - unfold live, is_free in Hl. by match goal with H : state v = _ |- _ => rewrite H in Hl end.
Qed.
End slot.

(** ** Bulk slots *)
Definition bulk_step (b b' : storage_bulk_slot_t) : Prop :=
  b' = b ∨ b_state b' = STORAGE_BULK_REVOKED ∨ (b_state b = STORAGE_BULK_RESERVED ∨ b_state b = STORAGE_BULK_WRITING) ∨
  (has_payload b ∧ has_payload b' ∧ b_length b' = b_length b ∧ b_bytes b' = b_bytes b).
(** A bulk slot in use was in use for the same request before. *)
Definition bulk_move (m : mem) (j : nat) (b' : storage_bulk_slot_t) : Prop :=
  ∃ b, bulk_slots m !! j = Some b ∧ b_state b ≠ STORAGE_BULK_FREE ∧ request_handle b' = request_handle b ∧ bulk_step b b'.

Lemma bulk_unmoved m j b : bulk_slots m !! j = Some b → b_state b ≠ STORAGE_BULK_FREE → bulk_move m j b.
Proof. intros Hb Hf. exists b. split_and!; try done. by left. Qed.

Lemma bulk_set_move m k b0 b1 j b' :
  bulk_slots m !! k = Some b0 →
  (b_state b1 ≠ STORAGE_BULK_FREE → b_state b0 ≠ STORAGE_BULK_FREE ∧ request_handle b1 = request_handle b0 ∧ bulk_step b0 b1) →
  <[k := b1]> (bulk_slots m) !! j = Some b' → b_state b' ≠ STORAGE_BULK_FREE → bulk_move m j b'.
Proof.
  intros Hk H1 Hj Hf. destruct (decide (k = j)) as [->|Hne].
  - rewrite list_lookup_insert_eq in Hj by (by apply lookup_lt_Some in Hk). injection Hj as <-. exists b0. split; [done|]. by apply H1.
  - rewrite list_lookup_insert_ne in Hj by done. by apply bulk_unmoved.
Qed.

Lemma bulk_release_move slots ts m h j b' :
  bulk_inv slots (bulk_slots m) ts → bulk_slots (bulk_release h m) !! j = Some b' → b_state b' ≠ STORAGE_BULK_FREE → bulk_move m j b'.
Proof.
  intros Hk Hj Hf. unfold bulk_release in Hj. destruct (bulk_find h m) as [k|] eqn:Ef; [|by apply bulk_unmoved].
  apply bulk_find_some in Ef as (b & Hb & Eb & Hbf & Hh); [|apply (bulk_length _ _ _ Hk)]. rewrite Eb in Hj.
  destruct (_ || _ || _); rewrite set_bulk_slots in Hj; refine (bulk_set_move _ _ b _ _ _ Hb _ Hj Hf); [|done].
  intros _. split_and!; try done. right. by left.
Qed.

(** A bulk slot that a transfer ends, or fills. *)
Lemma bulk_transfer_move a ts n t b1 j b' :
  inv a ts → ts !! n = Some t → <[t_index t := b1]> (bulk_slots (a_mem a)) !! j = Some b' → b_state b' ≠ STORAGE_BULK_FREE →
  (b_state b1 ≠ STORAGE_BULK_FREE → request_handle b1 = request_handle (bulk_at (a_mem a) (t_index t)) ∧ bulk_step (bulk_at (a_mem a) (t_index t)) b1) →
  bulk_move (a_mem a) j b'.
Proof.
  intros Hinv Hn Hj Hf H1. destruct (transfer_facts a ts Hinv n t Hn) as (b & Hb & Eb & _ & _ & Hbf & _). rewrite Eb in H1.
  refine (bulk_set_move _ _ b _ _ _ Hb _ Hj Hf). intros Hf1. split; [done|]. by apply H1.
Qed.

Lemma act_bulk e a ts a' ts' j b' :
  inv a ts → act e (a, ts) (a', ts') → bulk_slots (a_mem a') !! j = Some b' → b_state b' ≠ STORAGE_BULK_FREE →
  bulk_move (a_mem a) j b' ∨
  ∃ i v, a_slots a !! i = Some v ∧ request_handle b' = make_handle i (generation v + 1) ∧ generation v < STORAGE_HANDLE_GENERATION_MAX.
Proof.
  intros Hinv Hact Hj Hf. pose proof (inv_bulk _ _ Hinv) as Hk.
  inversion Hact; subst; clear Hact; cbn [a_mem put_slot put_mem put_mask put_service release_state client_rejected pool_rejected set_stats bulk_slots] in Hj;
    try (left; by apply bulk_unmoved).
  - unfold submit_mem in Hj. cbv zeta in Hj. cbn [request_added set_stats bulk_slots] in Hj.
    destruct (submit_data_rest r data i (a_mem a)) as (E & _). destruct (needs_bulk r); cbn [bulk_slots] in Hj.
    2: { rewrite E in Hj. left. by apply bulk_unmoved. }
    unfold bulk_reserve in Hj. destruct (List.find _ _) as [k|] eqn:Ek; cbn [snd] in Hj; [|rewrite E in Hj; left; by apply bulk_unmoved].
    rewrite set_bulk_slots, E in Hj. destruct (decide (k = j)) as [->|Hne]; [|rewrite list_lookup_insert_ne in Hj by done; left; by apply bulk_unmoved].
    right. exists i, v. pose proof (lookup_lt_Some _ _ _ Hj) as Hlt. rewrite length_insert in Hlt. rewrite list_lookup_insert_eq in Hj by done. injection Hj as <-.
    split; [done|]. split; [done|]. destruct (base_generation _ (inv_base _ _ Hinv) i v); [done|]. lia.
  - left. unfold complete_mem in Hj. destruct (set_ result_).
    + destruct (operation v =? _); [by eapply bulk_release_move|by apply bulk_unmoved].
    + destruct (operation_has_output _); by apply bulk_unmoved.
  - left. unfold release_mem in Hj. exact (bulk_release_move _ _ _ _ _ _ Hk Hj Hf).
  - left. unfold release_mem in Hj. exact (bulk_release_move _ _ _ _ _ _ Hk Hj Hf).
  - left. unfold set_bulk_state in Hj. rewrite set_bulk_slots in Hj. erewrite bulk_at_lookup in Hj by done.
    refine (bulk_set_move _ _ b _ _ _ _ _ Hj Hf); [done|]. intros _. split; [unfold_states; lia|]. split; [done|]. right. right. left. by left.
  - left. unfold set_bulk_state in Hj. rewrite set_bulk_slots in Hj. erewrite bulk_at_lookup in Hj by done.
    refine (bulk_set_move _ _ b _ _ _ _ _ Hj Hf); [done|]. intros _. split; [unfold_states; lia|]. split; [done|]. right. right. right.
    split_and!; try done; [by left|by right; left].
  - left. unfold bulk_copy in Hj. destruct (is_publisher (t_call t)) eqn:Ep; cbn [snd] in Hj; [|by apply bulk_unmoved].
    unfold bulk_fill in Hj. rewrite set_bulk_slots in Hj. eapply bulk_transfer_move; [done|done|done|done|]. cbn [b_state request_handle]. intros _. split; [done|].
    destruct (transfer_facts a ts Hinv n t) as (b & _ & -> & _ & _ & _ & _ & Hs & _); [done|]. unfold transfer_state in Hs. rewrite Ep in Hs.
    right. destruct Hs as [Hs|Hs]; [by left|]. right. left. by right.
  - left. unfold bulk_published in Hj. rewrite set_bulk_slots in Hj. eapply bulk_transfer_move; [done|done|done|done|]. cbn [b_state request_handle]. intros _. split; [done|].
    erewrite bulk_at_lookup by done. right. right. left. by right.
  - left. unfold bulk_published in Hj. rewrite set_bulk_slots in Hj. eapply bulk_transfer_move; [done|done|done|done|]. cbn [b_state request_handle]. intros _. split; [done|].
    erewrite bulk_at_lookup by done. right. right. left. by right.
  - left. unfold set_bulk_state in Hj. rewrite set_bulk_slots in Hj. eapply bulk_transfer_move; [done|done|done|done|]. cbn [b_state request_handle]. intros _. split; [done|].
    erewrite bulk_at_lookup by done. right. right. right. split_and!; try done; [by right; left|by right; right].
  - left. unfold bulk_clear in Hj. rewrite set_bulk_slots in Hj. eapply bulk_transfer_move; [done|done|done|done|]. by intros [].
  - left. cbn [a_slots a_mem] in *. unfold release_mem in Hj.
    pose proof (inv_dropped a ts Hinv n t) as Hi'. specialize (Hi' ltac:(done)). pose proof (inv_bulk _ _ Hi') as Hk'. cbn [a_slots a_mem put_mem] in Hk'.
    destruct (bulk_release_move _ _ _ _ _ _ Hk' Hj Hf) as (c & Hc & Hcf & Hh & Hs).
    unfold bulk_clear in Hc. rewrite set_bulk_slots in Hc. destruct (decide (t_index t = j)) as [<-|Hne].
    + pose proof (lookup_lt_Some _ _ _ Hc) as Hlt. rewrite length_insert in Hlt. rewrite list_lookup_insert_eq in Hc by done. injection Hc as <-. by destruct Hcf.
    + rewrite list_lookup_insert_ne in Hc by done. by exists c.
Qed.

(** ** What every move keeps *)
Lemma spent_act e h a ts a' ts' : inv a ts → act e (a, ts) (a', ts') → spent h a → spent h a'.
Proof.
  intros Hinv Hact (i & v & g & Hv & Hh & Hg & Hs). destruct (act_slot _ _ _ _ _ _ _ Hinv Hact Hv) as (v' & Hv' & Hstep).
  pose proof (step_generation _ _ _ _ _ _ _ _ Hinv Hv Hstep) as Hm. exists i, v', g. split_and!; [done|done|lia|lia|].
  destruct Hs as [Hs|Hs]; [left; lia|]. right. by rewrite (step_retired _ _ _ _ _ _ _ _ Hinv Hv Hstep Hs).
Qed.

Lemma spent_unserved h a i v : base_ok a → spent h a → ¬ serves a h i v.
Proof.
  intros Hb (j & w & g & Hw & -> & Hg & Hs) (Hv & Hl & Hh). pose proof (base_generation _ Hb _ _ Hw). pose proof (base_generation _ Hb _ _ Hv).
  apply make_handle_inj in Hh as [-> ->]; [|by eapply base_lookup|by eapply base_lookup|lia|done]. simplify_eq.
  destruct Hs as [Hs|Hs]; [lia|]. unfold live, is_free in Hl. by rewrite Hs in Hl.
Qed.

(** The request [h] may have had an effect on resource [r]: it is still there
    to say so, or the resource is fenced. *)
Definition accounted (h r : Z) (a : astate) : Prop :=
  Z.testbit (a_mask a) r = true ∨ ∃ i v, serves a h i v ∧ may_have_effect v = true ∧ resource_of v = r.

Lemma accounted_act e h r a ts a' ts' :
  0 <= r < 32 → ¬ clears e r ∧ ¬ acknowledges e h → inv a ts → act e (a, ts) (a', ts') → accounted h r a → accounted h r a'.
Proof.
  intros Hr [Hc Hk] Hinv Hact [Hm|(i & v & (Hv & Hl & ->) & Hm & Hres)]; [left; by eapply act_mask|].
  destruct (act_slot _ _ _ _ _ _ _ Hinv Hact Hv) as (v' & Hv' & Hstep).
  destruct (step_effect _ _ _ _ _ _ _ _ Hinv Hv Hstep r Hl Hm Hres Hk) as [(Hl' & Eg & Hm' & Hr')|Hb].
  - right. exists i, v'. split; [|done]. split_and!; try done. unfold handle_of. by rewrite Eg.
  - left. by eapply act_mask.
Qed.

(** As long as the request [h] is there, [P] holds of its slot and data. *)
Definition carries (h : Z) (P : storage_slot_metadata_t → storage_data_copy_t → Prop) (a : astate) : Prop :=
  ∃ i v g, a_slots a !! i = Some v ∧ h = make_handle i g ∧ 0 < g <= generation v ∧ (generation v = g → live v = true → P v (block a i)).
Definition stable (P : storage_slot_metadata_t → storage_data_copy_t → Prop) : Prop :=
  ∀ e a ts i v v' d d', inv a ts → a_slots a !! i = Some v → slot_step e a i v d v' d' → live v = true → live v' = true →
    generation v' = generation v → P v d → P v' d'.

Lemma carries_act P e h a ts a' ts' : stable P → inv a ts → act e (a, ts) (a', ts') → carries h P a → carries h P a'.
Proof.
  intros HP Hinv Hact (i & v & g & Hv & Hh & Hg & Hp). destruct (act_slot _ _ _ _ _ _ _ Hinv Hact Hv) as (v' & Hv' & Hstep).
  pose proof (step_generation _ _ _ _ _ _ _ _ Hinv Hv Hstep) as Hm. exists i, v', g. split_and!; [done|done|lia|lia|].
  intros Eg Hl. assert (generation v' = generation v) as Egv by lia.
  destruct (step_request _ _ _ _ _ _ _ _ Hinv Hv Hstep Egv Hl) as [Hlv _]. eapply HP; try done. apply Hp; [lia|done].
Qed.

Lemma carries_served P h a i v : base_ok a → carries h P a → serves a h i v → P v (block a i).
Proof.
  intros Hb (j & w & g & Hw & -> & Hg & Hp) (Hv & Hl & Hh). pose proof (base_generation _ Hb _ _ Hw). pose proof (base_generation _ Hb _ _ Hv).
  apply make_handle_inj in Hh as [-> ->]; [|by eapply base_lookup|by eapply base_lookup|lia|done]. simplify_eq. by apply Hp.
Qed.
Lemma serves_carries (P : storage_slot_metadata_t → storage_data_copy_t → Prop) h a i v :
  base_ok a → serves a h i v → P v (block a i) → carries h P a.
Proof.
  intros Hb (Hv & Hl & Hh) HP. destruct (base_live _ Hb _ _ Hv Hl) as [Hr _]. pose proof (rq_generation _ Hr).
  exists i, v, (generation v). split_and!; try done; lia.
Qed.

(** Not yet claimed: the request as submitted, and its bytes. *)
Definition waiting (request : list Z) (n : Z) (bytes : list Z) (v : storage_slot_metadata_t) (d : storage_data_copy_t) : Prop :=
  request_of v = request ∧
  (state v = STORAGE_SLOT_QUEUED ∨ state v = STORAGE_SLOT_INPUT_PENDING → operation_has_input (operation v) = true → take (Z.to_nat n) (d_bytes d) = bytes).
(** Completed: its result, and its bytes. *)
Definition answered (request : list Z) (rc n : Z) (bytes : list Z) (v : storage_slot_metadata_t) (d : storage_data_copy_t) : Prop :=
  request_of v = request ∧ completed v = true ∧ result v = rc ∧
  (rc = 0 → operation_has_output (operation v) = true → take (Z.to_nat n) (d_bytes d) = bytes).

Lemma edge_not_waiting e a i v v' : edge e a i v v' → state v' ≠ STORAGE_SLOT_QUEUED ∧ state v' ≠ STORAGE_SLOT_INPUT_PENDING.
Proof.
  intros He. inversion He; subst; edge_fields; try done;
    match goal with H : entitled _ _ _ _ _ |- _ => destruct H as (_ & _ & _ & _ & _ & -> & _) end; done.
Qed.
Lemma edge_completed e a i v v' : edge e a i v v' → completed v = true → completed v' = true ∧ result v' = result v.
Proof.
  intros He Hc. unfold completed in *. inversion He; subst; edge_fields; try done;
    repeat match goal with H : entitled _ _ _ _ _ |- _ => destruct H as (_ & _ & _ & _ & _ & H & _) | H : state v = _ ∨ _ |- _ => destruct H end;
    by match goal with H : state v = _ |- _ => rewrite H in Hc end.
Qed.

Lemma waiting_stable request n bytes : stable (waiting request n bytes).
Proof.
  intros e a ts i v v' d d' Hinv Hv Hstep Hl Hl' Eg [Er Hd]. destruct (step_request _ _ _ _ _ _ _ _ Hinv Hv Hstep Eg Hl') as [_ Er'].
  split; [by rewrite Er'|]. inversion Hstep; subst; try done.
  - intros Hs. exfalso. match goal with H : edge _ _ _ _ _ |- _ => destruct (edge_not_waiting _ _ _ _ _ H) as [H1 H2] end. by destruct Hs.
  - intros _ Hop. apply Hd; [by right|done].
  - by intros [|].
  - by rewrite released_free in Hl'.
  - cbn in Eg. lia.
Qed.
Lemma answered_stable request rc n bytes : stable (answered request rc n bytes).
Proof.
  intros e a ts i v v' d d' Hinv Hv Hstep Hl Hl' Eg (Er & Hc & Hrc & Hd). destruct (step_request _ _ _ _ _ _ _ _ Hinv Hv Hstep Eg Hl') as [_ Er'].
  assert (operation v' = operation v) as Eop by by pose proof (f_equal (λ l, nth 1 l 0) Er').
  unfold answered. rewrite Er', Eop. inversion Hstep; subst; try done.
  - match goal with H : edge _ _ _ _ _ |- _ => destruct (edge_completed _ _ _ _ _ H Hc) as [-> ->] end. done.
  - exfalso. unfold completed in Hc. match goal with H : state v = _ |- _ => by rewrite H in Hc end.
  - exfalso. unfold completed in Hc. match goal with H : state v = _ |- _ => by rewrite H in Hc end.
  - by rewrite released_free in Hl'.
  - cbn in Eg. lia.
Qed.

(** The bulk slot of the request [h], once published, holds these bytes. *)
Definition published (h n : Z) (bytes : list Z) (a : astate) : Prop :=
  (∃ i v g, a_slots a !! i = Some v ∧ h = make_handle i g ∧ 0 < g <= generation v) ∧
  ∀ j b, bulk_slots (a_mem a) !! j = Some b → b_state b ≠ STORAGE_BULK_FREE → request_handle b = h →
    b_state b = STORAGE_BULK_REVOKED ∨ (has_payload b ∧ b_length b = n ∧ take (Z.to_nat n) (b_bytes b) = bytes).

Lemma published_act e h n bytes a ts a' ts' : inv a ts → act e (a, ts) (a', ts') → published h n bytes a → published h n bytes a'.
Proof.
  intros Hinv Hact [(i & v & g & Hv & Hh & Hg) Hb]. pose proof (inv_base _ _ Hinv) as Hb0. split.
  - destruct (act_slot _ _ _ _ _ _ _ Hinv Hact Hv) as (v' & Hv' & Hstep). pose proof (step_generation _ _ _ _ _ _ _ _ Hinv Hv Hstep).
    exists i, v', g. split_and!; [done|done|lia|lia].
  - intros j b' Hj Hf Eh. destruct (act_bulk _ _ _ _ _ _ _ Hinv Hact Hj Hf) as [(b & Hb' & Hbf & Ehb & Hs)|(k & w & Hw & Ehw & Hm)].
    + destruct (Hb j b Hb' Hbf) as [Hr|(Hp & En & Ed)]; [congruence|destruct Hs as [->|[Hs|[Hs|(Hp & _)]]]; auto|destruct Hs as [->|[Hs|[Hs|(_ & Hp' & -> & ->)]]]; auto];
        exfalso; unfold has_payload in *; unfold_states; lia.
    + exfalso. rewrite Eh, Hh in Ehw. pose proof (base_generation _ Hb0 _ _ Hv). pose proof (base_generation _ Hb0 _ _ Hw).
      apply make_handle_inj in Ehw as [-> ->]; [simplify_eq; lia|by eapply base_lookup|by eapply base_lookup|lia|lia].
Qed.
