(* ===== verification/StorageRequestPoolProps.v ===== *)
(** What the request pool guarantees its clients and its service.

    Each theorem speaks of a system in which the pool holds a state of the
    protocol, and of every sequence of events from there: what an answer
    promised stays true until the pool is poisoned.  The witnesses run the
    pool on the reference store and on critical objects. *)
From S2P Require Import Prelude ProtectedStore.
From S2P Require Import Crc32 Layout ProtectedRecord CriticalObject OwnedStore RegisterStore StorageRequestPool StorageRequestPoolSpec StorageRequestPoolLife.
From S2P Require Import StorageRequestPoolInv StorageRequestPoolBodies StorageRequestPoolRuns StorageRequestPoolTrace.
From stdpp Require Import relations.
Import StorageRequestPool.
Local Open Scope pool_scope.
Local Open Scope Z_scope.

(** The answer of event [e] after the events [es]. *)
Definition then_step {O} `{OwnedStore O} (s : system O) (es : list event) (e : event) : option (Z + reply) * system O :=
  step (steps s es).2 e.

(** The handle a descriptor carries, and the fields it has of the request. *)
Definition descriptor_handle (d : storage_request_descriptor) : Z :=
  match d with
  | Descriptor_v1 h _ _ _ _ | Descriptor_v2 h _ _ _ _ _ _ _ | Descriptor_v3 h _ _ _ _ _ _ _ _ => h
  end.
Definition describes (d : storage_request_descriptor) (pid generation_ now_ms : Z) (q : storage_request_submit_t) : Prop :=
  match d with
  | Descriptor_v1 _ op r off len => op = r_operation q ∧ r = r_resource q ∧ off = r_offset q ∧ len = expected_length q
  | Descriptor_v2 _ op r off len p g _ =>
    op = r_operation q ∧ r = r_resource q ∧ off = r_offset q ∧ len = expected_length q ∧ p = pid ∧ g = generation_
  | Descriptor_v3 _ op r off len p g _ deadline =>
    op = r_operation q ∧ r = r_resource q ∧ off = r_offset q ∧ len = expected_length q ∧ p = pid ∧ g = generation_ ∧
    deadline = deadline_after now_ms (r_timeout_ms q)
  end.

(** The answer ended the request of the handle: its client has the result. *)
Definition delivered {O} `{OwnedStore O} (s : system O) (e : event) (h : Z) : Prop :=
  match e, (step s e).1 with
  | Invoke (CCollect _ _ h' _ _), Some (inr (RResult _ _ _)) | Invoke (CReplyAck _ _ h' _), Some (inr RNone)
  | Invoke (CBulkCollect _ _ h' _ _ _), Some (inr (RBulk _ _ _)) => h' = h
  | Finish n, Some (inr (RBulk _ _ _)) => ∃ t, sys_tickets s !! n = Some t ∧ t_handle t = h
  | _, _ => False
  end.

(** The bytes the end of a bulk transfer hands over. *)
Definition bulk_bytes (r : option (Z + reply)) : option (list Z) :=
  match r with Some (inr (RResult _ data _)) | Some (inr (RBulk _ _ data)) => Some data | _ => None end.

(** The calls that give a service authority over resource [r]. *)
Definition authorises (c : call) (r : Z) : Prop :=
  ∃ p g h now, c = CMutationBind p g h r now ∨ c = CMutationEffect p g h r now ∨ c = CMutationAuthorized p g h r now.

Lemma step_answers {O} `{OwnedStore O} (s : system O) c : ∃ r, (step s (Invoke c)).1 = Some r.
Proof. cbn [step]. destruct (run _ _) as [r g]. by exists r. Qed.

Section props.
Context {O : Type} `{PL : ProtectedStoreLaws O} {OS : OwnedStore O}.

Lemma steps_keep (P : astate → Prop) (ok : event → Prop) es (s : system O) a :
(∀ e, ok e → event_ok e) → (∀ e a ts a' ts', ok e → inv a ts → act e (a, ts) (a', ts') → P a → P a') →
system_holds s a → Forall ok es → P a →
poisoned (sys_pool (steps s es).2) ∨ ∃ a', system_holds (steps s es).2 a' ∧ P a'.
Proof using PL.
intros Hev HP Hs Hok Ha. destruct (steps_refines es s a Hs) as [H|(a' & Hs' & Hr)]; [by eapply list.Forall_impl|by left|].
right. exists a'. split; [done|]. by apply (runs_keep (λ a _, P a) ok es HP _ _ _ Hok Hr (sh_inv _ _ Hs) Ha).
Qed.

(** An event after others: it poisons, or it answers in a state where [P]
  still holds. *)
Lemma then_step_keep (P : astate → Prop) es (s : system O) a e :
(∀ e a ts a' ts', inv a ts → act e (a, ts) (a', ts') → P a → P a') →
system_holds s a → Forall event_ok es → event_ok e → P a →
poisoned (sys_pool (then_step s es e).2) ∨
∃ a1 a2, system_holds (steps s es).2 a1 ∧ system_holds (then_step s es e).2 a2 ∧ P a1 ∧
  answer_ok e a1 (sys_tickets (steps s es).2) (then_step s es e).1 a2.
Proof using PL.
intros HP Hs Hok He Ha. unfold then_step. destruct (steps_keep P event_ok es s a) as [H|(a1 & Hs1 & Ha1)]; try done.
- intros e' b ts b' ts' _. apply HP.
- left. by apply step_poisoned.
- destruct (step_refines _ _ e Hs1 He) as [H|(a2 & Hs2 & _ & Hans)]; [by left|]. right. by exists a1, a2.
Qed.

(** C5: Once a service was told it may write to a resource for a request,
  then, whoever cancels, exits, completes or times out in whatever order,
  either the request is still in its slot and says that it may have had an
  effect on that resource, or the resource is fenced; only the client's
  acknowledgement of the reply or a verified recovery of the resource ends
  this (a poisoned pool refuses every authority). *)
Theorem storage_effect_accounted (s : system O) a p g h r now es :
let e := Invoke (CMutationEffect p g h r now) in
system_holds s a → event_ok e → (step s e).1 = Some (inr RNone) →
Forall (λ e, event_ok e ∧ ¬ clears e r ∧ ¬ acknowledges e h) es →
let s' := (steps (step s e).2 es).2 in
poisoned (sys_pool s') ∨ ∃ a', system_holds s' a' ∧ accounted h r a'.
Proof using PL.
intros e Hs He Er Hes. cbv zeta. destruct (step_refines s a e Hs He) as [Hp|(a1 & Hs1 & _ & Hans)]; [left; by apply steps_poisoned|].
unfold e in Hans at 1. cbn [answer_ok] in Hans. rewrite Er in Hans. destruct Hans as [_ (_ & i & v & Hv & Hm & Hr & Hr32)].
apply (steps_keep (accounted h r) (λ e, event_ok e ∧ ¬ clears e r ∧ ¬ acknowledges e h) es _ a1); [by intros ? []| |done|done|].
- intros e' b ts b' ts' [_ Hno]. by apply accounted_act.
- right. exists i, v. split_and!; [done| |done]. unfold may_have_effect. by rewrite Hm.
Qed.

(** C25: When the client has its result, the handle is dead: whatever happens
  afterwards, the slot's reuse by other requests included, every call that
  names it is refused. *)
Theorem storage_handle_spent (s : system O) a e h es c :
system_holds s a → event_ok e → delivered s e h → Forall event_ok es → call_ok c → named c = Some h →
let '(answer, s') := then_step (step s e).2 es (Invoke c) in
poisoned (sys_pool s') ∨ ∃ error, answer = Some (inl error).
Proof using PL.
intros Hs He Hd Hes Hc Hn. destruct (step_refines s a e Hs He) as [Hp|(a1 & Hs1 & _ & Hans)].
{ pose proof (step_poisoned _ (Invoke c) (steps_poisoned es _ Hp)) as H. unfold then_step. destruct (step _ (Invoke c)). by left. }
assert (spent h a1) as Hspent.
{ unfold delivered in Hd. destruct e as [k| |n]; [|done|]; cbv beta iota in Hd; cbn [answer_ok] in Hans.
  - destruct k; try done; cbv beta iota in Hd; destruct (step s _).1 as [[|r]|]; try done; destruct r; try done; subst;
      destruct Hans as [_ Hans]; cbn in Hans; [by destruct Hans as (? & ? & ? & ? & ? & ? & ? & ?)|by destruct Hans as (? & ? & ? & ? & ? & ?)|done].
  - destruct (step s (Finish n)).1 as [[|r]|]; [done| |done]. destruct r; try done. destruct Hd as (t & Ht & <-), Hans as (t' & Ht' & Hsays).
    rewrite Ht in Ht'. injection Ht' as <-. unfold finish_says in Hsays. destruct (t_call t); try done. by destruct Hsays as (? & ? & ? & ? & ? & ? & ? & ? & ?). }
destruct (then_step_keep (spent h) es (step s e).2 a1 (Invoke c)) as [H|(b1 & b2 & Hb1 & Hb2 & Hsp & Hans2)]; try done.
- intros e' b ts b' ts'. apply spent_act.
- destruct (then_step _ _ _). by left.
- destruct (step_answers (steps (step s e).2 es).2 c) as [r Er]. fold (then_step (step s e).2 es (Invoke c)) in Er.
  rewrite Er in Hans2. destruct (then_step _ _ _) as [answer s']. right. cbn [fst] in Er. destruct r as [err|r]; [by exists err|].
  exfalso. destruct Hans2 as [Hserves _]. destruct (Hserves h Hn) as (i & v & Hv).
  by apply (spent_unserved h b1 i v (inv_base _ _ (sh_inv _ _ Hb1)) Hsp).
Qed.

(** ** Contents *)
Lemma request_fields p g now q n v :
request_of v = request_of (submitted p g now q n) →
operation v = r_operation q ∧ client_pid v = p ∧ client_generation v = g ∧ resource v = r_resource q ∧ offset v = r_offset q ∧
length_ v = expected_length q ∧ deadline_ms v = deadline_after now (r_timeout_ms q).
Proof using.
intros E. pose proof (f_equal (λ l, nth 1 l 0) E). pose proof (f_equal (λ l, nth 2 l 0) E). pose proof (f_equal (λ l, nth 3 l 0) E).
pose proof (f_equal (λ l, nth 4 l 0) E). pose proof (f_equal (λ l, nth 5 l 0) E). pose proof (f_equal (λ l, nth 6 l 0) E).
pose proof (f_equal (λ l, nth 7 l 0) E). by split_and!.
Qed.

(** What a submission leaves. *)
Definition submitted_as (p g now : Z) (q : storage_request_submit_t) (data : option (list Z)) (n : Z) :
  storage_slot_metadata_t → storage_data_copy_t → Prop :=
waiting (request_of (submitted p g now q n)) (expected_length q) (take (Z.to_nat (expected_length q)) (default [] data)).

Lemma submit_carries (s : system O) a p g q data now out h :
let e := Invoke (CSubmit p g (Some q) data now out) in
system_holds s a → event_ok e → (step s e).1 = Some (inr (RHandle h)) →
poisoned (sys_pool (step s e).2) ∨
∃ a' n, system_holds (step s e).2 a' ∧ carries h (submitted_as p g now q data n) a'.
Proof using PL.
intros e Hs He Er. destruct (step_refines s a e Hs He) as [Hp|(a1 & Hs1 & _ & Hans)]; [by left|right].
unfold e in Hans at 1. cbn [answer_ok] in Hans. rewrite Er in Hans. destruct Hans as [_ (i & v & Hv & Ev & Hd)].
exists a1, (generation v). split; [done|]. apply (serves_carries _ _ _ i v (inv_base _ _ (sh_inv _ _ Hs1)) Hv).
assert (length_ v = expected_length q) as El by by rewrite Ev. split; [by rewrite <- Ev|]. intros _ Hop. specialize (Hd Hop).
unfold held in Hd. rewrite El in Hd. exact Hd.
Qed.

(** C24: A claim delivers what was submitted: if, after any events, a service
  is handed the request of a submission, its descriptor carries the fields of
  that submission, the client and the deadline, and its block carries the
  submitted bytes. *)
Theorem storage_claim_delivers (s : system O) a p g q data now out h es c d bytes :
let e := Invoke (CSubmit p g (Some q) data now out) in
system_holds s a → event_ok e → (step s e).1 = Some (inr (RHandle h)) → Forall event_ok es →
(∃ p' g' now', claims (Invoke c) p' g' now') → call_ok c →
(then_step (step s e).2 es (Invoke c)).1 = Some (inr (RRequest d bytes)) → descriptor_handle d = h →
poisoned (sys_pool (then_step (step s e).2 es (Invoke c)).2) ∨
describes d p g now q ∧
bytes = (if operation_has_input (r_operation q) then take (Z.to_nat (expected_length q)) (default [] data) else []).
Proof using PL.
intros e Hs He Er Hes (p' & g' & now' & out' & Hcl) Hc Ed Hh.
destruct (submit_carries s a p g q data now out h Hs He Er) as [Hp|(a1 & n & Hs1 & Ha1)].
{ left. apply step_poisoned. by apply steps_poisoned. }
destruct (then_step_keep (carries h (submitted_as p g now q data n)) es (step s e).2 a1 (Invoke c)) as [Hp|(b1 & b2 & Hb1 & Hb2 & Hk & Hans)]; try done.
{ intros e' b ts b' ts'. apply carries_act, waiting_stable. }
{ by left. }
right. cbn [answer_ok] in Hans. rewrite Ed in Hans. destruct Hans as [_ Hans].
assert (∃ v2 v3, claimed_reply v2 v3 b1 d bytes b2) as (v2 & v3 & i & v & w & Hv & Hq & Hw & Hcw & Erw & Edw & Eb).
{ destruct Hcl as [[= ->]|[[= ->]|[= ->]]]; unfold reply_says in Hans; by eexists _, _. }
assert (generation w = generation v) as Eg by by pose proof (f_equal (λ l, nth 0 l 0) Erw).
assert (serves b1 h i v) as Hsv.
{ split; [done|]. split; [unfold live, is_free; by rewrite Hq|]. rewrite <- Hh, Edw. unfold handle_of. rewrite <- Eg. by destruct v2, v3. }
destruct (carries_served _ _ _ _ _ (inv_base _ _ (sh_inv _ _ Hb1)) Hk Hsv) as [Ev Hdata].
pose proof Ev as (E1 & E2 & E3 & E4 & E5 & E6 & E7)%request_fields. split.
- rewrite <- Erw in Ev. apply request_fields in Ev as (F1 & F2 & F3 & F4 & F5 & F6 & F7). rewrite Edw. unfold descriptor. destruct v3, v2; cbn; by split_and?.
- rewrite Eb, E1. destruct (operation_has_input (r_operation q)) eqn:Eop; [|done]. rewrite E1 in Hdata.
  specialize (Hdata (or_introl Hq) Eop). unfold held. rewrite E6. exact Hdata.
Qed.

(** A completed request comes back as it was completed: if the service
  completed a submitted request with a result and bytes, then, after any
  events, the client that collects it, or begins the reply of a mutation,
  gets that result and, on success, those bytes. *)
Theorem storage_collect_returns (s : system O) a p g q data now out h es1 p1 g1 rc answer es2 c rc' bytes n :
let e := Invoke (CSubmit p g (Some q) data now out) in
let k := Invoke (CComplete p1 g1 h rc answer) in
let s1 := then_step (step s e).2 es1 k in
let s2 := then_step s1.2 es2 (Invoke c) in
system_holds s a → event_ok e → (step s e).1 = Some (inr (RHandle h)) → Forall event_ok es1 → event_ok k →
s1.1 = Some (inr RNone) → Forall event_ok es2 → call_ok c →
(∃ p' g', (∃ out data_out, c = CCollect p' g' h out data_out) ∨ ∃ now' out, c = CReplyBegin p' g' h now' out) →
s2.1 = Some (inr (RResult rc' bytes n)) →
poisoned (sys_pool s2.2) ∨
rc' = rc ∧ (rc = 0 → operation_has_output (r_operation q) = true → bytes = take (Z.to_nat (expected_length q)) (default [] answer)).
Proof using PL.
intros e k s1 s2 Hs He Er Hes1 Hk Ek Hes2 Hc Hcl E2.
destruct (submit_carries s a p g q data now out h Hs He Er) as [Hp|(a1 & m & Hs1 & Ha1)].
{ left. apply step_poisoned, steps_poisoned, step_poisoned. by apply steps_poisoned. }
destruct (then_step_keep (carries h (submitted_as p g now q data m)) es1 (step s e).2 a1 k) as [Hp|(b1 & b2 & Hb1 & Hb2 & Hkeep & Hans)]; try done.
{ intros e' b ts b' ts'. apply carries_act, waiting_stable. }
{ left. apply step_poisoned. by apply steps_poisoned. }
fold s1 in Hb2, Hans. unfold k in Hans at 1. cbn [answer_ok] in Hans. rewrite Ek in Hans. destruct Hans as [_ (i & v & Hv & _ & Hst)].
destruct (carries_served _ _ _ _ _ (inv_base _ _ (sh_inv _ _ Hb1)) Hkeep Hv) as [Ev _].
pose proof Ev as (F1 & F2 & F3 & F4 & F5 & F6 & F7)%request_fields.
set (P := answered (request_of v) rc (expected_length q) (take (Z.to_nat (expected_length q)) (default [] answer))).
set (Q := λ b, spent h b ∨ carries h P b).
assert (Q b2) as HQ.
{ destruct Hst as [[_ Hsp]|(Hcv & Hw & Hd)]; [by left|right]. destruct (closed_fields v) as (Ec & _).
  apply (serves_carries _ _ _ i (completion rc v) (inv_base _ _ (sh_inv _ _ Hb2))).
  - destruct Hv as (_ & _ & ->). split; [done|]. split; [done|]. unfold handle_of. change (generation (completion rc v)) with (generation (closed v)).
    by pose proof (f_equal (λ l, nth 0 l 0) Ec) as [= ->].
  - split; [exact Ec|]. split; [done|]. split; [done|]. intros Hrc Hop. rewrite <- F6. apply Hd; [done|].
    by rewrite <- (f_equal (λ l, nth 1 l 0) Ec : operation (closed v) = operation v). }
destruct (then_step_keep Q es2 s1.2 b2 (Invoke c)) as [Hp|(c1 & c2 & Hc1 & Hc2 & HQ1 & Hans)]; try done.
{ intros e' b ts b' ts' Hi Ha [Hsp|Hcr]; [left; by eapply spent_act|right]. eapply carries_act; [apply answered_stable|done|done|done]. }
{ by left. }
right. fold s2 in Hans. cbn [answer_ok] in Hans. rewrite E2 in Hans. destruct Hans as [Hnamed Hans]. pose proof (inv_base _ _ (sh_inv _ _ Hc1)) as Hb.
assert (named c = Some h) as Hn by by destruct Hcl as (? & ? & [(? & ? & ->)|(? & ? & ->)]).
destruct HQ1 as [Hsp|Hcr]; [destruct (Hnamed h Hn) as (j & w & Hw); by destruct (spent_unserved _ _ _ _ Hb Hsp Hw)|].
destruct Hcl as (p' & g' & [(out' & data_out & ->)|(now' & out' & ->)]); unfold reply_says in Hans.
- destruct Hans as (j & w & Hw & _ & _ & -> & _ & ->). destruct (carries_served _ _ _ _ _ Hb Hcr Hw) as (Erw & _ & Erc & Hd).
  assert (operation w = operation v ∧ length_ w = length_ v) as [Eo El] by by pose proof (f_equal (λ l, nth 1 l 0) Erw); pose proof (f_equal (λ l, nth 6 l 0) Erw).
  split; [done|]. intros Hrc Hop. rewrite Eo, F1 in Hd. rewrite Erc, Hrc, Eo, F1, Hop. cbn [Z.eqb andb]. unfold held. rewrite El, F6. by apply Hd.
- destruct Hans as (j & w & Hw & _ & _ & -> & Hdata). destruct (carries_served _ _ _ _ _ Hb Hcr Hw) as (Erw & _ & Erc & Hd).
  assert (operation w = operation v ∧ length_ w = length_ v) as [Eo El] by by pose proof (f_equal (λ l, nth 1 l 0) Erw); pose proof (f_equal (λ l, nth 6 l 0) Erw).
  split; [done|]. intros Hrc Hop. rewrite Eo, F1 in Hd. rewrite Hdata by congruence. unfold held. rewrite El, F6. by apply Hd.
Qed.

(** C23: A bulk transfer delivers what was published: once a publisher of a
  request has finished, every reader of that request, after any events, that
  finishes with bytes has exactly the published ones. *)
Theorem storage_bulk_delivers (s : system O) a n t es m t' bytes :
let s1 := (steps (step s (Finish n)).2 es).2 in
system_holds s a → sys_tickets s !! n = Some t → is_publisher (t_call t) = true → (step s (Finish n)).1 = Some (inr RNone) →
Forall event_ok es → sys_tickets s1 !! m = Some t' → t_handle t' = t_handle t → bulk_bytes (step s1 (Finish m)).1 = Some bytes →
poisoned (sys_pool (step s1 (Finish m)).2) ∨ bytes = take (Z.to_nat (t_length t)) (t_data t).
Proof using PL.
intros s1 Hs Ht Hp Er Hes Ht' Hh Eb. destruct (step_refines s a (Finish n) Hs I) as [H|(a1 & Hs1 & _ & Hans)].
{ left. apply step_poisoned. by apply steps_poisoned. }
cbn [answer_ok] in Hans. rewrite Er in Hans. destruct Hans as (u & Hu & Hsays). rewrite Ht in Hu. injection Hu as <-.
assert (published (t_handle t) (t_length t) (take (Z.to_nat (t_length t)) (t_data t)) a1) as Hpub.
{ assert (∃ b, bulk_slots (a_mem a1) !! t_index t = Some b ∧ b_state b = STORAGE_BULK_PUBLISHED ∧ request_handle b = t_handle t ∧
    b_length b = t_length t ∧ take (Z.to_nat (t_length t)) (b_bytes b) = take (Z.to_nat (t_length t)) (t_data t)) as (b & Hb & Hst & Hhb & Hl & Hd)
    by (unfold finish_says in Hsays; by destruct (t_call t)).
  pose proof (inv_bulk _ _ (sh_inv _ _ Hs1)) as Hk. assert (b_state b ≠ STORAGE_BULK_FREE) as Hbf by by rewrite Hst.
  split.
  - destruct (bulk_slots_ok _ _ _ Hk _ _ Hb) as (_ & Hof & _). destruct (Hof Hbf) as (i & v & g & Hv & Em & Hg & _). exists i, v, g. by rewrite <- Hhb.
  - intros j c Hc Hcf Hch. assert (j = t_index t) as -> by (apply (bulk_distinct _ _ _ Hk _ _ c b); try done; congruence). simplify_eq.
    right. split; [by left|]. by split. }
destruct (then_step_keep (published (t_handle t) (t_length t) (take (Z.to_nat (t_length t)) (t_data t))) es (step s (Finish n)).2 a1 (Finish m))
  as [H|(b1 & b2 & Hb1 & Hb2 & [_ Hk] & Hans)]; try done.
{ intros e' b ts b' ts'. apply published_act. }
{ by left. }
right. unfold then_step in Hans. fold s1 in Hans. cbn [answer_ok] in Hans. unfold bulk_bytes in Eb.
destruct (step s1 (Finish m)).1 as [[|r]|]; try done. destruct Hans as (u & Hu & Hr). fold s1 in Hu. rewrite Ht' in Hu. injection Hu as <-.
assert (∃ b, bulk_slots (a_mem b1) !! t_index t' = Some b ∧ b_state b = STORAGE_BULK_READING ∧ request_handle b = t_handle t' ∧
  bytes = take (Z.to_nat (b_length b)) (b_bytes b)) as (b & Hb & Hst & Hhb & ->).
{ unfold finish_says in Hr. destruct (t_call t'), r; try done; injection Eb as <-.
  - destruct Hr as (b & ? & ? & ? & ?). by exists b.
  - destruct Hr as (b & ? & ? & ? & ? & _). by exists b. }
destruct (Hk _ b Hb) as [Hr'|(_ & -> & ->)]; [by rewrite Hst|congruence|by rewrite Hst in Hr'|done].
Qed.

(** ** Authority *)
(** Nothing can be written to resource [r]. *)
Definition barred (s : system O) (r : Z) : Prop :=
poisoned (sys_pool s) ∨ ∃ a, system_holds s a ∧ Z.testbit (a_mask a) r = true.

Lemma pool_run_bind {X Y} (p : prog X) (f : X → prog Y) : ∀ g : pool O,
run (bind p f) g = match (run p g).1 with inl e => (inl e, (run p g).2) | inr x => run (f x) (run p g).2 end.
Proof using.
induction p as [x|e|k IH|m k IH|k IH|i k IH|i q k IH|k IH|q k IH|k IH|q k IH]; intros g; cbn [bind run]; try done.
- destruct (slot_stores g !! i) as [store|]; [|done]. by destruct (read_in _ _ _).
- destruct (slot_stores g !! i) as [store|]; [|done]. by destruct (write_in _ _ _).
- by destruct (read_in _ _ _).
- by destruct (write_in _ _ _).
- destruct (set_ _); [done|]. by destruct (read_in _ _ _).
- destruct (_ || _); [done|]. by destruct (write_in _ _ _).
Qed.

Lemma not_fenced_refuses (g : pool O) r :
0 <= r → poisoned g ∨ (mutation_poisoned g = 0 ∧ ∃ a, pool_holds g a ∧ base_ok a ∧ Z.testbit (a_mask a) r = true) →
∃ error, (run (not_fenced r) g).1 = inl error.
Proof using PL.
intros Hr [Hp|(Hz & a & Hg & Hb & Ht)].
- exists STORAGE_EINTEGRITY. unfold not_fenced, fences, mutation_fences_read. cbn [bind run]. unfold set_ at 1.
  by rewrite (proj2 (Z.eqb_neq _ _) Hp).
- exists resource_fenced. destruct pool_record_sizes as (_ & _ & Sf). unfold not_fenced, fences, mutation_fences_read. cbn [bind run get].
  rewrite Hz. cbn [set_ Z.eqb negb bind run]. rewrite (holds_statics _ _ Hg), (base_fences _ Hb). cbn [negb bind run].
  rewrite (store_unlocked _ _ _ (holds_fences _ _ Hg)). cbn [set_ Z.eqb negb].
  destruct (read_in_spec fences_ok (Fences 0) _ _ Sf (holds_fences _ _ Hg)) as (store' & -> & _).
  cbn [fmap option_fmap option_map fence_mask bind run fst snd set_ Z.eqb negb]. rewrite resource_bit_test, Ht by done. done.
Qed.

Lemma claimed_keeps (s : system O) r p g h now x :
is_u32 h → barred s r → (run (mutation_claimed_locked p g h now) (sys_pool s)).1 = inr x →
let g' := (run (mutation_claimed_locked p g h now) (sys_pool s)).2 in
poisoned g' ∨ (mutation_poisoned g' = 0 ∧ ∃ a, pool_holds g' a ∧ base_ok a ∧ Z.testbit (a_mask a) r = true).
Proof using PL.
intros Hh [Hp|(a & [Hz Hg Hi] & Ht)] _; [left; by apply run_poisoned|].
destruct (pool_run_wp (mutation_claimed_locked p g h now) (sys_pool s) a (λ _ a', a' = a) Hz Hg) as [H|(Hz' & a' & Hg' & ->)].
- apply wp_unbind_ret. by apply (wp_claimed a (sys_tickets s)).
- by left.
- right. split; [done|]. exists a. split_and!; [done|apply (inv_base _ _ Hi)|done].
Qed.

Lemma guarded_refuses (s : system O) r p g h now {X} (F : nat * storage_slot_metadata_t → prog X) :
is_u32 h → 0 <= r → barred s r → (∀ sv, ∃ f, F sv = bind (not_fenced r) f) →
∃ error, (run (bind (mutation_claimed_locked p g h now) F) (sys_pool s)).1 = inl error.
Proof using PL.
intros Hh Hr Hb HF. rewrite pool_run_bind. destruct (run (mutation_claimed_locked p g h now) (sys_pool s)).1 as [error|x] eqn:E; [by exists error|].
pose proof (claimed_keeps s r p g h now x Hh Hb E) as Hk. cbv zeta in Hk. destruct (HF x) as [f ->]. rewrite pool_run_bind.
destruct (not_fenced_refuses _ r Hr Hk) as [error ->]. by exists error.
Qed.

(** C26: The pool fails closed: while a resource is fenced, or when the pool is
  poisoned, whatever the state of its stores, no call gives a service authority over
  that resource; the fence lasts until a recovery of the resource clears it. *)
Theorem storage_pool_fails_closed (s : system O) r es c :
barred s r → Forall (λ e, event_ok e ∧ ¬ clears e r) es → authorises c r → call_ok c →
∃ error, (then_step s es (Invoke c)).1 = Some (inl error).
Proof using PL.
intros Hb Hes Hc Hok. unfold then_step.
assert ((32 <=? r) = true ∨ (0 <= r < 32 ∧ barred (steps s es).2 r)) as Hr.
{ assert (is_u32 r) as Hu by by (destruct Hc as (? & ? & ? & ? & [->|[->| ->]]); destruct Hok as (_ & _ & ?)).
  destruct (Z.leb_spec 32 r) as [|Hlt]; [by left|right]. assert (0 <= r < 32) as Hr by (unfold_words; lia). split; [done|].
  destruct Hb as [Hp|(a & Hs & Ht)]; [left; by apply steps_poisoned|].
  destruct (steps_keep (λ a, Z.testbit (a_mask a) r = true) (λ e, event_ok e ∧ ¬ clears e r) es s a) as [H|H]; try done; [by intros ? []| |by left|by right].
  intros e b ts b' ts' [_ Hno] _ Hact. by apply (act_mask _ _ _ _ _ _ Hact). }
cbn [step]. destruct Hc as (p & g & h & now & Hc).
assert (∃ error, (run (call_prog c) (sys_pool (steps s es).2)).1 = inl error) as [error E].
{ destruct Hc as [->|[->| ->]]; cbn [call_prog call_ok] in *; destruct Hok as (_ & Hh & _);
    unfold storage_request_mutation_bind, storage_request_mutation_effect, storage_request_mutation_authorized, mutation_io;
    rewrite pool_run_bind; (destruct Hr as [->|[Hr Hbar]]; [by eexists|]); rewrite (proj2 (Z.leb_gt 32 r)) by lia;
    (match goal with |- context [run (bind (mutation_claimed_locked ?p ?g ?h ?n) ?F) _] =>
       destruct (guarded_refuses (steps s es).2 r p g h n F) as [error ->]; [done|lia|done| |by exists error] end);
    intros [slot v]; by eexists. }
destruct (run _ _) as [x g']. cbn in E. subst x. by exists error.
Qed.
End props.

(** ** Witnesses *)
Definition empty_mem : mem := Mem (replicate 8 zero_data) (replicate 8 zero_data) [] false (Stats 0 0 0 0 0 0).
Definition empty_pool {O} (store : O) : pool O := Pool (replicate 8 store) store store 0 empty_mem.
Definition blank_store : CriticalObject.critical_object_t :=
  CriticalObject.Object 0 (CriticalObject.Copy (replicate 16 0) (replicate 16 0) 0) (CriticalObject.Copy (replicate 16 0) (replicate 16 0) 0).

Lemma empty_shape {O} (store : O) : pool_shape (empty_pool store).
Proof. by split. Qed.

(** A pool of registers after initialisation and some events. *)
Definition sample (es : list event) : system register_t :=
  (steps (System (storage_request_pool_init (empty_pool register_empty)).2 []) es).2.

Lemma pool_sample_holds es : Forall event_ok es → mutation_poisoned (sys_pool (sample es)) = 0 → ∃ a, system_holds (sample es) a.
Proof.
  intros Hes Hz. destruct (pool_init_holds (empty_pool register_empty) (empty_shape _)) as [_ Hs].
  destruct (steps_refines es _ _ Hs Hes) as [Hp|(a & Ha & _)]; [by destruct Hp|by exists a].
Qed.

Ltac call_args :=
  unfold event_ok, call_ok, identity_pair, submit_fields_ok; unfold_words; change (s32 5) with 5; split_and?;
  try done; try lia; intros ? [= <-]; cbn; try lia; by rewrite length_replicate.
Ltac event_list := repeat (apply list.Forall_cons; split); [call_args..|apply list.Forall_nil_2].

Definition sample_request (operation offset length timeout : Z) : storage_request_submit_t := Submit 1 28 operation 0 offset length timeout.
Definition sample_block : list Z := replicate 512 7.

(** A mutation of client 9 that service 5 has bound to resource 3. *)
Definition mutation_events : list event :=
  [Invoke (CBind 5 1); Invoke (CSubmit 9 2 (Some (sample_request 35 0 512 1000)) (Some sample_block) 10 true); Invoke (CClaim_v3 5 1 20 true);
   Invoke (CMutationBind 5 1 257 3 30)].

Lemma mutation_events_ok : Forall event_ok mutation_events.
Proof. unfold mutation_events. event_list. Qed.

Lemma storage_pool_refines_protocol_witness :
  (storage_request_pool_init (empty_pool blank_store)).1 = 0 ∧
  let '(answers, s) := steps (System (storage_request_pool_init (empty_pool blank_store)).2 []) mutation_events in
  poisoned (sys_pool s) ∨ ∃ a, pool_holds (sys_pool s) a ∧ inv a (sys_tickets s) ∧ runs mutation_events answers (first_state, []) (a, sys_tickets s).
Proof.
  pose proof (storage_pool_refines_protocol (empty_pool blank_store) mutation_events (empty_shape _) mutation_events_ok) as H. apply H.
Defined.

(** The service goes on to write and exits; the client gives up. *)
Lemma storage_effect_accounted_witness :
  let s := (step (sample mutation_events) (Invoke (CMutationEffect 5 1 257 3 40))).2 in
  let s' := (steps s [Invoke (CCancel 9 2 257); Invoke (CUnbind 5 1)]).2 in
  poisoned (sys_pool s') ∨ ∃ a', system_holds s' a' ∧ accounted 257 3 a'.
Proof.
  destruct (pool_sample_holds mutation_events mutation_events_ok) as [a Ha]; [by vm_compute|].
  unshelve epose proof (storage_effect_accounted (sample mutation_events) a 5 1 257 3 40 [Invoke (CCancel 9 2 257); Invoke (CUnbind 5 1)]
    Ha _ _ _) as H; [..|apply H].
  - call_args.
  - by vm_compute.
  - repeat (apply list.Forall_cons; split; [split; [call_args|split; [by intros (? & ? & [=])|by intros (? & ? & ? & [=])]]|]). apply list.Forall_nil_2.
Defined.

(** A synchronisation, up to its completion. *)
Definition sync_events : list event :=
  [Invoke (CBind 5 1); Invoke (CSubmit 9 2 (Some (sample_request 6 0 0 1000)) None 10 true); Invoke (CClaim 5 1 20 true);
   Invoke (CComplete 5 1 257 0 None)].
Lemma sync_events_ok : Forall event_ok sync_events.
Proof. unfold sync_events. event_list. Qed.

Lemma storage_handle_spent_witness :
  let s := (step (sample sync_events) (Invoke (CCollect 9 2 257 true true))).2 in
  let '(answer, s') := then_step s [Invoke (CSubmit 9 2 (Some (sample_request 6 0 0 1000)) None 30 true)] (Invoke (CCancel 9 2 257)) in
  poisoned (sys_pool s') ∨ ∃ error, answer = Some (inl error).
Proof.
  destruct (pool_sample_holds sync_events sync_events_ok) as [a Ha]; [by vm_compute|].
  unshelve epose proof (storage_handle_spent (sample sync_events) a (Invoke (CCollect 9 2 257 true true)) 257
    [Invoke (CSubmit 9 2 (Some (sample_request 6 0 0 1000)) None 30 true)] (CCancel 9 2 257) Ha _ _ _ _ _) as H; [..|apply H].
  - call_args.
  - by vm_compute.
  - event_list.
  - call_args.
  - done.
Defined.

(** A write of one block. *)
Definition write_submit : call := CSubmit 9 2 (Some (sample_request 5 64 512 1000)) (Some sample_block) 10 true.
Lemma storage_claim_delivers_witness :
  let s := (step (sample [Invoke (CBind 5 1)]) (Invoke write_submit)).2 in
  let d := Descriptor_v3 257 5 0 64 512 9 2 1 1010 in
  poisoned (sys_pool (then_step s [Invoke (CStats true)] (Invoke (CClaim_v3 5 1 20 true))).2) ∨
  describes d 9 2 10 (sample_request 5 64 512 1000) ∧ sample_block = take 512 sample_block.
Proof.
  assert (Forall event_ok [Invoke (CBind 5 1)]) as Hok by event_list.
  destruct (pool_sample_holds [Invoke (CBind 5 1)] Hok) as [a Ha]; [by vm_compute|].
  unshelve epose proof (storage_claim_delivers (sample [Invoke (CBind 5 1)]) a 9 2 (sample_request 5 64 512 1000) (Some sample_block) 10 true 257
    [Invoke (CStats true)] (CClaim_v3 5 1 20 true) (Descriptor_v3 257 5 0 64 512 9 2 1 1010) sample_block Ha _ _ _ _ _ _ _) as H; [..|apply H].
  - call_args.
  - by vm_compute.
  - event_list.
  - exists 5, 1, 20, true. by right; right.
  - call_args.
  - by vm_compute.
  - done.
Defined.

(** A read of one block. *)
Lemma storage_collect_returns_witness :
  let s := (step (sample [Invoke (CBind 5 1)]) (Invoke (CSubmit 9 2 (Some (sample_request 4 64 512 1000)) None 10 true))).2 in
  let s1 := then_step s [Invoke (CClaim 5 1 20 true)] (Invoke (CComplete 5 1 257 0 (Some sample_block))) in
  let s2 := then_step s1.2 [Invoke (CUnbind 6 1)] (Invoke (CCollect 9 2 257 true true)) in
  poisoned (sys_pool s2.2) ∨ 0 = 0 ∧ (0 = 0 → operation_has_output 4 = true → sample_block = take 512 sample_block).
Proof.
  assert (Forall event_ok [Invoke (CBind 5 1)]) as Hok by event_list.
  destruct (pool_sample_holds [Invoke (CBind 5 1)] Hok) as [a Ha]; [by vm_compute|].
  unshelve epose proof (storage_collect_returns (sample [Invoke (CBind 5 1)]) a 9 2 (sample_request 4 64 512 1000) None 10 true 257 [Invoke (CClaim 5 1 20 true)]
    5 1 0 (Some sample_block) [Invoke (CUnbind 6 1)] (CCollect 9 2 257 true true) 0 sample_block 512 Ha _ _ _ _ _ _ _ _ _) as H; [..|apply H].
  - call_args.
  - by vm_compute.
  - event_list.
  - call_args.
  - by vm_compute.
  - event_list.
  - call_args.
  - exists 9, 2. left. by exists true, true.
  - by vm_compute.
Defined.

(** A bulk read whose service publishes four bytes. *)
Definition publish_events : list event :=
  [Invoke (CBind 5 1); Invoke (CSubmit 9 2 (Some (sample_request 32 0 512 1000)) (Some sample_block) 10 true); Invoke (CClaim 5 1 20 true);
   Invoke (CBulkPublish 5 1 257 (Some [1; 2; 3; 4]) 4); Copy 0].
Definition collect_events : list event :=
  [Invoke (CComplete 5 1 257 0 (Some sample_block)); Invoke (CBulkCollect 9 2 257 100 true true); Copy 0].
Definition no_ticket : ticket := Ticket BulkPublish 0 0 0 0 [] false.
Definition publisher : ticket := default no_ticket (sys_tickets (sample publish_events) !! 0%nat).
Definition collecting : system register_t := (steps (step (sample publish_events) (Finish 0)).2 collect_events).2.
Definition collector : ticket := default no_ticket (sys_tickets collecting !! 0%nat).

Lemma publish_events_ok : Forall event_ok publish_events.
Proof. unfold publish_events. event_list. Qed.

Lemma storage_bulk_delivers_witness :
  poisoned (sys_pool (step collecting (Finish 0)).2) ∨ [1; 2; 3; 4] = take (Z.to_nat (t_length publisher)) (t_data publisher).
Proof.
  destruct (pool_sample_holds publish_events publish_events_ok) as [a Ha]; [by vm_compute|].
  unshelve epose proof (storage_bulk_delivers (sample publish_events) a 0 publisher collect_events 0 collector [1; 2; 3; 4] Ha _ _ _ _ _ _ _) as H; [..|apply H].
  - by vm_compute.
  - by vm_compute.
  - by vm_compute.
  - unfold collect_events. event_list.
  - by vm_compute.
  - by vm_compute.
  - by vm_compute.
Defined.

(** Resource 3 is fenced by the recovery. *)
Definition fence_events : list event := [Invoke (CBind 5 1); Invoke (CRecoveryRefence 3)].
Lemma fence_events_ok : Forall event_ok fence_events.
Proof. unfold fence_events. event_list. Qed.

Lemma fence_barred : barred (sample fence_events) 3.
Proof.
  right. destruct (pool_sample_holds fence_events fence_events_ok) as [a Ha]; [by vm_compute|]. exists a. split; [done|].
  destruct (holds_fences _ _ (sh_pool _ _ Ha)) as [n Hn]. destruct version_ok.
  assert (record_holds STORAGE_POOL_METADATA_VERSION fences_ok (fences_store (sys_pool (sample fence_events))) 2 (Fences 8)) as H8.
  { split; [by vm_compute|]. split; [apply fences_typed; cbn; unfold_words; lia|done]. }
  pose proof (record_holds_functional STORAGE_POOL_METADATA_VERSION fences_ok STORAGE_EINTEGRITY ltac:(done) ltac:(done)
    ltac:(apply pool_record_sizes) _ _ _ _ _ Hn H8) as [= ->]. done.
Qed.

Lemma storage_pool_fails_closed_witness :
  ∃ error, (then_step (sample fence_events) [Invoke (CStats true); Invoke (CRecoveryClear 5 1 2)] (Invoke (CMutationBind 5 1 257 3 50))).1 =
    Some (inl error).
Proof.
  apply (storage_pool_fails_closed (sample fence_events) 3).
  - exact fence_barred.
  - repeat (apply list.Forall_cons; split; [split; [call_args|by intros (? & ? & [=])]|]). apply list.Forall_nil_2.
  - exists 5, 1, 257, 50. by left.
  - call_args.
Defined.
