(* ===== verification/SectorIo.v ===== *)
(** Sector callbacks and the devices behind them.

    The safety structures of the FAT12 volume (src/fs/fat12/fat12_journal.c,
    fat12_remap.c, fat12_replica.c) take a read and a write callback with a
    context, here a state [W].  [write_verified] is the helper that each of
    the files has for itself.  [SectorDevice] states what their theorems need:
    a write that fails, or that claims to succeed, leaves the old sector, the
    new one or a damaged one; a failed read ends the session of the device.
    [Floppy] implements it: a drive whose power fails after a number
    of writes, the last of which may be torn. *)
From S2P Require Import Prelude AtaDisk.

Definition FAT12_SECTOR_SIZE : nat := 512.

(** [memcpy] of a struct into a cleared sector. *)
Definition sector_of (bytes : list Z) : list Z :=
  bytes ++ repeat 0 (FAT12_SECTOR_SIZE - length bytes).

Definition is_sector (data : list Z) : Prop :=
  length data = FAT12_SECTOR_SIZE ∧ Forall is_u8 data.

(** The operands of a C [&&] that perform I/O. *)
Definition and_io {W} (a b : W → bool * W) (w : W) : bool * W :=
  let '(ok, w) := a w in if ok then b w else (false, w).

Declare Scope io_scope.
Delimit Scope io_scope with io.
Notation "a 'AND' b" := (and_io a b) (at level 58, right associativity) : io_scope.

Section callbacks.
Context {W : Type} (read : W → Z → bool * list Z * W) (write : W → Z → list Z → bool * W).

(** Reads a sector and compares all of it. *)
Definition read_equal (sector : Z) (data : list Z) (w : W) : bool * W :=
let '(ok, verify, w) := read w sector in (ok && bool_decide (data = verify), w).

Definition write_verified (sector : Z) (data : list Z) : W → bool * W :=
((λ w, write w sector data) AND read_equal sector data)%io.
End callbacks.

(** [medium]: what the sectors hold.  [off]: the device no longer answers.
    [healthy]: it does what it is told. *)
Class SectorDevice (W : Type) := {
  medium : W → image;
  off : W → Prop;
  healthy : W → Prop
}.

Class SectorLaws {W : Type} `{!SectorDevice W} (read : W → Z → bool * list Z * W)
  (write : W → Z → list Z → bool * W) (capacity : Z) (damaged : list Z → Prop) := {
  medium_sector w l : is_sector (medium w l);
  read_medium w s l : medium (read w s).2 l = medium w l;
  read_ok w s : (read w s).1.1 = true → (read w s).1.2 = medium w s;
  read_failed w s : (read w s).1.1 = false → off (read w s).2;
  read_healthy w s :
    healthy w → 0 <= s < capacity → (read w s).1.1 = true ∧ healthy (read w s).2;
  off_read w s : off w → (read w s).1.1 = false;
  off_write w s data l :
    off w → off (write w s data).2 ∧ medium (write w s data).2 l = medium w l;
  write_other w s data l : l ≠ s → medium (write w s data).2 l = medium w l;
  write_sector w s data :
    is_sector data →
    let found := medium (write w s data).2 s in
    found = medium w s ∨ found = data ∨ damaged found;
  write_healthy w s data :
    healthy w → 0 <= s < capacity → is_sector data →
    (write w s data).1 = true ∧ healthy (write w s data).2 ∧ medium (write w s data).2 s = data
}.

(** Waiting for a lock does nothing to the device, and succeeds if all is well. *)
Class LockLaws {W : Type} `{!SectorDevice W} (lock : W → bool * W) := {
  lock_medium w l : medium (lock w).2 l = medium w l;
  lock_healthy w : healthy w → (lock w).1 = true ∧ healthy (lock w).2
}.

(** ** A drive whose power fails

    A track holds whatever was written to it; the drive delivers sectors. *)
Record floppy := Floppy {
  f_track : image;
  f_supply : option nat;   (** writes until the power fails; [None]: mains *)
  f_tear : bool            (** whether the last of them is torn *)
}.

Definition fit (data : list Z) : list Z :=
  map u8 (take FAT12_SECTOR_SIZE data) ++ repeat 0 (FAT12_SECTOR_SIZE - length data).

Definition torn_sector (data : list Z) : list Z := repeat 0 256 ++ drop 256 data.
Definition torn_bytes (data : list Z) : Prop := take 4 data = [0; 0; 0; 0].

Definition floppy_read (w : floppy) (s : Z) : bool * list Z * floppy :=
  match f_supply w with
  | Some O => (false, [], w)
  | _ => (true, fit (f_track w s), w)
  end.

Definition floppy_write (w : floppy) (s : Z) (data : list Z) : bool * floppy :=
  match f_supply w with
  | None => (true, Floppy (upd (f_track w) s data) None (f_tear w))
  | Some O => (false, w)
  | Some (S n) =>
    let torn := f_tear w && (n =? 0)%nat in
    (true, Floppy (upd (f_track w) s (if torn then torn_sector data else data)) (Some n) (f_tear w))
  end.

Fixpoint floppy_read_range (w : floppy) (s : Z) (count : nat) : bool * list (list Z) * floppy :=
  match count with
  | O => (true, [], w)
  | S count =>
    let '(ok, data, w) := floppy_read w s in
    if negb ok then (false, [], w)
    else
      let '(ok, rest, w) := floppy_read_range w (s + 1) count in (ok, data :: rest, w)
  end.

Definition floppy_lock (w : floppy) : bool * floppy := (true, w).

Lemma fit_sector data : is_sector (fit data).
Proof.
  unfold fit. split.
  - rewrite length_app, length_map, length_take, repeat_length. lia.
  - apply list.Forall_app. split.
    + apply list.Forall_forall. intros x Hx. apply list_elem_of_In, in_map_iff in Hx as (y & <- & _). apply u8_range.
    + apply list.Forall_forall. intros x Hx. apply list_elem_of_In, repeat_spec in Hx as ->. ulia.
Qed.

Lemma fit_id data : is_sector data → fit data = data.
Proof.
  intros [Hl Hb]. unfold fit. rewrite Hl, Nat.sub_diag, app_nil_r, take_ge by lia.
  rewrite <- (List.map_id data) at 2. apply map_ext_in. intros x Hx.
  apply u8_small. rewrite list.Forall_forall in Hb. by apply Hb, list_elem_of_In.
Qed.

#[export] Instance floppy_device : SectorDevice floppy := {
  medium w l := fit (f_track w l);
  off w := f_supply w = Some O;
  healthy w := f_supply w = None
}.

Lemma torn_fit data : torn_bytes (fit (torn_sector data)).
Proof. reflexivity. Qed.

#[export] Instance floppy_laws capacity :
  SectorLaws floppy_read floppy_write capacity torn_bytes.
Proof.
  split; unfold floppy_read, floppy_write; intros [img [[|n]|] tear] s *; cbn -[fit]; try done;
    try apply fit_sector; intros.
  - unfold upd. by rewrite (proj2 (Z.eqb_neq l s)).
  - unfold upd. by rewrite (proj2 (Z.eqb_neq l s)).
  - by left.
  - unfold upd. rewrite Z.eqb_refl. destruct (tear && _); [right; right; apply torn_fit|]. rewrite fit_id; auto.
  - unfold upd. rewrite Z.eqb_refl, fit_id; auto.
  - unfold upd. by rewrite Z.eqb_refl, fit_id.
Qed.

#[export] Instance floppy_lock_laws : LockLaws floppy_lock.
Proof. by split. Qed.
