(* ===== verification/Fat12Journal.v ===== *)
(** FAT12 undo journal: src/fs/fat12/fat12_journal.c and fat12_journal.h.

    [Module Fat12Journal] holds every function of the C file over the two
    callbacks of the caller, whose context is a state [W].  The packed structs
    are records with a [Layout].  Pointers are references and never NULL.  The
    scratch buffers are local values, because every use of one starts with a
    write to it; their owner flag is kept. *)
From S2P Require Import Prelude Crc32 Layout SectorIo.

Module Fat12Journal.

Definition FAT12_JOURNAL_MAGIC : Z := 0x524A3132.
Definition FAT12_JOURNAL_VERSION : Z := 2.
Definition FAT12_JOURNAL_MAX_ENTRIES : nat := 64.
Definition FAT12_JOURNAL_CLEAN : Z := 0.
Definition FAT12_JOURNAL_ACTIVE : Z := 1.

Record fat12_journal_header_t := Header {
  h_magic : Z;
  h_version : Z;
  h_header_size : Z;
  h_media_fingerprint : Z;
  h_sequence : Z;
  h_state : Z;
  h_entry_count : Z;
  h_crc32 : Z
}.

Record fat12_journal_entry_t := Entry {
  e_target_sector : Z;
  e_data_crc32 : Z;
  e_sequence : Z;
  e_metadata_crc32 : Z
}.

#[export] Instance header_layout : Layout fat12_journal_header_t := {
  layout_widths := [4; 2; 2; 4; 8; 4; 4; 4]%nat;
  layout_values h := [h_magic h; h_version h; h_header_size h; h_media_fingerprint h;
    h_sequence h; h_state h; h_entry_count h; h_crc32 h];
  layout_record v := let f i := nth i v 0 in
    Header (f 0%nat) (f 1%nat) (f 2%nat) (f 3%nat) (f 4%nat) (f 5%nat) (f 6%nat) (f 7%nat)
}.

#[export] Instance header_laws : LayoutLaws fat12_journal_header_t.
Proof.
  split; [done|by intros []|]. intros values Hl.
  do 8 (destruct values as [|? values]; [done|]). by destruct values.
Qed.

#[export] Instance entry_layout : Layout fat12_journal_entry_t := {
  layout_widths := [4; 4; 8; 4]%nat;
  layout_values e := [e_target_sector e; e_data_crc32 e; e_sequence e; e_metadata_crc32 e];
  layout_record v := let f i := nth i v 0 in
    Entry (f 0%nat) (f 1%nat) (f 2%nat) (f 3%nat)
}.

#[export] Instance entry_laws : LayoutLaws fat12_journal_entry_t.
Proof.
  split; [done|by intros []|]. intros values Hl.
  do 4 (destruct values as [|? values]; [done|]). by destruct values.
Qed.

Record fat12_journal_t := Journal {
  primary_header_sector : Z;
  mirror_header_sector : Z;
  data_start_sector : Z;
  media_fingerprint : Z;
  header : fat12_journal_header_t;
  entries : list fat12_journal_entry_t;
  scratch_in_use : bool
}.

Definition set_header (j : fat12_journal_t) (h : fat12_journal_header_t) : fat12_journal_t :=
  Journal (primary_header_sector j) (mirror_header_sector j) (data_start_sector j)
    (media_fingerprint j) h (entries j) (scratch_in_use j).
Definition set_entries (j : fat12_journal_t) (es : list fat12_journal_entry_t) : fat12_journal_t :=
  Journal (primary_header_sector j) (mirror_header_sector j) (data_start_sector j)
    (media_fingerprint j) (header j) es (scratch_in_use j).
Definition set_in_use (j : fat12_journal_t) (b : bool) : fat12_journal_t :=
  Journal (primary_header_sector j) (mirror_header_sector j) (data_start_sector j)
    (media_fingerprint j) (header j) (entries j) b.

(** The compare-and-exchange of the owner flag. *)
Definition fat12_journal_scratch_begin (j : fat12_journal_t) : bool * fat12_journal_t :=
  if scratch_in_use j then (false, j) else (true, set_in_use j true).

Definition fat12_journal_scratch_end (j : fat12_journal_t) : fat12_journal_t :=
  set_in_use j false.

Definition fat12_journal_crc32 (data : list Z) : Z := crc32 data.

Definition clear_crc (h : fat12_journal_header_t) : fat12_journal_header_t :=
  Header (h_magic h) (h_version h) (h_header_size h) (h_media_fingerprint h) (h_sequence h)
    (h_state h) (h_entry_count h) 0.

Definition header_valid (h : fat12_journal_header_t) (fingerprint : Z) : bool :=
  (h_magic h =? FAT12_JOURNAL_MAGIC) && (h_version h =? FAT12_JOURNAL_VERSION) &&
  (h_header_size h =? Z.of_nat (sizeof fat12_journal_header_t)) &&
  (h_media_fingerprint h =? fingerprint) && (h_state h <=? FAT12_JOURNAL_ACTIVE) &&
  (h_entry_count h <=? Z.of_nat FAT12_JOURNAL_MAX_ENTRIES) &&
  (h_crc32 h =? fat12_journal_crc32 (encode (clear_crc h))).

Definition prepare_header (fingerprint sequence state entry_count : Z) : fat12_journal_header_t :=
  let h := Header FAT12_JOURNAL_MAGIC FAT12_JOURNAL_VERSION
    (Z.of_nat (sizeof fat12_journal_header_t)) fingerprint sequence state entry_count 0 in
  Header (h_magic h) (h_version h) (h_header_size h) (h_media_fingerprint h) (h_sequence h)
    (h_state h) (h_entry_count h) (fat12_journal_crc32 (encode h)).

Definition empty_entry : fat12_journal_entry_t := Entry 0 0 0 0.
Definition no_entries : list fat12_journal_entry_t := repeat empty_entry FAT12_JOURNAL_MAX_ENTRIES.

(** A new journal, or [None] where the function returns false. *)
Definition fat12_journal_format (primary mirror data_start fingerprint : Z)
  : option fat12_journal_t :=
  let last_header := if mirror <? primary then primary else mirror in
  if (fingerprint =? 0) || (primary =? mirror) || (data_start <=? last_header) ||
     (UINT32_MAX - (Z.of_nat FAT12_JOURNAL_MAX_ENTRIES * 2 - 1) <? data_start)
  then None
  else Some (Journal primary mirror data_start fingerprint
    (prepare_header fingerprint 1 FAT12_JOURNAL_CLEAN 0) no_entries false).

(** Sectors of the entry [index]. *)
Definition data_sector (j : fat12_journal_t) (index : Z) : Z :=
  u32 (data_start_sector j + u32 (index * 2)).
Definition metadata_sector (j : fat12_journal_t) (index : Z) : Z :=
  u32 (data_start_sector j + u32 (index * 2) + 1).

Definition entry_clear_crc (e : fat12_journal_entry_t) : fat12_journal_entry_t :=
  Entry (e_target_sector e) (e_data_crc32 e) (e_sequence e) 0.

Definition make_entry (target_sector sequence : Z) (old_sector : list Z) : fat12_journal_entry_t :=
  let entry := Entry target_sector (fat12_journal_crc32 old_sector) sequence 0 in
  Entry (e_target_sector entry) (e_data_crc32 entry) (e_sequence entry)
    (fat12_journal_crc32 (encode entry)).

Section operations.
Context {W : Type} (read : W → Z → bool * list Z * W) (write : W → Z → list Z → bool * W).

Definition write_header (j : fat12_journal_t) : W → bool * W :=
let sector := sector_of (encode (header j)) in
(write_verified read write (primary_header_sector j) sector AND
 write_verified read write (mirror_header_sector j) sector)%io.

(** The two reads; each yields the header if it is valid. *)
Definition read_header (j : fat12_journal_t) (sector : Z) (w : W)
  : option fat12_journal_header_t * W :=
let '(ok, data, w) := read w sector in
let h := decode (take (sizeof fat12_journal_header_t) data) in
(if ok && header_valid h (media_fingerprint j) then Some h else None, w).

Definition choose_header (first second : option fat12_journal_header_t)
  : option fat12_journal_header_t :=
match first, second with
| None, None => None
| Some first, Some second =>
    if (h_sequence first =? h_sequence second) && negb (bool_decide (encode first = encode second))
    then None
    else if h_sequence second <=? h_sequence first then Some first else Some second
| Some h, None | None, Some h => Some h
end.

Definition fat12_journal_load_locked (j : fat12_journal_t) (w : W) : bool * fat12_journal_t * W :=
if media_fingerprint j =? 0 then (false, j, w)
else
  let '(first, w) := read_header j (primary_header_sector j) w in
  let '(second, w) := read_header j (mirror_header_sector j) w in
  match choose_header first second with
  | None => (false, j, w)
  | Some h => (true, set_header j h, w)
  end.

(** The frame of the public functions. *)
Definition locked (body : fat12_journal_t → W → bool * fat12_journal_t * W)
  (j : fat12_journal_t) (w : W) : bool * fat12_journal_t * W :=
let '(begun, j) := fat12_journal_scratch_begin j in
if negb begun then (false, j, w)
else
  let '(result, j, w) := body j w in
  (result, fat12_journal_scratch_end j, w).

Definition fat12_journal_load : fat12_journal_t → W → bool * fat12_journal_t * W :=
locked fat12_journal_load_locked.

Definition fat12_journal_begin_locked (sequence : Z) (j : fat12_journal_t) (w : W)
  : bool * fat12_journal_t * W :=
if (media_fingerprint j =? 0) || (h_state (header j) =? FAT12_JOURNAL_ACTIVE) ||
   (sequence <=? h_sequence (header j))
then (false, j, w)
else
  let j := set_header (set_entries j no_entries)
    (prepare_header (media_fingerprint j) sequence FAT12_JOURNAL_ACTIVE 0) in
  let '(ok, w) := write_header j w in (ok, j, w).

Definition fat12_journal_begin (j : fat12_journal_t) (sequence : Z) (w : W)
  : bool * fat12_journal_t * W :=
locked (fat12_journal_begin_locked sequence) j w.

Definition recorded (j : fat12_journal_t) (target_sector : Z) : bool :=
existsb (λ e, e_target_sector e =? target_sector)
  (take (Z.to_nat (h_entry_count (header j))) (entries j)).

Definition in_journal_area (j : fat12_journal_t) (target_sector : Z) : bool :=
let journal_end := u32 (data_start_sector j + Z.of_nat FAT12_JOURNAL_MAX_ENTRIES * 2) in
(target_sector =? primary_header_sector j) || (target_sector =? mirror_header_sector j) ||
((data_start_sector j <=? target_sector) && (target_sector <? journal_end)).

Definition fat12_journal_record_locked (target_sector : Z) (old_sector : list Z)
  (j : fat12_journal_t) (w : W) : bool * fat12_journal_t * W :=
if negb (h_state (header j) =? FAT12_JOURNAL_ACTIVE) || in_journal_area j target_sector
then (false, j, w)
else if recorded j target_sector then (true, j, w)
else if Z.of_nat FAT12_JOURNAL_MAX_ENTRIES <=? h_entry_count (header j) then (false, j, w)
else
  let index := h_entry_count (header j) in
  let entry := make_entry target_sector (h_sequence (header j)) old_sector in
  let j := set_entries j (<[Z.to_nat index := entry]> (entries j)) in
  let '(ok, w) :=
    (write_verified read write (data_sector j index) old_sector AND
     write_verified read write (metadata_sector j index) (sector_of (encode entry)))%io w in
  if negb ok then (false, j, w)
  else
    let j := set_header j (prepare_header (media_fingerprint j) (h_sequence (header j))
      FAT12_JOURNAL_ACTIVE (index + 1)) in
    let '(ok, w) := write_header j w in (ok, j, w).

Definition fat12_journal_record (j : fat12_journal_t) (target_sector : Z) (old_sector : list Z)
  (w : W) : bool * fat12_journal_t * W :=
locked (fat12_journal_record_locked target_sector old_sector) j w.

Definition fat12_journal_commit_locked (j : fat12_journal_t) (w : W)
  : bool * fat12_journal_t * W :=
if negb (h_state (header j) =? FAT12_JOURNAL_ACTIVE) then (false, j, w)
else
  let entry_count := h_entry_count (header j) in
  let sequence := h_sequence (header j) in
  let j := set_header j
    (prepare_header (media_fingerprint j) sequence FAT12_JOURNAL_CLEAN 0) in
  let '(ok, w) := write_header j w in
  if ok then (true, j, w)
  else
    (false, set_header j
      (prepare_header (media_fingerprint j) sequence FAT12_JOURNAL_ACTIVE entry_count), w).

Definition fat12_journal_commit : fat12_journal_t → W → bool * fat12_journal_t * W :=
locked fat12_journal_commit_locked.

(** The checks on one entry read back from the medium. *)
Definition entry_acceptable (j : fat12_journal_t) (entry : fat12_journal_entry_t)
  (old_sector : list Z) : bool :=
negb (e_target_sector entry =? primary_header_sector j) &&
negb (e_target_sector entry =? mirror_header_sector j) &&
(e_sequence entry =? h_sequence (header j)) &&
(e_metadata_crc32 entry =? fat12_journal_crc32 (encode (entry_clear_crc entry))) &&
(e_data_crc32 entry =? fat12_journal_crc32 old_sector).

(** One turn of the recovery loop. *)
Definition restore_entry (j : fat12_journal_t) (index : Z) (w : W) : bool * W :=
let '(ok, old_sector, w) := read w (data_sector j index) in
if negb ok then (false, w)
else
  let '(ok, metadata, w) := read w (metadata_sector j index) in
  if negb ok then (false, w)
  else
    let entry := decode (take (sizeof fat12_journal_entry_t) metadata) in
    if negb (entry_acceptable j entry old_sector) then (false, w)
    else write_verified read write (e_target_sector entry) old_sector w.

Fixpoint restore_entries (j : fat12_journal_t) (indices : list Z) (w : W) : bool * W :=
match indices with
| [] => (true, w)
| index :: indices =>
    let '(ok, w) := restore_entry j index w in
    if ok then restore_entries j indices w else (false, w)
end.

Definition entry_indices (count : Z) : list Z := map Z.of_nat (seq 0 (Z.to_nat count)).

Definition fat12_journal_recover_locked (j : fat12_journal_t) (w : W)
  : bool * fat12_journal_t * W :=
let '(ok, j, w) := fat12_journal_load_locked j w in
if negb ok then (false, j, w)
else if h_state (header j) =? FAT12_JOURNAL_CLEAN then (true, j, w)
else
  let '(ok, w) := restore_entries j (entry_indices (h_entry_count (header j))) w in
  if ok then fat12_journal_commit_locked j w else (false, j, w).

Definition fat12_journal_recover : fat12_journal_t → W → bool * fat12_journal_t * W :=
locked fat12_journal_recover_locked.
End operations.
End Fat12Journal.
