(* ===== verification/Fat12Remap.v ===== *)
(** Table of remapped sectors: src/fs/fat12/fat12_remap.c and fat12_remap.h.

    [Module Fat12Remap] holds every function of the C file over the callbacks
    of the caller.  Pointers are references and never NULL. *)
From S2P Require Import Prelude Crc32 Layout SectorIo.

Module Fat12Remap.

Definition FAT12_REMAP_MAX_ENTRIES : nat := 16.
Definition FAT12_REMAP_VERSION : Z := 1.
Definition FAT12_REMAP_MAGIC : Z := 0x52504D31.

Record fat12_remap_entry_t := Entry {
  bad_sector : Z;
  replacement_sector : Z;
  sequence : Z
}.

Record fat12_remap_header_t := Header {
  h_magic : Z;
  h_version : Z;
  h_entry_size : Z;
  h_media_fingerprint : Z;
  h_sequence : Z;
  h_entry_count : Z;
  h_crc32 : Z
}.

#[export] Instance remap_entry_layout : Layout fat12_remap_entry_t := {
  layout_widths := [4; 4; 8]%nat;
  layout_values e := [bad_sector e; replacement_sector e; sequence e];
  layout_record v := let f i := nth i v 0 in Entry (f 0%nat) (f 1%nat) (f 2%nat)
}.

#[export] Instance remap_entry_laws : LayoutLaws fat12_remap_entry_t.
Proof.
  split; [done|by intros []|]. intros values Hl.
  do 3 (destruct values as [|? values]; [done|]). by destruct values.
Qed.

#[export] Instance remap_header_layout : Layout fat12_remap_header_t := {
  layout_widths := [4; 2; 2; 4; 8; 4; 4]%nat;
  layout_values h := [h_magic h; h_version h; h_entry_size h; h_media_fingerprint h;
    h_sequence h; h_entry_count h; h_crc32 h];
  layout_record v := let f i := nth i v 0 in
    Header (f 0%nat) (f 1%nat) (f 2%nat) (f 3%nat) (f 4%nat) (f 5%nat) (f 6%nat)
}.

#[export] Instance remap_header_laws : LayoutLaws fat12_remap_header_t.
Proof.
  split; [done|by intros []|]. intros values Hl.
  do 7 (destruct values as [|? values]; [done|]). by destruct values.
Qed.

Record fat12_remap_table_t := Table {
  primary_sector : Z;
  mirror_sector : Z;
  table_sector : Z;
  media_fingerprint : Z;
  header : fat12_remap_header_t;
  entries : list fat12_remap_entry_t
}.

Definition set_contents (t : fat12_remap_table_t) (h : fat12_remap_header_t)
  (es : list fat12_remap_entry_t) : fat12_remap_table_t :=
  Table (primary_sector t) (mirror_sector t) (table_sector t) (media_fingerprint t) h es.

Definition empty_entry : fat12_remap_entry_t := Entry 0 0 0.
Definition no_entries : list fat12_remap_entry_t := repeat empty_entry FAT12_REMAP_MAX_ENTRIES.

Definition fat12_remap_crc32 (data : list Z) : Z := crc32 data.

Definition header_shape_valid (h : fat12_remap_header_t) (fingerprint : Z) : bool :=
  (h_magic h =? FAT12_REMAP_MAGIC) && (h_version h =? FAT12_REMAP_VERSION) &&
  (h_entry_size h =? Z.of_nat (sizeof fat12_remap_entry_t)) &&
  (h_media_fingerprint h =? fingerprint) &&
  (h_entry_count h <=? Z.of_nat FAT12_REMAP_MAX_ENTRIES).

Definition with_crc (h : fat12_remap_header_t) (crc : Z) : fat12_remap_header_t :=
  Header (h_magic h) (h_version h) (h_entry_size h) (h_media_fingerprint h) (h_sequence h)
    (h_entry_count h) crc.

(** The first [count] entries in memory order. *)
Definition used (count : Z) (es : list fat12_remap_entry_t) : list fat12_remap_entry_t :=
  take (Z.to_nat count) es.

Definition entry_bytes (es : list fat12_remap_entry_t) : list Z := concat (map encode es).

Definition table_crc (h : fat12_remap_header_t) (es : list fat12_remap_entry_t) : Z :=
  fat12_remap_crc32 (encode (with_crc h 0) ++ entry_bytes (used (h_entry_count h) es)).

Definition entry_clash (a b : fat12_remap_entry_t) : bool :=
  (bad_sector a =? bad_sector b) || (replacement_sector a =? replacement_sector b) ||
  (bad_sector a =? replacement_sector b) || (replacement_sector a =? bad_sector b).

Definition entry_valid (h : fat12_remap_header_t) (e : fat12_remap_entry_t) : bool :=
  negb ((bad_sector e =? 0) || (replacement_sector e =? 0) ||
        (bad_sector e =? replacement_sector e) || (sequence e =? 0) ||
        (h_sequence h <? sequence e)).

(** The double loop: each entry against itself and the earlier ones. *)
Fixpoint entries_distinct (h : fat12_remap_header_t) (earlier rest : list fat12_remap_entry_t) : bool :=
  match rest with
  | [] => true
  | e :: rest =>
    entry_valid h e && negb (existsb (λ a, entry_clash a e) earlier) &&
    entries_distinct h (earlier ++ [e]) rest
  end.

Definition entries_valid (h : fat12_remap_header_t) (es : list fat12_remap_entry_t) : bool :=
  entries_distinct h [] (used (h_entry_count h) es) && (h_crc32 h =? table_crc h es).

Definition prepare_header (fingerprint sequence count : Z) : fat12_remap_header_t :=
  Header FAT12_REMAP_MAGIC FAT12_REMAP_VERSION (Z.of_nat (sizeof fat12_remap_entry_t)) fingerprint
    sequence count 0.

(** A new table, or [None] where the function returns false. *)
Definition fat12_remap_format (primary mirror table fingerprint : Z) : option fat12_remap_table_t :=
  if (fingerprint =? 0) || (primary =? mirror) || (table <=? mirror) then None
  else
    let h := prepare_header fingerprint 1 0 in
    Some (Table primary mirror table fingerprint (with_crc h (table_crc h no_entries)) no_entries).

(** The entry array as a struct image, and back. *)
Fixpoint decode_entries (n : nat) (data : list Z) : list fat12_remap_entry_t :=
  match n with
  | O => []
  | S n => decode (take (sizeof fat12_remap_entry_t) data) ::
           decode_entries n (drop (sizeof fat12_remap_entry_t) data)
  end.

Definition fat12_remap_lookup (t : fat12_remap_table_t) (sector : Z) : option Z :=
  if sector =? 0 then None
  else
    option_map replacement_sector
      (find (λ e, bad_sector e =? sector) (used (h_entry_count (header t)) (entries t))).

Section operations.
Context {W : Type} (read : W → Z → bool * list Z * W) (write : W → Z → list Z → bool * W).

Definition read_shape (t : fat12_remap_table_t) (sector : Z) (w : W) : option fat12_remap_header_t * W :=
let '(ok, data, w) := read w sector in
let h := decode (take (sizeof fat12_remap_header_t) data) in
(if ok && header_shape_valid h (media_fingerprint t) then Some h else None, w).

Definition count_of (h : option fat12_remap_header_t) : Z :=
match h with Some h => h_entry_count h | None => 0 end.

Definition keep_valid (h : option fat12_remap_header_t) (es : list fat12_remap_entry_t)
  : option fat12_remap_header_t :=
match h with Some h => if entries_valid h es then Some h else None | None => None end.

Definition choose_header (first second : option fat12_remap_header_t) : option fat12_remap_header_t :=
match first, second with
| None, None => None
| Some first, Some second =>
    if (h_sequence first =? h_sequence second) && negb (bool_decide (encode first = encode second))
    then None
    else if h_sequence second <=? h_sequence first then Some first else Some second
| Some h, None | None, Some h => Some h
end.

(** The entries beyond the count are cleared. *)
Definition trim (count : Z) (es : list fat12_remap_entry_t) : list fat12_remap_entry_t :=
used count es ++ repeat empty_entry (FAT12_REMAP_MAX_ENTRIES - Z.to_nat count).

Definition fat12_remap_load (t : fat12_remap_table_t) (w : W) : bool * fat12_remap_table_t * W :=
if media_fingerprint t =? 0 then (false, t, w)
else
  let '(first, w) := read_shape t (primary_sector t) w in
  let '(second, w) := read_shape t (mirror_sector t) w in
  match first, second with
  | None, None => (false, t, w)
  | _, _ =>
    let maximum_count := Z.max (count_of first) (count_of second) in
    let '(ok, data, w) :=
      if maximum_count =? 0 then (true, repeat 0 FAT12_SECTOR_SIZE, w) else read w (table_sector t) in
    if negb ok then (false, t, w)
    else
      let es := decode_entries FAT12_REMAP_MAX_ENTRIES data in
      let first := keep_valid first es in
      let second := keep_valid second es in
      match choose_header first second with
      | None => (false, set_contents t (header t) es, w)
      | Some h => (true, set_contents t h (trim (h_entry_count h) es), w)
      end
  end.

Definition write_headers (t : fat12_remap_table_t) : W → bool * W :=
let sector := sector_of (encode (header t)) in
(write_verified read write (primary_sector t) sector AND
 write_verified read write (mirror_sector t) sector)%io.

Definition fat12_remap_add (t : fat12_remap_table_t) (bad replacement : Z) (w : W)
  : bool * fat12_remap_table_t * W :=
let h := header t in
let new_entry := Entry bad replacement (u64 (h_sequence h + 1)) in
if (bad =? 0) || (replacement =? 0) || (bad =? replacement) ||
   (Z.of_nat FAT12_REMAP_MAX_ENTRIES <=? h_entry_count h) ||
   existsb (λ e, entry_clash e new_entry) (used (h_entry_count h) (entries t))
then (false, t, w)
else
  let index := Z.to_nat (h_entry_count h) in
  let t := set_contents t h (<[index := new_entry]> (entries t)) in
  let '(ok, w) :=
    write_verified read write (table_sector t) (sector_of (entry_bytes (take (S index) (entries t)))) w in
  if negb ok then (false, t, w)
  else
    let h' := prepare_header (media_fingerprint t) (u64 (h_sequence h + 1)) (h_entry_count h + 1) in
    let t := set_contents t (with_crc h' (table_crc h' (entries t))) (entries t) in
    let '(ok, w) := write_headers t w in
    if ok then (true, t, w)
    else (false, set_contents t h (<[index := empty_entry]> (entries t)), w).
End operations.
End Fat12Remap.
