(* ===== verification/Fat12Replica.v ===== *)
(** Replicated files: src/fs/fat12/fat12_replica.c and fat12_replica.h.

    [Module Fat12Replica] holds every function of the C file over the callbacks
    of the caller.  A copy is its header and the data buffer of
    [FAT12_REPLICA_MAX_BYTES].  Pointers are references and never NULL. *)
From S2P Require Import Prelude Crc32 Layout SectorIo.

Module Fat12Replica.

Definition FAT12_REPLICA_MAX_BYTES : nat := 4096.
Definition FAT12_REPLICA_MAGIC : Z := 0x52504C31.
Definition FAT12_REPLICA_VERSION : Z := 1.
Definition FAT12_REPLICA_DATA_SECTORS : nat := 8.
Definition FAT12_REPLICA_SLOT_SECTORS : Z := 18.
Definition FAT12_REPLICA_FILE_COUNT : nat := 3.
Definition FAT12_REPLICA_RESERVED_SECTORS : Z := 54.

Record fat12_replica_header_t := Header {
  h_magic : Z;
  h_version : Z;
  h_header_size : Z;
  h_media_fingerprint : Z;
  h_sequence : Z;
  h_length : Z;
  h_crc32 : Z
}.

#[export] Instance replica_header_layout : Layout fat12_replica_header_t := {
  layout_widths := [4; 2; 2; 4; 8; 4; 4]%nat;
  layout_values h := [h_magic h; h_version h; h_header_size h; h_media_fingerprint h;
    h_sequence h; h_length h; h_crc32 h];
  layout_record v := let f i := nth i v 0 in
    Header (f 0%nat) (f 1%nat) (f 2%nat) (f 3%nat) (f 4%nat) (f 5%nat) (f 6%nat)
}.

#[export] Instance replica_header_laws : LayoutLaws fat12_replica_header_t.
Proof.
  split; [done|by intros []|]. intros values Hl.
  do 7 (destruct values as [|? values]; [done|]). by destruct values.
Qed.

Definition empty_header : fat12_replica_header_t := Header 0 0 0 0 0 0 0.

Record fat12_replica_t := Replica {
  primary_sector : Z;
  mirror_sector : Z;
  media_fingerprint : Z;
  primary_header : fat12_replica_header_t;
  mirror_header : fat12_replica_header_t;
  primary_data : list Z;
  mirror_data : list Z
}.

Definition set_copies (r : fat12_replica_t) (p m : fat12_replica_header_t * list Z) : fat12_replica_t :=
  Replica (primary_sector r) (mirror_sector r) (media_fingerprint r) p.1 m.1 p.2 m.2.

Definition empty_data : list Z := repeat 0 FAT12_REPLICA_MAX_BYTES.

Definition fat12_replica_crc32 (data : list Z) : Z := crc32 data.

Definition header_fits (h : fat12_replica_header_t) (fingerprint : Z) : bool :=
  (h_magic h =? FAT12_REPLICA_MAGIC) && (h_version h =? FAT12_REPLICA_VERSION) &&
  (h_header_size h =? Z.of_nat (sizeof fat12_replica_header_t)) &&
  (h_media_fingerprint h =? fingerprint) && negb (h_sequence h =? 0) &&
  (h_length h <=? Z.of_nat FAT12_REPLICA_MAX_BYTES).

Definition valid_header (h : fat12_replica_header_t) (data : list Z) (fingerprint : Z) : bool :=
  header_fits h fingerprint && (h_crc32 h =? fat12_replica_crc32 (take (Z.to_nat (h_length h)) data)).

(** A new replica, or [None] where the function returns false. *)
Definition fat12_replica_init (primary mirror fingerprint : Z) : option fat12_replica_t :=
  let sectors := Z.of_nat FAT12_REPLICA_DATA_SECTORS in
  if (fingerprint =? 0) || (UINT32_MAX - sectors <? primary) ||
     (mirror <=? u32 (primary + sectors)) || (UINT32_MAX - sectors <? mirror)
  then None
  else Some (Replica primary mirror fingerprint empty_header empty_header empty_data empty_data).

Definition fat12_replica_publish (r : fat12_replica_t) (data : list Z) (sequence : Z)
  : bool * fat12_replica_t :=
  let length := length data in
  if (length =? 0)%nat || (FAT12_REPLICA_MAX_BYTES <? length)%nat || (sequence =? 0) then (false, r)
  else
    let h := Header FAT12_REPLICA_MAGIC FAT12_REPLICA_VERSION
      (Z.of_nat (sizeof fat12_replica_header_t)) (media_fingerprint r) sequence (Z.of_nat length)
      (fat12_replica_crc32 data) in
    (true, set_copies r (h, bytes_copy (primary_data r) data) (h, bytes_copy (mirror_data r) data)).

(** The bytes of data sector [index] that belong to a file of [length] bytes. *)
Definition amount_of (length : Z) (index : nat) : nat :=
  let offset := Z.of_nat (index * FAT12_SECTOR_SIZE) in
  let remaining := if offset <? length then length - offset else 0 in
  Nat.min (Z.to_nat remaining) FAT12_SECTOR_SIZE.

Section operations.
Context {W : Type} (read : W → Z → bool * list Z * W) (write : W → Z → list Z → bool * W).

(** The loop over the data sectors from [index] on. *)
Fixpoint write_data (header_sector length : Z) (data : list Z) (count index : nat) (w : W) : bool * W :=
match count with
| O => (true, w)
| S count =>
    let sector := sector_of (take (amount_of length index) (drop (index * FAT12_SECTOR_SIZE) data)) in
    (write_verified read write (u32 (header_sector + 1 + Z.of_nat index)) sector AND
     write_data header_sector length data count (S index))%io w
end.

Definition write_copy (header_sector : Z) (h : fat12_replica_header_t) (data : list Z) : W → bool * W :=
(write_data header_sector (h_length h) data FAT12_REPLICA_DATA_SECTORS 0 AND
 write_verified read write header_sector (sector_of (encode h)))%io.

Definition fat12_replica_publish_persistent (r : fat12_replica_t) (data : list Z) (sequence : Z) (w : W)
  : bool * fat12_replica_t * W :=
let '(published, r) := fat12_replica_publish r data sequence in
if negb published then (false, r, w)
else
  let '(ok, w) :=
    (write_copy (primary_sector r) (primary_header r) (primary_data r) AND
     write_copy (mirror_sector r) (mirror_header r) (mirror_data r))%io w in
  (ok, r, w).

(** The loop that gathers the data; the buffer holds what was read so far. *)
Fixpoint read_data (header_sector length : Z) (data : list Z) (count index : nat) (w : W)
  : bool * list Z * W :=
match count with
| O => (true, data, w)
| S count =>
    let '(ok, sector, w) := read w (u32 (header_sector + 1 + Z.of_nat index)) in
    if negb ok then (false, data, w)
    else
      let offset := (index * FAT12_SECTOR_SIZE)%nat in
      let amount := amount_of length index in
      let data :=
        if (amount =? 0)%nat then data
        else take offset data ++ take amount sector ++ drop (offset + amount) data in
      read_data header_sector length data count (S index) w
end.

(** The header and data of one copy, as far as the function writes them. *)
Definition load_copy (header_sector fingerprint : Z) (copy : fat12_replica_header_t * list Z) (w : W)
  : bool * (fat12_replica_header_t * list Z) * W :=
let '(ok, sector, w) := read w header_sector in
if negb ok then (false, copy, w)
else
  let h := decode (take (sizeof fat12_replica_header_t) sector) in
  if negb (header_fits h fingerprint) || (h_length h =? 0) then (false, (h, copy.2), w)
  else
    let '(ok, data, w) := read_data header_sector (h_length h) empty_data FAT12_REPLICA_DATA_SECTORS 0 w in
    (ok && valid_header h data fingerprint, (h, data), w).

Definition fat12_replica_load (r : fat12_replica_t) (w : W) : bool * fat12_replica_t * W :=
if media_fingerprint r =? 0 then (false, r, w)
else
  let '(primary_ok, p, w) :=
    load_copy (primary_sector r) (media_fingerprint r) (primary_header r, primary_data r) w in
  let '(mirror_ok, m, w) :=
    load_copy (mirror_sector r) (media_fingerprint r) (mirror_header r, mirror_data r) w in
  let p := if primary_ok then p else (empty_header, p.2) in
  let m := if mirror_ok then m else (empty_header, m.2) in
  (primary_ok || mirror_ok, set_copies r p m, w).
End operations.

(** The bytes handed out, or [None] where the function returns false. *)
Definition fat12_replica_select (r : fat12_replica_t) (capacity : nat) : option (list Z) :=
  let p := primary_header r in
  let m := mirror_header r in
  let primary_ok := valid_header p (primary_data r) (media_fingerprint r) in
  let mirror_ok := valid_header m (mirror_data r) (media_fingerprint r) in
  let selected :=
    if negb primary_ok && negb mirror_ok then None
    else if primary_ok && mirror_ok then
      if h_sequence p =? h_sequence m then
        if negb (h_length p =? h_length m) ||
           negb (bool_decide (take (Z.to_nat (h_length p)) (primary_data r) =
                              take (Z.to_nat (h_length p)) (mirror_data r)))
        then None
        else Some (p, primary_data r)
      else if h_sequence m <? h_sequence p then Some (p, primary_data r)
      else Some (m, mirror_data r)
    else if primary_ok then Some (p, primary_data r)
    else Some (m, mirror_data r) in
  match selected with
  | None => None
  | Some (h, data) =>
    if Z.of_nat capacity <? h_length h then None else Some (take (Z.to_nat (h_length h)) data)
  end.
End Fat12Replica.
