(* ===== verification/Fat12Recovery.v ===== *)
(** What a FAT12 journal promises on a failing device.

    [settled] describes an image by what recovery makes of it: the header that
    a load chooses is clean and the volume is an allowed image, or it is active
    and its undo entries lead back to one.  Every operation of the journal keeps
    [settled], whatever its writes leave behind, and a recovery that reports
    success reaches an allowed image.  [idle] and [active] describe a mounted
    journal between and inside transactions. *)
From S2P Require Import Prelude Crc32 Layout AtaDisk SectorIo Fat12Journal.
Import Fat12Journal.

(** ** Headers as bytes *)
Lemma header_size : sizeof fat12_journal_header_t = 32%nat.
Proof. done. Qed.
Lemma entry_size : sizeof fat12_journal_entry_t = 20%nat.
Proof. done. Qed.

Lemma crc32_u32 data : Forall is_u8 data → is_u32 (crc32 data).
Proof.
  intros. unfold crc32. apply lxor_u32; [|ulia]. apply crc32_update_u32; [ulia|done].
Qed.

#[local] Opaque crc32.

Lemma take_sector_of bytes : take (length bytes) (sector_of bytes) = bytes.
Proof. apply take_app_length. Qed.

Lemma sector_of_is_sector bytes :
  Forall is_u8 bytes → (length bytes <= FAT12_SECTOR_SIZE)%nat → is_sector (sector_of bytes).
Proof.
  intros Hb Hl. split; unfold sector_of.
  - rewrite length_app, repeat_length. lia.
  - apply list.Forall_app. split; [done|]. apply list.Forall_forall. intros x Hx.
    apply list_elem_of_In, repeat_spec in Hx as ->. ulia.
Qed.

Definition sector_header (data : list Z) : fat12_journal_header_t :=
  decode (take (sizeof fat12_journal_header_t) data).

Lemma sector_header_of h : well_typed h → sector_header (sector_of (encode h)) = h.
Proof.
  intros Hw. unfold sector_header. rewrite <- (length_encode h), take_sector_of. by apply decode_encode.
Qed.

Lemma header_sector_ok (h : fat12_journal_header_t) : is_sector (sector_of (encode h)).
Proof. apply sector_of_is_sector; [apply encode_bytes|]. by rewrite length_encode; apply Nat.leb_le. Qed.
Lemma entry_sector_ok (e : fat12_journal_entry_t) : is_sector (sector_of (encode e)).
Proof. apply sector_of_is_sector; [apply encode_bytes|]. by rewrite length_encode; apply Nat.leb_le. Qed.

Lemma sector_of_encode_inj (h h' : fat12_journal_header_t) :
  well_typed h → well_typed h' → encode h = encode h' → h = h'.
Proof. intros Hw Hw' E. rewrite <- (decode_encode h Hw), <- (decode_encode h' Hw'). by rewrite E. Qed.

Lemma prepare_header_typed fp s st n :
  is_u32 fp → is_u64 s → 0 <= st <= FAT12_JOURNAL_ACTIVE → 0 <= n <= 64 → well_typed (prepare_header fp s st n).
Proof.
  intros Hfp Hs Hst Hn. unfold prepare_header, FAT12_JOURNAL_ACTIVE in *. cbv zeta.
  assert (is_u32 (fat12_journal_crc32 (encode (Header FAT12_JOURNAL_MAGIC FAT12_JOURNAL_VERSION
    (Z.of_nat (sizeof fat12_journal_header_t)) fp s st n 0)))) as Hc by apply crc32_u32, encode_bytes.
  revert Hc. generalize (fat12_journal_crc32 (encode (Header FAT12_JOURNAL_MAGIC FAT12_JOURNAL_VERSION
    (Z.of_nat (sizeof fat12_journal_header_t)) fp s st n 0))). intros c Hc.
  unfold well_typed. cbn. split_and!; try done; ulia.
Qed.

Lemma prepare_header_valid fp s st n :
  0 <= st <= FAT12_JOURNAL_ACTIVE → 0 <= n <= 64 → header_valid (prepare_header fp s st n) fp = true.
Proof.
  intros Hst Hn. unfold header_valid, prepare_header. cbn [h_magic h_version h_header_size h_media_fingerprint h_state h_entry_count h_crc32].
  unfold clear_crc. cbn [h_magic h_version h_header_size h_media_fingerprint h_sequence h_state h_entry_count h_crc32].
  rewrite !Z.eqb_refl. rewrite !(proj2 (Z.leb_le _ _)) by (unfold FAT12_JOURNAL_MAX_ENTRIES in *; lia). done.
Qed.

Lemma prepare_state fp s st n : h_state (prepare_header fp s st n) = st.
Proof. done. Qed.
Lemma prepare_count fp s st n : h_entry_count (prepare_header fp s st n) = n.
Proof. done. Qed.
Lemma prepare_sequence fp s st n : h_sequence (prepare_header fp s st n) = s.
Proof. done. Qed.
#[local] Opaque prepare_header.

(** [h = prepare_header fp s st n], as a relation. *)
Inductive prepared (fp s st n : Z) : fat12_journal_header_t → Prop :=
| prepared_intro : prepared fp s st n (prepare_header fp s st n).

Lemma prepared_facts fp s st n h :
  prepared fp s st n h → h_state h = st ∧ h_entry_count h = n ∧ h_sequence h = s.
Proof. intros []. by rewrite prepare_state, prepare_count, prepare_sequence. Qed.

Lemma make_entry_typed t s d : is_u32 t → is_u64 s → is_sector d → well_typed (make_entry t s d).
Proof.
  intros Ht Hs [_ Hd]. unfold make_entry. cbv zeta. cbn [e_target_sector e_data_crc32 e_sequence].
  assert (is_u32 (fat12_journal_crc32 d)) as Hd' by by apply crc32_u32.
  revert Hd'. generalize (fat12_journal_crc32 d). intros c1 Hc1.
  assert (is_u32 (fat12_journal_crc32 (encode (Entry t c1 s 0)))) as Hc by apply crc32_u32, encode_bytes.
  revert Hc. generalize (fat12_journal_crc32 (encode (Entry t c1 s 0))). intros c2 Hc2.
  unfold well_typed. cbn. split_and!; try done; ulia.
Qed.

Section recovery.
Context {W : Type} (read : W → Z → bool * list Z * W) (write : W → Z → list Z → bool * W).
Context (capacity : Z) (damaged : list Z → Prop) `{!SectorDevice W}.
Context `{!SectorLaws read write capacity damaged}.

(** The journal: its two header sectors, the first sector of its entries and
  the volume it belongs to.  A damaged header does not pass its checks. *)
Context (P M D fp : Z).

Record placed : Prop := {
  placed_distinct : P ≠ M;
  placed_below : 0 <= P < D ∧ 0 <= M < D;
  placed_end : D + 127 <= UINT32_MAX;
  placed_reach : D + 127 < capacity;
  placed_volume : is_u32 fp ∧ fp ≠ 0;
  placed_damage : ∀ x, damaged x → header_valid (sector_header x) fp = false
}.
Context (Hplaced : placed).

Definition area (l : Z) : Prop := l = P ∨ l = M ∨ D <= l < D + 128.

Definition same_volume (i img : image) : Prop := ∀ l, ¬ area l → i l = img l.

(** The header on a sector, if it is valid. *)
Definition header_at (i : image) (s : Z) : option fat12_journal_header_t :=
  let h := sector_header (i s) in if header_valid h fp then Some h else None.

Definition chosen (i : image) : option fat12_journal_header_t :=
  choose_header (header_at i P) (header_at i M).

(** Sectors that a transaction may change. *)
Definition target_ok (t : Z) : Prop := ¬ area t ∧ is_u32 t ∧ t < capacity.

Definition entry_on (i : image) (s : Z) (k : nat) (u : Z * list Z) : Prop :=
  i (D + 2 * Z.of_nat k) = u.2 ∧
  i (D + 2 * Z.of_nat k + 1) = sector_of (encode (make_entry u.1 s u.2)) ∧
  is_sector u.2 ∧ target_ok u.1.

(** The undo entries of an active header lead back to [old]. *)
Record undoes (i : image) (s : Z) (undo : list (Z * list Z)) (old : image) : Prop := {
  undoes_entries k u : undo !! k = Some u → entry_on i s k u;
  undoes_count : (length undo <= FAT12_JOURNAL_MAX_ENTRIES)%nat;
  undoes_old t d : (t, d) ∈ undo → old t = d;
  undoes_rest l : ¬ area l → l ∉ map fst undo → i l = old l
}.

Definition leads (i : image) (allowed : image → Prop) (h : fat12_journal_header_t) : Prop :=
  if h_state h =? FAT12_JOURNAL_CLEAN then ∃ img, allowed img ∧ same_volume i img
  else
    well_typed h ∧ header_valid h fp = true ∧ ∃ undo old, allowed old ∧ h_entry_count h = Z.of_nat (length undo) ∧
      undoes i (h_sequence h) undo old.

(** No other header than the chosen one is active. *)
Definition one_active (p m : option fat12_journal_header_t) : Prop :=
  ∀ h h', choose_header p m = Some h → p = Some h' ∨ m = Some h' →
  h_state h' ≠ FAT12_JOURNAL_CLEAN → h' = h.

Definition settled (i : image) (allowed : image → Prop) : Prop :=
  (∀ h, chosen i = Some h → leads i allowed h) ∧ one_active (header_at i P) (header_at i M).

Definition in_place (j : fat12_journal_t) : Prop :=
  primary_header_sector j = P ∧ mirror_header_sector j = M ∧ data_start_sector j = D ∧
  media_fingerprint j = fp.

(** ** One verified write *)
Definition wrote (i i' : image) (s : Z) (data : list Z) : Prop :=
  (∀ l, l ≠ s → i' l = i l) ∧ (i' s = i s ∨ i' s = data ∨ damaged (i' s)).

Lemma write_verified_spec s data w :
  is_sector data →
  let r := write_verified read write s data w in
  wrote (medium w) (medium r.2) s data ∧ (r.1 = true → medium r.2 s = data) ∧
  (healthy w → 0 <= s < capacity → r.1 = true ∧ healthy r.2).
Proof using SectorLaws0.
  intros Hd. cbv zeta. unfold write_verified, and_io, read_equal.
  pose proof (write_other (read := read) (write := write) w s data) as Ho.
  pose proof (write_sector (read := read) (write := write) w s data Hd) as Hs. cbv zeta in Hs.
  pose proof (λ Hh Hc, write_healthy (read := read) (write := write) w s data Hh Hc Hd) as Hh.
  destruct (write w s data) as [[] w1]; cbn [fst snd] in *.
  - pose proof (read_medium (read := read) (write := write) w1 s) as Rm.
    pose proof (read_ok (read := read) (write := write) w1 s) as Rk.
    pose proof (read_healthy (read := read) (write := write) w1 s) as Rh.
    destruct (read w1 s) as [[ok verify] w2]; cbn [fst snd] in *. split_and!.
    + split; [intros l Hl; rewrite Rm; auto|by rewrite Rm].
    + intros [-> E%bool_decide_eq_true]%andb_true_iff. rewrite Rm. rewrite E. symmetry. by apply Rk.
    + intros Hw Hc. destruct (Hh Hw Hc) as (_ & Hw1 & E). destruct (Rh Hw1 Hc) as [-> Hw2].
      split; [|done]. rewrite (Rk eq_refl), E. by rewrite bool_decide_eq_true_2.
  - split_and!; [done|done|]. intros Hw Hc. by destruct (Hh Hw Hc).
Qed.

(** ** The two copies of a header *)
Inductive header_outcome (p m : option fat12_journal_header_t) (h : fat12_journal_header_t)
  : option fat12_journal_header_t → option fat12_journal_header_t → Prop :=
| outcome_lost : header_outcome p m h p m
| outcome_torn : header_outcome p m h None m
| outcome_first : header_outcome p m h (Some h) m
| outcome_first_torn : header_outcome p m h (Some h) None
| outcome_both : header_outcome p m h (Some h) (Some h).

Lemma header_at_sector i s h :
well_typed h → header_valid h fp = true → i s = sector_of (encode h) → header_at i s = Some h.
Proof using. intros Hw Hv E. unfold header_at. rewrite E, sector_header_of by done. by rewrite Hv. Qed.

Lemma header_at_damaged i s : damaged (i s) → header_at i s = None.
Proof using Hplaced. intros Hd. unfold header_at. by rewrite (placed_damage Hplaced _ Hd). Qed.

Lemma header_at_same i i' s : i' s = i s → header_at i' s = header_at i s.
Proof using. intros E. unfold header_at. by rewrite E. Qed.

Lemma header_at_wrote i i' s h :
well_typed h → header_valid h fp = true → wrote i i' s (sector_of (encode h)) →
header_at i' s = header_at i s ∨ header_at i' s = Some h ∨ header_at i' s = None.
Proof using Hplaced.
intros Hw Hv [_ [E|[E|E]]].
- left. by apply header_at_same.
- right. left. by apply header_at_sector.
- right. right. by apply header_at_damaged.
Qed.

Definition other_sector (l : Z) : Prop := l ≠ P ∧ l ≠ M.

Lemma write_header_spec j w :
in_place j → well_typed (header j) → header_valid (header j) fp = true →
let r := write_header read write j w in
(∀ l, other_sector l → medium r.2 l = medium w l) ∧
header_outcome (header_at (medium w) P) (header_at (medium w) M) (header j)
  (header_at (medium r.2) P) (header_at (medium r.2) M) ∧
(r.1 = true → medium r.2 P = sector_of (encode (header j)) ∧ medium r.2 M = sector_of (encode (header j))) ∧
(healthy w → r.1 = true ∧ healthy r.2).
Proof using All.
intros (HP & HM & _ & _) Hw Hv. pose proof (placed_distinct Hplaced) as Hne. cbv zeta.
unfold write_header. rewrite HP, HM. set (sec := sector_of _). assert (is_sector sec) as Hsec by apply header_sector_ok. unfold and_io.
pose proof (write_verified_spec P sec w Hsec) as (W1 & O1 & H1).
destruct (write_verified read write P sec w) as [ok1 w1]. cbn [fst snd] in *.
assert (0 <= P < capacity ∧ 0 <= M < capacity) as [HPc HMc] by (destruct Hplaced; lia).
destruct ok1.
- pose proof (write_verified_spec M sec w1 Hsec) as (W2 & O2 & H2).
  destruct (write_verified read write M sec w1) as [ok2 w2]. cbn [fst snd] in *.
  specialize (O1 eq_refl). pose proof (proj1 W2 P Hne) as EP. pose proof (proj1 W1 M (not_eq_sym Hne)) as EM.
  assert (header_at (medium w2) P = Some (header j)) as -> by (apply header_at_sector; [done|done|by rewrite EP]).
  split_and!.
  + intros l [Hl Hl']. rewrite (proj1 W2), (proj1 W1); done.
  + rewrite <- (header_at_same _ _ M EM).
    destruct (header_at_wrote _ _ _ _ Hw Hv W2) as [->|[->| ->]]; constructor.
  + intros ->. split; [by rewrite EP|by apply O2].
  + intros Hh. destruct (H1 Hh HPc) as [_ Hh1]. by apply H2.
- pose proof (header_at_same _ _ M (proj1 W1 M (not_eq_sym Hne))) as EM. cbn [fst snd]. rewrite EM. split_and!.
  + intros l [Hl Hl']. by rewrite (proj1 W1).
  + destruct (header_at_wrote _ _ _ _ Hw Hv W1) as [->|[->| ->]]; constructor.
  + done.
  + intros Hh. by destruct (H1 Hh HPc).
Qed.

Lemma write_header_primary j w :
in_place j → let r := write_header read write j w in
medium r.2 P = medium w P ∨ medium r.2 P = sector_of (encode (header j)) ∨ damaged (medium r.2 P).
Proof using All.
intros (HP & HM & _). pose proof (placed_distinct Hplaced) as Hne. cbv zeta.
unfold write_header. rewrite HP, HM. set (sec := sector_of _). assert (is_sector sec) as Hsec by apply header_sector_ok. unfold and_io.
pose proof (write_verified_spec P sec w Hsec) as ([_ W1] & _).
destruct (write_verified read write P sec w) as [[] w1]; cbn [fst snd] in *; [|done].
pose proof (write_verified_spec M sec w1 Hsec) as ([W2 _] & _).
by rewrite W2.
Qed.

Lemma area_other l : ¬ area l → other_sector l.
Proof using. unfold area, other_sector. intros H. split; intros ->; apply H; auto. Qed.

Lemma entry_sectors_other (k : nat) :
(k < FAT12_JOURNAL_MAX_ENTRIES)%nat → other_sector (D + 2 * Z.of_nat k) ∧ other_sector (D + 2 * Z.of_nat k + 1).
Proof using Hplaced. intros Hk. destruct Hplaced. unfold FAT12_JOURNAL_MAX_ENTRIES, other_sector in *. lia. Qed.

Lemma undoes_ext i i' s undo old :
(∀ l, other_sector l → i' l = i l) → undoes i s undo old → undoes i' s undo old.
Proof using Hplaced.
intros He [H1 H2 H3 H4]. split; auto.
- intros k u Hk. destruct (H1 k u Hk) as (Ha & Hb & Hc).
  pose proof (lookup_lt_Some _ _ _ Hk) as Hl.
  destruct (entry_sectors_other k ltac:(lia)). unfold entry_on. by rewrite !He.
- intros l Hl Hn. rewrite He by by apply area_other. auto.
Qed.

Lemma leads_ext i i' allowed h :
(∀ l, other_sector l → i' l = i l) → leads i allowed h → leads i' allowed h.
Proof using Hplaced.
intros He. unfold leads. destruct (h_state h =? _).
- intros (img & Ha & Hs). exists img. split; [done|]. intros l Hl. rewrite He by by apply area_other. auto.
- intros (Hw & Hv & undo & old & Ha & Hc & Hu). split_and!; [done|done|]. exists undo, old.
  split_and!; [done|done|]. by eapply undoes_ext.
Qed.

(** Writing a header over a settled medium: the cases of what remains. *)
Definition yields (h h' : fat12_journal_header_t) : Prop :=
(h_sequence h = h_sequence h' ∧ encode h ≠ encode h') ∨
(h_state h = FAT12_JOURNAL_CLEAN ∧
 (h_state h' = FAT12_JOURNAL_CLEAN ∨ h_sequence h < h_sequence h')).

Lemma choose_single_l h : choose_header (Some h) None = Some h.
Proof using. done. Qed.
Lemma choose_single_r h : choose_header None (Some h) = Some h.
Proof using. done. Qed.
Lemma choose_pair h : choose_header (Some h) (Some h) = Some h.
Proof using.
unfold choose_header. rewrite bool_decide_eq_true_2 by done. by rewrite andb_false_r, Z.leb_refl.
Qed.

Lemma choose_of p m h : choose_header p m = Some h → p = Some h ∨ m = Some h.
Proof using.
unfold choose_header. destruct p as [p|], m as [m|]; try by intros [= ->]; auto.
destruct (_ && _); [done|]. destruct (_ <=? _); intros [= ->]; auto.
Qed.

Lemma choose_yields h h' c :
choose_header (Some h') (Some h) = Some c → yields h h' →
(c = h' ∧ h_state h = FAT12_JOURNAL_CLEAN) ∨
(c = h ∧ h_state h = FAT12_JOURNAL_CLEAN ∧ h_state h' = FAT12_JOURNAL_CLEAN).
Proof using.
unfold choose_header. intros Hc [[Hs He]|[Hcl Hor]].
- rewrite Hs, Z.eqb_refl, bool_decide_eq_false_2 in Hc by congruence. done.
- destruct (_ && _); [done|]. destruct (Z.leb_spec (h_sequence h) (h_sequence h')).
  + injection Hc as <-. auto.
  + injection Hc as <-. right. split_and!; [done|done|]. destruct Hor; [done|lia].
Qed.

Lemma settled_header i i' allowed (hn : fat12_journal_header_t) :
header_outcome (header_at i P) (header_at i M) hn (header_at i' P) (header_at i' M) →
one_active (header_at i P) (header_at i M) →
(∀ h, header_at i P = Some h ∨ header_at i M = Some h → chosen i = Some h → leads i' allowed h) →
leads i' allowed hn →
(∀ h, header_at i M = Some h → leads i' allowed h) →
(∀ h, header_at i M = Some h → yields h hn) →
settled i' allowed.
Proof using.
unfold settled, chosen. generalize (header_at i' P), (header_at i' M), (header_at i P), (header_at i M).
intros p' m' p m Ho H1 Hc Hn Hm Hy. destruct Ho.
- split; [|done]. intros h Hch. apply Hc; [|done]. by apply choose_of.
- split.
  + intros h Hch. apply choose_of in Hch as [|]; [done|]. by apply Hm.
  + intros h h' Hch [|E] Ha; [done|]. rewrite E in Hch. injection Hch as <-. done.
- destruct m as [m|].
  + specialize (Hy m eq_refl). split.
    * intros h Hch. destruct (choose_yields _ _ _ Hch Hy) as [[-> _]|(-> & _)]; auto.
    * intros h h' Hch E Ha. destruct (choose_yields _ _ _ Hch Hy) as [[-> ?]|(-> & ? & ?)];
        destruct E as [[= <-]|[= <-]]; done.
  + split; [by intros h [= <-]|]. by intros h h' [= <-] [[= <-]|]; done.
- split; [by intros h [= <-]|]. by intros h h' [= <-] [[= <-]|]; done.
- rewrite choose_pair. split; [by intros h [= <-]|].
  intros h h'. rewrite choose_pair. by intros [= <-] [[= <-]|[= <-]] _.
Qed.

(** ** Between transactions *)
Definition idle (j : fat12_journal_t) (i : image) : Prop :=
in_place j ∧ h_state (header j) = FAT12_JOURNAL_CLEAN ∧
∀ h, header_at i P = Some h ∨ header_at i M = Some h →
  h_state h = FAT12_JOURNAL_CLEAN ∧ h_sequence h <= h_sequence (header j).

Lemma idle_settled j i (allowed : image → Prop) img :
idle j i → allowed img → same_volume i img → settled i allowed.
Proof using.
intros (_ & _ & Hi) Ha Hs. split.
- intros h Hc. apply choose_of, Hi in Hc as [Hc _]. unfold leads. rewrite Hc. by exists img.
- intros h h' _ Hh Hn. apply Hi in Hh as [Hh _]. done.
Qed.

(** ** Inside a transaction *)
Record active (j : fat12_journal_t) (i old : image) (undo : list (Z * list Z)) : Prop := {
  active_place : in_place j;
  active_sequence : is_u64 (h_sequence (header j));
  active_header :
    prepared fp (h_sequence (header j)) FAT12_JOURNAL_ACTIVE (Z.of_nat (length undo)) (header j);
  active_primary : i P = sector_of (encode (header j));
  active_mirror : i M = sector_of (encode (header j));
  active_undoes : undoes i (h_sequence (header j)) undo old;
  active_entries : map e_target_sector (take (length undo) (entries j)) = map fst undo;
  active_table : length (entries j) = FAT12_JOURNAL_MAX_ENTRIES
}.

Lemma prepared_ok s st n h :
is_u64 s → 0 <= st <= FAT12_JOURNAL_ACTIVE → 0 <= n <= 64 → prepared fp s st n h →
well_typed h ∧ header_valid h fp = true.
Proof using Hplaced.
intros Hs Hst Hn []. destruct (placed_volume Hplaced).
split; [by apply prepare_header_typed|by apply prepare_header_valid].
Qed.

Lemma leads_active i s undo old (allowed : image → Prop) h :
is_u64 s → allowed old → undoes i s undo old →
prepared fp s FAT12_JOURNAL_ACTIVE (Z.of_nat (length undo)) h → leads i allowed h.
Proof using Hplaced.
intros Hs Ha Hu Hp. pose proof (undoes_count _ _ _ _ Hu) as Hc. unfold FAT12_JOURNAL_MAX_ENTRIES in Hc.
destruct (prepared_ok s FAT12_JOURNAL_ACTIVE (Z.of_nat (length undo)) _ Hs ltac:(done) ltac:(lia) Hp).
unfold leads. destruct (prepared_facts _ _ _ _ _ Hp) as (-> & -> & ->).
cbn [Z.eqb FAT12_JOURNAL_ACTIVE FAT12_JOURNAL_CLEAN]. split_and!; [done|done|]. by exists undo, old.
Qed.

Lemma leads_clean i s n (allowed : image → Prop) img h :
allowed img → same_volume i img → prepared fp s FAT12_JOURNAL_CLEAN n h → leads i allowed h.
Proof using.
intros Ha Hs Hp. unfold leads. destruct (prepared_facts _ _ _ _ _ Hp) as (-> & _). cbn. by exists img.
Qed.

Lemma prepared_differ h h' :
well_typed h → well_typed h' → h_state h ≠ h_state h' ∨ h_entry_count h ≠ h_entry_count h' →
encode h ≠ encode h'.
Proof using.
intros Hw Hw' Hne E. apply sector_of_encode_inj in E; [|done|done]. rewrite E in Hne. by destruct Hne.
Qed.

Lemma active_header_at j i old undo :
active j i old undo →
well_typed (header j) ∧ header_at i P = Some (header j) ∧ header_at i M = Some (header j).
Proof using Hplaced.
intros [_ Hs Hh HP HM Hu _ _]. pose proof (undoes_count _ _ _ _ Hu) as Hc.
unfold FAT12_JOURNAL_MAX_ENTRIES in Hc.
destruct (prepared_ok _ FAT12_JOURNAL_ACTIVE (Z.of_nat (length undo)) _ Hs ltac:(done) ltac:(lia) Hh) as [Hw Hv].
split_and!; [done|by apply header_at_sector..].
Qed.

Lemma active_settled j i old undo (allowed : image → Prop) :
active j i old undo → allowed old → settled i allowed.
Proof using Hplaced.
intros Ha Hal. destruct (active_header_at _ _ _ _ Ha) as (Hw & HP & HM).
destruct Ha as [_ Hs Hh _ _ Hu _ _]. unfold settled, chosen. rewrite HP, HM, choose_pair. split.
- intros h [= <-]. by eapply leads_active.
- intros h h'. rewrite choose_pair. by intros [= <-] [[= <-]|[= <-]].
Qed.

Lemma journal_begin_spec (s : Z) j w old (allowed : image → Prop) :
idle j (medium w) → is_u64 s → h_sequence (header j) < s → same_volume (medium w) old → allowed old →
let '(ok, j', w') := fat12_journal_begin_locked read write s j w in
settled (medium w') allowed ∧ (∀ l, other_sector l → medium w' l = medium w l) ∧
(ok = true → active j' (medium w') old [] ∧ h_sequence (header j') = s) ∧ (healthy w → ok = true ∧ healthy w').
Proof using All.
intros (Hpl & Hcl & Hi) Hs Hlt Hsame Hal. destruct Hpl as (HP & HM & HD & Hfp).
unfold fat12_journal_begin_locked. rewrite Hcl, Hfp.
destruct (placed_volume Hplaced) as [Hu32 Hnz]. rewrite (proj2 (Z.eqb_neq fp 0)) by done.
rewrite (proj2 (Z.leb_gt s _)) by done. cbn [orb Z.eqb FAT12_JOURNAL_CLEAN FAT12_JOURNAL_ACTIVE].
set (j1 := set_header _ _). assert (prepared fp s FAT12_JOURNAL_ACTIVE 0 (header j1)) as Hj1 by constructor.
assert (in_place j1) as Hpl by done.
assert (length (entries j1) = FAT12_JOURNAL_MAX_ENTRIES) as Htab by apply repeat_length.
clearbody j1. destruct (prepared_ok _ FAT12_JOURNAL_ACTIVE 0 _ Hs ltac:(done) ltac:(lia) Hj1) as [Hw Hv].
pose proof (write_header_spec j1 w Hpl Hw Hv) as (Ho & Hout & Hok & Hh).
destruct (write_header read write j1 w) as [ok w']. cbn [fst snd] in *.
destruct (prepared_facts _ _ _ _ _ Hj1) as (_ & _ & Hseq).
assert (undoes (medium w') s [] old) as Hun.
{ split; try done; [apply Nat.le_0_l|intros t d Hd; by apply elem_of_nil in Hd|].
  intros l Hl _. rewrite Ho by by apply area_other. by apply Hsame. }
assert (same_volume (medium w') old) as Hsv by (intros l Hl; rewrite Ho by (by apply area_other); by apply Hsame).
assert (∀ h, header_at (medium w) P = Some h ∨ header_at (medium w) M = Some h → leads (medium w') allowed h) as Hleads.
{ intros h Hh'. destruct (Hi h Hh') as [E _]. unfold leads. rewrite E. by exists old. }
split_and!; [|exact Ho| |exact Hh].
- eapply settled_header; [exact Hout| | | | |].
  + intros h h' _ Hh' Hn. by destruct (Hi h' Hh').
  + auto.
  + by apply (leads_active _ s [] old).
  + auto.
  + intros h Hh'. destruct (Hi h (or_intror Hh')) as [E Hle]. right. split; [done|right]. lia.
- intros ->. destruct (Hok eq_refl) as [EP EM]. split; [|done]. split; try done; by rewrite Hseq.
Qed.

(** An undo entry that reached the medium. *)
Lemma undoes_snoc i s undo old old' t d :
undoes i s undo old → (length undo < FAT12_JOURNAL_MAX_ENTRIES)%nat → t ∉ map fst undo →
old' t = d → (∀ l, l ≠ t → old' l = old l) →
entry_on i s (length undo) (t, d) → undoes i s (undo ++ [(t, d)]) old'.
Proof using.
intros [H1 H2 H3 H4] Hlt Hnin Hd Hrest He. split.
- intros k u Hk. apply lookup_app_Some in Hk as [Hk|[Hge Hk]]; [by apply H1|].
  apply list_lookup_singleton_Some in Hk as [Hk <-].
  by replace k with (length undo) by lia.
- rewrite length_app. simpl. lia.
- intros t' d' Hin. apply elem_of_app in Hin as [Hin|Hin].
  + rewrite Hrest; [by apply H3|]. intros ->. apply Hnin. apply list_elem_of_In, in_map_iff.
    exists (t, d'). split; [done|by apply list_elem_of_In].
  + apply list_elem_of_singleton in Hin. by simplify_eq.
- intros l Hl Hn. rewrite map_app in Hn. apply not_elem_of_app in Hn as [Hn Hne].
  rewrite Hrest; [by apply H4|]. intros ->. apply Hne. by constructor.
Qed.

Lemma recorded_spec j i old undo t :
active j i old undo → recorded j t = true ↔ t ∈ map fst undo.
Proof using.
intros [_ _ Hh _ _ _ He _]. unfold recorded. destruct (prepared_facts _ _ _ _ _ Hh) as (_ & -> & _).
rewrite Nat2Z.id, <- He, existsb_exists. split.
- intros (e & Hin & E%Z.eqb_eq). apply list_elem_of_In, in_map_iff. by exists e.
- intros Hin%list_elem_of_In. apply in_map_iff in Hin as (e & <- & Hin). exists e. by rewrite Z.eqb_refl.
Qed.

Lemma in_area_false j t : in_place j → target_ok t → in_journal_area j t = false.
Proof using Hplaced.
intros (HP & HM & HD & _) (Ha & Hu & _). unfold in_journal_area. rewrite HP, HM, HD.
unfold area in Ha.
assert (t ≠ P) as Htp by (intros ->; apply Ha; auto). assert (t ≠ M) as Htm by (intros ->; apply Ha; auto).
rewrite (proj2 (Z.eqb_neq _ _) Htp), (proj2 (Z.eqb_neq _ _) Htm). cbn [orb].
apply andb_false_iff. destruct (Z.leb_spec D t); [right|by left]. apply Z.ltb_ge.
assert (D + 128 <= t) by lia. change (Z.of_nat FAT12_JOURNAL_MAX_ENTRIES * 2) with 128.
destruct Hplaced. ulia.
Qed.

Lemma entry_sectors j (k : nat) :
in_place j → (k < FAT12_JOURNAL_MAX_ENTRIES)%nat →
data_sector j (Z.of_nat k) = D + 2 * Z.of_nat k ∧ metadata_sector j (Z.of_nat k) = D + 2 * Z.of_nat k + 1.
Proof using Hplaced.
intros (_ & _ & HD & _) Hk. unfold data_sector, metadata_sector. rewrite HD. destruct Hplaced.
unfold FAT12_JOURNAL_MAX_ENTRIES in Hk. split; ulia.
Qed.

(** The next free slot of the undo area may change. *)
Lemma undoes_slot i i' s undo old :
(length undo < FAT12_JOURNAL_MAX_ENTRIES)%nat →
(∀ l, l ≠ D + 2 * Z.of_nat (length undo) → l ≠ D + 2 * Z.of_nat (length undo) + 1 → i' l = i l) →
undoes i s undo old → undoes i' s undo old.
Proof using.
intros Hlt He [H1 H2 H3 H4]. split; auto.
- intros k u Hk. pose proof (lookup_lt_Some _ _ _ Hk). destruct (H1 k u Hk) as (Ha & Hb & Hc).
  unfold entry_on. rewrite !He by lia. done.
- intros l Hl Hn. rewrite He; auto; intros ->; apply Hl; right; right;
    unfold FAT12_JOURNAL_MAX_ENTRIES in *; lia.
Qed.

(** The two sectors of an entry. *)
Lemma write_entry_spec j w (k : nat) d meta :
in_place j → (k < FAT12_JOURNAL_MAX_ENTRIES)%nat → is_sector d → is_sector meta →
let r := (write_verified read write (data_sector j (Z.of_nat k)) d AND
        write_verified read write (metadata_sector j (Z.of_nat k)) meta)%io w in
(∀ l, l ≠ D + 2 * Z.of_nat k → l ≠ D + 2 * Z.of_nat k + 1 → medium r.2 l = medium w l) ∧
(r.1 = true → medium r.2 (D + 2 * Z.of_nat k) = d ∧ medium r.2 (D + 2 * Z.of_nat k + 1) = meta) ∧
(healthy w → r.1 = true ∧ healthy r.2).
Proof using All.
intros Hpl Hk Hd Hm. destruct (entry_sectors j k Hpl Hk) as [-> ->]. cbv zeta. unfold and_io.
assert (0 <= D + 2 * Z.of_nat k < capacity ∧ 0 <= D + 2 * Z.of_nat k + 1 < capacity) as [Hc1 Hc2].
{ destruct Hplaced. unfold FAT12_JOURNAL_MAX_ENTRIES in Hk. lia. }
pose proof (write_verified_spec (D + 2 * Z.of_nat k) d w Hd) as (W1 & O1 & H1).
destruct (write_verified read write _ d w) as [[] w1]; cbn [fst snd] in *.
- pose proof (write_verified_spec (D + 2 * Z.of_nat k + 1) meta w1 Hm) as (W2 & O2 & H2).
  destruct (write_verified read write _ meta w1) as [ok w2]. cbn [fst snd] in *. split_and!.
  + intros l Hl Hl'. rewrite (proj1 W2), (proj1 W1); done.
  + intros ->. split; [|by apply O2]. rewrite (proj1 W2) by lia. by apply O1.
  + intros Hh. destruct (H1 Hh Hc1). by apply H2.
- split_and!; [intros l Hl _; by apply (proj1 W1)|done|]. intros Hh. by destruct (H1 Hh Hc1).
Qed.

Lemma lookup_entries (es : list fat12_journal_entry_t) n e (ts : list Z) :
(n < length es)%nat → map e_target_sector (take n es) = ts →
map e_target_sector (take (S n) (<[n := e]> es)) = ts ++ [e_target_sector e].
Proof using.
intros Hn <-. rewrite (take_S_r _ n e) by by rewrite list_lookup_insert_eq.
by rewrite take_insert_ge, map_app.
Qed.

Definition room (undo : list (Z * list Z)) (t : Z) : Prop :=
t ∈ map fst undo ∨ (length undo < FAT12_JOURNAL_MAX_ENTRIES)%nat.

(** Recording [d] as the content that a rollback gives to [t]. *)
Definition records (old old' : image) (undo : list (Z * list Z)) (t : Z) (d : list Z) : Prop :=
if decide (t ∈ map fst undo) then old' = old else old' t = d ∧ ∀ l, l ≠ t → old' l = old l.

Lemma records_same old undo t d : (t ∉ map fst undo → d = old t) → records old old undo t d.
Proof using. intros Hd. unfold records. destruct (decide _); [done|]. by rewrite Hd. Qed.

Lemma record_spec t d j w old old' undo (allowed : image → Prop) :
active j (medium w) old undo → target_ok t → is_sector d → records old old' undo t d → allowed old → allowed old' →
let '(ok, j', w') := fat12_journal_record_locked read write t d j w in
settled (medium w') allowed ∧ (∀ l, ¬ area l → medium w' l = medium w l) ∧
(ok = true → h_sequence (header j') = h_sequence (header j) ∧ ∃ undo', active j' (medium w') old' undo' ∧
 t ∈ map fst undo' ∧ (length undo' <= S (length undo))%nat) ∧
(healthy w → room undo t → ok = true ∧ healthy w').
Proof using All.
intros Ha Ht Hd Hold Hal Hal'. pose proof (active_settled _ _ _ _ _ Ha Hal) as Hst.
pose proof (recorded_spec _ _ _ _ t Ha) as Hrec. destruct (active_header_at _ _ _ _ Ha) as (Hw0 & HP0 & HM0).
destruct Ha as [Hpl Hs Hh HP HM Hu He Htab]. destruct (prepared_facts _ _ _ _ _ Hh) as (Est & Ecount & _).
unfold fat12_journal_record_locked. rewrite Est, (in_area_false j t Hpl Ht). cbn [Z.eqb FAT12_JOURNAL_ACTIVE negb orb].
destruct (recorded j t) eqn:Er.
{ split_and!; [done|done| |done]. intros _. split; [done|]. exists undo.
  unfold records in Hold. rewrite decide_True in Hold by by apply Hrec. subst old'.
  split_and!; [by split|by apply Hrec|lia]. }
assert (t ∉ map fst undo) as Hnin by by rewrite <- Hrec. unfold records in Hold. rewrite decide_False in Hold by done.
destruct Hold as [Hold Hrest].
rewrite Ecount. destruct (Z.leb_spec (Z.of_nat FAT12_JOURNAL_MAX_ENTRIES) (Z.of_nat (length undo))) as [Hfull|Hlt].
{ split_and!; [done|done|done|]. intros _ [?|?]; [done|lia]. }
assert (length undo < FAT12_JOURNAL_MAX_ENTRIES)%nat as Hlt' by lia. clear Hlt.
set (entry := make_entry _ _ _). set (j1 := set_entries _ _).
assert (in_place j1) as Hpl1 by done.
pose proof (write_entry_spec j1 w (length undo) d (sector_of (encode entry)) Hpl1 Hlt' Hd (entry_sector_ok _)) as (W1 & O1 & H1).
destruct (and_io _ _ w) as [ok1 w1]. cbn [fst snd] in *.
pose proof (undoes_slot _ _ _ _ _ Hlt' W1 Hu) as Hu1.
destruct (entry_sectors_other (length undo) Hlt') as [[HD1 HD2] [HD3 HD4]].
assert (medium w1 P = medium w P ∧ medium w1 M = medium w M) as [EP EM] by (by rewrite !W1).
assert (∀ l, ¬ area l → medium w1 l = medium w l) as Hout1.
{ intros l Hl. apply W1; intros ->; apply Hl; right; right; unfold FAT12_JOURNAL_MAX_ENTRIES in *; lia. }
assert (active j (medium w1) old undo) as Ha1 by (split; try done; congruence).
destruct ok1; cbn [negb].
2:{ split_and!; [by eapply active_settled|done|done|]. intros Hh'. by destruct (H1 Hh'). }
destruct (O1 eq_refl) as [OD OM].
set (j2 := set_header _ _).
assert (prepared fp (h_sequence (header j)) FAT12_JOURNAL_ACTIVE (Z.of_nat (length (undo ++ [(t, d)]))) (header j2)) as Hj2.
{ rewrite length_app, Nat2Z.inj_add. destruct Hpl as (_ & _ & _ & <-). constructor. }
assert (in_place j2) as Hpl2 by done.
assert (entries j2 = <[length undo := entry]> (entries j)) as Hent.
{ cbn. by rewrite Nat2Z.id. }
clearbody j2. subst j1.
assert (0 <= Z.of_nat (length (undo ++ [(t, d)])) <= 64) as Hn2.
{ rewrite length_app. unfold FAT12_JOURNAL_MAX_ENTRIES in *. simpl. lia. }
destruct (prepared_ok _ FAT12_JOURNAL_ACTIVE _ _ Hs ltac:(done) Hn2 Hj2) as [Hw2 Hv2].
pose proof (write_header_spec j2 w1 Hpl2 Hw2 Hv2) as (Ho & Hout & Hok & Hhl).
destruct (write_header read write j2 w1) as [ok w2]. cbn [fst snd] in *.
assert (undoes (medium w2) (h_sequence (header j)) (undo ++ [(t, d)]) old') as Hu2.
{ eapply undoes_ext; [exact Ho|]. eapply undoes_snoc; [done|done|done|exact Hold|exact Hrest|]. by split_and!. }
assert (undoes (medium w2) (h_sequence (header j)) undo old) as Hu2' by by eapply undoes_ext.
destruct (active_header_at _ _ _ _ Ha1) as (_ & HP1 & HM1).
destruct (prepared_facts _ _ _ _ _ Hj2) as (Est2 & Ecount2 & Eseq2).
assert (leads (medium w2) allowed (header j)) as Hl by by apply (leads_active _ (h_sequence (header j)) undo old).
split_and!.
- eapply settled_header; [exact Hout| | | | |].
  + eapply active_settled; [exact Ha1|exact Hal].
  + intros h _. unfold chosen. rewrite HP1, HM1, choose_pair. by intros [= <-].
  + by apply (leads_active _ (h_sequence (header j)) (undo ++ [(t, d)]) old').
  + rewrite HM1. by intros h [= <-].
  + rewrite HM1. intros h [= <-]. left. split; [by rewrite Eseq2|].
    apply prepared_differ; [done|done|]. right. rewrite Ecount, Ecount2, length_app. simpl. lia.
- intros l Hl2. rewrite Ho by by apply area_other. by apply Hout1.
- intros ->. destruct (Hok eq_refl). split; [done|]. exists (undo ++ [(t, d)]). split_and!.
  + split; try done; try by rewrite Eseq2.
    * rewrite Hent, map_app, length_app, Nat.add_comm. apply lookup_entries; [lia|done].
    * by rewrite Hent, length_insert.
  + rewrite map_app. apply elem_of_app. right. by constructor.
  + rewrite length_app. simpl. lia.
- intros Hh' _. destruct (H1 Hh') as [_ Hh1]. by apply Hhl.
Qed.

(** A write to a recorded sector. *)
Lemma active_target j i i' old undo t :
active j i old undo → t ∈ map fst undo → (∀ l, l ≠ t → i' l = i l) → active j i' old undo.
Proof using All.
intros [Hpl Hs Hh HP HM [H1 H2 H3 H4] He Htab] Hin Hi.
assert (¬ area t) as Hta.
{ apply list_elem_of_In, in_map_iff in Hin as (u & <- & Hu%list_elem_of_In).
  apply list_elem_of_lookup_1 in Hu as (k & Hk). by destruct (H1 k u Hk) as (_ & _ & _ & Ht & _). }
assert (∀ l, area l → i' l = i l) as Hai by (intros l Hl; apply Hi; by intros ->).
split; try done; try (rewrite Hai; [done|]; by unfold area; auto).
split; try done.
- intros k u Hk. pose proof (lookup_lt_Some _ _ _ Hk). destruct (H1 k u Hk) as (Ha & Hb & Hc).
  unfold FAT12_JOURNAL_MAX_ENTRIES in *. unfold entry_on. rewrite !Hai; [done|right; right; lia..].
- intros l Hl Hn. rewrite Hi by (by intros ->). by apply H4.
Qed.

(** Closing an active header over an allowed volume. *)
Lemma close_spec j w img (allowed : image → Prop) h :
in_place j → header j = h → chosen (medium w) = Some h → h_state h = FAT12_JOURNAL_ACTIVE → is_u64 (h_sequence h) →
well_typed h → leads (medium w) allowed h → one_active (header_at (medium w) P) (header_at (medium w) M) →
same_volume (medium w) img → allowed img →
let '(ok, j', w') := fat12_journal_commit_locked read write j w in
settled (medium w') allowed ∧ (∀ l, other_sector l → medium w' l = medium w l) ∧
(ok = true → idle j' (medium w') ∧ h_sequence (header j') = h_sequence (header j)) ∧ (healthy w → ok = true ∧ healthy w').
Proof using All.
intros Hpl Ej Hch Est Hs Hwt Hleads Hone Hsame Hal. unfold fat12_journal_commit_locked. rewrite Ej, Est.
cbn [Z.eqb FAT12_JOURNAL_ACTIVE negb].
set (j1 := set_header _ _). assert (in_place j1) as Hpl1 by done.
assert (prepared fp (h_sequence h) FAT12_JOURNAL_CLEAN 0 (header j1)) as Hj1.
{ destruct Hpl as (_ & _ & _ & <-). constructor. }
clearbody j1. destruct (prepared_ok _ FAT12_JOURNAL_CLEAN 0 _ Hs ltac:(done) ltac:(done) Hj1) as [Hw1 Hv1].
pose proof (write_header_spec j1 w Hpl1 Hw1 Hv1) as (Ho & Hout & Hok & Hhl).
destruct (write_header read write j1 w) as [ok w1]. cbn [fst snd] in *.
destruct (prepared_facts _ _ _ _ _ Hj1) as (Est1 & _ & Eseq1).
assert (same_volume (medium w1) img) as Hsame1.
{ intros l Hl. rewrite Ho by by apply area_other. by apply Hsame. }
assert (leads (medium w1) allowed h) as Hl by by eapply leads_ext.
assert (∀ h', header_at (medium w) M = Some h' → h' = h ∨ h_state h' = FAT12_JOURNAL_CLEAN) as HM.
{ intros h' Hh'. destruct (decide (h_state h' = FAT12_JOURNAL_CLEAN)) as [|Hn]; [by right|left].
  eapply Hone; [exact Hch|by right|done]. }
assert (settled (medium w1) allowed) as Hset.
{ eapply settled_header; [exact Hout|exact Hone| | | |].
  - intros h' _ Hh'. rewrite Hch in Hh'. by injection Hh' as <-.
  - eapply leads_clean; [exact Hal|exact Hsame1|exact Hj1].
  - intros h' Hh'. destruct (HM h' Hh') as [->|E]; [done|]. unfold leads. rewrite E. by exists img.
  - intros h' Hh'. destruct (HM h' Hh') as [->|E]; [left|right; by auto].
    split; [done|]. apply prepared_differ; [done|done|]. left. by rewrite Est, Est1. }
destruct ok.
- split_and!; [done|done| |done]. intros _. destruct (Hok eq_refl) as [EP EM]. split; [|by rewrite Eseq1]. split_and!; [done|done|].
  assert (header_at (medium w1) P = Some (header j1) ∧ header_at (medium w1) M = Some (header j1)) as [-> ->]
    by (split; by apply header_at_sector).
  intros h' [[= <-]|[= <-]]; by rewrite Est1.
- split_and!; [done|done|done|]. intros Hh'. by destruct (Hhl Hh').
Qed.

(** A write to a sector that is not recorded becomes part of the old image. *)
Lemma active_other j i i' old undo t :
active j i old undo → ¬ area t → t ∉ map fst undo → (∀ l, l ≠ t → i' l = i l) →
active j i' (upd old t (i' t)) undo.
Proof using All.
intros [Hpl Hs Hh HP HM [H1 H2 H3 H4] He Htab] Hta Hn Hi.
assert (∀ l, area l → i' l = i l) as Hai by (intros l Hl; apply Hi; by intros ->).
split; try done; try (rewrite Hai; [done|]; by unfold area; auto).
split; try done.
- intros k u Hk. pose proof (lookup_lt_Some _ _ _ Hk). destruct (H1 k u Hk) as (Ha & Hb & Hc).
  unfold FAT12_JOURNAL_MAX_ENTRIES in *. unfold entry_on. rewrite !Hai; [done|right; right; lia..].
- intros t' d Hin. unfold upd. destruct (Z.eqb_spec t' t) as [->|]; [|by apply H3].
  destruct Hn. apply list_elem_of_In, in_map_iff. exists (t, d). split; [done|by apply list_elem_of_In].
- intros l Hl Hn'. unfold upd. destruct (Z.eqb_spec l t) as [->|Hne]; [done|]. rewrite Hi by done. by apply H4.
Qed.

Lemma journal_commit_spec j w old new undo (allowed : image → Prop) :
active j (medium w) old undo → same_volume (medium w) new → allowed old → allowed new →
let '(ok, j', w') := fat12_journal_commit_locked read write j w in
settled (medium w') allowed ∧ (∀ l, other_sector l → medium w' l = medium w l) ∧
(ok = true → idle j' (medium w') ∧ h_sequence (header j') = h_sequence (header j)) ∧ (healthy w → ok = true ∧ healthy w').
Proof using All.
intros Ha Hnew Hao Han. destruct (active_header_at _ _ _ _ Ha) as (Hw0 & HP0 & HM0).
destruct (active_settled _ _ _ _ _ Ha Hao) as [Hl Hone]. destruct Ha as [Hpl Hs Hh _ _ _ _ _].
assert (chosen (medium w) = Some (header j)) as Hch by (unfold chosen; by rewrite HP0, HM0, choose_pair).
apply (close_spec j w new allowed (header j)); auto. by destruct (prepared_facts _ _ _ _ _ Hh).
Qed.

(** ** Recovery *)
Lemma off_write_verified s d w :
off w → let r := write_verified read write s d w in
r.1 = false ∧ off r.2 ∧ ∀ l, medium r.2 l = medium w l.
Proof using SectorLaws0.
intros Hoff. cbv zeta. unfold write_verified, and_io, read_equal.
pose proof (λ l, off_write (read := read) (write := write) w s d l Hoff) as Hw.
destruct (write w s d) as [[] w1]; cbn [fst snd] in *.
- destruct (Hw s) as [Hoff1 _]. pose proof (off_read (read := read) (write := write) w1 s Hoff1) as Hr.
  pose proof (read_failed (read := read) (write := write) w1 s Hr) as Hf.
  pose proof (read_medium (read := read) (write := write) w1 s) as Hm.
  destruct (read w1 s) as [[ok v] w2]. cbn [fst snd] in *. subst ok.
  split_and!; [done|done|]. intros l. rewrite Hm. by apply Hw.
- split_and!; [done|by apply (Hw s)|]. intros l. by apply Hw.
Qed.

Lemma read_header_spec j s w :
media_fingerprint j = fp →
let r := read_header read j s w in
(∀ l, medium r.2 l = medium w l) ∧ (r.1 = header_at (medium w) s ∨ (r.1 = None ∧ off r.2)) ∧
(healthy w → 0 <= s < capacity → r.1 = header_at (medium w) s ∧ healthy r.2).
Proof using SectorLaws0.
intros Hfp. cbv zeta. unfold read_header. rewrite Hfp.
pose proof (read_medium (read := read) (write := write) w s) as Rm.
pose proof (read_ok (read := read) (write := write) w s) as Rk.
pose proof (read_failed (read := read) (write := write) w s) as Rf.
pose proof (read_healthy (read := read) (write := write) w s) as Rh.
destruct (read w s) as [[ok data] w1]. cbn [fst snd] in *. destruct ok; cbn [andb].
- rewrite (Rk eq_refl). split_and!; [done|by left|]. intros Hh Hc. split; [done|by apply Rh].
- split_and!; [done|right; split; [done|by apply Rf]|]. intros Hh Hc. by destruct (Rh Hh Hc).
Qed.

Lemma off_read_header j s w :
off w → let r := read_header read j s w in r.1 = None ∧ off r.2.
Proof using SectorLaws0.
intros Hoff. cbv zeta. unfold read_header.
pose proof (off_read (read := read) (write := write) w s Hoff) as Rn.
pose proof (read_failed (read := read) (write := write) w s Rn) as Rf.
destruct (read w s) as [[ok data] w1]. cbn [fst snd] in *. by subst ok.
Qed.

Lemma journal_load_spec j w :
in_place j →
let '(ok, j', w') := fat12_journal_load_locked read j w in
(∀ l, medium w' l = medium w l) ∧ in_place j' ∧ entries j' = entries j ∧
(ok = false ∨ off w' ∨ chosen (medium w) = Some (header j')) ∧
(healthy w → healthy w' ∧ (chosen (medium w) ≠ None → ok = true) ∧
 (ok = true → chosen (medium w) = Some (header j'))).
Proof using All.
intros Hpl. pose proof Hpl as (HP & HM & HD & Hfp). unfold fat12_journal_load_locked. rewrite Hfp.
destruct (placed_volume Hplaced) as [_ Hnz]. rewrite (proj2 (Z.eqb_neq fp 0)) by done. rewrite HP, HM.
assert (0 <= P < capacity ∧ 0 <= M < capacity) as [HPc HMc] by (destruct Hplaced; lia).
pose proof (read_header_spec j P w Hfp) as (R1 & C1 & H1).
destruct (read_header read j P w) as [first w1]. cbn [fst snd] in *.
pose proof (read_header_spec j M w1 Hfp) as (R2 & C2 & H2).
pose proof (off_read_header j M w1) as Hoff. cbv zeta in Hoff.
destruct (read_header read j M w1) as [second w2]. cbn [fst snd] in *.
assert (∀ l, medium w2 l = medium w l) as Hm by (intros l; by rewrite R2, R1).
rewrite (header_at_same (medium w) (medium w1) M (R1 M)) in C2, H2.
assert (off w2 ∨ choose_header first second = chosen (medium w) ∨ choose_header first second = None) as Hc.
{ destruct C1 as [->|[-> Ho]].
  - destruct C2 as [->|[_ ?]]; [by right; left|by left].
  - destruct (Hoff Ho) as [-> ?]. by left. }
assert (healthy w → healthy w2 ∧ choose_header first second = chosen (medium w)) as Hhl.
{ intros Hh. destruct (H1 Hh HPc) as [-> Hh1]. by destruct (H2 Hh1 HMc) as [-> ?]. }
destruct (choose_header first second) as [h|].
- split_and!; [done|done|done| |].
  + destruct Hc as [|[|]]; auto. done.
  + intros Hh. destruct (Hhl Hh). by split_and!.
- split_and!; [done|done|done|by left|]. intros Hh. destruct (Hhl Hh) as [? <-]. by split_and!.
Qed.

Lemma choose_max p m h h' :
choose_header p m = Some h → p = Some h' ∨ m = Some h' → h_sequence h' <= h_sequence h.
Proof using.
unfold choose_header. destruct p as [p|], m as [m|]; intros Hc Ho.
- destruct (_ && _); [done|]. destruct (Z.leb_spec (h_sequence m) (h_sequence p)); injection Hc as <-;
    destruct Ho as [[= <-]|[= <-]]; lia.
- injection Hc as <-. destruct Ho as [[= <-]|]; [lia|done].
- injection Hc as <-. destruct Ho as [|[= <-]]; [done|lia].
- done.
Qed.

Lemma entry_accepted j s t d :
in_place j → h_sequence (header j) = s → is_u64 s → target_ok t → is_sector d →
let entry := decode (take (sizeof fat12_journal_entry_t) (sector_of (encode (make_entry t s d)))) in
e_target_sector entry = t ∧ entry_acceptable j entry d = true.
Proof using.
intros (HP & HM & _) Hseq Hs (Ha & Hu & _) Hd. cbv zeta.
pose proof (make_entry_typed t s d Hu Hs Hd) as Hw.
assert (take (sizeof fat12_journal_entry_t) (sector_of (encode (make_entry t s d))) = encode (make_entry t s d)) as ->.
{ rewrite <- (length_encode (make_entry t s d)). apply take_sector_of. }
rewrite decode_encode by done. split; [done|]. unfold entry_acceptable.
cbn [make_entry e_target_sector e_sequence e_metadata_crc32 e_data_crc32]. rewrite HP, HM, Hseq.
rewrite (proj2 (Z.eqb_neq t P)) by (intros ->; apply Ha; by left).
rewrite (proj2 (Z.eqb_neq t M)) by (intros ->; apply Ha; right; by left).
unfold entry_clear_crc. cbn [make_entry e_target_sector e_sequence e_metadata_crc32 e_data_crc32].
by rewrite !Z.eqb_refl.
Qed.

(** The undo entries survive writes to their targets. *)
Lemma undoes_target i i' s undo old t d :
undoes i s undo old → (t, d) ∈ undo → (∀ l, l ≠ t → i' l = i l) →
undoes i' s undo old ∧ (∀ l, area l → i' l = i l).
Proof using.
intros [H1 H2 H3 H4] Hin Hi.
assert (¬ area t) as Hta.
{ apply list_elem_of_lookup_1 in Hin as (k & Hk). by destruct (H1 k _ Hk) as (_ & _ & _ & Ht & _). }
assert (∀ l, area l → i' l = i l) as Hai by (intros l Hl; apply Hi; by intros ->).
split; [|done]. split; try done.
- intros k u Hk. pose proof (lookup_lt_Some _ _ _ Hk). destruct (H1 k u Hk) as (Ha & Hb & Hc).
  unfold FAT12_JOURNAL_MAX_ENTRIES in *. unfold entry_on. rewrite !Hai; [done|right; right; lia..].
- intros l Hl Hn. rewrite Hi; [by apply H4|]. intros ->. apply Hn.
  apply list_elem_of_In, in_map_iff. exists (t, d). split; [done|by apply list_elem_of_In].
Qed.

Lemma restore_entry_spec j (k : nat) w s undo old t d :
in_place j → h_sequence (header j) = s → is_u64 s → undoes (medium w) s undo old → undo !! k = Some (t, d) →
let r := restore_entry read write j (Z.of_nat k) w in
(∀ l, l ≠ t → medium r.2 l = medium w l) ∧ (r.1 = true → medium r.2 t = d) ∧
(healthy w → r.1 = true ∧ healthy r.2).
Proof using All.
intros Hpl Hseq Hs Hu Hk. pose proof (lookup_lt_Some _ _ _ Hk) as Hlt.
pose proof (undoes_count _ _ _ _ Hu) as Hcount.
destruct (undoes_entries _ _ _ _ Hu k _ Hk) as (ED & EM & Hsec & Ht). cbn [fst snd] in *.
destruct (entry_sectors j k Hpl ltac:(lia)) as [E1 E2]. cbv zeta. unfold restore_entry. rewrite E1, E2.
assert (0 <= D + 2 * Z.of_nat k < capacity ∧ 0 <= D + 2 * Z.of_nat k + 1 < capacity) as [Hc1 Hc2].
{ destruct Hplaced. unfold FAT12_JOURNAL_MAX_ENTRIES in *. lia. }
pose proof (read_medium (read := read) (write := write) w (D + 2 * Z.of_nat k)) as Rm.
pose proof (read_ok (read := read) (write := write) w (D + 2 * Z.of_nat k)) as Rk.
pose proof (read_healthy (read := read) (write := write) w (D + 2 * Z.of_nat k)) as Rh.
destruct (read w _) as [[ok data] w1]. cbn [fst snd] in *. rewrite ED in Rk.
destruct ok; cbn [negb]; [rewrite (Rk eq_refl)|split_and!; [done|done|intros Hh; by destruct (Rh Hh Hc1)]].
pose proof (read_medium (read := read) (write := write) w1 (D + 2 * Z.of_nat k + 1)) as Rm2.
pose proof (read_ok (read := read) (write := write) w1 (D + 2 * Z.of_nat k + 1)) as Rk2.
pose proof (read_healthy (read := read) (write := write) w1 (D + 2 * Z.of_nat k + 1)) as Rh2.
destruct (read w1 _) as [[ok meta] w2]. cbn [fst snd] in *. rewrite Rm, EM in Rk2.
destruct ok; cbn [negb].
2:{ split_and!; [intros l _; by rewrite Rm2, Rm|done|]. intros Hh. destruct (Rh Hh Hc1) as [_ Hh1]. by destruct (Rh2 Hh1 Hc2). }
rewrite (Rk2 eq_refl). destruct (entry_accepted j s t d Hpl Hseq Hs Ht Hsec) as [Et Ea]. rewrite Ea, Et. cbn [negb].
pose proof (write_verified_spec t d w2 Hsec) as (Wr & O & H).
destruct (write_verified read write t d w2) as [ok w3]. cbn [fst snd] in *. split_and!.
- intros l Hl. by rewrite (proj1 Wr), Rm2, Rm.
- done.
- intros Hh. destruct (Rh Hh Hc1) as [_ Hh1]. destruct (Rh2 Hh1 Hc2) as [_ Hh2]. apply H; [done|].
  destruct Ht as (_ & ? & ?). ulia.
Qed.

Lemma restore_entries_spec j s undo old : ∀ n k w,
(k + n = length undo)%nat → in_place j → h_sequence (header j) = s → is_u64 s →
undoes (medium w) s undo old → (∀ t, t ∈ map fst (take k undo) → medium w t = old t) →
let r := restore_entries read write j (map Z.of_nat (seq k n)) w in
undoes (medium r.2) s undo old ∧ (∀ l, area l → medium r.2 l = medium w l) ∧
(r.1 = true → ∀ t, t ∈ map fst undo → medium r.2 t = old t) ∧ (healthy w → r.1 = true ∧ healthy r.2).
Proof using All.
induction n as [|n IH]; intros k w Hn Hpl Hseq Hs Hu Hdone; cbv zeta; cbn [seq map restore_entries].
- split_and!; [done|done| |done]. intros _. rewrite take_ge in Hdone by lia. done.
- destruct (lookup_lt_is_Some_2 undo k ltac:(lia)) as [[t d] Hk].
  pose proof (restore_entry_spec j k w s undo old t d Hpl Hseq Hs Hu Hk) as (R & O & H).
  destruct (restore_entry read write j (Z.of_nat k) w) as [ok w1]. cbn [fst snd] in *.
  pose proof (list_elem_of_lookup_2 _ _ _ Hk) as Hin.
  destruct (undoes_target _ _ _ _ _ _ _ Hu Hin R) as [Hu1 Hout1].
  destruct ok.
  + specialize (IH (S k) w1 ltac:(lia) Hpl Hseq Hs Hu1) as (I1 & I2 & I3 & I4).
    { intros t'. rewrite (take_S_r _ _ _ Hk), map_app, elem_of_app. cbn [map fst]. rewrite list_elem_of_singleton.
      intros Ht'. destruct (decide (t' = t)) as [->|Hne].
      - rewrite (O eq_refl). symmetry. by apply (undoes_old _ _ _ _ Hu).
      - destruct Ht' as [Ht'|]; [|done]. rewrite R by done. by apply Hdone. }
    split_and!; [done| |done|].
    * intros l Hl. by rewrite I2, Hout1.
    * intros Hh. destruct (H Hh) as [_ Hh1]. by apply I4.
  + split_and!; [done|done|done|]. intros Hh. by destruct (H Hh).
Qed.

(** The medium of a device that no longer answers is what it was. *)
Lemma settled_same i i' allowed : (∀ l, i' l = i l) → settled i allowed → settled i' allowed.
Proof using Hplaced.
intros He [H1 H2]. unfold settled, chosen. rewrite !(header_at_same i i') by done. split; [|done].
intros h Hc. eapply leads_ext; [|by apply H1]. by intros.
Qed.

Lemma off_restore_entries j indices w :
off w → let r := restore_entries read write j indices w in
off r.2 ∧ ∀ l, medium r.2 l = medium w l.
Proof using SectorLaws0.
intros Hoff. cbv zeta. destruct indices as [|index indices]; [done|]. cbn [restore_entries]. unfold restore_entry.
pose proof (off_read (read := read) (write := write) w (data_sector j index) Hoff) as Rn.
pose proof (read_failed (read := read) (write := write) w _ Rn) as Rf.
pose proof (read_medium (read := read) (write := write) w (data_sector j index)) as Rm.
destruct (read w _) as [[ok data] w1]. cbn [fst snd] in *. by subst ok.
Qed.

Lemma off_write_header j w :
off w → let r := write_header read write j w in r.1 = false ∧ off r.2 ∧ ∀ l, medium r.2 l = medium w l.
Proof using SectorLaws0.
intros Hoff. cbv zeta. unfold write_header. set (sec := sector_of _). unfold and_io.
destruct (off_write_verified (primary_header_sector j) sec w Hoff) as (E & H1 & H2).
destruct (write_verified read write _ sec w) as [ok w1]. cbn [fst snd] in *. by subst ok.
Qed.

Lemma off_commit j w :
off w → let '(ok, j', w') := fat12_journal_commit_locked read write j w in
off w' ∧ ∀ l, medium w' l = medium w l.
Proof using SectorLaws0.
intros Hoff. unfold fat12_journal_commit_locked. destruct (negb _); [done|]. cbv zeta.
pose proof (off_write_header (set_header j (prepare_header (media_fingerprint j)
  (h_sequence (header j)) FAT12_JOURNAL_CLEAN 0)) w Hoff) as (E & H1 & H2).
destruct (write_header read write _ w) as [ok w1]. cbn [fst snd] in *. by subst ok.
Qed.


Lemma header_at_typed w s h : header_at (medium w) s = Some h → well_typed h.
Proof using SectorLaws0.
unfold header_at. destruct (header_valid _ _); [|done]. intros [= <-].
destruct (medium_sector (read := read) (write := write) w s) as [Hl Hb].
apply decode_typed; [by apply Forall_take|]. rewrite length_take, Hl. reflexivity.
Qed.

Lemma chosen_sequence w h : chosen (medium w) = Some h → is_u64 (h_sequence h).
Proof using SectorLaws0.
intros Hc. apply choose_of in Hc as [Hc|Hc]; apply header_at_typed in Hc as (_ & _ & _ & _ & Hs & _); exact Hs.
Qed.

(** What follows a load. *)
Definition recover_rest (j : fat12_journal_t) (w : W) : bool * fat12_journal_t * W :=
if h_state (header j) =? FAT12_JOURNAL_CLEAN then (true, j, w)
else
  let '(ok, w) := restore_entries read write j (entry_indices (h_entry_count (header j))) w in
  if ok then fat12_journal_commit_locked read write j w else (false, j, w).

Lemma off_recover_rest j w :
off w → let '(ok, j', w') := recover_rest j w in off w' ∧ ∀ l, medium w' l = medium w l.
Proof using SectorLaws0.
intros Hoff. unfold recover_rest. destruct (_ =? _); [done|].
pose proof (off_restore_entries j (entry_indices (h_entry_count (header j))) w Hoff) as [Hoff2 Hm2].
destruct (restore_entries read write j _ w) as [[] w2]; cbn [fst snd] in *; [|done].
pose proof (off_commit j w2 Hoff2) as Hc2.
destruct (fat12_journal_commit_locked read write j w2) as [[ok3 j3] w3]. destruct Hc2 as [Hoff3 Hm3].
split; [done|]. intros l. by rewrite Hm3, Hm2.
Qed.

(** Rolling an active header back. *)
Lemma rollback_spec j w (allowed : image → Prop) undo old :
in_place j → chosen (medium w) = Some (header j) → one_active (header_at (medium w) P) (header_at (medium w) M) →
well_typed (header j) → h_state (header j) = FAT12_JOURNAL_ACTIVE → header_valid (header j) fp = true → allowed old →
h_entry_count (header j) = Z.of_nat (length undo) → undoes (medium w) (h_sequence (header j)) undo old →
let '(ok, j', w') := recover_rest j w in
settled (medium w') allowed ∧
(ok = true → idle j' (medium w') ∧ h_sequence (header j') = h_sequence (header j) ∧ same_volume (medium w') old) ∧
(healthy w → ok = true ∧ healthy w').
Proof using All.
intros Hpl Hch Hone Hwt Hact Hval Hal Hcount Hun. unfold recover_rest. rewrite Hact, Hcount.
cbn [Z.eqb FAT12_JOURNAL_ACTIVE FAT12_JOURNAL_CLEAN]. unfold entry_indices. rewrite Nat2Z.id.
assert (is_u64 (h_sequence (header j))) as Hs by by eapply chosen_sequence.
pose proof (restore_entries_spec j _ undo old (length undo) 0 w eq_refl Hpl eq_refl Hs Hun) as (R1 & R2 & R3 & R4).
{ intros t Ht. by apply elem_of_nil in Ht. }
destruct (restore_entries read write j _ w) as [ok2 w2]. cbn [fst snd] in *.
assert (header_at (medium w2) P = header_at (medium w) P ∧ header_at (medium w2) M = header_at (medium w) M) as [EP EM].
{ split; apply header_at_same, R2; unfold area; auto. }
assert (chosen (medium w2) = Some (header j)) as Hch2 by (unfold chosen; by rewrite EP, EM).
assert (leads (medium w2) allowed (header j)) as Hl2.
{ unfold leads. rewrite Hact. cbn [Z.eqb FAT12_JOURNAL_ACTIVE FAT12_JOURNAL_CLEAN]. split_and!; [done|done|]. by exists undo, old. }
rewrite <- EP, <- EM in Hone. destruct ok2.
- assert (same_volume (medium w2) old) as Hsame.
  { intros l Hl. destruct (decide (l ∈ map fst undo)) as [Hin|Hn]; [by apply R3|by apply (undoes_rest _ _ _ _ R1)]. }
  pose proof (close_spec j w2 old allowed (header j) Hpl eq_refl Hch2 Hact Hs Hwt Hl2 Hone Hsame Hal) as Hcl.
  destruct (fat12_journal_commit_locked read write j w2) as [[ok3 j3] w3].
  destruct Hcl as (C1 & C2 & C3 & C4). split_and!; [done| |].
  + intros Hok. destruct (C3 Hok) as [Hi Hsq]. split_and!; [done|done|].
    intros l Hl. rewrite C2 by by apply area_other. by apply Hsame.
  + intros Hh. apply C4. by apply R4.
- split_and!; [|done|intros Hh; by destruct (R4 Hh)].
  split; [|done]. intros h Hh. rewrite Hch2 in Hh. by injection Hh as <-.
Qed.

Lemma settled_idle j i allowed :
in_place j → settled i allowed → chosen i = Some (header j) → h_state (header j) = FAT12_JOURNAL_CLEAN →
idle j i ∧ ∃ img, allowed img ∧ same_volume i img.
Proof using.
intros Hpl [Hleads Hone] Hch Hcl. pose proof (Hleads _ Hch) as Hl. unfold leads in Hl.
rewrite Hcl in Hl. cbn [Z.eqb FAT12_JOURNAL_CLEAN] in Hl. split; [|done]. split_and!; [done|done|]. intros h Hh. split.
- destruct (decide (h_state h = FAT12_JOURNAL_CLEAN)) as [|Hn]; [done|]. by rewrite (Hone _ _ Hch Hh Hn).
- by eapply choose_max.
Qed.

Lemma recover_spec j w (allowed : image → Prop) :
in_place j → settled (medium w) allowed →
let '(ok, j', w') := fat12_journal_recover_locked read write j w in
settled (medium w') allowed ∧
(ok = true → off w' ∨ (idle j' (medium w') ∧ is_u64 (h_sequence (header j')) ∧
  ∃ img, allowed img ∧ same_volume (medium w') img)) ∧
(healthy w → chosen (medium w) ≠ None → ok = true ∧ healthy w').
Proof using All.
intros Hpl Hst. unfold fat12_journal_recover_locked.
pose proof (journal_load_spec j w Hpl) as Hload. destruct (fat12_journal_load_locked read j w) as [[ok j1] w1].
destruct Hload as (Hm & Hpl1 & _ & Hch & Hhl).
assert (settled (medium w1) allowed) as Hst1 by by eapply settled_same.
destruct ok; cbn [negb]; [|split_and!; [done|done|]; intros Hh Hc; by destruct (Hhl Hh) as (_ & H1 & _); discriminate H1].
fold (recover_rest j1 w1).
destruct Hch as [|[Hoff|Hch]]; [done| |].
{ (* the session of the device ended during the load *)
  pose proof (off_recover_rest j1 w1 Hoff) as Hr. destruct (recover_rest j1 w1) as [[ok2 j2] w2].
  destruct Hr as [Hoff2 Hm2]. split_and!; [by eapply settled_same|by left|]. intros Hh _. exfalso.
  destruct (Hhl Hh) as (Hh1 & _). assert (0 <= P < capacity) as HPc by (destruct Hplaced; lia).
  destruct (read_healthy (read := read) (write := write) w1 P Hh1 HPc) as [E _].
  by rewrite (off_read (read := read) (write := write) w1 P Hoff) in E. }
assert (chosen (medium w1) = Some (header j1)) as Hch1.
{ rewrite <- Hch. unfold chosen. by rewrite !(header_at_same (medium w) (medium w1)). }
destruct (decide (h_state (header j1) = FAT12_JOURNAL_CLEAN)) as [Ecl|Ecl].
- unfold recover_rest. rewrite (proj2 (Z.eqb_eq _ _) Ecl).
  destruct (settled_idle _ _ _ Hpl1 Hst1 Hch1 Ecl) as [Hidle Himg].
  split_and!; [done| |by intros Hh Hc; destruct (Hhl Hh)]. intros _. right. split_and!; [done| |done].
  by eapply chosen_sequence.
- destruct Hst1 as [Hleads Hone]. pose proof (Hleads _ Hch1) as Hl. unfold leads in Hl.
  rewrite (proj2 (Z.eqb_neq _ _) Ecl) in Hl. destruct Hl as (Hwt & Hval & undo & old & Hal & Hcount & Hun).
  assert (h_state (header j1) = FAT12_JOURNAL_ACTIVE) as Hact.
  { unfold header_valid in Hval. unfold FAT12_JOURNAL_CLEAN, FAT12_JOURNAL_ACTIVE in *.
    repeat (apply andb_true_iff in Hval as [Hval ?]). destruct Hwt as (_ & _ & _ & _ & _ & Hwt & _). lia. }
  pose proof (rollback_spec j1 w1 allowed undo old Hpl1 Hch1 Hone Hwt Hact Hval Hal Hcount Hun) as Hr.
  destruct (recover_rest j1 w1) as [[ok2 j2] w2]. destruct Hr as (R1 & R2 & R3). split_and!; [done| |].
  + intros Hok. destruct (R2 Hok) as (Hi & Hsq & Hsame). right. split_and!; [done| |by exists old].
    rewrite Hsq. by eapply chosen_sequence.
  + intros Hh _. apply R3. by destruct (Hhl Hh).
Qed.
End recovery.
