(* ===== verification/Fat12Volume.v ===== *)
(** Journalled sectors of a FAT12 volume: the transaction layer of
    src/fs/fat12/fat12.c, with src/fs/fat12/fat12_critical.c.

    [Module Fat12] holds the globals of the file as a record [volume] and the
    functions between the file operations and the floppy driver: mounting the
    safety area, reading and writing logical sectors, transactions, the FAT,
    sector remapping and the replicas of critical files.  A buffer of [count]
    sectors is the list of its sectors; the fields of the boot sector are those
    the functions use.  The driver is the pair of callbacks [read] and [write]
    ([fdc_read_logical_range] and [fdc_write_logical_range] on one sector),
    [read_range] on several, and [lock] is the wait for the operation mutex,
    which can time out.  Workspace buffers are local values; their owner mask
    is kept. *)
From S2P Require Import Prelude Layout SectorIo Fat12Journal Fat12Remap Fat12Replica.
Import Fat12Journal.

Module Fat12.

Definition FAT12_MIN_CLUSTER : Z := 2.
Definition FAT12_BAD_CLUSTER : Z := 0xFF7.
Definition FAT12_DEFECT_CONFIRM_READS : nat := 3.
Definition FAT12_REMAP_SPARE_COUNT : Z := 8.
Definition FAT12_SAFETY_RESERVED_SECTORS : Z :=
  2 + Z.of_nat FAT12_JOURNAL_MAX_ENTRIES * 2 + 3 + FAT12_REMAP_SPARE_COUNT +
  Fat12Replica.FAT12_REPLICA_RESERVED_SECTORS.
Definition FAT12_MIN_REIST_RESERVED_SECTORS : Z := 1 + FAT12_SAFETY_RESERVED_SECTORS.

(** Owners of the workspace buffers. *)
Definition FAT12_CORE_WORKSPACE_PREPARE : Z := 1.
Definition FAT12_CORE_WORKSPACE_DEFECT : Z := 2.
Definition FAT12_CORE_WORKSPACE_WRITE : Z := 4.
Definition FAT12_CORE_WORKSPACE_REMAP : Z := 8.

Record fat12_boot_sector := Boot {
  bytes_per_sector : Z;
  sectors_per_cluster : Z;
  reserved_sectors : Z;
  fat_count : Z;
  small_total_sectors : Z;
  sectors_per_fat : Z;
  total_sectors_large : Z;
  volume_id : Z;
  fs_type : list Z
}.

Record fat12_t := Mounted {
  boot_sector : fat12_boot_sector;
  fat_start : Z;
  data_start : Z;
  fat : option (list Z);
  journal_enabled : bool;
  journal : fat12_journal_t;
  remap_enabled : bool;
  remap : Fat12Remap.fat12_remap_table_t;
  replica_enabled : bool;
  replicas : list Fat12Replica.fat12_replica_t;
  transaction_active : bool;
  write_fenced : bool
}.

Definition set_journal (f : fat12_t) (j : fat12_journal_t) : fat12_t :=
  Mounted (boot_sector f) (fat_start f) (data_start f) (fat f) (journal_enabled f) j
    (remap_enabled f) (remap f) (replica_enabled f) (replicas f) (transaction_active f) (write_fenced f).
Definition set_remap (f : fat12_t) (t : Fat12Remap.fat12_remap_table_t) : fat12_t :=
  Mounted (boot_sector f) (fat_start f) (data_start f) (fat f) (journal_enabled f) (journal f)
    (remap_enabled f) t (replica_enabled f) (replicas f) (transaction_active f) (write_fenced f).
Definition set_replicas (f : fat12_t) (rs : list Fat12Replica.fat12_replica_t) : fat12_t :=
  Mounted (boot_sector f) (fat_start f) (data_start f) (fat f) (journal_enabled f) (journal f)
    (remap_enabled f) (remap f) (replica_enabled f) rs (transaction_active f) (write_fenced f).
Definition set_fat (f : fat12_t) (bytes : list Z) : fat12_t :=
  Mounted (boot_sector f) (fat_start f) (data_start f) (Some bytes) (journal_enabled f) (journal f)
    (remap_enabled f) (remap f) (replica_enabled f) (replicas f) (transaction_active f) (write_fenced f).
Definition set_active (f : fat12_t) (b : bool) : fat12_t :=
  Mounted (boot_sector f) (fat_start f) (data_start f) (fat f) (journal_enabled f) (journal f)
    (remap_enabled f) (remap f) (replica_enabled f) (replicas f) b (write_fenced f).
Definition set_fenced (f : fat12_t) : fat12_t :=
  Mounted (boot_sector f) (fat_start f) (data_start f) (fat f) (journal_enabled f) (journal f)
    (remap_enabled f) (remap f) (replica_enabled f) (replicas f) (transaction_active f) true.
(** The flags at the end of a successful mount. *)
Definition set_ready (f : fat12_t) : fat12_t :=
  Mounted (boot_sector f) (fat_start f) (data_start f) (fat f) true (journal f)
    true (remap f) true (replicas f) false false.

Definition total_sectors (f : fat12_t) : Z :=
  if small_total_sectors (boot_sector f) =? 0 then total_sectors_large (boot_sector f)
  else small_total_sectors (boot_sector f).

(** The seven characters of REIST12. *)
Definition REIST12 : list Z := [82; 69; 73; 83; 84; 49; 50].

Definition is_reist (f : fat12_t) : bool := bool_decide (take 7 (fs_type (boot_sector f)) = REIST12).

Definition fat12_write_supported (f : fat12_t) : bool :=
  let id := volume_id (boot_sector f) in
  match fat f with Some _ => true | None => false end &&
  negb (write_fenced f) && journal_enabled f && remap_enabled f && replica_enabled f &&
  (FAT12_MIN_REIST_RESERVED_SECTORS <=? reserved_sectors (boot_sector f)) && is_reist f &&
  negb (id =? 0) && (media_fingerprint (journal f) =? id) &&
  (h_media_fingerprint (header (journal f)) =? id) &&
  (Fat12Remap.media_fingerprint (remap f) =? id) &&
  (Fat12Remap.h_media_fingerprint (Fat12Remap.header (remap f)) =? id) &&
  forallb (λ r, Fat12Replica.media_fingerprint r =? id) (replicas f).

Definition fat12_remap_sector (f : fat12_t) (sector : Z) : Z :=
  if remap_enabled f then default sector (Fat12Remap.fat12_remap_lookup (remap f) sector) else sector.

(** ** The FAT *)
Definition fat12_cluster_count (f : fat12_t) : Z :=
  let b := boot_sector f in
  if (sectors_per_cluster b =? 0) || (total_sectors f <=? data_start f) then 0
  else
    let clusters := (total_sectors f - data_start f) / sectors_per_cluster b in
    let fat_entries := u32 (u32 (sectors_per_fat b * bytes_per_sector b) * 2) / 3 in
    if fat_entries <=? 2 then 0
    else if fat_entries - 2 <? clusters then fat_entries - 2 else clusters.

(** A byte of the FAT; [None] is an access outside the buffer. *)
Definition fat_byte (f : fat12_t) (offset : Z) : option Z :=
  match fat f with Some bytes => bytes !! Z.to_nat offset | None => None end.

Definition cluster_in_range (f : fat12_t) (cluster : Z) : bool :=
  (FAT12_MIN_CLUSTER <=? cluster) && (cluster <? fat12_cluster_count f + 2).

Definition fat12_get_fat_entry (f : fat12_t) (cluster : Z) : option Z :=
  match fat f with
  | None => Some FAT12_BAD_CLUSTER
  | Some _ =>
    if negb (cluster_in_range f cluster) then Some FAT12_BAD_CLUSTER
    else
      let offset := cluster + cluster / 2 in
      match fat_byte f offset, fat_byte f (offset + 1) with
      | Some low, Some high =>
        let packed := Z.lor low (u16 (Z.shiftl high 8)) in
        Some (if negb (Z.land cluster 1 =? 0) then Z.shiftr packed 4 else Z.land packed 0x0FFF)
      | _, _ => None
      end
  end.

(** The result and the volume; [None] is an access outside the buffer. *)
Definition fat12_set_fat_entry (f : fat12_t) (cluster value : Z) : option (bool * fat12_t) :=
  if negb (fat12_write_supported f) || negb (cluster_in_range f cluster) then Some (false, f)
  else
    let offset := cluster + cluster / 2 in
    let value := Z.land value 0x0FFF in
    match fat f, fat_byte f offset, fat_byte f (offset + 1) with
    | Some bytes, Some low, Some high =>
      let i := Z.to_nat offset in
      Some (true, set_fat f
        (if Z.land cluster 1 =? 0
         then <[S i := Z.lor (Z.land high 0xF0) (Z.shiftr value 8)]> (<[i := u8 value]> bytes)
         else <[S i := u8 (Z.shiftr value 4)]> (<[i := u8 (Z.lor (Z.land low 0x0F) (Z.shiftl value 4))]> bytes)))
    | _, _, _ => None
    end.

(** ** Names of the critical files *)
Definition to_lower (c : Z) : Z := if (65 <=? c) && (c <=? 90) then c + 32 else c.
Definition same_name (a b : list Z) : bool :=
  (length a =? length b)%nat && bool_decide (map to_lower a = map to_lower b).

(** REIST.CFG, STORAGE.CFG and BOOT.CFG. *)
Definition critical_names : list (list Z) :=
  [[82; 69; 73; 83; 84; 46; 67; 70; 71]; [83; 84; 79; 82; 65; 71; 69; 46; 67; 70; 71];
   [66; 79; 79; 84; 46; 67; 70; 71]].

Definition fat12_is_critical_name (name : list Z) : bool := existsb (same_name name) critical_names.

Fixpoint slot_of (name : list Z) (slot : nat) (names : list (list Z)) : option nat :=
  match names with
  | [] => None
  | n :: names => if same_name name n then Some slot else slot_of name (S slot) names
  end.

Definition fat12_critical_replica_slot (name : list Z) : option nat :=
  if fat12_is_critical_name name then slot_of name 0 critical_names else None.

(** ** The volume *)
Record volume (W : Type) := Volume {
  fat12 : option fat12_t;
  fat12_journal_sequence : Z;
  in_use_mask : Z;
  device : W
}.
#[global] Arguments Volume {W}.
#[global] Arguments fat12 {W}.
#[global] Arguments fat12_journal_sequence {W}.
#[global] Arguments in_use_mask {W}.
#[global] Arguments device {W}.

Section operations.
Context {W : Type} (read : W → Z → bool * list Z * W) (write : W → Z → list Z → bool * W).
Context (read_range : W → Z → nat → bool * list (list Z) * W) (lock : W → bool * W).

Definition set_fat12 (v : volume W) (f : fat12_t) : volume W :=
Volume (Some f) (fat12_journal_sequence v) (in_use_mask v) (device v).
Definition set_device (v : volume W) (w : W) : volume W :=
Volume (fat12 v) (fat12_journal_sequence v) (in_use_mask v) w.
Definition set_sequence (v : volume W) (s : Z) : volume W :=
Volume (fat12 v) s (in_use_mask v) (device v).
Definition set_mask (v : volume W) (mask : Z) : volume W :=
Volume (fat12 v) (fat12_journal_sequence v) mask (device v).

(** Calls of the driver and of the journal on the volume. *)
Definition fdc_read (v : volume W) (sector : Z) : bool * list Z * volume W :=
let '(ok, data, w) := read (device v) sector in (ok, data, set_device v w).
Definition fdc_write (v : volume W) (sector : Z) (data : list Z) : bool * volume W :=
let '(ok, w) := write (device v) sector data in (ok, set_device v w).
Definition fdc_verify (sector : Z) (data : list Z) (v : volume W) : bool * volume W :=
let '(ok, w) := read_equal read sector data (device v) in (ok, set_device v w).
Definition on_journal (call : fat12_journal_t → W → bool * fat12_journal_t * W) (v : volume W)
  : bool * volume W :=
match fat12 v with
| None => (false, v)
| Some f =>
    let '(ok, j, w) := call (journal f) (device v) in
    (ok, set_device (set_fat12 v (set_journal f j)) w)
end.

Definition fat12_core_workspace_claim (owner : Z) (v : volume W) : bool * volume W :=
let '(locked, w) := lock (device v) in
let v := set_device v w in
if negb locked then (false, v)
else if negb (Z.land (in_use_mask v) owner =? 0) then (false, v)
else (true, set_mask v (Z.lor (in_use_mask v) owner)).

Definition fat12_core_workspace_release (owner : Z) (v : volume W) : volume W :=
set_mask v (Z.ldiff (in_use_mask v) owner).

(** [claim], the body, [release]. *)
Definition with_workspace (owner : Z) (body : volume W → bool * volume W) (v : volume W)
  : bool * volume W :=
let '(claimed, v) := fat12_core_workspace_claim owner v in
if negb claimed then (false, v)
else
  let '(result, v) := body v in
  (result, fat12_core_workspace_release owner v).

(** ** Mounting *)
Definition mount_journal (base : Z) (f : fat12_t) (v : volume W) : bool * volume W :=
match fat12_journal_format base (base + 1) (base + 2) (volume_id (boot_sector f)) with
| None => (false, v)
| Some j =>
    let v := set_fat12 v (set_journal f j) in
    let '(primary_ok, _, v) := fdc_read v base in
    let '(mirror_ok, _, v) := fdc_read v (base + 1) in
    if negb primary_ok || negb mirror_ok then (false, v)
    else
      (on_journal (fat12_journal_load read) AND on_journal (fat12_journal_recover read write))%io v
end.

Definition mount_remap (base : Z) (v : volume W) : bool * volume W :=
match fat12 v with
| None => (false, v)
| Some f =>
    match Fat12Remap.fat12_remap_format base (base + 1) (base + 2) (volume_id (boot_sector f)) with
    | None => (false, v)
    | Some t =>
        let '(ok, t, w) := Fat12Remap.fat12_remap_load read t (device v) in
        (ok, set_device (set_fat12 v (set_remap f t)) w)
    end
end.

Fixpoint mount_replicas (base : Z) (slots : list nat) (f : fat12_t) : bool * fat12_t :=
match slots with
| [] => (true, f)
| slot :: slots =>
    let primary := base + Z.of_nat slot * Fat12Replica.FAT12_REPLICA_SLOT_SECTORS in
    match Fat12Replica.fat12_replica_init primary
            (primary + 1 + Z.of_nat Fat12Replica.FAT12_REPLICA_DATA_SECTORS)
            (volume_id (boot_sector f)) with
    | None => (false, f)
    | Some r => mount_replicas base slots (set_replicas f (<[slot := r]> (replicas f)))
    end
end.

Definition finish_mount (replica_base : Z) (v : volume W) : bool * volume W :=
match fat12 v with
| None => (false, v)
| Some f =>
    let '(ok, f) := mount_replicas replica_base (seq 0 Fat12Replica.FAT12_REPLICA_FILE_COUNT) f in
    if negb ok then (false, set_fat12 v f)
    else (true, set_sequence (set_fat12 v (set_ready f)) (h_sequence (header (journal f))))
end.

Definition replica_base (f : fat12_t) : Z :=
reserved_sectors (boot_sector f) - Fat12Replica.FAT12_REPLICA_RESERVED_SECTORS.
Definition remap_base (f : fat12_t) : Z := replica_base f - FAT12_REMAP_SPARE_COUNT - 3.
Definition journal_base (f : fat12_t) : Z := remap_base f - (2 + Z.of_nat FAT12_JOURNAL_MAX_ENTRIES * 2).

Definition fat12_journal_prepare (v : volume W) : bool * volume W :=
match fat12 v with
| None => (false, v)
| Some f =>
    if negb (is_reist f) then (true, v)
    else if (reserved_sectors (boot_sector f) <? FAT12_MIN_REIST_RESERVED_SECTORS) ||
            (volume_id (boot_sector f) =? 0) then (false, v)
    else
      with_workspace FAT12_CORE_WORKSPACE_PREPARE
        (mount_journal (journal_base f) f AND mount_remap (remap_base f) AND
         finish_mount (replica_base f))%io v
end.

(** ** Transactions *)
Definition fat12_transaction_fail (v : volume W) : volume W :=
match fat12 v with None => v | Some f => set_fat12 v (set_fenced f) end.

Definition fat12_transaction_begin (maximum_unique_sectors : Z) (v : volume W) : bool * volume W :=
match fat12 v with
| None => (false, v)
| Some f =>
    if negb (fat12_write_supported f) || transaction_active f ||
       (maximum_unique_sectors =? 0) ||
       (Z.of_nat FAT12_JOURNAL_MAX_ENTRIES <? maximum_unique_sectors) ||
       (fat12_journal_sequence v =? UINT64_MAX)
    then (false, v)
    else
      let v := set_sequence v (fat12_journal_sequence v + 1) in
      let '(ok, v) := on_journal
        (λ j w, fat12_journal_begin read write j (fat12_journal_sequence v) w) v in
      if negb ok then (false, fat12_transaction_fail v)
      else match fat12 v with
           | None => (false, v)
           | Some f => (true, set_fat12 v (set_active f true))
           end
end.

Definition fat12_transaction_commit (v : volume W) : bool * volume W :=
match fat12 v with
| None => (false, v)
| Some f =>
    if negb (transaction_active f) || write_fenced f then (false, v)
    else
      let '(ok, v) := on_journal (fat12_journal_commit read write) v in
      if negb ok then (false, fat12_transaction_fail v)
      else match fat12 v with
           | None => (false, v)
           | Some f => (true, set_fat12 v (set_active f false))
           end
end.

(** ** Logical sectors *)
Fixpoint read_loop (f : fat12_t) (sectors : list Z) (v : volume W) : bool * list (list Z) * volume W :=
match sectors with
| [] => (true, [], v)
| sector :: sectors =>
    let '(ok, data, v) := fdc_read v (fat12_remap_sector f sector) in
    if negb ok then (false, [], v)
    else
      let '(ok, rest, v) := read_loop f sectors v in (ok, data :: rest, v)
end.

Definition sectors_from (sector : Z) (count : nat) : list Z :=
map (λ i, sector + Z.of_nat i) (seq 0 count).

Definition fat12_read_logical_sectors (logical_sector : Z) (count : nat) (v : volume W)
  : bool * list (list Z) * volume W :=
match fat12 v with
| None => (false, [], v)
| Some f =>
    if (count =? 0)%nat || (total_sectors f <=? logical_sector) ||
       (total_sectors f - logical_sector <? Z.of_nat count) then (false, [], v)
    else if negb (remap_enabled f) then
      let '(ok, data, w) := read_range (device v) logical_sector count in (ok, data, set_device v w)
    else read_loop f (sectors_from logical_sector count) v
end.

(** One turn of the write loop. *)
Definition write_one (sector : Z) (data : list Z) (v : volume W) : bool * volume W :=
match fat12 v with
| None => (false, v)
| Some f =>
    let physical := fat12_remap_sector f sector in
    let '(ok, old, v) := fat12_read_logical_sectors sector 1 v in
    if negb ok then (false, v)
    else
      (on_journal (λ j w, fat12_journal_record read write j sector (hd [] old) w) AND
       (λ v, fdc_write v physical data) AND
       fdc_verify physical data)%io v
end.

Fixpoint write_loop (sector : Z) (input : list (list Z)) (v : volume W) : bool * volume W :=
match input with
| [] => (true, v)
| data :: input =>
    let '(ok, v) := write_one sector data v in
    if negb ok then (false, fat12_transaction_fail v)
    else write_loop (sector + 1) input v
end.

Definition fat12_write_logical_sectors (logical_sector : Z) (input : list (list Z)) (v : volume W)
  : bool * volume W :=
match fat12 v with
| None => (false, v)
| Some f =>
    let count := Z.of_nat (length input) in
    if negb (fat12_write_supported f) || (count =? 0) || (total_sectors f <=? logical_sector) ||
       (total_sectors f - logical_sector <? count) ||
       (Z.of_nat FAT12_JOURNAL_MAX_ENTRIES <? count) then (false, v)
    else
      with_workspace FAT12_CORE_WORKSPACE_WRITE
        (λ v,
           if transaction_active f then write_loop logical_sector input v
           else
             (fat12_transaction_begin count AND write_loop logical_sector input AND
              fat12_transaction_commit)%io v) v
end.

(** A batch of at most [FAT12_JOURNAL_MAX_ENTRIES] sectors at a time. *)
Fixpoint write_batches (fuel : nat) (sector : Z) (input : list (list Z)) (v : volume W) : bool * volume W :=
match input, fuel with
| [], _ => (true, v)
| _, O => (false, v)
| _, S fuel =>
    (fat12_write_logical_sectors sector (take FAT12_JOURNAL_MAX_ENTRIES input) AND
     write_batches fuel (sector + Z.of_nat FAT12_JOURNAL_MAX_ENTRIES) (drop FAT12_JOURNAL_MAX_ENTRIES input))%io v
end.

(** [bytes] as [count] sectors. *)
Fixpoint sectors_of (count : nat) (bytes : list Z) : list (list Z) :=
match count with
| O => []
| S count => take FAT12_SECTOR_SIZE bytes :: sectors_of count (drop FAT12_SECTOR_SIZE bytes)
end.

Fixpoint sync_copies (copies : list nat) (start sectors : Z) (input : list (list Z)) (v : volume W)
  : bool * volume W :=
match copies with
| [] => (true, v)
| copy :: copies =>
    (write_batches (length input) (start + Z.of_nat copy * sectors) input AND
     sync_copies copies start sectors input)%io v
end.

Definition fat12_sync_fat (v : volume W) : bool * volume W :=
match fat12 v with
| None => (false, v)
| Some f =>
    match fat f with
    | None => (false, v)
    | Some bytes =>
        if negb (fat12_write_supported f) then (false, v)
        else
          let b := boot_sector f in
          sync_copies (seq 0 (Z.to_nat (fat_count b))) (fat_start f) (sectors_per_fat b)
            (sectors_of (Z.to_nat (sectors_per_fat b)) bytes) v
    end
end.

(** ** Defective sectors *)
Fixpoint probe_loop (attempts : nat) (sector : Z) (v : volume W) : bool * volume W :=
match attempts with
| O => (true, v)
| S attempts =>
    let '(ok, _, v) := fdc_read v sector in
    if ok then (false, v) else probe_loop attempts sector v
end.

Definition fat12_confirm_sector_defect (sector : Z) (v : volume W) : bool * volume W :=
with_workspace FAT12_CORE_WORKSPACE_DEFECT
  (probe_loop FAT12_DEFECT_CONFIRM_READS sector) v.

Fixpoint confirm_any (sectors : list Z) (v : volume W) : bool * volume W :=
match sectors with
| [] => (false, v)
| sector :: sectors =>
    let '(confirmed, v) := fat12_confirm_sector_defect sector v in
    if confirmed then (true, v) else confirm_any sectors v
end.

(** [None] is an access outside the FAT buffer. *)
Definition fat12_quarantine_data_cluster (cluster : Z) (v : volume W) : option (bool * volume W) :=
match fat12 v with
| None => Some (false, v)
| Some f =>
    if negb (fat12_write_supported f) || negb (cluster_in_range f cluster) then Some (false, v)
    else
      match fat12_get_fat_entry f cluster with
      | None => None
      | Some previous =>
        if previous =? FAT12_BAD_CLUSTER then Some (true, v)
        else
          let per_cluster := sectors_per_cluster (boot_sector f) in
          let first_sector := data_start f + (cluster - FAT12_MIN_CLUSTER) * per_cluster in
          let '(confirmed, v) :=
            confirm_any (sectors_from first_sector (Z.to_nat per_cluster)) v in
          if negb confirmed then Some (false, v)
          else
            match fat12_set_fat_entry f cluster FAT12_BAD_CLUSTER with
            | None => None
            | Some (false, _) => Some (false, v)
            | Some (true, f) =>
                let '(synced, v) := fat12_sync_fat (set_fat12 v f) in
                if synced then Some (true, v)
                else
                  match fat12 v with
                  | None => Some (false, v)
                  | Some f =>
                      match fat12_set_fat_entry f cluster previous with
                      | None => None
                      | Some (_, f) => Some (false, set_fat12 v f)
                      end
                  end
            end
      end
end.

(** The first spare sector that no entry uses. *)
Definition spare_used (t : Fat12Remap.fat12_remap_table_t) (candidate : Z) : bool :=
existsb (λ e, Fat12Remap.replacement_sector e =? candidate)
  (Fat12Remap.used (Fat12Remap.h_entry_count (Fat12Remap.header t)) (Fat12Remap.entries t)).

Definition free_spare (f : fat12_t) : Z :=
let spare_start := reserved_sectors (boot_sector f) - Fat12Replica.FAT12_REPLICA_RESERVED_SECTORS -
  FAT12_REMAP_SPARE_COUNT in
default 0 (find (λ candidate, negb (spare_used (remap f) candidate))
  (sectors_from spare_start (Z.to_nat FAT12_REMAP_SPARE_COUNT))).

Definition on_remap
  (call : Fat12Remap.fat12_remap_table_t → W → bool * Fat12Remap.fat12_remap_table_t * W)
  (v : volume W) : bool * volume W :=
match fat12 v with
| None => (false, v)
| Some f =>
    let '(ok, t, w) := call (remap f) (device v) in
    (ok, set_device (set_fat12 v (set_remap f t)) w)
end.

Definition fat12_install_sector_remap (bad_sector : Z) (recovered_sector : list Z) (v : volume W)
  : bool * volume W :=
match fat12 v with
| None => (false, v)
| Some f =>
    if negb (fat12_write_supported f) ||
       (reserved_sectors (boot_sector f) <?
        23 + FAT12_REMAP_SPARE_COUNT + Fat12Replica.FAT12_REPLICA_RESERVED_SECTORS) ||
       (bad_sector <? fat_start f) || (data_start f <=? bad_sector) then (false, v)
    else
      with_workspace FAT12_CORE_WORKSPACE_REMAP
        (fat12_confirm_sector_defect bad_sector AND
         (λ v,
            match Fat12Remap.fat12_remap_lookup (remap f) bad_sector with
            | Some _ => (false, v)
            | None =>
                let replacement := free_spare f in
                if replacement =? 0 then (false, v)
                else
                  ((λ v, fdc_write v replacement recovered_sector) AND
                   fdc_verify replacement recovered_sector AND
                   on_remap (λ t w, Fat12Remap.fat12_remap_add read write t bad_sector replacement w))%io v
            end))%io v
end.

(** ** Replicas of critical files *)
Definition fat12_replica_read_sector (v : volume W) (sector : Z) : bool * list Z * volume W :=
let '(ok, data, v) := fat12_read_logical_sectors sector 1 v in (ok, hd [] data, v).
Definition fat12_replica_write_sector (v : volume W) (sector : Z) (data : list Z) : bool * volume W :=
fat12_write_logical_sectors sector [data] v.

(** The replica of a slot lives in the volume; the calls on it change both. *)
Definition store_replica (slot : nat) (r : Fat12Replica.fat12_replica_t) (v : volume W) : volume W :=
match fat12 v with
| None => v
| Some f => set_fat12 v (set_replicas f (<[slot := r]> (replicas f)))
end.

Definition fat12_publish_critical_replica (name data : list Z) (v : volume W) : bool * volume W :=
match fat12 v, fat12_critical_replica_slot name with
| Some f, Some slot =>
    match replicas f !! slot with
    | None => (false, v)
    | Some r =>
        if negb (fat12_write_supported f) || (length data =? 0)%nat ||
           (Fat12Replica.FAT12_REPLICA_MAX_BYTES <? length data)%nat then (false, v)
        else
          let '(loaded, r, v) := Fat12Replica.fat12_replica_load fat12_replica_read_sector r v in
          let newest := Z.max (Fat12Replica.h_sequence (Fat12Replica.primary_header r))
            (Fat12Replica.h_sequence (Fat12Replica.mirror_header r)) in
          let v := store_replica slot r v in
          if loaded && (newest =? UINT64_MAX) then (false, v)
          else
            let sequence := if loaded then newest + 1 else 1 in
            let '(ok, r, v) := Fat12Replica.fat12_replica_publish_persistent
              fat12_replica_read_sector fat12_replica_write_sector r data sequence v in
            (ok, store_replica slot r v)
    end
| _, _ => (false, v)
end.

(** The bytes read, or [None] where the function returns false. *)
Definition fat12_read_critical_replica (name : list Z) (capacity : nat) (v : volume W)
  : option (list Z) * volume W :=
match fat12 v, fat12_critical_replica_slot name with
| Some f, Some slot =>
    match replicas f !! slot with
    | None => (None, v)
    | Some r =>
        if negb (replica_enabled f) then (None, v)
        else
          let '(loaded, r, v) := Fat12Replica.fat12_replica_load fat12_replica_read_sector r v in
          (if loaded then Fat12Replica.fat12_replica_select r capacity else None, store_replica slot r v)
    end
| _, _ => (None, v)
end.
End operations.
End Fat12.
