(* ===== verification/Fat12VolumeSpec.v ===== *)
(** Sessions on a journalled FAT12 volume.

    [mounted] and [writing] relate the globals of fat12.c and the medium to the
    volume that a caller sees, between and inside transactions; each function
    of the transaction layer is shown to move between them or to leave a medium
    that recovery settles. *)
From S2P Require Import Prelude Layout AtaJournal AtaDisk SectorIo.
From S2P Require Import Fat12Journal Fat12Remap Fat12Replica Fat12Recovery Fat12Volume.
Import Fat12Journal Fat12.

Lemma and_io_spec {W} (a b : W → bool * W) (w : W) (Q : bool * W → Prop) :
  (∀ w', a w = (true, w') → Q (b w')) → (∀ w', a w = (false, w') → Q (false, w')) → Q (and_io a b w).
Proof. unfold and_io. destruct (a w) as [[] w']; auto. Qed.

(** The scratch owner flag does not matter to the journal. *)
Lemma locked_free {W} (body : fat12_journal_t → W → bool * fat12_journal_t * W) j w :
  scratch_in_use j = false →
  locked body j w = let '(r, j', w') := body (set_in_use j true) w in (r, set_in_use j' false, w').
Proof. intros E. unfold locked, fat12_journal_scratch_begin. by rewrite E. Qed.

Section volume.
Context {W : Type} (read : W → Z → bool * list Z * W) (write : W → Z → list Z → bool * W).
Context (read_range : W → Z → nat → bool * list (list Z) * W) (lock : W → bool * W).
Context (capacity : Z) (damaged : list Z → Prop) `{!SectorDevice W}.
Context `{!SectorLaws read write capacity damaged} `{!LockLaws lock}.

(** The boot sector of the volume, and what makes it fit the device. *)
Context (b : fat12_boot_sector).

Definition volume_sectors : Z :=
if small_total_sectors b =? 0 then total_sectors_large b else small_total_sectors b.
Definition base : Z :=
reserved_sectors b - Fat12Replica.FAT12_REPLICA_RESERVED_SECTORS - FAT12_REMAP_SPARE_COUNT - 3 -
(2 + Z.of_nat FAT12_JOURNAL_MAX_ENTRIES * 2).

Record volume_fits : Prop := {
  fits_reserved : FAT12_MIN_REIST_RESERVED_SECTORS <= reserved_sectors b <= volume_sectors;
  fits_capacity : volume_sectors <= capacity;
  fits_width : reserved_sectors b <= 65535 ∧ capacity <= UINT32_MAX;
  fits_volume : is_u32 (volume_id b) ∧ volume_id b ≠ 0;
  fits_damage x : damaged x → header_valid (sector_header x) (volume_id b) = false
}.
Context (Hfits : volume_fits).

Lemma volume_placed : placed capacity damaged base (base + 1) (base + 2) (volume_id b).
Proof using Hfits.
destruct Hfits. unfold FAT12_MIN_REIST_RESERVED_SECTORS, FAT12_SAFETY_RESERVED_SECTORS,
  FAT12_JOURNAL_MAX_ENTRIES, Fat12Replica.FAT12_REPLICA_RESERVED_SECTORS, FAT12_REMAP_SPARE_COUNT, UINT32_MAX in *.
split; unfold base, FAT12_JOURNAL_MAX_ENTRIES, Fat12Replica.FAT12_REPLICA_RESERVED_SECTORS,
  FAT12_REMAP_SPARE_COUNT, UINT32_MAX; try done; lia.
Qed.

(** The journal's sectors; the others make up the volume. *)
Definition journal_area (l : Z) : Prop := base <= l < base + 130.

Lemma journal_area_spec l : area base (base + 1) (base + 2) l ↔ journal_area l.
Proof using. unfold area, journal_area. lia. Qed.

Abbreviation settled := (settled capacity base (base + 1) (base + 2) (volume_id b)).
Abbreviation idle := (idle base (base + 1) (base + 2) (volume_id b)).
Abbreviation active := (active capacity base (base + 1) (base + 2) (volume_id b)).
Abbreviation same_volume := (same_volume base (base + 1) (base + 2)).

Definition content (v : volume W) : image := medium (device v).

Record mounted (f : fat12_t) (v : volume W) (img : image) : Prop := {
  mounted_fat12 : fat12 v = Some f;
  mounted_boot : boot_sector f = b;
  mounted_idle : idle (journal f) (content v);
  mounted_scratch : scratch_in_use (journal f) = false;
  mounted_volume : same_volume (content v) img;
  mounted_closed : transaction_active f = false;
  mounted_sequence : h_sequence (header (journal f)) <= fat12_journal_sequence v ∧
    is_u64 (fat12_journal_sequence v)
}.

Record writing (f : fat12_t) (v : volume W) (old cur : image) (undo : list (Z * list Z)) : Prop := {
  writing_fat12 : fat12 v = Some f;
  writing_boot : boot_sector f = b;
  writing_active : active (journal f) (content v) old undo;
  writing_scratch : scratch_in_use (journal f) = false;
  writing_volume : same_volume (content v) cur;
  writing_open : transaction_active f = true;
  writing_sequence : h_sequence (header (journal f)) = fat12_journal_sequence v
}.

(** [f'] is [f] up to the journal and the flags of the transaction. *)
Definition same_mount (f f' : fat12_t) : Prop :=
f' = Mounted (boot_sector f) (fat_start f) (data_start f) (fat f) (journal_enabled f) (journal f')
  (remap_enabled f) (remap f) (replica_enabled f) (replicas f) (transaction_active f') (write_fenced f').

Lemma same_mount_refl f : same_mount f f.
Proof using. by destruct f. Qed.
Lemma same_mount_trans f1 f2 f3 : same_mount f1 f2 → same_mount f2 f3 → same_mount f1 f3.
Proof using. unfold same_mount. intros H1 H2. rewrite H2. by rewrite H1. Qed.
Lemma same_mount_journal f j : same_mount f (set_journal f j).
Proof using. by destruct f. Qed.
Lemma same_mount_active f x : same_mount f (set_active f x).
Proof using. by destruct f. Qed.
Lemma same_mount_fenced f : same_mount f (set_fenced f).
Proof using. by destruct f. Qed.
Lemma same_mount_boot f f' : same_mount f f' → boot_sector f' = boot_sector f.
Proof using. intros H. by rewrite H. Qed.
Lemma same_mount_remap f f' s : same_mount f f' → fat12_remap_sector f' s = fat12_remap_sector f s.
Proof using. intros H. by rewrite H. Qed.

(** A journal of this volume keeps writes supported. *)
Lemma supported_journal f f' :
same_mount f f' → fat12_write_supported f = true → boot_sector f = b → write_fenced f' = false →
media_fingerprint (journal f') = volume_id b → h_media_fingerprint (header (journal f')) = volume_id b →
fat12_write_supported f' = true.
Proof using.
intros H Hs Hb Hfe Hj Hh. rewrite H. unfold fat12_write_supported in *.
destruct f as [fb ? ? fa ? fj ? ? ? ? ? ?]. cbn in *. subst fb. rewrite Hj, Hh, Hfe, Z.eqb_refl.
repeat (apply andb_true_iff in Hs as [Hs ?]). by repeat (apply andb_true_iff; split).
Qed.

Lemma supported_facts f :
fat12_write_supported f = true → write_fenced f = false ∧ remap_enabled f = true.
Proof using.
intros Hs. unfold fat12_write_supported in Hs. repeat (apply andb_true_iff in Hs as [Hs ?]).
split; [|done]. by apply negb_true_iff.
Qed.

Lemma active_fingerprints j i old undo :
active j i old undo → media_fingerprint j = volume_id b ∧ h_media_fingerprint (header j) = volume_id b.
Proof using.
intros [(_ & _ & _ & Hj) _ Hh _ _ _ _ _]. split; [done|]. by destruct Hh.
Qed.

Lemma idle_scratch j i x : idle j i ↔ idle (set_in_use j x) i.
Proof using. done. Qed.
Lemma active_scratch j i old undo x : active j i old undo → active (set_in_use j x) i old undo.
Proof using. intros []. by split. Qed.

(** What every step keeps: the mask, and the mount up to the journal. *)
Definition steady (f : fat12_t) (v v' : volume W) : Prop :=
in_use_mask v' = in_use_mask v ∧ ∃ f', fat12 v' = Some f' ∧ same_mount f f'.

Lemma steady_refl f v : fat12 v = Some f → steady f v v.
Proof using. intros E. split; [done|]. exists f. split; [done|apply same_mount_refl]. Qed.

Lemma steady_device f v w : fat12 v = Some f → steady f v (set_device v w).
Proof using. intros E. split; [done|]. exists f. split; [done|apply same_mount_refl]. Qed.
Lemma steady_trans f v v1 v2 f1 : steady f v v1 → fat12 v1 = Some f1 → steady f1 v1 v2 → steady f v v2.
Proof using.
intros [E1 (f' & Hf' & H1)] Hf1 [E2 (f2 & Hf2 & H2)]. split; [congruence|]. exists f2. split; [done|].
rewrite Hf1 in Hf'. injection Hf' as <-. by eapply same_mount_trans.
Qed.

(** ** Beginning and committing *)
Lemma begin_transaction_spec f v img (allowed : image → Prop) n :
mounted f v img → allowed img →
let '(ok, v') := fat12_transaction_begin read write n v in
settled (content v') allowed ∧ steady f v v' ∧
(ok = true → ∃ f', writing f' v' img img [] ∧ write_fenced f' = write_fenced f) ∧
(healthy (device v) → fat12_write_supported f = true → 1 <= n <= Z.of_nat FAT12_JOURNAL_MAX_ENTRIES →
 fat12_journal_sequence v < UINT64_MAX → ok = true ∧ healthy (device v')).
Proof using All.
intros [Hf Hb Hi Hsc Hv Hc [Hle Hseq]] Ha. unfold fat12_transaction_begin. rewrite Hf, Hc.
pose proof (idle_settled capacity _ _ _ _ _ _ allowed img Hi Ha Hv) as Hset.
destruct (_ || _) eqn:Eg.
{ split_and!; [done|by apply steady_refl|done|]. intros _ Hs Hn Hlt. exfalso. revert Eg.
  rewrite Hs, (proj2 (Z.eqb_neq n 0)), (proj2 (Z.ltb_ge _ n)), (proj2 (Z.eqb_neq _ UINT64_MAX)) by lia. done. }
apply orb_false_iff in Eg as [_ Emax%Z.eqb_neq]. set (s := fat12_journal_sequence v + 1).
assert (is_u64 s) as Hs by (unfold s; ulia).
unfold on_journal. cbn [set_sequence fat12]. rewrite Hf. change (device (set_sequence v s)) with (device v). change (fat12_journal_sequence (set_sequence v s)) with s.
unfold fat12_journal_begin. rewrite locked_free by done.
pose proof (journal_begin_spec read write capacity damaged _ _ _ _ volume_placed s (set_in_use (journal f) true) (device v) img allowed) as Hbs.
destruct (fat12_journal_begin_locked read write s _ (device v)) as [[ok j'] w'].
destruct Hbs as (H1 & _ & H3 & H4); [done|done|cbn; unfold s; lia|done|done|].
assert (same_mount f (set_journal f (set_in_use j' false))) as Hsame by apply same_mount_journal.
destruct ok; cbn [negb].
- cbn [set_device set_fat12 fat12]. destruct (H3 eq_refl) as [Hact Hsj]. split_and!; [done| | |by auto].
  + split; [done|]. eexists. split; [reflexivity|]. eapply same_mount_trans; [exact Hsame|apply same_mount_active].
  + intros _. exists (set_active (set_journal f (set_in_use j' false)) true). split; [|by destruct f]. split; try done.
    * by apply active_scratch.
    * intros l Hl. exact (undoes_rest _ _ _ _ _ _ _ _ (active_undoes _ _ _ _ _ _ _ _ _ Hact) l Hl (not_elem_of_nil l)).
- cbn [set_device set_fat12 fat12 fat12_transaction_fail]. split_and!; [done| |done|].
  + split; [done|]. eexists. split; [reflexivity|]. eapply same_mount_trans; [exact Hsame|apply same_mount_fenced].
  + intros Hh. by destruct (H4 Hh).
Qed.

Lemma commit_transaction_spec f v old cur undo (allowed : image → Prop) :
writing f v old cur undo → allowed old → allowed cur →
let '(ok, v') := fat12_transaction_commit read write v in
settled (content v') allowed ∧ steady f v v' ∧
(ok = true → ∃ f', mounted f' v' cur ∧ write_fenced f' = write_fenced f) ∧
(healthy (device v) → write_fenced f = false → ok = true ∧ healthy (device v')).
Proof using All.
intros [Hf Hb Ha Hsc Hv Ho Hseq] Hold Hcur. unfold fat12_transaction_commit. rewrite Hf, Ho. cbn [negb orb].
pose proof (active_settled capacity damaged _ _ _ _ volume_placed _ _ _ _ allowed Ha Hold) as Hset.
destruct (write_fenced f) eqn:Efen.
{ split_and!; [done|by apply steady_refl|done|done]. }
unfold on_journal. rewrite Hf. unfold fat12_journal_commit. rewrite locked_free by done.
pose proof (journal_commit_spec read write capacity damaged _ _ _ _ volume_placed (set_in_use (journal f) true) (device v)
  old cur undo allowed (active_scratch _ _ _ _ true Ha) Hv Hold Hcur) as Hcs.
destruct (fat12_journal_commit_locked read write _ (device v)) as [[ok j'] w'].
destruct Hcs as (H1 & Hoth & H3 & H4).
assert (same_mount f (set_journal f (set_in_use j' false))) as Hsame by apply same_mount_journal.
destruct ok; cbn [negb].
- cbn [set_device set_fat12 fat12]. destruct (H3 eq_refl) as [Hidle Hsj]. split_and!; [done| | |by auto].
  + split; [done|]. eexists. split; [reflexivity|]. eapply same_mount_trans; [exact Hsame|apply same_mount_active].
  + intros _. exists (set_active (set_journal f (set_in_use j' false)) false). split; [|by destruct f]. split; try done.
    * intros l Hl. etrans; [exact (Hoth l (area_other _ _ _ _ Hl))|by apply Hv].
    * cbn. cbn in Hsj. rewrite Hsj, Hseq. split; [lia|]. rewrite <- Hseq. exact (active_sequence _ _ _ _ _ _ _ _ _ Ha).
- cbn [set_device set_fat12 fat12 fat12_transaction_fail]. split_and!; [done| |done|].
  + split; [done|]. eexists. split; [reflexivity|]. eapply same_mount_trans; [exact Hsame|apply same_mount_fenced].
  + intros Hh. by destruct (H4 Hh).
Qed.

(** ** One sector *)
Definition in_range (s : Z) : Prop := 0 <= s < volume_sectors.

Lemma active_same j i i' old undo : (∀ l, i' l = i l) → active j i old undo → active j i' old undo.
Proof using All.
intros He [? ? ? HP HM Hu ? ?]. split; try done; [by rewrite He..|].
eapply (undoes_ext capacity damaged _ _ _ _ volume_placed); [|exact Hu]. auto.
Qed.

Lemma writing_device f v w old cur undo :
(∀ l, medium w l = content v l) → writing f v old cur undo → writing f (set_device v w) old cur undo.
Proof using All.
intros Hw [? ? Ha ? Hv ? ?]. split; try done; [by apply (active_same _ (content v))|].
intros l Hl. etrans; [exact (Hw l)|by apply Hv].
Qed.

Lemma read_one f v s :
fat12 v = Some f → boot_sector f = b → remap_enabled f = true → in_range s →
fat12_read_logical_sectors read read_range s 1 v =
let '(ok, data, v') := fdc_read read v (fat12_remap_sector f s) in (ok, if ok then [data] else [], v').
Proof using.
intros Hf Hb Hr [H0 H1]. unfold fat12_read_logical_sectors. rewrite Hf, Hr.
assert (total_sectors f = volume_sectors) as -> by (unfold total_sectors; by rewrite Hb).
rewrite (proj2 (Z.leb_gt _ s)), (proj2 (Z.ltb_ge _ _)) by lia. cbn [Nat.eqb orb negb sectors_from seq map read_loop].
replace (s + Z.of_nat 0) with s by lia. destruct (fdc_read read v _) as [[[] data] v']; done.
Qed.

Lemma write_then_verify v s d :
((λ v, fdc_write write v s d) AND fdc_verify read s d)%io v =
let '(ok, w) := write_verified read write s d (device v) in (ok, set_device v w).
Proof using.
unfold and_io, fdc_write, fdc_verify, write_verified, and_io. destruct (write (device v) s d) as [[] w]; [|done].
cbn [set_device device]. by destruct (read_equal read s d w).
Qed.

Lemma in_area_true j s : in_place base (base + 1) (base + 2) (volume_id b) j → journal_area s → in_journal_area j s = true.
Proof using All.
intros (HP & HM & HD & _) Hs. unfold in_journal_area. rewrite HP, HM, HD.
destruct (placed_below _ _ _ _ _ _ volume_placed) as [? _]. pose proof (placed_end _ _ _ _ _ _ volume_placed).
change (Z.of_nat FAT12_JOURNAL_MAX_ENTRIES * 2) with 128. unfold journal_area in Hs.
pose proof (fits_width Hfits) as [Hw _]. pose proof (fits_reserved Hfits) as [Hr _].
assert (u32 (base + 2 + 128) = base + 130) as ->.
{ unfold base, FAT12_JOURNAL_MAX_ENTRIES, Fat12Replica.FAT12_REPLICA_RESERVED_SECTORS, FAT12_REMAP_SPARE_COUNT in *. ulia. }
destruct (Z.eqb_spec s base); [done|]. destruct (Z.eqb_spec s (base + 1)); [done|].
cbn [orb]. apply andb_true_iff. split; [apply Z.leb_le|apply Z.ltb_lt]; lia.
Qed.

(** Recording the content of a sector. *)
Lemma record_step f v old old' cur undo s d (allowed : image → Prop) :
writing f v old cur undo → in_range s → is_sector d → (¬ journal_area s → records old old' undo s d) → allowed old → allowed old' →
let '(ok, v') := on_journal (λ j w, fat12_journal_record read write j s d w) v in
settled (content v') allowed ∧ steady f v v' ∧
(ok = true → ∃ f' undo', writing f' v' old' cur undo' ∧ write_fenced f' = write_fenced f ∧
   s ∈ map fst undo' ∧ (length undo' <= S (length undo))%nat) ∧
(healthy (device v) → (length undo < FAT12_JOURNAL_MAX_ENTRIES)%nat → ¬ journal_area s →
 ok = true ∧ healthy (device v')).
Proof using All.
intros [Hf Hb Ha Hsc Hv Ho Hseq] [Hs0 Hs1] Hd Hrec Hold Hold'. unfold on_journal. rewrite Hf.
unfold fat12_journal_record. rewrite locked_free by done.
pose proof (active_scratch _ _ _ _ true Ha) as Ha1. set (j1 := set_in_use (journal f) true) in *.
pose proof (active_settled capacity damaged _ _ _ _ volume_placed _ _ _ _ allowed Ha Hold) as Hset.
destruct (decide (journal_area s)) as [Har|Har].
{ unfold fat12_journal_record_locked. rewrite (in_area_true j1 s (active_place _ _ _ _ _ _ _ _ _ Ha1) Har), orb_true_r.
  split_and!; [done| |done|done]. split; [done|]. eexists. split; [reflexivity|apply same_mount_journal]. }
assert (target_ok capacity base (base + 1) (base + 2) s) as Ht.
{ pose proof (fits_capacity Hfits). pose proof (fits_width Hfits) as [_ ?].
  split_and!; [by rewrite journal_area_spec| |lia]. ulia. }
pose proof (record_spec read write capacity damaged _ _ _ _ volume_placed s d j1 (device v) old old' undo allowed
  Ha1 Ht Hd (Hrec Har) Hold Hold') as Hrs.
destruct (fat12_journal_record_locked read write s d j1 (device v)) as [[ok j'] w'].
destruct Hrs as (H1 & H2 & H3 & H4).
split_and!; [done| | |].
- split; [done|]. eexists. split; [reflexivity|apply same_mount_journal].
- intros Hok. destruct (H3 Hok) as (Hsj & undo' & Hact & Hin & Hlen).
  exists (set_journal f (set_in_use j' false)), undo'. split_and!; [|by destruct f|done|done]. split; try done.
  + by apply active_scratch.
  + intros l Hl. etrans; [exact (H2 l Hl)|by apply Hv].
  + cbn. by rewrite Hsj.
- intros Hh Hl _. apply H4; [done|by right].
Qed.

Lemma content_recorded f v old cur undo s :
writing f v old cur undo → ¬ journal_area s → records old old undo s (content v s).
Proof using.
intros Hw Hs. apply records_same. intros Hn.
apply (undoes_rest _ _ _ _ _ _ _ _ (active_undoes _ _ _ _ _ _ _ _ _ (writing_active _ _ _ _ _ Hw))); [by rewrite journal_area_spec|done].
Qed.

Lemma write_one_spec f v old cur undo s d (allowed : image → Prop) :
writing f v old cur undo → fat12_write_supported f = true → fat12_remap_sector f s = s → in_range s →
is_sector d → allowed old →
let '(ok, v') := write_one read write read_range s d v in
settled (content v') allowed ∧ steady f v v' ∧
(ok = true → ∃ f' undo', writing f' v' old (upd cur s d) undo' ∧ write_fenced f' = write_fenced f ∧
   (length undo' <= S (length undo))%nat) ∧
(healthy (device v) → (length undo < FAT12_JOURNAL_MAX_ENTRIES)%nat → ¬ journal_area s →
 ok = true ∧ healthy (device v')).
Proof using All.
intros Hw Hsup Hdir Hs Hd Hold. pose proof Hw as [Hf Hb Ha Hsc Hv Ho Hseq].
pose proof (supported_facts _ Hsup) as [Hfen Hrem].
unfold write_one. rewrite Hf, (read_one f v s Hf Hb Hrem Hs), Hdir. unfold fdc_read.
assert (0 <= s < capacity) as Hcap by (pose proof (fits_capacity Hfits); unfold in_range in Hs; lia).
pose proof (read_medium (read := read) (write := write) (device v) s) as Rm.
pose proof (read_ok (read := read) (write := write) (device v) s) as Rk.
pose proof (read_healthy (read := read) (write := write) (device v) s) as Rh.
destruct (read (device v) s) as [[ok data] w1]. cbn [fst snd] in *.
set (v1 := set_device v w1). assert (writing f v1 old cur undo) as Hw1.
{ by apply writing_device. }
pose proof (active_settled capacity damaged _ _ _ _ volume_placed _ _ _ _ allowed (writing_active _ _ _ _ _ Hw1) Hold) as Hset1.
destruct ok; cbn [negb hd].
2:{ split_and!; [done|by apply steady_device|done|]. intros Hh. by destruct (Rh Hh Hcap). }
assert (data = content v1 s) as -> by (rewrite (Rk eq_refl); symmetry; apply Rm).
pose proof (record_step f v1 old old cur undo s (content v1 s) allowed Hw1 Hs
  (medium_sector (read := read) (write := write) _ _) (content_recorded _ _ _ _ _ _ Hw1) Hold Hold) as Hrs.
unfold and_io at 1. destruct (on_journal _ v1) as [[] v2]; destruct Hrs as (H1 & [H2 (f2 & Hf2 & Hm2)] & H3 & H4).
2:{ split_and!; [done| |done|]; [split; [exact H2|by exists f2]|].
  intros Hh Hl Har. destruct (Rh Hh Hcap) as [_ Hh1]. by destruct (H4 Hh1 Hl Har). }
rewrite write_then_verify. destruct (H3 eq_refl) as (f3 & undo' & Hw3 & Hfen3 & Hin & Hlen).
pose proof (writing_fat12 _ _ _ _ _ Hw3) as Hf3. rewrite Hf2 in Hf3. injection Hf3 as <-.
pose proof (write_verified_spec read write capacity damaged s d (device v2) Hd) as (Wr & O & H).
destruct (write_verified read write s d (device v2)) as [ok w3]. cbn [fst snd] in *.
assert (active (journal f2) (medium w3) old undo') as Ha3.
{ eapply (active_target read write capacity damaged _ _ _ _ volume_placed); [exact (writing_active _ _ _ _ _ Hw3)|exact Hin|exact (proj1 Wr)]. }
split_and!.
- by apply (active_settled capacity damaged _ _ _ _ volume_placed _ _ _ _ allowed Ha3).
- split; [exact H2|]. by exists f2.
- intros Hok. exists f2, undo'. split_and!; [|done|done]. destruct Hw3 as [? ? ? ? Hv3 ? ?]. split; try done.
  intros l Hl. cbn. unfold upd. destruct (Z.eqb_spec l s) as [->|Hne]; [by apply O|].
  etrans; [by apply (proj1 Wr)|by apply Hv3].
- intros Hh Hl Har. destruct (Rh Hh Hcap) as [_ Hh1]. destruct (H4 Hh1 Hl Har) as [_ Hh2]. by apply H.
Qed.

(** ** Many sectors *)
Lemma writing_supported f f' v old cur undo :
same_mount f f' → fat12_write_supported f = true → boot_sector f = b → write_fenced f' = write_fenced f →
writing f' v old cur undo → fat12_write_supported f' = true.
Proof using.
intros Hm Hsup Hb Hfen Hw. destruct (active_fingerprints _ _ _ _ (writing_active _ _ _ _ _ Hw)).
apply (supported_journal f); try done. rewrite Hfen. by apply supported_facts.
Qed.

Lemma steady_fenced f v v' : steady f v v' → steady f v (fat12_transaction_fail v') .
Proof using.
intros [Hm (f' & Hf' & Hs)]. unfold fat12_transaction_fail. rewrite Hf'. split; [done|].
eexists. split; [reflexivity|]. eapply same_mount_trans; [exact Hs|apply same_mount_fenced].
Qed.

Lemma content_fail v : content (fat12_transaction_fail v) = content v.
Proof using. unfold fat12_transaction_fail. by destruct (fat12 v). Qed.

(** The sectors from [s] on have no replacement. *)
Definition direct (f : fat12_t) (s : Z) (count : nat) : Prop :=
∀ k, (k < count)%nat → fat12_remap_sector f (s + Z.of_nat k) = s + Z.of_nat k.
Definition outside_journal (s : Z) (count : nat) : Prop :=
∀ k, (k < count)%nat → ¬ journal_area (s + Z.of_nat k).

Lemma write_loop_spec (allowed : image → Prop) old : ∀ input s f v cur undo,
writing f v old cur undo → fat12_write_supported f = true → direct f s (length input) →
0 <= s → s + Z.of_nat (length input) <= volume_sectors → Forall is_sector input → allowed old →
let '(ok, v') := write_loop read write read_range s input v in
settled (content v') allowed ∧ steady f v v' ∧
(ok = true → ∃ f' undo', writing f' v' old (apply_writes cur (AtaJournal.number_from s input)) undo' ∧
   write_fenced f' = write_fenced f ∧ (length undo' <= length undo + length input)%nat) ∧
(healthy (device v) → (length undo + length input <= FAT12_JOURNAL_MAX_ENTRIES)%nat →
 outside_journal s (length input) → ok = true ∧ healthy (device v')).
Proof using All.
induction input as [|d input IH]; intros s f v cur undo Hw Hsup Hdir H0 Hend Hrows Hold; cbn [write_loop].
{ split_and!; [|by apply steady_refl, Hw| |done].
  - apply (active_settled capacity damaged _ _ _ _ volume_placed _ _ _ _ allowed (writing_active _ _ _ _ _ Hw) Hold).
  - intros _. exists f, undo. split_and!; [done|done|simpl; lia]. }
apply list.Forall_cons in Hrows as [Hd Hrows]. cbn [length] in Hdir, Hend.
pose proof (Hdir 0%nat ltac:(lia)) as Hdir0. rewrite Z.add_0_r in Hdir0.
assert (in_range s) as Hr by (unfold in_range; lia).
pose proof (write_one_spec f v old cur undo s d allowed Hw Hsup Hdir0 Hr Hd Hold) as Hone.
destruct (write_one read write read_range s d v) as [[] v1]; destruct Hone as (H1 & H2 & H3 & H4); cbn [negb].
- destruct (H3 eq_refl) as (f1 & undo1 & Hw1 & Hfen1 & Hlen1). pose proof (writing_fat12 _ _ _ _ _ Hw1) as Hf1.
  assert (same_mount f f1) as Hsm by (destruct H2 as [_ (f2 & Hf2 & Hsm)]; congruence).
  pose proof (writing_supported f f1 _ _ _ _ Hsm Hsup (writing_boot _ _ _ _ _ Hw) Hfen1 Hw1) as Hsup1.
  specialize (IH (s + 1) f1 v1 (upd cur s d) undo1 Hw1 Hsup1).
  destruct (write_loop read write read_range (s + 1) input v1) as [ok v2].
  destruct IH as (I1 & I2 & I3 & I4); [|lia|lia|done|done|].
  { intros k Hk. rewrite (same_mount_remap f f1) by done. specialize (Hdir (S k) ltac:(lia)).
    replace (s + 1 + Z.of_nat k) with (s + Z.of_nat (S k)) by lia. done. }
  split_and!; [done|by eapply steady_trans| |].
  + intros Hok. destruct (I3 Hok) as (f2 & undo2 & Hw2 & Hfen2 & Hlen2). exists f2, undo2.
    split_and!; [done|congruence|simpl; lia].
  + intros Hh Hl Hout. cbn [length] in Hl.
    destruct (H4 Hh ltac:(lia)) as [_ Hh1]; [specialize (Hout 0%nat); rewrite Z.add_0_r in Hout; apply Hout; simpl; lia|].
    apply I4; [done|lia|]. intros k Hk. replace (s + 1 + Z.of_nat k) with (s + Z.of_nat (S k)) by lia.
    apply Hout. simpl. lia.
- rewrite content_fail. split_and!; [done|by apply steady_fenced|done|].
  intros Hh Hl Hout. cbn [length] in Hl. destruct (H4 Hh ltac:(lia)) as [E _]; [|done].
  specialize (Hout 0%nat). rewrite Z.add_0_r in Hout. apply Hout. simpl. lia.
Qed.

Lemma mask_restored mask owner : Z.land mask owner = 0 → Z.ldiff (Z.lor mask owner) owner = mask.
Proof using.
intros E. apply Z.bits_inj'. intros n Hn. rewrite Z.ldiff_spec, Z.lor_spec.
assert (Z.testbit (Z.land mask owner) n = false) as Hb by (by rewrite E, Z.bits_0).
rewrite Z.land_spec in Hb. destruct (Z.testbit mask n), (Z.testbit owner n); done.
Qed.

(** [v1] is [v] with the lock taken. *)
Definition claimed (v v1 : volume W) : Prop :=
fat12 v1 = fat12 v ∧ fat12_journal_sequence v1 = fat12_journal_sequence v ∧
(∀ l, content v1 l = content v l) ∧ (healthy (device v) → healthy (device v1)).

(** A body inside a workspace claim. *)
Lemma with_workspace_spec owner body v (Q : bool → volume W → Prop) :
(∀ v1, claimed v v1 → let '(ok, v2) := body v1 in in_use_mask v2 = in_use_mask v1 ∧ Q ok v2) →
(∀ v1, claimed v v1 → (healthy (device v) → in_use_mask v = 0 → False) → Q false v1) →
(∀ ok v2 mask, Q ok v2 → Q ok (set_mask v2 mask)) →
let '(ok, v') := with_workspace lock owner body v in in_use_mask v' = in_use_mask v ∧ Q ok v'.
Proof using LockLaws0.
intros Hbody Hno Hmask. unfold with_workspace, fat12_core_workspace_claim.
pose proof (lock_medium (lock := lock) (device v)) as Lm. pose proof (lock_healthy (lock := lock) (device v)) as Lh.
destruct (lock (device v)) as [locked w]. cbn [fst snd] in *.
assert (claimed v (set_device v w)) as Hc1 by (split_and!; try done; by intros Hh; destruct (Lh Hh)).
destruct locked; cbn [negb].
2:{ split; [done|]. apply Hno; [done|]. intros Hh. by destruct (Lh Hh). }
destruct (Z.land (in_use_mask (set_device v w)) owner =? 0) eqn:E; cbn [negb].
2:{ split; [done|]. apply Hno; [done|]. intros _ Hm. cbn in E. by rewrite Hm in E. }
set (v1 := set_mask _ _). assert (claimed v v1) as Hc2 by done. specialize (Hbody v1 Hc2).
destruct (body v1) as [ok v2]. destruct Hbody as [Hm2 HQ]. split; [|by apply Hmask].
cbn. rewrite Hm2. cbn. apply mask_restored. by apply Z.eqb_eq.
Qed.

(** The same with a mount that stays. *)
Lemma with_workspace_steady owner body v f (Q : bool → volume W → Prop) :
fat12 v = Some f →
(∀ v1, claimed v v1 → let '(ok, v2) := body v1 in steady f v1 v2 ∧ Q ok v2) →
(∀ v1, claimed v v1 → (healthy (device v) → in_use_mask v = 0 → False) → Q false v1) →
(∀ ok v2 mask, Q ok v2 → Q ok (set_mask v2 mask)) →
let '(ok, v') := with_workspace lock owner body v in steady f v v' ∧ Q ok v'.
Proof using LockLaws0.
intros Hf Hbody Hno Hmask.
pose proof (with_workspace_spec owner body v (λ ok v', (∃ f', fat12 v' = Some f' ∧ same_mount f f') ∧ Q ok v')) as Hw.
destruct (with_workspace lock owner body v) as [ok v']. destruct Hw as (H1 & H2 & H3); [| | |by split; [split|]].
- intros v1 Hc. specialize (Hbody v1 Hc). destruct (body v1) as [ok1 v2]. by destruct Hbody as [[? ?] ?].
- intros v1 Hc Hn. split; [|by apply Hno]. exists f. split; [|apply same_mount_refl]. by rewrite (proj1 Hc).
- intros ok1 v2 mask [H1 H2]. split; [done|by apply Hmask].
Qed.

Lemma idle_same j i i' : (∀ l, i' l = i l) → idle j i → idle j i'.
Proof using.
intros He (Hpl & Hcl & Hi). split_and!; [done|done|]. intros h. rewrite !(header_at_same _ i i') by done. apply Hi.
Qed.

Lemma writing_claimed f v v1 old cur undo : claimed v v1 → writing f v old cur undo → writing f v1 old cur undo.
Proof using All.
intros (E1 & E2 & E3 & _) [? ? Ha ? Hv ? ?]. split; try done; [congruence| | |congruence].
- by apply (active_same _ (content v)).
- intros l Hl. rewrite E3. by apply Hv.
Qed.
Lemma writing_mask f v old cur undo mask : writing f v old cur undo → writing f (set_mask v mask) old cur undo.
Proof using. by intros []. Qed.
Lemma mounted_mask f v img mask : mounted f v img → mounted f (set_mask v mask) img.
Proof using. by intros []. Qed.
Lemma mounted_claimed f v v1 img : claimed v v1 → mounted f v img → mounted f v1 img.
Proof using.
intros (E1 & E2 & E3 & _) [? ? Hi ? Hv ? ?]. split; try done; [congruence| | |by rewrite E2].
- by apply (idle_same _ (content v)).
- intros l Hl. rewrite E3. by apply Hv.
Qed.

(** ** Calls *)
Definition call : Type := Z * list (list Z).
Definition call_ok (c : call) : Prop := is_u32 c.1 ∧ Forall is_sector c.2.
Definition call_writes (c : call) : list (Z * list Z) := AtaJournal.number_from c.1 c.2.

(** What a caller has to respect for the call not to be refused. *)
Definition call_admissible (c : call) : Prop :=
c.2 ≠ [] ∧ (length c.2 <= FAT12_JOURNAL_MAX_ENTRIES)%nat ∧
c.1 + Z.of_nat (length c.2) <= volume_sectors ∧ outside_journal c.1 (length c.2).

Lemma call_range f (c : call) :
boot_sector f = b → fat12_write_supported f = true →
(Z.of_nat (length c.2) =? 0) || (total_sectors f <=? c.1) ||
(total_sectors f - c.1 <? Z.of_nat (length c.2)) ||
(Z.of_nat FAT12_JOURNAL_MAX_ENTRIES <? Z.of_nat (length c.2)) = false →
c.1 + Z.of_nat (length c.2) <= volume_sectors ∧ 1 <= Z.of_nat (length c.2) <= Z.of_nat FAT12_JOURNAL_MAX_ENTRIES.
Proof using.
intros Hb _ E. assert (total_sectors f = volume_sectors) as Ht by (unfold total_sectors; by rewrite Hb). rewrite Ht in E.
repeat (apply orb_false_iff in E as [E ?]). lia.
Qed.

Lemma call_admitted f (c : call) :
boot_sector f = b → call_admissible c →
(Z.of_nat (length c.2) =? 0) || (total_sectors f <=? c.1) ||
(total_sectors f - c.1 <? Z.of_nat (length c.2)) ||
(Z.of_nat FAT12_JOURNAL_MAX_ENTRIES <? Z.of_nat (length c.2)) = false.
Proof using.
intros Hb (Hne & Hlen & Hend & _).
assert (total_sectors f = volume_sectors) as Ht by (unfold total_sectors; by rewrite Hb). rewrite Ht.
assert (length c.2 ≠ 0%nat) by (by destruct c.2).
repeat (apply orb_false_iff; split); [apply Z.eqb_neq|apply Z.leb_gt|apply Z.ltb_ge|apply Z.ltb_ge]; lia.
Qed.

(** A call inside a transaction. *)
Lemma write_call_spec (allowed : image → Prop) old (c : call) f v cur undo :
writing f v old cur undo → direct f c.1 (length c.2) → call_ok c → allowed old →
let '(ok, v') := fat12_write_logical_sectors read write read_range lock c.1 c.2 v in
steady f v v' ∧ settled (content v') allowed ∧
(ok = true → ∃ f' undo', writing f' v' old (apply_writes cur (call_writes c)) undo' ∧
   write_fenced f' = write_fenced f ∧ (length undo' <= length undo + length c.2)%nat) ∧
(healthy (device v) → in_use_mask v = 0 → call_admissible c → fat12_write_supported f = true →
 (length undo + length c.2 <= FAT12_JOURNAL_MAX_ENTRIES)%nat → ok = true ∧ healthy (device v')).
Proof using All.
intros Hw Hdir [Hu Hrows] Hold. pose proof Hw as [Hf Hb Ha _ _ Ho _]. unfold fat12_write_logical_sectors. rewrite Hf.
pose proof (active_settled capacity damaged _ _ _ _ volume_placed _ _ _ _ allowed Ha Hold) as Hset.
destruct (negb (fat12_write_supported f)) eqn:Esup; cbn [orb].
{ split_and!; [by apply steady_refl|done|done|]. intros _ _ _ Hs. by rewrite Hs in Esup. }
apply negb_false_iff in Esup. destruct (_ || _) eqn:Eg.
{ split_and!; [by apply steady_refl|done|done|]. intros _ _ Had _ _. by rewrite (call_admitted f c Hb Had) in Eg. }
destruct (call_range f c Hb Esup Eg) as [Hend Hlen]. rewrite Ho.
apply (with_workspace_steady _ _ v f (λ ok v', settled (content v') allowed ∧
  (ok = true → ∃ f' undo', writing f' v' old (apply_writes cur (call_writes c)) undo' ∧
     write_fenced f' = write_fenced f ∧ (length undo' <= length undo + length c.2)%nat) ∧
  (healthy (device v) → in_use_mask v = 0 → call_admissible c → fat12_write_supported f = true →
   (length undo + length c.2 <= FAT12_JOURNAL_MAX_ENTRIES)%nat → ok = true ∧ healthy (device v')))); [done| | |].
- intros v1 Hc. pose proof (write_loop_spec allowed old c.2 c.1 f v1 cur undo (writing_claimed _ _ _ _ _ _ Hc Hw) Esup Hdir
    ltac:(unfold is_u32 in Hu; lia) Hend Hrows Hold) as Hl.
  destruct (write_loop read write read_range c.1 c.2 v1) as [ok v2]. destruct Hl as (L1 & L2 & L3 & L4).
  split_and!; [done|done|done|]. intros Hh _ (_ & _ & _ & Hout) _ Hroom. destruct Hc as (_ & _ & _ & Hc). by apply L4; [apply Hc| |].
- intros v1 Hc Hno. split_and!; [|done|].
  + eapply (settled_same capacity damaged _ _ _ _ volume_placed); [|exact Hset]. apply Hc.
  + intros Hh Hm. by destruct (Hno Hh Hm).
- intros ok v2 mask (H1 & H2 & H3). split_and!; [done| |done]. intros Hok.
  destruct (H2 Hok) as (f' & undo' & Hw' & ?). exists f', undo'. split; [by apply writing_mask|done].
Qed.

(** ** Transactions of calls *)
Fixpoint write_calls (calls : list call) (v : volume W) : bool * volume W :=
match calls with
| [] => (true, v)
| c :: calls => (fat12_write_logical_sectors read write read_range lock c.1 c.2 AND write_calls calls)%io v
end.

Definition transaction (maximum : Z) (calls : list call) : volume W → bool * volume W :=
(fat12_transaction_begin read write maximum AND write_calls calls AND fat12_transaction_commit read write)%io.

Definition all_writes (calls : list call) : list (Z * list Z) := concat (map call_writes calls).
Definition total_rows (calls : list call) : nat := sum_list (map (λ c, length c.2) calls).
Definition calls_direct (f : fat12_t) (calls : list call) : Prop :=
Forall (λ c, direct f c.1 (length c.2)) calls.

(** What a caller has to respect for a transaction to succeed. *)
Definition transaction_admissible (f : fat12_t) (v : volume W) (maximum : Z) (calls : list call) : Prop :=
fat12_write_supported f = true ∧ in_use_mask v = 0 ∧ fat12_journal_sequence v < UINT64_MAX ∧
1 <= maximum <= Z.of_nat FAT12_JOURNAL_MAX_ENTRIES ∧ Forall call_admissible calls ∧
(total_rows calls <= FAT12_JOURNAL_MAX_ENTRIES)%nat.

Lemma write_calls_spec (allowed : image → Prop) old : ∀ calls f v cur undo,
writing f v old cur undo → calls_direct f calls → Forall call_ok calls → allowed old →
let '(ok, v') := write_calls calls v in
steady f v v' ∧ settled (content v') allowed ∧
(ok = true → ∃ f' undo', writing f' v' old (apply_writes cur (all_writes calls)) undo' ∧
   write_fenced f' = write_fenced f) ∧
(healthy (device v) → in_use_mask v = 0 → Forall call_admissible calls → fat12_write_supported f = true →
 (length undo + total_rows calls <= FAT12_JOURNAL_MAX_ENTRIES)%nat → ok = true ∧ healthy (device v')).
Proof using All.
induction calls as [|c calls IH]; intros f v cur undo Hw Hdir Hok Hold; cbn [write_calls].
{ split_and!; [by apply steady_refl, Hw| |intros _; by exists f, undo|done].
  apply (active_settled capacity damaged _ _ _ _ volume_placed _ _ _ _ allowed (writing_active _ _ _ _ _ Hw) Hold). }
apply list.Forall_cons in Hok as [Hc Hok]. apply list.Forall_cons in Hdir as [Hdc Hdir]. unfold and_io.
pose proof (write_call_spec allowed old c f v cur undo Hw Hdc Hc Hold) as Hone.
destruct (fat12_write_logical_sectors read write read_range lock c.1 c.2 v) as [[] v1]; destruct Hone as (C1 & C2 & C3 & C4).
- destruct (C3 eq_refl) as (f1 & undo1 & Hw1 & Hfen1 & Hlen1). pose proof (writing_fat12 _ _ _ _ _ Hw1) as Hf1.
  assert (same_mount f f1) as Hsm by (destruct C1 as [_ (f2 & Hf2 & Hsm)]; congruence).
  specialize (IH f1 v1 (apply_writes cur (call_writes c)) undo1 Hw1).
  destruct (write_calls calls v1) as [ok v2]. destruct IH as (I1 & I2 & I3 & I4); [|done|done|].
  { eapply list.Forall_impl; [exact Hdir|]. intros c' Hd k Hk. rewrite (same_mount_remap f f1) by done. by apply Hd. }
  split_and!; [by eapply steady_trans|done| |].
  + intros Ho. destruct (I3 Ho) as (f2 & undo2 & Hw2 & Hfen2). exists f2, undo2. split; [|congruence].
    unfold all_writes. cbn [map concat]. by rewrite apply_writes_app.
  + intros Hh Hm Had Hsup Hroom. apply list.Forall_cons in Had as [Hac Had].
    unfold total_rows in Hroom. cbn [map sum_list] in Hroom.
    destruct (C4 Hh Hm Hac Hsup ltac:(simpl in Hroom; lia)) as [_ Hh1].
    apply I4; [done|by rewrite (proj1 C1)|done| |simpl in Hroom; unfold total_rows; lia].
    by eapply writing_supported; [|exact Hsup|apply Hw| |exact Hw1].
- split_and!; [done|done|done|]. intros Hh Hm Had Hsup Hroom. apply list.Forall_cons in Had as [Hac Had].
  unfold total_rows in Hroom. cbn [map sum_list] in Hroom. simpl in Hroom.
  by destruct (C4 Hh Hm Hac Hsup ltac:(lia)).
Qed.

Lemma transaction_spec (allowed : image → Prop) f v img maximum calls :
let new := apply_writes img (all_writes calls) in
mounted f v img → calls_direct f calls → Forall call_ok calls → allowed img → allowed new →
let '(ok, v') := transaction maximum calls v in
settled (content v') allowed ∧ (ok = true → ∃ f', same_mount f f' ∧ mounted f' v' new) ∧
(healthy (device v) → transaction_admissible f v maximum calls → ok = true ∧ healthy (device v')).
Proof using All.
intros new Hm Hdir Hok Ha Han. unfold transaction. unfold and_io at 1.
pose proof (begin_transaction_spec f v img allowed maximum Hm Ha) as Hb.
destruct (fat12_transaction_begin read write maximum v) as [[] v1]; destruct Hb as (B1 & B2 & B3 & B4).
2:{ split_and!; [done|done|]. intros Hh (Hs & _ & Hq & Hn & _). by destruct (B4 Hh Hs Hn Hq). }
destruct (B3 eq_refl) as (f1 & Hw1 & Hfen1). pose proof (writing_fat12 _ _ _ _ _ Hw1) as Hf1.
assert (same_mount f f1) as Hsm1 by (destruct B2 as [_ (f2 & Hf2 & Hsm)]; congruence).
pose proof (write_calls_spec allowed img calls f1 v1 img [] Hw1) as Hc. unfold and_io.
destruct (write_calls calls v1) as [ok2 v2]. destruct Hc as (C1 & C2 & C3 & C4); [|done|done|].
{ eapply list.Forall_impl; [exact Hdir|]. intros c' Hd k Hk. rewrite (same_mount_remap f f1) by done. by apply Hd. }
assert (healthy (device v) → transaction_admissible f v maximum calls →
  ok2 = true ∧ healthy (device v2) ∧ fat12_write_supported f = true) as Hlive.
{ intros Hh (Hs & Hm0 & Hq & Hn & Had & Hroom). destruct (B4 Hh Hs Hn Hq) as [_ Hh1].
  assert (fat12_write_supported f1 = true) as Hs1.
  { eapply writing_supported; [exact Hsm1|exact Hs|apply Hm|exact Hfen1|exact Hw1]. }
  destruct (C4 Hh1 ltac:(by rewrite (proj1 B2)) Had Hs1 Hroom). done. }
destruct ok2.
2:{ split_and!; [done|done|]. intros Hh Had. by destruct (Hlive Hh Had). }
destruct (C3 eq_refl) as (f2 & undo2 & Hw2 & Hfen2). pose proof (writing_fat12 _ _ _ _ _ Hw2) as Hf2.
assert (same_mount f f2) as Hsm2.
{ destruct C1 as [_ (f3 & Hf3 & Hsm)]. rewrite Hf2 in Hf3. injection Hf3 as <-. by eapply same_mount_trans. }
pose proof (commit_transaction_spec f2 v2 img new undo2 allowed Hw2 Ha Han) as Hcm.
destruct (fat12_transaction_commit read write v2) as [ok3 v3]. destruct Hcm as (D1 & D2 & D3 & D4).
split_and!; [done| |].
- intros Ho. destruct (D3 Ho) as (f3 & Hm3 & _). exists f3. split; [|done].
  destruct D2 as [_ (f4 & Hf4 & Hsm)]. rewrite (mounted_fat12 _ _ _ Hm3) in Hf4. injection Hf4 as <-.
  by eapply same_mount_trans.
- intros Hh Had. destruct (Hlive Hh Had) as (_ & Hh2 & Hsup). apply D4; [done|].
  rewrite Hfen2, Hfen1. by apply supported_facts.
Qed.

(** A call outside a transaction is one of its own. *)
Lemma owned_call_spec (allowed : image → Prop) f v img (c : call) :
let new := apply_writes img (call_writes c) in
mounted f v img → fat12_write_supported f = true → direct f c.1 (length c.2) → call_ok c →
c.1 + Z.of_nat (length c.2) <= volume_sectors → 1 <= Z.of_nat (length c.2) <= Z.of_nat FAT12_JOURNAL_MAX_ENTRIES →
allowed img → allowed new →
let '(ok, v') := (fat12_transaction_begin read write (Z.of_nat (length c.2)) AND
  write_loop read write read_range c.1 c.2 AND fat12_transaction_commit read write)%io v in
steady f v v' ∧ settled (content v') allowed ∧ (ok = true → ∃ f', same_mount f f' ∧ mounted f' v' new) ∧
(healthy (device v) → call_admissible c → fat12_journal_sequence v < UINT64_MAX → ok = true ∧ healthy (device v')).
Proof using All.
intros new Hm Hsup Hdir [Hu Hrows] Hend Hlen Ha Han.
unfold and_io. pose proof (begin_transaction_spec f v img allowed (Z.of_nat (length c.2)) Hm Ha) as Hbt.
destruct (fat12_transaction_begin read write _ v) as [[] v2]; destruct Hbt as (B1 & B2 & B3 & B4).
2:{ split_and!; [done|done|done|]. intros Hh _ Hq. by destruct (B4 Hh Hsup Hlen Hq). }
destruct (B3 eq_refl) as (f1 & Hw1 & Hfen1). pose proof (writing_fat12 _ _ _ _ _ Hw1) as Hf1.
assert (same_mount f f1) as Hsm1 by (destruct B2 as [_ (f2 & Hf2 & Hsm)]; congruence).
pose proof (writing_supported f f1 _ _ _ _ Hsm1 Hsup (mounted_boot _ _ _ Hm) Hfen1 Hw1) as Hs1.
assert (direct f1 c.1 (length c.2)) as Hdir1 by (intros k Hk; rewrite (same_mount_remap f f1) by done; by apply Hdir).
pose proof (write_loop_spec allowed img c.2 c.1 f1 v2 img [] Hw1 Hs1 Hdir1
  ltac:(unfold is_u32 in Hu; lia) Hend Hrows Ha) as Hl.
destruct (write_loop read write read_range c.1 c.2 v2) as [[] v3]; destruct Hl as (L1 & L2 & L3 & L4).
2:{ split_and!; [by eapply steady_trans|done|done|]. intros Hh (_ & Hl64 & _ & Hout) Hq.
  destruct (B4 Hh Hsup Hlen Hq) as [_ Hh1]. by destruct (L4 Hh1 Hl64 Hout). }
destruct (L3 eq_refl) as (f2 & undo2 & Hw2 & Hfen2 & _). pose proof (writing_fat12 _ _ _ _ _ Hw2) as Hf2.
assert (same_mount f1 f2) as Hsm2 by (destruct L2 as [_ (f3 & Hf3 & Hsm)]; congruence).
pose proof (commit_transaction_spec f2 v3 img new undo2 allowed Hw2 Ha Han) as Hcm.
destruct (fat12_transaction_commit read write v3) as [ok4 v4]. destruct Hcm as (D1 & D2 & D3 & D4).
split_and!; [|done| |].
- eapply steady_trans; [exact B2|exact Hf1|]. by eapply steady_trans; [exact L2|exact Hf2|].
- intros Ho. destruct (D3 Ho) as (f3 & Hm3 & _). exists f3. split; [|done].
  destruct D2 as [_ (f4 & Hf4 & Hsm)]. rewrite (mounted_fat12 _ _ _ Hm3) in Hf4. injection Hf4 as <-.
  eapply same_mount_trans; [exact Hsm1|]. by eapply same_mount_trans.
- intros Hh (_ & Hl64 & _ & Hout) Hq.
  destruct (B4 Hh Hsup Hlen Hq) as [_ Hh1]. destruct (L4 Hh1 Hl64 Hout) as [_ Hh2].
  apply D4; [done|]. rewrite Hfen2, Hfen1. by apply supported_facts.
Qed.

Lemma single_call_spec (allowed : image → Prop) f v img (c : call) :
let new := apply_writes img (call_writes c) in
mounted f v img → direct f c.1 (length c.2) → call_ok c → allowed img → allowed new →
let '(ok, v') := fat12_write_logical_sectors read write read_range lock c.1 c.2 v in
steady f v v' ∧ settled (content v') allowed ∧ (ok = true → ∃ f', same_mount f f' ∧ mounted f' v' new) ∧
(healthy (device v) → in_use_mask v = 0 → call_admissible c → fat12_write_supported f = true →
 fat12_journal_sequence v < UINT64_MAX → ok = true ∧ healthy (device v')).
Proof using All.
intros new Hm Hdir Hok Ha Han. pose proof Hm as [Hf Hb Hi _ Hv Hcl _]. unfold fat12_write_logical_sectors. rewrite Hf.
pose proof (idle_settled capacity _ _ _ _ _ _ allowed img Hi Ha Hv) as Hset.
destruct (negb (fat12_write_supported f)) eqn:Esup; cbn [orb].
{ split_and!; [by apply steady_refl|done|done|]. intros _ _ _ Hs _. by rewrite Hs in Esup. }
apply negb_false_iff in Esup. destruct (_ || _) eqn:Eg.
{ split_and!; [by apply steady_refl|done|done|]. intros _ _ Had _ _. by rewrite (call_admitted f c Hb Had) in Eg. }
destruct (call_range f c Hb Esup Eg) as [Hend Hlen]. rewrite Hcl.
apply (with_workspace_steady _ _ v f (λ ok v', settled (content v') allowed ∧
  (ok = true → ∃ f', same_mount f f' ∧ mounted f' v' new) ∧
  (healthy (device v) → in_use_mask v = 0 → call_admissible c → fat12_write_supported f = true →
   fat12_journal_sequence v < UINT64_MAX → ok = true ∧ healthy (device v'))) Hf).
- intros v1 Hc. pose proof (mounted_claimed _ _ _ _ Hc Hm) as Hm1. destruct Hc as (_ & Eq & _ & Hhc).
  pose proof (owned_call_spec allowed f v1 img c Hm1 Esup Hdir Hok Hend Hlen Ha Han) as Ho.
  destruct (and_io _ _ v1) as [ok v2]. destruct Ho as (H1 & H2 & H3 & H4). split_and!; [done|done|done|].
  intros Hh _ Had _ Hq. rewrite <- Eq in Hq. by apply H4; [apply Hhc| |].
- intros v1 Hc Hno. split_and!; [|done|intros Hh Hm0; by destruct (Hno Hh Hm0)].
  eapply (settled_same capacity damaged _ _ _ _ volume_placed); [|exact Hset]. apply Hc.
- intros ok0 v2 mask (H1 & H2 & H3). split_and!; [done| |done]. intros Hk.
  destruct (H2 Hk) as (f' & ? & ?). exists f'. split; [done|by apply mounted_mask].
Qed.

(** ** Mounting *)
Lemma mount_replicas_same base0 : ∀ slots f,
let '(ok, f') := mount_replicas base0 slots f in f' = set_replicas f (replicas f').
Proof using.
induction slots as [|slot slots IH]; intros f; cbn [mount_replicas]; [by destruct f|].
destruct (Fat12Replica.fat12_replica_init _ _ _) as [r|]; [|by destruct f].
specialize (IH (set_replicas f (<[slot := r]> (replicas f)))).
destruct (mount_replicas base0 slots _) as [ok f']. rewrite IH. by destruct f.
Qed.

Lemma remap_load_medium t w :
let '(ok, t', w') := Fat12Remap.fat12_remap_load read t w in
(∀ l, medium w' l = medium w l) ∧ (ok = true → ¬ off w).
Proof using SectorLaws0.
assert (∀ s w, let r := Fat12Remap.read_shape read t s w in
  (∀ l, medium r.2 l = medium w l) ∧ (off w → r.1 = None ∧ off r.2)) as Hshape.
{ intros s w0. cbv zeta. unfold Fat12Remap.read_shape.
  pose proof (read_medium (read := read) (write := write) w0 s) as Rm.
  pose proof (off_read (read := read) (write := write) w0 s) as Ro.
  pose proof (read_failed (read := read) (write := write) w0 s) as Rf.
  destruct (read w0 s) as [[ok data] w1]. cbn [fst snd] in *. split; [done|]. intros Hoff.
  rewrite (Ro Hoff) in *. split; [done|by apply Rf]. }
unfold Fat12Remap.fat12_remap_load. destruct (_ =? 0); [done|].
pose proof (Hshape (Fat12Remap.primary_sector t) w) as [M1 O1].
destruct (Fat12Remap.read_shape read t _ w) as [first w1]. cbn [fst snd] in *.
pose proof (Hshape (Fat12Remap.mirror_sector t) w1) as [M2 O2].
destruct (Fat12Remap.read_shape read t _ w1) as [second w2]. cbn [fst snd] in *.
assert (∀ l, medium w2 l = medium w l) as M12 by (intros l; by rewrite M2, M1).
assert (off w → first = None ∧ second = None) as Hoff.
{ intros Ho. destruct (O1 Ho) as [-> Ho1]. by destruct (O2 Ho1) as [-> _]. }
assert (∀ maximum, (let '(ok, data, w3) := if maximum =? 0 then (true, repeat 0 FAT12_SECTOR_SIZE, w2)
  else read w2 (Fat12Remap.table_sector t) in ∀ l, medium w3 l = medium w l)) as Hread.
{ intros maximum. destruct (maximum =? 0); [done|].
  pose proof (read_medium (read := read) (write := write) w2 (Fat12Remap.table_sector t)) as Rm.
  destruct (read w2 _) as [[ok data] w3]. cbn [fst snd] in Rm. intros l. by rewrite Rm. }
assert (∀ h1 h2 : option Fat12Remap.fat12_remap_header_t, h1 ≠ None ∨ h2 ≠ None → first = h1 → second = h2 → ¬ off w) as Hnot.
{ intros h1 h2 Hne -> -> Ho. destruct (Hoff Ho). by destruct Hne. }
destruct first as [h1|], second as [h2|]; try done.
all: match goal with |- context [if ?m =? 0 then _ else _] => specialize (Hread m); destruct (if m =? 0 then _ else _) as [[ok data] w3] end.
all: destruct ok; cbn [negb]; [|done].
all: destruct (Fat12Remap.choose_header _ _); (split; [done|]); intros _; by eapply Hnot; [|reflexivity|reflexivity]; auto.
Qed.

(** A volume about to be mounted: its boot sector is read, nothing else. *)
Definition fresh (v : volume W) : Prop :=
∃ f, fat12 v = Some f ∧ boot_sector f = b ∧ is_reist f = true.

Lemma journal_base_spec f : boot_sector f = b → journal_base f = base.
Proof using. intros Hb. unfold journal_base, remap_base, replica_base, base. by rewrite Hb. Qed.

Lemma format_spec :
∃ j, fat12_journal_format base (base + 1) (base + 2) (volume_id b) = Some j ∧
in_place base (base + 1) (base + 2) (volume_id b) j ∧ scratch_in_use j = false.
Proof using Hfits.
destruct volume_placed as [? ? Hend ? [Hu Hnz] _]. unfold fat12_journal_format.
rewrite (proj2 (Z.ltb_ge _ _)) by lia.
rewrite (proj2 (Z.eqb_neq _ 0)), (proj2 (Z.eqb_neq base _)), (proj2 (Z.leb_gt _ _)) by (done || lia).
destruct (Z.ltb_spec (UINT32_MAX - (Z.of_nat FAT12_JOURNAL_MAX_ENTRIES * 2 - 1)) (base + 2)) as [Hlt|_].
{ change (Z.of_nat FAT12_JOURNAL_MAX_ENTRIES * 2 - 1) with 127 in Hlt. lia. }
cbn [orb]. by eexists.
Qed.

Abbreviation chosen := (chosen base (base + 1) (volume_id b)).

(** What a journal function leaves, with the scratch buffers free again. *)
Lemma on_journal_load f v :
fat12 v = Some f → in_place base (base + 1) (base + 2) (volume_id b) (journal f) → scratch_in_use (journal f) = false →
let '(ok, v') := on_journal (fat12_journal_load read) v in
(∀ l, content v' l = content v l) ∧ in_use_mask v' = in_use_mask v ∧
(∃ j', fat12 v' = Some (set_journal f j') ∧ in_place base (base + 1) (base + 2) (volume_id b) j' ∧ scratch_in_use j' = false) ∧
(healthy (device v) → chosen (content v) ≠ None → ok = true ∧ healthy (device v')).
Proof using All.
intros Hf Hpl Hsc. unfold on_journal. rewrite Hf. unfold fat12_journal_load. rewrite locked_free by done.
pose proof (journal_load_spec read write capacity damaged _ _ _ _ volume_placed (set_in_use (journal f) true) (device v) Hpl) as Hl.
destruct (fat12_journal_load_locked read _ (device v)) as [[ok j'] w']. destruct Hl as (L1 & L2 & _ & _ & L3).
split_and!; [done|done|by exists (set_in_use j' false)|]. intros Hh Hc. destruct (L3 Hh) as (? & Hok & _). auto.
Qed.

Lemma on_journal_recover f v (allowed : image → Prop) :
fat12 v = Some f → in_place base (base + 1) (base + 2) (volume_id b) (journal f) → scratch_in_use (journal f) = false →
settled (content v) allowed →
let '(ok, v') := on_journal (fat12_journal_recover read write) v in
settled (content v') allowed ∧ in_use_mask v' = in_use_mask v ∧
∃ j', fat12 v' = Some (set_journal f j') ∧ scratch_in_use j' = false ∧
(ok = true → off (device v') ∨ (idle j' (content v') ∧ is_u64 (h_sequence (header j')) ∧
  ∃ img, allowed img ∧ same_volume (content v') img)) ∧
(healthy (device v) → chosen (content v) ≠ None → ok = true ∧ healthy (device v')).
Proof using All.
intros Hf Hpl Hsc Hset. unfold on_journal. rewrite Hf. unfold fat12_journal_recover. rewrite locked_free by done.
pose proof (recover_spec read write capacity damaged _ _ _ _ volume_placed (set_in_use (journal f) true) (device v) allowed Hpl Hset) as Hl.
destruct (fat12_journal_recover_locked read write _ (device v)) as [[ok j'] w']. destruct Hl as (L1 & L2 & L3).
split_and!; [done|done|]. by exists (set_in_use j' false).
Qed.

Lemma fdc_read_spec v s :
let '(ok, _, v') := fdc_read read v s in
(∀ l, content v' l = content v l) ∧ fat12 v' = fat12 v ∧ in_use_mask v' = in_use_mask v ∧
(healthy (device v) → 0 <= s < capacity → ok = true ∧ healthy (device v')).
Proof using SectorLaws0.
unfold fdc_read. pose proof (read_medium (read := read) (write := write) (device v) s) as Rm.
pose proof (read_healthy (read := read) (write := write) (device v) s) as Rh.
by destruct (read (device v) s) as [[ok data] w].
Qed.

Lemma mount_journal_spec f v (allowed : image → Prop) :
boot_sector f = b → fat12 v = Some f → settled (content v) allowed →
let '(ok, v') := mount_journal read write base f v in
settled (content v') allowed ∧ in_use_mask v' = in_use_mask v ∧
∃ j', fat12 v' = Some (set_journal f j') ∧ scratch_in_use j' = false ∧
(ok = true → off (device v') ∨ (idle j' (content v') ∧ is_u64 (h_sequence (header j')) ∧
  ∃ img, allowed img ∧ same_volume (content v') img)) ∧
(healthy (device v) → chosen (content v) ≠ None → ok = true ∧ healthy (device v')).
Proof using All.
intros Hb Hf Hset. unfold mount_journal. rewrite Hb. destruct format_spec as (j & -> & Hpl & Hsc).
set (v0 := set_fat12 v (set_journal f j)).
pose proof (placed_reach _ _ _ _ _ _ volume_placed) as Hr. destruct (placed_below _ _ _ _ _ _ volume_placed) as [Hb0 Hb1].
pose proof (fdc_read_spec v0 base) as R1. destruct (fdc_read read v0 base) as [[ok1 d1] v1].
destruct R1 as (R1a & R1b & R1c & R1d).
pose proof (fdc_read_spec v1 (base + 1)) as R2. destruct (fdc_read read v1 (base + 1)) as [[ok2 d2] v2].
destruct R2 as (R2a & R2b & R2c & R2d).
assert (∀ l, content v2 l = content v l) as Hc2 by (intros l; rewrite R2a, R1a; done).
assert (settled (content v2) allowed) as Hset2 by by eapply (settled_same capacity damaged _ _ _ _ volume_placed).
assert (fat12 v2 = Some (set_journal f j)) as Hf2 by (rewrite R2b, R1b; done).
assert (in_use_mask v2 = in_use_mask v) as Hm2 by (rewrite R2c, R1c; done).
assert (healthy (device v) → ok1 = true ∧ ok2 = true ∧ healthy (device v2)) as Hlive.
{ intros Hh. destruct (R1d Hh ltac:(lia)) as [-> Hh1]. by destruct (R2d Hh1 ltac:(lia)). }
assert (chosen (content v2) = chosen (content v)) as Hch.
{ unfold Fat12Recovery.chosen. by rewrite !(header_at_same _ (content v) (content v2)). }
destruct (negb ok1 || negb ok2) eqn:Eok.
{ split_and!; [done|done|]. exists j. split_and!; [done|done|done|]. intros Hh _. destruct (Hlive Hh) as (-> & -> & _). done. }
unfold and_io. pose proof (on_journal_load _ v2 Hf2 Hpl Hsc) as L.
destruct (on_journal (fat12_journal_load read) v2) as [ok3 v3]. destruct L as (L1 & L2 & (j3 & Hf3 & Hpl3 & Hsc3) & L4).
assert (settled (content v3) allowed) as Hset3 by by eapply (settled_same capacity damaged _ _ _ _ volume_placed).
assert (chosen (content v3) = chosen (content v)) as Hch3.
{ rewrite <- Hch. unfold Fat12Recovery.chosen. by rewrite !(header_at_same _ (content v2) (content v3)). }
destruct ok3.
- pose proof (on_journal_recover _ v3 allowed Hf3 Hpl3 Hsc3 Hset3) as R.
  destruct (on_journal (fat12_journal_recover read write) v3) as [ok4 v4].
  destruct R as (Q1 & Q2 & j4 & Hf4 & Hsc4 & Q3 & Q4). split_and!; [done|congruence|]. exists j4.
  split_and!; [by rewrite Hf4; destruct f|done|done|]. intros Hh Hc. destruct (Hlive Hh) as (_ & _ & Hh2).
  apply Q4; [|by rewrite Hch3]. apply L4; [done|by rewrite Hch].
- split_and!; [done|congruence|]. exists j3. split_and!; [by rewrite Hf3; destruct f|done|done|].
  intros Hh Hc. destruct (Hlive Hh) as (_ & _ & Hh2). rewrite <- Hch in Hc. by destruct (L4 Hh2 Hc).
Qed.

Lemma mount_rest_spec f v (allowed : image → Prop) :
fat12 v = Some f → settled (content v) allowed → boot_sector f = b → scratch_in_use (journal f) = false →
(off (device v) ∨ (idle (journal f) (content v) ∧ is_u64 (h_sequence (header (journal f))) ∧
  ∃ img, allowed img ∧ same_volume (content v) img)) →
let '(ok, v') := (mount_remap read (remap_base f) AND finish_mount (replica_base f))%io v in
in_use_mask v' = in_use_mask v ∧ settled (content v') allowed ∧
(ok = true → ∃ f' img, allowed img ∧ mounted f' v' img).
Proof using All.
intros Hf Hset Hb Hsc Hidle. unfold and_io, mount_remap. rewrite Hf.
destruct (Fat12Remap.fat12_remap_format _ _ _ _) as [t|]; [|done].
pose proof (remap_load_medium t (device v)) as Hl.
destruct (Fat12Remap.fat12_remap_load read t (device v)) as [[ok1 t'] w']. destruct Hl as [Hmed Hoff].
assert (settled (medium w') allowed) as Hset1 by by eapply (settled_same capacity damaged _ _ _ _ volume_placed).
destruct ok1; [|done]. cbn [finish_mount set_device set_fat12 fat12].
pose proof (mount_replicas_same (replica_base f) (seq 0 Fat12Replica.FAT12_REPLICA_FILE_COUNT) (set_remap f t')) as Hrep.
destruct (mount_replicas _ _ (set_remap f t')) as [ok2 f2]. destruct ok2; cbn [negb]; [|done].
split_and!; [done|done|]. intros _. destruct Hidle as [Ho|(Hi & Hs & img & Ha & Hv)]; [by destruct (Hoff eq_refl)|].
exists (set_ready f2), img. split; [done|]. rewrite Hrep. destruct f. cbn in *. split; try done.
- by apply (idle_same _ (content v)).
- intros l Hl'. etrans; [exact (Hmed l)|by apply Hv].
Qed.

Lemma prepare_spec v (allowed : image → Prop) :
fresh v → settled (content v) allowed →
let '(ok, v') := fat12_journal_prepare read write lock v in
settled (content v') allowed ∧ (ok = true → ∃ f' img, allowed img ∧ mounted f' v' img).
Proof using All.
intros (f & Hf & Hb & Hre) Hset. unfold fat12_journal_prepare. rewrite Hf, Hre. cbn [negb]. rewrite Hb.
rewrite (proj2 (Z.ltb_ge _ _)) by apply Hfits. rewrite (proj2 (Z.eqb_neq _ 0)) by apply Hfits. cbn [orb].
match goal with |- context [with_workspace lock _ ?bd v] => set (body := bd) end.
pose proof (with_workspace_spec FAT12_CORE_WORKSPACE_PREPARE body v (λ ok v', settled (content v') allowed ∧
  (ok = true → ∃ f' img, allowed img ∧ mounted f' v' img))) as Hw.
destruct (with_workspace lock FAT12_CORE_WORKSPACE_PREPARE body v) as [ok v']. apply Hw; clear Hw; subst body.
- intros v1 (E1 & _ & E3 & _). rewrite <- E1 in Hf.
  assert (settled (content v1) allowed) as Hset1 by by eapply (settled_same capacity damaged _ _ _ _ volume_placed).
  rewrite (journal_base_spec f Hb). unfold and_io at 1.
  pose proof (mount_journal_spec f v1 allowed Hb Hf Hset1) as Hj.
  destruct (mount_journal read write base f v1) as [[] v2]; destruct Hj as (J1 & J2 & j' & Hf2 & Hsc & J3 & _); [|done].
  assert (remap_base f = remap_base (set_journal f j') ∧ replica_base f = replica_base (set_journal f j')) as [-> ->] by done.
  pose proof (mount_rest_spec _ v2 allowed Hf2 J1 Hb Hsc (J3 eq_refl)) as Hr.
  destruct (and_io _ _ v2) as [ok3 v3]. destruct Hr as (R1 & R2 & R3). split; [congruence|done].
- intros v1 (_ & _ & E3 & _) _. split; [|done]. by eapply (settled_same capacity damaged _ _ _ _ volume_placed).
- intros ok0 v2 mask [H1 H2]. split; [done|]. intros Hok. destruct (H2 Hok) as (f' & img & ? & ?).
  exists f', img. split; [done|by apply mounted_mask].
Qed.
End volume.
