(* ===== verification/Fat12VolumeProps.v ===== *)
(** What a journalled FAT12 volume guarantees, and where it does not.

    Requests are atomic over power failures and refused mounts; two limits of
    the code are theorems as well: a power failure between the two copies of a
    header makes the volume unmountable, and a rollback does not reach a sector
    that has a replacement. *)
From S2P Require Import Prelude Crc32 Layout AtaJournal AtaDisk SectorIo.
From S2P Require Import Fat12Journal Fat12Remap Fat12Replica Fat12Recovery Fat12Volume Fat12VolumeSpec.
Import Fat12Journal Fat12.

(** A group of calls inside one transaction, or a call on its own. *)
Inductive request :=
| Group (maximum : Z) (calls : list call)
| Single (c : call).

Definition request_calls (r : request) : list call :=
  match r with Group _ calls => calls | Single c => [c] end.

Definition request_writes (r : request) : list (Z * list Z) := all_writes (request_calls r).

Section properties.
Context {W : Type} (read : W → Z → bool * list Z * W) (write : W → Z → list Z → bool * W).
Context (read_range : W → Z → nat → bool * list (list Z) * W) (lock : W → bool * W).
Context (capacity : Z) (damaged : list Z → Prop) `{!SectorDevice W}.
Context `{!SectorLaws read write capacity damaged} `{!LockLaws lock}.
Context (b : fat12_boot_sector) (Hfits : volume_fits capacity damaged b).

Definition run_request (r : request) : volume W → bool * volume W :=
match r with
| Group maximum calls => transaction read write read_range lock maximum calls
| Single c => fat12_write_logical_sectors read write read_range lock c.1 c.2
end.

(** The requests that the code does not have to refuse. *)
Definition request_admissible (f : fat12_t) (v : volume W) (r : request) : Prop :=
match r with
| Group maximum calls => transaction_admissible b f v maximum calls
| Single c =>
    fat12_write_supported f = true ∧ in_use_mask v = 0 ∧ fat12_journal_sequence v < UINT64_MAX ∧
    call_admissible b c
end.

(** The medium after any number of attempts to mount it, each on a device
  that may fail at any point. *)
Inductive after_mounts : image → image → Prop :=
| mounts_none i i' : (∀ l, i' l = i l) → after_mounts i i'
| mounts_more i v i' :
    fresh b v → (∀ l, content v l = i l) →
    after_mounts (content (fat12_journal_prepare read write lock v).2) i' → after_mounts i i'.

Abbreviation settled := (settled capacity (base b) (base b + 1) (base b + 2) (volume_id b)).

Lemma settled_ext i i' allowed : (∀ l, i' l = i l) → settled i allowed → settled i' allowed.
Proof using Hfits. apply (settled_same capacity damaged _ _ _ _ (volume_placed _ _ _ Hfits)). Qed.

Lemma settled_after i i' allowed : after_mounts i i' → settled i allowed → settled i' allowed.
Proof using All.
induction 1 as [i i' He|i v i' Hf He _ IH]; intros Hs; [by eapply settled_ext|].
apply IH. pose proof (prepare_spec read write read_range lock capacity damaged b Hfits v allowed Hf) as Hp.
destruct (fat12_journal_prepare read write lock v) as [ok v']. apply Hp. by eapply settled_ext.
Qed.

Lemma run_request_spec (allowed : image → Prop) f v img r :
let new := apply_writes img (request_writes r) in
mounted b f v img → calls_direct f (request_calls r) → Forall call_ok (request_calls r) → allowed img → allowed new →
let '(ok, v') := run_request r v in
settled (content v') allowed ∧ (ok = true → ∃ f', same_mount f f' ∧ mounted b f' v' new) ∧
(healthy (device v) → request_admissible f v r → ok = true ∧ healthy (device v')).
Proof using All.
intros new Hm Hd Hok Ha Han. destruct r as [maximum calls|c].
- exact (transaction_spec read write read_range lock capacity damaged b Hfits allowed f v img maximum calls Hm Hd Hok Ha Han).
- apply list.Forall_cons in Hd as [Hd _]. apply list.Forall_cons in Hok as [Hok _].
  assert (request_writes (Single c) = call_writes c) as E.
  { unfold request_writes, all_writes. cbn [request_calls map concat]. apply app_nil_r. }
  subst new. rewrite E in *.
  pose proof (single_call_spec read write read_range lock capacity damaged b Hfits allowed f v img c Hm Hd Hok Ha Han) as Hs.
  cbn [run_request]. destruct (fat12_write_logical_sectors _ _ _ _ _ _ v) as [ok v']. destruct Hs as (_ & S2 & S3 & S4).
  split_and!; [done|done|]. intros Hh (H1 & H2 & H3 & H4). by apply S4.
Qed.

(** C2: requests to sectors without a replacement, as far as the volume can be
mounted again, are atomic.  (A rollback does not reach a replaced sector, and a
power failure between the copies of a header makes the volume unmountable: the
two properties below.)  Take a mounted volume and a group of calls in one transaction,
or one call on its own, to sectors without a replacement, over any device: one whose writes may fail, be
torn or claim success falsely, and whose reads may end the session.  If the
request reports success the volume holds all of its writes.  On a device that
answers, a request that keeps to the limits succeeds.  Whatever happened, and
after any number of interrupted attempts to mount, a mount that succeeds shows
all of the writes or, if success was not reported, none of them. *)
Theorem fat12_request_atomic f v img r
  (Hm : mounted b f v img) (Hd : calls_direct f (request_calls r)) (Hok : Forall call_ok (request_calls r)) :
let new := apply_writes img (request_writes r) in
let '(ok, v') := run_request r v in
(ok = true → ∃ f', same_mount f f' ∧ mounted b f' v' new) ∧
(healthy (device v) → request_admissible f v r → ok = true ∧ healthy (device v')) ∧
(∀ i v2, after_mounts (content v') i → fresh b v2 → (∀ l, content v2 l = i l) →
 let '(ok2, v3) := fat12_journal_prepare read write lock v2 in
 ok2 = true → ∃ f3, mounted b f3 v3 new ∨ (ok = false ∧ mounted b f3 v3 img)).
Proof using All.
intros new. pose proof (run_request_spec (λ i, i = img ∨ i = new) f v img r Hm Hd Hok (or_introl eq_refl) (or_intror eq_refl)) as Hr.
destruct (run_request r v) as [ok v']. destruct Hr as (R1 & R2 & R3). split_and!; [done|done|].
intros i v2 Hi Hf Hc.
assert (settled (content v') (λ i, i = new ∨ (ok = false ∧ i = img))) as Hset.
{ destruct ok.
  - destruct (R2 eq_refl) as (f' & _ & Hm'). eapply idle_settled; [apply (mounted_idle _ _ _ _ Hm')|by left|apply Hm'].
  - destruct R1 as [L1 L2]. split; [|done]. intros h Hh. specialize (L1 h Hh). unfold leads in *.
    destruct (_ =? _).
    + destruct L1 as (i0 & [->| ->] & Hs); [exists img|exists new]; auto.
    + destruct L1 as (? & ? & undo & old & [->| ->] & ? & ?); split_and!; try done;
        [exists undo, img|exists undo, new]; auto. }
pose proof (prepare_spec read write read_range lock capacity damaged b Hfits v2 _ Hf
  (settled_ext _ _ _ Hc (settled_after _ _ _ Hi Hset))) as Hp.
destruct (fat12_journal_prepare read write lock v2) as [ok2 v3]. destruct Hp as [_ Hp]. intros H2.
destruct (Hp H2) as (f3 & i3 & [->|[-> ->]] & Hm3); exists f3; auto.
Qed.

Abbreviation P := (base b).
Abbreviation M := (base b + 1).
Abbreviation D := (base b + 2).
Abbreviation fp := (volume_id b).
Abbreviation active := (active capacity P M D fp).

(** Two valid headers with one sequence number and different contents. *)
Lemma split_headers_refused h h' i j w :
header_at fp i P = Some h → header_at fp i M = Some h' → h_sequence h = h_sequence h' → encode h ≠ encode h' →
in_place P M D fp j → scratch_in_use j = false → healthy w → (∀ l, medium w l = i l) →
let '(ok, _, w') := fat12_journal_recover read write j w in ok = false ∧ ∀ l, medium w' l = i l.
Proof using All.
intros HP HM Hseq Hne Hpl Hsc Hh Hw. unfold fat12_journal_recover. rewrite locked_free by done.
assert (chosen P M fp (medium w) = None) as Hc.
{ unfold chosen. rewrite !(header_at_same _ i (medium w)), HP, HM by done. unfold choose_header.
  by rewrite Hseq, Z.eqb_refl, bool_decide_eq_false_2. }
pose proof (journal_load_spec read write capacity damaged _ _ _ _ (volume_placed _ _ _ Hfits) (set_in_use j true) w Hpl) as Hl.
unfold fat12_journal_recover_locked. destruct (fat12_journal_load_locked read _ w) as [[ok j'] w'].
destruct Hl as (L1 & _ & _ & _ & L3). destruct (L3 Hh) as (_ & _ & L4). destruct ok.
- specialize (L4 eq_refl). by rewrite Hc in L4.
- cbn [negb]. split; [done|]. intros l. by rewrite L1.
Qed.

(** C11: a power failure between the two copies of a header is fatal.  A commit
writes the clean header over the active one with the same sequence number, the
primary copy first.  If the primary copy arrives and the mirror copy is lost,
the commit fails and from then on every recovery, on a device that works, is
refused and leaves the medium as it is: the transaction is neither completed
nor rolled back, and the volume cannot be mounted. *)
Theorem fat12_commit_gap_refused j w old undo
  (Ha : active j (medium w) old undo) (Hsc : scratch_in_use j = false) :
let '(ok, j', w') := fat12_journal_commit read write j w in
medium w' P ≠ medium w P → ¬ damaged (medium w' P) → medium w' M = medium w M →
ok = false ∧
∀ j2 w2, in_place P M D fp j2 → scratch_in_use j2 = false → healthy w2 → (∀ l, medium w2 l = medium w' l) →
let '(ok2, _, w3) := fat12_journal_recover read write j2 w2 in ok2 = false ∧ ∀ l, medium w3 l = medium w' l.
Proof using All.
pose proof (volume_placed _ _ _ Hfits) as Hp.
destruct (active_header_at capacity damaged _ _ _ _ Hp _ _ _ _ Ha) as (Hw0 & HP0 & HM0).
destruct Ha as [Hpl Hs Hh HPs HMs _ _ _]. destruct (prepared_facts _ _ _ _ _ Hh) as (Est & _ & _).
unfold fat12_journal_commit. rewrite locked_free by done. unfold fat12_journal_commit_locked.
change (header (set_in_use j true)) with (header j). rewrite Est. cbn [Z.eqb FAT12_JOURNAL_ACTIVE negb].
set (j1 := set_header _ _). assert (in_place P M D fp j1) as Hpl1 by done.
assert (prepared fp (h_sequence (header j)) FAT12_JOURNAL_CLEAN 0 (header j1)) as Hj1.
{ destruct Hpl as (_ & _ & _ & <-). constructor. }
clearbody j1. destruct (prepared_ok capacity damaged _ _ _ _ Hp _ FAT12_JOURNAL_CLEAN 0 _ Hs ltac:(done) ltac:(done) Hj1) as [Hw1 Hv1].
destruct (prepared_facts _ _ _ _ _ Hj1) as (Est1 & _ & Eseq1).
assert (encode (header j1) ≠ encode (header j)) as Hne.
{ apply prepared_differ; [done|done|]. left. by rewrite Est, Est1. }
pose proof (write_header_spec read write capacity damaged _ _ _ _ Hp j1 w Hpl1 Hw1 Hv1) as (_ & Hout & Hok & _).
destruct (write_header read write j1 w) as [ok w'] eqn:Ewh. cbn [fst snd] in *.
pose proof (write_header_primary read write capacity damaged _ _ _ _ Hp j1 w Hpl1) as Hprim. rewrite Ewh in Hprim. cbn [snd] in Hprim.
assert (medium w' P ≠ medium w P → ¬ damaged (medium w' P) → header_at fp (medium w') P = Some (header j1)) as HP1.
{ intros Hn Hnd. apply header_at_sector; [done|done|]. by destruct Hprim as [|[|]]. }
assert (medium w' M = medium w M → header_at fp (medium w') M = Some (header j)) as HM1.
{ intros E. by rewrite (header_at_same _ (medium w)). }
assert (ok = true → medium w' M = medium w M → False) as Hlost.
{ intros Ho E. destruct (Hok Ho) as [_ EM]. specialize (HM1 E).
  rewrite (header_at_sector _ _ _ _ Hw1 Hv1 EM) in HM1. injection HM1 as E1. by rewrite E1 in Hne. }
destruct ok; intros Hn Hnd E; [by destruct (Hlost eq_refl E)|]. split; [done|].
intros j2 w2 Hpl2 Hsc2 Hh2 Hw2.
exact (split_headers_refused _ _ _ j2 w2 (HP1 Hn Hnd) (HM1 E) Eseq1 Hne Hpl2 Hsc2 Hh2 Hw2).
Qed.

(** Writing a remapped sector inside a transaction. *)
Lemma write_remapped f v img s r d (undo := @nil (Z * list Z)) :
writing capacity b f v img img undo → fat12_write_supported f = true → fat12_remap_sector f s = r → r ≠ s →
in_range b s → 0 <= r < capacity → ¬ journal_area b r → ¬ journal_area b s → is_sector d →
let '(ok, v') := write_one read write read_range s d v in
ok = true → settled (content v') (λ i, i = upd (upd img s (img r)) r d).
Proof using All.
intros Hw Hsup Hr Hne Hs Hrc Hjr Hjs Hd. pose proof Hw as [Hf Hb _ _ Hv _ _].
pose proof (supported_facts _ Hsup) as [_ Hrem].
unfold write_one. rewrite Hf, (read_one read read_range b f v s Hf Hb Hrem Hs), Hr. unfold fdc_read.
pose proof (read_medium (read := read) (write := write) (device v) r) as Rm.
pose proof (read_ok (read := read) (write := write) (device v) r) as Rk.
destruct (read (device v) r) as [[ok data] w1]. cbn [fst snd] in *. destruct ok; cbn [negb hd]; [|done].
assert (data = img r) as ->.
{ rewrite (Rk eq_refl). apply Hv. by rewrite journal_area_spec. }
pose proof (writing_device read write read_range lock capacity damaged b Hfits f v w1 _ _ _ Rm Hw) as Hw1.
set (v1 := set_device v w1) in *. set (old' := upd img s (img r)).
assert (records img old' undo s (img r)) as Hrec.
{ unfold records, undo, old', upd. rewrite decide_False by apply not_elem_of_nil. rewrite Z.eqb_refl.
  split; [done|]. intros l Hl. by rewrite (proj2 (Z.eqb_neq l s)). }
assert (is_sector (img r)) as Hsec.
{ rewrite <- (Hv r) by by rewrite journal_area_spec. apply (medium_sector (read := read) (write := write)). }
pose proof (record_step read write read_range lock capacity damaged b Hfits f v1 img old' img undo s (img r) (λ _, True)
  Hw1 Hs Hsec (λ _, Hrec) I I) as Hrs. unfold and_io at 1.
destruct (on_journal _ v1) as [[] v2]; destruct Hrs as (_ & H2 & H3 & _); [|done].
destruct (H3 eq_refl) as (f2 & undo2 & Hw2 & _ & Hin & Hlen).
rewrite write_then_verify.
pose proof (write_verified_spec read write capacity damaged r d (device v2) Hd) as (Wr & O & _).
destruct (write_verified read write r d (device v2)) as [ok w3]. cbn [fst snd] in *. intros Hok.
assert (r ∉ map fst undo2) as Hnin.
{ destruct undo2 as [|u [|u' undo2]]; [by apply elem_of_nil in Hin| |simpl in Hlen; lia].
  cbn [map] in *. rewrite list_elem_of_singleton in *. congruence. }
assert (¬ area P M D r) as Har by by rewrite journal_area_spec.
pose proof (active_other read write capacity damaged _ _ _ _ (volume_placed _ _ _ Hfits) _ _ (medium w3) old' undo2 r
  (writing_active _ _ _ _ _ _ _ Hw2) Har Hnin (proj1 Wr)) as Ha3.
rewrite (O Hok) in Ha3.
by apply (active_settled capacity damaged _ _ _ _ (volume_placed _ _ _ Hfits) _ _ _ _ (λ i, i = upd old' r d) Ha3).
Qed.

(** C19: a rollback does not reach a sector that has a replacement.  Inside a
transaction, write a sector [s] whose replacement is [r].  The new bytes go to
[r], but the journal records them under [s].  If the power fails before the
commit, a later mount that succeeds restores the old bytes to the defective
sector [s], and [r], where every read of [s] goes, keeps the new bytes. *)
Theorem fat12_rollback_misses_replacement f v img n s r d
  (Hm : mounted b f v img) (Hsup : fat12_write_supported f = true)
  (Hr : fat12_remap_sector f s = r) (Hne : r ≠ s) (Hs : in_range b s) (Hrc : 0 <= r < capacity)
  (Hjr : ¬ journal_area b r) (Hjs : ¬ journal_area b s) (Hd : is_sector d) :
let '(ok, v') := (fat12_transaction_begin read write n AND write_one read write read_range s d)%io v in
ok = true → ∀ v2, fresh b v2 → (∀ l, content v2 l = content v' l) →
let '(ok2, v3) := fat12_journal_prepare read write lock v2 in
ok2 = true → content v3 r = d ∧ content v3 s = img r.
Proof using All.
unfold and_io. pose proof (begin_transaction_spec read write read_range lock capacity damaged b Hfits f v img (λ _, True) n Hm I) as Hb.
destruct (fat12_transaction_begin read write n v) as [[] v1]; destruct Hb as (_ & B2 & B3 & _); [|done].
destruct (B3 eq_refl) as (f1 & Hw1 & Hfen1). pose proof (writing_fat12 _ _ _ _ _ _ _ Hw1) as Hf1.
assert (same_mount f f1) as Hsm1 by (destruct B2 as [_ (f2 & Hf2 & Hsm)]; congruence).
pose proof (writing_supported capacity b f f1 _ _ _ _ Hsm1 Hsup (mounted_boot _ _ _ _ Hm) Hfen1 Hw1) as Hs1.
rewrite <- (same_mount_remap _ _ s Hsm1) in Hr.
pose proof (write_remapped f1 v1 img s r d Hw1 Hs1 Hr Hne Hs Hrc Hjr Hjs Hd) as Hwr.
destruct (write_one read write read_range s d v1) as [ok v']. intros Hok v2 Hfr Hc.
pose proof (prepare_spec read write read_range lock capacity damaged b Hfits v2 _ Hfr (settled_ext _ _ _ Hc (Hwr Hok))) as Hp.
destruct (fat12_journal_prepare read write lock v2) as [ok2 v3]. destruct Hp as [_ Hp]. intros H2.
destruct (Hp H2) as (f3 & i3 & -> & Hm3). pose proof (mounted_volume _ _ _ _ Hm3) as Hv3.
rewrite !Hv3 by by rewrite journal_area_spec. unfold upd. rewrite !Z.eqb_refl.
by rewrite (proj2 (Z.eqb_neq s r)) by done.
Qed.
End properties.

(** ** A floppy *)
Section example.
Definition sample_boot : fat12_boot_sector :=
  Boot 512 1 196 2 2880 9 0 0x12345678 [82; 69; 73; 83; 84; 49; 50; 32].

#[local] Existing Instance Fat12Remap.remap_header_layout.

(** Sector 300 is replaced by sector 135. *)
Definition sample_entries : list Fat12Remap.fat12_remap_entry_t :=
  Fat12Remap.Entry 300 135 2 :: tail Fat12Remap.no_entries.
Definition sample_remap_header : Fat12Remap.fat12_remap_header_t :=
  let h := Fat12Remap.prepare_header 0x12345678 2 1 in
  Fat12Remap.with_crc h (Fat12Remap.table_crc h sample_entries).
Definition sample_remap : Fat12Remap.fat12_remap_table_t :=
  Fat12Remap.Table 131 132 133 0x12345678 sample_remap_header sample_entries.

(** A volume with a clean journal header in both copies and, behind the
    journal, the two headers and the sector of the table of replacements. *)
Definition sample_header : fat12_journal_header_t :=
  prepare_header 0x12345678 1 FAT12_JOURNAL_CLEAN 0.
Definition sample_track : image :=
  λ l, if (l =? 1) || (l =? 2) then sector_of (encode sample_header)
    else if (l =? 131) || (l =? 132) then sector_of (encode sample_remap_header)
    else if l =? 133 then sector_of (Fat12Remap.entry_bytes [Fat12Remap.Entry 300 135 2])
    else repeat 0 512.
Definition sample_floppy (supply : option nat) (tear : bool) : floppy := Floppy sample_track supply tear.

Definition sample_journal : fat12_journal_t := Journal 1 2 3 0x12345678 sample_header no_entries false.
Definition sample_mount : fat12_t :=
  Mounted sample_boot 196 228 (Some []) true sample_journal true sample_remap true [] false false.
Definition sample_volume (w : floppy) : volume floppy := Volume (Some sample_mount) 1 0 w.
Definition sample_image : image := medium (sample_floppy None false).

Lemma torn_magic x : torn_bytes x → h_magic (sector_header x) = 0.
Proof.
  unfold torn_bytes. intros E. unfold sector_header. change (le_value (take 4 (take 32 x)) = 0).
  rewrite take_take. change (4 `min` 32)%nat with 4%nat. by rewrite E.
Qed.

Lemma sample_volume_fits : volume_fits 2880 torn_bytes sample_boot.
Proof.
  split; [split; by apply Z.leb_le|by apply Z.leb_le|split; by apply Z.leb_le|split; [split; [by apply Z.leb_le|by apply Z.ltb_lt]|done]|].
  intros x Hx. unfold header_valid. by rewrite (torn_magic x Hx).
Qed.

Lemma sample_header_at l : l = 1 ∨ l = 2 → header_at 0x12345678 sample_image l = Some sample_header.
Proof. intros [->| ->]; vm_compute; reflexivity. Qed.

Lemma sample_mounted supply tear :
  mounted sample_boot sample_mount (sample_volume (sample_floppy supply tear)) sample_image.
Proof.
  split; try done.
  split_and!; try done. intros h Hh.
  assert (h = sample_header) as ->.
  { change (content (sample_volume (sample_floppy supply tear))) with sample_image in Hh.
    change (base sample_boot) with 1 in Hh. change (volume_id sample_boot) with 0x12345678 in Hh.
    destruct Hh as [Hh|Hh]; rewrite sample_header_at in Hh by auto; by injection Hh as <-. }
  by vm_compute.
Qed.

Definition sample_request : request := Group 4 [(250, [repeat 7 512; repeat 8 512]); (260, [repeat 9 512])].

Lemma sample_sector x : is_u8 x → is_sector (repeat x 512).
Proof.
  intros Hx. split; [done|]. apply list.Forall_forall. intros y Hy. by apply list_elem_of_In, repeat_spec in Hy as ->.
Qed.

Lemma sample_calls_ok : Forall call_ok (request_calls sample_request).
Proof.
  cbn [request_calls sample_request].
  repeat (apply list.Forall_cons; split; [split; [cbn; ulia|]|]); try apply list.Forall_nil_2;
    cbn [snd]; repeat (apply list.Forall_cons; split; [apply sample_sector; ulia|]); apply list.Forall_nil_2.
Qed.
Lemma sample_direct : calls_direct sample_mount (request_calls sample_request).
Proof.
  cbn [request_calls sample_request].
  repeat (apply list.Forall_cons; split); try apply list.Forall_nil_2; intros k Hk; cbn [length fst snd] in *;
    destruct k as [|[|k]]; first [lia|reflexivity].
Qed.
Lemma sample_admissible w : request_admissible sample_boot sample_mount (sample_volume w) sample_request.
Proof.
  split_and!; [reflexivity|reflexivity|by apply Z.ltb_lt|by apply Z.leb_le|by apply Z.leb_le| |by apply Nat.leb_le].
  cbn [request_calls sample_request].
  repeat (apply list.Forall_cons; split); try apply list.Forall_nil_2;
    (split_and!; [done|by apply Nat.leb_le|by apply Z.leb_le|]);
    intros k Hk; unfold journal_area; change (base sample_boot) with 1; cbn [fst]; lia.
Qed.

(** The request on a drive with this supply, and the mount once power is back. *)
Definition sample_run (supply : option nat) (tear : bool) : bool * volume floppy :=
  run_request floppy_read floppy_write floppy_read_range floppy_lock sample_request
    (sample_volume (sample_floppy supply tear)).
Definition blank_mount : fat12_t :=
  Mounted sample_boot 196 228 (Some []) false sample_journal false
    (Fat12Remap.Table 131 132 133 0x12345678 sample_remap_header Fat12Remap.no_entries) false [] false false.
Lemma blank_fresh (w : floppy) : fresh sample_boot (Volume (Some blank_mount) 0 0 w).
Proof. exists blank_mount. split_and!; reflexivity. Qed.
Definition remount (v : volume floppy) : bool * volume floppy :=
  fat12_journal_prepare floppy_read floppy_write floppy_lock
    (Volume (Some blank_mount) 0 0 (Floppy (f_track (device v)) None false)).
Definition sample_new : image := apply_writes sample_image (request_writes sample_request).

(** With 16 writes the power fails inside the transaction, when sector 250 is
    already written; with 19 it fails when the journal is clean again. *)
Lemma sample_outcomes :
  hd 0 (f_track (device (sample_run (Some 16%nat) false).2) 250) = 7 ∧
  (remount (sample_run (Some 16%nat) false).2).1 = true ∧
  hd 0 (content (remount (sample_run (Some 16%nat) false).2).2 250) = 0 ∧
  (remount (sample_run (Some 19%nat) false).2).1 = true ∧
  hd 0 (content (remount (sample_run (Some 19%nat) false).2).2 250) = 7 ∧
  (remount (sample_run None false).2).1 = true.
Proof. vm_compute. repeat split. Qed.

Lemma fat12_request_atomic_witness :
  (sample_run None false).1 = true ∧
  (∀ supply tear i v2,
   after_mounts floppy_read floppy_write floppy_lock sample_boot (content (sample_run supply tear).2) i →
   fresh sample_boot v2 → (∀ l, content v2 l = i l) →
   let '(ok2, v3) := fat12_journal_prepare floppy_read floppy_write floppy_lock v2 in
   ok2 = true → ∃ f3, mounted sample_boot f3 v3 sample_new ∨
     ((sample_run supply tear).1 = false ∧ mounted sample_boot f3 v3 sample_image)) ∧
  (∃ v3 f3, remount (sample_run None false).2 = (true, v3) ∧ mounted sample_boot f3 v3 sample_new) ∧
  (∃ v3 f3, remount (sample_run (Some 16%nat) false).2 = (true, v3) ∧ mounted sample_boot f3 v3 sample_image) ∧
  (∃ v3 f3, remount (sample_run (Some 19%nat) false).2 = (true, v3) ∧ mounted sample_boot f3 v3 sample_new).
Proof.
  pose proof (λ supply tear, fat12_request_atomic floppy_read floppy_write floppy_read_range floppy_lock 2880 torn_bytes
    sample_boot sample_volume_fits sample_mount (sample_volume (sample_floppy supply tear)) sample_image sample_request
    (sample_mounted supply tear) sample_direct sample_calls_ok) as H.
  change (∀ supply tear, let '(ok, v') := sample_run supply tear in
    (ok = true → ∃ f', same_mount sample_mount f' ∧ mounted sample_boot f' v' sample_new) ∧
    (healthy (sample_floppy supply tear) →
     request_admissible sample_boot sample_mount (sample_volume (sample_floppy supply tear)) sample_request →
     ok = true ∧ healthy (device v')) ∧
    (∀ i v2, after_mounts floppy_read floppy_write floppy_lock sample_boot (content v') i →
     fresh sample_boot v2 → (∀ l, content v2 l = i l) →
     let '(ok2, v3) := fat12_journal_prepare floppy_read floppy_write floppy_lock v2 in
     ok2 = true → ∃ f3, mounted sample_boot f3 v3 sample_new ∨
       (ok = false ∧ mounted sample_boot f3 v3 sample_image))) in H.
  assert (Hok : (sample_run None false).1 = true).
  { specialize (H None false). destruct (sample_run None false) as [ok v']. destruct H as (_ & H & _).
    apply H; [reflexivity|apply sample_admissible]. }
  assert (Hall : ∀ supply tear, let '(ok2, v3) := remount (sample_run supply tear).2 in
    ok2 = true → ∃ f3, mounted sample_boot f3 v3 sample_new ∨
      ((sample_run supply tear).1 = false ∧ mounted sample_boot f3 v3 sample_image)).
  { intros supply tear. specialize (H supply tear). destruct (sample_run supply tear) as [ok v'].
    destruct H as (_ & _ & H). unfold remount. apply (H (content v')); [apply mounts_none; reflexivity|apply blank_fresh|reflexivity]. }
  assert (Hnew : hd 0 (sample_new 250) = 7) by reflexivity.
  assert (Hold : hd 0 (sample_image 250) = 0) by reflexivity.
  assert (H250 : ¬ area (base sample_boot) (base sample_boot + 1) (base sample_boot + 2) 250)
    by (rewrite journal_area_spec; intros [_ H1]; by apply Z.ltb_lt in H1).
  destruct sample_outcomes as (_ & E16 & C16 & E19 & C19 & E0).
  split_and!; [exact Hok| | | |].
  - intros supply tear. specialize (H supply tear). destruct (sample_run supply tear) as [ok v']. apply H.
  - pose proof (Hall None false) as H0. destruct (remount (sample_run None false).2) as [ok2 v3]. cbn [fst snd] in *. subst ok2.
    destruct (H0 eq_refl) as (f3 & [Hm|[Hf _]]); [exact (ex_intro _ v3 (ex_intro _ f3 (conj eq_refl Hm)))|].
    rewrite Hf in Hok. inversion Hok.
  - pose proof (Hall (Some 16%nat) false) as H0. revert H0 E16 C16; clear - Hnew Hold H250; destruct (remount (sample_run (Some 16%nat) false).2) as [ok2 v3]; intros H0 E16 C16. cbn [fst snd] in *. subst ok2.
    destruct (H0 eq_refl) as (f3 & [Hm|[_ Hm]]); [|exact (ex_intro _ v3 (ex_intro _ f3 (conj eq_refl Hm)))].
    rewrite (mounted_volume _ _ _ _ Hm 250 H250), Hnew in C16. inversion C16.
  - pose proof (Hall (Some 19%nat) false) as H0. revert H0 E19 C19; clear - Hnew Hold H250; destruct (remount (sample_run (Some 19%nat) false).2) as [ok2 v3]; intros H0 E19 C19. cbn [fst snd] in *. subst ok2.
    destruct (H0 eq_refl) as (f3 & [Hm|[_ Hm]]); [exact (ex_intro _ v3 (ex_intro _ f3 (conj eq_refl Hm)))|].
    rewrite (mounted_volume _ _ _ _ Hm 250 H250), Hold in C19. inversion C19.
Defined.

(** A transaction is open and the drive has power for one more write. *)
Definition open_header : fat12_journal_header_t := prepare_header 0x12345678 2 FAT12_JOURNAL_ACTIVE 0.
Definition open_floppy : floppy :=
  Floppy (λ l, if (l =? 1) || (l =? 2) then sector_of (encode open_header) else repeat 0 512) (Some 1%nat) false.
Definition open_journal : fat12_journal_t := Journal 1 2 3 0x12345678 open_header no_entries false.

Lemma open_active : active 2880 1 2 3 0x12345678 open_journal (medium open_floppy) (medium open_floppy) [].
Proof.
  split; [done|done|constructor|vm_compute; reflexivity|vm_compute; reflexivity| |done|done].
  split; try done; [apply Nat.le_0_l|]. intros t d Hd. by apply elem_of_nil in Hd.
Qed.

Lemma fat12_commit_gap_refused_witness :
  let r := fat12_journal_commit floppy_read floppy_write open_journal open_floppy in
  r.1.1 = false ∧ medium r.2 1 ≠ medium open_floppy 1 ∧
  ∀ j2 w2, in_place 1 2 3 0x12345678 j2 → scratch_in_use j2 = false → healthy w2 →
  (∀ l, medium w2 l = medium r.2 l) → (fat12_journal_recover floppy_read floppy_write j2 w2).1.1 = false.
Proof.
  pose proof (fat12_commit_gap_refused floppy_read floppy_write floppy_read_range floppy_lock 2880 torn_bytes
    sample_boot sample_volume_fits open_journal open_floppy (medium open_floppy) [] open_active eq_refl) as H.
  cbv zeta. change (base sample_boot) with 1 in H. change (1 + 1) with 2 in H. change (1 + 2) with 3 in H.
  assert (let r := fat12_journal_commit floppy_read floppy_write open_journal open_floppy in
    medium r.2 1 ≠ medium open_floppy 1 ∧ ¬ torn_bytes (medium r.2 1) ∧ medium r.2 2 = medium open_floppy 2) as Hr.
  { split_and!; [|vm_compute; discriminate|vm_compute; reflexivity].
    intros E. apply (f_equal (λ l, nth 20 l 0)) in E. vm_compute in E. discriminate. }
  destruct (fat12_journal_commit _ _ _ _) as [[ok j'] w']. cbn [fst snd] in *. destruct Hr as (H1 & H2 & H3).
  destruct (H H1 H2 H3) as [-> Hall]. split_and!; [done|done|]. intros j2 w2 Hpl Hsc Hh Hw.
  specialize (Hall j2 w2 Hpl Hsc Hh Hw). destruct (fat12_journal_recover _ _ j2 w2) as [[ok2 j3] w3]. apply Hall.
Defined.

(** The power fails once sector 300 is written, that is, its replacement 135. *)
Abbreviation sample_remapped_write :=
  ((fat12_transaction_begin floppy_read floppy_write 4 AND
    write_one floppy_read floppy_write floppy_read_range 300 (repeat 7 512))%io
    (sample_volume (sample_floppy None false))).

Lemma sample_remapped_outcomes :
  sample_remapped_write.1 = true ∧ (remount sample_remapped_write.2).1 = true ∧
  sample_image 135 = repeat 0 512.
Proof. repeat split; vm_compute; reflexivity. Qed.

Lemma fat12_rollback_misses_replacement_witness :
  sample_remapped_write.1 = true ∧
  ∃ v3, remount sample_remapped_write.2 = (true, v3) ∧
    content v3 135 = repeat 7 512 ∧ content v3 300 = sample_image 135 ∧ sample_image 135 = repeat 0 512.
Proof.
  assert (in_range sample_boot 300) as Hs by (split; [by apply Z.leb_le|by apply Z.ltb_lt]).
  assert (¬ journal_area sample_boot 135) as H135 by (intros [H1 H2]; by apply Z.ltb_lt in H2).
  assert (¬ journal_area sample_boot 300) as H300 by (intros [H1 H2]; by apply Z.ltb_lt in H2).
  pose proof (fat12_rollback_misses_replacement floppy_read floppy_write floppy_read_range floppy_lock 2880 torn_bytes
    sample_boot sample_volume_fits sample_mount (sample_volume (sample_floppy None false)) sample_image 4 300 135 (repeat 7 512)
    (sample_mounted None false) eq_refl eq_refl ltac:(lia) Hs ltac:(lia) H135 H300 (sample_sector 7 ltac:(ulia))) as H.
  destruct sample_remapped_outcomes as (Hr & Hm & H0). cbv zeta in H.
  destruct (and_io _ _ _) as [ok v']. cbn [fst snd] in *. split; [exact Hr|].
  assert (let '(ok2, v3) := remount v' in
    ok2 = true → content v3 135 = repeat 7 512 ∧ content v3 300 = sample_image 135) as Hv.
  { apply (H Hr); [apply blank_fresh|reflexivity]. }
  destruct (remount v') as [ok2 v3]. cbn [fst] in Hm. subst ok2. exists v3.
  destruct (Hv eq_refl) as [E135 E300]. exact (conj eq_refl (conj E135 (conj E300 H0))).
Defined.
End example.
