(* ===== verification/Fat12Entries.v ===== *)
(** The packed entries of a FAT12 table: [fat12_get_fat_entry] and
    [fat12_set_fat_entry] of src/fs/fat12/fat12.c against an array of 12-bit
    values. *)
From S2P Require Import Prelude Fat12Journal Fat12Remap Fat12Volume.
Import Fat12.

(** The value in two bytes, in arithmetic. *)
Definition entry_value (odd : bool) (low high : Z) : Z :=
  if odd then low / 16 + 16 * high else low + 256 * (high mod 16).

Lemma land_low x k : 0 <= k → Z.land x (Z.ones k) = x mod 2 ^ k.
Proof. intros. by apply Z.land_ones. Qed.

Lemma land_one_odd c : (Z.land c 1 =? 0) = Z.even c.
Proof.
  change 1 with (Z.ones 1). rewrite land_low by lia. change (2 ^ 1) with 2.
  rewrite Zmod_even. by destruct (Z.even c).
Qed.

Lemma packed_value low high : is_u8 low → is_u8 high → Z.lor low (u16 (Z.shiftl high 8)) = low + 256 * high.
Proof.
  intros Hl Hh. assert (u16 (Z.shiftl high 8) = Z.shiftl high 8) as ->.
  { rewrite Z.shiftl_mul_pow2 by lia. change (2 ^ 8) with 256. ulia. }
  rewrite Z.lor_comm, lor_shiftl_add by (unfold is_u8 in *; lia). change (2 ^ 8) with 256. lia.
Qed.

Lemma get_value (odd : bool) low high :
  is_u8 low → is_u8 high →
  (if odd then Z.shiftr (Z.lor low (u16 (Z.shiftl high 8))) 4
   else Z.land (Z.lor low (u16 (Z.shiftl high 8))) 0x0FFF) = entry_value odd low high.
Proof.
  intros Hl Hh. rewrite packed_value by done. unfold entry_value. destruct odd.
  - rewrite Z.shiftr_div_pow2 by lia. change (2 ^ 4) with 16. ulia.
  - change 0x0FFF with (Z.ones 12). rewrite land_low by lia. change (2 ^ 12) with 4096. ulia.
Qed.

(** The two bytes that a store leaves. *)
Definition store_low (odd : bool) (value low : Z) : Z :=
  if odd then u8 (Z.lor (Z.land low 0x0F) (Z.shiftl value 4)) else u8 value.
Definition store_high (odd : bool) (value high : Z) : Z :=
  if odd then u8 (Z.shiftr value 4) else Z.lor (Z.land high 0xF0) (Z.shiftr value 8).

Lemma land_f0 high : is_u8 high → Z.land high 0xF0 = high / 16 * 16.
Proof.
  intros Hh. assert (Z.land high 0xF0 = Z.shiftl (Z.shiftr high 4) 4) as ->.
  { apply Z.bits_inj'. intros i Hi. change 0xF0 with (Z.shiftl (Z.ones 4) 4). rewrite Z.land_spec, !Z.shiftl_spec by lia.
    destruct (Z.ltb_spec (i - 4) 0).
    - rewrite (Z.testbit_neg_r (Z.ones 4)), (Z.testbit_neg_r (Z.shiftr high 4)) by lia. apply andb_false_r.
    - rewrite Z.shiftr_spec by lia. replace (i - 4 + 4) with i by lia. destruct (Z.ltb_spec i 8).
      + rewrite Z.ones_spec_low by lia. by rewrite andb_true_r.
      + rewrite Z.ones_spec_high by lia. rewrite (testbit_high 8 high i) by (unfold is_u8 in Hh; lia). done. }
  rewrite Z.shiftl_mul_pow2, Z.shiftr_div_pow2 by lia. done.
Qed.

Lemma store_values odd value low high :
  0 <= value < 4096 → is_u8 low → is_u8 high →
  is_u8 (store_low odd value low) ∧ is_u8 (store_high odd value high) ∧
  entry_value odd (store_low odd value low) (store_high odd value high) = value ∧
  (odd = true → store_low odd value low mod 16 = low mod 16) ∧
  (odd = false → store_high odd value high / 16 = high / 16).
Proof.
  intros Hv Hl Hh. destruct odd; unfold store_low, store_high, entry_value.
  - change 0x0F with (Z.ones 4). rewrite land_low by lia. rewrite Z.shiftr_div_pow2 by lia.
    rewrite Z.lor_comm, lor_shiftl_add by (change (2 ^ 4) with 16; ulia). change (2 ^ 4) with 16. split_and!; try done; ulia.
  - rewrite land_f0 by done. rewrite Z.shiftr_div_pow2 by lia. change (2 ^ 8) with 256.
    assert (Z.lor (high / 16 * 16) (value / 256) = high / 16 * 16 + value / 256) as ->.
    { replace (high / 16 * 16) with (Z.shiftl (high / 16) 4) by (rewrite Z.shiftl_mul_pow2 by lia; done).
      rewrite lor_shiftl_add by (change (2 ^ 4) with 16; ulia). by rewrite Z.shiftl_mul_pow2 by lia. }
    split_and!; try done; ulia.
Qed.

(** A table in memory as [read_fat12] loads it. *)
Record fat_loaded (f : fat12_t) (bytes : list Z) : Prop := {
  loaded_fat : fat f = Some bytes;
  loaded_bytes : Forall is_u8 bytes;
  loaded_sector : bytes_per_sector (boot_sector f) = 512;
  loaded_width : 0 <= sectors_per_fat (boot_sector f) <= 65535;
  loaded_length : Z.of_nat (length bytes) = sectors_per_fat (boot_sector f) * 512
}.

Definition entry_offset (cluster : Z) : nat := Z.to_nat (cluster + cluster / 2).

Lemma entry_in_buffer f bytes cluster :
  fat_loaded f bytes → cluster_in_range f cluster = true → (S (entry_offset cluster) < length bytes)%nat.
Proof.
  intros [_ _ Hb Hw Hl] Hr. unfold cluster_in_range in Hr. apply andb_true_iff in Hr as [H2%Z.leb_le Hc%Z.ltb_lt].
  unfold FAT12_MIN_CLUSTER in H2.
  assert (u32 (u32 (sectors_per_fat (boot_sector f) * 512) * 2) = sectors_per_fat (boot_sector f) * 1024) as E by ulia.
  assert (fat12_cluster_count f + 2 <= sectors_per_fat (boot_sector f) * 1024 / 3 \/ fat12_cluster_count f = 0) as Hcount.
  { unfold fat12_cluster_count. rewrite Hb, E. destruct (_ || _); [by right|]. cbv zeta.
    destruct (Z.leb_spec (sectors_per_fat (boot_sector f) * 1024 / 3) 2); [by right|left].
    destruct (Z.ltb_spec (sectors_per_fat (boot_sector f) * 1024 / 3 - 2)
      ((total_sectors f - data_start f) / sectors_per_cluster (boot_sector f))); lia. }
  unfold entry_offset. destruct Hcount as [Hcount|Hcount]; [|lia]. ulia.
Qed.

Lemma entry_bytes_found f bytes cluster :
  fat_loaded f bytes → cluster_in_range f cluster = true →
  ∃ low high, bytes !! entry_offset cluster = Some low ∧ bytes !! S (entry_offset cluster) = Some high ∧
  is_u8 low ∧ is_u8 high ∧ fat_byte f (cluster + cluster / 2) = Some low ∧ fat_byte f (cluster + cluster / 2 + 1) = Some high.
Proof.
  intros Hf Hr. pose proof (entry_in_buffer f bytes cluster Hf Hr) as Hlt.
  destruct (lookup_lt_is_Some_2 bytes (entry_offset cluster)) as [low Hlow]; [lia|].
  destruct (lookup_lt_is_Some_2 bytes (S (entry_offset cluster))) as [high Hhigh]; [lia|].
  exists low, high. pose proof (loaded_bytes _ _ Hf) as Hb. rewrite list.Forall_lookup in Hb.
  unfold fat_byte. rewrite (loaded_fat _ _ Hf).
  unfold cluster_in_range, FAT12_MIN_CLUSTER in Hr. apply andb_true_iff in Hr as [H2%Z.leb_le _].
  replace (Z.to_nat (cluster + cluster / 2 + 1)) with (S (entry_offset cluster)) by (unfold entry_offset; ulia).
  split_and!; eauto.
Qed.

Lemma get_entry f bytes cluster low high :
  fat_loaded f bytes → cluster_in_range f cluster = true →
  bytes !! entry_offset cluster = Some low → bytes !! S (entry_offset cluster) = Some high →
  fat12_get_fat_entry f cluster = Some (entry_value (Z.odd cluster) low high).
Proof.
  intros Hf Hr Hlow Hhigh. destruct (entry_bytes_found f bytes cluster Hf Hr) as (l & h & El & Eh & Hl & Hh & E0 & E1).
  rewrite El in Hlow. rewrite Eh in Hhigh. simplify_eq. unfold fat12_get_fat_entry.
  rewrite (loaded_fat _ _ Hf), Hr, E0, E1, land_one_odd. cbn [negb].
  rewrite <- (get_value _ low high) by done. rewrite <- Z.negb_odd, negb_involutive. done.
Qed.

Definition stored (bytes : list Z) (cluster value low high : Z) : list Z :=
  <[S (entry_offset cluster) := store_high (Z.odd cluster) value high]>
    (<[entry_offset cluster := store_low (Z.odd cluster) value low]> bytes).

Lemma set_entry f bytes cluster value low high :
  fat_loaded f bytes → cluster_in_range f cluster = true → fat12_write_supported f = true →
  bytes !! entry_offset cluster = Some low → bytes !! S (entry_offset cluster) = Some high →
  fat12_set_fat_entry f cluster value = Some (true, set_fat f (stored bytes cluster (value mod 4096) low high)).
Proof.
  intros Hf Hr Hs Hlow Hhigh. destruct (entry_bytes_found f bytes cluster Hf Hr) as (l & h & El & Eh & _ & _ & E0 & E1).
  rewrite El in Hlow. rewrite Eh in Hhigh. simplify_eq. unfold fat12_set_fat_entry.
  rewrite (loaded_fat _ _ Hf), Hr, Hs, E0, E1, land_one_odd. cbn [negb orb].
  change 0x0FFF with (Z.ones 12). rewrite land_low by lia. change (2 ^ 12) with 4096.
  unfold stored, store_low, store_high. rewrite <- Z.negb_even. by destruct (Z.even cluster).
Qed.

(** Entries share a byte with a neighbour, never the bits. *)
Lemma offset_cases c c' :
  2 <= c → 2 <= c' → c' ≠ c →
  (Z.odd c = true ∧ c' = c - 1 ∧ S (entry_offset c') = entry_offset c) ∨
  (Z.odd c = false ∧ c' = c + 1 ∧ entry_offset c' = S (entry_offset c)) ∨
  (S (entry_offset c') < entry_offset c)%nat ∨ (S (entry_offset c) < entry_offset c')%nat.
Proof.
  intros Hc Hc' Hne. unfold entry_offset. rewrite Zodd_mod.
  destruct (Z.eqb_spec (c mod 2) 1); [|].
  - destruct (decide (c' = c - 1)); [left; split_and!; [done|done|ulia]|right; right].
    destruct (decide (c' < c)); [left; ulia|right; ulia].
  - destruct (decide (c' = c + 1)); [right; left; split_and!; [done|done|ulia]|right; right].
    destruct (decide (c' < c)); [left; ulia|right; ulia].
Qed.

Lemma stored_lookups bytes c value low high :
  (S (entry_offset c) < length bytes)%nat →
  stored bytes c value low high !! entry_offset c = Some (store_low (Z.odd c) value low) ∧
  stored bytes c value low high !! S (entry_offset c) = Some (store_high (Z.odd c) value high) ∧
  ∀ k, k ≠ entry_offset c → k ≠ S (entry_offset c) → stored bytes c value low high !! k = bytes !! k.
Proof.
  intros Hl. unfold stored. split_and!.
  - rewrite list_lookup_insert_ne by lia. apply list_lookup_insert_eq. lia.
  - apply list_lookup_insert_eq. rewrite length_insert. lia.
  - intros k H1 H2. by rewrite !list_lookup_insert_ne by done.
Qed.

Lemma set_fat_range f bytes c : cluster_in_range (set_fat f bytes) c = cluster_in_range f c.
Proof. done. Qed.

Lemma stored_loaded f bytes c value low high :
  fat_loaded f bytes → cluster_in_range f c = true → 0 <= value < 4096 →
  bytes !! entry_offset c = Some low → bytes !! S (entry_offset c) = Some high →
  fat_loaded (set_fat f (stored bytes c value low high)) (stored bytes c value low high).
Proof.
  intros Hf Hr Hv El Eh. pose proof (loaded_bytes _ _ Hf) as Hb. pose proof Hb as Hb'. rewrite list.Forall_lookup in Hb'.
  destruct (store_values (Z.odd c) value low high Hv (Hb' _ _ El) (Hb' _ _ Eh)) as (H1 & H2 & _).
  destruct Hf as [_ _ ? ? ?]. split; try done.
  - unfold stored. by repeat apply Forall_insert.
  - unfold stored. by rewrite !length_insert.
Qed.

(** Every other entry keeps its value. *)
Lemma get_stored_other f bytes c c' value low high :
  fat_loaded f bytes → cluster_in_range f c = true → cluster_in_range f c' = true → c' ≠ c → 0 <= value < 4096 →
  bytes !! entry_offset c = Some low → bytes !! S (entry_offset c) = Some high →
  fat12_get_fat_entry (set_fat f (stored bytes c value low high)) c' = fat12_get_fat_entry f c'.
Proof.
  intros Hf Hr Hr' Hne Hv El Eh. pose proof (loaded_bytes _ _ Hf) as Hb. rewrite list.Forall_lookup in Hb.
  destruct (store_values (Z.odd c) value low high Hv (Hb _ _ El) (Hb _ _ Eh)) as (_ & _ & _ & Hlow & Hhigh).
  pose proof (stored_loaded f bytes c value low high Hf Hr Hv El Eh) as Hf'.
  destruct (stored_lookups bytes c value low high (entry_in_buffer f bytes c Hf Hr)) as (S0 & S1 & S2).
  destruct (entry_bytes_found f bytes c' Hf Hr') as (l & h & El' & Eh' & _).
  rewrite (get_entry f bytes c' l h Hf Hr' El' Eh').
  assert (2 <= c ∧ 2 <= c') as [Hc Hc'].
  { unfold cluster_in_range, FAT12_MIN_CLUSTER in *. apply andb_true_iff in Hr as [?%Z.leb_le _], Hr' as [?%Z.leb_le _]. done. }
  destruct (offset_cases c c' Hc Hc' Hne) as [(Ho & -> & E)|[(Ho & -> & E)|Hfar]].
  - rewrite (get_entry _ _ (c - 1) l (store_low (Z.odd c) value low) Hf' Hr'); [|rewrite S2; [done|lia|lia]|by rewrite E].
    rewrite E, El in Eh'. injection Eh' as <-. f_equal. unfold entry_value.
    replace (Z.odd (c - 1)) with false; [by rewrite (Hlow Ho)|]. rewrite Z.odd_sub, Ho. done.
  - rewrite (get_entry _ _ (c + 1) (store_high (Z.odd c) value high) h Hf' Hr'); [|by rewrite E|rewrite S2; [done|lia|lia]].
    rewrite E, Eh in El'. injection El' as <-. f_equal. unfold entry_value.
    replace (Z.odd (c + 1)) with true; [by rewrite (Hhigh Ho)|]. rewrite Z.odd_add, Ho. done.
  - eapply get_entry; [exact Hf'|done| |]; (rewrite S2; [done|lia|lia]).
Qed.

(** C22: the FAT is an array of 12-bit values packed in pairs into three bytes.
For a table as it is loaded, no call of [fat12_get_fat_entry] or
[fat12_set_fat_entry] leaves the buffer; an entry is the even or the odd half of
its bytes; where the cluster does not exist, or no table is loaded, the entry is
that of a bad cluster.  A store keeps the table a table, reads back as the low
twelve bits of the value, and changes no other entry; where the cluster does not
exist or writing is not supported, it is refused and changes nothing. *)
Theorem fat12_entries_are_an_array f bytes cluster value
  (Hf : fat_loaded f bytes) (Hvalue : 0 <= value < 65536) :
  (∀ c, if cluster_in_range f c
   then ∃ low high, bytes !! entry_offset c = Some low ∧ bytes !! S (entry_offset c) = Some high ∧
     fat12_get_fat_entry f c = Some (entry_value (Z.odd c) low high) ∧ 0 <= entry_value (Z.odd c) low high < 4096
   else fat12_get_fat_entry f c = Some FAT12_BAD_CLUSTER) ∧
  (∀ g c, fat g = None → fat12_get_fat_entry g c = Some FAT12_BAD_CLUSTER) ∧
  (if cluster_in_range f cluster && fat12_write_supported f
   then ∃ bytes', fat12_set_fat_entry f cluster value = Some (true, set_fat f bytes') ∧
     fat_loaded (set_fat f bytes') bytes' ∧
     fat12_get_fat_entry (set_fat f bytes') cluster = Some (value mod 4096) ∧
     ∀ c, c ≠ cluster → fat12_get_fat_entry (set_fat f bytes') c = fat12_get_fat_entry f c
   else fat12_set_fat_entry f cluster value = Some (false, f)).
Proof.
  split_and!.
  - intros c. destruct (cluster_in_range f c) eqn:Hr.
    + destruct (entry_bytes_found f bytes c Hf Hr) as (l & h & El & Eh & Hl & Hh & _).
      exists l, h. split; [done|]. split; [done|]. split; [by apply (get_entry f bytes)|].
      unfold entry_value. destruct (Z.odd c); ulia.
    + unfold fat12_get_fat_entry. by rewrite (loaded_fat _ _ Hf), Hr.
  - intros g c Hg. unfold fat12_get_fat_entry. by rewrite Hg.
  - destruct (cluster_in_range f cluster) eqn:Hr; cbn [andb].
    2:{ unfold fat12_set_fat_entry. rewrite Hr. by destruct (fat12_write_supported f). }
    destruct (fat12_write_supported f) eqn:Hs; [|unfold fat12_set_fat_entry; by rewrite Hs].
    destruct (entry_bytes_found f bytes cluster Hf Hr) as (l & h & El & Eh & Hl & Hh & _).
    assert (0 <= value mod 4096 < 4096) as Hv by (apply Z.mod_pos_bound; lia).
    exists (stored bytes cluster (value mod 4096) l h).
    pose proof (stored_loaded f bytes cluster _ l h Hf Hr Hv El Eh) as Hf'.
    split_and!; [by apply set_entry|done| |].
    + destruct (stored_lookups bytes cluster (value mod 4096) l h (entry_in_buffer f bytes cluster Hf Hr)) as (S0 & S1 & _).
      rewrite (get_entry _ _ cluster _ _ Hf' Hr S0 S1). f_equal.
      by destruct (store_values (Z.odd cluster) (value mod 4096) l h Hv Hl Hh) as (_ & _ & E & _).
    + intros c Hne. destruct (cluster_in_range f c) eqn:Hrc; [by apply get_stored_other|].
      unfold fat12_get_fat_entry. rewrite set_fat_range, Hrc. cbn [set_fat fat]. by rewrite (loaded_fat _ _ Hf).
Qed.

(** One FAT sector, 337 clusters. *)
Definition small_boot : fat12_boot_sector := Boot 512 1 196 1 600 1 0 7 [82; 69; 73; 83; 84; 49; 50; 32].
Definition small_mount : fat12_t :=
  Mounted small_boot 196 211 (Some (repeat 0 512)) true
    (Fat12Journal.Journal 1 2 3 7 (Fat12Journal.prepare_header 7 1 0 0) [] false) true
    (Fat12Remap.Table 131 132 133 7 (Fat12Remap.prepare_header 7 1 0) []) true [] false false.

Definition unloaded_mount : fat12_t :=
  Mounted small_boot 196 211 None false (journal small_mount) false (remap small_mount) false [] false false.

Lemma fat12_entries_are_an_array_witness :
  (fat12_get_fat_entry small_mount 1 = Some FAT12_BAD_CLUSTER ∧
   fat12_get_fat_entry small_mount 1000 = Some FAT12_BAD_CLUSTER ∧
   fat12_get_fat_entry unloaded_mount 2 = Some FAT12_BAD_CLUSTER) ∧
  (cluster_in_range small_mount 3 = true ∧ fat12_write_supported small_mount = true) ∧
  ∃ bytes', fat12_set_fat_entry small_mount 3 0x1ABC = Some (true, set_fat small_mount bytes') ∧
    fat12_get_fat_entry (set_fat small_mount bytes') 3 = Some 0xABC ∧
    fat12_get_fat_entry (set_fat small_mount bytes') 2 = fat12_get_fat_entry small_mount 2.
Proof.
  assert (fat_loaded small_mount (repeat 0 512)) as Hf.
  { split; [done| |done|cbn; lia|done]. apply is_bytes_spec. by vm_compute. }
  pose proof (fat12_entries_are_an_array small_mount (repeat 0 512) 3 0x1ABC Hf ltac:(lia)) as (Hget & Hnone & H).
  split; [exact (conj (Hget 1) (conj (Hget 1000) (Hnone unloaded_mount 2 eq_refl)))|]. split; [by vm_compute|].
  assert (cluster_in_range small_mount 3 && fat12_write_supported small_mount = true) as E by by vm_compute.
  rewrite E in H. destruct H as (bytes' & H1 & _ & H2 & H3). exists bytes'. split; [exact H1|]. split; [exact H2|].
  apply H3. lia.
Defined.
