(* ===== verification/Fat12RemapProps.v ===== *)
(** The table of remapped sectors of a FAT12 volume: what it maps to what, and
    what a power failure leaves of it. *)
From S2P Require Import Prelude Crc32 Layout AtaDisk SectorIo.
From S2P Require Import Fat12Remap Fat12Recovery.
Import Fat12Remap.
#[local] Opaque crc32.

(** ** Isolation *)
Definition mapping (t : fat12_remap_table_t) : list fat12_remap_entry_t :=
  used (h_entry_count (header t)) (entries t).

Lemma entries_distinct_spec h : ∀ rest earlier,
  entries_distinct h earlier rest = true →
  (∀ e, e ∈ rest → entry_valid h e = true) ∧
  (∀ a e, a ∈ earlier → e ∈ rest → entry_clash a e = false) ∧
  (∀ i j a e, rest !! i = Some a → rest !! j = Some e → (i < j)%nat → entry_clash a e = false).
Proof.
  induction rest as [|x rest IH]; intros earlier; cbn [entries_distinct].
  { intros _. split_and!.
    - by intros e ?%elem_of_nil.
    - by intros a e _ ?%elem_of_nil.
    - done. }
  intros [[Hv Hx%negb_true_iff]%andb_true_iff Hr]%andb_true_iff. destruct (IH _ Hr) as (H1 & H2 & H3).
  assert (∀ a, a ∈ earlier → entry_clash a x = false) as Hxe.
  { intros a Ha. destruct (entry_clash a x) eqn:E; [|done].
    assert (existsb (λ a, entry_clash a x) earlier = true) as Hex; [|by rewrite Hex in Hx].
    apply existsb_exists. exists a. by rewrite <- list_elem_of_In. }
  split_and!.
  - intros e [->|He]%elem_of_cons; auto.
  - intros a e Ha [->|He]%elem_of_cons; [by apply Hxe|]. apply H2; [|done]. apply elem_of_app. by left.
  - intros [|i] [|j] a e Hi Hj Hlt; try lia; cbn in Hi, Hj.
    + simplify_eq. apply H2; [apply elem_of_app; right; by constructor|]. by eapply list_elem_of_lookup_2.
    + apply (H3 i j); [done|done|lia].
Qed.

Lemma entries_distinct_complete h rest : ∀ earlier,
  (∀ e, e ∈ rest → entry_valid h e = true) →
  (∀ a e, a ∈ earlier → e ∈ rest → entry_clash a e = false) →
  (∀ i j a e, rest !! i = Some a → rest !! j = Some e → (i < j)%nat → entry_clash a e = false) →
  entries_distinct h earlier rest = true.
Proof.
  induction rest as [|x rest IH]; intros earlier H1 H2 H3; [done|]. cbn [entries_distinct].
  rewrite (H1 x) by by constructor.
  destruct (existsb _ earlier) eqn:E.
  { apply existsb_exists in E as (a & Ha%list_elem_of_In & Hc). by rewrite (H2 a x) in Hc by (done || constructor). }
  cbn [negb andb]. apply IH.
  - intros e He. apply H1. by constructor.
  - intros a e [Ha|Ha%list_elem_of_singleton]%elem_of_app He; [apply H2; [done|by constructor]|subst].
    apply list_elem_of_lookup_1 in He as (j & Hj). by apply (H3 0%nat (S j)); [| |lia].
  - intros i j a e Hi Hj Hlt. apply (H3 (S i) (S j)); [done|done|lia].
Qed.

Lemma lookup_entry t s r :
  fat12_remap_lookup t s = Some r → s ≠ 0 ∧ ∃ e, e ∈ mapping t ∧ bad_sector e = s ∧ replacement_sector e = r.
Proof.
  unfold fat12_remap_lookup. destruct (Z.eqb_spec s 0); [done|].
  fold (mapping t). destruct (find _ (mapping t)) as [e|] eqn:E; [|done]. intros [= <-].
  apply find_some in E as [Hin%list_elem_of_In Hb%Z.eqb_eq]. eauto.
Qed.

Lemma lookup_none t s : s ≠ 0 → fat12_remap_lookup t s = None → ∀ e, e ∈ mapping t → bad_sector e ≠ s.
Proof.
  intros Hs. unfold fat12_remap_lookup. rewrite (proj2 (Z.eqb_neq s 0)) by done. fold (mapping t).
  destruct (find _ (mapping t)) as [e'|] eqn:E; [done|]. intros _ e He Hb.
  pose proof (find_none _ _ E e (proj1 (list_elem_of_In _ _) He)) as Hf. cbn in Hf. by apply Z.eqb_neq in Hf.
Qed.

(** No sector is replaced by itself, by a sector that is replaced in turn, or
    by one that replaces another. *)
Record isolated (t : fat12_remap_table_t) : Prop := {
  isolated_proper s r : fat12_remap_lookup t s = Some r → r ≠ 0 ∧ r ≠ s ∧ fat12_remap_lookup t r = None;
  isolated_injective s s' r : fat12_remap_lookup t s = Some r → fat12_remap_lookup t s' = Some r → s = s'
}.

Lemma clash_facts a e :
  entry_clash a e = false →
  bad_sector a ≠ bad_sector e ∧ replacement_sector a ≠ replacement_sector e ∧
  bad_sector a ≠ replacement_sector e ∧ replacement_sector a ≠ bad_sector e.
Proof.
  unfold entry_clash. intros H. repeat (apply orb_false_iff in H as [H ?%Z.eqb_neq]). by apply Z.eqb_neq in H.
Qed.

Lemma valid_facts h e :
  entry_valid h e = true →
  bad_sector e ≠ 0 ∧ replacement_sector e ≠ 0 ∧ bad_sector e ≠ replacement_sector e ∧
  sequence e ≠ 0 ∧ sequence e <= h_sequence h.
Proof.
  unfold entry_valid. intros H%negb_true_iff. apply orb_false_iff in H as [H ?%Z.ltb_ge].
  repeat (apply orb_false_iff in H as [H ?%Z.eqb_neq]). apply Z.eqb_neq in H. done.
Qed.

Lemma distinct_isolated t h : entries_distinct h [] (mapping t) = true → isolated t.
Proof.
  intros Hd. destruct (entries_distinct_spec h _ _ Hd) as (H1 & _ & H3).
  assert (∀ e e', e ∈ mapping t → e' ∈ mapping t → e = e' ∨ entry_clash e e' = false ∨ entry_clash e' e = false) as Hc.
  { intros e e' He He'. apply list_elem_of_lookup_1 in He as (i & Hi). apply list_elem_of_lookup_1 in He' as (j & Hj).
    destruct (lt_eq_lt_dec i j) as [[Hlt| ->]|Hlt]; [right; left; by apply (H3 i j)|left; congruence|].
    right; right. by apply (H3 j i). }
  split.
  - intros s r (Hs & e & He & <- & <-)%lookup_entry. destruct (valid_facts _ _ (H1 e He)) as (Hb & Hr & Hne & _).
    split_and!; [done|congruence|]. destruct (fat12_remap_lookup t (replacement_sector e)) as [r'|] eqn:E; [|done].
    apply lookup_entry in E as (_ & e' & He' & Hb' & _).
    destruct (Hc e e' He He') as [->|[(_ & _ & _ & ?)%clash_facts|(_ & _ & ? & _)%clash_facts]]; congruence.
  - intros s s' r (_ & e & He & <- & Hr)%lookup_entry (_ & e' & He' & <- & Hr')%lookup_entry.
    destruct (Hc e e' He He') as [->|[(_ & ? & _)%clash_facts|(_ & ? & _)%clash_facts]]; congruence.
Qed.

(** ** The entry array in its sector *)
Lemma remap_entry_size : sizeof fat12_remap_entry_t = 16%nat.
Proof. done. Qed.
Lemma remap_header_size : sizeof fat12_remap_header_t = 28%nat.
Proof. done. Qed.

Lemma length_remap_entry_bytes es : length (entry_bytes es) = (16 * length es)%nat.
Proof.
  unfold entry_bytes. induction es as [|e es IH]; [done|]. cbn [map concat].
  rewrite length_app, length_encode, remap_entry_size, IH. cbn [length]. lia.
Qed.

Lemma entry_bytes_u8 es : Forall is_u8 (entry_bytes es).
Proof.
  unfold entry_bytes. induction es as [|e es IH]; [constructor|]. cbn [map concat].
  apply list.Forall_app. split; [apply encode_bytes|done].
Qed.

Lemma length_decode_entries n : ∀ data, length (decode_entries n data) = n.
Proof. induction n; intros; cbn; [done|by rewrite IHn]. Qed.

Lemma decode_entry_bytes es : ∀ n rest,
  Forall well_typed es → (length es <= n)%nat →
  take (length es) (decode_entries n (entry_bytes es ++ rest)) = es.
Proof.
  induction es as [|e es IH]; intros n rest Ht Hn; [done|]. apply list.Forall_cons in Ht as [He Ht].
  destruct n as [|n]; [cbn in Hn; lia|]. unfold entry_bytes. cbn [map concat decode_entries length take].
  rewrite <- app_assoc, <- (length_encode e), take_app_length, drop_app_length.
  rewrite decode_encode by done. f_equal. apply IH; [done|cbn in Hn; lia].
Qed.

Lemma table_sector_ok es : (length es <= FAT12_REMAP_MAX_ENTRIES)%nat → is_sector (sector_of (entry_bytes es)).
Proof.
  intros Hl. apply sector_of_is_sector; [apply entry_bytes_u8|].
  rewrite length_remap_entry_bytes. unfold FAT12_REMAP_MAX_ENTRIES, FAT12_SECTOR_SIZE in *. lia.
Qed.

Lemma used_trim n es : length es = FAT12_REMAP_MAX_ENTRIES → n <= Z.of_nat FAT12_REMAP_MAX_ENTRIES → used n (trim n es) = used n es.
Proof.
  intros Hl Hn. unfold trim, used.
  assert (length (take (Z.to_nat n) es) = Z.to_nat n) as E by (rewrite length_take; lia).
  rewrite <- E at 1. apply take_app_length.
Qed.

Lemma used_insert n e es :
  length es = FAT12_REMAP_MAX_ENTRIES → used n (<[Z.to_nat n := e]> es) = used n es.
Proof. intros. unfold used. apply take_insert_ge. lia. Qed.

Lemma used_snoc n e es :
  length es = FAT12_REMAP_MAX_ENTRIES → 0 <= n < Z.of_nat FAT12_REMAP_MAX_ENTRIES →
  used (n + 1) (<[Z.to_nat n := e]> es) = used n es ++ [e].
Proof.
  intros Hl Hn. unfold used. rewrite Z2Nat.inj_add by lia. change (Z.to_nat 1) with 1%nat.
  rewrite Nat.add_1_r. rewrite (take_S_r _ _ e) by (apply list_lookup_insert_eq; lia).
  by rewrite take_insert_ge by lia.
Qed.

Lemma shape_count h fp : header_shape_valid h fp = true → h_entry_count h <= Z.of_nat FAT12_REMAP_MAX_ENTRIES.
Proof. unfold header_shape_valid. by intros [_ ?%Z.leb_le]%andb_true_iff. Qed.

(** ** What a table maps after an addition *)
Definition lookup_in (m : list fat12_remap_entry_t) (s : Z) : option Z :=
  if s =? 0 then None else option_map replacement_sector (find (λ e, bad_sector e =? s) m).

Lemma lookup_mapping t s : fat12_remap_lookup t s = lookup_in (mapping t) s.
Proof. done. Qed.

Lemma find_snoc {A} (p : A → bool) l x :
  find p (l ++ [x]) = match find p l with Some y => Some y | None => if p x then Some x else None end.
Proof. induction l as [|y l IH]; cbn; [done|]. by destruct (p y). Qed.

Lemma lookup_snoc m b r n s :
  b ≠ 0 → (∀ e, e ∈ m → bad_sector e ≠ b) →
  lookup_in (m ++ [Entry b r n]) s = if s =? b then Some r else lookup_in m s.
Proof.
  intros Hb Hm. unfold lookup_in. destruct (Z.eqb_spec s 0) as [->|Hs].
  { by rewrite (proj2 (Z.eqb_neq 0 b)). }
  rewrite find_snoc. destruct (Z.eqb_spec s b) as [->|Hsb].
  - destruct (find _ m) as [e|] eqn:E.
    + apply find_some in E as [Hin%list_elem_of_In Hbe%Z.eqb_eq]. by destruct (Hm e Hin).
    + cbn [bad_sector]. by rewrite Z.eqb_refl.
  - destruct (find _ m) as [e|]; [done|].
    cbn [bad_sector]. by rewrite (proj2 (Z.eqb_neq b s)).
Qed.

(** The request passes the checks of [fat12_remap_add]. *)
Definition admissible (t : fat12_remap_table_t) (bad replacement : Z) : Prop :=
  bad ≠ 0 ∧ replacement ≠ 0 ∧ bad ≠ replacement ∧ h_entry_count (header t) < Z.of_nat FAT12_REMAP_MAX_ENTRIES ∧
  ∀ e, e ∈ mapping t →
    bad_sector e ≠ bad ∧ replacement_sector e ≠ replacement ∧ bad_sector e ≠ replacement ∧ replacement_sector e ≠ bad.

Definition new_entry (t : fat12_remap_table_t) (bad replacement : Z) : fat12_remap_entry_t :=
  Entry bad replacement (u64 (h_sequence (header t) + 1)).

Lemma add_checks t bad replacement :
  let refused := (bad =? 0) || (replacement =? 0) || (bad =? replacement) ||
    (Z.of_nat FAT12_REMAP_MAX_ENTRIES <=? h_entry_count (header t)) ||
    existsb (λ e, entry_clash e (new_entry t bad replacement)) (mapping t) in
  refused = false ↔ admissible t bad replacement.
Proof.
  cbv zeta. split.
  - intros H. apply orb_false_iff in H as [H Hx]. apply orb_false_iff in H as [H Hc%Z.leb_gt].
    repeat (apply orb_false_iff in H as [H ?%Z.eqb_neq]). apply Z.eqb_neq in H. split_and!; try done.
    intros e He. apply (clash_facts e (new_entry t bad replacement)).
    destruct (entry_clash e _) eqn:E; [|done].
    assert (existsb (λ e, entry_clash e (new_entry t bad replacement)) (mapping t) = true) as Ht; [|by rewrite Ht in Hx].
    apply existsb_exists. exists e. by rewrite <- list_elem_of_In.
  - intros (H1 & H2 & H3 & H4 & H5). rewrite !orb_false_iff, !Z.eqb_neq, Z.leb_gt. split_and!; try done.
    destruct (existsb _ _) eqn:E; [|done]. apply existsb_exists in E as (e & He%list_elem_of_In & Hc).
    destruct (H5 e He) as (? & ? & ? & ?). unfold entry_clash, new_entry in Hc. cbn in Hc.
    by rewrite !(proj2 (Z.eqb_neq _ _)) in Hc.
Qed.

(** The mapping of [t] with a replacement for [bad]. *)
Definition extended (t t' : fat12_remap_table_t) (bad replacement : Z) : Prop :=
  ∀ s, fat12_remap_lookup t' s = if s =? bad then Some replacement else fat12_remap_lookup t s.

Lemma admissible_extended t t' bad replacement :
  admissible t bad replacement → mapping t' = mapping t ++ [new_entry t bad replacement] → extended t t' bad replacement.
Proof.
  intros (H1 & _ & _ & _ & H5) E s. rewrite !lookup_mapping, E. apply lookup_snoc; [done|]. intros e He. by apply H5.
Qed.

Lemma extended_isolated t t' bad replacement :
  isolated t → admissible t bad replacement → extended t t' bad replacement → isolated t'.
Proof.
  intros [Hp Hi] (H1 & H2 & H3 & _ & H5) E. split.
  - intros s r. rewrite !E. destruct (Z.eqb_spec s bad) as [->|Hs].
    + intros [= <-]. rewrite (proj2 (Z.eqb_neq replacement bad)) by done. split_and!; [done|done|].
      destruct (fat12_remap_lookup t replacement) as [r|] eqn:Er; [|done].
      apply lookup_entry in Er as (_ & e & He & Hb & _). by destruct (H5 e He) as (_ & _ & ? & _).
    + intros Hl. destruct (Hp s r Hl) as (Hr & Hrs & Hn). split_and!; [done|done|].
      apply lookup_entry in Hl as (_ & e & He & _ & Hre). destruct (H5 e He) as (_ & _ & _ & Hne).
      by rewrite (proj2 (Z.eqb_neq r bad)) by congruence.
  - intros s s' r. rewrite !E. destruct (Z.eqb_spec s bad) as [->|Hs], (Z.eqb_spec s' bad) as [->|Hs'].
    + done.
    + intros [= <-] (_ & e & He & _ & Hr)%lookup_entry. by destruct (H5 e He) as (_ & ? & _).
    + intros (_ & e & He & _ & Hr)%lookup_entry [= <-]. by destruct (H5 e He) as (_ & ? & _).
    + apply Hi.
Qed.

Lemma entries_valid_used h es es' :
  used (h_entry_count h) es = used (h_entry_count h) es' → entries_valid h es = entries_valid h es'.
Proof. intros E. unfold entries_valid, table_crc. by rewrite E. Qed.

(** ** The table on a failing device *)
Section medium.
Context {W : Type} (read : W → Z → bool * list Z * W) (write : W → Z → list Z → bool * W).
Context (capacity : Z) (damaged : list Z → Prop) `{!SectorDevice W}.
Context `{!SectorLaws read write capacity damaged}.
Context (P M T fp : Z).

Definition remap_header_of (data : list Z) : fat12_remap_header_t :=
  decode (take (sizeof fat12_remap_header_t) data).

(** Its two headers, its entries and the volume.  A damaged header does not
  pass its checks, nor do damaged entries. *)
Record remap_placed : Prop := {
  remap_distinct : P ≠ M ∧ M ≠ T ∧ P ≠ T;
  remap_reach : 0 <= P < capacity ∧ 0 <= M < capacity ∧ 0 <= T < capacity;
  remap_volume : is_u32 fp ∧ fp ≠ 0;
  remap_damaged_header x : damaged x → header_shape_valid (remap_header_of x) fp = false;
  remap_damaged_table x h : damaged x → 0 < h_entry_count h →
    entries_valid h (decode_entries FAT12_REMAP_MAX_ENTRIES x) = false
}.
Context (Hplaced : remap_placed).

Definition remap_in_place (t : fat12_remap_table_t) : Prop :=
  primary_sector t = P ∧ mirror_sector t = M ∧ table_sector t = T ∧ media_fingerprint t = fp.

(** The header on a sector, if it has the right shape. *)
Definition shape_at (i : image) (s : Z) : option fat12_remap_header_t :=
  let h := remap_header_of (i s) in if header_shape_valid h fp then Some h else None.

Definition table_at (i : image) : list fat12_remap_entry_t := decode_entries FAT12_REMAP_MAX_ENTRIES (i T).

Lemma read_shape_spec t s w :
  media_fingerprint t = fp →
  let '(h, w') := read_shape read t s w in
  (∀ l, medium w' l = medium w l) ∧ (h = shape_at (medium w) s ∨ h = None) ∧
  (healthy w → 0 <= s < capacity → h = shape_at (medium w) s ∧ healthy w').
Proof using SectorLaws0.
  intros Hfp. unfold read_shape, shape_at. rewrite Hfp.
  pose proof (read_medium (read := read) (write := write) w s) as Rm.
  pose proof (read_ok (read := read) (write := write) w s) as Rk.
  pose proof (read_healthy (read := read) (write := write) w s) as Rh.
  destruct (read w s) as [[ok data] w']. cbn [fst snd] in *. split_and!; [done| |].
  - destruct ok; [left; by rewrite (Rk eq_refl)|by right].
  - intros Hh Hs. destruct (Rh Hh Hs) as [-> ?]. by rewrite (Rk eq_refl).
Qed.

(** What a load that succeeds has found. *)
Record found (i : image) (t : fat12_remap_table_t) : Prop := {
  found_header : shape_at i P = Some (header t) ∨ shape_at i M = Some (header t);
  found_entries : h_entry_count (header t) ≠ 0 → mapping t = used (h_entry_count (header t)) (table_at i);
  found_none : h_entry_count (header t) = 0 → mapping t = [];
  found_valid : entries_valid (header t) (entries t) = true
}.

Lemma table_choose_of first second h :
  choose_header first second = Some h → first = Some h ∨ second = Some h.
Proof using. unfold choose_header. intros. repeat case_match; simplify_eq; auto. Qed.

Lemma keep_valid_some h es h' :
  keep_valid h es = Some h' → h = Some h' ∧ entries_valid h' es = true.
Proof using. unfold keep_valid. intros. repeat case_match; simplify_eq; auto. Qed.

Lemma trim_valid h es :
  header_shape_valid h fp = true → length es = FAT12_REMAP_MAX_ENTRIES →
  used (h_entry_count h) (trim (h_entry_count h) es) = used (h_entry_count h) es.
Proof using. intros ?%shape_count ?. by apply used_trim. Qed.

Lemma shape_at_valid i s h : shape_at i s = Some h → header_shape_valid h fp = true.
Proof using. unfold shape_at. cbv zeta. destruct (header_shape_valid _ fp) eqn:E; [|done]. by intros [= <-]. Qed.

(** The end of a load: the entries [es] have been read, or the headers count none. *)
Definition load_tail (t : fat12_remap_table_t) (p m : option fat12_remap_header_t)
  (es : list fat12_remap_entry_t) : option fat12_remap_table_t :=
match choose_header (keep_valid p es) (keep_valid m es) with
| None => None
| Some h => Some (set_contents t h (trim (h_entry_count h) es))
end.

Lemma load_tail_found i t p m es t' :
  (p = shape_at i P ∨ p = None) → (m = shape_at i M ∨ m = None) →
  length es = FAT12_REMAP_MAX_ENTRIES →
  (es = table_at i ∨ (count_of p <= 0 ∧ count_of m <= 0)) →
  load_tail t p m es = Some t' → found i t'.
Proof using.
  intros Hp Hm Hl Hes. unfold load_tail. destruct (choose_header _ _) as [h|] eqn:E; [|done]. intros [= <-].
  assert ((p = Some h ∨ m = Some h) ∧ entries_valid h es = true) as [Hh Hv].
  { apply table_choose_of in E as [E|E]; apply keep_valid_some in E as [-> ?]; auto. }
  assert (shape_at i P = Some h ∨ shape_at i M = Some h) as Hs.
  { destruct Hh as [-> | ->]; [left|right]; [destruct Hp|destruct Hm]; congruence. }
  assert (header_shape_valid h fp = true) as Hsv by by destruct Hs as [?%shape_at_valid|?%shape_at_valid].
  split; unfold mapping; cbn [header entries set_contents].
  - done.
  - intros Hc. rewrite trim_valid by done. destruct Hes as [->|[H1 H2]]; [done|].
    assert (h_entry_count h < 0) as Hn by (destruct Hh; subst; cbn in *; lia).
    unfold used. by replace (Z.to_nat (h_entry_count h)) with 0%nat by lia.
  - intros ->. done.
  - rewrite <- Hv. apply entries_valid_used. by apply trim_valid.
Qed.

Lemma load_cases t w :
  remap_in_place t →
  let '(ok, t', w') := fat12_remap_load read t w in
  (∀ l, medium w' l = medium w l) ∧ (ok = true → remap_in_place t' ∧ found (medium w) t').
Proof using All.
  intros (HP & HM & HT & Hfp). unfold fat12_remap_load. rewrite Hfp.
  destruct (remap_volume Hplaced) as [_ Hz]. rewrite (proj2 (Z.eqb_neq fp 0)) by done.
  rewrite HP, HM, HT. pose proof (read_shape_spec t P w Hfp) as S1.
  destruct (read_shape read t P w) as [p w1]. destruct S1 as (E1 & Hp & _).
  pose proof (read_shape_spec t M w1 Hfp) as S2.
  destruct (read_shape read t M w1) as [m w2]. destruct S2 as (E2 & Hm & _).
  assert (∀ l, medium w2 l = medium w l) as E by (intros; by rewrite E2).
  assert (m = shape_at (medium w) M ∨ m = None) as Hm'.
  { unfold shape_at in *. by rewrite E1 in Hm. }
  assert (∀ r es w3, (∀ l, medium w3 l = medium w l) → r = load_tail t p m es → length es = FAT12_REMAP_MAX_ENTRIES →
    (es = table_at (medium w) ∨ (count_of p <= 0 ∧ count_of m <= 0)) →
    let '(ok, t', w') := match r with None => (false, set_contents t (header t) es, w3) | Some t' => (true, t', w3) end in
    (∀ l, medium w' l = medium w l) ∧ (ok = true → remap_in_place t' ∧ found (medium w) t')) as Htail.
  { intros r es w3 E3 -> Hl Hes. destruct (load_tail t p m es) as [t'|] eqn:Et; [|done]. split; [done|]. intros _. split.
    - unfold load_tail in Et. destruct (choose_header _ _); [|done]. by injection Et as <-.
    - by eapply load_tail_found. }
  set (mx := Z.max (count_of p) (count_of m)).
  assert (∀ r : bool * list Z * W, r = (if mx =? 0 then (true, repeat 0 FAT12_SECTOR_SIZE, w2) else read w2 T) →
    (∀ l, medium r.2 l = medium w l) ∧ (r.1.1 = true → r.1.2 = medium w T ∨ (count_of p <= 0 ∧ count_of m <= 0))) as Hr.
  { intros r ->. destruct (Z.eqb_spec mx 0) as [Hx|]; cbn [fst snd].
    - split; [done|]. intros _. right. subst mx. lia.
    - split; [intros l; by rewrite (read_medium (read := read) (write := write))|].
      intros Ho. left. by rewrite (read_ok (read := read) (write := write)). }
  specialize (Hr _ eq_refl). destruct (if mx =? 0 then _ else _) as [[ok data] w3]. cbn [fst snd] in Hr.
  destruct Hr as [E3 Hd].
  destruct p as [p|], m as [m|]; try done; (destruct ok; cbn [negb]; [|done]);
    specialize (Htail _ (decode_entries FAT12_REMAP_MAX_ENTRIES data) w3 E3 eq_refl (length_decode_entries _ _));
    unfold load_tail in Htail; (destruct (choose_header _ _); apply Htail);
    (destruct (Hd eq_refl) as [->|]; [by left|by right]).
Qed.

Lemma load_live t w :
  remap_in_place t → healthy w →
  (∀ h, shape_at (medium w) P = Some h ∨ shape_at (medium w) M = Some h →
    entries_valid h (table_at (medium w)) = true) →
  is_Some (choose_header (shape_at (medium w) P) (shape_at (medium w) M)) →
  (fat12_remap_load read t w).1.1 = true.
Proof using All.
  intros (HP & HM & HT & Hfp) Hh Hv Hc. unfold fat12_remap_load. rewrite Hfp.
  destruct (remap_volume Hplaced) as [_ Hz]. rewrite (proj2 (Z.eqb_neq fp 0)) by done.
  destruct (remap_reach Hplaced) as (Pc & Mc & Tc).
  rewrite HP, HM, HT. pose proof (read_shape_spec t P w Hfp) as S1.
  destruct (read_shape read t P w) as [p w1]. destruct S1 as (E1 & _ & H1). destruct (H1 Hh Pc) as [-> Hh1].
  pose proof (read_shape_spec t M w1 Hfp) as S2.
  destruct (read_shape read t M w1) as [m w2]. destruct S2 as (E2 & _ & H2). destruct (H2 Hh1 Mc) as [-> Hh2].
  replace (shape_at (medium w1) M) with (shape_at (medium w) M) by (unfold shape_at; by rewrite E1).
  set (p := shape_at (medium w) P) in *. set (m := shape_at (medium w) M) in *.
  set (mx := Z.max (count_of p) (count_of m)).
  assert (∀ r : bool * list Z * W, r = (if mx =? 0 then (true, repeat 0 FAT12_SECTOR_SIZE, w2) else read w2 T) →
    r.1.1 = true ∧ ∀ h, p = Some h ∨ m = Some h → keep_valid (Some h) (decode_entries FAT12_REMAP_MAX_ENTRIES r.1.2) = Some h) as Hr.
  { intros r ->. destruct (Z.eqb_spec mx 0) as [Hx|]; cbn [fst snd].
    - split; [done|]. intros h Hhd. cbn [keep_valid].
      assert (h_entry_count h <= 0) as Hle by (destruct Hhd as [E|E]; subst mx; rewrite E in Hx; cbn in Hx; lia).
      rewrite (entries_valid_used _ _ (table_at (medium w))); [by rewrite Hv|].
      unfold used. by replace (Z.to_nat (h_entry_count h)) with 0%nat by lia.
    - destruct (read_healthy (read := read) (write := write) w2 T Hh2 Tc) as [Ho _]. split; [done|].
      intros h Hhd. cbn [keep_valid]. rewrite (read_ok (read := read) (write := write)) by done.
      rewrite E2, E1. fold (table_at (medium w)). by rewrite Hv. }
  specialize (Hr _ eq_refl). destruct (if mx =? 0 then _ else _) as [[ok data] w3]. cbn [fst snd] in Hr.
  destruct Hr as [-> Hk]. destruct Hc as [h Hc].
  destruct p as [p|], m as [m|]; cbn [negb]; try done;
    rewrite ?Hk by auto; cbn [keep_valid]; by rewrite Hc.
Qed.

(** ** A table that is on the medium *)
Record stored (i : image) (t : fat12_remap_table_t) : Prop := {
  stored_place : remap_in_place t;
  stored_typed : well_typed (header t) ∧ Forall well_typed (entries t);
  stored_shape : header_shape_valid (header t) fp = true;
  stored_valid : entries_valid (header t) (entries t) = true;
  stored_length : length (entries t) = FAT12_REMAP_MAX_ENTRIES;
  stored_headers : shape_at i P = Some (header t) ∧ shape_at i M = Some (header t);
  stored_table : used (h_entry_count (header t)) (table_at i) = mapping t ∨ h_entry_count (header t) = 0
}.

Lemma remap_header_sector h : well_typed h → remap_header_of (sector_of (encode h)) = h.
Proof using. intros Hw. unfold remap_header_of. rewrite <- (length_encode h), take_sector_of. by apply decode_encode. Qed.

Lemma remap_sector_ok (h : fat12_remap_header_t) : is_sector (sector_of (encode h)).
Proof using. apply sector_of_is_sector; [apply encode_bytes|]. by rewrite length_encode; apply Nat.leb_le. Qed.

Lemma shape_at_wrote i i' s h :
well_typed h → header_shape_valid h fp = true → wrote damaged i i' s (sector_of (encode h)) →
shape_at i' s = shape_at i s ∨ shape_at i' s = Some h ∨ (damaged (i' s) ∧ shape_at i' s = None).
Proof using Hplaced.
intros Hw Hv [_ [E|[E|E]]]; unfold shape_at.
- left. by rewrite E.
- right. left. rewrite E, remap_header_sector by done. by rewrite Hv.
- right. right. by rewrite (remap_damaged_header Hplaced _ E).
Qed.

Lemma shape_at_same i i' s : i' s = i s → shape_at i' s = shape_at i s.
Proof using. intros E. unfold shape_at. by rewrite E. Qed.

(** The header and the entries of [t] after the addition. *)
Definition next_entries (t : fat12_remap_table_t) (e : fat12_remap_entry_t) : list fat12_remap_entry_t :=
<[Z.to_nat (h_entry_count (header t)) := e]> (entries t).

Definition next_header (t : fat12_remap_table_t) (e : fat12_remap_entry_t) : fat12_remap_header_t :=
let h := prepare_header (media_fingerprint t) (u64 (h_sequence (header t) + 1)) (h_entry_count (header t) + 1) in
with_crc h (table_crc h (next_entries t e)).

Lemma length_next t e : length (next_entries t e) = length (entries t).
Proof using. apply length_insert. Qed.

Lemma next_shape t e :
remap_in_place t → h_entry_count (header t) < Z.of_nat FAT12_REMAP_MAX_ENTRIES →
header_shape_valid (next_header t e) fp = true.
Proof using.
intros (_ & _ & _ & Hfp) Hc. unfold next_header, header_shape_valid. cbv zeta.
generalize (table_crc (prepare_header (media_fingerprint t) (u64 (h_sequence (header t) + 1))
  (h_entry_count (header t) + 1)) (next_entries t e)). intros c.
cbn [with_crc prepare_header h_magic h_version h_entry_size h_media_fingerprint h_entry_count].
rewrite Hfp, !Z.eqb_refl. cbn [andb]. apply Z.leb_le. lia.
Qed.

Lemma used_bytes_u8 h es : Forall is_u8 (encode (with_crc h 0) ++ entry_bytes (used (h_entry_count h) es)).
Proof using. apply list.Forall_app. split; [apply encode_bytes|apply entry_bytes_u8]. Qed.

Lemma table_crc_u32 h es : is_u32 (table_crc h es).
Proof using. apply crc32_u32, used_bytes_u8. Qed.

Lemma next_typed t e :
remap_in_place t → 0 <= h_entry_count (header t) < Z.of_nat FAT12_REMAP_MAX_ENTRIES → well_typed (next_header t e).
Proof using Hplaced.
intros (_ & _ & _ & Hfp) Hc. unfold next_header. cbv zeta.
pose proof (table_crc_u32 (prepare_header (media_fingerprint t) (u64 (h_sequence (header t) + 1))
  (h_entry_count (header t) + 1)) (next_entries t e)) as Hcrc.
revert Hcrc. generalize (table_crc (prepare_header (media_fingerprint t) (u64 (h_sequence (header t) + 1))
  (h_entry_count (header t) + 1)) (next_entries t e)). intros c Hcrc.
destruct (remap_volume Hplaced) as [Hv _]. rewrite Hfp. unfold FAT12_REMAP_MAX_ENTRIES in *.
unfold well_typed. cbn. split_and!; try done; ulia.
Qed.

Lemma typed_range h : well_typed h → 0 <= h_entry_count h ∧ is_u64 (h_sequence h).
Proof using. unfold well_typed. cbn. intros (_ & _ & _ & _ & Hs & Hc & _). ulia. Qed.

Lemma next_mapping t b r :
length (entries t) = FAT12_REMAP_MAX_ENTRIES → 0 <= h_entry_count (header t) → admissible t b r →
used (h_entry_count (header t) + 1) (next_entries t (new_entry t b r)) = mapping t ++ [new_entry t b r].
Proof using. intros Hl Hc (_ & _ & _ & Hlt & _). by apply used_snoc. Qed.

Lemma entry_valid_next h h' e : h_sequence h <= h_sequence h' → entry_valid h e = true → entry_valid h' e = true.
Proof using.
intros Hle (H1 & H2 & H3 & H4 & H5)%valid_facts. unfold entry_valid.
rewrite !(proj2 (Z.eqb_neq _ _)) by done. by rewrite (proj2 (Z.ltb_ge _ _)) by lia.
Qed.

Lemma next_valid t b r :
remap_in_place t → well_typed (header t) → length (entries t) = FAT12_REMAP_MAX_ENTRIES →
entries_valid (header t) (entries t) = true → h_sequence (header t) < UINT64_MAX → admissible t b r →
entries_valid (next_header t (new_entry t b r)) (next_entries t (new_entry t b r)) = true.
Proof using.
intros Hpl Hw Hl Hv Hs Ha. destruct (typed_range _ Hw) as [Hc Hsr]. pose proof Ha as (A1 & A2 & A3 & A4 & A5).
assert (u64 (h_sequence (header t) + 1) = h_sequence (header t) + 1) as Hu by (apply u64_small; ulia).
unfold entries_valid in *. apply andb_true_iff in Hv as [Hd _]. apply andb_true_iff. split; [|apply Z.eqb_refl].
set (h' := next_header _ _). assert (h_entry_count h' = h_entry_count (header t) + 1) as -> by done.
assert (h_sequence h' = h_sequence (header t) + 1) as Hs' by done. clearbody h'.
rewrite next_mapping by done. fold (mapping t) in Hd. destruct (entries_distinct_spec _ _ _ Hd) as (H1 & _ & H3).
apply entries_distinct_complete.
- intros e [He|He%list_elem_of_singleton]%elem_of_app.
  + apply (entry_valid_next (header t)); [lia|by apply H1].
  + subst e. unfold entry_valid, new_entry. cbn. rewrite Hu, Hs'.
    rewrite !(proj2 (Z.eqb_neq _ _)) by (done || ulia). by rewrite Z.ltb_irrefl.
- by intros a e ?%elem_of_nil.
- intros i j a e Hi Hj Hlt. apply lookup_lt_Some in Hj as Hjl. rewrite length_app in Hjl. cbn [length] in Hjl.
  rewrite lookup_app_l in Hi by lia.
  destruct (decide (j < length (mapping t))%nat) as [Hjm|Hjm].
  + rewrite lookup_app_l in Hj by done. by apply (H3 i j).
  + rewrite lookup_app_r in Hj by lia. replace (j - length (mapping t))%nat with 0%nat in Hj by lia.
    injection Hj as <-. destruct (A5 a (list_elem_of_lookup_2 _ _ _ Hi)) as (? & ? & ? & ?).
    unfold entry_clash, new_entry. cbn. by rewrite !(proj2 (Z.eqb_neq _ _)).
Qed.

(** ** Between the old and the new table *)
Inductive header_pair (h h' : fat12_remap_header_t)
: option fat12_remap_header_t → option fat12_remap_header_t → Prop :=
| pair_old : header_pair h h' (Some h) (Some h)
| pair_torn : header_pair h h' None (Some h)
| pair_first : header_pair h h' (Some h') (Some h)
| pair_first_torn : header_pair h h' (Some h') None
| pair_new : header_pair h h' (Some h') (Some h').

(** What the writes of an addition may leave: headers of which the new one
  comes first, entries that hold the new one before a header counts it. *)
Record between (i : image) (t : fat12_remap_table_t) (b r : Z) : Prop := {
  between_headers :
    header_pair (header t) (next_header t (new_entry t b r)) (shape_at i P) (shape_at i M);
  between_new :
    shape_at i P = Some (next_header t (new_entry t b r)) →
    admissible t b r ∧
    used (h_entry_count (header t) + 1) (table_at i) = mapping t ++ [new_entry t b r];
  between_old :
    used (h_entry_count (header t)) (table_at i) = mapping t ∨ h_entry_count (header t) = 0 ∨ damaged (i T)
}.

Lemma next_differs t e : h_sequence (header t) < UINT64_MAX → well_typed (header t) →
h_sequence (next_header t e) = h_sequence (header t) + 1 ∧ h_entry_count (next_header t e) = h_entry_count (header t) + 1.
Proof using. intros Hs Hw. destruct (typed_range _ Hw). split; [apply u64_small; ulia|done]. Qed.

Lemma found_is_old i t t' :
stored i t ∨ (used (h_entry_count (header t)) (table_at i) = mapping t ∨ h_entry_count (header t) = 0 ∨ damaged (i T)) →
well_typed (header t) → found i t' → header t' = header t → mapping t' = mapping t.
Proof using Hplaced.
intros Hold Hw [_ Hf Hz Hv] E. destruct (typed_range _ Hw) as [Hc _]. rewrite E in *.
destruct (Z.eq_dec (h_entry_count (header t)) 0) as [Hc0|Hc0].
{ rewrite Hz by done. unfold mapping. by rewrite Hc0. }
rewrite Hf by done. destruct Hold as [[_ _ _ _ _ _ [?|?]]|[?|[?|Hd]]]; try done.
pose proof (remap_damaged_table Hplaced _ (header t) Hd ltac:(lia)) as Hbad.
rewrite (entries_valid_used _ _ (table_at i)) in Hv; [unfold table_at in Hv; congruence|].
rewrite <- Hf by done. unfold mapping. by rewrite E.
Qed.

Lemma between_found i t b r t' :
h_sequence (header t) < UINT64_MAX → well_typed (header t) → between i t b r → found i t' →
mapping t' = mapping t ∨
(shape_at i P = Some (next_header t (new_entry t b r)) ∧ admissible t b r ∧ mapping t' = mapping t ++ [new_entry t b r]).
Proof using Hplaced.
intros Hs Hw [Hp Hn Ho] Hf. destruct (next_differs _ (new_entry t b r) Hs Hw) as [_ Ec].
destruct (typed_range _ Hw) as [Hc _].
assert (header t' = header t ∨ (header t' = next_header t (new_entry t b r) ∧
  shape_at i P = Some (next_header t (new_entry t b r)))) as [E|[E EP]].
{ destruct (found_header _ _ Hf) as [E|E]; inversion Hp; simplify_eq; rewrite ?E in *; simplify_eq; auto. }
- left. by apply (found_is_old i t t'); [right| | |].
- right. destruct (Hn EP) as [Ha Hu]. split_and!; [done|done|]. rewrite <- Hu, <- Ec, <- E.
  apply (found_entries _ _ Hf). rewrite E, Ec. lia.
Qed.

Lemma between_live i t b r :
remap_in_place t → well_typed (header t) → length (entries t) = FAT12_REMAP_MAX_ENTRIES →
entries_valid (header t) (entries t) = true → h_sequence (header t) < UINT64_MAX →
between i t b r → ¬ damaged (i T) →
(∀ h, shape_at i P = Some h ∨ shape_at i M = Some h → entries_valid h (table_at i) = true) ∧
is_Some (choose_header (shape_at i P) (shape_at i M)).
Proof using.
intros Hpl Hw Hl Hv Hs [Hp Hn Ho] Hnd. destruct (next_differs _ (new_entry t b r) Hs Hw) as [Es Ec].
destruct (typed_range _ Hw) as [Hc _].
assert (entries_valid (header t) (table_at i) = true) as Hvo.
{ rewrite <- Hv. apply entries_valid_used. destruct Ho as [E|[E|E]]; [done|by rewrite E|done]. }
assert (shape_at i P = Some (next_header t (new_entry t b r)) →
  entries_valid (next_header t (new_entry t b r)) (table_at i) = true) as Hvn.
{ intros EP. destruct (Hn EP) as [Ha Hu].
  rewrite (entries_valid_used _ _ (next_entries t (new_entry t b r))); [by apply next_valid|].
  rewrite Ec, Hu, next_mapping; done. }
clear Hn Ho. set (h' := next_header t (new_entry t b r)) in *. clearbody h'. split.
- intros h Hh. inversion Hp as [EP EM|EP EM|EP EM|EP EM|EP EM]; rewrite <- EP, <- EM in *;
    destruct Hh; simplify_eq; auto.
- unfold choose_header. inversion Hp; try by eexists.
  + rewrite bool_decide_eq_true_2, andb_false_r by done. rewrite Z.leb_refl. by eexists.
  + rewrite Es. rewrite (proj2 (Z.eqb_neq _ _)) by lia. cbn [andb].
    rewrite (proj2 (Z.leb_le _ _)) by lia. by eexists.
  + rewrite bool_decide_eq_true_2, andb_false_r by done. rewrite Z.leb_refl. by eexists.
Qed.

Lemma next_not_old t e : h_sequence (header t) < UINT64_MAX → well_typed (header t) → header t ≠ next_header t e.
Proof using. intros Hs Hw E. destruct (next_differs t e Hs Hw) as [Es _]. rewrite <- E in Es. lia. Qed.

(** The table sector alone has been written. *)
Lemma between_table i i' t b r :
h_sequence (header t) < UINT64_MAX → stored i t →
(∀ l, l ≠ T → i' l = i l) →
used (h_entry_count (header t)) (table_at i') = mapping t ∨ h_entry_count (header t) = 0 ∨ damaged (i' T) →
between i' t b r.
Proof using Hplaced.
intros Hs Hst Hl Ht. destruct (remap_distinct Hplaced) as (H1 & H2 & H3).
destruct (stored_headers _ _ Hst) as [EP EM]. destruct (stored_typed _ _ Hst) as [Hw _].
rewrite <- (shape_at_same i i' P) in EP by by apply Hl. rewrite <- (shape_at_same i i' M) in EM by by apply Hl.
split; rewrite ?EP, ?EM; [constructor| |done].
intros [= E]. by destruct (next_not_old t (new_entry t b r) Hs Hw).
Qed.

Lemma stored_between i t b r : h_sequence (header t) < UINT64_MAX → stored i t → between i t b r.
Proof using Hplaced.
intros Hs Hst. apply (between_table i i); [done|done|done|]. destruct (stored_table _ _ Hst); auto.
Qed.

(** The entries that [fat12_remap_add] writes, read back. *)
Lemma next_table i t e :
length (entries t) = FAT12_REMAP_MAX_ENTRIES → Forall well_typed (entries t) → well_typed e →
0 <= h_entry_count (header t) < Z.of_nat FAT12_REMAP_MAX_ENTRIES →
i T = sector_of (entry_bytes (take (S (Z.to_nat (h_entry_count (header t)))) (next_entries t e))) →
used (h_entry_count (header t) + 1) (table_at i) = mapping t ++ [e].
Proof using.
intros Hl Ht He Hc E. set (n := Z.to_nat (h_entry_count (header t))).
assert (take (S n) (next_entries t e) = mapping t ++ [e]) as Es.
{ pose proof (used_snoc _ e _ Hl Hc) as H. unfold used in H.
  replace (Z.to_nat (h_entry_count (header t) + 1)) with (S n) in H by (subst n; lia). done. }
assert (length (mapping t) = n) as Hm by (unfold mapping, used; rewrite length_take; subst n; lia).
unfold used, table_at. replace (Z.to_nat (h_entry_count (header t) + 1)) with (length (mapping t ++ [e]))
  by (rewrite length_app, Hm; cbn; subst n; lia).
fold n in E. rewrite E, Es. unfold sector_of. apply decode_entry_bytes.
- apply list.Forall_app. split; [by apply list.Forall_take|]. by apply list.Forall_cons.
- rewrite length_app, Hm. cbn [length]. unfold FAT12_REMAP_MAX_ENTRIES in *. subst n. lia.
Qed.

Lemma used_prefix n (es m : list fat12_remap_entry_t) e :
used (n + 1) es = m ++ [e] → 0 <= n → length m = Z.to_nat n → used n es = m.
Proof using.
unfold used. intros E Hn Hm. replace (Z.to_nat (n + 1)) with (S (Z.to_nat n)) in E by lia.
apply (f_equal (take (Z.to_nat n))) in E. rewrite take_take, Nat.min_l in E by lia.
by rewrite E, <- Hm, take_app_length.
Qed.

Lemma length_mapping t : length (entries t) = FAT12_REMAP_MAX_ENTRIES →
0 <= h_entry_count (header t) <= Z.of_nat FAT12_REMAP_MAX_ENTRIES → length (mapping t) = Z.to_nat (h_entry_count (header t)).
Proof using. intros. unfold mapping, used. rewrite length_take. lia. Qed.

(** Writing the headers of [t] over those of [h]. *)
Lemma write_headers_spec t h w :
remap_in_place t → well_typed (header t) → header_shape_valid (header t) fp = true →
shape_at (medium w) P = Some h ∧ shape_at (medium w) M = Some h →
let '(ok, w') := write_headers read write t w in
(∀ l, l ≠ P → l ≠ M → medium w' l = medium w l) ∧
header_pair h (header t) (shape_at (medium w') P) (shape_at (medium w') M) ∧
(ok = true → shape_at (medium w') P = Some (header t) ∧ shape_at (medium w') M = Some (header t)) ∧
(healthy w → ok = true ∧ healthy w').
Proof using All.
intros (HP & HM & _) Hw Hv [EP EM]. destruct (remap_distinct Hplaced) as (Hne & _ & _).
destruct (remap_reach Hplaced) as (Pc & Mc & _). unfold write_headers. rewrite HP, HM.
set (sec := sector_of _). assert (is_sector sec) as Hsec by apply remap_sector_ok. unfold and_io.
pose proof (write_verified_spec read write capacity damaged P sec w Hsec) as (W1 & O1 & H1).
destruct (write_verified read write P sec w) as [ok1 w1]. cbn [fst snd] in *.
rewrite <- (shape_at_same _ (medium w1) M) in EM by by apply W1.
destruct ok1.
- pose proof (write_verified_spec read write capacity damaged M sec w1 Hsec) as (W2 & O2 & H2).
  destruct (write_verified read write M sec w1) as [ok2 w2]. cbn [fst snd] in *.
  assert (shape_at (medium w2) P = Some (header t)) as EP2.
  { rewrite (shape_at_same (medium w1)) by by apply W2. unfold shape_at.
    rewrite (O1 eq_refl). subst sec. rewrite remap_header_sector by done. by rewrite Hv. }
  rewrite EP2. split_and!.
  + intros l Hl Hl'. rewrite (proj1 W2), (proj1 W1); done.
  + destruct (shape_at_wrote _ _ _ _ Hw Hv W2) as [->|[->|[_ ->]]]; rewrite ?EM; constructor.
  + intros ->. split; [done|]. unfold shape_at. rewrite (O2 eq_refl). subst sec.
    rewrite remap_header_sector by done. by rewrite Hv.
  + intros Hh. destruct (H1 Hh Pc) as [_ Hh1]. by apply H2.
- rewrite EM. split_and!.
  + intros l Hl Hl'. by rewrite (proj1 W1).
  + destruct (shape_at_wrote _ _ _ _ Hw Hv W1) as [->|[->|[_ ->]]]; rewrite ?EP; constructor.
  + done.
  + intros Hh. by destruct (H1 Hh Pc).
Qed.

Lemma new_entry_typed t b r : is_u32 b → is_u32 r → well_typed (new_entry t b r).
Proof using. intros Hb Hr. unfold well_typed, new_entry. cbn. split_and!; try done; ulia. Qed.

(** The first write of an addition: the entries, with the new one. *)
Lemma write_table_spec t w b r (e := new_entry t b r) :
stored (medium w) t → h_sequence (header t) < UINT64_MAX → is_u32 b → is_u32 r → admissible t b r →
let '(ok, w') := write_verified read write T
  (sector_of (entry_bytes (take (S (Z.to_nat (h_entry_count (header t)))) (next_entries t e)))) w in
between (medium w') t b r ∧ (∀ l, l ≠ T → medium w' l = medium w l) ∧
(ok = true → used (h_entry_count (header t) + 1) (table_at (medium w')) = mapping t ++ [e]) ∧
(healthy w → ok = true ∧ healthy w').
Proof using All.
intros Hst Hs Hb Hr (_ & _ & _ & Hlt & _). pose proof Hst as [_ [Hw Hte] _ _ Hl _ Htb].
destruct (typed_range _ Hw) as [Hc _]. destruct (remap_reach Hplaced) as (_ & _ & Tc).
set (sec := sector_of _). assert (is_sector sec) as Hsec.
{ apply table_sector_ok. rewrite length_take, length_next, Hl. unfold FAT12_REMAP_MAX_ENTRIES. lia. }
pose proof (write_verified_spec read write capacity damaged T sec w Hsec) as (W1 & O1 & H1).
destruct (write_verified read write T sec w) as [ok1 w1]. cbn [fst snd] in *.
assert (medium w1 T = sec → used (h_entry_count (header t) + 1) (table_at (medium w1)) = mapping t ++ [e]) as Htab.
{ intros E. apply next_table; [done|done|by apply new_entry_typed|lia|done]. }
split_and!; [|apply W1|auto|auto].
apply (between_table (medium w)); [done|done|apply W1|]. destruct W1 as [_ [E|[E|E]]]; [|left|by right; right].
- unfold table_at. rewrite E. fold (table_at (medium w)). destruct Htb; auto.
- apply (used_prefix _ _ _ e); [by apply Htab|done|apply length_mapping; [done|lia]].
Qed.

Lemma stored_next i t b r :
stored i t → h_sequence (header t) < UINT64_MAX → is_u32 b → is_u32 r → admissible t b r →
∀ i', let e := new_entry t b r in
shape_at i' P = Some (next_header t e) ∧ shape_at i' M = Some (next_header t e) →
used (h_entry_count (header t) + 1) (table_at i') = mapping t ++ [e] →
stored i' (set_contents t (next_header t e) (next_entries t e)).
Proof using Hplaced.
intros [Hpl [Hw Hte] Hsh Hv Hl Hhd Htb] Hs Hb Hr Ha i' e Hsh' Ht. destruct (typed_range _ Hw) as [Hc _].
pose proof Ha as (_ & _ & _ & Hlt & _). split; try done.
- split; [by apply next_typed; [|lia]|]. apply list.Forall_insert; [done|by apply new_entry_typed].
- by apply next_shape.
- by apply next_valid.
- by rewrite <- Hl, <- (length_next t e).
- left. cbn [header set_contents]. change (h_entry_count (next_header t e)) with (h_entry_count (header t) + 1).
  rewrite Ht. symmetry. by apply next_mapping.
Qed.

Lemma add_spec t w b r :
stored (medium w) t → h_sequence (header t) < UINT64_MAX → is_u32 b → is_u32 r →
let '(ok, t1, w1) := fat12_remap_add read write t b r w in
between (medium w1) t b r ∧
(ok = true → admissible t b r ∧ stored (medium w1) t1 ∧ mapping t1 = mapping t ++ [new_entry t b r] ∧
  shape_at (medium w1) P = Some (next_header t (new_entry t b r)) ∧
  shape_at (medium w1) M = Some (next_header t (new_entry t b r))) ∧
(ok = false → mapping t1 = mapping t) ∧
(healthy w → admissible t b r → ok = true ∧ healthy w1).
Proof using All.
intros Hst Hs Hb Hr. pose proof Hst as [(HP & HM & HT & Hfp) [Hw _] Hsh _ Hl Hhd _].
destruct (typed_range _ Hw) as [Hc _]. destruct (remap_distinct Hplaced) as (_ & HMT & HPT).
unfold fat12_remap_add. cbv zeta. fold (new_entry t b r). set (e := new_entry t b r) in *. fold (mapping t).
destruct (_ || _) eqn:Eg.
{ split_and!; [by apply stored_between|done|done|]. intros _ Ha%add_checks. cbv zeta in Ha. fold e in Ha. congruence. }
apply add_checks in Eg as Ha. clear Eg. pose proof Ha as (_ & _ & _ & Hlt & _).
fold (next_entries t e). cbn [set_contents entries table_sector media_fingerprint]. rewrite HT.
pose proof (write_table_spec t w b r Hst Hs Hb Hr Ha) as Hwt. fold e in Hwt.
destruct (write_verified read write T _ w) as [ok1 w1]. destruct Hwt as (Hbt & W1 & Htab & H1).
destruct ok1; cbn [negb].
2: { split_and!; [done|done|intros _; by apply used_insert|]. intros Hh. by destruct (H1 Hh). }
specialize (Htab eq_refl). cbn [h_entry_count prepare_header]. fold (next_header t e). set (t2 := set_contents _ _ _).
pose proof (write_headers_spec t2 (header t) w1 ltac:(done) (next_typed t e ltac:(done) ltac:(lia)) (next_shape t e ltac:(done) Hlt)) as Hwh.
rewrite !(shape_at_same (medium w) (medium w1)) in Hwh by by apply W1. specialize (Hwh Hhd).
destruct (write_headers read write t2 w1) as [ok w2]. destruct Hwh as (L2 & Hpair & Hok & Hlive).
assert (table_at (medium w2) = table_at (medium w1)) as ET by (unfold table_at; by rewrite L2).
rewrite <- ET in Htab.
assert (between (medium w2) t b r) as Hb2.
{ split; [done|done|]. left. apply (used_prefix _ _ _ e); [done|done|apply length_mapping; [done|lia]]. }
destruct ok; (split_and!; [done| | |]); try done.
- intros _. destruct (Hok eq_refl) as [E1 E2]. split_and!; try done; [apply (stored_next (medium w) t b r Hst Hs Hb Hr Ha); [by split|done]|by apply next_mapping].
- intros Hh. destruct (H1 Hh) as [_ Hh1]. intros _. by destruct (Hlive Hh1).
- intros _. unfold mapping. cbn. unfold next_entries. rewrite list_insert_insert_eq. by apply used_insert.
- intros Hh. destruct (H1 Hh) as [_ Hh1]. by destruct (Hlive Hh1).
Qed.

Lemma mapping_lookup t t' : mapping t' = mapping t → ∀ s, fat12_remap_lookup t' s = fat12_remap_lookup t s.
Proof using. intros E s. by rewrite !lookup_mapping, E. Qed.

(** No sector is replaced by itself, by a replaced sector or by one that
replaces another: in every table that [fat12_remap_load] accepts, whatever is
on the medium, and after every [fat12_remap_add], successful or not. *)
Theorem fat12_remap_isolated t b r w :
(remap_in_place t →
 let '(ok, t', _) := fat12_remap_load read t w in ok = true → isolated t') ∧
(stored (medium w) t → h_sequence (header t) < UINT64_MAX → is_u32 b → is_u32 r →
 let '(_, t', _) := fat12_remap_add read write t b r w in isolated t').
Proof using All.
split.
- intros Hpl. pose proof (load_cases t w Hpl) as H. destruct (fat12_remap_load read t w) as [[ok t'] w'].
  intros Ho. destruct H as [_ H]. destruct (H Ho) as [_ [_ _ _ Hv]].
  unfold entries_valid in Hv. apply andb_true_iff in Hv as [Hd _]. by apply (distinct_isolated _ (header t')).
- intros Hst Hs Hb Hr. pose proof (stored_valid _ _ Hst) as Hv. apply andb_true_iff in Hv as [Hd _].
  apply distinct_isolated in Hd. pose proof (add_spec t w b r Hst Hs Hb Hr) as H.
  destruct (fat12_remap_add read write t b r w) as [[[] t'] w']; destruct H as (_ & H1 & H2 & _).
  + destruct (H1 eq_refl) as (Ha & _ & E & _). apply (extended_isolated t _ b r); [done|done|].
    by apply admissible_extended.
  + destruct Hd as [D1 D2]. pose proof (mapping_lookup _ _ (H2 eq_refl)) as E. split.
    * intros s s'. rewrite !E. apply D1.
    * intros s s' r'. rewrite !E. apply D2.
Qed.

(** C12: adding a replacement is atomic.  If [fat12_remap_add] reports success
the mapping has the new replacement, in memory and on the medium; if not, the
table in memory maps what it did.  Whatever its writes leave behind when they
fail or are torn, a later load that succeeds finds the old mapping or the new
one, the new one only for an admissible request, and after a reported success
the new one.  On a healthy device an admissible request succeeds, and so does
the load unless the sector with the entries, which has no mirror, is torn. *)
Theorem fat12_remap_add_atomic t w b r
  (Hst : stored (medium w) t) (Hs : h_sequence (header t) < UINT64_MAX) (Hb : is_u32 b) (Hr : is_u32 r) :
let '(ok, t1, w1) := fat12_remap_add read write t b r w in
(ok = true → stored (medium w1) t1 ∧ extended t t1 b r) ∧
(ok = false → ∀ s, fat12_remap_lookup t1 s = fat12_remap_lookup t s) ∧
(healthy w → admissible t b r → ok = true) ∧
∀ t2 w2, remap_in_place t2 → (∀ l, medium w2 l = medium w1 l) →
  let '(ok2, t3, _) := fat12_remap_load read t2 w2 in
  (ok2 = true → (admissible t b r ∧ extended t t3 b r) ∨
    (ok = false ∧ ∀ s, fat12_remap_lookup t3 s = fat12_remap_lookup t s)) ∧
  (healthy w2 → ¬ damaged (medium w1 T) → ok2 = true).
Proof using All.
pose proof (add_spec t w b r Hst Hs Hb Hr) as H.
destruct (stored_typed _ _ Hst) as [Hw _].
destruct (fat12_remap_add read write t b r w) as [[ok t1] w1]. destruct H as (Hbt & Hok & Hno & Hlive).
split_and!.
- intros Ho. destruct (Hok Ho) as (Ha & Hs1 & E & _). split; [done|]. by apply admissible_extended.
- intros Ho. apply mapping_lookup. auto.
- intros Hh Ha. by destruct (Hlive Hh Ha).
- intros t2 w2 Hpl Hm.
  assert (∀ s, shape_at (medium w2) s = shape_at (medium w1) s) as Esh by (intros s; by apply shape_at_same).
  assert (table_at (medium w2) = table_at (medium w1)) as ET by (unfold table_at; by rewrite Hm).
  assert (between (medium w2) t b r) as Hb2.
  { destruct Hbt. split; rewrite ?Esh, ?ET, ?Hm; done. }
  pose proof (load_cases t2 w2 Hpl) as Hlc. pose proof (load_live t2 w2 Hpl) as Hll.
  destruct (fat12_remap_load read t2 w2) as [[ok2 t3] w3]. cbn [fst snd] in Hll. split.
  + intros Ho2. destruct Hlc as [_ Hf]. destruct (Hf Ho2) as [_ Hfd].
    destruct (between_found _ _ _ _ _ Hs Hw Hb2 Hfd) as [E|(_ & Ha & E)]; [|left; split; [done|by apply admissible_extended]].
    right. split; [|by apply mapping_lookup]. destruct ok; [|done]. exfalso.
    destruct (Hok eq_refl) as (_ & Hs1 & E1 & EP & EM).
    assert (header t3 = next_header t (new_entry t b r)) as Eh.
    { destruct (found_header _ _ Hfd) as [E3|E3]; rewrite Esh in E3; congruence. }
    assert (shape_at (medium w1) P = Some (header t1)) as EP1 by apply (stored_headers _ _ Hs1).
    assert (mapping t3 = mapping t1) as E3.
    { apply (found_is_old (medium w2)); [| | done|congruence].
      - right. rewrite ET. destruct (stored_table _ _ Hs1); auto.
      - apply (stored_typed _ _ Hs1). }
    rewrite E3, E1 in E. apply (f_equal length) in E. rewrite length_app in E. cbn in E. lia.
  + intros Hh Hnd. rewrite <- Hm in Hnd.
    destruct (between_live _ _ _ _ (stored_place _ _ Hst) Hw (stored_length _ _ Hst) (stored_valid _ _ Hst) Hs Hb2 Hnd).
    by apply Hll.
Qed.
End medium.

(** ** A table on a floppy *)
Section example.
(** Sector 300 is replaced by sector 140. *)
Definition sample_mapping : list fat12_remap_entry_t := [Entry 300 140 2].
Definition sample_entries : list fat12_remap_entry_t :=
  sample_mapping ++ repeat empty_entry 15.
Definition sample_remap_header : fat12_remap_header_t :=
  let h := prepare_header 0x12345678 2 1 in with_crc h (table_crc h sample_entries).
Definition sample_table : fat12_remap_table_t :=
  Table 131 132 133 0x12345678 sample_remap_header sample_entries.
Definition remap_floppy (supply : option nat) (tear : bool) : floppy :=
  Floppy (λ l, if (l =? 131) || (l =? 132) then sector_of (encode sample_remap_header)
    else if l =? 133 then sector_of (entry_bytes sample_mapping) else repeat 0 512) supply tear.

Lemma torn_remap_header x : torn_bytes x → header_shape_valid (remap_header_of x) 0x12345678 = false.
Proof.
  unfold torn_bytes. intros E. unfold header_shape_valid.
  assert (h_magic (remap_header_of x) = 0) as ->; [|done].
  change (le_value (take 4 (take 28 x)) = 0). rewrite take_take. change (4 `min` 28)%nat with 4%nat. by rewrite E.
Qed.

Lemma torn_remap_table x h :
  torn_bytes x → 0 < h_entry_count h → entries_valid h (decode_entries FAT12_REMAP_MAX_ENTRIES x) = false.
Proof.
  unfold torn_bytes. intros E Hc. unfold entries_valid, used.
  destruct (Z.to_nat (h_entry_count h)) as [|n] eqn:En; [lia|]. cbn [decode_entries FAT12_REMAP_MAX_ENTRIES take entries_distinct].
  unfold entry_valid.
  assert (bad_sector (decode (take (sizeof fat12_remap_entry_t) x)) = 0) as ->; [|done].
  change (le_value (take 4 (take 16 x)) = 0). rewrite take_take. change (4 `min` 16)%nat with 4%nat. by rewrite E.
Qed.

Lemma remap_floppy_placed : remap_placed 2880 torn_bytes 131 132 133 0x12345678.
Proof.
  split; [done|repeat split; by (apply Z.leb_le || apply Z.ltb_lt)|split; [split; [by apply Z.leb_le|by apply Z.ltb_lt]|done]| |].
  - apply torn_remap_header.
  - apply torn_remap_table.
Qed.

Lemma sample_in_place : remap_in_place 131 132 133 0x12345678 sample_table.
Proof. done. Qed.

Lemma remap_floppy_stored supply tear : stored 131 132 133 0x12345678 (medium (remap_floppy supply tear)) sample_table.
Proof.
  split.
  - done.
  - split; [repeat split; vm_compute; done|].
    repeat (apply list.Forall_cons; split); try apply list.Forall_nil_2; repeat split; vm_compute; done.
  - vm_compute. reflexivity.
  - vm_compute. reflexivity.
  - done.
  - split; vm_compute; reflexivity.
  - left. vm_compute. reflexivity.
Qed.

Lemma fat12_remap_isolated_witness :
  let t' := (fat12_remap_add floppy_read floppy_write sample_table 301 141 (remap_floppy None false)).1.2 in
  fat12_remap_lookup t' 301 = Some 141 ∧ isolated t' ∧
  isolated (fat12_remap_load floppy_read sample_table (remap_floppy None false)).1.2.
Proof.
  pose proof (fat12_remap_isolated floppy_read floppy_write 2880 torn_bytes 131 132 133 0x12345678
    remap_floppy_placed sample_table 301 141 (remap_floppy None false)) as [H1 H2].
  specialize (H2 (remap_floppy_stored None false) eq_refl ltac:(ulia) ltac:(ulia)). cbv zeta.
  assert (fat12_remap_lookup (fat12_remap_add floppy_read floppy_write sample_table 301 141
    (remap_floppy None false)).1.2 301 = Some 141) as E by (vm_compute; reflexivity).
  assert ((fat12_remap_load floppy_read sample_table (remap_floppy None false)).1.1 = true) as El by (vm_compute; reflexivity).
  split_and!; [exact E| |].
  - destruct (fat12_remap_add _ _ _ _ _ _) as [[ok t'] w']. exact H2.
  - specialize (H1 sample_in_place). destruct (fat12_remap_load _ _ _) as [[ok t'] w']. exact (H1 El).
Defined.

(** The drive loses its power at any moment of an addition. *)
Lemma fat12_remap_add_atomic_witness :
  (fat12_remap_add floppy_read floppy_write sample_table 301 141 (remap_floppy None false)).1.1 = true ∧
  ∀ supply tear,
  let w1 := (fat12_remap_add floppy_read floppy_write sample_table 301 141 (remap_floppy supply tear)).2 in
  ∀ w2, (∀ l, medium w2 l = medium w1 l) →
  let '(ok2, t3, _) := fat12_remap_load floppy_read sample_table w2 in
  ok2 = true → fat12_remap_lookup t3 300 = Some 140 ∧
  (fat12_remap_lookup t3 301 = Some 141 ∨ fat12_remap_lookup t3 301 = None).
Proof.
  split; [vm_compute; reflexivity|]. intros supply tear.
  pose proof (fat12_remap_add_atomic floppy_read floppy_write 2880 torn_bytes 131 132 133 0x12345678
    remap_floppy_placed sample_table (remap_floppy supply tear) 301 141 (remap_floppy_stored supply tear)
    eq_refl ltac:(ulia) ltac:(ulia)) as H.
  cbv zeta. destruct (fat12_remap_add _ _ _ _ _ _) as [[ok t1] w1]. cbn [snd]. destruct H as (_ & _ & _ & H).
  intros w2 Hm. specialize (H sample_table w2 sample_in_place Hm). destruct (fat12_remap_load _ _ w2) as [[ok2 t3] w3].
  intros Ho. destruct (proj1 H Ho) as [[_ E]|[_ E]]; rewrite !E; (split; [reflexivity|]); [left|right]; reflexivity.
Defined.
End example.
