(* ===== verification/WaitQueue.v ===== *)
(** Intrusive wait queues: src/kernel/sched/wait_queue.c and wait_queue.h.

    [Module WaitQueue] holds every function of the C file over a memory of
    nodes and queues, the code's pointers being keys of the memory and [None]
    being NULL.  A result [None] is a read through a pointer to nothing, or a
    walk that does not end within as many steps as there are nodes.
    The lists that the pointers stand for, and what each function does to
    them, follow: an order of arrival for [push], an order of keys for
    [insert_ordered]. *)
From Stdlib Require Import Sorted.
From stdpp Require Import gmap.
From S2P Require Import Prelude.

Module WaitQueue.

Record wait_queue_node_t := Node {
  next : option Z;
  queue : option Z;
  key : Z
}.

Record wait_queue_t := Queue {
  head : option Z;
  tail : option Z
}.

Record memory := Memory {
  nodes : gmap Z wait_queue_node_t;
  queues : gmap Z wait_queue_t
}.

Definition set_node (x : Z) (n : wait_queue_node_t) (m : memory) : memory :=
  Memory (<[x := n]> (nodes m)) (queues m).
Definition set_queue (q : Z) (r : wait_queue_t) (m : memory) : memory :=
  Memory (nodes m) (<[q := r]> (queues m)).

(** [node->next = p]. *)
Definition set_next (x : Z) (p : option Z) (m : memory) : option memory :=
  n ← nodes m !! x; Some (set_node x (Node p (queue n) (key n)) m).

Definition wait_queue_init (q : option Z) (m : memory) : option memory :=
  match q with
  | None => Some m
  | Some q => _ ← queues m !! q; Some (set_queue q (Queue None None) m)
  end.

Definition wait_queue_is_empty (q : option Z) (m : memory) : option bool :=
  match q with
  | None => Some true
  | Some q => r ← queues m !! q; Some (bool_decide (head r = None))
  end.

Definition wait_queue_push_locked (q x : option Z) (m : memory) : option (bool * memory) :=
  match q, x with
  | Some q, Some x =>
    n ← nodes m !! x;
    match queue n with
    | Some _ => Some (false, m)
    | None =>
      let m := set_node x (Node None (Some q) (key n)) m in
      r ← queues m !! q;
      match tail r with
      | None => Some (true, set_queue q (Queue (Some x) (Some x)) m)
      | Some t => m ← set_next t (Some x) m; Some (true, set_queue q (Queue (head r) (Some x)) m)
      end
    end
  | _, _ => Some (false, m)
  end.

(** The walk of the two loops: [current] advances with [previous] behind it
    until it is NULL or [stop] holds. *)
Fixpoint walk (fuel : nat) (stop : Z → wait_queue_node_t → bool) (previous current : option Z)
  (m : memory) : option (option Z * option Z) :=
  match current, fuel with
  | None, _ => Some (previous, None)
  | Some c, O => None
  | Some c, S fuel =>
    n ← nodes m !! c;
    if stop c n then Some (previous, current) else walk fuel stop current (next n) m
  end.

Definition steps (m : memory) : nat := S (size (nodes m)).

(** Links [x] in behind [previous], or at the head. *)
Definition link (q : Z) (previous x : option Z) (m : memory) : option memory :=
  match previous with
  | None => r ← queues m !! q; Some (set_queue q (Queue x (tail r)) m)
  | Some p => set_next p x m
  end.

Definition set_tail (q : Z) (x : option Z) (m : memory) : option memory :=
  r ← queues m !! q; Some (set_queue q (Queue (head r) x) m).

Definition wait_queue_insert_ordered_locked (q x : option Z) (k : Z) (m : memory)
  : option (bool * memory) :=
  match q, x with
  | Some q, Some x =>
    n ← nodes m !! x;
    match queue n with
    | Some _ => Some (false, m)
    | None =>
      let m := set_node x (Node (next n) (Some q) k) m in
      r ← queues m !! q;
      '(previous, current) ← walk (steps m) (λ _ n, k <? key n) None (head r) m;
      m ← set_next x current m;
      m ← link q previous (Some x) m;
      match current with
      | None => m ← set_tail q (Some x) m; Some (true, m)
      | Some _ => Some (true, m)
      end
    end
  | _, _ => Some (false, m)
  end.

Definition wait_queue_pop_locked (q : option Z) (m : memory) : option (option Z * memory) :=
  match q with
  | None => Some (None, m)
  | Some q =>
    r ← queues m !! q;
    match head r with
    | None => Some (None, m)
    | Some x =>
      n ← nodes m !! x;
      let m := set_queue q (Queue (next n) (match next n with None => None | Some _ => tail r end)) m in
      Some (Some x, set_node x (Node None None (key n)) m)
    end
  end.

Definition wait_queue_remove_locked (q x : option Z) (m : memory) : option (bool * memory) :=
  match q, x with
  | Some q, Some x =>
    n ← nodes m !! x;
    if negb (bool_decide (queue n = Some q)) then Some (false, m)
    else
      r ← queues m !! q;
      '(previous, current) ← walk (steps m) (λ c _, c =? x) None (head r) m;
      match current with
      | None => Some (false, m)
      | Some c =>
        cn ← nodes m !! c;
        m ← link q previous (next cn) m;
        r ← queues m !! q;
        m ← (if bool_decide (tail r = Some c) then set_tail q previous m else Some m);
        cn ← nodes m !! c;
        Some (true, set_node c (Node None None (key cn)) m)
      end
  | _, _ => Some (false, m)
  end.
End WaitQueue.

Import WaitQueue.

(** ** The lists behind the pointers *)
Record lists := Lists {
  members : gmap Z (list Z);
  keys : gmap Z Z
}.

Definition queued (a : lists) (x : Z) : Prop := ∃ q l, members a !! q = Some l ∧ x ∈ l.

Record represents (m : memory) (a : lists) : Prop := {
  rep_queue q : queues m !! q = (λ l, Queue (l !! 0%nat) (list.last l)) <$> members a !! q;
  rep_queued q l i x : members a !! q = Some l → l !! i = Some x →
    ∃ k, keys a !! x = Some k ∧ nodes m !! x = Some (Node (l !! S i) (Some q) k);
  rep_free x k : keys a !! x = Some k → ¬ queued a x → nodes m !! x = Some (Node None None k);
  rep_none x : keys a !! x = None → nodes m !! x = None;
  rep_distinct q l : members a !! q = Some l → NoDup l
}.

Lemma rep_member m a q l x :
  represents m a → members a !! q = Some l → x ∈ l →
  ∃ n, nodes m !! x = Some n ∧ queue n = Some q ∧ keys a !! x = Some (key n).
Proof.
  intros R Hq (i & Hi)%list_elem_of_lookup_1. destruct (rep_queued _ _ R _ _ _ _ Hq Hi) as (k & Hk & Hn). eauto.
Qed.

Lemma rep_one_queue m a p q l l' x :
  represents m a → members a !! p = Some l → members a !! q = Some l' → x ∈ l → x ∈ l' → p = q.
Proof.
  intros R Hp Hq Hx Hx'. destruct (rep_member _ _ _ _ _ R Hp Hx) as (n & Hn & Hnq & _).
  destruct (rep_member _ _ _ _ _ R Hq Hx') as (n' & Hn' & Hnq' & _). congruence.
Qed.

#[global] Instance queued_dec a x : Decision (queued a x).
Proof.
  destruct (decide (map_Exists (λ _ l, x ∈ l) (members a))) as [H|H]; [left|right];
    [by destruct H as (q & l & ?); exists q, l|intros (q & l & ?); apply H; by exists q, l].
Defined.

(** The node of a list member or of a free node, and its queue. *)
Lemma rep_node m a x k :
  represents m a → keys a !! x = Some k →
  ∃ n, nodes m !! x = Some n ∧ key n = k ∧ (queue n = None ↔ ¬ queued a x) ∧
    ∀ q l, members a !! q = Some l → (queue n = Some q ↔ x ∈ l).
Proof.
  intros R Hk. destruct (decide (queued a x)) as [(q & l & Hq & Hx)|Hf].
  - destruct (rep_member _ _ _ _ _ R Hq Hx) as (n & Hn & Hnq & Hnk). exists n. split_and!; [done|congruence| |].
    + rewrite Hnq. split; [done|]. intros []. by exists q, l.
    + intros p l' Hp. rewrite Hnq. split; [intros [= <-]; congruence|].
      intros Hx'. f_equal. by eapply rep_one_queue.
  - eexists. split; [by apply (rep_free _ _ R)|]. split_and!; [done|done|].
    intros q l Hq. split; [done|]. intros Hx. destruct Hf. by exists q, l.
Qed.

(** Rewriting one list and the nodes that were or are on it. *)
Lemma represents_update m a q l l' ks m' :
  represents m a → members a !! q = Some l → NoDup l' →
  (∀ p, p ≠ q → queues m' !! p = queues m !! p) → queues m' !! q = Some (Queue (l' !! 0%nat) (list.last l')) →
  (∀ i x, l' !! i = Some x → ∃ k, ks !! x = Some k ∧ nodes m' !! x = Some (Node (l' !! S i) (Some q) k)) →
  (∀ x, x ∈ l → x ∉ l' → ∃ k, ks !! x = Some k ∧ nodes m' !! x = Some (Node None None k)) →
  (∀ x, x ∉ l → x ∉ l' → nodes m' !! x = nodes m !! x ∧ ks !! x = keys a !! x) →
  (∀ x, x ∈ l' → x ∉ l → ¬ queued a x) →
  represents m' (Lists (<[q := l']> (members a)) ks).
Proof.
  intros R Hq Hd Hqo Hqn Hin Hout Hrest Hnew.
  assert (∀ p lp x, p ≠ q → members a !! p = Some lp → x ∈ lp → (x ∉ l) ∧ (x ∉ l')) as Hother.
  { intros p lp x Hpq Hp Hx. assert (x ∉ l) as Hxl by (intros Hxl; destruct Hpq; by eapply rep_one_queue).
    split; [done|]. intros Hx'. destruct (Hnew x Hx' Hxl). by exists p, lp. }
  split; cbn [members keys].
  - intros p. destruct (decide (p = q)) as [->|Hpq]; [by rewrite lookup_insert_eq|].
    rewrite lookup_insert_ne by done. by rewrite Hqo, (rep_queue _ _ R).
  - intros p lp i x. destruct (decide (p = q)) as [->|Hpq].
    + rewrite lookup_insert_eq. intros [= <-]. apply Hin.
    + rewrite lookup_insert_ne by done. intros Hp Hi.
      destruct (Hother p lp x Hpq Hp (list_elem_of_lookup_2 _ _ _ Hi)) as [H1 H2].
      destruct (Hrest x H1 H2) as [-> ->]. by apply (rep_queued _ _ R).
  - intros x k Hk Hf. assert (x ∉ l') as Hx'.
    { intros Hx'. apply Hf. exists q, l'. cbn [members]. by rewrite lookup_insert_eq. }
    destruct (decide (x ∈ l)) as [Hx|Hx].
    + destruct (Hout x Hx Hx') as (k' & Hk' & ->). congruence.
    + destruct (Hrest x Hx Hx') as [-> Ek]. apply (rep_free _ _ R); [congruence|].
      intros (p & lp & Hp & Hxp). apply Hf. exists p, lp. cbn [members].
      rewrite lookup_insert_ne; [done|]. intros ->. congruence.
  - intros x Hk. destruct (decide (x ∈ l')) as [Hx'|Hx'].
    + apply list_elem_of_lookup_1 in Hx' as (i & Hi). destruct (Hin i x Hi) as (k & ? & _). congruence.
    + destruct (decide (x ∈ l)) as [Hx|Hx]; [destruct (Hout x Hx Hx') as (k & ? & _); congruence|].
      destruct (Hrest x Hx Hx') as [-> E]. apply (rep_none _ _ R). congruence.
  - intros p lp. destruct (decide (p = q)) as [->|Hpq]; [rewrite lookup_insert_eq; by intros [= <-]|].
    rewrite lookup_insert_ne by done. apply (rep_distinct _ _ R).
Qed.

(** ** Walking a list *)
Definition before (l : list Z) (j : nat) : option Z := match j with O => None | S j => l !! j end.

Lemma walk_spec (m : memory) (l : list Z) (stop : Z → wait_queue_node_t → bool) :
  (∀ i x, l !! i = Some x → ∃ n, nodes m !! x = Some n ∧ next n = l !! S i) →
  ∀ fuel i, (length l < fuel + i)%nat → (i <= length l)%nat →
  ∃ j, walk fuel stop (before l i) (l !! i) m = Some (before l j, l !! j) ∧ (i <= j <= length l)%nat ∧
    (∀ k x n, (i <= k < j)%nat → l !! k = Some x → nodes m !! x = Some n → stop x n = false) ∧
    (∀ x n, l !! j = Some x → nodes m !! x = Some n → stop x n = true).
Proof.
  intros Hl. induction fuel as [|fuel IH]; intros i Hf Hi.
  - exfalso. lia.
  - destruct (l !! i) as [x|] eqn:Hx.
    + destruct (Hl i x Hx) as (n & Hn & Hnext). cbn [walk]. rewrite Hn. cbn [mbind option_bind].
      destruct (stop x n) eqn:Hs.
      * exists i. rewrite Hx. split_and!; [done|lia|lia|lia|]. intros; simplify_eq. done.
      * pose proof (lookup_lt_Some _ _ _ Hx). destruct (IH (S i) ltac:(lia) ltac:(lia)) as (j & Hw & Hj & H1 & H2).
        cbn [before] in Hw. rewrite Hx in Hw. rewrite Hnext. exists j. split_and!; [done|lia|lia| |done].
        intros k y n' Hk. destruct (decide (k = i)) as [->|]; [intros; by simplify_eq|apply H1; lia].
    + assert (walk (S fuel) stop (before l i) None m = Some (before l i, None)) as -> by done.
      exists i. rewrite Hx. split_and!; [done|lia|lia|lia|done].
Qed.

Lemma members_few m a q l : represents m a → members a !! q = Some l → (length l <= size (nodes m))%nat.
Proof.
  intros R Hq. rewrite <- size_dom. pose proof (rep_distinct _ _ R _ _ Hq) as Hd.
  rewrite <- (size_list_to_set (C := gset Z) l Hd). apply subseteq_size. intros x Hx%elem_of_list_to_set.
  destruct (rep_member _ _ _ _ _ R Hq Hx) as (n & Hn & _). apply elem_of_dom. eauto.
Qed.

(** The walks start at the head of a list that other nodes do not disturb. *)
Lemma walk_from_head m m' a q l stop :
  represents m a → members a !! q = Some l → (∀ x, x ∈ l → nodes m' !! x = nodes m !! x) →
  (size (nodes m) <= size (nodes m'))%nat →
  ∃ j, walk (steps m') stop None (l !! 0%nat) m' = Some (before l j, l !! j) ∧ (j <= length l)%nat ∧
    (∀ k x n, (k < j)%nat → l !! k = Some x → nodes m !! x = Some n → stop x n = false) ∧
    (∀ x n, l !! j = Some x → nodes m !! x = Some n → stop x n = true).
Proof.
  intros R Hq Hsame Hs. pose proof (members_few _ _ _ _ R Hq).
  destruct (walk_spec m' l stop) with (fuel := steps m') (i := 0%nat) as (j & Hw & Hj & H1 & H2).
  - intros i x Hi. destruct (rep_queued _ _ R _ _ _ _ Hq Hi) as (k & _ & Hn). eexists.
    by rewrite Hsame by by eapply list_elem_of_lookup_2.
  - unfold steps. lia.
  - lia.
  - exists j. split_and!; [done|lia| |].
    + intros k x n Hk Hx. rewrite <- Hsame by (by eapply list_elem_of_lookup_2). apply (H1 k); [lia|done].
    + intros x n Hx. rewrite <- Hsame by (by eapply list_elem_of_lookup_2). by apply H2.
Qed.

(** ** Inserting into and deleting from a list *)
Definition insert_at (j : nat) (x : Z) (l : list Z) : list Z := take j l ++ x :: drop j l.

Lemma insert_at_lookup j x l i :
  (j <= length l)%nat →
  insert_at j x l !! i = if decide (i < j)%nat then l !! i else if decide (i = j) then Some x else l !! pred i.
Proof.
  intros Hj. unfold insert_at. assert (length (take j l) = j) as Ht by (rewrite length_take; lia).
  destruct (decide (i < j)%nat).
  - rewrite lookup_app_l by lia. by rewrite lookup_take_lt.
  - rewrite lookup_app_r by lia. rewrite Ht. destruct (decide (i = j)) as [->|]; [by rewrite Nat.sub_diag|].
    destruct (i - j)%nat as [|d] eqn:Ed; [lia|]. change ((x :: drop j l) !! S d) with (drop j l !! d). rewrite lookup_drop. f_equal. lia.
Qed.

Lemma insert_at_members j x l y : y ∈ insert_at j x l ↔ y = x ∨ y ∈ l.
Proof.
  unfold insert_at. rewrite elem_of_app, elem_of_cons. rewrite <- (take_drop j l) at 3. rewrite elem_of_app. tauto.
Qed.

Lemma insert_at_nodup j x l : NoDup l → x ∉ l → NoDup (insert_at j x l).
Proof.
  intros Hd Hx. unfold insert_at. rewrite <- (take_drop j l) in Hd, Hx. rewrite elem_of_app in Hx.
  apply list.NoDup_app in Hd as (H1 & H2 & H3). apply list.NoDup_app. split_and!; [done| |].
  - intros y Hy. rewrite elem_of_cons. intros [->|Hy']; [tauto|]. by apply (H2 y).
  - apply list.NoDup_cons. tauto.
Qed.

Lemma insert_at_length j x l : length (insert_at j x l) = S (length l).
Proof. unfold insert_at. rewrite length_app. cbn. rewrite <- (take_drop j l) at 3. rewrite length_app. lia. Qed.

(** ** What the functions promise *)
Inductive operation :=
| Init (q : option Z)
| IsEmpty (q : option Z)
| Push (q x : option Z)
| InsertOrdered (q x : option Z) (k : Z)
| Pop (q : option Z)
| Remove (q x : option Z).

Inductive answer :=
| Done
| Said (b : bool)
| Popped (x : option Z).

Definition run (op : operation) (m : memory) : option (answer * memory) :=
  match op with
  | Init q => m ← wait_queue_init q m; Some (Done, m)
  | IsEmpty q => b ← wait_queue_is_empty q m; Some (Said b, m)
  | Push q x => '(b, m) ← wait_queue_push_locked q x m; Some (Said b, m)
  | InsertOrdered q x k => '(b, m) ← wait_queue_insert_ordered_locked q x k m; Some (Said b, m)
  | Pop q => '(x, m) ← wait_queue_pop_locked q m; Some (Popped x, m)
  | Remove q x => '(b, m) ← wait_queue_remove_locked q x m; Some (Said b, m)
  end.

(** Behind every member whose key is not larger. *)
Fixpoint insert_sorted (ks : gmap Z Z) (k x : Z) (l : list Z) : list Z :=
  match l with
  | [] => [x]
  | y :: l' => if k <? default 0 (ks !! y) then x :: l else y :: insert_sorted ks k x l'
  end.

Definition relist (q : Z) (l : list Z) (a : lists) : lists := Lists (<[q := l]> (members a)) (keys a).

Definition spec (op : operation) (a : lists) : answer * lists :=
  match op with
  | Init (Some q) => (Done, relist q [] a)
  | Init None => (Done, a)
  | IsEmpty q => (Said (match q with Some q => bool_decide (members a !! q = Some []) | None => true end), a)
  | Push (Some q) (Some x) =>
    if decide (queued a x) then (Said false, a)
    else (Said true, relist q (default [] (members a !! q) ++ [x]) a)
  | InsertOrdered (Some q) (Some x) k =>
    if decide (queued a x) then (Said false, a)
    else (Said true, Lists (<[q := insert_sorted (keys a) k x (default [] (members a !! q))]> (members a))
                       (<[x := k]> (keys a)))
  | Push _ _ | InsertOrdered _ _ _ => (Said false, a)
  | Pop (Some q) =>
    match members a !! q with
    | Some (x :: l) => (Popped (Some x), relist q l a)
    | _ => (Popped None, a)
    end
  | Pop None => (Popped None, a)
  | Remove (Some q) (Some x) =>
    if decide (x ∈ default [] (members a !! q))
    then (Said true, relist q (base.filter (.≠ x) (default [] (members a !! q))) a)
    else (Said false, a)
  | Remove _ _ => (Said false, a)
  end.

(** The pointers that are not NULL lead to a queue and to a node, and a queue
    that is initialised again is empty. *)
Definition points (a : lists) (q x : option Z) : Prop :=
  (∀ i, q = Some i → is_Some (members a !! i)) ∧ (∀ i, x = Some i → is_Some (keys a !! i)).

Definition admissible (op : operation) (a : lists) : Prop :=
  match op with
  | Init q => ∀ i, q = Some i → members a !! i = Some []
  | IsEmpty q | Pop q => points a q None
  | Push q x | InsertOrdered q x _ | Remove q x => points a q x
  end.

Lemma points_queue m a q x :
  represents m a → points a (Some q) x →
  ∃ l, members a !! q = Some l ∧ queues m !! q = Some (Queue (l !! 0%nat) (list.last l)).
Proof.
  intros R [H _]. destruct (H q eq_refl) as (l & Hl). exists l. split; [done|]. by rewrite (rep_queue _ _ R), Hl.
Qed.

Lemma points_node m a q x :
  represents m a → points a q (Some x) →
  ∃ n, nodes m !! x = Some n ∧ keys a !! x = Some (key n) ∧ (queue n = None ↔ ¬ queued a x) ∧
    ∀ p l, members a !! p = Some l → (queue n = Some p ↔ x ∈ l).
Proof.
  intros R [_ H]. destruct (H x eq_refl) as (k & Hk). destruct (rep_node _ _ _ _ R Hk) as (n & Hn & <- & ? & ?).
  exists n. done.
Qed.

Lemma relist_same a q l : members a !! q = Some l → relist q l a = a.
Proof. intros H. unfold relist. rewrite insert_id by done. by destruct a. Qed.

Lemma init_queue_ok q m a :
  represents m a → admissible (Init q) a → ∃ m', run (Init q) m = Some ((spec (Init q) a).1, m') ∧ represents m' (spec (Init q) a).2.
Proof.
  intros R Ha. destruct q as [q|]; [|by exists m]. specialize (Ha q eq_refl).
  cbn [run wait_queue_init spec fst snd mbind option_bind]. rewrite (rep_queue _ _ R), Ha. cbn. eexists. split; [done|].
  eapply represents_update; [done|done|constructor| | | | | |]; cbn; try (intros; set_solver).
  - intros p Hp. by rewrite lookup_insert_ne.
  - by rewrite lookup_insert_eq.
Qed.

Lemma is_empty_ok q m a :
  represents m a → admissible (IsEmpty q) a → run (IsEmpty q) m = Some ((spec (IsEmpty q) a).1, m).
Proof.
  intros R Ha. destruct q as [q|]; [|done]. destruct (points_queue _ _ _ _ R Ha) as (l & Hl & Hq).
  cbn. rewrite Hq, Hl. cbn. f_equal. f_equal. f_equal. apply bool_decide_ext. destruct l; split; done.
Qed.

(** A free node goes in at position [j]. *)
Lemma insert_represents m a q l x j k m' :
  represents m a → members a !! q = Some l → ¬ queued a x → (j <= length l)%nat →
  (∀ p, p ≠ q → queues m' !! p = queues m !! p) →
  queues m' !! q = Some (Queue (insert_at j x l !! 0%nat) (list.last (insert_at j x l))) →
  nodes m' !! x = Some (Node (l !! j) (Some q) k) →
  (∀ y n, before l j = Some y → nodes m !! y = Some n → nodes m' !! y = Some (Node (Some x) (queue n) (key n))) →
  (∀ y, y ≠ x → before l j ≠ Some y → nodes m' !! y = nodes m !! y) →
  represents m' (Lists (<[q := insert_at j x l]> (members a)) (<[x := k]> (keys a))).
Proof.
  intros R Hl Hx Hj Hqo Hqn Hnx Hnb Hno.
  assert (x ∉ l) as Hxl by (intros Hxl; apply Hx; by exists q, l).
  pose proof (rep_distinct _ _ R _ _ Hl) as Hd. pose proof (insert_at_nodup j x l Hd Hxl) as Hd'.
  eapply represents_update; [done|done|done|done|done| | | |].
  - intros i y. rewrite !insert_at_lookup by done. destruct (decide (i < j)%nat) as [Hij|Hij].
    + intros Hy. destruct (rep_queued _ _ R _ _ _ _ Hl Hy) as (ky & Hky & Hny).
      assert (y ≠ x) as Hyx by (intros ->; apply Hxl; by eapply list_elem_of_lookup_2).
      exists ky. rewrite lookup_insert_ne by done. split; [done|].
      destruct (decide (S i = j)) as [E|E].
      * rewrite decide_False by lia. rewrite (Hnb y _ ltac:(by rewrite <- E) Hny). done.
      * rewrite decide_True by lia. rewrite Hno; [done|done|]. destruct j as [|j']; [done|]. cbn [before].
        intros Hb. apply E. f_equal. by apply (NoDup_lookup l _ _ y).
    + destruct (decide (i = j)) as [->|Hne].
      * intros [= <-]. exists k. rewrite lookup_insert_eq. split; [done|]. rewrite Hnx.
        rewrite decide_False, decide_False by lia. done.
      * intros Hy. destruct (rep_queued _ _ R _ _ _ _ Hl Hy) as (ky & Hky & Hny).
        assert (y ≠ x) as Hyx by (intros ->; apply Hxl; by eapply list_elem_of_lookup_2).
        exists ky. rewrite lookup_insert_ne by done. split; [done|]. rewrite Hno, Hny; [|done|].
        -- rewrite !decide_False by lia. cbn [pred]. by replace (S (pred i)) with i by lia.
        -- destruct j as [|j']; [done|]. cbn [before]. intros Hb.
           pose proof (NoDup_lookup l _ _ y Hd Hy Hb). lia.
  - intros y Hy Hy'. rewrite insert_at_members in Hy'. tauto.
  - intros y Hy Hy'. rewrite insert_at_members in Hy'. assert (y ≠ x) by (intros ->; tauto).
    rewrite lookup_insert_ne by done. split; [|done]. apply Hno; [done|]. destruct j as [|j']; [done|]. cbn [before].
    intros Hb. apply Hy. by eapply list_elem_of_lookup_2.
  - intros y [->|Hy]%insert_at_members Hy'; done.
Qed.

Lemma insert_at_last j x l :
  (j <= length l)%nat → list.last (insert_at j x l) = if decide (j = length l) then Some x else list.last l.
Proof.
  intros Hj. rewrite !last_lookup, insert_at_length, insert_at_lookup by done. cbn [pred].
  destruct (decide (j = length l)) as [->|Hne].
  - by rewrite decide_False, decide_True by lia.
  - by rewrite decide_False, decide_False by lia.
Qed.

Lemma insert_at_head j x l :
  (j <= length l)%nat → insert_at j x l !! 0%nat = match j with O => Some x | S _ => l !! 0%nat end.
Proof. intros Hj. rewrite insert_at_lookup by done. by destruct j. Qed.

Lemma insert_at_end x l : insert_at (length l) x l = l ++ [x].
Proof. unfold insert_at. by rewrite firstn_all, skipn_all. Qed.

Lemma push_ok q x m a :
  represents m a → points a (Some q) (Some x) →
  ∃ m', run (Push (Some q) (Some x)) m = Some ((spec (Push (Some q) (Some x)) a).1, m') ∧
    represents m' (spec (Push (Some q) (Some x)) a).2.
Proof.
  intros R Hp. destruct (points_queue _ _ _ _ R Hp) as (l & Hl & Hq).
  destruct (points_node _ _ _ _ R Hp) as (n & Hn & Hk & Hf & Hi). cbn. rewrite Hn. cbn.
  destruct (decide (queued a x)) as [Hx|Hx].
  { destruct (queue n); [by exists m|]. by destruct (proj1 Hf eq_refl). }
  rewrite (proj2 Hf Hx). rewrite Hq, Hl. cbn [mbind option_bind tail default fst snd].
  assert (x ∉ l) as Hxl by (intros Hxl; apply Hx; by exists q, l).
  assert (∀ m', represents m' (Lists (<[q := insert_at (length l) x l]> (members a)) (<[x := key n]> (keys a))) →
    represents m' (relist q (l ++ [x]) a)) as Hend.
  { intros m'. by rewrite insert_at_end, (insert_id (keys a)). }
  rewrite last_lookup. destruct (l !! pred (length l)) as [t|] eqn:Et.
  - pose proof (lookup_lt_Some _ _ _ Et) as Hlen. assert (t ≠ x) as Htx by (intros ->; apply Hxl; by eapply list_elem_of_lookup_2).
    destruct (rep_queued _ _ R _ _ _ _ Hl Et) as (kt & Hkt & Hnt).
    unfold set_next, set_node. cbn. rewrite lookup_insert_ne by done. rewrite Hnt. cbn. eexists. split; [done|].
    apply Hend. eapply insert_represents; [done|done|done|done| | | | |]; cbn.
    + intros p Hpq. by rewrite lookup_insert_ne.
    + rewrite lookup_insert_eq, insert_at_head, insert_at_last by done. rewrite decide_True by done.
      by destruct (length l) eqn:E; [lia|].
    + rewrite lookup_insert_ne, lookup_insert_eq by done. by rewrite (lookup_ge_None_2 l).
    + destruct (length l) as [|len] eqn:E; [lia|]. cbn [pred before] in *. intros y n' Hy Hn'. simplify_eq.
      by rewrite lookup_insert_eq.
    + destruct (length l) as [|len] eqn:E; [lia|]. cbn [pred before] in *. intros y Hy Hb.
      by rewrite !lookup_insert_ne by congruence.
  - assert (l = []) as -> by (apply lookup_ge_None in Et; destruct l; [done|cbn in Et; lia]).
    eexists. split; [done|]. apply Hend. eapply insert_represents; [done|done|done|done| | | | |]; cbn.
    + intros p Hpq. by rewrite lookup_insert_ne.
    + by rewrite lookup_insert_eq.
    + by rewrite lookup_insert_eq.
    + done.
    + intros y Hy _. by rewrite lookup_insert_ne.
Qed.

Lemma insert_sorted_at ks k x : ∀ l j,
  (j <= length l)%nat →
  (∀ i y, (i < j)%nat → l !! i = Some y → default 0 (ks !! y) <= k) →
  (∀ y, l !! j = Some y → k < default 0 (ks !! y)) →
  insert_sorted ks k x l = insert_at j x l.
Proof.
  induction l as [|y l IH]; intros j Hj H1 H2; cbn [insert_sorted].
  { cbn in Hj. by replace j with 0%nat by lia. }
  destruct j as [|j].
  - specialize (H2 y eq_refl). by rewrite (proj2 (Z.ltb_lt _ _)) by done.
  - specialize (H1 0%nat y ltac:(lia) eq_refl) as Hy. rewrite (proj2 (Z.ltb_ge _ _)) by done.
    unfold insert_at. cbn [take drop app]. f_equal. apply IH.
    + cbn in Hj. lia.
    + intros i z Hi. apply (H1 (S i)). lia.
    + intros z. apply (H2 z).
Qed.

(** The three writes of an insertion between [before l j] and [l !! j]. *)
Lemma link_ok m q l x j n k :
  nodes m !! x = Some n → queues m !! q = Some (Queue (l !! 0%nat) (list.last l)) → (j <= length l)%nat →
  (∀ y, y ∈ l → y ≠ x ∧ is_Some (nodes m !! y)) →
  ∃ m', (m1 ← set_next x (l !! j) (set_node x (Node (next n) (Some q) k) m);
         m2 ← link q (before l j) (Some x) m1;
         match l !! j with
         | None => m3 ← set_tail q (Some x) m2; Some (true, m3)
         | Some _ => Some (true, m2)
         end) = Some (true, m') ∧
    (∀ p, p ≠ q → queues m' !! p = queues m !! p) ∧
    queues m' !! q = Some (Queue (insert_at j x l !! 0%nat) (list.last (insert_at j x l))) ∧
    nodes m' !! x = Some (Node (l !! j) (Some q) k) ∧
    (∀ y n, before l j = Some y → nodes m !! y = Some n → nodes m' !! y = Some (Node (Some x) (queue n) (key n))) ∧
    (∀ y, y ≠ x → before l j ≠ Some y → nodes m' !! y = nodes m !! y).
Proof.
  intros Hn Hq Hj Hy. unfold set_next, set_node, set_tail, set_queue, link. cbn. rewrite lookup_insert_eq. cbn.
  rewrite insert_at_head, insert_at_last by done. destruct j as [|j]; cbn [before].
  - cbn. rewrite Hq. cbn. destruct l as [|y l].
    + cbn. rewrite lookup_insert_eq. cbn. eexists. split; [done|]. cbn. split_and!.
      * intros p Hp. by rewrite !lookup_insert_ne.
      * by rewrite lookup_insert_eq.
      * by rewrite !lookup_insert_eq.
      * done.
      * intros y Hyx _. by rewrite !lookup_insert_ne.
    + cbn. eexists. split; [done|]. cbn. split_and!.
      * intros p Hp. by rewrite !lookup_insert_ne.
      * by rewrite lookup_insert_eq.
      * by rewrite !lookup_insert_eq.
      * done.
      * intros z Hz _. by rewrite !lookup_insert_ne.
  - destruct (l !! j) as [y|] eqn:Ey; [|apply lookup_ge_None in Ey; lia].
    destruct (Hy y (list_elem_of_lookup_2 _ _ _ Ey)) as (Hyx & ny & Hny). unfold set_next. cbn.
    rewrite !lookup_insert_ne by congruence. rewrite Hny. cbn.
    destruct (l !! S j) as [z|] eqn:Ez.
    + eexists. split; [done|]. cbn. apply lookup_lt_Some in Ez. rewrite decide_False by lia. split_and!.
      * done.
      * done.
      * rewrite lookup_insert_ne by done. by rewrite lookup_insert_eq.
      * intros w n' [= <-] Hw. simplify_eq. by rewrite lookup_insert_eq.
      * intros w Hw Hwy. by rewrite !lookup_insert_ne by congruence.
    + rewrite Hq. cbn. eexists. split; [done|]. cbn. apply lookup_ge_None in Ez. rewrite decide_True by lia. split_and!.
      * intros p Hp. by rewrite lookup_insert_ne.
      * by rewrite lookup_insert_eq.
      * rewrite lookup_insert_ne by done. by rewrite lookup_insert_eq.
      * intros w n' [= <-] Hw. simplify_eq. by rewrite lookup_insert_eq.
      * intros w Hw Hwy. by rewrite !lookup_insert_ne by congruence.
Qed.

Lemma insert_ordered_ok q x k m a :
  represents m a → points a (Some q) (Some x) →
  ∃ m', run (InsertOrdered (Some q) (Some x) k) m = Some ((spec (InsertOrdered (Some q) (Some x) k) a).1, m') ∧
    represents m' (spec (InsertOrdered (Some q) (Some x) k) a).2.
Proof.
  intros R Hp. destruct (points_queue _ _ _ _ R Hp) as (l & Hl & Hq).
  destruct (points_node _ _ _ _ R Hp) as (n & Hn & Hk & Hf & Hi). cbn [run wait_queue_insert_ordered_locked].
  rewrite Hn. cbn [mbind option_bind]. cbn [spec].
  destruct (decide (queued a x)) as [Hx|Hx].
  { destruct (queue n); [by exists m|]. by destruct (proj1 Hf eq_refl). }
  rewrite (proj2 Hf Hx). set (m1 := set_node x (Node (next n) (Some q) k) m).
  change (queues m1) with (queues m). rewrite Hq, Hl. cbn [mbind option_bind head default fst snd].
  assert (x ∉ l) as Hxl by (intros Hxl; apply Hx; by exists q, l). destruct (walk_from_head m m1 a q l (λ _ n, k <? key n) R Hl) as (j & Hw & Hj & H1 & H2).
  { intros y Hy. cbn. by rewrite lookup_insert_ne by congruence. }
  { subst m1. cbn. rewrite map_size_insert_Some by done. done. }
  rewrite Hw. cbn [mbind option_bind]. rewrite (insert_sorted_at _ _ _ _ j); [| | |].
  - destruct (link_ok m q l x j n k Hn Hq Hj) as (m' & Hrun & Hqo & Hqn & Hnx & Hnb & Hno).
    { intros y Hy. split; [by intros ->|]. destruct (rep_member _ _ _ _ _ R Hl Hy) as (ny & -> & _). by eexists. }
    exists m'. split; [|by eapply insert_represents].
    fold m1 in Hrun. cbn [mbind option_bind] in Hrun. rewrite Hrun. done.
  - done.
  - intros i y Hij Hy. destruct (rep_queued _ _ R _ _ _ _ Hl Hy) as (ky & -> & Hny).
    specialize (H1 i y _ Hij Hy Hny). cbn in *. by apply Z.ltb_ge in H1.
  - intros y Hy. destruct (rep_queued _ _ R _ _ _ _ Hl Hy) as (ky & -> & Hny).
    specialize (H2 y _ Hy Hny). cbn in *. by apply Z.ltb_lt in H2.
Qed.

(** The member at position [j] goes out. *)
Lemma delete_represents m a q l x j n m' :
  represents m a → members a !! q = Some l → l !! j = Some x → nodes m !! x = Some n →
  (∀ p, p ≠ q → queues m' !! p = queues m !! p) →
  queues m' !! q = Some (Queue (delete j l !! 0%nat) (list.last (delete j l))) →
  nodes m' !! x = Some (Node None None (key n)) →
  (∀ y n, before l j = Some y → nodes m !! y = Some n → nodes m' !! y = Some (Node (l !! S j) (queue n) (key n))) →
  (∀ y, y ≠ x → before l j ≠ Some y → nodes m' !! y = nodes m !! y) →
  represents m' (relist q (delete j l) a).
Proof.
  intros R Hl Hj Hn Hqo Hqn Hnx Hnb Hno. pose proof (rep_distinct _ _ R _ _ Hl) as Hd.
  assert (∀ y, y ∈ delete j l ↔ y ≠ x ∧ y ∈ l) as Hin.
  { intros y. rewrite !list_elem_of_lookup. split.
    - intros (i & Hi). destruct (decide (i < j)%nat).
      + rewrite list_lookup_delete_lt in Hi by done. split; [|by exists i]. intros ->. pose proof (NoDup_lookup l _ _ x Hd Hi Hj). lia.
      + rewrite list_lookup_delete_ge in Hi by lia. split; [|by eexists]. intros ->. pose proof (NoDup_lookup l _ _ x Hd Hi Hj). lia.
    - intros [Hyx (i & Hi)]. assert (i ≠ j) by congruence. destruct (decide (i < j)%nat).
      + exists i. by rewrite list_lookup_delete_lt.
      + exists (pred i). rewrite list_lookup_delete_ge by lia. by replace (S (pred i)) with i by lia. }
  destruct (rep_queued _ _ R _ _ _ _ Hl Hj) as (kx & Hkx & Hnx').
  assert (kx = key n) as -> by (rewrite Hn in Hnx'; by injection Hnx' as ->).
  eapply represents_update; [done|done| |done|done| | | |].
  - rewrite delete_take_drop. rewrite <- (take_drop_middle _ _ _ Hj) in Hd. apply list.NoDup_app in Hd as (D1 & D2 & D3).
    apply list.NoDup_cons in D3 as [_ D3]. apply list.NoDup_app. split_and!; [done| |done].
    intros y Hy Hy'. apply (D2 y Hy). by apply elem_of_cons; right.
  - intros i y Hy. assert (y ∈ delete j l) as [Hyx _]%Hin by (by eapply list_elem_of_lookup_2).
    destruct (decide (i < j)%nat) as [Hij|Hij].
    + rewrite list_lookup_delete_lt in Hy by done. destruct (rep_queued _ _ R _ _ _ _ Hl Hy) as (k & Hk & Hny).
      exists k. split; [done|]. destruct (decide (S i = j)) as [<-|E].
      * rewrite list_lookup_delete_ge by lia. exact (Hnb y _ Hy Hny).
      * rewrite list_lookup_delete_lt by lia. rewrite Hno; [done|done|]. destruct j as [|j']; [done|]. cbn [before].
        intros Hb. apply E. f_equal. by apply (NoDup_lookup l _ _ y).
    + rewrite list_lookup_delete_ge in Hy by lia. destruct (rep_queued _ _ R _ _ _ _ Hl Hy) as (k & Hk & Hny).
      exists k. split; [done|]. rewrite list_lookup_delete_ge by lia. rewrite Hno; [done|done|].
      destruct j as [|j']; [done|]. cbn [before]. intros Hb. pose proof (NoDup_lookup l _ _ y Hd Hy Hb). lia.
  - intros y Hy Hy'. rewrite Hin in Hy'. destruct (decide (y = x)) as [->|]; [eauto|tauto].
  - intros y Hy Hy'. split; [|done]. apply Hno.
    + intros ->. apply Hy. by eapply list_elem_of_lookup_2.
    + destruct j as [|j']; [done|]. cbn [before]. intros Hb. apply Hy. by eapply list_elem_of_lookup_2.
  - intros y [_ ?]%Hin ?. done.
Qed.

Lemma delete_last j (l : list Z) :
  (j < length l)%nat →
  list.last (delete j l) = if decide (S j = length l) then before l j else list.last l.
Proof.
  intros Hj. rewrite !last_lookup. rewrite length_delete by (by apply lookup_lt_is_Some_2).
  destruct (decide (S j = length l)) as [E|E].
  - destruct j as [|j]; cbn [before].
    + rewrite <- E. cbn. by rewrite list_lookup_delete_ge, lookup_ge_None_2 by lia.
    + rewrite list_lookup_delete_lt by lia. f_equal. lia.
  - rewrite list_lookup_delete_ge by lia. f_equal. lia.
Qed.

Lemma filter_delete x : ∀ (l : list Z) j, NoDup l → l !! j = Some x → base.filter (.≠ x) l = delete j l.
Proof.
  induction l as [|y l IH]; intros j Hd Hj; [done|]. apply list.NoDup_cons in Hd as [Hy Hd].
  destruct j as [|j]; cbn in Hj.
  - injection Hj as ->. rewrite filter_cons_False by tauto. change (delete 0%nat (x :: l)) with l.
    clear IH Hd. induction l as [|z l IHl]; [done|]. rewrite elem_of_cons in Hy. rewrite filter_cons_True by (intros ->; tauto).
    f_equal. apply IHl. tauto.
  - assert (y ≠ x) by (intros ->; apply Hy; by eapply list_elem_of_lookup_2).
    rewrite filter_cons_True by done. change (delete (S j) (y :: l)) with (y :: delete j l). f_equal. by apply IH.
Qed.

Lemma pop_ok q m a :
  represents m a → points a (Some q) None →
  ∃ m', run (Pop (Some q)) m = Some ((spec (Pop (Some q)) a).1, m') ∧ represents m' (spec (Pop (Some q)) a).2.
Proof.
  intros R Hp. destruct (points_queue _ _ _ _ R Hp) as (l & Hl & Hq). cbn. rewrite Hq, Hl. cbn.
  destruct l as [|x l]; [by exists m|]. cbn [lookup list_lookup].
  destruct (rep_queued _ _ R q (x :: l) 0%nat x Hl eq_refl) as (k & Hk & Hn). rewrite Hn. cbn. eexists. split; [done|].
  apply (delete_represents m a q (x :: l) x 0 _ _ R Hl eq_refl Hn); cbn.
  - intros p Hpq. by rewrite lookup_insert_ne.
  - rewrite lookup_insert_eq. change (delete 0%nat (x :: l)) with l. by destruct l.
  - by rewrite lookup_insert_eq.
  - done.
  - intros y Hy _. by rewrite lookup_insert_ne.
Qed.

Lemma last_position (l : list Z) j x : NoDup l → l !! j = Some x → list.last l = Some x ↔ S j = length l.
Proof.
  intros Hd Hj. pose proof (lookup_lt_Some _ _ _ Hj). rewrite last_lookup. split.
  - intros Hl. pose proof (NoDup_lookup l _ _ x Hd Hj Hl). lia.
  - intros <-. done.
Qed.

Lemma delete_head j (l : list Z) : delete j l !! 0%nat = match j with O => l !! 1%nat | S _ => l !! 0%nat end.
Proof. destruct j; [by rewrite list_lookup_delete_ge|by rewrite list_lookup_delete_lt by lia]. Qed.

(** The writes that take the member at position [j] out. *)
Lemma unlink_ok m q l x j n :
  NoDup l → l !! j = Some x → nodes m !! x = Some n → next n = l !! S j →
  queues m !! q = Some (Queue (l !! 0%nat) (list.last l)) → (∀ y, y ∈ l → is_Some (nodes m !! y)) →
  ∃ m', (m1 ← link q (before l j) (next n) m;
         r ← queues m1 !! q;
         m2 ← (if bool_decide (tail r = Some x) then set_tail q (before l j) m1 else Some m1);
         cn ← nodes m2 !! x;
         Some (true, set_node x (Node None None (key cn)) m2)) = Some (true, m') ∧
    (∀ p, p ≠ q → queues m' !! p = queues m !! p) ∧
    queues m' !! q = Some (Queue (delete j l !! 0%nat) (list.last (delete j l))) ∧
    nodes m' !! x = Some (Node None None (key n)) ∧
    (∀ y n, before l j = Some y → nodes m !! y = Some n → nodes m' !! y = Some (Node (l !! S j) (queue n) (key n))) ∧
    (∀ y, y ≠ x → before l j ≠ Some y → nodes m' !! y = nodes m !! y).
Proof.
  intros Hd Hj Hn Hnext Hq Hy. pose proof (lookup_lt_Some _ _ _ Hj) as Hlt.
  pose proof (last_position l j x Hd Hj) as Hlast. rewrite delete_head, delete_last, Hnext by done.
  unfold link, set_next, set_tail, set_queue, set_node. destruct j as [|j]; cbn [before].
  - rewrite Hq. cbn. rewrite lookup_insert_eq. cbn. destruct (decide (1%nat = length l)) as [E|E].
    + rewrite bool_decide_eq_true_2 by by apply Hlast. cbn. rewrite Hn. cbn.
      eexists. split; [done|]. cbn. split_and!.
      * intros p Hp. by rewrite !lookup_insert_ne.
      * by rewrite lookup_insert_eq.
      * by rewrite lookup_insert_eq.
      * done.
      * intros y Hyx _. by rewrite lookup_insert_ne.
    + rewrite bool_decide_eq_false_2 by (by rewrite Hlast). cbn. rewrite Hn. cbn.
      eexists. split; [done|]. cbn. split_and!.
      * intros p Hp. by rewrite !lookup_insert_ne.
      * by rewrite lookup_insert_eq.
      * by rewrite lookup_insert_eq.
      * done.
      * intros y Hyx _. by rewrite lookup_insert_ne.
  - destruct (l !! j) as [y|] eqn:Ey; [|apply lookup_ge_None in Ey; lia].
    destruct (Hy y (list_elem_of_lookup_2 _ _ _ Ey)) as (ny & Hny).
    assert (y ≠ x) as Hyx by (intros ->; pose proof (NoDup_lookup l _ _ x Hd Ey Hj); lia).
    rewrite Hny. cbn. rewrite Hq. cbn. destruct (decide (S (S j) = length l)) as [E|E].
    + rewrite bool_decide_eq_true_2 by by apply Hlast. cbn. rewrite lookup_insert_ne, Hn by done. cbn.
      eexists. split; [done|]. cbn. split_and!.
      * intros p Hp. by rewrite !lookup_insert_ne.
      * by rewrite lookup_insert_eq.
      * by rewrite lookup_insert_eq.
      * intros z nz [= <-] Hz. simplify_eq. rewrite lookup_insert_ne by done. by rewrite lookup_insert_eq.
      * intros z Hzx Hz. by rewrite !lookup_insert_ne by congruence.
    + rewrite bool_decide_eq_false_2 by (by rewrite Hlast). cbn. rewrite lookup_insert_ne, Hn by done. cbn.
      eexists. split; [done|]. cbn. split_and!.
      * done.
      * done.
      * by rewrite lookup_insert_eq.
      * intros z nz [= <-] Hz. simplify_eq. rewrite lookup_insert_ne by done. by rewrite lookup_insert_eq.
      * intros z Hzx Hz. by rewrite !lookup_insert_ne by congruence.
Qed.

Lemma remove_ok q x m a :
  represents m a → points a (Some q) (Some x) →
  ∃ m', run (Remove (Some q) (Some x)) m = Some ((spec (Remove (Some q) (Some x)) a).1, m') ∧
    represents m' (spec (Remove (Some q) (Some x)) a).2.
Proof.
  intros R Hp. destruct (points_queue _ _ _ _ R Hp) as (l & Hl & Hq).
  destruct (points_node _ _ _ _ R Hp) as (n & Hn & _ & _ & Hi). cbn [run wait_queue_remove_locked spec].
  rewrite Hn, Hl. cbn [mbind option_bind from_option fst snd]; unfold id. specialize (Hi q l Hl).
  destruct (decide (x ∈ l)) as [Hx|Hx].
  2:{ rewrite bool_decide_eq_false_2 by tauto. exists m. split; [reflexivity|exact R]. }
  rewrite bool_decide_eq_true_2 by tauto. cbn [negb]. rewrite Hq. cbn [mbind option_bind head].
  destruct (walk_from_head m m a q l (λ c _, c =? x) R Hl) as (j & Hw & Hj & H1 & H2); [done|done|].
  rewrite Hw. cbn [mbind option_bind].
  apply list_elem_of_lookup_1 in Hx as (i & Hxi). pose proof (rep_distinct _ _ R _ _ Hl) as Hd.
  assert (l !! j = Some x) as Hxj.
  { destruct (l !! j) as [y|] eqn:Ey.
    - destruct (rep_queued _ _ R _ _ _ _ Hl Ey) as (k & _ & Hny). specialize (H2 y _ eq_refl Hny). apply Z.eqb_eq in H2. congruence.
    - apply lookup_ge_None in Ey. pose proof (lookup_lt_Some _ _ _ Hxi) as Hlt.
      specialize (H1 i x n ltac:(lia) Hxi Hn). by rewrite Z.eqb_refl in H1. }
  rewrite Hxj, Hn. cbn [mbind option_bind].
  destruct (rep_queued _ _ R _ _ _ _ Hl Hxj) as (k & _ & Hn').
  destruct (unlink_ok m q l x j n Hd Hxj Hn) as (m' & Hrun & Hqo & Hqn & Hnx & Hnb & Hno); [rewrite Hn in Hn'; by injection Hn' as ->|done| | ].
  { intros y Hy. destruct (rep_member _ _ _ _ _ R Hl Hy) as (ny & -> & _). by eexists. }
  exists m'. cbn [mbind option_bind] in Hrun. rewrite Hrun. split; [done|].
  rewrite (filter_delete x l j Hd Hxj). refine (delete_represents m a q l x j n m' R Hl Hxj Hn Hqo Hqn Hnx Hnb Hno).
Qed.

(** Every call from a caller that keeps to the rules. *)
Lemma operation_ok op m a :
  represents m a → admissible op a → ∃ m', run op m = Some ((spec op a).1, m') ∧ represents m' (spec op a).2.
Proof.
  intros R Ha. destruct op as [q|q|q x|q x k|q|q x].
  - by apply init_queue_ok.
  - exists m. split; [by rewrite (is_empty_ok q m a)|done].
  - destruct q as [q|]; [|by exists m]. destruct x as [x|]; [|by exists m]. by apply push_ok.
  - destruct q as [q|]; [|by exists m]. destruct x as [x|]; [|by exists m]. by apply insert_ordered_ok.
  - destruct q as [q|]; [|by exists m]. by apply pop_ok.
  - destruct q as [q|]; [|by exists m]. destruct x as [x|]; [|by exists m]. by apply remove_ok.
Qed.

(** ** Runs *)
Fixpoint run_all (ops : list operation) (m : memory) : option (list answer * memory) :=
  match ops with
  | [] => Some ([], m)
  | op :: ops => '(r, m) ← run op m; '(rs, m) ← run_all ops m; Some (r :: rs, m)
  end.

Fixpoint spec_all (ops : list operation) (a : lists) : list answer * lists :=
  match ops with
  | [] => ([], a)
  | op :: ops => let '(r, a) := spec op a in let '(rs, a) := spec_all ops a in (r :: rs, a)
  end.

Fixpoint admissible_all (ops : list operation) (a : lists) : Prop :=
  match ops with
  | [] => True
  | op :: ops => admissible op a ∧ admissible_all ops (spec op a).2
  end.

(** Keys in order of position. *)
Definition by_deadline (ks : gmap Z Z) (l : list Z) : Prop :=
  StronglySorted (λ x y, default 0 (ks !! x) <= default 0 (ks !! y)) l.

Definition in_order (q : Z) (a : lists) : Prop := ∀ l, members a !! q = Some l → by_deadline (keys a) l.

Lemma by_deadline_keys ks x k l : x ∉ l → by_deadline ks l → by_deadline (<[x := k]> ks) l.
Proof.
  unfold by_deadline. intros Hx. induction 1 as [|y l Hs IH Hy]; [constructor|]. rewrite elem_of_cons in Hx.
  constructor; [apply IH; tauto|]. rewrite list.Forall_forall in Hy |- *. intros z Hz.
  rewrite !lookup_insert_ne by (intros ->; tauto). by apply Hy.
Qed.

Lemma insert_sorted_members ks k x l y : y ∈ insert_sorted ks k x l ↔ y = x ∨ y ∈ l.
Proof.
  induction l as [|z l IH]; cbn [insert_sorted]; [by rewrite list_elem_of_singleton, elem_of_nil; tauto|].
  destruct (_ <? _); rewrite !elem_of_cons; [|rewrite IH]; tauto.
Qed.

Lemma by_deadline_insert ks x k l :
  x ∉ l → by_deadline ks l → by_deadline (<[x := k]> ks) (insert_sorted ks k x l).
Proof.
  intros Hx Hs. pose proof (by_deadline_keys ks x k l Hx Hs) as Hs'. unfold by_deadline in *.
  induction l as [|y l IH]; cbn [insert_sorted]; [by repeat constructor|]. rewrite elem_of_cons in Hx.
  apply StronglySorted_inv in Hs as [Hs Hy]. pose proof Hs' as Hall. apply StronglySorted_inv in Hs' as [Hs' Hy'].
  rewrite list.Forall_forall in Hy, Hy'. destruct (Z.ltb_spec k (default 0 (ks !! y))).
  - constructor; [done|]. apply list.Forall_forall. intros z [->|Hz]%elem_of_cons; rewrite lookup_insert_eq; cbn [default].
    + rewrite lookup_insert_ne by (intros ->; tauto). cbn. lia.
    + specialize (Hy z Hz). rewrite lookup_insert_ne by (intros ->; tauto). cbn. lia.
  - constructor; [apply IH; tauto|]. apply list.Forall_forall. intros z [->|Hz]%insert_sorted_members; [|by apply Hy'].
    rewrite lookup_insert_eq, lookup_insert_ne by (intros ->; tauto). cbn. lia.
Qed.

Lemma by_deadline_filter ks x l : by_deadline ks l → by_deadline ks (base.filter (.≠ x) l).
Proof.
  unfold by_deadline. induction 1 as [|y l Hs IH Hy]; [constructor|]. rewrite filter_cons. destruct (decide (y ≠ x)); [|done].
  constructor; [done|]. rewrite list.Forall_forall in Hy |- *. intros z [_ Hz]%list_elem_of_filter. by apply Hy.
Qed.

Lemma in_order_relist p q l a : (p = q → by_deadline (keys a) l) → in_order p a → in_order p (relist q l a).
Proof.
  intros Hl Ho l'. cbn [members keys relist]. destruct (decide (p = q)) as [->|Hne].
  - rewrite lookup_insert_eq. intros [= <-]. by apply Hl.
  - rewrite lookup_insert_ne by done. apply Ho.
Qed.

(** Only [push] can put a queue out of order. *)
Lemma spec_in_order q op a :
  (∀ x, op ≠ Push (Some q) x) → admissible op a → in_order q a → in_order q (spec op a).2.
Proof.
  intros Hop Ha Ho. destruct op as [[p|]|p|[p|] [x|]|[p|] [x|] k|[p|]|[p|] [x|]]; cbn [spec snd]; try done.
  - apply in_order_relist; [constructor|done].
  - destruct (decide (queued a x)); [done|]. apply in_order_relist; [|done]. intros <-. by destruct (Hop (Some x)).
  - destruct (decide (queued a x)) as [|Hx]; [done|]. cbn [snd]. intros l. cbn [members keys].
    destruct (decide (q = p)) as [->|Hne].
    + rewrite lookup_insert_eq. intros [= <-]. destruct Ha as [Hp _]. destruct (Hp p eq_refl) as (l & Hl). rewrite Hl. cbn [default].
      apply by_deadline_insert; [|by apply Ho]. intros Hxl. apply Hx. by exists p, l.
    + rewrite lookup_insert_ne by done. intros Hl. apply by_deadline_keys; [|by apply Ho]. intros Hxl. apply Hx. by exists q, l.
  - destruct (members a !! p) as [[|x l]|] eqn:Hl; [done| |done]. apply in_order_relist; [|done]. intros <-.
    by apply Ho, StronglySorted_inv in Hl as [? _].
  - destruct (decide _) as [Hx|]; [|done]. apply in_order_relist; [|done]. intros <-. apply by_deadline_filter.
    destruct (members a !! q) as [l|] eqn:Hl; [by apply Ho|constructor].
Qed.

(** C40: the pointers of the wait queues are the lists they stand for.  From a
    memory in which they are, any sequence of calls on existing queues and nodes
    (or NULL), in which a queue is initialised again only when it is empty,
    follows no stray pointer, ends every walk and gives the answers of the
    lists: a node is on one list at most, [push] puts it at the end,
    [insert_ordered] behind every member whose key is not larger, [pop] takes
    the first, [remove] takes exactly the named one.  A queue that is never
    pushed to stays in the order of its keys, so that [pop] gives the earliest
    deadline. *)
Theorem wait_queue_refines_lists ops m a :
  represents m a → admissible_all ops a →
  ∃ m', run_all ops m = Some ((spec_all ops a).1, m') ∧ represents m' (spec_all ops a).2 ∧
    ∀ q, (∀ x, Push (Some q) x ∉ ops) → in_order q a → in_order q (spec_all ops a).2.
Proof.
  revert m a. induction ops as [|op ops IH]; intros m a R Ha; [by exists m|]. destruct Ha as [Ha Hall].
  destruct (operation_ok op m a R Ha) as (m1 & E1 & R1). destruct (IH m1 _ R1 Hall) as (m2 & E2 & R2 & O2).
  exists m2. cbn [run_all spec_all]. rewrite E1. cbn [mbind option_bind]. rewrite E2. cbn [mbind option_bind].
  pose proof (λ q Hop, spec_in_order q op a Hop Ha) as O1.
  destruct (spec op a) as [r a1]. cbn [fst snd] in *. destruct (spec_all ops a1) as [rs a2]. cbn [fst snd] in *.
  split; [done|]. split; [done|]. intros q Hq Ho. apply O2; [|apply O1; [|done]].
  - intros x Hx. apply (Hq x). by apply elem_of_cons; right.
  - intros x ->. apply (Hq x), list_elem_of_here.
Qed.

(** Two queues and three nodes; the nodes wait for deadlines on queue 1, then
    the first is woken early and waits on queue 2. *)
Definition idle_lists : lists := Lists {[1 := []; 2 := []]} {[10 := 0; 11 := 0; 12 := 0]}.
Definition idle_memory : memory :=
  Memory {[10 := Node None None 0; 11 := Node None None 0; 12 := Node None None 0]}
    {[1 := Queue None None; 2 := Queue None None]}.
Definition sample_calls : list operation :=
  [InsertOrdered (Some 1) (Some 10) 300; InsertOrdered (Some 1) (Some 11) 100; InsertOrdered (Some 1) (Some 12) 300;
   Push (Some 2) (Some 10); Remove (Some 1) (Some 10); Push (Some 2) (Some 10); Pop (Some 1); Pop (Some 1); Pop (Some 1);
   IsEmpty (Some 2); Remove (Some 1) (Some 10)].

Lemma idle_represents : represents idle_memory idle_lists.
Proof.
  assert (∀ q l, members idle_lists !! q = Some l → l = []) as Hm.
  { intros q l. cbn. rewrite lookup_insert_Some, lookup_singleton_Some. intros [[_ <-]|[_ [_ <-]]]; done. }
  split.
  - intros q. cbn. destruct (decide (q = 1)) as [->|]; [done|]. rewrite !lookup_insert_ne by done.
    destruct (decide (q = 2)) as [->|]; [done|]. by rewrite !lookup_singleton_ne.
  - intros q l i x Hl Hi. by rewrite (Hm q l Hl) in Hi.
  - intros x k Hk _. cbn in Hk. rewrite !lookup_insert_Some, lookup_singleton_Some in Hk.
    destruct Hk as [[<- <-]|[_ [[<- <-]|[_ [<- <-]]]]]; reflexivity.
  - intros x Hk. cbn in Hk |- *. rewrite !lookup_insert_None, lookup_singleton_None in Hk. by rewrite !lookup_insert_None, lookup_singleton_None.
  - intros q l ->%Hm. constructor.
Qed.

Lemma wait_queue_refines_lists_witness :
  ∃ m', run_all sample_calls idle_memory = Some ([Said true; Said true; Said true; Said false; Said true; Said true;
      Popped (Some 11); Popped (Some 12); Popped None; Said false; Said false], m') ∧
    represents m' (spec_all sample_calls idle_lists).2 ∧ in_order 1 (spec_all sample_calls idle_lists).2 ∧
    members (spec_all sample_calls idle_lists).2 !! 2 = Some [10].
Proof.
  assert (admissible_all sample_calls idle_lists) as Ha.
  { cbn [sample_calls admissible_all].
    repeat (split; [split; intros i [=]; subst i; eexists; vm_compute; reflexivity|]). exact I. }
  destruct (wait_queue_refines_lists sample_calls idle_memory idle_lists idle_represents Ha) as (m' & E & R & O).
  exists m'. split; [rewrite E; vm_compute; reflexivity|]. split; [exact R|]. split; [|vm_compute; reflexivity].
  apply O.
  - intros x Hx. repeat (apply elem_of_cons in Hx as [[=]|Hx]). by apply elem_of_nil in Hx.
  - intros l Hl. vm_compute in Hl. injection Hl as <-. constructor.
Defined.
